(* ===== verification/_CoqProject ===== *)
-Q . S2P
Prelude.v
JsText.v
LineHash.v
HashlineTypes.v
HashlineStream.v
Anchors.v
HashlineParser.v
HashlineSyntax.v
HashlineApply.v
HashlineApplySpec.v
HashlineApplyFacts.v
HashlineContract.v
HashlineReplace.v
FileReadCache.v
LineDiff.v
HashlineRecovery.v
TextNormalize.v
HashlineInput.v
HashlineExecute.v
Json.v
HarnessLifecycle.v
HarnessReceipts.v
HarnessFinalize.v
HarnessRecovery.v
HarnessOperate.v
HarnessIngest.v
HarnessLease.v
PathMutationLock.v
RateLimitPool.v
RateLimitFacts.v
GoalRuntime.v
GoalFacts.v
RunLedger.v
RunLedgerFacts.v
ToolChoiceQueue.v
JsValue.v
WireSchema.v
StablePrefix.v
StablePrefixFacts.v
AppendOnlyContext.v
AppendOnlyFacts.v
Indentation.v
Levenshtein.v
FuzzyMatch.v
FuzzyFacts.v
DiffHunks.v
DiffHunksFacts.v
DiffRoundTrip.v
PatchIndent.v
PatchVariants.v
PatchApply.v
PatchFacts.v
ReplaceText.v
PatchSplice.v
PatchFiles.v
ApplyPatchEnvelope.v
PatchEndToEnd.v
RingBuffer.v
Calculator.v
ShellWords.v
WorkflowManifest.v
JsonText.v
StateArgv.v
BashPrefixes.v
ReverseLeases.v
ReverseLeaseFacts.v
SessionEntries.v
Compaction.v
SessionContext.v
CompactionFacts.v
CompactionBounds.v
SecretObfuscator.v
SecretFacts.v
SecretSources.v
FallbackChain.v
AttemptScope.v
AttemptRecords.v
Pruning.v
PruningFacts.v
ArgumentPruning.v
