(* ===== verification/Prelude.v ===== *)
(** * Gajae-Code: a verification development

    Gajae-Code (gjc) is a coding agent: a session talks to a model, the model edits
    files through tools, a harness drives sessions without a human, and a bus carries
    messages to a chat.  This library models parts of packages/coding-agent/src,
    packages/agent/src and packages/utils/src that decide something: what an edit does to a
    file, when an unattended session may be called complete or restarted, what is charged to
    a goal, who may send a message next, when a run is over, which commands a restricted
    agent may run, and who answers a call the session makes to its clients.

    ** The parts and how they interact

    The edit path.  A read prints every line with an anchor, its number and a
    two-letter hash of its text.  The model answers with a diff in the hashline
    language that refers to lines by anchor.  The diff is split into sections by file,
    parsed into edits, checked against the current text, and applied; if anchors are
    stale, the batch may be replayed on a snapshot of what the model was shown.  The
    result is shown as a preview that carries new anchors.  Concurrent edits of one
    file are kept apart by a lock per path.

    - [LineHash]: hashline/hash.ts, the hash of a line and the printing of rows.
    - [HashlineTypes]: hashline/types.ts, constants.ts.
    - [HashlineStream]: hashline/stream.ts, printing a byte stream in chunks.
    - [Anchors]: hashline/anchors.ts, anchors and the report of a rejected batch.
    - [HashlineParser], [HashlineSyntax]: hashline/parser.ts, and a writer of diffs to
      state what the parser reads.
    - [HashlineApply]: hashline/apply.ts.  [HashlineApplySpec] is the declarative
      meaning of a batch (for each gap the texts inserted there, and the set of deleted
      lines), [HashlineApplyFacts] the correctness of the absorption of duplicated
      lines, [HashlineContract] and [HashlineReplace] the theorems for callers.
    - [FileReadCache]: edit/file-read-cache.ts.  The cache holds shared mutable
      snapshots, so it is a heap with locations.
    - [LineDiff]: edit/diff.ts (numbered diff) and hashline/diff-preview.ts.
    - [HashlineRecovery]: hashline/recovery.ts.
    - [TextNormalize]: edit/normalize.ts (line endings and byte order mark; the rest of
      the file is in [Indentation] and [FuzzyMatch]).
    - [HashlineInput], [HashlineExecute]: hashline/input.ts, hashline/execute.ts,
      edit/read-file.ts, the tool call as a whole.
    - [PathMutationLock]: edit/path-mutation-lock.ts, the mutexes as a step relation
      over any number of concurrent edits.

    The other edit modes take a text to replace, a diff, or an envelope of diffs, and find
    the place themselves, by searches of decreasing strictness.

    - [Indentation]: edit/normalize.ts, indentation of a replacement.
    - [Levenshtein], [FuzzyMatch]: edit/modes/replace.ts, the distance, the scores and the
      searches; [FuzzyFacts] what a search promises.
    - [ReplaceText]: replaceText of edit/diff.ts and the replace tool.
    - [DiffHunks]: the diff parser of edit/diff.ts; [DiffHunksFacts] its termination and the
      partition of the lines it reads, [DiffRoundTrip] a writer of diffs.
    - [PatchIndent], [PatchVariants], [PatchApply]: edit/modes/patch.ts, from hunks to the
      new text; [PatchFacts], [PatchSplice] their theorems.
    - [PatchFiles]: applyPatch on a disk that others may change at every await;
      [PatchEndToEnd] the parts together.
    - [ApplyPatchEnvelope]: edit/apply-patch/ and edit/modes/apply-patch.ts,
      with a writer of envelopes.

    The harness.  harness-control-plane drives one session through a state machine;
    receipts (JSON values anybody may have written) are the evidence for its moves.

    - [Json]: JSON values and the canonical text a digest is taken of.
    - [HarnessLifecycle]: types.ts, state-machine.ts.
    - [HarnessReceipts]: receipts.ts (validators, builders, roll-ups).
    - [HarnessFinalize]: finalize.ts and the receipt store of storage.ts.
    - [HarnessRecovery]: classifier.ts, lifecycle-reconciliation.ts, and the
      single-flight submission of session-transport.ts.
    - [HarnessOperate]: operate.ts, the loop, with its effects as a trace.
    - [HarnessIngest]: receipt-ingest.ts.
    - [HarnessLease]: session-lease.ts, as steps on the content of the lease file.

    The session's services.

    - [GoalRuntime]: goals/state.ts and goals/runtime.ts, the life cycle of a goal and
      the accounting of tokens and time; [GoalFacts] its theorems, over sessions with
      counters of what was really spent.
    - [RunLedger]: agent/src/run-resource-ledger.ts, the fence around a run;
      [RunLedgerFacts] its invariant and theorems.
    - [RateLimitPool]: sdk/bus/rate-limit-pool.ts, the token bucket and scheduler all
      sessions of a host share; [RateLimitFacts] its theorems.
    - [ToolChoiceQueue]: session/tool-choice-queue.ts, the tool choices forced on the
      next turns.
    - [JsValue], [WireSchema], [StablePrefix], [AppendOnlyContext]:
      agent/src/append-only-context.ts with the functions it calls of agent-loop.ts and
      ai/src/utils/schema/wire.ts.  A request is a frozen prefix and a log of messages;
      [JsValue] has the values of the language with JSON, [WireSchema] the schemas of
      tools, [StablePrefixFacts] and [AppendOnlyFacts] the theorems.
    - [ReverseLeases]: sdk/host/reverse-leases.ts, the calls a session makes to the clients
      connected to it; [ReverseLeaseFacts] its theorems, over runs.
    - [RingBuffer]: utils/src/ring.ts.
    - [FallbackChain]: session/fallback-chain-controller.ts, which model is asked next, and when.
    - [AttemptScope]: agent/src/attempt-scope.ts, whose events still count; [AttemptRecords]:
      session/attempt-record-store.ts on top of it, which attempts may be repeated.

    Secrets.  Values that must not reach a model are hidden in what is sent and put back into
    what comes.

    - [SecretSources]: secrets/index.ts and the path tests of utils/src/dirs.ts, which values are
      secrets.
    - [SecretObfuscator]: secrets/obfuscator.ts and secrets/regex.ts; [SecretFacts] its theorems.

    Compaction.  A session is a tree of entries; when the context of the model is nearly full
    an older part of the current path is replaced by a summary.

    - [SessionEntries]: agent/src/compaction/entries.ts, messages.ts and utils.ts, the entries,
      the messages a model is sent and the lists of files a summary carries.
    - [Compaction]: agent/src/compaction/compaction.ts, the thresholds, the token estimates with
      their cache, the cut, the preparation and the text that is summarised.
    - [SessionContext]: session/session-manager.ts, the context of an entry and the compaction
      appended to it.
    - [CompactionFacts], [CompactionBounds]: their theorems.
    - [Pruning]: agent/src/compaction/pruning.ts, which outputs of tools are stale or old, and their
      replacement by notices with digests (utils/src/sanitize-text.ts); [PruningFacts] its theorems.
    - [ArgumentPruning]: the replacement of the arguments of edits, of the same file.

    Commands.  A role agent runs shell commands and workflow commands under restrictions; the
    check and the program that later runs must agree on what a command is.

    - [ShellWords], [BashPrefixes]: tools/bash-allowed-prefixes.ts, the words of a command
      and the check; the shell that runs the command is a parameter.
    - [WorkflowManifest]: gjc-runtime/workflow-manifest.ts, skill-state/canonical-skills.ts and
      skill-state/initial-phase.ts, the phases, verbs and arguments of the workflow skills.
    - [JsonText]: JSON.parse, with the text it reads.
    - [StateArgv]: gjc-runtime/state-argv.ts, and of gjc-runtime/state-runtime.ts what the state
      command takes from it.
    - [Calculator]: tools/calculator.ts.

    ** What the theorems show

    Edits: what can be written is parsed back ([parse_write_roundtrip]); a batch is
    accepted exactly when its anchors are current ([apply_outcome]) and then has its
    declarative meaning ([apply_refines_render]); a replacement written with the
    anchors of a file replaces exactly those lines ([replace_range_end_to_end]);
    absorbing duplicated lines touches nothing else ([absorption_safe]); an input of
    several files is checked before anything is written ([batch_checked_first]) and
    lands as a whole ([batch_lands]); recovery never uses a line the snapshot does not
    vouch for ([recovery_sound]); the locks exclude and never deadlock
    ([path_locks_exclusive], [path_locks_no_deadlock]).

    Diffs: a diff is always read to its end, each line once ([parse_hunks_terminates]) and what can be
    written is read back ([hunks_roundtrip], [envelope_roundtrip]); a search only reports
    places inside the file, and an exact occurrence first ([seek_finds_in_range]), by a
    distance that is the least cost of an edit script ([levenshtein_least]); a patch
    puts each hunk into a range of its own and keeps the rest, where its lines have no breaks and, for
    fuzzy matching, no old line is blank and the native scorers agree with the source's
    ([patch_replaces_ranges]); hunks that occur as they stand do exactly what they say
    ([exact_hunks_apply]), down to the file on disk ([diff_applies_to_disk]); an operation
    writes only what it reports, and an update only after it has read the same text twice
    ([patch_writes_safely], with the change that is lost between the second read and the write as the
    example [change_in_window_lost]); one replacement changes one
    place ([replace_one_place], [replace_all_occurrences]), and adjusting indentation
    changes nothing else ([adjust_only_indentation]).  What the searches get wrong is
    proved next to them as examples, a replacement that never ends among them
    ([replace_all_endless]).

    Harness: completion needs evidence, in the finalizer, in the loop and in the
    ingestion of receipts ([finalize_completed_on_evidence],
    [operate_completes_on_evidence], [ingest_fails_closed]); nothing destructive is
    done about a vanished session without a stored receipt ([operate_vanish_gate]), and
    never where work could be lost ([classifier_never_loses_data]); receipts are tamper
    evident under collision freedom of the digest ([receipt_tamper_evident]); an owner that is
    alive and does not release keeps its lease ([lease_single_owner]).

    Services: a stored goal is read back and nothing ill formed is read ([persisted_goal_typed]); the
    books of a goal balance over every session whose calls do not overlap and whose usage
    only grows ([goal_usage_accounted], with a flush that overlaps and charges twice as the example
    [stale_flush_recounts]);
    a run is declared settled only when everything registered with it completed
    ([settled_means_quiet]), quarantine is final ([quarantine_final]) and waiters and
    domains are handed back once ([waiters_and_domains]); a drain of the pool is exact
    ([drain_exact]), within the rate in every window ([grants_within_rate]), and starves
    nobody ([oldest_item_served]); the queue of forced tool choices is the list of the
    choices to serve ([queue_is_list]).

    Requests: copying a value is writing and reading JSON ([clone_is_json_roundtrip]); the
    prefix that is sent is current up to collisions of its hash ([prefix_current]); a fork
    can take the prefix of its parent over ([fork_takes_over_prefix]); after a sync the log
    holds what the session wants sent, behind the seed of a fork exactly where it is missing
    ([sync_exact]).

    Commands: the splitter of restricted commands accepts exactly the lines of literal words
    ([literal_words_exact]); a command that passes, with ordinary blanks, no comment and a command
    name first, is run by every POSIX shell as the words that were checked and does what the check took it for ([allowed_command_runs_as_checked],
    [normalized_command_runs_as_checked]), with the two gaps proved as examples
    ([restricted_clear_passes], [git_output_passes]); the graphs of the workflow skills have no
    dead ends ([workflow_graph_sound]); the calculator evaluates the unique tree of an
    expression ([calculator_exact]).

    Calls and buffers: a live lease is its holder's ([live_lease_exclusive]), a call is answered
    once, by the connection it was sent to ([reverse_calls_sound]); the ring buffer is a bounded
    queue ([ring_refines_queue]).

    Attempts: when every request fails, each model of a chain gets exactly its attempts
    ([fallback_serves_all]), and no caller gets more than the budget
    ([fallback_attempts_bounded]); a scope is current exactly while it is the newest of its lineage
    and not disposed ([attempt_scopes_refine]); an attempt in which a handler ran is never
    clean again ([executed_never_clean]).

    Secrets: no known secret occurs in a hidden text ([secrets_hidden]) and the text can be read
    back later ([secrets_roundtrip]), both as long as secrets cannot be confused with parts of
    placeholders, which is what goes wrong in [regex_hides_placeholders]; what is loaded is exactly the
    valid entries of the files, with regular expressions only from outside the workspace
    ([loaded_secrets_trusted]), and the environment gives
    exactly the telling values ([env_secrets_exact]).

    Compaction: every message since the last compaction is summarised or kept, once
    ([compaction_conserves_messages], for sessions of one branch without empty branch summaries, with the case of a second compaction that loses kept
    messages as the example [kept_messages_lost]); a cut is where the budget puts it and does not separate
    a tool's result from a call directly before it ([cut_keeps_tool_pairs]); the files of a summary are those of the calls
    ([file_lists_exact]); the request for a summary fits the window ([summary_request_fits]),
    what a compaction keeps leaves room, counted in the provider's tokens by the ratio that was
    observed ([compaction_leaves_room]), and the cache of estimates
    changes none of it ([token_cache_transparent]).  Pruning replaces exactly the outputs it reports, all of
    them prunable, and saves exactly the tokens it reports ([prune_exact]), never fewer than its
    estimate ([prune_estimate_conservative]); an output is stale exactly when it is answered again,
    invalidated or contained later ([stale_exact]); arguments are only dropped when every
    file of the edit was changed again ([argument_prune_exact]).

    ** Conventions

    A JavaScript string is a list of UTF-16 code units, a number used as an integer a
    [Z]; an index out of range gives [None] where the source gets [undefined]; code that
    throws returns [Err] of an error type with a constructor per message.  Mutable
    objects are explicit state; where objects are shared they live in a heap or carry an
    identity.  Asynchronous code is a sequence of steps: a whole operation is one step
    where the source serialises operations, and callbacks, timers and interleavings are
    steps of their own where it does not.  Where that is not so it is said in the file: the calls of
    [GoalRuntime] do not overlap, the lock of [HarnessLease] is exclusive, the writers beside a
    finalizer act once.

    Code outside the repository is a parameter: the 32-bit line hash ([LineHasher]), the
    digest and the value conversions ([ReceiptEnv]), the line diff and the patch library
    ([PatchLib]), the least-recently-used cache ([SnapshotStore]), path functions
    ([PathLib]), the host of the edit tool ([EditHost]), the observations and commands of
    the harness ([operate_env]), a session's cancellation bridge ([CancellationBridge]), the
    schema conversion of the validation library and the runtime's hash (arguments of the
    sections of [StablePrefix] and [AppendOnlyContext]), the composed form of a string and
    the native scorers ([FuzzyEnv]), the files under a patch ([PatchEnv]), the arithmetic of
    doubles and the reading of numerals ([Arithmetic], [Numerals]), and, as arguments, the search
    for an executable, the files a state command reads, and the locale's order, digest,
    identifiers and installer of the reverse calls.  The reading of a date is one too ([Clock]),
    and so are regular expressions, the keyed digest and the runtime's hash ([SecretLib]), files,
    canonical paths and drawn identifiers, with [PathLaws] on paths, and the shell that runs a
    command ([Shell]), with what POSIX says of lines of literal words.
    Laws are assumed only where a theorem names them, and every such theorem has a
    witness with a concrete instance.

    Fuel.  The loops of the parser and the input splitter consume a line per round and
    are given the number of lines; the absorption loop consumes edits; the grant loop of
    the pool removes an item per round and is given the number of queued items; the
    loops over the lines of a diff and of an envelope consume a line per round, the
    collapsing of repeated blocks drops or passes one; the JSON reader is given twice the length
    of the text and two more, the calculator's parser six times the number of tokens and five more;
    the walk from an entry to the root is given the size of the index and two more; the operate
    loop and the excerpts of a text to summarise have the source's own bounds.  The loop over the
    matches of an expression is given the length of the text and two more, evictions the number of
    elements, the binary search for a secret's place the length of the list.  Each is shown to return with the fuel it is given.  The loop of [replaceText]
    over fuzzy occurrences is the exception: its fuel is an argument, and it is shown that no
    amount is always enough.

    ** Not modelled

    The terminal interface, the model providers and their generated protocol code, the
    Telegram daemon, the session manager's persistence, the handlers of the state command, the
    team and ultragoal runtimes,
    the coordinator server, scrapers and native code: they are input/output, protocol
    glue or generated, or far larger than what could be modelled faithfully so far.
    Within modelled files: the native row formatter, notebook editing, the file protocol
    of the lock between processes, and message texts that no decision depends on.
    Rounding of floating-point token counts in the pool is not modelled: tokens are exact
    thousandths.  Scores of the fuzzy searches are exact rationals for the same reason, and
    line numbers of a diff exact numbers.  Of the patch tool, plan mode, the language server
    and the check after the write are left out, and of the searches the closest match that
    only a message shows.  Of compaction, the requests to the
    summarising model and the rendering of its templates are left out, and the factors 0.15, 0.3
    and 0.6 are exact.  Of the hiding of secrets, the identities of the messages of a restored
    session are left out; delays between attempts are exact numbers.

    This first file holds what all others share: scopes, results, arrays of the source
    language, sorting, the tactics of the development and generic lemmas. *)

From stdpp Require Export base list gmap strings.
From Stdlib Require Export ZArith Lia Sorted.

(** ** Scopes, strings and errors *)

Declare Scope js_scope.
Delimit Scope js_scope with js.

(** A JavaScript string is a sequence of UTF-16 code units. *)
Abbreviation jsstring := (list N).

(** A literal of the source whose characters are all ASCII. *)
Definition js (s : string) : jsstring :=
  Ascii.N_of_ascii <$> String.list_ascii_of_string s.
Arguments js _%_string : simpl never.

(** A computation that returns or throws. *)
Inductive result (E A : Type) : Type :=
| Ok (a : A)
| Err (e : E).
Arguments Ok {E A} _.
Arguments Err {E A} _.

Notation "'let!' x ':=' c 'in' k" :=
  (match c with Ok x => k | Err e => Err e end)
  (at level 10, x pattern, c at level 100, k at level 200) : js_scope.
Open Scope js_scope.

Lemma Ok_pair_inj {E A B} (a a' : A) (b b' : B) :
  @Ok E (A * B) (a, b) = Ok (a', b') -> a = a' /\ b = b'.
Proof. by intros [= -> ->]. Qed.

Definition is_ok {E A} (r : result E A) : bool :=
  match r with Ok _ => true | Err _ => false end.

(** ** Arrays

    [arr_get l i] is [l[i]]: [None] is the value [undefined] of an index out of
    range (negative ones included). *)

Definition arr_get {A} (l : list A) (i : Z) : option A :=
  if (i <? 0)%Z then None else l !! Z.to_nat i.

Definition arr_len {A} (l : list A) : Z := Z.of_nat (length l).

(** [l.slice(start, end)] for non-negative bounds. *)
Definition slice {A} (l : list A) (start stop : nat) : list A :=
  take (stop - start) (drop start l).

(** The relative index of [Array.prototype.splice]: negative indices count from
    the end, and both ends are clamped. *)
Definition clamp_index (len i : Z) : nat :=
  Z.to_nat (if (i <? 0)%Z then Z.max 0 (len + i) else Z.min i len).

(** [l.splice(start, deleteCount, ...items)] as the array it leaves behind. *)
Definition splice {A} (l : list A) (start : Z) (deleteCount : nat) (items : list A) : list A :=
  let s := clamp_index (arr_len l) start in
  take s l ++ items ++ drop (s + deleteCount) l.

(** A stable sort by a numeric comparator, as [Array.prototype.sort] is. *)
Fixpoint insert_by {A} (leb : A -> A -> bool) (x : A) (l : list A) : list A :=
  match l with
  | [] => [x]
  | y :: l' => if leb x y then x :: y :: l' else y :: insert_by leb x l'
  end.

Definition sort_by {A} (leb : A -> A -> bool) (l : list A) : list A :=
  foldr (insert_by leb) [] l.

(** The longest prefix of elements that satisfy [p], and the rest. *)
Fixpoint span {A} (p : A -> bool) (l : list A) : list A * list A :=
  match l with
  | [] => ([], [])
  | x :: l' => if p x then let (a, b) := span p l' in (x :: a, b) else ([], l)
  end.

(** ** Shared automation *)

Create HintDb gjc.

Ltac simpl_bool :=
  repeat match goal with
  | H : (_ && _)%bool = true |- _ => apply andb_prop in H as [??]
  | H : (_ || _)%bool = false |- _ => apply orb_false_elim in H as [??]
  | H : negb _ = true |- _ => apply negb_true_iff in H
  | H : negb _ = false |- _ => apply negb_false_iff in H
  | H : bool_decide _ = true |- _ => apply bool_decide_eq_true_1 in H
  | H : bool_decide _ = false |- _ => apply bool_decide_eq_false_1 in H
  | H : (_ =? _)%Z = true |- _ => apply Z.eqb_eq in H
  | H : (_ =? _)%Z = false |- _ => apply Z.eqb_neq in H
  | H : (_ <? _)%Z = true |- _ => apply Z.ltb_lt in H
  | H : (_ <? _)%Z = false |- _ => apply Z.ltb_ge in H
  | H : (_ <=? _)%Z = true |- _ => apply Z.leb_le in H
  | H : (_ <=? _)%Z = false |- _ => apply Z.leb_gt in H
  end.

(** Case analysis on the scrutinee of every [match]/[if] of the goal. *)
Ltac case_all := repeat (case_match; simplify_eq/=).

(** ** Generic lemmas *)

Section arrays.
Context {A : Type}.
Implicit Types (l : list A) (i : Z).

Lemma arr_get_nat l (n : nat) : arr_get l (Z.of_nat n) = l !! n.
Proof. unfold arr_get. case_match; simpl_bool; [lia|]. by rewrite Nat2Z.id. Qed.

Lemma arr_get_Some_range l i x :
  arr_get l i = Some x -> (0 <= i < arr_len l)%Z.
Proof.
  unfold arr_get, arr_len. case_match; [done|]. simpl_bool.
  intros ?%lookup_lt_Some. lia.
Qed.

Lemma arr_get_in_range l i :
  (0 <= i < arr_len l)%Z -> is_Some (arr_get l i).
Proof.
  unfold arr_get, arr_len. intros ?. case_match; simpl_bool; [lia|].
  apply lookup_lt_is_Some. lia.
Qed.

Lemma clamp_index_in_range (len i : Z) :
  (0 <= i <= len)%Z -> clamp_index len i = Z.to_nat i.
Proof. unfold clamp_index. intros. case_match; simpl_bool; lia. Qed.

(** A splice that replaces one element in range. *)
Lemma splice_one l (n : nat) (items : list A) :
  n < length l ->
  splice l (Z.of_nat n) 1 items = take n l ++ items ++ drop (S n) l.
Proof.
  intros. unfold splice, arr_len.
  rewrite clamp_index_in_range by lia.
  rewrite Nat2Z.id. do 2 f_equal. f_equal. lia.
Qed.

Lemma span_app (p : A -> bool) l : (span p l).1 ++ (span p l).2 = l.
Proof.
  induction l as [|x l IH]; simpl; [done|].
  destruct (p x); [|done]. destruct (span p l); simpl in *. by f_equal.
Qed.

Lemma span_length (p : A -> bool) l : length (span p l).2 <= length l.
Proof. rewrite <- (span_app p l) at 2. rewrite length_app. lia. Qed.

Lemma span_Forall (p : A -> bool) l : Forall (fun x => p x = true) (span p l).1.
Proof.
  induction l as [|x l IH]; simpl; [constructor|].
  destruct (p x) eqn:E; [|constructor]. destruct (span p l); simpl in *.
  by constructor.
Qed.

Lemma span_prefix (p : A -> bool) l1 l2 :
  Forall (fun x => p x = true) l1 ->
  match l2 with [] => True | x :: _ => p x = false end ->
  span p (l1 ++ l2) = (l1, l2).
Proof.
  intros H1 H2. induction H1 as [|x l1 Hx H1 IH]; simpl.
  - destruct l2; simpl; [done|]. by rewrite H2.
  - by rewrite Hx, IH.
Qed.

Lemma span_all (p : A -> bool) l :
  Forall (fun x => p x = true) l -> span p l = (l, []).
Proof. intros. rewrite <- (app_nil_r l) at 1. by apply span_prefix. Qed.

End arrays.

Lemma StronglySorted_weaken {A} (R S : A -> A -> Prop) l :
  (forall x y, R x y -> S x y) -> StronglySorted R l -> StronglySorted S l.
Proof.
  intros HRS. induction 1; constructor; [done|]. eapply Forall_impl; eauto.
Qed.

Lemma Forall_bfilter {A} (P : A -> Prop) (p : A -> bool) l :
  Forall P l -> Forall P (List.filter p l).
Proof. induction 1; simpl; [constructor|]. case_match; by try constructor. Qed.

Lemma StronglySorted_bfilter {A} (R : A -> A -> Prop) (p : A -> bool) l :
  StronglySorted R l -> StronglySorted R (List.filter p l).
Proof.
  induction 1; simpl; [constructor|]. case_match; [|done].
  constructor; [done|]. by apply Forall_bfilter.
Qed.

Lemma StronglySorted_NoDup_ne {A} (R : A -> A -> Prop) l :
  StronglySorted R l -> NoDup l -> StronglySorted (fun x y => R x y /\ x <> y) l.
Proof.
  induction 1 as [|x l Hs IH Hx]; [constructor|].
  intros [Hnx Hnd]%NoDup_cons. constructor; [auto|].
  rewrite Forall_forall in *. intros y Hy. split; [auto|]. by intros ->.
Qed.

Section sorting.
Context {A : Type} (leb : A -> A -> bool).

Lemma insert_by_perm x l : insert_by leb x l ≡ₚ x :: l.
Proof.
  induction l as [|y l IH]; simpl; [done|].
  destruct (leb x y); [done|]. rewrite IH. apply Permutation_swap.
Qed.

Lemma sort_by_perm l : sort_by leb l ≡ₚ l.
Proof.
  induction l as [|x l IH]; simpl; [done|]. by rewrite insert_by_perm, IH.
Qed.

(** Sorting a sorted list changes nothing. *)
Lemma sort_by_sorted_id l :
  StronglySorted (fun x y => leb x y = true) l -> sort_by leb l = l.
Proof.
  induction 1 as [|x l Hs IH Hx]; simpl; [done|]. rewrite IH.
  destruct Hx as [|y l Hy]; simpl; [done|]. by rewrite Hy.
Qed.

Context (leb_total : forall x y, leb x y = false -> leb y x = true).
Context (leb_trans : forall x y z, leb x y = true -> leb y z = true -> leb x z = true).

Lemma insert_by_sorted x l :
  StronglySorted (fun x y => leb x y = true) l ->
  StronglySorted (fun x y => leb x y = true) (insert_by leb x l).
Proof.
  induction 1 as [|y l Hs IH Hy]; simpl; [by repeat constructor|].
  destruct (leb x y) eqn:E.
  - constructor; [by constructor|]. constructor; [done|].
    eapply Forall_impl; [exact Hy|]. eauto.
  - constructor; [done|]. rewrite insert_by_perm. constructor; eauto.
Qed.

Lemma sort_by_sorted l : StronglySorted (fun x y => leb x y = true) (sort_by leb l).
Proof. induction l; simpl; [constructor|]. by apply insert_by_sorted. Qed.

End sorting.

#[export] Hint Resolve span_Forall sort_by_perm insert_by_perm : gjc.
