(* ===== verification/JsText.v ===== *)
(** * JavaScript strings

    The part of [String.prototype] and of the regular-expression character
    classes that the modelled sources use, over UTF-16 code units: white space
    and trimming, [split]/[join], and the decimal text of numbers. *)

From S2P Require Import Prelude.

Local Open Scope N_scope.

(** ** Character classes *)

(** [\s], which is also the set [trim] and [trimEnd] remove: WhiteSpace and
    LineTerminator of ECMAScript. *)
Definition is_ws (c : N) : bool :=
  ((9 <=? c) && (c <=? 13)) || (c =? 32) || (c =? 160) || (c =? 5760)
  || ((8192 <=? c) && (c <=? 8202)) || (c =? 8232) || (c =? 8233)
  || (c =? 8239) || (c =? 8287) || (c =? 12288) || (c =? 65279).

(** What [.] does not match without the [s] flag. *)
Definition is_line_terminator (c : N) : bool :=
  (c =? 10) || (c =? 13) || (c =? 8232) || (c =? 8233).

(** [\d] and [[a-z]]. *)
Definition is_digit (c : N) : bool := (48 <=? c) && (c <=? 57).
Definition is_lower (c : N) : bool := (97 <=? c) && (c <=? 122).

Definition LF : N := 10.
Definition CR : N := 13.

(** ** Trimming *)

Definition trimStart (s : jsstring) : jsstring := (span is_ws s).2.
Definition trimEnd (s : jsstring) : jsstring := rev (trimStart (rev s)).
Definition trim (s : jsstring) : jsstring := trimEnd (trimStart s).

Definition all_ws (s : jsstring) : bool := forallb is_ws s.

(** ** Splitting and joining *)

(** [s.split(c)] for a one-character separator. *)
Fixpoint split_char (sep : N) (s : jsstring) : list jsstring :=
  match s with
  | [] => [[]]
  | c :: s' =>
      if c =? sep then [] :: split_char sep s'
      else match split_char sep s' with
           | w :: ws => (c :: w) :: ws
           | [] => [[c]]
           end
  end.

(** [s.split(ab)] for a two-character separator, leftmost matches first. *)
Fixpoint split_pair (a b : N) (s : jsstring) : list jsstring :=
  match s with
  | [] => [[]]
  | c :: s' =>
      let push := match split_pair a b s' with
                  | w :: ws => (c :: w) :: ws
                  | [] => [[c]]
                  end in
      match s' with
      | d :: s'' => if (c =? a) && (d =? b) then [] :: split_pair a b s'' else push
      | [] => push
      end
  end.

(** One trailing carriage return removed: the effect of [\r?] before a split
    at [\n]. *)
Definition drop_last_cr (s : jsstring) : jsstring :=
  match last s with
  | Some c => if c =? CR then removelast s else s
  | None => s
  end.

Fixpoint map_but_last {A} (f : A -> A) (l : list A) : list A :=
  match l with
  | [] => []
  | [x] => [x]
  | x :: l' => f x :: map_but_last f l'
  end.

(** [s.split(/\r?\n/)]. *)
Definition split_lines (s : jsstring) : list jsstring :=
  map_but_last drop_last_cr (split_char LF s).

(** [l.join(sep)]. *)
Fixpoint join (sep : jsstring) (l : list jsstring) : jsstring :=
  match l with
  | [] => []
  | [x] => x
  | x :: l' => x ++ sep ++ join sep l'
  end.

Definition starts_with (p s : jsstring) : bool := bool_decide (take (length p) s = p).

(** [s.includes(ab)] for a two-character needle. *)
Fixpoint includes_pair (a b : N) (s : jsstring) : bool :=
  match s with
  | c :: s' =>
      match s' with
      | d :: _ => ((c =? a) && (d =? b)) || includes_pair a b s'
      | [] => false
      end
  | [] => false
  end.

(** ** Decimal numbers *)

Fixpoint dec_digits (fuel : nat) (n : N) (acc : jsstring) : jsstring :=
  match fuel with
  | O => acc
  | S f =>
      let acc' := (48 + n mod 10) :: acc in
      if n <? 10 then acc' else dec_digits f (n / 10) acc'
  end.

Definition dec (n : N) : jsstring := dec_digits (S (N.size_nat n)) n [].

(** [String(n)] for an integer below 2^53 (larger ones print in scientific
    notation from 10^21 on). *)
Definition num_to_string (n : Z) : jsstring :=
  if (n <? 0)%Z then 45 :: dec (Z.to_N (- n)) else dec (Z.to_N n).

(** [Number.parseInt(s, 10)] of a string of digits. *)
Definition dec_value (s : jsstring) : N :=
  fold_left (fun v c => 10 * v + (c - 48)) s 0.

(** ** Lemmas: split and join *)

Lemma split_char_nonempty sep s : split_char sep s <> [].
Proof. destruct s as [|c s]; simpl; [done|]. by case_all. Qed.

Lemma join_cons sep x l : l <> [] -> join sep (x :: l) = x ++ sep ++ join sep l.
Proof. by destruct l. Qed.

Lemma join_split sep s : join [sep] (split_char sep s) = s.
Proof.
  induction s as [|c s IH]; [done|]. cbn [split_char].
  destruct (c =? sep) eqn:E.
  - apply N.eqb_eq in E as ->. rewrite join_cons by apply split_char_nonempty.
    by rewrite IH.
  - destruct (split_char sep s) as [|w [|w' ws]] eqn:Es.
    + by apply split_char_nonempty in Es.
    + simpl in *. by rewrite IH.
    + rewrite join_cons in * by done. by rewrite <- IH.
Qed.

Lemma split_char_no_sep sep s :
  Forall (fun c => c <> sep) s -> split_char sep s = [s].
Proof.
  induction 1 as [|c s Hc H IH]; simpl; [done|].
  apply N.eqb_neq in Hc as ->. by rewrite IH.
Qed.

Lemma split_char_app sep x s :
  Forall (fun c => c <> sep) x -> split_char sep (x ++ sep :: s) = x :: split_char sep s.
Proof.
  induction 1 as [|c x Hc H IH]; simpl; [by rewrite N.eqb_refl|].
  apply N.eqb_neq in Hc as ->. by rewrite IH.
Qed.

Lemma split_join sep ls :
  ls <> [] -> Forall (Forall (fun c => c <> sep)) ls ->
  split_char sep (join [sep] ls) = ls.
Proof.
  intros Hne H. induction H as [|x ls Hx H IH]; [done|].
  destruct ls as [|y ls].
  - by apply split_char_no_sep.
  - rewrite join_cons by done. cbn [app]. rewrite split_char_app by done.
    by rewrite IH.
Qed.

Lemma split_char_pieces sep s :
  Forall (Forall (fun c => c <> sep)) (split_char sep s).
Proof.
  induction s as [|c s IH]; simpl; [by repeat constructor|].
  destruct (c =? sep) eqn:E; [by constructor|]. apply N.eqb_neq in E.
  destruct (split_char sep s) as [|w ws]; [by repeat constructor|].
  inversion IH; subst. by repeat constructor.
Qed.

Lemma join_app sep l1 l2 :
  l1 <> [] -> l2 <> [] -> join sep (l1 ++ l2) = join sep l1 ++ sep ++ join sep l2.
Proof.
  intros H1 H2. induction l1 as [|x l1 IH]; [done|].
  destruct l1 as [|y l1].
  - cbn [app]. by rewrite join_cons.
  - change ((x :: y :: l1) ++ l2) with (x :: ((y :: l1) ++ l2)).
    rewrite join_cons by done. rewrite IH by done.
    rewrite (join_cons sep x) by done. by rewrite <- !(assoc_L app).
Qed.

Lemma map_but_last_id {A} (f : A -> A) l :
  Forall (fun x => f x = x) l -> map_but_last f l = l.
Proof.
  induction 1 as [|x l Hx H IH]; [done|].
  destruct l as [|y l]; [done|].
  change (f x :: map_but_last f (y :: l) = x :: y :: l). by rewrite Hx, IH.
Qed.

Lemma drop_last_cr_id s : last s <> Some CR -> drop_last_cr s = s.
Proof.
  unfold drop_last_cr. case_match; [|done].
  case_match eqn:E; [|done]. by apply N.eqb_eq in E as ->.
Qed.

(** Lines without line feeds and without a trailing carriage return survive
    being joined and split again. *)
Lemma split_lines_join ls :
  ls <> [] -> Forall (fun l => Forall (fun c => c <> LF) l /\ last l <> Some CR) ls ->
  split_lines (join [LF] ls) = ls.
Proof.
  intros Hne H. unfold split_lines. rewrite split_join; [|done|].
  - apply map_but_last_id. eapply Forall_impl; [exact H|].
    intros ? [_ ?]. by apply drop_last_cr_id.
  - eapply Forall_impl; [exact H|]. by intros ? [? _].
Qed.

(** ** Lemmas: decimal numbers *)

Lemma dec_value_app s c : dec_value (s ++ [c]) = 10 * dec_value s + (c - 48).
Proof. unfold dec_value. by rewrite fold_left_app. Qed.

Lemma dec_digits_app fuel n acc : dec_digits fuel n acc = dec_digits fuel n [] ++ acc.
Proof.
  revert n acc. induction fuel as [|f IH]; intros n acc; simpl; [done|].
  case_match; [done|]. rewrite IH, (IH _ [_]). by rewrite <- (assoc_L app).
Qed.

(** Dividing by a base makes a number shorter. *)
Lemma size_nat_div base n : 2 <= base -> base <= n -> (S (N.size_nat (n / base)) <= N.size_nat n)%nat.
Proof.
  intros Hb Hn.
  assert (Hle : (N.size_nat (n / base) <= N.size_nat (n / 2))%nat).
  { assert (n / base <= n / 2) as Hm by (apply N.div_le_compat_l; lia).
    revert Hm. generalize (n / base), (n / 2). intros a b Hab.
    destruct a as [|a]; simpl; [lia|]. destruct b as [|b]; [lia|]. simpl.
    assert (a <= b)%positive as Hp by lia. clear Hab Hn.
    destruct (Pos.eq_dec a b) as [->|]; [lia|].
    apply Pos.size_nat_monotone. lia. }
  assert (S (N.size_nat (n / 2)) = N.size_nat n) as <-; [|lia].
  destruct n as [|p]; [lia|]. destruct p as [p|p|]; [| |lia]; simpl.
  - rewrite <- N.div2_div. done.
  - rewrite <- N.div2_div. done.
Qed.

Lemma size_nat_div10 n : 10 <= n -> (S (N.size_nat (n / 10)) <= N.size_nat n)%nat.
Proof. apply size_nat_div. lia. Qed.

Lemma dec_digits_value fuel n :
  (N.size_nat n < fuel)%nat -> dec_value (dec_digits fuel n []) = n.
Proof.
  revert n. induction fuel as [|f IH]; intros n Hf; [lia|]. simpl.
  pose proof (N.mod_lt n 10 ltac:(lia)).
  destruct (n <? 10) eqn:E.
  - apply N.ltb_lt in E. unfold dec_value; cbn [fold_left]. rewrite N.mod_small by done. lia.
  - apply N.ltb_ge in E. rewrite dec_digits_app, dec_value_app, IH.
    + rewrite (N.add_comm 48), N.add_sub. symmetry. by apply N.div_mod.
    + pose proof (size_nat_div10 n E). lia.
Qed.

Lemma dec_value_dec n : dec_value (dec n) = n.
Proof. apply dec_digits_value. lia. Qed.

Lemma dec_digits_digit fuel n :
  Forall (fun c => is_digit c = true) (dec_digits fuel n []).
Proof.
  revert n. induction fuel as [|f IH]; intros n; simpl; [constructor|].
  assert (is_digit (48 + n mod 10) = true).
  { pose proof (N.mod_lt n 10 ltac:(lia)) as Hm. revert Hm.
    generalize (n mod 10). intros m Hm. unfold is_digit.
    apply andb_true_intro; split; apply N.leb_le; lia. }
  case_match; [by repeat constructor|]. rewrite dec_digits_app.
  apply Forall_app; split; [apply IH|by repeat constructor].
Qed.

Lemma dec_digit n : Forall (fun c => is_digit c = true) (dec n).
Proof. apply dec_digits_digit. Qed.

Lemma dec_digits_head fuel n :
  (N.size_nat n < fuel)%nat -> 1 <= n ->
  exists c s, dec_digits fuel n [] = c :: s /\ 49 <= c <= 57.
Proof.
  revert n. induction fuel as [|f IH]; intros n Hf Hn; [lia|]. simpl.
  destruct (n <? 10) eqn:E.
  - apply N.ltb_lt in E. rewrite N.mod_small by done. eexists _, _; split; [done|]. lia.
  - apply N.ltb_ge in E. rewrite dec_digits_app.
    pose proof (size_nat_div10 n E).
    destruct (IH (n / 10)) as (c & s & -> & Hc); [lia| |].
    + apply N.div_le_lower_bound; lia.
    + eexists _, _; split; [done|]. lia.
Qed.

(** The text of a positive number starts with a digit other than zero. *)
Lemma dec_head n : 1 <= n -> exists c s, dec n = c :: s /\ 49 <= c <= 57.
Proof. intros. apply dec_digits_head; lia. Qed.

(** ** Lemmas: trimming *)

Lemma trimStart_id s :
  match s with [] => True | c :: _ => is_ws c = false end -> trimStart s = s.
Proof. unfold trimStart. destruct s; simpl; [done|]. by intros ->. Qed.

Lemma trimStart_ws c s : is_ws c = true -> trimStart (c :: s) = trimStart s.
Proof. unfold trimStart. simpl. intros ->. by destruct (span is_ws s). Qed.

Lemma trimStart_snoc s c : is_ws c = false -> trimStart (s ++ [c]) = trimStart s ++ [c].
Proof.
  intros Hc. induction s as [|d s IH]; simpl.
  - by apply trimStart_id.
  - destruct (is_ws d) eqn:E; [by rewrite !trimStart_ws|].
    by rewrite !trimStart_id.
Qed.

(** Trimming the end keeps a first character that is not white space. *)
Lemma trimEnd_head c s : is_ws c = false -> exists s', trimEnd (c :: s) = c :: s'.
Proof.
  intros Hc. unfold trimEnd. simpl rev. rewrite trimStart_snoc by done.
  rewrite rev_app_distr. by eexists.
Qed.

Lemma trimEnd_id s :
  match last s with None => True | Some c => is_ws c = false end -> trimEnd s = s.
Proof.
  intros H. unfold trimEnd. rewrite trimStart_id; [apply rev_involutive|].
  destruct (rev s) as [|c r] eqn:E; [done|].
  rewrite <- (rev_involutive s), E in H. simpl in H. by rewrite last_snoc in H.
Qed.

#[export] Hint Resolve split_char_nonempty split_char_pieces dec_digit : gjc.
