(* ===== verification/LineHash.v ===== *)
(** * Line hashes (hashline/hash.ts)

    A line of a file is referred to by its number and a two-letter hash of its
    content.  The 32-bit hash itself is [Bun.hash.xxHash32], which is not part
    of the repository: it is the operation of the class [LineHasher], and no
    law is assumed of it. *)

From S2P Require Import Prelude JsText.

(** [Bun.hash.xxHash32(line, 0)]: an unsigned integer. *)
Class LineHasher := { xxHash32 : jsstring -> N }.

(** [bigrams.json], in its order. *)
Definition HL_BIGRAMS : list jsstring := js <$> [
  "aa"; "ab"; "ac"; "ad"; "ae"; "af"; "ag"; "ah"; "ai"; "aj"; "ak"; "al"; "am"; "an"; "ao"; "ap";
  "aq"; "ar"; "as"; "at"; "au"; "av"; "aw"; "ax"; "ay"; "az"; "ba"; "bb"; "bc"; "bd"; "be"; "bf";
  "bg"; "bh"; "bi"; "bj"; "bk"; "bl"; "bm"; "bn"; "bo"; "bp"; "br"; "bs"; "bt"; "bu"; "bv"; "bw";
  "bx"; "by"; "bz"; "ca"; "cb"; "cc"; "cd"; "ce"; "cf"; "cg"; "ch"; "ci"; "cj"; "ck"; "cl"; "cm";
  "cn"; "co"; "cp"; "cq"; "cr"; "cs"; "ct"; "cu"; "cv"; "cw"; "cx"; "cy"; "cz"; "da"; "db"; "dc";
  "dd"; "de"; "df"; "dg"; "dh"; "di"; "dj"; "dk"; "dl"; "dm"; "dn"; "do"; "dp"; "dq"; "dr"; "ds";
  "dt"; "du"; "dv"; "dw"; "dx"; "dy"; "dz"; "ea"; "eb"; "ec"; "ed"; "ee"; "ef"; "eg"; "eh"; "ei";
  "ej"; "ek"; "el"; "em"; "en"; "eo"; "ep"; "eq"; "er"; "es"; "et"; "eu"; "ev"; "ew"; "ex"; "ey";
  "ez"; "fa"; "fb"; "fc"; "fd"; "fe"; "ff"; "fg"; "fh"; "fi"; "fj"; "fk"; "fl"; "fm"; "fn"; "fo";
  "fp"; "fq"; "fr"; "fs"; "ft"; "fu"; "fv"; "fw"; "fx"; "fy"; "fz"; "ga"; "gb"; "gc"; "gd"; "ge";
  "gf"; "gg"; "gh"; "gi"; "gj"; "gl"; "gm"; "gn"; "go"; "gp"; "gr"; "gs"; "gt"; "gu"; "gv"; "gw";
  "gx"; "gy"; "gz"; "ha"; "hb"; "hc"; "hd"; "he"; "hf"; "hg"; "hh"; "hi"; "hj"; "hk"; "hl"; "hm";
  "hn"; "ho"; "hp"; "hq"; "hr"; "hs"; "ht"; "hu"; "hv"; "hw"; "hx"; "hy"; "hz"; "ia"; "ib"; "ic";
  "id"; "ie"; "if"; "ig"; "ih"; "ii"; "ij"; "ik"; "il"; "im"; "in"; "io"; "ip"; "iq"; "ir"; "is";
  "it"; "iu"; "iv"; "iw"; "ix"; "iy"; "iz"; "ja"; "jb"; "jc"; "jd"; "je"; "jf"; "jg"; "jh"; "ji";
  "jj"; "jk"; "jl"; "jm"; "jn"; "jo"; "jp"; "jq"; "jr"; "js"; "jt"; "ju"; "jw"; "jx"; "jy"; "ka";
  "kb"; "kc"; "kd"; "ke"; "kf"; "kg"; "kh"; "ki"; "kj"; "kk"; "kl"; "km"; "kn"; "ko"; "kp"; "kr";
  "ks"; "kt"; "ku"; "kv"; "kw"; "kx"; "ky"; "la"; "lb"; "lc"; "ld"; "le"; "lf"; "lg"; "lh"; "li";
  "lj"; "lk"; "ll"; "lm"; "ln"; "lo"; "lp"; "lr"; "ls"; "lt"; "lu"; "lv"; "lw"; "lx"; "ly"; "lz";
  "ma"; "mb"; "mc"; "md"; "me"; "mf"; "mg"; "mh"; "mi"; "mj"; "mk"; "ml"; "mm"; "mn"; "mo"; "mp";
  "mq"; "mr"; "ms"; "mt"; "mu"; "mv"; "mw"; "mx"; "my"; "mz"; "na"; "nb"; "nc"; "nd"; "ne"; "nf";
  "ng"; "nh"; "ni"; "nj"; "nk"; "nl"; "nm"; "nn"; "no"; "np"; "nr"; "ns"; "nt"; "nu"; "nv"; "nw";
  "nx"; "ny"; "nz"; "oa"; "ob"; "oc"; "od"; "oe"; "of"; "og"; "oh"; "oi"; "oj"; "ok"; "ol"; "om";
  "on"; "oo"; "op"; "oq"; "or"; "os"; "ot"; "ou"; "ov"; "ow"; "ox"; "oy"; "oz"; "pa"; "pb"; "pc";
  "pd"; "pe"; "pf"; "pg"; "ph"; "pi"; "pj"; "pk"; "pl"; "pm"; "pn"; "po"; "pp"; "pq"; "pr"; "ps";
  "pt"; "pu"; "pv"; "pw"; "px"; "py"; "pz"; "qa"; "qb"; "qc"; "qd"; "qe"; "qh"; "qi"; "ql"; "qm";
  "qn"; "qo"; "qp"; "qq"; "qr"; "qs"; "qt"; "qu"; "qw"; "qx"; "qy"; "ra"; "rb"; "rc"; "rd"; "re";
  "rf"; "rg"; "rh"; "ri"; "rk"; "rl"; "rm"; "rn"; "ro"; "rp"; "rq"; "rr"; "rs"; "rt"; "ru"; "rv";
  "rw"; "rx"; "ry"; "rz"; "sa"; "sb"; "sc"; "sd"; "se"; "sf"; "sg"; "sh"; "si"; "sj"; "sk"; "sl";
  "sm"; "sn"; "so"; "sp"; "sq"; "sr"; "ss"; "st"; "su"; "sv"; "sw"; "sx"; "sy"; "sz"; "ta"; "tb";
  "tc"; "td"; "te"; "tf"; "tg"; "th"; "ti"; "tj"; "tk"; "tl"; "tm"; "tn"; "to"; "tp"; "tr"; "ts";
  "tt"; "tu"; "tv"; "tw"; "tx"; "ty"; "tz"; "ua"; "ub"; "uc"; "ud"; "ue"; "uf"; "ug"; "uh"; "ui";
  "uj"; "uk"; "ul"; "um"; "un"; "uo"; "up"; "uq"; "ur"; "us"; "ut"; "uu"; "uv"; "uw"; "ux"; "uy";
  "uz"; "va"; "vb"; "vc"; "vd"; "ve"; "vf"; "vg"; "vh"; "vi"; "vj"; "vk"; "vl"; "vm"; "vn"; "vo";
  "vp"; "vq"; "vr"; "vs"; "vt"; "vu"; "vv"; "vw"; "vx"; "vy"; "vz"; "wa"; "wb"; "wc"; "wd"; "we";
  "wf"; "wg"; "wh"; "wi"; "wj"; "wk"; "wl"; "wm"; "wn"; "wo"; "wp"; "wr"; "ws"; "wt"; "wu"; "wv";
  "ww"; "wx"; "wy"; "xa"; "xb"; "xc"; "xd"; "xe"; "xf"; "xh"; "xi"; "xl"; "xm"; "xn"; "xo"; "xp";
  "xr"; "xs"; "xt"; "xu"; "xx"; "xy"; "xz"; "ya"; "yb"; "yc"; "yd"; "ye"; "yf"; "yg"; "yh"; "yi";
  "yj"; "yk"; "yl"; "ym"; "yn"; "yo"; "yp"; "yr"; "ys"; "yt"; "yu"; "yv"; "yw"; "yx"; "yy"; "yz";
  "za"; "zb"; "zc"; "zd"; "ze"; "zf"; "zg"; "zh"; "zi"; "zk"; "zl"; "zm"; "zn"; "zo"; "zp"; "zr";
  "zs"; "zt"; "zu"; "zw"; "zx"; "zy"; "zz"]%string.

Definition HL_BIGRAMS_COUNT : N := N.of_nat (length HL_BIGRAMS).

(** [HL_BODY_SEP], the code unit of "|". *)
Definition HL_BODY_SEP : N := 124.

(** The edit sigils « » ≔ and the section marker §. *)
Definition HL_OP_INSERT_BEFORE : N := 171.
Definition HL_OP_INSERT_AFTER : N := 187.
Definition HL_OP_REPLACE : N := 8788.
Definition HL_FILE_PREFIX : N := 167.

(** [HL_OP_CHARS.includes(c)] for one character. *)
Definition is_op_char (c : N) : bool :=
  (c =? HL_OP_INSERT_BEFORE)%N || (c =? HL_OP_INSERT_AFTER)%N || (c =? HL_OP_REPLACE)%N.

Section hashing.
Context `{LineHasher}.

(** The text that is hashed: carriage returns removed, then [trimEnd]. *)
Definition hash_input (line : jsstring) : jsstring :=
  trimEnd (filter (fun c => c <> CR) line).

(** The index parameter is accepted and ignored, as in the source. *)
Definition computeLineHash (idx : Z) (line : jsstring) : jsstring :=
  nth (N.to_nat (xxHash32 (hash_input line) mod HL_BIGRAMS_COUNT)) HL_BIGRAMS [].

Definition formatLineHash (line : Z) (lines : jsstring) : jsstring :=
  num_to_string line ++ computeLineHash line lines.

Definition formatHashLine (lineNumber : Z) (line : jsstring) : jsstring :=
  num_to_string lineNumber ++ computeLineHash lineNumber line ++ [HL_BODY_SEP] ++ line.

(** [lines.map((line, i) => formatHashLine(startLine + i, line))]. *)
Definition formatHashRows (startLine : Z) (lines : list jsstring) : list jsstring :=
  imap (fun i line => formatHashLine (startLine + Z.of_nat i) line) lines.

(** [native] is the optional accelerated formatter: absent, or a function that
    returns the text or throws ([None]); a throw falls back to the loop. *)
Definition formatHashLines (native : option (jsstring -> Z -> option jsstring))
    (text : jsstring) (startLine : Z) : jsstring :=
  let loop := join [LF] (formatHashRows startLine (split_char LF text)) in
  match native with
  | Some f => if (0 <=? startLine)%Z then default loop (f text startLine) else loop
  | None => loop
  end.

End hashing.

(** ** The shape of a hash *)

Definition is_bigram (h : jsstring) : bool :=
  match h with [a; b] => is_lower a && is_lower b | _ => false end.

Lemma HL_BIGRAMS_count : HL_BIGRAMS_COUNT = 647%N.
Proof. by vm_compute. Qed.

Lemma HL_BIGRAMS_shape : forallb is_bigram HL_BIGRAMS = true.
Proof. by vm_compute. Qed.

Lemma is_bigram_inv h :
  is_bigram h = true -> exists a b, h = [a; b] /\ is_lower a = true /\ is_lower b = true.
Proof.
  destruct h as [|a [|b [|]]]; simpl; try done.
  intros [??]%andb_prop. eauto.
Qed.

Lemma computeLineHash_bigram `{LineHasher} idx line :
  is_bigram (computeLineHash idx line) = true.
Proof.
  unfold computeLineHash.
  assert (Hlt : N.to_nat (xxHash32 (hash_input line) mod HL_BIGRAMS_COUNT) < length HL_BIGRAMS).
  { pose proof (N.mod_lt (xxHash32 (hash_input line)) HL_BIGRAMS_COUNT) as Hm.
    rewrite HL_BIGRAMS_count in *. specialize (Hm ltac:(done)).
    change (length HL_BIGRAMS) with (N.to_nat 647). revert Hm.
    generalize (xxHash32 (hash_input line) mod 647)%N. intros. lia. }
  pose proof HL_BIGRAMS_shape as Hs. rewrite forallb_forall in Hs.
  apply Hs, nth_In, Hlt.
Qed.

(** Hashes depend on the content only: every line number gives the same one. *)
Lemma computeLineHash_idx `{LineHasher} i j line :
  computeLineHash i line = computeLineHash j line.
Proof. done. Qed.

Lemma computeLineHash_inv `{LineHasher} idx line :
  exists a b, computeLineHash idx line = [a; b] /\ is_lower a = true /\ is_lower b = true.
Proof. apply is_bigram_inv, computeLineHash_bigram. Qed.

Lemma length_formatHashRows `{LineHasher} s l : length (formatHashRows s l) = length l.
Proof. apply length_imap. Qed.

#[export] Hint Resolve computeLineHash_bigram : gjc.

(** A concrete hash function, a polynomial in the code units, to evaluate the
    definitions on examples. *)
Definition sample_hasher : LineHasher :=
  {| xxHash32 := fun s => (fold_left (fun h c => (h * 31 + c) mod 4294967296) s 7)%N |}.
