(* ===== verification/HashlineTypes.v ===== *)
(** * Data of the hashline edit language (hashline/types.ts, constants.ts)

    Line numbers are JavaScript numbers used as integers; they are [Z] here. *)

From S2P Require Import Prelude JsText.

Record HashMismatch := mkMismatch {
  mm_line : Z;
  mm_expected : jsstring;
  mm_actual : jsstring
}.

Record Anchor := mkAnchor {
  a_line : Z;
  a_hash : jsstring;
  a_contentHint : option jsstring
}.

Inductive HashlineCursor :=
| Bof
| Eof
| BeforeAnchor (anchor : Anchor)
| AfterAnchor (anchor : Anchor).

Inductive HashlineEdit :=
| EInsert (cursor : HashlineCursor) (text : jsstring) (lineNum : Z) (index : Z)
| EDelete (anchor : Anchor) (lineNum : Z) (index : Z) (oldAssertion : option jsstring).

Record HashlineApplyOptions := mkOptions { autoDropPureInsertDuplicates : option bool }.

(** [edit.lineNum], a field of both kinds of edit. *)
Definition edit_lineNum (e : HashlineEdit) : Z :=
  match e with EInsert _ _ n _ | EDelete _ n _ _ => n end.

#[export] Instance Anchor_eq_dec : EqDecision Anchor.
Proof. solve_decision. Defined.
#[export] Instance HashMismatch_eq_dec : EqDecision HashMismatch.
Proof. solve_decision. Defined.
#[export] Instance HashlineCursor_eq_dec : EqDecision HashlineCursor.
Proof. solve_decision. Defined.
#[export] Instance HashlineEdit_eq_dec : EqDecision HashlineEdit.
Proof. solve_decision. Defined.

(** ** Constants *)

Definition MISMATCH_CONTEXT : Z := 2.
Definition RANGE_INTERIOR_HASH : jsstring := js "**".
Definition BEGIN_PATCH_MARKER : jsstring := js "*** Begin Patch".
Definition END_PATCH_MARKER : jsstring := js "*** End Patch".
Definition ABORT_MARKER : jsstring := js "*** Abort".
Definition ABORT_WARNING : jsstring :=
  js "Tool stream truncated mid-call due to detected output corruption. Applied ops above are valid. Re-issue any remaining edits.".

(** What the modelled hashline functions throw: the constructors carry what the
    source interpolates in the message. *)
Inductive HashlineError :=
| InvalidLineReference (ref : jsstring)
| LineNumberTooSmall (line : Z) (ref : jsstring)
| LineDoesNotExist (line fileLength : Z)
| MismatchError (mismatches : list HashMismatch) (fileLines : list jsstring)
| ExpectedFullAnchor (lineNum : Z) (raw : jsstring)
| RangeNeedsTwoAnchors (lineNum : Z)
| RangeEndsBeforeStart (lineNum : Z) (startRaw endRaw : jsstring)
| RangeTwoHashesOneLine (lineNum : Z) (startRaw endRaw : jsstring)
| PayloadRequired (lineNum : Z)
| UnrecognizedOp (lineNum : Z) (line : jsstring)
| PayloadWithoutOp (lineNum : Z) (line : jsstring).
