(* ===== verification/HashlineStream.v ===== *)
(** * Streaming hash lines (hashline/stream.ts)

    A byte stream is decoded piece by piece and printed as chunks of hash lines.
    The decoder of the platform is a parameter: the model starts from the texts it
    returns, one per chunk of bytes, and the text of its final flush. *)

From S2P Require Import Prelude JsText LineHash.

(** [Buffer.byteLength(s, "utf-8")]: a surrogate pair takes four bytes, a lone
    surrogate is replaced by a character of three. *)
Definition is_high (c : N) : bool := ((55296 <=? c) && (c <=? 56319))%N.
Definition is_low (c : N) : bool := ((56320 <=? c) && (c <=? 57343))%N.

Fixpoint byteLength (s : jsstring) : Z :=
  match s with
  | [] => 0
  | c :: s' =>
      if (c <? 128)%N then 1 + byteLength s'
      else if (c <? 2048)%N then 2 + byteLength s'
      else match s' with
           | d :: s'' => if is_high c && is_low d then 4 + byteLength s'' else 3 + byteLength s'
           | [] => 3
           end
  end.

Record ResolvedHashlineStreamOptions := mkStreamOptions {
  st_startLine : Z;
  st_maxChunkLines : Z;
  st_maxChunkBytes : Z
}.

(** The options given, [None] for one that is missing. *)
Definition resolveHashlineStreamOptions (startLine maxChunkLines maxChunkBytes : option Z)
    : ResolvedHashlineStreamOptions :=
  mkStreamOptions (default 1%Z startLine) (default 200%Z maxChunkLines)
    (default (64 * 1024)%Z maxChunkBytes).

Record emitter := mkEmitter { em_lineNumber : Z; em_outLines : list jsstring; em_outBytes : Z }.

Section stream.
Context `{LineHasher}.
Context (options : ResolvedHashlineStreamOptions).

(** [flush] and, as its callers do, nothing for an empty chunk. *)
Definition em_flush (e : emitter) : list jsstring * emitter :=
  if bool_decide (em_outLines e = []) then ([], e)
  else
    let chunk := join [LF] (em_outLines e) in
    ((if bool_decide (chunk = []) then [] else [chunk]), mkEmitter (em_lineNumber e) [] 0).

Definition pushLine (e : emitter) (line : jsstring) : list jsstring * emitter :=
  let formatted := formatHashLine (em_lineNumber e) line in
  let e := mkEmitter (em_lineNumber e + 1) (em_outLines e) (em_outBytes e) in
  let sepBytes := if bool_decide (em_outLines e = []) then 0%Z else 1%Z in
  let lineBytes := byteLength formatted in
  let wouldOverflow := (st_maxChunkLines options <=? arr_len (em_outLines e))%Z
                       || (st_maxChunkBytes options <? em_outBytes e + sepBytes + lineBytes)%Z in
  let (chunks1, e) := if negb (bool_decide (em_outLines e = [])) && wouldOverflow
                      then em_flush e else ([], e) in
  let out := em_outLines e ++ [formatted] in
  let e := mkEmitter (em_lineNumber e) out
             (em_outBytes e + (if (arr_len out =? 1)%Z then 0 else 1) + lineBytes) in
  let (chunks2, e) := if (st_maxChunkLines options <=? arr_len (em_outLines e))%Z
                         || (st_maxChunkBytes options <=? em_outBytes e)%Z
                      then em_flush e else ([], e) in
  (chunks1 ++ chunks2, e).

Fixpoint push_lines (e : emitter) (lines : list jsstring) : list jsstring * emitter :=
  match lines with
  | [] => ([], e)
  | l :: rest =>
      let (c1, e1) := pushLine e l in
      let (c2, e2) := push_lines e1 rest in
      (c1 ++ c2, e2)
  end.

(** The loop over the pieces: every complete line of the pending text is pushed,
    without its carriage return, and the rest stays pending. *)
Fixpoint stream_pieces (e : emitter) (pending : jsstring) (sawAnyLine : bool) (pieces : list jsstring)
    : list jsstring * emitter * jsstring * bool :=
  match pieces with
  | [] => ([], e, pending, sawAnyLine)
  | piece :: rest =>
      let ls := split_char LF (pending ++ piece) in
      let (c1, e1) := push_lines e (drop_last_cr <$> removelast ls) in
      let '(c2, e2, pending', saw') :=
        stream_pieces e1 (List.last ls []) (sawAnyLine || (1 <? length ls)%nat) rest in
      (c1 ++ c2, e2, pending', saw')
  end.

Definition streamHashLinesFromUtf8 (pieces : list jsstring) (final : jsstring) : list jsstring :=
  let e := mkEmitter (st_startLine options) [] 0 in
  let '(c1, e, pending, sawAnyLine) := stream_pieces e [] false pieces in
  let pending := pending ++ final in
  let '(c2, e, sawAnyLine) :=
    if bool_decide (pending = []) then ([], e, sawAnyLine)
    else let (c, e) := pushLine e (drop_last_cr pending) in (c, e, true) in
  let (c3, e) := if (sawAnyLine : bool) then ([], e) else pushLine e [] in
  let (c4, _) := em_flush e in
  c1 ++ c2 ++ c3 ++ c4.

(** ** Chunks are groups of rows *)

(** Rows within the limits; a single row may be longer than a chunk. *)
Definition within_limits (rows : list jsstring) : Prop :=
  (arr_len rows <= Z.max 1 (st_maxChunkLines options))%Z
  /\ (length rows <= 1 \/ (byteLength (join [LF] rows) <= st_maxChunkBytes options)%Z).

(** The chunks [cs] print the rows [rows], in groups within the limits. *)
Definition prints (cs rows : list jsstring) : Prop :=
  exists groups, cs = join [LF] <$> groups /\ concat groups = rows
    /\ Forall (fun g => g <> [] /\ within_limits g) groups.

Definition row_ok (row : jsstring) : Prop := row <> [].

(** The pending rows of the emitter. *)
Definition em_ok (e : emitter) : Prop :=
  Forall row_ok (em_outLines e) /\ within_limits (em_outLines e)
  /\ em_outBytes e = byteLength (join [LF] (em_outLines e)).

Lemma byteLength_lf a b : byteLength (a ++ LF :: b) = (byteLength a + 1 + byteLength b)%Z.
Proof.
  remember (length a) as n eqn:Hn. assert (length a <= n) as Hle by lia. clear Hn. revert a Hle.
  induction n as [|n IH]; intros [|c a] Hle; simpl in Hle; try lia; try done.
  cbn [app byteLength]. destruct (c <? 128)%N; [rewrite IH by lia; lia|].
  destruct (c <? 2048)%N; [rewrite IH by lia; lia|].
  destruct a as [|d a]; cbn [app].
  - change (is_low LF) with false. rewrite andb_false_r. cbn [byteLength]. change (LF <? 128)%N with true. lia.
  - cbn [length] in Hle. destruct (is_high c && is_low d).
    + rewrite IH by lia. lia.
    + change (d :: a ++ LF :: b) with ((d :: a) ++ LF :: b). rewrite IH by (simpl; lia). lia.
Qed.

Lemma byteLength_snoc rows row :
  byteLength (join [LF] (rows ++ [row]))
  = (byteLength (join [LF] rows) + (if bool_decide (rows = []) then 0 else 1) + byteLength row)%Z.
Proof.
  case_bool_decide as E; [by subst|]. rewrite join_app by done. cbn [join app]. apply byteLength_lf.
Qed.

Lemma em_ok_empty n : em_ok (mkEmitter n [] 0).
Proof. split; [constructor|]. split; [|done]. split; [unfold arr_len; simpl; lia|simpl; auto]. Qed.

Lemma prints_nil : prints [] [].
Proof. exists []. by repeat constructor. Qed.

Lemma prints_app c1 r1 c2 r2 : prints c1 r1 -> prints c2 r2 -> prints (c1 ++ c2) (r1 ++ r2).
Proof.
  intros (g1 & -> & <- & H1) (g2 & -> & <- & H2). exists (g1 ++ g2).
  rewrite fmap_app, concat_app. split_and!; [done|done|by apply Forall_app].
Qed.

Lemma join_ne (rows : list jsstring) : rows <> [] -> Forall row_ok rows -> join [LF] rows <> [].
Proof.
  intros Hne Hr. destruct Hr as [|r rows Hr _]; [done|]. destruct r as [|c r]; [done|].
  destruct rows; [done|]. by rewrite join_cons.
Qed.

Lemma em_flush_prints e :
  em_ok e -> let '(cs, e') := em_flush e in
  prints cs (em_outLines e) /\ em_outLines e' = [] /\ em_lineNumber e' = em_lineNumber e /\ em_ok e'.
Proof.
  intros Hok. unfold em_flush. destruct Hok as (Hr & Hl & Hb). case_bool_decide as He.
  { rewrite He. split; [apply prints_nil|]. split; [done|]. split; [done|]. split; [done|]. by split. }
  rewrite bool_decide_false by (by apply join_ne).
  split; [|split; [done|split; [done|apply em_ok_empty]]].
  exists [em_outLines e]. split; [done|]. split; [apply app_nil_r|]. constructor; [by split|constructor].
Qed.

Lemma format_row_ok n line : row_ok (formatHashLine n line).
Proof.
  unfold row_ok, formatHashLine. destruct (computeLineHash_inv n line) as (a & b & -> & _).
  by destruct (num_to_string n).
Qed.

(** The row fits after the rows that are pending, or nothing is pending. *)
Definition has_room (e : emitter) (row : jsstring) : Prop :=
  em_outLines e = [] \/
  (arr_len (em_outLines e) < st_maxChunkLines options)%Z
  /\ (em_outBytes e + 1 + byteLength row <= st_maxChunkBytes options)%Z.

Lemma append_row_ok e row n :
  em_ok e -> has_room e row -> row_ok row ->
  let out := em_outLines e ++ [row] in
  em_ok (mkEmitter n out (em_outBytes e + (if (arr_len out =? 1)%Z then 0 else 1) + byteLength row)).
Proof.
  intros (Hr & _ & Hb) Hroom Hrow out. split; cbn [em_outLines em_outBytes].
  { apply Forall_app. split; [done|]. by repeat constructor. }
  unfold out, within_limits, arr_len. rewrite length_app, byteLength_snoc, <- Hb. simpl length.
  destruct Hroom as [E|[Hl Hbytes]].
  - rewrite E. simpl. split; [split; [lia|auto]|]. lia.
  - unfold arr_len in Hl. destruct (decide (em_outLines e = [])) as [E|E].
    + rewrite E. simpl. split; [split; [lia|auto]|]. lia.
    + rewrite bool_decide_false by done. split; [split; [lia|right; lia]|].
      destruct (em_outLines e); [done|]. simpl length. case_match; [|lia]. simpl_bool. lia.
Qed.

(** Pushing a line appends its row to what is printed and pending. *)
Lemma pushLine_prints e line :
  em_ok e -> let '(cs, e') := pushLine e line in
  em_ok e' /\ em_lineNumber e' = (em_lineNumber e + 1)%Z
  /\ exists rows, prints cs rows
       /\ rows ++ em_outLines e' = em_outLines e ++ [formatHashLine (em_lineNumber e) line].
Proof.
  intros Hok. unfold pushLine. set (row := formatHashLine _ line).
  set (e0 := mkEmitter (em_lineNumber e + 1) (em_outLines e) (em_outBytes e)).
  set (over := negb _ && _).
  assert (H1 : let '(c1, e1) := if over then em_flush e0 else ([], e0) in
    exists rows1, prints c1 rows1 /\ rows1 ++ em_outLines e1 = em_outLines e
      /\ em_lineNumber e1 = (em_lineNumber e + 1)%Z /\ em_ok e1 /\ has_room e1 row).
  { destruct over eqn:Eo.
    - pose proof (em_flush_prints e0 Hok) as Hf. destruct (em_flush e0) as [c1 e1].
      destruct Hf as (Hp & Ho & Hn & Hok1). exists (em_outLines e0). rewrite Ho, app_nil_r.
      split; [done|]. split; [done|]. split; [done|]. split; [done|]. by left.
    - exists []. split; [apply prints_nil|]. split; [done|]. split; [done|]. split; [done|].
      unfold over in Eo. cbn [e0 em_outLines em_outBytes] in Eo. unfold has_room.
      case_bool_decide; [by left|]. right. cbn [negb andb] in Eo.
      apply orb_false_elim in Eo as [Eo%Z.leb_gt Eb%Z.ltb_ge]. by split. }
  destruct (if over then em_flush e0 else ([], e0)) as [c1 e1].
  destruct H1 as (rows1 & Hp1 & Hr1 & Hn1 & Hok1 & Hroom).
  pose proof (append_row_ok e1 row (em_lineNumber e1) Hok1 Hroom (format_row_ok _ _)) as Hok2.
  set (e2 := mkEmitter _ (em_outLines e1 ++ [row]) _) in *.
  destruct ((st_maxChunkLines options <=? arr_len (em_outLines e2))%Z || _).
  - pose proof (em_flush_prints e2 Hok2) as Hf. destruct (em_flush e2) as [c2 e3].
    destruct Hf as (Hp2 & Ho2 & Hn2 & Hok3). split; [done|]. split; [by rewrite Hn2|].
    exists (rows1 ++ em_outLines e2). split; [by apply prints_app|].
    rewrite Ho2, app_nil_r. cbn [e2 em_outLines]. by rewrite (assoc_L app), Hr1.
  - split; [done|]. split; [done|]. exists rows1. rewrite app_nil_r. split; [done|].
    cbn [e2 em_outLines]. by rewrite (assoc_L app), Hr1.
Qed.

Lemma push_lines_prints e lines :
  em_ok e -> let '(cs, e') := push_lines e lines in
  em_ok e' /\ em_lineNumber e' = (em_lineNumber e + arr_len lines)%Z
  /\ exists rows, prints cs rows
       /\ rows ++ em_outLines e' = em_outLines e ++ formatHashRows (em_lineNumber e) lines.
Proof.
  revert e. induction lines as [|l lines IH]; intros e Hok; cbn [push_lines].
  { split; [done|]. split; [unfold arr_len; simpl; lia|]. exists []. split; [apply prints_nil|].
    by rewrite app_nil_r. }
  pose proof (pushLine_prints e l Hok) as H1. destruct (pushLine e l) as [c1 e1].
  destruct H1 as (Hok1 & Hn1 & rows1 & Hp1 & Hr1).
  specialize (IH e1 Hok1). destruct (push_lines e1 lines) as [c2 e2].
  destruct IH as (Hok2 & Hn2 & rows2 & Hp2 & Hr2). split; [done|].
  split; [rewrite Hn2, Hn1; unfold arr_len; simpl; lia|].
  exists (rows1 ++ rows2). split; [by apply prints_app|].
  rewrite <- (assoc_L app), Hr2, (assoc_L app), Hr1, <- (assoc_L app). f_equal.
  unfold formatHashRows. rewrite imap_cons, Hn1. simpl. rewrite Z.add_0_r. f_equal.
  apply imap_ext. intros i x _. simpl. f_equal. lia.
Qed.

(** ** Pieces do not matter *)

Lemma split_char_last_app sep a b :
  split_char sep (a ++ b)
  = removelast (split_char sep a) ++ split_char sep (List.last (split_char sep a) [] ++ b).
Proof.
  induction a as [|c a IH]; [done|]. cbn [app split_char]. destruct (c =? sep)%N eqn:E.
  - rewrite IH. pose proof (split_char_nonempty sep a). by destruct (split_char sep a).
  - rewrite IH. pose proof (split_char_nonempty sep a).
    destruct (split_char sep a) as [|w [|w' ws]]; [done| |done].
    cbn [removelast List.last app split_char]. by rewrite E.
Qed.

Lemma formatHashRows_app n a b :
  formatHashRows n (a ++ b) = formatHashRows n a ++ formatHashRows (n + arr_len a) b.
Proof.
  unfold formatHashRows. rewrite imap_app. f_equal. apply imap_ext. intros i x _. simpl. f_equal.
  unfold arr_len. lia.
Qed.

Lemma removelast_app_ne {A} (l k : list A) : k <> [] -> removelast (l ++ k) = l ++ removelast k.
Proof. apply removelast_app. Qed.

Lemma last_app_ne {A} (l k : list A) d : k <> [] -> List.last (l ++ k) d = List.last k d.
Proof. intros Hk. induction l as [|x l IH]; [done|]. simpl. by destruct (l ++ k) eqn:E; [destruct l|]. Qed.

Lemma last_no_sep sep s : Forall (fun c => c <> sep) (List.last (split_char sep s) []).
Proof.
  pose proof (split_char_pieces sep s) as Hp. induction Hp as [|x l Hx Hl IH]; [constructor|].
  simpl. by destruct l.
Qed.

(** The pieces print what their concatenation has complete lines for. *)
Lemma stream_pieces_prints e pending saw pieces :
  em_ok e -> Forall (fun c => c <> LF) pending ->
  let ls := split_char LF (pending ++ concat pieces) in
  let lines := drop_last_cr <$> removelast ls in
  let '(cs, e', pending', saw') := stream_pieces e pending saw pieces in
  em_ok e' /\ em_lineNumber e' = (em_lineNumber e + arr_len lines)%Z
  /\ pending' = List.last ls [] /\ saw' = saw || negb (bool_decide (lines = []))
  /\ exists rows, prints cs rows
       /\ rows ++ em_outLines e' = em_outLines e ++ formatHashRows (em_lineNumber e) lines.
Proof.
  revert e pending saw. induction pieces as [|piece pieces IH]; intros e pending saw Hok Hp ls lines.
  { assert (ls = [pending]) as Hls by (unfold ls; simpl; rewrite app_nil_r; by apply split_char_no_sep).
    assert (lines = []) as Hlines by (unfold lines; by rewrite Hls).
    cbn [stream_pieces]. rewrite Hlines, Hls. split; [done|]. split; [unfold arr_len; simpl; lia|].
    split; [done|]. split; [by rewrite bool_decide_true, orb_false_r|].
    exists []. split; [apply prints_nil|]. by rewrite app_nil_r. }
  cbn [stream_pieces]. set (ls1 := split_char LF (pending ++ piece)).
  set (lines1 := drop_last_cr <$> removelast ls1).
  pose proof (push_lines_prints e lines1 Hok) as H1. destruct (push_lines e lines1) as [c1 e1].
  destruct H1 as (Hok1 & Hn1 & rows1 & Hp1 & Hr1).
  specialize (IH e1 (List.last ls1 []) (saw || (1 <? length ls1)%nat) Hok1 (last_no_sep _ _)).
  set (ls2 := split_char LF (List.last ls1 [] ++ concat pieces)) in IH.
  assert (Hls : ls = removelast ls1 ++ ls2).
  { unfold ls. cbn [concat]. rewrite (assoc_L app). apply split_char_last_app. }
  assert (Hls2 : ls2 <> []) by apply split_char_nonempty.
  assert (Hlines : lines = lines1 ++ (drop_last_cr <$> removelast ls2)).
  { unfold lines. rewrite Hls, removelast_app_ne by done. by rewrite fmap_app. }
  set (lines2 := drop_last_cr <$> removelast ls2) in *.
  destruct (stream_pieces e1 _ _ pieces) as [[[c2 e2] pending2] saw2].
  destruct IH as (Hok2 & Hn2 & Hpend & Hsaw & rows2 & Hp2 & Hr2). fold lines2 in Hn2, Hsaw, Hr2.
  split; [done|]. split; [rewrite Hn2, Hn1, Hlines; unfold arr_len; rewrite length_app; lia|].
  split; [by rewrite Hpend, Hls, last_app_ne|]. split.
  - rewrite Hsaw, Hlines, <- orb_assoc. f_equal. unfold lines1.
    assert (ls1 <> []) by apply split_char_nonempty. destruct ls1 as [|a [|b ls1]]; [done| |]; simpl.
    + done.
    + done.
  - exists (rows1 ++ rows2). split; [by apply prints_app|].
    rewrite Hlines, formatHashRows_app, <- Hn1, (assoc_L app), <- Hr1, <- !(assoc_L app). by rewrite Hr2.
Qed.

(** The lines the stream shows: a final line feed opens no further line, and an
    empty text is one empty line. *)
Definition stream_lines (text : jsstring) : list jsstring :=
  let ls := split_char LF text in
  drop_last_cr <$> (if bool_decide (List.last ls [] = []) && (1 <? length ls)%nat
                    then removelast ls else ls).

Lemma stream_lines_split text pre tail :
  split_char LF text = pre ++ [tail] ->
  stream_lines text
  = if bool_decide (tail = []) && negb (bool_decide (drop_last_cr <$> pre = []))
    then drop_last_cr <$> pre else (drop_last_cr <$> pre) ++ [drop_last_cr tail].
Proof.
  intros Hls. unfold stream_lines. rewrite Hls, last_app_ne by done. cbn [List.last].
  rewrite length_app. cbn [length].
  assert ((1 <? length pre + 1)%nat = negb (bool_decide (drop_last_cr <$> pre = []))) as ->.
  { destruct pre as [|x pre]; [done|]. rewrite fmap_cons, bool_decide_false by done.
    apply Nat.ltb_lt. simpl. lia. }
  destruct (bool_decide (tail = []) && _); [|by rewrite fmap_app].
  by rewrite removelast_app_ne, app_nil_r.
Qed.

(** A last flush prints what is pending. *)
Lemma flush_prints cs e rs all :
  prints cs rs -> rs ++ em_outLines e = all -> em_ok e -> prints (cs ++ (em_flush e).1) all.
Proof.
  intros Hcs <- Hok. pose proof (em_flush_prints e Hok) as Hf.
  destruct (em_flush e). destruct Hf as [Hf _]. by apply prints_app.
Qed.

(** A last line, and the flush. *)
Lemma last_line_prints cs e rs line all :
  prints cs rs -> rs ++ em_outLines e = all -> em_ok e ->
  prints (cs ++ (pushLine e line).1 ++ (em_flush (pushLine e line).2).1)
    (all ++ [formatHashLine (em_lineNumber e) line]).
Proof.
  intros Hcs <- Hok. pose proof (pushLine_prints e line Hok) as H2.
  destruct (pushLine e line) as [c2 e2]. destruct H2 as (Hok2 & _ & rows2 & Hp2 & Hr2).
  cbn [fst snd]. rewrite (assoc_L app). apply (flush_prints _ _ (rs ++ rows2)); [by apply prints_app| |done].
  by rewrite <- !(assoc_L app), Hr2.
Qed.

Lemma join_groups (groups : list (list jsstring)) :
  Forall (fun g => g <> []) groups -> join [LF] (join [LF] <$> groups) = join [LF] (concat groups).
Proof.
  induction 1 as [|g groups Hg Hgs IH]; [done|]. rewrite fmap_cons. cbn [concat].
  destruct groups as [|g' groups]; [simpl; by rewrite app_nil_r|].
  rewrite join_cons by done. rewrite IH, join_app; [done|done|].
  apply Forall_cons in Hgs as [Hg' _]. by destruct g'.
Qed.

(** the chunks printed for a stream depend on its text only, not on how the
    bytes arrive: joined, they are the hash lines of the lines of the text, numbered
    from the start line; no chunk has more lines than the limit, and none has more
    bytes unless it is a single line. *)
Theorem stream_chunks pieces final :
  Forall (fun c => c <> LF) final ->
  let chunks := streamHashLinesFromUtf8 pieces final in
  let rows := formatHashRows (st_startLine options) (stream_lines (concat pieces ++ final)) in
  join [LF] chunks = join [LF] rows
  /\ exists groups, chunks = join [LF] <$> groups /\ concat groups = rows
       /\ Forall (fun g => g <> [] /\ within_limits g) groups.
Proof.
  intros Hfinal chunks rows.
  enough (Hp : prints chunks rows).
  { split; [|exact Hp]. destruct Hp as (groups & -> & <- & Hg). apply join_groups.
    eapply Forall_impl; [exact Hg|]. by intros g []. }
  unfold chunks, streamHashLinesFromUtf8. clear chunks.
  set (e := mkEmitter (st_startLine options) [] 0).
  pose proof (stream_pieces_prints e [] false pieces (em_ok_empty _) ltac:(constructor)) as H1.
  cbn [app] in H1. set (ls := split_char LF (concat pieces)) in H1.
  set (lines := drop_last_cr <$> removelast ls) in H1.
  destruct (stream_pieces e [] false pieces) as [[[c1 e1] pending] saw].
  destruct H1 as (Hok1 & Hn1 & -> & -> & rows1 & Hp1 & Hr1). cbn [e em_outLines em_lineNumber app] in Hr1, Hn1.
  set (tail := List.last ls [] ++ final).
  assert (Htail : Forall (fun c => c <> LF) tail).
  { apply Forall_app. split; [apply last_no_sep|done]. }
  assert (Hls : split_char LF (concat pieces ++ final) = removelast ls ++ [tail]).
  { rewrite split_char_last_app. fold ls. f_equal. by apply split_char_no_sep. }
  assert (Hrows : rows = formatHashRows (st_startLine options)
    (if bool_decide (tail = []) && negb (bool_decide (lines = [])) then lines else lines ++ [drop_last_cr tail])).
  { unfold rows. by rewrite (stream_lines_split _ _ _ Hls). }
  assert (Hlast : forall l, formatHashRows (st_startLine options) (lines ++ [l])
    = formatHashRows (st_startLine options) lines ++ [formatHashLine (em_lineNumber e1) l]).
  { intros l. rewrite formatHashRows_app, <- Hn1. f_equal. unfold formatHashRows. simpl. by rewrite Z.add_0_r. }
  rewrite Hrows. fold tail. destruct (decide (tail = [])) as [Et|Et].
  - rewrite !(bool_decide_true (tail = [])) by done. cbn [orb andb].
    destruct (bool_decide (lines = [])); cbn [negb].
    + pose proof (last_line_prints c1 e1 rows1 [] _ Hp1 Hr1 Hok1) as Hl. rewrite Et, Hlast.
      destruct (pushLine e1 []) as [c3 e3]. cbn [fst snd] in Hl. destruct (em_flush e3). exact Hl.
    + pose proof (flush_prints c1 e1 rows1 _ Hp1 Hr1 Hok1) as Hl. destruct (em_flush e1). exact Hl.
  - rewrite !(bool_decide_false (tail = [])) by done. cbn [andb].
    pose proof (last_line_prints c1 e1 rows1 (drop_last_cr tail) _ Hp1 Hr1 Hok1) as Hl. rewrite Hlast.
    destruct (pushLine e1 _) as [c3 e3]. cbn [fst snd] in Hl. destruct (em_flush e3). exact Hl.
Qed.

End stream.

Lemma stream_chunks_witness :
  let options := resolveHashlineStreamOptions None (Some 2%Z) None in
  let chunks := @streamHashLinesFromUtf8 sample_hasher options [js "a" ++ [CR]; [LF] ++ js "b" ++ [LF] ++ js "c"] [] in
  length chunks = 2 /\
  join [LF] chunks = join [LF] (@formatHashRows sample_hasher 1 [js "a"; js "b"; js "c"]).
Proof.
  intros options chunks. split; [vm_compute; reflexivity|].
  destruct (@stream_chunks sample_hasher options [js "a" ++ [CR]; [LF] ++ js "b" ++ [LF] ++ js "c"] []
    ltac:(constructor)) as [Hj _].
  exact Hj.
Defined.
