(* ===== verification/Anchors.v ===== *)
(** * Anchors (hashline/anchors.ts)

    Parsing a [LINE+HASH] reference, checking it against a file, and the report
    shown when it does not match. *)

From S2P Require Import Prelude JsText LineHash HashlineTypes.

(** The decoration characters [[>+\-*]]. *)
Definition is_decoration (c : N) : bool :=
  (c =? 62)%N || (c =? 43)%N || (c =? 45)%N || (c =? 42)%N.

(** [\s*[>+\-*]*\s*]: the three classes met here (white space, decorations and
    what follows) are disjoint, so greedy matching never has to back up. *)
Definition skip_decoration (s : jsstring) : jsstring :=
  trimStart (span is_decoration (trimStart s)).2.

(** [([a-z]{2})] and the rest. *)
Definition take_hash (s : jsstring) : option (jsstring * jsstring) :=
  match s with
  | a :: b :: rest => if is_lower a && is_lower b then Some ([a; b], rest) else None
  | _ => None
  end.

(** [(\d+)([a-z]{2})] and the rest. *)
Definition scan_tag (s : jsstring) : option (jsstring * jsstring * jsstring) :=
  match span is_digit s with
  | ([], _) => None
  | (digits, rest) =>
      match take_hash rest with
      | Some (hash, rest') => Some (digits, hash, rest')
      | None => None
      end
  end.

Definition parseTag (ref : jsstring) : result HashlineError (Z * jsstring) :=
  match scan_tag (skip_decoration ref) with
  | None => Err (InvalidLineReference ref)
  | Some (digits, hash, _) =>
      let line := Z.of_N (dec_value digits) in
      if (line <? 1)%Z then Err (LineNumberTooSmall line ref) else Ok (line, hash)
  end.

(** [for (n = lo; n <= hi; n++)]. *)
Definition int_range (lo hi : Z) : list Z :=
  (fun k => lo + Z.of_nat k)%Z <$> seq 0 (Z.to_nat (hi - lo + 1)).

Definition getMismatchDisplayLines (mismatches : list HashMismatch)
    (fileLines : list jsstring) : list Z :=
  let displayLines : gset Z :=
    fold_left (fun s m =>
      list_to_set (int_range (Z.max 1 (mm_line m - MISMATCH_CONTEXT))
                             (Z.min (arr_len fileLines) (mm_line m + MISMATCH_CONTEXT))) ∪ s)
      mismatches ∅ in
  sort_by Z.leb (elements displayLines).

(** [fileLines[lineNum - 1] ?? ""]. *)
Definition line_at (fileLines : list jsstring) (lineNum : Z) : jsstring :=
  default [] (arr_get fileLines (lineNum - 1)).

Definition rejectionHeader (mismatches : list HashMismatch) : list jsstring :=
  let noun := if (1 <? length mismatches)%nat then js "anchors do" else js "anchor does" in
  [js "Edit rejected: " ++ num_to_string (arr_len mismatches) ++ js " " ++ noun
     ++ js " not match the current file (marked *).";
   js "The edit was NOT applied, please use the updated file content shown below, and issue another edit tool-call."].

(** [previous !== -1 && lineNum > previous + 1], the test for a gap. *)
Definition gap_after (previous lineNum : Z) : bool :=
  negb (previous =? -1)%Z && (previous + 1 <? lineNum)%Z.

Definition mismatch_marker (mismatches : list HashMismatch) (lineNum : Z) : jsstring :=
  if bool_decide (lineNum ∈ mm_line <$> mismatches) then js "*" else js " ".

(** The loop over the displayed lines, shared by both messages. *)
Fixpoint display_rows (row : Z -> jsstring) (previous : Z) (display : list Z) : list jsstring :=
  match display with
  | [] => []
  | lineNum :: rest =>
      (if gap_after previous lineNum then [js "..."] else [])
        ++ row lineNum :: display_rows row lineNum rest
  end.

(** [tools/render-utils.ts]; "│" is the code unit 9474. *)
Definition padStart (width : nat) (s : jsstring) : jsstring :=
  replicate (width - length s) 32%N ++ s.

Definition formatCodeFrameLine (marker : jsstring) (lineNumber : Z) (content : jsstring)
    (lineNumberWidth : nat) : jsstring :=
  let markerText := trim marker in
  let lineNumberText := trim (num_to_string lineNumber) in
  let gutterText :=
    if bool_decide (markerText <> []) && bool_decide (lineNumberText <> [])
    then markerText ++ lineNumberText
    else if bool_decide (lineNumberText <> []) then lineNumberText else markerText in
  padStart (lineNumberWidth + 1) gutterText ++ [9474%N] ++ content.

Definition formatDisplayMessage (mismatches : list HashMismatch) (fileLines : list jsstring)
    : jsstring :=
  let displayLines := getMismatchDisplayLines mismatches fileLines in
  let width := fold_left (fun cur n => Nat.max cur (length (num_to_string n))) displayLines 0 in
  let row n := formatCodeFrameLine (mismatch_marker mismatches n) n (line_at fileLines n) width in
  join [LF] (rejectionHeader mismatches ++ [[]] ++ display_rows row (-1) displayLines).

Section anchors.
Context `{LineHasher}.

(** One row of the message: marker, anchor, separator and text. *)
Definition message_row (mismatches : list HashMismatch) (fileLines : list jsstring)
    (lineNum : Z) : jsstring :=
  mismatch_marker mismatches lineNum
    ++ formatHashLine lineNum (line_at fileLines lineNum).

Definition formatMessage (mismatches : list HashMismatch) (fileLines : list jsstring) : jsstring :=
  join [LF] (rejectionHeader mismatches
    ++ display_rows (message_row mismatches fileLines) (-1)
         (getMismatchDisplayLines mismatches fileLines)).

(** [HashlineMismatchError.remaps]. *)
Definition remaps (mismatches : list HashMismatch) (fileLines : list jsstring)
    : gmap jsstring jsstring :=
  fold_left (fun m mm =>
    <[num_to_string (mm_line mm) ++ mm_expected mm :=
      num_to_string (mm_line mm)
        ++ computeLineHash (mm_line mm) (line_at fileLines (mm_line mm))]> m)
    mismatches ∅.

Definition validateLineRef (ref : Z * jsstring) (fileLines : list jsstring)
    : result HashlineError unit :=
  let (line, hash) := ref in
  if (line <? 1)%Z || (arr_len fileLines <? line)%Z
  then Err (LineDoesNotExist line (arr_len fileLines))
  else
    let actualHash := computeLineHash line (line_at fileLines line) in
    if bool_decide (actualHash = hash) then Ok ()
    else Err (MismatchError [mkMismatch line hash actualHash] fileLines).

End anchors.

(** ** Scanning what the formatter prints *)

Lemma is_digit_not_ws c : is_digit c = true -> is_ws c = false.
Proof.
  unfold is_digit, is_ws. intros [H1 H2]%andb_prop.
  apply N.leb_le in H1, H2.
  repeat (apply orb_false_intro); try (apply N.eqb_neq; lia);
    try (apply andb_false_intro2; apply N.leb_gt; lia);
    apply andb_false_intro1; apply N.leb_gt; lia.
Qed.

Lemma is_digit_not_decoration c : is_digit c = true -> is_decoration c = false.
Proof.
  unfold is_digit, is_decoration. intros [H1 H2]%andb_prop.
  apply N.leb_le in H1, H2.
  repeat (apply orb_false_intro); apply N.eqb_neq; lia.
Qed.

Lemma is_lower_not_digit c : is_lower c = true -> is_digit c = false.
Proof.
  unfold is_lower, is_digit. intros [H1 H2]%andb_prop. apply N.leb_le in H1, H2.
  apply andb_false_intro2, N.leb_gt. lia.
Qed.

Lemma skip_decoration_digit c s :
  is_digit c = true -> skip_decoration (c :: s) = c :: s.
Proof.
  intros Hc. unfold skip_decoration. rewrite (trimStart_id (c :: s)) by (by apply is_digit_not_ws).
  simpl. rewrite is_digit_not_decoration by done. by apply trimStart_id, is_digit_not_ws.
Qed.

Lemma num_to_string_pos n : (1 <= n)%Z -> num_to_string n = dec (Z.to_N n).
Proof. intros. unfold num_to_string. case_match; simpl_bool; [lia|done]. Qed.

Lemma num_to_string_pos_cons n :
  (1 <= n)%Z -> exists c s, num_to_string n = c :: s /\ is_digit c = true.
Proof.
  intros Hn. rewrite num_to_string_pos by done.
  destruct (dec_head (Z.to_N n)) as (c & s & Hd & _); [lia|].
  exists c, s. split; [done|]. pose proof (dec_digit (Z.to_N n)) as Hf.
  rewrite Hd in Hf. by inversion Hf.
Qed.

Lemma scan_tag_print n h rest :
  (1 <= n)%Z -> is_bigram h = true ->
  scan_tag (num_to_string n ++ h ++ rest) = Some (num_to_string n, h, rest).
Proof.
  intros Hn Hh. apply is_bigram_inv in Hh as (a & b & -> & Ha & Hb).
  destruct (num_to_string_pos_cons n Hn) as (c & s & Hc & _).
  unfold scan_tag. rewrite span_prefix.
  - rewrite Hc. simpl. by rewrite Ha, Hb.
  - rewrite num_to_string_pos by done. apply dec_digit.
  - simpl. by apply is_lower_not_digit.
Qed.

Lemma scan_tag_inv s digits hash rest :
  scan_tag s = Some (digits, hash, rest) ->
  Forall (fun c => is_digit c = true) digits /\ is_bigram hash = true.
Proof.
  unfold scan_tag, take_hash. pose proof (span_Forall is_digit s).
  destruct (span is_digit s) as [[|d ds] [|a [|b r]]]; try done; simpl in *.
  destruct (is_lower a && is_lower b) eqn:E; [|done]. by intros [= <- <- <-].
Qed.

Lemma dec_value_num n : (1 <= n)%Z -> Z.of_N (dec_value (num_to_string n)) = n.
Proof. intros. rewrite num_to_string_pos, dec_value_dec by done. lia. Qed.

Lemma skip_decoration_num n h :
  (1 <= n)%Z -> skip_decoration (num_to_string n ++ h) = num_to_string n ++ h.
Proof.
  intros Hn. destruct (num_to_string_pos_cons n Hn) as (c & s & -> & Hc).
  by apply skip_decoration_digit.
Qed.

(** Any prefix made of white space and decorations is skipped before a number. *)
Lemma skip_decoration_prefix p s n :
  (p = js "*" \/ p = js " ") -> (1 <= n)%Z ->
  skip_decoration (p ++ num_to_string n ++ s) = num_to_string n ++ s.
Proof.
  intros Hp Hn. destruct (num_to_string_pos_cons n Hn) as (c & t & -> & Hc).
  pose proof (is_digit_not_ws c Hc). pose proof (is_digit_not_decoration c Hc) as Hd.
  assert (Hid : trimStart (c :: t ++ s) = c :: t ++ s) by by apply trimStart_id.
  destruct Hp as [-> | ->]; unfold skip_decoration.
  - change (js "*" ++ (c :: t) ++ s) with (42%N :: c :: t ++ s).
    rewrite (trimStart_id (_ :: c :: _)) by done. cbn. by rewrite Hd.
  - change (js " " ++ (c :: t) ++ s) with (32%N :: c :: t ++ s).
    rewrite trimStart_ws, Hid by done. cbn. by rewrite Hd.
Qed.

(** ** Round trips *)

Lemma parseTag_print p n h rest :
  (p = [] \/ p = js "*" \/ p = js " ") -> (1 <= n)%Z -> is_bigram h = true ->
  parseTag (p ++ num_to_string n ++ h ++ rest) = Ok (n, h).
Proof.
  intros Hp Hn Hh. unfold parseTag.
  assert (skip_decoration (p ++ num_to_string n ++ h ++ rest)
          = num_to_string n ++ h ++ rest) as ->.
  { destruct Hp as [->|Hp]; [by apply skip_decoration_num|by apply skip_decoration_prefix]. }
  rewrite scan_tag_print, dec_value_num by done.
  case_match; simpl_bool; [lia|done].
Qed.

Lemma line_at_lookup (fileLines : list jsstring) (i : nat) l :
  fileLines !! i = Some l -> line_at fileLines (Z.of_nat i + 1) = l.
Proof.
  intros Hl. unfold line_at. replace (Z.of_nat i + 1 - 1)%Z with (Z.of_nat i) by lia.
  by rewrite arr_get_nat, Hl.
Qed.

Lemma validateLineRef_current `{LineHasher} n (fileLines : list jsstring) :
  (1 <= n <= arr_len fileLines)%Z ->
  validateLineRef (n, computeLineHash n (line_at fileLines n)) fileLines = Ok ().
Proof.
  intros. unfold validateLineRef. rewrite bool_decide_true by done.
  case_match; [|done]. apply orb_prop in H1 as []; simpl_bool; lia.
Qed.

(** What [validateLineRef] accepts, exactly. *)
Lemma validateLineRef_ok `{LineHasher} n h (fileLines : list jsstring) :
  validateLineRef (n, h) fileLines = Ok () <->
  exists i l, fileLines !! i = Some l /\ n = (Z.of_nat i + 1)%Z /\ computeLineHash n l = h.
Proof.
  split.
  - unfold validateLineRef. case_match eqn:E; [done|]. simpl_bool.
    case_bool_decide as Hh; [|done]. intros _.
    destruct (arr_get_in_range fileLines (n - 1)) as [l Hl]; [lia|].
    exists (Z.to_nat (n - 1)), l. split_and!.
    + rewrite <- arr_get_nat, Z2Nat.id by lia. done.
    + lia.
    + unfold line_at in Hh. by rewrite Hl in Hh.
  - intros (i & l & Hl & -> & <-).
    rewrite <- (line_at_lookup fileLines i l Hl) at 1.
    apply validateLineRef_current. apply lookup_lt_Some in Hl. unfold arr_len. lia.
Qed.

(** ** The rejection report *)

Lemma elem_of_int_range lo hi n : n ∈ int_range lo hi <-> (lo <= n <= hi)%Z.
Proof.
  unfold int_range. rewrite list_elem_of_fmap. split.
  - intros (k & -> & Hk%elem_of_seq). lia.
  - intros. exists (Z.to_nat (n - lo)). rewrite elem_of_seq. lia.
Qed.

Definition in_context (fileLines : list jsstring) (m : HashMismatch) (n : Z) : Prop :=
  (Z.max 1 (mm_line m - MISMATCH_CONTEXT) <= n
   <= Z.min (arr_len fileLines) (mm_line m + MISMATCH_CONTEXT))%Z.

Lemma elem_of_display ms (fileLines : list jsstring) n :
  n ∈ getMismatchDisplayLines ms fileLines <-> exists m, m ∈ ms /\ in_context fileLines m n.
Proof.
  unfold getMismatchDisplayLines. rewrite sort_by_perm, elem_of_elements.
  set (step := fun (s : gset Z) m => _).
  assert (Hgen : forall (s : gset Z), n ∈ fold_left step ms s <->
      n ∈ s \/ exists m, m ∈ ms /\ in_context fileLines m n).
  { induction ms as [|m ms IH]; intros s; simpl.
    - set_solver.
    - rewrite IH. unfold step, in_context.
      rewrite elem_of_union, elem_of_list_to_set, elem_of_int_range. set_solver. }
  rewrite Hgen. set_solver.
Qed.

Lemma display_sorted ms (fileLines : list jsstring) :
  StronglySorted Z.le (getMismatchDisplayLines ms fileLines).
Proof.
  eapply (StronglySorted_weaken (fun x y => (x <=? y)%Z = true));
    [|apply sort_by_sorted]; intros; lia.
Qed.

Lemma elem_of_display_rows row prev display r :
  r ∈ display_rows row prev display -> r = js "..." \/ exists n, n ∈ display /\ r = row n.
Proof.
  revert prev. induction display as [|n display IH]; intros prev; simpl; [set_solver|].
  intros [Hg|Hr]%elem_of_app.
  - case_match; set_solver.
  - apply elem_of_cons in Hr as [->|Hr]; [right; set_solver|].
    destruct (IH _ Hr) as [|(m & ? & ?)]; [by left|right; exists m; set_solver].
Qed.

Lemma display_rows_elem row prev display n :
  n ∈ display -> row n ∈ display_rows row prev display.
Proof.
  revert prev. induction display as [|m display IH]; intros prev; simpl; [set_solver|].
  intros [->|Hn]%elem_of_cons; apply elem_of_app; right; [set_solver|].
  apply elem_of_cons. right. eauto.
Qed.

Lemma mismatch_marker_cases ms n : mismatch_marker ms n = js "*" \/ mismatch_marker ms n = js " ".
Proof. unfold mismatch_marker. case_bool_decide; auto. Qed.

Lemma message_row_parses `{LineHasher} ms (fileLines : list jsstring) n :
  (1 <= n)%Z ->
  parseTag (message_row ms fileLines n) = Ok (n, computeLineHash n (line_at fileLines n)).
Proof.
  intros. unfold message_row, formatHashLine. apply parseTag_print; [|done|auto with gjc].
  right. apply mismatch_marker_cases.
Qed.

(** every line that the read output shows can be referred to by copying its
    anchor: parsing the formatted row gives back the line number and the hash,
    and that reference is accepted for the file it was printed from. *)
Theorem read_anchor_roundtrip `{LineHasher} (fileLines : list jsstring) (i : nat) row :
  formatHashRows 1 fileLines !! i = Some row ->
  exists h, parseTag row = Ok (1 + Z.of_nat i, h)%Z
    /\ validateLineRef (1 + Z.of_nat i, h)%Z fileLines = Ok ().
Proof.
  unfold formatHashRows. rewrite list_lookup_imap. intros (l & Hl & ->)%fmap_Some.
  exists (computeLineHash (1 + Z.of_nat i) l). split.
  - unfold formatHashLine. apply (parseTag_print []); [by left|lia|auto with gjc].
  - apply validateLineRef_ok. exists i, l. split_and!; [done|lia|done].
Qed.

(** the report of a rejected edit is usable as it is: each row it shows is
    either the gap mark or carries an anchor that the file accepts, and every
    mismatched line of the file has its row, marked with a star. *)
Theorem rejection_report_usable `{LineHasher} (ms : list HashMismatch) (fileLines : list jsstring) :
  let rows := display_rows (message_row ms fileLines) (-1)
                (getMismatchDisplayLines ms fileLines) in
  formatMessage ms fileLines = join [LF] (rejectionHeader ms ++ rows)
  /\ (forall row, row ∈ rows -> row = js "..." \/
       exists ref, parseTag row = Ok ref /\ validateLineRef ref fileLines = Ok ())
  /\ (forall m, m ∈ ms -> (1 <= mm_line m <= arr_len fileLines)%Z ->
       js "*" ++ formatHashLine (mm_line m) (line_at fileLines (mm_line m)) ∈ rows).
Proof.
  intros rows. split_and!; [done| |].
  - intros row [->|(n & Hn & ->)]%elem_of_display_rows; [by left|right].
    apply elem_of_display in Hn as (m & _ & Hc). unfold in_context in Hc.
    eexists. split; [apply message_row_parses; lia|].
    apply validateLineRef_current. lia.
  - intros m Hm Hr.
    assert (js "*" ++ formatHashLine (mm_line m) (line_at fileLines (mm_line m))
            = message_row ms fileLines (mm_line m)) as ->.
    { unfold message_row, mismatch_marker. rewrite bool_decide_true; [done|].
      apply list_elem_of_fmap. eauto. }
    apply display_rows_elem, elem_of_display. exists m. split; [done|].
    unfold in_context, MISMATCH_CONTEXT. lia.
Qed.

Lemma read_anchor_roundtrip_witness :
  exists h, parseTag (js "2sa|bar") = Ok (2%Z, h)
    /\ validateLineRef (H := sample_hasher) (2%Z, h) [js "foo"; js "bar"] = Ok ().
Proof.
  apply (read_anchor_roundtrip (H := sample_hasher) [js "foo"; js "bar"] 1). vm_compute. reflexivity.
Defined.
