(* ===== verification/HashlineParser.v ===== *)
(** * The hashline edit parser (hashline/parser.ts)

    A diff is a sequence of operations, each introduced by a sigil line and
    followed by verbatim payload lines.  The regular expressions of the source
    are written as scanners: in each of them consecutive character classes are
    disjoint, so the greedy scan is the only match there can be. *)

From S2P Require Import Prelude JsText LineHash HashlineTypes Anchors.

(** ** Scanners *)

(** The end of [LID_CAPTURE_RE]: optionally a bar and anything that [.] matches,
    then white space to the end. *)
Definition lid_tail (s : jsstring) : bool :=
  match s with
  | c :: r =>
      if (c =? HL_BODY_SEP)%N then all_ws (span (fun c => negb (is_line_terminator c)) r).2
      else all_ws s
  | [] => true
  end.

(** [LID_CAPTURE_RE]: the digits and the hash. *)
Definition scan_lid (raw : jsstring) : option (jsstring * jsstring) :=
  match scan_tag (skip_decoration raw) with
  | Some (d :: digits, hash, rest) =>
      if (d =? 48)%N then None
      else if lid_tail rest then Some (d :: digits, hash) else None
  | _ => None
  end.

(** [INSERT_BEFORE_OP_RE] and [INSERT_AFTER_OP_RE]: target and optional body. *)
Definition scan_insert_op (sigil : N) (line : jsstring) : option (jsstring * option jsstring) :=
  match line with
  | c :: r =>
      if (c =? sigil)%N then
        match span (fun c => negb (c =? HL_BODY_SEP)%N && negb (is_ws c)) (trimStart r) with
        | ([], _) => None
        | (token, d :: b) =>
            if (d =? HL_BODY_SEP)%N then
              let (body, tail) := span (fun c => negb (is_line_terminator c)) b in
              if all_ws tail then Some (token, Some body) else None
            else if all_ws (d :: b) then Some (token, None) else None
        | (token, []) => Some (token, None)
        end
      else None
  | [] => None
  end.

(** [REPLACE_OP_RE]: the range text. *)
Definition scan_replace_op (line : jsstring) : option jsstring :=
  match line with
  | c :: r =>
      if (c =? HL_OP_REPLACE)%N then
        match span (fun c => negb (is_ws c)) (trimStart r) with
        | (d :: token, rest) =>
            if (d =? 43)%N || (d =? 60)%N || (d =? 45)%N || (d =? 61)%N then None
            else if all_ws rest then Some (d :: token) else None
        | ([], _) => None
        end
      else None
  | [] => None
  end.

(** ** Targets *)

Definition parseLid (raw : jsstring) (lineNum : Z) : result HashlineError Anchor :=
  match scan_lid raw with
  | None => Err (ExpectedFullAnchor lineNum raw)
  | Some (digits, hash) => Ok (mkAnchor (Z.of_N (dec_value digits)) hash None)
  end.

Record ParsedRange := mkRange { r_start : Anchor; r_end : Anchor }.

Definition parseRange (raw : jsstring) (lineNum : Z) : result HashlineError ParsedRange :=
  if negb (includes_pair 46 46 raw) then
    let! start := parseLid raw lineNum in Ok (mkRange start start)
  else
    match split_pair 46 46 raw with
    | [startRaw; endRaw] =>
        if bool_decide (startRaw = []) || bool_decide (endRaw = [])
        then Err (RangeNeedsTwoAnchors lineNum)
        else
          let! start := parseLid startRaw lineNum in
          let! stop := parseLid endRaw lineNum in
          if (a_line stop <? a_line start)%Z
          then Err (RangeEndsBeforeStart lineNum startRaw endRaw)
          else if (a_line stop =? a_line start)%Z && bool_decide (a_hash stop <> a_hash start)
          then Err (RangeTwoHashesOneLine lineNum startRaw endRaw)
          else Ok (mkRange start stop)
    | _ => Err (RangeNeedsTwoAnchors lineNum)
    end.

Definition expandRange (range : ParsedRange) : list Anchor :=
  (fun line =>
     mkAnchor line
       (if (line =? a_line (r_start range))%Z then a_hash (r_start range)
        else if (line =? a_line (r_end range))%Z then a_hash (r_end range)
        else RANGE_INTERIOR_HASH) None)
  <$> int_range (a_line (r_start range)) (a_line (r_end range)).

Inductive insert_kind := KBefore | KAfter.

Definition parseInsertTarget (raw : jsstring) (lineNum : Z) (kind : insert_kind)
    : result HashlineError HashlineCursor :=
  if bool_decide (raw = js "BOF") then Ok Bof
  else if bool_decide (raw = js "EOF") then Ok Eof
  else let! anchor := parseLid raw lineNum in
       Ok (match kind with KBefore => BeforeAnchor anchor | KAfter => AfterAnchor anchor end).

Definition cloneCursor (cursor : HashlineCursor) : HashlineCursor :=
  match cursor with
  | BeforeAnchor a => BeforeAnchor (mkAnchor (a_line a) (a_hash a) (a_contentHint a))
  | AfterAnchor a => AfterAnchor (mkAnchor (a_line a) (a_hash a) (a_contentHint a))
  | Bof => Bof
  | Eof => Eof
  end.

(** ** Payload lines *)

Definition isEnvelopeOrAbortMarkerLine (line : jsstring) : bool :=
  let trimmed := trimEnd line in
  bool_decide (trimmed = BEGIN_PATCH_MARKER) || bool_decide (trimmed = END_PATCH_MARKER)
  || bool_decide (trimmed = ABORT_MARKER).

Definition isPayloadTerminatorLine (line : jsstring) : bool :=
  match line with
  | first :: _ => (first =? HL_FILE_PREFIX)%N || is_op_char first
  | [] => false
  end || isEnvelopeOrAbortMarkerLine line.

(** [rest] is [lines.slice(startIndex)]; the rest of it after the payload is
    returned in place of [nextIndex]. *)
Definition collectPayload (rest : list jsstring) (opLineNum : Z) (requirePayload : bool)
    : result HashlineError (list jsstring * list jsstring) :=
  let (payload, next) := span (fun l => negb (isPayloadTerminatorLine l)) rest in
  if bool_decide (payload = []) && requirePayload then Err (PayloadRequired opLineNum)
  else Ok (payload, next).

Section parser.
Context `{LineHasher}.

Definition resolveInlineInsertBody (cursor : HashlineCursor) (body : option jsstring)
    : option jsstring :=
  match body, cursor with
  | None, _ => None
  | Some b, (BeforeAnchor a | AfterAnchor a) =>
      if bool_decide (computeLineHash (a_line a) b = a_hash a) then None else Some b
  | Some b, _ => Some b
  end.

(** [pushInsert] for each text, from edit index [k] on. *)
Definition push_inserts (cursor : HashlineCursor) (lineNum k : Z) (texts : list jsstring)
    : list HashlineEdit :=
  imap (fun i text => EInsert (cloneCursor cursor) text lineNum (k + Z.of_nat i)) texts.

Definition push_deletes (anchors : list Anchor) (lineNum k : Z) : list HashlineEdit :=
  imap (fun i a => EDelete a lineNum (k + Z.of_nat i) None) anchors.

(** The branches for [«] and [»], which differ in [kind] only: the edits they
    push and the lines that are left. *)
Definition insert_branch (kind : insert_kind) (m : jsstring * option jsstring) (lineNum k : Z)
    (rest : list jsstring) : result HashlineError (list HashlineEdit * list jsstring) :=
  let! cursor := parseInsertTarget m.1 lineNum kind in
  let inlineBody := resolveInlineInsertBody cursor m.2 in
  let! (payload, next) :=
    collectPayload rest lineNum (match inlineBody with None => true | Some _ => false end) in
  Ok (push_inserts cursor lineNum k (option_list inlineBody ++ payload), next).

Definition replace_branch (raw : jsstring) (lineNum k : Z) (rest : list jsstring)
    : result HashlineError (list HashlineEdit * list jsstring) :=
  let! range := parseRange raw lineNum in
  let! (payload, next) := collectPayload rest lineNum false in
  let ins := push_inserts (BeforeAnchor (r_start range)) lineNum k payload in
  Ok (ins ++ push_deletes (expandRange range) lineNum (k + arr_len payload)%Z, next).

(** [/^[-@\u00B6]/]: only selects the error message. *)
Definition looks_like_op (line : jsstring) : bool :=
  match line with
  | c :: _ => (c =? 45)%N || (c =? 64)%N || (c =? 182)%N
  | [] => false
  end.

(** The operation on one line, if it is one. *)
Definition parse_op (line : jsstring) (lineNum k : Z) (rest : list jsstring)
    : result HashlineError (list HashlineEdit * list jsstring) :=
  match scan_insert_op HL_OP_INSERT_BEFORE line with
  | Some m => insert_branch KBefore m lineNum k rest
  | None =>
  match scan_insert_op HL_OP_INSERT_AFTER line with
  | Some m => insert_branch KAfter m lineNum k rest
  | None =>
  match scan_replace_op line with
  | Some raw => replace_branch raw lineNum k rest
  | None =>
      if isPayloadTerminatorLine line || looks_like_op line
      then Err (UnrecognizedOp lineNum line)
      else Err (PayloadWithoutOp lineNum line)
  end end end.

(** The main loop.  [i] is the loop index, [rest] is [lines.slice(i)], [k] is
    [editIndex].  Every iteration consumes a line, so [length rest] is enough
    fuel ([parse_loop_fuel]). *)
Fixpoint parse_loop (fuel : nat) (i k : Z) (rest : list jsstring)
    : result HashlineError (list HashlineEdit * list jsstring) :=
  match fuel, rest with
  | _, [] => Ok ([], [])
  | O, _ :: _ => Ok ([], [])
  | S f, line :: rest' =>
      if bool_decide (trim line = []) then parse_loop f (i + 1) k rest'
      else if bool_decide (line = END_PATCH_MARKER) then Ok ([], [])
      else if bool_decide (line = ABORT_MARKER) then Ok ([], [ABORT_WARNING])
      else if bool_decide (line = BEGIN_PATCH_MARKER) then parse_loop f (i + 1) k rest'
      else
        let! (edits, next) := parse_op line (i + 1) k rest' in
        let i' := (i + 1 + (arr_len rest' - arr_len next))%Z in
        let! (edits', warnings) := parse_loop f i' (k + arr_len edits)%Z next in
        Ok (edits ++ edits', warnings)
  end.

Definition diff_lines (diff : jsstring) : list jsstring :=
  let lines := split_lines diff in
  if bool_decide (last diff = Some LF) && bool_decide (last lines = Some [])
  then removelast lines else lines.

Definition parseHashlineWithWarnings (diff : jsstring)
    : result HashlineError (list HashlineEdit * list jsstring) :=
  let lines := diff_lines diff in parse_loop (length lines) 0 0 lines.

Definition parseHashline (diff : jsstring) : result HashlineError (list HashlineEdit) :=
  let! (edits, _) := parseHashlineWithWarnings diff in Ok edits.

End parser.

(** ** Termination: the fuel is enough *)

Lemma collectPayload_next rest n req payload next :
  collectPayload rest n req = Ok (payload, next) -> rest = payload ++ next.
Proof.
  unfold collectPayload. pose proof (span_app (fun l => negb (isPayloadTerminatorLine l)) rest) as Hs.
  destruct (span _ rest). by case_match; intros; simplify_eq.
Qed.

Section parser_facts.
Context `{LineHasher}.

Lemma insert_branch_next kind m n k rest edits next :
  insert_branch kind m n k rest = Ok (edits, next) -> length next <= length rest.
Proof.
  unfold insert_branch. intros. repeat case_match; simplify_eq;
    match goal with H : collectPayload _ _ _ = Ok _ |- _ => apply collectPayload_next in H as -> end;
    rewrite length_app; lia.
Qed.

Lemma replace_branch_next raw n k rest edits next :
  replace_branch raw n k rest = Ok (edits, next) -> length next <= length rest.
Proof.
  unfold replace_branch. intros. repeat case_match; simplify_eq;
    match goal with H : collectPayload _ _ _ = Ok _ |- _ => apply collectPayload_next in H as -> end;
    rewrite length_app; lia.
Qed.

Lemma parse_op_next line n k rest edits next :
  parse_op line n k rest = Ok (edits, next) -> length next <= length rest.
Proof.
  unfold parse_op. intros. repeat case_match; simplify_eq;
    eauto using insert_branch_next, replace_branch_next.
Qed.

(** Any amount of fuel from the number of lines on gives the same result, so the
    loop of the source ends and [parseHashlineWithWarnings] runs it to its end. *)
Lemma parse_loop_fuel f1 f2 i k rest :
  length rest <= f1 -> length rest <= f2 ->
  parse_loop f1 i k rest = parse_loop f2 i k rest.
Proof.
  revert f2 i k rest. induction f1 as [|f1 IH]; intros f2 i k [|line rest] H1 H2;
    simpl in H1, H2; try lia; try by destruct f2.
  destruct f2 as [|f2]; [lia|]. simpl.
  rewrite (IH f2) by lia.
  repeat case_bool_decide; try done.
  destruct (parse_op line (i + 1) k rest) as [[edits next]|] eqn:E; [|done].
  apply parse_op_next in E. by rewrite (IH f2) by lia.
Qed.

Lemma parse_loop_cons f i k line rest :
  length rest <= f ->
  bool_decide (trim line = []) = false -> isEnvelopeOrAbortMarkerLine line = false ->
  parse_loop (S f) i k (line :: rest) =
    (let! (edits, next) := parse_op line (i + 1) k rest in
     let! (edits', warnings) :=
       parse_loop f (i + 1 + (arr_len rest - arr_len next)) (k + arr_len edits)%Z next in
     Ok (edits ++ edits', warnings)).
Proof.
  intros Hf Ht He. cbn [parse_loop]. rewrite Ht.
  assert (Hm : forall m, trimEnd m = m ->
     m = BEGIN_PATCH_MARKER \/ m = END_PATCH_MARKER \/ m = ABORT_MARKER ->
     bool_decide (line = m) = false).
  { intros m Hm Hc. apply bool_decide_false. intros ->.
    unfold isEnvelopeOrAbortMarkerLine in He. rewrite Hm in He. simpl_bool.
    naive_solver. }
  rewrite !Hm; eauto.
Qed.

(** ** Well-formed output *)

Definition wf_hash (h : jsstring) : Prop := is_bigram h = true \/ h = RANGE_INTERIOR_HASH.

Definition wf_anchor (a : Anchor) : Prop := (1 <= a_line a)%Z /\ is_bigram (a_hash a) = true.

Definition wf_cursor (c : HashlineCursor) : Prop :=
  match c with BeforeAnchor a | AfterAnchor a => wf_anchor a | Bof | Eof => True end.

Definition wf_edit (e : HashlineEdit) : Prop :=
  match e with
  | EInsert c _ _ _ => wf_cursor c
  | EDelete a _ _ _ => (1 <= a_line a)%Z /\ wf_hash (a_hash a)
  end.

Definition edit_index (e : HashlineEdit) : Z :=
  match e with EInsert _ _ _ i | EDelete _ _ i _ => i end.

Lemma dec_value_ge s v : (1 <= v)%N -> (1 <= fold_left (fun v c => 10 * v + (c - 48)) s v)%N.
Proof. revert v. induction s; intros v Hv; simpl; [done|]. apply IHs. lia. Qed.

Lemma parseLid_wf raw n a : parseLid raw n = Ok a -> wf_anchor a.
Proof.
  unfold parseLid, scan_lid.
  destruct (scan_tag _) as [[[[|d ds] h] r]|] eqn:E; try done.
  apply scan_tag_inv in E as [Hd Hh].
  destruct (d =? 48)%N eqn:E0; [done|]. destruct (lid_tail r); [|done].
  intros [= <-]. split; simpl; [|done].
  inversion Hd as [|?? Hc _]; subst. apply andb_prop in Hc as [Hc1 Hc2].
  apply N.eqb_neq in E0. apply N.leb_le in Hc1, Hc2. unfold dec_value. cbn [fold_left].
  pose proof (dec_value_ge ds (10 * 0 + (d - 48))). lia.
Qed.

Lemma wf_anchor_mk a : wf_anchor a -> (1 <= a_line a)%Z /\ wf_hash (a_hash a).
Proof. intros []. split; [done|by left]. Qed.

Lemma parseRange_wf raw n r :
  parseRange raw n = Ok r ->
  wf_anchor (r_start r) /\ wf_anchor (r_end r) /\ (a_line (r_start r) <= a_line (r_end r))%Z.
Proof.
  unfold parseRange. intros. repeat case_match; simplify_eq/=; simpl_bool;
    repeat match goal with H : parseLid _ _ = Ok _ |- _ => apply parseLid_wf in H end;
    split_and!; eauto; lia.
Qed.

Lemma expandRange_wf r :
  wf_anchor (r_start r) -> wf_anchor (r_end r) ->
  Forall (fun a => (1 <= a_line a)%Z /\ wf_hash (a_hash a)) (expandRange r).
Proof.
  intros Hs He. apply Forall_fmap, Forall_forall. intros l Hl%elem_of_int_range. simpl.
  unfold wf_hash. destruct Hs as [Hs1 Hs2], He as [He1 He2]. split; [lia|].
  repeat case_match; auto.
Qed.

Lemma parseInsertTarget_wf raw n kind c : parseInsertTarget raw n kind = Ok c -> wf_cursor c.
Proof.
  unfold parseInsertTarget. intros.
  repeat case_match; simplify_eq/=; eauto using parseLid_wf.
Qed.

Lemma cloneCursor_id c : cloneCursor c = c.
Proof. by destruct c as [| |[]|[]]. Qed.

(** What a pushed run of edits satisfies: [P] of each, the line number of the
    operation, and consecutive indices. *)
Definition pushed (n k : Z) (edits : list HashlineEdit) : Prop :=
  Forall wf_edit edits /\ Forall (fun e => edit_lineNum e = n) edits
  /\ forall j e, edits !! j = Some e -> edit_index e = (k + Z.of_nat j)%Z.

Lemma push_inserts_pushed c n k texts : wf_cursor c -> pushed n k (push_inserts c n k texts).
Proof.
  intros Hc. unfold push_inserts. rewrite cloneCursor_id. split_and!.
  - apply Forall_lookup. intros j e. rewrite list_lookup_imap.
    by intros (? & ? & ->)%fmap_Some.
  - apply Forall_lookup. intros j e. rewrite list_lookup_imap.
    by intros (? & ? & ->)%fmap_Some.
  - intros j e. rewrite list_lookup_imap. by intros (? & ? & ->)%fmap_Some.
Qed.

Lemma push_deletes_pushed anchors n k :
  Forall (fun a => (1 <= a_line a)%Z /\ wf_hash (a_hash a)) anchors ->
  pushed n k (push_deletes anchors n k).
Proof.
  intros Ha. unfold push_deletes. rewrite Forall_lookup in Ha. split_and!.
  - apply Forall_lookup. intros j e. rewrite list_lookup_imap.
    intros (? & ? & ->)%fmap_Some. simpl. eauto.
  - apply Forall_lookup. intros j e. rewrite list_lookup_imap.
    by intros (? & ? & ->)%fmap_Some.
  - intros j e. rewrite list_lookup_imap. by intros (? & ? & ->)%fmap_Some.
Qed.

Lemma indices_app k (l1 l2 : list HashlineEdit) :
  (forall j e, l1 !! j = Some e -> edit_index e = (k + Z.of_nat j)%Z) ->
  (forall j e, l2 !! j = Some e -> edit_index e = (k + arr_len l1 + Z.of_nat j)%Z) ->
  forall j e, (l1 ++ l2) !! j = Some e -> edit_index e = (k + Z.of_nat j)%Z.
Proof.
  intros H1 H2 j e [Hj|[Hl Hj]]%lookup_app_Some; [eauto|].
  apply H2 in Hj as ->. unfold arr_len. lia.
Qed.

Lemma insert_branch_pushed kind m n k rest edits next :
  insert_branch kind m n k rest = Ok (edits, next) -> pushed n k edits.
Proof.
  unfold insert_branch. destruct (parseInsertTarget _ _ _) eqn:E; [|done].
  destruct (collectPayload _ _ _) as [[]|]; [|done]. intros [= <- _].
  apply push_inserts_pushed. by eapply parseInsertTarget_wf.
Qed.

Lemma replace_branch_pushed raw n k rest edits next :
  replace_branch raw n k rest = Ok (edits, next) -> pushed n k edits.
Proof.
  unfold replace_branch. destruct (parseRange _ _) as [r|] eqn:E; [|done].
  apply parseRange_wf in E as (Hs & He & _).
  destruct (collectPayload _ _ _) as [[payload ?]|]; [|done]. intros [= <- _].
  destruct (push_inserts_pushed (BeforeAnchor (r_start r)) n k payload Hs) as (Hi1 & Hi2 & Hi3).
  destruct (push_deletes_pushed (expandRange r) n (k + arr_len payload)) as (Hd1 & Hd2 & Hd3);
    [by apply expandRange_wf|].
  split_and!; [by apply Forall_app|by apply Forall_app|].
  apply indices_app; [done|]. intros j e Hj.
  rewrite (Hd3 j e Hj). unfold arr_len, push_inserts. by rewrite length_imap.
Qed.

Lemma parse_op_pushed line n k rest edits next :
  parse_op line n k rest = Ok (edits, next) -> pushed n k edits.
Proof.
  unfold parse_op. intros. repeat case_match; simplify_eq;
    eauto using insert_branch_pushed, replace_branch_pushed.
Qed.

(** What a run of the loop from line [i] and edit index [k] on guarantees. *)
Definition parsed (i k : Z) (rest : list jsstring) (edits : list HashlineEdit)
    (ws : list jsstring) : Prop :=
  Forall wf_edit edits
  /\ Forall (fun e => (i < edit_lineNum e <= i + arr_len rest)%Z) edits
  /\ (forall j e, edits !! j = Some e -> edit_index e = (k + Z.of_nat j)%Z)
  /\ (ws = [] \/ ws = [ABORT_WARNING]).

Lemma parsed_weaken i i' k rest rest' edits ws :
  (i' <= i)%Z -> (i + arr_len rest <= i' + arr_len rest')%Z ->
  parsed i k rest edits ws -> parsed i' k rest' edits ws.
Proof.
  intros ?? (? & Hl & ? & ?). split_and!; try done.
  eapply Forall_impl; [exact Hl|]. simpl. lia.
Qed.

Lemma parsed_nil i k rest ws : ws = [] \/ ws = [ABORT_WARNING] -> parsed i k rest [] ws.
Proof. intros. by split_and!. Qed.

Lemma parse_loop_wf f i k rest edits ws :
  (0 <= i)%Z -> parse_loop f i k rest = Ok (edits, ws) -> parsed i k rest edits ws.
Proof.
  revert i k rest edits ws. induction f as [|f IH]; intros i k [|line rest] edits ws Hi;
    cbn [parse_loop]; try (intros; simplify_eq; by apply parsed_nil; left).
  repeat case_bool_decide; try (intros; simplify_eq; by apply parsed_nil; auto);
    try (intros Hr; apply IH in Hr; [|lia];
         eapply parsed_weaken; [| |exact Hr]; unfold arr_len; simpl; lia).
  destruct (parse_op line (i + 1) k rest) as [[edits1 next]|] eqn:E; [|done].
  pose proof (parse_op_next _ _ _ _ _ _ E) as Hn.
  apply parse_op_pushed in E as (Hw & Hl & Hidx).
  destruct (parse_loop f _ _ next) as [[edits2 ws2]|] eqn:E2; [|done].
  intros [= <- <-]. apply IH in E2 as (Hw2 & Hl2 & Hidx2 & Hws); [|unfold arr_len; lia].
  split_and!; [by apply Forall_app| |by apply indices_app|done].
  apply Forall_app; split.
  - eapply Forall_impl; [exact Hl|]. intros e ->. unfold arr_len. simpl. lia.
  - eapply Forall_impl; [exact Hl2|]. intros e. unfold arr_len. simpl. lia.
Qed.

End parser_facts.

(** whatever the diff text, a successful parse yields edits whose anchors
    name lines from 1 on with a two-letter hash (or the interior filler, on
    deletions only), numbered consecutively from 0, each attributed to a line of
    the diff; and the only warning is the abort notice. *)
Theorem parse_wellformed `{LineHasher} diff edits ws :
  parseHashlineWithWarnings diff = Ok (edits, ws) ->
  Forall wf_edit edits
  /\ Forall (fun e => (1 <= edit_lineNum e <= arr_len (diff_lines diff))%Z) edits
  /\ (edit_index <$> edits) = Z.of_nat <$> seq 0 (length edits)
  /\ (ws = [] \/ ws = [ABORT_WARNING]).
Proof.
  intros (Hw & Hl & Hidx & Hws)%parse_loop_wf; [|lia]. split_and!; [done| | |done].
  - eapply Forall_impl; [exact Hl|]. simpl. lia.
  - apply list_eq. intros j. rewrite !list_lookup_fmap.
    destruct (edits !! j) as [e|] eqn:Ej; simpl.
    + rewrite (Hidx _ _ Ej). apply lookup_lt_Some in Ej. by rewrite lookup_seq_lt.
    + rewrite lookup_seq_ge; [done|]. by apply lookup_ge_None.
Qed.

Lemma parse_wellformed_witness :
  let diff := js "*** Begin Patch" ++ [LF; HL_OP_REPLACE] ++ js "2ab..4cd" ++ [LF] ++ js "new" ++ [LF] in
  exists edits,
    parseHashlineWithWarnings (H := sample_hasher) diff = Ok (edits, [])
    /\ length edits = 4 /\ Forall wf_edit edits.
Proof.
  eexists. split; [vm_compute; reflexivity|]. split; [reflexivity|].
  eapply (parse_wellformed (H := sample_hasher)
    (js "*** Begin Patch" ++ [LF; HL_OP_REPLACE] ++ js "2ab..4cd" ++ [LF] ++ js "new" ++ [LF])).
  vm_compute. reflexivity.
Defined.
