(* ===== verification/HashlineSyntax.v ===== *)
(** * Writing hashline diffs

    The abstract operations a diff expresses, how they are written down, and the
    edits they stand for; the parser reads every written diff back. *)

From S2P Require Import Prelude JsText LineHash HashlineTypes Anchors HashlineParser.

Inductive insert_target :=
| TBof
| TEof
| TLine (line : Z) (hash : jsstring).

Inductive hl_op :=
| OpInsert (kind : insert_kind) (target : insert_target) (payload : list jsstring)
| OpReplace (l1 : Z) (h1 : jsstring) (l2 : Z) (h2 : jsstring) (payload : list jsstring).

(** ** Writing *)

Definition write_tag (line : Z) (hash : jsstring) : jsstring := num_to_string line ++ hash.

Definition write_target (t : insert_target) : jsstring :=
  match t with TBof => js "BOF" | TEof => js "EOF" | TLine l h => write_tag l h end.

Definition sigil_of (kind : insert_kind) : N :=
  match kind with KBefore => HL_OP_INSERT_BEFORE | KAfter => HL_OP_INSERT_AFTER end.

Definition write_op (op : hl_op) : list jsstring :=
  match op with
  | OpInsert kind t payload => (sigil_of kind :: write_target t) :: payload
  | OpReplace l1 h1 l2 h2 payload =>
      (HL_OP_REPLACE :: write_tag l1 h1 ++ js ".." ++ write_tag l2 h2) :: payload
  end.

(** Every line ends with a line feed. *)
Definition write_diff (ops : list hl_op) : jsstring :=
  join [LF] (concat (write_op <$> ops) ++ [[]]).

(** ** Meaning *)

Definition target_cursor (kind : insert_kind) (t : insert_target) : HashlineCursor :=
  match t with
  | TBof => Bof
  | TEof => Eof
  | TLine l h =>
      match kind with
      | KBefore => BeforeAnchor (mkAnchor l h None)
      | KAfter => AfterAnchor (mkAnchor l h None)
      end
  end.

Definition op_edits (n k : Z) (op : hl_op) : list HashlineEdit :=
  match op with
  | OpInsert kind t payload => push_inserts (target_cursor kind t) n k payload
  | OpReplace l1 h1 l2 h2 payload =>
      let r := mkRange (mkAnchor l1 h1 None) (mkAnchor l2 h2 None) in
      push_inserts (BeforeAnchor (r_start r)) n k payload
        ++ push_deletes (expandRange r) n (k + arr_len payload)
  end.

Fixpoint diff_edits (i k : Z) (ops : list hl_op) : list HashlineEdit :=
  match ops with
  | [] => []
  | op :: ops' =>
      let es := op_edits (i + 1) k op in
      es ++ diff_edits (i + arr_len (write_op op)) (k + arr_len es) ops'
  end.

(** ** Operations that can be written down *)

Definition wf_payload_line (l : jsstring) : Prop :=
  Forall (fun c => c <> LF) l /\ last l <> Some CR /\ isPayloadTerminatorLine l = false.

Definition wf_target (t : insert_target) : Prop :=
  match t with TLine l h => (1 <= l)%Z /\ is_bigram h = true | _ => True end.

Definition wf_op (op : hl_op) : Prop :=
  match op with
  | OpInsert _ t payload => wf_target t /\ payload <> [] /\ Forall wf_payload_line payload
  | OpReplace l1 h1 l2 h2 payload =>
      (1 <= l1 <= l2)%Z /\ is_bigram h1 = true /\ is_bigram h2 = true
      /\ (l1 = l2 -> h1 = h2) /\ Forall wf_payload_line payload
  end.

(** ** Token characters *)

Definition tok_char (c : N) : bool := is_digit c || is_lower c.

Lemma tok_char_facts c :
  tok_char c = true ->
  is_ws c = false /\ c <> HL_BODY_SEP /\ c <> 46%N /\ c <> LF /\ c <> CR.
Proof.
  unfold tok_char, is_digit, is_lower. intros Hc.
  assert (48 <= c <= 57 \/ 97 <= c <= 122)%N as Hr.
  { apply orb_prop in Hc as [[]%andb_prop|[]%andb_prop]; [left|right];
      split; by apply N.leb_le. }
  split; [|unfold HL_BODY_SEP, LF, CR; lia].
  unfold is_ws. repeat (apply orb_false_intro); try (apply N.eqb_neq; lia);
    try (apply andb_false_intro2; apply N.leb_gt; lia);
    apply andb_false_intro1; apply N.leb_gt; lia.
Qed.

Lemma write_tag_tok n h :
  (1 <= n)%Z -> is_bigram h = true -> Forall (fun c => tok_char c = true) (write_tag n h).
Proof.
  intros Hn (a & b & -> & Ha & Hb)%is_bigram_inv. unfold write_tag.
  rewrite num_to_string_pos by done. apply Forall_app; split.
  - eapply Forall_impl; [apply dec_digit|]. simpl. unfold tok_char. by intros ? ->.
  - unfold tok_char. repeat constructor; rewrite ?Ha, ?Hb; apply orb_true_r.
Qed.

Lemma write_tag_cons n h :
  (1 <= n)%Z -> exists c s, write_tag n h = c :: s /\ is_digit c = true.
Proof.
  intros Hn. destruct (num_to_string_pos_cons n Hn) as (c & s & Hc & ?).
  exists c, (s ++ h). unfold write_tag. by rewrite Hc.
Qed.

Lemma write_target_tok t :
  wf_target t ->
  write_target t <> [] /\
  Forall (fun c => is_ws c = false /\ c <> HL_BODY_SEP /\ c <> LF /\ c <> CR) (write_target t).
Proof.
  destruct t as [| |n h]; simpl.
  - split; [done|]. by repeat constructor.
  - split; [done|]. by repeat constructor.
  - intros [Hn Hh]. split.
    + destruct (write_tag_cons n h Hn) as (? & ? & -> & _). done.
    + eapply Forall_impl; [by apply write_tag_tok|]. simpl.
      intros c Hc%tok_char_facts. naive_solver.
Qed.

(** ** Scanning back *)

Lemma scan_lid_write n h :
  (1 <= n)%Z -> is_bigram h = true -> scan_lid (write_tag n h) = Some (num_to_string n, h).
Proof.
  intros Hn Hh. unfold scan_lid, write_tag. rewrite skip_decoration_num by done.
  rewrite <- (app_nil_r h) at 1. rewrite scan_tag_print by done.
  rewrite num_to_string_pos by done.
  destruct (dec_head (Z.to_N n)) as (c & s & -> & Hc); [lia|].
  assert ((c =? 48)%N = false) as -> by (apply N.eqb_neq; lia). done.
Qed.

Lemma parseLid_write n h m :
  (1 <= n)%Z -> is_bigram h = true -> parseLid (write_tag n h) m = Ok (mkAnchor n h None).
Proof.
  intros. unfold parseLid. rewrite scan_lid_write by done. by rewrite dec_value_num.
Qed.

Lemma scan_insert_write sigil tok :
  tok <> [] -> Forall (fun c => is_ws c = false /\ c <> HL_BODY_SEP) tok ->
  scan_insert_op sigil (sigil :: tok) = Some (tok, None).
Proof.
  intros Hne Hf. unfold scan_insert_op. rewrite N.eqb_refl, trimStart_id.
  - rewrite span_all; [by destruct tok|].
    eapply Forall_impl; [exact Hf|]. simpl. intros c [-> Hc].
    apply N.eqb_neq in Hc as ->. done.
  - destruct Hf as [|c tok [] ?]; done.
Qed.

Lemma parseInsertTarget_write t n kind :
  wf_target t -> parseInsertTarget (write_target t) n kind = Ok (target_cursor kind t).
Proof.
  destruct t as [| |l h]; simpl; try done. intros [Hl Hh]. unfold parseInsertTarget.
  rewrite parseLid_write by done.
  destruct (write_tag_cons l h Hl) as (c & s & Hc & Hd).
  rewrite !bool_decide_false; [by destruct kind| |]; rewrite Hc; intros [= -> _]; done.
Qed.

Lemma split_pair_no_dot s :
  Forall (fun c => c <> 46%N) s -> split_pair 46 46 s = [s].
Proof.
  induction 1 as [|c s Hc Hs IH]; [done|]. cbn [split_pair]. rewrite IH.
  apply N.eqb_neq in Hc as ->. by destruct s.
Qed.

Lemma split_pair_dots x y :
  Forall (fun c => c <> 46%N) x ->
  split_pair 46 46 (x ++ 46%N :: 46%N :: y) = x :: split_pair 46 46 y.
Proof.
  induction 1 as [|c x Hc Hx IH]; [done|]. cbn [app split_pair]. rewrite IH.
  apply N.eqb_neq in Hc as ->. by destruct x.
Qed.

Lemma includes_pair_dots x y : includes_pair 46 46 (x ++ 46%N :: 46%N :: y) = true.
Proof.
  induction x as [|c x IH]; [done|]. cbn [app includes_pair]. rewrite IH.
  destruct x; simpl; apply orb_true_r.
Qed.

Lemma parseRange_write l1 h1 l2 h2 n :
  (1 <= l1 <= l2)%Z -> is_bigram h1 = true -> is_bigram h2 = true -> (l1 = l2 -> h1 = h2) ->
  parseRange (write_tag l1 h1 ++ js ".." ++ write_tag l2 h2) n
  = Ok (mkRange (mkAnchor l1 h1 None) (mkAnchor l2 h2 None)).
Proof.
  intros Hl H1 H2 Heq. unfold parseRange.
  change (js ".." ++ write_tag l2 h2) with (46%N :: 46%N :: write_tag l2 h2).
  rewrite includes_pair_dots. cbn [negb].
  assert (Hnd : forall l h, (1 <= l)%Z -> is_bigram h = true ->
            Forall (fun c => c <> 46%N) (write_tag l h)).
  { intros l h Hll Hh. eapply Forall_impl; [by apply write_tag_tok|].
    simpl. intros c Hc%tok_char_facts. naive_solver. }
  rewrite split_pair_dots by (apply Hnd; [lia|done]).
  rewrite split_pair_no_dot by (apply Hnd; [lia|done]).
  destruct (write_tag_cons l1 h1) as (c1 & s1 & Hs1 & _); [lia|].
  destruct (write_tag_cons l2 h2) as (c2 & s2 & Hs2 & _); [lia|].
  rewrite !bool_decide_false by congruence. simpl.
  rewrite !parseLid_write by (done || lia). simpl.
  destruct (l2 <? l1)%Z eqn:E; simpl_bool; [lia|].
  destruct (l2 =? l1)%Z eqn:E'; simpl; [|done]. simpl_bool.
  rewrite bool_decide_false; [done|]. rewrite Heq by lia. naive_solver.
Qed.

Lemma scan_replace_write l1 h1 l2 h2 :
  (1 <= l1 <= l2)%Z -> is_bigram h1 = true -> is_bigram h2 = true ->
  scan_replace_op (HL_OP_REPLACE :: write_tag l1 h1 ++ js ".." ++ write_tag l2 h2)
  = Some (write_tag l1 h1 ++ js ".." ++ write_tag l2 h2).
Proof.
  intros Hl H1 H2. unfold scan_replace_op. rewrite N.eqb_refl.
  assert (Hf : Forall (fun c => negb (is_ws c) = true)
                 (write_tag l1 h1 ++ js ".." ++ write_tag l2 h2)).
  { rewrite !Forall_app. split_and!;
      try (eapply Forall_impl; [apply write_tag_tok; [lia|done]|];
           simpl; intros c (-> & _)%tok_char_facts; done).
    by repeat constructor. }
  destruct (write_tag_cons l1 h1) as (c & s & Hs & Hc); [lia|].
  rewrite Hs in *. cbn [app] in *.
  rewrite trimStart_id by by apply is_digit_not_ws.
  rewrite span_all by done.
  unfold is_digit in Hc. apply andb_prop in Hc as [Hc1 Hc2].
  apply N.leb_le in Hc1, Hc2.
  repeat match goal with |- context [(c =? ?k)%N] =>
    let H := fresh in assert (H : (c =? k)%N = false) by (apply N.eqb_neq; lia); rewrite H; clear H
  end. done.
Qed.

(** ** Payloads stop at the next operation *)

Definition starts_op (rest : list jsstring) : Prop :=
  match rest with [] => True | l :: _ => isPayloadTerminatorLine l = true end.

Lemma collectPayload_write payload rest n req :
  Forall wf_payload_line payload -> starts_op rest -> (req = true -> payload <> []) ->
  collectPayload (payload ++ rest) n req = Ok (payload, rest).
Proof.
  intros Hp Hr Hreq. unfold collectPayload. rewrite span_prefix.
  - destruct req; [|by rewrite andb_false_r].
    rewrite bool_decide_false by auto. done.
  - eapply Forall_impl; [exact Hp|]. simpl. intros l (_ & _ & ->). done.
  - destruct rest; [done|]. simpl in *. by rewrite Hr.
Qed.

Lemma write_op_starts op rest : starts_op (write_op op ++ rest).
Proof. by destruct op as [[]|]. Qed.

Lemma write_ops_start ops : starts_op (concat (write_op <$> ops)).
Proof. destruct ops; [done|]. apply write_op_starts. Qed.

Section reading_back.
Context `{LineHasher}.

Lemma parse_op_write op n k rest :
  wf_op op -> starts_op rest ->
  match write_op op ++ rest with
  | line :: tl => parse_op line n k tl = Ok (op_edits n k op, rest)
  | [] => False
  end.
Proof.
  destruct op as [kind t payload|l1 h1 l2 h2 payload]; cbn [write_op app op_edits wf_op]; intros Hw Hr.
  - destruct Hw as (Ht & Hne & Hp).
    destruct (write_target_tok t Ht) as [Htne Htok].
    assert (Hscan : scan_insert_op (sigil_of kind) (sigil_of kind :: write_target t)
                    = Some (write_target t, None)).
    { apply scan_insert_write; [done|]. eapply Forall_impl; [exact Htok|]. naive_solver. }
    assert (Hb : insert_branch kind (write_target t, None) n k (payload ++ rest)
                 = Ok (push_inserts (target_cursor kind t) n k payload, rest)).
    { unfold insert_branch. cbn [fst snd]. rewrite parseInsertTarget_write by done.
      simpl. by rewrite collectPayload_write. }
    unfold parse_op. destruct kind; simpl sigil_of in *; [by rewrite Hscan, Hb|].
    change (scan_insert_op HL_OP_INSERT_BEFORE (HL_OP_INSERT_AFTER :: write_target t)) with
      (@None (jsstring * option jsstring)). by rewrite Hscan, Hb.
  - destruct Hw as (Hl & H1 & H2 & Heq & Hp).
    unfold parse_op.
    change (scan_insert_op HL_OP_INSERT_BEFORE (HL_OP_REPLACE :: ?s)) with
      (@None (jsstring * option jsstring)).
    change (scan_insert_op HL_OP_INSERT_AFTER (HL_OP_REPLACE :: ?s)) with
      (@None (jsstring * option jsstring)).
    rewrite scan_replace_write by done. unfold replace_branch.
    rewrite parseRange_write by done. by rewrite collectPayload_write.
Qed.

Lemma sigil_line_recognized c line :
  is_op_char c = true ->
  bool_decide (trim (c :: line) = []) = false /\ isEnvelopeOrAbortMarkerLine (c :: line) = false.
Proof.
  intros Hc.
  assert (is_ws c = false /\ c <> 42%N) as [Hws Hstar].
  { unfold is_op_char in Hc. apply orb_prop in Hc as [[]%orb_prop|]; simpl_bool;
      match goal with H : (c =? _)%N = true |- _ => apply N.eqb_eq in H as -> end; done. }
  destruct (trimEnd_head c line Hws) as [s' Hs]. split.
  - apply bool_decide_false. unfold trim. rewrite trimStart_id by done. by rewrite Hs.
  - unfold isEnvelopeOrAbortMarkerLine. rewrite Hs.
    rewrite !bool_decide_false; [done|..]; intros [= -> _]; done.
Qed.

Lemma parse_loop_write ops f i k :
  Forall wf_op ops -> length (concat (write_op <$> ops)) <= f ->
  parse_loop f i k (concat (write_op <$> ops)) = Ok (diff_edits i k ops, []).
Proof.
  intros Hw. revert f i k. induction Hw as [|op ops Hop Hw IH]; intros f i k Hf.
  - by destruct f.
  - cbn [fmap list_fmap concat] in *. fold (write_op <$> ops) in *.
    pose proof (parse_op_write op (i + 1) k (concat (write_op <$> ops)) Hop (write_ops_start ops))
      as Hp.
    assert (exists c l tl, write_op op = (c :: l) :: tl /\ is_op_char c = true)
      as (c & l & tl & Hwr & Hc) by (destruct op as [[]|]; by eexists _, _, _).
    rewrite Hwr in *. cbn [app] in *. simpl length in Hf. destruct f as [|f]; [lia|].
    destruct (sigil_line_recognized c l Hc) as [Hb He].
    rewrite length_app in Hf.
    rewrite parse_loop_cons by (done || rewrite length_app; lia).
    rewrite Hp, IH by lia. cbn [diff_edits]. do 3 f_equal. f_equal.
    rewrite Hwr. unfold arr_len. rewrite length_app. simpl. lia.
Qed.

End reading_back.

Lemma payload_no_lf op l :
  wf_op op -> l ∈ write_op op -> Forall (fun c => c <> LF) l /\ last l <> Some CR.
Proof.
  intros Hw Hl.
  assert (Hgen : forall (p : list jsstring) (h : jsstring),
    Forall wf_payload_line p -> l ∈ h :: p ->
    (l = h -> Forall (fun c => c <> LF) l /\ last l <> Some CR) ->
    Forall (fun c => c <> LF) l /\ last l <> Some CR).
  { intros p h Hp [->|Hin]%elem_of_cons Hh; [eauto|].
    rewrite Forall_forall in Hp. destruct (Hp _ Hin) as (? & ? & _). done. }
  assert (Hlast : forall s : jsstring, Forall (fun c => c <> CR) s -> last s <> Some CR).
  { intros s Hs E. apply last_Some in E as [s' ->]. apply Forall_app in Hs as [_ Hs].
    by inversion Hs. }
  destruct op as [kind t payload|l1 h1 l2 h2 payload]; cbn [write_op wf_op] in *.
  - destruct Hw as (Ht & _ & Hp). apply (Hgen _ _ Hp Hl). intros ->.
    destruct (write_target_tok t Ht) as [_ Htok].
    split; [|apply Hlast]; (constructor; [by destruct kind|]);
      (eapply Forall_impl; [exact Htok|]; naive_solver).
  - destruct Hw as (Hr & H1 & H2 & _ & Hp). apply (Hgen _ _ Hp Hl). intros ->.
    assert (Htok : forall n h, (1 <= n)%Z -> is_bigram h = true ->
      Forall (fun c => c <> LF /\ c <> CR) (write_tag n h)).
    { intros n h Hn Hh. eapply Forall_impl; [by apply write_tag_tok|]. simpl.
      intros c Hc%tok_char_facts. naive_solver. }
    assert (Hall : Forall (fun c => c <> LF /\ c <> CR)
              (HL_OP_REPLACE :: write_tag l1 h1 ++ js ".." ++ write_tag l2 h2)).
    { constructor; [done|]. rewrite !Forall_app. split_and!; [apply Htok; [lia|done]| |
        apply Htok; [lia|done]]. by repeat constructor. }
    split; [|apply Hlast]; (eapply Forall_impl; [exact Hall|]; naive_solver).
Qed.

Lemma diff_lines_write ops :
  ops <> [] -> Forall wf_op ops -> diff_lines (write_diff ops) = concat (write_op <$> ops).
Proof.
  intros Hops Hw. unfold diff_lines, write_diff.
  set (ls := concat (write_op <$> ops)).
  assert (Hls : Forall (fun l => Forall (fun c => c <> LF) l /\ last l <> Some CR) ls).
  { apply Forall_concat, Forall_fmap. eapply Forall_impl; [exact Hw|]. intros op Hop.
    apply Forall_forall. intros l Hl. by apply (payload_no_lf op). }
  rewrite split_lines_join; [|by destruct ls|].
  2:{ apply Forall_app; split; [done|]. by repeat constructor. }
  rewrite (bool_decide_true (last (ls ++ [[]]) = Some [])) by by rewrite last_snoc.
  rewrite andb_true_r.
  assert (ls <> []) by (by destruct ops as [|[] ?]).
  rewrite join_app by done. cbn [join].
  rewrite app_nil_r, last_snoc, bool_decide_true by done. apply removelast_last.
Qed.

Lemma parse_write_diff `{LineHasher} ops :
  Forall wf_op ops ->
  parseHashlineWithWarnings (write_diff ops) = Ok (diff_edits 0 0 ops, []).
Proof.
  intros Hw. destruct (decide (ops = [])) as [->|Hne]; [done|].
  unfold parseHashlineWithWarnings. rewrite diff_lines_write by done.
  by apply parse_loop_write.
Qed.

(** C4: the parser reads back every diff that can be written: for any sequence
    of insertions and replacements with well-formed anchors and payload lines
    that do not look like operations, parsing the written text gives exactly the
    edits the operations stand for, and no warning. *)
Theorem parse_write_roundtrip `{LineHasher} ops :
  Forall wf_op ops ->
  parseHashlineWithWarnings (write_diff ops) = Ok (diff_edits 0 0 ops, []).
Proof. apply parse_write_diff. Qed.

Lemma parse_write_roundtrip_witness :
  let ops := [OpInsert KAfter (TLine 3 (js "ab")) [js "x"; js "y"];
              OpReplace 5 (js "cd") 7 (js "ef") []; OpInsert KBefore TBof [js "top"]] in
  parseHashlineWithWarnings (H := sample_hasher) (write_diff ops) = Ok (diff_edits 0 0 ops, [])
  /\ length (diff_edits 0 0 ops) = 6.
Proof.
  split; [|vm_compute; reflexivity].
  apply (parse_write_roundtrip (H := sample_hasher)). repeat constructor; try done; lia.
Defined.
