(* ===== verification/HashlineApply.v ===== *)
(** * Applying hashline edits (hashline/apply.ts)

    The edits of one batch are checked against the file, duplicated boundary
    lines are absorbed, and the edits are applied bottom-up, one bucket of edits
    per line.  The arrays the source updates in place ([fileLines] and
    [lineOrigins]) are the fields of [buffer].  The source also rewrites the
    cursors of the caller's edit objects; no caller of the repository reads them
    again, so the rewritten list is local here. *)

From S2P Require Import Prelude JsText LineHash HashlineTypes Anchors HashlineParser.

Inductive HashlineLineOrigin := Original | Inserted | Replacement.

Record buffer := mkBuffer {
  fileLines : list jsstring;
  lineOrigins : list HashlineLineOrigin
}.

(** ** Validation *)

Definition getHashlineEditAnchors (edit : HashlineEdit) : list Anchor :=
  match edit with
  | EDelete a _ _ _ => [a]
  | EInsert (BeforeAnchor a) _ _ _ => [a]
  | EInsert (AfterAnchor a) _ _ _ => [a]
  | EInsert _ _ _ _ => []
  end.

Section validate.
Context `{LineHasher}.

Fixpoint validate_anchors (lines : list jsstring) (anchors : list Anchor)
    : result HashlineError (list HashMismatch) :=
  match anchors with
  | [] => Ok []
  | anchor :: rest =>
      if (a_line anchor <? 1)%Z || (arr_len lines <? a_line anchor)%Z
      then Err (LineDoesNotExist (a_line anchor) (arr_len lines))
      else if bool_decide (a_hash anchor = RANGE_INTERIOR_HASH) then validate_anchors lines rest
      else
        let actualHash := computeLineHash (a_line anchor) (line_at lines (a_line anchor)) in
        if bool_decide (actualHash = a_hash anchor) then validate_anchors lines rest
        else
          let! mismatches := validate_anchors lines rest in
          Ok (mkMismatch (a_line anchor) (a_hash anchor) actualHash :: mismatches)
  end.

(** The two nested loops of the source visit the anchors in this order. *)
Definition validateHashlineAnchors (edits : list HashlineEdit) (lines : list jsstring)
    : result HashlineError (list HashMismatch) :=
  validate_anchors lines (edits ≫= getHashlineEditAnchors).

End validate.

(** ** Insertion at the ends *)

Definition insertAtStart (b : buffer) (lines : list jsstring) : buffer :=
  if bool_decide (lines = []) then b
  else
    let origins := (fun _ => Inserted) <$> lines in
    if bool_decide (fileLines b = [[]]) then
      mkBuffer (splice (fileLines b) 0 1 lines) (splice (lineOrigins b) 0 1 origins)
    else
      mkBuffer (splice (fileLines b) 0 0 lines) (splice (lineOrigins b) 0 0 origins).

Definition insertAtEnd (b : buffer) (lines : list jsstring) : option Z * buffer :=
  if bool_decide (lines = []) then (None, b)
  else
    let origins := (fun _ => Inserted) <$> lines in
    if bool_decide (fileLines b = [[]]) then
      (Some 1%Z, mkBuffer (splice (fileLines b) 0 1 lines) (splice (lineOrigins b) 0 1 origins))
    else
      let hasTrailingNewline := bool_decide (last (fileLines b) = Some []) in
      let insertIndex :=
        if hasTrailingNewline then (arr_len (fileLines b) - 1)%Z else arr_len (fileLines b) in
      (Some (insertIndex + 1)%Z,
       mkBuffer (splice (fileLines b) insertIndex 0 lines)
                (splice (lineOrigins b) insertIndex 0 origins)).

(** ** Grouping *)

Definition getAnchorTargetLine (edit : HashlineEdit) : option Z :=
  match edit with
  | EDelete a _ _ _ => Some (a_line a)
  | EInsert (BeforeAnchor a | AfterAnchor a) _ _ _ => Some (a_line a)
  | EInsert _ _ _ _ => None
  end.

Definition collectAnchorTargetLines (edits : list HashlineEdit) : gset Z :=
  fold_left (fun s e => match getAnchorTargetLine e with Some l => {[l]} ∪ s | None => s end)
    edits ∅.

Definition insert_text (e : HashlineEdit) : list jsstring :=
  match e with EInsert _ t _ _ => [t] | EDelete _ _ _ _ => [] end.

Definition delete_anchor (e : HashlineEdit) : list Anchor :=
  match e with EDelete a _ _ _ => [a] | EInsert _ _ _ _ => [] end.

Definition is_before_insert (n : Z) (e : HashlineEdit) : bool :=
  match e with EInsert (BeforeAnchor _) _ m _ => (m =? n)%Z | _ => false end.

Definition is_delete_at (n : Z) (e : HashlineEdit) : bool :=
  match e with EDelete _ m _ _ => (m =? n)%Z | _ => false end.

(** [deletes[offset].anchor.line === startLine + offset] for every offset. *)
Fixpoint consecutive (line : Z) (anchors : list Anchor) : bool :=
  match anchors with
  | [] => true
  | a :: rest => (a_line a =? line)%Z && consecutive (line + 1) rest
  end.

(** [rg_deletes] keeps the anchors of the deletes, all the source reads of them. *)
Record HashlineReplacementGroup := mkReplacementGroup {
  rg_startIndex : nat;
  rg_endIndex : nat;
  rg_sourceLineNum : Z;
  rg_replacement : list jsstring;
  rg_deletes : list Anchor
}.

Definition findReplacementGroup (edits : list HashlineEdit) (startIndex : nat)
    : option HashlineReplacementGroup :=
  match drop startIndex edits with
  | EInsert (BeforeAnchor first) _ sourceLineNum _ :: _ =>
      let (inserts, rest) := span (is_before_insert sourceLineNum) (drop startIndex edits) in
      let (dels, _) := span (is_delete_at sourceLineNum) rest in
      match dels ≫= delete_anchor with
      | [] => None
      | (d :: _) as deletes =>
          if negb (consecutive (a_line d) deletes) then None
          else if negb (a_line first =? a_line d)%Z then None
          else Some (mkReplacementGroup startIndex
                       (startIndex + length inserts + length dels - 1) sourceLineNum
                       (inserts ≫= insert_text) deletes)
      end
  | _ => None
  end.

(** ** Matching boundary lines *)

(** The countdown [for (count = max; count >= 2; count--)] that returns the first
    count for which the block matches, and 0 otherwise. *)
Fixpoint largest_match (matches : nat -> bool) (max : nat) : nat :=
  match max with
  | S (S _ as c) => if matches max then max else largest_match matches c
  | _ => 0
  end.

(** [fileLines[base + offset] === payload[from + offset]] for [count] offsets. *)
Definition block_matches (lines : list jsstring) (base : Z) (payload : list jsstring)
    (from count : nat) : bool :=
  forallb (fun offset =>
    bool_decide (arr_get lines (base + Z.of_nat offset) = payload !! (from + offset)))
    (seq 0 count).

Definition countMatchingPrefixBlock (lines : list jsstring) (startLine : Z)
    (replacement : list jsstring) : nat :=
  largest_match
    (fun count => block_matches lines (startLine - Z.of_nat count - 1) replacement 0 count)
    (Z.to_nat (Z.min (arr_len replacement) (startLine - 1))).

Definition countMatchingSuffixBlock (lines : list jsstring) (endLine : Z)
    (replacement : list jsstring) : nat :=
  largest_match
    (fun count => block_matches lines endLine replacement (length replacement - count) count)
    (Z.to_nat (Z.min (arr_len replacement) (arr_len lines - endLine))).

(** The closing delimiters [ ] ) } ]. *)
Definition is_closer (c : N) : bool := (c =? 93)%N || (c =? 41)%N || (c =? 125)%N.

(** [STRUCTURAL_CLOSING_BOUNDARY_RE]: white space, one closer or more, an
    optional ";" or ",", white space. *)
Definition isStructuralClosingBoundaryLine (line : jsstring) : bool :=
  match span is_closer (trimStart line) with
  | ([], _) => false
  | (_, c :: rest) => if (c =? 59)%N || (c =? 44)%N then all_ws rest else all_ws (c :: rest)
  | (_, []) => true
  end.

Record DelimiterBalance := mkBalance { paren : Z; bracket : Z; brace : Z }.

#[export] Instance DelimiterBalance_eq_dec : EqDecision DelimiterBalance.
Proof. solve_decision. Defined.

Definition ZERO_DELIMITER_BALANCE : DelimiterBalance := mkBalance 0 0 0.

(** The source iterates over code points; delimiters are single code units. *)
Definition count_char (b : DelimiterBalance) (c : N) : DelimiterBalance :=
  if (c =? 40)%N then mkBalance (paren b + 1) (bracket b) (brace b)
  else if (c =? 41)%N then mkBalance (paren b - 1) (bracket b) (brace b)
  else if (c =? 91)%N then mkBalance (paren b) (bracket b + 1) (brace b)
  else if (c =? 93)%N then mkBalance (paren b) (bracket b - 1) (brace b)
  else if (c =? 123)%N then mkBalance (paren b) (bracket b) (brace b + 1)
  else if (c =? 125)%N then mkBalance (paren b) (bracket b) (brace b - 1)
  else b.

Definition computeDelimiterBalance (lines : list jsstring) : DelimiterBalance :=
  fold_left (fun b line => fold_left count_char line b) lines ZERO_DELIMITER_BALANCE.

Definition delimiterBalancesEqual (a b : DelimiterBalance) : bool :=
  (paren a =? paren b)%Z && (bracket a =? bracket b)%Z && (brace a =? brace b)%Z.

Definition shouldDropSingleStructuralBoundary (fullPayload keptPayload : list jsstring)
    (expectedBalance : DelimiterBalance) : bool :=
  delimiterBalancesEqual (computeDelimiterBalance keptPayload) expectedBalance
  && negb (delimiterBalancesEqual (computeDelimiterBalance fullPayload) expectedBalance).

Definition countMatchingSingleStructuralPrefixBoundary (lines : list jsstring) (startLine : Z)
    (replacement : list jsstring) (expectedBalance : DelimiterBalance) : nat :=
  match replacement with
  | [] => 0
  | line :: kept =>
      if (startLine <=? 1)%Z then 0
      else if negb (isStructuralClosingBoundaryLine line) then 0
      else if negb (bool_decide (arr_get lines (startLine - 2) = Some line)) then 0
      else if shouldDropSingleStructuralBoundary replacement kept expectedBalance then 1 else 0
  end.

Definition countMatchingSingleStructuralSuffixBoundary (lines : list jsstring) (endLine : Z)
    (replacement : list jsstring) (expectedBalance : DelimiterBalance) : nat :=
  match last replacement with
  | None => 0
  | Some line =>
      if (arr_len lines <=? endLine)%Z then 0
      else if negb (isStructuralClosingBoundaryLine line) then 0
      else if negb (bool_decide (arr_get lines endLine = Some line)) then 0
      else if shouldDropSingleStructuralBoundary replacement (removelast replacement) expectedBalance
           then 1 else 0
  end.

Definition hasExternalTargets (lines : list Z) (externalTargetLines : gset Z) : bool :=
  existsb (fun line => bool_decide (line ∈ externalTargetLines)) lines.

Definition contiguousRange (start : Z) (count : nat) : list Z :=
  (fun offset => start + Z.of_nat offset)%Z <$> seq 0 count.

Definition deleteEditForAutoAbsorbedLine `{LineHasher} (line sourceLineNum index : Z)
    (lines : list jsstring) : HashlineEdit :=
  EDelete (mkAnchor line (computeLineHash line (line_at lines line)) None) sourceLineNum index None.

(** ** Pure insertions *)

Record HashlinePureInsertGroup := mkPureInsertGroup {
  pg_startIndex : nat;
  pg_endIndex : nat;
  pg_sourceLineNum : Z;
  pg_cursor : HashlineCursor;
  pg_payload : list jsstring
}.

Definition cursorMatches (a b : HashlineCursor) : bool :=
  match a, b with
  | Bof, Bof | Eof, Eof => true
  | BeforeAnchor x, BeforeAnchor y | AfterAnchor x, AfterAnchor y =>
      (a_line x =? a_line y)%Z && bool_decide (a_hash x = a_hash y)
  | _, _ => false
  end.

Definition is_insert_at (n : Z) (cursor : HashlineCursor) (e : HashlineEdit) : bool :=
  match e with EInsert c _ m _ => (m =? n)%Z && cursorMatches c cursor | _ => false end.

Definition findPureInsertGroup (edits : list HashlineEdit) (startIndex : nat)
    : option HashlinePureInsertGroup :=
  match drop startIndex edits with
  | EInsert cursor _ sourceLineNum _ :: _ =>
      let (inserts, rest) := span (is_insert_at sourceLineNum cursor) (drop startIndex edits) in
      match rest with
      | EDelete _ m _ _ :: _ =>
          if (m =? sourceLineNum)%Z then None
          else Some (mkPureInsertGroup startIndex (startIndex + length inserts - 1) sourceLineNum
                       cursor (inserts ≫= insert_text))
      | _ => Some (mkPureInsertGroup startIndex (startIndex + length inserts - 1) sourceLineNum
                     cursor (inserts ≫= insert_text))
      end
  | _ => None
  end.

(** [aboveEndIdx] and [belowStartIdx], 0-indexed. *)
Definition pureInsertNeighborhood (cursor : HashlineCursor) (lines : list jsstring) : Z * Z :=
  match cursor with
  | Bof => (-1, 0)
  | Eof => (arr_len lines - 1, arr_len lines)
  | BeforeAnchor a => (a_line a - 2, a_line a - 1)
  | AfterAnchor a => (a_line a - 1, a_line a)
  end%Z.

Record PureInsertAbsorbResult := mkAbsorbResult {
  keptPayload : list jsstring;
  absorbedLeading : nat;
  absorbedTrailing : nat;
  leadingFileRange : option (Z * Z);
  trailingFileRange : option (Z * Z)
}.

Definition is_after_anchor (c : HashlineCursor) : bool :=
  match c with AfterAnchor _ => true | _ => false end.
Definition is_before_anchor (c : HashlineCursor) : bool :=
  match c with BeforeAnchor _ => true | _ => false end.

(** [absorbedLeading] of the source, its three rules in order. *)
Definition pure_leading (group : HashlinePureInsertGroup) (lines : list jsstring)
    (allow : bool) (aboveEndIdx : Z) : nat :=
  let payload := pg_payload group in
  let generic :=
    if allow then
      largest_match
        (fun count => block_matches lines (aboveEndIdx - Z.of_nat count + 1) payload 0 count)
        (Z.to_nat (Z.min (arr_len payload) (aboveEndIdx + 1)))
    else 0 in
  if negb (generic =? 0)%nat then generic
  else match payload with
       | [] => 0
       | first :: kept =>
           if (0 <=? aboveEndIdx)%Z && bool_decide (arr_get lines aboveEndIdx = Some first) then
             if allow && is_after_anchor (pg_cursor group)
                && negb (isStructuralClosingBoundaryLine first) then 1
             else if isStructuralClosingBoundaryLine first
                     && shouldDropSingleStructuralBoundary payload kept ZERO_DELIMITER_BALANCE
             then 1 else 0
           else 0
       end.

(** [absorbedTrailing], on the payload that is left. *)
Definition pure_trailing (group : HashlinePureInsertGroup) (lines : list jsstring)
    (allow : bool) (leading : nat) (belowStartIdx : Z) : nat :=
  let payload := pg_payload group in
  let remainingPayload := drop leading payload in
  let remaining := length remainingPayload in
  let generic :=
    if allow then
      largest_match
        (fun count => block_matches lines belowStartIdx payload (length payload - count) count)
        (Z.to_nat (Z.min (Z.of_nat remaining) (arr_len lines - belowStartIdx)))
    else 0 in
  if negb (generic =? 0)%nat then generic
  else match last remainingPayload with
       | None => 0
       | Some final =>
           if (belowStartIdx <? arr_len lines)%Z
              && bool_decide (arr_get lines belowStartIdx = Some final) then
             if is_before_anchor (pg_cursor group) && allow
                && negb (isStructuralClosingBoundaryLine final) then 1
             else if isStructuralClosingBoundaryLine final
                     && shouldDropSingleStructuralBoundary remainingPayload
                          (removelast remainingPayload) ZERO_DELIMITER_BALANCE
             then 1 else 0
           else 0
       end.

Definition tryAbsorbPureInsertGroup (group : HashlinePureInsertGroup) (lines : list jsstring)
    (allowGenericBoundaryAbsorb : bool) : PureInsertAbsorbResult :=
  let empty := mkAbsorbResult (pg_payload group) 0 0 None None in
  if bool_decide (pg_payload group = []) then empty
  else
    let (aboveEndIdx, belowStartIdx) := pureInsertNeighborhood (pg_cursor group) lines in
    let lead := pure_leading group lines allowGenericBoundaryAbsorb aboveEndIdx in
    let trail := pure_trailing group lines allowGenericBoundaryAbsorb lead belowStartIdx in
    if (lead =? 0)%nat && (trail =? 0)%nat then empty
    else
      mkAbsorbResult
        (slice (pg_payload group) lead (length (pg_payload group) - trail)) lead trail
        (if (0 <? lead)%nat then Some (aboveEndIdx - Z.of_nat lead + 2, aboveEndIdx + 1)%Z else None)
        (if (0 <? trail)%nat then Some (belowStartIdx + 1, belowStartIdx + Z.of_nat trail)%Z else None).

(** ** Absorbing duplicated boundary lines *)

Inductive key_kind := PureLeading | PureTrailing | PrefixKey | SuffixKey.

#[export] Instance key_kind_eq_dec : EqDecision key_kind.
Proof. solve_decision. Defined.

(** A member of [emittedAbsorbKeys], [kind:start..end] in the source. *)
Definition absorb_key : Type := key_kind * Z * Z.

#[export] Instance absorb_key_eq_dec : EqDecision absorb_key.
Proof. solve_decision. Defined.

(** The warning about one absorption: the count, the line of the diff and the
    range of file lines. *)
Record AbsorbWarning := mkAbsorbWarning {
  aw_kind : key_kind;
  aw_count : nat;
  aw_source : Z;
  aw_start : Z;
  aw_end : Z
}.

Definition warning_text (w : AbsorbWarning) : jsstring :=
  let count := num_to_string (Z.of_nat (aw_count w)) in
  let source := num_to_string (aw_source w) in
  let range := num_to_string (aw_start w) ++ js ".." ++ num_to_string (aw_end w) in
  match aw_kind w with
  | PureLeading =>
      js "Auto-dropped " ++ count ++ js " duplicate line(s) at the start of insert at line "
        ++ source ++ js " (file lines " ++ range
        ++ js " already match the payload's leading lines)."
  | PureTrailing =>
      js "Auto-dropped " ++ count ++ js " duplicate line(s) at the end of insert at line "
        ++ source ++ js " (file lines " ++ range
        ++ js " already match the payload's trailing lines)."
  | PrefixKey =>
      js "Auto-absorbed " ++ count ++ js " duplicate line(s) above replacement at line "
        ++ source ++ js " (file lines " ++ range
        ++ js " matched the payload's leading lines; widened the deletion to absorb them)."
  | SuffixKey =>
      js "Auto-absorbed " ++ count ++ js " duplicate line(s) below replacement at line "
        ++ source ++ js " (file lines " ++ range
        ++ js " matched the payload's trailing lines; widened the deletion to absorb them)."
  end.

Record absorb_state := mkAbsorb {
  nextSyntheticIndex : Z;
  absorbed : list HashlineEdit;
  emittedAbsorbKeys : list absorb_key;
  absorbWarnings : list AbsorbWarning
}.

(** [if (!emittedAbsorbKeys.has(key)) { add; warnings.push }] *)
Definition emit_once (kind : key_kind) (count : nat) (source start stop : Z) (st : absorb_state)
    : absorb_state :=
  let key := (kind, start, stop) in
  if bool_decide (key ∈ emittedAbsorbKeys st) then st
  else mkAbsorb (nextSyntheticIndex st) (absorbed st) (key :: emittedAbsorbKeys st)
         (absorbWarnings st ++ [mkAbsorbWarning kind count source start stop]).

Definition push_edits (es : list HashlineEdit) (st : absorb_state) : absorb_state :=
  mkAbsorb (nextSyntheticIndex st) (absorbed st ++ es) (emittedAbsorbKeys st) (absorbWarnings st).

(** Push one edit per element, each with the next synthetic index. *)
Definition push_synthetic {A} (mk : A -> Z -> HashlineEdit) (xs : list A) (st : absorb_state)
    : absorb_state :=
  fold_left (fun st x =>
    mkAbsorb (nextSyntheticIndex st + 1) (absorbed st ++ [mk x (nextSyntheticIndex st)])
      (emittedAbsorbKeys st) (absorbWarnings st)) xs st.

(** The edits of a group, [edits[startIndex] .. edits[endIndex]]. *)
Definition group_edits (edits : list HashlineEdit) (startIndex endIndex : nat) : list HashlineEdit :=
  slice edits startIndex (S endIndex).

Definition absorb_pure (edits : list HashlineEdit) (g : HashlinePureInsertGroup)
    (r : PureInsertAbsorbResult) (st : absorb_state) : absorb_state :=
  if (0 <? absorbedLeading r)%nat || (0 <? absorbedTrailing r)%nat then
    let st1 := match leadingFileRange r with
               | Some (start, stop) =>
                   emit_once PureLeading (absorbedLeading r) (pg_sourceLineNum g) start stop st
               | None => st
               end in
    let st2 := match trailingFileRange r with
               | Some (start, stop) =>
                   emit_once PureTrailing (absorbedTrailing r) (pg_sourceLineNum g) start stop st1
               | None => st1
               end in
    push_synthetic
      (fun text i => EInsert (cloneCursor (pg_cursor g)) text (pg_sourceLineNum g) i)
      (keptPayload r) st2
  else push_edits (group_edits edits (pg_startIndex g) (pg_endIndex g)) st.

(** [a || b] on counts. *)
Definition or_count (a b : nat) : nat := if (a =? 0)%nat then b else a.

Section absorb.
Context `{LineHasher}.
Variables (edits : list HashlineEdit) (lines : list jsstring) (allow : bool).

Let allTargetLines : gset Z := collectAnchorTargetLines edits.

(** The counts [safePrefixCount] and [safeSuffixCount] of a replacement group. *)
Definition safe_counts (g : HashlineReplacementGroup) (startLine endLine : Z) : nat * nat :=
  let deletedBalance :=
    computeDelimiterBalance ((fun a => line_at lines (a_line a)) <$> rg_deletes g) in
  let prefixCount :=
    or_count (countMatchingPrefixBlock lines startLine (rg_replacement g))
      (countMatchingSingleStructuralPrefixBoundary lines startLine (rg_replacement g)
         deletedBalance) in
  let suffixCount :=
    or_count (countMatchingSuffixBlock lines endLine (rg_replacement g))
      (countMatchingSingleStructuralSuffixBoundary lines endLine (rg_replacement g)
         deletedBalance) in
  (if hasExternalTargets (contiguousRange (startLine - Z.of_nat prefixCount) prefixCount)
        allTargetLines then 0 else prefixCount,
   if hasExternalTargets (contiguousRange (endLine + 1) suffixCount) allTargetLines
   then 0 else suffixCount).

Definition absorb_replacement (g : HashlineReplacementGroup) (st : absorb_state) : absorb_state :=
  let startLine := match rg_deletes g with a :: _ => a_line a | [] => 0%Z end in
  let endLine := match last (rg_deletes g) with Some a => a_line a | None => 0%Z end in
  let (safePrefixCount, safeSuffixCount) := safe_counts g startLine endLine in
  let absorbStart := (startLine - Z.of_nat safePrefixCount)%Z in
  let absorbEnd := (endLine + Z.of_nat safeSuffixCount)%Z in
  let st1 := if (0 <? safePrefixCount)%nat
             then emit_once PrefixKey safePrefixCount (rg_sourceLineNum g) absorbStart
                    (startLine - 1) st
             else st in
  let st2 := if (0 <? safeSuffixCount)%nat
             then emit_once SuffixKey safeSuffixCount (rg_sourceLineNum g) (endLine + 1)
                    absorbEnd st1
             else st1 in
  let del := fun line i => deleteEditForAutoAbsorbedLine line (rg_sourceLineNum g) i lines in
  let st3 := push_synthetic del (contiguousRange absorbStart safePrefixCount) st2 in
  let st4 := push_edits (group_edits edits (rg_startIndex g) (rg_endIndex g)) st3 in
  push_synthetic del (contiguousRange (endLine + 1) safeSuffixCount) st4.

(** One iteration at [index]: the new state and the next index. *)
Definition absorb_step (index : nat) (e : HashlineEdit) (st : absorb_state) : absorb_state * nat :=
  match findReplacementGroup edits index with
  | Some g => (absorb_replacement g st, S (rg_endIndex g))
  | None =>
      match findPureInsertGroup edits index with
      | Some g =>
          (absorb_pure edits g (tryAbsorbPureInsertGroup g lines allow) st, S (pg_endIndex g))
      | None => (push_edits [e] st, S index)
      end
  end.

(** The loop; every iteration advances the index, so the number of edits left is
    enough fuel. *)
Fixpoint absorb_loop (fuel index : nat) (st : absorb_state) : absorb_state :=
  match fuel with
  | O => st
  | S f =>
      match edits !! index with
      | None => st
      | Some e => let (st', index') := absorb_step index e st in absorb_loop f index' st'
      end
  end.

Definition absorbReplacementBoundaryDuplicates : absorb_state :=
  absorb_loop (length edits) 0 (mkAbsorb (arr_len edits) [] [] []).

End absorb.

(** ** Applying the normalized edits *)

(** [after_anchor] insertions become [before_anchor] of the next line, or [eof]. *)
Definition normalize_edit `{LineHasher} (lines : list jsstring) (edit : HashlineEdit)
    : HashlineEdit :=
  match edit with
  | EInsert (AfterAnchor a) text n i =>
      if (arr_len lines <=? a_line a)%Z then EInsert Eof text n i
      else
        let nextLineNum := (a_line a + 1)%Z in
        EInsert (BeforeAnchor (mkAnchor nextLineNum
                   (computeLineHash nextLineNum (line_at lines nextLineNum)) None)) text n i
  | _ => edit
  end.

Definition is_bof_insert (e : HashlineEdit) : bool :=
  match e with EInsert Bof _ _ _ => true | _ => false end.
Definition is_eof_insert (e : HashlineEdit) : bool :=
  match e with EInsert Eof _ _ _ => true | _ => false end.

Definition bof_lines (edits : list HashlineEdit) : list jsstring :=
  List.filter is_bof_insert edits ≫= insert_text.
Definition eof_lines (edits : list HashlineEdit) : list jsstring :=
  List.filter is_eof_insert edits ≫= insert_text.

(** [anchorEdits]: the other edits with their positions. *)
Definition anchor_edits (edits : list HashlineEdit) : list (HashlineEdit * nat) :=
  List.filter (fun ei => negb (is_bof_insert ei.1) && negb (is_eof_insert ei.1))
    (imap (fun i e => (e, i)) edits).

Definition bucket_line (e : HashlineEdit) : Z :=
  match e with
  | EDelete a _ _ _ => a_line a
  | EInsert (BeforeAnchor a) _ _ _ => a_line a
  | EInsert _ _ _ _ => 0
  end.

Definition bucketAnchorEditsByLine (edits : list (HashlineEdit * nat))
    : gmap Z (list (HashlineEdit * nat)) :=
  fold_left (fun m entry =>
    let line := bucket_line entry.1 in
    <[line := default [] (m !! line) ++ [entry]]> m) edits ∅.

Definition is_delete (e : HashlineEdit) : bool :=
  match e with EDelete _ _ _ _ => true | EInsert _ _ _ _ => false end.

Definition trackFirstChanged (line : Z) (first : option Z) : option Z :=
  match first with
  | None => Some line
  | Some f => if (line <? f)%Z then Some line else Some f
  end.

(** The body of the loop over the lines that have a bucket. *)
Definition apply_bucket (byLine : gmap Z (list (HashlineEdit * nat)))
    (st : buffer * option Z) (line : Z) : buffer * option Z :=
  match byLine !! line with
  | None => st
  | Some bucket0 =>
      let bucket := sort_by (fun a b => (a.2 <=? b.2)%nat) bucket0 in
      let idx := (line - 1)%Z in
      let currentLine := default [] (arr_get (fileLines st.1) idx) in
      let beforeLines := (fst <$> bucket) ≫= insert_text in
      let deleteLine := existsb is_delete (fst <$> bucket) in
      if bool_decide (beforeLines = []) && negb deleteLine then st
      else
        let replacement := if deleteLine then beforeLines else beforeLines ++ [currentLine] in
        let origins :=
          if deleteLine then (fun _ => Replacement) <$> replacement
          else ((fun _ => Inserted) <$> beforeLines)
                 ++ [default Original (arr_get (lineOrigins st.1) idx)] in
        (mkBuffer (splice (fileLines st.1) idx 1 replacement)
                  (splice (lineOrigins st.1) idx 1 origins),
         trackFirstChanged line st.2)
  end.

Definition descending (lines : list Z) : list Z := sort_by (fun a b => (b <=? a)%Z) lines.

Definition apply_buckets (edits : list HashlineEdit) (b : buffer) : buffer * option Z :=
  let byLine := bucketAnchorEditsByLine (anchor_edits edits) in
  fold_left (apply_bucket byLine) (descending (elements (dom byLine))) (b, None).

(** Everything after the normalization: buckets, then both ends. *)
Definition apply_normalized (edits : list HashlineEdit) (lines : list jsstring)
    : buffer * option Z :=
  let b0 := mkBuffer lines ((fun _ => Original) <$> lines) in
  let (b1, first1) := apply_buckets edits b0 in
  let bofLines := bof_lines edits in
  let (b2, first2) :=
    if bool_decide (bofLines = []) then (b1, first1)
    else (insertAtStart b1 bofLines, trackFirstChanged 1 first1) in
  let (eofChangedLine, b3) := insertAtEnd b2 (eof_lines edits) in
  (b3, match eofChangedLine with Some l => trackFirstChanged l first2 | None => first2 end).

Record HashlineApplyResult := mkApplyResult {
  ar_lines : jsstring;
  ar_firstChangedLine : option Z;
  ar_warnings : list jsstring
}.

Definition allow_generic (options : HashlineApplyOptions) : bool :=
  bool_decide (autoDropPureInsertDuplicates options = Some true).

(** [validateHashlineAnchors] on the original edits, then the rest. *)
Definition applyHashlineEdits `{LineHasher} (text : jsstring) (edits : list HashlineEdit)
    (options : HashlineApplyOptions) : result HashlineError HashlineApplyResult :=
  if bool_decide (edits = []) then Ok (mkApplyResult text None [])
  else
    let lines := split_char LF text in
    let! mismatches := validateHashlineAnchors edits lines in
    if bool_decide (mismatches = []) then
      let st := absorbReplacementBoundaryDuplicates edits lines (allow_generic options) in
      let normalizedEdits := normalize_edit lines <$> absorbed st in
      let (b, firstChangedLine) := apply_normalized normalizedEdits lines in
      Ok (mkApplyResult (join [LF] (fileLines b)) firstChangedLine
            (warning_text <$> absorbWarnings st))
    else Err (MismatchError mismatches lines).
