(* ===== verification/HashlineApplySpec.v ===== *)
(** * What a batch of hashline edits means

    A declarative reading of a batch: for each gap between lines the texts that
    are inserted there, and the set of deleted lines.  The bottom-up splicing of
    [applyHashlineEdits] computes exactly that. *)

From S2P Require Import Prelude JsText LineHash HashlineTypes Anchors HashlineParser.
From S2P Require Import HashlineApply.

(** ** The reference meaning *)

(** Where an insertion lands in a file of [n] lines. *)
Inductive slot := SBof | SEof | SBefore (line : Z).

#[export] Instance slot_eq_dec : EqDecision slot.
Proof. solve_decision. Defined.

Definition cursor_slot (n : Z) (c : HashlineCursor) : slot :=
  match c with
  | Bof => SBof
  | Eof => SEof
  | BeforeAnchor a => SBefore (a_line a)
  | AfterAnchor a => if (n <=? a_line a)%Z then SEof else SBefore (a_line a + 1)
  end.

(** The texts a batch inserts at a slot, in the order of the batch. *)
Definition texts_at (n : Z) (s : slot) (edits : list HashlineEdit) : list jsstring :=
  edits ≫= fun e =>
    match e with
    | EInsert c t _ _ => if bool_decide (cursor_slot n c = s) then [t] else []
    | EDelete _ _ _ _ => []
    end.

Definition deletes_line (line : Z) (edits : list HashlineEdit) : bool :=
  existsb (fun e => match e with EDelete a _ _ _ => (a_line a =? line)%Z | _ => false end) edits.

(** What becomes of the line with 0-based index [i]. *)
Definition render_line (n : Z) (edits : list HashlineEdit) (i : nat) (line : jsstring)
    : list jsstring :=
  texts_at n (SBefore (Z.of_nat i + 1)) edits
    ++ (if deletes_line (Z.of_nat i + 1) edits then [] else [line]).

Definition render_body (edits : list HashlineEdit) (lines : list jsstring) : list jsstring :=
  concat (imap (render_line (arr_len lines) edits) lines).

(** A file that is one empty line is replaced rather than extended. *)
Definition add_start (texts body : list jsstring) : list jsstring :=
  if bool_decide (texts = []) then body
  else if bool_decide (body = [[]]) then texts else texts ++ body.

(** Text added at the end goes before a final empty line. *)
Definition add_end (texts body : list jsstring) : list jsstring :=
  if bool_decide (texts = []) then body
  else if bool_decide (body = [[]]) then texts
  else if bool_decide (last body = Some []) then removelast body ++ texts ++ [[]]
  else body ++ texts.

Definition render (edits : list HashlineEdit) (lines : list jsstring) : list jsstring :=
  let n := arr_len lines in
  add_end (texts_at n SEof edits) (add_start (texts_at n SBof edits) (render_body edits lines)).

(** ** Buckets *)

Lemma bucket_lookup_gen es (m : gmap Z (list (HashlineEdit * nat))) l :
  fold_left (fun m entry =>
    <[bucket_line entry.1 := default [] (m !! bucket_line entry.1) ++ [entry]]> m) es m !! l
  = match List.filter (fun ei => (bucket_line ei.1 =? l)%Z) es with
    | [] => m !! l
    | b => Some (default [] (m !! l) ++ b)
    end.
Proof.
  revert m. induction es as [|[e i] es IH]; intros m; simpl; [done|]. rewrite IH.
  destruct (bucket_line e =? l)%Z eqn:E; simpl_bool; subst.
  - rewrite lookup_insert_eq. simpl. case_match; [done|]. by rewrite <- (assoc_L app).
  - by rewrite lookup_insert_ne.
Qed.

Lemma bucket_lookup es l :
  bucketAnchorEditsByLine es !! l
  = match List.filter (fun ei => (bucket_line ei.1 =? l)%Z) es with
    | [] => None
    | b => Some b
    end.
Proof.
  unfold bucketAnchorEditsByLine. rewrite bucket_lookup_gen, lookup_empty.
  by case_match.
Qed.

Lemma imap_index_sorted {A} (l : list A) (k : nat) :
  StronglySorted (fun a b : A * nat => (a.2 <=? b.2)%nat = true)
    (imap (fun i e => (e, k + i)) l).
Proof.
  revert k. induction l as [|x l IH]; intros k; simpl; constructor.
  - erewrite (imap_ext _ (fun i e => (e, S k + i))); [apply IH|].
    intros i y _. unfold compose. f_equal. lia.
  - apply Forall_lookup. intros j y. rewrite list_lookup_imap.
    intros (z & _ & ->)%fmap_Some. apply Nat.leb_le. simpl. lia.
Qed.

(** The bucket of a line, without the positions. *)
Definition line_edits (edits : list HashlineEdit) (l : Z) : list HashlineEdit :=
  List.filter (fun e => (negb (is_bof_insert e) && negb (is_eof_insert e))
                        && (bucket_line e =? l)%Z) edits.

Lemma bucket_fst_gen (P Q : HashlineEdit -> bool) (f : nat -> nat) edits :
  fst <$> List.filter (fun ei => Q ei.1)
            (List.filter (fun ei => P ei.1) (imap (fun i e => (e, f i)) edits))
  = List.filter (fun e => P e && Q e) edits.
Proof.
  revert f. induction edits as [|e edits IH]; intros f; simpl; [done|].
  specialize (IH (f ∘ S)). unfold compose in IH.
  destruct (P e); simpl; [|done]. destruct (Q e); simpl; [|done]. by f_equal.
Qed.

(** Looking a line up in the buckets gives its edits, already in order. *)
Lemma byLine_lookup edits l :
  match bucketAnchorEditsByLine (anchor_edits edits) !! l with
  | None => line_edits edits l = []
  | Some b => fst <$> b = line_edits edits l /\ line_edits edits l <> []
              /\ sort_by (fun a b => (a.2 <=? b.2)%nat) b = b
  end.
Proof.
  rewrite bucket_lookup.
  assert (Hf : fst <$> List.filter (fun ei => (bucket_line ei.1 =? l)%Z) (anchor_edits edits)
               = line_edits edits l).
  { apply (bucket_fst_gen (fun e => negb (is_bof_insert e) && negb (is_eof_insert e))
             (fun e => (bucket_line e =? l)%Z) id). }
  destruct (List.filter _ (anchor_edits edits)) as [|x b] eqn:E; [by rewrite <- Hf|].
  split_and!; [done|by rewrite <- Hf|]. rewrite <- E. apply sort_by_sorted_id.
  apply StronglySorted_bfilter, StronglySorted_bfilter.
  apply (imap_index_sorted edits 0).
Qed.

Definition no_after (e : HashlineEdit) : Prop :=
  match e with EInsert (AfterAnchor _) _ _ _ => False | _ => True end.

Lemma line_edits_cons e edits l :
  line_edits (e :: edits) l =
    (if (negb (is_bof_insert e) && negb (is_eof_insert e)) && (bucket_line e =? l)%Z
     then [e] else []) ++ line_edits edits l.
Proof. unfold line_edits. simpl. by case_match. Qed.

Definition slot_text (n : Z) (s : slot) (e : HashlineEdit) : list jsstring :=
  match e with
  | EInsert c t _ _ => if bool_decide (cursor_slot n c = s) then [t] else []
  | EDelete _ _ _ _ => []
  end.

Lemma texts_at_cons n s e edits : texts_at n s (e :: edits) = slot_text n s e ++ texts_at n s edits.
Proof. done. Qed.

Lemma texts_at_app n s l1 l2 : texts_at n s (l1 ++ l2) = texts_at n s l1 ++ texts_at n s l2.
Proof. apply bind_app. Qed.

Lemma line_edits_texts n edits l :
  Forall no_after edits ->
  line_edits edits l ≫= insert_text = texts_at n (SBefore l) edits.
Proof.
  induction 1 as [|e edits He H IH]; [done|].
  rewrite line_edits_cons, texts_at_cons, bind_app, IH. f_equal.
  destruct e as [[| |a|a] t ? ?|a ? ? ?]; try done; simpl.
  - destruct (a_line a =? l)%Z eqn:E; simpl_bool.
    + by rewrite bool_decide_true by congruence.
    + by rewrite bool_decide_false by congruence.
  - by destruct (a_line a =? l)%Z.
Qed.

Lemma line_edits_deletes edits l :
  existsb is_delete (line_edits edits l) = deletes_line l edits.
Proof.
  induction edits as [|e edits IH]; [done|].
  rewrite line_edits_cons, existsb_app, IH. unfold deletes_line. simpl. f_equal.
  destruct e as [[| |a|a] t ? ?|a ? ? ?]; simpl; try done; by case_match.
Qed.

Lemma line_edits_cases edits l :
  line_edits edits l = [] \/ line_edits edits l ≫= insert_text <> []
  \/ existsb is_delete (line_edits edits l) = true.
Proof. destruct (line_edits edits l) as [|[] es]; simpl; auto. Qed.

(** A line without edits is rendered as it is. *)
Lemma render_line_untouched n edits i line :
  Forall no_after edits -> line_edits edits (Z.of_nat i + 1) = [] ->
  render_line n edits i line = [line].
Proof.
  intros Hna E. unfold render_line.
  by rewrite <- line_edits_texts, <- line_edits_deletes, E.
Qed.

(** ** One bucket *)

Lemma apply_bucket_here n edits (pre suf : list jsstring) x os f :
  Forall no_after edits -> line_edits edits (Z.of_nat (length pre) + 1) <> [] ->
  exists os',
  apply_bucket (bucketAnchorEditsByLine (anchor_edits edits))
    (mkBuffer (pre ++ x :: suf) os, f) (Z.of_nat (length pre) + 1)
  = (mkBuffer (pre ++ render_line n edits (length pre) x ++ suf) os',
     trackFirstChanged (Z.of_nat (length pre) + 1) f)
  /\ (length os = length (pre ++ x :: suf) ->
      length os' = length (pre ++ render_line n edits (length pre) x ++ suf)).
Proof.
  intros Hna Hne. unfold apply_bucket, render_line.
  set (l := (Z.of_nat (length pre) + 1)%Z) in *.
  pose proof (byLine_lookup edits l) as Hl.
  destruct (_ !! l) as [b|]; [|done]. destruct Hl as (Hfst & _ & Hsort).
  rewrite Hsort, Hfst, line_edits_deletes.
  pose proof (line_edits_cases edits l) as Hc.
  rewrite (line_edits_texts n edits l), line_edits_deletes in * by done.
  simpl fileLines. simpl lineOrigins.
  replace (l - 1)%Z with (Z.of_nat (length pre)) by lia.
  rewrite !arr_get_nat, list_lookup_middle by done. simpl.
  set (texts := texts_at n (SBefore l) edits) in *.
  assert (bool_decide (texts = []) && negb (deletes_line l edits) = false) as ->.
  { destruct (deletes_line l edits); [apply andb_false_r|].
    rewrite andb_true_r. apply bool_decide_false. naive_solver. }
  eexists. split.
  - f_equal. f_equal. rewrite splice_one by (rewrite length_app; simpl; lia).
    rewrite take_app_length. rewrite <- (Nat.add_1_r (length pre)), drop_app_add. simpl.
    rewrite drop_0. by case_match; rewrite ?app_nil_r, <- ?(assoc_L app).
  - intros Hos. rewrite splice_one by (rewrite Hos, length_app; simpl; lia).
    rewrite !length_app, length_take, length_drop, Hos, length_app. simpl.
    case_match; rewrite ?length_app, ?length_fmap; simpl; lia.
Qed.

(** ** All buckets *)

Lemma track_fold_min ks f0 :
  match fold_left (fun f k => trackFirstChanged k f) ks f0 with
  | None => ks = [] /\ f0 = None
  | Some m => (m ∈ ks \/ f0 = Some m) /\ Forall (fun k => (m <= k)%Z) ks
              /\ match f0 with Some k => (m <= k)%Z | None => True end
  end.
Proof.
  revert f0. induction ks as [|k ks IH]; intros f0; simpl.
  - destruct f0; [|done]. split_and!; [by right|constructor|lia].
  - specialize (IH (trackFirstChanged k f0)). destruct (fold_left _ ks _) as [m|].
    + destruct IH as (Hm & Hall & Hle).
      unfold trackFirstChanged in *. destruct f0 as [k0|]; [destruct (k <? k0)%Z eqn:E|];
        simpl_bool; (split_and!; [|constructor; [lia|done]|try lia; done]).
      * destruct Hm as [|[= ->]]; left; set_solver.
      * destruct Hm as [|[= ->]]; [left; set_solver|by right].
      * destruct Hm as [|[= ->]]; left; set_solver.
    + destruct IH as [_ Hn]. unfold trackFirstChanged in Hn. by repeat case_match.
Qed.

Section buckets.
Variables (edits : list HashlineEdit) (orig : list jsstring).
Hypothesis Hna : Forall no_after edits.

Let n := arr_len orig.

(** The rendering of the lines listed in [ks]; the others are kept. *)
Definition render_in (ks : list Z) (i : nat) (line : jsstring) : list jsstring :=
  if bool_decide (Z.of_nat i + 1 ∈ ks)%Z then render_line n edits i line else [line].

Lemma render_in_below ks m (l : list jsstring) k :
  length l <= m -> (Z.of_nat m < k)%Z ->
  imap (render_in (k :: ks)) l = imap (render_in ks) l.
Proof.
  intros Hl Hk. apply imap_ext. intros i x Hi%lookup_lt_Some. unfold render_in.
  rewrite (bool_decide_ext _ (Z.of_nat i + 1 ∈ ks)%Z); [done|].
  rewrite elem_of_cons. split; [|auto]. intros []; [lia|done].
Qed.

Lemma apply_buckets_fold m ks suf os f :
  m <= length orig -> StronglySorted (fun x y => (y < x)%Z) ks ->
  Forall (fun k => (1 <= k <= Z.of_nat m)%Z /\ line_edits edits k <> []) ks ->
  length os = length (take m orig ++ suf) ->
  exists os',
  fold_left (apply_bucket (bucketAnchorEditsByLine (anchor_edits edits))) ks
    (mkBuffer (take m orig ++ suf) os, f)
  = (mkBuffer (concat (imap (render_in ks) (take m orig)) ++ suf) os',
     fold_left (fun f k => trackFirstChanged k f) ks f)
  /\ length os' = length (concat (imap (render_in ks) (take m orig)) ++ suf).
Proof.
  revert ks suf os f. induction m as [|m IH]; intros ks suf os f Hm Hs Hk Hos.
  - destruct ks as [|k ks]; [by exists os|]. inversion Hk; lia.
  - destruct (lookup_lt_is_Some_2 orig m) as [x Hx]; [lia|].
    rewrite (take_S_r _ _ _ Hx), imap_app, concat_app in *.
    assert (Hlen : length (take m orig) = m) by (rewrite length_take; lia).
    cbn [imap concat]. rewrite app_nil_r, Nat.add_0_r, Hlen, <- !(assoc_L app).
    rewrite <- (assoc_L app) in Hos. cbn [app] in *.
    destruct (decide (Z.of_nat m + 1 ∈ ks)%Z) as [Hin|Hnin].
    + assert (exists ks', ks = (Z.of_nat m + 1)%Z :: ks' /\
                Forall (fun k => (k < Z.of_nat m + 1)%Z) ks') as (ks' & -> & Hlt).
      { destruct ks as [|k ks]; [set_solver|]. inversion Hs as [|?? _ Hlt]; subst.
        rewrite Forall_forall in Hlt, Hk.
        apply elem_of_cons in Hin as [->|Hin]; [exists ks; by rewrite Forall_forall|].
        specialize (Hlt _ Hin). destruct (Hk k) as [? _]; [set_solver|]. lia. }
      inversion Hs as [|?? Hs' _]; inversion Hk as [|?? [_ Hne] Hk']; subst.
      destruct (apply_bucket_here n edits (take m orig) suf x os f) as (os1 & Hb & Hos1);
        [done|by rewrite Hlen|].
      rewrite Hlen in Hb, Hos1. cbn [fold_left]. rewrite Hb.
      destruct (IH ks' (render_line n edits m x ++ suf) os1
                  (trackFirstChanged (Z.of_nat m + 1) f)) as (os' & -> & Hl);
        [lia|done| |by apply Hos1|].
      { eapply Forall_impl; [apply Forall_and; split; [exact Hk'|exact Hlt]|].
        simpl. intros k [[? ?] ?]. split; [lia|done]. }
      assert (Hr : render_in ((Z.of_nat m + 1)%Z :: ks') m x = render_line n edits m x)
        by (unfold render_in; by rewrite bool_decide_true by set_solver).
      exists os'. by rewrite !Hr, (render_in_below ks' m) by lia.
    + destruct (IH ks (x :: suf) os f) as (os' & Hf & Hl); [lia|done| |done|].
      { eapply Forall_impl; [apply Forall_and; split; [exact Hk|]|].
        - apply (Forall_forall (fun k => k <> (Z.of_nat m + 1)%Z)). by intros k Hkin ->.
        - simpl. intros k [[? ?] ?]. split; [lia|done]. }
      assert (Hr : render_in ks m x = [x]) by (unfold render_in; by rewrite bool_decide_false).
      exists os'. by rewrite !Hr.
Qed.

Hypothesis Hrange : forall l, line_edits edits l <> [] -> (1 <= l <= n)%Z.

Lemma elem_of_bucket_lines k :
  k ∈ descending (elements (dom (bucketAnchorEditsByLine (anchor_edits edits))))
  <-> line_edits edits k <> [].
Proof.
  unfold descending. rewrite sort_by_perm, elem_of_elements, elem_of_dom.
  pose proof (byLine_lookup edits k) as Hk. destruct (_ !! k) as [b|].
  - naive_solver.
  - rewrite Hk. split; [by intros []|done].
Qed.

Lemma bucket_lines_sorted :
  StronglySorted (fun x y => (y < x)%Z)
    (descending (elements (dom (bucketAnchorEditsByLine (anchor_edits edits))))).
Proof.
  eapply (StronglySorted_weaken (fun x y => (y <=? x)%Z = true /\ x <> y));
    [intros; lia|].
  apply StronglySorted_NoDup_ne; [apply sort_by_sorted; intros; lia|].
  unfold descending. rewrite sort_by_perm. apply NoDup_elements.
Qed.

(** The first changed line is the least line that has an edit. *)
Definition first_edited (first : option Z) : Prop :=
  match first with
  | None => forall l, line_edits edits l = []
  | Some m => (1 <= m <= n)%Z /\ forall l, line_edits edits l <> [] -> (m <= l)%Z
  end.

Lemma apply_buckets_spec os :
  length os = length orig ->
  exists os' first,
    apply_buckets edits (mkBuffer orig os) = (mkBuffer (render_body edits orig) os', first)
    /\ length os' = length (render_body edits orig) /\ first_edited first.
Proof.
  intros Hos. unfold apply_buckets.
  set (ks := descending _).
  destruct (apply_buckets_fold (length orig) ks [] os None) as (os' & Hf & Hl);
    [done|apply bucket_lines_sorted| |by rewrite firstn_all, app_nil_r|].
  { apply Forall_forall. intros k Hk%elem_of_bucket_lines. split; [|done].
    by apply Hrange in Hk. }
  rewrite firstn_all, !app_nil_r in *.
  assert (Hr : concat (imap (render_in ks) orig) = render_body edits orig).
  { unfold render_body. f_equal. apply imap_ext. intros i x _. unfold render_in.
    case_bool_decide as Hin; [done|]. symmetry. apply render_line_untouched; [done|].
    destruct (line_edits edits (Z.of_nat i + 1)) eqn:E; [done|].
    exfalso. apply Hin, elem_of_bucket_lines. by rewrite E. }
  rewrite Hr in *. eexists os', _. split; [exact Hf|]. split; [done|].
  pose proof (track_fold_min ks None) as Ht. unfold first_edited.
  destruct (fold_left _ ks None) as [m|].
  - destruct Ht as ([Hm|] & Hall & _); [|done]. split.
    + by apply Hrange, elem_of_bucket_lines.
    + intros l Hl'%elem_of_bucket_lines. rewrite Forall_forall in Hall. auto.
  - destruct Ht as [Hks _]. intros l.
    destruct (line_edits edits l) eqn:E; [done|].
    assert (l ∈ ks) as Hin by (apply elem_of_bucket_lines; by rewrite E).
    rewrite Hks in Hin. set_solver.
Qed.

End buckets.

(** ** The two ends *)

Lemma bof_texts n edits : Forall no_after edits -> bof_lines edits = texts_at n SBof edits.
Proof.
  unfold bof_lines. induction 1 as [|e edits He H IH]; [done|].
  rewrite texts_at_cons, <- IH. destruct e as [[]|]; done.
Qed.

Lemma eof_texts n edits : Forall no_after edits -> eof_lines edits = texts_at n SEof edits.
Proof.
  unfold eof_lines. induction 1 as [|e edits He H IH]; [done|].
  rewrite texts_at_cons, <- IH. destruct e as [[]|]; done.
Qed.

Lemma splice_at {A} (l : list A) (k d : nat) items :
  k <= length l -> splice l (Z.of_nat k) d items = take k l ++ items ++ drop (k + d) l.
Proof.
  intros. unfold splice, arr_len. rewrite clamp_index_in_range by lia. by rewrite Nat2Z.id.
Qed.

Lemma splice_singleton {A} (x : A) items : splice [x] 0 1 items = items.
Proof. rewrite (splice_at [x] 0 1) by (simpl; lia). cbn. apply app_nil_r. Qed.

Lemma insertAtStart_spec b lines :
  length (lineOrigins b) = length (fileLines b) ->
  fileLines (insertAtStart b lines) = add_start lines (fileLines b)
  /\ length (lineOrigins (insertAtStart b lines)) = length (fileLines (insertAtStart b lines)).
Proof.
  destruct b as [fl os]. unfold insertAtStart, add_start. simpl. intros Hlen.
  case_bool_decide; [done|]. case_bool_decide as Hfl; simpl.
  - subst. destruct os as [|o [|]]; try done. simpl.
    by rewrite !splice_singleton, length_fmap.
  - rewrite (splice_at fl 0 0), (splice_at os 0 0) by lia. rewrite !take_0, !drop_0. cbn [app].
    by rewrite !length_app, length_fmap, Hlen.
Qed.

Lemma insertAtEnd_spec b lines :
  length (lineOrigins b) = length (fileLines b) ->
  let r := insertAtEnd b lines in
  fileLines r.2 = add_end lines (fileLines b)
  /\ length (lineOrigins r.2) = length (fileLines r.2)
  /\ match r.1 with
     | None => lines = []
     | Some l => (1 <= l)%Z /\
         take (Z.to_nat (l - 1)) (fileLines r.2) = take (Z.to_nat (l - 1)) (fileLines b)
     end.
Proof.
  destruct b as [fl os]. unfold insertAtEnd, add_end. simpl. intros Hlen.
  case_bool_decide; [done|]. case_bool_decide as Hfl; simpl.
  - subst. destruct os as [|o [|]]; try done. simpl.
    rewrite !splice_singleton, length_fmap. split_and!; try done; lia.
  - case_bool_decide as Hlast; simpl; unfold arr_len.
    + apply last_Some in Hlast as [fl' ->]. rewrite length_app in *. simpl in *.
      replace (Z.of_nat (length fl' + 1) - 1)%Z with (Z.of_nat (length fl')) by lia.
      rewrite !splice_at by (rewrite ?length_app; simpl; lia).
      rewrite removelast_last, Nat.add_0_r, take_app_length, drop_app_length.
      split_and!; [done| |lia|].
      * rewrite !length_app, length_take, length_drop, length_fmap. simpl. lia.
      * replace (Z.to_nat _) with (length fl') by lia. by rewrite !take_app_length.
    + rewrite (splice_at fl) by done. rewrite <- Hlen at 3.
      rewrite (splice_at os) by done. rewrite Nat.add_0_r, firstn_all, drop_all, app_nil_r.
      rewrite Hlen, Nat.add_0_r, <- Hlen, firstn_all, drop_all, app_nil_r.
      split_and!; [done| |lia|].
      * by rewrite !length_app, length_fmap, Hlen.
      * replace (Z.to_nat _) with (length fl) by lia. by rewrite take_app_length, firstn_all.
Qed.

(** ** Normalizing the cursors does not change the meaning *)

Section normalized.
Context `{LineHasher}.
Variable lines : list jsstring.

Let n := arr_len lines.

Definition in_file (a : Anchor) : Prop := (1 <= a_line a <= n)%Z.

Definition edit_in_file (e : HashlineEdit) : Prop := Forall in_file (getHashlineEditAnchors e).

Lemma normalize_no_after edits : Forall no_after (normalize_edit lines <$> edits).
Proof.
  apply Forall_fmap, Forall_true. intros [[]|]; simpl; try done. by case_match.
Qed.

Lemma normalize_texts s edits :
  texts_at n s (normalize_edit lines <$> edits) = texts_at n s edits.
Proof.
  induction edits as [|e edits IH]; [done|].
  rewrite fmap_cons, !texts_at_cons, IH. f_equal.
  destruct e as [[| |a|a]|]; try done. simpl. unfold n. by case_match.
Qed.

Lemma normalize_deletes l edits :
  deletes_line l (normalize_edit lines <$> edits) = deletes_line l edits.
Proof.
  unfold deletes_line. induction edits as [|e edits IH]; [done|].
  rewrite fmap_cons. simpl. rewrite IH. f_equal.
  destruct e as [[| |a|a]|]; try done. simpl. by destruct (arr_len lines <=? a_line a)%Z.
Qed.

Lemma normalize_render edits : render (normalize_edit lines <$> edits) lines = render edits lines.
Proof.
  unfold render, render_body. rewrite !normalize_texts. do 3 f_equal.
  apply imap_ext. intros i x _. unfold render_line.
  by rewrite normalize_texts, normalize_deletes.
Qed.

Lemma normalize_range edits l :
  Forall edit_in_file edits ->
  line_edits (normalize_edit lines <$> edits) l <> [] -> (1 <= l <= n)%Z.
Proof.
  induction 1 as [|e edits He Hf IH]; [done|]. rewrite fmap_cons, line_edits_cons.
  unfold edit_in_file, in_file in He.
  destruct e as [[| |a|a] t ? ?|a ? ? ?]; simpl in *; try done.
  - inversion He; subst. destruct (a_line a =? l)%Z eqn:E; simpl_bool; [lia|]. by rewrite app_nil_l.
  - inversion He; subst. destruct (arr_len lines <=? a_line a)%Z eqn:En; [done|]. simpl.
    destruct (a_line a + 1 =? l)%Z eqn:E; simpl_bool; [lia|]. by rewrite app_nil_l.
  - inversion He; subst. destruct (a_line a =? l)%Z eqn:E; simpl_bool; [lia|]. by rewrite app_nil_l.
Qed.

(** ** The first changed line *)

Lemma concat_singletons {A} (l : list A) : concat (imap (fun _ x => [x]) l) = l.
Proof. induction l as [|x l IH]; [done|]. simpl. f_equal. apply IH. Qed.

Lemma render_prefix edits (k : nat) :
  k <= length lines -> Forall no_after edits ->
  (forall l, line_edits edits l <> [] -> (Z.of_nat k < l)%Z) ->
  take k (render_body edits lines) = take k lines.
Proof.
  intros Hk Hna Hmin. unfold render_body.
  rewrite <- (take_drop k lines) at 2. rewrite imap_app, concat_app.
  assert (concat (imap (render_line (arr_len lines) edits) (take k lines)) = take k lines) as ->.
  { rewrite <- (concat_singletons (take k lines)) at 2. f_equal. apply imap_ext.
    intros i x Hi%lookup_lt_Some. rewrite length_take in Hi.
    apply render_line_untouched; [done|].
    destruct (line_edits edits (Z.of_nat i + 1)) eqn:E; [done|].
    specialize (Hmin (Z.of_nat i + 1)%Z). rewrite E in Hmin. specialize (Hmin ltac:(done)). lia. }
  rewrite take_app_le by (rewrite length_take; lia). by rewrite take_take, Nat.min_id.
Qed.

(** The line reported as first changed: everything before it is as it was. *)
Definition first_sound (first : option Z) (out : list jsstring) : Prop :=
  match first with
  | None => out = lines
  | Some f => (1 <= f)%Z /\ take (Z.to_nat (f - 1)) out = take (Z.to_nat (f - 1)) lines
  end.

Lemma first_sound_track first l out out' :
  first_sound first out -> (1 <= l)%Z ->
  take (Z.to_nat (l - 1)) out' = take (Z.to_nat (l - 1)) out ->
  first_sound (trackFirstChanged l first) out'.
Proof.
  intros Hf Hl Ht. destruct first as [f|]; simpl in *.
  - destruct Hf as [Hf1 Hf2].
    assert (Hmin : forall g : Z, (1 <= g)%Z -> (g <= f)%Z -> (g <= l)%Z ->
              take (Z.to_nat (g - 1)) out' = take (Z.to_nat (g - 1)) lines).
    { intros g H1 H2 H3. replace (Z.to_nat (g - 1)) with
        (Nat.min (Z.to_nat (g - 1)) (Z.to_nat (l - 1))) at 1 by lia.
      rewrite <- take_take, Ht, take_take.
      replace (Nat.min (Z.to_nat (g - 1)) (Z.to_nat (l - 1))) with
        (Nat.min (Z.to_nat (g - 1)) (Z.to_nat (f - 1))) by lia.
      rewrite <- take_take, Hf2, take_take. f_equal. lia. }
    destruct (l <? f)%Z eqn:E; simpl_bool; (split; [lia|]; apply Hmin; lia).
  - subst. done.
Qed.

Lemma first_edited_sound edits first :
  Forall no_after edits -> first_edited edits lines first ->
  first_sound first (render_body edits lines).
Proof.
  intros Hna Hf. destruct first as [f|]; simpl in *.
  - destruct Hf as [Hr Hmin]. split; [lia|]. apply render_prefix; [unfold n, arr_len in *; lia|done|].
    intros l Hl%Hmin. lia.
  - assert (Hp : take (length lines) (render_body edits lines) = take (length lines) lines).
    { apply render_prefix; [done|done|]. intros l Hl. by rewrite Hf in Hl. }
    unfold render_body in *.
    rewrite (imap_ext _ (fun _ x => [x])), concat_singletons; [done|].
    intros i x _. apply render_line_untouched; [done|]. apply Hf.
Qed.

(** ** The whole application *)

Lemma apply_normalized_spec edits :
  Forall edit_in_file edits ->
  exists os first,
    apply_normalized (normalize_edit lines <$> edits) lines
      = (mkBuffer (render edits lines) os, first)
    /\ length os = length (render edits lines) /\ first_sound first (render edits lines).
Proof.
  intros Hr. rewrite <- normalize_render.
  set (es := normalize_edit lines <$> edits).
  assert (Hna : Forall no_after es) by apply normalize_no_after.
  unfold apply_normalized.
  destruct (apply_buckets_spec es lines Hna (fun l => normalize_range edits l Hr)
              ((fun _ => Original) <$> lines)) as (os1 & f1 & -> & Hos1 & Hf1);
    [by rewrite length_fmap|].
  apply first_edited_sound in Hf1; [|done].
  unfold render. fold n. rewrite <- bof_texts, <- eof_texts by done.
  destruct (insertAtStart_spec (mkBuffer (render_body es lines) os1) (bof_lines es) Hos1)
    as [Hs1 Hs2].
  set (b2 := if bool_decide (bof_lines es = []) then _ else _).
  assert (Hb2 : exists os2 f2, b2 = (mkBuffer (add_start (bof_lines es) (render_body es lines)) os2, f2)
    /\ length os2 = length (add_start (bof_lines es) (render_body es lines))
    /\ first_sound f2 (add_start (bof_lines es) (render_body es lines))).
  { subst b2. case_bool_decide as Hb.
    - exists os1, f1. unfold add_start. rewrite bool_decide_true by done. done.
    - simpl in Hs1. rewrite <- Hs1. destruct (insertAtStart _ _) as [fl2 os2] eqn:E.
      exists os2, (trackFirstChanged 1 f1). split_and!; [done|done|].
      eapply first_sound_track; [exact Hf1|lia|done]. }
  destruct Hb2 as (os2 & f2 & -> & Hos2 & Hf2).
  destruct (insertAtEnd_spec (mkBuffer (add_start (bof_lines es) (render_body es lines)) os2)
              (eof_lines es) Hos2) as (He1 & He2 & He3).
  destruct (insertAtEnd _ _) as [[l|] [fl3 os3]]; simpl in *; subst fl3.
  - destruct He3 as [Hl Ht]. eexists os3, _. split_and!; [done|done|].
    by eapply first_sound_track.
  - eexists os3, _. split_and!; [done|done|]. unfold add_end. by rewrite bool_decide_true.
Qed.

End normalized.
