(* ===== verification/HashlineApplyFacts.v ===== *)
(** * Correctness of applying hashline edits

    When a batch is accepted, what the absorption of duplicated boundary lines
    may do, and what the resulting text is. *)

From S2P Require Import Prelude JsText LineHash HashlineTypes Anchors HashlineParser.
From S2P Require Import HashlineApply HashlineApplySpec.

(** ** Validation *)

Section validation.
Context `{LineHasher}.

(** An anchor the file vouches for: its line exists and has its hash; the
    interior of a range carries no hash of its own. *)
Definition valid_anchor (lines : list jsstring) (a : Anchor) : Prop :=
  in_file lines a /\
  (a_hash a = RANGE_INTERIOR_HASH \/ computeLineHash (a_line a) (line_at lines (a_line a)) = a_hash a).

Lemma validate_anchors_ok lines anchors :
  validate_anchors lines anchors = Ok [] <-> Forall (valid_anchor lines) anchors.
Proof.
  induction anchors as [|a anchors IH]; simpl; [by split; [constructor|]|].
  rewrite Forall_cons, <- IH. unfold valid_anchor at 1, in_file.
  destruct ((a_line a <? 1)%Z || (arr_len lines <? a_line a)%Z) eqn:E.
  - split; [done|]. intros [[? _] _]. apply orb_prop in E as []; simpl_bool; lia.
  - simpl_bool. case_bool_decide; [naive_solver lia|]. case_bool_decide; [naive_solver lia|].
    destruct (validate_anchors lines anchors); naive_solver.
Qed.

(** A batch is rejected for a missing line before any hash is compared: when the
    check returns at all, every anchored line exists. *)
Lemma validate_anchors_range lines anchors ms :
  validate_anchors lines anchors = Ok ms -> Forall (in_file lines) anchors.
Proof.
  revert ms. induction anchors as [|a anchors IH]; simpl; intros ms; [constructor|].
  destruct (_ || _) eqn:E; [done|]. simpl_bool. unfold in_file at 1.
  repeat case_bool_decide; try (intros; constructor; [lia|by eapply IH]).
  destruct (validate_anchors lines anchors); [|done].
  intros. constructor; [lia|by eapply IH].
Qed.

Definition edit_valid (lines : list jsstring) (e : HashlineEdit) : Prop :=
  Forall (valid_anchor lines) (getHashlineEditAnchors e).

Lemma validate_ok edits lines :
  validateHashlineAnchors edits lines = Ok [] <-> Forall (edit_valid lines) edits.
Proof.
  unfold validateHashlineAnchors. rewrite validate_anchors_ok.
  by rewrite Forall_bind.
Qed.

Lemma edit_valid_in_file lines e : edit_valid lines e -> edit_in_file lines e.
Proof. intros He. eapply Forall_impl; [exact He|]. by intros a []. Qed.

End validation.

(** ** Counting matches *)

Lemma largest_match_SS p c :
  largest_match p (S (S c)) = if p (S (S c)) then S (S c) else largest_match p (S c).
Proof. done. Qed.

Lemma largest_match_le p max : largest_match p max <= max.
Proof.
  induction max as [|c IH]; [done|]. destruct c as [|c]; [simpl; lia|].
  rewrite largest_match_SS. case_match; lia.
Qed.

Lemma largest_match_sound p max : largest_match p max <> 0 -> p (largest_match p max) = true.
Proof.
  induction max as [|c IH]; [done|]. destruct c as [|c]; [done|].
  rewrite largest_match_SS. by destruct (p (S (S c))) eqn:E.
Qed.

Lemma block_matches_lookup lines base payload from count j :
  block_matches lines base payload from count = true -> j < count ->
  arr_get lines (base + Z.of_nat j) = payload !! (from + j).
Proof.
  unfold block_matches. rewrite forallb_forall. intros Hall Hj.
  specialize (Hall j). rewrite in_seq in Hall. specialize (Hall ltac:(lia)).
  by apply bool_decide_eq_true_1 in Hall.
Qed.

Lemma or_count_cases a b : or_count a b = a \/ a = 0 /\ or_count a b = b.
Proof. destruct a; simpl; auto. Qed.

Section counts.
Context `{LineHasher}.
Variables (edits : list HashlineEdit) (lines : list jsstring).

(** The number of lines absorbed above a replacement starting at [startLine]:
    it stays inside the file, the absorbed lines are the payload's first lines,
    and none of them is the target of an edit of the batch. *)
Definition prefix_safe (startLine : Z) (replacement : list jsstring) (count : nat) : Prop :=
  (count = 0 \/ (Z.of_nat count <= startLine - 1)%Z)
  /\ (forall j, j < count ->
        arr_get lines (startLine - Z.of_nat count - 1 + Z.of_nat j) = replacement !! j)
  /\ (forall l, (startLine - Z.of_nat count <= l < startLine)%Z ->
        l ∉ collectAnchorTargetLines edits).

Definition suffix_safe (endLine : Z) (replacement : list jsstring) (count : nat) : Prop :=
  (count = 0 \/ (Z.of_nat count <= arr_len lines - endLine)%Z)
  /\ (forall j, j < count ->
        arr_get lines (endLine + Z.of_nat j) = replacement !! (length replacement - count + j))
  /\ (forall l, (endLine < l <= endLine + Z.of_nat count)%Z ->
        l ∉ collectAnchorTargetLines edits).

Lemma no_external ls (s : gset Z) l :
  hasExternalTargets ls s = false -> l ∈ ls -> l ∉ s.
Proof.
  unfold hasExternalTargets. intros Hf Hl Hin.
  assert (existsb (fun line => bool_decide (line ∈ s)) ls = true) as Ht; [|congruence].
  apply existsb_exists. exists l. split; [by apply list_elem_of_In|].
  by apply bool_decide_eq_true_2.
Qed.

Lemma elem_of_contiguous start count l :
  l ∈ contiguousRange start count <-> (start <= l < start + Z.of_nat count)%Z.
Proof.
  unfold contiguousRange. rewrite list_elem_of_fmap. split.
  - intros (k & -> & Hk%elem_of_seq). lia.
  - intros. exists (Z.to_nat (l - start)). rewrite elem_of_seq. lia.
Qed.

Lemma single_prefix_cases startLine repl bal :
  let c := countMatchingSingleStructuralPrefixBoundary lines startLine repl bal in
  c = 0 \/ c = 1 /\ (1 < startLine)%Z /\ arr_get lines (startLine - 2) = repl !! 0.
Proof.
  unfold countMatchingSingleStructuralPrefixBoundary. destruct repl as [|x repl]; [by left|].
  repeat case_match; auto; simpl_bool; right; split_and!; auto; lia.
Qed.

Lemma single_suffix_cases endLine repl bal :
  let c := countMatchingSingleStructuralSuffixBoundary lines endLine repl bal in
  c = 0 \/ c = 1 /\ (endLine < arr_len lines)%Z
           /\ arr_get lines endLine = repl !! (length repl - 1).
Proof.
  unfold countMatchingSingleStructuralSuffixBoundary.
  destruct (last repl) as [x|] eqn:E; [|by left].
  repeat case_match; auto; simpl_bool; right; split_and!; auto.
  replace (length repl - 1) with (pred (length repl)) by lia. rewrite <- last_lookup. congruence.
Qed.

Lemma prefix_block_safe startLine repl :
  let c := countMatchingPrefixBlock lines startLine repl in
  (c = 0 \/ (Z.of_nat c <= startLine - 1)%Z)
  /\ forall j, j < c -> arr_get lines (startLine - Z.of_nat c - 1 + Z.of_nat j) = repl !! j.
Proof.
  unfold countMatchingPrefixBlock. set (p := fun count => _). set (max := Z.to_nat _).
  pose proof (largest_match_le p max). split; [lia|].
  intros j Hj. pose proof (largest_match_sound p max ltac:(lia)) as Hp.
  by apply (block_matches_lookup _ _ _ 0 _ j) in Hp.
Qed.

Lemma suffix_block_safe endLine repl :
  let c := countMatchingSuffixBlock lines endLine repl in
  (c = 0 \/ (Z.of_nat c <= arr_len lines - endLine)%Z)
  /\ forall j, j < c -> arr_get lines (endLine + Z.of_nat j) = repl !! (length repl - c + j).
Proof.
  unfold countMatchingSuffixBlock. set (p := fun count => _). set (max := Z.to_nat _).
  pose proof (largest_match_le p max). split; [lia|].
  intros j Hj. pose proof (largest_match_sound p max ltac:(lia)) as Hp.
  by apply (block_matches_lookup _ _ _ _ _ j) in Hp.
Qed.

Lemma safe_counts_sound g startLine endLine p s :
  safe_counts edits lines g startLine endLine = (p, s) ->
  prefix_safe startLine (rg_replacement g) p /\ suffix_safe endLine (rg_replacement g) s.
Proof.
  unfold safe_counts. set (bal := computeDelimiterBalance _). intros [= <- <-].
  set (pc := or_count (countMatchingPrefixBlock _ _ _) _).
  set (sc := or_count (countMatchingSuffixBlock _ _ _) _).
  assert (Hp : (pc = 0 \/ (Z.of_nat pc <= startLine - 1)%Z)
    /\ forall j, j < pc ->
        arr_get lines (startLine - Z.of_nat pc - 1 + Z.of_nat j) = rg_replacement g !! j).
  { destruct (or_count_cases (countMatchingPrefixBlock lines startLine (rg_replacement g))
      (countMatchingSingleStructuralPrefixBoundary lines startLine (rg_replacement g) bal))
      as [E|[_ E]]; fold pc in E; rewrite E; [apply prefix_block_safe|].
    destruct (single_prefix_cases startLine (rg_replacement g) bal) as [->|(-> & ? & Hg)].
    - split; [by left|lia].
    - split; [lia|]. intros [|]; [|lia]. intros _. rewrite <- Hg. f_equal. lia. }
  assert (Hs : (sc = 0 \/ (Z.of_nat sc <= arr_len lines - endLine)%Z)
    /\ forall j, j < sc -> arr_get lines (endLine + Z.of_nat j)
                           = rg_replacement g !! (length (rg_replacement g) - sc + j)).
  { destruct (or_count_cases (countMatchingSuffixBlock lines endLine (rg_replacement g))
      (countMatchingSingleStructuralSuffixBoundary lines endLine (rg_replacement g) bal))
      as [E|[_ E]]; fold sc in E; rewrite E; [apply suffix_block_safe|].
    destruct (single_suffix_cases endLine (rg_replacement g) bal) as [->|(-> & ? & Hg)].
    - split; [by left|lia].
    - split; [lia|]. intros [|]; [|lia]. intros _. rewrite Nat.add_0_r, <- Hg. f_equal. lia. }
  clearbody pc sc. unfold prefix_safe, suffix_safe. split.
  - destruct (hasExternalTargets _ _) eqn:E; [split_and!; [by left|lia|intros; lia]|].
    destruct Hp as [??]. split_and!; [done|done|]. intros l Hl.
    apply (no_external _ _ _ E), elem_of_contiguous. lia.
  - destruct (hasExternalTargets (contiguousRange (endLine + 1) sc) _) eqn:E;
      [split_and!; [by left|lia|intros; lia]|].
    destruct Hs as [??]. split_and!; [done|done|]. intros l Hl.
    apply (no_external _ _ _ E), elem_of_contiguous. lia.
Qed.

End counts.

(** ** Groups *)

Lemma span_split {A} (p : A -> bool) l a b : span p l = (a, b) -> l = a ++ b.
Proof. intros E. pose proof (span_app p l) as Hs. by rewrite E in Hs. Qed.

Lemma span_first {A} (p : A -> bool) x l a b :
  span p (x :: l) = (a, b) -> p x = true -> exists a', a = x :: a'.
Proof.
  simpl. intros E Hx. rewrite Hx in E. destruct (span p l). simplify_eq. by eexists.
Qed.

(** The shape of a replacement group: a run of edits starting at the index, that
    ends inside the batch, whose deletes name consecutive lines. *)
Lemma findReplacementGroup_shape edits i g :
  findReplacementGroup edits i = Some g ->
  rg_startIndex g = i /\ i <= rg_endIndex g < length edits
  /\ rg_deletes g <> []
  /\ Forall (fun a => exists e, e ∈ edits /\ a ∈ getHashlineEditAnchors e) (rg_deletes g).
Proof.
  unfold findReplacementGroup.
  destruct (drop i edits) as [|[[| |first|] t n k|] rest0] eqn:Ed; try done.
  rewrite <- Ed. destruct (span (is_before_insert n) (drop i edits)) as [ins rest] eqn:E1.
  destruct (span (is_delete_at n) rest) as [dels rest'] eqn:E2.
  destruct (dels ≫= delete_anchor) as [|d ds] eqn:E3; [done|].
  destruct (negb (consecutive _ _)); [done|]. destruct (negb _); [done|].
  intros [= <-]. simpl.
  destruct (span_first (is_before_insert n) (EInsert (BeforeAnchor first) t n k) rest0 ins rest)
    as [ins' ->]; [by rewrite <- Ed|simpl; apply Z.eqb_refl|].
  pose proof (span_split _ _ _ _ E1) as H1. pose proof (span_split _ _ _ _ E2) as ->.
  assert (Hlen : length (drop i edits) = length edits - i) by apply length_drop.
  rewrite H1, !length_app in Hlen. simpl in Hlen.
  split_and!; [done|simpl; lia|simpl; lia|done|]. rewrite <- E3.
  apply Forall_forall. intros a (e & Ha & He)%list_elem_of_bind.
  exists e. split.
  - assert (e ∈ drop i edits) as Hd by (rewrite H1; set_solver).
    apply list_elem_of_lookup in Hd as [j Hj]. rewrite lookup_drop in Hj.
    by eapply list_elem_of_lookup_2.
  - destruct e; simpl in *; set_solver.
Qed.

Lemma findPureInsertGroup_shape edits i g :
  findPureInsertGroup edits i = Some g ->
  pg_startIndex g = i /\ i <= pg_endIndex g < length edits
  /\ exists t n k, edits !! i = Some (EInsert (pg_cursor g) t n k).
Proof.
  unfold findPureInsertGroup.
  destruct (drop i edits) as [|[c t n k|] rest0] eqn:Ed; try done.
  rewrite <- Ed. destruct (span (is_insert_at n c) (drop i edits)) as [ins rest] eqn:E1.
  assert (Hg : g = mkPureInsertGroup i (i + length ins - 1) n c (ins ≫= insert_text) ->
    pg_startIndex g = i /\ i <= pg_endIndex g < length edits
    /\ exists t n k, edits !! i = Some (EInsert (pg_cursor g) t n k)).
  { intros ->. simpl.
    assert (Hc : cursorMatches c c = true).
    { destruct c; simpl; try done; by rewrite Z.eqb_refl, bool_decide_true. }
    destruct (span_first (is_insert_at n c) (EInsert c t n k) rest0 ins rest) as [ins' ->];
      [by rewrite <- Ed|simpl; by rewrite Z.eqb_refl, Hc|].
    pose proof (span_split _ _ _ _ E1) as H1.
    assert (Hlen : length (drop i edits) = length edits - i) by apply length_drop.
    rewrite H1, !length_app in Hlen. simpl in Hlen. simpl.
    split_and!; [done|lia|lia|]. exists t, n, k.
    rewrite <- (Nat.add_0_r i), <- lookup_drop, Ed. done. }
  intros. apply Hg. repeat case_match; by simplify_eq.
Qed.

(** ** The absorption loop *)

Lemma take_slice {A} (l : list A) i j :
  i <= j -> take i l ++ slice l i j = take j l.
Proof.
  intros. unfold slice. rewrite take_drop_commute. replace (i + (j - i)) with j by lia.
  rewrite <- (take_drop i (take j l)) at 2. by rewrite take_take, Nat.min_l by lia.
Qed.

Lemma push_synthetic_spec {A} (mk : A -> Z -> HashlineEdit) xs st :
  absorbed (push_synthetic mk xs st)
    = absorbed st ++ imap (fun i x => mk x (nextSyntheticIndex st + Z.of_nat i)%Z) xs
  /\ emittedAbsorbKeys (push_synthetic mk xs st) = emittedAbsorbKeys st
  /\ absorbWarnings (push_synthetic mk xs st) = absorbWarnings st.
Proof.
  unfold push_synthetic. revert st. induction xs as [|x xs IH]; intros st; simpl.
  - by rewrite app_nil_r.
  - destruct (IH (mkAbsorb (nextSyntheticIndex st + 1)
      (absorbed st ++ [mk x (nextSyntheticIndex st)]) (emittedAbsorbKeys st) (absorbWarnings st)))
      as (-> & -> & ->). simpl. split_and!; [|done|done].
    rewrite <- (assoc_L app). f_equal. cbn [app]. f_equal; [f_equal; lia|].
    apply imap_ext. intros i y _. unfold compose. f_equal. lia.
Qed.

(** As long as nothing was absorbed, no key is recorded either. *)
Definition quiet (st : absorb_state) : Prop :=
  absorbWarnings st = [] -> emittedAbsorbKeys st = [].

Lemma emit_once_spec kind c s a b st :
  absorbed (emit_once kind c s a b st) = absorbed st
  /\ (quiet st -> absorbWarnings (emit_once kind c s a b st) <> []).
Proof.
  unfold emit_once. case_bool_decide as Hk; simpl; (split; [done|]); intros Hq Hw.
  - rewrite (Hq Hw) in Hk. set_solver.
  - by apply app_nil in Hw as [_ ?].
Qed.

Lemma emit_once_keeps kind c s a b st :
  absorbWarnings st <> [] -> absorbWarnings (emit_once kind c s a b st) <> [].
Proof.
  unfold emit_once. case_bool_decide; simpl; [done|]. intros ? [? _]%app_nil. done.
Qed.

Lemma quiet_emit kind c s a b st : quiet st -> quiet (emit_once kind c s a b st).
Proof. intros Hq Hw. by apply emit_once_spec in Hw. Qed.

Section loop.
Context `{LineHasher}.
Variables (edits : list HashlineEdit) (lines : list jsstring) (allow : bool).
Hypothesis Hin : Forall (edit_in_file lines) edits.

(** The invariant of the loop at [index]: the edits handed over name lines of
    the file, and while there is no warning they are the edits read so far. *)
Record loop_inv (index : nat) (st : absorb_state) : Prop := {
  li_index : index <= length edits;
  li_quiet : quiet st;
  li_same : absorbWarnings st = [] -> absorbed st = take index edits;
  li_file : Forall (edit_in_file lines) (absorbed st)
}.

Lemma group_edits_in_file i j : Forall (edit_in_file lines) (group_edits edits i j).
Proof. unfold group_edits, slice. by apply Forall_take, Forall_drop. Qed.

Lemma push_group_inv i j st :
  i <= j < length edits -> loop_inv i st -> loop_inv (S j) (push_edits (group_edits edits i j) st).
Proof.
  intros Hj [_ Hq Hs Hf]. split; simpl; [lia|done| |].
  - intros Hw. rewrite (Hs Hw). unfold group_edits. apply take_slice. lia.
  - apply Forall_app; split; [done|apply group_edits_in_file].
Qed.

(** Once there is a warning only the lines matter. *)
Lemma loop_inv_warned i st :
  i <= length edits -> absorbWarnings st <> [] -> Forall (edit_in_file lines) (absorbed st) ->
  loop_inv i st.
Proof. intros ? Hw ?. split; [done|by intros ?%Hw|by intros ?%Hw|done]. Qed.

Lemma absorb_ranges g :
  let r := tryAbsorbPureInsertGroup g lines allow in
  (absorbedLeading r <> 0 -> is_Some (leadingFileRange r))
  /\ (absorbedTrailing r <> 0 -> is_Some (trailingFileRange r)).
Proof.
  unfold tryAbsorbPureInsertGroup. case_bool_decide; [done|].
  destruct (pureInsertNeighborhood _ _) as [above below].
  set (lead := pure_leading _ _ _ _). set (trail := pure_trailing _ _ _ _ _).
  destruct ((lead =? 0) && (trail =? 0)); [done|]. simpl.
  split; intros Hne; destruct (Nat.ltb_spec 0 lead), (Nat.ltb_spec 0 trail); (done || lia).
Qed.

(** An optional emission: afterwards there is a warning if the range was there. *)
Lemma emit_range kind c s (range : option (Z * Z)) st :
  quiet st ->
  let st' := match range with Some (a, b) => emit_once kind c s a b st | None => st end in
  quiet st' /\ absorbed st' = absorbed st
  /\ (is_Some range \/ absorbWarnings st <> [] -> absorbWarnings st' <> []).
Proof.
  intros Hq. destruct range as [[a b]|]; simpl.
  - destruct (emit_once_spec kind c s a b st) as [-> Hw]. split_and!; [by apply quiet_emit|done|].
    auto.
  - split_and!; [done|done|]. by intros [[]|].
Qed.

Lemma absorb_pure_inv i g st :
  findPureInsertGroup edits i = Some g -> loop_inv i st ->
  loop_inv (S (pg_endIndex g))
    (absorb_pure edits g (tryAbsorbPureInsertGroup g lines allow) st).
Proof.
  intros Hg Hi. destruct (findPureInsertGroup_shape _ _ _ Hg) as (Hst & Hend & t & n & k & Hl).
  assert (Hc : edit_in_file lines (EInsert (pg_cursor g) t n k)).
  { rewrite Forall_lookup in Hin. by apply Hin in Hl. }
  destruct (absorb_ranges g) as [Hlead Htrail].
  unfold absorb_pure. set (r := tryAbsorbPureInsertGroup g lines allow) in *.
  destruct (_ || _) eqn:E; [|rewrite Hst; by apply push_group_inv].
  destruct (emit_range PureLeading (absorbedLeading r) (pg_sourceLineNum g)
              (leadingFileRange r) st (li_quiet _ _ Hi)) as (Hq1 & Ha1 & Hw1).
  destruct (emit_range PureTrailing (absorbedTrailing r) (pg_sourceLineNum g)
              (trailingFileRange r) _ Hq1) as (Hq2 & Ha2 & Hw2).
  destruct (push_synthetic_spec
    (fun text i => EInsert (cloneCursor (pg_cursor g)) text (pg_sourceLineNum g) i)
    (keptPayload r) (match trailingFileRange r with
      | Some (a, b) => emit_once PureTrailing (absorbedTrailing r) (pg_sourceLineNum g) a b
          (match leadingFileRange r with
           | Some (a, b) => emit_once PureLeading (absorbedLeading r) (pg_sourceLineNum g) a b st
           | None => st end)
      | None => match leadingFileRange r with
           | Some (a, b) => emit_once PureLeading (absorbedLeading r) (pg_sourceLineNum g) a b st
           | None => st end
      end)) as (Hpa & _ & Hpw).
  apply loop_inv_warned; [lia| |].
  - rewrite Hpw. apply Hw2. apply orb_prop in E as [E|E]; apply Nat.ltb_lt in E.
    + right. apply Hw1. left. apply Hlead. lia.
    + left. apply Htrail. lia.
  - rewrite Hpa, Ha2, Ha1. apply Forall_app; split; [apply Hi|].
    apply Forall_lookup. intros j e. rewrite list_lookup_imap.
    intros (y & _ & ->)%fmap_Some. rewrite cloneCursor_id. exact Hc.
Qed.

Lemma emit_if kind c s a b st :
  quiet st ->
  let st' := if (0 <? c) then emit_once kind c s a b st else st in
  quiet st' /\ absorbed st' = absorbed st /\ (c <> 0 -> absorbWarnings st' <> []).
Proof.
  intros Hq. destruct (Nat.ltb_spec 0 c); simpl; [|split_and!; [done|done|lia]].
  destruct (emit_once_spec kind c s a b st) as [-> Hw].
  split_and!; [by apply quiet_emit|done|auto].
Qed.

Lemma absorb_replacement_inv i g st :
  findReplacementGroup edits i = Some g -> loop_inv i st ->
  loop_inv (S (rg_endIndex g)) (absorb_replacement edits lines g st).
Proof.
  intros Hg Hi. destruct (findReplacementGroup_shape _ _ _ Hg) as (Hst & Hend & Hne & Hdel).
  unfold absorb_replacement.
  set (startLine := match rg_deletes g with [] => _ | _ => _ end).
  set (endLine := match last (rg_deletes g) with None => _ | _ => _ end).
  assert (Hfile : Forall (in_file lines) (rg_deletes g)).
  { eapply Forall_impl; [exact Hdel|]. intros a (e & He & Ha).
    rewrite Forall_forall in Hin. specialize (Hin _ He). unfold edit_in_file in Hin.
    rewrite Forall_forall in Hin. auto. }
  assert (Hs : (1 <= startLine <= arr_len lines)%Z).
  { subst startLine. destruct (rg_deletes g); [done|]. by inversion Hfile. }
  assert (He : (1 <= endLine <= arr_len lines)%Z).
  { subst endLine. destruct (last (rg_deletes g)) as [a|] eqn:El; [|by apply last_None in El].
    apply last_Some_elem_of in El. rewrite Forall_forall in Hfile. by apply Hfile. }
  destruct (safe_counts _ _ _ _ _) as [p s] eqn:Ec.
  apply safe_counts_sound in Ec as [(Hp & _) (Hsf & _)]. clearbody startLine endLine.
  set (st1 := if (0 <? p) then _ else st). set (st2 := if (0 <? s) then _ else st1).
  assert (H1 : quiet st1 /\ absorbed st1 = absorbed st /\ (p <> 0 -> absorbWarnings st1 <> [])).
  { apply (emit_if PrefixKey p (rg_sourceLineNum g)), Hi. }
  assert (H2 : quiet st2 /\ absorbed st2 = absorbed st1
               /\ (s <> 0 \/ absorbWarnings st1 <> [] -> absorbWarnings st2 <> [])).
  { split_and!; try apply (emit_if SuffixKey s (rg_sourceLineNum g)), H1.
    intros [|Hw]; [by apply (emit_if SuffixKey s (rg_sourceLineNum g)); [apply H1|]|].
    subst st2. case_match; [by apply emit_once_keeps|done]. }
  destruct (decide (p = 0 /\ s = 0)) as [[-> ->]|Hps].
  { rewrite Hst. by apply push_group_inv. }
  set (del := fun line i => deleteEditForAutoAbsorbedLine line (rg_sourceLineNum g) i lines).
  set (st3 := push_synthetic del _ st2). set (st4 := push_edits _ st3).
  destruct (push_synthetic_spec del (contiguousRange (startLine - Z.of_nat p) p) st2)
    as (Ha3 & _ & Hw3). fold st3 in Ha3, Hw3.
  destruct (push_synthetic_spec del (contiguousRange (endLine + 1) s) st4) as (Ha5 & _ & Hw5).
  destruct H1 as (_ & Ha1 & Hw1), H2 as (_ & Ha2 & Hw2).
  assert (Hdels : forall a c k, (c = 0 \/ (1 <= a /\ a + Z.of_nat c <= arr_len lines + 1)%Z) ->
    Forall (edit_in_file lines) (imap (fun i x => del x (k + Z.of_nat i)%Z) (contiguousRange a c))).
  { intros a c k Hac. apply Forall_lookup. intros j e. rewrite list_lookup_imap.
    intros (l & Hl%list_elem_of_lookup_2%elem_of_contiguous & ->)%fmap_Some.
    repeat constructor; simpl; lia. }
  apply loop_inv_warned; [lia| |].
  - rewrite Hw5. simpl. rewrite Hw3. apply Hw2.
    destruct (decide (s = 0)); [right; apply Hw1; lia|by left].
  - rewrite Ha5. simpl. rewrite Ha3, Ha2, Ha1. rewrite !Forall_app. split_and!;
      [apply Hi|apply Hdels; lia|apply group_edits_in_file|apply Hdels; lia].
Qed.

Lemma absorb_step_inv i e st :
  edits !! i = Some e -> loop_inv i st ->
  let '(st', i') := absorb_step edits lines allow i e st in i < i' /\ loop_inv i' st'.
Proof.
  intros He Hi. unfold absorb_step.
  destruct (findReplacementGroup edits i) as [g|] eqn:Eg.
  { pose proof (findReplacementGroup_shape _ _ _ Eg). split; [lia|].
    by eapply absorb_replacement_inv. }
  destruct (findPureInsertGroup edits i) as [g|] eqn:Ep.
  { pose proof (findPureInsertGroup_shape _ _ _ Ep). split; [lia|]. by eapply absorb_pure_inv. }
  split; [lia|]. pose proof (lookup_lt_Some _ _ _ He).
  destruct Hi as [_ Hq Hs Hf]. split; simpl; [lia|done| |].
  - intros Hw. rewrite (Hs Hw). symmetry. by apply take_S_r.
  - apply Forall_app; split; [done|]. rewrite Forall_lookup in Hin. repeat constructor. eauto.
Qed.

(** The loop reads every edit: [length edits] iterations are enough. *)
Lemma absorb_loop_inv f i st :
  length edits <= f + i -> loop_inv i st ->
  loop_inv (length edits) (absorb_loop edits lines allow f i st).
Proof.
  revert i st. induction f as [|f IH]; intros i st Hf Hi; simpl.
  - replace (length edits) with i; [done|]. pose proof (li_index _ _ Hi). lia.
  - destruct (edits !! i) as [e|] eqn:E.
    + pose proof (absorb_step_inv i e st E Hi) as Hs.
      destruct (absorb_step edits lines allow i e st) as [st' i']. destruct Hs. apply IH; [lia|done].
    + apply lookup_ge_None in E. replace (length edits) with i; [done|].
      pose proof (li_index _ _ Hi). lia.
Qed.

Lemma absorb_inv :
  loop_inv (length edits) (absorbReplacementBoundaryDuplicates edits lines allow).
Proof.
  apply absorb_loop_inv; [lia|]. split; simpl; [lia|done|done|constructor].
Qed.

End loop.
