(* ===== verification/HashlineContract.v ===== *)
(** * The contract of an edit batch

    What a caller of the hashline editor can rely on, from the text of a diff to
    the text of the file: which batches are accepted and how the others are
    reported, what an accepted batch does, what the absorption of duplicated
    boundary lines may touch, and that a replacement written with the anchors a
    read printed replaces exactly those lines. *)

From S2P Require Import Prelude JsText LineHash HashlineTypes Anchors HashlineParser.
From S2P Require Import HashlineSyntax HashlineApply HashlineApplySpec HashlineApplyFacts.

Section outcome.
Context `{LineHasher}.

Definition batch_anchors (edits : list HashlineEdit) : list Anchor :=
  edits ≫= getHashlineEditAnchors.

(** The anchors whose line exists but has another hash, as they are reported. *)
Definition stale_anchors (lines : list jsstring) (anchors : list Anchor) : list HashMismatch :=
  anchors ≫= fun a =>
    let actual := computeLineHash (a_line a) (line_at lines (a_line a)) in
    if bool_decide (a_hash a = RANGE_INTERIOR_HASH) || bool_decide (actual = a_hash a) then []
    else [mkMismatch (a_line a) (a_hash a) actual].

Lemma validate_anchors_outcome lines anchors :
  match validate_anchors lines anchors with
  | Ok ms => Forall (in_file lines) anchors /\ ms = stale_anchors lines anchors
  | Err e => exists pre a post, anchors = pre ++ a :: post /\ Forall (in_file lines) pre
      /\ ~ in_file lines a /\ e = LineDoesNotExist (a_line a) (arr_len lines)
  end.
Proof.
  induction anchors as [|a anchors IH]; simpl; [done|].
  destruct ((a_line a <? 1)%Z || (arr_len lines <? a_line a)%Z) eqn:E.
  { exists [], a, anchors. split_and!; [done|done| |done]. unfold in_file.
    apply orb_prop in E as []; simpl_bool; lia. }
  assert (Ha : in_file lines a) by (unfold in_file; simpl_bool; lia).
  assert (Hcons : forall e, (exists pre b post, anchors = pre ++ b :: post
      /\ Forall (in_file lines) pre /\ ~ in_file lines b
      /\ e = LineDoesNotExist (a_line b) (arr_len lines)) ->
    exists pre b post, a :: anchors = pre ++ b :: post /\ Forall (in_file lines) pre
      /\ ~ in_file lines b /\ e = LineDoesNotExist (a_line b) (arr_len lines)).
  { intros e (pre & b & post & -> & ? & ? & ?). exists (a :: pre), b, post.
    split_and!; [done|by constructor|done|done]. }
  unfold stale_anchors. cbn [mbind list_bind]. fold (stale_anchors lines anchors).
  do 2 (case_bool_decide; [destruct (validate_anchors lines anchors); naive_solver|]).
  destruct (validate_anchors lines anchors) as [ms|e]; [|by apply Hcons].
  destruct IH as [? ->]. split; [by constructor|done].
Qed.

Lemma stale_nil lines anchors :
  Forall (in_file lines) anchors ->
  stale_anchors lines anchors = [] <-> Forall (valid_anchor lines) anchors.
Proof.
  intros Hin. rewrite <- validate_anchors_ok.
  pose proof (validate_anchors_outcome lines anchors) as Hv.
  destruct (validate_anchors lines anchors) as [ms|e].
  { destruct Hv as [_ ->]. split; [by intros ->|by intros [= ->]]. }
  destruct Hv as (pre & a & post & -> & _ & Ha & _). apply Forall_app in Hin as [_ Hin].
  by inversion Hin.
Qed.

(** The result of an accepted, non-empty batch. *)
Lemma apply_accepted text edits opts :
  edits <> [] -> Forall (edit_valid (split_char LF text)) edits ->
  let lines := split_char LF text in
  let st := absorbReplacementBoundaryDuplicates edits lines (allow_generic opts) in
  exists first,
    applyHashlineEdits text edits opts
      = Ok (mkApplyResult (join [LF] (render (absorbed st) lines)) first
              (warning_text <$> absorbWarnings st))
    /\ first_sound lines first (render (absorbed st) lines)
    /\ (absorbWarnings st = [] -> absorbed st = edits).
Proof.
  intros Hne Hv lines st. unfold applyHashlineEdits. fold lines.
  rewrite bool_decide_false by done.
  assert (Hin : Forall (edit_in_file lines) edits).
  { eapply Forall_impl; [exact Hv|]. apply edit_valid_in_file. }
  apply validate_ok in Hv. fold lines in Hv. rewrite Hv. simpl. fold st.
  destruct (absorb_inv edits lines (allow_generic opts) Hin) as [_ _ Hs Hf]. fold st in Hs, Hf.
  destruct (apply_normalized_spec lines (absorbed st) Hf) as (os & first & -> & _ & Hfirst).
  exists first. split_and!; [done|done|]. intros Hw. rewrite (Hs Hw). by rewrite firstn_all.
Qed.

Lemma apply_ok_inv text edits opts r :
  applyHashlineEdits text edits opts = Ok r ->
  Forall (edit_valid (split_char LF text)) edits.
Proof.
  unfold applyHashlineEdits. case_bool_decide as Hn; [subst; constructor|].
  destruct (validateHashlineAnchors edits _) as [ms|] eqn:E; simpl; [|done].
  case_bool_decide; subst; [|done]. intros _. by apply validate_ok.
Qed.

Lemma render_nil lines : render [] lines = lines.
Proof. unfold render, render_body. simpl. apply concat_singletons. Qed.

(** C3: a batch is accepted exactly when every anchor names an existing line with
    its current hash.  Otherwise nothing is applied, and the error says why: the
    first anchor outside the file, or, when all lines exist, the list of all
    stale anchors with the hash each line has now. *)
Theorem apply_outcome text edits opts :
  let lines := split_char LF text in
  match applyHashlineEdits text edits opts with
  | Ok _ => Forall (edit_valid lines) edits
  | Err (LineDoesNotExist l n) =>
      exists pre a post, batch_anchors edits = pre ++ a :: post /\ Forall (in_file lines) pre
        /\ ~ in_file lines a /\ l = a_line a /\ n = arr_len lines
  | Err (MismatchError ms ls) =>
      Forall (in_file lines) (batch_anchors edits) /\ ls = lines
        /\ ms = stale_anchors lines (batch_anchors edits) /\ ms <> []
        /\ ~ Forall (edit_valid lines) edits
  | Err _ => False
  end.
Proof.
  intros lines. destruct (applyHashlineEdits text edits opts) as [r|e] eqn:Er;
    [by eapply apply_ok_inv|].
  revert Er. unfold applyHashlineEdits. fold lines. case_bool_decide; [done|].
  unfold validateHashlineAnchors. fold (batch_anchors edits).
  pose proof (validate_anchors_outcome lines (batch_anchors edits)) as Hv.
  destruct (validate_anchors lines (batch_anchors edits)) as [ms|e'] eqn:Em; simpl.
  - destruct Hv as [Hin ->]. case_bool_decide as Hms; [by case_match|]. intros [= <-].
    split_and!; [done|done|done|done|]. intros Hall%validate_ok.
    unfold validateHashlineAnchors in Hall. fold (batch_anchors edits) in Hall.
    congruence.
  - intros [= <-]. destruct Hv as (pre & a & post & ? & ? & ? & ->). eauto 10.
Qed.

(** C2: an accepted batch without absorption warnings has exactly its reference
    meaning: each line keeps its place unless it is deleted, the inserted texts
    stand in the gaps they were aimed at in the order of the batch. *)
Theorem apply_refines_render text edits opts r :
  applyHashlineEdits text edits opts = Ok r -> ar_warnings r = [] ->
  ar_lines r = join [LF] (render edits (split_char LF text)).
Proof.
  intros Hr Hw. destruct (decide (edits = [])) as [->|Hne].
  { injection Hr as <-. simpl. by rewrite render_nil, join_split. }
  destruct (apply_accepted text edits opts Hne (apply_ok_inv _ _ _ _ Hr)) as (first & Ha & _ & Hq).
  rewrite Ha in Hr. injection Hr as <-. simpl in *.
  apply fmap_nil_inv in Hw. by rewrite Hq.
Qed.

(** With or without warnings, the reported first changed line is sound: all
    lines above it are those of the file, and when no line is reported the file
    is unchanged. *)
Theorem apply_first_changed text edits opts r :
  applyHashlineEdits text edits opts = Ok r ->
  exists out, ar_lines r = join [LF] out
    /\ first_sound (split_char LF text) (ar_firstChangedLine r) out.
Proof.
  intros Hr. destruct (decide (edits = [])) as [->|Hne].
  { injection Hr as <-. simpl. exists (split_char LF text). by rewrite join_split. }
  destruct (apply_accepted text edits opts Hne (apply_ok_inv _ _ _ _ Hr)) as (first & Ha & Hf & _).
  rewrite Ha in Hr. injection Hr as <-. eauto.
Qed.

End outcome.

(** C5: the lines absorbed around a replacement are duplicates of its payload:
    they lie inside the file, the ones above equal the payload's first lines, the
    ones below its last lines, and no other edit of the batch targets them. *)
Theorem absorption_safe `{LineHasher} edits lines g startLine endLine p s :
  safe_counts edits lines g startLine endLine = (p, s) ->
  prefix_safe edits lines startLine (rg_replacement g) p
  /\ suffix_safe edits lines endLine (rg_replacement g) s.
Proof. apply safe_counts_sound. Qed.

(** ** Examples *)

(** A file of four lines, the last one empty, and two edits for it. *)
Definition sample_text : jsstring :=
  js "if (a) {" ++ [LF] ++ js "  one();" ++ [LF] ++ js "}" ++ [LF].

Definition sample_edits : list HashlineEdit :=
  [EInsert (AfterAnchor (mkAnchor 1 (js "sl") None)) (js "  zero();") 1 0;
   EDelete (mkAnchor 2 (js "lc") None) 3 1 None].

Lemma apply_refines_render_witness :
  exists r, applyHashlineEdits (H := sample_hasher) sample_text sample_edits (mkOptions None) = Ok r
    /\ ar_lines r = join [LF] (render sample_edits (split_char LF sample_text))
    /\ ar_lines r = js "if (a) {" ++ [LF] ++ js "  zero();" ++ [LF] ++ js "}" ++ [LF].
Proof.
  eexists. split; [vm_compute; reflexivity|]. split; [|vm_compute; reflexivity].
  eapply (apply_refines_render (H := sample_hasher)
    sample_text sample_edits (mkOptions None)); vm_compute; reflexivity.
Defined.

Lemma apply_first_changed_witness :
  exists r, applyHashlineEdits (H := sample_hasher) sample_text sample_edits (mkOptions None) = Ok r
    /\ ar_firstChangedLine r = Some 2%Z
    /\ exists out, ar_lines r = join [LF] out
         /\ first_sound (split_char LF sample_text) (ar_firstChangedLine r) out.
Proof.
  eexists. split; [vm_compute; reflexivity|]. split; [vm_compute; reflexivity|].
  eapply (apply_first_changed (H := sample_hasher)
    sample_text sample_edits (mkOptions None)); vm_compute; reflexivity.
Defined.

(** Replacing line 2 by two lines of which the second repeats line 3. *)
Lemma absorption_safe_witness :
  let edits := [EInsert (BeforeAnchor (mkAnchor 2 (js "lc") None)) (js "  two();") 1 0;
                EInsert (BeforeAnchor (mkAnchor 2 (js "lc") None)) (js "}") 1 1;
                EDelete (mkAnchor 2 (js "lc") None) 1 2 None] in
  let lines := split_char LF sample_text in
  let payload := [js "  two();"; js "}"] in
  findReplacementGroup edits 0
    = Some (mkReplacementGroup 0 2 1 payload [mkAnchor 2 (js "lc") None])
  /\ prefix_safe edits lines 2 payload 0 /\ suffix_safe edits lines 2 payload 1.
Proof.
  intros edits lines payload. split; [vm_compute; reflexivity|].
  apply (absorption_safe (H := sample_hasher) edits lines
    (mkReplacementGroup 0 2 1 payload [mkAnchor 2 (js "lc") None]) 2 2).
  vm_compute. reflexivity.
Defined.
