(* ===== verification/HashlineReplace.v ===== *)
(** * Replacing a range, from the diff text to the file

    One replacement followed through the parser, the validation, the absorption
    of duplicated neighbours and the application. *)

From S2P Require Import Prelude JsText LineHash HashlineTypes Anchors HashlineParser.
From S2P Require Import HashlineSyntax HashlineApply HashlineApplySpec HashlineApplyFacts.
From S2P Require Import HashlineContract.

(** ** Rendering a window *)

Lemma render_window_body n edits lo i hi payload (l : list jsstring) o :
  lo <= i <= hi -> 1 <= lo ->
  (forall m, texts_at n (SBefore (Z.of_nat m)) edits = if (m =? i)%nat then payload else []) ->
  (forall m, deletes_line (Z.of_nat m) edits = (lo <=? m)%nat && (m <=? hi)%nat) ->
  concat (imap (fun k x => render_line n edits (o + k) x) l)
  = take (lo - 1 - o) l
      ++ (if (o <? i)%nat && (i <=? o + length l)%nat then payload else []) ++ drop (hi - o) l.
Proof.
  intros Hr Hlo Ht Hd. revert o. induction l as [|x l IH]; intros o.
  - rewrite take_nil, drop_nil. simpl.
    destruct (Nat.ltb_spec o i), (Nat.leb_spec i (o + 0)); simpl; done || lia.
  - rewrite imap_cons. cbn [concat].
    rewrite (imap_ext _ (fun k y => render_line n edits (S o + k) y)) by (intros; simpl; f_equal; lia).
    rewrite IH. unfold render_line.
    replace (Z.of_nat (o + 0) + 1)%Z with (Z.of_nat (S o)) by lia. rewrite Ht, Hd.
    rewrite length_cons.
    destruct (Nat.eqb_spec (S o) i), (Nat.leb_spec lo (S o)), (Nat.leb_spec (S o) hi);
      try lia; cbn [andb app];
      destruct (Nat.ltb_spec o i), (Nat.ltb_spec (S o) i); try lia; cbn [andb];
      replace (S o + length l) with (o + S (length l)) by lia;
      try (replace (lo - 1 - o) with 0 by lia; replace (lo - 1 - S o) with 0 by lia);
      try (replace (lo - 1 - o) with (S (lo - 1 - S o)) by lia);
      try (replace (hi - o) with (S (hi - S o)) by lia);
      try (replace (hi - o) with 0 by lia; replace (hi - S o) with 0 by lia);
      cbn [take drop app]; rewrite ?app_nil_r; try done.
    destruct (Nat.leb_spec i (o + S (length l))); [done|lia].
Qed.

Lemma render_window edits (lines : list jsstring) lo i hi payload :
  let n := arr_len lines in
  1 <= lo -> lo <= i <= hi -> hi <= length lines ->
  texts_at n SBof edits = [] -> texts_at n SEof edits = [] ->
  (forall m, texts_at n (SBefore m) edits = if (m =? Z.of_nat i)%Z then payload else []) ->
  (forall m, deletes_line m edits = (Z.of_nat lo <=? m)%Z && (m <=? Z.of_nat hi)%Z) ->
  render edits lines = take (lo - 1) lines ++ payload ++ drop hi lines.
Proof.
  intros n Hlo Hi Hhi Hb He Ht Hd. unfold render. fold n. rewrite Hb, He.
  unfold add_end, add_start. rewrite !bool_decide_true by done. unfold render_body.
  rewrite (imap_ext _ (fun k y => render_line n edits (0 + k) y)) by done.
  rewrite (render_window_body n edits lo i hi payload); [|done|done| |].
  2:{ intros m. rewrite Ht.
      destruct (Z.eqb_spec (Z.of_nat m) (Z.of_nat i)), (Nat.eqb_spec m i); done || lia. }
  2:{ intros m. rewrite Hd. f_equal.
      - destruct (Z.leb_spec (Z.of_nat lo) (Z.of_nat m)), (Nat.leb_spec lo m); done || lia.
      - destruct (Z.leb_spec (Z.of_nat m) (Z.of_nat hi)), (Nat.leb_spec m hi); done || lia. }
  rewrite !Nat.sub_0_r. destruct (Nat.ltb_spec 0 i), (Nat.leb_spec i (0 + length lines));
    simpl in *; done || lia.
Qed.

(** ** The lines a batch deletes *)

Definition deleted_lines (edits : list HashlineEdit) : list Z :=
  edits ≫= fun e => match e with EDelete a _ _ _ => [a_line a] | EInsert _ _ _ _ => [] end.

Lemma deletes_line_elem m edits : deletes_line m edits = bool_decide (m ∈ deleted_lines edits).
Proof.
  apply eq_bool_prop_intro. rewrite bool_decide_spec. unfold deletes_line.
  induction edits as [|[c t ? ?|a ? ? ?] edits IH]; simpl.
  - split; [done|]. by intros ?%elem_of_nil.
  - exact IH.
  - rewrite elem_of_cons, <- IH, orb_True. destruct (Z.eqb_spec (a_line a) m); naive_solver.
Qed.

Lemma deleted_app l1 l2 : deleted_lines (l1 ++ l2) = deleted_lines l1 ++ deleted_lines l2.
Proof. apply bind_app. Qed.

Lemma imap_inserts_spec n s c lineNum (k : nat -> Z) texts :
  let es := imap (fun i t => EInsert (cloneCursor c) t lineNum (k i)) texts in
  deleted_lines es = [] /\
  texts_at n s es = if bool_decide (cursor_slot n c = s) then texts else [].
Proof.
  revert k. induction texts as [|t texts IH]; intros k es; [by case_bool_decide|].
  destruct (IH (fun i => k (S i))) as [Hd Ht]. unfold es. rewrite imap_cons. split; [exact Hd|].
  rewrite texts_at_cons.
  change (texts_at n s (imap (fun i t => EInsert (cloneCursor c) t lineNum (k (S i))) texts)
          = (if bool_decide (cursor_slot n c = s) then texts else [])) in Ht.
  unfold compose. rewrite Ht. simpl. rewrite cloneCursor_id. by case_bool_decide.
Qed.

Lemma imap_deletes_spec {A} n s (mk : nat -> A -> HashlineEdit) (line : A -> Z) xs :
  (forall i x, exists a m k o, mk i x = EDelete a m k o /\ a_line a = line x) ->
  deleted_lines (imap mk xs) = line <$> xs /\ texts_at n s (imap mk xs) = [].
Proof.
  revert mk. induction xs as [|x xs IH]; intros mk Hmk; [done|].
  rewrite imap_cons. destruct (Hmk 0 x) as (a & m & k & o & E & Ha).
  destruct (IH (mk ∘ S)) as [Hd Ht]; [intros; apply Hmk|].
  rewrite texts_at_cons, E. cbn [deleted_lines]. split; [|exact Ht].
  change (a_line a :: deleted_lines (imap (mk ∘ S) xs) = line x :: (line <$> xs)).
  by rewrite Ha, Hd.
Qed.

(** ** The group of one replacement *)

Lemma consecutive_fmap (f : Z -> Anchor) start c :
  (forall x, a_line (f x) = x) ->
  consecutive start (f <$> contiguousRange start c) = true.
Proof.
  intros Hf. unfold contiguousRange. rewrite <- list_fmap_compose.
  assert (Hg : forall s, consecutive (start + Z.of_nat s)
      ((f ∘ (fun offset => start + Z.of_nat offset)%Z) <$> seq s c) = true).
  { induction c as [|c IH]; intros s; [done|]. simpl. rewrite Hf, Z.eqb_refl. simpl.
    replace (start + Z.of_nat s + 1)%Z with (start + Z.of_nat (S s))%Z by lia. apply IH. }
  specialize (Hg 0). by rewrite Z.add_0_r in Hg.
Qed.

Lemma int_range_contiguous lo hi :
  int_range lo hi = contiguousRange lo (Z.to_nat (hi - lo + 1)).
Proof. done. Qed.

Section one_group.
Variables (a1 a2 : Anchor) (n0 k : Z) (payload : list jsstring).
Hypotheses (Horder : (a_line a1 <= a_line a2)%Z) (Hpayload : payload <> []).

Let anchors := expandRange (mkRange a1 a2).

Definition replacement_edits : list HashlineEdit :=
  push_inserts (BeforeAnchor a1) n0 k payload
    ++ push_deletes (expandRange (mkRange a1 a2)) n0 (k + arr_len payload).

Definition replacement_group : HashlineReplacementGroup :=
  mkReplacementGroup 0 (length replacement_edits - 1) n0 payload (expandRange (mkRange a1 a2)).

Lemma anchors_lines : a_line <$> anchors = int_range (a_line a1) (a_line a2).
Proof.
  unfold anchors, expandRange. rewrite <- list_fmap_compose. simpl.
  rewrite <- (list_fmap_id (int_range _ _)) at 2. by apply list_fmap_ext.
Qed.

Lemma anchors_cons : exists rest, anchors = mkAnchor (a_line a1) (a_hash a1) None :: rest.
Proof.
  unfold anchors, expandRange, int_range. simpl.
  replace (Z.to_nat (a_line a2 - a_line a1 + 1))
    with (S (Z.to_nat (a_line a2 - a_line a1))) by lia.
  eexists. cbn [seq fmap list_fmap]. rewrite Z.add_0_r, Z.eqb_refl. done.
Qed.

Lemma anchors_last : exists a, last anchors = Some a /\ a_line a = a_line a2.
Proof.
  unfold anchors, expandRange, int_range. simpl.
  replace (Z.to_nat (a_line a2 - a_line a1 + 1))
    with (Z.to_nat (a_line a2 - a_line a1) + 1) by lia.
  rewrite seq_app, !fmap_app. simpl. rewrite last_snoc. eexists. split; [done|]. simpl. lia.
Qed.

Lemma insert_texts_inserts i c texts n : push_inserts c n i texts ≫= insert_text = texts.
Proof.
  unfold push_inserts. revert i. induction texts as [|t texts IH]; intros i; [done|].
  rewrite imap_cons. simpl. f_equal. rewrite <- (IH (i + 1)%Z) at 2. f_equal.
  apply imap_ext. intros. simpl. f_equal. lia.
Qed.

Lemma delete_anchors_deletes i l n : push_deletes l n i ≫= delete_anchor = l.
Proof.
  unfold push_deletes. revert i. induction l as [|a l IH]; intros i; [done|].
  rewrite imap_cons. simpl. f_equal. rewrite <- (IH (i + 1)%Z) at 2. f_equal.
  apply imap_ext. intros. simpl. f_equal. lia.
Qed.

Lemma find_replacement : findReplacementGroup replacement_edits 0 = Some replacement_group.
Proof.
  unfold findReplacementGroup. rewrite drop_0.
  assert (exists t ts, replacement_edits = EInsert (BeforeAnchor a1) t n0 k :: ts) as (t & ts & E).
  { unfold replacement_edits. destruct payload as [|t p]; [done|]. eexists t, _.
    unfold push_inserts. rewrite imap_cons, Z.add_0_r, cloneCursor_id. done. }
  rewrite E at 1. unfold replacement_edits at 1. fold anchors.
  destruct anchors_cons as [rest Hc].
  rewrite span_prefix.
  2:{ apply Forall_lookup. intros i e. unfold push_inserts. rewrite list_lookup_imap.
      intros (x & _ & ->)%fmap_Some. rewrite cloneCursor_id. simpl. apply Z.eqb_refl. }
  2:{ unfold push_deletes. by rewrite Hc, imap_cons. }
  rewrite span_all.
  2:{ apply Forall_lookup. intros i e. unfold push_deletes. rewrite list_lookup_imap.
      intros (x & _ & ->)%fmap_Some. simpl. apply Z.eqb_refl. }
  rewrite delete_anchors_deletes, insert_texts_inserts.
  assert (Hcons : consecutive (a_line a1) anchors = true).
  { unfold anchors, expandRange. rewrite int_range_contiguous. by apply consecutive_fmap. }
  unfold replacement_group. fold anchors.
  assert (Hlen : length replacement_edits = length (push_inserts (BeforeAnchor a1) n0 k payload)
            + length (push_deletes anchors n0 (k + arr_len payload))).
  { unfold replacement_edits. by rewrite length_app. }
  rewrite Hlen. rewrite Hc in *. cbn [a_line] in *. rewrite Hcons. by rewrite Z.eqb_refl.
Qed.

Lemma absorb_one_replacement `{LineHasher} lines allow :
  absorbReplacementBoundaryDuplicates replacement_edits lines allow
  = absorb_replacement replacement_edits lines replacement_group
      (mkAbsorb (arr_len replacement_edits) [] [] []).
Proof.
  unfold absorbReplacementBoundaryDuplicates.
  assert (Hlen : length replacement_edits <> 0).
  { unfold replacement_edits, push_inserts. rewrite length_app, length_imap.
    destruct payload; [done|]. simpl. lia. }
  destruct (length replacement_edits) as [|f] eqn:El; [done|]. cbn [absorb_loop].
  destruct (replacement_edits !! 0) as [e|] eqn:E0.
  2:{ apply lookup_ge_None in E0. lia. }
  unfold absorb_step. rewrite find_replacement. simpl rg_endIndex.
  rewrite El. replace (S (S f - 1)) with (S f) by lia.
  destruct f; simpl; [done|]. rewrite (lookup_ge_None_2 replacement_edits) by lia. done.
Qed.

End one_group.

(** ** The effect on the file *)

Section effect.
Context `{LineHasher}.
Variables (a1 a2 : Anchor) (n0 k : Z) (payload lines : list jsstring) (allow : bool).
Hypotheses (Hlo : (1 <= a_line a1)%Z) (Horder : (a_line a1 <= a_line a2)%Z)
  (Hhi : (a_line a2 <= arr_len lines)%Z) (Hpayload : payload <> []).

Let edits := replacement_edits a1 a2 n0 k payload.
Let st := absorbReplacementBoundaryDuplicates edits lines allow.

(** Some edits [d1] above and [d2] below the batch, all deletions. *)
Lemma absorbed_one_replacement :
  exists p s d1 d2,
    safe_counts edits lines (replacement_group a1 a2 n0 k payload) (a_line a1) (a_line a2) = (p, s)
    /\ absorbed st = d1 ++ edits ++ d2
    /\ (absorbWarnings st = [] <-> p = 0 /\ s = 0)
    /\ (forall n sl, deleted_lines d1 = contiguousRange (a_line a1 - Z.of_nat p) p
          /\ deleted_lines d2 = contiguousRange (a_line a2 + 1) s
          /\ texts_at n sl d1 = [] /\ texts_at n sl d2 = []).
Proof.
  unfold st, edits. rewrite absorb_one_replacement by done. unfold absorb_replacement.
  destruct (anchors_cons a1 a2 Horder) as [rest Hc]. simpl in Hc.
  destruct (anchors_last a1 a2 Horder) as (al & Hl & Hal). simpl in Hl.
  simpl rg_deletes. rewrite Hl, Hc. cbn [a_line]. rewrite Hal. fold edits.
  destruct (safe_counts _ _ _ _ _) as [p s]. set (st0 := mkAbsorb _ [] [] []).
  set (st1 := if (0 <? p) then _ else st0). set (st2 := if (0 <? s) then _ else st1).
  set (del := fun line i => deleteEditForAutoAbsorbedLine line _ i lines).
  assert (H1 : quiet st1 /\ absorbed st1 = [] /\ (p <> 0 -> absorbWarnings st1 <> [])).
  { by apply (emit_if PrefixKey p n0). }
  destruct H1 as (Hq1 & Ha1 & Hw1).
  assert (H2 : quiet st2 /\ absorbed st2 = absorbed st1 /\ (s <> 0 -> absorbWarnings st2 <> [])).
  { by apply (emit_if SuffixKey s n0). }
  destruct H2 as (_ & Ha2 & Hw2).
  destruct (push_synthetic_spec del (contiguousRange (a_line a1 - Z.of_nat p) p) st2)
    as (Ha3 & _ & Hw3). set (st3 := push_synthetic del _ st2) in *.
  set (st4 := push_edits _ st3).
  destruct (push_synthetic_spec del (contiguousRange (a_line a2 + 1) s) st4) as (Ha5 & _ & Hw5).
  assert (Ha4 : absorbed st4 = absorbed st3 ++ edits).
  { unfold st4, push_edits, group_edits, slice. cbn [absorbed]. f_equal.
    apply firstn_all2. simpl. fold edits. lia. }
  eexists p, s, _, _. split_and!; [done| | |].
  - by rewrite Ha5, Ha4, Ha3, Ha2, Ha1, app_nil_l, <- (assoc_L app).
  - rewrite Hw5. change (absorbWarnings st4) with (absorbWarnings st3). rewrite Hw3.
    destruct (decide (p = 0 /\ s = 0)) as [[-> ->]|Hps]; [done|]. split; [|done].
    intros Hw. exfalso. assert (s = 0) by (destruct (decide (s = 0)); [done|by apply Hw2 in Hw]).
    subst s. apply Hw1; [lia|]. exact Hw.
  - intros n sl. assert (Hdel : forall m (i : nat) (x : Z), exists a m' k' o,
        del x (m + Z.of_nat i)%Z = EDelete a m' k' o /\ a_line a = id x) by (intros; by eexists _, _, _, _).
    destruct (imap_deletes_spec n sl _ id (contiguousRange (a_line a1 - Z.of_nat p) p)
                (Hdel (nextSyntheticIndex st2))) as [-> ->].
    destruct (imap_deletes_spec n sl _ id (contiguousRange (a_line a2 + 1) s)
                (Hdel (nextSyntheticIndex st4))) as [-> ->].
    by rewrite !list_fmap_id.
Qed.

Lemma replacement_deleted :
  deleted_lines edits = contiguousRange (a_line a1) (Z.to_nat (a_line a2 - a_line a1 + 1)).
Proof.
  unfold edits, replacement_edits. rewrite deleted_app.
  destruct (imap_inserts_spec 0 SBof (BeforeAnchor a1) n0 (fun i => k + Z.of_nat i)%Z payload) as [Hd _].
  destruct (imap_deletes_spec 0 SBof
              (fun i a => EDelete a n0 (k + arr_len payload + Z.of_nat i) None) a_line
              (expandRange (mkRange a1 a2))) as [Hd2 _]; [intros; by eexists _, _, _, _|].
  etransitivity; [exact (f_equal2 app Hd Hd2)|]. apply anchors_lines.
Qed.

Lemma replacement_texts n sl :
  texts_at n sl edits = if bool_decide (SBefore (a_line a1) = sl) then payload else [].
Proof.
  unfold edits, replacement_edits. rewrite texts_at_app.
  destruct (imap_inserts_spec n sl (BeforeAnchor a1) n0 (fun i => k + Z.of_nat i)%Z payload) as [_ Ht].
  destruct (imap_deletes_spec n sl
              (fun i a => EDelete a n0 (k + arr_len payload + Z.of_nat i) None) a_line
              (expandRange (mkRange a1 a2))) as [_ Ht2]; [intros; by eexists _, _, _, _|].
  etransitivity; [exact (f_equal2 app Ht Ht2)|]. apply app_nil_r.
Qed.

Lemma render_one_replacement :
  exists p s, prefix_safe edits lines (a_line a1) payload p
    /\ suffix_safe edits lines (a_line a2) payload s
    /\ (absorbWarnings st = [] <-> p = 0 /\ s = 0)
    /\ render (absorbed st) lines
       = take (Z.to_nat (a_line a1 - 1) - p) lines ++ payload
           ++ drop (Z.to_nat (a_line a2) + s) lines.
Proof.
  destruct absorbed_one_replacement as (p & s & d1 & d2 & Hps & Ha & Hw & Hd).
  apply safe_counts_sound in Hps as [Hp Hs]. exists p, s. split_and!; [done|done|apply Hw..|].
  destruct Hp as [Hp _], Hs as [Hs _].
  assert (Ht : forall n sl, texts_at n sl (absorbed st)
            = if bool_decide (SBefore (a_line a1) = sl) then payload else []).
  { intros n sl. destruct (Hd n sl) as (_ & _ & Ht1 & Ht2).
    by rewrite Ha, !texts_at_app, Ht1, Ht2, replacement_texts, app_nil_r. }
  rewrite (render_window _ _ (Z.to_nat (a_line a1) - p) (Z.to_nat (a_line a1))
             (Z.to_nat (a_line a2) + s) payload).
  - do 2 f_equal. lia.
  - lia.
  - lia.
  - unfold arr_len in *. lia.
  - rewrite Ht. by rewrite bool_decide_false.
  - rewrite Ht. by rewrite bool_decide_false.
  - intros m. rewrite Ht. destruct (Z.eqb_spec m (Z.of_nat (Z.to_nat (a_line a1)))).
    + rewrite bool_decide_true; [done|]. f_equal. lia.
    + rewrite bool_decide_false; [done|]. intros [=]. lia.
  - intros m. rewrite deletes_line_elem, Ha, !deleted_app.
    destruct (Hd 0%Z SBof) as (-> & -> & _). rewrite replacement_deleted.
    apply eq_bool_prop_intro. rewrite bool_decide_spec, andb_True, !elem_of_app, !elem_of_contiguous.
    rewrite !Is_true_true, !Z.leb_le. lia.
Qed.

End effect.

Definition anchor_of `{LineHasher} (lines : list jsstring) (i : Z) : jsstring :=
  computeLineHash i (line_at lines i).

(** The replacement of lines [i..j] by [payload], with the anchors of a read. *)
Definition replace_op `{LineHasher} (lines : list jsstring) (i j : Z) (payload : list jsstring)
    : hl_op :=
  OpReplace i (anchor_of lines i) j (anchor_of lines j) payload.

Lemma replace_op_wf `{LineHasher} lines i j payload :
  (1 <= i <= j)%Z -> Forall wf_payload_line payload -> wf_op (replace_op lines i j payload).
Proof.
  intros. unfold replace_op, anchor_of. split_and!; try apply computeLineHash_bigram; try lia.
  - by intros ->.
  - done.
Qed.

Lemma replacement_valid `{LineHasher} (lines : list jsstring) i j payload n0 k :
  (1 <= i <= j)%Z -> (j <= arr_len lines)%Z ->
  Forall (edit_valid lines)
    (replacement_edits (mkAnchor i (anchor_of lines i) None) (mkAnchor j (anchor_of lines j) None)
       n0 k payload).
Proof.
  intros Hij Hj. apply Forall_app; split; apply Forall_lookup; intros m e;
    [unfold push_inserts|unfold push_deletes]; rewrite list_lookup_imap;
    intros (x & Hx & ->)%fmap_Some.
  - rewrite cloneCursor_id. apply Forall_singleton. split; [unfold in_file; simpl; lia|by right].
  - apply list_elem_of_lookup_2 in Hx. unfold expandRange in Hx.
    apply list_elem_of_fmap in Hx as (l & -> & Hl%elem_of_int_range). simpl in Hl.
    apply Forall_singleton. split; [unfold in_file; simpl; lia|]. unfold anchor_of. simpl.
    destruct (Z.eqb_spec l i) as [->|]; [by right|].
    destruct (Z.eqb_spec l j) as [->|]; [by right|by left].
Qed.

(** C1: replacing a range works as meant from the diff text on: write the
    replacement of lines [i..j] with the hashes the file has; it parses without a
    warning, it is accepted, and the file becomes the lines before, the payload
    and the lines after.  The only liberty is that [p] lines above and [s] lines
    below go away when they repeat the payload's first [p] and last [s] lines; the
    result has no warning exactly when neither happens. *)
Theorem replace_range_end_to_end `{LineHasher} text i j payload opts :
  let lines := split_char LF text in
  (1 <= i <= j)%Z -> (j <= arr_len lines)%Z ->
  payload <> [] -> Forall wf_payload_line payload ->
  exists edits r p s,
    parseHashlineWithWarnings (write_diff [replace_op lines i j payload]) = Ok (edits, [])
    /\ applyHashlineEdits text edits opts = Ok r
    /\ ar_lines r = join [LF] (take (Z.to_nat (i - 1) - p) lines ++ payload
                                 ++ drop (Z.to_nat j + s) lines)
    /\ prefix_safe edits lines i payload p /\ suffix_safe edits lines j payload s
    /\ (ar_warnings r = [] <-> p = 0 /\ s = 0).
Proof.
  intros lines Hij Hj Hne Hwf.
  pose proof (parse_write_diff [replace_op lines i j payload]) as Hparse.
  specialize (Hparse (proj2 (Forall_singleton _ _) (replace_op_wf lines i j payload Hij Hwf))).
  cbn [diff_edits] in Hparse. rewrite app_nil_r in Hparse.
  pose proof (replacement_valid lines i j payload (0 + 1) 0 Hij Hj) as Hv.
  destruct (render_one_replacement (mkAnchor i (anchor_of lines i) None)
              (mkAnchor j (anchor_of lines j) None) (0 + 1) 0 payload lines (allow_generic opts))
    as (p & s & Hp & Hs & Hw & Hren); [simpl; lia..|done|].
  set (edits := replacement_edits _ _ _ _ _) in *.
  assert (edits <> []) as Hen by (unfold edits, replacement_edits, push_inserts; by destruct payload).
  destruct (apply_accepted text edits opts Hen Hv) as (first & Ha & _).
  eexists edits, _, p, s.
  refine (conj Hparse (conj Ha (conj _ (conj Hp (conj Hs _))))); cbn [ar_lines ar_warnings].
  - f_equal. exact Hren.
  - rewrite <- Hw. split; [apply fmap_nil_inv|]. intros E. fold lines. by rewrite E.
Qed.

Lemma replace_range_end_to_end_witness :
  exists edits r p s,
    parseHashlineWithWarnings (H := sample_hasher)
      (write_diff [replace_op (H := sample_hasher) (split_char LF sample_text) 2 2
                     [js "  two();"; js "}"]]) = Ok (edits, [])
    /\ applyHashlineEdits (H := sample_hasher) sample_text edits (mkOptions None) = Ok r
    /\ ar_lines r = join [LF] (take (Z.to_nat (2 - 1) - p) (split_char LF sample_text)
         ++ [js "  two();"; js "}"] ++ drop (Z.to_nat 2 + s) (split_char LF sample_text))
    /\ prefix_safe edits (split_char LF sample_text) 2 [js "  two();"; js "}"] p
    /\ suffix_safe edits (split_char LF sample_text) 2 [js "  two();"; js "}"] s
    /\ (ar_warnings r = [] <-> p = 0 /\ s = 0).
Proof.
  apply (replace_range_end_to_end (H := sample_hasher) sample_text 2 2
           [js "  two();"; js "}"] (mkOptions None)).
  - lia.
  - vm_compute. discriminate.
  - discriminate.
  - repeat constructor; vm_compute; discriminate.
Defined.
