(* ===== verification/FileReadCache.v ===== *)
(** * The cache of file reads (edit/file-read-cache.ts)

    The session remembers, per path, the lines the model was shown.  The snapshots
    live in an LRU cache of a library, a parameter given by its laws
    ([SnapshotStore]); a snapshot is an object that is updated in place, so the
    cache holds locations in [heap]. *)

From S2P Require Import Prelude.

Record FileReadSnapshot := mkSnap { sn_lines : gmap Z jsstring; sn_recordedAt : Z }.

Definition loc := nat.

(** The LRU cache: [get] may reorder the entries, [set] may evict others. *)
Class SnapshotStore := {
  lru : Type;
  lru_empty : lru;
  lru_get : lru -> jsstring -> option loc * lru;
  lru_set : lru -> jsstring -> loc -> lru;
  lru_delete : lru -> jsstring -> lru;
  lru_clear : lru -> lru
}.

Definition lru_lookup `{SnapshotStore} (c : lru) (k : jsstring) : option loc := (lru_get c k).1.

Class SnapshotStoreLaws `{SnapshotStore} := {
  lru_get_same c k k' : lru_lookup (lru_get c k).2 k' = lru_lookup c k';
  lru_set_same c k l : lru_lookup (lru_set c k l) k = Some l;
  lru_set_other c k l k' :
    k' <> k -> lru_lookup (lru_set c k l) k' = lru_lookup c k' \/ lru_lookup (lru_set c k l) k' = None;
  lru_delete_same c k : lru_lookup (lru_delete c k) k = None;
  lru_delete_other c k k' : k' <> k -> lru_lookup (lru_delete c k) k' = lru_lookup c k';
  lru_clear_all c k : lru_lookup (lru_clear c) k = None;
  lru_empty_all k : lru_lookup lru_empty k = None
}.

Section cache.
Context `{SnapshotStore}.

Record FileReadCache := mkCache {
  fc_snapshots : lru;
  fc_heap : gmap loc FileReadSnapshot;
  fc_next : loc
}.

Definition new_cache : FileReadCache := mkCache lru_empty ∅ 0.

Definition cache_get (absPath : jsstring) (c : FileReadCache)
    : option FileReadSnapshot * FileReadCache :=
  (lru_lookup (fc_snapshots c) absPath ≫= fun l => fc_heap c !! l,
   mkCache (lru_get (fc_snapshots c) absPath).2 (fc_heap c) (fc_next c)).

(** [new Map(entries)], and [map.set] for each entry: a later entry wins. *)
Definition set_all (m : gmap Z jsstring) (entries : list (Z * jsstring)) : gmap Z jsstring :=
  fold_left (fun m e => <[e.1 := e.2]> m) entries m.

Definition hasConflict (existing : gmap Z jsstring) (incoming : list (Z * jsstring)) : bool :=
  existsb (fun e => match existing !! e.1 with
                    | Some prior => negb (bool_decide (prior = e.2))
                    | None => false
                    end) incoming.

(** [this.#snapshots.set(absPath, { lines, recordedAt })]: a new object. *)
Definition set_fresh (absPath : jsstring) (s : FileReadSnapshot) (c : FileReadCache) : FileReadCache :=
  mkCache (lru_set (fc_snapshots c) absPath (fc_next c)) (<[fc_next c := s]> (fc_heap c))
    (S (fc_next c)).

Definition record_entries (absPath : jsstring) (entries : list (Z * jsstring)) (now : Z)
    (c : FileReadCache) : FileReadCache :=
  let snapshots := (lru_get (fc_snapshots c) absPath).2 in
  let c1 := mkCache snapshots (fc_heap c) (fc_next c) in
  let fresh := set_fresh absPath (mkSnap (set_all ∅ entries) now) c1 in
  match lru_lookup (fc_snapshots c) absPath with
  | None => fresh
  | Some l =>
      match fc_heap c !! l with
      | None => fresh
      | Some existing =>
          if hasConflict (sn_lines existing) entries then fresh
          else mkCache snapshots
                 (<[l := mkSnap (set_all (sn_lines existing) entries) now]> (fc_heap c)) (fc_next c)
      end
  end.

Definition recordContiguous (absPath : jsstring) (startLine : Z) (lines : list jsstring) (now : Z)
    (c : FileReadCache) : FileReadCache :=
  if bool_decide (lines = []) then c
  else record_entries absPath (imap (fun idx line => (startLine + Z.of_nat idx, line)%Z) lines) now c.

Definition recordSparse (absPath : jsstring) (entries : list (Z * jsstring)) (now : Z)
    (c : FileReadCache) : FileReadCache :=
  if bool_decide (entries = []) then c else record_entries absPath entries now c.

Definition invalidate (absPath : jsstring) (c : FileReadCache) : FileReadCache :=
  mkCache (lru_delete (fc_snapshots c) absPath) (fc_heap c) (fc_next c).

Definition clear (c : FileReadCache) : FileReadCache :=
  mkCache (lru_clear (fc_snapshots c)) (fc_heap c) (fc_next c).

(** ** The invariant: paths do not share snapshots *)

Definition snapshot_of (c : FileReadCache) (k : jsstring) : option FileReadSnapshot :=
  lru_lookup (fc_snapshots c) k ≫= fun l => fc_heap c !! l.

Record cache_wf (c : FileReadCache) : Prop := {
  wf_alloc k l : lru_lookup (fc_snapshots c) k = Some l ->
    (l < fc_next c)%nat /\ is_Some (fc_heap c !! l);
  wf_inj k1 k2 l : lru_lookup (fc_snapshots c) k1 = Some l ->
    lru_lookup (fc_snapshots c) k2 = Some l -> k1 = k2
}.

Context `{!SnapshotStoreLaws}.

Lemma new_cache_wf : cache_wf new_cache.
Proof. split; simpl; intros *; by rewrite lru_empty_all. Qed.

Lemma lookup_after_get c k k' :
  lru_lookup (lru_get (fc_snapshots c) k).2 k' = lru_lookup (fc_snapshots c) k'.
Proof. apply lru_get_same. Qed.

Lemma set_all_lookup m entries n :
  set_all m entries !! n
  = match last (List.filter (fun e => (e.1 =? n)%Z) entries) with
    | Some e => Some e.2
    | None => m !! n
    end.
Proof.
  unfold set_all. revert m. induction entries as [|[k v] entries IH]; intros m; [done|].
  simpl. rewrite IH. destruct (Z.eqb_spec k n) as [->|Hne].
  - destruct (List.filter _ entries) as [|e l]; simpl.
    + by rewrite lookup_insert_eq.
    + destruct (last (e :: l)) eqn:E; [done|]. by apply last_None in E.
  - case_match; [done|]. by rewrite lookup_insert_ne.
Qed.

(** A fresh snapshot for one path. *)
Lemma set_fresh_spec k s c :
  cache_wf c -> cache_wf (set_fresh k s c) /\ snapshot_of (set_fresh k s c) k = Some s
  /\ forall k', k' <> k -> snapshot_of (set_fresh k s c) k' = snapshot_of c k'
                          \/ snapshot_of (set_fresh k s c) k' = None.
Proof.
  intros [Hall Hinj]. split_and!.
  - split; simpl.
    + intros k' l Hl. destruct (decide (k' = k)) as [->|Hne].
      * rewrite lru_set_same in Hl. injection Hl as <-. rewrite lookup_insert_eq. split; [lia|done].
      * destruct (lru_set_other (fc_snapshots c) k (fc_next c) k' Hne) as [E|E]; rewrite E in Hl; [|done].
        destruct (Hall _ _ Hl) as [Hlt Hs]. rewrite lookup_insert_ne by lia. split; [lia|done].
    + intros k1 k2 l. assert (Hcase : forall k', lru_lookup (lru_set (fc_snapshots c) k (fc_next c)) k'
        = Some l -> k' = k /\ l = fc_next c \/ k' <> k /\ lru_lookup (fc_snapshots c) k' = Some l).
      { intros k' Hl. destruct (decide (k' = k)) as [->|Hne].
        - rewrite lru_set_same in Hl. left. by simplify_eq.
        - right. split; [done|].
          destruct (lru_set_other (fc_snapshots c) k (fc_next c) k' Hne); congruence. }
      intros [[-> ->]|[? Hl1]]%Hcase [[-> E]|[? Hl2]]%Hcase; subst; try done.
      * destruct (Hall _ _ Hl2). lia.
      * destruct (Hall _ _ Hl1). lia.
      * by eapply Hinj.
  - unfold snapshot_of. simpl. rewrite lru_set_same. simpl. by rewrite lookup_insert_eq.
  - intros k' Hne. unfold snapshot_of. simpl.
    destruct (lru_set_other (fc_snapshots c) k (fc_next c) k' Hne) as [-> | ->]; [left|by right].
    destruct (lru_lookup (fc_snapshots c) k') as [l|] eqn:El; [|done]. simpl.
    destruct (Hall _ _ El). by rewrite lookup_insert_ne by lia.
Qed.

Lemma wf_get c k :
  cache_wf c -> cache_wf (mkCache (lru_get (fc_snapshots c) k).2 (fc_heap c) (fc_next c)).
Proof.
  intros [Hall Hinj]. split; simpl; intros *; rewrite ?lookup_after_get; eauto.
Qed.

Lemma record_spec k entries now c :
  cache_wf c ->
  let c' := record_entries k entries now c in
  let merged := match snapshot_of c k with
                | Some s => if hasConflict (sn_lines s) entries then ∅ else sn_lines s
                | None => ∅
                end in
  cache_wf c' /\ snapshot_of c' k = Some (mkSnap (set_all merged entries) now)
  /\ forall k', k' <> k -> snapshot_of c' k' = snapshot_of c k' \/ snapshot_of c' k' = None.
Proof.
  intros Hwf c' merged. pose proof (wf_get c k Hwf) as Hwf1.
  set (c1 := mkCache _ _ _) in Hwf1.
  assert (Hc1 : forall k', snapshot_of c1 k' = snapshot_of c k').
  { intros k'. unfold snapshot_of. simpl. by rewrite lookup_after_get. }
  assert (Hfresh : forall s, let c2 := set_fresh k s c1 in
    cache_wf c2 /\ snapshot_of c2 k = Some s
    /\ forall k', k' <> k -> snapshot_of c2 k' = snapshot_of c k' \/ snapshot_of c2 k' = None).
  { intros s c2. destruct (set_fresh_spec k s c1 Hwf1) as (? & ? & Ho). split_and!; [done|done|].
    intros k'. rewrite <- Hc1. apply Ho. }
  unfold c', record_entries, merged. fold c1.
  assert (snapshot_of c k = match lru_lookup (fc_snapshots c) k with
                            | Some l => fc_heap c !! l | None => None end) as ->.
  { unfold snapshot_of. by destruct (lru_lookup _ k). }
  destruct (lru_lookup (fc_snapshots c) k) as [l|] eqn:El; simpl; [|by apply Hfresh].
  destruct (fc_heap c !! l) as [s|] eqn:Es; [|by apply Hfresh].
  destruct (hasConflict (sn_lines s) entries); [by apply Hfresh|].
  destruct Hwf1 as [Hall1 Hinj1]. split_and!.
  - split; simpl.
    + intros k' l' Hl'. destruct (Hall1 _ _ Hl') as [Hlt Hs]. split; [done|]. simpl in *.
      destruct (decide (l' = l)) as [->|]; [by rewrite lookup_insert_eq|by rewrite lookup_insert_ne].
    + intros *. apply Hinj1.
  - unfold snapshot_of. simpl. rewrite lookup_after_get, El. simpl. by rewrite lookup_insert_eq.
  - intros k' Hne. left. unfold snapshot_of. simpl. rewrite lookup_after_get.
    destruct (lru_lookup (fc_snapshots c) k') as [l'|] eqn:El'; [|done]. simpl.
    rewrite lookup_insert_ne; [done|]. intros <-. apply Hne. symmetry. by eapply (wf_inj c).
Qed.

Lemma invalidate_wf k c : cache_wf c -> cache_wf (invalidate k c) /\ snapshot_of (invalidate k c) k = None.
Proof.
  intros [Hall Hinj]. split; [|unfold snapshot_of; simpl; by rewrite lru_delete_same].
  assert (Hd : forall k' l, lru_lookup (lru_delete (fc_snapshots c) k) k' = Some l ->
            lru_lookup (fc_snapshots c) k' = Some l).
  { intros k' l. destruct (decide (k' = k)) as [->|]; [by rewrite lru_delete_same|].
    by rewrite lru_delete_other. }
  split; simpl; eauto.
Qed.

Lemma clear_wf c : cache_wf c -> cache_wf (clear c) /\ forall k, snapshot_of (clear c) k = None.
Proof.
  intros [Hall Hinj]. split; [|intros k; unfold snapshot_of; simpl; by rewrite lru_clear_all].
  split; simpl; intros *; by rewrite lru_clear_all.
Qed.

Lemma contiguous_filter start (lines : list jsstring) n :
  List.filter (fun e => (e.1 =? n)%Z) (imap (fun idx line => (start + Z.of_nat idx, line)%Z) lines)
  = match arr_get lines (n - start) with Some l => [(n, l)] | None => [] end.
Proof.
  revert start. induction lines as [|l lines IH]; intros start.
  { unfold arr_get. by destruct (_ <? _)%Z. }
  rewrite imap_cons. simpl. rewrite Z.add_0_r.
  rewrite (imap_ext _ (fun idx line => (start + 1 + Z.of_nat idx, line)%Z))
    by (intros; simpl; f_equal; lia).
  rewrite IH. unfold arr_get. destruct (Z.eqb_spec start n) as [->|Hne].
  - rewrite Z.sub_diag. simpl. by replace (n - (n + 1))%Z with (-1)%Z by lia.
  - destruct (Z.ltb_spec (n - start) 0), (Z.ltb_spec (n - (start + 1)) 0); try lia; [done|].
    by replace (Z.to_nat (n - start)) with (S (Z.to_nat (n - (start + 1)))) by lia.
Qed.

(** What a read leaves in the cache: the snapshot of the path has every line
    just shown; each other line it has is a line it had before, and only if the
    new lines contradict none of the old ones, so a snapshot never mixes versions
    of a file that differ on the lines shown; the snapshots of the other paths are
    untouched or evicted; and paths never share a snapshot. *)
Theorem record_contiguous_view k start lines now c :
  cache_wf c -> lines <> [] ->
  let c' := recordContiguous k start lines now c in
  let old := match snapshot_of c k with Some s => sn_lines s | None => ∅ end in
  exists s, snapshot_of c' k = Some s /\ sn_recordedAt s = now
    /\ (forall n l, arr_get lines (n - start) = Some l -> sn_lines s !! n = Some l)
    /\ (forall n l, sn_lines s !! n = Some l ->
          arr_get lines (n - start) = Some l
          \/ old !! n = Some l
             /\ forall m x y, arr_get lines (m - start) = Some x -> old !! m = Some y -> x = y)
    /\ (forall k', k' <> k -> snapshot_of c' k' = snapshot_of c k' \/ snapshot_of c' k' = None)
    /\ cache_wf c'.
Proof.
  intros Hwf Hne c' old. unfold c', recordContiguous. rewrite bool_decide_false by done.
  set (entries := imap _ lines).
  destruct (record_spec k entries now c Hwf) as (Hwf' & Hs & Ho). eexists. split; [exact Hs|].
  split; [done|]. cbn [sn_lines]. set (base := match snapshot_of c k with Some _ => _ | None => _ end).
  assert (Hl : forall n, set_all base entries !! n
            = match arr_get lines (n - start) with Some l => Some l | None => base !! n end).
  { intros n. rewrite set_all_lookup. unfold entries. rewrite contiguous_filter.
    by destruct (arr_get lines (n - start)). }
  split_and!; [| |done|done].
  - intros n l E. by rewrite Hl, E.
  - intros n l. rewrite Hl. destruct (arr_get lines (n - start)) as [l'|]; [auto|]. intros Hb. right.
    unfold base, old in *. destruct (snapshot_of c k) as [s|]; [|done].
    destruct (hasConflict (sn_lines s) entries) eqn:Ec; [done|]. split; [done|].
    intros m x y Hx Hy.
    assert (Hin : In (m, x) entries).
    { assert (In (m, x) (List.filter (fun e => (e.1 =? m)%Z) entries)) as Hf.
      { unfold entries. rewrite contiguous_filter, Hx. by left. }
      by apply filter_In in Hf as [? _]. }
    destruct (decide (x = y)) as [|Hxy]; [done|]. exfalso.
    assert (hasConflict (sn_lines s) entries = true) as Ht; [|congruence].
    unfold hasConflict. apply existsb_exists. exists (m, x). split; [done|]. simpl.
    rewrite Hy. by rewrite bool_decide_false.
Qed.

End cache.

(** An unbounded store, to evaluate the definitions on examples. *)
Definition sample_store : SnapshotStore :=
  {| lru := gmap jsstring loc;
     lru_empty := ∅;
     lru_get := fun m k => (m !! k, m);
     lru_set := fun m k l => <[k := l]> m;
     lru_delete := fun m k => delete k m;
     lru_clear := fun _ => ∅ |}.

#[local] Existing Instance sample_store.

Lemma sample_store_laws : SnapshotStoreLaws.
Proof.
  split; unfold lru_lookup; simpl; intros; auto.
  - apply lookup_insert_eq.
  - left. by apply lookup_insert_ne.
  - apply lookup_delete_eq.
  - by apply lookup_delete_ne.
Qed.

Lemma record_contiguous_view_witness :
  let c := recordContiguous (js "/a") 1 [js "x"; js "y"] 5 new_cache in
  let c' := recordContiguous (js "/a") 2 [js "z"; js "w"] 6 c in
  exists s, snapshot_of c' (js "/a") = Some s /\ sn_recordedAt s = 6%Z
    /\ sn_lines s !! 3%Z = Some (js "w") /\ sn_lines s !! 1%Z = None.
Proof.
  assert (Hwf : cache_wf (recordContiguous (js "/a") 1 [js "x"; js "y"] 5 new_cache)).
  { apply (record_spec (H0 := sample_store_laws)), (new_cache_wf (H0 := sample_store_laws)). }
  destruct (record_contiguous_view (H0 := sample_store_laws) (js "/a") 2
    [js "z"; js "w"] 6 _ Hwf ltac:(discriminate)) as (s & Hs & Ht & Hnew & _).
  exists s. split; [exact Hs|]. split; [exact Ht|]. split; [apply Hnew; reflexivity|].
  vm_compute in Hs. injection Hs as <-. reflexivity.
Defined.
