(* ===== verification/LineDiff.v ===== *)
(** * Numbered diffs and their preview (edit/diff.ts, hashline/diff-preview.ts)

    After an edit the model is shown a diff whose rows carry line numbers, turned
    into anchors for follow-up edits.  The line diff itself comes from a library
    (or its native port) and is a parameter: a list of parts. *)

From S2P Require Import Prelude JsText LineHash Anchors.

Record DiffLinePart := mkPart { dp_added : bool; dp_removed : bool; dp_value : jsstring }.

(** [value.split("\n")] without a final empty piece. *)
Definition raw_lines (value : jsstring) : list jsstring :=
  let raw := split_char LF value in
  if bool_decide (last raw = Some []) then removelast raw else raw.

(** A pushed row: the sign, the number and the content. *)
Definition formatNumberedDiffLine (prefix : N) (lineNum : Z) (content : jsstring) : jsstring :=
  prefix :: num_to_string lineNum ++ js "|" ++ content.

Definition PLUS : N := 43.
Definition MINUS : N := 45.
Definition SPACE : N := 32.

Inductive diff_row :=
| RowAdd (n : Z) (line : jsstring)
| RowDel (n : Z) (line : jsstring)
| RowCtx (n : Z) (line : jsstring)
| RowSkip (n : Z).

Definition row_text (r : diff_row) : jsstring :=
  match r with
  | RowAdd n l => formatNumberedDiffLine PLUS n l
  | RowDel n l => formatNumberedDiffLine MINUS n l
  | RowCtx n l => formatNumberedDiffLine SPACE n l
  | RowSkip n => formatNumberedDiffLine SPACE n (js "...")
  end.

Record diff_state := mkDiff {
  df_output : list diff_row;
  df_old : Z;
  df_new : Z;
  df_lastWasChange : bool;
  df_first : option Z
}.

Definition push_add (st : diff_state) (line : jsstring) : diff_state :=
  mkDiff (df_output st ++ [RowAdd (df_new st) line]) (df_old st) (df_new st + 1)
    (df_lastWasChange st) (df_first st).

Definition push_del (st : diff_state) (line : jsstring) : diff_state :=
  mkDiff (df_output st ++ [RowDel (df_old st) line]) (df_old st + 1) (df_new st)
    (df_lastWasChange st) (df_first st).

Definition push_ctx (st : diff_state) (line : jsstring) : diff_state :=
  mkDiff (df_output st ++ [RowCtx (df_old st) line]) (df_old st + 1) (df_new st + 1)
    (df_lastWasChange st) (df_first st).

(** [if (n > 0)] a row of dots for [n] lines that are not shown. *)
Definition push_skip (n : nat) (st : diff_state) : diff_state :=
  if (0 <? n)%nat then
    mkDiff (df_output st ++ [RowSkip (df_old st)]) (df_old st + Z.of_nat n) (df_new st + Z.of_nat n)
      (df_lastWasChange st) (df_first st)
  else st.

(** Which context lines are shown: lines skipped before, a first chunk, lines
    skipped in the middle, a second chunk, lines skipped after. *)
Definition context_view (raw : list jsstring) (lastWasChange nextPartIsChange : bool) (limit : nat)
    : nat * list jsstring * nat * list jsstring * nat :=
  let len := length raw in
  if lastWasChange && nextPartIsChange then
    if (limit * 2 <? len)%nat
    then (0, take limit raw, len - limit - limit, drop (len - limit) raw, 0)%nat
    else (0, raw, 0, [], 0)%nat
  else if nextPartIsChange then (len - limit, drop (len - limit) raw, 0, [], 0)%nat
  else (0, take limit raw, 0, [], len - limit)%nat.

Definition is_change (p : DiffLinePart) : bool := dp_added p || dp_removed p.

(** The body of the loop; [next] is the part after this one. *)
Definition diff_part (limit : nat) (part : DiffLinePart) (next : option DiffLinePart) (st : diff_state)
    : diff_state :=
  let raw := raw_lines (dp_value part) in
  let set_last b st := mkDiff (df_output st) (df_old st) (df_new st) b (df_first st) in
  if is_change part then
    let st1 := mkDiff (df_output st) (df_old st) (df_new st) (df_lastWasChange st)
                 (match df_first st with None => Some (df_new st) | f => f end) in
    set_last true (fold_left (if dp_added part then push_add else push_del) raw st1)
  else
    let nextPartIsChange := match next with Some p => is_change p | None => false end in
    set_last false
      (if df_lastWasChange st || nextPartIsChange then
         let '(lead, chunk1, middle, chunk2, trail) :=
           context_view raw (df_lastWasChange st) nextPartIsChange limit in
         push_skip trail
           (fold_left push_ctx chunk2 (push_skip middle (fold_left push_ctx chunk1 (push_skip lead st))))
       else mkDiff (df_output st) (df_old st + arr_len raw) (df_new st + arr_len raw)
              (df_lastWasChange st) (df_first st)).

Fixpoint diff_parts (limit : nat) (parts : list DiffLinePart) (st : diff_state) : diff_state :=
  match parts with
  | [] => st
  | p :: rest => diff_parts limit rest (diff_part limit p (head rest) st)
  end.

Record DiffResult := mkDiffResult { dr_diff : jsstring; dr_firstChangedLine : option Z }.

Definition diff_rows (contextLines : Z) (parts : list DiffLinePart) : diff_state :=
  diff_parts (Z.to_nat (Z.max 0 contextLines)) parts (mkDiff [] 1 1 false None).

(** The line diff: the native port, when it is installed (it may throw), and the
    function of the library. *)
Class LineDiffer := {
  nativeDiffLines : option (jsstring -> jsstring -> option (list DiffLinePart));
  jsDiffLines : jsstring -> jsstring -> list DiffLinePart
}.

Definition diffLinesWithFallback `{LineDiffer} (oldContent newContent : jsstring) : list DiffLinePart :=
  match nativeDiffLines with
  | Some f =>
      match f oldContent newContent with
      | Some parts => parts
      | None => jsDiffLines oldContent newContent
      end
  | None => jsDiffLines oldContent newContent
  end.

Definition generateDiffString `{LineDiffer} (oldContent newContent : jsstring) (contextLines : Z)
    : DiffResult :=
  let st := diff_rows contextLines (diffLinesWithFallback oldContent newContent) in
  mkDiffResult (join [LF] (row_text <$> df_output st)) (df_first st).

(** ** The preview *)

(** [Number.parseInt(s, 10)]; [None] is [NaN]. *)
Definition parseInt (s : jsstring) : option Z :=
  let s := trimStart s in
  let '(sign, s) := match s with
                    | c :: s' => if (c =? MINUS)%N then ((-1)%Z, s')
                                 else if (c =? PLUS)%N then (1%Z, s') else (1%Z, s)
                    | [] => (1%Z, s)
                    end in
  match (span is_digit s).1 with
  | [] => None
  | ds => Some (sign * Z.of_N (dec_value ds))%Z
  end.

Definition number_text (n : option Z) : jsstring :=
  match n with Some z => num_to_string z | None => js "NaN" end.

Record preview_state := mkPreview { pv_rows : list jsstring; pv_added : Z; pv_removed : Z }.

Section preview.
Context `{LineHasher}.

(** One row of the diff; the counters are those of the rows before it. *)
Definition preview_row (st : preview_state) (line : jsstring) : preview_state :=
  let keep := mkPreview (pv_rows st ++ [line]) (pv_added st) (pv_removed st) in
  match line with
  | [] => keep
  | kind :: body =>
      if negb ((kind =? PLUS)%N || (kind =? MINUS)%N || (kind =? SPACE)%N) then keep
      else
        match span (fun c => negb (c =? HL_BODY_SEP)%N) body with
        | (_, []) => keep
        | (before, _ :: content) =>
            let n := parseInt before in
            if (kind =? PLUS)%N then
              mkPreview (pv_rows st ++ [PLUS :: number_text n
                           ++ computeLineHash (default 0%Z n) content ++ [HL_BODY_SEP] ++ content])
                (pv_added st + 1) (pv_removed st)
            else if (kind =? MINUS)%N then
              mkPreview (pv_rows st ++ [MINUS :: number_text n ++ js "--" ++ [HL_BODY_SEP] ++ content])
                (pv_added st) (pv_removed st + 1)
            else
              let n' := (fun z => z + pv_added st - pv_removed st)%Z <$> n in
              mkPreview (pv_rows st ++ [SPACE :: number_text n'
                           ++ computeLineHash (default 0%Z n') content ++ [HL_BODY_SEP] ++ content])
                (pv_added st) (pv_removed st)
        end
  end.

Definition buildCompactHashlineDiffPreview (diff : jsstring) : preview_state :=
  fold_left preview_row (if bool_decide (diff = []) then [] else split_char LF diff)
    (mkPreview [] 0 0).

End preview.

(** ** The numbers of the rows *)

(** What a line diff promises: the parts that are not additions make up the old
    text, those that are not removals the new one, line by line. *)
Record diff_of (old new : jsstring) (parts : list DiffLinePart) : Prop := {
  diff_old : (List.filter (fun p => negb (dp_added p)) parts ≫= fun p => raw_lines (dp_value p))
             = raw_lines old;
  diff_new : (List.filter (fun p => dp_added p || negb (dp_removed p)) parts
                ≫= fun p => raw_lines (dp_value p)) = raw_lines new
}.

Definition row_delta (r : diff_row) : Z :=
  match r with RowAdd _ _ => 1 | RowDel _ _ => -1 | _ => 0 end.

Definition rows_delta (rows : list diff_row) : Z := foldr (fun r d => row_delta r + d)%Z 0%Z rows.

(** Every row names its line: a removed row by its number in the old text, an added
    row by its number in the new one, a context row by its old number moved by the
    rows before it. *)
Fixpoint rows_ok (old new : list jsstring) (d : Z) (rows : list diff_row) : Prop :=
  match rows with
  | [] => True
  | r :: rest =>
      match r with
      | RowAdd n l => (1 <= n)%Z /\ arr_get new (n - 1) = Some l
      | RowCtx n l => (1 <= n)%Z /\ (1 <= n + d)%Z /\ arr_get new (n + d - 1) = Some l
      | RowDel n l => (1 <= n)%Z /\ arr_get old (n - 1) = Some l
      | RowSkip n => (1 <= n)%Z /\ (1 <= n + d)%Z
      end /\ rows_ok old new (d + row_delta r) rest
  end.

Lemma rows_delta_app a b : rows_delta (a ++ b) = (rows_delta a + rows_delta b)%Z.
Proof. unfold rows_delta. induction a; simpl; lia. Qed.

Lemma rows_ok_app old new d a b :
  rows_ok old new d (a ++ b) <-> rows_ok old new d a /\ rows_ok old new (d + rows_delta a) b.
Proof.
  revert d. induction a as [|r a IH]; intros d; simpl; [rewrite Z.add_0_r; tauto|].
  rewrite IH. replace (d + (row_delta r + rows_delta a))%Z with (d + row_delta r + rows_delta a)%Z by lia.
  tauto.
Qed.

Lemma arr_get_app_l (l k : list jsstring) n x : arr_get l n = Some x -> arr_get (l ++ k) n = Some x.
Proof.
  unfold arr_get. destruct (n <? 0)%Z; [done|]. intros. by apply lookup_app_l_Some.
Qed.

Lemma rows_ok_weaken old new o n d rows : rows_ok old new d rows -> rows_ok (old ++ o) (new ++ n) d rows.
Proof.
  revert d. induction rows as [|r rows IH]; intros d; [done|]. simpl. intros [Hr Hok].
  split; [|auto]. destruct r; naive_solver eauto using arr_get_app_l.
Qed.

(** [O] and [N] are the lines of the old and the new text read so far. *)
Record diff_inv (st : diff_state) (O N : list jsstring) : Prop := {
  di_old : df_old st = (1 + arr_len O)%Z;
  di_new : df_new st = (1 + arr_len N)%Z;
  di_delta : rows_delta (df_output st) = (df_new st - df_old st)%Z;
  di_rows : rows_ok O N 0 (df_output st)
}.

Lemma arr_len_app {A} (l k : list A) : arr_len (l ++ k) = (arr_len l + arr_len k)%Z.
Proof. unfold arr_len. rewrite length_app. lia. Qed.

Lemma arr_get_snoc (l : list jsstring) x : arr_get (l ++ [x]) (arr_len l) = Some x.
Proof. unfold arr_len. rewrite arr_get_nat. by rewrite list_lookup_middle. Qed.

Lemma push_add_inv st O N l : diff_inv st O N -> diff_inv (push_add st l) (O ++ []) (N ++ [l]).
Proof.
  intros [Ho Hn Hd Hr]. split; simpl; rewrite ?arr_len_app, ?rows_delta_app; simpl.
  - by rewrite Z.add_0_r.
  - unfold arr_len at 2. simpl. lia.
  - lia.
  - rewrite rows_ok_app. split; [by apply rows_ok_weaken|]. simpl. split; [|done].
    unfold arr_len in *. split; [lia|]. replace (df_new st - 1)%Z with (arr_len N) by (unfold arr_len; lia).
    apply arr_get_snoc.
Qed.

Lemma push_del_inv st O N l : diff_inv st O N -> diff_inv (push_del st l) (O ++ [l]) (N ++ []).
Proof.
  intros [Ho Hn Hd Hr]. split; simpl; rewrite ?arr_len_app, ?rows_delta_app; simpl.
  - unfold arr_len at 2. simpl. lia.
  - by rewrite Z.add_0_r.
  - lia.
  - rewrite rows_ok_app. split; [by apply rows_ok_weaken|]. simpl. split; [|done].
    unfold arr_len in *. split; [lia|]. replace (df_old st - 1)%Z with (arr_len O) by (unfold arr_len; lia).
    apply arr_get_snoc.
Qed.

Lemma push_ctx_inv st O N l : diff_inv st O N -> diff_inv (push_ctx st l) (O ++ [l]) (N ++ [l]).
Proof.
  intros [Ho Hn Hd Hr]. split; simpl; rewrite ?arr_len_app, ?rows_delta_app; simpl.
  - unfold arr_len at 2. simpl. lia.
  - unfold arr_len at 2. simpl. lia.
  - lia.
  - rewrite rows_ok_app. split; [by apply rows_ok_weaken|]. simpl. split; [|done].
    rewrite Hd. unfold arr_len in *. split_and!; [lia|lia|].
    replace (df_old st + (0 + (df_new st - df_old st)) - 1)%Z with (arr_len N) by (unfold arr_len; lia).
    apply arr_get_snoc.
Qed.

Lemma push_skip_inv st O N ls :
  diff_inv st O N -> diff_inv (push_skip (length ls) st) (O ++ ls) (N ++ ls).
Proof.
  intros Hi. unfold push_skip. destruct ls as [|l ls]; simpl; [by rewrite !app_nil_r|].
  destruct Hi as [Ho Hn Hd Hr]. split; simpl; rewrite ?arr_len_app, ?rows_delta_app; simpl.
  - unfold arr_len at 2. simpl. lia.
  - unfold arr_len at 2. simpl. lia.
  - lia.
  - rewrite rows_ok_app. split; [by apply rows_ok_weaken|]. simpl. rewrite Hd.
    unfold arr_len in *. split_and!; [lia|lia|done].
Qed.

Lemma fold_push_inv (push : diff_state -> jsstring -> diff_state) (fo fn : jsstring -> list jsstring) ls :
  (forall st O N l, diff_inv st O N -> diff_inv (push st l) (O ++ fo l) (N ++ fn l)) ->
  forall st O N, diff_inv st O N -> diff_inv (fold_left push ls st) (O ++ (ls ≫= fo)) (N ++ (ls ≫= fn)).
Proof.
  intros Hp. induction ls as [|l ls IH]; intros st O N Hi; simpl; [by rewrite !app_nil_r|].
  rewrite !(assoc_L app). by apply IH, Hp.
Qed.

Lemma bind_singleton {A} (l : list A) : (l ≫= fun x => [x]) = l.
Proof. induction l as [|x l IH]; [done|]. rewrite bind_cons, IH. done. Qed.

Lemma bind_nothing {A B} (l : list A) : (l ≫= fun _ => []) = ([] : list B).
Proof. induction l as [|x l IH]; [done|]. rewrite bind_cons, IH. done. Qed.

Lemma context_view_split raw last next limit lead c1 mid c2 trail :
  context_view raw last next limit = (lead, c1, mid, c2, trail) ->
  exists a b c, raw = a ++ c1 ++ b ++ c2 ++ c /\ length a = lead /\ length b = mid /\ length c = trail.
Proof.
  unfold context_view. destruct (last && next).
  - destruct (Nat.ltb_spec (limit * 2) (length raw)); intros [= <- <- <- <- <-].
    + exists [], (take (length raw - limit - limit) (drop limit raw)), [].
      rewrite app_nil_r. split_and!; [|done| |done].
      * rewrite app_nil_l. rewrite <- (take_drop limit raw) at 1. f_equal.
        rewrite <- (take_drop (length raw - limit - limit) (drop limit raw)) at 1. f_equal.
        rewrite drop_drop. f_equal. lia.
      * rewrite length_take, length_drop. lia.
    + exists [], [], []. by rewrite !app_nil_r.
  - destruct next; intros [= <- <- <- <- <-].
    + exists (take (length raw - limit) raw), [], []. rewrite !app_nil_r, take_drop.
      split_and!; [done|rewrite length_take; lia|done|done].
    + exists [], [], (drop limit raw). simpl. rewrite take_drop.
      split_and!; [done|done|done|apply length_drop].
Qed.

Lemma set_last_inv st O N b f :
  diff_inv st O N -> diff_inv (mkDiff (df_output st) (df_old st) (df_new st) b f) O N.
Proof. intros [????]. by split. Qed.

Lemma diff_part_inv limit part next st O N :
  diff_inv st O N ->
  diff_inv (diff_part limit part next st)
    (O ++ (if dp_added part then [] else raw_lines (dp_value part)))
    (N ++ (if dp_added part || negb (dp_removed part) then raw_lines (dp_value part) else [])).
Proof.
  intros Hi. unfold diff_part, is_change. set (raw := raw_lines (dp_value part)).
  destruct (dp_added part) eqn:Ea; simpl.
  { apply set_last_inv.
    pose proof (fold_push_inv push_add (fun _ => []) (fun l => [l]) raw) as Hf.
    rewrite bind_singleton, bind_nothing in Hf. apply Hf; [|by apply set_last_inv].
    intros st0 O0 N0 l. apply push_add_inv. }
  destruct (dp_removed part) eqn:Er; simpl.
  { apply set_last_inv.
    pose proof (fold_push_inv push_del (fun l => [l]) (fun _ => []) raw) as Hf.
    rewrite bind_singleton, bind_nothing in Hf. apply Hf; [|by apply set_last_inv].
    intros st0 O0 N0 l. apply push_del_inv. }
  assert (Hctx : forall ls st O N, diff_inv st O N -> diff_inv (fold_left push_ctx ls st) (O ++ ls) (N ++ ls)).
  { intros ls. pose proof (fold_push_inv push_ctx (fun l => [l]) (fun l => [l]) ls) as Hf.
    rewrite bind_singleton in Hf. apply Hf. apply push_ctx_inv. }
  apply set_last_inv. destruct (df_lastWasChange st || _).
  - destruct (context_view _ _ _ _) as [[[[lead c1] mid] c2] trail] eqn:Ev.
    apply context_view_split in Ev as (a & b & c & -> & <- & <- & <-).
    rewrite !(assoc_L app). apply push_skip_inv, Hctx, push_skip_inv, Hctx, push_skip_inv, Hi.
  - destruct Hi as [Ho Hn Hd Hr]. split; simpl; rewrite ?arr_len_app; [lia|lia|lia|].
    by apply rows_ok_weaken.
Qed.

Lemma diff_parts_inv limit parts st O N :
  diff_inv st O N ->
  diff_inv (diff_parts limit parts st)
    (O ++ (List.filter (fun p => negb (dp_added p)) parts ≫= fun p => raw_lines (dp_value p)))
    (N ++ (List.filter (fun p => dp_added p || negb (dp_removed p)) parts
             ≫= fun p => raw_lines (dp_value p))).
Proof.
  revert st O N. induction parts as [|p parts IH]; intros st O N Hi; [by rewrite !app_nil_r|].
  cbn [diff_parts List.filter].
  apply (diff_part_inv limit p (head parts)), IH in Hi.
  destruct (dp_added p), (dp_removed p); cbn [negb orb] in *; rewrite ?app_nil_r, <- ?(assoc_L app) in Hi;
    exact Hi.
Qed.

(** ** The text of the rows *)

Definition row_line (r : diff_row) : jsstring :=
  match r with RowAdd _ l | RowDel _ l | RowCtx _ l => l | RowSkip _ => js "..." end.

Definition row_number (r : diff_row) : Z :=
  match r with RowAdd n _ | RowDel n _ | RowCtx n _ | RowSkip n => n end.

Lemma raw_lines_prefix s : exists k, split_char LF s = raw_lines s ++ k.
Proof.
  unfold raw_lines. case_bool_decide; [|by exists []; rewrite app_nil_r].
  exists [List.last (split_char LF s) []]. apply app_removelast_last. apply split_char_nonempty.
Qed.

Lemma raw_lines_no_lf s n l : arr_get (raw_lines s) n = Some l -> Forall (fun c => c <> LF) l.
Proof.
  intros Hl. destruct (raw_lines_prefix s) as [k Hk]. apply (arr_get_app_l _ k) in Hl.
  rewrite <- Hk in Hl. unfold arr_get in Hl. destruct (n <? 0)%Z; [done|].
  exact (Forall_lookup_1 _ _ _ _ (split_char_pieces LF s) Hl).
Qed.

Lemma num_text_no c n : (1 <= n)%Z -> is_digit c = false -> Forall (fun x => x <> c) (num_to_string n).
Proof.
  intros Hn Hc. unfold num_to_string. replace (n <? 0)%Z with false by (symmetry; apply Z.ltb_ge; lia).
  eapply Forall_impl; [apply dec_digit|]. intros x Hx ->. simpl in Hx. congruence.
Qed.

Lemma row_text_no_lf r :
  (1 <= row_number r)%Z -> Forall (fun c => c <> LF) (row_line r) ->
  Forall (fun c => c <> LF) (row_text r).
Proof.
  intros Hn Hl.
  assert (forall p, p <> LF -> Forall (fun c => c <> LF) (formatNumberedDiffLine p (row_number r) (row_line r))).
  { intros p Hp. unfold formatNumberedDiffLine. constructor; [done|].
    apply Forall_app. split; [by apply num_text_no|]. apply Forall_app. split; [by repeat constructor|done]. }
  destruct r; apply H; done.
Qed.

Lemma rows_ok_no_lf old new d rows :
  rows_ok old new d rows ->
  (forall n l, arr_get old n = Some l -> Forall (fun c => c <> LF) l) ->
  (forall n l, arr_get new n = Some l -> Forall (fun c => c <> LF) l) ->
  Forall (fun r => Forall (fun c => c <> LF) (row_text r)) rows.
Proof.
  intros Hr Ho Hn. revert d Hr. induction rows as [|r rows IH]; intros d Hr; constructor; simpl in Hr;
    [|by eapply IH, Hr].
  destruct Hr as [Hr _]. apply row_text_no_lf; [by destruct r; naive_solver|].
  destruct r; [eapply Hn, Hr|eapply Ho, Hr|eapply Hn, Hr|by repeat constructor].
Qed.

Lemma parseInt_num n : (1 <= n)%Z -> parseInt (num_to_string n) = Some n.
Proof.
  intros Hn. unfold num_to_string. replace (n <? 0)%Z with false by (symmetry; apply Z.ltb_ge; lia).
  destruct (dec_head (Z.to_N n)) as (c & s & Hs & Hc); [lia|]. unfold parseInt.
  assert (Hd : is_digit c = true) by (apply andb_true_intro; split; apply N.leb_le; lia).
  rewrite Hs, trimStart_id by (by apply is_digit_not_ws).
  replace (c =? MINUS)%N with false by (symmetry; apply N.eqb_neq; unfold MINUS; lia).
  replace (c =? PLUS)%N with false by (symmetry; apply N.eqb_neq; unfold PLUS; lia).
  rewrite <- Hs, span_all by apply dec_digit. cbn [fst]. rewrite Hs, <- Hs, dec_value_dec. f_equal. lia.
Qed.

Section preview_facts.
Context `{LineHasher}.

(** The preview of a row; [d] is the running difference of added and removed rows. *)
Definition preview_of (d : Z) (r : diff_row) : jsstring :=
  match r with
  | RowAdd n l => PLUS :: formatHashLine n l
  | RowDel n l => MINUS :: num_to_string n ++ js "--" ++ [HL_BODY_SEP] ++ l
  | RowCtx n l => SPACE :: formatHashLine (n + d) l
  | RowSkip n => SPACE :: formatHashLine (n + d) (js "...")
  end.

Lemma split_number n content :
  (1 <= n)%Z ->
  span (fun c => negb (c =? HL_BODY_SEP)%N) (num_to_string n ++ js "|" ++ content)
  = (num_to_string n, HL_BODY_SEP :: content).
Proof.
  intros Hn. apply span_prefix; [|done].
  eapply Forall_impl; [apply (num_text_no HL_BODY_SEP n Hn eq_refl)|].
  intros x Hx. by apply negb_true_iff, N.eqb_neq.
Qed.

Lemma preview_row_text st r :
  (1 <= row_number r)%Z ->
  let st' := preview_row st (row_text r) in
  pv_rows st' = pv_rows st ++ [preview_of (pv_added st - pv_removed st) r] /\
  (pv_added st' - pv_removed st')%Z = (pv_added st - pv_removed st + row_delta r)%Z.
Proof.
  intros Hn. destruct r; cbn [row_number] in Hn;
    unfold preview_row, row_text, formatNumberedDiffLine;
    rewrite split_number, parseInt_num by done; cbn; split; try lia; try done;
    unfold formatHashLine; by rewrite Z.add_sub_assoc.
Qed.

(** A row of the preview: a removed line of the old text, a line of the new text
    with its anchor there, or the mark of elided lines. *)
Definition preview_row_ok (old new : list jsstring) (row : jsstring) : Prop :=
  (exists n l, row = MINUS :: num_to_string n ++ js "--" ++ [HL_BODY_SEP] ++ l /\
               arr_get old (n - 1) = Some l) \/
  (exists m l, (row = PLUS :: formatHashLine m l \/ row = SPACE :: formatHashLine m l) /\
               (1 <= m)%Z /\ arr_get new (m - 1) = Some l) \/
  (exists m, row = SPACE :: formatHashLine m (js "...")).

Lemma rows_ok_number old new d rows : rows_ok old new d rows -> Forall (fun r => (1 <= row_number r)%Z) rows.
Proof.
  revert d. induction rows as [|r rows IH]; intros d Hr; constructor; simpl in Hr; [|by eapply IH, Hr].
  destruct r; naive_solver.
Qed.

Lemma preview_rows_ok old new rows st :
  rows_ok old new (pv_added st - pv_removed st) rows ->
  Forall (preview_row_ok old new) (pv_rows st) ->
  Forall (preview_row_ok old new) (pv_rows (fold_left preview_row (row_text <$> rows) st)).
Proof.
  revert st. induction rows as [|r rows IH]; intros st Hr Hst; [done|].
  pose proof (rows_ok_number _ _ _ _ Hr) as Hn. apply Forall_cons in Hn as [Hn _].
  destruct (preview_row_text st r Hn) as [Hrows Hdelta].
  rewrite fmap_cons. cbn [fold_left]. cbn [rows_ok] in Hr. destruct Hr as [Hrow Hrest].
  apply IH; [by rewrite Hdelta|]. rewrite Hrows. apply Forall_app. split; [done|].
  constructor; [|done]. unfold preview_row_ok, preview_of.
  destruct r; [right; left|left|right; left|right; right]; naive_solver.
Qed.

End preview_facts.

(** whatever line diff is used, as long as its parts make up the two texts line
    by line, every row of the preview shown after an edit is a removed line at its
    place in the old text, the mark of elided lines, or a line of the new text under
    the anchor (number and hash) it has in the new text, so that anchors copied from
    the preview are current. *)
Theorem preview_anchors_current `{LineHasher, LineDiffer} contextLines old new :
  diff_of old new (diffLinesWithFallback old new) ->
  Forall (preview_row_ok (raw_lines old) (split_char LF new))
    (pv_rows (buildCompactHashlineDiffPreview (dr_diff (generateDiffString old new contextLines)))).
Proof.
  set (parts := diffLinesWithFallback old new). intros [Hold Hnew].
  set (limit := Z.to_nat (Z.max 0 contextLines)).
  assert (Hi : diff_inv (diff_rows contextLines parts) (raw_lines old) (raw_lines new)).
  { rewrite <- Hold, <- Hnew. apply (diff_parts_inv limit parts _ [] []). by split. }
  destruct Hi as [_ _ _ Hr]. unfold buildCompactHashlineDiffPreview, generateDiffString. cbn [dr_diff].
  fold parts. set (rows := df_output (diff_rows contextLines parts)) in *.
  destruct (raw_lines_prefix new) as [k Hk].
  assert (Hclean := rows_ok_no_lf _ _ _ _ Hr (raw_lines_no_lf old) (raw_lines_no_lf new)).
  case_bool_decide as Hempty; [by constructor|].
  rewrite split_join; [|by intros E; rewrite E in Hempty|by apply Forall_fmap].
  apply preview_rows_ok; [|constructor]. simpl pv_added. simpl pv_removed.
  rewrite Hk, <- (app_nil_r (raw_lines old)). by apply rows_ok_weaken.
Qed.

Definition sample_parts : list DiffLinePart :=
  [mkPart false false (js "a" ++ [LF]); mkPart false true (js "b" ++ [LF]);
   mkPart true false (js "x" ++ [LF] ++ js "y" ++ [LF]); mkPart false false (js "c" ++ [LF])].

(** A line diff that removes the old text and adds the new one; [native] answers
    first. *)
Definition sample_differ (native : option (list DiffLinePart)) : LineDiffer :=
  {| nativeDiffLines := (fun ps _ _ => Some ps) <$> native;
     jsDiffLines old new := [mkPart false true old; mkPart true false new] |}.

Lemma preview_anchors_current_witness :
  let old := join [LF] [js "a"; js "b"; js "c"; []] in
  let new := join [LF] [js "a"; js "x"; js "y"; js "c"; []] in
  let d := @generateDiffString (sample_differ (Some sample_parts)) old new 4 in
  dr_firstChangedLine d = Some 2%Z /\
  dr_diff d = join [LF] [js " 1|a"; js "-2|b"; js "+2|x"; js "+3|y"; js " 3|c"] /\
  Forall (@preview_row_ok sample_hasher [js "a"; js "b"; js "c"] [js "a"; js "x"; js "y"; js "c"; []])
    (pv_rows (@buildCompactHashlineDiffPreview sample_hasher (dr_diff d))).
Proof.
  intros old new d. split; [vm_compute; reflexivity|]. split; [vm_compute; reflexivity|].
  apply (@preview_anchors_current sample_hasher (sample_differ (Some sample_parts)) 4 old new).
  split; vm_compute; reflexivity.
Defined.
