(* ===== verification/HashlineRecovery.v ===== *)
(** * Recovery from stale anchors (hashline/recovery.ts)

    When the anchors of a batch are stale, the batch is replayed on what the cache
    of reads says the model saw, and the difference is applied to the current text
    as a patch.  The patch library is a parameter ([PatchLib]); the snapshots are
    those of [FileReadCache], the line diff that of [LineDiff]. *)

From S2P Require Import Prelude JsText LineHash HashlineTypes Anchors.
From S2P Require Import HashlineParser HashlineSyntax HashlineApply HashlineApplySpec HashlineApplyFacts HashlineContract.
From S2P Require Import FileReadCache LineDiff.

(** [structuredPatch(old, new)] with a context of 3 lines, and [applyPatch] with a
    fuzz factor of 0, [None] for its [false]. *)
Class PatchLib := {
  patch : Type;
  structuredPatch : jsstring -> jsstring -> patch;
  applyPatch : jsstring -> patch -> option jsstring
}.

Definition HASHLINE_RECOVERY_WARNING : jsstring :=
  js "Recovered from stale anchors using a previous read snapshot (file changed externally between read and edit).".

Definition collectEditAnchors (edits : list HashlineEdit) : list Anchor :=
  edits ≫= fun edit =>
    match edit with
    | EDelete anchor _ _ _ => [anchor]
    | EInsert (BeforeAnchor anchor) _ _ _ | EInsert (AfterAnchor anchor) _ _ _ => [anchor]
    | EInsert _ _ _ _ => []
    end.

Definition max_cached_line (lines : gmap Z jsstring) : Z :=
  fold_left (fun mx kv => if (mx <? kv.1)%Z then kv.1 else mx) (map_to_list lines) 0%Z.

(** [overlaid[lineNum - 1] = content] of an array that is long enough; a negative
    index would set a property that [join] does not read. *)
Definition overlay_line (overlaid : list jsstring) (kv : Z * jsstring) : list jsstring :=
  if (kv.1 - 1 <? 0)%Z then overlaid else <[Z.to_nat (kv.1 - 1) := kv.2]> overlaid.

Definition overlay (current : list jsstring) (lines : gmap Z jsstring) : list jsstring :=
  let padded := current ++ replicate (Z.to_nat (max_cached_line lines) - length current) [] in
  fold_left overlay_line (map_to_list lines) padded.

Record HashlineRecoveryResult := mkRecovered {
  rr_lines : jsstring;
  rr_firstChangedLine : option Z;
  rr_warnings : list jsstring
}.

Section recovery.
Context `{LineHasher, LineDiffer, PatchLib}.

Definition vouched (lines : gmap Z jsstring) (anchor : Anchor) : bool :=
  match lines !! a_line anchor with
  | None => false
  | Some cachedLine => bool_decide (computeLineHash (a_line anchor) cachedLine = a_hash anchor)
  end.

(** The work on a snapshot. *)
Definition recover_from (lines : gmap Z jsstring) (currentText : jsstring)
    (edits : list HashlineEdit) (options : HashlineApplyOptions)
    : result HashlineError (option HashlineRecoveryResult) :=
  if negb (forallb (vouched lines) (collectEditAnchors edits)) then Ok None
  else
    let previousText := join [LF] (overlay (split_char LF currentText) lines) in
    if bool_decide (previousText = currentText) then Ok None
    else
      match applyHashlineEdits previousText edits options with
      | Err (MismatchError _ _) => Ok None
      | Err err => Err err
      | Ok applied =>
          if bool_decide (ar_lines applied = previousText) then Ok None
          else
            match applyPatch currentText (structuredPatch previousText (ar_lines applied)) with
            | None => Ok None
            | Some merged =>
                if bool_decide (merged = currentText) then Ok None
                else
                  let mergedDiff := generateDiffString currentText merged 4 in
                  let first := dr_firstChangedLine mergedDiff in
                  Ok (Some (mkRecovered merged
                    (match first with Some n => Some n | None => ar_firstChangedLine applied end)
                    (if bool_decide (is_Some first)
                     then HASHLINE_RECOVERY_WARNING :: ar_warnings applied
                     else ar_warnings applied)))
            end
      end.

Context `{SnapshotStore}.

(** [cache.get] may reorder the cache. *)
Definition tryRecoverHashlineWithCache (cache : FileReadCache) (absolutePath currentText : jsstring)
    (edits : list HashlineEdit) (options : HashlineApplyOptions)
    : result HashlineError (option HashlineRecoveryResult) * FileReadCache :=
  let (snapshot, cache') := cache_get absolutePath cache in
  (match snapshot with
   | None => Ok None
   | Some s => if bool_decide (sn_lines s = ∅) then Ok None
               else recover_from (sn_lines s) currentText edits options
   end, cache').

(** [applyHashlineEditsWithRecovery] of execute.ts. *)
Definition applyHashlineEditsWithRecovery (cache : FileReadCache) (absolutePath text : jsstring)
    (edits : list HashlineEdit) (options : HashlineApplyOptions)
    : result HashlineError HashlineApplyResult * FileReadCache :=
  match applyHashlineEdits text edits options with
  | Ok r => (Ok r, cache)
  | Err (MismatchError ms ls) =>
      let (recovered, cache') := tryRecoverHashlineWithCache cache absolutePath text edits options in
      (match recovered with
       | Err e => Err e
       | Ok None => Err (MismatchError ms ls)
       | Ok (Some r) => Ok (mkApplyResult (rr_lines r) (rr_firstChangedLine r) (rr_warnings r))
       end, cache')
  | Err err => (Err err, cache)
  end.

End recovery.

(** ** The overlay, line by line *)

Lemma max_cached_fold (kvs : list (Z * jsstring)) m :
  let mx := fold_left (fun mx kv => if (mx <? kv.1)%Z then kv.1 else mx) kvs m in
  (m <= mx)%Z /\ forall kv, kv ∈ kvs -> (kv.1 <= mx)%Z.
Proof.
  revert m. induction kvs as [|kv kvs IH]; intros m; simpl; [by split; [lia|intros ? ?%elem_of_nil]|].
  destruct (IH (if (m <? kv.1)%Z then kv.1 else m)) as [Hm Hk]. destruct (Z.ltb_spec m kv.1).
  - split; [lia|]. intros kv' [->|?]%elem_of_cons; [lia|auto].
  - split; [lia|]. intros kv' [->|?]%elem_of_cons; [lia|auto].
Qed.

Lemma max_cached_bound lines n l : lines !! n = Some l -> (n <= max_cached_line lines)%Z.
Proof.
  intros Hl%elem_of_map_to_list. by apply (proj2 (max_cached_fold (map_to_list lines) 0) (n, l)).
Qed.

Lemma overlay_line_length o kv : length (overlay_line o kv) = length o.
Proof. unfold overlay_line. case_match; [done|]. apply length_insert. Qed.

Lemma overlay_fold_length kvs o : length (fold_left overlay_line kvs o) = length o.
Proof. revert o. induction kvs as [|kv kvs IH]; intros o; simpl; [done|]. by rewrite IH, overlay_line_length. Qed.

Lemma overlay_length current lines :
  arr_len (overlay current lines) = Z.max (arr_len current) (max_cached_line lines).
Proof.
  unfold overlay, arr_len. rewrite overlay_fold_length, length_app, length_replicate.
  pose proof (proj1 (max_cached_fold (map_to_list lines) 0)) as Hm. unfold max_cached_line. lia.
Qed.

(** A line no entry names keeps its content; an entry sets its line. *)
Lemma overlay_fold_other kvs o (i : nat) :
  (forall kv, kv ∈ kvs -> kv.1 <> (Z.of_nat i + 1)%Z) -> fold_left overlay_line kvs o !! i = o !! i.
Proof.
  revert o. induction kvs as [|kv kvs IH]; intros o Hk; simpl; [done|].
  rewrite IH by (intros; apply Hk; by right). unfold overlay_line.
  destruct (Z.ltb_spec (kv.1 - 1) 0); [done|]. apply list_lookup_insert_ne.
  specialize (Hk kv ltac:(by left)). lia.
Qed.

Lemma overlay_fold_set kvs o (i : nat) l :
  NoDup kvs.*1 -> (Z.of_nat i + 1, l)%Z ∈ kvs -> i < length o ->
  fold_left overlay_line kvs o !! i = Some l.
Proof.
  revert o. induction kvs as [|kv kvs IH]; intros o Hnd Hin Hi; [by apply elem_of_nil in Hin|].
  rewrite fmap_cons in Hnd. apply NoDup_cons in Hnd as [Hnot Hnd]. simpl.
  apply elem_of_cons in Hin as [<-|Hin].
  - rewrite overlay_fold_other.
    + unfold overlay_line. simpl. destruct (Z.ltb_spec (Z.of_nat i + 1 - 1) 0); [lia|].
      replace (Z.to_nat (Z.of_nat i + 1 - 1)) with i by lia. by apply list_lookup_insert_eq.
    + intros kv Hkv E. apply Hnot. simpl. rewrite <- E. by apply list_elem_of_fmap_2.
  - apply IH; [done|done|]. by rewrite overlay_line_length.
Qed.

Lemma overlay_cached current lines n l :
  (1 <= n)%Z -> lines !! n = Some l -> arr_get (overlay current lines) (n - 1) = Some l.
Proof.
  intros Hn Hl. pose proof (max_cached_bound _ _ _ Hl) as Hmx.
  pose proof (overlay_length current lines) as Hlen. unfold arr_len in Hlen.
  replace (n - 1)%Z with (Z.of_nat (Z.to_nat (n - 1))) by lia. rewrite arr_get_nat.
  unfold overlay in *. rewrite overlay_fold_length in Hlen. apply overlay_fold_set.
  - apply NoDup_fst_map_to_list.
  - apply elem_of_map_to_list. by replace (Z.of_nat (Z.to_nat (n - 1)) + 1)%Z with n by lia.
  - lia.
Qed.

Lemma overlay_forall (P : jsstring -> Prop) current lines :
  P [] -> Forall P current -> map_Forall (fun _ => P) lines -> Forall P (overlay current lines).
Proof.
  intros Hnil Hc Hl. unfold overlay.
  assert (Forall (fun kv => P kv.2) (map_to_list lines)) as Hkvs.
  { apply Forall_forall. intros [n l] Hin%elem_of_map_to_list. exact (Hl n l Hin). }
  assert (Forall P (current ++ replicate (Z.to_nat (max_cached_line lines) - length current) [])) as Hp.
  { apply Forall_app. split; [done|]. by apply Forall_replicate. }
  revert Hp. generalize (current ++ replicate (Z.to_nat (max_cached_line lines) - length current) []).
  induction Hkvs as [|kv kvs Hkv Hkvs IH]; intros o Ho; [done|]. simpl. apply IH.
  unfold overlay_line. case_match; [done|]. by apply Forall_insert.
Qed.

(** ** What recovery guarantees *)

Section guarantees.
Context `{LineHasher, LineDiffer, PatchLib}.

(** Snapshots hold lines of a file: numbers from 1, no line feed in a line. *)
Definition snapshot_ok (lines : gmap Z jsstring) : Prop :=
  map_Forall (fun n l => (1 <= n)%Z /\ Forall (fun c => c <> LF) l) lines.

Lemma collectEditAnchors_batch edits : collectEditAnchors edits = batch_anchors edits.
Proof.
  unfold collectEditAnchors, batch_anchors. apply list_bind_ext; [|done].
  intros [[| | |]|]; done.
Qed.

Lemma overlay_ne current lines : current <> [] -> overlay current lines <> [].
Proof.
  intros Hc Ho. pose proof (overlay_length current lines) as Hl. rewrite Ho in Hl.
  unfold arr_len in Hl. destruct current; [done|]. simpl in Hl. lia.
Qed.

Lemma split_overlay text lines :
  snapshot_ok lines ->
  split_char LF (join [LF] (overlay (split_char LF text) lines)) = overlay (split_char LF text) lines.
Proof.
  intros Hs. apply split_join; [apply overlay_ne, split_char_nonempty|].
  apply overlay_forall; [constructor|apply split_char_pieces|].
  intros n l Hl. by apply (Hs n l Hl).
Qed.

(** Anchors the snapshot vouches for are valid in the overlaid text. *)
Lemma vouched_valid text lines a :
  snapshot_ok lines -> vouched lines a = true ->
  valid_anchor (overlay (split_char LF text) lines) a.
Proof.
  intros Hs. unfold vouched. destruct (lines !! a_line a) as [l|] eqn:El; [|done].
  intros Hh%bool_decide_eq_true. destruct (Hs _ _ El) as [Hn _].
  pose proof (overlay_cached (split_char LF text) _ _ _ Hn El) as Ho.
  split.
  - apply arr_get_Some_range in Ho. unfold in_file. lia.
  - right. unfold line_at. by rewrite Ho.
Qed.

Lemma vouched_apply text lines edits options :
  snapshot_ok lines -> forallb (vouched lines) (collectEditAnchors edits) = true ->
  exists r, applyHashlineEdits (join [LF] (overlay (split_char LF text) lines)) edits options = Ok r.
Proof.
  intros Hs Hv. destruct (decide (edits = [])) as [->|Hne]; [by eexists|].
  assert (Hval : Forall (edit_valid (overlay (split_char LF text) lines)) edits).
  { rewrite collectEditAnchors_batch in Hv. apply validate_ok.
    unfold validateHashlineAnchors. apply validate_anchors_ok, Forall_forall. intros a Ha.
    apply vouched_valid; [done|]. rewrite forallb_forall in Hv. by apply Hv, list_elem_of_In. }
  rewrite <- split_overlay in Hval by done.
  destruct (apply_accepted _ edits options Hne Hval) as (first & -> & _). by eexists.
Qed.

Lemma recover_from_inv lines text edits options r :
  recover_from lines text edits options = Ok (Some r) ->
  forallb (vouched lines) (collectEditAnchors edits) = true /\
  exists applied,
    let previous := join [LF] (overlay (split_char LF text) lines) in
    applyHashlineEdits previous edits options = Ok applied
    /\ ar_lines applied <> previous
    /\ applyPatch text (structuredPatch previous (ar_lines applied)) = Some (rr_lines r)
    /\ rr_lines r <> text.
Proof.
  unfold recover_from. destruct (forallb _ _); simpl; [|done]. case_bool_decide; [done|].
  destruct (applyHashlineEdits _ edits options) as [applied|e]; [|by destruct e].
  case_bool_decide; [done|]. destruct (applyPatch _ _) as [merged|] eqn:Em; [|done].
  case_bool_decide; [done|]. intros [= <-]. split; [done|]. by exists applied.
Qed.

Context `{SnapshotStore}.

Lemma recovery_cache_same `{!SnapshotStoreLaws} cache path text edits options k :
  snapshot_of (applyHashlineEditsWithRecovery cache path text edits options).2 k = snapshot_of cache k.
Proof.
  unfold applyHashlineEditsWithRecovery. destruct (applyHashlineEdits _ _ _) as [|[]]; try done.
  unfold snapshot_of. simpl. by rewrite lru_get_same.
Qed.

(** C32: applying with recovery either applies the batch to the text as it is, or
    (its anchors being stale) returns a patched text under strict conditions: the
    cached snapshot has every anchored line with the anchor's hash, the batch was
    applied to the text the model saw, and the patch from there to its result
    applies to the current text and changes it.  In every other case the error is
    the one of the direct application: recovery adds no failure of its own.  The
    snapshots of the cache stay as they are. *)
Theorem recovery_sound `{!SnapshotStoreLaws} cache path text edits options :
  (forall s, snapshot_of cache path = Some s -> snapshot_ok (sn_lines s)) ->
  let '(res, cache') := applyHashlineEditsWithRecovery cache path text edits options in
  match res with
  | Ok r =>
      applyHashlineEdits text edits options = Ok r \/
      exists s applied,
        let previous := join [LF] (overlay (split_char LF text) (sn_lines s)) in
        snapshot_of cache path = Some s
        /\ Forall (fun a => exists l, sn_lines s !! a_line a = Some l
                     /\ computeLineHash (a_line a) l = a_hash a) (batch_anchors edits)
        /\ applyHashlineEdits previous edits options = Ok applied
        /\ applyPatch text (structuredPatch previous (ar_lines applied)) = Some (ar_lines r)
        /\ ar_lines r <> text
  | Err e => applyHashlineEdits text edits options = Err e
  end /\ forall k, snapshot_of cache' k = snapshot_of cache k.
Proof.
  intros Hok. pose proof (recovery_cache_same cache path text edits options) as Hsame.
  destruct (applyHashlineEditsWithRecovery _ _ _ _ _) as [res cache'] eqn:E. split; [|done].
  revert E. unfold applyHashlineEditsWithRecovery.
  destruct (applyHashlineEdits text edits options) as [r|e] eqn:Ea; [intros [= <- _]; by left|].
  destruct e; try (by intros [= <- _]). unfold tryRecoverHashlineWithCache, cache_get.
  fold (snapshot_of cache path). destruct (snapshot_of cache path) as [s|]; [|by intros [= <- _]].
  case_bool_decide; [by intros [= <- _]|]. specialize (Hok s eq_refl).
  destruct (recover_from _ _ _ _) as [[r|]|e] eqn:Er; intros [= <- _].
  - right. apply recover_from_inv in Er as (Hv & applied & Happ & _ & Hp & Hne).
    exists s, applied. split_and!; [done| |done|done|done].
    rewrite <- collectEditAnchors_batch, Forall_forall. intros a Ha.
    rewrite forallb_forall in Hv. specialize (Hv a ltac:(by apply list_elem_of_In)).
    unfold vouched in Hv. destruct (sn_lines s !! a_line a) as [l|]; [|done].
    apply bool_decide_eq_true in Hv. eauto.
  - done.
  - exfalso. revert Er. unfold recover_from. destruct (forallb _ _) eqn:Hv; simpl; [|done].
    case_bool_decide; [done|]. destruct (vouched_apply text _ _ options Hok Hv) as [applied ->].
    case_bool_decide; [done|]. by repeat case_match.
Qed.

(** A batch that replaces or deletes a range of three or more lines is never
    recovered, whatever the cache holds: the inner lines of a range carry a
    placeholder instead of a hash, which no cached line can have. *)
Theorem long_range_not_recovered cache path text edits options range :
  (a_line (r_start range) + 2 <= a_line (r_end range))%Z ->
  expandRange range ⊆ batch_anchors edits ->
  (applyHashlineEditsWithRecovery cache path text edits options).1
  = applyHashlineEdits text edits options.
Proof.
  intros Hlong Hsub. set (n := (a_line (r_start range) + 1)%Z).
  assert (Hin : mkAnchor n RANGE_INTERIOR_HASH None ∈ batch_anchors edits).
  { apply Hsub. unfold expandRange. apply list_elem_of_fmap. exists n. split.
    - rewrite !(proj2 (Z.eqb_neq _ _)) by lia. done.
    - apply elem_of_int_range. lia. }
  assert (Hv : forall lines, forallb (vouched lines) (collectEditAnchors edits) = false).
  { intros lines. apply not_true_iff_false. rewrite forallb_forall, collectEditAnchors_batch.
    intros Hall. apply list_elem_of_In in Hin. specialize (Hall _ Hin). revert Hall.
    unfold vouched. destruct (lines !! _) as [l|]; [|done]. intros Hh%bool_decide_eq_true.
    pose proof (computeLineHash_bigram n l) as Hb. cbn [a_line a_hash] in Hh. by rewrite Hh in Hb. }
  unfold applyHashlineEditsWithRecovery. destruct (applyHashlineEdits _ _ _) as [|[]]; try done.
  unfold tryRecoverHashlineWithCache, cache_get. destruct (_ ≫= _) as [s|]; [|done].
  case_bool_decide; [done|]. unfold recover_from. by rewrite Hv.
Qed.

End guarantees.

(** ** Snapshots stay well formed *)

Lemma record_snapshot_ok `{SnapshotStore, !SnapshotStoreLaws} k start lines now c :
  cache_wf c -> (1 <= start)%Z -> Forall (Forall (fun x => x <> LF)) lines ->
  (forall k' s, snapshot_of c k' = Some s -> snapshot_ok (sn_lines s)) ->
  forall k' s, snapshot_of (recordContiguous k start lines now c) k' = Some s -> snapshot_ok (sn_lines s).
Proof.
  intros Hwf Hstart Hlf Hc k' s. unfold recordContiguous. case_bool_decide; [by apply Hc|].
  set (entries := imap _ lines). destruct (record_spec k entries now c Hwf) as (_ & Hs & Ho).
  destruct (decide (k' = k)) as [->|Hne].
  - rewrite Hs. intros [= <-]. cbn [sn_lines]. intros n l. rewrite set_all_lookup. unfold entries.
    rewrite contiguous_filter. destruct (arr_get lines (n - start)) as [x|] eqn:Ex.
    + intros [= <-]. pose proof (arr_get_Some_range _ _ _ Ex). split; [lia|].
      unfold arr_get in Ex. destruct (_ <? _)%Z; [done|]. by eapply Forall_lookup_1 in Hlf.
    + simpl. destruct (snapshot_of c k) as [s0|] eqn:Es; [|done].
      destruct (hasConflict _ _); [done|]. apply (Hc k s0 Es).
  - destruct (Ho k' Hne) as [-> | ->]; [apply Hc|done].
Qed.

(** ** Examples *)

Fixpoint common_prefix (a b : list jsstring) : nat :=
  match a, b with
  | x :: a', y :: b' => if bool_decide (x = y) then S (common_prefix a' b') else 0
  | _, _ => 0
  end.

(** A patch of one hunk without context, to evaluate the definitions on examples:
    the place, the lines it removes and the lines it adds. *)
Definition sample_patch : PatchLib :=
  {| patch := nat * list jsstring * list jsstring;
     structuredPatch := fun old new =>
       let o := split_char LF old in
       let n := split_char LF new in
       let p := common_prefix o n in
       let s := common_prefix (rev (drop p o)) (rev (drop p n)) in
       (p, take (length o - p - s) (drop p o), take (length n - p - s) (drop p n));
     applyPatch := fun text '(p, o, n) =>
       let cur := split_char LF text in
       if bool_decide (take (length o) (drop p cur) = o)
       then Some (join [LF] (take p cur ++ n ++ drop (p + length o) cur)) else None |}.

#[local] Existing Instance sample_hasher.
#[local] Existing Instance sample_store.
#[local] Existing Instance sample_patch.

Definition text_of (lines : list jsstring) : jsstring := join [LF] lines.

(** Three lines were read; then the third one changed on disk. *)
Definition sample_cache : FileReadCache :=
  recordContiguous (js "/f") 1 [js "a"; js "b"; js "c"] 5 new_cache.

Lemma sample_cache_ok k s : snapshot_of sample_cache k = Some s -> snapshot_ok (sn_lines s).
Proof.
  apply (record_snapshot_ok (H0 := sample_store_laws)); [apply (new_cache_wf (H0 := sample_store_laws))|lia| |].
  - repeat constructor; discriminate.
  - intros k' s'. by vm_compute.
Qed.

Lemma recovery_sound_witness :
  let edits := [EInsert (AfterAnchor (mkAnchor 3 (computeLineHash 3 (js "c")) None)) (js "x") 1 0] in
  let current := text_of [js "a"; js "b"; js "d"; []] in
  let res := (@applyHashlineEditsWithRecovery _ (sample_differ None) _ _
                sample_cache (js "/f") current edits (mkOptions None)).1 in
  (exists r, res = Ok r /\ ar_lines r = text_of [js "a"; js "b"; js "d"; js "x"; []]
             /\ ar_warnings r = [HASHLINE_RECOVERY_WARNING])
  /\ match res with
     | Ok r => applyHashlineEdits current edits (mkOptions None) = Ok r \/
               exists s, snapshot_of sample_cache (js "/f") = Some s
     | Err _ => False
     end.
Proof.
  intros edits current res. split; [eexists; split; [vm_compute; reflexivity|vm_compute; done]|].
  pose proof (@recovery_sound _ (sample_differ None) _ _ sample_store_laws
    sample_cache (js "/f") current edits (mkOptions None) (sample_cache_ok _)) as Hs.
  subst res. destruct (applyHashlineEditsWithRecovery _ _ _ _ _) as [res cache'] eqn:E.
  destruct res as [r|e]; simpl in *.
  - destruct Hs as [[Hd|(s & _ & Hs & _)] _]; eauto.
  - exfalso. apply (f_equal (fun x => is_ok x.1)) in E. vm_compute in E. discriminate.
Defined.

(** The same stale line, but the batch deletes lines 1 to 3. *)
Lemma long_range_not_recovered_witness :
  let a n l := mkAnchor n (computeLineHash n l) None in
  let range := mkRange (a 1%Z (js "a")) (a 3%Z (js "c")) in
  let edits := (fun x => EDelete x 1 0 None) <$> expandRange range in
  let current := text_of [js "a"; js "b"; js "d"; []] in
  (@applyHashlineEditsWithRecovery _ (sample_differ None) _ _
     sample_cache (js "/f") current edits (mkOptions None)).1
  = applyHashlineEdits current edits (mkOptions None)
  /\ is_ok (applyHashlineEdits current edits (mkOptions None)) = false.
Proof.
  intros a range edits current. split; [|vm_compute; reflexivity].
  apply (@long_range_not_recovered _ (sample_differ None) _ _
    sample_cache (js "/f") current edits (mkOptions None) range).
  - simpl. lia.
  - intros x Hx. subst edits. revert Hx. vm_compute. done.
Defined.
