(* ===== verification/TextNormalize.v ===== *)
(** * Line endings and byte order marks (edit/normalize.ts)

    Files are edited as text with line feeds only; the ending and the mark that
    were found are put back when the file is written. *)

From S2P Require Import Prelude JsText.

Inductive LineEnding := CRLF | LFOnly.

#[export] Instance LineEnding_eq_dec : EqDecision LineEnding.
Proof. solve_decision. Defined.

(** [s.indexOf(pattern)], [None] for -1. *)
Fixpoint indexOf (pattern s : jsstring) : option nat :=
  if starts_with pattern s then Some 0
  else match s with
       | [] => None
       | _ :: s' => S <$> indexOf pattern s'
       end.

Definition detectLineEnding (content : jsstring) : LineEnding :=
  match indexOf [LF] content, indexOf [CR; LF] content with
  | None, _ => LFOnly
  | _, None => LFOnly
  | Some lfIdx, Some crlfIdx => if (crlfIdx <? lfIdx)%nat then CRLF else LFOnly
  end.

(** [text.replace(/\r\n?/g, "\n")]; [after_cr] says that the character before was a
    carriage return, already replaced. *)
Fixpoint normalize_from (after_cr : bool) (text : jsstring) : jsstring :=
  match text with
  | [] => []
  | c :: s =>
      if (c =? CR)%N then LF :: normalize_from true s
      else if (c =? LF)%N && after_cr then normalize_from false s
      else c :: normalize_from false s
  end.

Definition normalizeToLF (text : jsstring) : jsstring := normalize_from false text.

(** [text.replace(/\n/g, "\r\n")]. *)
Definition crlf_all (text : jsstring) : jsstring :=
  text ≫= fun c => if (c =? LF)%N then [CR; LF] else [c].

Definition restoreLineEndings (text : jsstring) (ending : LineEnding) : jsstring :=
  match ending with CRLF => crlf_all text | LFOnly => text end.

Definition BOM : N := 65279.

(** The mark (as a string) and the text without it. *)
Definition stripBom (content : jsstring) : jsstring * jsstring :=
  match content with
  | c :: text => if (c =? BOM)%N then ([BOM], text) else ([], content)
  | [] => ([], [])
  end.

(** ** Facts *)

Lemma normalize_no_cr b text : Forall (fun c => c <> CR) (normalize_from b text).
Proof.
  revert b. induction text as [|c s IH]; intros b; simpl; [constructor|].
  destruct (N.eqb_spec c CR); [by constructor|].
  destruct ((c =? LF)%N && b); [done|by constructor].
Qed.

Lemma normalize_id t : Forall (fun c => c <> CR) t -> normalizeToLF t = t.
Proof.
  unfold normalizeToLF. induction 1 as [|c t Hc Ht IH]; simpl; [done|].
  apply N.eqb_neq in Hc as ->. rewrite andb_false_r. by rewrite IH.
Qed.

Lemma normalize_crlf t : Forall (fun c => c <> CR) t -> normalizeToLF (crlf_all t) = t.
Proof.
  unfold normalizeToLF, crlf_all. induction 1 as [|c t Hc Ht IH]; [done|].
  rewrite bind_cons. destruct (N.eqb_spec c LF) as [->|Hl]; simpl; [by rewrite IH|].
  apply N.eqb_neq in Hc as ->. rewrite andb_false_r. by rewrite IH.
Qed.

Lemma starts_with_one a c s : starts_with [a] (c :: s) = (c =? a)%N.
Proof.
  unfold starts_with. simpl. destruct (N.eqb_spec c a) as [->|]; [by apply bool_decide_true|].
  apply bool_decide_false. congruence.
Qed.

Lemma starts_with_two_ne a b c s : c <> a -> starts_with [a; b] (c :: s) = false.
Proof. intros. apply bool_decide_false. destruct s; simpl; congruence. Qed.

(** The ending is decided by the first line feed. *)
Lemma detect_cons c t :
  c <> CR -> c <> LF -> detectLineEnding (c :: t) = detectLineEnding t.
Proof.
  intros Hc Hl. unfold detectLineEnding. cbn [indexOf].
  rewrite starts_with_one, starts_with_two_ne by done. apply N.eqb_neq in Hl as ->.
  destruct (indexOf [LF] t), (indexOf [CR; LF] t); simpl; try done.
Qed.

Lemma detect_no_cr t : Forall (fun c => c <> CR) t -> detectLineEnding t = LFOnly.
Proof.
  induction 1 as [|c t Hc Ht IH]; [done|]. destruct (N.eqb_spec c LF) as [->|Hl].
  - unfold detectLineEnding. change (indexOf [LF] (LF :: t)) with (Some 0).
    by destruct (indexOf [CR; LF] (LF :: t)) as [[]|].
  - by rewrite detect_cons.
Qed.

Lemma detect_crlf t : Forall (fun c => c <> CR) t -> LF ∈ t -> detectLineEnding (crlf_all t) = CRLF.
Proof.
  induction 1 as [|c t Hc Ht IH]; [by intros ?%elem_of_nil|]. intros Hin.
  unfold crlf_all. rewrite bind_cons. fold (crlf_all t).
  destruct (N.eqb_spec c LF) as [->|Hl]; [done|]. cbn [app].
  rewrite detect_cons by done. apply IH. by apply elem_of_cons in Hin as [?|?].
Qed.

Lemma crlf_no_lf t : LF ∉ t -> crlf_all t = t.
Proof.
  induction t as [|c t IH]; [done|]. intros [Hc Ht]%not_elem_of_cons. unfold crlf_all.
  rewrite bind_cons. fold (crlf_all t). destruct (N.eqb_spec c LF); [congruence|].
  simpl. by rewrite IH.
Qed.

(** a text whose lines all end the same way (in line feeds, or all in carriage
    return and line feed) is not changed by normalising it and restoring the
    detected ending, and its normal form has no carriage return; so a file that is
    consistent keeps the endings of the lines an edit does not touch. *)
Theorem line_endings_roundtrip t ending :
  Forall (fun c => c <> CR) t ->
  let text := restoreLineEndings t ending in
  normalizeToLF text = t /\ restoreLineEndings (normalizeToLF text) (detectLineEnding text) = text.
Proof.
  intros Ht text. subst text. destruct ending; simpl.
  - rewrite normalize_crlf by done. split; [done|]. destruct (decide (LF ∈ t)).
    + by rewrite detect_crlf.
    + rewrite crlf_no_lf by done. by rewrite detect_no_cr.
  - rewrite normalize_id, detect_no_cr by done. done.
Qed.

Lemma line_endings_roundtrip_witness :
  let text := js "a" ++ [CR; LF] ++ js "b" ++ [CR; LF] in
  normalizeToLF text = js "a" ++ [LF] ++ js "b" ++ [LF]
  /\ restoreLineEndings (normalizeToLF text) (detectLineEnding text) = text.
Proof.
  apply (line_endings_roundtrip (js "a" ++ [LF] ++ js "b" ++ [LF]) CRLF).
  repeat constructor; discriminate.
Defined.

(** The ending of the first line stands for the whole file: two lines that end in a
    line feed alone are rewritten because the first one ends in both characters. *)
Lemma mixed_endings_rewritten :
  let text := js "a" ++ [CR; LF] ++ js "b" ++ [LF] ++ js "c" ++ [LF] in
  detectLineEnding text = CRLF
  /\ restoreLineEndings (normalizeToLF text) (detectLineEnding text)
     = js "a" ++ [CR; LF] ++ js "b" ++ [CR; LF] ++ js "c" ++ [CR; LF].
Proof. by vm_compute. Qed.

Lemma stripBom_app content : (stripBom content).1 ++ (stripBom content).2 = content.
Proof. destruct content as [|c s]; simpl; [done|]. by destruct (N.eqb_spec c BOM) as [->|]. Qed.
