(* ===== verification/HashlineInput.v ===== *)
(** * Sections of an edit input (hashline/input.ts)

    An input holds sections, each opened by a header line that names a file.  The
    functions of the module path of the platform are parameters ([PathLib]). *)

From S2P Require Import Prelude JsText LineHash HashlineTypes TextNormalize.

Class PathLib := {
  path_isAbsolute : jsstring -> bool;
  path_resolve : jsstring -> jsstring;
  path_relative : jsstring -> jsstring -> jsstring
}.

Record HashlineInputSection := mkSection { sec_path : jsstring; sec_diff : jsstring }.

Record SplitHashlineOptions := mkSplitOptions { so_cwd : option jsstring; so_path : option jsstring }.

Inductive InputError :=
| HeaderEmpty
| InputMustBegin (preview : jsstring).

(** A string option that is missing or empty is false. *)
Definition given (o : option jsstring) : option jsstring :=
  match o with Some [] => None | o => o end.

Definition is_quote (c : N) : bool := (c =? 34)%N || (c =? 39)%N.

Definition unquoteHashlinePath (pathText : jsstring) : jsstring :=
  if (length pathText <? 2)%nat then pathText
  else match head pathText, last pathText with
       | Some a, Some b =>
           if is_quote a && (a =? b)%N then removelast (tail pathText) else pathText
       | _, _ => pathText
       end.

Section input.
Context `{PathLib}.

Definition normalizeHashlinePath (rawPath : jsstring) (cwd : option jsstring) : jsstring :=
  let unquoted := unquoteHashlinePath (trim rawPath) in
  match given cwd with
  | None => unquoted
  | Some cwd =>
      if negb (path_isAbsolute unquoted) then unquoted
      else
        let relative := path_relative (path_resolve cwd) (path_resolve unquoted) in
        let isWithinCwd := bool_decide (relative = [])
                           || (negb (starts_with (js "..") relative) && negb (path_isAbsolute relative)) in
        if isWithinCwd then (if bool_decide (relative = []) then js "." else relative) else unquoted
  end.

(** [Ok None] is [null]. *)
Definition parseHashlineHeaderLine (line : jsstring) (cwd : option jsstring)
    : result InputError (option HashlineInputSection) :=
  let trimmed := trimEnd line in
  match head trimmed with
  | Some c =>
      if (c =? HL_FILE_PREFIX)%N then
        let rest := (span (fun c => (c =? HL_FILE_PREFIX)%N) trimmed).2 in
        if bool_decide (trim rest = []) then Err HeaderEmpty
        else
          let parsedPath := normalizeHashlinePath rest cwd in
          if bool_decide (parsedPath = []) then Err HeaderEmpty
          else Ok (Some (mkSection parsedPath []))
      else Ok None
  | None => Ok None
  end.

Definition isPatchEnvelopeMarker (line : jsstring) : bool :=
  let trimmed := trimEnd line in
  bool_decide (trimmed = BEGIN_PATCH_MARKER) || bool_decide (trimmed = END_PATCH_MARKER).

Definition strip_mark (input : jsstring) : jsstring := (stripBom input).2.

Fixpoint drop_leading_blank (lines : list jsstring) : list jsstring :=
  match lines with
  | [] => []
  | l :: rest =>
      let head := drop_last_cr l in
      if bool_decide (trim head = []) || bool_decide (trimEnd head = BEGIN_PATCH_MARKER)
      then drop_leading_blank rest else lines
  end.

Definition stripLeadingBlankLines (input : jsstring) : jsstring :=
  join [LF] (drop_leading_blank (split_char LF (strip_mark input))).

Definition containsRecognizableHashlineOperations (input : jsstring) : bool :=
  existsb (fun line => match line with c :: _ => is_op_char c | [] => false end) (split_lines input).

(** [lines.some(line => parseHashlineHeaderLine(line) !== null)]: stops at the first
    header, throws what the call throws. *)
Fixpoint some_header (lines : list jsstring) (cwd : option jsstring) : result InputError bool :=
  match lines with
  | [] => Ok false
  | l :: rest =>
      let! h := parseHashlineHeaderLine l cwd in
      match h with Some _ => Ok true | None => some_header rest cwd end
  end.

Definition normalizeFallbackInput (input : jsstring) (options : SplitHashlineOptions)
    : result InputError jsstring :=
  let! hasExplicitHeader := some_header (split_lines (strip_mark input)) (so_cwd options) in
  if (hasExplicitHeader : bool) then Ok input
  else
    match given (so_path options) with
    | None => Ok input
    | Some path =>
        if negb (containsRecognizableHashlineOperations input) then Ok input
        else
          let fallbackPath := normalizeHashlinePath path (so_cwd options) in
          if bool_decide (fallbackPath = []) then Ok input
          else Ok ([HL_FILE_PREFIX] ++ fallbackPath ++ [LF] ++ input)
    end.

Record split_state := mkSplit {
  sp_sections : list HashlineInputSection;
  sp_currentPath : jsstring;
  sp_currentLines : list jsstring
}.

Definition flush (st : split_state) : split_state :=
  if bool_decide (sp_currentPath st = []) then st
  else
    let hasOps := existsb (fun line => negb (bool_decide (trim line = []))) (sp_currentLines st) in
    mkSplit (if hasOps
             then sp_sections st ++ [mkSection (sp_currentPath st) (join [LF] (sp_currentLines st))]
             else sp_sections st)
      (sp_currentPath st) [].

Fixpoint split_loop (lines : list jsstring) (cwd : option jsstring) (st : split_state)
    : result InputError split_state :=
  match lines with
  | [] => Ok st
  | line :: rest =>
      let trimmed := trimEnd line in
      if bool_decide (trimmed = END_PATCH_MARKER) || bool_decide (trimmed = ABORT_MARKER) then Ok st
      else if isPatchEnvelopeMarker line then split_loop rest cwd st
      else
        let! header := parseHashlineHeaderLine line cwd in
        match header with
        | Some h =>
            let st := flush st in
            split_loop rest cwd (mkSplit (sp_sections st) (sec_path h) [])
        | None =>
            split_loop rest cwd
              (mkSplit (sp_sections st) (sp_currentPath st) (sp_currentLines st ++ [line]))
        end
  end.

Definition splitHashlineInputs (input : jsstring) (options : SplitHashlineOptions)
    : result InputError (list HashlineInputSection) :=
  let! normalized := normalizeFallbackInput input options in
  let lines := split_lines (stripLeadingBlankLines normalized) in
  let firstLine := default [] (head lines) in
  let! header := parseHashlineHeaderLine firstLine (so_cwd options) in
  match header with
  | None => Err (InputMustBegin (take 120 firstLine))
  | Some _ =>
      let! st := split_loop lines (so_cwd options) (mkSplit [] [] []) in
      Ok (sp_sections (flush st))
  end.

Definition splitHashlineInput (input : jsstring) (options : SplitHashlineOptions)
    : result InputError (option HashlineInputSection) :=
  let! sections := splitHashlineInputs input options in Ok (head sections).

End input.

(** ** Writing sections and reading them back *)

Section roundtrip.
Context `{PathLib}.

(** Paths a header line can carry as they are. *)
Definition path_ok (cwd : option jsstring) (p : jsstring) : Prop :=
  match head p with Some c => is_ws c = false /\ c <> HL_FILE_PREFIX | None => False end
  /\ match last p with Some c => is_ws c = false | None => False end
  /\ unquoteHashlinePath p = p /\ Forall (fun c => c <> LF) p
  /\ (given cwd = None \/ path_isAbsolute p = false).

(** Lines of a section: not a header, not a marker of the envelope. *)
Definition line_ok (l : jsstring) : Prop :=
  Forall (fun c => c <> LF) l /\ last l <> Some CR
  /\ head l <> Some HL_FILE_PREFIX
  /\ trimEnd l ∉ [BEGIN_PATCH_MARKER; END_PATCH_MARKER; ABORT_MARKER].

Definition section_ok (cwd : option jsstring) (s : jsstring * list jsstring) : Prop :=
  path_ok cwd s.1 /\ Forall line_ok s.2 /\ Exists (fun l => trim l <> []) s.2.

Definition section_lines (s : jsstring * list jsstring) : list jsstring :=
  (HL_FILE_PREFIX :: s.1) :: s.2.

Definition write_sections (ss : list (jsstring * list jsstring)) : jsstring :=
  join [LF] (ss ≫= section_lines).

Definition section_of (s : jsstring * list jsstring) : HashlineInputSection :=
  mkSection s.1 (join [LF] s.2).

Lemma trimEnd_cons c s : is_ws c = false -> trimEnd (c :: s) = c :: trimEnd s.
Proof. intros Hc. unfold trimEnd. simpl rev. rewrite trimStart_snoc, rev_app_distr by done. done. Qed.

Lemma trimEnd_head_same l c : head (trimEnd l) = Some c -> head l = Some c.
Proof.
  intros Ht. destruct l as [|d l]; [done|]. destruct (is_ws d) eqn:Ed.
  - revert Ht. unfold trimEnd. simpl rev.
    enough (forall s, trimStart (s ++ [d]) = [] \/ exists k, trimStart (s ++ [d]) = k ++ [d]) as Hs.
    { destruct (Hs (rev l)) as [-> | [k ->]]; [done|]. rewrite rev_app_distr. done. }
    induction s as [|x s IH]; simpl.
    + left. by rewrite trimStart_ws.
    + destruct (is_ws x) eqn:Ex; [by rewrite trimStart_ws|].
      rewrite trimStart_id by done. right. by exists (x :: s).
  - by rewrite trimEnd_cons in Ht.
Qed.

Lemma path_trim cwd p : path_ok cwd p -> trimEnd p = p /\ trim p = p.
Proof.
  intros (Hh & Hl & _). assert (He : trimEnd p = p).
  { apply trimEnd_id. by destruct (last p). }
  split; [done|]. unfold trim. rewrite trimStart_id; [done|]. destruct p; [done|]. apply Hh.
Qed.

Lemma header_line cwd p :
  path_ok cwd p -> parseHashlineHeaderLine (HL_FILE_PREFIX :: p) cwd = Ok (Some (mkSection p [])).
Proof.
  intros Hp. destruct (path_trim cwd p Hp) as [He Ht]. destruct Hp as (Hh & _ & Hq & _ & Hcwd).
  unfold parseHashlineHeaderLine. rewrite trimEnd_cons, He by done. cbn [head].
  rewrite N.eqb_refl. cbn [span]. rewrite N.eqb_refl.
  destruct p as [|c p]; [done|]. cbn [head] in Hh. destruct Hh as [_ Hc].
  cbn [span]. apply N.eqb_neq in Hc as ->. cbn [snd].
  unfold normalizeHashlinePath. rewrite Ht, Hq. rewrite bool_decide_false by done.
  destruct Hcwd as [-> | ->]; [by rewrite bool_decide_false|].
  destruct (given cwd); cbn [negb]; by rewrite bool_decide_false.
Qed.

Lemma plain_line cwd l : head l <> Some HL_FILE_PREFIX -> parseHashlineHeaderLine l cwd = Ok None.
Proof.
  intros Hl. unfold parseHashlineHeaderLine. destruct (head (trimEnd l)) as [c|] eqn:E; [|done].
  destruct (N.eqb_spec c HL_FILE_PREFIX) as [->|]; [|done]. by apply trimEnd_head_same in E.
Qed.

(** A header is no marker. *)
Lemma header_no_marker p : trimEnd (HL_FILE_PREFIX :: p) ∉ [BEGIN_PATCH_MARKER; END_PATCH_MARKER; ABORT_MARKER].
Proof.
  rewrite trimEnd_cons by done. intros Hin. apply elem_of_cons in Hin as [Hin|Hin]; [done|].
  apply elem_of_cons in Hin as [Hin|Hin]; [done|]. apply elem_of_cons in Hin as [Hin|Hin]; [done|].
  by apply elem_of_nil in Hin.
Qed.

Lemma split_loop_step l rest cwd st :
  trimEnd l ∉ [BEGIN_PATCH_MARKER; END_PATCH_MARKER; ABORT_MARKER] ->
  split_loop (l :: rest) cwd st =
    (let! header := parseHashlineHeaderLine l cwd in
     match header with
     | Some h => let st := flush st in split_loop rest cwd (mkSplit (sp_sections st) (sec_path h) [])
     | None => split_loop rest cwd
                 (mkSplit (sp_sections st) (sp_currentPath st) (sp_currentLines st ++ [l]))
     end).
Proof.
  intros Hm. simpl. unfold isPatchEnvelopeMarker.
  rewrite !bool_decide_false; [done|..]; intros E; apply Hm; rewrite E; set_solver.
Qed.

Lemma split_loop_lines ls rest cwd st :
  Forall line_ok ls ->
  split_loop (ls ++ rest) cwd st
  = split_loop rest cwd (mkSplit (sp_sections st) (sp_currentPath st) (sp_currentLines st ++ ls)).
Proof.
  intros Hls. revert st. induction Hls as [|l ls Hl Hls IH]; intros st.
  { rewrite app_nil_r. by destruct st. }
  destruct Hl as (_ & _ & Hh & Hm). cbn [app]. rewrite split_loop_step, plain_line by done.
  rewrite IH. simpl. by rewrite <- (assoc_L app).
Qed.

Lemma flush_section p ls secs :
  p <> [] -> Exists (fun l => trim l <> []) ls ->
  flush (mkSplit secs p ls) = mkSplit (secs ++ [mkSection p (join [LF] ls)]) p [].
Proof.
  intros Hp Hex. unfold flush. cbn [sp_currentPath sp_currentLines sp_sections].
  rewrite bool_decide_false by done.
  assert (existsb (fun line => negb (bool_decide (trim line = []))) ls = true) as ->; [|done].
  apply Exists_exists in Hex as (l & Hin & Hl). apply existsb_exists. exists l.
  split; [by apply list_elem_of_In|]. by rewrite bool_decide_false.
Qed.

Lemma path_ne cwd p : path_ok cwd p -> p <> [].
Proof. intros (Hh & _) ->. done. Qed.

(** The loop on written sections, from a state whose own section is [cur]. *)
Lemma split_loop_sections ss cwd secs cur :
  Forall (section_ok cwd) (cur :: ss) ->
  exists st, split_loop (ss ≫= section_lines) cwd (mkSplit secs cur.1 cur.2) = Ok st
    /\ sp_sections (flush st) = secs ++ (section_of <$> (cur :: ss)).
Proof.
  revert secs cur. induction ss as [|s ss IH]; intros secs cur Hok;
    apply Forall_cons in Hok as [(Hp & Hl & He) Hss].
  { eexists. split; [done|]. rewrite flush_section by eauto using path_ne. done. }
  pose proof Hss as Hss'. apply Forall_cons in Hss' as [(Hp' & Hl' & He') _].
  rewrite bind_cons. unfold section_lines at 1. cbn [app].
  rewrite split_loop_step by apply header_no_marker. rewrite header_line by done.
  rewrite flush_section by eauto using path_ne. cbn zeta. cbn [sp_sections sec_path].
  rewrite split_loop_lines by done. cbn [sp_sections sp_currentPath sp_currentLines app].
  destruct (IH (secs ++ [section_of cur]) s Hss) as (st & Hst & Hf). exists st. split; [exact Hst|].
  rewrite Hf. by rewrite <- (assoc_L app).
Qed.

Lemma section_lines_ok cwd s :
  section_ok cwd s ->
  Forall (fun l => Forall (fun c => c <> LF) l /\ last l <> Some CR) (section_lines s).
Proof.
  intros ((Hh & Hlast & _ & Hlf & _) & Hl & _). constructor.
  - split; [by constructor|]. destruct s as [p ls]; simpl in *. destruct p as [|c p]; [done|].
    change (last (HL_FILE_PREFIX :: c :: p)) with (last (c :: p)).
    destruct (last (c :: p)); [|done]. intros [= ->]. done.
  - eapply Forall_impl; [exact Hl|]. by intros l (? & ? & _).
Qed.

(** sections written as header lines followed by their edit lines are read back
    as they were, in their order: no line moves to another file.  Paths are plain
    (trimmed, unquoted, not absolute inside the working directory), edit lines are
    neither headers nor envelope markers, and each section has some edit. *)
Theorem sections_roundtrip ss options :
  ss <> [] -> Forall (section_ok (so_cwd options)) ss ->
  splitHashlineInputs (write_sections ss) options = Ok (section_of <$> ss).
Proof.
  intros Hne Hok. destruct ss as [|s ss]; [done|]. clear Hne.
  set (lines := (s :: ss) ≫= section_lines).
  assert (Hlines : lines = (HL_FILE_PREFIX :: s.1) :: s.2 ++ (ss ≫= section_lines)) by done.
  assert (Hl : Forall (fun l => Forall (fun c => c <> LF) l /\ last l <> Some CR) lines).
  { unfold lines. apply Forall_bind. eapply Forall_impl; [exact Hok|].
    intros x Hx. by apply (section_lines_ok (so_cwd options)). }
  assert (Hsplit : split_lines (join [LF] lines) = lines) by (by apply split_lines_join).
  assert (Hsplit' : split_char LF (join [LF] lines) = lines).
  { apply split_join; [done|]. eapply Forall_impl; [exact Hl|]. by intros ? [? _]. }
  assert (Hhead : exists t, join [LF] lines = HL_FILE_PREFIX :: t).
  { rewrite Hlines. destruct (s.2 ++ _); [by eexists|]. rewrite join_cons by done. by eexists. }
  assert (Hmark : strip_mark (join [LF] lines) = join [LF] lines).
  { destruct Hhead as [t ->]. unfold strip_mark, stripBom. done. }
  pose proof Hok as Hok'. apply Forall_cons in Hok' as [(Hp & Hls & He) Hss].
  unfold splitHashlineInputs, normalizeFallbackInput, write_sections. fold lines.
  rewrite Hmark, Hsplit. rewrite Hlines at 1. cbn [some_header]. rewrite header_line by done.
  unfold stripLeadingBlankLines. rewrite Hmark, Hsplit'.
  assert (Hd : drop_leading_blank lines = lines).
  { rewrite Hlines. cbn [drop_leading_blank].
    rewrite drop_last_cr_id by (rewrite Hlines in Hl; apply Forall_cons in Hl; apply Hl).
    rewrite !bool_decide_false; [done| |].
    - rewrite trimEnd_cons by done. done.
    - unfold trim. rewrite trimStart_id, trimEnd_cons by done. done. }
  rewrite Hd, Hsplit. change (default [] (head lines)) with (HL_FILE_PREFIX :: s.1).
  rewrite header_line by done.
  rewrite Hlines. rewrite split_loop_step by apply header_no_marker. rewrite header_line by done.
  change (flush (mkSplit [] [] [])) with (mkSplit [] [] []).
  cbn zeta. cbn [sp_sections sec_path]. rewrite split_loop_lines by done.
  cbn [sp_sections sp_currentPath sp_currentLines app].
  destruct (split_loop_sections ss (so_cwd options) [] s Hok) as (st & -> & Hst). by rewrite Hst.
Qed.

End roundtrip.

(** POSIX-like paths without resolution, to evaluate the definitions on examples. *)
Definition sample_paths : PathLib :=
  {| path_isAbsolute := starts_with (js "/"); path_resolve := fun p => p; path_relative := fun _ p => p |}.

Lemma sections_roundtrip_witness :
  let ss := [(js "a.ts", [js "x"; []]); (js "ab.ts", [js "y"])] in
  @splitHashlineInputs sample_paths (write_sections ss) (mkSplitOptions (Some (js "/w")) None)
  = Ok [mkSection (js "a.ts") (js "x" ++ [LF]); mkSection (js "ab.ts") (js "y")].
Proof.
  apply (@sections_roundtrip sample_paths
    [(js "a.ts", [js "x"; []]); (js "ab.ts", [js "y"])] (mkSplitOptions (Some (js "/w")) None)).
  - discriminate.
  - assert (Hok : forall p c, path_ok (H := sample_paths) (Some (js "/w")) p -> line_ok [c] ->
      trim [c] <> [] -> forall ls, Forall line_ok ls -> section_ok (H := sample_paths) (Some (js "/w")) (p, [c] :: ls)).
    { intros p c Hp Hc Ht ls Hls. split; [exact Hp|]. split; [by constructor|by left]. }
    assert (Hline : forall l, bool_decide (Forall (fun c => c <> LF) l /\ last l <> Some CR
        /\ head l <> Some HL_FILE_PREFIX
        /\ trimEnd l ∉ [BEGIN_PATCH_MARKER; END_PATCH_MARKER; ABORT_MARKER]) = true -> line_ok l).
    { intros l Hl. by apply bool_decide_eq_true in Hl. }
    assert (Hpath : forall p, bool_decide (Forall (fun c => c <> LF) p) = true ->
        path_ok (H := sample_paths) (Some (js "/w")) (97%N :: p ++ js ".ts")).
    { intros p Hp%bool_decide_eq_true. split; [done|]. split.
      { rewrite app_comm_cons. change (js ".ts") with (js ".t" ++ [115%N]).
        by rewrite (assoc_L app), last_snoc. }
      split; [|split; [|by right]].
      - unfold unquoteHashlinePath. destruct (_ <? 2)%nat; [done|]. cbn [head].
        by destruct (last _).
      - constructor; [done|]. apply Forall_app. split; [done|]. by repeat constructor. }
    constructor; [|constructor; [|constructor]].
    + apply (Hok _ 120%N); [by apply (Hpath [])|apply Hline; by vm_compute|by vm_compute|].
      constructor; [apply Hline; by vm_compute|constructor].
    + apply (Hok _ 121%N); [by apply (Hpath [98%N])|apply Hline; by vm_compute|by vm_compute|constructor].
Defined.
