(* ===== verification/HashlineExecute.v ===== *)
(** * Executing an edit input (hashline/execute.ts, edit/read-file.ts)

    The tool call as a whole: the input is split into sections, sections of one path
    are merged, and each section is parsed, checked and written.  With more than one
    section everything is checked before anything is written.  The host of the tool
    (path resolution, the plan-mode guard, the guard of generated files, notebooks,
    and the callback that writes a file) is an interface, [EditHost]. *)

From S2P Require Import Prelude JsText LineHash HashlineTypes Anchors HashlineParser HashlineApply.
From S2P Require Import FileReadCache LineDiff HashlineRecovery TextNormalize HashlineInput.

(** A file: its size in bytes, its decoded text, and whether its first bytes are the
    UTF-8 byte order mark (which decoding may have removed). *)
Record file_data := mkFile { fd_size : Z; fd_text : jsstring; fd_bom : bool }.

Abbreviation files := (gmap jsstring file_data).

Inductive exec_error :=
| EInput (e : InputError)
| EHashline (e : HashlineError)
| EFileNotFound (path : jsstring)
| EFileTooLarge (path : jsstring) (size : Z)
| ENoChange (path : jsstring)
| EHost (message : jsstring).

Class EditHost := {
  resolvePlanPath : jsstring -> jsstring;
  enforcePlanModeWrite : jsstring -> option jsstring;
  assertEditableFileContent : jsstring -> jsstring -> option jsstring;
  isNotebookPath : jsstring -> bool;
  readEditableNotebookText : files -> jsstring -> result jsstring jsstring;
  serializeEditedNotebookText : files -> jsstring -> jsstring -> result jsstring jsstring;
  writethrough : files -> jsstring -> jsstring -> result jsstring (files * option jsstring);
  hashlineAutoDropPureInsertDuplicates : option bool
}.

Definition MAX_EDIT_FILE_BYTES : Z := 8 * 1024 * 1024.

Definition hasAnchorScopedEdit (edits : list HashlineEdit) : bool :=
  existsb (fun edit =>
    match edit with
    | EDelete _ _ _ _ => true
    | EInsert (BeforeAnchor _) _ _ _ | EInsert (AfterAnchor _) _ _ _ => true
    | EInsert _ _ _ _ => false
    end) edits.

Definition formatNoChangeDiagnostic (pathText : jsstring) : jsstring :=
  js "Edits to " ++ pathText ++ js " resulted in no changes being made.".

(** ** Merging sections *)

(** The map from paths to their diffs, in the order of first insertion. *)
Fixpoint add_diff (byPath : list (jsstring * list jsstring)) (s : HashlineInputSection)
    : list (jsstring * list jsstring) :=
  match byPath with
  | [] => [(sec_path s, [sec_diff s])]
  | (p, diffs) :: rest =>
      if bool_decide (p = sec_path s) then (p, diffs ++ [sec_diff s]) :: rest
      else (p, diffs) :: add_diff rest s
  end.

Definition mergeSamePathSections (sections : list HashlineInputSection) : list HashlineInputSection :=
  (fun '(path, diffs) => mkSection path (join [LF] diffs)) <$> fold_left add_diff sections [].

(** ** One section *)

Inductive edit_op := OpUpdate | OpCreate.

Record section_result := mkSectionResult {
  sr_text : jsstring;
  sr_diff : jsstring;
  sr_firstChangedLine : option Z;
  sr_diagnostics : option jsstring;
  sr_op : edit_op
}.

Section execute.
Context `{LineHasher, LineDiffer, PatchLib, SnapshotStore, PathLib, EditHost}.

Record world := mkWorld { w_files : files; w_cache : FileReadCache }.

Definition host {A} (r : result jsstring A) : result exec_error A :=
  match r with Ok a => Ok a | Err m => Err (EHost m) end.

Definition guard (r : option jsstring) : result exec_error unit :=
  match r with None => Ok () | Some m => Err (EHost m) end.

Definition readEditFileText (fs : files) (absolutePath path : jsstring) : result exec_error jsstring :=
  match fs !! absolutePath with
  | None => Err (EFileNotFound path)
  | Some f =>
      if (MAX_EDIT_FILE_BYTES <? fd_size f)%Z then Err (EFileTooLarge path (fd_size f))
      else if isNotebookPath absolutePath then host (readEditableNotebookText fs absolutePath)
      else
        let text := fd_text f in
        Ok (if fd_bom f && negb (starts_with [BOM] text) then BOM :: text else text)
  end.

Definition serializeEditFileText (fs : files) (absolutePath path content : jsstring)
    : result exec_error jsstring :=
  if isNotebookPath absolutePath then host (serializeEditedNotebookText fs absolutePath content)
  else Ok content.

(** Whether the file exists, and its raw content. *)
Definition readHashlineFile (fs : files) (absolutePath pathText : jsstring)
    : result exec_error (bool * jsstring) :=
  match readEditFileText fs absolutePath pathText with
  | Ok raw => Ok (true, raw)
  | Err (EFileNotFound _) => Ok (false, [])
  | Err (EHost message) =>
      if bool_decide (message = js "File not found: " ++ pathText) then Ok (false, []) else Err (EHost message)
  | Err e => Err e
  end.

Definition getHashlineApplyOptions : HashlineApplyOptions :=
  mkOptions hashlineAutoDropPureInsertDuplicates.

Definition parse_section (diff : jsstring) : result exec_error (list HashlineEdit * list jsstring) :=
  match parseHashlineWithWarnings diff with Ok r => Ok r | Err e => Err (EHashline e) end.

(** What both passes do before they apply the edits: the edits and the warnings of
    the parser, whether the file exists, and its raw content. *)
Definition load_section (fs : files) (s : HashlineInputSection)
    : result exec_error (list HashlineEdit * list jsstring * bool * jsstring) :=
  let absolutePath := resolvePlanPath (sec_path s) in
  let! (edits, warnings) := parse_section (sec_diff s) in
  let! _ := guard (enforcePlanModeWrite (sec_path s)) in
  let! (exists_, raw) := readHashlineFile fs absolutePath (sec_path s) in
  if negb exists_ && hasAnchorScopedEdit edits then Err (EFileNotFound (sec_path s))
  else
    let! _ := guard (if (exists_ : bool) then assertEditableFileContent raw (sec_path s) else None) in
    Ok (edits, warnings, exists_, raw).

Definition apply_section (w : world) (s : HashlineInputSection) (edits : list HashlineEdit)
    (text : jsstring) : result exec_error HashlineApplyResult * world :=
  let (r, cache) := applyHashlineEditsWithRecovery (w_cache w) (resolvePlanPath (sec_path s))
                      (normalizeToLF text) edits getHashlineApplyOptions in
  (match r with Ok r => Ok r | Err e => Err (EHashline e) end, mkWorld (w_files w) cache).

Definition preflightHashlineSection (w : world) (s : HashlineInputSection)
    : result exec_error unit * world :=
  match load_section (w_files w) s with
  | Err e => (Err e, w)
  | Ok (edits, _, _, raw) =>
      let text := (stripBom raw).2 in
      let (r, w') := apply_section w s edits text in
      (match r with
       | Err e => Err e
       | Ok result =>
           if bool_decide (normalizeToLF text = ar_lines result)
           then Err (ENoChange (sec_path s)) else Ok ()
       end, w')
  end.

Definition result_text (s : HashlineInputSection) (exists_ : bool) (preview : jsstring)
    (warnings : list jsstring) : jsstring :=
  let warningsBlock := if bool_decide (warnings = []) then []
                       else [LF; LF] ++ js "Warnings:" ++ [LF] ++ join [LF] warnings in
  if bool_decide (preview = [])
  then (if exists_ then js "Updated " else js "Created ") ++ sec_path s ++ warningsBlock
  else sec_path s ++ js ":" ++ [LF] ++ preview ++ warningsBlock.

Definition executeHashlineSection (now : Z) (w : world) (s : HashlineInputSection)
    : result exec_error section_result * world :=
  let absolutePath := resolvePlanPath (sec_path s) in
  match load_section (w_files w) s with
  | Err e => (Err e, w)
  | Ok (edits, parseWarnings, exists_, raw) =>
      let (bom, text) := stripBom raw in
      let originalEnding := detectLineEnding text in
      let originalNormalized := normalizeToLF text in
      let (r, w1) := apply_section w s edits text in
      match r with
      | Err e => (Err e, w1)
      | Ok result =>
          if bool_decide (originalNormalized = ar_lines result)
          then (Ok (mkSectionResult (formatNoChangeDiagnostic (sec_path s)) [] None None OpUpdate), w1)
          else
            match serializeEditFileText (w_files w1) absolutePath (sec_path s)
                    (bom ++ restoreLineEndings (ar_lines result) originalEnding) with
            | Err e => (Err e, w1)
            | Ok finalContent =>
                match writethrough (w_files w1) absolutePath finalContent with
                | Err m => (Err (EHost m), w1)
                | Ok (fs, diagnostics) =>
                    let cache := recordContiguous absolutePath 1 (split_char LF (ar_lines result)) now
                                   (w_cache w1) in
                    let diffResult := generateDiffString originalNormalized (ar_lines result) 4 in
                    let preview := join [LF] (pv_rows (buildCompactHashlineDiffPreview (dr_diff diffResult))) in
                    let warnings := parseWarnings ++ ar_warnings result in
                    (Ok (mkSectionResult (result_text s exists_ preview warnings)
                           (dr_diff diffResult)
                           (match ar_firstChangedLine result with
                            | Some n => Some n
                            | None => dr_firstChangedLine diffResult
                            end)
                           diagnostics (if exists_ then OpUpdate else OpCreate)),
                     mkWorld fs cache)
                end
            end
      end
  end.

(** ** The whole input *)

Record edit_result := mkEditResult {
  er_text : jsstring;
  er_diff : jsstring;
  er_perFile : list (jsstring * section_result)
}.

Fixpoint preflight_all (w : world) (sections : list HashlineInputSection)
    : result exec_error unit * world :=
  match sections with
  | [] => (Ok (), w)
  | s :: rest =>
      match preflightHashlineSection w s with
      | (Err e, w') => (Err e, w')
      | (Ok _, w') => preflight_all w' rest
      end
  end.

Fixpoint execute_all (now : Z) (w : world) (sections : list HashlineInputSection)
    : result exec_error (list (jsstring * section_result)) * world :=
  match sections with
  | [] => (Ok [], w)
  | s :: rest =>
      match executeHashlineSection now w s with
      | (Err e, w') => (Err e, w')
      | (Ok r, w') =>
          match execute_all now w' rest with
          | (Err e, w'') => (Err e, w'')
          | (Ok rs, w'') => (Ok ((sec_path s, r) :: rs), w'')
          end
      end
  end.

Definition execute_batch (now : Z) (w : world) (sections : list HashlineInputSection)
    : result exec_error edit_result * world :=
  match preflight_all w sections with
  | (Err e, w') => (Err e, w')
  | (Ok _, w') =>
      match execute_all now w' sections with
      | (Err e, w'') => (Err e, w'')
      | (Ok rs, w'') =>
          (Ok (mkEditResult (join [LF; LF] (sr_text ∘ snd <$> rs)) (join [LF] (sr_diff ∘ snd <$> rs)) rs), w'')
      end
  end.

Definition execute_sections (now : Z) (w : world) (sections : list HashlineInputSection)
    : result exec_error edit_result * world :=
  match sections with
  | [s] =>
      let (r, w') := executeHashlineSection now w s in
      (match r with Err e => Err e | Ok r => Ok (mkEditResult (sr_text r) (sr_diff r) []) end, w')
  | _ => execute_batch now w sections
  end.

Definition executeHashlineSingle (now : Z) (w : world) (input : jsstring) (options : SplitHashlineOptions)
    : result exec_error edit_result * world :=
  match splitHashlineInputs input options with
  | Err e => (Err (EInput e), w)
  | Ok sections => execute_sections now w (mergeSamePathSections sections)
  end.

End execute.

(** ** Merging: one section per path, nothing lost *)

Definition diffs_of (p : jsstring) (sections : list HashlineInputSection) : list jsstring :=
  sec_diff <$> List.filter (fun s => bool_decide (sec_path s = p)) sections.

Lemma add_diff_keys byPath s :
  (add_diff byPath s).*1 = (if bool_decide (sec_path s ∈ byPath.*1) then byPath.*1
                           else byPath.*1 ++ [sec_path s]).
Proof.
  induction byPath as [|[p ds] rest IH]; [done|]. cbn [add_diff].
  destruct (decide (p = sec_path s)) as [->|Hne].
  - rewrite !bool_decide_true; [done|set_solver|done].
  - rewrite (bool_decide_false (p = _)) by done. rewrite !fmap_cons, IH. cbn [fst].
    destruct (decide (sec_path s ∈ rest.*1)).
    + rewrite !bool_decide_true by set_solver. done.
    + rewrite !bool_decide_false by set_solver. done.
Qed.

Lemma add_diff_elem byPath s p ds :
  NoDup byPath.*1 ->
  (p, ds) ∈ add_diff byPath s <->
  (p <> sec_path s /\ (p, ds) ∈ byPath) \/
  (p = sec_path s /\ ((exists ds0, (p, ds0) ∈ byPath /\ ds = ds0 ++ [sec_diff s])
                     \/ (p ∉ byPath.*1) /\ ds = [sec_diff s])).
Proof.
  induction byPath as [|[q qs] rest IH]; intros Hnd; cbn [add_diff].
  { rewrite list_elem_of_singleton, elem_of_nil. set_solver. }
  rewrite fmap_cons in Hnd. apply NoDup_cons in Hnd as [Hq Hnd]. simpl in Hq.
  assert (Hkey : forall p ds, (p, ds) ∈ rest -> p ∈ rest.*1).
  { intros ? ? Hin. by apply (list_elem_of_fmap_2 fst) in Hin. }
  destruct (decide (q = sec_path s)) as [->|Hne].
  - rewrite bool_decide_true by done. rewrite !elem_of_cons. split.
    + intros [[= -> ->]|Hin]; [right; split; [done|]; left; exists qs; rewrite elem_of_cons; auto|].
      left. split; [|auto]. intros ->. by apply Hq, (Hkey _ ds).
    + intros [[Hp [[= -> ->]|?]]|[-> [(ds0 & Hin & ->)|[Hnot _]]]]; auto.
      * done.
      * left. apply elem_of_cons in Hin as [[= ->]|Hin]; [done|]. by apply Hkey in Hin.
      * exfalso. apply Hnot. rewrite fmap_cons. by left.
  - rewrite bool_decide_false by done. rewrite !elem_of_cons, (IH Hnd), fmap_cons, not_elem_of_cons. cbn [fst].
    split.
    + intros [[= -> ->]|[[??]|[-> [(ds0 & ? & ->)|[??]]]]]; [auto|auto| |by auto 7].
      right. split; [done|]. left. exists ds0. rewrite elem_of_cons. auto.
    + intros [[? [|]]|[-> [(ds0 & Hin & ->)|[[??] ->]]]]; [auto|auto| |auto 6].
      apply elem_of_cons in Hin as [[= <- _]|Hin]; [done|]. right. right. split; [done|]. left. eauto.
Qed.

Lemma merge_fold sections byPath seen :
  NoDup byPath.*1 -> (forall p ds, (p, ds) ∈ byPath <-> ds <> [] /\ ds = diffs_of p seen) ->
  let r := fold_left add_diff sections byPath in
  NoDup r.*1 /\ forall p ds, (p, ds) ∈ r <-> ds <> [] /\ ds = diffs_of p (seen ++ sections).
Proof.
  revert byPath seen. induction sections as [|s sections IH]; intros byPath seen Hnd Hin; simpl.
  { by rewrite app_nil_r. }
  rewrite cons_middle, (assoc_L app). apply IH.
  - rewrite add_diff_keys. case_bool_decide; [done|]. apply NoDup_app. split_and!; [done|set_solver|].
    apply NoDup_singleton.
  - intros p ds. rewrite add_diff_elem by done. unfold diffs_of. rewrite List.filter_app, fmap_app.
    fold (diffs_of p seen). cbn [List.filter]. destruct (decide (sec_path s = p)) as [<-|Hne].
    + rewrite bool_decide_true by done. cbn [fmap list_fmap]. split.
      * intros [[]|[_ [(ds0 & Hds & ->)|[Hnot ->]]]]; [done| |].
        -- apply Hin in Hds as [_ <-]. split; [by destruct ds0|done].
        -- split; [done|]. destruct (diffs_of (sec_path s) seen) eqn:E; [done|]. exfalso. apply Hnot.
           apply list_elem_of_fmap. exists (sec_path s, diffs_of (sec_path s) seen).
           split; [done|]. apply Hin. split; [by rewrite E|done].
      * intros [_ ->]. right. split; [done|]. destruct (diffs_of (sec_path s) seen) eqn:E.
        -- right. split; [|done]. intros Hk. apply list_elem_of_fmap in Hk as ([p ds] & Hp & Hds).
           cbn [fst] in Hp. rewrite <- Hp in Hds. apply Hin in Hds as [Hne Hds].
           by rewrite Hds, E in Hne.
        -- left. eexists. split; [|done]. by apply Hin.
    + rewrite bool_decide_false by done. rewrite app_nil_r, Hin. naive_solver.
Qed.

(** merging leaves one section per path, and its diff is made of all the diffs
    the input has for the path, in their order; no path and no diff is lost. *)
Theorem merge_sections_exact sections :
  let merged := mergeSamePathSections sections in
  NoDup (sec_path <$> merged) /\
  forall s, s ∈ merged <->
    sec_path s ∈ sec_path <$> sections /\ sec_diff s = join [LF] (diffs_of (sec_path s) sections).
Proof.
  destruct (merge_fold sections [] []) as [Hnd Hin]; [constructor| |].
  { intros p ds. rewrite elem_of_nil. split; [done|]. by intros [Hne ->]. }
  simpl in *. unfold mergeSamePathSections. split.
  - rewrite <- list_fmap_compose.
    erewrite (list_fmap_ext _ fst); [exact Hnd|]. by intros ? [].
  - intros [p d]. cbn [sec_path sec_diff]. rewrite list_elem_of_fmap. split.
    + intros ([q ds] & [= -> ->] & [Hne ->]%Hin). split; [|done]. unfold diffs_of in Hne.
      destruct (List.filter _ sections) as [|s ss] eqn:E; [done|].
      assert (In s (List.filter (fun s => bool_decide (sec_path s = q)) sections)) as Hs by (rewrite E; by left).
      apply filter_In in Hs as [Hs <-%bool_decide_eq_true].
      by apply list_elem_of_fmap_2, list_elem_of_In.
    + intros [[s [-> Hs]]%list_elem_of_fmap ->]. exists (sec_path s, diffs_of (sec_path s) sections).
      split; [done|]. apply Hin. split; [|done]. unfold diffs_of.
      apply list_elem_of_In in Hs.
      assert (In s (List.filter (fun x => bool_decide (sec_path x = sec_path s)) sections)) as Hf.
      { apply filter_In. split; [done|]. by apply bool_decide_eq_true. }
      by destruct (List.filter _ sections).
Qed.

(** ** Checking comes before writing *)

Section batch.
Context `{LineHasher, LineDiffer, PatchLib, SnapshotStore, PathLib, EditHost}.
Context `{!SnapshotStoreLaws}.

(** Same files, same snapshots: the order of the cache may differ. *)
Definition same_world (w1 w2 : world) : Prop :=
  w_files w1 = w_files w2 /\ forall k, snapshot_of (w_cache w1) k = snapshot_of (w_cache w2) k.

#[local] Instance same_world_equiv : Equivalence same_world.
Proof.
  split; [by intros ?|intros ?? []; by split|].
  intros w1 w2 w3 [E1 S1] [E2 S2]. split; [congruence|]. intros k. by rewrite S1, S2.
Qed.

Lemma recovery_ext c1 c2 path text edits options :
  snapshot_of c1 path = snapshot_of c2 path ->
  (applyHashlineEditsWithRecovery c1 path text edits options).1
  = (applyHashlineEditsWithRecovery c2 path text edits options).1.
Proof.
  intros Hs. unfold applyHashlineEditsWithRecovery. destruct (applyHashlineEdits _ _ _) as [|[]]; try done.
  unfold tryRecoverHashlineWithCache, cache_get. cbn [fst].
  fold (snapshot_of c1 path) (snapshot_of c2 path). by rewrite Hs.
Qed.

Lemma apply_section_world w s edits text : same_world (apply_section w s edits text).2 w.
Proof.
  unfold apply_section. pose proof (recovery_cache_same (w_cache w) (resolvePlanPath (sec_path s))
    (normalizeToLF text) edits getHashlineApplyOptions) as Hc.
  destruct (applyHashlineEditsWithRecovery _ _ _ _ _). by split.
Qed.

Lemma apply_section_ext w1 w2 s edits text :
  same_world w1 w2 -> (apply_section w1 s edits text).1 = (apply_section w2 s edits text).1.
Proof.
  intros [_ Hs]. unfold apply_section.
  pose proof (recovery_ext (w_cache w1) (w_cache w2) (resolvePlanPath (sec_path s)) (normalizeToLF text)
    edits getHashlineApplyOptions (Hs _)) as E.
  destruct (applyHashlineEditsWithRecovery (w_cache w1) _ _ _ _), (applyHashlineEditsWithRecovery _ _ _ _ _).
  simpl in *. by subst.
Qed.

Lemma preflight_world w s : same_world (preflightHashlineSection w s).2 w.
Proof.
  unfold preflightHashlineSection. destruct (load_section _ _) as [[[[edits ws] ex] raw]|e]; [|done].
  pose proof (apply_section_world w s edits (stripBom raw).2) as Hw.
  by destruct (apply_section _ _ _ _).
Qed.

Lemma preflight_ext w1 w2 s :
  same_world w1 w2 -> (preflightHashlineSection w1 s).1 = (preflightHashlineSection w2 s).1.
Proof.
  intros Hw. unfold preflightHashlineSection. rewrite (proj1 Hw).
  destruct (load_section _ _) as [[[[edits ws] ex] raw]|e]; [|done].
  pose proof (apply_section_ext w1 w2 s edits (stripBom raw).2 Hw) as E.
  destruct (apply_section w1 _ _ _), (apply_section w2 _ _ _). simpl in *. by subst.
Qed.

Lemma preflight_all_spec w w0 sections :
  same_world w w0 ->
  match preflight_all w sections with
  | (Ok _, w') => same_world w' w0 /\ Forall (fun s => (preflightHashlineSection w0 s).1 = Ok ()) sections
  | (Err e, w') => same_world w' w0 /\ exists pre s post, sections = pre ++ s :: post
      /\ Forall (fun s => (preflightHashlineSection w0 s).1 = Ok ()) pre
      /\ (preflightHashlineSection w0 s).1 = Err e
  end.
Proof.
  revert w. induction sections as [|s sections IH]; intros w Hw; cbn [preflight_all]; [done|].
  pose proof (preflight_world w s) as Hsame. pose proof (preflight_ext w w0 s Hw) as Hext.
  destruct (preflightHashlineSection w s) as [[[]|e] w1]; cbn [fst snd] in *.
  - specialize (IH w1 ltac:(by rewrite Hsame)). destruct (preflight_all w1 sections) as [[u|e] w2].
    + destruct IH as [? ?]. split; [done|]. by constructor.
    + destruct IH as (? & pre & s' & post & -> & ? & ?). split; [done|].
      exists (s :: pre), s', post. split_and!; [done|by constructor|done].
  - split; [by rewrite Hsame|]. by exists [], s, sections.
Qed.

(** C7: an input of several sections is checked as a whole before anything is
    written: unless every section passes its checks against the files as they are
    at the start, the call fails with the error of the first section that does not
    pass, and no file and no snapshot has changed. *)
Theorem batch_checked_first now w input options :
  let '(r, w') := executeHashlineSingle now w input options in
  match splitHashlineInputs input options with
  | Err e => r = Err (EInput e) /\ w' = w
  | Ok sections =>
      let merged := mergeSamePathSections sections in
      length merged = 1 \/
      Forall (fun s => (preflightHashlineSection w s).1 = Ok ()) merged \/
      exists pre s post e, merged = pre ++ s :: post
        /\ Forall (fun s => (preflightHashlineSection w s).1 = Ok ()) pre
        /\ (preflightHashlineSection w s).1 = Err e /\ r = Err e /\ same_world w' w
  end.
Proof.
  unfold executeHashlineSingle. destruct (splitHashlineInputs input options) as [sections|e]; [|done].
  set (merged := mergeSamePathSections sections).
  assert (Hb : let '(r, w') := execute_batch now w merged in
    Forall (fun s => (preflightHashlineSection w s).1 = Ok ()) merged \/
    exists pre s post e, merged = pre ++ s :: post
        /\ Forall (fun s => (preflightHashlineSection w s).1 = Ok ()) pre
        /\ (preflightHashlineSection w s).1 = Err e /\ r = Err e /\ same_world w' w).
  { unfold execute_batch. pose proof (preflight_all_spec w w merged ltac:(done)) as Hp.
    destruct (preflight_all w merged) as [[u|e] w1].
    - destruct Hp as [_ Hall]. destruct (execute_all now w1 merged) as [[]]; by left.
    - destruct Hp as (Hw & pre & s & post & E & Hpre & He). right. exists pre, s, post, e. done. }
  unfold execute_sections. destruct merged as [|s [|s' rest]]; simpl length.
  - destruct (execute_batch _ _ _). by right.
  - destruct (executeHashlineSection _ _ _). by left.
  - destruct (execute_batch _ _ _). by right.
Qed.

(** ** A batch with current anchors lands as a whole *)

(** The content a section writes when its anchors are current. *)
Definition section_output (fs : files) (s : HashlineInputSection) : option jsstring :=
  match load_section fs s with
  | Err _ => None
  | Ok (edits, _, _, raw) =>
      let (bom, text) := stripBom raw in
      match applyHashlineEdits (normalizeToLF text) edits getHashlineApplyOptions with
      | Err _ => None
      | Ok r => if bool_decide (normalizeToLF text = ar_lines r) then None
                else Some (bom ++ restoreLineEndings (ar_lines r) (detectLineEnding text))
      end
  end.

Definition target (s : HashlineInputSection) : jsstring := resolvePlanPath (sec_path s).

(** A write that succeeds, stores the text and touches no other file. *)
Definition writes_exactly : Prop :=
  forall fs p c, exists fs' d f, writethrough fs p c = Ok (fs', d)
    /\ fs' !! p = Some f /\ fd_text f = c /\ forall q, q <> p -> fs' !! q = fs !! q.

Lemma load_section_ext fs fs' s :
  isNotebookPath (target s) = false -> fs !! target s = fs' !! target s ->
  load_section fs s = load_section fs' s.
Proof.
  intros Hn Hf. unfold load_section, readHashlineFile, readEditFileText. fold (target s).
  by rewrite Hn, Hf.
Qed.

Lemma section_output_ext fs fs' s :
  isNotebookPath (target s) = false -> fs !! target s = fs' !! target s ->
  section_output fs s = section_output fs' s.
Proof. intros Hn Hf. unfold section_output. by rewrite (load_section_ext fs fs'). Qed.

Lemma apply_section_direct w s edits text r :
  applyHashlineEdits (normalizeToLF text) edits getHashlineApplyOptions = Ok r ->
  apply_section w s edits text = (Ok r, w).
Proof.
  intros Hr. unfold apply_section, applyHashlineEditsWithRecovery. rewrite Hr. by destruct w.
Qed.

Lemma preflight_direct w s :
  is_Some (section_output (w_files w) s) -> preflightHashlineSection w s = (Ok (), w).
Proof.
  unfold section_output, preflightHashlineSection.
  destruct (load_section _ _) as [[[[edits ws] ex] raw]|e]; [|by intros [? [=]]].
  destruct (stripBom raw) as [bom text]. cbn [snd].
  destruct (applyHashlineEdits _ _ _) as [r|e] eqn:Er; [|by intros [? [=]]].
  rewrite (apply_section_direct _ _ _ _ r) by done. case_bool_decide; [by intros [? [=]]|done].
Qed.

Lemma execute_direct now w s c :
  writes_exactly -> isNotebookPath (target s) = false -> section_output (w_files w) s = Some c ->
  exists r w', executeHashlineSection now w s = (Ok r, w')
    /\ (exists f, w_files w' !! target s = Some f /\ fd_text f = c)
    /\ forall q, q <> target s -> w_files w' !! q = w_files w !! q.
Proof.
  intros Hw Hn. unfold section_output, executeHashlineSection.
  destruct (load_section _ _) as [[[[edits ws] ex] raw]|e]; [|done].
  destruct (stripBom raw) as [bom text].
  destruct (applyHashlineEdits _ _ _) as [r|e] eqn:Er; [|done].
  rewrite (apply_section_direct _ _ _ _ r) by done. case_bool_decide; [done|]. intros [= <-].
  unfold serializeEditFileText. fold (target s). rewrite Hn.
  destruct (Hw (w_files w) (target s) (bom ++ restoreLineEndings (ar_lines r) (detectLineEnding text)))
    as (fs & d & f & -> & Hf & Ht & Ho).
  eexists _, _. split; [done|]. split; [by exists f|done].
Qed.

Lemma execute_all_direct now sections w :
  writes_exactly -> NoDup (target <$> sections) ->
  Forall (fun s => isNotebookPath (target s) = false) sections ->
  Forall (fun s => is_Some (section_output (w_files w) s)) sections ->
  exists rs w', execute_all now w sections = (Ok rs, w') /\ rs.*1 = sec_path <$> sections
    /\ (forall s, s ∈ sections -> exists f, w_files w' !! target s = Some f
                                      /\ section_output (w_files w) s = Some (fd_text f))
    /\ forall q, q ∉ target <$> sections -> w_files w' !! q = w_files w !! q.
Proof.
  intros Hw. revert w. induction sections as [|s sections IH]; intros w Hnd Hnb Hout.
  { exists [], w. split_and!; [done|done|by intros ? ?%elem_of_nil|done]. }
  rewrite fmap_cons in Hnd. apply NoDup_cons in Hnd as [Hs Hnd].
  apply Forall_cons in Hnb as [Hn Hnb]. apply Forall_cons in Hout as [[c Hc] Hout].
  destruct (execute_direct now w s c Hw Hn Hc) as (r & w1 & Hr & (f & Hf & Ht) & Ho).
  assert (Hsame : forall x, x ∈ sections -> section_output (w_files w1) x = section_output (w_files w) x).
  { intros x Hx. apply section_output_ext; [by apply (proj1 (Forall_forall _ _) Hnb)|].
    apply Ho. intros E. apply Hs. rewrite <- E. by apply list_elem_of_fmap_2. }
  destruct (IH w1) as (rs & w2 & Hrs & Hpaths & Hfiles & Hother); [done|done| |].
  { apply Forall_forall. intros x Hx. rewrite Hsame by done.
    by apply (proj1 (Forall_forall _ _) Hout). }
  exists ((sec_path s, r) :: rs), w2. cbn [execute_all]. rewrite Hr, Hrs. split; [done|].
  split; [by rewrite !fmap_cons, Hpaths|]. split.
  - intros x [->|Hx]%elem_of_cons.
    + exists f. by rewrite Hother, Ht.
    + destruct (Hfiles x Hx) as (g & Hg & E). exists g. by rewrite <- Hsame.
  - intros q Hq. rewrite fmap_cons, not_elem_of_cons in Hq. rewrite Hother by apply Hq. apply Ho, Hq.
Qed.

Lemma preflight_all_direct w sections :
  Forall (fun s => is_Some (section_output (w_files w) s)) sections ->
  preflight_all w sections = (Ok (), w).
Proof.
  induction 1 as [|s sections Hs Hall IH]; cbn [preflight_all]; [done|].
  by rewrite preflight_direct.
Qed.

(** C6: when the sections name different files, their anchors are current and their
    edits change something, and writing succeeds, the whole input is applied: every
    target holds the original content with the edits of its section applied, with
    the byte order mark and the line ending it had, and no other file is touched. *)
Theorem batch_lands now w input options sections :
  splitHashlineInputs input options = Ok sections ->
  let merged := mergeSamePathSections sections in
  writes_exactly -> NoDup (target <$> merged) ->
  Forall (fun s => isNotebookPath (target s) = false) merged ->
  Forall (fun s => is_Some (section_output (w_files w) s)) merged ->
  exists r w', executeHashlineSingle now w input options = (Ok r, w')
    /\ (forall s, s ∈ merged -> exists f, w_files w' !! target s = Some f
                                    /\ section_output (w_files w) s = Some (fd_text f))
    /\ forall q, q ∉ target <$> merged -> w_files w' !! q = w_files w !! q.
Proof.
  intros Hsplit merged Hw Hnd Hnb Hout. unfold executeHashlineSingle. rewrite Hsplit. fold merged.
  destruct (execute_all_direct now merged w Hw Hnd Hnb Hout) as (rs & w' & Hrs & _ & Hfiles & Hother).
  assert (Hb : exists r, execute_batch now w merged = (Ok r, w')).
  { unfold execute_batch. rewrite preflight_all_direct, Hrs by done. by eexists. }
  assert (Hr : exists r, execute_sections now w merged = (Ok r, w')).
  { unfold execute_sections. destruct merged as [|s [|s' rest]]; [exact Hb| |exact Hb].
    cbn [execute_all] in Hrs. destruct (executeHashlineSection now w s) as [[r|e] w1]; [|done].
    injection Hrs as _ ->. by eexists. }
  destruct Hr as [r Hr]. exists r, w'. split; [exact Hr|]. split; [exact Hfiles|exact Hother].
Qed.

End batch.

(** ** Examples *)

(** A host whose files are written as they are; [p] names a file also as [./p]. *)
Definition sample_host : EditHost :=
  {| resolvePlanPath := fun p => if starts_with (js "./") p then drop 2 p else p;
     enforcePlanModeWrite := fun _ => None;
     assertEditableFileContent := fun _ _ => None;
     isNotebookPath := fun _ => false;
     readEditableNotebookText := fun _ _ => Err [];
     serializeEditedNotebookText := fun _ _ _ => Err [];
     writethrough := fun fs p c => Ok (<[p := mkFile (arr_len c) c (starts_with [BOM] c)]> fs, None);
     hashlineAutoDropPureInsertDuplicates := None |}.

#[local] Existing Instance sample_hasher.
#[local] Existing Instance sample_store.
#[local] Existing Instance sample_patch.
#[local] Existing Instance sample_paths.
#[local] Existing Instance sample_host.

Definition sample_world : world :=
  mkWorld {[ js "a" := mkFile 6 (js "x" ++ [CR; LF] ++ js "y" ++ [CR; LF]) false;
             js "b" := mkFile 2 (js "z" ++ [LF]) false ]} new_cache.

(** The tag of a line, and an insertion after it. *)
Definition insert_after (n : Z) (line : jsstring) (payload : jsstring) : list jsstring :=
  [HL_OP_INSERT_AFTER :: num_to_string n ++ computeLineHash n line; payload].

Definition sample_input : jsstring :=
  write_sections [(js "a", insert_after 1 (js "x") (js "n")); (js "b", insert_after 1 (js "z") (js "m"))].

Lemma batch_checked_first_witness :
  let input := write_sections [(js "a", insert_after 1 (js "x") (js "n"));
                               (js "b", insert_after 1 (js "stale") (js "m"))] in
  let '(r, w') := @executeHashlineSingle _ (sample_differ None) _ _ _ _ 7 sample_world input
                    (mkSplitOptions None None) in
  is_ok r = false /\ same_world w' sample_world.
Proof.
  intros input.
  pose proof (@batch_checked_first _ (sample_differ None) _ _ _ _ sample_store_laws 7 sample_world input
    (mkSplitOptions None None)) as Hb.
  assert (Hr : is_ok (@executeHashlineSingle _ (sample_differ None) _ _ _ _ 7 sample_world input
                    (mkSplitOptions None None)).1 = false) by (vm_compute; reflexivity).
  destruct (executeHashlineSingle _ _ _ _) as [r w']. split; [exact Hr|]. clear Hr.
  destruct (splitHashlineInputs _ _) as [sections|] eqn:Es; [|by destruct Hb as [_ ->]].
  apply (f_equal (fun x => match x with Ok l => l | Err _ => [] end)) in Es.
  destruct Hb as [Hb|[Hb|(pre & s & post & e & _ & _ & _ & _ & Hw)]]; [| |exact Hw]; exfalso;
    rewrite <- Es in Hb.
  - vm_compute in Hb. discriminate.
  - apply Forall_cons in Hb as [_ Hb]. apply Forall_cons in Hb as [Hb _]. vm_compute in Hb. discriminate.
Defined.

Lemma batch_lands_witness :
  exists r w', @executeHashlineSingle _ (sample_differ None) _ _ _ _ 7 sample_world sample_input
                 (mkSplitOptions None None) = (Ok r, w')
    /\ (exists f, w_files w' !! js "a" = Some f
          /\ fd_text f = js "x" ++ [CR; LF] ++ js "n" ++ [CR; LF] ++ js "y" ++ [CR; LF])
    /\ w_files w' !! js "c" = None.
Proof.
  set (sections := match splitHashlineInputs sample_input (mkSplitOptions None None) with
                   | Ok l => l | Err _ => [] end).
  destruct (@batch_lands _ (sample_differ None) _ _ _ _ 7 sample_world sample_input
    (mkSplitOptions None None) sections) as (r & w' & Hr & Hf & Ho).
  - vm_compute. reflexivity.
  - intros fs p c. eexists _, _, _. split; [reflexivity|].
    split; [apply lookup_insert_eq|]. split; [reflexivity|]. intros q Hq. by apply lookup_insert_ne.
  - apply (bool_decide_unpack _). vm_compute. exact I.
  - apply (bool_decide_unpack _). vm_compute. exact I.
  - change (mergeSamePathSections sections)
      with [mkSection (js "a") (join [LF] (insert_after 1 (js "x") (js "n")));
            mkSection (js "b") (join [LF] (insert_after 1 (js "z") (js "m")))].
    constructor; [eexists; vm_compute; reflexivity|].
    constructor; [eexists; vm_compute; reflexivity|constructor].
  - exists r, w'. split; [exact Hr|]. split.
    + destruct (Hf (mkSection (js "a") (join [LF] (insert_after 1 (js "x") (js "n")))))
        as (f & Hl & Hout).
      * change (mergeSamePathSections sections)
          with [mkSection (js "a") (join [LF] (insert_after 1 (js "x") (js "n")));
                mkSection (js "b") (join [LF] (insert_after 1 (js "z") (js "m")))]. by left.
      * exists f. split; [exact Hl|]. change (fd_text f) with (default [] (Some (fd_text f))).
        rewrite <- Hout. vm_compute. reflexivity.
    + rewrite Ho; [reflexivity|]. apply (bool_decide_unpack _). vm_compute. exact I.
Defined.

(** Sections are merged by the text of their paths.  Two spellings of one file stay
    two sections: both pass the checks, the first is written and moves the lines the
    second one anchors, and the call fails with the file half edited. *)
Lemma partial_batch_possible :
  let input := write_sections [(js "a", insert_after 1 (js "x") (js "n"));
                               (js "./a", insert_after 2 (js "y") (js "m"))] in
  let '(r, w') := @executeHashlineSingle _ (sample_differ None) _ _ _ _ 7 sample_world input
                    (mkSplitOptions None None) in
  is_ok r = false
  /\ fd_text <$> w_files w' !! js "a"
     = Some (js "x" ++ [CR; LF] ++ js "n" ++ [CR; LF] ++ js "y" ++ [CR; LF]).
Proof. vm_compute. split; reflexivity. Qed.
