(* ===== verification/Json.v ===== *)
(** * JSON values and their canonical text (harness-control-plane/receipts.ts)

    A parsed JSON value as the receipt code sees it, the operators of the language
    it uses on such values, and [canonicalJson], whose text is what a receipt's
    hash is computed from.  Numbers are integers. *)

From S2P Require Import Prelude JsText.

#[local] Set Warnings "-register-all".

Inductive json :=
| JNull
| JBool (b : bool)
| JNum (n : Z)
| JStr (s : jsstring)
| JArr (items : list json)
| JObj (fields : list (jsstring * json)).

(** ** Reading values *)

(** [v[k]] for a value that may be [undefined] ([None]). *)
Fixpoint lookup_field (k : jsstring) (fields : list (jsstring * json)) : option json :=
  match fields with
  | [] => None
  | (k', v) :: rest => if bool_decide (k' = k) then Some v else lookup_field k rest
  end.

Definition jget (k : jsstring) (v : option json) : option json :=
  match v with Some (JObj fields) => lookup_field k fields | _ => None end.

(** [!v] is [negb (truthy v)]. *)
Definition truthy (v : option json) : bool :=
  match v with
  | None | Some JNull => false
  | Some (JBool b) => b
  | Some (JNum n) => negb (n =? 0)%Z
  | Some (JStr s) => negb (bool_decide (s = []))
  | Some (JArr _) | Some (JObj _) => true
  end.

Definition is_string (v : option json) : bool :=
  match v with Some (JStr _) => true | _ => false end.

(** [typeof v === "string" && v.length > 0] *)
Definition isNonEmptyString (v : option json) : bool :=
  match v with Some (JStr s) => negb (bool_decide (s = [])) | _ => false end.

Definition is_boolean (v : option json) : bool :=
  match v with Some (JBool _) => true | _ => false end.

(** An object that is neither [null] nor an array. *)
Definition is_object (v : option json) : bool :=
  match v with Some (JObj _) => true | _ => false end.

Definition is_array (v : option json) : bool :=
  match v with Some (JArr _) => true | _ => false end.

Definition is_str (s : jsstring) (v : option json) : bool :=
  match v with Some (JStr t) => bool_decide (t = s) | _ => false end.

(** [Array.isArray(v) && v.includes(s)] *)
Definition array_includes (s : jsstring) (v : option json) : bool :=
  match v with Some (JArr items) => existsb (fun x => is_str s (Some x)) items | _ => false end.

(** ** Writing values *)

Definition QUOTE : N := 34.
Definition BACKSLASH : N := 92.

(** A lower-case hexadecimal digit. *)
Definition hex_digit (d : N) : N := if (d <? 10)%N then (48 + d)%N else (87 + d)%N.

Definition u_escape (c : N) : jsstring :=
  [BACKSLASH; 117%N; hex_digit (c / 4096); hex_digit ((c / 256) mod 16);
   hex_digit ((c / 16) mod 16); hex_digit (c mod 16)].

Definition is_high_surrogate (c : N) : bool := (55296 <=? c)%N && (c <=? 56319)%N.
Definition is_low_surrogate (c : N) : bool := (56320 <=? c)%N && (c <=? 57343)%N.

Definition escape_unit (c : N) : jsstring :=
  if (c =? QUOTE)%N then [BACKSLASH; QUOTE]
  else if (c =? BACKSLASH)%N then [BACKSLASH; BACKSLASH]
  else if (c =? 8)%N then [BACKSLASH; 98%N]
  else if (c =? 9)%N then [BACKSLASH; 116%N]
  else if (c =? 10)%N then [BACKSLASH; 110%N]
  else if (c =? 12)%N then [BACKSLASH; 102%N]
  else if (c =? 13)%N then [BACKSLASH; 114%N]
  else if (c <? 32)%N then u_escape c
  else [c].

(** [JSON.stringify] of the content of a string: surrogates that are not in a
    pair are escaped. *)
Fixpoint escape_string (s : jsstring) : jsstring :=
  match s with
  | [] => []
  | c :: rest =>
      if is_high_surrogate c then
        match rest with
        | d :: rest' =>
            if is_low_surrogate d then c :: d :: escape_string rest'
            else u_escape c ++ escape_string rest
        | [] => u_escape c
        end
      else if is_low_surrogate c then u_escape c ++ escape_string rest
      else escape_unit c ++ escape_string rest
  end.

Definition stringify_string (s : jsstring) : jsstring := QUOTE :: escape_string s ++ [QUOTE].

(** The order of [Array.prototype.sort] on strings: by code units. *)
Fixpoint str_leb (a b : jsstring) : bool :=
  match a, b with
  | [], _ => true
  | _ :: _, [] => false
  | x :: a', y :: b' => (x <? y)%N || ((x =? y)%N && str_leb a' b')
  end.

Definition sort_fields {A} (fields : list (jsstring * A)) : list (jsstring * A) :=
  sort_by (fun a b => str_leb a.1 b.1) fields.

(** The text is built from the texts of the fields, so the sort moves texts. *)
Fixpoint canonicalJson (v : json) : jsstring :=
  match v with
  | JNull => js "null"
  | JBool true => js "true"
  | JBool false => js "false"
  | JNum n => num_to_string n
  | JStr s => stringify_string s
  | JArr items => js "[" ++ join (js ",") (canonicalJson <$> items) ++ js "]"
  | JObj fields =>
      let texts := (fix go fs := match fs with
                                 | [] => []
                                 | (k, x) :: fs' => (k, canonicalJson x) :: go fs'
                                 end) fields in
      js "{" ++ join (js ",") ((fun f => stringify_string f.1 ++ js ":" ++ f.2)
                                 <$> sort_fields texts) ++ js "}"
  end.

Lemma canonicalJson_obj fields :
  canonicalJson (JObj fields)
  = js "{" ++ join (js ",") ((fun f => stringify_string f.1 ++ js ":" ++ f.2)
      <$> sort_fields (prod_map id canonicalJson <$> fields)) ++ js "}".
Proof.
  cbn [canonicalJson]. do 5 f_equal.
  induction fields as [|[k x] fields IH]; [done|]. cbn [fmap list_fmap prod_map]. by f_equal.
Qed.

(** ** The order on keys *)

Lemma str_leb_total a b : str_leb a b = true \/ str_leb b a = true.
Proof.
  revert b. induction a as [|x a IH]; intros [|y b]; simpl; auto.
  destruct (N.lt_trichotomy x y) as [?|[->|?]].
  - left. by rewrite (proj2 (N.ltb_lt _ _)).
  - rewrite N.eqb_refl, !N.ltb_irrefl. simpl. apply IH.
  - right. by rewrite (proj2 (N.ltb_lt _ _)).
Qed.

Lemma str_leb_cons x a y b :
  str_leb (x :: a) (y :: b) = true <-> (x < y)%N \/ (x = y /\ str_leb a b = true).
Proof. simpl. rewrite orb_true_iff, andb_true_iff, N.ltb_lt, N.eqb_eq. done. Qed.

Lemma str_leb_trans a b c : str_leb a b = true -> str_leb b c = true -> str_leb a c = true.
Proof.
  revert b c. induction a as [|x a IH]; intros [|y b] [|z c]; try done.
  rewrite !str_leb_cons. intros [?|[-> ?]] [?|[-> ?]]; eauto; left; lia.
Qed.

Lemma str_leb_antisym a b : str_leb a b = true -> str_leb b a = true -> a = b.
Proof.
  revert b. induction a as [|x a IH]; intros [|y b]; try done.
  rewrite !str_leb_cons. intros [?|[-> ?]] [?|[? ?]]; try lia. f_equal. auto.
Qed.

(** Sorting fields with distinct keys gives one list, whatever their order. *)
Lemma sort_fields_unique {A} (l1 l2 : list (jsstring * A)) :
  l1 ≡ₚ l2 -> NoDup (l1.*1) -> sort_fields l1 = sort_fields l2.
Proof.
  intros Hp Hnd.
  assert (Hs : forall l : list (jsstring * A),
    StronglySorted (fun a b => str_leb a.1 b.1 = true) (sort_fields l)).
  { intros l. apply sort_by_sorted; [|intros ???; apply str_leb_trans].
    intros x y Hf. destruct (str_leb_total x.1 y.1); congruence. }
  assert (Hperm : sort_fields l1 ≡ₚ sort_fields l2).
  { unfold sort_fields. by rewrite !sort_by_perm. }
  assert (Hnd' : NoDup ((sort_fields l1).*1)).
  { unfold sort_fields. by rewrite sort_by_perm. }
  revert Hperm Hnd'. generalize (Hs l1) (Hs l2). generalize (sort_fields l1) (sort_fields l2).
  clear. induction l as [|x l IH]; intros m Hl Hm Hperm Hnd.
  { by apply Permutation_nil_l in Hperm as ->. }
  destruct m as [|y m]; [by apply Permutation_nil_r in Hperm|].
  apply StronglySorted_inv in Hl as [Hl Hx], Hm as [Hm Hy].
  assert (x = y) as ->.
  { assert (Hxm : x ∈ y :: m) by (rewrite <- Hperm; set_solver).
    assert (Hyl : y ∈ x :: l) by (rewrite Hperm; set_solver).
    apply elem_of_cons in Hxm as [|Hxm]; [done|]. apply elem_of_cons in Hyl as [|Hyl]; [done|].
    rewrite List.Forall_forall in Hx, Hy.
    assert (x.1 = y.1) as E by (apply str_leb_antisym; [apply Hx|apply Hy]; by apply list_elem_of_In).
    cbn in Hnd. apply NoDup_cons in Hnd as [Hn _]. exfalso. apply Hn. rewrite E.
    by apply list_elem_of_fmap_2. }
  f_equal. apply IH; [done|done| |by apply NoDup_cons in Hnd as [_ ?]].
  by apply Permutation_cons_inv in Hperm.
Qed.

(** ** Reading the text of a string back *)

Definition unhex (c : N) : N := if (c <? 58)%N then (c - 48)%N else (c - 87)%N.

Definition unescape_char (c : N) : N :=
  if (c =? 98)%N then 8 else if (c =? 116)%N then 9 else if (c =? 110)%N then 10
  else if (c =? 102)%N then 12 else if (c =? 114)%N then 13 else c.

Definition cons_fst (c : N) (r : option (jsstring * jsstring)) : option (jsstring * jsstring) :=
  match r with Some (s, t) => Some (c :: s, t) | None => None end.

(** The content of a string literal and the text after its closing quote. *)
Fixpoint unescape (t : jsstring) : option (jsstring * jsstring) :=
  match t with
  | [] => None
  | c :: t' =>
      if (c =? QUOTE)%N then Some ([], t')
      else if (c =? BACKSLASH)%N then
        match t' with
        | e :: ((h1 :: h2 :: h3 :: h4 :: t'') as t1) =>
            if (e =? 117)%N
            then cons_fst (((unhex h1 * 16 + unhex h2) * 16 + unhex h3) * 16 + unhex h4)%N (unescape t'')
            else cons_fst (unescape_char e) (unescape t1)
        | e :: t1 => cons_fst (unescape_char e) (unescape t1)
        | [] => None
        end
      else cons_fst c (unescape t')
  end.

Lemma unescape_u c t :
  (c < 65536)%N -> unescape (u_escape c ++ t) = cons_fst c (unescape t).
Proof.
  intros Hc. unfold u_escape. cbn [app unescape].
  change (BACKSLASH =? QUOTE)%N with false. change (BACKSLASH =? BACKSLASH)%N with true.
  change (117 =? 117)%N with true. cbn [andb]. cbv iota.
  assert (Hhex : forall d, (d < 16)%N -> unhex (hex_digit d) = d).
  { intros d Hd. unfold unhex, hex_digit. destruct (N.ltb_spec d 10).
    - destruct (N.ltb_spec (48 + d) 58); lia.
    - destruct (N.ltb_spec (87 + d) 58); lia. }
  assert (c / 4096 < 16)%N by (apply N.Div0.div_lt_upper_bound; lia).
  assert (Hm : forall x, (x mod 16 < 16)%N) by (intros; by apply N.mod_lt).
  rewrite !Hhex by auto. f_equal.
  pose proof (N.div_mod c 16 ltac:(done)) as H1.
  pose proof (N.div_mod (c / 16) 16 ltac:(done)) as H2.
  pose proof (N.div_mod (c / 16 / 16) 16 ltac:(done)) as H3.
  rewrite N.Div0.div_div in H2, H3. change (16 * 16)%N with 256%N in *.
  rewrite N.Div0.div_div in H3. change (256 * 16)%N with 4096%N in *. lia.
Qed.

Lemma unescape_short e t1 :
  (e =? 117)%N = false -> unescape (BACKSLASH :: e :: t1) = cons_fst (unescape_char e) (unescape t1).
Proof.
  intros He. cbn [unescape]. change (BACKSLASH =? QUOTE)%N with false.
  change (BACKSLASH =? BACKSLASH)%N with true. cbv iota.
  destruct t1 as [|? [|? [|? [|? ?]]]]; try done. by rewrite He.
Qed.

Lemma unescape_raw c t :
  c <> QUOTE -> c <> BACKSLASH -> unescape (c :: t) = cons_fst c (unescape t).
Proof. intros ??. cbn [unescape]. by rewrite !(proj2 (N.eqb_neq _ _)). Qed.

Lemma unescape_unit c t : unescape (escape_unit c ++ t) = cons_fst c (unescape t).
Proof.
  unfold escape_unit.
  repeat match goal with
  | |- context [if (?a =? ?b)%N then _ else _] => destruct (N.eqb_spec a b) as [->|?]
  end; cbn [app]; try by apply unescape_short.
  destruct (N.ltb_spec c 32); [apply unescape_u; lia|]. by apply unescape_raw.
Qed.

Lemma unescape_escape s t : unescape (escape_string s ++ QUOTE :: t) = Some (s, t).
Proof.
  remember (length s) as n eqn:Hn. revert s Hn.
  induction n as [n IH] using lt_wf_ind; intros s ->.
  assert (Hsur : forall c, is_high_surrogate c = true \/ is_low_surrogate c = true ->
    (c < 65536)%N /\ c <> QUOTE /\ c <> BACKSLASH).
  { intros c. unfold is_high_surrogate, is_low_surrogate, QUOTE, BACKSLASH.
    rewrite !andb_true_iff, !N.leb_le. lia. }
  destruct s as [|c rest]; [done|]. cbn [escape_string].
  destruct (is_high_surrogate c) eqn:Eh.
  - destruct (Hsur c ltac:(by left)) as (? & ? & ?). destruct rest as [|d rest'].
    + by rewrite unescape_u.
    + destruct (is_low_surrogate d) eqn:El.
      * destruct (Hsur d ltac:(by right)) as (? & ? & ?). cbn [app].
        rewrite !unescape_raw by done. by rewrite (IH (length rest') ltac:(simpl; lia) rest').
      * rewrite <- (assoc_L app), unescape_u by done.
        by rewrite (IH (length (d :: rest')) ltac:(simpl; lia) (d :: rest')).
  - destruct (is_low_surrogate c) eqn:El.
    + destruct (Hsur c ltac:(by right)) as (? & ? & ?). rewrite <- (assoc_L app), unescape_u by done.
      by rewrite (IH (length rest) ltac:(simpl; lia) rest).
    + rewrite <- (assoc_L app), unescape_unit. by rewrite (IH (length rest) ltac:(simpl; lia) rest).
Qed.

Lemma stringify_inj s1 s2 t1 t2 :
  stringify_string s1 ++ t1 = stringify_string s2 ++ t2 -> s1 = s2 /\ t1 = t2.
Proof.
  unfold stringify_string. cbn [app]. rewrite <- !(assoc_L app). cbn [app]. intros [= E].
  pose proof (unescape_escape s1 t1) as E1. rewrite E, unescape_escape in E1. by simplify_eq.
Qed.

(** ** Equality up to the order of fields *)

(** Fields sorted by key, at every level. *)
Fixpoint canon (v : json) : json :=
  match v with
  | JArr items => JArr (canon <$> items)
  | JObj fields =>
      JObj (sort_fields ((fix go fs := match fs with
                                       | [] => []
                                       | (k, x) :: fs' => (k, canon x) :: go fs'
                                       end) fields))
  | _ => v
  end.

(** The text of a value whose fields are in order already. *)
Fixpoint print_json (v : json) : jsstring :=
  match v with
  | JNull => js "null"
  | JBool true => js "true"
  | JBool false => js "false"
  | JNum n => num_to_string n
  | JStr s => stringify_string s
  | JArr items => js "[" ++ join (js ",") (print_json <$> items) ++ js "]"
  | JObj fields =>
      js "{" ++ join (js ",") ((fix go fs := match fs with
                                | [] => []
                                | (k, x) :: fs' => (stringify_string k ++ js ":" ++ print_json x) :: go fs'
                                end) fields) ++ js "}"
  end.

Definition print_field (f : jsstring * json) : jsstring :=
  stringify_string f.1 ++ js ":" ++ print_json f.2.

Lemma print_obj fields :
  print_json (JObj fields) = js "{" ++ join (js ",") (print_field <$> fields) ++ js "}".
Proof.
  cbn [print_json]. do 3 f_equal. induction fields as [|[k x] fields IH]; [done|].
  cbn [fmap list_fmap]. by f_equal.
Qed.

Lemma canon_obj fields : canon (JObj fields) = JObj (sort_fields (prod_map id canon <$> fields)).
Proof.
  cbn [canon]. do 2 f_equal. induction fields as [|[k x] fields IH]; [done|].
  cbn [fmap list_fmap prod_map]. by f_equal.
Qed.

(** Induction with the hypothesis for every item and every field. *)
Lemma json_nested_ind (P : json -> Prop) :
  P JNull -> (forall b, P (JBool b)) -> (forall n, P (JNum n)) -> (forall s, P (JStr s)) ->
  (forall items, Forall P items -> P (JArr items)) ->
  (forall fields, Forall (fun f => P f.2) fields -> P (JObj fields)) ->
  forall v, P v.
Proof.
  intros Hnull Hbool Hnum Hstr Harr Hobj. fix IH 1.
  intros [|b|n|s|items|fields]; [exact Hnull|apply Hbool|apply Hnum|apply Hstr| |].
  - apply Harr. induction items as [|x items IHi]; constructor; [exact (IH x)|exact IHi].
  - apply Hobj. induction fields as [|[k x] fields IHf]; constructor; [exact (IH x)|exact IHf].
Qed.

Lemma sort_fields_map {A B} (f : A -> B) (l : list (jsstring * A)) :
  sort_fields (prod_map id f <$> l) = prod_map id f <$> sort_fields l.
Proof.
  induction l as [|x l IH]; [done|]. unfold sort_fields, sort_by in *.
  rewrite fmap_cons. cbn [foldr]. rewrite IH.
  generalize (foldr (insert_by (fun a b : jsstring * A => str_leb a.1 b.1)) [] l) as m.
  induction m as [|y m IHm]; [done|]. rewrite fmap_cons. cbn [insert_by].
  change (prod_map id f x).1 with x.1. change (prod_map id f y).1 with y.1.
  destruct (str_leb x.1 y.1); [done|]. by rewrite IHm.
Qed.

Lemma canonicalJson_canon v : canonicalJson v = print_json (canon v).
Proof.
  induction v as [| [] | | |items IH|fields IH] using json_nested_ind; try done.
  - cbn [canonicalJson canon print_json]. rewrite <- list_fmap_compose. do 3 f_equal.
    apply list_fmap_ext. intros i x Hx. rewrite Forall_lookup in IH. exact (IH i x Hx).
  - rewrite canonicalJson_obj, canon_obj, print_obj. do 3 f_equal.
    assert (prod_map id canonicalJson <$> fields
            = prod_map id print_json <$> (prod_map id canon <$> fields)) as ->.
    { rewrite <- list_fmap_compose. apply list_fmap_ext. intros i [k x] Hx.
      rewrite Forall_lookup in IH. specialize (IH i (k, x) Hx). simpl in *. unfold prod_map.
      simpl. by rewrite IH. }
    rewrite sort_fields_map, <- list_fmap_compose. by apply list_fmap_ext.
Qed.

(** ** The text determines the value *)

Definition not_digit_next (t : jsstring) : Prop :=
  match t with [] => True | c :: _ => is_digit c = false end.

Lemma dec_inj n m t1 t2 :
  not_digit_next t1 -> not_digit_next t2 -> dec n ++ t1 = dec m ++ t2 -> n = m /\ t1 = t2.
Proof.
  intros H1 H2 E.
  assert (S : forall k t, not_digit_next t -> span is_digit (dec k ++ t) = (dec k, t)).
  { intros k t Ht. apply span_prefix; [apply dec_digit|by destruct t]. }
  pose proof (S n t1 H1) as S1. rewrite E, (S m t2 H2) in S1. injection S1 as E1 ->. split; [|done].
  by rewrite <- (dec_value_dec n), <- E1, dec_value_dec.
Qed.

Lemma dec_cons k : exists c w, dec k = c :: w /\ is_digit c = true.
Proof.
  destruct (dec k) as [|c w] eqn:E.
  - pose proof (dec_value_dec k) as Hk. rewrite E in Hk. cbv in Hk. by subst k.
  - exists c, w. split; [done|]. pose proof (dec_digit k) as Hd. rewrite E in Hd. by inversion Hd.
Qed.

Lemma num_first n : exists c s, num_to_string n = c :: s /\ (is_digit c = true \/ c = 45%N).
Proof.
  unfold num_to_string. destruct (n <? 0)%Z; [eauto|].
  destruct (dec_cons (Z.to_N n)) as (c & w & -> & ?). eauto.
Qed.

Lemma num_inj n m t1 t2 :
  not_digit_next t1 -> not_digit_next t2 ->
  num_to_string n ++ t1 = num_to_string m ++ t2 -> n = m /\ t1 = t2.
Proof.
  intros H1 H2. unfold num_to_string.
  destruct (Z.ltb_spec n 0), (Z.ltb_spec m 0); cbn [app]; intros E.
  - injection E as E. apply dec_inj in E as [? ->]; [|done|done]. split; [lia|done].
  - destruct (dec_cons (Z.to_N m)) as (c & w & Hd & Hc). rewrite Hd in E. by injection E as <- _.
  - destruct (dec_cons (Z.to_N n)) as (c & w & Hd & Hc). rewrite Hd in E. by injection E as -> _.
  - apply dec_inj in E as [? ->]; [|done|done]. split; [lia|done].
Qed.

(** The first character of a text tells the kind of its value. *)
Inductive json_kind := KNull | KTrue | KFalse | KNum | KStr | KArr | KObj.

Definition kind_of (v : json) : json_kind :=
  match v with
  | JNull => KNull | JBool true => KTrue | JBool false => KFalse | JNum _ => KNum
  | JStr _ => KStr | JArr _ => KArr | JObj _ => KObj
  end.

Definition first_kind (c : N) : option json_kind :=
  if (c =? 110)%N then Some KNull else if (c =? 116)%N then Some KTrue
  else if (c =? 102)%N then Some KFalse
  else if is_digit c || (c =? 45)%N then Some KNum
  else if (c =? QUOTE)%N then Some KStr else if (c =? 91)%N then Some KArr
  else if (c =? 123)%N then Some KObj else None.

Lemma print_first v :
  exists c t, print_json v = c :: t /\ first_kind c = Some (kind_of v).
Proof.
  destruct v as [|[]|n| | |]; try (eexists _, _; split; [reflexivity|reflexivity]).
  cbn [print_json kind_of]. destruct (num_first n) as (c & s & -> & Hc). exists c, s. split; [done|].
  unfold first_kind.
  assert (c = 45 \/ 48 <= c <= 57)%N as Hr.
  { destruct Hc as [Hc| ->]; [right|by left]. unfold is_digit in Hc.
    rewrite andb_true_iff, !N.leb_le in Hc. lia. }
  rewrite !(proj2 (N.eqb_neq c _)) by lia.
  destruct Hc as [-> | ->]; done.
Qed.

Definition prints_inj (v : json) : Prop :=
  forall w t1 t2, not_digit_next t1 -> not_digit_next t2 ->
    print_json v ++ t1 = print_json w ++ t2 -> v = w /\ t1 = t2.

(** A comma-separated list that a closing bracket ends determines its elements. *)
Lemma join_inj {A} (pr : A -> jsstring) (close : N) (l1 l2 : list A) t1 t2 :
  (close =? 44)%N = false -> is_digit close = false ->
  (forall x, exists c t, pr x = c :: t /\ c <> close) ->
  Forall (fun x => forall y u1 u2, not_digit_next u1 -> not_digit_next u2 ->
            pr x ++ u1 = pr y ++ u2 -> x = y /\ u1 = u2) l1 ->
  join (js ",") (pr <$> l1) ++ close :: t1 = join (js ",") (pr <$> l2) ++ close :: t2 ->
  l1 = l2 /\ t1 = t2.
Proof.
  intros Hcomma Hdig Hne Hinj. change (js ",") with [44%N]. apply N.eqb_neq in Hcomma.
  assert (Hnn : forall (l : list A) t, not_digit_next ((match l with [] => [] | _ => [44%N] end)
      ++ join [44%N] (pr <$> l) ++ close :: t)).
  { intros [|] t; simpl; done. }
  assert (Hsplit : forall x (l : list A) t, join [44%N] (pr <$> x :: l) ++ close :: t
    = pr x ++ (match l with [] => [] | _ => [44%N] end) ++ join [44%N] (pr <$> l) ++ close :: t).
  { intros x [|y l] t; [by rewrite fmap_nil|]. rewrite fmap_cons, join_cons by done.
    by rewrite <- !(assoc_L app). }
  revert l2. induction Hinj as [|x l1 Hx Hinj IH]; intros [|y l2] E.
  - by injection E as ->.
  - rewrite Hsplit in E. destruct (Hne y) as (c & t & Hy & Hc). rewrite Hy in E.
    injection E as E _. congruence.
  - rewrite Hsplit in E. destruct (Hne x) as (c & t & Hy & Hc). rewrite Hy in E.
    injection E as E _. congruence.
  - rewrite !Hsplit in E. apply Hx in E as [-> E]; [|apply Hnn..].
    destruct l1 as [|x1 l1], l2 as [|y2 l2].
    + by injection E as ->.
    + injection E as E _. congruence.
    + injection E as E _. congruence.
    + apply (app_inv_head [44%N]) in E. by apply IH in E as [-> ->].
Qed.

Lemma print_json_inj v : prints_inj v.
Proof.
  induction v as [|b|n|s|items IH|fields IH] using json_nested_ind; intros w t1 t2 H1 H2 E;
  match goal with |- ?v = _ /\ _ =>
    destruct (print_first v) as (c & u & Hv & Hk); destruct (print_first w) as (d & u' & Hw & Hk')
  end;
  assert (c = d) as <- by (rewrite Hv, Hw in E; by injection E);
  rewrite Hk in Hk'; injection Hk' as Hk'; clear Hv Hw Hk.
  - destruct w as [|[]| | | |]; try done. by simplify_eq.
  - destruct b, w as [|[]| | | |]; try done; by simplify_eq.
  - destruct w as [|[]| | | |]; try done. cbn [print_json] in E.
    by apply num_inj in E as [-> ->].
  - destruct w as [|[]| | | |]; try done. cbn [print_json] in E.
    by apply stringify_inj in E as [-> ->].
  - destruct w as [|[]| | |items'|]; try done. cbn [print_json] in E.
    change (js "[") with [91%N] in E. change (js "]") with [93%N] in E.
    rewrite <- !(assoc_L app) in E. cbn [app] in E. injection E as E.
    apply join_inj in E as [-> ->]; [done|done|done| |exact IH].
    intros x. destruct (print_first x) as (c' & t & -> & Hc). exists c', t. split; [done|].
    by intros ->.
  - destruct w as [|[]| | | |fields']; try done. rewrite !print_obj in E.
    change (js "{") with [123%N] in E. change (js "}") with [125%N] in E.
    rewrite <- !(assoc_L app) in E. cbn [app] in E. injection E as E.
    apply join_inj in E as [-> ->]; [done|done|done| |].
    { intros x. by eexists QUOTE, _. }
    eapply Forall_impl; [exact IH|]. intros [k x] Hx [k' y] u1 u2 Hu1 Hu2 Eq. simpl in Hx.
    unfold print_field in Eq. cbn [fst snd] in Eq. rewrite <- !(assoc_L app) in Eq.
    apply stringify_inj in Eq as [-> Eq]. apply app_inv_head in Eq.
    apply Hx in Eq as [-> ->]; done.
Qed.

Lemma canonicalJson_inj v w : canonicalJson v = canonicalJson w -> canon v = canon w.
Proof.
  rewrite !canonicalJson_canon. intros E.
  destruct (print_json_inj (canon v) (canon w) [] []) as [? _]; [done|done| |done].
  by rewrite E.
Qed.
