(* ===== verification/HarnessLifecycle.v ===== *)
(** * Harness sessions: lifecycle and permitted actions

    The types of harness-control-plane/types.ts and the state machine of
    state-machine.ts: which lifecycle moves are legal and which verbs a response
    advertises. *)

From S2P Require Import Prelude.

(** ** Types *)

Inductive Harness := HGajaeCode | HCodex | HOmx.

Inductive HarnessLifecycle :=
| LNew | LStarted | LSubmitted | LObserving | LRecovering | LValidating | LFinalizing
| LCompleted | LBlocked | LRetired.

Inductive Severity := SevInfo | SevWarn | SevCritical.
Inductive GitDelta := GClean | GDirty | GZeroDelta | GUnknown.
Inductive RiskKind := RNormal | RPromptNotAccepted | RDeletedWorktree | RVanishedDirty.

Inductive RecoveryClassification :=
| CContinue | CSendEnter | CReinjectPrompt | CRestartClean | CRestartPreserveDelta
| CFallbackCodexExec | CHumanCheck.

Inductive ReceiptFamily :=
| FVanish | FPromptAcceptance | FValidation | FCompletion | FReviewVerdict | FReviewFailure
| FPhaseRollup.

Inductive HarnessVerb :=
| VStart | VSubmit | VObserve | VClassify | VRecover | VValidate | VFinalize | VRetire
| VEvents | VMonitor | VOperate.

#[export] Instance Harness_eq_dec : EqDecision Harness.
Proof. solve_decision. Defined.
#[export] Instance HarnessLifecycle_eq_dec : EqDecision HarnessLifecycle.
Proof. solve_decision. Defined.
#[export] Instance GitDelta_eq_dec : EqDecision GitDelta.
Proof. solve_decision. Defined.
#[export] Instance RiskKind_eq_dec : EqDecision RiskKind.
Proof. solve_decision. Defined.
#[export] Instance RecoveryClassification_eq_dec : EqDecision RecoveryClassification.
Proof. solve_decision. Defined.
#[export] Instance ReceiptFamily_eq_dec : EqDecision ReceiptFamily.
Proof. solve_decision. Defined.
#[export] Instance HarnessVerb_eq_dec : EqDecision HarnessVerb.
Proof. solve_decision. Defined.

(** The string each member of the union is in the source. *)
Definition lifecycle_name (l : HarnessLifecycle) : jsstring :=
  match l with
  | LNew => js "new" | LStarted => js "started" | LSubmitted => js "submitted"
  | LObserving => js "observing" | LRecovering => js "recovering" | LValidating => js "validating"
  | LFinalizing => js "finalizing" | LCompleted => js "completed" | LBlocked => js "blocked"
  | LRetired => js "retired"
  end.

(** [reason] is present exactly when the action is not available. *)
Record NextAllowedAction := mkAction { na_verb : HarnessVerb; na_reason : option jsstring }.

Definition na_available (a : NextAllowedAction) : bool :=
  match na_reason a with None => true | Some _ => false end.

Record SessionStateView := mkView {
  v_sessionId : jsstring; v_lifecycle : HarnessLifecycle; v_harness : Harness;
  v_ownerLive : bool; v_blockers : list jsstring
}.

(** The part of the persisted record that the modelled code reads or writes. *)
Record SessionState := mkSession {
  s_sessionId : jsstring; s_lifecycle : HarnessLifecycle; s_harness : Harness;
  s_blockers : list jsstring; s_updatedAt : Z
}.

Record PrimitiveResponse (E : Type) := mkResponse {
  pr_ok : bool; pr_state : SessionStateView; pr_evidence : E;
  pr_nextAllowedActions : list NextAllowedAction
}.
Arguments mkResponse {E}.
Arguments pr_ok {E}.
Arguments pr_state {E}.
Arguments pr_evidence {E}.
Arguments pr_nextAllowedActions {E}.

(** ** The state machine *)

Definition TERMINAL_LIFECYCLES : list HarnessLifecycle := [LCompleted; LRetired].
Definition SUBMIT_READY_LIFECYCLES : list HarnessLifecycle := [LStarted; LObserving].

Definition TRANSITIONS (l : HarnessLifecycle) : list HarnessLifecycle :=
  match l with
  | LNew => [LStarted; LBlocked; LRetired]
  | LStarted => [LSubmitted; LObserving; LRecovering; LBlocked; LRetired]
  | LSubmitted => [LObserving; LRecovering; LValidating; LBlocked; LRetired]
  | LObserving => [LSubmitted; LRecovering; LValidating; LFinalizing; LBlocked; LRetired]
  | LRecovering => [LStarted; LSubmitted; LObserving; LBlocked; LRetired]
  | LValidating => [LFinalizing; LObserving; LBlocked; LRetired]
  | LFinalizing => [LCompleted; LBlocked; LRetired]
  | LCompleted => [LRetired]
  | LBlocked => [LStarted; LSubmitted; LObserving; LRecovering; LValidating; LRetired]
  | LRetired => []
  end.

Definition isTerminal (l : HarnessLifecycle) : bool := bool_decide (l ∈ TERMINAL_LIFECYCLES).

Definition canTransition (from to : HarnessLifecycle) : bool := bool_decide (to ∈ TRANSITIONS from).

(** The thrown message [invalid_transition:from->to] carries the two states. *)
Definition assertTransition (from to : HarnessLifecycle)
    : result (HarnessLifecycle * HarnessLifecycle) unit :=
  if bool_decide (from = to) then Ok ()
  else if canTransition from to then Ok () else Err (from, to).

Definition submitUnavailableReason (l : HarnessLifecycle) (ownerLive : bool)
    (gateReason : option jsstring) : option jsstring :=
  if isTerminal l then Some (js "lifecycle-terminal:" ++ lifecycle_name l)
  else if bool_decide (l = LBlocked) then Some (js "lifecycle-blocked")
  else if negb (bool_decide (l ∈ SUBMIT_READY_LIFECYCLES))
  then Some (js "lifecycle-not-idle:" ++ lifecycle_name l)
  else if negb ownerLive then Some (js "owner-not-live")
  else gateReason.

(** The local [add] of the source: an unavailable action always has a reason. *)
Definition add_action (verb : HarnessVerb) (available : bool) (reason : option jsstring)
    : NextAllowedAction :=
  if available then mkAction verb None else mkAction verb (Some (default (js "unavailable") reason)).

Definition nextAllowedActions (l : HarnessLifecycle) (ownerLive : bool)
    (gateReason : option jsstring) : list NextAllowedAction :=
  let terminal := isTerminal l in
  let terminalReason :=
    if terminal then Some (js "lifecycle-terminal:" ++ lifecycle_name l) else None in
  let submitReason := submitUnavailableReason l ownerLive gateReason in
  [ add_action VObserve true None;
    add_action VClassify true None;
    add_action VEvents true None;
    add_action VMonitor true None;
    add_action VStart false (Some (js "session-already-exists"));
    add_action VSubmit (bool_decide (submitReason = None)) submitReason;
    add_action VRecover (negb terminal) terminalReason;
    add_action VValidate (negb terminal) terminalReason;
    add_action VFinalize (negb terminal) terminalReason;
    add_action VRetire (negb (bool_decide (l = LRetired)))
      (if bool_decide (l = LRetired) then Some (js "already-retired") else None) ].

Definition buildStateView (s : SessionState) (ownerLive : bool) : SessionStateView :=
  mkView (s_sessionId s) (s_lifecycle s) (s_harness s) ownerLive (s_blockers s).

Definition buildResponse {E} (s : SessionState) (ownerLive : bool) (evidence : E) (ok : bool)
    : PrimitiveResponse E :=
  mkResponse ok (buildStateView s ownerLive) evidence
    (nextAllowedActions (s_lifecycle s) ownerLive None).

(** ** Runs of the machine *)

(** One accepted change of lifecycle; staying put is always accepted. *)
Inductive lifecycle_step : HarnessLifecycle -> HarnessLifecycle -> Prop :=
| Step_assert from to : assertTransition from to = Ok () -> lifecycle_step from to.

(** The states a session goes through, newest first. *)
Inductive lifecycle_run : list HarnessLifecycle -> Prop :=
| Run_new : lifecycle_run [LNew]
| Run_step from to past :
    lifecycle_run (from :: past) -> lifecycle_step from to -> lifecycle_run (to :: from :: past).

Lemma assertTransition_ok from to :
  assertTransition from to = Ok () <-> from = to \/ to ∈ TRANSITIONS from.
Proof.
  unfold assertTransition, canTransition. repeat case_bool_decide; naive_solver.
Qed.

Lemma step_from_terminal from to :
  lifecycle_step from to -> isTerminal from = true -> to = from \/ to = LRetired.
Proof.
  intros [f t Hok] Ht. apply assertTransition_ok in Hok as [->|Hin]; [by left|].
  destruct f; try done; cbn in Hin; set_solver.
Qed.

Lemma step_to_completed from :
  lifecycle_step from LCompleted -> from = LCompleted \/ from = LFinalizing.
Proof.
  inversion 1 as [f t Hok]; subst. apply assertTransition_ok in Hok as [->|Hin]; [by left|].
  destruct from; cbn in Hin; set_solver.
Qed.

Lemma step_to_finalizing from :
  lifecycle_step from LFinalizing ->
  from = LFinalizing \/ from = LValidating \/ from = LObserving.
Proof.
  inversion 1 as [f t Hok]; subst. apply assertTransition_ok in Hok as [->|Hin]; [by left|].
  destruct from; cbn in Hin; set_solver.
Qed.

(** Every suffix of a run is a run, so facts about the newest states reach back. *)
Lemma run_inv to past :
  lifecycle_run (to :: past) ->
  match past with [] => to = LNew | from :: _ => lifecycle_run past /\ lifecycle_step from to end.
Proof. inversion 1; subst; auto. Qed.

Lemma run_completed_past past :
  lifecycle_run past -> LCompleted ∈ past -> LFinalizing ∈ past.
Proof.
  induction 1 as [|from to past Hrun IH Hstep]; [set_solver|].
  intros [<-|Hin]%elem_of_cons; [|set_solver].
  destruct (step_to_completed from Hstep) as [->| ->]; set_solver.
Qed.

Lemma run_finalizing_past past :
  lifecycle_run past -> LFinalizing ∈ past -> LObserving ∈ past \/ LValidating ∈ past.
Proof.
  induction 1 as [|from to past Hrun IH Hstep]; [set_solver|].
  intros [<-|Hin]%elem_of_cons; [|set_solver].
  destruct (step_to_finalizing from Hstep) as [->|[->| ->]]; set_solver.
Qed.

(** no shortcut to completion: in every run of the lifecycle from [new], a
    session that is completed went through finalizing, and before that through
    observing or validating; once completed it can only become retired, and a
    retired session never changes again. *)
Theorem lifecycle_completion l past :
  lifecycle_run (l :: past) ->
  (l = LCompleted -> LFinalizing ∈ past /\ (LObserving ∈ past \/ LValidating ∈ past))
  /\ (forall from, head past = Some from -> isTerminal from = true -> l = from \/ l = LRetired)
  /\ (head past = Some LRetired -> l = LRetired).
Proof.
  intros Hrun. split_and!.
  - intros ->. pose proof (run_completed_past _ Hrun ltac:(set_solver)) as Hf.
    pose proof (run_finalizing_past _ Hrun Hf). set_solver.
  - intros from Hh Ht. apply run_inv in Hrun. destruct past; [done|]. injection Hh as ->.
    destruct Hrun as [_ Hs]. by eapply step_from_terminal.
  - intros Hh. apply run_inv in Hrun. destruct past; [done|]. injection Hh as ->.
    destruct Hrun as [_ Hs]. by destruct (step_from_terminal _ _ Hs ltac:(done)) as [->| ->].
Qed.

Lemma lifecycle_completion_witness :
  LFinalizing ∈ [LFinalizing; LObserving; LStarted; LNew]
  /\ (LObserving ∈ [LFinalizing; LObserving; LStarted; LNew]
      \/ LValidating ∈ [LFinalizing; LObserving; LStarted; LNew]).
Proof.
  apply (lifecycle_completion LCompleted [LFinalizing; LObserving; LStarted; LNew]);
    [|reflexivity].
  repeat (apply Run_step; [|constructor; reflexivity]). apply Run_new.
Defined.

(** ** What a response advertises *)

Definition action_of (verb : HarnessVerb) (actions : list NextAllowedAction)
    : option NextAllowedAction :=
  List.find (fun a => bool_decide (na_verb a = verb)) actions.

(** the advertised actions are exact: every verb but [operate] is listed once;
    [submit] is available exactly when the session is idle ([started] or
    [observing]), its owner is live and no gate is closed, and then the move to
    [submitted] is legal; the three recovery verbs are available exactly outside
    the terminal states; [retire] exactly when moving to [retired] is legal. *)
Theorem advertised_actions_exact l ownerLive gate :
  let actions := nextAllowedActions l ownerLive gate in
  let available v := exists a, action_of v actions = Some a /\ na_available a = true in
  NoDup (na_verb <$> actions)
  /\ (forall v, v <> VOperate <-> v ∈ na_verb <$> actions)
  /\ (available VSubmit <-> (l = LStarted \/ l = LObserving) /\ ownerLive = true /\ gate = None)
  /\ (available VSubmit -> canTransition l LSubmitted = true)
  /\ (forall v, v ∈ [VRecover; VValidate; VFinalize] -> available v <-> isTerminal l = false)
  /\ (available VRetire <-> canTransition l LRetired = true)
  /\ ~ available VStart.
Proof.
  intros actions available.
  assert (Hav : forall v, available v <-> existsb na_available (option_list (action_of v actions)) = true).
  { intros v. unfold available. destruct (action_of v actions) as [a|]; simpl.
    - rewrite orb_false_r. naive_solver.
    - naive_solver. }
  clearbody available. split_and!.
  - apply (bool_decide_eq_true_1 _). destruct l, ownerLive, gate; reflexivity.
  - intros v. assert (na_verb <$> actions = [VObserve; VClassify; VEvents; VMonitor; VStart; VSubmit;
      VRecover; VValidate; VFinalize; VRetire]) as ->.
    { unfold actions, nextAllowedActions, add_action. cbn [fmap list_fmap].
      repeat (match goal with |- context [if ?b then _ else _] => destruct b end); done. }
    destruct v; split; intros Hv; first
      [ discriminate | apply (bool_decide_eq_true_1 _); reflexivity | by destruct Hv
      | exfalso; revert Hv; apply (bool_decide_eq_false_1 _); reflexivity ].
  - rewrite Hav. destruct l, ownerLive, gate; split; intros Hx; try discriminate Hx;
      first [reflexivity | by auto
            | destruct Hx as ([Hx|Hx] & Hy & Hz); first [discriminate Hx|discriminate Hy|discriminate Hz]].
  - rewrite Hav. destruct l, ownerLive, gate; intros Hx; first [discriminate Hx|reflexivity].
  - intros v Hv. rewrite Hav.
    repeat (apply elem_of_cons in Hv as [->|Hv]); [..|by apply elem_of_nil in Hv];
      destruct l, ownerLive, gate; split; intros Hx; first [discriminate Hx|reflexivity].
  - rewrite Hav. destruct l, ownerLive, gate; split; intros Hx; first [discriminate Hx|reflexivity].
  - rewrite Hav. by destruct l, ownerLive, gate.
Qed.
