(* ===== verification/HarnessReceipts.v ===== *)
(** * Harness receipts (harness-control-plane/receipts.ts)

    A receipt is a JSON object that anybody may have written: the validators look
    at raw JSON values and fail closed.  [sha256Hex] (the crypto library) is a
    parameter, as are the conversions the language applies when values of the
    wrong kind are compared. *)

From S2P Require Import Prelude JsText Json HarnessLifecycle.

Class ReceiptEnv := {
  sha256Hex : jsstring -> jsstring;
  (** [a > b] when the two values are not both numbers. *)
  coerced_gt : option json -> option json -> bool;
  (** [String(v)] of a value that is not a string. *)
  coerced_text : option json -> jsstring;
  (** [Math.abs(v - n) <= 1e-9] for a value that is not a number. *)
  coerced_near : option json -> Z -> bool
}.

Definition RECEIPT_SCHEMA_VERSION : Z := 1.

Definition family_name (f : ReceiptFamily) : jsstring :=
  match f with
  | FVanish => js "vanish" | FPromptAcceptance => js "prompt-acceptance"
  | FValidation => js "validation" | FCompletion => js "completion"
  | FReviewVerdict => js "review-verdict" | FReviewFailure => js "review-failure"
  | FPhaseRollup => js "phase-rollup"
  end.

(** [if (b) reasons.push(reason)] *)
Definition reason_if (b : bool) (reason : jsstring) : list jsstring := if b then [reason] else [].

(** ** Building *)

Record BuildReceiptInput := mkReceiptInput {
  bi_receiptId : jsstring;
  bi_sessionId : jsstring;
  bi_family : ReceiptFamily;
  bi_source : jsstring;
  bi_subject : json;
  bi_evidence : json;
  bi_artifactHashes : option json;
  bi_createdAt : option jsstring;
  bi_valid : option bool
}.

(** The receipt without its hash; [now] is the clock's ISO time. *)
Definition receipt_base (now : jsstring) (input : BuildReceiptInput) : list (jsstring * json) :=
  [ (js "receiptId", JStr (bi_receiptId input));
    (js "schemaVersion", JNum RECEIPT_SCHEMA_VERSION);
    (js "sessionId", JStr (bi_sessionId input));
    (js "family", JStr (family_name (bi_family input)));
    (js "valid", JBool (default true (bi_valid input)));
    (js "createdAt", JStr (default now (bi_createdAt input)));
    (js "source", JStr (bi_source input));
    (js "subject", bi_subject input);
    (js "evidence", bi_evidence input);
    (js "artifactHashes", default (JObj []) (bi_artifactHashes input)) ].

Section receipts.
Context `{ReceiptEnv}.

Definition hashBasis (fields : list (jsstring * json)) : jsstring := canonicalJson (JObj fields).

Definition buildReceipt (now : jsstring) (input : BuildReceiptInput) : json :=
  let base := receipt_base now input in
  JObj (base ++ [(js "sha256", JStr (sha256Hex (hashBasis base)))]).

(** ** Validating the envelope *)

Definition validateStructure (r : option json) : list jsstring :=
  reason_if (negb (isNonEmptyString (jget (js "receiptId") r))) (js "envelope-missing-receiptId")
  ++ reason_if (negb (isNonEmptyString (jget (js "sessionId") r))) (js "envelope-missing-sessionId")
  ++ reason_if (negb (isNonEmptyString (jget (js "source") r))) (js "envelope-missing-source")
  ++ reason_if (negb (isNonEmptyString (jget (js "createdAt") r))) (js "envelope-missing-createdAt")
  ++ reason_if (negb (isNonEmptyString (jget (js "family") r))) (js "envelope-missing-family")
  ++ reason_if (negb (is_boolean (jget (js "valid") r))) (js "envelope-bad-valid")
  ++ reason_if (negb (is_string (jget (js "sha256") r))) (js "envelope-missing-sha256")
  ++ reason_if (negb (is_object (jget (js "subject") r)
                      && isNonEmptyString (jget (js "workspace") (jget (js "subject") r))))
       (js "envelope-bad-subject")
  ++ reason_if (negb (is_object (jget (js "evidence") r))) (js "envelope-bad-evidence")
  ++ reason_if (negb (is_object (jget (js "artifactHashes") r))) (js "envelope-bad-artifactHashes").

(** ** The families *)

Definition validateVanish (e : option json) : list jsstring :=
  if negb (truthy e) || negb (is_string (jget (js "gitDelta") e)) then [js "vanish-missing-evidence"]
  else
    let gitDelta := jget (js "gitDelta") e in
    let preservation := jget (js "preservation") e in
    let protectedDelta := is_str (js "dirty") gitDelta || is_str (js "unknown") gitDelta in
    (if protectedDelta then
       reason_if (is_str (js "block") preservation) (js "vanish-dirty-must-preserve-not-block")
       ++ ([js "restart-clean"; js "delete"; js "reset"] ≫= fun action =>
             reason_if (negb (array_includes action (jget (js "forbiddenActions") e)))
               (js "vanish-must-forbid-" ++ action))
     else [])
    ++ reason_if (is_str (js "snapshot") preservation
                  && negb (truthy (jget (js "snapshotComplete") e)))
         (js "vanish-snapshot-incomplete")
    ++ reason_if (is_str (js "stash") preservation && negb (truthy (jget (js "stashRef") e)))
         (js "vanish-stash-missing-ref").

Definition is_num (n : Z) (v : option json) : bool :=
  match v with Some (JNum m) => (m =? n)%Z | _ => false end.

Definition js_gt (a b : option json) : bool :=
  match a, b with
  | Some (JNum x), Some (JNum y) => (y <? x)%Z
  | _, _ => coerced_gt a b
  end.

(** [(v ?? 1) !== 0]: everything but the number 0. *)
Definition validatePromptAcceptance (e : option json) : list jsstring :=
  if negb (truthy e) then [js "acceptance-missing-evidence"]
  else
    let pre := jget (js "preSubmitState") e in
    reason_if (negb (match jget (js "singleFlight") e with Some (JBool true) => true | _ => false end))
      (js "acceptance-not-single-flight")
    ++ reason_if (truthy (jget (js "isStreaming") pre)) (js "acceptance-pre-state-streaming")
    ++ reason_if (negb (is_num 0 (jget (js "steeringQueueDepth") pre)))
         (js "acceptance-steering-queue-nonempty")
    ++ reason_if (negb (is_num 0 (jget (js "followupQueueDepth") pre)))
         (js "acceptance-followup-queue-nonempty")
    ++ reason_if (negb (js_gt (jget (js "agentStartCursor") e) (jget (js "preSubmitCursor") e)))
         (js "acceptance-agent-start-not-after-cursor").

Definition validateValidation (e : option json) : list jsstring :=
  if negb (truthy e) || negb (is_string (jget (js "exactCommand") e))
  then [js "validation-missing-evidence"]
  else if truthy (jget (js "pass") e) then [] else [js "validation-failed"].

Definition nonempty_array (v : option json) : bool :=
  match v with Some (JArr (_ :: _)) => true | _ => false end.

Definition validateCompletion (e : option json) : list jsstring :=
  if negb (truthy e) then [js "completion-missing-evidence"]
  else
    reason_if (negb (truthy (jget (js "finalCommit") e))) (js "completion-missing-commit")
    ++ reason_if (negb (truthy (jget (js "prUrl") e)) && negb (truthy (jget (js "issueArtifact") e)))
         (js "completion-missing-pr-or-issue")
    ++ reason_if (negb (nonempty_array (jget (js "requiredValidationReceiptIds") e)))
         (js "completion-missing-validation-receipts")
    ++ reason_if (nonempty_array (jget (js "blockers") e)) (js "completion-has-blockers").

Definition REVIEW_VERDICTS : list jsstring :=
  [js "APPROVE_MERGE_READY"; js "REQUEST_CHANGES"; js "OWNER_CONFIRMATION_REQUIRED"].

Definition isReviewVerdict (v : option json) : bool :=
  match v with Some (JStr s) => bool_decide (s ∈ REVIEW_VERDICTS) | _ => false end.

Definition validateReviewVerdict (e : option json) : list jsstring :=
  if negb (truthy e) then [js "review-verdict-missing-evidence"]
  else if negb (isReviewVerdict (jget (js "verdict") e)) then [js "review-verdict-not-in-vocabulary"]
  else [].

Definition validateReviewFailure (e : option json) : list jsstring :=
  if negb (truthy e) || negb (isNonEmptyString (jget (js "reason") e))
  then [js "review-failure-missing-reason"] else [].

(** ** Phase roll-ups *)

Definition is_hex (c : N) : bool := is_digit c || ((97 <=? c) && (c <=? 102))%N.

(** [SHA256_HEX.test(v)] *)
Definition sha256_shape (s : jsstring) : bool := (length s =? 64)%nat && forallb is_hex s.

Definition sha256_test (v : option json) : bool :=
  sha256_shape (match v with Some (JStr s) => s | _ => coerced_text v end).

Definition is_null (v : option json) : bool := match v with Some JNull => true | _ => false end.

Definition PHASE_ROLLUP_CHILD_STATUSES : list jsstring :=
  [js "completed"; js "failed"; js "aborted"; js "merge_failed"; js "paused"].

(** [typeof v === "number" && Number.isFinite(v) && v >= 0] *)
Definition nonneg_num (v : option json) : option Z :=
  match v with Some (JNum n) => if (0 <=? n)%Z then Some n else None | _ => None end.

(** The running totals of the loop over the children. *)
Record rollup_acc := mkAcc {
  ra_reasons : list jsstring;
  ra_seen : list jsstring;
  ra_completed : Z;
  ra_failed : Z;
  ra_tokens : Z;
  ra_cost : option Z;
  ra_cloned : option Z;
  ra_lowRoi : list jsstring
}.

(** [if (v !== null)]: sum a well-formed value, report another one. *)
Definition add_optional (v : option json) (total : option Z) (bad : jsstring)
    : list jsstring * option Z :=
  if is_null v then ([], total)
  else match nonneg_num v with
       | Some n => ([], Some (default 0%Z total + n)%Z)
       | None => ([bad], total)
       end.

Definition rollup_child (acc : rollup_acc) (child : json) : rollup_acc :=
  let c := Some child in
  match jget (js "id") c with
  | Some (JStr ((_ :: _) as id)) =>
      let f := fun k => jget k c in
      let bad := fun what => js "phase-rollup-child-" ++ what ++ js ":" ++ id in
      let status := f (js "status") in
      let '(cost_reasons, cost) :=
        add_optional (f (js "costTotal")) (ra_cost acc) (bad (js "bad-cost")) in
      let '(cloned_reasons, cloned) :=
        add_optional (f (js "clonedTokens")) (ra_cloned acc) (bad (js "bad-cloned-tokens")) in
      mkAcc
        (ra_reasons acc
         ++ reason_if (bool_decide (id ∈ ra_seen acc)) (js "phase-rollup-duplicate-child-id:" ++ id)
         ++ reason_if (negb (existsb (fun s => is_str s status) PHASE_ROLLUP_CHILD_STATUSES))
              (bad (js "bad-status"))
         ++ reason_if (negb (is_string (f (js "receiptSha256")) && sha256_test (f (js "receiptSha256"))))
              (bad (js "bad-receipt-hash"))
         ++ reason_if (negb (is_null (f (js "outputUri"))) && negb (isNonEmptyString (f (js "outputUri"))))
              (bad (js "bad-output-uri"))
         ++ reason_if (negb (is_null (f (js "outputSha256"))) && negb (sha256_test (f (js "outputSha256"))))
              (bad (js "bad-output-hash"))
         ++ reason_if (negb (is_null (f (js "outputSha256"))) && is_null (f (js "outputUri")))
              (bad (js "orphan-output-hash"))
         ++ reason_if (negb (is_null (f (js "outputUri"))) && is_null (f (js "outputSha256")))
              (bad (js "orphan-output-uri"))
         ++ reason_if (bool_decide (nonneg_num (f (js "tokens")) = None)) (bad (js "bad-tokens"))
         ++ cost_reasons ++ cloned_reasons
         ++ reason_if (negb (is_boolean (f (js "lowRoi")))) (bad (js "bad-low-roi")))
        (id :: ra_seen acc)
        (ra_completed acc + (if is_str (js "completed") status then 1 else 0))%Z
        (ra_failed acc
         + (if is_str (js "failed") status || is_str (js "merge_failed") status then 1 else 0))%Z
        (ra_tokens acc + default 0%Z (nonneg_num (f (js "tokens"))))%Z
        cost cloned
        (ra_lowRoi acc
         ++ match f (js "lowRoi") with Some (JBool true) => [id] | _ => [] end)
  | _ => mkAcc (ra_reasons acc ++ [js "phase-rollup-child-missing-id"]) (ra_seen acc)
           (ra_completed acc) (ra_failed acc) (ra_tokens acc) (ra_cost acc) (ra_cloned acc)
           (ra_lowRoi acc)
  end.

(** [actual] is a field of the aggregate, [expected] a total ([None] is [null]). *)
Definition numbersReconcile (actual : option json) (expected : option Z) : bool :=
  match actual, expected with
  | Some JNull, None => true
  | Some JNull, Some _ => false
  | _, None => false
  | None, Some _ => false
  | Some (JNum a), Some n => (a =? n)%Z
  | v, Some n => coerced_near v n
  end.

Definition sameIdSet (actual : list json) (expected : list jsstring) : bool :=
  (length actual =? length expected)%nat
  && forallb (fun v => match v with JStr s => bool_decide (s ∈ expected) | _ => false end) actual
  && (length (remove_dups (actual ≫= fun v => match v with JStr s => [s] | _ => [] end))
      =? length (remove_dups expected))%nat.

Definition rollup_aggregate (aggregate : option json) (count : nat) (acc : rollup_acc)
    : list jsstring :=
  let f := fun k => jget k aggregate in
  let mismatch := fun what => js "phase-rollup-aggregate-" ++ what ++ js "-mismatch" in
  let bad := fun what => js "phase-rollup-aggregate-bad-" ++ what in
  reason_if (negb (is_num (Z.of_nat count) (f (js "childCount")))) (js "phase-rollup-child-count-mismatch")
  ++ reason_if (negb (is_num (ra_completed acc) (f (js "completed")))) (mismatch (js "completed"))
  ++ reason_if (negb (is_num (ra_failed acc) (f (js "failed")))) (mismatch (js "failed"))
  ++ ([js "totalTokens"; js "completed"; js "failed"] ≫= fun field =>
        reason_if (bool_decide (nonneg_num (f field) = None)) (bad field))
  ++ ([js "totalCostTotal"; js "totalClonedTokens"] ≫= fun field =>
        reason_if (negb (is_null (f field)) && bool_decide (nonneg_num (f field) = None)) (bad field))
  ++ reason_if (negb (is_num (ra_tokens acc) (f (js "totalTokens")))) (mismatch (js "tokens"))
  ++ reason_if (negb (numbersReconcile (f (js "totalCostTotal")) (ra_cost acc))) (mismatch (js "cost"))
  ++ reason_if (negb (numbersReconcile (f (js "totalClonedTokens")) (ra_cloned acc)))
       (mismatch (js "cloned-tokens"))
  ++ match f (js "lowRoiChildIds") with
     | Some (JArr ids) => reason_if (negb (sameIdSet ids (ra_lowRoi acc))) (mismatch (js "low-roi"))
     | _ => [bad (js "lowRoiChildIds")]
     end.

Definition rollup_children (children : list json) : rollup_acc :=
  fold_left rollup_child children (mkAcc [] [] 0 0 0 None None []).

Definition validatePhaseRollup (e : option json) : list jsstring :=
  if negb (truthy e) || negb (isNonEmptyString (jget (js "phase") e))
  then [js "phase-rollup-missing-phase"]
  else match jget (js "children") e with
       | Some (JArr ((_ :: _) as children)) =>
           let acc := rollup_children children in
           let aggregate := jget (js "aggregate") e in
           match jget (js "childCount") aggregate with
           | Some (JNum _) => ra_reasons acc ++ rollup_aggregate aggregate (length children) acc
           | _ => ra_reasons acc ++ [js "phase-rollup-missing-aggregate"]
           end
       | _ => [js "phase-rollup-empty-children"]
       end.

(** ** The whole receipt *)

(** The [switch] on the family; a family that is not a known string has the text
    of the value in its reason. *)
Definition validateFamily (r : option json) : list jsstring :=
  let e := jget (js "evidence") r in
  let family f := is_str (family_name f) (jget (js "family") r) in
  if family FVanish then validateVanish e
  else if family FPromptAcceptance then validatePromptAcceptance e
  else if family FValidation then validateValidation e
  else if family FCompletion then validateCompletion e
  else if family FReviewVerdict then validateReviewVerdict e
  else if family FReviewFailure then validateReviewFailure e
  else if family FPhaseRollup then validatePhaseRollup e
  else [js "unknown-family:" ++ match jget (js "family") r with
                                | Some (JStr s) => s
                                | v => coerced_text v
                                end].

(** [const { sha256, ...rest } = receipt] *)
Definition without_sha256 (fields : list (jsstring * json)) : list (jsstring * json) :=
  List.filter (fun f => negb (bool_decide (f.1 = js "sha256"))) fields.

(** The reasons; the receipt is valid when there are none. *)
Definition validateReceipt (r : option json) : list jsstring :=
  match r with
  | Some (JObj fields) =>
      validateStructure r
      ++ reason_if (negb (is_str (sha256Hex (hashBasis (without_sha256 fields)))
                           (jget (js "sha256") r)))
           (js "hash-mismatch")
      ++ reason_if (negb (is_num RECEIPT_SCHEMA_VERSION (jget (js "schemaVersion") r)))
           (js "schema-version-mismatch")
      ++ validateFamily r
  | _ => [js "malformed-envelope"]
  end.

(** The classifications whose action needs a valid vanish receipt first. *)
Definition requiresVanishBeforeAction (c : RecoveryClassification) : bool :=
  match c with
  | CRestartClean | CRestartPreserveDelta | CFallbackCodexExec => true
  | _ => false
  end.

End receipts.

(** ** Reading validity *)

Lemma reason_if_nil b r : reason_if b r = [] <-> b = false.
Proof. by destruct b. Qed.

Lemma reason_if_neg b r : reason_if (negb b) r = [] <-> b = true.
Proof. by destruct b. Qed.

Lemma app_nil_iff {A} (l1 l2 : list A) : l1 ++ l2 = [] <-> l1 = [] /\ l2 = [].
Proof. split; [apply app_nil|]. by intros [-> ->]. Qed.

(** Turn a list of reasons that is empty into the facts that were checked. *)
Ltac read_reasons H :=
  repeat rewrite ?app_nil_iff, ?reason_if_neg, ?reason_if_nil in H.

Lemma is_str_true s v : is_str s v = true <-> v = Some (JStr s).
Proof.
  destruct v as [[]|]; simpl; rewrite ?bool_decide_eq_true; naive_solver.
Qed.

Lemma is_num_true n v : is_num n v = true <-> v = Some (JNum n).
Proof. destruct v as [[]|]; simpl; rewrite ?Z.eqb_eq; naive_solver. Qed.

Section validity.
Context `{ReceiptEnv}.

Lemma validateReceipt_nil r :
  validateReceipt r = [] ->
  exists fields h, r = Some (JObj fields)
    /\ jget (js "sha256") r = Some (JStr h) /\ h = sha256Hex (hashBasis (without_sha256 fields))
    /\ validateFamily r = [].
Proof.
  destruct r as [[| | | | |fields]|]; try done. intros E. cbn [validateReceipt] in E.
  read_reasons E. destruct E as (_ & Hh & _ & Hf). apply is_str_true in Hh. eauto 6.
Qed.

Lemma without_sha256_build now input :
  without_sha256 (receipt_base now input ++ [(js "sha256", JStr (sha256Hex (hashBasis (receipt_base now input))))])
  = receipt_base now input.
Proof. reflexivity. Qed.

(** What a receipt that was just built is rejected for: an empty identifier, a bad
    subject or evidence, or its family's reasons; never its hash. *)
Lemma validate_built now input fields :
  bi_receiptId input <> [] -> bi_sessionId input <> [] -> bi_source input <> [] ->
  default now (bi_createdAt input) <> [] ->
  bi_artifactHashes input = None -> bi_evidence input = JObj fields ->
  is_object (Some (bi_subject input)) && isNonEmptyString (jget (js "workspace") (Some (bi_subject input)))
    = true ->
  validateReceipt (Some (buildReceipt now input))
  = validateFamily (Some (buildReceipt now input)).
Proof.
  intros Hid Hses Hsrc Hat Hart Hev Hsub. unfold validateReceipt at 1, buildReceipt at 1.
  rewrite without_sha256_build.
  change (JObj (receipt_base now input ++ [(js "sha256",
    JStr (sha256Hex (hashBasis (receipt_base now input))))])) with (buildReceipt now input).
  set (r := Some (buildReceipt now input)).
  assert (jget (js "receiptId") r = Some (JStr (bi_receiptId input))) as E1 by reflexivity.
  assert (jget (js "sessionId") r = Some (JStr (bi_sessionId input))) as E2 by reflexivity.
  assert (jget (js "source") r = Some (JStr (bi_source input))) as E3 by reflexivity.
  assert (jget (js "createdAt") r = Some (JStr (default now (bi_createdAt input)))) as E4
    by reflexivity.
  assert (jget (js "family") r = Some (JStr (family_name (bi_family input)))) as E5
    by reflexivity.
  assert (jget (js "valid") r = Some (JBool (default true (bi_valid input)))) as E6
    by reflexivity.
  assert (jget (js "sha256") r = Some (JStr (sha256Hex (hashBasis (receipt_base now input))))) as E7
    by reflexivity.
  assert (jget (js "subject") r = Some (bi_subject input)) as E8 by reflexivity.
  assert (jget (js "evidence") r = Some (bi_evidence input)) as E9 by reflexivity.
  assert (jget (js "artifactHashes") r = Some (default (JObj []) (bi_artifactHashes input))) as E10
    by reflexivity.
  assert (jget (js "schemaVersion") r = Some (JNum 1)) as E11 by reflexivity.
  unfold validateStructure. rewrite E1, E2, E3, E4, E5, E6, E7, E8, E9, E10, E11, Hev, Hart, Hsub.
  cbn [isNonEmptyString is_boolean is_string is_object default is_str is_num].
  rewrite !(bool_decide_false (_ = [])) by (done || by destruct (bi_family input)).
  rewrite bool_decide_true by done. reflexivity.
Qed.

End validity.

(** ** Tampering *)

(** Receipts are tamper evident: two receipts that are both accepted and carry the
    same digest have the same content (up to the order of their fields), or else their
    contents are a collision of the digest: a receipt cannot be altered in any field and
    still be accepted under its digest without finding one. *)
Theorem receipt_tamper_evident `{ReceiptEnv} fields1 fields2 h :
  validateReceipt (Some (JObj fields1)) = [] -> validateReceipt (Some (JObj fields2)) = [] ->
  jget (js "sha256") (Some (JObj fields1)) = Some (JStr h) ->
  jget (js "sha256") (Some (JObj fields2)) = Some (JStr h) ->
  canon (JObj (without_sha256 fields1)) = canon (JObj (without_sha256 fields2))
  \/ (hashBasis (without_sha256 fields1) <> hashBasis (without_sha256 fields2)
      /\ sha256Hex (hashBasis (without_sha256 fields1)) = sha256Hex (hashBasis (without_sha256 fields2))).
Proof.
  intros H1 H2 E1 E2.
  apply validateReceipt_nil in H1 as (f1 & h1 & [= <-] & E1' & -> & _).
  apply validateReceipt_nil in H2 as (f2 & h2 & [= <-] & E2' & -> & _).
  rewrite E1 in E1'. rewrite E2 in E2'. injection E1' as E1'. injection E2' as E2'.
  destruct (decide (hashBasis (without_sha256 fields1) = hashBasis (without_sha256 fields2))) as [E|Hne].
  - left. by apply canonicalJson_inj.
  - right. split; [done|]. congruence.
Qed.

(** A hash without collisions, to evaluate the definitions on examples. *)
Definition sample_receipt_env : ReceiptEnv :=
  {| sha256Hex := fun s => js "h" ++ s;
     coerced_gt := fun _ _ => false;
     coerced_text := fun _ => [];
     coerced_near := fun _ _ => false |}.

Definition sample_subject : json :=
  JObj [(js "workspace", JStr (js "/repo")); (js "branch", JStr (js "main"));
        (js "head", JNull); (js "commit", JNull)].

Definition sample_validation : BuildReceiptInput :=
  mkReceiptInput (js "val-1") (js "s1") FValidation (js "finalizer") sample_subject
    (JObj [(js "exactCommand", JStr (js "bun test")); (js "pass", JBool true)]) None
    (Some (js "2026-01-01T00:00:00Z")) None.

Lemma receipt_tamper_evident_witness :
  let r := buildReceipt (H := sample_receipt_env) [] sample_validation in
  exists fields, r = JObj fields
    /\ canon (JObj (without_sha256 fields)) = canon (JObj (without_sha256 (rev fields))).
Proof.
  eexists. split; [reflexivity|].
  edestruct (receipt_tamper_evident (H := sample_receipt_env)) as [E|[Hne E]]; [..|exact E|].
  - vm_compute. reflexivity.
  - vm_compute. reflexivity.
  - vm_compute. reflexivity.
  - vm_compute. reflexivity.
  - destruct Hne. exact (app_inv_head (js "h") _ _ E).
Defined.

(** ** The data-loss gate *)

(** The vanish gate: an accepted vanish receipt for a dirty or unknown work
    tree forbids the clean restart, the deletion and the reset, does not block the
    preservation away, has a complete snapshot if it says snapshot, and names the
    stash if it says stash. *)
Theorem vanish_receipt_preserves `{ReceiptEnv} r :
  validateReceipt (Some r) = [] -> jget (js "family") (Some r) = Some (JStr (js "vanish")) ->
  let e := jget (js "evidence") (Some r) in
  (jget (js "gitDelta") e = Some (JStr (js "dirty"))
   \/ jget (js "gitDelta") e = Some (JStr (js "unknown"))) ->
  array_includes (js "restart-clean") (jget (js "forbiddenActions") e) = true
  /\ array_includes (js "delete") (jget (js "forbiddenActions") e) = true
  /\ array_includes (js "reset") (jget (js "forbiddenActions") e) = true
  /\ jget (js "preservation") e <> Some (JStr (js "block"))
  /\ (jget (js "preservation") e = Some (JStr (js "snapshot")) ->
        truthy (jget (js "snapshotComplete") e) = true)
  /\ (jget (js "preservation") e = Some (JStr (js "stash")) ->
        truthy (jget (js "stashRef") e) = true).
Proof.
  intros Hv Hfam e Hdelta. apply validateReceipt_nil in Hv as (fields & h & [= ->] & _ & _ & Hf).
  unfold validateFamily in Hf. rewrite Hfam in Hf. fold e in Hf.
  change (is_str (family_name FVanish) (Some (JStr (js "vanish")))) with true in Hf. cbv iota in Hf.
  unfold validateVanish in Hf.
  assert (Hp : is_str (js "dirty") (jget (js "gitDelta") e)
               || is_str (js "unknown") (jget (js "gitDelta") e) = true).
  { apply orb_true_iff. rewrite !is_str_true. exact Hdelta. }
  destruct (negb (truthy e) || _); [done|]. rewrite Hp in Hf.
  cbn [mbind list_bind] in Hf. read_reasons Hf.
  destruct Hf as [[Hb (H1 & H2 & H3 & _)] [Hs Ht]]. split_and!; [done|done|done| | |].
  - intros E. by rewrite E in Hb.
  - intros E. rewrite E in Hs. by destruct (truthy _).
  - intros E. rewrite E in Ht. by destruct (truthy (jget (js "stashRef") e)).
Qed.

Definition sample_vanish : BuildReceiptInput :=
  mkReceiptInput (js "vanish-1") (js "s1") FVanish (js "operate") sample_subject
    (JObj [(js "gitDelta", JStr (js "dirty")); (js "preservation", JStr (js "stash"));
           (js "stashRef", JStr (js "abc")); (js "snapshotComplete", JBool true);
           (js "forbiddenActions",
             JArr [JStr (js "restart-clean"); JStr (js "delete"); JStr (js "reset")])]) None
    (Some (js "2026-01-01T00:00:00Z")) None.

Lemma vanish_receipt_preserves_witness :
  array_includes (js "reset")
    (jget (js "forbiddenActions")
       (jget (js "evidence") (Some (buildReceipt (H := sample_receipt_env) [] sample_vanish)))) = true.
Proof.
  refine (proj1 (proj2 (proj2 (vanish_receipt_preserves (H := sample_receipt_env)
            (buildReceipt (H := sample_receipt_env) [] sample_vanish) _ _ _)))).
  - vm_compute. reflexivity.
  - vm_compute. reflexivity.
  - left. vm_compute. reflexivity.
Defined.

(** ** Phase roll-ups add up *)

Section rollup.
Context `{ReceiptEnv}.

(** The identifier and the tokens of a child. *)
Definition child_row (child : json) (row : jsstring * Z) : Prop :=
  jget (js "id") (Some child) = Some (JStr row.1) /\ row.1 <> []
  /\ jget (js "tokens") (Some child) = Some (JNum row.2) /\ (0 <= row.2)%Z.

Definition has_status (s : jsstring) (child : json) : bool :=
  is_str s (jget (js "status") (Some child)).

Definition count_status (p : json -> bool) (children : list json) : Z :=
  Z.of_nat (length (List.filter p children)).

Lemma nonneg_num_some v n : nonneg_num v = Some n <-> v = Some (JNum n) /\ (0 <= n)%Z.
Proof. destruct v as [[]|]; simpl; try naive_solver. (destruct (Z.leb_spec 0 n0); naive_solver lia). Qed.

Lemma rollup_child_snoc acc child :
  ra_reasons (rollup_child acc child) = [] ->
  exists row, child_row child row /\ ra_reasons acc = [] /\ (row.1 ∉ ra_seen acc)
    /\ ra_seen (rollup_child acc child) = row.1 :: ra_seen acc
    /\ ra_tokens (rollup_child acc child) = (ra_tokens acc + row.2)%Z
    /\ ra_completed (rollup_child acc child)
       = (ra_completed acc + (if has_status (js "completed") child then 1 else 0))%Z
    /\ ra_failed (rollup_child acc child)
       = (ra_failed acc + (if has_status (js "failed") child || has_status (js "merge_failed") child
                           then 1 else 0))%Z.
Proof.
  unfold rollup_child.
  destruct (jget (js "id") (Some child)) as [[| | |[|c id]| |]|] eqn:Eid;
    try (cbn [ra_reasons]; intros [_ ?]%app_nil; done).
  destruct (add_optional (jget (js "costTotal") (Some child)) _ _) as [cr cost].
  destruct (add_optional (jget (js "clonedTokens") (Some child)) _ _) as [lr cloned].
  cbn [ra_reasons ra_seen ra_tokens ra_completed ra_failed]. intros E. read_reasons E.
  destruct E as (Hr & Hdup & _ & _ & _ & _ & _ & _ & Htok & _).
  destruct (nonneg_num (jget (js "tokens") (Some child))) as [n|] eqn:En; [|done].
  apply nonneg_num_some in En as [En Hn]. apply bool_decide_eq_false_1 in Hdup.
  exists (c :: id, n). by split_and!.
Qed.

Lemma rollup_children_ok children :
  ra_reasons (rollup_children children) = [] ->
  exists rows, Forall2 child_row children rows /\ NoDup (rows.*1)
    /\ (forall x, x ∈ ra_seen (rollup_children children) <-> x ∈ rows.*1)
    /\ ra_tokens (rollup_children children) = foldr Z.add 0%Z (rows.*2)
    /\ ra_completed (rollup_children children) = count_status (has_status (js "completed")) children
    /\ ra_failed (rollup_children children)
       = count_status (fun c => has_status (js "failed") c || has_status (js "merge_failed") c) children.
Proof.
  induction children as [|child children IH] using rev_ind.
  { intros _. exists []. split_and!; try done; by constructor. }
  unfold rollup_children in *. rewrite fold_left_app. cbn [fold_left].
  intros (row & Hrow & Hr & Hnew & -> & -> & -> & ->)%rollup_child_snoc.
  destruct (IH Hr) as (rows & Hf & Hnd & Hseen & -> & -> & ->). exists (rows ++ [row]).
  unfold count_status. rewrite !fmap_app, foldr_app, !List.filter_app, !length_app. split_and!.
  - apply Forall2_app; [done|by constructor].
  - apply NoDup_app. split_and!; [done| |by apply NoDup_singleton].
    intros x Hx Hx'. apply list_elem_of_singleton in Hx' as ->. by apply Hnew, Hseen.
  - intros x. rewrite elem_of_cons, elem_of_app, Hseen. simpl. rewrite list_elem_of_singleton. tauto.
  - simpl. generalize (rows.*2) as l. intros l. rewrite Z.add_0_r.
    induction l as [|z l IHl]; simpl; [lia|]. rewrite <- IHl. lia.
  - simpl. destruct (has_status _ _); simpl; lia.
  - simpl. destruct (_ || _); simpl; lia.
Qed.

(** an accepted phase roll-up adds up: it has at least one child, the children
    have distinct identifiers and non-negative token counts, and the aggregate's
    count, token total, and completed and failed counts are those of the children. *)
Theorem phase_rollup_adds_up e children :
  validatePhaseRollup e = [] -> jget (js "children") e = Some (JArr children) ->
  exists rows, Forall2 child_row children rows /\ rows <> [] /\ NoDup (rows.*1) /\
    let total := fun k => jget k (jget (js "aggregate") e) in
    total (js "childCount") = Some (JNum (Z.of_nat (length children)))
    /\ total (js "totalTokens") = Some (JNum (foldr Z.add 0%Z (rows.*2)))
    /\ total (js "completed") = Some (JNum (count_status (has_status (js "completed")) children))
    /\ total (js "failed") = Some (JNum (count_status
         (fun c => has_status (js "failed") c || has_status (js "merge_failed") c) children)).
Proof.
  unfold validatePhaseRollup. destruct (_ || _); [done|]. intros Hv Hc. rewrite Hc in Hv.
  destruct children as [|c0 children]; [done|]. set (cs := c0 :: children) in *.
  destruct (jget (js "childCount") _) as [[]|] eqn:Ecc; try by apply app_nil in Hv as [_ ?].
  unfold rollup_aggregate in Hv. cbn [mbind list_bind] in Hv. read_reasons Hv.
  destruct Hv as (Hr & Hcount & Hcomp & Hfail & _ & _ & Htok & _).
  destruct (rollup_children_ok cs Hr) as (rows & Hf & Hnd & _ & Ht & Hc1 & Hc2).
  apply is_num_true in Hcount, Hcomp, Hfail, Htok. exists rows.
  cbv beta zeta. rewrite <- Ecc, Hcount, Hcomp, Hfail, Htok, Ht, Hc1, Hc2. split_and!; try done.
  intros ->. by inversion Hf.
Qed.

End rollup.

Definition sample_child : json :=
  JObj [(js "id", JStr (js "t1")); (js "status", JStr (js "completed")); (js "outputUri", JNull);
        (js "outputSha256", JNull); (js "receiptSha256", JStr (replicate 64 97%N));
        (js "tokens", JNum 12); (js "costTotal", JNull); (js "clonedTokens", JNull);
        (js "lowRoi", JBool false)].

Definition sample_rollup : json :=
  JObj [(js "phase", JStr (js "validate")); (js "children", JArr [sample_child]);
        (js "aggregate", JObj [(js "childCount", JNum 1); (js "completed", JNum 1);
          (js "failed", JNum 0); (js "totalTokens", JNum 12); (js "totalCostTotal", JNull);
          (js "totalClonedTokens", JNull); (js "lowRoiChildIds", JArr [])])].

Lemma phase_rollup_adds_up_witness :
  exists rows, Forall2 child_row [sample_child] rows /\ rows <> [] /\ NoDup (rows.*1)
    /\ jget (js "totalTokens") (jget (js "aggregate") (Some sample_rollup))
       = Some (JNum (foldr Z.add 0%Z (rows.*2))).
Proof.
  destruct (phase_rollup_adds_up (H := sample_receipt_env) (Some sample_rollup) [sample_child])
    as (rows & H1 & H2 & H3 & _ & H4 & _).
  - vm_compute. reflexivity.
  - vm_compute. reflexivity.
  - exists rows. auto.
Defined.
