(* ===== verification/HarnessFinalize.v ===== *)
(** * Finalizing a harness session

    The immutable receipt store (storage.ts), the evidence-gated finalizer and the
    review finalizer (finalize.ts).  The checks against git, GitHub and the
    validation commands are injected in the source and are arguments here.  Other
    processes may write the store while the finalizer runs: [between] is what they
    do to it before the receipts are read again. *)

From S2P Require Import Prelude JsText Json HarnessLifecycle HarnessReceipts.

(** ** The receipt store *)

(** The files, by family and identifier, and the lines of the index. *)
Record receipt_store := mkStore {
  rs_files : gmap (jsstring * jsstring) json;
  rs_index : list (ReceiptFamily * jsstring)
}.

Inductive StorageError :=
| UnsafeSessionId (id : jsstring)
| UnsafeReceiptId (id : jsstring)
| ReceiptImmutableConflict (f : ReceiptFamily) (id : jsstring)
| ReceiptFileMissing (f : ReceiptFamily) (id : jsstring).

Definition is_upper (c : N) : bool := ((65 <=? c) && (c <=? 90))%N.
Definition is_alnum (c : N) : bool := is_digit c || is_lower c || is_upper c.

(** [SESSION_ID_RE]: an alphanumeric, then up to 127 of these or [._-]. *)
Definition safe_id (id : jsstring) : bool :=
  match id with
  | [] => false
  | c :: rest =>
      is_alnum c && (length rest <=? 127)%nat
      && forallb (fun c => is_alnum c || (c =? 46)%N || (c =? 95)%N || (c =? 45)%N) rest
  end.

Definition writeReceiptImmutable (sessionId : jsstring) (f : ReceiptFamily) (id : jsstring)
    (value : json) (store : receipt_store) : result StorageError receipt_store :=
  if negb (safe_id sessionId) then Err (UnsafeSessionId sessionId)
  else if negb (safe_id id) then Err (UnsafeReceiptId id)
  else match rs_files store !! (family_name f, id) with
       | Some _ => Err (ReceiptImmutableConflict f id)
       | None => Ok (mkStore (<[(family_name f, id) := value]> (rs_files store))
                       (rs_index store ++ [(f, id)]))
       end.

Definition readReceiptIndex (store : receipt_store) (f : ReceiptFamily) : list jsstring :=
  snd <$> List.filter (fun e => bool_decide (e.1 = f)) (rs_index store).

(** ** Options and results *)

Record ValidationCommandSpec := mkSpec { vc_name : jsstring; vc_command : jsstring }.

Record ValidationRun := mkRun {
  vr_exactCommand : jsstring; vr_cwd : jsstring; vr_exitStatus : Z; vr_pass : bool
}.

Record FinalizeChecks := mkChecks {
  runValidation : ValidationCommandSpec -> ValidationRun;
  resolveCommit : option jsstring;
  commitOnBranch : jsstring -> jsstring -> bool;
  prOrIssue : option jsstring * option jsstring
}.

(** [fo_now i] and [fo_ids prefix i] are the clock and the random identifier at
    the [i]-th receipt. *)
Record FinalizeOptions := mkFinalizeOptions {
  fo_sessionId : jsstring;
  fo_workspace : jsstring;
  fo_branch : jsstring;
  fo_requireTests : bool;
  fo_requireCommit : bool;
  fo_requirePr : bool;
  fo_validationCommands : list ValidationCommandSpec;
  fo_checks : FinalizeChecks;
  fo_now : nat -> jsstring;
  fo_ids : jsstring -> nat -> jsstring
}.

Record FinalizeResult := mkFinalizeResult {
  fr_completed : bool;
  fr_receipt : option jsstring;
  fr_validation : list (jsstring * bool * Z);
  fr_commitHash : option jsstring;
  fr_prUrl : option jsstring;
  fr_issueArtifact : option jsstring;
  fr_verdict : option jsstring;
  fr_blockers : list jsstring
}.

Definition opt_json (s : option jsstring) : json :=
  match s with Some s => JStr s | None => JNull end.

(** A string that is present and not empty. *)
Definition truthy_str (s : option jsstring) : bool := truthy (Some (opt_json s)).

Definition receipt_subject (workspace : jsstring) (branch commit : option jsstring) : json :=
  JObj [(js "workspace", JStr workspace); (js "branch", opt_json branch);
        (js "head", opt_json commit); (js "commit", opt_json commit)].

(** ** The finalizer *)

Section finalize.
Context `{ReceiptEnv}.
Variable opts : FinalizeOptions.

Definition validation_evidence (commit : option jsstring) (spec : ValidationCommandSpec)
    (run : ValidationRun) : json :=
  JObj [(js "command", JStr (vc_name spec)); (js "exactCommand", JStr (vr_exactCommand run));
        (js "cwd", JStr (vr_cwd run)); (js "exitStatus", JNum (vr_exitStatus run));
        (js "pass", JBool (vr_pass run)); (js "commitUnderTest", opt_json commit)].

(** The receipt of the [i]-th command. *)
Definition validation_receipt (commit : option jsstring) (i : nat) (spec : ValidationCommandSpec) : json :=
  let run := runValidation (fo_checks opts) spec in
  buildReceipt (fo_now opts i)
    (mkReceiptInput (fo_ids opts (js "val") i) (fo_sessionId opts) FValidation (js "finalizer")
       (receipt_subject (fo_workspace opts) (Some (fo_branch opts)) commit)
       (validation_evidence commit spec run) None (Some (fo_now opts i)) (Some (vr_pass run))).

Record validation_state := mkValidation {
  vs_store : receipt_store;
  vs_rows : list (jsstring * bool * Z);
  vs_ids : list jsstring;
  vs_blockers : list jsstring
}.

(** One command of the validation loop. *)
Definition validate_command (commit : option jsstring) (i : nat) (spec : ValidationCommandSpec)
    (st : validation_state) : result StorageError validation_state :=
  let run := runValidation (fo_checks opts) spec in
  let id := fo_ids opts (js "val") i in
  let receipt := validation_receipt commit i spec in
  let! store := writeReceiptImmutable (fo_sessionId opts) FValidation id receipt (vs_store st) in
  let valid := bool_decide (validateReceipt (Some receipt) = []) in
  Ok (mkValidation store
        (vs_rows st ++ [(vc_name spec, valid, vr_exitStatus run)])
        (vs_ids st ++ [id])
        (vs_blockers st ++ reason_if (fo_requireTests opts && negb valid)
                             (js "validation-failed:" ++ vc_name spec))).

Fixpoint validate_commands (commit : option jsstring) (i : nat) (specs : list ValidationCommandSpec)
    (st : validation_state) : result StorageError validation_state :=
  match specs with
  | [] => Ok st
  | spec :: rest =>
      let! st' := validate_command commit i spec st in
      validate_commands commit (S i) rest st'
  end.

(** The cross-check of one persisted validation receipt. *)
Definition recheck_receipt (commit : option jsstring) (store : receipt_store) (id : jsstring)
    : result StorageError (list jsstring) :=
  if bool_decide (id ∈ readReceiptIndex store FValidation) then
    match rs_files store !! (family_name FValidation, id) with
    | None => Err (ReceiptFileMissing FValidation id)
    | Some receipt =>
        if negb (bool_decide (validateReceipt (Some receipt) = []))
        then Ok [js "validation-receipt-invalid:" ++ id]
        else Ok (reason_if (truthy_str commit
               && negb (match commit with
                        | Some c => is_str c (jget (js "commitUnderTest")
                                                (jget (js "evidence") (Some receipt)))
                        | None => false
                        end))
               (js "validation-stale-commit:" ++ id))
    end
  else Ok [js "missing-validation-receipt:" ++ id].

Fixpoint recheck_receipts (commit : option jsstring) (store : receipt_store) (ids : list jsstring)
    : result StorageError (list jsstring) :=
  match ids with
  | [] => Ok []
  | id :: rest =>
      let! b := recheck_receipt commit store id in
      let! bs := recheck_receipts commit store rest in
      Ok (b ++ bs)
  end.

Definition completion_evidence (commit : option jsstring) (artifact : option jsstring * option jsstring)
    (ids : list jsstring) (at_ : jsstring) : json :=
  JObj [(js "finalCommit", JStr (default [] commit)); (js "branch", JStr (fo_branch opts));
        (js "prUrl", opt_json artifact.1); (js "issueArtifact", opt_json artifact.2);
        (js "requiredValidationReceiptIds", JArr (JStr <$> ids));
        (js "finalLifecycle", JStr (js "completed")); (js "finalizedAt", JStr at_);
        (js "blockers", JArr [])].

(** The blockers of the commit and the artifact. *)
Definition commit_blockers (commit : option jsstring) : list jsstring :=
  if fo_requireCommit opts then
    match commit with
    | Some ((_ :: _) as c) =>
        reason_if (negb (commitOnBranch (fo_checks opts) c (fo_branch opts)))
          (js "commit-not-on-branch")
    | _ => [js "missing-commit"]
    end
  else [].

(** The receipt of the completion, after [n] commands. *)
Definition completion_receipt (commit : option jsstring) (artifact : option jsstring * option jsstring)
    (ids : list jsstring) (n : nat) : json :=
  buildReceipt (fo_now opts n)
    (mkReceiptInput (fo_ids opts (js "done") n) (fo_sessionId opts) FCompletion (js "finalizer")
       (receipt_subject (fo_workspace opts) (Some (fo_branch opts)) commit)
       (completion_evidence commit artifact ids (fo_now opts n)) None
       (Some (fo_now opts n)) None).

Definition runFinalize (between : receipt_store -> receipt_store) (store : receipt_store)
    : result StorageError (FinalizeResult * receipt_store) :=
  let commit := resolveCommit (fo_checks opts) in
  let specs := fo_validationCommands opts in
  let! st := validate_commands commit 0 specs (mkValidation store [] [] []) in
  let artifact := prOrIssue (fo_checks opts) in
  let blockers :=
    vs_blockers st
    ++ reason_if (fo_requireTests opts && (length specs =? 0)%nat) (js "validation-required-but-none-run")
    ++ commit_blockers commit
    ++ reason_if (fo_requirePr opts && negb (truthy_str artifact.1) && negb (truthy_str artifact.2))
         (js "missing-pr-or-issue") in
  let store1 := between (vs_store st) in
  let! rechecked :=
    (if bool_decide (blockers = []) then recheck_receipts commit store1 (vs_ids st) else Ok []) in
  let blockers := blockers ++ rechecked in
  if negb (bool_decide (blockers = [])) then
    Ok (mkFinalizeResult false None (vs_rows st) commit artifact.1 artifact.2 None blockers, store1)
  else
    let n := length specs in
    let id := fo_ids opts (js "done") n in
    let receipt := completion_receipt commit artifact (vs_ids st) n in
    let reasons := validateReceipt (Some receipt) in
    let! store2 := writeReceiptImmutable (fo_sessionId opts) FCompletion id receipt store1 in
    Ok (mkFinalizeResult (bool_decide (reasons = [])) (Some id) (vs_rows st) commit artifact.1
          artifact.2 None reasons, store2).

End finalize.

(** ** What completion means *)

Section completion.
Context `{ReceiptEnv}.
Variable opts : FinalizeOptions.

Lemma validation_receipt_pass now id sid subj commit spec run valid at_ :
  validateReceipt (Some (buildReceipt now (mkReceiptInput id sid FValidation (js "finalizer") subj
    (validation_evidence commit spec run) None at_ valid))) = [] ->
  vr_pass run = true.
Proof.
  intros (fields & h & _ & _ & _ & Hf)%validateReceipt_nil.
  revert Hf.
  unfold validateFamily.
  match goal with |- context [jget (js "family") ?r] =>
    change (jget (js "family") r) with (Some (JStr (js "validation")));
    change (jget (js "evidence") r) with (Some (validation_evidence commit spec run))
  end.
  change (validateValidation (Some (validation_evidence commit spec run)) = [] -> vr_pass run = true).
  unfold validateValidation, validation_evidence.
  change (negb (truthy _) || _) with false. cbv iota.
  change (jget (js "pass") _) with (Some (JBool (vr_pass run))). simpl. by destruct (vr_pass run).
Qed.

Lemma write_receipt_spec sid f id value store store' :
  writeReceiptImmutable sid f id value store = Ok store' ->
  rs_files store !! (family_name f, id) = None /\ rs_files store' = <[(family_name f, id) := value]> (rs_files store).
Proof.
  unfold writeReceiptImmutable. repeat case_match; try done. intros [= <-]. done.
Qed.

(** The key of the [i]-th validation receipt. *)
Definition validation_key (i : nat) : jsstring * jsstring := (family_name FValidation, fo_ids opts (js "val") i).

(** What the validation loop leaves: the receipt of each command under its own key, and
    nothing else touched. *)
Lemma validate_commands_spec commit i specs st st' :
  validate_commands opts commit i specs st = Ok st' ->
  vs_ids st' = vs_ids st ++ (fo_ids opts (js "val") <$> seq i (length specs))
  /\ (forall j spec, specs !! j = Some spec ->
        rs_files (vs_store st') !! validation_key (i + j) = Some (validation_receipt opts commit (i + j) spec))
  /\ (forall key, (forall j, j < length specs -> key <> validation_key (i + j)) -> rs_files (vs_store st') !! key = rs_files (vs_store st) !! key)
  /\ (forall key v, rs_files (vs_store st) !! key = Some v -> rs_files (vs_store st') !! key = Some v)
  /\ (fo_requireTests opts = true -> vs_blockers st' = [] ->
        Forall (fun spec => vr_pass (runValidation (fo_checks opts) spec) = true) specs)
  /\ (vs_blockers st' = [] -> vs_blockers st = []).
Proof.
  revert i st. induction specs as [|spec specs IH]; intros i st.
  { intros [= <-]. cbn. rewrite app_nil_r. split_and!; try done. }
  cbn [validate_commands]. unfold validate_command at 1.
  destruct (writeReceiptImmutable _ _ _ _ _) as [store|] eqn:Ew; [|done]. apply write_receipt_spec in Ew as [Hfresh Hstore]. intros Hv.
  apply IH in Hv as (Hids & Hfiles & Hother & Hkeep & Hpass & Hb). cbn [vs_ids vs_blockers vs_store] in *.
  assert (Hfirst : rs_files store !! validation_key i = Some (validation_receipt opts commit i spec))
    by (rewrite Hstore; apply lookup_insert_eq).
  split_and!.
  - rewrite Hids, <- app_assoc. done.
  - intros [|j] spec' Hj; cbn in Hj; simplify_eq; [rewrite Nat.add_0_r; by apply Hkeep|].
    replace (i + S j) with (S i + j) by lia. by apply Hfiles.
  - intros key Hkey. rewrite Hother.
    + rewrite Hstore. apply lookup_insert_ne. specialize (Hkey 0 ltac:(cbn; lia)). rewrite Nat.add_0_r in Hkey. by apply not_eq_sym.
    + intros j Hj. specialize (Hkey (S j) ltac:(cbn; lia)). by replace (S i + j) with (i + S j) by lia.
  - intros key v Hk. apply Hkeep. rewrite Hstore. rewrite lookup_insert_ne; [done|]. intros <-. congruence.
  - intros Hreq Hnil. constructor; [|by apply Hpass].
    apply Hb, app_nil in Hnil as [_ Hr]. rewrite Hreq in Hr. cbn [andb] in Hr.
    apply reason_if_neg, bool_decide_eq_true_1 in Hr.
    by eapply validation_receipt_pass.
  - intros Hnil%Hb. by apply app_nil in Hnil as [? _].
Qed.

(** A validation receipt that was found again: it is in the index and on disk, valid, and of
    the commit. *)
Definition found_valid (commit : jsstring) (store : receipt_store) (id : jsstring) : Prop :=
  id ∈ readReceiptIndex store FValidation
  /\ exists receipt, rs_files store !! (family_name FValidation, id) = Some receipt
       /\ validateReceipt (Some receipt) = []
       /\ jget (js "commitUnderTest") (jget (js "evidence") (Some receipt)) = Some (JStr commit).

Lemma recheck_receipts_nil commit store ids :
  recheck_receipts (Some commit) store ids = Ok [] -> commit <> [] -> Forall (found_valid commit store) ids.
Proof.
  intros Hre Hc. revert Hre. induction ids as [|id ids IH]; [constructor|]. cbn [recheck_receipts].
  destruct (recheck_receipt (Some commit) store id) as [b|] eqn:Eb; [|done].
  destruct (recheck_receipts (Some commit) store ids) as [bs|]; [|done].
  intros [= [-> ->]%app_nil]. constructor; [|by apply IH]. revert Eb. unfold recheck_receipt.
  case_bool_decide as Hin; [|done]. destruct (rs_files store !! _) as [receipt|] eqn:El; [|done].
  case_bool_decide as Hv; [|done]. simpl. intros [= Hr]. split; [done|]. exists receipt. split_and!; [done|done|].
  apply reason_if_nil in Hr. unfold truthy_str in Hr. simpl in Hr.
  rewrite bool_decide_false in Hr by done. simpl in Hr. apply negb_false_iff in Hr.
  by apply is_str_true.
Qed.

Lemma completion_receipt_sound now id sid subj commit artifact ids t at_ :
  validateReceipt (Some (buildReceipt now (mkReceiptInput id sid FCompletion (js "finalizer") subj
    (completion_evidence opts commit artifact ids t) None at_ None))) = [] ->
  (exists c, commit = Some c /\ c <> [])
  /\ (truthy_str artifact.1 = true \/ truthy_str artifact.2 = true) /\ ids <> [].
Proof.
  intros (fields & h & _ & _ & _ & Hf)%validateReceipt_nil. revert Hf. unfold validateFamily.
  match goal with |- context [jget (js "family") ?r] =>
    change (jget (js "family") r) with (Some (JStr (js "completion")));
    change (jget (js "evidence") r) with (Some (completion_evidence opts commit artifact ids t))
  end.
  change (validateCompletion (Some (completion_evidence opts commit artifact ids t)) = [] ->
    (exists c, commit = Some c /\ c <> [])
    /\ (truthy_str artifact.1 = true \/ truthy_str artifact.2 = true) /\ ids <> []).
  unfold validateCompletion, completion_evidence. change (negb (truthy (Some (JObj _)))) with false.
  cbv iota. intros Hf. read_reasons Hf. destruct Hf as (Hc & Ha & Hids & _). split_and!.
  - change (truthy (Some (JStr (default [] commit))) = true) in Hc.
    destruct commit as [[|x c]|]; [done| |done]. eauto.
  - change (negb (truthy_str artifact.1) && negb (truthy_str artifact.2) = false) in Ha.
    destruct (truthy_str artifact.1), (truthy_str artifact.2); auto.
  - change (nonempty_array (Some (JArr (JStr <$> ids))) = true) in Hids. by destruct ids.
Qed.

(** The evidence behind a completion that [runFinalize] reported, from the store it began with
    to the store it left; [written] is the store once the validation receipts were written. *)
Definition completed_on_evidence (between : receipt_store -> receipt_store) (store : receipt_store) (r : FinalizeResult)
    (store' : receipt_store) : Prop :=
  let specs := fo_validationCommands opts in
  let ids := fo_ids opts (js "val") <$> seq 0 (length specs) in
  exists commit written,
    fr_commitHash r = Some commit /\ commit <> [] /\ resolveCommit (fo_checks opts) = Some commit
    /\ (truthy_str (fr_prUrl r) = true \/ truthy_str (fr_issueArtifact r) = true)
    /\ specs <> [] /\ fr_blockers r = []
    /\ (forall i spec, specs !! i = Some spec ->
          rs_files written !! validation_key i = Some (validation_receipt opts (Some commit) i spec)
          /\ found_valid commit (between written) (fo_ids opts (js "val") i))
    /\ (forall key, (forall i, i < length specs -> key <> validation_key i) -> rs_files written !! key = rs_files store !! key)
    /\ fr_receipt r = Some (fo_ids opts (js "done") (length specs))
    /\ rs_files store' = <[(family_name FCompletion, fo_ids opts (js "done") (length specs)) :=
                            completion_receipt opts (Some commit) (fr_prUrl r, fr_issueArtifact r) ids (length specs)]> (rs_files (between written))
    /\ (fo_requireTests opts = true ->
          Forall (fun spec => vr_pass (runValidation (fo_checks opts) spec) = true) specs)
    /\ (fo_requireCommit opts = true ->
          commitOnBranch (fo_checks opts) commit (fo_branch opts) = true).

Lemma finalize_evidence between store r store' :
  runFinalize opts between store = Ok (r, store') -> fr_completed r = true ->
  completed_on_evidence between store r store'.
Proof.
  unfold runFinalize. set (commit := resolveCommit _). set (specs := fo_validationCommands opts).
  destruct (validate_commands opts commit 0 specs _) as [st|] eqn:Ev; [|done].
  apply validate_commands_spec in Ev as (Hids & Hfiles & Hother & _ & Hpass & _). cbn [vs_ids app vs_store] in Hids, Hother.
  set (blockers := vs_blockers st ++ _).
  destruct (if bool_decide (blockers = []) then _ else Ok []) as [rechecked|] eqn:Er; [|done].
  destruct (decide (blockers ++ rechecked = [])) as [Hb|Hb];
    [rewrite (bool_decide_true (blockers ++ rechecked = []) Hb)
    |rewrite (bool_decide_false (blockers ++ rechecked = []) Hb); intros E; apply Ok_pair_inj in E as [<- _]; done].
  cbn [negb]. cbv iota.
  destruct (writeReceiptImmutable _ _ _ _ _) as [store2|] eqn:Ew; [|done]. apply write_receipt_spec in Ew as [_ Hstore].
  intros E. apply Ok_pair_inj in E as [<- <-]. cbn [fr_completed]. intros Hok%bool_decide_eq_true_1. pose proof Hok as Hsound.
  apply completion_receipt_sound in Hsound as ((c & Hc & Hne) & Hart & Hsome).
  apply app_nil in Hb as [Hb ->]. rewrite bool_decide_true in Er by done. rewrite Hc in Er, Hfiles, Hstore, Hok |- *.
  apply recheck_receipts_nil in Er; [|done]. unfold blockers in Hb. rewrite !app_nil_iff in Hb.
  destruct Hb as (Hb1 & _ & Hb2 & _). exists c, (vs_store st). fold specs. cbn [fr_commitHash fr_prUrl fr_issueArtifact fr_blockers fr_receipt].
  rewrite Hids in Hsome, Er, Hstore, Hok. rewrite Hids, Hok, <- surjective_pairing. split_and!; try done.
  - intros ->. done.
  - intros i spec Hi. split; [by apply (Hfiles i)|]. rewrite Forall_forall in Er. apply Er, list_elem_of_fmap_2, elem_of_seq.
    apply lookup_lt_Some in Hi. lia.
  - intros Hreq. by apply Hpass.
  - intros Hreq. unfold commit_blockers in Hb2. rewrite Hreq, Hc in Hb2.
    destruct c; [done|]. by apply reason_if_neg in Hb2.
Qed.

(** C30: A session completes on evidence only.  When the finalizer reports completion there is a
    commit, a pull request or an issue, and at least one validation command.  The run wrote the receipt
    of every command under the command's own identifier, over no other file; then, after others may
    have written to the store, each of these receipts was found again: in the index, on disk,
    valid, and taken for that very commit.  The completion receipt that is left names all of them
    and the commit.  If tests were required all commands passed, and if the commit was required
    it is on the branch.  (The other writers act once, before the receipts are read again.) *)
Theorem finalize_completed_on_evidence between store r store' :
  runFinalize opts between store = Ok (r, store') -> fr_completed r = true ->
  completed_on_evidence between store r store'.
Proof. apply finalize_evidence. Qed.

End completion.

(** ** Examples *)

Definition sample_checks (on_branch : bool) : FinalizeChecks :=
  mkChecks (fun s => mkRun (vc_command s) (js "/repo") 0 true) (Some (js "abc123"))
    (fun _ _ => on_branch) (Some (js "https://example.org/pr/1"), None).

Definition sample_finalize (requireCommit on_branch : bool) : FinalizeOptions :=
  mkFinalizeOptions (js "s1") (js "/repo") (js "main") true requireCommit true
    [mkSpec (js "unit") (js "bun test")] (sample_checks on_branch)
    (fun _ => js "2026-01-01T00:00:00Z") (fun p i => p ++ js "-" ++ num_to_string (Z.of_nat i)).

Lemma finalize_completed_on_evidence_witness :
  exists r store', runFinalize (H := sample_receipt_env) (sample_finalize true true) id (mkStore ∅ [])
                   = Ok (r, store')
    /\ fr_completed r = true
    /\ exists commit, fr_commitHash r = Some commit
         /\ commitOnBranch (sample_checks true) commit (js "main") = true.
Proof.
  eexists _, _. split; [vm_compute; reflexivity|]. split; [vm_compute; reflexivity|].
  edestruct (finalize_completed_on_evidence (H := sample_receipt_env) (sample_finalize true true) id
    (mkStore ∅ [])) as (commit & written & H1 & _ & _ & _ & _ & _ & _ & _ & _ & _ & _ & H2).
  - vm_compute. reflexivity.
  - vm_compute. reflexivity.
  - exists commit. split; [exact H1|]. apply H2. reflexivity.
Defined.

(** Without [requireCommit] a session completes although its commit is on another
    branch. *)
Lemma completes_off_branch :
  exists r store', runFinalize (H := sample_receipt_env) (sample_finalize false false) id (mkStore ∅ [])
                   = Ok (r, store') /\ fr_completed r = true.
Proof. eexists _, _. split; vm_compute; reflexivity. Qed.

(** ** Review sessions *)

Definition is_word (c : N) : bool := is_alnum c || (c =? 95)%N.

(** The maximal runs of word characters.  The verdict tokens are made of word
    characters, so a match between two word boundaries is one of these runs. *)
Fixpoint words (s acc : jsstring) : list jsstring :=
  match s with
  | [] => if bool_decide (acc = []) then [] else [rev acc]
  | c :: s' =>
      if is_word c then words s' (c :: acc)
      else (if bool_decide (acc = []) then [] else [rev acc]) ++ words s' []
  end.

(** The canonical verdict of a token, [MERGE_READY] being an alias. *)
Definition verdict_of_token (w : jsstring) : option jsstring :=
  if bool_decide (w ∈ REVIEW_VERDICTS) then Some w
  else if bool_decide (w = js "MERGE_READY") then Some (js "APPROVE_MERGE_READY")
  else None.

Definition extractReviewVerdict (text : option jsstring) : option jsstring :=
  match text with
  | None => None
  | Some s => last (omap verdict_of_token (words s []))
  end.

(** [text.replace(/\s+/g, " ")]: every run of white space becomes one space. *)
Fixpoint collapse_ws (s : jsstring) (in_ws : bool) : jsstring :=
  match s with
  | [] => []
  | c :: s' =>
      if is_ws c then (if in_ws then [] else [32%N]) ++ collapse_ws s' true
      else c :: collapse_ws s' false
  end.

(** At most 280 units and the ellipsis. *)
Definition boundedAssistantSummary (text : option jsstring) : option jsstring :=
  match text with
  | None | Some [] => None
  | Some s =>
      let collapsed := trim (collapse_ws s false) in
      if bool_decide (collapsed = []) then None
      else if (280 <? length collapsed)%nat then Some (take 280 collapsed ++ [8230%N])
      else Some collapsed
  end.

Record ReviewOptions := mkReviewOptions {
  ro_sessionId : jsstring;
  ro_workspace : jsstring;
  ro_branch : jsstring;
  ro_verdict : option jsstring;
  ro_assistantText : option jsstring;
  ro_prTarget : option jsstring;
  ro_now : jsstring;
  ro_ids : jsstring -> jsstring
}.

(** An optional field that is spread into an object only when it is truthy. *)
Definition spread_field (k : jsstring) (v : option jsstring) : list (jsstring * json) :=
  match v with Some ((_ :: _) as s) => [(k, JStr s)] | _ => [] end.

Section review.
Context `{ReceiptEnv}.
Variable opts : ReviewOptions.

Definition review_receipt (f : ReceiptFamily) (prefix : jsstring) (evidence : json) : json :=
  buildReceipt (ro_now opts)
    (mkReceiptInput (ro_ids opts prefix) (ro_sessionId opts) f (js "finalizer")
       (receipt_subject (ro_workspace opts) (Some (ro_branch opts)) None) evidence None
       (Some (ro_now opts)) None).

Definition review_result (completed : bool) (id : jsstring) (verdict : option jsstring)
    (blockers : list jsstring) : FinalizeResult :=
  mkFinalizeResult completed (Some id) [] None None None verdict blockers.

Definition runReviewFinalize (store : receipt_store)
    : result StorageError (FinalizeResult * receipt_store) :=
  let explicitProvided := match ro_verdict opts with Some _ => true | None => false end in
  let explicitValid := isReviewVerdict (Some (opt_json (ro_verdict opts))) in
  let extracted := if explicitProvided then None else extractReviewVerdict (ro_assistantText opts) in
  let verdict := if explicitValid then ro_verdict opts else extracted in
  match verdict with
  | None =>
      let reason := if explicitProvided then js "review-verdict-invalid" else js "review-verdict-missing" in
      let digest := match ro_assistantText opts with Some ((_ :: _) as t) => Some (sha256Hex t) | _ => None end in
      let evidence :=
        JObj ([(js "reason", JStr reason); (js "prTarget", opt_json (ro_prTarget opts));
               (js "failedAt", JStr (ro_now opts)); (js "fallback", JStr (js "operator-or-omx-review"))]
              ++ spread_field (js "assistantDigest") digest
              ++ spread_field (js "assistantSummary") (boundedAssistantSummary (ro_assistantText opts))) in
      let receipt := review_receipt FReviewFailure (js "revfail") evidence in
      let reasons := validateReceipt (Some receipt) in
      let! store' := writeReceiptImmutable (ro_sessionId opts) FReviewFailure
                       (ro_ids opts (js "revfail")) receipt store in
      Ok (review_result false (ro_ids opts (js "revfail")) None (reason :: reasons), store')
  | Some v =>
      let digest := match ro_assistantText opts with
                    | Some ((_ :: _) as t) => if explicitValid then None else Some (sha256Hex t)
                    | _ => None
                    end in
      let evidence :=
        JObj ([(js "verdict", JStr v); (js "prTarget", opt_json (ro_prTarget opts));
               (js "finalizedAt", JStr (ro_now opts));
               (js "summaryRef", JStr (js "verdict:" ++ v ++ match ro_prTarget opts with
                                                             | Some t => js "@" ++ t
                                                             | None => []
                                                             end));
               (js "verdictSource", JStr (if explicitValid then js "input" else js "assistant"))]
              ++ spread_field (js "assistantDigest") digest) in
      let receipt := review_receipt FReviewVerdict (js "verdict") evidence in
      let reasons := validateReceipt (Some receipt) in
      let humanActionRequired := bool_decide (v = js "OWNER_CONFIRMATION_REQUIRED") in
      let! store' := writeReceiptImmutable (ro_sessionId opts) FReviewVerdict
                       (ro_ids opts (js "verdict")) receipt store in
      Ok (review_result (bool_decide (reasons = []) && negb humanActionRequired)
            (ro_ids opts (js "verdict")) (Some v)
            (if negb (bool_decide (reasons = [])) then reasons
             else if humanActionRequired then [js "owner-confirmation-required"] else []), store')
  end.

(** A verdict taken from free text is one of the closed vocabulary. *)
Lemma extracted_in_vocabulary text v : extractReviewVerdict text = Some v -> v ∈ REVIEW_VERDICTS.
Proof.
  destruct text as [s|]; [|done]. simpl. intros Hl%last_Some_elem_of.
  apply list_elem_of_omap in Hl as (w & _ & Hw). unfold verdict_of_token in Hw.
  repeat case_bool_decide; simplify_eq; [done|]. by left.
Qed.

(** a review session ends without a human only on an approval or a request for
    changes: when it completes, its verdict is one of these two; the verdict is the
    operator's when one was given, and otherwise the last verdict the assistant
    stated; an invalid operator verdict is never replaced by the assistant's. *)
Theorem review_completion store r store' :
  runReviewFinalize store = Ok (r, store') ->
  (fr_completed r = true ->
     (fr_verdict r = Some (js "APPROVE_MERGE_READY") \/ fr_verdict r = Some (js "REQUEST_CHANGES"))
     /\ fr_blockers r = [])
  /\ (forall v, fr_verdict r = Some v ->
        v ∈ REVIEW_VERDICTS /\
        (ro_verdict opts = Some v
         \/ ro_verdict opts = None /\ extractReviewVerdict (ro_assistantText opts) = Some v))
  /\ (fr_verdict r = None -> fr_completed r = false /\ fr_blockers r <> []).
Proof.
  unfold runReviewFinalize.
  set (explicitValid := isReviewVerdict _). set (verdict := if explicitValid then _ else _).
  assert (Hv : forall v, verdict = Some v -> v ∈ REVIEW_VERDICTS /\
    (ro_verdict opts = Some v
     \/ ro_verdict opts = None /\ extractReviewVerdict (ro_assistantText opts) = Some v)).
  { intros v. unfold verdict, explicitValid. destruct (ro_verdict opts) as [w|]; simpl.
    - case_bool_decide; [|done]. intros [= ->]. auto.
    - intros Hx. split; [by eapply extracted_in_vocabulary|auto]. }
  destruct verdict as [v|].
  - destruct (Hv v eq_refl) as [Hin Hsrc].
    destruct (writeReceiptImmutable _ _ _ _ _) as [store2|]; [|done].
    match goal with |- context [validateReceipt ?r] => generalize (validateReceipt r) end.
    intros reasons E. apply Ok_pair_inj in E as [<- _].
    cbn [fr_completed fr_verdict fr_blockers review_result]. split_and!; [| |done].
    + rewrite andb_true_iff, negb_true_iff. intros [-> Hh]. cbn [negb]. cbv iota.
      rewrite Hh. apply bool_decide_eq_false_1 in Hh. split; [|done].
      unfold REVIEW_VERDICTS in Hin. rewrite !elem_of_cons in Hin. destruct Hin as [->|[->|[->|Hin]]]; [auto|auto|done|].
      by apply elem_of_nil in Hin.
    + intros w [= <-]. auto.
  - destruct (writeReceiptImmutable _ _ _ _ _) as [store2|]; [|done].
    match goal with |- context [validateReceipt ?r] => generalize (validateReceipt r) end.
    intros reasons E. apply Ok_pair_inj in E as [<- _].
    cbn [fr_completed fr_verdict fr_blockers review_result]. split_and!; done.
Qed.

End review.

Lemma review_completion_witness :
  let opts := mkReviewOptions (js "s1") (js "/repo") (js "main") None
    (Some (js "I said REQUEST_CHANGES first; now: MERGE_READY.")) None (js "2026") (fun p => p) in
  exists r store', runReviewFinalize (H := sample_receipt_env) opts (mkStore ∅ []) = Ok (r, store')
    /\ fr_completed r = true /\ fr_verdict r = Some (js "APPROVE_MERGE_READY") /\ fr_blockers r = [].
Proof.
  eexists _, _. split; [vm_compute; reflexivity|]. split; [vm_compute; reflexivity|].
  split; [vm_compute; reflexivity|].
  eapply (review_completion (H := sample_receipt_env)
    (mkReviewOptions (js "s1") (js "/repo") (js "main") None
      (Some (js "I said REQUEST_CHANGES first; now: MERGE_READY.")) None (js "2026") (fun p => p))
    (mkStore ∅ [])); vm_compute; reflexivity.
Defined.
