(* ===== verification/HarnessRecovery.v ===== *)
(** * Recovering a harness session

    The recovery classifier (classifier.ts), the reconciliation of a vanished owner
    (lifecycle-reconciliation.ts) and the single-flight submission of a prompt
    (session-transport.ts); the loop that uses them is in [HarnessOperate]. *)

From S2P Require Import Prelude JsText Json HarnessLifecycle HarnessReceipts HarnessFinalize.

(** ** The classifier *)

(** The fields of an observation that the modelled code reads. *)
Record Observation := mkObservation {
  o_lifecycle : HarnessLifecycle;
  o_ownerLive : bool;
  o_gitDelta : GitDelta;
  o_observedSignals : list jsstring;
  o_risk : RiskKind
}.

Record RetryBudget := mkBudget {
  b_reinjectPrompt : Z;
  b_zeroDeltaVanish : Z;
  b_dirtyVanishPreserve : Z;
  b_validationRepair : Z
}.

Definition DEFAULT_RETRY_BUDGET : RetryBudget := mkBudget 2 1 1 2.

Record RecoveryDecision := mkDecision {
  d_classification : RecoveryClassification;
  d_reason : jsstring;
  d_severity : Severity;
  d_ownerRequired : bool;
  d_requiredReceiptFamily : option ReceiptFamily
}.

(** [o.observedSignals.includes(s)] *)
Definition observed (s : jsstring) (o : Observation) : bool :=
  bool_decide (s ∈ o_observedSignals o).

Definition classifyRecovery (o : Observation) (budget : RetryBudget) : RecoveryDecision :=
  if bool_decide (o_risk o = RDeletedWorktree) then
    mkDecision CHumanCheck (js "deleted-worktree-or-path-mismatch") SevCritical false (Some FVanish)
  else if o_ownerLive o then
    if bool_decide (o_risk o = RPromptNotAccepted) then
      if (0 <? b_reinjectPrompt budget)%Z then
        mkDecision CReinjectPrompt (js "prompt-ack-without-agent-start") SevWarn true
          (Some FPromptAcceptance)
      else mkDecision CHumanCheck (js "prompt-not-accepted-budget-exhausted") SevCritical false None
    else if observed (js "validation-failed") o then
      if (0 <? b_validationRepair budget)%Z then
        mkDecision CContinue (js "validation-failed-repair-budget-remains") SevWarn true
          (Some FValidation)
      else mkDecision CHumanCheck (js "validation-failed-budget-exhausted") SevCritical false
             (Some FValidation)
    else mkDecision CContinue (js "owner-live-active") SevInfo true None
  else
    match o_gitDelta o with
    | GDirty =>
        if (0 <? b_dirtyVanishPreserve budget)%Z then
          mkDecision CRestartPreserveDelta (js "owner-vanished-dirty-delta") SevCritical true
            (Some FVanish)
        else mkDecision CFallbackCodexExec (js "dirty-vanish-preserve-budget-exhausted") SevCritical
               true (Some FVanish)
    | GZeroDelta =>
        if (0 <? b_zeroDeltaVanish budget)%Z then
          mkDecision CRestartClean (js "owner-vanished-zero-delta") SevWarn true (Some FVanish)
        else mkDecision CFallbackCodexExec (js "zero-delta-vanish-budget-exhausted") SevCritical true
               (Some FVanish)
    | GClean => mkDecision CRestartClean (js "owner-vanished-clean") SevWarn true (Some FVanish)
    | GUnknown => mkDecision CHumanCheck (js "owner-vanished-unknown-delta") SevCritical false
                    (Some FVanish)
    end.

(** A clean restart is only recommended when there is nothing to lose. *)
Lemma restart_clean_safe o budget :
  d_classification (classifyRecovery o budget) = CRestartClean ->
  o_ownerLive o = false /\ (o_gitDelta o = GClean \/ o_gitDelta o = GZeroDelta).
Proof.
  destruct o as [l [] g sig r]; unfold classifyRecovery; simpl;
    destruct r; simpl; repeat case_match; simpl; naive_solver.
Qed.

(** The retries a recommendation relies on are in the budget. *)
Lemma classifier_budget o budget :
  let c := d_classification (classifyRecovery o budget) in
  (c = CReinjectPrompt -> 0 < b_reinjectPrompt budget)%Z
  /\ (c = CRestartPreserveDelta -> 0 < b_dirtyVanishPreserve budget)%Z
  /\ (c = CRestartClean -> o_gitDelta o = GZeroDelta -> 0 < b_zeroDeltaVanish budget)%Z.
Proof.
  destruct o as [l [] g sig r]; unfold classifyRecovery; simpl;
    destruct r; simpl; repeat case_match; simpl_bool; simpl; naive_solver.
Qed.

(** the classifier never loses data: a clean restart is only recommended when
    the owner is gone and the work tree is known to have nothing to lose; a dirty
    tree of a vanished owner is preserved or handed over; an unknown delta or a
    deleted work tree goes to a human; [send-enter] is never recommended; and
    every recommendation that acts on a vanished owner's tree requires a vanish
    receipt. *)
Theorem classifier_never_loses_data o budget :
  let d := classifyRecovery o budget in
  (d_classification d = CRestartClean ->
     o_ownerLive o = false /\ (o_gitDelta o = GClean \/ o_gitDelta o = GZeroDelta)
     /\ o_risk o <> RDeletedWorktree)
  /\ (o_ownerLive o = false -> o_gitDelta o = GDirty -> o_risk o <> RDeletedWorktree ->
       d_classification d = CRestartPreserveDelta \/ d_classification d = CFallbackCodexExec)
  /\ (o_ownerLive o = false -> o_gitDelta o = GUnknown -> d_classification d = CHumanCheck)
  /\ (o_risk o = RDeletedWorktree -> d_classification d = CHumanCheck)
  /\ d_classification d <> CSendEnter
  /\ (requiresVanishBeforeAction (d_classification d) = true ->
        d_requiredReceiptFamily d = Some FVanish).
Proof.
  destruct o as [l [] g sig r]; unfold classifyRecovery; simpl;
    destruct r; simpl; repeat case_match; simpl; naive_solver.
Qed.

(** ** A vanished owner *)

Definition OWNER_STARTUP_BLOCKER : jsstring := js "owner-died-before-first-prompt".

Definition delta_name (g : GitDelta) : jsstring :=
  match g with
  | GClean => js "clean" | GDirty => js "dirty" | GZeroDelta => js "zero-delta"
  | GUnknown => js "unknown"
  end.

Definition isOwnerLivenessBlocker (blocker : jsstring) : bool :=
  bool_decide (blocker = js "detached-owner-not-live")
  || starts_with (js "owner-vanished:") blocker.

Definition needsVanishedOwnerBlock (s : SessionState) (o : Observation) (completedTerminal : bool)
    : bool :=
  if o_ownerLive o || negb (bool_decide (s_lifecycle s = LObserving)) then false
  else if completedTerminal || observed (js "completed") o then false
  else observed (js "prompt-accepted") o || observed (js "tool-call") o || observed (js "streaming") o.

Definition add_blocker (b : jsstring) (bs : list jsstring) : list jsstring :=
  if bool_decide (b ∈ bs) then bs else bs ++ [b].

Definition set_lifecycle (s : SessionState) (l : HarnessLifecycle) (bs : list jsstring) (now : Z)
    : SessionState :=
  mkSession (s_sessionId s) l (s_harness s) bs now.

(** The state as it is returned, and the states that were persisted, in order. *)
Definition reconcileOwnerLifecycle (s : SessionState) (o : Observation)
    (completedTerminal startupBlocked : bool) (now : nat -> Z) : SessionState * list SessionState :=
  let '(s1, p1) :=
    if completedTerminal && negb (o_ownerLive o) && bool_decide (o_gitDelta o = GClean)
       && negb (isTerminal (s_lifecycle s)) then
      let s' := set_lifecycle s LCompleted
                  (List.filter (fun b => negb (isOwnerLivenessBlocker b)) (s_blockers s)) (now 0) in
      (s', [s'])
    else (s, []) in
  let '(s2, p2) :=
    if needsVanishedOwnerBlock s1 o completedTerminal then
      let s' := set_lifecycle s1 LBlocked
                  (add_blocker (js "owner-vanished:" ++ delta_name (o_gitDelta o)) (s_blockers s1))
                  (now 1) in
      (s', [s'])
    else (s1, []) in
  let '(s3, p3) :=
    if startupBlocked && negb (isTerminal (s_lifecycle s2)) then
      let s' := set_lifecycle s2 LBlocked (add_blocker OWNER_STARTUP_BLOCKER (s_blockers s2)) (now 2) in
      (s', [s'])
    else (s2, []) in
  (s3, p1 ++ p2 ++ p3).

(** Reconciling a session is safe: a terminal session is left as it is; a
    session only becomes completed on a recorded completion with the owner gone
    and a clean work tree, and then no owner-liveness blocker remains; while the
    owner lives the session can only become blocked, at startup; and the returned
    state is the last one persisted, if any was. *)
Theorem reconcile_safe s o completedTerminal startupBlocked now :
  let '(s', persisted) := reconcileOwnerLifecycle s o completedTerminal startupBlocked now in
  (isTerminal (s_lifecycle s) = true -> s' = s /\ persisted = [])
  /\ (s_lifecycle s' = LCompleted -> s_lifecycle s <> LCompleted ->
        completedTerminal = true /\ o_ownerLive o = false /\ o_gitDelta o = GClean
        /\ Forall (fun b => isOwnerLivenessBlocker b = false) (s_blockers s'))
  /\ (o_ownerLive o = true -> s' = s \/ startupBlocked = true /\ s_lifecycle s' = LBlocked)
  /\ (match last persisted with Some p => s' = p | None => s' = s end).
Proof.
  unfold reconcileOwnerLifecycle.
  assert (Hfilter : forall bs, Forall (fun b => isOwnerLivenessBlocker b = false)
            (List.filter (fun b => negb (isOwnerLivenessBlocker b)) bs)).
  { intros bs. apply List.Forall_forall. intros b [_ Hb]%filter_In. by apply negb_true_iff. }
  destruct (completedTerminal && _ && _ && _) eqn:E1.
  { assert (needsVanishedOwnerBlock (set_lifecycle s LCompleted
        (List.filter (fun b => negb (isOwnerLivenessBlocker b)) (s_blockers s)) (now 0)) o completedTerminal
      = false) as -> by (unfold needsVanishedOwnerBlock; by rewrite orb_true_r).
    rewrite andb_false_r. cbn [s_lifecycle set_lifecycle s_blockers app last].
    apply andb_prop in E1 as [[[-> E1]%andb_prop E2%bool_decide_eq_true_1]%andb_prop E3].
    apply negb_true_iff in E1, E3. rewrite E1, E3. naive_solver. }
  destruct (needsVanishedOwnerBlock s o completedTerminal) eqn:E2.
  { unfold needsVanishedOwnerBlock in E2. destruct (o_ownerLive o); [done|].
    destruct (bool_decide (s_lifecycle s = LObserving)) eqn:E3; [|done].
    apply bool_decide_eq_true_1 in E3.
    destruct (startupBlocked && _) eqn:E4; cbn [s_lifecycle set_lifecycle s_blockers app last];
      rewrite E3; naive_solver. }
  destruct (startupBlocked && negb (isTerminal (s_lifecycle s))) eqn:E3.
  { apply andb_prop in E3 as [-> E3%negb_true_iff]. rewrite E3.
    cbn [s_lifecycle set_lifecycle s_blockers app last]. naive_solver. }
  cbn [app last]. naive_solver.
Qed.

(** ** Submitting a prompt *)

Record SessionStateSnapshot := mkSnapshot {
  sn_isStreaming : bool; sn_steeringQueueDepth : Z; sn_followupQueueDepth : Z
}.

(** What a transport answers during one submission. *)
Record transport := mkTransport {
  t_getState : SessionStateSnapshot;
  t_eventCursor : Z;
  t_sendPrompt : jsstring * bool;
  t_waitForAgentStart : option Z
}.

Record AcceptanceResult := mkAcceptance {
  ac_accepted : bool;
  ac_reason : jsstring;
  ac_commandId : option jsstring;
  ac_preSubmitCursor : Z;
  ac_agentStartCursor : option Z;
  ac_preSubmitState : SessionStateSnapshot
}.

Definition singleFlightAccept (t : transport) : AcceptanceResult :=
  let pre := t_getState t in
  let cursor := t_eventCursor t in
  if sn_isStreaming pre || (0 <? sn_steeringQueueDepth pre)%Z || (0 <? sn_followupQueueDepth pre)%Z
  then mkAcceptance false (js "pre-state-not-idle") None cursor None pre
  else
    let (commandId, ack) := t_sendPrompt t in
    if negb ack then mkAcceptance false (js "no-ack") (Some commandId) cursor None pre
    else match t_waitForAgentStart t with
         | None => mkAcceptance false (js "no-agent-start-within-timeout") (Some commandId) cursor None pre
         | Some started =>
             mkAcceptance true (js "protocol-ack-single-flight") (Some commandId) cursor (Some started) pre
         end.

(** The evidence of an acceptance receipt. *)
Definition acceptance_evidence (a : AcceptanceResult) : json :=
  JObj [(js "preSubmitState",
          JObj [(js "isStreaming", JBool (sn_isStreaming (ac_preSubmitState a)));
                (js "steeringQueueDepth", JNum (sn_steeringQueueDepth (ac_preSubmitState a)));
                (js "followupQueueDepth", JNum (sn_followupQueueDepth (ac_preSubmitState a)))]);
        (js "preSubmitCursor", JNum (ac_preSubmitCursor a));
        (js "agentStartCursor", JNum (default 0%Z (ac_agentStartCursor a)));
        (js "singleFlight", JBool true)].

(** an accepted submission proves itself: if queue depths are never negative
    and the transport reports an agent start after the cursor it was asked about,
    the evidence of the acceptance passes the acceptance validator. *)
Theorem accepted_submission_validates `{ReceiptEnv} t :
  (0 <= sn_steeringQueueDepth (t_getState t))%Z -> (0 <= sn_followupQueueDepth (t_getState t))%Z ->
  (forall started, t_waitForAgentStart t = Some started -> (t_eventCursor t < started)%Z) ->
  ac_accepted (singleFlightAccept t) = true ->
  validatePromptAcceptance (Some (acceptance_evidence (singleFlightAccept t))) = [].
Proof.
  intros Hs Hf Hstart. unfold singleFlightAccept.
  destruct (sn_isStreaming _) eqn:E1; [done|].
  destruct (Z.ltb_spec 0 (sn_steeringQueueDepth (t_getState t))); [done|].
  destruct (Z.ltb_spec 0 (sn_followupQueueDepth (t_getState t))); [done|]. simpl.
  destruct (t_sendPrompt t) as [cmd []]; [|done]. simpl.
  destruct (t_waitForAgentStart t) as [started|] eqn:Ew; [|done]. intros _.
  specialize (Hstart _ eq_refl).
  unfold validatePromptAcceptance, acceptance_evidence.
  cbn [ac_preSubmitState ac_preSubmitCursor ac_agentStartCursor default].
  rewrite E1. replace (sn_steeringQueueDepth (t_getState t)) with 0%Z by lia.
  replace (sn_followupQueueDepth (t_getState t)) with 0%Z by lia.
  change (reason_if (negb (js_gt (Some (JNum started)) (Some (JNum (t_eventCursor t)))))
            (js "acceptance-agent-start-not-after-cursor") = []).
  simpl. by rewrite (proj2 (Z.ltb_lt _ _) Hstart).
Qed.

Lemma accepted_submission_validates_witness :
  validatePromptAcceptance (H := sample_receipt_env)
    (Some (acceptance_evidence (singleFlightAccept
      (mkTransport (mkSnapshot false 0 0) 7 (js "cmd", true) (Some 9%Z))))) = [].
Proof.
  apply (accepted_submission_validates (H := sample_receipt_env)).
  - simpl. lia.
  - simpl. lia.
  - simpl. intros started [= <-]. lia.
  - reflexivity.
Defined.
