(* ===== verification/HarnessOperate.v ===== *)
(** * The autonomous loop (harness-control-plane/operate.ts)

    [operate] drives one session: submit, then observe, classify and recover until
    a completion is observed or the loop is exhausted, then finalize.  What the
    injected functions answer is in [operate_env]; the effects are recorded in
    order in a trace. *)

From S2P Require Import Prelude JsText Json HarnessLifecycle HarnessReceipts HarnessFinalize.
From S2P Require Import HarnessRecovery.

(** What [preserve] reports about the work tree. *)
Record PreserveResult := mkPreserve {
  p_trackedDiffSha256 : jsstring;
  p_untrackedManifest : list json;
  p_stashRef : option jsstring;
  p_snapshotComplete : bool
}.

(** [oe_observe i], [oe_transport i] and [oe_preserve i] are the answers at the
    [i]-th observation, submission and preservation. *)
Record operate_env := mkEnv {
  oe_finalize : FinalizeOptions;
  oe_between : receipt_store -> receipt_store;
  oe_observe : nat -> Observation;
  oe_transport : nat -> transport;
  oe_preserve : nat -> PreserveResult;
  oe_retryBudget : option Z * option Z * option Z * option Z;
  oe_maxIterations : option nat;
  oe_now : nat -> jsstring;
  oe_ids : nat -> jsstring
}.

Inductive action :=
| AEmit (severity : Severity) (kind : jsstring)
| ASubmit (r : AcceptanceResult)
| AVanish (o : Observation) (receipt : json) (valid : bool)
| ARecover (o : Observation) (c : RecoveryClassification)
| AFinalize (r : FinalizeResult).

Record op_state := mkOp {
  op_budget : RetryBudget;
  op_lifecycle : HarnessLifecycle;
  op_accepted : bool;
  op_submits : nat;
  op_preserves : nat;
  op_store : receipt_store;
  op_classifications : list RecoveryClassification;
  op_vanishIds : list jsstring;
  op_blockers : list jsstring;
  op_trace : list action
}.

Definition log (a : action) (st : op_state) : op_state :=
  mkOp (op_budget st) (op_lifecycle st) (op_accepted st) (op_submits st) (op_preserves st)
    (op_store st) (op_classifications st) (op_vanishIds st) (op_blockers st) (op_trace st ++ [a]).

Definition set_budget (b : RetryBudget) (st : op_state) : op_state :=
  mkOp b (op_lifecycle st) (op_accepted st) (op_submits st) (op_preserves st)
    (op_store st) (op_classifications st) (op_vanishIds st) (op_blockers st) (op_trace st).

Definition set_op_lifecycle (l : HarnessLifecycle) (st : op_state) : op_state :=
  mkOp (op_budget st) l (op_accepted st) (op_submits st) (op_preserves st)
    (op_store st) (op_classifications st) (op_vanishIds st) (op_blockers st) (op_trace st).

Definition classified (c : RecoveryClassification) (st : op_state) : op_state :=
  mkOp (op_budget st) (op_lifecycle st) (op_accepted st) (op_submits st) (op_preserves st)
    (op_store st) (op_classifications st ++ [c]) (op_vanishIds st) (op_blockers st) (op_trace st).

(** [lifecycle = "blocked"; blockers.push(reason)] *)
Definition block (reason : jsstring) (st : op_state) : op_state :=
  mkOp (op_budget st) LBlocked (op_accepted st) (op_submits st) (op_preserves st)
    (op_store st) (op_classifications st) (op_vanishIds st) (op_blockers st ++ [reason]) (op_trace st).

Definition classification_name (c : RecoveryClassification) : jsstring :=
  match c with
  | CContinue => js "continue" | CSendEnter => js "send-enter"
  | CReinjectPrompt => js "reinject-prompt" | CRestartClean => js "restart-clean"
  | CRestartPreserveDelta => js "restart-preserve-delta"
  | CFallbackCodexExec => js "fallback-codex-exec" | CHumanCheck => js "human-check"
  end.

Definition merge_budget (o : option Z * option Z * option Z * option Z) : RetryBudget :=
  let '(a, b, c, d) := o in
  mkBudget (default (b_reinjectPrompt DEFAULT_RETRY_BUDGET) a)
    (default (b_zeroDeltaVanish DEFAULT_RETRY_BUDGET) b)
    (default (b_dirtyVanishPreserve DEFAULT_RETRY_BUDGET) c)
    (default (b_validationRepair DEFAULT_RETRY_BUDGET) d).

(** [n = Math.max(0, n - 1)] on the three counters the loop spends. *)
Definition spend_reinject (b : RetryBudget) : RetryBudget :=
  mkBudget (Z.max 0 (b_reinjectPrompt b - 1)) (b_zeroDeltaVanish b) (b_dirtyVanishPreserve b)
    (b_validationRepair b).
Definition spend_zero_delta (b : RetryBudget) : RetryBudget :=
  mkBudget (b_reinjectPrompt b) (Z.max 0 (b_zeroDeltaVanish b - 1)) (b_dirtyVanishPreserve b)
    (b_validationRepair b).
Definition spend_dirty (b : RetryBudget) : RetryBudget :=
  mkBudget (b_reinjectPrompt b) (b_zeroDeltaVanish b) (Z.max 0 (b_dirtyVanishPreserve b - 1))
    (b_validationRepair b).

Section operate.
Context `{ReceiptEnv}.
Variable env : operate_env.

Definition protected_delta (o : Observation) : bool :=
  bool_decide (o_gitDelta o = GDirty) || bool_decide (o_gitDelta o = GUnknown).

(** The evidence [writeVanish] records; [p] is only consulted for a protected delta. *)
Definition vanish_evidence (o : Observation) (c : RecoveryClassification) (p : PreserveResult) : json :=
  let dirty := protected_delta o in
  let stashRef := if dirty then p_stashRef p else None in
  JObj [(js "classification", JStr (classification_name c));
        (js "gitDelta", JStr (delta_name (o_gitDelta o)));
        (js "gitStatusPorcelain", JStr (if dirty then
            js "tracked-diff-sha:" ++ p_trackedDiffSha256 p ++ js ";untracked:"
              ++ num_to_string (Z.of_nat (length (p_untrackedManifest p))) ++ js ";stash:"
              ++ default (js "none") (p_stashRef p)
          else join (js ",") (o_observedSignals o)));
        (js "untrackedManifest", JArr (if dirty then p_untrackedManifest p else []));
        (js "preservation", JStr (if dirty && truthy_str stashRef then js "stash" else js "snapshot"));
        (js "stashRef", opt_json stashRef);
        (js "snapshotComplete", JBool (if dirty then p_snapshotComplete p else true));
        (js "forbiddenActions",
          JArr (if dirty then JStr <$> [js "restart-clean"; js "delete"; js "reset"] else []))].

Definition vanish_receipt (o : Observation) (c : RecoveryClassification) (st : op_state) : json :=
  let n := length (op_vanishIds st) in
  buildReceipt (oe_now env n)
    (mkReceiptInput (oe_ids env n) (fo_sessionId (oe_finalize env)) FVanish (js "operate")
       (receipt_subject (fo_workspace (oe_finalize env)) (Some (fo_branch (oe_finalize env))) None)
       (vanish_evidence o c (oe_preserve env (op_preserves st))) None (Some (oe_now env n)) None).

(** The receipt is written whether or not it is valid; the answer says which. *)
Definition writeVanish (o : Observation) (c : RecoveryClassification) (st : op_state)
    : result StorageError (op_state * bool) :=
  let id := oe_ids env (length (op_vanishIds st)) in
  let receipt := vanish_receipt o c st in
  let valid := bool_decide (validateReceipt (Some receipt) = []) in
  let! store := writeReceiptImmutable (fo_sessionId (oe_finalize env)) FVanish id receipt (op_store st) in
  let st' := mkOp (op_budget st) (op_lifecycle st) (op_accepted st) (op_submits st)
               (op_preserves st + if protected_delta o then 1 else 0) store (op_classifications st)
               (op_vanishIds st ++ [id]) (op_blockers st) (op_trace st) in
  Ok (log (AEmit (if valid then SevCritical else SevWarn) (js "vanish_receipt"))
        (log (AVanish o receipt valid) st'), valid).

Definition submit (st : op_state) : op_state :=
  let acc := singleFlightAccept (oe_transport env (op_submits st)) in
  let st' := mkOp (op_budget st) (op_lifecycle st) (ac_accepted acc) (S (op_submits st))
               (op_preserves st) (op_store st) (op_classifications st) (op_vanishIds st)
               (op_blockers st) (op_trace st ++ [ASubmit acc]) in
  log (if ac_accepted acc then AEmit SevInfo (js "prompt_accepted")
       else AEmit SevWarn (js "prompt_not_accepted")) st'.

(** The [if]/[else if] chain after the vanish receipt; [true] means [break]. *)
Definition act (o : Observation) (c : RecoveryClassification) (st : op_state) : op_state * bool :=
  match c with
  | CReinjectPrompt => (submit (set_budget (spend_reinject (op_budget st)) (log (ARecover o c) st)), false)
  | CRestartClean => (submit (set_budget (spend_zero_delta (op_budget st)) (log (ARecover o c) st)), false)
  | CRestartPreserveDelta =>
      (submit (set_budget (spend_dirty (op_budget st)) (log (ARecover o c) st)), false)
  | CFallbackCodexExec => (block (js "fallback-codex-exec-requested") (log (ARecover o c) st), true)
  | CHumanCheck => (block (js "human-check-required") st, true)
  | CContinue | CSendEnter => (st, false)
  end.

(** One pass of the loop over the observation [o]. *)
Definition iteration (o : Observation) (st : op_state) : result StorageError (op_state * bool) :=
  let d := classifyRecovery o (op_budget st) in
  let c := d_classification d in
  let st1 := log (AEmit (d_severity d) (js "classified:" ++ classification_name c)) (classified c st) in
  if bool_decide (c = CContinue) then
    if observed (js "completed") o || bool_decide (o_lifecycle o = LFinalizing)
    then Ok (set_op_lifecycle LFinalizing st1, true)
    else Ok (st1, false)
  else if requiresVanishBeforeAction c then
    let! (st2, safe) := writeVanish o c st1 in
    if safe then Ok (act o c st2) else Ok (block (js "invalid-vanish-receipt") st2, true)
  else Ok (act o c st1).

(** The loop from iteration [i] on, with the number of iterations it made. *)
Fixpoint operate_loop (fuel i : nat) (st : op_state) : result StorageError (op_state * nat) :=
  match fuel with
  | O => Ok (st, i)
  | S f =>
      let! (st', stop) := iteration (oe_observe env i) st in
      if (stop : bool) then Ok (st', S i) else operate_loop f (S i) st'
  end.

Record OperateResult := mkOperate {
  or_completed : bool;
  or_lifecycle : HarnessLifecycle;
  or_iterations : nat;
  or_finalize : option FinalizeResult;
  or_blockers : list jsstring;
  or_state : op_state
}.

Definition operate_start (store : receipt_store) : op_state :=
  let st := submit (log (AEmit SevInfo (js "operate_started"))
    (mkOp (merge_budget (oe_retryBudget env)) LStarted false 0 0 store [] [] [] [])) in
  set_op_lifecycle (if op_accepted st then LObserving else LSubmitted) st.

Definition max_iterations : nat := default 10 (oe_maxIterations env).

(** [runFinalize] is called with every requirement on. *)
Definition finalize_options : FinalizeOptions :=
  let f := oe_finalize env in
  mkFinalizeOptions (fo_sessionId f) (fo_workspace f) (fo_branch f) true true true
    (fo_validationCommands f) (fo_checks f) (fo_now f) (fo_ids f).

Definition operate (store : receipt_store) : result StorageError OperateResult :=
  let! (st, n) := operate_loop max_iterations 0 (operate_start store) in
  let blocked := fun st => log (AEmit SevCritical (js "operate_blocked")) st in
  if bool_decide (op_lifecycle st = LBlocked) then
    Ok (mkOperate false LBlocked n None (op_blockers st) (blocked st))
  else if negb (bool_decide (op_lifecycle st = LFinalizing)) then
    let st' := block (js "no-observed-completion") st in
    Ok (mkOperate false LBlocked n None (op_blockers st') (blocked st'))
  else
    let! (fin, store') := runFinalize finalize_options (oe_between env) (op_store st) in
    let st' := mkOp (op_budget st) (op_lifecycle st) (op_accepted st) (op_submits st)
                 (op_preserves st) store' (op_classifications st) (op_vanishIds st) (op_blockers st)
                 (op_trace st ++ [AFinalize fin;
                    AEmit (if fr_completed fin then SevInfo else SevCritical) (js "operate_finalized")]) in
    Ok (mkOperate (fr_completed fin) (if fr_completed fin then LCompleted else LBlocked) n (Some fin)
          (fr_blockers fin) st').

End operate.

(** ** Nothing acts before its vanish receipt *)

Section gate.
Context `{ReceiptEnv}.
Variable env : operate_env.

(** A stored, valid vanish receipt about the delta of [o]. *)
Definition vouched (store : receipt_store) (o : Observation) (r : json) : Prop :=
  validateReceipt (Some r) = []
  /\ jget (js "gitDelta") (jget (js "evidence") (Some r)) = Some (JStr (delta_name (o_gitDelta o)))
  /\ exists id, rs_files store !! (family_name FVanish, id) = Some r.

(** Every recovery that needs a vanish receipt comes right after a valid one. *)
Definition gated (store : receipt_store) (trace : list action) : Prop :=
  forall pre o c post, trace = pre ++ ARecover o c :: post ->
    (c = CRestartClean -> o_ownerLive o = false /\ (o_gitDelta o = GClean \/ o_gitDelta o = GZeroDelta))
    /\ (requiresVanishBeforeAction c = true ->
        exists pre' r, vouched store o r
          /\ pre = pre' ++ [AVanish o r true; AEmit SevCritical (js "vanish_receipt")]).

Definition store_le (s1 s2 : receipt_store) : Prop := rs_files s1 ⊆ rs_files s2.

#[local] Instance store_le_preorder : PreOrder store_le.
Proof. unfold store_le. split; [by intros ?|intros ???; apply transitivity]. Qed.

Lemma gated_mono s1 s2 trace : store_le s1 s2 -> gated s1 trace -> gated s2 trace.
Proof.
  intros Hle Hg pre o c post E. destruct (Hg _ _ _ _ E) as [H1 H2]. split; [done|].
  intros Hc. destruct (H2 Hc) as (pre' & r & (Hv & Hd & id & Hid) & Hpre).
  exists pre', r. split; [|done]. split_and!; [done|done|]. exists id.
  by eapply lookup_weaken.
Qed.

Lemma gated_app s t1 t2 : gated s t1 -> gated s t2 -> gated s (t1 ++ t2).
Proof.
  intros H1 H2 pre o c post [(k & -> & E)|(k & -> & E)]%app_eq_inv.
  - destruct k as [|x k].
    + simpl in E. destruct (H2 [] o c post ltac:(by rewrite <- E)) as [Ha Hb].
      split; [done|]. intros Hc. destruct (Hb Hc) as (pre' & r & _ & Hx). by destruct pre'.
    + injection E as <- E. by apply (H1 pre o c k).
  - destruct (H2 k o c post E) as [Ha Hb]. split; [done|]. intros Hc.
    destruct (Hb Hc) as (pre' & r & Hv & ->). exists (t1 ++ pre'), r. split; [done|].
    by rewrite (assoc_L app).
Qed.

(** A trace without a recovery is gated. *)
Lemma gated_quiet s t :
  Forall (fun a => match a with ARecover _ _ => False | _ => True end) t -> gated s t.
Proof.
  intros Hq pre o c post ->. apply Forall_app in Hq as [_ Hq]. by inversion Hq.
Qed.

Lemma store_le_write sid f id v s1 s2 :
  writeReceiptImmutable sid f id v s1 = Ok s2 ->
  store_le s1 s2 /\ rs_files s2 !! (family_name f, id) = Some v.
Proof.
  unfold writeReceiptImmutable. do 2 (case_match; [done|]).
  destruct (rs_files s1 !! _) eqn:E; [done|]. intros [= <-]. unfold store_le. simpl.
  split; [by apply insert_subseteq|]. by rewrite lookup_insert_eq.
Qed.

(** What one pass adds to the trace. *)
Definition extends (st st' : op_state) : Prop :=
  store_le (op_store st) (op_store st')
  /\ exists chunk, op_trace st' = op_trace st ++ chunk /\ gated (op_store st') chunk.

Lemma extends_quiet st st' chunk :
  op_store st' = op_store st -> op_trace st' = op_trace st ++ chunk ->
  Forall (fun a => match a with ARecover _ _ => False | _ => True end) chunk -> extends st st'.
Proof.
  intros Hs Ht Hq. split; [rewrite Hs; reflexivity|]. exists chunk. split; [done|]. by apply gated_quiet.
Qed.

Lemma submit_quiet st : extends st (submit env st).
Proof.
  eapply extends_quiet; [done| |].
  - simpl. rewrite <- (assoc_L app). reflexivity.
  - constructor; [done|]. constructor; [by destruct (ac_accepted _)|constructor].
Qed.

Lemma extends_trans a b c : extends a b -> extends b c -> extends a c.
Proof.
  intros [Hs1 (t1 & E1 & G1)] [Hs2 (t2 & E2 & G2)]. split; [by etransitivity|].
  exists (t1 ++ t2). split; [by rewrite E2, E1, (assoc_L app)|].
  apply gated_app; [by eapply gated_mono|done].
Qed.

Lemma vanish_evidence_delta o c st :
  jget (js "gitDelta") (jget (js "evidence") (Some (vanish_receipt env o c st)))
  = Some (JStr (delta_name (o_gitDelta o))).
Proof. reflexivity. Qed.

Lemma extends_eq a b b' :
  op_store b = op_store b' -> op_trace b = op_trace b' -> extends a b -> extends a b'.
Proof. unfold extends. by intros -> ->. Qed.

Lemma writeVanish_extends o c st st2 safe :
  writeVanish env o c st = Ok (st2, safe) -> extends st st2.
Proof.
  unfold writeVanish.
  destruct (writeReceiptImmutable _ _ _ _ _) as [store|] eqn:Ew; [|done].
  apply store_le_write in Ew as [Hle Hid]. intros E. apply Ok_pair_inj in E as [<- _].
  split; [exact Hle|]. eexists. split.
  - unfold log. cbn [op_trace]. rewrite <- !(assoc_L app). reflexivity.
  - apply gated_quiet. by repeat constructor.
Qed.

(** A recovery right after [writeVanish] answered [true]. *)
Lemma recover_extends o c st st2 :
  c = d_classification (classifyRecovery o (op_budget st)) ->
  writeVanish env o c st = Ok (st2, true) -> extends st (log (ARecover o c) st2).
Proof.
  intros Hc. unfold writeVanish.
  destruct (writeReceiptImmutable _ _ _ _ _) as [store|] eqn:Ew; [|done].
  apply store_le_write in Ew as [Hle Hid].
  case_bool_decide as Hv; intros E; injection E as <-; [|done].
  split; [exact Hle|]. eexists. split.
  { unfold log. cbn [op_trace]. rewrite <- !(assoc_L app). reflexivity. }
  intros pre o' c' post E. cbn [app] in E.
  assert (pre = [AVanish o (vanish_receipt env o c st) true; AEmit SevCritical (js "vanish_receipt")]
          /\ o' = o /\ c' = c) as (-> & -> & ->).
  { destruct pre as [|x [|y [|z pre]]]; injection E; intros; try done; subst; [done|].
    by destruct pre. }
  split.
  - intros ->. by apply (restart_clean_safe o (op_budget st)).
  - intros _. exists [], (vanish_receipt env o c st). split; [|done].
    split_and!; [done|apply vanish_evidence_delta|eauto].
Qed.

Lemma plain_recover_extends o st : extends st (log (ARecover o CReinjectPrompt) st).
Proof.
  split; [done|]. eexists. split; [done|]. intros pre o' c' post E.
  assert (c' = CReinjectPrompt) as -> by (destruct pre as [|? []]; by simplify_eq/=). done.
Qed.

Lemma iteration_extends o st st' stop :
  iteration env o st = Ok (st', stop) -> extends st st'.
Proof.
  unfold iteration. set (d := classifyRecovery o (op_budget st)). set (st1 := log _ _).
  assert (H1 : extends st st1) by (eapply extends_quiet; [done|done|by repeat constructor]).
  case_bool_decide as Ec.
  { case_match; intros E; apply Ok_pair_inj in E as [<- _]; [by eapply extends_eq, H1|done]. }
  destruct (requiresVanishBeforeAction (d_classification d)) eqn:Er.
  - destruct (writeVanish env o _ st1) as [[st2 safe]|] eqn:Ew; [|done].
    destruct safe; intros E; (eapply extends_trans; [exact H1|]).
    + pose proof (recover_extends o _ st1 st2 eq_refl Ew) as Hx.
      change (classifyRecovery o (op_budget st1)) with d in Hx.
      injection E as E.
      replace st' with (act env o (d_classification d) st2).1 by (by rewrite E). clear E Ew.
      destruct (d_classification d); try done; cbn [act fst];
        try (eapply extends_trans; [|apply submit_quiet]);
        (eapply extends_eq; [| |exact Hx]; done).
    + apply Ok_pair_inj in E as [<- _]. eapply extends_eq; [| |by eapply writeVanish_extends]; done.
  - intros E. injection E as E. eapply extends_trans; [exact H1|].
    replace st' with (act env o (d_classification d) st1).1 by (by rewrite E). clear E.
    destruct (d_classification d); try done; cbn [act fst].
    + by eapply extends_quiet with (chunk := []); [done|rewrite app_nil_r|constructor].
    + eapply extends_trans; [|apply submit_quiet].
      eapply extends_eq; [| |apply (plain_recover_extends o st1)]; done.
    + by eapply extends_quiet with (chunk := []); [done|rewrite app_nil_r|constructor].
Qed.

Lemma operate_loop_extends f i st st' n :
  operate_loop env f i st = Ok (st', n) -> extends st st' /\ i <= n <= i + f.
Proof.
  revert i st. induction f as [|f IH]; intros i st; cbn [operate_loop].
  { intros [= <- <-]. split; [|lia].
    by eapply extends_quiet with (chunk := []); [done|rewrite app_nil_r|constructor]. }
  destruct (iteration env _ st) as [[st1 []]|] eqn:Ei; [| |done];
    apply iteration_extends in Ei.
  - intros [= <- <-]. split; [done|lia].
  - intros [He ?]%IH. split; [by eapply extends_trans|lia].
Qed.

(** ** Budgets *)

Definition recovers (p : Observation -> RecoveryClassification -> bool) (a : action) : bool :=
  match a with ARecover o c => p o c | _ => false end.

Definition count_recovers (p : Observation -> RecoveryClassification -> bool) (st : op_state) : Z :=
  Z.of_nat (length (List.filter (recovers p) (op_trace st))).

Definition is_reinject (_ : Observation) (c : RecoveryClassification) : bool :=
  bool_decide (c = CReinjectPrompt).
Definition is_preserve (_ : Observation) (c : RecoveryClassification) : bool :=
  bool_decide (c = CRestartPreserveDelta).
Definition is_zero_restart (o : Observation) (c : RecoveryClassification) : bool :=
  bool_decide (c = CRestartClean) && bool_decide (o_gitDelta o = GZeroDelta).

(** What was spent and what is left never exceeds what was there. *)
Definition within_budget (st st' : op_state) : Prop :=
  (count_recovers is_reinject st' + Z.max 0 (b_reinjectPrompt (op_budget st'))
     <= count_recovers is_reinject st + Z.max 0 (b_reinjectPrompt (op_budget st)))%Z
  /\ (count_recovers is_preserve st' + Z.max 0 (b_dirtyVanishPreserve (op_budget st'))
     <= count_recovers is_preserve st + Z.max 0 (b_dirtyVanishPreserve (op_budget st)))%Z
  /\ (count_recovers is_zero_restart st' + Z.max 0 (b_zeroDeltaVanish (op_budget st'))
     <= count_recovers is_zero_restart st + Z.max 0 (b_zeroDeltaVanish (op_budget st)))%Z.

Lemma within_refl st st' chunk :
  op_budget st' = op_budget st -> op_trace st' = op_trace st ++ chunk ->
  Forall (fun a => match a with ARecover _ _ => False | _ => True end) chunk -> within_budget st st'.
Proof.
  intros Hb Ht Hq. unfold within_budget, count_recovers. rewrite Hb, Ht, !List.filter_app, !length_app.
  assert (Hz : forall p, length (List.filter (recovers p) chunk) = 0).
  { intros p. clear Ht. induction Hq as [|a chunk Ha Hq IH]; [done|]. by destruct a. }
  rewrite !Hz. lia.
Qed.

Lemma within_trans a b c : within_budget a b -> within_budget b c -> within_budget a c.
Proof. unfold within_budget. lia. Qed.

Lemma submit_budget st st1 :
  op_budget st1 = op_budget (submit env st) -> op_trace st1 = op_trace (submit env st) ->
  within_budget st st1.
Proof.
  intros Hb Ht. eapply within_refl; [exact Hb| |].
  - rewrite Ht. simpl. rewrite <- (assoc_L app). reflexivity.
  - constructor; [done|]. constructor; [by destruct (ac_accepted _)|constructor].
Qed.

(** Logging a recovery and spending its counter. *)
Lemma act_budget o st st0 :
  op_budget st = op_budget st0 ->
  within_budget st (act env o (d_classification (classifyRecovery o (op_budget st0))) st).1.
Proof.
  intros Hb. destruct (classifier_budget o (op_budget st0)) as (H1 & H2 & H3).
  assert (Hlog : forall p c, count_recovers p (log (ARecover o c) st)
            = (count_recovers p st + if p o c then 1 else 0)%Z).
  { intros p c. unfold count_recovers, log. cbn [op_trace].
    rewrite List.filter_app, length_app. simpl. destruct (p o c); simpl; lia. }
  set (c := d_classification _) in *.
  destruct c; cbn [act fst];
    try (eapply within_refl with (chunk := []); [done|by rewrite app_nil_r|constructor]);
    try (eapply within_trans; [|by eapply submit_budget]).
  - specialize (H1 eq_refl). rewrite <- Hb in H1. unfold within_budget.
    change (count_recovers ?p (set_budget _ ?s)) with (count_recovers p s). rewrite !Hlog.
    cbn [set_budget op_budget spend_reinject b_reinjectPrompt b_dirtyVanishPreserve b_zeroDeltaVanish].
    simpl. lia.
  - unfold within_budget. change (count_recovers ?p (set_budget _ ?s)) with (count_recovers p s).
    rewrite !Hlog.
    cbn [set_budget op_budget spend_zero_delta b_reinjectPrompt b_dirtyVanishPreserve b_zeroDeltaVanish].
    unfold is_reinject, is_preserve, is_zero_restart. simpl.
    case_bool_decide as Hz; [specialize (H3 eq_refl Hz); rewrite <- Hb in H3|]; lia.
  - specialize (H2 eq_refl). rewrite <- Hb in H2. unfold within_budget.
    change (count_recovers ?p (set_budget _ ?s)) with (count_recovers p s). rewrite !Hlog.
    cbn [set_budget op_budget spend_dirty b_reinjectPrompt b_dirtyVanishPreserve b_zeroDeltaVanish].
    simpl. lia.
  - unfold within_budget. change (count_recovers ?p (block _ ?s)) with (count_recovers p s).
    rewrite !Hlog. simpl. lia.
Qed.

Lemma writeVanish_budget o c st st2 safe :
  writeVanish env o c st = Ok (st2, safe) -> within_budget st st2 /\ op_budget st2 = op_budget st.
Proof.
  unfold writeVanish. destruct (writeReceiptImmutable _ _ _ _ _) as [store|]; [|done].
  intros E. apply Ok_pair_inj in E as [<- _]. split; [|done]. eapply within_refl; [done| |].
  - unfold log. cbn [op_trace]. rewrite <- !(assoc_L app). reflexivity.
  - by repeat constructor.
Qed.

Lemma iteration_budget o st st' stop :
  iteration env o st = Ok (st', stop) ->
  within_budget st st'
  /\ (op_lifecycle st' = LFinalizing -> op_lifecycle st <> LFinalizing ->
       stop = true /\ o_ownerLive o = true
       /\ (observed (js "completed") o = true \/ o_lifecycle o = LFinalizing)).
Proof.
  unfold iteration. set (d := classifyRecovery o (op_budget st)). set (st1 := log _ _).
  assert (H1 : within_budget st st1) by (eapply within_refl; [done|done|by repeat constructor]).
  assert (Hlive : d_classification d = CContinue -> o_ownerLive o = true).
  { unfold d, classifyRecovery. destruct (o_ownerLive o); [done|]. repeat case_match; done. }
  assert (Hact : forall stx, op_lifecycle stx = op_lifecycle st ->
    op_lifecycle (act env o (d_classification d) stx).1 = op_lifecycle st
    \/ op_lifecycle (act env o (d_classification d) stx).1 = LBlocked).
  { intros stx Hl. destruct (d_classification d); simpl; auto. }
  case_bool_decide as Ec.
  { destruct (observed (js "completed") o || _) eqn:Eo; intros E; injection E as <- <-.
    - split; [exact H1|]. intros _ _. split_and!; [done|auto|].
      apply orb_prop in Eo as [?|Eo]; [by left|right]. by apply bool_decide_eq_true_1 in Eo.
    - split; [done|]. intros Hl Hn. by destruct Hn. }
  destruct (requiresVanishBeforeAction (d_classification d)) eqn:Er.
  - destruct (writeVanish env o _ st1) as [[st2 safe]|] eqn:Ew; [|done].
    assert (Hl2 : op_lifecycle st2 = op_lifecycle st).
    { revert Ew. unfold writeVanish. destruct (writeReceiptImmutable _ _ _ _ _); [|done].
      intros E. by apply Ok_pair_inj in E as [<- _]. }
    apply writeVanish_budget in Ew as [Hw Hb2].
    destruct safe; intros E.
    + injection E as E. assert (st' = (act env o (d_classification d) st2).1) as -> by (by rewrite E).
      split; [|destruct (Hact st2 Hl2) as [->| ->]; [intros Hl Hn; by destruct Hn|done]].
      eapply within_trans; [exact H1|]. eapply within_trans; [exact Hw|].
      apply (act_budget o st2 st). exact Hb2.
    + apply Ok_pair_inj in E as [<- _]. split; [|done]. eapply within_trans; [exact H1|exact Hw].
  - intros E. injection E as E.
    assert (st' = (act env o (d_classification d) st1).1) as -> by (by rewrite E).
    split; [|destruct (Hact st1 eq_refl) as [->| ->]; [intros Hl Hn; by destruct Hn|done]].
    eapply within_trans; [exact H1|]. by apply (act_budget o st1 st).
Qed.

Lemma operate_loop_budget f i st st' n :
  operate_loop env f i st = Ok (st', n) -> op_lifecycle st <> LFinalizing ->
  within_budget st st'
  /\ (op_lifecycle st' = LFinalizing -> exists k, i <= k /\ n = S k
       /\ o_ownerLive (oe_observe env k) = true
       /\ (observed (js "completed") (oe_observe env k) = true
           \/ o_lifecycle (oe_observe env k) = LFinalizing)).
Proof.
  revert i st. induction f as [|f IH]; intros i st; cbn [operate_loop].
  { intros [= <- <-] Hn. split; [|done].
    by eapply within_refl with (chunk := []); [done|rewrite app_nil_r|constructor]. }
  destruct (iteration env _ st) as [[st1 stop]|] eqn:Ei; [|done].
  apply iteration_budget in Ei as [Hw Hfin]. destruct stop.
  - intros [= <- <-] Hn. split; [done|]. intros Hl. destruct (Hfin Hl Hn) as (_ & ? & ?). eauto 7.
  - intros Hloop Hn. destruct (IH _ _ Hloop) as [Hw2 Hk].
    { intros Hl. by destruct (Hfin Hl Hn). }
    split; [by eapply within_trans|]. intros Hl. destruct (Hk Hl) as (k & ? & ? & ?).
    exists k. split_and!; [lia|done|naive_solver|naive_solver].
Qed.

End gate.

(** ** The claims *)

Section claims.
Context `{ReceiptEnv}.
Variable env : operate_env.

Lemma operate_start_facts store :
  let st := operate_start env store in
  op_lifecycle st <> LFinalizing /\ op_store st = store
  /\ op_budget st = merge_budget (oe_retryBudget env)
  /\ Forall (fun a => match a with ARecover _ _ => False | _ => True end) (op_trace st).
Proof.
  split_and!; [|done|done|].
  - simpl. by destruct (ac_accepted _).
  - simpl. constructor; [done|]. constructor; [done|].
    constructor; [by destruct (ac_accepted _)|constructor].
Qed.

Lemma operate_inv store res :
  operate env store = Ok res ->
  exists st n rest, operate_loop env (max_iterations env) 0 (operate_start env store) = Ok (st, n)
    /\ or_iterations res = n /\ op_trace (or_state res) = op_trace st ++ rest
    /\ Forall (fun a => match a with ARecover _ _ => False | _ => True end) rest
    /\ (or_completed res = true -> op_lifecycle st = LFinalizing
        /\ exists fin store', runFinalize (finalize_options env) (oe_between env) (op_store st)
                              = Ok (fin, store')
             /\ fr_completed fin = true /\ or_finalize res = Some fin).
Proof.
  unfold operate. destruct (operate_loop _ _ _ _) as [[st n]|]; [|done].
  case_bool_decide as Hb.
  { intros [= <-]. exists st, n. eexists. split_and!; try done. by repeat constructor. }
  case_bool_decide as Hf; simpl.
  2:{ intros [= <-]. exists st, n. eexists. split_and!; try done. by repeat constructor. }
  destruct (runFinalize _ _ _) as [[fin store']|] eqn:Ef; [|done]. intros [= <-].
  exists st, n. eexists. split_and!; [done|done|done|by repeat constructor|].
  simpl. intros Hc. split; [done|]. eauto 6.
Qed.

(** The loop never acts on a vanished session without its receipt: every
    restart or hand-over in the trace comes immediately after a valid vanish
    receipt about that very work tree was written to the store, and a clean
    restart only happens for a tree with nothing to lose; and the loop stops
    within its bound. *)
Theorem operate_vanish_gate store res :
  operate env store = Ok res ->
  (exists stored, store_le store stored /\ gated stored (op_trace (or_state res)))
  /\ or_iterations res <= max_iterations env.
Proof.
  intros (st & n & rest & Hloop & <- & Htr & Hrest & _)%operate_inv.
  apply operate_loop_extends in Hloop as [[Hle (chunk & Ec & Hg)] Hn]. split; [|lia].
  destruct (operate_start_facts store) as (_ & Hs & _ & Hq). rewrite Hs in Hle.
  exists (op_store st). split; [done|]. rewrite Htr, Ec.
  apply gated_app; [apply gated_app; [by apply gated_quiet|done]|by apply gated_quiet].
Qed.

(** the retries stay within the budget the caller gave (the defaults fill in
    what is missing): prompts injected again, restarts that preserve a dirty tree,
    and restarts on a zero delta. *)
Theorem operate_within_budget store res :
  operate env store = Ok res ->
  let spent p := Z.of_nat (length (List.filter (recovers p) (op_trace (or_state res)))) in
  let budget := merge_budget (oe_retryBudget env) in
  (spent is_reinject <= Z.max 0 (b_reinjectPrompt budget))%Z
  /\ (spent is_preserve <= Z.max 0 (b_dirtyVanishPreserve budget))%Z
  /\ (spent is_zero_restart <= Z.max 0 (b_zeroDeltaVanish budget))%Z.
Proof.
  intros (st & n & rest & Hloop & _ & Htr & Hrest & _)%operate_inv.
  destruct (operate_start_facts store) as (Hl & _ & Hb & Hq).
  apply operate_loop_budget in Hloop as [Hw _]; [|done].
  assert (Hz : forall p l, Forall (fun a => match a with ARecover _ _ => False | _ => True end) l ->
            length (List.filter (recovers p) l) = 0).
  { intros p l Hl'. induction Hl' as [|a l Ha Hl' IH]; [done|]. by destruct a. }
  unfold within_budget, count_recovers in Hw. rewrite Hb, !(Hz _ _ Hq) in Hw.
  cbv beta zeta. rewrite Htr, !List.filter_app, !length_app, !(Hz _ _ Hrest). lia.
Qed.

(** [operate] completes on evidence only: a live owner was seen reporting the
    completion (or finalizing) in the last observation, and the finalizer found
    all its evidence, from the store [before] to the store [after], with tests, commit and
    pull request required. *)
Theorem operate_completes_on_evidence store res :
  operate env store = Ok res -> or_completed res = true ->
  exists k fin before after, or_iterations res = S k
    /\ o_ownerLive (oe_observe env k) = true
    /\ (observed (js "completed") (oe_observe env k) = true
        \/ o_lifecycle (oe_observe env k) = LFinalizing)
    /\ or_finalize res = Some fin
    /\ completed_on_evidence (finalize_options env) (oe_between env) before fin after.
Proof.
  intros (st & n & rest & Hloop & <- & _ & _ & Hc)%operate_inv Hok.
  destruct (Hc Hok) as (Hl & fin & store' & Hfin & Hcomp & ->).
  destruct (operate_start_facts store) as (Hn & _).
  apply operate_loop_budget in Hloop as [_ Hk]; [|done].
  destruct (Hk Hl) as (k & _ & -> & Hlive & Hobs).
  eexists k, fin, _, _. split_and!; try done. by eapply finalize_evidence.
Qed.

End claims.

(** ** An example *)

(** A vanished owner with a dirty tree, preserved and restarted once, and a
    completion after that. *)
Definition sample_observe (i : nat) : Observation :=
  if (i =? 0)%nat then mkObservation LObserving false GDirty [] RVanishedDirty
  else mkObservation LObserving true GClean [js "completed"] RNormal.

Definition sample_env : operate_env :=
  mkEnv (sample_finalize true true) id sample_observe
    (fun i => mkTransport (mkSnapshot false 0 0) 1 (js "cmd", true) (Some 2%Z))
    (fun _ => mkPreserve (js "d1ff") [] (Some (js "stash@{0}")) true)
    (None, None, None, None) None (fun _ => js "2026-01-01T00:00:00Z")
    (fun i => js "vanish-" ++ num_to_string (Z.of_nat i)).

Lemma operate_vanish_gate_witness :
  exists res, operate (H := sample_receipt_env) sample_env (mkStore ∅ []) = Ok res
    /\ op_classifications (or_state res) = [CRestartPreserveDelta; CContinue]
    /\ exists stored, gated (H := sample_receipt_env) stored (op_trace (or_state res)).
Proof.
  eexists. split; [vm_compute; reflexivity|]. split; [vm_compute; reflexivity|].
  edestruct (operate_vanish_gate (H := sample_receipt_env) sample_env (mkStore ∅ []))
    as [(stored & _ & Hg) _]; [vm_compute; reflexivity|].
  exists stored. exact Hg.
Defined.

Lemma operate_within_budget_witness :
  exists res, operate (H := sample_receipt_env) sample_env (mkStore ∅ []) = Ok res
    /\ (Z.of_nat (length (List.filter (recovers is_preserve) (op_trace (or_state res)))) <= 1)%Z.
Proof.
  eexists. split; [vm_compute; reflexivity|].
  eapply (operate_within_budget (H := sample_receipt_env) sample_env (mkStore ∅ [])).
  vm_compute. reflexivity.
Defined.

Lemma operate_completes_on_evidence_witness :
  exists res, operate (H := sample_receipt_env) sample_env (mkStore ∅ []) = Ok res
    /\ exists k, or_iterations res = S k /\ o_ownerLive (sample_observe k) = true.
Proof.
  eexists. split; [vm_compute; reflexivity|].
  edestruct (operate_completes_on_evidence (H := sample_receipt_env) sample_env (mkStore ∅ []))
    as (k & fin & _ & _ & Hk & Hlive & _); [vm_compute; reflexivity|vm_compute; reflexivity|].
  exists k. split; [exact Hk|exact Hlive].
Defined.
