(* ===== verification/HarnessIngest.v ===== *)
(** * Ingesting receipts (harness-control-plane/receipt-ingest.ts)

    A batch of receipts of unknown origin is evaluated against a session: which
    are accepted, which are rejected and why, and where the lifecycle moves. *)

From S2P Require Import Prelude JsText Json HarnessLifecycle HarnessReceipts.

Definition RECEIPT_DIGEST_MAX_CHARS : nat := 280.

Definition RECEIPT_FAMILY_LIFECYCLE_TARGETS (f : ReceiptFamily) : option HarnessLifecycle :=
  match f with
  | FCompletion | FReviewVerdict => Some LCompleted
  | _ => None
  end.

Record lifecycle_move := mkMove { mv_from : HarnessLifecycle; mv_to : HarnessLifecycle; mv_receipt : json }.

Record ingest_state := mkIngest {
  in_lifecycle : HarnessLifecycle;
  in_accepted : list json;
  in_rejected : list (json * list jsstring);
  in_transitions : list lifecycle_move
}.

Section ingest.
Context `{ReceiptEnv}.

Definition all_families : list ReceiptFamily :=
  [FVanish; FPromptAcceptance; FValidation; FCompletion; FReviewVerdict; FReviewFailure; FPhaseRollup].

(** The member of the union that [receipt.family] is, if any. *)
Definition family_of (r : json) : option ReceiptFamily :=
  List.find (fun f => is_str (family_name f) (jget (js "family") (Some r))) all_families.

Definition value_text (v : option json) : jsstring :=
  match v with Some (JStr s) => s | _ => coerced_text v end.

Definition evidenceContradiction (r : json) (f : ReceiptFamily) (target : HarnessLifecycle)
    : option jsstring :=
  let e := jget (js "evidence") (Some r) in
  match f with
  | FCompletion =>
      let final := jget (js "finalLifecycle") e in
      if is_str (lifecycle_name target) final then None
      else Some (js "evidence-lifecycle-mismatch:" ++ value_text final)
  | FReviewVerdict =>
      if is_str (js "OWNER_CONFIRMATION_REQUIRED") (jget (js "verdict") e)
      then Some (js "review-verdict-not-terminal") else None
  | _ => None
  end.

Definition accept (r : json) (st : ingest_state) : ingest_state :=
  mkIngest (in_lifecycle st) (in_accepted st ++ [r]) (in_rejected st) (in_transitions st).

Definition reject (r : json) (reasons : list jsstring) (st : ingest_state) : ingest_state :=
  mkIngest (in_lifecycle st) (in_accepted st) (in_rejected st ++ [(r, reasons)]) (in_transitions st).

Definition move_to (l : HarnessLifecycle) (r : json) (st : ingest_state) : ingest_state :=
  mkIngest l (in_accepted st) (in_rejected st) (in_transitions st ++ [mkMove (in_lifecycle st) l r]).

(** The body of the loop. *)
Definition ingest_one (sessionId : jsstring) (st : ingest_state) (r : json) : ingest_state :=
  let reasons := validateReceipt (Some r) in
  if negb (bool_decide (reasons = [])) then reject r reasons st
  else if negb (match jget (js "valid") (Some r) with Some (JBool true) => true | _ => false end)
  then reject r [js "receipt-marked-invalid"] st
  else if negb (is_str sessionId (jget (js "sessionId") (Some r)))
  then reject r [js "session-mismatch:" ++ value_text (jget (js "sessionId") (Some r))] st
  else
    match family_of r with
    | None => accept r st
    | Some f =>
        match RECEIPT_FAMILY_LIFECYCLE_TARGETS f with
        | None => accept r st
        | Some target =>
            match evidenceContradiction r f target with
            | Some why =>
                if bool_decide (f = FReviewVerdict) then accept r st else reject r [why] st
            | None =>
                if canTransition (in_lifecycle st) target
                then accept r (move_to target r st)
                else reject r [js "illegal-transition:" ++ lifecycle_name (in_lifecycle st) ++ js "->"
                                 ++ lifecycle_name target] st
            end
        end
    end.

Definition ingest_loop (s : SessionState) (receipts : list json) : ingest_state :=
  fold_left (ingest_one (s_sessionId s)) receipts (mkIngest (s_lifecycle s) [] [] []).

Definition buildReceiptIngestDigest (total acceptedCount : nat) (rejected : list (json * list jsstring))
    (initial final : HarnessLifecycle) : jsstring :=
  let count n := num_to_string (Z.of_nat n) in
  let summary :=
    join (js ",") ((fun x => (match jget (js "receiptId") (Some x.1) with
                              | None | Some JNull => js "<malformed>"
                              | v => value_text v
                              end) ++ js "(" ++ join (js "|") x.2 ++ js ")") <$> rejected) in
  take RECEIPT_DIGEST_MAX_CHARS
    (js "ingested " ++ count total ++ js " receipts: " ++ count acceptedCount ++ js " accepted, "
     ++ count (length rejected) ++ js " rejected; lifecycle " ++ lifecycle_name initial ++ js "->"
     ++ lifecycle_name final
     ++ if bool_decide (rejected = []) then [] else js "; rejected: " ++ summary).

Record ReceiptIngestResult := mkIngestResult { ir_state : ingest_state; ir_digest : jsstring }.

Definition ingestReceipts (s : SessionState) (receipts : list json) : ReceiptIngestResult :=
  let st := ingest_loop s receipts in
  mkIngestResult st
    (buildReceiptIngestDigest (length receipts) (length (in_accepted st)) (in_rejected st)
       (s_lifecycle s) (in_lifecycle st)).

(** ** Nothing moves a session without proof *)

(** A receipt of this session that proves the completion. *)
Definition proves_completion (sessionId : jsstring) (r : json) : Prop :=
  validateReceipt (Some r) = []
  /\ jget (js "valid") (Some r) = Some (JBool true)
  /\ jget (js "sessionId") (Some r) = Some (JStr sessionId)
  /\ (jget (js "family") (Some r) = Some (JStr (js "completion"))
      \/ jget (js "family") (Some r) = Some (JStr (js "review-verdict"))
         /\ jget (js "verdict") (jget (js "evidence") (Some r))
            <> Some (JStr (js "OWNER_CONFIRMATION_REQUIRED"))).

Definition move_ok (sessionId : jsstring) (m : lifecycle_move) : Prop :=
  mv_from m = LFinalizing /\ mv_to m = LCompleted /\ proves_completion sessionId (mv_receipt m).

Lemma family_of_some r f :
  family_of r = Some f -> jget (js "family") (Some r) = Some (JStr (family_name f)).
Proof. intros [_ Hf]%find_some. by apply is_str_true in Hf. Qed.

Lemma to_completed l : canTransition l LCompleted = true -> l = LFinalizing.
Proof. by destruct l. Qed.

(** The invariant of the loop over the receipts read so far. *)
Definition ingest_inv (s : SessionState) (receipts : list json) (st : ingest_state) : Prop :=
  length (in_accepted st) + length (in_rejected st) = length receipts
  /\ Forall (move_ok (s_sessionId s)) (in_transitions st)
  /\ length (in_transitions st) <= 1
  /\ (in_transitions st = [] -> in_lifecycle st = s_lifecycle s)
  /\ (in_transitions st <> [] -> s_lifecycle s = LFinalizing /\ in_lifecycle st = LCompleted).

Lemma ingest_one_inv s receipts st r :
  ingest_inv s receipts st -> ingest_inv s (receipts ++ [r]) (ingest_one (s_sessionId s) st r).
Proof.
  intros (Hlen & Hmoves & Hone & Hnil & Hcons).
  assert (Hrej : forall why, ingest_inv s (receipts ++ [r]) (reject r why st)).
  { intros why. split_and!; simpl; rewrite ?length_app; simpl; [lia|done|done|done|done]. }
  assert (Hacc : ingest_inv s (receipts ++ [r]) (accept r st)).
  { split_and!; simpl; rewrite ?length_app; simpl; [lia|done|done|done|done]. }
  unfold ingest_one. case_bool_decide as Hv; [|apply Hrej].
  destruct (jget (js "valid") (Some r)) as [[|[]| | | |]|] eqn:Evalid; try apply Hrej.
  destruct (is_str (s_sessionId s) _) eqn:Esid; [|apply Hrej]. simpl negb. cbv iota.
  apply is_str_true in Esid. destruct (family_of r) as [f|] eqn:Ef; [|done].
  apply family_of_some in Ef.
  destruct (RECEIPT_FAMILY_LIFECYCLE_TARGETS f) as [target|] eqn:Et; [|done].
  assert (target = LCompleted) as -> by (destruct f; simpl in Et; congruence).
  destruct (evidenceContradiction r f LCompleted) as [why|] eqn:Ec; [case_match; [done|apply Hrej]|].
  destruct (canTransition (in_lifecycle st) LCompleted) eqn:Etr; [|apply Hrej].
  apply to_completed in Etr.
  assert (Hproof : proves_completion (s_sessionId s) r).
  { split_and!; [done|done|done|]. destruct f; try done; [by left|right]. split; [done|].
    unfold evidenceContradiction in Ec. destruct (is_str _ _) eqn:Ev; [done|].
    intros E. rewrite E in Ev. done. }
  destruct (in_transitions st) as [|m ms] eqn:Em.
  - specialize (Hnil eq_refl). split_and!; simpl; rewrite ?Em, ?length_app; simpl;
      [lia| |lia|done|intros _; split; congruence].
    apply Forall_singleton. by split_and!.
  - destruct (Hcons ltac:(done)). congruence.
Qed.

Lemma ingest_loop_inv s receipts : ingest_inv s receipts (ingest_loop s receipts).
Proof.
  induction receipts as [|r receipts IH] using rev_ind.
  - split_and!; simpl; [done|constructor|lia|done|done].
  - unfold ingest_loop in *. rewrite fold_left_app. simpl. by apply ingest_one_inv.
Qed.

(** ingestion fails closed: every receipt is either accepted or rejected; the
    lifecycle changes at most once, only from finalizing to completed, and only
    for an accepted receipt of this very session whose content, digest and
    validity mark all hold and whose verdict does not ask for the owner; and the
    digest stays within its bound. *)
Theorem ingest_fails_closed s receipts :
  let st := ir_state (ingestReceipts s receipts) in
  length (in_accepted st) + length (in_rejected st) = length receipts
  /\ (in_lifecycle st = s_lifecycle s \/
      s_lifecycle s = LFinalizing /\ in_lifecycle st = LCompleted
      /\ exists m, in_transitions st = [m] /\ move_ok (s_sessionId s) m)
  /\ length (ir_digest (ingestReceipts s receipts)) <= RECEIPT_DIGEST_MAX_CHARS.
Proof.
  intros st. destruct (ingest_loop_inv s receipts) as (Hlen & Hmoves & Hone & Hnil & Hcons).
  fold st in Hlen, Hmoves, Hone, Hnil, Hcons. split_and!; [exact Hlen| |].
  - destruct (in_transitions (ingest_loop s receipts)) as [|m [|]] eqn:Em; simpl in Hone; [|right|lia].
    + left. by apply Hnil.
    + destruct Hcons as [H1 H2]; [done|]. split_and!; [done|done|]. exists m. split; [done|].
      by inversion Hmoves.
  - unfold ingestReceipts, buildReceiptIngestDigest. cbn [ir_digest]. rewrite length_take. lia.
Qed.

End ingest.
