(* ===== verification/HarnessLease.v ===== *)
(** * The session lease (harness-control-plane/session-lease.ts)

    One file per session names the owner that may write events.  Every operation
    runs under a file lock, so it is one step on the content of the file; the lock
    may time out, and then nothing changes.  The lock is taken to be exclusive: the
    source hands it over when its holder's process is gone, and after 30 seconds when
    it cannot tell, and an operation that was overtaken in that way is not modelled.
    Instants are milliseconds; the random token and its hash are parameters of the
    operations.  The comments of the source say that an expired lease may be taken
    over; the code, and the theorems here, take over a lease only when its process is
    dead. *)

From S2P Require Import Prelude.
From stdpp Require Import relations.

Inductive endpoint_kind := UnixSocket | Fifo.

Record SessionLease := mkLease {
  le_ownerId : jsstring;
  le_sessionId : jsstring;
  le_pid : Z;
  le_leaseTokenHash : jsstring;
  le_endpoint : option (endpoint_kind * jsstring);
  le_eventsPath : jsstring;
  le_heartbeatAt : Z;
  le_expiresAt : Z;
  le_leaseEpoch : Z;
  le_writer : jsstring * Z
}.

Inductive LeaseError := LeaseHeld | NoLease | NotLeaseHolder | LeaseLockTimeout.

Inductive LeaseStatus := LsMissing | LsLive | LsExpiredAlive | LsDead | LsEpermAlive.
Inductive PidStatus := PidAlive | PidDead | PidEperm.

#[export] Instance LeaseStatus_eq_dec : EqDecision LeaseStatus.
Proof. solve_decision. Defined.
#[export] Instance PidStatus_eq_dec : EqDecision PidStatus.
Proof. solve_decision. Defined.
#[export] Instance endpoint_kind_eq_dec : EqDecision endpoint_kind.
Proof. solve_decision. Defined.

Definition isExpired (lease : SessionLease) (now : Z) : bool := (le_expiresAt lease <=? now)%Z.

Definition classifyLeaseStatus (lease : option SessionLease) (now : Z) (probe : Z -> PidStatus)
    : LeaseStatus :=
  match lease with
  | None => LsMissing
  | Some l =>
      match probe (le_pid l) with
      | PidDead => LsDead
      | PidEperm => LsEpermAlive
      | PidAlive => if isExpired l now then LsExpiredAlive else LsLive
      end
  end.

(** A process that exists but belongs to somebody else counts as alive. *)
Definition isOwnerAlive (pid : Z) (probe : Z -> PidStatus) : bool :=
  match probe pid with PidDead => false | _ => true end.

Definition isStale (lease : SessionLease) (now : Z) (probe : Z -> PidStatus) : bool :=
  isExpired lease now || negb (isOwnerAlive (le_pid lease) probe).

Record AcquireOptions := mkAcquire {
  aq_ownerId : jsstring;
  aq_pid : Z;
  aq_endpoint : option (endpoint_kind * jsstring);
  aq_eventsPath : jsstring;
  aq_ttlMs : Z
}.

(** [existing] and [reread] are what the two reads of the file return; under the
    lock they are the same. *)
Definition acquireLease (sessionId : jsstring) (opts : AcquireOptions) (tokenHash : jsstring) (now : Z)
    (probe : Z -> PidStatus) (existing reread : option SessionLease) : result LeaseError SessionLease :=
  let! _ :=
    (match existing with
     | Some e =>
         if negb (bool_decide (le_ownerId e = aq_ownerId opts)) then
           if negb (bool_decide (classifyLeaseStatus existing now probe = LsDead)) then Err LeaseHeld
           else match reread with
                | Some r => if bool_decide (le_ownerId r = le_ownerId e)
                               && (le_leaseEpoch r =? le_leaseEpoch e)%Z
                            then Ok () else Err LeaseHeld
                | None => Err LeaseHeld
                end
         else Ok ()
     | None => Ok ()
     end) in
  let priorEpoch := match existing with Some e => le_leaseEpoch e | None => 0%Z end in
  let epoch := match existing with
               | Some e => if bool_decide (le_ownerId e = aq_ownerId opts) then priorEpoch
                           else (priorEpoch + 1)%Z
               | None => (priorEpoch + 1)%Z
               end in
  Ok (mkLease (aq_ownerId opts) sessionId (aq_pid opts) tokenHash (aq_endpoint opts)
        (aq_eventsPath opts) now (now + aq_ttlMs opts) epoch (aq_ownerId opts, epoch)).

Definition heartbeat (ownerId : jsstring) (ttlMs now : Z) (lease : option SessionLease)
    : result LeaseError SessionLease :=
  match lease with
  | None => Err NoLease
  | Some l =>
      if negb (bool_decide (le_ownerId l = ownerId)) then Err NotLeaseHolder
      else Ok (mkLease (le_ownerId l) (le_sessionId l) (le_pid l) (le_leaseTokenHash l)
                 (le_endpoint l) (le_eventsPath l) now (now + ttlMs) (le_leaseEpoch l) (le_writer l))
  end.

Definition canWriteEvents (lease : SessionLease) (ownerId : jsstring) (now : Z) : bool :=
  bool_decide (le_ownerId lease = ownerId) && negb (isExpired lease now).

Definition releaseLease (ownerId : jsstring) (lease : option SessionLease)
    : result LeaseError (option SessionLease) :=
  match lease with
  | None => Ok None
  | Some l => if negb (bool_decide (le_ownerId l = ownerId)) then Err NotLeaseHolder else Ok None
  end.

(** The paths of a session: the resolved control socket, and the socket path that
    is derived for long roots ([None] when deriving it throws). *)
Record lease_paths := mkPaths { lp_controlSock : jsstring; lp_derived : option jsstring }.

(** Paths are compared as resolved; [resolve] is the path library's. *)
Definition isOwnedUnixEndpointPath (resolve : jsstring -> jsstring) (paths : lease_paths)
    (endpointPath : jsstring) : bool :=
  bool_decide (resolve endpointPath = resolve (lp_controlSock paths))
  || match lp_derived paths with
     | Some d => bool_decide (resolve endpointPath = resolve d)
     | None => false
     end.

(** The answer, the new content of the lease file and the other files removed. *)
Definition reapDeadOwnerArtifacts (resolve : jsstring -> jsstring) (paths : lease_paths)
    (expectedOwnerId : jsstring) (expectedEpoch now : Z) (probe : Z -> PidStatus)
    (lease : option SessionLease) : bool * option SessionLease * list jsstring :=
  match lease with
  | None => (false, None, [])
  | Some l =>
      if negb (bool_decide (le_ownerId l = expectedOwnerId)) || negb (le_leaseEpoch l =? expectedEpoch)%Z
      then (false, lease, [])
      else if negb (bool_decide (classifyLeaseStatus lease now probe = LsDead)) then (false, lease, [])
      else
        let endpoint :=
          match le_endpoint l with
          | Some (UnixSocket, p) => if isOwnedUnixEndpointPath resolve paths p then [p] else []
          | _ => []
          end in
        (true, None, lp_controlSock paths :: endpoint)
  end.

(** ** Runs *)

(** What the world says at one step: the time and the process table. *)
Record moment := mkMoment { m_now : Z; m_probe : Z -> PidStatus }.

(** A call of one of the operations, with who calls it. *)
Inductive lease_op :=
| LeaseAcquire (opts : AcquireOptions) (tokenHash : jsstring)
| LeaseHeartbeat (ownerId : jsstring) (ttlMs : Z)
| LeaseRelease (ownerId : jsstring)
| LeaseReap (resolve : jsstring -> jsstring) (paths : lease_paths) (ownerId : jsstring) (epoch : Z)
| LeaseTimeout.

(** The content of the lease file after a call: an error leaves it as it was. *)
Definition lease_step (sessionId : jsstring) (file : option SessionLease) (call : moment * lease_op) : option SessionLease :=
  let '(m, op) := call in
  match op with
  | LeaseAcquire opts tokenHash =>
      match acquireLease sessionId opts tokenHash (m_now m) (m_probe m) file file with Ok l => Some l | Err _ => file end
  | LeaseHeartbeat ownerId ttlMs => match heartbeat ownerId ttlMs (m_now m) file with Ok l => Some l | Err _ => file end
  | LeaseRelease ownerId => match releaseLease ownerId file with Ok file' => file' | Err _ => file end
  | LeaseReap resolve paths ownerId epoch => (reapDeadOwnerArtifacts resolve paths ownerId epoch (m_now m) (m_probe m) file).1.2
  | LeaseTimeout => file
  end.

(** The content after calls, in order, when there was no lease at first. *)
Definition lease_after (sessionId : jsstring) (calls : list (moment * lease_op)) : option SessionLease :=
  foldl (lease_step sessionId) None calls.

(** A well-formed content: the writer is the owner at its epoch, from 1 on. *)
Definition lease_wf (file : option SessionLease) : Prop :=
  match file with
  | None => True
  | Some l => le_writer l = (le_ownerId l, le_leaseEpoch l) /\ (1 <= le_leaseEpoch l)%Z
  end.

Lemma acquire_spec sessionId opts tokenHash now probe file l :
  acquireLease sessionId opts tokenHash now probe file file = Ok l ->
  le_ownerId l = aq_ownerId opts /\ le_writer l = (aq_ownerId opts, le_leaseEpoch l)
  /\ le_expiresAt l = (now + aq_ttlMs opts)%Z
  /\ match file with
     | None => le_leaseEpoch l = 1%Z
     | Some e =>
         (le_ownerId e = aq_ownerId opts /\ le_leaseEpoch l = le_leaseEpoch e)
         \/ (le_ownerId e <> aq_ownerId opts /\ probe (le_pid e) = PidDead
             /\ le_leaseEpoch l = (le_leaseEpoch e + 1)%Z)
     end.
Proof.
  unfold acquireLease. destruct file as [e|]; [|by intros [= <-]].
  case_bool_decide as Ho; simpl.
  { intros [= <-]. simpl. split_and!; auto. }
  destruct (probe (le_pid e)) eqn:Ep; simpl; [by destruct (isExpired e now)| |done].
  rewrite bool_decide_true, Z.eqb_refl by done. simpl. intros [= <-]. simpl. split_and!; auto.
Qed.

(** What a call can do to the file, by the call.  The owner and its epoch stay, or a call
    changed them: an acquisition where there was no lease; an acquisition by another owner when the
    process was dead; a release by the owner; a reaping of the dead owner. *)
Definition lease_change (call : moment * lease_op) (file file' : option SessionLease) : Prop :=
  let '(m, op) := call in
  match file, file' with
  | None, None => True
  | None, Some l' => (exists opts th, op = LeaseAcquire opts th /\ aq_ownerId opts = le_ownerId l') /\ le_leaseEpoch l' = 1%Z
  | Some l, Some l' =>
      (le_ownerId l' = le_ownerId l /\ le_leaseEpoch l' = le_leaseEpoch l)
      \/ ((exists opts th, op = LeaseAcquire opts th /\ aq_ownerId opts = le_ownerId l')
          /\ le_ownerId l' <> le_ownerId l /\ m_probe m (le_pid l) = PidDead /\ le_leaseEpoch l' = (le_leaseEpoch l + 1)%Z)
  | Some l, None =>
      op = LeaseRelease (le_ownerId l)
      \/ (m_probe m (le_pid l) = PidDead /\ exists resolve paths, op = LeaseReap resolve paths (le_ownerId l) (le_leaseEpoch l))
  end.

Lemma same_owner (file : option SessionLease) call : lease_change call file file.
Proof. destruct call, file; cbn; auto. Qed.

Lemma step_change sessionId file call : lease_change call file (lease_step sessionId file call).
Proof.
  destruct call as [m [opts th|owner ttl|owner|resolve paths owner epoch|]]; cbn [lease_step]; [..|apply same_owner].
  - destruct (acquireLease _ _ _ _ _ _ _) as [l|] eqn:Ea; [|apply same_owner]. apply acquire_spec in Ea as (Ho & _ & _ & Hcase).
    destruct file as [e|]; cbn; [|by eauto]. destruct Hcase as [[He ->]|(Hne & Hd & ->)]; [left|right]; split_and!; try congruence; eauto.
  - destruct (heartbeat _ _ _ _) as [l|] eqn:Eh; [|apply same_owner]. unfold heartbeat in Eh. destruct file as [e|]; [|done].
    case_bool_decide; [|done]. injection Eh as <-. by left.
  - unfold releaseLease. destruct file as [e|]; [|done]. case_bool_decide as Ho; cbn; [|by left]. left. by rewrite Ho.
  - unfold reapDeadOwnerArtifacts. destruct file as [e|]; [|done].
    destruct (negb (bool_decide (le_ownerId e = owner)) || negb (le_leaseEpoch e =? epoch)%Z) eqn:Eg; [apply same_owner|].
    apply orb_false_iff in Eg as [<-%negb_false_iff%bool_decide_eq_true <-%negb_false_iff%Z.eqb_eq].
    case_bool_decide as Hs; cbn; [|by left]. right. split; [|by eauto]. cbn in Hs. destruct (m_probe m (le_pid e)); [by case_match|done|done].
Qed.

Lemma step_wf sessionId file call : lease_wf file -> lease_wf (lease_step sessionId file call).
Proof.
  intros Hw. destruct call as [m [opts th|owner ttl|owner|resolve paths owner epoch|]]; cbn [lease_step]; [..|done].
  - destruct (acquireLease _ _ _ _ _ _ _) as [l|] eqn:Ea; [|done]. apply acquire_spec in Ea as (Ho & Hwr & _ & Hcase).
    cbn. rewrite Hwr, Ho. split; [done|]. destruct file as [e|]; [|lia]. cbn in Hw. destruct Hcase as [[_ ->]|(_ & _ & ->)]; lia.
  - destruct (heartbeat _ _ _ _) as [l|] eqn:Eh; [|done]. unfold heartbeat in Eh. destruct file as [e|]; [|done].
    case_bool_decide; [|done]. by injection Eh as <-.
  - unfold releaseLease. destruct file; [case_bool_decide|]; done.
  - unfold reapDeadOwnerArtifacts. destruct file as [l|]; [|done]. repeat case_match; by simplify_eq.
Qed.

Lemma run_wf sessionId calls : lease_wf (lease_after sessionId calls).
Proof. induction calls as [|call calls IH] using rev_ind; [done|]. unfold lease_after. rewrite foldl_snoc. by apply step_wf. Qed.

(** The calls [more] leave the owner [owner] alone: it releases nothing, and its process is not
    dead when they run. *)
Definition owner_lives (sessionId owner : jsstring) (calls more : list (moment * lease_op)) : Prop :=
  forall before m op later, more = before ++ (m, op) :: later ->
    op <> LeaseRelease owner /\ forall l, lease_after sessionId (calls ++ before) = Some l -> m_probe m (le_pid l) <> PidDead.

Lemma owner_keeps sessionId calls more l :
  lease_after sessionId calls = Some l -> owner_lives sessionId (le_ownerId l) calls more ->
  exists l', lease_after sessionId (calls ++ more) = Some l' /\ le_ownerId l' = le_ownerId l /\ le_leaseEpoch l' = le_leaseEpoch l.
Proof.
  intros Hl. induction more as [|[m op] more IH] using rev_ind; intros Hlives; [exists l; by rewrite app_nil_r|].
  destruct IH as (l' & Hl' & Ho & He).
  { intros before m' op' later E. apply (Hlives before m' op' (later ++ [(m, op)])). by rewrite E, <- app_assoc. }
  destruct (Hlives more m op [] eq_refl) as [Hrel Hdead]. specialize (Hdead l' Hl').
  rewrite (assoc_L app). unfold lease_after. rewrite foldl_snoc. fold (lease_after sessionId (calls ++ more)). rewrite Hl'.
  pose proof (step_change sessionId (Some l') (m, op)) as Hc. destruct (lease_step sessionId (Some l') (m, op)) as [l2|]; cbn in Hc.
  - exists l2. split; [done|]. destruct Hc as [[-> ->]|(_ & _ & Hd & _)]; [done|by destruct Hdead].
  - destruct Hc as [->|[Hd _]]; [by rewrite Ho in Hrel|by destruct Hdead].
Qed.

(** C31: One live owner at a time.  In every run of acquisitions, heartbeats, releases, reapings and
    calls that fail: from one content of the lease file to the next either the owner and its epoch
    stay, or an acquisition by the new owner found no lease, or found one whose process was dead and raised the epoch by one;
    a lease disappears only when its own owner releases it, or when it is reaped under its own name and
    epoch while its process is dead.  Hence an owner that has the lease keeps it, with its
    epoch, through whatever calls the others make, as long as it does not release it and its process is
    not dead.  The writer named in the file is always its owner. *)
Theorem lease_single_owner sessionId calls :
  let file := lease_after sessionId calls in
  (forall call, lease_change call file (lease_after sessionId (calls ++ [call])))
  /\ (forall l more, file = Some l -> owner_lives sessionId (le_ownerId l) calls more ->
       exists l', lease_after sessionId (calls ++ more) = Some l' /\ le_ownerId l' = le_ownerId l /\ le_leaseEpoch l' = le_leaseEpoch l)
  /\ (forall l, file = Some l -> le_writer l = (le_ownerId l, le_leaseEpoch l) /\ (1 <= le_leaseEpoch l)%Z).
Proof.
  intros file. split; [|split].
  - intros call. unfold lease_after. rewrite foldl_snoc. apply step_change.
  - intros l more. apply owner_keeps.
  - intros l Hl. pose proof (run_wf sessionId calls) as Hw. fold file in Hw. by rewrite Hl in Hw.
Qed.

Definition sample_lease_moment : moment :=
  mkMoment 1000 (fun pid => if (pid =? 7)%Z then PidDead else PidAlive).

(** An owner acquires the lease; another tries to take it, to release it and to reap it. *)
Example lease_kept :
  let calls := [(sample_lease_moment, LeaseAcquire (mkAcquire (js "a") 8 None (js "ev") 500) (js "h1"))] in
  let more := [(sample_lease_moment, LeaseAcquire (mkAcquire (js "b") 9 None (js "ev") 500) (js "h2"));
               (sample_lease_moment, LeaseRelease (js "b"));
               (sample_lease_moment, LeaseReap id (mkPaths [] None) (js "a") 1)] in
  lease_after (js "s") (calls ++ more) = lease_after (js "s") calls
  /\ le_ownerId <$> lease_after (js "s") (calls ++ more) = Some (js "a").
Proof. vm_compute. split; reflexivity. Qed.

(** An expired lease of a process that is alive, which [isStale] calls stale,
    cannot be taken over: acquiring it as another owner fails with [lease_held]. *)
Theorem expired_alive_not_taken_over sessionId opts tokenHash now probe l :
  isExpired l now = true -> probe (le_pid l) = PidAlive -> le_ownerId l <> aq_ownerId opts ->
  isStale l now probe = true
  /\ acquireLease sessionId opts tokenHash now probe (Some l) (Some l) = Err LeaseHeld.
Proof.
  intros He Hp Ho. unfold isStale, acquireLease, classifyLeaseStatus. rewrite He, Hp.
  by rewrite bool_decide_false.
Qed.

Lemma expired_alive_not_taken_over_witness :
  isStale (mkLease (js "a") (js "s") 8 [] None [] 0 10 1 (js "a", 1%Z)) 1000
    (m_probe sample_lease_moment) = true
  /\ acquireLease (js "s") (mkAcquire (js "b") 9 None [] 500) [] 1000 (m_probe sample_lease_moment)
       (Some (mkLease (js "a") (js "s") 8 [] None [] 0 10 1 (js "a", 1%Z)))
       (Some (mkLease (js "a") (js "s") 8 [] None [] 0 10 1 (js "a", 1%Z))) = Err LeaseHeld.
Proof.
  apply expired_alive_not_taken_over.
  - reflexivity.
  - reflexivity.
  - vm_compute. discriminate.
Defined.
