(* ===== verification/PathMutationLock.v ===== *)
(** * Locking the paths of an edit (edit/path-mutation-lock.ts)

    Edits of one file are serialised by a mutex per path; an edit of several paths
    takes their mutexes in lexicographic order.  Tasks interleave at every [await]:
    the state holds the mutexes and where each task is, and a step is what one task
    does between two suspension points.  [path.resolve] is a parameter; the lock
    between processes that is taken inside each mutex appears as the possibility
    that a task gives up after having taken a mutex. *)

From S2P Require Import Prelude JsText Json.

(** ** The mutex *)

Record AsyncMutex := mkMutex { m_locked : bool; m_waiters : list nat }.

Definition createAsyncMutex : AsyncMutex := mkMutex false [].

(** [true]: the caller goes on; [false]: it waits for its turn. *)
Definition mutex_acquire (t : nat) (m : AsyncMutex) : AsyncMutex * bool :=
  if negb (m_locked m) then (mkMutex true (m_waiters m), true)
  else (mkMutex (m_locked m) (m_waiters m ++ [t]), false).

(** The waiter that is resumed, if any. *)
Definition mutex_release (m : AsyncMutex) : AsyncMutex * option nat :=
  match m_waiters m with
  | next :: rest => (mkMutex (m_locked m) rest, Some next)
  | [] => (mkMutex false [], None)
  end.

(** ** Tasks *)

(** [Unwinding]: the function or a lock has returned or thrown, the [finally]
    blocks run. *)
Inductive phase := Going | Waiting | Unwinding.

#[export] Instance phase_eq_dec : EqDecision phase.
Proof. solve_decision. Defined.

(** [t_index] mutexes are held: those of the first paths. *)
Record task := mkTask { t_paths : list jsstring; t_index : nat; t_phase : phase }.

Record system := mkSystem { s_mutexes : gmap jsstring AsyncMutex; s_tasks : gmap nat task }.

Definition mutexFor (s : system) (p : jsstring) : AsyncMutex :=
  default createAsyncMutex (s_mutexes s !! p).

(** [[...new Set(paths)].sort()] of the resolved paths. *)
Definition add_unique (acc : list jsstring) (p : jsstring) : list jsstring :=
  if bool_decide (p ∈ acc) then acc else acc ++ [p].

Definition lock_order (resolve : jsstring -> jsstring) (absolutePaths : list jsstring) : list jsstring :=
  sort_by str_leb (fold_left add_unique (resolve <$> absolutePaths) []).

(** [withEditPathMutation] starts with no path locked. *)
Definition withEditPathMutation (resolve : jsstring -> jsstring) (absolutePaths : list jsstring) : task :=
  mkTask (lock_order resolve absolutePaths) 0 Going.

(** What a task can do: take the mutex of its next path; end (the function is done,
    or the lock between processes failed after a mutex was taken); run the next
    [finally] block. *)
Inductive event := Acquire | Finish | Release.

Definition set_task (t : nat) (tk : task) (s : system) : system :=
  mkSystem (s_mutexes s) (<[t := tk]> (s_tasks s)).

Definition set_mutex (p : jsstring) (m : AsyncMutex) (s : system) : system :=
  mkSystem (<[p := m]> (s_mutexes s)) (s_tasks s).

(** The resumed waiter owns the mutex and goes on. *)
Definition resume (w : nat) (s : system) : system :=
  match s_tasks s !! w with
  | Some tk => set_task w (mkTask (t_paths tk) (S (t_index tk)) Going) s
  | None => s
  end.

Definition step_acquire (t : nat) (tk : task) (s : system) : option system :=
  match t_paths tk !! t_index tk with
  | None => None
  | Some p =>
      let (m, mine) := mutex_acquire t (mutexFor s p) in
      Some (set_task t (if (mine : bool) then mkTask (t_paths tk) (S (t_index tk)) Going
                        else mkTask (t_paths tk) (t_index tk) Waiting)
              (set_mutex p m s))
  end.

Definition step_release (t : nat) (tk : task) (s : system) : option system :=
  match t_index tk with
  | O => None
  | S k =>
      match t_paths tk !! k with
      | None => None
      | Some p =>
          let (m, next) := mutex_release (mutexFor s p) in
          let s' := set_task t (mkTask (t_paths tk) k Unwinding) (set_mutex p m s) in
          Some (match next with Some w => resume w s' | None => s' end)
      end
  end.

Definition step (s : system) (t : nat) (e : event) : option system :=
  match s_tasks s !! t with
  | None => None
  | Some tk =>
      match t_phase tk, e with
      | Going, Acquire => step_acquire t tk s
      | Going, Finish =>
          if (t_index tk =? length (t_paths tk))%nat || (0 <? t_index tk)%nat
          then Some (set_task t (mkTask (t_paths tk) (t_index tk) Unwinding) s) else None
      | Unwinding, Release => step_release t tk s
      | _, _ => None
      end
  end.

(** Calls start at any time, with fresh identifiers. *)
Inductive reachable (resolve : jsstring -> jsstring) : system -> Prop :=
| reach_init : reachable resolve (mkSystem ∅ ∅)
| reach_call s t paths :
    reachable resolve s -> s_tasks s !! t = None ->
    reachable resolve (set_task t (withEditPathMutation resolve paths) s)
| reach_step s t e s' : reachable resolve s -> step s t e = Some s' -> reachable resolve s'.

Definition done (tk : task) : bool := bool_decide (t_phase tk = Unwinding) && (t_index tk =? 0)%nat.

(** ** The invariant *)

Definition held (tk : task) : list jsstring := take (t_index tk) (t_paths tk).

Definition holds (s : system) (t : nat) (p : jsstring) : Prop :=
  exists tk, s_tasks s !! t = Some tk /\ p ∈ held tk.

Definition waits_for (tk : task) (p : jsstring) : Prop :=
  t_phase tk = Waiting /\ t_paths tk !! t_index tk = Some p.

Definition waits (s : system) (t : nat) (p : jsstring) : Prop :=
  exists tk, s_tasks s !! t = Some tk /\ waits_for tk p.

Definition str_lt (a b : jsstring) : Prop := str_leb a b = true /\ a <> b.

Definition task_wf (tk : task) : Prop :=
  StronglySorted str_lt (t_paths tk) /\ t_index tk <= length (t_paths tk)
  /\ (t_phase tk = Waiting -> t_index tk < length (t_paths tk)).

(** The mutex of a path agrees with the tasks. *)
Record mutex_ok (s : system) (p : jsstring) : Prop := {
  mo_locked : m_locked (mutexFor s p) = true <-> exists t, holds s t p;
  mo_unique : forall t u, holds s t p -> holds s u p -> t = u;
  mo_waiters : forall t, t ∈ m_waiters (mutexFor s p) <-> waits s t p;
  mo_nodup : NoDup (m_waiters (mutexFor s p));
  mo_idle : m_locked (mutexFor s p) = false -> m_waiters (mutexFor s p) = []
}.

Record inv (s : system) : Prop := {
  inv_tasks : map_Forall (fun _ => task_wf) (s_tasks s);
  inv_mutexes : forall p, mutex_ok s p
}.

(** ** Order *)

Lemma lock_order_sorted resolve paths : StronglySorted str_lt (lock_order resolve paths).
Proof.
  unfold lock_order. set (l := fold_left add_unique (resolve <$> paths) []).
  assert (Hnd : NoDup l).
  { unfold l. generalize (NoDup_nil_2 (A := jsstring)). generalize (@nil jsstring) as acc.
    induction (resolve <$> paths) as [|p ps IH]; intros acc Hacc; simpl; [done|]. apply IH.
    unfold add_unique. case_bool_decide; [done|]. apply NoDup_app.
    split_and!; [done|set_solver|apply NoDup_singleton]. }
  assert (Hs : StronglySorted (fun a b => str_leb a b = true) (sort_by str_leb l)).
  { apply sort_by_sorted; [|intros ???; apply str_leb_trans].
    intros x y Hf. destruct (str_leb_total x y); congruence. }
  rewrite <- (sort_by_perm str_leb l) in Hnd. revert Hs Hnd. generalize (sort_by str_leb l).
  induction 1 as [|x k Hk IH Hx]; intros Hnd; [constructor|].
  apply NoDup_cons in Hnd as [Hn Hnd].
  constructor; [by apply IH|]. apply Forall_forall. intros y Hy. split.
  - by eapply (proj1 (Forall_forall _ _)) in Hx.
  - intros ->. done.
Qed.

Lemma sorted_lt l i j a b :
  StronglySorted str_lt l -> i < j -> l !! i = Some a -> l !! j = Some b -> str_lt a b.
Proof.
  intros Hs. revert i j. induction Hs as [|x l Hs IH Hx]; intros [|i] [|j] Hij; simpl; try done; try lia.
  - intros [= <-] Hb. eapply (proj1 (Forall_forall _ _)) in Hx; [done|]. by eapply list_elem_of_lookup_2.
  - apply IH. lia.
Qed.

(** The path at the index is not among those held. *)
Lemma next_not_held tk p : task_wf tk -> t_paths tk !! t_index tk = Some p -> p ∉ held tk.
Proof.
  intros (Hs & _ & _) Hp Hin. apply list_elem_of_lookup in Hin as [i Hi].
  unfold held in Hi. apply lookup_take_Some in Hi as [Hi Hlt].
  by destruct (sorted_lt _ _ _ _ _ Hs Hlt Hi Hp).
Qed.

Lemma held_S tk p ph :
  t_paths tk !! t_index tk = Some p -> held (mkTask (t_paths tk) (S (t_index tk)) ph) = held tk ++ [p].
Proof. intros Hp. unfold held. simpl. by apply take_S_r. Qed.

(** ** Reading an updated state *)

Lemma mutexFor_set_task t tk s p : mutexFor (set_task t tk s) p = mutexFor s p.
Proof. done. Qed.

Lemma mutexFor_set_mutex q m s p :
  mutexFor (set_mutex q m s) p = if bool_decide (p = q) then m else mutexFor s p.
Proof.
  unfold mutexFor, set_mutex. simpl. case_bool_decide as E; [subst; by rewrite lookup_insert_eq|].
  by rewrite lookup_insert_ne.
Qed.

Lemma holds_set_task t tk s u p :
  holds (set_task t tk s) u p <-> (u = t /\ p ∈ held tk) \/ (u <> t /\ holds s u p).
Proof.
  unfold holds, set_task. simpl. destruct (decide (u = t)) as [->|Hne].
  - rewrite lookup_insert_eq. naive_solver.
  - rewrite lookup_insert_ne by done. naive_solver.
Qed.

Lemma waits_set_task t tk s u p :
  waits (set_task t tk s) u p <-> (u = t /\ waits_for tk p) \/ (u <> t /\ waits s u p).
Proof.
  unfold waits, set_task. simpl. destruct (decide (u = t)) as [->|Hne].
  - rewrite lookup_insert_eq. naive_solver.
  - rewrite lookup_insert_ne by done. naive_solver.
Qed.

Lemma holds_at s t tk p : s_tasks s !! t = Some tk -> holds s t p <-> p ∈ held tk.
Proof. intros E. unfold holds. rewrite E. naive_solver. Qed.

Lemma waits_at s t tk p : s_tasks s !! t = Some tk -> waits s t p <-> waits_for tk p.
Proof. intros E. unfold waits. rewrite E. naive_solver. Qed.

Lemma holds_set_same s t tk tk' u p :
  s_tasks s !! t = Some tk -> (p ∈ held tk' <-> p ∈ held tk) ->
  holds (set_task t tk' s) u p <-> holds s u p.
Proof.
  intros E Hh. rewrite holds_set_task. destruct (decide (u = t)) as [->|Hne].
  - rewrite (holds_at s t tk) by done. rewrite Hh. split; [by intros [[]|[]]|auto].
  - split; [by intros [[]|[]]|auto].
Qed.

Lemma waits_set_same s t tk tk' u p :
  s_tasks s !! t = Some tk -> (waits_for tk' p <-> waits_for tk p) ->
  waits (set_task t tk' s) u p <-> waits s u p.
Proof.
  intros E Hh. rewrite waits_set_task. destruct (decide (u = t)) as [->|Hne].
  - rewrite (waits_at s t tk) by done. rewrite Hh. split; [by intros [[]|[]]|auto].
  - split; [by intros [[]|[]]|auto].
Qed.

Lemma never_waits tk tk' p :
  t_phase tk <> Waiting -> t_phase tk' <> Waiting -> waits_for tk' p <-> waits_for tk p.
Proof. intros H H'. split; by intros [? _]. Qed.

Lemma mutex_ok_same s s' p :
  mutexFor s' p = mutexFor s p -> (forall t, holds s' t p <-> holds s t p) ->
  (forall t, waits s' t p <-> waits s t p) -> mutex_ok s p -> mutex_ok s' p.
Proof.
  intros Hm Hh Hw [H1 H2 H3 H4 H5]. split; rewrite ?Hm; [|..]; try done.
  - rewrite H1. by setoid_rewrite Hh.
  - intros t u. rewrite !Hh. apply H2.
  - intros t. by rewrite Hw.
Qed.

(** ** Preservation *)

Lemma not_waiting_going tk p ph : t_phase tk = ph -> ph <> Waiting -> ~ waits_for tk p.
Proof. intros E Hne [Hw _]. congruence. Qed.

(** A task whose held paths are the same and that neither waits nor did. *)
Lemma set_task_inv s t tk tk' :
  inv s -> s_tasks s !! t = Some tk -> task_wf tk' -> held tk' = held tk ->
  t_phase tk <> Waiting -> t_phase tk' <> Waiting -> inv (set_task t tk' s).
Proof.
  intros [Ht Hm] E Hwf Hh Hp Hp'. split.
  - apply map_Forall_insert_2; done.
  - intros p. apply (mutex_ok_same s); [done| | |apply Hm]; intros u.
    + apply (holds_set_same s t tk); [done|]. by rewrite Hh.
    + apply (waits_set_same s t tk); [done|]. by apply never_waits.
Qed.

Lemma acquire_free s t tk p :
  inv s -> s_tasks s !! t = Some tk -> t_phase tk = Going -> t_paths tk !! t_index tk = Some p ->
  m_locked (mutexFor s p) = false ->
  inv (set_task t (mkTask (t_paths tk) (S (t_index tk)) Going) (set_mutex p (mkMutex true (m_waiters (mutexFor s p))) s)).
Proof.
  intros [Ht Hm] E Hg Hp Hl. set (m := mkMutex true _). set (tk' := mkTask _ _ _).
  assert (Hwf : task_wf tk) by exact (Ht t tk E).
  assert (Hh : forall q, q ∈ held tk' <-> q ∈ held tk \/ q = p).
  { intros q. unfold tk'. rewrite (held_S tk p) by done. set_solver. }
  assert (Hfree : forall u, ~ holds s u p).
  { intros u Hu. assert (m_locked (mutexFor s p) = true) by (apply (mo_locked s p (Hm p)); eauto). congruence. }
  split.
  { apply map_Forall_insert_2; [|done]. destruct Hwf as (? & ? & ?). unfold task_wf, tk'. simpl.
    apply lookup_lt_Some in Hp. split_and!; [done|lia|done]. }
  intros q. destruct (decide (q = p)) as [->|Hne].
  - pose proof (Hm p) as [H1 H2 H3 H4 H5].
    assert (Hholds : forall u, holds (set_task t tk' (set_mutex p m s)) u p <-> u = t).
    { intros u. rewrite holds_set_task, Hh. split; [|intros ->; auto].
      intros [[? _]|[_ Hu]]; [done|]. by apply Hfree in Hu. }
    assert (Hw : mutexFor (set_task t tk' (set_mutex p m s)) p = m).
    { rewrite mutexFor_set_task, mutexFor_set_mutex. by rewrite bool_decide_true. }
    split; rewrite ?Hw; simpl; [|..]; try done.
    + split; [intros _; exists t; by apply Hholds|done].
    + intros u v. rewrite !Hholds. congruence.
    + intros u. rewrite H3. symmetry. apply (waits_set_same (set_mutex p m s) t tk); [done|].
      apply never_waits; [by rewrite Hg|done].
  - apply (mutex_ok_same s); [| | |apply (Hm q)].
    + rewrite mutexFor_set_task, mutexFor_set_mutex. by rewrite bool_decide_false.
    + intros u. apply (holds_set_same (set_mutex p m s) t tk); [done|]. rewrite Hh.
      split; [by intros [|]|auto].
    + intros u. apply (waits_set_same (set_mutex p m s) t tk); [done|].
      apply never_waits; [by rewrite Hg|done].
Qed.

Lemma acquire_wait s t tk p :
  inv s -> s_tasks s !! t = Some tk -> t_phase tk = Going -> t_paths tk !! t_index tk = Some p ->
  m_locked (mutexFor s p) = true ->
  inv (set_task t (mkTask (t_paths tk) (t_index tk) Waiting)
         (set_mutex p (mkMutex true (m_waiters (mutexFor s p) ++ [t])) s)).
Proof.
  intros [Ht Hm] E Hg Hp Hl. set (m := mkMutex true _). set (tk' := mkTask _ _ _).
  assert (Hwf : task_wf tk) by exact (Ht t tk E).
  assert (Hnw : forall q, ~ waits s t q).
  { intros q. rewrite (waits_at s t tk) by done. by apply (not_waiting_going _ _ Going). }
  assert (Hholds : forall u q, holds (set_task t tk' (set_mutex p m s)) u q <-> holds s u q).
  { intros u q. by apply (holds_set_same (set_mutex p m s) t tk). }
  split.
  { apply map_Forall_insert_2; [|done]. destruct Hwf as (? & ? & ?). unfold task_wf, tk'. simpl.
    apply lookup_lt_Some in Hp. split_and!; [done|lia|lia]. }
  intros q. destruct (decide (q = p)) as [->|Hne].
  - pose proof (Hm p) as [H1 H2 H3 H4 H5].
    assert (Hw : mutexFor (set_task t tk' (set_mutex p m s)) p = m).
    { rewrite mutexFor_set_task, mutexFor_set_mutex. by rewrite bool_decide_true. }
    split; rewrite ?Hw; cbn [m m_locked m_waiters]; [|..]; try done.
    + setoid_rewrite Hholds. by rewrite <- H1.
    + intros u v. rewrite !Hholds. apply H2.
    + intros u. rewrite elem_of_app, list_elem_of_singleton, H3, waits_set_task.
      assert (waits_for tk' p) by done. destruct (decide (u = t)) as [->|].
      * split; auto.
      * split; [intros [|]; by auto|intros [[]|[]]; by auto].
    + apply NoDup_app. split_and!; [done| |apply NoDup_singleton].
      intros u Hu ->%list_elem_of_singleton. by apply H3, Hnw in Hu.
  - apply (mutex_ok_same s); [| | |apply (Hm q)].
    + rewrite mutexFor_set_task, mutexFor_set_mutex. by rewrite bool_decide_false.
    + intros u. apply Hholds.
    + intros u. apply (waits_set_same (set_mutex p m s) t tk); [done|]. split.
      * intros [_ Hq]. simpl in Hq. congruence.
      * intros Hq. exfalso. apply (Hnw q). by rewrite (waits_at s t tk).
Qed.

(** What releasing does to the releasing task. *)
Lemma release_held tk k p :
  task_wf tk -> t_index tk = S k -> t_paths tk !! k = Some p ->
  let tk' := mkTask (t_paths tk) k Unwinding in
  task_wf tk' /\ (forall q, q ∈ held tk <-> q ∈ held tk' \/ q = p) /\ p ∉ held tk'.
Proof.
  intros (Hs & Hi & _) Ek Hp tk'.
  assert (Hwf : task_wf tk') by (unfold task_wf, tk'; simpl; split_and!; [done|lia|done]).
  split; [done|]. split; [|by apply next_not_held].
  intros q. unfold held, tk'. simpl. rewrite Ek, (take_S_r _ _ p) by done. set_solver.
Qed.

Lemma release_free s t tk k p :
  inv s -> s_tasks s !! t = Some tk -> t_phase tk = Unwinding -> t_index tk = S k ->
  t_paths tk !! k = Some p -> m_waiters (mutexFor s p) = [] ->
  inv (set_task t (mkTask (t_paths tk) k Unwinding) (set_mutex p (mkMutex false []) s)).
Proof.
  intros [Ht Hm] E Hu Ek Hp Hw. set (tk' := mkTask _ _ _).
  destruct (release_held tk k p (Ht t tk E) Ek Hp) as (Hwf & Hh & Hn). fold tk' in Hwf, Hh, Hn.
  assert (Hmine : holds s t p) by (rewrite (holds_at s t tk) by done; apply Hh; auto).
  assert (Hwaits : forall u q, waits (set_task t tk' (set_mutex p (mkMutex false []) s)) u q <-> waits s u q).
  { intros u q. apply (waits_set_same (set_mutex p (mkMutex false []) s) t tk); [done|].
    apply never_waits; [by rewrite Hu|done]. }
  split; [by apply map_Forall_insert_2|].
  intros q. destruct (decide (q = p)) as [->|Hne].
  - pose proof (Hm p) as [H1 H2 H3 H4 H5].
    assert (Hm' : mutexFor (set_task t tk' (set_mutex p (mkMutex false []) s)) p = mkMutex false []).
    { rewrite mutexFor_set_task, mutexFor_set_mutex. by rewrite bool_decide_true. }
    assert (Hnone : forall u, ~ holds (set_task t tk' (set_mutex p (mkMutex false []) s)) u p).
    { intros u. rewrite holds_set_task. intros [[_ ?]|[Hne Hu']]; [done|]. by apply Hne, (H2 u t). }
    split; rewrite ?Hm'; simpl; [|..]; try done.
    + split; [done|]. by intros [u ?%Hnone].
    + intros u v Hu'. by apply Hnone in Hu'.
    + intros u. rewrite Hwaits, <- H3, Hw. done.
    + constructor.
  - apply (mutex_ok_same s); [| | |apply (Hm q)].
    + rewrite mutexFor_set_task, mutexFor_set_mutex. by rewrite bool_decide_false.
    + intros u. apply (holds_set_same (set_mutex p (mkMutex false []) s) t tk); [done|]. rewrite Hh.
      split; [auto|by intros [|]].
    + intros u. apply Hwaits.
Qed.

Lemma release_handover s t tk k p w rest :
  inv s -> s_tasks s !! t = Some tk -> t_phase tk = Unwinding -> t_index tk = S k ->
  t_paths tk !! k = Some p -> m_waiters (mutexFor s p) = w :: rest ->
  inv (resume w (set_task t (mkTask (t_paths tk) k Unwinding)
                   (set_mutex p (mkMutex (m_locked (mutexFor s p)) rest) s))).
Proof.
  intros [Ht Hm] E Hu Ek Hp Hw. set (tk' := mkTask _ _ Unwinding). set (m := mkMutex _ rest).
  destruct (release_held tk k p (Ht t tk E) Ek Hp) as (Hwf & Hh & Hn). fold tk' in Hwf, Hh, Hn.
  pose proof (Hm p) as [H1 H2 H3 H4 H5].
  assert (Hmine : holds s t p) by (rewrite (holds_at s t tk) by done; apply Hh; auto).
  assert (Hww : waits s w p) by (apply H3; rewrite Hw; by left).
  assert (Hwt : w <> t).
  { intros ->. revert Hww. rewrite (waits_at s t tk) by done. by apply (not_waiting_going _ _ Unwinding). }
  destruct Hww as (wk & Ew & Hwait & Hwp). pose proof (Ht w wk Ew) as Hwwf.
  unfold resume. cbn [set_task set_mutex s_tasks]. rewrite lookup_insert_ne, Ew by done.
  set (wk' := mkTask (t_paths wk) (S (t_index wk)) Going).
  set (s1 := set_task t tk' (set_mutex p m s)).
  change (inv (set_task w wk' s1)).
  assert (Ew1 : s_tasks s1 !! w = Some wk).
  { unfold s1. cbn [set_task set_mutex s_tasks]. by rewrite lookup_insert_ne. }
  assert (Hwh : forall q, q ∈ held wk' <-> q ∈ held wk \/ q = p).
  { intros q. unfold wk'. rewrite (held_S wk p) by done. set_solver. }
  assert (Hwaits1 : forall u q, waits s1 u q <-> waits s u q).
  { intros u q. apply (waits_set_same (set_mutex p m s) t tk); [done|].
    apply never_waits; [by rewrite Hu|done]. }
  split.
  { apply map_Forall_insert_2.
    - destruct Hwwf as (? & ? & ?). unfold task_wf, wk'. simpl.
      apply lookup_lt_Some in Hwp. split_and!; [done|lia|done].
    - by apply map_Forall_insert_2. }
  intros q. destruct (decide (q = p)) as [->|Hne].
  - assert (Hm' : mutexFor (set_task w wk' s1) p = m).
    { unfold s1. rewrite !mutexFor_set_task, mutexFor_set_mutex. by rewrite bool_decide_true. }
    assert (Hholds : forall u, holds (set_task w wk' s1) u p <-> u = w).
    { intros u. rewrite holds_set_task, Hwh. split; [|intros ->; auto].
      intros [[? _]|[_ Hu1]]; [done|]. exfalso. unfold s1 in Hu1. rewrite holds_set_task in Hu1.
      destruct Hu1 as [[_ ?]|[Hne' Hu1]]; [done|]. by apply Hne', (H2 u t). }
    assert (Hl : m_locked (mutexFor s p) = true) by (apply H1; eauto).
    rewrite Hw in H4. apply NoDup_cons in H4 as [Hwr Hrest].
    split; rewrite ?Hm'; unfold m; cbn [m_locked m_waiters]; rewrite ?Hl; [|..]; try done.
    + split; [intros _; exists w; by apply Hholds|done].
    + intros u v. rewrite !Hholds. congruence.
    + intros u. rewrite waits_set_task, Hwaits1, <- H3, Hw, elem_of_cons. split.
      * intros Hin. right. split; [|auto]. by intros ->.
      * by intros [[-> [Hx _]]|[? [?|?]]].
  - apply (mutex_ok_same s); [| | |apply (Hm q)].
    + unfold s1. rewrite !mutexFor_set_task, mutexFor_set_mutex. by rewrite bool_decide_false.
    + intros u. rewrite (holds_set_same s1 w wk) by (done || (rewrite Hwh; split; [by intros [|]|auto])).
      apply (holds_set_same (set_mutex p m s) t tk); [done|]. rewrite Hh. split; [auto|by intros [|]].
    + intros u. rewrite <- Hwaits1. apply (waits_set_same s1 w wk); [done|]. split; [by intros [? _]|].
      intros [_ Hq]. congruence.
Qed.

Lemma step_inv s t e s' : inv s -> step s t e = Some s' -> inv s'.
Proof.
  intros Hi. unfold step. destruct (s_tasks s !! t) as [tk|] eqn:E; [|done].
  destruct (t_phase tk) eqn:Ep, e; try done.
  - unfold step_acquire. destruct (t_paths tk !! t_index tk) as [p|] eqn:Hp; [|done].
    unfold mutex_acquire. destruct (m_locked (mutexFor s p)) eqn:Hl; simpl; intros [= <-].
    + rewrite <- Hl. rewrite Hl at 1. by apply acquire_wait.
    + by apply acquire_free.
  - case_match; [|done]. intros [= <-]. pose proof (inv_tasks s Hi t tk E) as (? & ? & ?).
    apply (set_task_inv s t tk); try done. by rewrite Ep.
  - unfold step_release. destruct (t_index tk) as [|k] eqn:Ek; [done|].
    destruct (t_paths tk !! k) as [p|] eqn:Hp; [|done]. unfold mutex_release.
    destruct (m_waiters (mutexFor s p)) as [|w rest] eqn:Hw; intros [= <-].
    + by apply (release_free s t tk).
    + by apply (release_handover s t tk).
Qed.

Lemma reachable_inv resolve s : reachable resolve s -> inv s.
Proof.
  induction 1 as [|s t paths _ Hi Hfresh|s t e s' _ Hi Hs].
  - split; [done|]. intros p. split; simpl; try done.
    + split; [done|]. intros (t & tk & Hl & _). simpl in Hl. done.
    + intros t u (tk & Hl & _). done.
    + intros t. split; [by intros ?%elem_of_nil|]. intros (tk & Hl & _). done.
    + constructor.
  - destruct Hi as [Ht Hm]. split.
    + apply map_Forall_insert_2; [|done]. split; [apply lock_order_sorted|]. simpl. split; [lia|done].
    + intros p. assert (Hno : forall q, ~ holds s t q) by (intros q (tk & Hl & _); congruence).
      assert (Hnw : forall q, ~ waits s t q) by (intros q (tk & Hl & _); congruence).
      apply (mutex_ok_same s); [done| | |apply Hm]; intros u.
      * rewrite holds_set_task. unfold held. simpl. rewrite elem_of_nil.
        split; [by intros [[]|[]]|]. intros Hu. right. split; [|done]. by intros ->; apply Hno in Hu.
      * rewrite waits_set_task. split; [by intros [[_ [? _]]|[]]|].
        intros Hu. right. split; [|done]. by intros ->; apply Hnw in Hu.
  - by eapply step_inv.
Qed.

(** ** Exclusion *)

(** C34: no two edits ever hold the lock of one path at the same time, in any
    interleaving of any calls, and also when an edit fails or gives up on a lock;
    and a task that waits for a path is in the queue of that path's mutex, once, so
    that no wake-up is lost. *)
Theorem path_locks_exclusive resolve s p :
  reachable resolve s ->
  (forall t u, holds s t p -> holds s u p -> t = u)
  /\ NoDup (m_waiters (mutexFor s p))
  /\ (forall t, t ∈ m_waiters (mutexFor s p) <-> waits s t p)
  /\ (m_waiters (mutexFor s p) <> [] -> exists t, holds s t p).
Proof.
  intros Hr. destruct (inv_mutexes s (reachable_inv resolve s Hr) p) as [H1 H2 H3 H4 H5].
  split_and!; [done|done|done|]. intros Hw. apply H1.
  destruct (m_locked (mutexFor s p)); [done|]. by rewrite H5 in Hw.
Qed.

(** ** Progress *)

Definition str_ltb (a b : jsstring) : bool := str_leb a b && negb (bool_decide (a = b)).

Lemma str_ltb_lt a b : str_ltb a b = true <-> str_lt a b.
Proof.
  unfold str_ltb, str_lt. rewrite andb_true_iff, negb_true_iff, bool_decide_eq_false. done.
Qed.

Lemma str_lt_trans a b c : str_lt a b -> str_lt b c -> str_lt a c.
Proof.
  intros [H1 N1] [H2 N2]. split; [by eapply str_leb_trans|]. intros ->.
  apply N1. by apply str_leb_antisym.
Qed.

Lemma filter_shrinks {A} (f g : A -> bool) (l : list A) x :
  (forall y, g y = true -> f y = true) -> x ∈ l -> f x = true -> g x = false ->
  length (List.filter g l) < length (List.filter f l).
Proof.
  intros Hgf Hin Hf Hg.
  assert (Hle : forall k, length (List.filter g k) <= length (List.filter f k)).
  { induction k as [|y k IH]; simpl; [lia|]. specialize (Hgf y).
    destruct (g y), (f y); simpl; (lia || by discriminate Hgf). }
  induction l as [|y l IH]; [by apply elem_of_nil in Hin|]. simpl. specialize (Hle l).
  apply elem_of_cons in Hin as [<-|Hin]; [rewrite Hf, Hg; simpl; lia|].
  specialize (IH Hin). specialize (Hgf y). destruct (g y), (f y); simpl; (lia || by discriminate Hgf).
Qed.

(** A task that is not waiting and not done can move. *)
Lemma can_move s t tk :
  inv s -> s_tasks s !! t = Some tk -> t_phase tk <> Waiting -> done tk = false ->
  exists e s', step s t e = Some s'.
Proof.
  intros Hi E Hp Hd. destruct (inv_tasks s Hi t tk E) as (_ & Hle & _).
  unfold step. rewrite E. unfold done in Hd. destruct (t_phase tk) eqn:Ep; [|done|].
  - destruct (decide (t_index tk = length (t_paths tk))) as [Hlen|Hlen].
    + exists Finish. rewrite (proj2 (Nat.eqb_eq _ _) Hlen). by eexists.
    + exists Acquire. unfold step_acquire.
      destruct (lookup_lt_is_Some_2 (t_paths tk) (t_index tk)) as [p ->]; [lia|].
      destruct (mutex_acquire _ _). by eexists.
  - exists Release. unfold step_release. destruct (t_index tk) as [|k] eqn:Ek; [done|].
    destruct (lookup_lt_is_Some_2 (t_paths tk) k) as [p ->]; [lia|].
    destruct (mutex_release _). by eexists.
Qed.

Definition all_paths (s : system) : list jsstring := map_to_list (s_tasks s) ≫= fun kv => t_paths kv.2.

Lemma elem_of_all_paths s t tk p : s_tasks s !! t = Some tk -> p ∈ t_paths tk -> p ∈ all_paths s.
Proof.
  intros E Hp. apply list_elem_of_bind. exists (t, tk). split; [done|]. by apply elem_of_map_to_list.
Qed.

(** Whoever waits for a path, somebody can move: the holder, or, if the holder waits
    too, the holder of a greater path. *)
Lemma waiting_progress s n t p :
  inv s -> waits s t p -> length (List.filter (str_ltb p) (all_paths s)) <= n ->
  exists u e s', step s u e = Some s'.
Proof.
  intros Hi. revert t p. induction n as [|n IH]; intros t p Hw Hn.
  all: destruct (inv_mutexes s Hi p) as [H1 H2 H3 H4 H5].
  all: assert (m_locked (mutexFor s p) = true) as Hl by
    (destruct (m_locked (mutexFor s p)) eqn:El; [done|]; apply H3 in Hw; rewrite (H5 eq_refl) in Hw;
     by apply elem_of_nil in Hw).
  all: apply H1 in Hl as (u & uk & Eu & Hheld).
  all: assert (Hnd : done uk = false) by
    (unfold done; destruct (t_index uk) eqn:Ei;
     [unfold held in Hheld; rewrite Ei in Hheld; by apply elem_of_nil in Hheld|apply andb_false_r]).
  all: destruct (decide (t_phase uk = Waiting)) as [Hwait|Hgo];
    [|destruct (can_move s u uk Hi Eu Hgo Hnd) as (e & s' & ?); by exists u, e, s'].
  all: destruct (inv_tasks s Hi u uk Eu) as (Hs & _ & Hlt).
  all: destruct (lookup_lt_is_Some_2 (t_paths uk) (t_index uk)) as [q Hq]; [by apply Hlt|].
  all: assert (Hpq : str_lt p q) by
    (apply list_elem_of_lookup in Hheld as [i Hi']; unfold held in Hi';
     apply lookup_take_Some in Hi' as [Hi' Hik]; exact (sorted_lt _ _ _ _ _ Hs Hik Hi' Hq)).
  all: assert (Hshrink : length (List.filter (str_ltb q) (all_paths s))
                         < length (List.filter (str_ltb p) (all_paths s))) by
    (apply (filter_shrinks _ _ _ q);
     [intros y; rewrite !str_ltb_lt; by apply str_lt_trans
     |by apply (elem_of_all_paths s u uk), list_elem_of_lookup_2 with (t_index uk)
     |by apply str_ltb_lt
     |unfold str_ltb; rewrite bool_decide_true by done; apply andb_false_r]).
  - lia.
  - apply (IH u q); [by exists uk|]. lia.
Qed.

Lemma stuck_done s t tk :
  inv s -> (forall u e, step s u e = None) -> s_tasks s !! t = Some tk -> done tk = true.
Proof.
  intros Hi Hstuck E. destruct (done tk) eqn:Hd; [done|]. exfalso.
  destruct (decide (t_phase tk = Waiting)) as [Hw|Hgo].
  - destruct (inv_tasks s Hi t tk E) as (_ & _ & Hlt).
    destruct (lookup_lt_is_Some_2 (t_paths tk) (t_index tk)) as [p Hp]; [by apply Hlt|].
    destruct (waiting_progress s _ t p Hi ltac:(by exists tk) (Nat.le_refl _)) as (u & e & s' & Hs).
    by rewrite Hstuck in Hs.
  - destruct (can_move s t tk Hi E Hgo Hd) as (e & s' & Hs). by rewrite Hstuck in Hs.
Qed.

(** ** Termination *)

(** The steps a task has left, at most. *)
Definition work_of (tk : task) : nat :=
  match t_phase tk with
  | Going => 3 * (length (t_paths tk) - t_index tk) + t_index tk + 2
  | Waiting => 3 * (length (t_paths tk) - t_index tk) + t_index tk + 1
  | Unwinding => t_index tk
  end.

Definition work (s : system) : nat := map_fold (fun _ tk n => work_of tk + n) 0 (s_tasks s).

Lemma work_set s t tk tk' :
  s_tasks s !! t = Some tk -> work (set_task t tk' s) + work_of tk = work s + work_of tk'.
Proof.
  intros E. unfold work, set_task. cbn [s_tasks]. rewrite <- (insert_id (s_tasks s) t tk) at 2 by done.
  rewrite <- !insert_delete_eq with (m := s_tasks s).
  rewrite !map_fold_insert_L; try apply lookup_delete_eq; [lia|..]; intros; lia.
Qed.

Lemma step_works s t e s' : inv s -> step s t e = Some s' -> work s' < work s.
Proof.
  intros Hi. unfold step. destruct (s_tasks s !! t) as [tk|] eqn:E; [|done].
  destruct (inv_tasks s Hi t tk E) as (_ & Hle & _).
  assert (Hset : forall m p tk', work_of tk' < work_of tk -> work (set_task t tk' (set_mutex p m s)) < work s).
  { intros m p tk' Hlt. pose proof (work_set (set_mutex p m s) t tk tk' E) as Hw.
    change (work (set_mutex p m s)) with (work s) in Hw. lia. }
  destruct (t_phase tk) eqn:Ep, e; try done.
  - unfold step_acquire. destruct (t_paths tk !! t_index tk) as [p|] eqn:Hp; [|done].
    apply lookup_lt_Some in Hp. unfold mutex_acquire. destruct (negb _); intros [= <-]; apply Hset;
      unfold work_of; rewrite Ep; cbn [t_phase t_index t_paths]; lia.
  - case_match; [|done]. intros [= <-].
    pose proof (work_set s t tk (mkTask (t_paths tk) (t_index tk) Unwinding) E) as Hw.
    unfold work_of in Hw. rewrite Ep in Hw. cbn [t_phase t_index t_paths] in Hw. lia.
  - unfold step_release. destruct (t_index tk) as [|k] eqn:Ek; [done|].
    destruct (t_paths tk !! k) as [p|] eqn:Hp; [|done]. unfold mutex_release.
    assert (Hk : work_of (mkTask (t_paths tk) k Unwinding) < work_of tk).
    { unfold work_of. rewrite Ep, Ek. cbn [t_phase t_index]. lia. }
    destruct (m_waiters (mutexFor s p)) as [|w rest] eqn:Hw; intros [= <-]; [by apply Hset|].
    set (s1 := set_task t _ _). assert (Hs1 : work s1 < work s) by (by apply Hset).
    unfold resume. destruct (s_tasks s1 !! w) as [wk|] eqn:Ew; [|done].
    assert (Hwait : waits s w p) by (apply (mo_waiters s p (inv_mutexes s Hi p)); rewrite Hw; by left).
    destruct Hwait as (wk0 & Ew0 & Hph & Hwp). assert (w <> t) by congruence.
    unfold s1, set_task, set_mutex in Ew. cbn [s_tasks] in Ew. rewrite lookup_insert_ne, Ew0 in Ew by done.
    injection Ew as <-. apply lookup_lt_Some in Hwp.
    pose proof (work_set s1 w wk0 (mkTask (t_paths wk0) (S (t_index wk0)) Going)) as Hsum.
    rewrite <- Hs1. revert Hsum. unfold work_of at 1 2. rewrite Hph. cbn [t_phase t_index t_paths].
    intros Hsum. specialize (Hsum ltac:(unfold s1, set_task, set_mutex; cbn [s_tasks]; by rewrite lookup_insert_ne)).
    lia.
Qed.

Inductive run : system -> nat -> system -> Prop :=
| run_nil s : run s 0 s
| run_cons s t e s1 n s2 : step s t e = Some s1 -> run s1 n s2 -> run s (S n) s2.

Lemma run_facts s n s' : inv s -> run s n s' -> inv s' /\ n + work s' <= work s.
Proof.
  intros Hi Hr. induction Hr as [s|s t e s1 n s2 Hs Hr IH]; [split; [done|lia]|].
  pose proof (step_works _ _ _ _ Hi Hs). destruct (IH (step_inv _ _ _ _ Hi Hs)). split; [done|lia].
Qed.

(** C33: edits never deadlock: from any reachable state, and as long as the edited
    functions end, the started calls can make only so many steps, and when none of
    them can move any more they are all done and every mutex is free, whatever sets
    of paths they lock and in whatever order the scheduler runs them. *)
Theorem path_locks_no_deadlock resolve s n s' :
  reachable resolve s -> run s n s' ->
  n <= work s
  /\ ((forall t e, step s' t e = None) ->
      (forall t tk, s_tasks s' !! t = Some tk -> done tk = true)
      /\ forall p, m_locked (mutexFor s' p) = false /\ m_waiters (mutexFor s' p) = []).
Proof.
  intros Hreach Hrun. destruct (run_facts s n s' (reachable_inv _ _ Hreach) Hrun) as [Hi Hn].
  split; [lia|]. intros Hstuck.
  assert (Hdone : forall t tk, s_tasks s' !! t = Some tk -> done tk = true).
  { intros t tk E. by apply (stuck_done s' t). }
  split; [done|]. intros p. destruct (inv_mutexes s' Hi p) as [H1 _ _ _ H5].
  assert (Hfree : m_locked (mutexFor s' p) = false); [|by auto].
  apply not_true_iff_false. rewrite H1. intros (t & tk & E & Hin).
  specialize (Hdone t tk E). unfold done in Hdone. apply andb_prop in Hdone as [_ Hz%Nat.eqb_eq].
  unfold held in Hin. rewrite Hz in Hin. by apply elem_of_nil in Hin.
Qed.

(** ** Examples: two edits of the same two files, named in opposite orders *)

Definition after (s : system) (moves : list (nat * event)) : system :=
  fold_left (fun s m => default s (step s m.1 m.2)) moves s.

Fixpoint all_move (s : system) (moves : list (nat * event)) : bool :=
  match moves with
  | [] => true
  | m :: rest => match step s m.1 m.2 with Some s' => all_move s' rest | None => false end
  end.

Lemma run_after s moves : all_move s moves = true -> run s (length moves) (after s moves).
Proof.
  revert s. induction moves as [|m moves IH]; intros s; simpl; [constructor|].
  destruct (step s m.1 m.2) as [s'|] eqn:E; [|done]. intros Ha. eapply run_cons; [exact E|]. by apply IH.
Qed.

Definition two_edits : system :=
  set_task 1 (withEditPathMutation id [js "/b"; js "/a"])
    (set_task 0 (withEditPathMutation id [js "/a"; js "/b"; js "/a"]) (mkSystem ∅ ∅)).

Lemma two_edits_reachable : reachable id two_edits.
Proof. apply reach_call; [apply reach_call; [constructor|reflexivity]|reflexivity]. Qed.

(** The second edit waits for the first path while the first holds it. *)
Lemma path_locks_exclusive_witness :
  let s := after two_edits [(0, Acquire); (1, Acquire)] in
  m_waiters (mutexFor s (js "/a")) = [1] /\ (exists t, holds s t (js "/a"))
  /\ forall t u, holds s t (js "/a") -> holds s u (js "/a") -> t = u.
Proof.
  intros s.
  assert (Hr : reachable id s).
  { apply (reach_step id (after two_edits [(0, Acquire)]) 1 Acquire); [|vm_compute; reflexivity].
    apply (reach_step id two_edits 0 Acquire); [exact two_edits_reachable|vm_compute; reflexivity]. }
  destruct (path_locks_exclusive id s (js "/a") Hr) as (Hex & _ & _ & Hheld).
  split; [vm_compute; reflexivity|]. split; [|exact Hex]. apply Hheld. vm_compute. discriminate.
Defined.

Lemma path_locks_no_deadlock_witness :
  let moves := [(0, Acquire); (1, Acquire); (0, Acquire); (0, Finish); (0, Release); (0, Release);
                (1, Acquire); (1, Finish); (1, Release); (1, Release)] in
  let s := after two_edits moves in
  length moves <= work two_edits /\ forall p, m_locked (mutexFor s p) = false.
Proof.
  intros moves s.
  assert (Hrun : run two_edits (length moves) s) by (apply run_after; vm_compute; reflexivity).
  destruct (path_locks_no_deadlock id two_edits (length moves) s two_edits_reachable Hrun) as [Hn Hend].
  split; [exact Hn|]. intros p. apply Hend. intros t e. unfold step.
  assert (Es : s_tasks s = <[1 := mkTask [js "/a"; js "/b"] 0 Unwinding]>
                             (<[0 := mkTask [js "/a"; js "/b"] 0 Unwinding]> ∅)) by (vm_compute; reflexivity).
  rewrite Es. destruct t as [|[|t]]; [destruct e; reflexivity|destruct e; reflexivity|].
  rewrite !lookup_insert_ne by done. reflexivity.
Defined.
