(* ===== verification/RateLimitPool.v ===== *)
(** * The shared rate-limit pool (sdk/bus/rate-limit-pool.ts)

    All sessions of a host share one bot: a token bucket bounds how many messages
    are sent, and a scheduler decides which queued item gets the next token.  Tokens
    are counted in thousandths, so that a refill of whole tokens per second is exact
    at every millisecond; settlements are promises, modelled by the set of those
    that are pending and the list of those that were resolved. *)

From S2P Require Import Prelude JsText.

Inductive RateLimitLane := LaneAsk | LaneFinalized | LaneLive | LaneIdle.

#[export] Instance RateLimitLane_eq_dec : EqDecision RateLimitLane.
Proof. solve_decision. Defined.

Definition LANE_PRIORITY : list RateLimitLane := [LaneAsk; LaneFinalized; LaneLive; LaneIdle].

Inductive RateLimitDisposition := DAccepted | DRejected | DAmbiguous | DRemoved | DExpired.

Inductive RateLimitError := UnknownItem (itemId : jsstring).

Section pool.
Context {T : Type}.

Record RateLimitItem := mkItem {
  it_sessionId : jsstring;
  it_lane : RateLimitLane;
  it_coalesceKey : option jsstring;
  it_itemId : option jsstring;
  it_deadlineAt : option Z;
  it_payload : T
}.

Record QueuedItem := mkQueued { q_item : RateLimitItem; q_seq : Z }.

Record RateLimitPool := mkPool {
  p_capacity : Z;
  p_refillPerSec : Z;
  p_lanes : RateLimitLane -> list QueuedItem;
  p_laneCursor : RateLimitLane -> nat;
  p_tokens : Z;
  p_lastRefill : Z;
  p_settlements : gset jsstring;
  p_settled : list (jsstring * RateLimitDisposition);
  p_seqCounter : Z
}.

Definition new_pool (capacity refillPerSec : option Z) (now : Z) : RateLimitPool :=
  let capacity := (1000 * Z.max 1 (default 20 capacity))%Z in
  mkPool capacity (Z.max 0 (default 1%Z refillPerSec)) (fun _ => []) (fun _ => 0) capacity now ∅ [] 0.

Definition set_lane (l : RateLimitLane) (q : list QueuedItem) (p : RateLimitPool) : RateLimitPool :=
  mkPool (p_capacity p) (p_refillPerSec p)
    (fun l' => if bool_decide (l' = l) then q else p_lanes p l')
    (p_laneCursor p) (p_tokens p) (p_lastRefill p) (p_settlements p) (p_settled p) (p_seqCounter p).

Definition set_cursor (l : RateLimitLane) (n : nat) (p : RateLimitPool) : RateLimitPool :=
  mkPool (p_capacity p) (p_refillPerSec p) (p_lanes p)
    (fun l' => if bool_decide (l' = l) then n else p_laneCursor p l')
    (p_tokens p) (p_lastRefill p) (p_settlements p) (p_settled p) (p_seqCounter p).

Definition set_tokens (tokens lastRefill : Z) (p : RateLimitPool) : RateLimitPool :=
  mkPool (p_capacity p) (p_refillPerSec p) (p_lanes p) (p_laneCursor p) tokens lastRefill
    (p_settlements p) (p_settled p) (p_seqCounter p).

Definition set_settlements (s : gset jsstring) (log : list (jsstring * RateLimitDisposition))
    (p : RateLimitPool) : RateLimitPool :=
  mkPool (p_capacity p) (p_refillPerSec p) (p_lanes p) (p_laneCursor p) (p_tokens p) (p_lastRefill p)
    s log (p_seqCounter p).

Definition next_seq (p : RateLimitPool) : RateLimitPool :=
  mkPool (p_capacity p) (p_refillPerSec p) (p_lanes p) (p_laneCursor p) (p_tokens p) (p_lastRefill p)
    (p_settlements p) (p_settled p) (p_seqCounter p + 1).

(** ** Queries *)

Definition pending (p : RateLimitPool) : nat :=
  foldr (fun l n => length (p_lanes p l) + n) 0 LANE_PRIORITY.

Definition someQueued (predicate : RateLimitItem -> bool) (p : RateLimitPool) : bool :=
  existsb (fun l => existsb (fun q => predicate (q_item q)) (p_lanes p l)) LANE_PRIORITY.

Definition refill (nowMs : Z) (p : RateLimitPool) : RateLimitPool :=
  if (nowMs <=? p_lastRefill p)%Z then p
  else set_tokens (Z.min (p_capacity p) (p_tokens p + (nowMs - p_lastRefill p) * p_refillPerSec p)) nowMs p.

Definition availableTokens (nowMs : Z) (p : RateLimitPool) : Z * RateLimitPool :=
  let p := refill nowMs p in (p_tokens p, p).

(** ** Settlements *)

Definition settle (itemId : jsstring) (d : RateLimitDisposition) (p : RateLimitPool) : RateLimitPool :=
  if bool_decide (itemId ∈ p_settlements p)
  then set_settlements (p_settlements p ∖ {[itemId]}) (p_settled p ++ [(itemId, d)]) p
  else p.

Definition markSending (itemId : jsstring) (p : RateLimitPool) : result RateLimitError unit :=
  if bool_decide (itemId ∈ p_settlements p) then Ok () else Err (UnknownItem itemId).

Definition handle (itemId : jsstring) (p : RateLimitPool) : RateLimitPool :=
  set_settlements (p_settlements p ∪ {[itemId]}) (p_settled p) p.

(** The identifier of a queued item, which always has one. *)
Definition item_id (it : RateLimitItem) : jsstring := default [] (it_itemId it).

(** ** Submitting *)

Definition with_id (id : jsstring) (it : RateLimitItem) : RateLimitItem :=
  mkItem (it_sessionId it) (it_lane it) (it_coalesceKey it) (Some id) (it_deadlineAt it) (it_payload it).

(** [q.item.sessionId === item.sessionId && q.item.coalesceKey === item.coalesceKey] *)
Definition same_slot (it : RateLimitItem) (q : QueuedItem) : bool :=
  bool_decide (it_sessionId (q_item q) = it_sessionId it)
  && bool_decide (it_coalesceKey (q_item q) = it_coalesceKey it).

(** The first queued item of the slot and the queue with [it] in its place. *)
Fixpoint replace_slot (it : RateLimitItem) (queue : list QueuedItem)
    : option (RateLimitItem * list QueuedItem) :=
  match queue with
  | [] => None
  | q :: rest =>
      if same_slot it q then Some (q_item q, mkQueued it (q_seq q) :: rest)
      else match replace_slot it rest with
           | Some (old, rest') => Some (old, q :: rest')
           | None => None
           end
  end.

Definition submit (it : RateLimitItem) (p : RateLimitPool) : jsstring * RateLimitPool :=
  match it_itemId it with
  | Some id =>
      let q := p_lanes p (it_lane it) ++ [mkQueued it (p_seqCounter p)] in
      (id, handle id (next_seq (set_lane (it_lane it) q p)))
  | None =>
      let id := js "rate-limit:" ++ num_to_string (p_seqCounter p) in
      let p := next_seq p in
      let it := with_id id it in
      let queue := p_lanes p (it_lane it) in
      let pushed := set_lane (it_lane it) (queue ++ [mkQueued it (p_seqCounter p - 1)]) p in
      match it_coalesceKey it with
      | None => (id, handle id pushed)
      | Some _ =>
          match replace_slot it queue with
          | Some (old, queue') => (id, handle id (set_lane (it_lane it) queue' (settle (item_id old) DRemoved p)))
          | None => (id, handle id pushed)
          end
      end
  end.

(** ** Removing *)

Definition settle_all (d : RateLimitDisposition) (items : list RateLimitItem) (p : RateLimitPool)
    : RateLimitPool :=
  fold_left (fun p it => settle (item_id it) d p) items p.

(** One lane of [removeWhere]: what goes and what stays, both in queue order. *)
Definition remove_lane (predicate : RateLimitItem -> bool) (d : RateLimitDisposition)
    (st : list RateLimitItem * RateLimitPool) (l : RateLimitLane) : list RateLimitItem * RateLimitPool :=
  let (removed, p) := st in
  let queue := p_lanes p l in
  let gone := q_item <$> List.filter (fun q => predicate (q_item q)) queue in
  let stay := List.filter (fun q => negb (predicate (q_item q))) queue in
  (removed ++ gone, set_lane l stay (settle_all d gone p)).

Definition removeWhere (predicate : RateLimitItem -> bool) (d : RateLimitDisposition) (p : RateLimitPool)
    : list RateLimitItem * RateLimitPool :=
  fold_left (remove_lane predicate d) LANE_PRIORITY ([], p).

(** The first element that satisfies [f], and the list without it. *)
Fixpoint take_first {A} (f : A -> bool) (l : list A) : option (A * list A) :=
  match l with
  | [] => None
  | x :: rest => if f x then Some (x, rest)
                 else match take_first f rest with
                      | Some (y, rest') => Some (y, x :: rest')
                      | None => None
                      end
  end.

Fixpoint remove_by_id (lanes : list RateLimitLane) (itemId : jsstring) (p : RateLimitPool)
    : option RateLimitItem * RateLimitPool :=
  match lanes with
  | [] => (None, p)
  | l :: rest =>
      match take_first (fun q => bool_decide (it_itemId (q_item q) = Some itemId)) (p_lanes p l) with
      | Some (q, queue') => (Some (q_item q), settle (item_id (q_item q)) DRemoved (set_lane l queue' p))
      | None => remove_by_id rest itemId p
      end
  end.

Definition removeById (itemId : jsstring) (p : RateLimitPool) : option RateLimitItem * RateLimitPool :=
  remove_by_id LANE_PRIORITY itemId p.

(** ** Scheduling *)

Definition add_session (acc : list jsstring) (q : QueuedItem) : list jsstring :=
  if bool_decide (it_sessionId (q_item q) ∈ acc) then acc else acc ++ [it_sessionId (q_item q)].

(** The distinct sessions in queue order. *)
Definition sessions_of (queue : list QueuedItem) : list jsstring := fold_left add_session queue [].

Definition findIndex {A} (f : A -> bool) (l : list A) : option nat :=
  fst <$> list_find (fun x => f x = true) l.

(** The loop over the offsets: the index to serve and the new cursor. *)
Fixpoint pick_from (sessions : list jsstring) (cursor offset fuel : nat) (queue : list QueuedItem)
    : option (nat * nat) :=
  match fuel with
  | O => None
  | S f =>
      let candidate := default [] (sessions !! ((cursor + offset) mod length sessions)%nat) in
      match findIndex (fun q => bool_decide (it_sessionId (q_item q) = candidate)) queue with
      | Some idx => Some (idx, ((cursor + offset + 1) mod length sessions)%nat)
      | None => pick_from sessions cursor (S offset) f queue
      end
  end.

Definition pickFairIndex (l : RateLimitLane) (queue : list QueuedItem) (p : RateLimitPool)
    : nat * RateLimitPool :=
  let sessions := sessions_of queue in
  if (length sessions <=? 1)%nat then (0, p)
  else match pick_from sessions (p_laneCursor p l) 0 (length sessions) queue with
       | Some (idx, cursor) => (idx, set_cursor l cursor p)
       | None => (0, p)
       end.

(** The item that is served next, already out of its queue when [markSending]
    throws. *)
Fixpoint take_next (lanes : list RateLimitLane) (p : RateLimitPool)
    : result RateLimitError (option RateLimitItem) * RateLimitPool :=
  match lanes with
  | [] => (Ok None, p)
  | l :: rest =>
      match p_lanes p l with
      | [] => take_next rest p
      | _ :: _ =>
          let queue := p_lanes p l in
          let (picked, p1) := pickFairIndex l queue p in
          let p2 := set_lane l (delete picked queue) p1 in
          match queue !! picked with
          | None => (Ok None, p2)
          | Some q => (match markSending (item_id (q_item q)) p2 with
                       | Ok _ => Ok (Some (q_item q))
                       | Err e => Err e
                       end, p2)
          end
      end
  end.

Definition takeNext : RateLimitPool -> result RateLimitError (option RateLimitItem) * RateLimitPool :=
  take_next LANE_PRIORITY.

(** [while (tokens >= 1)]: each round takes an item out, so the number of queued
    items bounds the rounds. *)
Fixpoint grant_loop (fuel : nat) (granted : list RateLimitItem) (p : RateLimitPool)
    : result RateLimitError (list RateLimitItem) * RateLimitPool :=
  match fuel with
  | O => (Ok granted, p)
  | S f =>
      if (p_tokens p <? 1000)%Z then (Ok granted, p)
      else match takeNext p with
           | (Err e, p1) => (Err e, p1)
           | (Ok None, p1) => (Ok granted, p1)
           | (Ok (Some it), p1) =>
               grant_loop f (granted ++ [it]) (set_tokens (p_tokens p1 - 1000) (p_lastRefill p1) p1)
           end
  end.

Definition expired_at (nowMs : Z) (it : RateLimitItem) : bool :=
  match it_deadlineAt it with Some d => (d <=? nowMs)%Z | None => false end.

Record RateLimitDrainResult := mkDrain { dr_granted : list RateLimitItem; dr_expired : list RateLimitItem }.

Definition drainWithExpired (nowMs : Z) (p : RateLimitPool)
    : result RateLimitError RateLimitDrainResult * RateLimitPool :=
  let p := refill nowMs p in
  let (expired, p) := removeWhere (expired_at nowMs) DExpired p in
  let (granted, p) := grant_loop (S (pending p)) [] p in
  (match granted with Ok g => Ok (mkDrain g expired) | Err e => Err e end, p).

Definition drain (nowMs : Z) (p : RateLimitPool) : result RateLimitError (list RateLimitItem) * RateLimitPool :=
  let (r, p) := drainWithExpired nowMs p in
  (match r with Ok d => Ok (dr_granted d) | Err e => Err e end, p).

End pool.

Arguments RateLimitItem T : clear implicits.
Arguments QueuedItem T : clear implicits.
Arguments RateLimitPool T : clear implicits.
Arguments RateLimitDrainResult T : clear implicits.
