(* ===== verification/RateLimitFacts.v ===== *)
(** * What the shared rate-limit pool guarantees

    The scheduler of [RateLimitPool] against its contract: a drain expires exactly
    the elapsed items, grants the others by lane priority and first in first out per
    session, never leaves a token beside a queued item, and never exceeds the
    bucket's rate, in every run in which the callers keep identifiers apart. *)

From S2P Require Import Prelude JsText RateLimitPool.

(** ** Reading a pool *)

Section facts.
Context {T : Type}.
Implicit Types (p : RateLimitPool T) (it : RateLimitItem T) (queue : list (QueuedItem T)).

Definition lane_items p (l : RateLimitLane) : list (RateLimitItem T) := q_item <$> p_lanes p l.

Definition all_items p : list (RateLimitItem T) := LANE_PRIORITY ≫= lane_items p.

Definition of_session (s : jsstring) (its : list (RateLimitItem T)) : list (RateLimitItem T) :=
  List.filter (fun it => bool_decide (it_sessionId it = s)) its.

(** Every queued item has an identifier of its own with a pending settlement, and
    is in its lane. *)
Record pool_ok p : Prop := {
  ok_ids : NoDup (it_itemId <$> all_items p);
  ok_pending : Forall (fun it => exists id, it_itemId it = Some id /\ id ∈ p_settlements p) (all_items p);
  ok_lanes : forall l, Forall (fun it => it_lane it = l) (lane_items p l);
  ok_tokens : (0 <= p_tokens p <= p_capacity p)%Z;
  ok_refill : (0 <= p_refillPerSec p)%Z
}.

Lemma lane_in_priority l : l ∈ LANE_PRIORITY.
Proof. destruct l; set_solver. Qed.

Lemma NoDup_LANE_PRIORITY : NoDup LANE_PRIORITY.
Proof. by apply (bool_decide_unpack _). Qed.

Lemma elem_of_all_items p it : it ∈ all_items p <-> exists l, it ∈ lane_items p l.
Proof.
  unfold all_items. rewrite list_elem_of_bind. split.
  - intros (l & Hit & _). eauto.
  - intros (l & Hit). exists l. split; [done|apply lane_in_priority].
Qed.

Lemma lanes_set_lane l q p l' :
  p_lanes (set_lane l q p) l' = if bool_decide (l' = l) then q else p_lanes p l'.
Proof. done. Qed.

(** ** The sessions of a queue *)

Lemma add_session_mono queue acc :
  exists more, fold_left add_session queue acc = acc ++ more.
Proof.
  revert acc. induction queue as [|q queue IH]; intros acc; simpl; [exists []; by rewrite app_nil_r|].
  destruct (IH (add_session acc q)) as [more ->]. unfold add_session.
  case_bool_decide; [by exists more|]. rewrite <- (assoc_L app). by eexists.
Qed.

Lemma elem_of_sessions_acc queue acc s :
  s ∈ fold_left add_session queue acc
  <-> s ∈ acc \/ exists q, q ∈ queue /\ it_sessionId (@q_item T q) = s.
Proof.
  revert acc. induction queue as [|q queue IH]; intros acc; simpl.
  { split; [auto|]. intros [|(q & ?%elem_of_nil & _)]; done. }
  rewrite IH. unfold add_session.
  assert (s ∈ (if bool_decide (it_sessionId (q_item q) ∈ acc) then acc else acc ++ [it_sessionId (q_item q)])
          <-> s ∈ acc \/ it_sessionId (q_item q) = s) as ->.
  { case_bool_decide; set_solver. }
  setoid_rewrite elem_of_cons. split.
  - intros [[?|?]|(q' & ? & ?)]; eauto.
  - intros [?|(q' & [->|?] & ?)]; eauto.
Qed.

Lemma elem_of_sessions queue s :
  s ∈ sessions_of queue <-> exists q, q ∈ queue /\ it_sessionId (@q_item T q) = s.
Proof.
  unfold sessions_of. rewrite elem_of_sessions_acc. split; [|auto].
  intros [?%elem_of_nil|]; done.
Qed.


Lemma sessions_head q queue : head (sessions_of (q :: queue)) = Some (it_sessionId (@q_item T q)).
Proof.
  unfold sessions_of. simpl. destruct (add_session_mono queue (add_session [] q)) as [more ->]. done.
Qed.

(** ** The pick *)

(** The index of the first item of a session in the queue. *)
Definition first_of_session queue (idx : nat) (q : QueuedItem T) : Prop :=
  queue !! idx = Some q /\
  forall j q', j < idx -> queue !! j = Some q' -> it_sessionId (q_item q') <> it_sessionId (q_item q).

Lemma findIndex_session queue s :
  s ∈ sessions_of queue ->
  exists idx q, findIndex (fun q => bool_decide (it_sessionId (@q_item T q) = s)) queue = Some idx
    /\ first_of_session queue idx q /\ it_sessionId (q_item q) = s.
Proof.
  intros (q & Hin & Hs)%elem_of_sessions. unfold findIndex.
  destruct (list_find_elem_of (fun x => bool_decide (it_sessionId (q_item x) = s) = true) queue q Hin)
    as [[idx x] Hf]; [by apply bool_decide_eq_true|].
  rewrite Hf. apply list_find_Some in Hf as (Hx & Hsx%bool_decide_eq_true & Hbefore).
  exists idx, x. split; [done|]. split; [|done]. split; [done|].
  intros j q' Hj Hq' E. apply (Hbefore j q' Hq' Hj). apply bool_decide_eq_true. congruence.
Qed.

Lemma first_of_session_split queue idx q :
  first_of_session queue idx q ->
  queue = take idx queue ++ q :: drop (S idx) queue
  /\ delete idx queue = take idx queue ++ drop (S idx) queue
  /\ Forall (fun q' => it_sessionId (q_item q') <> it_sessionId (q_item q)) (take idx queue).
Proof.
  intros [Hq Hbefore]. split_and!.
  - by rewrite take_drop_middle.
  - apply delete_take_drop.
  - apply Forall_forall. intros q' [j Hj]%list_elem_of_lookup.
    apply lookup_take_Some in Hj as [Hj Hlt]. eauto.
Qed.

Lemma first_of_session_0 q queue : first_of_session (q :: queue) 0 q.
Proof. split; [done|lia]. Qed.

Lemma sessions_nonempty queue : queue <> [] -> 0 < length (sessions_of queue).
Proof.
  destruct queue as [|q queue]; [done|]. intros _.
  pose proof (sessions_head q queue). destruct (sessions_of _); simpl in *; [done|lia].
Qed.

(** The offset 0 always hits: the candidate is one of the queue's own sessions. *)
Lemma pick_spec l queue p :
  queue <> [] ->
  let n := length (sessions_of queue) in
  exists idx q p1,
    pickFairIndex l queue p = (idx, p1) /\ first_of_session queue idx q
    /\ ((n = 1 /\ idx = 0 /\ p1 = p) \/
        (1 < n /\ sessions_of queue !! (p_laneCursor p l mod n) = Some (it_sessionId (q_item q))
         /\ p1 = set_cursor l ((p_laneCursor p l + 1) mod n) p)).
Proof.
  intros Hne n. pose proof (sessions_nonempty queue Hne) as Hpos. fold n in Hpos.
  unfold pickFairIndex. fold n. destruct (Nat.leb_spec n 1).
  { destruct queue as [|q queue]; [done|]. exists 0, q, p.
    split_and!; [done|apply first_of_session_0|left; split_and!; [lia|done..]]. }
  destruct (lookup_lt_is_Some_2 (sessions_of queue) (p_laneCursor p l mod n)) as [s Hs].
  { apply Nat.mod_upper_bound. lia. }
  destruct (findIndex_session queue s) as (idx & q & Hf & Hfirst & Hsess).
  { by eapply list_elem_of_lookup_2. }
  assert (pick_from (sessions_of queue) (p_laneCursor p l) 0 n queue
          = Some (idx, (p_laneCursor p l + 1) mod n)) as ->.
  { destruct n as [|n'] eqn:En; [lia|]. simpl. fold n. rewrite En, Nat.add_0_r, Hs. simpl.
    rewrite Hf. do 3 f_equal. }
  exists idx, q, (set_cursor l ((p_laneCursor p l + 1) mod n) p).
  split_and!; [done|done|]. right. split_and!; [lia|by rewrite Hsess|done].
Qed.

(** ** One grant *)

Definition lane_rank (l : RateLimitLane) : nat :=
  match l with LaneAsk => 0 | LaneFinalized => 1 | LaneLive => 2 | LaneIdle => 3 end.

(** A grant takes the first item of its session out of the first lane that has
    any, and touches nothing but that lane and its cursor. *)
Record grant_step (l : RateLimitLane) it p p' : Prop := {
  gs_higher : forall l', lane_rank l' < lane_rank l -> p_lanes p l' = [];
  gs_queue : exists pre q post,
    p_lanes p l = pre ++ q :: post /\ p_lanes p' l = pre ++ post /\ q_item q = it
    /\ Forall (fun q' => it_sessionId (q_item q') <> it_sessionId it) pre;
  gs_turn : sessions_of (p_lanes p l) !! (p_laneCursor p l mod length (sessions_of (p_lanes p l)))
            = Some (it_sessionId it);
  gs_cursor : 1 < length (sessions_of (p_lanes p l)) ->
    p_laneCursor p' l = (p_laneCursor p l + 1) mod length (sessions_of (p_lanes p l));
  gs_others : forall l', l' <> l -> p_lanes p' l' = p_lanes p l';
  gs_cursors : forall l', l' <> l -> p_laneCursor p' l' = p_laneCursor p l';
  gs_tokens : p_tokens p' = p_tokens p;
  gs_lastRefill : p_lastRefill p' = p_lastRefill p;
  gs_capacity : p_capacity p' = p_capacity p;
  gs_refill : p_refillPerSec p' = p_refillPerSec p;
  gs_settlements : p_settlements p' = p_settlements p;
  gs_settled : p_settled p' = p_settled p;
  gs_seq : p_seqCounter p' = p_seqCounter p
}.

Lemma pool_ok_pending p l q :
  pool_ok p -> q ∈ p_lanes p l -> item_id (q_item q) ∈ p_settlements p.
Proof.
  intros Hok Hq. assert (q_item q ∈ all_items p) as Hin.
  { apply elem_of_all_items. exists l. by apply list_elem_of_fmap_2. }
  destruct (proj1 (Forall_forall _ _) (ok_pending _ Hok) _ Hin) as (id & Hid & Hp).
  unfold item_id. by rewrite Hid.
Qed.

Lemma take_next_serves l rest p :
  pool_ok p -> p_lanes p l <> [] ->
  (forall l', lane_rank l' < lane_rank l -> p_lanes p l' = []) ->
  exists it p', take_next (l :: rest) p = (Ok (Some it), p') /\ grant_step l it p p'.
Proof.
  intros Hok Hne Hhigher. simpl. destruct (pick_spec l _ p Hne) as (idx & q & p1 & Hpick & Hfirst & Hturn).
  pose proof (first_of_session_split _ _ _ Hfirst) as (Hsplit & Hdel & Hpre).
  destruct (p_lanes p l) as [|q0 queue] eqn:Hl; [done|]. rewrite <- Hl in *.
  rewrite Hpick. pose proof (proj1 Hfirst) as Hq. rewrite Hq. unfold markSending.
  assert (p_settlements (set_lane l (delete idx (p_lanes p l)) p1) = p_settlements p) as ->.
  { destruct Hturn as [(_ & _ & ->)|(_ & _ & ->)]; done. }
  rewrite bool_decide_true.
  2:{ eapply pool_ok_pending; [done|]. eapply list_elem_of_lookup_2. exact Hq. }
  exists (q_item q). eexists. split; [reflexivity|]. split.
  - done.
  - exists (take idx (p_lanes p l)), q, (drop (S idx) (p_lanes p l)).
    split_and!; [done| |done..]. simpl. by rewrite bool_decide_true.
  - destruct Hturn as [(Hn & -> & _)|(_ & Ht & _)]; [|exact Ht].
    rewrite Hn, Nat.mod_1_r. rewrite Hl in Hq |- *. injection Hq as ->.
    by rewrite <- head_lookup, sessions_head.
  - destruct Hturn as [(Hn & _)|(_ & _ & ->)]; [lia|]. intros _. simpl. by rewrite bool_decide_true.
  - intros l' Hl'. simpl. rewrite bool_decide_false by done.
    destruct Hturn as [(_ & _ & ->)|(_ & _ & ->)]; done.
  - intros l' Hl'. destruct Hturn as [(_ & _ & ->)|(_ & _ & ->)]; simpl; [done|].
    by rewrite bool_decide_false.
  - destruct Hturn as [(_ & _ & ->)|(_ & _ & ->)]; done.
  - destruct Hturn as [(_ & _ & ->)|(_ & _ & ->)]; done.
  - destruct Hturn as [(_ & _ & ->)|(_ & _ & ->)]; done.
  - destruct Hturn as [(_ & _ & ->)|(_ & _ & ->)]; done.
  - destruct Hturn as [(_ & _ & ->)|(_ & _ & ->)]; done.
  - destruct Hturn as [(_ & _ & ->)|(_ & _ & ->)]; done.
  - destruct Hturn as [(_ & _ & ->)|(_ & _ & ->)]; done.
Qed.

Lemma take_next_skip l rest p :
  p_lanes p l = [] -> take_next (l :: rest) p = take_next rest p.
Proof. simpl. by intros ->. Qed.

Lemma takeNext_spec p :
  pool_ok p ->
  (takeNext p = (Ok None, p) /\ forall l, p_lanes p l = []) \/
  exists l it p', takeNext p = (Ok (Some it), p') /\ grant_step l it p p'.
Proof.
  intros Hok. unfold takeNext, LANE_PRIORITY.
  destruct (p_lanes p LaneAsk) eqn:E1.
  2:{ right. exists LaneAsk. apply take_next_serves; [done|by rewrite E1|]. simpl. lia. }
  rewrite take_next_skip by done. destruct (p_lanes p LaneFinalized) eqn:E2.
  2:{ right. exists LaneFinalized. apply take_next_serves; [done|by rewrite E2|].
      intros []; simpl; by try lia. }
  rewrite take_next_skip by done. destruct (p_lanes p LaneLive) eqn:E3.
  2:{ right. exists LaneLive. apply take_next_serves; [done|by rewrite E3|].
      intros []; simpl; by try lia. }
  rewrite take_next_skip by done. destruct (p_lanes p LaneIdle) eqn:E4.
  2:{ right. exists LaneIdle. apply take_next_serves; [done|by rewrite E4|].
      intros []; simpl; by try lia. }
  left. rewrite take_next_skip by done. split; [done|]. by intros [].
Qed.

(** ** The items of a pool after a grant *)

Lemma grant_lane_items l it p p' :
  grant_step l it p p' ->
  exists pre post, lane_items p l = pre ++ it :: post /\ lane_items p' l = pre ++ post
    /\ Forall (fun it' => it_sessionId it' <> it_sessionId it) pre.
Proof.
  intros Hg. destruct (gs_queue _ _ _ _ Hg) as (pre & q & post & Hq & Hq' & <- & Hpre).
  exists (q_item <$> pre), (q_item <$> post). unfold lane_items. rewrite Hq, Hq'.
  rewrite !fmap_app. split_and!; [done..|]. by apply Forall_fmap.
Qed.

Lemma grant_all_items l it p p' :
  grant_step l it p p' -> all_items p ≡ₚ it :: all_items p'.
Proof.
  intros Hg. destruct (grant_lane_items _ _ _ _ Hg) as (pre & post & Hq & Hq' & _).
  assert (forall l', l' <> l -> lane_items p' l' = lane_items p l') as Ho.
  { intros l' Hl'. unfold lane_items. by rewrite (gs_others _ _ _ _ Hg). }
  unfold all_items, LANE_PRIORITY. simpl.
  destruct l; rewrite ?Hq, ?Hq', ?Ho by done; solve_Permutation.
Qed.

Lemma grant_pool_ok l it p p' : grant_step l it p p' -> pool_ok p -> pool_ok p'.
Proof.
  intros Hg [Hids Hpend Hlanes Htok Href]. pose proof (grant_all_items _ _ _ _ Hg) as Hperm.
  split.
  - rewrite Hperm in Hids. by apply NoDup_cons in Hids as [_ ?].
  - rewrite (gs_settlements _ _ _ _ Hg). rewrite Hperm in Hpend. by apply Forall_cons in Hpend as [_ ?].
  - intros l'. destruct (decide (l' = l)) as [->|Hne].
    + destruct (grant_lane_items _ _ _ _ Hg) as (pre & post & Hq & -> & _).
      specialize (Hlanes l). rewrite Hq in Hlanes.
      apply Forall_app in Hlanes as [? [_ ?]%Forall_cons]. by apply Forall_app.
    + unfold lane_items. rewrite (gs_others _ _ _ _ Hg) by done. apply Hlanes.
  - by rewrite (gs_tokens _ _ _ _ Hg), (gs_capacity _ _ _ _ Hg).
  - by rewrite (gs_refill _ _ _ _ Hg).
Qed.

(** ** A run of grants *)

Definition spend p : RateLimitPool T := set_tokens (p_tokens p - 1000) (p_lastRefill p) p.

Inductive grants : RateLimitPool T -> list (RateLimitItem T) -> RateLimitPool T -> Prop :=
| grants_nil p : grants p [] p
| grants_cons p l it p1 its p' :
    (1000 <= p_tokens p)%Z -> grant_step l it p p1 -> grants (spend p1) its p' ->
    grants p (it :: its) p'.

Lemma pending_length p : pending p = length (all_items p).
Proof.
  unfold pending, all_items, LANE_PRIORITY, lane_items. simpl.
  rewrite !length_app, !length_fmap. simpl. lia.
Qed.

Lemma spend_pool_ok l it p p1 :
  (1000 <= p_tokens p)%Z -> grant_step l it p p1 -> pool_ok p -> pool_ok (spend p1).
Proof.
  intros Htok Hg Hok. destruct (grant_pool_ok _ _ _ _ Hg Hok) as [? ? ? Ht ?].
  rewrite <- (gs_tokens _ _ _ _ Hg) in Htok. split; try done. simpl. lia.
Qed.

(** The loop stops for want of a token or of an item; as many rounds as there are
    items are enough. *)
Lemma grant_loop_spec fuel acc p :
  pool_ok p -> length (all_items p) < fuel ->
  exists its p', grant_loop fuel acc p = (Ok (acc ++ its), p') /\ grants p its p'
    /\ ((p_tokens p' < 1000)%Z \/ forall l, p_lanes p' l = []).
Proof.
  revert acc p. induction fuel as [|fuel IH]; intros acc p Hok Hf; [lia|]. simpl.
  destruct (Z.ltb_spec (p_tokens p) 1000) as [Hlt|Hge].
  { exists [], p. rewrite app_nil_r. split_and!; [done|constructor|by left]. }
  destruct (takeNext_spec p Hok) as [[-> Hempty]|(l & it & p1 & -> & Hg)].
  { exists [], p. rewrite app_nil_r. split_and!; [done|constructor|by right]. }
  pose proof (Permutation_length (grant_all_items _ _ _ _ Hg)) as Hlen. simpl in Hlen.
  destruct (IH (acc ++ [it]) (spend p1)) as (its & p' & Heq & Hgs & Hend).
  { by eapply spend_pool_ok. }
  { change (all_items (spend p1)) with (all_items p1). lia. }
  exists (it :: its), p'. change (set_tokens _ _ p1) with (spend p1). rewrite Heq, <- (assoc_L app).
  split_and!; [done|by econstructor|done].
Qed.

Definition in_lane (l : RateLimitLane) (its : list (RateLimitItem T)) : list (RateLimitItem T) :=
  List.filter (fun it => bool_decide (it_lane it = l)) its.

Lemma of_session_app s its1 its2 : of_session s (its1 ++ its2) = of_session s its1 ++ of_session s its2.
Proof. apply List.filter_app. Qed.

Lemma of_session_cons s it its :
  of_session s (it :: its)
  = if bool_decide (it_sessionId it = s) then it :: of_session s its else of_session s its.
Proof. done. Qed.

Lemma of_session_none s its :
  Forall (fun it => it_sessionId it <> s) its -> of_session s its = [].
Proof.
  unfold of_session. induction 1; simpl; [done|]. by rewrite bool_decide_false.
Qed.

Lemma grant_fifo l it p p1 l' s :
  grant_step l it p p1 -> it_lane it = l ->
  of_session s (in_lane l' [it]) ++ of_session s (lane_items p1 l') = of_session s (lane_items p l').
Proof.
  intros Hg Hlane. unfold in_lane. simpl. rewrite Hlane. case_bool_decide as Hl.
  - subst l'. destruct (grant_lane_items _ _ _ _ Hg) as (pre & post & -> & -> & Hpre).
    rewrite !of_session_app, !(of_session_cons _ it). case_bool_decide as Hs; [|done].
    rewrite (of_session_none s pre); [done|]. by subst s.
  - unfold lane_items. by rewrite (gs_others _ _ _ _ Hg) by done.
Qed.

Lemma grant_lane l it p p1 : grant_step l it p p1 -> pool_ok p -> it_lane it = l.
Proof.
  intros Hg Hok. destruct (grant_lane_items _ _ _ _ Hg) as (pre & post & Hq & _).
  pose proof (ok_lanes _ Hok l) as Hl. rewrite Hq in Hl.
  by apply Forall_app in Hl as [_ [? _]%Forall_cons].
Qed.

Lemma grants_pool_ok p its p' : grants p its p' -> pool_ok p -> pool_ok p'.
Proof. induction 1; [done|]. intros. eauto using spend_pool_ok. Qed.

Lemma grants_fifo p its p' l s :
  grants p its p' -> pool_ok p ->
  of_session s (in_lane l its) ++ of_session s (lane_items p' l) = of_session s (lane_items p l).
Proof.
  induction 1 as [p|p l' it p1 its p' Htok Hg Hgs IH]; intros Hok; [done|].
  rewrite <- (grant_fifo _ _ _ _ l s Hg) by eauto using grant_lane.
  change (lane_items p1 l) with (lane_items (spend p1) l). rewrite <- IH by eauto using spend_pool_ok.
  change (it :: its) with ([it] ++ its). unfold in_lane at 1. rewrite List.filter_app.
  fold (in_lane l [it]) (in_lane l its). by rewrite of_session_app, (assoc_L app).
Qed.

Lemma grants_tokens p its p' :
  grants p its p' ->
  p_tokens p' = (p_tokens p - 1000 * Z.of_nat (length its))%Z /\ p_lastRefill p' = p_lastRefill p
  /\ p_capacity p' = p_capacity p /\ p_refillPerSec p' = p_refillPerSec p
  /\ p_settlements p' = p_settlements p /\ p_settled p' = p_settled p /\ p_seqCounter p' = p_seqCounter p.
Proof.
  induction 1 as [p|p l it p1 its p' Htok Hg Hgs IH]; [simpl; split_and!; [lia|done..]|].
  destruct IH as (-> & -> & -> & -> & -> & -> & ->), Hg. simpl. split_and!; [lia|congruence..].
Qed.

Lemma grants_empty p its p' l : grants p its p' -> p_lanes p l = [] -> p_lanes p' l = [].
Proof.
  induction 1 as [p|p l' it p1 its p' Htok Hg Hgs IH]; [done|]. intros Hl. apply IH. simpl.
  destruct (decide (l = l')) as [->|Hne]; [|by rewrite (gs_others _ _ _ _ Hg)].
  destruct (gs_queue _ _ _ _ Hg) as (pre & q & post & Hq & _). rewrite Hl in Hq. by destruct pre.
Qed.

(** A lane is served only once every higher lane is empty. *)
Lemma grants_priority p its p' :
  grants p its p' -> pool_ok p ->
  StronglySorted (fun a b => lane_rank (it_lane a) <= lane_rank (it_lane b)) its
  /\ forall it l, it ∈ its -> lane_rank l < lane_rank (it_lane it) -> p_lanes p' l = [].
Proof.
  induction 1 as [p|p l it p1 its p' Htok Hg Hgs IH]; intros Hok.
  { split; [constructor|]. intros ? ? ?%elem_of_nil. done. }
  assert (pool_ok (spend p1)) as Hok1 by eauto using spend_pool_ok.
  pose proof (grant_lane _ _ _ _ Hg Hok) as Hlane. destruct (IH Hok1) as [Hs Hp].
  assert (forall l', lane_rank l' < lane_rank l -> p_lanes (spend p1) l' = []) as Hhigher.
  { intros l' Hl'. simpl. rewrite (gs_others _ _ _ _ Hg) by (intros ->; lia).
    by apply (gs_higher _ _ _ _ Hg). }
  split.
  - constructor; [done|]. apply Forall_forall. intros it' Hin. rewrite Hlane.
    destruct (decide (lane_rank l <= lane_rank (it_lane it'))) as [|Hlt]; [done|].
    exfalso. apply list_elem_of_split in Hin as (g1 & g2 & ->).
    pose proof (grants_fifo _ _ _ (it_lane it') (it_sessionId it') Hgs Hok1) as Hf.
    unfold lane_items in Hf at 2. rewrite Hhigher in Hf by lia. unfold in_lane in Hf.
    rewrite List.filter_app in Hf. simpl in Hf. rewrite bool_decide_true in Hf by done.
    rewrite of_session_app, of_session_cons, bool_decide_true in Hf by done. apply (f_equal length) in Hf. rewrite !length_app in Hf.
    simpl in Hf. lia.
  - intros it' l' [->|Hin]%elem_of_cons Hlt; [|eauto].
    eapply grants_empty; [done|]. apply Hhigher. by rewrite <- Hlane.
Qed.

(** ** Settling and removing *)

Definition set_lanes (f : RateLimitLane -> list (QueuedItem T)) p : RateLimitPool T :=
  mkPool (p_capacity p) (p_refillPerSec p) f (p_laneCursor p) (p_tokens p) (p_lastRefill p)
    (p_settlements p) (p_settled p) (p_seqCounter p).

Lemma settle_set_lanes id d f p : settle id d (set_lanes f p) = set_lanes f (settle id d p).
Proof. unfold settle. simpl. by case_bool_decide. Qed.

Lemma settle_all_set_lanes d its f p :
  settle_all d its (set_lanes f p) = set_lanes f (settle_all d its p).
Proof.
  unfold settle_all. revert p. induction its as [|it its IH]; intros p; simpl; [done|].
  by rewrite settle_set_lanes, IH.
Qed.

Lemma settle_all_app d its1 its2 p :
  settle_all d (its1 ++ its2) p = settle_all d its2 (settle_all d its1 p).
Proof. apply fold_left_app. Qed.

(** Settling items whose promises are pending resolves each of them, in order. *)
Lemma settle_all_spec d its p :
  NoDup (item_id <$> its) -> Forall (fun it => item_id it ∈ p_settlements p) its ->
  settle_all d its p
  = set_settlements (p_settlements p ∖ list_to_set (item_id <$> its))
      (p_settled p ++ ((fun it => (item_id it, d)) <$> its)) p.
Proof.
  revert p. induction its as [|it its IH]; intros p Hnd Hp; simpl.
  { destruct p. unfold set_settlements. simpl. f_equal; [set_solver|by rewrite app_nil_r]. }
  apply NoDup_cons in Hnd as [Hni Hnd]. apply Forall_cons in Hp as [Hit Hp].
  change (settle_all d (it :: its) p) with (settle_all d its (settle (item_id it) d p)).
  unfold settle. rewrite bool_decide_true by done. rewrite IH; [|done|].
  - unfold set_settlements. simpl. f_equal; [set_solver|]. by rewrite <- (assoc_L app).
  - simpl. apply Forall_forall. intros it' Hin.
    pose proof (proj1 (Forall_forall _ _) Hp it' Hin) as Hin'.
    apply elem_of_difference. split; [done|]. rewrite elem_of_singleton. intros E.
    apply Hni. rewrite <- E. by apply list_elem_of_fmap_2.
Qed.

Section remove.
Context (predicate : RateLimitItem T -> bool) (d : RateLimitDisposition).

Definition goes (l : RateLimitLane) p : list (RateLimitItem T) := List.filter predicate (lane_items p l).

Definition stays (queue : list (QueuedItem T)) : list (QueuedItem T) :=
  List.filter (fun q => negb (predicate (q_item q))) queue.

Lemma goes_queue l p : q_item <$> List.filter (fun q => predicate (q_item q)) (p_lanes p l) = goes l p.
Proof.
  unfold goes, lane_items. induction (p_lanes p l) as [|q queue IH]; simpl; [done|].
  case_match; [|exact IH]. by apply (f_equal (cons (q_item q))).
Qed.

Lemma stays_items queue :
  q_item <$> stays queue = List.filter (fun it => negb (predicate it)) (q_item <$> queue).
Proof.
  unfold stays. induction queue as [|q queue IH]; simpl; [done|].
  case_match; [|exact IH]. by apply (f_equal (cons (q_item q))).
Qed.

Lemma remove_lanes_spec lanes acc f p :
  NoDup lanes ->
  (forall l, l ∈ lanes -> f l = p_lanes p l) ->
  exists f', fold_left (remove_lane predicate d) lanes (acc, set_lanes f p)
    = (acc ++ (lanes ≫= fun l => goes l p), set_lanes f' (settle_all d (lanes ≫= fun l => goes l p) p))
    /\ forall l, f' l = if bool_decide (l ∈ lanes) then stays (p_lanes p l) else f l.
Proof.
  intros Hnd. revert acc f p. induction Hnd as [|l lanes Hl Hnd IH]; intros acc f p Hf; simpl.
  { exists f. rewrite app_nil_r. done. }
  assert (Hfl : f l = p_lanes p l) by (apply Hf; set_solver).
  rewrite Hfl, goes_queue, settle_all_set_lanes.
  set (f1 := fun l' => if bool_decide (l' = l) then stays (p_lanes p l) else f l').
  change (set_lane l _ _) with (set_lanes f1 (settle_all d (goes l p) p)).
  assert (Hlanes : forall p its, p_lanes (settle_all d its p) = p_lanes p).
  { intros p0 its. unfold settle_all. revert p0. induction its as [|it its IHi]; intros p0; simpl; [done|].
    rewrite IHi. unfold settle. by case_bool_decide. }
  destruct (IH (acc ++ goes l p) f1 (settle_all d (goes l p) p)) as (f' & -> & Hf').
  { intros l' Hl'. rewrite Hlanes. unfold f1. rewrite bool_decide_false by (intros ->; done).
    apply Hf. set_solver. }
  exists f'. split.
  - assert (Hg : forall l', goes l' (settle_all d (goes l p) p) = goes l' p).
    { intros l'. unfold goes, lane_items. by rewrite Hlanes. }
    assert ((lanes ≫= fun l' => goes l' (settle_all d (goes l p) p)) = (lanes ≫= fun l' => goes l' p)) as ->.
    { apply list_bind_ext; [intros; apply Hg|done]. }
    by rewrite <- (assoc_L app), settle_all_app.
  - intros l'. rewrite Hf', Hlanes. unfold f1.
    destruct (decide (l' = l)) as [->|Hne].
    + rewrite (bool_decide_false (l ∈ lanes)) by done.
      rewrite !bool_decide_true by set_solver. done.
    + destruct (decide (l' ∈ lanes)).
      * by rewrite !bool_decide_true by set_solver.
      * by rewrite !bool_decide_false by set_solver.
Qed.

Lemma removeWhere_spec p :
  exists f', removeWhere predicate d p
    = (List.filter predicate (all_items p),
       set_lanes f' (settle_all d (List.filter predicate (all_items p)) p))
    /\ forall l, f' l = stays (p_lanes p l).
Proof.
  destruct (remove_lanes_spec LANE_PRIORITY [] (p_lanes p) p NoDup_LANE_PRIORITY) as (f' & Heq & Hf'); [done|].
  exists f'. split.
  - unfold removeWhere. destruct p. etrans; [exact Heq|]. unfold all_items, goes, LANE_PRIORITY. simpl.
    by rewrite !List.filter_app.
  - intros l. rewrite Hf'. by rewrite bool_decide_true by apply lane_in_priority.
Qed.

End remove.

(** ** What stays well formed *)

Lemma item_ids_NoDup p its :
  Forall (fun it => exists id, it_itemId it = Some id /\ id ∈ p_settlements p) its ->
  NoDup (it_itemId <$> its) -> NoDup (item_id <$> its).
Proof.
  intros Hp Hnd. assert ((it_itemId <$> its) = Some <$> (item_id <$> its)) as E.
  { clear Hnd. induction Hp as [|it its (id & Hid & _) Hp IH]; [done|]. simpl.
    f_equal; [|exact IH]. unfold item_id. by rewrite Hid. }
  rewrite E in Hnd. by apply NoDup_fmap_1 in Hnd.
Qed.

Lemma set_lanes_all_items f predicate p p0 :
  (forall l, f l = stays predicate (p_lanes p0 l)) ->
  all_items (set_lanes f p) = List.filter (fun it => negb (predicate it)) (all_items p0).
Proof.
  intros Hf. unfold all_items, LANE_PRIORITY, lane_items. simpl.
  by rewrite !Hf, !List.filter_app, !stays_items.
Qed.

Lemma NoDup_bfilter {A} (f : A -> bool) (l : list A) : NoDup l -> NoDup (List.filter f l).
Proof.
  induction 1 as [|x l Hx Hnd IH]; simpl; [constructor|]. case_match; [|done].
  constructor; [|done]. rewrite list_elem_of_In, List.filter_In, <- list_elem_of_In. tauto.
Qed.

Lemma NoDup_fmap_bfilter {A B} (g : A -> B) (f : A -> bool) (l : list A) :
  NoDup (g <$> l) -> NoDup (g <$> List.filter f l).
Proof.
  induction l as [|x l IH]; simpl; [done|]. intros [Hx Hnd]%NoDup_cons. case_match; [|auto].
  simpl. constructor; [|auto]. intros (y & Hy & Hin)%list_elem_of_fmap. apply Hx. rewrite Hy.
  apply list_elem_of_fmap_2. rewrite list_elem_of_In in *. by apply List.filter_In in Hin as [? _].
Qed.

Lemma elem_of_bfilter {A} (f : A -> bool) (l : list A) x :
  x ∈ List.filter f l <-> x ∈ l /\ f x = true.
Proof. rewrite !list_elem_of_In. apply List.filter_In. Qed.

(** Two queued items with one identifier are one item. *)
Lemma ok_id_inj p it it' :
  pool_ok p -> it ∈ all_items p -> it' ∈ all_items p -> item_id it = item_id it' -> it = it'.
Proof.
  intros Hok Hin Hin' E. pose proof (item_ids_NoDup _ _ (ok_pending _ Hok) (ok_ids _ Hok)) as Hnd.
  apply list_elem_of_lookup in Hin as [i Hi], Hin' as [j Hj].
  assert (i = j) as ->; [|congruence].
  eapply (proj1 (NoDup_alt _) Hnd); rewrite list_lookup_fmap; [by rewrite Hi|by rewrite Hj, E].
Qed.

Lemma removeWhere_ok predicate d p :
  pool_ok p ->
  exists p', removeWhere predicate d p = (List.filter predicate (all_items p), p')
    /\ pool_ok p'
    /\ (forall l, p_lanes p' l = stays predicate (p_lanes p l))
    /\ all_items p' = List.filter (fun it => negb (predicate it)) (all_items p)
    /\ p_settled p' = p_settled p ++ ((fun it => (item_id it, d)) <$> List.filter predicate (all_items p))
    /\ p_tokens p' = p_tokens p /\ p_lastRefill p' = p_lastRefill p /\ p_capacity p' = p_capacity p
    /\ p_refillPerSec p' = p_refillPerSec p /\ p_laneCursor p' = p_laneCursor p
    /\ p_seqCounter p' = p_seqCounter p.
Proof.
  intros Hok. destruct (removeWhere_spec predicate d p) as (f & Heq & Hf).
  rewrite settle_all_spec in Heq.
  2:{ apply NoDup_fmap_bfilter. apply (item_ids_NoDup p); apply Hok. }
  2:{ apply Forall_bfilter. eapply Forall_impl; [apply (ok_pending _ Hok)|].
      intros it (id & Hid & Hp). unfold item_id. by rewrite Hid. }
  eexists. split; [exact Heq|].
  pose proof (set_lanes_all_items f predicate
    (set_settlements (p_settlements p ∖ list_to_set (item_id <$> List.filter predicate (all_items p)))
      (p_settled p ++ ((fun it => (item_id it, d)) <$> List.filter predicate (all_items p))) p) p Hf) as Hall.
  split_and!; [|exact Hf|exact Hall|done..]. split.
  - rewrite Hall. apply NoDup_fmap_bfilter, Hok.
  - rewrite Hall. apply Forall_forall. intros it [Hin Hnp]%elem_of_bfilter.
    destruct (proj1 (Forall_forall _ _) (ok_pending _ Hok) _ Hin) as (id & Hid & Hp).
    exists id. split; [done|]. simpl. apply elem_of_difference. split; [done|].
    rewrite elem_of_list_to_set. intros (it' & Hid' & [Hin' Hp']%elem_of_bfilter)%list_elem_of_fmap.
    assert (it = it') as <-; [|by rewrite Hp' in Hnp].
    apply (ok_id_inj p); [done..|]. unfold item_id in *. by rewrite Hid.
  - intros l. unfold lane_items. simpl. rewrite Hf, stays_items. apply Forall_bfilter, (ok_lanes _ Hok).
  - apply Hok.
  - apply Hok.
Qed.

Lemma refill_ok now p :
  pool_ok p -> pool_ok (refill now p) /\ p_lanes (refill now p) = p_lanes p
    /\ p_laneCursor (refill now p) = p_laneCursor p /\ p_settled (refill now p) = p_settled p
    /\ p_seqCounter (refill now p) = p_seqCounter p
    /\ p_tokens (refill now p) = Z.min (p_capacity p)
         (p_tokens p + Z.max 0 (now - p_lastRefill p) * p_refillPerSec p).
Proof.
  intros [? ? ? Htok Href]. unfold refill. case_match; simpl_bool.
  - split_and!; try done. rewrite Z.max_l by lia. simpl. lia.
  - split_and!; try done; [|simpl; by rewrite Z.max_r by lia]. split; try done. simpl. nia.
Qed.

(** ** The drain *)

Lemma drain_spec now p :
  pool_ok p ->
  exists granted p', drainWithExpired now p
      = (Ok (mkDrain granted (List.filter (expired_at now) (all_items p))), p')
    /\ pool_ok p'
    /\ ((p_tokens p' < 1000)%Z \/ all_items p' = [])
    /\ exists p0, grants p0 granted p' /\ pool_ok p0
      /\ (forall l, p_lanes p0 l = stays (expired_at now) (p_lanes p l))
      /\ p_tokens p0 = Z.min (p_capacity p) (p_tokens p + Z.max 0 (now - p_lastRefill p) * p_refillPerSec p)
      /\ p_settled p0 = p_settled p ++ ((fun it => (item_id it, DExpired)) <$>
                                         List.filter (expired_at now) (all_items p))
      /\ p_laneCursor p0 = p_laneCursor p /\ p_seqCounter p0 = p_seqCounter p
      /\ all_items p0 = List.filter (fun it => negb (expired_at now it)) (all_items p).
Proof.
  intros Hok. destruct (refill_ok now p Hok) as (Hok1 & Hl1 & Hc1 & Hs1 & Hq1 & Ht1).
  assert (all_items (refill now p) = all_items p) as Ha1.
  { unfold all_items, lane_items. by rewrite Hl1. }
  destruct (removeWhere_ok (expired_at now) DExpired _ Hok1)
    as (p0 & Heq & Hok0 & Hl0 & Ha0 & Hs0 & Ht0 & _ & _ & _ & Hc0 & Hq0).
  unfold drainWithExpired. rewrite Heq, pending_length. rewrite Ha1 in *.
  destruct (grant_loop_spec (S (length (all_items p0))) [] p0 Hok0) as (its & p' & -> & Hg & Hend); [lia|].
  exists its, p'. split; [done|]. split; [by eapply grants_pool_ok|]. split.
  { destruct Hend as [?|Hempty]; [by left|]. right. unfold all_items, LANE_PRIORITY, lane_items. simpl.
    by rewrite !Hempty. }
  exists p0. rewrite Hl1 in Hl0. rewrite Hs1 in Hs0.
  split_and!; [done..|by rewrite Ht0|done|congruence|congruence|done].
Qed.

(** ** Runs *)

Definition gen_id (k : Z) : jsstring := js "rate-limit:" ++ num_to_string k.

Inductive pool_op :=
| OpSubmit (it : RateLimitItem T)
| OpSettle (itemId : jsstring) (d : RateLimitDisposition)
| OpDrain (nowMs : Z)
| OpRemoveWhere (predicate : RateLimitItem T -> bool) (d : RateLimitDisposition)
| OpRemoveById (itemId : jsstring)
| OpAvailable (nowMs : Z).

(** An operation's effect, with the items it grants (none when a drain throws). *)
Definition exec_op (op : pool_op) p : list (RateLimitItem T) * RateLimitPool T :=
  match op with
  | OpSubmit it => ([], (submit it p).2)
  | OpSettle id d => ([], settle id d p)
  | OpDrain now => let (r, p) := drain now p in (match r with Ok g => g | Err _ => [] end, p)
  | OpRemoveWhere f d => ([], (removeWhere f d p).2)
  | OpRemoveById id => ([], (removeById id p).2)
  | OpAvailable now => ([], (availableTokens now p).2)
  end.

(** What the callers keep to: an identifier of their own is not queued already and
    not of the generated form, and only what left the queue is settled. *)
Definition op_allowed p (op : pool_op) : Prop :=
  match op with
  | OpSubmit it => forall id, it_itemId it = Some id ->
      (Some id ∉ (it_itemId <$> all_items p)) /\ forall k, id <> gen_id k
  | OpSettle id _ => Some id ∉ (it_itemId <$> all_items p)
  | _ => True
  end.

Inductive reachable : RateLimitPool T -> Prop :=
| reach_new capacity refillPerSec now : reachable (new_pool capacity refillPerSec now)
| reach_op p op : reachable p -> op_allowed p op -> reachable (exec_op op p).2.

(** The generated identifiers of the future are not in use. *)
Record pool_inv p : Prop := {
  inv_ok : pool_ok p;
  inv_seq : (0 <= p_seqCounter p)%Z;
  inv_fresh : forall k, (p_seqCounter p <= k)%Z -> Some (gen_id k) ∉ (it_itemId <$> all_items p)
}.

Lemma gen_id_inj j k : (0 <= j)%Z -> (0 <= k)%Z -> gen_id j = gen_id k -> j = k.
Proof.
  intros Hj Hk E. apply app_inv_head in E. unfold num_to_string in E.
  do 2 (case_match; simpl_bool; [lia|]). apply (f_equal dec_value) in E.
  rewrite !dec_value_dec in E. lia.
Qed.

Lemma pool_inv_new capacity refillPerSec now : pool_inv (new_pool (T:=T) capacity refillPerSec now).
Proof.
  split; [split|done|]; simpl; try constructor; try lia.
  intros k _. by apply not_elem_of_nil.
Qed.

(** ** A change of one lane *)

Lemma lane_change l queue' p xs ys rest :
  lane_items p l ≡ₚ xs ++ rest -> q_item <$> queue' ≡ₚ ys ++ rest ->
  exists R, all_items p ≡ₚ xs ++ R /\ all_items (set_lane l queue' p) ≡ₚ ys ++ R.
Proof.
  intros Hx Hy. exists (rest ++ (List.filter (fun l' => negb (bool_decide (l' = l))) LANE_PRIORITY
                                 ≫= lane_items p)).
  assert (Hset : forall l', lane_items (set_lane l queue' p) l'
            = if bool_decide (l' = l) then q_item <$> queue' else lane_items p l').
  { intros l'. unfold lane_items. simpl. by case_bool_decide. }
  unfold all_items, LANE_PRIORITY. simpl. rewrite !Hset.
  destruct l; simpl; rewrite Hx, Hy; split; solve_Permutation.
Qed.

(** Items [xs] leave a lane and [ys] enter it; what must hold of both for the
    invariant to survive. *)
Lemma inv_change l queue' p p' xs ys rest :
  pool_inv p ->
  p_lanes p' = p_lanes (set_lane l queue' p) ->
  lane_items p l ≡ₚ xs ++ rest -> q_item <$> queue' ≡ₚ ys ++ rest ->
  Forall (fun it => it_lane it = l) ys ->
  NoDup (it_itemId <$> ys) ->
  (forall it, it ∈ ys -> it_itemId it ∉ (it_itemId <$> all_items p)) ->
  (forall id, id ∈ p_settlements p -> id ∉ (item_id <$> xs) -> id ∈ p_settlements p') ->
  Forall (fun it => exists id, it_itemId it = Some id /\ id ∈ p_settlements p') ys ->
  p_tokens p' = p_tokens p -> p_capacity p' = p_capacity p -> p_refillPerSec p' = p_refillPerSec p ->
  (p_seqCounter p <= p_seqCounter p')%Z ->
  (forall k, (p_seqCounter p' <= k)%Z -> Some (gen_id k) ∉ (it_itemId <$> ys)) ->
  pool_inv p'.
Proof.
  intros [Hok Hseq Hfresh] Hlanes Hx Hy Hylane Hyids Hynew Hset Hypend Ht Hc Hr Hs Hyfresh.
  destruct (lane_change l queue' p xs ys rest Hx Hy) as (R & HR & HR').
  assert (all_items p' = all_items (set_lane l queue' p)) as Ha.
  { unfold all_items, lane_items. by rewrite Hlanes. }
  rewrite <- Ha in HR'. split; [split| |].
  - rewrite HR', fmap_app. apply NoDup_app. split_and!; [done| |].
    + intros id (it & -> & Hin)%list_elem_of_fmap (it' & E & Hin')%list_elem_of_fmap.
      apply (Hynew it Hin). rewrite E. apply list_elem_of_fmap_2. rewrite HR. set_solver.
    + pose proof (ok_ids _ Hok) as Hnd. rewrite HR, fmap_app in Hnd. by apply NoDup_app in Hnd as (_ & _ & ?).
  - rewrite HR'. apply Forall_app. split; [done|]. apply Forall_forall. intros it Hin.
    assert (it ∈ all_items p) as Hin' by (rewrite HR; set_solver).
    destruct (proj1 (Forall_forall _ _) (ok_pending _ Hok) _ Hin') as (id & Hid & Hp).
    exists id. split; [done|]. apply Hset; [done|].
    intros (it' & E & Hin'')%list_elem_of_fmap.
    pose proof (item_ids_NoDup _ _ (ok_pending _ Hok) (ok_ids _ Hok)) as Hnd.
    rewrite HR, fmap_app in Hnd. apply NoDup_app in Hnd as (_ & Hdis & _).
    apply (Hdis id); [rewrite E; by apply list_elem_of_fmap_2|].
    replace id with (item_id it) by (unfold item_id; by rewrite Hid). by apply list_elem_of_fmap_2.
  - intros l'. unfold lane_items. rewrite Hlanes. simpl. case_bool_decide as E; [|apply (ok_lanes _ Hok)].
    subst l'. rewrite Hy. apply Forall_app. split; [done|].
    pose proof (ok_lanes _ Hok l) as Hl. rewrite Hx in Hl. by apply Forall_app in Hl as [_ ?].
  - rewrite Ht, Hc. apply Hok.
  - rewrite Hr. apply Hok.
  - lia.
  - intros k Hk. rewrite HR', fmap_app. apply not_elem_of_app. split; [auto|].
    intros Hin. apply (Hfresh k); [lia|]. rewrite HR, fmap_app. set_solver.
Qed.

Lemma replace_slot_spec it queue old queue' :
  replace_slot it queue = Some (old, queue') ->
  exists pre q post, queue = pre ++ q :: post /\ old = q_item q
    /\ queue' = pre ++ mkQueued it (q_seq q) :: post /\ same_slot it q = true.
Proof.
  revert queue'. induction queue as [|q queue IH]; intros queue' E; simpl in E; [done|].
  destruct (same_slot it q) eqn:Hs; simplify_eq/=; [by exists [], q, queue|].
  destruct (replace_slot it queue) as [[old' rest']|]; simplify_eq.
  destruct (IH _ eq_refl) as (pre & q' & post & -> & -> & -> & ?).
  by exists (q :: pre), q', post.
Qed.

Lemma settle_fields id d p :
  p_lanes (settle id d p) = p_lanes p /\ p_laneCursor (settle id d p) = p_laneCursor p
  /\ p_tokens (settle id d p) = p_tokens p /\ p_lastRefill (settle id d p) = p_lastRefill p
  /\ p_capacity (settle id d p) = p_capacity p /\ p_refillPerSec (settle id d p) = p_refillPerSec p
  /\ p_seqCounter (settle id d p) = p_seqCounter p
  /\ forall id', id' ∈ p_settlements p -> id' <> id -> id' ∈ p_settlements (settle id d p).
Proof. unfold settle. case_bool_decide; simpl; split_and!; try done. set_solver. Qed.

(** Appending a new item to its lane. *)
Lemma push_inv it id seq p p' :
  pool_inv p -> it_itemId it = Some id ->
  Some id ∉ (it_itemId <$> all_items p) ->
  p_lanes p' = p_lanes (set_lane (it_lane it) (p_lanes p (it_lane it) ++ [mkQueued it seq]) p) ->
  p_settlements p' = p_settlements p ∪ {[id]} ->
  p_tokens p' = p_tokens p -> p_capacity p' = p_capacity p -> p_refillPerSec p' = p_refillPerSec p ->
  (p_seqCounter p <= p_seqCounter p')%Z ->
  (forall k, (p_seqCounter p' <= k)%Z -> gen_id k <> id) ->
  pool_inv p'.
Proof.
  intros Hinv Hid Hnew Hlanes Hset Ht Hc Hr Hs Hf.
  eapply (inv_change (it_lane it) _ p p' [] [it] (lane_items p (it_lane it))); try done.
  - rewrite fmap_app. simpl. unfold lane_items. solve_Permutation.
  - by repeat constructor.
  - apply NoDup_singleton.
  - intros it' ->%list_elem_of_singleton. by rewrite Hid.
  - intros id' ? _. rewrite Hset. set_solver.
  - constructor; [|constructor]. exists id. split; [done|]. rewrite Hset. set_solver.
  - intros k Hk. simpl. rewrite Hid. intros [= E]%list_elem_of_singleton. by apply (Hf k).
Qed.

Lemma submit_inv it p : pool_inv p -> op_allowed p (OpSubmit it) -> pool_inv (submit it p).2.
Proof.
  intros Hinv Hal. pose proof (inv_seq _ Hinv) as Hseq. unfold submit.
  destruct (it_itemId it) as [id|] eqn:Hid.
  { destruct (Hal id Hid) as [Hnew Hgen]. eapply (push_inv it id); try done. simpl. lia. }
  set (id := js "rate-limit:" ++ num_to_string (p_seqCounter p)). change id with (gen_id (p_seqCounter p)).
  clear id. set (id := gen_id (p_seqCounter p)). set (it' := with_id id it).
  assert (Some id ∉ (it_itemId <$> all_items p)) as Hnew by (by apply (inv_fresh _ Hinv)).
  assert (forall k, (p_seqCounter p + 1 <= k)%Z -> gen_id k <> id) as Hgen.
  { intros k Hk E. apply gen_id_inj in E; lia. }
  assert (pool_inv (handle id (set_lane (it_lane it)
            (p_lanes p (it_lane it) ++ [mkQueued it' (p_seqCounter p + 1 - 1)]) (next_seq p)))) as Hpush.
  { eapply (push_inv it' id); try done. simpl. lia. }
  simpl. destruct (it_coalesceKey it) as [key|] eqn:Hkey; [|exact Hpush].
  destruct (replace_slot it' (p_lanes p (it_lane it))) as [[old queue']|] eqn:Hrep; [|exact Hpush].
  apply replace_slot_spec in Hrep as (pre & q & post & Hq & -> & -> & Hslot). simpl.
  destruct (settle_fields (item_id (q_item q)) DRemoved (next_seq p))
    as (Hl & _ & Ht & _ & Hc & Hr & Hs & Hset).
  eapply (inv_change (it_lane it) (pre ++ mkQueued it' (q_seq q) :: post) p _
            [q_item q] [it'] (q_item <$> (pre ++ post))); try done.
  - simpl. by rewrite Hl.
  - unfold lane_items. rewrite Hq, !fmap_app. simpl. solve_Permutation.
  - rewrite !fmap_app. simpl. solve_Permutation.
  - by repeat constructor.
  - apply NoDup_singleton.
  - by intros it'' ->%list_elem_of_singleton.
  - intros id' Hin Hne. simpl. apply elem_of_union_l, Hset; [done|]. intros ->. apply Hne. simpl. set_solver.
  - constructor; [|constructor]. exists id. split; [done|]. simpl. set_solver.
  - simpl. rewrite Hs. simpl. lia.
  - intros k Hk. simpl in Hk. rewrite Hs in Hk. simpl.
    intros E%list_elem_of_singleton%(inj Some). exact (Hgen k Hk E).
Qed.

Lemma settle_inv id d p : pool_inv p -> Some id ∉ (it_itemId <$> all_items p) -> pool_inv (settle id d p).
Proof.
  intros [Hok Hseq Hfresh] Hid.
  destruct (settle_fields id d p) as (Hl & _ & Ht & _ & Hc & Hr & Hs & Hset).
  assert (all_items (settle id d p) = all_items p) as Ha by (unfold all_items, lane_items; by rewrite Hl).
  split; [split| |]; rewrite ?Ha, ?Ht, ?Hc, ?Hr, ?Hs; try apply Hok; try done.
  - apply Forall_forall. intros it Hin.
    destruct (proj1 (Forall_forall _ _) (ok_pending _ Hok) _ Hin) as (id' & Hid' & Hp).
    exists id'. split; [done|]. apply Hset; [done|]. intros ->. apply Hid. rewrite <- Hid'.
    by apply list_elem_of_fmap_2.
  - intros l. unfold lane_items. rewrite Hl. apply Hok.
Qed.

(** When items only leave, no identifier comes into use. *)
Lemma inv_shrink p p' :
  pool_inv p -> pool_ok p' -> all_items p' ⊆ all_items p -> p_seqCounter p' = p_seqCounter p -> pool_inv p'.
Proof.
  intros [Hok Hseq Hfresh] Hok' Hsub Hs. split; [done|lia|]. intros k Hk (it & E & Hin)%list_elem_of_fmap.
  apply (Hfresh k); [lia|]. rewrite E. by apply list_elem_of_fmap_2, Hsub.
Qed.

Lemma grants_sub p its p' : grants p its p' -> all_items p ≡ₚ its ++ all_items p'.
Proof.
  induction 1 as [|p l it p1 its p' Htok Hg Hgs IH]; [done|].
  rewrite (grant_all_items _ _ _ _ Hg). simpl. by rewrite <- IH.
Qed.

Lemma drain_inv now p : pool_inv p -> pool_inv (drainWithExpired now p).2.
Proof.
  intros Hinv. destruct (drain_spec now p (inv_ok _ Hinv))
    as (its & p' & -> & Hok' & _ & p0 & Hg & _ & _ & _ & _ & _ & Hs & Ha).
  simpl. apply (inv_shrink p); [done..| |].
  - intros it Hin. assert (it ∈ all_items p0) as Hin0.
    { rewrite (grants_sub _ _ _ Hg). set_solver. }
    rewrite Ha in Hin0. by apply elem_of_bfilter in Hin0 as [? _].
  - apply grants_tokens in Hg as (_ & _ & _ & _ & _ & _ & ->). done.
Qed.

Lemma removeWhere_inv f d p : pool_inv p -> pool_inv (removeWhere f d p).2.
Proof.
  intros Hinv. destruct (removeWhere_ok f d p (inv_ok _ Hinv))
    as (p' & -> & Hok' & _ & Ha & _ & _ & _ & _ & _ & _ & Hs).
  apply (inv_shrink p); [done..| |done]. simpl. rewrite Ha. intros it Hin. by apply elem_of_bfilter in Hin as [? _].
Qed.

Lemma take_first_spec {A} (f : A -> bool) (xs : list A) x xs' :
  take_first f xs = Some (x, xs') ->
  exists pre post, xs = pre ++ x :: post /\ xs' = pre ++ post /\ f x = true.
Proof.
  revert xs'. induction xs as [|y xs IH]; intros xs' E; simpl in E; [done|].
  destruct (f y) eqn:Hf; simplify_eq/=; [by exists [], xs'|].
  destruct (take_first f xs) as [[z zs]|]; simplify_eq.
  destruct (IH _ eq_refl) as (pre & post & -> & -> & ?). by exists (y :: pre), post.
Qed.

Lemma remove_by_id_inv lanes id p : pool_inv p -> pool_inv (remove_by_id lanes id p).2.
Proof.
  intros Hinv. induction lanes as [|l lanes IH]; simpl; [done|].
  destruct (take_first _ _) as [[q queue']|] eqn:Htake; [|done]. simpl.
  apply take_first_spec in Htake as (pre & post & Hq & -> & _).
  destruct (settle_fields (item_id (q_item q)) DRemoved (set_lane l (pre ++ post) p))
    as (Hl & _ & Ht & _ & Hc & Hr & Hs & Hset).
  eapply (inv_change l (pre ++ post) p _ [q_item q] [] (q_item <$> (pre ++ post))); try done.
  - unfold lane_items. rewrite Hq, !fmap_app. simpl. solve_Permutation.
  - constructor.
  - intros it Hin. by apply elem_of_nil in Hin.
  - intros id' Hin Hne. apply Hset; [done|]. intros ->. apply Hne. simpl. set_solver.
  - by rewrite Hs.
  - intros k _. by apply not_elem_of_nil.
Qed.

Lemma available_inv now p : pool_inv p -> pool_inv (availableTokens now p).2.
Proof.
  intros [Hok Hseq Hfresh]. destruct (refill_ok now p Hok) as (Hok1 & Hl1 & _ & _ & Hq1 & _). simpl.
  split; rewrite ?Hq1; try done. unfold all_items, lane_items. by rewrite Hl1.
Qed.

Lemma exec_op_inv op p : pool_inv p -> op_allowed p op -> pool_inv (exec_op op p).2.
Proof.
  intros Hinv Hal. destruct op; cbn [exec_op snd].
  - by apply submit_inv.
  - by apply settle_inv.
  - unfold drain. pose proof (drain_inv nowMs p Hinv). by destruct (drainWithExpired nowMs p).
  - by apply removeWhere_inv.
  - by apply remove_by_id_inv.
  - by apply available_inv.
Qed.

Lemma pool_reachable_inv p : reachable p -> pool_inv p.
Proof. induction 1; [apply pool_inv_new|by apply exec_op_inv]. Qed.

(** ** The rate *)

Fixpoint run_ops (ops : list pool_op) p : list (RateLimitItem T) * RateLimitPool T :=
  match ops with
  | [] => ([], p)
  | op :: ops => let (g, p) := exec_op op p in let (g', p) := run_ops ops p in (g ++ g', p)
  end.

Definition same_bucket p p' : Prop :=
  p_tokens p' = p_tokens p /\ p_capacity p' = p_capacity p
  /\ p_refillPerSec p' = p_refillPerSec p /\ p_lastRefill p' = p_lastRefill p.

#[global] Instance same_bucket_preorder : PreOrder same_bucket.
Proof.
  split; [by intros p|]. intros p1 p2 p3 (?&?&?&?) (?&?&?&?). split_and!; congruence.
Qed.

Lemma settle_bucket id d p : same_bucket p (settle id d p).
Proof. unfold settle. by case_bool_decide. Qed.

Lemma settle_all_bucket d its p : same_bucket p (settle_all d its p).
Proof.
  unfold settle_all. revert p. induction its as [|it its IH]; intros p; simpl; [done|].
  etrans; [apply settle_bucket|apply IH].
Qed.

Lemma submit_bucket it p : same_bucket p (submit it p).2.
Proof.
  unfold submit. destruct (it_itemId it); [done|]. destruct (it_coalesceKey _); [|done].
  destruct (replace_slot _ _) as [[old queue']|]; [|done].
  etrans; [|apply (settle_bucket (item_id old) DRemoved (next_seq p))]. done.
Qed.

Lemma removeWhere_bucket f d p : same_bucket p (removeWhere f d p).2.
Proof.
  destruct (removeWhere_spec f d p) as (f' & -> & _). simpl.
  etrans; [apply (settle_all_bucket d (List.filter f (all_items p)))|]. done.
Qed.

Lemma removeById_bucket lanes id p : same_bucket p (remove_by_id lanes id p).2.
Proof.
  induction lanes as [|l lanes IH]; simpl; [done|]. destruct (take_first _ _) as [[q queue']|]; [|done].
  simpl. etrans; [|apply settle_bucket]. done.
Qed.

Lemma take_next_bucket lanes p : same_bucket p (take_next lanes p).2.
Proof.
  induction lanes as [|l lanes IH]; simpl; [done|]. destruct (p_lanes p l) eqn:Hl; [done|]. rewrite <- Hl.
  destruct (pick_spec l (p_lanes p l) p) as (idx & x & p1 & -> & _ & Hp1); [by rewrite Hl|].
  assert (same_bucket p p1) by (destruct Hp1 as [(_ & _ & ->)|(_ & _ & ->)]; done).
  by destruct (p_lanes p l !! idx).
Qed.

(** Every item of the result was paid for, also when the loop ends in an error. *)
Lemma grant_loop_paid fuel acc p :
  (0 <= p_tokens p)%Z ->
  let (r, p') := grant_loop fuel acc p in
  (0 <= p_tokens p')%Z /\ p_capacity p' = p_capacity p /\ p_refillPerSec p' = p_refillPerSec p
  /\ p_lastRefill p' = p_lastRefill p
  /\ (p_tokens p' + 1000 * Z.of_nat (length (match r with Ok g => g | Err _ => acc end))
      <= p_tokens p + 1000 * Z.of_nat (length acc))%Z.
Proof.
  revert acc p. induction fuel as [|fuel IH]; intros acc p Hp; simpl; [split_and!; [done..|lia]|].
  destruct (Z.ltb_spec (p_tokens p) 1000) as [Hlt|Hge]; [split_and!; [done..|lia]|].
  pose proof (take_next_bucket LANE_PRIORITY p) as (Ht & Hc & Hr & Hl). fold (takeNext p) in *.
  destruct (takeNext p) as [[[it|]|e] p1]; simpl in *; [|split_and!; [lia|done..|lia]|split_and!; [lia|done..|lia]].
  specialize (IH (acc ++ [it]) (set_tokens (p_tokens p1 - 1000) (p_lastRefill p1) p1)).
  destruct (grant_loop fuel _ _) as [r p']. simpl in IH.
  destruct IH as (? & ? & ? & ? & Hb); [lia|]. split_and!; [done|congruence..|].
  destruct r; rewrite ?length_app in Hb; simpl in Hb; lia.
Qed.

Definition bucket_ok p : Prop := (0 <= p_tokens p <= p_capacity p)%Z /\ (0 <= p_refillPerSec p)%Z.

(** The potential: tokens left and items granted are covered by the tokens before
    and the refill of the time that passed. *)
Definition paid p (n : nat) p' : Prop :=
  bucket_ok p' /\ p_capacity p' = p_capacity p /\ p_refillPerSec p' = p_refillPerSec p
  /\ (p_lastRefill p <= p_lastRefill p')%Z
  /\ (p_tokens p' + 1000 * Z.of_nat n
      <= p_tokens p + p_refillPerSec p * (p_lastRefill p' - p_lastRefill p))%Z.

Lemma paid_bucket p p' : bucket_ok p -> same_bucket p p' -> paid p 0 p'.
Proof. intros [? ?] (Ht & Hc & Hr & Hl). unfold paid, bucket_ok. rewrite Ht, Hc, Hr, Hl. split_and!; lia. Qed.

Lemma paid_trans p1 n p2 m p3 : paid p1 n p2 -> paid p2 m p3 -> paid p1 (n + m) p3.
Proof.
  intros (_ & Hc & Hr & Hl & Hb) (Hok & Hc' & Hr' & Hl' & Hb'). rewrite Hr in Hb'.
  split_and!; [apply Hok..|congruence|congruence|lia|nia].
Qed.

Lemma refill_paid now p : bucket_ok p -> paid p 0 (refill now p).
Proof.
  intros [? ?]. unfold refill. case_match; simpl_bool; unfold paid, bucket_ok; simpl; split_and!; try done; try lia; nia.
Qed.

Lemma drain_paid now p : bucket_ok p -> paid p (length (exec_op (OpDrain now) p).1) (exec_op (OpDrain now) p).2.
Proof.
  intros Hok. pose proof (refill_paid now p Hok) as H1. cbn [exec_op]. unfold drain, drainWithExpired.
  pose proof (removeWhere_bucket (expired_at now) DExpired (refill now p)) as H2.
  destruct (removeWhere _ _ _) as [expired p2]. cbn [snd] in H2.
  assert (paid p 0 p2) as H3.
  { apply (paid_trans _ _ _ _ _ H1). apply paid_bucket; [apply H1|done]. }
  pose proof (grant_loop_paid (S (pending p2)) [] p2) as H4.
  destruct (grant_loop _ _ _) as [r p3]. destruct H3 as (Hok2 & ? & ? & ? & ?), Hok2 as [? ?].
  destruct H4 as (? & ? & ? & ? & Hb); [lia|].
  assert (forall n, (p_tokens p3 + 1000 * Z.of_nat n <= p_tokens p2)%Z -> paid p n p3) as Hp.
  { intros n Hn. unfold paid, bucket_ok. split_and!; try lia; try congruence. }
  destruct r; apply Hp; simpl in Hb |- *; lia.
Qed.

Lemma exec_op_paid op p : bucket_ok p -> paid p (length (exec_op op p).1) (exec_op op p).2.
Proof.
  intros Hok. destruct op; [..|apply drain_paid| | |]; try done; cbn [exec_op fst snd length].
  - by apply paid_bucket, submit_bucket.
  - by apply paid_bucket, settle_bucket.
  - by apply paid_bucket, removeWhere_bucket.
  - by apply paid_bucket, removeById_bucket.
  - by apply refill_paid.
Qed.

Lemma run_ops_paid ops p : bucket_ok p -> paid p (length (run_ops ops p).1) (run_ops ops p).2.
Proof.
  revert p. induction ops as [|op ops IH]; intros p Hok; simpl; [by apply paid_bucket|].
  pose proof (exec_op_paid op p Hok) as H1. destruct (exec_op op p) as [g p1].
  pose proof (IH p1 (proj1 H1)) as H2. destruct (run_ops ops p1) as [g' p2]. simpl in *.
  rewrite length_app. by eapply paid_trans.
Qed.

(** ** Waiting *)




Section waiting.
Context (l : RateLimitLane) (it0 : RateLimitItem T) (N : nat).







(** ** Submissions while the item waits *)









End waiting.

End facts.

(** ** The contract *)

Section contract.
Context {T : Type}.

(** From every pool the callers can reach, a drain returns: it expires exactly
    the queued items whose deadline has passed, in queue order, and settles each of
    them as expired; within a session and a lane it grants first in first out, and
    what it does not grant stays queued in order; lanes are served strictly by
    priority, a lower one only once every higher one is empty; each grant costs one
    token of the refilled bucket; and it stops only when no whole token or no item is
    left. *)
Theorem drain_exact (p : RateLimitPool T) (nowMs : Z) :
  reachable p ->
  exists granted p',
    drainWithExpired nowMs p
      = (Ok (mkDrain granted (List.filter (expired_at nowMs) (all_items p))), p')
    /\ (forall l s, of_session s (in_lane l granted) ++ of_session s (lane_items p' l)
          = of_session s (List.filter (fun it => negb (expired_at nowMs it)) (lane_items p l)))
    /\ StronglySorted (fun a b => lane_rank (it_lane a) <= lane_rank (it_lane b)) granted
    /\ (forall it l, it ∈ granted -> lane_rank l < lane_rank (it_lane it) -> lane_items p' l = [])
    /\ ((p_tokens p' < 1000)%Z \/ all_items p' = [])
    /\ p_tokens p' = (Z.min (p_capacity p) (p_tokens p + Z.max 0 (nowMs - p_lastRefill p) * p_refillPerSec p)
                      - 1000 * Z.of_nat (length granted))%Z
    /\ p_settled p' = p_settled p ++ ((fun it => (item_id it, DExpired)) <$>
                                      List.filter (expired_at nowMs) (all_items p)).
Proof.
  intros Hr. destruct (drain_spec nowMs p (inv_ok _ (pool_reachable_inv _ Hr)))
    as (its & p' & Heq & Hok' & Hend & p0 & Hg & Hok0 & Hl & Ht & Hs & _).
  destruct (grants_priority _ _ _ Hg Hok0) as [Hsorted Hprio].
  destruct (grants_tokens _ _ _ Hg) as (Htok & _ & _ & _ & _ & Hset & _).
  exists its, p'. split_and!; [done| |done| |done|by rewrite Htok, Ht|by rewrite Hset].
  - intros l s. rewrite (grants_fifo _ _ _ l s Hg Hok0). unfold lane_items. by rewrite Hl, stays_items.
  - intros it l Hin Hlt. unfold lane_items. by rewrite (Hprio it l).
Qed.

(** C35: In every window of every run of the pool, whatever the callers do, the items
    granted are at most the burst capacity plus the refill of the time the pool's
    clock advanced in the window. *)
Theorem grants_within_rate (capacity refillPerSec : option Z) (t0 : Z) (before window : list (@pool_op T)) :
  let p := (run_ops before (new_pool capacity refillPerSec t0)).2 in
  let (granted, p') := run_ops window p in
  (p_lastRefill p <= p_lastRefill p')%Z
  /\ (1000 * Z.of_nat (length granted)
      <= 1000 * Z.max 1 (default 20 capacity)
         + Z.max 0 (default 1 refillPerSec) * (p_lastRefill p' - p_lastRefill p))%Z.
Proof.
  intros p. assert (bucket_ok (new_pool (T:=T) capacity refillPerSec t0)) as Hok.
  { split; simpl; lia. }
  destruct (run_ops_paid before _ Hok) as (Hok1 & Hc & Hr & _). fold p in Hok1, Hc, Hr. simpl in Hc, Hr.
  pose proof (run_ops_paid window p Hok1) as (Hok2 & _ & _ & Hl & Hb).
  destruct (run_ops window p) as [granted p']. simpl in *. split; [done|].
  destruct Hok1 as [Ht1 _], Hok2 as [Ht2 _]. rewrite Hr in Hb. lia.
Qed.


End contract.

(** ** On concrete pools *)

Definition demo_item (session : string) (lane : RateLimitLane) (id key : option string) (deadline : option Z)
    (payload : nat) : RateLimitItem nat :=
  mkItem (js session) lane (js <$> key) (js <$> id) deadline payload.

(** Sessions A, B and A again in the live lane, a question with a deadline and an
    idle item. *)
Definition demo_ops : list (@pool_op nat) :=
  [OpSubmit (demo_item "A" LaneLive None None None 1);
   OpSubmit (demo_item "B" LaneLive None None None 2);
   OpSubmit (demo_item "A" LaneLive None (Some "k") None 3);
   OpSubmit (demo_item "C" LaneAsk None None (Some 5%Z) 4);
   OpSubmit (demo_item "C" LaneIdle None None None 5)].

Definition demo_pool (capacity : Z) : RateLimitPool nat :=
  (run_ops demo_ops (new_pool (Some capacity) (Some 1%Z) 0)).2.

Definition anonymous {T} (op : @pool_op T) : Prop :=
  match op with OpSubmit it => it_itemId it = None | OpSettle _ _ => False | _ => True end.

Lemma run_ops_reachable {T} (ops : list (@pool_op T)) p :
  reachable p -> Forall anonymous ops -> reachable (run_ops ops p).2.
Proof.
  intros Hr Hops. revert p Hr. induction Hops as [|op ops Hop Hops IH]; intros p Hr; simpl; [done|].
  assert (reachable (exec_op op p).2) as Hr1.
  { constructor; [done|]. destruct op; simpl in *; try done. intros id. by rewrite Hop. }
  destruct (exec_op op p) as [g p1]. specialize (IH p1 Hr1). by destruct (run_ops ops p1).
Qed.

Lemma demo_reachable capacity : reachable (demo_pool capacity).
Proof. apply run_ops_reachable; [constructor|repeat constructor]. Qed.


Definition granted_payloads (r : result RateLimitError (RateLimitDrainResult nat)) : list nat :=
  match r with Ok d => it_payload <$> dr_granted d | Err _ => [] end.

Lemma drain_exact_witness :
  exists granted p',
    drainWithExpired 10 (demo_pool 3)
      = (Ok (mkDrain granted (List.filter (expired_at 10) (all_items (demo_pool 3)))), p')
    /\ (it_payload <$> granted) = [1; 3; 2].
Proof.
  assert (granted_payloads (drainWithExpired 10 (demo_pool 3)).1 = [1; 3; 2]) as E
    by (vm_compute; reflexivity).
  destruct (drain_exact (demo_pool 3) 10 (demo_reachable 3)) as (granted & p' & Heq & _).
  exists granted, p'. split; [exact Heq|]. rewrite Heq in E. exact E.
Defined.




(** The cursor counts positions of a list of sessions that changes with every grant:
    of the queue A1 B A2 both items of A are served before B's. *)
Example cursor_skips_a_session :
  granted_payloads (drainWithExpired 10 (demo_pool 2)).1 = [1; 3].
Proof. vm_compute. reflexivity. Qed.

(** An identified item is replaced, and settled as removed, by an anonymous
    submission of the same session, lane and coalesce key. *)
Example identified_item_coalesced :
  let p := (run_ops [OpSubmit (demo_item "A" LaneLive (Some "mine") (Some "k") None 1);
                     OpSubmit (demo_item "A" LaneLive None (Some "k") None 2)]
              (new_pool None None 0)).2 in
  (it_payload <$> lane_items p LaneLive) = [2] /\ p_settled p = [(js "mine", DRemoved)].
Proof. vm_compute. split; reflexivity. Qed.

(** Two queued items under one identifier: the second is lost when the first is
    settled before it is granted, and the drain throws. *)
Example duplicate_id_loses_item :
  let p := (run_ops [OpSubmit (demo_item "A" LaneLive (Some "x") None None 1);
                     OpSubmit (demo_item "A" LaneLive (Some "x") None None 2);
                     OpRemoveById (js "x")]
              (new_pool None None 0)).2 in
  pending p = 1 /\ (drain 1 p).1 = Err (UnknownItem (js "x")) /\ pending (drain 1 p).2 = 0.
Proof. vm_compute. split_and!; reflexivity. Qed.
