(* ===== verification/GoalRuntime.v ===== *)
(** * Goal mode (goals/state.ts, goals/runtime.ts)

    A session works on at most one goal.  The runtime guards its life cycle and
    accounts the tokens and the seconds spent while the goal is active: usage is
    counted from a baseline taken when the accounting of a turn starts, time from the
    moment the goal was last accounted.  The host holds the state, persists it and
    emits events; both are logs here.  The clock, the usage counters and the next
    identifier are read from an environment, once per operation.  An operation is one
    step, as it is when no other call is under way: the promise chain of [#withAccounting]
    serialises the parts that run under it, but [onTurnStart] runs outside it, [onAgentEnd]
    drops its turn after it, and [flushUsage] reads the usage before it waits for it, and
    such overlaps are not modelled. *)

From S2P Require Import Prelude JsText Json.

(** ** Data (state.ts) *)

Inductive GoalStatus := GSActive | GSPaused | GSComplete | GSDropped.

#[export] Instance GoalStatus_eq_dec : EqDecision GoalStatus.
Proof. solve_decision. Defined.

Inductive GoalProvenance := PUltragoal (runId goalId : jsstring) | PUser.

Record Goal := mkGoal {
  g_id : jsstring;
  g_objective : jsstring;
  g_status : GoalStatus;
  g_tokensUsed : Z;
  g_timeUsedSeconds : Z;
  g_createdAt : Z;
  g_updatedAt : Z;
  g_provenance : option GoalProvenance
}.

Inductive goal_mode := GMActive | GMExiting.

Record GoalModeState := mkGoalState {
  gs_enabled : bool;
  gs_mode : goal_mode;
  gs_completed : bool;  (** [reason === "completed"] *)
  gs_goal : Goal
}.

Record GoalTokenUsage := mkUsage { u_input : Z; u_output : Z; u_cacheRead : Z; u_cacheWrite : Z }.

(** ** Reading a persisted goal (state.ts) *)

Definition status_of_string (s : jsstring) : option GoalStatus :=
  if bool_decide (s = js "active") then Some GSActive
  else if bool_decide (s = js "paused") then Some GSPaused
  else if bool_decide (s = js "complete") then Some GSComplete
  else if bool_decide (s = js "dropped") then Some GSDropped
  else None.

(** The field [provenance]: absent, of one of the two forms, or a reason to reject. *)
Definition read_provenance (v : option json) : option (option GoalProvenance) :=
  match v with
  | None => Some None
  | Some (JArr _) | Some (JObj _) =>
      if is_str (js "ultragoal") (jget (js "source") v) then
        match jget (js "runId") v, jget (js "goalId") v with
        | Some (JStr runId), Some (JStr goalId) => Some (Some (PUltragoal runId goalId))
        | _, _ => None
        end
      else if is_str (js "user") (jget (js "source") v) then Some (Some PUser)
      else None
  | Some _ => None
  end.

Definition normalizeGoal (candidate : option json) : option Goal :=
  match jget (js "id") candidate, jget (js "objective") candidate, jget (js "status") candidate with
  | Some (JStr id), Some (JStr objective), Some (JStr status) =>
      match jget (js "tokensUsed") candidate, jget (js "timeUsedSeconds") candidate,
            jget (js "createdAt") candidate, jget (js "updatedAt") candidate with
      | Some (JNum tokensUsed), Some (JNum timeUsedSeconds), Some (JNum createdAt), Some (JNum updatedAt) =>
          let status := if bool_decide (status = js "budget-limited") then js "active" else status in
          match status_of_string status, read_provenance (jget (js "provenance") candidate) with
          | Some status, Some provenance =>
              Some (mkGoal id objective status tokensUsed timeUsedSeconds createdAt updatedAt provenance)
          | _, _ => None
          end
      | _, _, _, _ => None
      end
  | _, _, _ => None
  end.

(** A goal as the object the session stores. *)
Definition status_string (s : GoalStatus) : jsstring :=
  match s with
  | GSActive => js "active" | GSPaused => js "paused" | GSComplete => js "complete" | GSDropped => js "dropped"
  end.

Definition provenance_json (p : GoalProvenance) : json :=
  match p with
  | PUltragoal runId goalId =>
      JObj [(js "source", JStr (js "ultragoal")); (js "runId", JStr runId); (js "goalId", JStr goalId)]
  | PUser => JObj [(js "source", JStr (js "user"))]
  end.

Definition goal_json (g : Goal) : json :=
  JObj ([(js "id", JStr (g_id g)); (js "objective", JStr (g_objective g));
         (js "status", JStr (status_string (g_status g)));
         (js "tokensUsed", JNum (g_tokensUsed g)); (js "timeUsedSeconds", JNum (g_timeUsedSeconds g));
         (js "createdAt", JNum (g_createdAt g)); (js "updatedAt", JNum (g_updatedAt g))]
        ++ match g_provenance g with Some p => [(js "provenance", provenance_json p)] | None => [] end).

Definition with_goal (s : GoalModeState) (g : Goal) : GoalModeState :=
  mkGoalState (gs_enabled s) (gs_mode s) (gs_completed s) g.

Definition normalizeGoalModeState (candidate : option GoalModeState) : option GoalModeState :=
  match candidate with
  | None => None
  | Some s => match normalizeGoal (Some (goal_json (gs_goal s))) with
              | None => None
              | Some goal => Some (with_goal s goal)
              end
  end.

(** ** The text of an objective (runtime.ts) *)

Definition AMP : N := 38.
Definition LT : N := 60.
Definition GT : N := 62.

Definition escapable (c : N) : bool := (c =? AMP)%N || (c =? LT)%N || (c =? GT)%N.

Definition escape_char (c : N) : jsstring :=
  if (c =? AMP)%N then js "&amp;" else if (c =? LT)%N then js "&lt;" else if (c =? GT)%N then js "&gt;" else [c].

(** The prefix before the first character to escape is copied as it is. *)
Definition escapeXmlText (input : jsstring) : jsstring :=
  let (plain, rest) := span (fun c => negb (escapable c)) input in
  match rest with [] => input | _ :: _ => plain ++ (rest ≫= escape_char) end.

Definition renderTrustedObjective (objective : jsstring) : jsstring :=
  js "<objective>" ++ [LF] ++ escapeXmlText objective ++ [LF] ++ js "</objective>".

Inductive objective_op := OpNameCreate | OpNameReplace.

Inductive GoalError :=
| ObjectiveRequired (op : objective_op)
| ObjectiveIsCommand
| AlreadyHasGoal
| NoActiveGoalToReplace
| NoPausedGoal
| GoalIsComplete
| CannotPause (status : GoalStatus)
| NoGoalToComplete
| AlreadyComplete
| CannotCompleteDropped.

Definition validateGoalObjective (objective : jsstring) (op : objective_op) : result GoalError jsstring :=
  let trimmed := trim objective in
  if bool_decide (trimmed = []) then Err (ObjectiveRequired op)
  else if bool_decide (trimmed = js "/goal") then Err ObjectiveIsCommand
  else Ok trimmed.

Definition goalTokenDelta (current baseline : GoalTokenUsage) : Z :=
  Z.max 0 (u_input current - u_input baseline)
  + Z.max 0 (u_cacheWrite current - u_cacheWrite baseline)
  + Z.max 0 (u_output current - u_output baseline).

(** ** The runtime *)

Record GoalTurnSnapshot := mkTurn {
  ts_turnId : jsstring;
  ts_baselineUsage : GoalTokenUsage;
  ts_activeGoalId : option jsstring
}.

Record GoalWallClockSnapshot := mkWall { wc_lastAccountedAt : Z; wc_activeGoalId : option jsstring }.

Inductive persist_mode := PersistGoal | PersistPaused | PersistNone.

Record GoalRuntime := mkRuntime {
  r_state : option GoalModeState;
  r_turn : option GoalTurnSnapshot;
  r_wall : GoalWallClockSnapshot;
  r_persisted : list (persist_mode * option GoalModeState);
  r_events : list (option Goal * option GoalModeState)
}.

(** What the runtime reads from its host. *)
Record goal_env := mkEnv { e_now : Z; e_usage : GoalTokenUsage; e_nextId : jsstring }.

Definition new_runtime (state : option GoalModeState) (now : Z) : GoalRuntime :=
  mkRuntime state None (mkWall now None) [] [].

Definition isAccountingStatus (g : Goal) : bool := bool_decide (g_status g = GSActive).

Definition getStateClone (r : GoalRuntime) : option GoalModeState := normalizeGoalModeState (r_state r).

Definition accounting_state (s : GoalModeState) : bool := gs_enabled s && isAccountingStatus (gs_goal s).

Definition hasAccountingState (r : GoalRuntime) : bool :=
  match getStateClone r with Some s => accounting_state s | None => false end.

Definition shouldTrackTurnBaseline (r : GoalRuntime) : bool := hasAccountingState r.

Definition set_turn (t : option GoalTurnSnapshot) (r : GoalRuntime) : GoalRuntime :=
  mkRuntime (r_state r) t (r_wall r) (r_persisted r) (r_events r).

Definition set_wall (w : GoalWallClockSnapshot) (r : GoalRuntime) : GoalRuntime :=
  mkRuntime (r_state r) (r_turn r) w (r_persisted r) (r_events r).

Definition emit (goal : option Goal) (state : option GoalModeState) (r : GoalRuntime) : GoalRuntime :=
  mkRuntime (r_state r) (r_turn r) (r_wall r) (r_persisted r) (r_events r ++ [(goal, state)]).

Definition commitState (state : option GoalModeState) (persist : option persist_mode) (emits : bool)
    (r : GoalRuntime) : GoalRuntime :=
  let r := mkRuntime state (r_turn r) (r_wall r)
             (match persist with Some m => r_persisted r ++ [(m, state)] | None => r_persisted r end)
             (r_events r) in
  if emits then emit (gs_goal <$> state) state r else r.

Definition markActiveAccounting (e : goal_env) (goal : Goal) (r : GoalRuntime) : GoalRuntime :=
  let r := if bool_decide (wc_activeGoalId (r_wall r) = Some (g_id goal)) then r
           else set_wall (mkWall (e_now e) (Some (g_id goal))) r in
  match r_turn r with
  | Some t => set_turn (Some (mkTurn (ts_turnId t) (e_usage e) (Some (g_id goal)))) r
  | None => set_turn (Some (mkTurn (js "activation-" ++ g_id goal) (e_usage e) (Some (g_id goal)))) r
  end.

Definition clearActiveAccounting (e : goal_env) (r : GoalRuntime) : GoalRuntime :=
  let r := set_wall (mkWall (e_now e) None) r in
  match r_turn r with
  | Some t => set_turn (Some (mkTurn (ts_turnId t) (ts_baselineUsage t) None)) r
  | None => r
  end.

Definition onTurnStart (e : goal_env) (turnId : jsstring) (baselineUsage : GoalTokenUsage) (r : GoalRuntime)
    : GoalRuntime :=
  let r := set_turn (Some (mkTurn turnId baselineUsage None)) r in
  match getStateClone r with
  | Some s =>
      if accounting_state s then
        let id := g_id (gs_goal s) in
        let r := set_turn (Some (mkTurn turnId baselineUsage (Some id))) r in
        if bool_decide (wc_activeGoalId (r_wall r) = Some id) then r
        else set_wall (mkWall (e_now e) (Some id)) r
      else r
  | None => r
  end.

(** *** Accounting *)

Definition turn_tracks (id : jsstring) (r : GoalRuntime) : bool :=
  match r_turn r with Some t => bool_decide (ts_activeGoalId t = Some id) | None => false end.

Definition wall_tracks (id : jsstring) (r : GoalRuntime) : bool :=
  bool_decide (wc_activeGoalId (r_wall r) = Some id).

(** [this.#turnSnapshot.baselineUsage = ...] *)
Definition rebase_turn (u : GoalTokenUsage) (r : GoalRuntime) : GoalRuntime :=
  match r_turn r with
  | Some t => set_turn (Some (mkTurn (ts_turnId t) u (ts_activeGoalId t))) r
  | None => r
  end.

Definition turn_delta (u : GoalTokenUsage) (r : GoalRuntime) : Z :=
  match r_turn r with Some t => goalTokenDelta u (ts_baselineUsage t) | None => 0%Z end.

Definition charge (g : Goal) (tokens seconds now : Z) : Goal :=
  mkGoal (g_id g) (g_objective g) (g_status g) (g_tokensUsed g + tokens) (g_timeUsedSeconds g + seconds)
    (g_createdAt g) now (g_provenance g).

Definition flushUsageLocked (e : goal_env) (currentUsage : GoalTokenUsage) (r : GoalRuntime) : GoalRuntime :=
  match getStateClone r with
  | None => r
  | Some s =>
      let goal := gs_goal s in
      if negb (accounting_state s) then r
      else if negb (turn_tracks (g_id goal) r) && negb (wall_tracks (g_id goal) r) then r
      else
        let tokenDelta := if turn_tracks (g_id goal) r then turn_delta currentUsage r else 0%Z in
        let wallSeconds := if wall_tracks (g_id goal) r
                           then Z.max 0 ((e_now e - wc_lastAccountedAt (r_wall r)) / 1000) else 0%Z in
        if (tokenDelta <=? 0)%Z && (wallSeconds <=? 0)%Z then r
        else
          let goal := charge goal tokenDelta wallSeconds (e_now e) in
          let r := if turn_tracks (g_id goal) r then rebase_turn currentUsage r else r in
          let r := if wall_tracks (g_id goal) r && (0 <? wallSeconds)%Z
                   then set_wall (mkWall (wc_lastAccountedAt (r_wall r) + wallSeconds * 1000)
                                         (wc_activeGoalId (r_wall r))) r
                   else r in
          commitState (Some (with_goal s goal)) (Some PersistGoal) true r
  end.

Definition flushUsage (e : goal_env) (currentUsage : GoalTokenUsage) (r : GoalRuntime) : GoalRuntime :=
  flushUsageLocked e currentUsage r.

(** *** Session events *)

Definition onToolCompleted (e : goal_env) (toolName : jsstring) (r : GoalRuntime) : GoalRuntime :=
  if bool_decide (toolName = js "goal") then r
  else if negb (hasAccountingState r) then r
  else flushUsage e (e_usage e) r.

Definition onGoalToolCompleted (e : goal_env) (r : GoalRuntime) : GoalRuntime :=
  if negb (hasAccountingState r) then r else flushUsage e (e_usage e) r.

Definition onAgentEnd (e : goal_env) (currentUsage : option GoalTokenUsage) (r : GoalRuntime) : GoalRuntime :=
  if negb (hasAccountingState r) then set_turn None r
  else set_turn None (flushUsage e (default (e_usage e) currentUsage) r).

Definition touched (g : Goal) (status : GoalStatus) (now : Z) : Goal :=
  mkGoal (g_id g) (g_objective g) status (g_tokensUsed g) (g_timeUsedSeconds g) (g_createdAt g) now
    (g_provenance g).

Definition onTaskAborted (e : goal_env) (r : GoalRuntime) : GoalRuntime :=
  if negb (hasAccountingState r) then set_turn None r
  else
    let r := set_turn None (flushUsageLocked e (e_usage e) r) in
    match getStateClone r with
    | Some s =>
        if accounting_state s then
          let goal := touched (gs_goal s) (g_status (gs_goal s)) (e_now e) in
          commitState (Some (with_goal s goal)) (Some PersistGoal) true (markActiveAccounting e goal r)
        else r
    | None => r
    end.

Definition onThreadResumed (e : goal_env) (r : GoalRuntime) : option GoalModeState * GoalRuntime :=
  match getStateClone r with
  | None => (None, r)
  | Some s =>
      let s := mkGoalState (gs_enabled s || bool_decide (g_status (gs_goal s) = GSActive))
                 (gs_mode s) (gs_completed s) (gs_goal s) in
      let r := if accounting_state s then markActiveAccounting e (gs_goal s) r
               else clearActiveAccounting e r in
      (Some s, commitState (Some s) None true r)
  end.

(** *** The life cycle *)

Definition createGoalState (e : goal_env) (objective : jsstring) (provenance : GoalProvenance) : GoalModeState :=
  mkGoalState true GMActive false
    (mkGoal (e_nextId e) objective GSActive 0 0 (e_now e) (e_now e) (Some provenance)).

Definition start_goal (e : goal_env) (objective : jsstring) (provenance : GoalProvenance) (r : GoalRuntime)
    : GoalModeState * GoalRuntime :=
  let s := createGoalState e objective provenance in
  (s, commitState (Some s) (Some PersistGoal) true (markActiveAccounting e (gs_goal s) r)).

Definition createGoal (e : goal_env) (objective : jsstring) (provenance : option GoalProvenance) (r : GoalRuntime)
    : result GoalError GoalModeState * GoalRuntime :=
  match validateGoalObjective objective OpNameCreate with
  | Err err => (Err err, r)
  | Ok objective =>
      let taken := match getStateClone r with
                   | Some s => negb (bool_decide (g_status (gs_goal s) = GSDropped))
                               && negb (bool_decide (g_status (gs_goal s) = GSComplete))
                   | None => false
                   end in
      if taken then (Err AlreadyHasGoal, r)
      else let (s, r) := start_goal e objective (default PUser provenance) r in (Ok s, r)
  end.

Definition replaceGoal (e : goal_env) (objective : jsstring) (r : GoalRuntime)
    : result GoalError GoalModeState * GoalRuntime :=
  match validateGoalObjective objective OpNameReplace with
  | Err err => (Err err, r)
  | Ok objective =>
      if negb (hasAccountingState r) then (Err NoActiveGoalToReplace, r)
      else let (s, r) := start_goal e objective PUser (flushUsageLocked e (e_usage e) r) in (Ok s, r)
  end.

Definition resumeGoal (e : goal_env) (r : GoalRuntime) : result GoalError GoalModeState * GoalRuntime :=
  match getStateClone r with
  | None => (Err NoPausedGoal, r)
  | Some s =>
      if bool_decide (g_status (gs_goal s) = GSComplete) then (Err GoalIsComplete, r)
      else
        let s := mkGoalState true GMActive false (touched (gs_goal s) GSActive (e_now e)) in
        (Ok s, commitState (Some s) (Some PersistGoal) true (markActiveAccounting e (gs_goal s) r))
  end.

Definition pauseGoal (e : goal_env) (r : GoalRuntime)
    : result GoalError (option GoalModeState) * GoalRuntime :=
  let r := flushUsageLocked e (e_usage e) r in
  match getStateClone r with
  | None => (Ok None, r)
  | Some s =>
      if bool_decide (g_status (gs_goal s) = GSActive) then
        let s := mkGoalState false GMActive false (touched (gs_goal s) GSPaused (e_now e)) in
        (Ok (Some s), commitState (Some s) (Some PersistPaused) true (clearActiveAccounting e r))
      else (Err (CannotPause (g_status (gs_goal s))), r)
  end.

Definition dropGoal (e : goal_env) (r : GoalRuntime) : option Goal * GoalRuntime :=
  let r := flushUsageLocked e (e_usage e) r in
  match getStateClone r with
  | None => (None, r)
  | Some s =>
      let dropped := touched (gs_goal s) GSDropped (e_now e) in
      let r := clearActiveAccounting e r in
      let r := emit (Some dropped) (Some (mkGoalState false (gs_mode s) (gs_completed s) dropped)) r in
      (Some dropped, commitState None (Some PersistNone) false r)
  end.

Definition completeGoalFromTool (e : goal_env) (r : GoalRuntime) : result GoalError Goal * GoalRuntime :=
  let r := flushUsageLocked e (e_usage e) r in
  match getStateClone r with
  | None => (Err NoGoalToComplete, r)
  | Some s =>
      match g_status (gs_goal s) with
      | GSComplete => (Err AlreadyComplete, r)
      | GSDropped => (Err CannotCompleteDropped, r)
      | _ =>
          let goal := touched (gs_goal s) GSComplete (e_now e) in
          let s := mkGoalState false GMExiting true goal in
          (Ok goal, commitState (Some s) (Some PersistGoal) true (clearActiveAccounting e r))
      end
  end.

(** ** Prompts *)

Section prompts.
(** [prompt.render(template, { objective })] *)
Context {template : Type} (render : template -> jsstring -> jsstring).
Context (goalModeActivePrompt goalContinuationPrompt : template).

Inductive GoalPromptKind := PromptActive | PromptContinuation.

Definition renderGoalPrompt (kind : GoalPromptKind) (goal : Goal) : jsstring :=
  render (match kind with PromptActive => goalModeActivePrompt | PromptContinuation => goalContinuationPrompt end)
    (escapeXmlText (g_objective goal)).

Definition buildPrompt (kind : GoalPromptKind) (r : GoalRuntime) : option jsstring :=
  match getStateClone r with
  | Some s => if accounting_state s then Some (renderGoalPrompt kind (gs_goal s)) else None
  | None => None
  end.

Definition buildActivePrompt : GoalRuntime -> option jsstring := buildPrompt PromptActive.

Definition buildContinuationPrompt : GoalRuntime -> option jsstring := buildPrompt PromptContinuation.

End prompts.
