(* ===== verification/GoalFacts.v ===== *)
(** * What goal mode guarantees

    A persisted goal is read back as it was and nothing ill typed is read; an
    objective cannot break out of the element it is printed in; and over every run of
    a session whose calls do not overlap and whose usage counters only grow, the tokens
    and the time charged to a goal are what the session spent while the goal was tracked, less
    what the code discards by moving a baseline. *)

From S2P Require Import Prelude JsText Json GoalRuntime.

(** ** Reading a persisted goal *)

Lemma normalize_goal_json g : normalizeGoal (Some (goal_json g)) = Some g.
Proof. destruct g as [id obj [] tok time created updated [[]|]]; vm_compute; reflexivity. Qed.

Lemma getStateClone_id r : getStateClone r = r_state r.
Proof.
  unfold getStateClone, normalizeGoalModeState. destruct (r_state r) as [[en mode comp g]|]; [|done].
  cbn [gs_goal]. by rewrite normalize_goal_json.
Qed.

(** ** Escaping *)

(** A reader of the escaped text: it replaces the three entities. *)
Fixpoint unescape (s : jsstring) : jsstring :=
  match s with
  | [] => []
  | c :: rest =>
      if (c =? AMP)%N then
        match rest with
        | 97%N :: 109%N :: 112%N :: 59%N :: rest' => AMP :: unescape rest'
        | 108%N :: 116%N :: 59%N :: rest' => LT :: unescape rest'
        | 103%N :: 116%N :: 59%N :: rest' => GT :: unescape rest'
        | _ => c :: unescape rest
        end
      else c :: unescape rest
  end.

Lemma escape_char_plain c : escapable c = false -> escape_char c = [c].
Proof. unfold escapable, escape_char. intros. simpl_bool. by rewrite H, H0, H1. Qed.

(** The escape in one pass, which the copy of the plain prefix only shortens. *)
Lemma escape_one_pass input : escapeXmlText input = input ≫= escape_char.
Proof.
  unfold escapeXmlText. pose proof (span_app (fun c => negb (escapable c)) input) as Happ.
  pose proof (span_Forall (fun c => negb (escapable c)) input) as Hplain.
  destruct (span _ input) as [plain rest]. simpl in *.
  assert (plain ≫= escape_char = plain) as Hid.
  { clear Happ. induction Hplain as [|c plain Hc Hplain IH]; [done|]. simpl_bool.
    rewrite bind_cons, escape_char_plain, IH by done. done. }
  rewrite <- Happ. destruct rest as [|c rest].
  - by rewrite app_nil_r, Hid.
  - by rewrite bind_app, Hid.
Qed.

Lemma escape_char_no_tag c : Forall (fun d => d <> LT /\ d <> GT) (escape_char c).
Proof.
  unfold escape_char. case_match; [by repeat constructor|]. case_match; [by repeat constructor|].
  case_match; [by repeat constructor|]. constructor; [|constructor].
  split; by apply N.eqb_neq.
Qed.

Lemma unescape_escape_char c s : unescape (escape_char c ++ s) = c :: unescape s.
Proof.
  unfold escape_char. destruct (N.eqb_spec c AMP) as [->|H1]; [done|].
  destruct (N.eqb_spec c LT) as [->|H2]; [done|]. destruct (N.eqb_spec c GT) as [->|H3]; [done|].
  simpl. destruct (N.eqb_spec c AMP); done.
Qed.

(** A goal's objective stays inside the element it is printed in: the text between
    the tags has no angle bracket, whatever the objective holds, and reading it back
    gives the objective. *)
Theorem objective_contained (objective : jsstring) :
  exists body, renderTrustedObjective objective = js "<objective>" ++ [LF] ++ body ++ [LF] ++ js "</objective>"
    /\ Forall (fun c => c <> LT /\ c <> GT) body /\ unescape body = objective.
Proof.
  exists (escapeXmlText objective). split; [done|]. rewrite escape_one_pass.
  induction objective as [|c objective [IH1 IH2]]; [done|]. rewrite bind_cons. split.
  - apply Forall_app. split; [apply escape_char_no_tag|done].
  - by rewrite unescape_escape_char, IH2.
Qed.

(** ** Usage *)

Definition usage_le (a b : GoalTokenUsage) : Prop :=
  (u_input a <= u_input b /\ u_output a <= u_output b /\ u_cacheWrite a <= u_cacheWrite b)%Z.

Lemma delta_nonneg u b : (0 <= goalTokenDelta u b)%Z.
Proof. unfold goalTokenDelta. lia. Qed.

Lemma delta_self u : goalTokenDelta u u = 0%Z.
Proof. unfold goalTokenDelta. lia. Qed.

(** Usage that only grows is charged piecewise. *)
Lemma delta_split b u u' :
  usage_le b u -> usage_le u u' -> goalTokenDelta u' b = (goalTokenDelta u b + goalTokenDelta u' u)%Z.
Proof. unfold usage_le, goalTokenDelta. lia. Qed.

(** What the goal has not been charged for yet. *)
Definition pending_tokens (u : GoalTokenUsage) (r : GoalRuntime) : Z :=
  match r_state r with
  | Some s => if turn_tracks (g_id (gs_goal s)) r then turn_delta u r else 0%Z
  | None => 0%Z
  end.

Definition pending_ms (now : Z) (r : GoalRuntime) : Z :=
  match r_state r with
  | Some s => if wall_tracks (g_id (gs_goal s)) r then (now - wc_lastAccountedAt (r_wall r))%Z else 0%Z
  | None => 0%Z
  end.

(** The goal with this identifier is the session's and is being worked on. *)
Definition works_on (id : jsstring) (r : GoalRuntime) : Prop :=
  exists s, r_state r = Some s /\ accounting_state s = true /\ g_id (gs_goal s) = id.

(** Accounting runs for the goal that is worked on only, from a point in the past. *)
Record rt_inv (now : Z) (u : GoalTokenUsage) (r : GoalRuntime) : Prop := {
  ri_baseline : forall t, r_turn r = Some t -> usage_le (ts_baselineUsage t) u;
  ri_turn : forall t id, r_turn r = Some t -> ts_activeGoalId t = Some id -> works_on id r;
  ri_wall : forall id, wc_activeGoalId (r_wall r) = Some id -> works_on id r;
  ri_clock : (wc_lastAccountedAt (r_wall r) <= now)%Z
}.

(** ** Flushing *)

(** Two states that differ in the charges and the time of the last update only. *)
Definition same_goal (s s' : GoalModeState) : Prop :=
  gs_enabled s' = gs_enabled s /\ gs_mode s' = gs_mode s /\ gs_completed s' = gs_completed s
  /\ g_id (gs_goal s') = g_id (gs_goal s) /\ g_objective (gs_goal s') = g_objective (gs_goal s)
  /\ g_status (gs_goal s') = g_status (gs_goal s) /\ g_provenance (gs_goal s') = g_provenance (gs_goal s).

Definition charged (tokens ms : Z) (s s' : GoalModeState) : Prop :=
  g_tokensUsed (gs_goal s') = (g_tokensUsed (gs_goal s) + tokens)%Z
  /\ (1000 * g_timeUsedSeconds (gs_goal s') = 1000 * g_timeUsedSeconds (gs_goal s) + ms)%Z.

Record flushed (now : Z) (u : GoalTokenUsage) (r r' : GoalRuntime) : Prop := {
  fl_state : match r_state r, r_state r' with
    | Some s, Some s' => same_goal s s'
        /\ charged (pending_tokens u r) (pending_ms now r - pending_ms now r') s s'
    | None, None => True
    | _, _ => False
    end;
  fl_tokens : pending_tokens u r' = 0%Z;
  fl_ms : (0 <= pending_ms now r' < 1000)%Z;
  fl_turn : match r_turn r, r_turn r' with
    | Some t, Some t' => ts_activeGoalId t' = ts_activeGoalId t
                         /\ (ts_baselineUsage t' = ts_baselineUsage t \/ ts_baselineUsage t' = u)
    | None, None => True
    | _, _ => False
    end;
  fl_wall : wc_activeGoalId (r_wall r') = wc_activeGoalId (r_wall r);
  fl_clock : (wc_lastAccountedAt (r_wall r') <= now)%Z
}.

Lemma not_works_on id r s :
  r_state r = Some s -> accounting_state s = false -> ~ works_on id r.
Proof. intros Hs Ha (s' & Hs' & Ha' & _). congruence. Qed.

Lemma turn_tracks_works now u r id : rt_inv now u r -> turn_tracks id r = true -> works_on id r.
Proof.
  intros Hinv. unfold turn_tracks. destruct (r_turn r) as [t|] eqn:Ht; [|done]. intros. simpl_bool.
  by apply (ri_turn _ _ _ Hinv t).
Qed.

Lemma wall_tracks_works now u r id : rt_inv now u r -> wall_tracks id r = true -> works_on id r.
Proof. intros Hinv. unfold wall_tracks. intros. simpl_bool. by apply (ri_wall _ _ _ Hinv). Qed.

(** Nothing is pending for a state that is not accounted. *)
Lemma idle_pending now u r s :
  rt_inv now u r -> r_state r = Some s -> accounting_state s = false ->
  turn_tracks (g_id (gs_goal s)) r = false /\ wall_tracks (g_id (gs_goal s)) r = false.
Proof.
  intros Hinv Hs Ha. split; apply not_true_is_false; intros H;
    [apply (turn_tracks_works now u) in H|apply (wall_tracks_works now u) in H];
    eauto; by eapply not_works_on in H.
Qed.

Lemma flushed_refl now u r :
  rt_inv now u r -> pending_tokens u r = 0%Z -> (0 <= pending_ms now r < 1000)%Z -> flushed now u r r.
Proof.
  intros Hinv Ht Hm. split; try done; [|by destruct (r_turn r); auto|by apply Hinv].
  destruct (r_state r) eqn:Hs; [|done]. rewrite Ht. unfold charged. split_and!; done || lia.
Qed.

Lemma pending_ms_nonneg now u r : rt_inv now u r -> (0 <= pending_ms now r)%Z.
Proof.
  intros Hinv. pose proof (ri_clock _ _ _ Hinv). unfold pending_ms. repeat case_match; lia.
Qed.

Lemma pending_tokens_nonneg u r : (0 <= pending_tokens u r)%Z.
Proof.
  unfold pending_tokens, turn_delta. repeat case_match; try done; apply delta_nonneg.
Qed.

(** The branch of a flush that charges the goal. *)
Definition flush_charge (e : goal_env) (s : GoalModeState) (tokens sec : Z) (r : GoalRuntime) : GoalRuntime :=
  let goal := charge (gs_goal s) tokens sec (e_now e) in
  let r := if turn_tracks (g_id goal) r then rebase_turn (e_usage e) r else r in
  let r := if wall_tracks (g_id goal) r && (0 <? sec)%Z
           then set_wall (mkWall (wc_lastAccountedAt (r_wall r) + sec * 1000) (wc_activeGoalId (r_wall r))) r
           else r in
  commitState (Some (with_goal s goal)) (Some PersistGoal) true r.

Lemma flush_charge_fields e s tokens sec r :
  (0 <= sec)%Z ->
  let r' := flush_charge e s tokens sec r in
  let id := g_id (gs_goal s) in
  r_state r' = Some (with_goal s (charge (gs_goal s) tokens sec (e_now e)))
  /\ r_turn r' = (fun t => mkTurn (ts_turnId t)
       (if turn_tracks id r then e_usage e else ts_baselineUsage t) (ts_activeGoalId t)) <$> r_turn r
  /\ r_wall r' = mkWall (wc_lastAccountedAt (r_wall r) + if wall_tracks id r then sec * 1000 else 0)
                        (wc_activeGoalId (r_wall r)).
Proof.
  intros Hsec. unfold flush_charge. cbn [charge g_id]. set (id := g_id (gs_goal s)).
  set (r1 := if turn_tracks id r then rebase_turn (e_usage e) r else r).
  assert (Hw1 : r_wall r1 = r_wall r).
  { unfold r1, rebase_turn. by repeat case_match. }
  assert (Ht1 : r_turn r1 = (fun t => mkTurn (ts_turnId t)
       (if turn_tracks id r then e_usage e else ts_baselineUsage t) (ts_activeGoalId t)) <$> r_turn r).
  { unfold r1, rebase_turn. destruct (turn_tracks id r); destruct (r_turn r) as [[]|] eqn:Et; simpl; congruence. }
  unfold wall_tracks. rewrite Hw1. fold (wall_tracks id r).
  destruct (wall_tracks id r); simpl; [destruct (Z.ltb_spec 0 sec); simpl|]; rewrite ?Ht1, ?Hw1;
    split_and!; try done; destruct (r_wall r); simpl; f_equal; lia.
Qed.

Lemma flush_commit e s sec r :
  rt_inv (e_now e) (e_usage e) r -> r_state r = Some s -> (0 <= sec)%Z ->
  (0 <= pending_ms (e_now e) r - 1000 * sec < 1000)%Z ->
  flushed (e_now e) (e_usage e) r (flush_charge e s (pending_tokens (e_usage e) r) sec r).
Proof.
  intros Hinv Hs Hsec Hrem. destruct (flush_charge_fields e s (pending_tokens (e_usage e) r) sec r Hsec)
    as (Hs' & Ht' & Hw'). set (r' := flush_charge _ _ _ _ _) in *. set (id := g_id (gs_goal s)) in *.
  pose proof (ri_clock _ _ _ Hinv) as Hclock.
  assert (Hpm : pending_ms (e_now e) r = if wall_tracks id r
            then (e_now e - wc_lastAccountedAt (r_wall r))%Z else 0%Z).
  { unfold pending_ms. by rewrite Hs. }
  assert (Hpm' : pending_ms (e_now e) r' = (pending_ms (e_now e) r - 1000 * sec)%Z).
  { unfold pending_ms at 1. rewrite Hs'. cbn [with_goal gs_goal charge g_id]. fold id. unfold wall_tracks at 1.
    rewrite Hw'. cbn. fold (wall_tracks id r). rewrite Hpm. destruct (wall_tracks id r); lia. }
  split.
  - rewrite Hs, Hs'. split; [done|]. unfold charged. simpl. split; lia.
  - unfold pending_tokens. rewrite Hs'. cbn [with_goal gs_goal charge g_id]. fold id. unfold turn_tracks, turn_delta.
    rewrite Ht'. destruct (r_turn r) as [t|] eqn:Et; simpl; [|done]. unfold turn_tracks. rewrite Et.
    destruct (bool_decide _); [|done]. apply delta_self.
  - lia.
  - rewrite Ht'. destruct (r_turn r) as [t|]; simpl; [|done]. split; [done|]. destruct (turn_tracks id r); auto.
  - by rewrite Hw'.
  - rewrite Hw'. simpl. destruct (wall_tracks id r); lia.
Qed.

Lemma flush_flushed e r :
  rt_inv (e_now e) (e_usage e) r -> flushed (e_now e) (e_usage e) r (flushUsageLocked e (e_usage e) r).
Proof.
  intros Hinv. unfold flushUsageLocked. rewrite getStateClone_id.
  pose proof (pending_ms_nonneg _ _ _ Hinv) as Hms. pose proof (ri_clock _ _ _ Hinv) as Hclock.
  destruct (r_state r) as [s|] eqn:Hs.
  2:{ apply flushed_refl; [done|unfold pending_tokens; by rewrite Hs|unfold pending_ms; by rewrite Hs]. }
  set (id := g_id (gs_goal s)).
  assert (Hpt : pending_tokens (e_usage e) r = if turn_tracks id r then turn_delta (e_usage e) r else 0%Z).
  { unfold pending_tokens. by rewrite Hs. }
  assert (Hpm : pending_ms (e_now e) r = if wall_tracks id r
            then (e_now e - wc_lastAccountedAt (r_wall r))%Z else 0%Z).
  { unfold pending_ms. by rewrite Hs. }
  destruct (accounting_state s) eqn:Ha; simpl.
  2:{ destruct (idle_pending _ _ _ _ Hinv Hs Ha) as [Hx Hy]. fold id in Hx, Hy. rewrite Hx in Hpt. rewrite Hy in Hpm.
      apply flushed_refl; [done..|lia]. }
  rewrite <- Hpt. destruct (negb (turn_tracks id r) && negb (wall_tracks id r)) eqn:Hno.
  { simpl_bool. rewrite H in Hpt. rewrite H0 in Hpm. apply flushed_refl; [done..|lia]. }
  assert (Hsec : (if wall_tracks id r then Z.max 0 ((e_now e - wc_lastAccountedAt (r_wall r)) / 1000) else 0)%Z
            = (pending_ms (e_now e) r / 1000)%Z).
  { rewrite Hpm. destruct (wall_tracks id r); [|done].
    pose proof (Z.div_pos (e_now e - wc_lastAccountedAt (r_wall r)) 1000). lia. }
  rewrite Hsec. set (sec := (pending_ms (e_now e) r / 1000)%Z).
  assert (Hsec0 : (0 <= sec)%Z) by (by apply Z.div_pos).
  assert (Hrem : (0 <= pending_ms (e_now e) r - 1000 * sec < 1000)%Z).
  { pose proof (Z.mod_pos_bound (pending_ms (e_now e) r) 1000). unfold sec.
    pose proof (Z.div_mod (pending_ms (e_now e) r) 1000). lia. }
  pose proof (pending_tokens_nonneg (e_usage e) r) as Hpt0.
  destruct ((pending_tokens (e_usage e) r <=? 0)%Z && (sec <=? 0)%Z) eqn:Hnone.
  { simpl_bool. apply flushed_refl; [done|lia|lia]. }
  apply flush_commit; done.
Qed.

Lemma flushed_inv now u r r' : rt_inv now u r -> flushed now u r r' -> rt_inv now u r'.
Proof.
  intros Hinv [Hs _ _ Ht Hw Hc].
  assert (Hworks : forall id, works_on id r -> works_on id r').
  { intros id (s & Es & Ha & Hid). rewrite Es in Hs. destruct (r_state r') as [s'|] eqn:Es'; [|done].
    destruct Hs as [(He & _ & _ & Hi & _ & Hst & _) _]. exists s'. split_and!; [done| |congruence].
    unfold accounting_state, isAccountingStatus in *. by rewrite He, Hst. }
  split; [..|done].
  - intros t' Et'. rewrite Et' in Ht. destruct (r_turn r) as [t|] eqn:Et; [|done].
    destruct Ht as [_ [->| ->]]; [by apply (ri_baseline _ _ _ Hinv)|by split_and!].
  - intros t' id Et' Hid. rewrite Et' in Ht. destruct (r_turn r) as [t|] eqn:Et; [|done].
    apply Hworks. apply (ri_turn _ _ _ Hinv t); [done|]. destruct Ht as [<- _]. done.
  - intros id Hid. apply Hworks, (ri_wall _ _ _ Hinv). by rewrite <- Hw.
Qed.

(** ** How an operation moves the books

    [dtok] tokens and [dms] milliseconds that were pending are discarded. *)
Definition moves (now : Z) (u : GoalTokenUsage) (dtok dms : Z) (r r' : GoalRuntime) : Prop :=
  forall s', r_state r' = Some s' -> exists s, r_state r = Some s
    /\ (g_tokensUsed (gs_goal s') + pending_tokens u r' + dtok = g_tokensUsed (gs_goal s) + pending_tokens u r)%Z
    /\ (1000 * g_timeUsedSeconds (gs_goal s') + pending_ms now r' + dms
        = 1000 * g_timeUsedSeconds (gs_goal s) + pending_ms now r)%Z.

Lemma moves_refl now u r : moves now u 0 0 r r.
Proof. intros s Hs. exists s. split_and!; [done|lia..]. Qed.

Lemma moves_trans now u a b c d r1 r2 r3 :
  moves now u a b r1 r2 -> moves now u c d r2 r3 -> moves now u (a + c) (b + d) r1 r3.
Proof.
  intros H1 H2 s3 Hs3. destruct (H2 s3 Hs3) as (s2 & Hs2 & ? & ?).
  destruct (H1 s2 Hs2) as (s1 & Hs1 & ? & ?). exists s1. split_and!; [done|lia..].
Qed.

Lemma flushed_moves now u r r' : flushed now u r r' -> moves now u 0 0 r r'.
Proof.
  intros [Hs Ht Hm _ _ _] s' Es'. rewrite Es' in Hs. destruct (r_state r) as [s|] eqn:Es; [|done].
  destruct Hs as [_ [Hc1 Hc2]]. exists s. split_and!; [done|lia..].
Qed.

(** The goal stays the same but for its status and times. *)
Definition same_books (s s' : GoalModeState) : Prop :=
  g_id (gs_goal s') = g_id (gs_goal s) /\ g_tokensUsed (gs_goal s') = g_tokensUsed (gs_goal s)
  /\ g_timeUsedSeconds (gs_goal s') = g_timeUsedSeconds (gs_goal s).

(** *** Accounting is started *)

Definition activate (e : goal_env) (s : GoalModeState) (m : option persist_mode) (r : GoalRuntime) : GoalRuntime :=
  commitState (Some s) m true (markActiveAccounting e (gs_goal s) r).

Lemma activate_fields e s m r :
  let r' := activate e s m r in let id := g_id (gs_goal s) in
  r_state r' = Some s
  /\ (exists turnId, r_turn r' = Some (mkTurn turnId (e_usage e) (Some id)))
  /\ r_wall r' = if wall_tracks id r then r_wall r else mkWall (e_now e) (Some id).
Proof.
  unfold activate, markActiveAccounting, wall_tracks.
  case_bool_decide; simpl; destruct (r_turn r); simpl; split_and!; eauto.
Qed.

Lemma activate_inv e s m r :
  rt_inv (e_now e) (e_usage e) r -> accounting_state s = true ->
  rt_inv (e_now e) (e_usage e) (activate e s m r).
Proof.
  intros Hinv Ha. destruct (activate_fields e s m r) as (Hs & [turnId Ht] & Hw).
  assert (Hon : works_on (g_id (gs_goal s)) (activate e s m r)) by (by exists s).
  split.
  - rewrite Ht. intros t [= <-]. by split_and!.
  - rewrite Ht. intros t id [= <-] [= <-]. done.
  - rewrite Hw. destruct (wall_tracks _ r) eqn:Hwt; simpl; [|by intros id [= <-]].
    unfold wall_tracks in Hwt. simpl_bool. rewrite Hwt. by intros id [= <-].
  - rewrite Hw. destruct (wall_tracks _ r); simpl; [apply Hinv|lia].
Qed.

(** Starting to account discards the tokens that were pending, and no time. *)
Lemma activate_moves e s s0 m r :
  r_state r = Some s0 -> same_books s0 s ->
  moves (e_now e) (e_usage e) (pending_tokens (e_usage e) r) 0 r (activate e s m r).
Proof.
  intros Hs0 (Hid & Htok & Htime) s' Hs'. destruct (activate_fields e s m r) as (Hs & [turnId Ht] & Hw).
  rewrite Hs in Hs'. injection Hs' as <-. exists s0. split; [done|].
  assert (pending_tokens (e_usage e) (activate e s m r) = 0%Z) as ->.
  { unfold pending_tokens, turn_tracks, turn_delta. rewrite Hs, Ht. simpl. rewrite bool_decide_true by done.
    apply delta_self. }
  assert (pending_ms (e_now e) (activate e s m r) = pending_ms (e_now e) r) as ->.
  { unfold pending_ms. rewrite Hs, Hs0, <- Hid. unfold wall_tracks at 1. rewrite Hw.
    destruct (wall_tracks (g_id (gs_goal s)) r) eqn:Hwt; simpl.
    - unfold wall_tracks in Hwt. by rewrite Hwt.
    - rewrite bool_decide_true by done. lia. }
  split; lia.
Qed.

Lemma activate_fresh e s m r :
  wc_activeGoalId (r_wall r) <> Some (g_id (gs_goal s)) ->
  pending_tokens (e_usage e) (activate e s m r) = 0%Z /\ pending_ms (e_now e) (activate e s m r) = 0%Z.
Proof.
  intros Hne. destruct (activate_fields e s m r) as (Hs & [turnId Ht] & Hw). split.
  - unfold pending_tokens, turn_tracks, turn_delta. rewrite Hs, Ht. simpl. rewrite bool_decide_true by done.
    apply delta_self.
  - unfold pending_ms. rewrite Hs. unfold wall_tracks in Hw |- *. rewrite bool_decide_false in Hw by done.
    rewrite Hw. simpl. rewrite bool_decide_true by done. lia.
Qed.

(** *** Accounting is stopped *)

Definition deactivate (e : goal_env) (s : GoalModeState) (m : option persist_mode) (r : GoalRuntime) : GoalRuntime :=
  commitState (Some s) m true (clearActiveAccounting e r).

Lemma clear_fields e r :
  let r' := clearActiveAccounting e r in
  r_state r' = r_state r
  /\ r_turn r' = (fun t => mkTurn (ts_turnId t) (ts_baselineUsage t) None) <$> r_turn r
  /\ r_wall r' = mkWall (e_now e) None.
Proof. unfold clearActiveAccounting. simpl. destruct (r_turn r) eqn:Et; simpl; rewrite ?Et; done. Qed.

(** A runtime in which no goal is accounted. *)
Lemma idle_inv e r r' :
  rt_inv (e_now e) (e_usage e) r ->
  r_turn r' = (fun t => mkTurn (ts_turnId t) (ts_baselineUsage t) None) <$> r_turn r ->
  r_wall r' = mkWall (e_now e) None -> rt_inv (e_now e) (e_usage e) r'.
Proof.
  intros Hinv Ht Hw. split; rewrite ?Ht, ?Hw; simpl; try done.
  - intros t. destruct (r_turn r) as [t0|] eqn:Et; simpl; [|done]. intros [= <-].
    exact (ri_baseline _ _ _ Hinv t0 Et).
  - intros t id. destruct (r_turn r); simpl; [|done]. by intros [= <-].
Qed.

Lemma idle_pending_zero e r r' :
  r_turn r' = (fun t => mkTurn (ts_turnId t) (ts_baselineUsage t) None) <$> r_turn r ->
  r_wall r' = mkWall (e_now e) None ->
  pending_tokens (e_usage e) r' = 0%Z /\ pending_ms (e_now e) r' = 0%Z.
Proof.
  intros Ht Hw. unfold pending_tokens, pending_ms, turn_tracks, wall_tracks. rewrite Ht, Hw.
  destruct (r_state r'); [|done]. by destruct (r_turn r).
Qed.

Lemma deactivate_fields e s m r :
  let r' := deactivate e s m r in
  r_state r' = Some s
  /\ r_turn r' = (fun t => mkTurn (ts_turnId t) (ts_baselineUsage t) None) <$> r_turn r
  /\ r_wall r' = mkWall (e_now e) None.
Proof. destruct (clear_fields e r) as (_ & Ht & Hw). done. Qed.

Lemma deactivate_inv e s m r : rt_inv (e_now e) (e_usage e) r -> rt_inv (e_now e) (e_usage e) (deactivate e s m r).
Proof. intros Hinv. destruct (deactivate_fields e s m r) as (_ & Ht & Hw). by apply (idle_inv e r). Qed.

Lemma deactivate_moves e s s0 m r :
  r_state r = Some s0 -> same_books s0 s ->
  moves (e_now e) (e_usage e) (pending_tokens (e_usage e) r) (pending_ms (e_now e) r) r (deactivate e s m r).
Proof.
  intros Hs0 (Hid & Htok & Htime) s' Hs'. destruct (deactivate_fields e s m r) as (Hs & Ht & Hw).
  rewrite Hs in Hs'. injection Hs' as <-. exists s0.
  destruct (idle_pending_zero e r _ Ht Hw) as [-> ->]. split_and!; [done|lia..].
Qed.

(** ** Sessions

    The events of a session in the order they happen: time and usage pass, and the
    runtime is called, with the usage of that moment as the baseline of a turn. *)

Inductive goal_op :=
| GTurnStart (turnId : jsstring)
| GToolDone (toolName : jsstring)
| GGoalToolDone
| GAgentEnd
| GAborted
| GThreadResumed
| GCreate (objective : jsstring) (provenance : option GoalProvenance)
| GReplace (objective : jsstring)
| GResume
| GPause
| GDrop
| GComplete.

(** Whether a new goal was started, and the runtime after the call. *)
Definition exec_goal (op : goal_op) (e : goal_env) (r : GoalRuntime) : bool * GoalRuntime :=
  match op with
  | GTurnStart turnId => (false, onTurnStart e turnId (e_usage e) r)
  | GToolDone name => (false, onToolCompleted e name r)
  | GGoalToolDone => (false, onGoalToolCompleted e r)
  | GAgentEnd => (false, onAgentEnd e (Some (e_usage e)) r)
  | GAborted => (false, onTaskAborted e r)
  | GThreadResumed => (false, (onThreadResumed e r).2)
  | GCreate objective p => let (res, r) := createGoal e objective p r in (is_ok res, r)
  | GReplace objective => let (res, r) := replaceGoal e objective r in (is_ok res, r)
  | GResume => (false, (resumeGoal e r).2)
  | GPause => (false, (pauseGoal e r).2)
  | GDrop => (false, (dropGoal e r).2)
  | GComplete => (false, (completeGoalFromTool e r).2)
  end.

(** The calls that move a baseline without flushing first. *)
Definition rebases (op : goal_op) : bool :=
  match op with GTurnStart _ | GThreadResumed | GResume => true | _ => false end.

(** The calls that stop the clock. *)
Definition stops_clock (op : goal_op) : bool :=
  match op with GPause | GComplete => true | _ => false end.

(** Every call either starts a new goal with empty books, or moves the books of the
    old one: only a rebasing call discards tokens, and a stopping one less than a
    second. *)
Record op_effect (op : goal_op) (e : goal_env) (r : GoalRuntime) (started : bool) (r' : GoalRuntime) : Prop := {
  oe_inv : rt_inv (e_now e) (e_usage e) r';
  oe_started : started = true -> exists s, r_state r' = Some s /\ g_tokensUsed (gs_goal s) = 0%Z
    /\ g_timeUsedSeconds (gs_goal s) = 0%Z /\ pending_tokens (e_usage e) r' = 0%Z /\ pending_ms (e_now e) r' = 0%Z;
  oe_moves : started = false -> exists dms, moves (e_now e) (e_usage e)
      (if rebases op then pending_tokens (e_usage e) r else 0) dms r r'
    /\ (0 <= dms <= if stops_clock op then 999 else 0)%Z
}.

Definition fresh_id (e : goal_env) (r : GoalRuntime) : Prop :=
  forall s, r_state r = Some s -> g_id (gs_goal s) <> e_nextId e.

Section effects.
Context (e : goal_env) (r : GoalRuntime) (Hinv : rt_inv (e_now e) (e_usage e) r).

(** The runtime after the flush most calls begin with. *)
Let r1 := flushUsageLocked e (e_usage e) r.

Let Hfl : flushed (e_now e) (e_usage e) r r1.
Proof. apply flush_flushed, Hinv. Qed.

Let Hinv1 : rt_inv (e_now e) (e_usage e) r1.
Proof. eapply flushed_inv; [apply Hinv|apply Hfl]. Qed.

Lemma effect_keep op : rebases op = false -> op_effect op e r false r.
Proof.
  intros Hop. split; [done..|]. intros _. exists 0%Z. rewrite Hop. split; [apply moves_refl|].
  by destruct (stops_clock op).
Qed.

Lemma effect_flush op : rebases op = false -> op_effect op e r false r1.
Proof.
  intros Hop. split; [done..|]. intros _. exists 0%Z. rewrite Hop. split; [by apply flushed_moves|].
  by destruct (stops_clock op).
Qed.

(** Dropping the turn when nothing is pending. *)
Lemma no_turn_effect r0 :
  rt_inv (e_now e) (e_usage e) r0 -> pending_tokens (e_usage e) r0 = 0%Z ->
  rt_inv (e_now e) (e_usage e) (set_turn None r0) /\ moves (e_now e) (e_usage e) 0 0 r0 (set_turn None r0).
Proof.
  intros Hi Hp. split; [split; simpl; try done; apply Hi|]. intros s Hs. simpl in Hs. exists s. split; [done|].
  assert (pending_tokens (e_usage e) (set_turn None r0) = 0%Z) as ->.
  { unfold pending_tokens, turn_tracks. simpl. by case_match. }
  split; [lia|]. unfold pending_ms, wall_tracks. simpl. lia.
Qed.

Lemma tool_effect name : op_effect (GToolDone name) e r false (onToolCompleted e name r).
Proof.
  unfold onToolCompleted. case_bool_decide; [by apply effect_keep|].
  destruct (hasAccountingState r); [by apply effect_flush|by apply effect_keep].
Qed.

Lemma goal_tool_effect : op_effect GGoalToolDone e r false (onGoalToolCompleted e r).
Proof.
  unfold onGoalToolCompleted.
  destruct (hasAccountingState r); [by apply effect_flush|by apply effect_keep].
Qed.

(** A goal that is not accounted has nothing pending. *)
Lemma not_accounting : hasAccountingState r = false -> pending_tokens (e_usage e) r = 0%Z.
Proof.
  unfold hasAccountingState. rewrite getStateClone_id. unfold pending_tokens.
  destruct (r_state r) as [s|] eqn:Hs; [|done]. intros Ha.
  by destruct (idle_pending _ _ _ _ Hinv Hs Ha) as [-> _].
Qed.

Lemma agent_end_effect : op_effect GAgentEnd e r false (onAgentEnd e (Some (e_usage e)) r).
Proof.
  unfold onAgentEnd. simpl. destruct (hasAccountingState r) eqn:Ha; simpl.
  - destruct (no_turn_effect r1 Hinv1 (fl_tokens _ _ _ _ Hfl)) as [Hi Hm].
    split; [done..|]. intros _. exists 0%Z. split; [|done].
    apply (moves_trans _ _ 0 0 0 0 r r1); [by apply flushed_moves|done].
  - destruct (no_turn_effect r Hinv (not_accounting Ha)) as [Hi Hm].
    split; [done..|]. intros _. exists 0%Z. done.
Qed.

Lemma flushed_state s :
  r_state r1 = Some s -> exists s0, r_state r = Some s0 /\ same_goal s0 s.
Proof.
  intros Hs. pose proof (fl_state _ _ _ _ Hfl) as Hst. rewrite Hs in Hst.
  destruct (r_state r) as [s0|]; [|done]. exists s0. by destruct Hst.
Qed.

Lemma aborted_effect : op_effect GAborted e r false (onTaskAborted e r).
Proof.
  unfold onTaskAborted. destruct (hasAccountingState r) eqn:Ha; cbn [negb].
  2:{ destruct (no_turn_effect r Hinv (not_accounting Ha)) as [Hi Hm].
      split; [done..|]. intros _. by exists 0%Z. }
  fold r1. rewrite getStateClone_id. cbn [set_turn r_state].
  destruct (no_turn_effect r1 Hinv1 (fl_tokens _ _ _ _ Hfl)) as [Hi Hm].
  assert (Hm2 : moves (e_now e) (e_usage e) 0 0 r (set_turn None r1)).
  { apply (moves_trans _ _ 0 0 0 0 r r1); [by apply flushed_moves|done]. }
  destruct (r_state r1) as [s|] eqn:Hs.
  2:{ split; [done..|]. intros _. by exists 0%Z. }
  destruct (accounting_state s) eqn:Has.
  2:{ split; [done..|]. intros _. by exists 0%Z. }
  set (goal := touched (gs_goal s) (g_status (gs_goal s)) (e_now e)).
  change (commitState _ _ _ _) with (activate e (with_goal s goal) (Some PersistGoal) (set_turn None r1)).
  split; [by apply activate_inv|done|]. intros _. exists 0%Z. split; [|done].
  assert (pending_tokens (e_usage e) (set_turn None r1) = 0%Z) as Hp.
  { unfold pending_tokens, turn_tracks. simpl. by case_match. }
  apply (moves_trans _ _ 0 0 0 0 r (set_turn None r1)); [done|]. rewrite <- Hp at 1.
  by apply (activate_moves e _ s).
Qed.

Lemma thread_resumed_effect : op_effect GThreadResumed e r false (onThreadResumed e r).2.
Proof.
  unfold onThreadResumed. rewrite getStateClone_id. destruct (r_state r) as [s|] eqn:Hs; cbn [snd].
  2:{ split; [done..|]. intros _. exists 0%Z. split; [|done]. intros s. by rewrite Hs. }
  set (s' := mkGoalState _ _ _ _). destruct (accounting_state s') eqn:Ha.
  - change (commitState _ _ _ _) with (activate e s' None r).
    split; [by apply activate_inv|done|]. intros _. exists 0%Z. split; [|done].
    by apply (activate_moves e s' s).
  - change (commitState _ _ _ _) with (deactivate e s' None r).
    split; [by apply deactivate_inv|done|]. intros _. exists 0%Z. split; [|done].
    assert (Ha' : accounting_state s = false).
    { unfold accounting_state in *. simpl in Ha. destruct (gs_enabled s); [|done]. done. }
    destruct (idle_pending _ _ _ _ Hinv Hs Ha') as [_ Hw].
    assert (pending_ms (e_now e) r = 0%Z) as Hp by (unfold pending_ms; by rewrite Hs, Hw).
    rewrite <- Hp. by apply (deactivate_moves e s' s).
Qed.

Lemma start_effect op s m r0 :
  rt_inv (e_now e) (e_usage e) r0 -> fresh_id e r0 -> accounting_state s = true ->
  g_id (gs_goal s) = e_nextId e -> g_tokensUsed (gs_goal s) = 0%Z -> g_timeUsedSeconds (gs_goal s) = 0%Z ->
  op_effect op e r true (activate e s m r0).
Proof.
  intros Hi Hfresh Ha Hid Htok Htime. split; [by apply activate_inv| |done]. intros _.
  destruct (activate_fresh e s m r0) as [? ?].
  { intros Hw. destruct (ri_wall _ _ _ Hi _ Hw) as (s0 & Hs0 & _ & Hid0).
    apply (Hfresh s0 Hs0). congruence. }
  destruct (activate_fields e s m r0) as (Hs & _). by exists s.
Qed.

Lemma create_effect objective p :
  fresh_id e r ->
  let (started, r') := exec_goal (GCreate objective p) e r in op_effect (GCreate objective p) e r started r'.
Proof.
  intros Hfresh. cbn [exec_goal]. unfold createGoal. destruct (validateGoalObjective _ _) as [obj|err].
  2:{ by apply effect_keep. }
  destruct (match getStateClone r with Some s => _ | None => _ end); [by apply effect_keep|].
  apply (start_effect _ (createGoalState e obj (default PUser p)) (Some PersistGoal) r); done.
Qed.

Lemma replace_effect objective :
  fresh_id e r ->
  let (started, r') := exec_goal (GReplace objective) e r in op_effect (GReplace objective) e r started r'.
Proof.
  intros Hfresh. cbn [exec_goal]. unfold replaceGoal. destruct (validateGoalObjective _ _) as [obj|err].
  2:{ by apply effect_keep. }
  destruct (hasAccountingState r); cbn [negb]; [|by apply effect_keep].
  apply (start_effect _ (createGoalState e obj PUser) (Some PersistGoal) r1); try done.
  intros s Hs. destruct (flushed_state s Hs) as (s0 & Hs0 & Hsame).
  destruct Hsame as (_ & _ & _ & -> & _). by apply Hfresh.
Qed.

Lemma resume_effect : op_effect GResume e r false (resumeGoal e r).2.
Proof.
  unfold resumeGoal. rewrite getStateClone_id.
  assert (Hnot : r_state r = None \/ (exists s, r_state r = Some s /\ g_status (gs_goal s) = GSComplete) ->
    op_effect GResume e r false r).
  { intros Hc. split; [done..|]. intros _. exists 0%Z. split; [|done]. cbn [rebases].
    assert (pending_tokens (e_usage e) r = 0%Z) as ->; [|apply moves_refl].
    apply not_accounting. unfold hasAccountingState. rewrite getStateClone_id.
    destruct Hc as [->|(s & -> & Hst)]; [done|]. unfold accounting_state, isAccountingStatus. rewrite Hst.
    by destruct (gs_enabled s). }
  destruct (r_state r) as [s|] eqn:Hs; cbn [snd]; [|by apply Hnot; left].
  case_bool_decide as Hst; cbn [snd]; [by apply Hnot; right; exists s|].
  set (s' := mkGoalState _ _ _ _). change (commitState _ _ _ _) with (activate e s' (Some PersistGoal) r).
  split; [by apply activate_inv|done|]. intros _. exists 0%Z. split; [|done]. by apply (activate_moves e s' s).
Qed.

(** A call that flushes and then stops the clock. *)
Lemma stop_effect op s s' m :
  rebases op = false -> stops_clock op = true -> r_state r1 = Some s -> same_books s s' ->
  op_effect op e r false (deactivate e s' m r1).
Proof.
  intros Hop Hstop Hs Hb. split; [by apply deactivate_inv|done|]. intros _.
  exists (pending_ms (e_now e) r1). rewrite Hop, Hstop. split; [|pose proof (fl_ms _ _ _ _ Hfl); lia].
  apply (moves_trans _ _ 0 0 0 _ r r1); [by apply flushed_moves|].
  rewrite <- (fl_tokens _ _ _ _ Hfl) at 1. by apply (deactivate_moves e s' s).
Qed.

Lemma pause_effect : op_effect GPause e r false (pauseGoal e r).2.
Proof.
  unfold pauseGoal. fold r1. rewrite getStateClone_id. destruct (r_state r1) as [s|] eqn:Hs; cbn [snd].
  2:{ by apply effect_flush. }
  case_bool_decide; cbn [snd]; [|by apply effect_flush]. by eapply (stop_effect GPause s).
Qed.

Lemma complete_effect : op_effect GComplete e r false (completeGoalFromTool e r).2.
Proof.
  unfold completeGoalFromTool. fold r1. rewrite getStateClone_id. destruct (r_state r1) as [s|] eqn:Hs; cbn [snd].
  2:{ by apply effect_flush. }
  destruct (g_status (gs_goal s)); cbn [snd].
  - by eapply (stop_effect GComplete s).
  - by eapply (stop_effect GComplete s).
  - by apply effect_flush.
  - by apply effect_flush.
Qed.

Lemma drop_effect : op_effect GDrop e r false (dropGoal e r).2.
Proof.
  unfold dropGoal. fold r1. rewrite getStateClone_id. destruct (r_state r1) as [s|] eqn:Hs; cbn [snd].
  2:{ by apply effect_flush. }
  destruct (clear_fields e r1) as (_ & Ht & Hw). split; [|done|].
  - by apply (idle_inv e r1).
  - intros _. exists 0%Z. split; [|done]. intros s'. done.
Qed.

Lemma turn_start_fields turnId :
  let r' := onTurnStart e turnId (e_usage e) r in
  r_state r' = r_state r
  /\ (hasAccountingState r = true -> exists s, r_state r = Some s /\ accounting_state s = true
       /\ r_turn r' = Some (mkTurn turnId (e_usage e) (Some (g_id (gs_goal s))))
       /\ r_wall r' = if wall_tracks (g_id (gs_goal s)) r then r_wall r
                      else mkWall (e_now e) (Some (g_id (gs_goal s))))
  /\ (hasAccountingState r = false ->
       r_turn r' = Some (mkTurn turnId (e_usage e) None) /\ r_wall r' = r_wall r).
Proof.
  unfold onTurnStart, hasAccountingState. rewrite !getStateClone_id. simpl.
  destruct (r_state r) as [s|] eqn:Hs; simpl; [|done]. destruct (accounting_state s) eqn:Ha; simpl; [|done].
  change (bool_decide (wc_activeGoalId (r_wall r) = Some (g_id (gs_goal s)))) with (wall_tracks (g_id (gs_goal s)) r).
  destruct (wall_tracks (g_id (gs_goal s)) r) eqn:Hw; simpl; split_and!; try done;
    intros _; exists s; by rewrite Hw.
Qed.

Lemma turn_start_effect turnId : op_effect (GTurnStart turnId) e r false (onTurnStart e turnId (e_usage e) r).
Proof.
  destruct (turn_start_fields turnId) as (Hs & Hacc & Hno). set (r' := onTurnStart _ _ _ _) in *.
  destruct (hasAccountingState r) eqn:Ha.
  - destruct (Hacc eq_refl) as (s & Hs0 & Has & Ht & Hw).
    assert (Hon : works_on (g_id (gs_goal s)) r') by (exists s; split_and!; congruence).
    split; [split|done|].
    + rewrite Ht. intros t [= <-]. by split_and!.
    + rewrite Ht. by intros t id [= <-] [= <-].
    + rewrite Hw. destruct (wall_tracks _ r) eqn:Hwt; simpl; [|by intros id [= <-]].
      unfold wall_tracks in Hwt. simpl_bool. rewrite Hwt. by intros id [= <-].
    + rewrite Hw. destruct (wall_tracks _ r); simpl; [apply Hinv|lia].
    + intros _. exists 0%Z. split; [|done]. intros s' Hs'. exists s. split; [done|].
      assert (s' = s) as -> by congruence. cbn [rebases].
      assert (pending_tokens (e_usage e) r' = 0%Z) as ->.
      { unfold pending_tokens, turn_tracks, turn_delta. rewrite Hs', Ht. simpl.
        rewrite bool_decide_true by done. apply delta_self. }
      assert (pending_ms (e_now e) r' = pending_ms (e_now e) r) as ->; [|lia].
      unfold pending_ms. rewrite Hs', Hs0. unfold wall_tracks at 1. rewrite Hw.
      destruct (wall_tracks (g_id (gs_goal s)) r) eqn:Hwt; simpl.
      * unfold wall_tracks in Hwt. by rewrite Hwt.
      * rewrite bool_decide_true by done. lia.
  - destruct (Hno eq_refl) as [Ht Hw]. assert (Hpt := not_accounting Ha).
    assert (Hon : forall id, works_on id r -> works_on id r').
    { intros id (s & ? & ? & ?). exists s. split_and!; congruence. }
    split; [split|done|].
    + rewrite Ht. intros t [= <-]. by split_and!.
    + rewrite Ht. by intros t id [= <-].
    + rewrite Hw. intros id Hid. by apply Hon, (ri_wall _ _ _ Hinv).
    + rewrite Hw. apply Hinv.
    + intros _. exists 0%Z. split; [|done]. intros s' Hs'. exists s'. split; [congruence|]. cbn [rebases].
      assert (pending_tokens (e_usage e) r' = 0%Z) as ->.
      { unfold pending_tokens, turn_tracks. rewrite Hs', Ht. simpl. done. }
      rewrite Hpt. split; [lia|]. unfold pending_ms, wall_tracks. rewrite Hs', Hw, <- Hs, Hs'. lia.
Qed.

Lemma exec_goal_effect op :
  fresh_id e r -> let (started, r') := exec_goal op e r in op_effect op e r started r'.
Proof.
  intros Hfresh. destruct op; try by apply create_effect || apply replace_effect.
  all: cbn [exec_goal]; eauto using turn_start_effect, tool_effect, goal_tool_effect, agent_end_effect,
    aborted_effect, thread_resumed_effect, resume_effect, pause_effect, drop_effect, complete_effect.
Qed.

End effects.

(** ** The books of a session *)

(** A session with what the session spent on its goal: tokens used and milliseconds
    passed while the goal was tracked, tokens discarded by rebasing calls, and how
    often the clock was stopped. *)
Record world := mkWorld {
  w_rt : GoalRuntime;
  w_now : Z;
  w_usage : GoalTokenUsage;
  w_spent : Z;
  w_discarded : Z;
  w_activeMs : Z;
  w_stops : Z
}.

Inductive session_event :=
| EAdvance (now : Z) (usage : GoalTokenUsage)
| ECall (op : goal_op) (nextId : jsstring).

Definition tracked (w : world) (on : jsstring -> GoalRuntime -> bool) (amount : Z) : Z :=
  match r_state (w_rt w) with
  | Some s => if on (g_id (gs_goal s)) (w_rt w) then amount else 0%Z
  | None => 0%Z
  end.

Definition world_env (w : world) (nextId : jsstring) : goal_env := mkEnv (w_now w) (w_usage w) nextId.

Definition world_step (w : world) (ev : session_event) : world :=
  match ev with
  | EAdvance now usage =>
      mkWorld (w_rt w) now usage
        (w_spent w + tracked w turn_tracks (goalTokenDelta usage (w_usage w))) (w_discarded w)
        (w_activeMs w + tracked w wall_tracks (now - w_now w)) (w_stops w)
  | ECall op nextId =>
      let (started, r) := exec_goal op (world_env w nextId) (w_rt w) in
      if started then mkWorld r (w_now w) (w_usage w) 0 0 0 0
      else mkWorld r (w_now w) (w_usage w) (w_spent w)
             (w_discarded w + if rebases op then pending_tokens (w_usage w) (w_rt w) else 0)
             (w_activeMs w) (w_stops w + if stops_clock op then 1 else 0)
  end.

(** Time and usage never go back, and identifiers are new. *)
Definition event_ok (w : world) (ev : session_event) : Prop :=
  match ev with
  | EAdvance now usage => (w_now w <= now)%Z /\ usage_le (w_usage w) usage
  | ECall _ nextId => fresh_id (world_env w nextId) (w_rt w)
  end.

(** A session starts with the goal it was stored with, if any. *)
Definition world_start (state : option GoalModeState) (now : Z) (usage : GoalTokenUsage) : world :=
  mkWorld (new_runtime state now) now usage
    (match state with Some s => g_tokensUsed (gs_goal s) | None => 0%Z end) 0
    (match state with Some s => (1000 * g_timeUsedSeconds (gs_goal s))%Z | None => 0%Z end) 0.

Inductive session (state : option GoalModeState) (t0 : Z) (u0 : GoalTokenUsage) : world -> Prop :=
| session_start : session state t0 u0 (world_start state t0 u0)
| session_step w ev : session state t0 u0 w -> event_ok w ev -> session state t0 u0 (world_step w ev).

Record books_ok (w : world) : Prop := {
  bk_rt : rt_inv (w_now w) (w_usage w) (w_rt w);
  bk_stops : (0 <= w_stops w)%Z;
  bk_books : forall s, r_state (w_rt w) = Some s ->
    (g_tokensUsed (gs_goal s) + pending_tokens (w_usage w) (w_rt w) + w_discarded w = w_spent w)%Z
    /\ (1000 * g_timeUsedSeconds (gs_goal s) + pending_ms (w_now w) (w_rt w) <= w_activeMs w)%Z
    /\ (w_activeMs w <= 1000 * g_timeUsedSeconds (gs_goal s) + pending_ms (w_now w) (w_rt w) + 999 * w_stops w)%Z
}.

Lemma books_start state now usage : books_ok (world_start state now usage).
Proof.
  split; simpl; [split; simpl; try done|done|].
  intros s Hs. unfold pending_tokens, pending_ms, turn_tracks, wall_tracks. simpl in *. rewrite Hs. simpl. lia.
Qed.

Lemma usage_le_trans a b c : usage_le a b -> usage_le b c -> usage_le a c.
Proof. unfold usage_le. lia. Qed.

Lemma books_advance w now usage :
  books_ok w -> (w_now w <= now)%Z -> usage_le (w_usage w) usage -> books_ok (world_step w (EAdvance now usage)).
Proof.
  intros [Hrt Hst Hb] Hnow Hu. split; [|done|].
  - destruct Hrt as [H1 H2 H3 H4]. split; simpl; [|done..|lia].
    intros t Ht. by eapply usage_le_trans; [apply H1|].
  - intros s Hs. simpl in *. destruct (Hb s Hs) as (Ht & Hm1 & Hm2). unfold tracked. rewrite Hs.
    assert (pending_tokens usage (w_rt w) = (pending_tokens (w_usage w) (w_rt w)
              + if turn_tracks (g_id (gs_goal s)) (w_rt w) then goalTokenDelta usage (w_usage w) else 0)%Z) as ->.
    { unfold pending_tokens, turn_delta. rewrite Hs. destruct (turn_tracks _ _) eqn:E; [|lia].
      unfold turn_tracks in E. destruct (r_turn (w_rt w)) as [t|] eqn:Et; [|done].
      apply delta_split; [by apply (ri_baseline _ _ _ Hrt)|done]. }
    assert (pending_ms now (w_rt w) = (pending_ms (w_now w) (w_rt w)
              + if wall_tracks (g_id (gs_goal s)) (w_rt w) then now - w_now w else 0)%Z) as ->.
    { unfold pending_ms. rewrite Hs. destruct (wall_tracks _ _); lia. }
    lia.
Qed.

Lemma books_call w op nextId :
  books_ok w -> fresh_id (world_env w nextId) (w_rt w) -> books_ok (world_step w (ECall op nextId)).
Proof.
  intros [Hrt Hst Hb] Hfresh. pose proof (exec_goal_effect (world_env w nextId) (w_rt w) Hrt op Hfresh) as He.
  cbn [world_step]. destruct (exec_goal op (world_env w nextId) (w_rt w)) as [started r].
  destruct He as [Hinv Hstart Hmoves]. cbn [world_env e_now e_usage] in *. destruct started.
  - split; [done|done|]. intros s Hs. cbn [w_rt w_now w_usage w_spent w_discarded w_activeMs w_stops] in *.
    destruct (Hstart eq_refl) as (s' & Hs' & ? & ? & ? & ?). assert (s' = s) as -> by congruence. lia.
  - destruct (Hmoves eq_refl) as (dms & Hm & Hd).
    split; cbn [w_rt w_now w_usage w_spent w_discarded w_activeMs w_stops]; [done|destruct (stops_clock op); lia|].
    intros s Hs. destruct (Hm s Hs) as (s0 & Hs0 & Htok & Hms). destruct (Hb s0 Hs0) as (? & ? & ?).
    destruct (stops_clock op); lia.
Qed.

Lemma session_books state t0 u0 w : session state t0 u0 w -> books_ok w.
Proof.
  induction 1 as [|w ev Hw IH Hok]; [apply books_start|]. destruct ev as [now usage|op nextId].
  - destruct Hok. by apply books_advance.
  - by apply books_call.
Qed.

(** Over every session in which the calls do not overlap and neither the clock nor the usage
    counters go back, whatever its calls and however often usage is flushed, the
    tokens charged to the goal, what is still pending, and what rebasing calls
    discarded add up to exactly what the session spent while the goal was tracked:
    nothing is charged twice.  The seconds charged never exceed the time the goal was
    active and fall short of it by less than a second per stop of the clock. *)
Theorem goal_usage_accounted (state : option GoalModeState) (t0 : Z) (u0 : GoalTokenUsage)
    (w : world) (s : GoalModeState) :
  session state t0 u0 w -> r_state (w_rt w) = Some s ->
  (g_tokensUsed (gs_goal s) + pending_tokens (w_usage w) (w_rt w) + w_discarded w = w_spent w)%Z
  /\ (0 <= pending_tokens (w_usage w) (w_rt w))%Z
  /\ (1000 * g_timeUsedSeconds (gs_goal s) <= w_activeMs w)%Z
  /\ (w_activeMs w <= 1000 * g_timeUsedSeconds (gs_goal s) + pending_ms (w_now w) (w_rt w) + 999 * w_stops w)%Z.
Proof.
  intros Hw Hs. destruct (session_books _ _ _ _ Hw) as [Hrt _ Hb]. destruct (Hb s Hs) as (? & ? & ?).
  pose proof (pending_tokens_nonneg (w_usage w) (w_rt w)). pose proof (pending_ms_nonneg _ _ _ Hrt).
  split_and!; lia.
Qed.

(** *** Where the books are closed *)

Definition settles (op : goal_op) : bool :=
  match op with
  | GToolDone name => negb (bool_decide (name = js "goal"))
  | GGoalToolDone | GAgentEnd | GAborted | GPause | GComplete => true
  | _ => false
  end.

Section settling.
Context (e : goal_env) (r : GoalRuntime) (Hinv : rt_inv (e_now e) (e_usage e) r).

Let r1 := flushUsageLocked e (e_usage e) r.

Let Hfl : flushed (e_now e) (e_usage e) r r1.
Proof. apply flush_flushed, Hinv. Qed.

Lemma settled_flush_or_idle r' :
  (hasAccountingState r = true -> pending_tokens (e_usage e) r' = 0%Z) ->
  (hasAccountingState r = false -> pending_tokens (e_usage e) r' = pending_tokens (e_usage e) r) ->
  pending_tokens (e_usage e) r' = 0%Z.
Proof.
  intros H1 H2. destruct (hasAccountingState r) eqn:Ha; [by apply H1|].
  rewrite H2 by done. by apply not_accounting.
Qed.

Lemma no_turn_pending r0 : pending_tokens (e_usage e) (set_turn None r0) = 0%Z.
Proof. unfold pending_tokens, turn_tracks. simpl. by case_match. Qed.

Lemma deactivate_pending s m r0 : pending_tokens (e_usage e) (deactivate e s m r0) = 0%Z.
Proof. destruct (deactivate_fields e s m r0) as (_ & Ht & Hw). by destruct (idle_pending_zero e r0 _ Ht Hw). Qed.

Lemma activate_pending s m r0 : pending_tokens (e_usage e) (activate e s m r0) = 0%Z.
Proof.
  destruct (activate_fields e s m r0) as (Hs & [turnId Ht] & _).
  unfold pending_tokens, turn_tracks, turn_delta. rewrite Hs, Ht. simpl. rewrite bool_decide_true by done.
  apply delta_self.
Qed.

Lemma settles_pending op : settles op = true -> pending_tokens (e_usage e) (exec_goal op e r).2 = 0%Z.
Proof.
  pose proof (fl_tokens _ _ _ _ Hfl) as H1.
  destruct op; cbn [settles exec_goal snd]; intros Hop; try done; simpl_bool.
  - unfold onToolCompleted. rewrite bool_decide_false by done.
    apply settled_flush_or_idle; intros Ha; rewrite Ha; done.
  - unfold onGoalToolCompleted. apply settled_flush_or_idle; intros Ha; rewrite Ha; done.
  - unfold onAgentEnd. destruct (hasAccountingState r); apply no_turn_pending.
  - unfold onTaskAborted. destruct (hasAccountingState r); [|apply no_turn_pending]. cbn [negb].
    destruct (getStateClone _) as [s|]; [|apply no_turn_pending].
    destruct (accounting_state s); [|apply no_turn_pending].
    apply (activate_pending (with_goal s (touched (gs_goal s) (g_status (gs_goal s)) (e_now e))) (Some PersistGoal)).
  - unfold pauseGoal. fold r1. destruct (getStateClone r1) as [s|]; [|done].
    case_bool_decide; [|done]. cbn [snd].
    apply (deactivate_pending (mkGoalState false GMActive false (touched (gs_goal s) GSPaused (e_now e)))).
  - unfold completeGoalFromTool. fold r1. destruct (getStateClone r1) as [s|]; [|done].
    destruct (g_status (gs_goal s)); try done; cbn [snd];
      apply (deactivate_pending (mkGoalState false GMExiting true (touched (gs_goal s) GSComplete (e_now e)))).
Qed.

End settling.

(** Whenever a tool other than the goal tool completes, a turn ends or is aborted,
    or the goal is paused or completed, the goal's persisted counter is exact: it is
    all the session spent on the goal, less what rebasing calls discarded. *)
Theorem goal_charged_in_full (state : option GoalModeState) (t0 : Z) (u0 : GoalTokenUsage)
    (w : world) (op : goal_op) (nextId : jsstring) (s : GoalModeState) :
  session state t0 u0 w -> fresh_id (world_env w nextId) (w_rt w) -> settles op = true ->
  let w' := world_step w (ECall op nextId) in
  r_state (w_rt w') = Some s ->
  (g_tokensUsed (gs_goal s) + w_discarded w' = w_spent w')%Z.
Proof.
  intros Hw Hfresh Hop w' Hs.
  assert (books_ok w') as Hb.
  { apply books_call; [by eapply session_books|done]. }
  destruct (session_books _ _ _ _ Hw) as [Hrt _ _].
  pose proof (settles_pending (world_env w nextId) (w_rt w) Hrt op Hop) as Hp.
  destruct (bk_books _ Hb s Hs) as (Ht & _).
  assert (pending_tokens (w_usage w') (w_rt w') = 0%Z) as Hz; [|lia].
  unfold w'. cbn [world_step]. destruct (exec_goal op (world_env w nextId) (w_rt w)) as [started r]. by destruct started.
Qed.

(** ** The life cycle *)

(** The changes of status the calls make. *)
Definition status_step (op : goal_op) (a b : GoalStatus) : Prop :=
  b = a \/ match op with
           | GPause => a = GSActive /\ b = GSPaused
           | GResume => a <> GSComplete /\ b = GSActive
           | GComplete => (a = GSActive \/ a = GSPaused) /\ b = GSComplete
           | _ => False
           end.

(** The goal goes on: same identity and objective, charges that only grow. *)
Definition goes_on (op : goal_op) (s s' : GoalModeState) : Prop :=
  g_id (gs_goal s') = g_id (gs_goal s) /\ g_objective (gs_goal s') = g_objective (gs_goal s)
  /\ (g_tokensUsed (gs_goal s) <= g_tokensUsed (gs_goal s'))%Z
  /\ (g_timeUsedSeconds (gs_goal s) <= g_timeUsedSeconds (gs_goal s'))%Z
  /\ status_step op (g_status (gs_goal s)) (g_status (gs_goal s')).

Lemma goes_on_refl op s : goes_on op s s.
Proof. split_and!; try done. by left. Qed.

Section transitions.
Context (e : goal_env) (r : GoalRuntime) (s : GoalModeState).
Context (Hinv : rt_inv (e_now e) (e_usage e) r) (Hs : r_state r = Some s).

Let r1 := flushUsageLocked e (e_usage e) r.

Lemma flush_goes_on : exists s1, r_state r1 = Some s1 /\ same_goal s s1
  /\ forall op, goes_on op s s1.
Proof.
  pose proof (flush_flushed e r Hinv) as Hfl. fold r1 in Hfl. destruct Hfl as [Hst _ Hms _ _ _].
  rewrite Hs in Hst. destruct (r_state r1) as [s1|] eqn:Hs1; [|done]. destruct Hst as [Hsame [Htok Htime]].
  exists s1. split_and!; [done|apply Hsame..|]. intros op.
  pose proof (pending_tokens_nonneg (e_usage e) r). destruct Hsame as (_ & _ & _ & Hid & Hobj & Hst & _).
  assert (g_timeUsedSeconds (gs_goal s) <= g_timeUsedSeconds (gs_goal s1))%Z.
  { assert (pending_ms (e_now e) r - pending_ms (e_now e) r1 > -1000)%Z; [|lia].
    pose proof (pending_ms_nonneg _ _ _ Hinv). lia. }
  split_and!; [done..|lia|done|by left].
Qed.

Lemma flush_keeps_accounting s1 : r_state r1 = Some s1 -> same_goal s s1 -> accounting_state s1 = accounting_state s.
Proof. intros _ (He & _ & _ & _ & _ & Hst & _). unfold accounting_state, isAccountingStatus. by rewrite He, Hst. Qed.

Lemma goes_on_status op s1 s' :
  goes_on op s s1 -> same_books s1 s' -> g_objective (gs_goal s') = g_objective (gs_goal s1) ->
  status_step op (g_status (gs_goal s)) (g_status (gs_goal s')) -> goes_on op s s'.
Proof.
  intros (? & ? & ? & ? & _) (? & ? & ?) ? ?. split_and!; [congruence..|lia|lia|done].
Qed.

(** What a call does to the session's goal. *)
Definition goal_transition (op : goal_op) (started : bool) (r' : GoalRuntime) : Prop :=
  match r_state r' with
  | None => op = GDrop
  | Some s' =>
      if started then
        (exists o p, op = GCreate o p /\ (g_status (gs_goal s) = GSComplete \/ g_status (gs_goal s) = GSDropped))
        \/ (exists o, op = GReplace o /\ accounting_state s = true)
      else goes_on op s s'
  end.

Lemma transition_keep op r' : r_state r' = Some s -> goal_transition op false r'.
Proof. unfold goal_transition. intros ->. apply goes_on_refl. Qed.

Lemma transition_flush op r' : r_state r' = r_state r1 -> goal_transition op false r'.
Proof.
  unfold goal_transition. intros ->. destruct flush_goes_on as (s1 & -> & _ & Hon). apply Hon.
Qed.

(** A call that flushes and commits the goal with a new status. *)
Lemma transition_commit op s' r' :
  r_state r' = Some s' ->
  (forall s1, r_state r1 = Some s1 -> same_goal s s1 ->
     same_books s1 s' /\ g_objective (gs_goal s') = g_objective (gs_goal s1)
     /\ status_step op (g_status (gs_goal s)) (g_status (gs_goal s'))) ->
  goal_transition op false r'.
Proof.
  unfold goal_transition. intros -> Hc. destruct flush_goes_on as (s1 & Hs1 & Hsame & Hon).
  destruct (Hc s1 Hs1 Hsame) as (? & ? & ?). by eapply goes_on_status.
Qed.

Lemma flush_status s1 : same_goal s s1 -> g_status (gs_goal s1) = g_status (gs_goal s).
Proof. by intros (_ & _ & _ & _ & _ & Hst & _). Qed.

Lemma create_transition o p :
  let (started, r') := exec_goal (GCreate o p) e r in goal_transition (GCreate o p) started r'.
Proof.
  cbn [exec_goal]. unfold createGoal. destruct (validateGoalObjective _ _) as [obj|err]; [|by apply transition_keep].
  rewrite getStateClone_id, Hs. destruct (_ && _) eqn:Htaken; [by apply transition_keep|].
  unfold goal_transition. cbn. left. exists o, p. split; [done|].
  apply andb_false_iff in Htaken as [?|?]; simpl_bool; auto.
Qed.

Lemma replace_transition o :
  let (started, r') := exec_goal (GReplace o) e r in goal_transition (GReplace o) started r'.
Proof.
  cbn [exec_goal]. unfold replaceGoal. destruct (validateGoalObjective _ _) as [obj|err]; [|by apply transition_keep].
  unfold hasAccountingState. rewrite getStateClone_id, Hs.
  destruct (accounting_state s) eqn:Ha; cbn [negb]; [|by apply transition_keep].
  unfold goal_transition. cbn. right. by exists o.
Qed.

Lemma stop_transition op (r' : GoalRuntime) :
  op = GPause \/ op = GComplete -> r' = (exec_goal op e r).2 -> goal_transition op false r'.
Proof.
  destruct flush_goes_on as (s1 & Hs1 & Hsame & _). pose proof (flush_status s1 Hsame) as Hst.
  intros [->| ->] ->; cbn [exec_goal snd].
  - unfold pauseGoal. fold r1. rewrite getStateClone_id, Hs1.
    case_bool_decide as Ha; cbn [snd]; [|by apply transition_flush].
    eapply transition_commit; [done|]. intros s2 Hs2 _. assert (s2 = s1) as -> by congruence.
    split_and!; [done..|]. right. split; [congruence|done].
  - unfold completeGoalFromTool. fold r1. rewrite getStateClone_id, Hs1.
    destruct (g_status (gs_goal s1)) eqn:Ha; cbn [snd]; [..|by apply transition_flush|by apply transition_flush];
      eapply transition_commit; try done; intros s2 Hs2 _; assert (s2 = s1) as -> by congruence;
      (split_and!; [done..|]); right; split; [|done| |done]; rewrite <- Hst; auto.
Qed.

Lemma aborted_transition : goal_transition GAborted false (onTaskAborted e r).
Proof.
  unfold onTaskAborted. destruct (hasAccountingState r) eqn:Ha; cbn [negb]; [|by apply transition_keep].
  fold r1. rewrite getStateClone_id. cbn [set_turn r_state].
  destruct flush_goes_on as (s1 & Hs1 & Hsame & _). rewrite Hs1.
  destruct (accounting_state s1); [|by apply transition_flush].
  eapply transition_commit; [done|]. intros s2 Hs2 _. assert (s2 = s1) as -> by congruence.
  split_and!; [done..|]. left. simpl. by rewrite (flush_status s1 Hsame).
Qed.

Lemma thread_resumed_transition : goal_transition GThreadResumed false (onThreadResumed e r).2.
Proof.
  unfold onThreadResumed. rewrite getStateClone_id, Hs. cbn [snd]. unfold goal_transition.
  destruct (accounting_state _); cbn; split_and!; try done; by left.
Qed.

Lemma resume_transition : goal_transition GResume false (resumeGoal e r).2.
Proof.
  unfold resumeGoal. rewrite getStateClone_id, Hs. case_bool_decide; cbn [snd]; [by apply transition_keep|].
  unfold goal_transition. cbn. split_and!; try done. by right.
Qed.

Lemma drop_transition : goal_transition GDrop false (dropGoal e r).2.
Proof.
  unfold dropGoal. fold r1. rewrite getStateClone_id. destruct flush_goes_on as (s1 & Hs1 & _ & _). by rewrite Hs1.
Qed.

Lemma exec_goal_transition op : let (started, r') := exec_goal op e r in goal_transition op started r'.
Proof.
  destruct op; try by apply create_transition || apply replace_transition.
  all: cbn [exec_goal].
  - destruct (turn_start_fields e r turnId) as (Hst & _). apply transition_keep. congruence.
  - unfold onToolCompleted. case_bool_decide; [by apply transition_keep|].
    destruct (hasAccountingState r); [by apply transition_flush|by apply transition_keep].
  - unfold onGoalToolCompleted. destruct (hasAccountingState r); [by apply transition_flush|by apply transition_keep].
  - unfold onAgentEnd. destruct (hasAccountingState r); [by apply transition_flush|by apply transition_keep].
  - apply aborted_transition.
  - apply thread_resumed_transition.
  - apply resume_transition.
  - apply stop_transition; [by left|done].
  - apply drop_transition.
  - apply stop_transition; [by right|done].
Qed.

End transitions.

(** A session's goal keeps its identity and objective, and its charges only grow,
    through every call but a drop, a replacement of the active goal, and the creation
    of a goal once the old one is complete or dropped; its status changes only by
    pausing an active goal, resuming one that is not complete, and completing an active
    or paused one, so a completed goal stays complete. *)
Theorem goal_life_cycle (state : option GoalModeState) (t0 : Z) (u0 : GoalTokenUsage)
    (w : world) (op : goal_op) (nextId : jsstring) (s : GoalModeState) :
  session state t0 u0 w -> r_state (w_rt w) = Some s ->
  let (started, r') := exec_goal op (world_env w nextId) (w_rt w) in
  match r_state r' with
  | None => op = GDrop
  | Some s' =>
      if started then
        (exists o p, op = GCreate o p /\ (g_status (gs_goal s) = GSComplete \/ g_status (gs_goal s) = GSDropped))
        \/ (exists o, op = GReplace o /\ accounting_state s = true)
      else goes_on op s s'
  end.
Proof.
  intros Hw Hs. destruct (session_books _ _ _ _ Hw) as [Hrt _ _].
  exact (exec_goal_transition (world_env w nextId) (w_rt w) s Hrt Hs op).
Qed.

(** ** A persisted goal *)

Lemma status_of_string_spec t st : status_of_string t = Some st <-> t = status_string st.
Proof.
  split; [|intros ->; by destruct st].
  unfold status_of_string. repeat case_bool_decide; intros [= <-]; done.
Qed.

(** The two forms of a provenance, and its absence. *)
Definition provenance_is (v : option json) (p : option GoalProvenance) : Prop :=
  match p with
  | None => v = None
  | Some PUser => exists fields, v = Some (JObj fields) /\ lookup_field (js "source") fields = Some (JStr (js "user"))
  | Some (PUltragoal runId goalId) =>
      exists fields, v = Some (JObj fields) /\ lookup_field (js "source") fields = Some (JStr (js "ultragoal"))
        /\ lookup_field (js "runId") fields = Some (JStr runId) /\ lookup_field (js "goalId") fields = Some (JStr goalId)
  end.

Lemma is_str_iff k v : is_str k v = true <-> v = Some (JStr k).
Proof. destruct v as [[]|]; cbn; try done. rewrite bool_decide_eq_true. split; [by intros ->|by intros [= ->]]. Qed.

Lemma read_provenance_spec v p : read_provenance v = Some p <-> provenance_is v p.
Proof.
  unfold read_provenance, provenance_is. split.
  - destruct v as [[| | | | |fields]|]; try done; [|by intros [= <-]]. cbn [jget].
    destruct (is_str (js "ultragoal") _) eqn:Eu; [apply is_str_iff in Eu|].
    + destruct (lookup_field (js "runId") fields) as [[]|] eqn:Er; try done.
      destruct (lookup_field (js "goalId") fields) as [[]|] eqn:Eg; try done. intros [= <-]. by exists fields.
    + destruct (is_str (js "user") _) eqn:Ep; [apply is_str_iff in Ep|done]. intros [= <-]. by exists fields.
  - destruct p as [[runId goalId|]|]; [| |by intros ->].
    + intros (fields & -> & Hs & Hr & Hg). cbn [jget]. rewrite (proj2 (is_str_iff _ _) Hs), Hr, Hg. done.
    + intros (fields & -> & Hs). cbn [jget]. rewrite Hs. done.
Qed.

(** C37: Reading a stored goal returns a goal exactly when every field has its type, the status
    is one of the four (or the retired one, read as active) and the provenance is absent,
    an object whose source is the user, or an object whose source is [ultragoal] with the
    identifiers of a run and a goal as texts; the goal is then those fields.  Everything else is
    refused, among it any other source.  A goal that was stored is read back as it was.
    (Further properties of a provenance object, which the source passes on, are not part of
    a goal here.) *)
Theorem persisted_goal_typed (v : json) (g : Goal) :
  (normalizeGoal (Some v) = Some g <->
   jget (js "id") (Some v) = Some (JStr (g_id g))
   /\ jget (js "objective") (Some v) = Some (JStr (g_objective g))
   /\ (exists status, jget (js "status") (Some v) = Some (JStr status)
       /\ (status = status_string (g_status g) \/ (status = js "budget-limited" /\ g_status g = GSActive)))
   /\ jget (js "tokensUsed") (Some v) = Some (JNum (g_tokensUsed g))
   /\ jget (js "timeUsedSeconds") (Some v) = Some (JNum (g_timeUsedSeconds g))
   /\ jget (js "createdAt") (Some v) = Some (JNum (g_createdAt g))
   /\ jget (js "updatedAt") (Some v) = Some (JNum (g_updatedAt g))
   /\ provenance_is (jget (js "provenance") (Some v)) (g_provenance g))
  /\ normalizeGoal (Some (goal_json g)) = Some g.
Proof.
  split; [|apply normalize_goal_json]. rewrite <- read_provenance_spec. unfold normalizeGoal. split.
  - repeat (case_match; try done); intros [= <-]; cbn; (split_and!; try done); eexists; (split; [done|]); simpl_bool.
    + right. split; [done|]. match goal with H : status_of_string _ = Some ?g0 |- _ =>
        apply status_of_string_spec in H; by destruct g0 end.
    + left. by apply status_of_string_spec.
  - intros (-> & -> & (status & -> & Hst) & -> & -> & -> & -> & ->).
    assert (status_of_string (if bool_decide (status = js "budget-limited") then js "active" else status)
            = Some (g_status g)) as ->; [|by destruct g].
    case_bool_decide as Hb; apply status_of_string_spec; destruct Hst as [Hst|[Hst Ha]]; try done.
    + rewrite Hst in Hb. by destruct (g_status g).
    + by rewrite Ha.
Qed.

(** A source that is neither of the two is refused. *)
Example other_source_refused :
  normalizeGoal (Some (JObj [(js "id", JStr (js "1")); (js "objective", JStr (js "o")); (js "status", JStr (js "active"));
    (js "tokensUsed", JNum 0); (js "timeUsedSeconds", JNum 0); (js "createdAt", JNum 0); (js "updatedAt", JNum 0);
    (js "provenance", JObj [(js "source", JStr (js "robot"))])])) = None.
Proof. vm_compute. reflexivity. Qed.

(** ** On concrete sessions *)

Definition usage0 : GoalTokenUsage := mkUsage 0 0 0 0.
Definition usage_in (n : Z) : GoalTokenUsage := mkUsage n 0 0 0.

Fixpoint run_session (w : world) (evs : list session_event) : world :=
  match evs with [] => w | ev :: evs => run_session (world_step w ev) evs end.

Fixpoint events_ok (w : world) (evs : list session_event) : Prop :=
  match evs with [] => True | ev :: evs => event_ok w ev /\ events_ok (world_step w ev) evs end.

Lemma run_session_session state t0 u0 w evs :
  session state t0 u0 w -> events_ok w evs -> session state t0 u0 (run_session w evs).
Proof.
  revert w. induction evs as [|ev evs IH]; intros w Hw Hok; simpl; [done|]. destruct Hok.
  apply IH; [|done]. by apply session_step.
Qed.

(** A goal is created, a turn spends 100 tokens, a tool completes, the turn ends. *)
Definition demo_events : list session_event :=
  [ECall (GCreate (js "ship it") None) (js "1"); ECall (GTurnStart (js "turn-1")) (js "2");
   EAdvance 2500 (usage_in 100); ECall (GToolDone (js "bash")) (js "3")].

Definition demo_world : world := run_session (world_start None 0 usage0) demo_events.

Lemma demo_session : session None 0 usage0 demo_world.
Proof.
  apply run_session_session; [constructor|]. cbn. split_and!; try done.
  all: intros s [= <-]; vm_compute; congruence.
Qed.

Definition demo_goal_state : GoalModeState :=
  mkGoalState true GMActive false (mkGoal (js "1") (js "ship it") GSActive 100 2 0 2500 (Some PUser)).

Lemma goal_usage_accounted_witness :
  r_state (w_rt demo_world) = Some demo_goal_state /\ w_spent demo_world = 100%Z
  /\ w_discarded demo_world = 0%Z /\ (1000 * 2 <= w_activeMs demo_world)%Z.
Proof.
  assert (Hs : r_state (w_rt demo_world) = Some demo_goal_state) by (vm_compute; reflexivity).
  split; [exact Hs|]. split; [vm_compute; reflexivity|]. split; [vm_compute; reflexivity|].
  exact (proj1 (proj2 (proj2 (goal_usage_accounted None 0 usage0 demo_world _ demo_session Hs)))).
Defined.

Lemma goal_charged_in_full_witness :
  let w' := world_step demo_world (ECall GAgentEnd (js "4")) in
  r_state (w_rt w') = Some demo_goal_state /\ (100 + w_discarded w' = w_spent w')%Z.
Proof.
  intros w'. assert (Hs : r_state (w_rt w') = Some demo_goal_state) by (vm_compute; reflexivity).
  split; [exact Hs|].
  refine (goal_charged_in_full None 0 usage0 demo_world GAgentEnd (js "4") _ demo_session _ _ Hs).
  - intros s Hs0. assert (Hs1 : r_state (w_rt demo_world) = Some demo_goal_state) by (vm_compute; reflexivity).
    rewrite Hs1 in Hs0. injection Hs0 as <-. vm_compute. congruence.
  - reflexivity.
Defined.

Lemma goal_life_cycle_witness :
  r_state (w_rt demo_world) = Some demo_goal_state
  /\ let (started, r') := exec_goal GComplete (world_env demo_world (js "4")) (w_rt demo_world) in
     match r_state r' with
     | None => GComplete = GDrop
     | Some s' => if started then False else goes_on GComplete demo_goal_state s'
     end.
Proof.
  assert (Hs : r_state (w_rt demo_world) = Some demo_goal_state) by (vm_compute; reflexivity).
  split; [exact Hs|].
  pose proof (goal_life_cycle None 0 usage0 demo_world GComplete (js "4") _ demo_session Hs) as H.
  cbn [exec_goal] in H |- *. exact H.
Defined.

(** Resuming a goal that is active already discards what the turn has spent since the
    last flush. *)
Example resume_active_discards :
  let w := run_session (world_start None 0 usage0)
    [ECall (GCreate (js "ship it") None) (js "1"); ECall (GTurnStart (js "turn-1")) (js "2");
     EAdvance 10 (usage_in 100); ECall GResume (js "3"); ECall GAgentEnd (js "4")] in
  (fun s => g_tokensUsed (gs_goal s)) <$> r_state (w_rt w) = Some 0%Z /\ w_spent w = 100%Z.
Proof. vm_compute. split; reflexivity. Qed.

(** So does a second turn that starts before the first is flushed, as it does when a
    follow-up message continues the run after a turn without tools. *)
Example follow_up_turn_discards :
  let w := run_session (world_start None 0 usage0)
    [ECall (GCreate (js "ship it") None) (js "1"); ECall (GTurnStart (js "turn-1")) (js "2");
     EAdvance 10 (usage_in 100); ECall (GTurnStart (js "turn-2")) (js "3");
     EAdvance 20 (usage_in 130); ECall GAgentEnd (js "4")] in
  (fun s => g_tokensUsed (gs_goal s)) <$> r_state (w_rt w) = Some 30%Z /\ w_spent w = 130%Z.
Proof. vm_compute. split; reflexivity. Qed.

(** A flush takes the usage of the moment it was called, but runs when the calls before it
    are done.  If one of those has charged a later usage, the flush moves the baseline back as soon
    as a second has passed, and the tokens in between are charged again: 180 for 150 spent. *)
Example stale_flush_recounts :
  let at_ now tokens := mkEnv now (usage_in tokens) (js "1") in
  let r0 := onTurnStart (at_ 0%Z 0%Z) (js "turn-1") usage0 (createGoal (at_ 0%Z 0%Z) (js "ship it") None (new_runtime None 0)).2 in
  let r1 := flushUsageLocked (at_ 1000%Z 130%Z) (usage_in 130) r0 in
  let r2 := flushUsage (at_ 2000%Z 130%Z) (usage_in 100) r1 in
  let r3 := flushUsage (at_ 3000%Z 150%Z) (usage_in 150) r2 in
  (fun s => g_tokensUsed (gs_goal s)) <$> r_state r3 = Some 180%Z.
Proof. vm_compute. reflexivity. Qed.
