(* ===== verification/RunLedger.v ===== *)
(** * The run resource ledger (packages/agent/src/run-resource-ledger.ts)

    A logical run of the agent is fenced by a ledger: everything that may still be
    working for the run (provider calls, tools, post-prompt work) is registered, the
    run is sealed when its last event was published, and it is settled once it is
    sealed and everything registered has completed.  Misuse quarantines the run for
    good.  Promises are identifiers: [l_done] holds those that have settled, and the
    callback [then] attaches to one is a step of its own.  A cancellation domain is an
    object with an identity, owned by a bridge: the standalone one is modelled, the one
    the session binds is any implementation of [CancellationBridge]. *)

From S2P Require Import Prelude JsText.

Definition MAX_TOMBSTONE_ENTRIES : nat := 256.

Inductive RunResourceKind := KProviderFactory | KProviderIterator | KTool | KPostPrompt.

(** [id] is the decimal text of the sequence number. *)
Record RunResourceEntry := mkEntry {
  en_id : Z;
  en_kind : RunResourceKind;
  en_label : jsstring;
  en_registeredAt : Z
}.

Inductive RunLifecycle := LOpen | LSealed | LQuarantined.

#[export] Instance RunLifecycle_eq_dec : EqDecision RunLifecycle.
Proof. solve_decision. Defined.

Inductive RunSettlementReason := RUnknownRun | RNotSealed | RResourcesPending | RQuarantined.

Inductive RunSettlementProof :=
| Settled
| Unfenced (reason : RunSettlementReason) (pending : list RunResourceEntry).

(** The domain object of a run; [d_ref] is its identity. *)
Record RunCancellationDomain := mkDomain { d_run : jsstring; d_ref : nat }.

#[export] Instance RunCancellationDomain_eq_dec : EqDecision RunCancellationDomain.
Proof. solve_decision. Defined.

Inductive release_disposition := RelSettled | RelQuarantined.

#[export] Instance release_disposition_eq_dec : EqDecision release_disposition.
Proof. solve_decision. Defined.

(** ** Bridges *)

Class CancellationBridge (B : Type) := {
  br_open : jsstring -> B -> option RunCancellationDomain * B;
  br_abort : jsstring -> B -> B;
  br_release : jsstring -> release_disposition -> B -> B
}.

(** The standalone bridge: a domain per run, with the controllers that were aborted. *)
Record standalone_bridge := mkStandalone {
  sb_domains : gmap jsstring nat;
  sb_aborted : gset nat;
  sb_released : gset jsstring;
  sb_quarantined : gset jsstring;
  sb_next : nat
}.

Definition standalone_new : standalone_bridge := mkStandalone ∅ ∅ ∅ ∅ 0.

Definition standalone_open (run : jsstring) (b : standalone_bridge)
    : option RunCancellationDomain * standalone_bridge :=
  if bool_decide (run ∈ sb_quarantined b) then (None, b)
  else match sb_domains b !! run with
       | Some ref => (Some (mkDomain run ref), b)
       | None =>
           if bool_decide (run ∈ sb_released b) then (None, b)
           else (Some (mkDomain run (sb_next b)),
                 mkStandalone (<[run := sb_next b]> (sb_domains b)) (sb_aborted b) (sb_released b)
                   (sb_quarantined b) (S (sb_next b)))
       end.

Definition standalone_lookup (run : jsstring) (b : standalone_bridge) : option RunCancellationDomain :=
  mkDomain run <$> sb_domains b !! run.

Definition standalone_abort (run : jsstring) (b : standalone_bridge) : standalone_bridge :=
  match sb_domains b !! run with
  | None => b
  | Some ref => mkStandalone (sb_domains b) (sb_aborted b ∪ {[ref]}) (sb_released b) (sb_quarantined b) (sb_next b)
  end.

Definition standalone_release (run : jsstring) (disposition : release_disposition) (b : standalone_bridge)
    : standalone_bridge :=
  match sb_domains b !! run with
  | None => b
  | Some ref =>
      let q := bool_decide (disposition = RelQuarantined) in
      mkStandalone (delete run (sb_domains b))
        (if q then sb_aborted b ∪ {[ref]} else sb_aborted b)
        (sb_released b ∪ {[run]})
        (if q then sb_quarantined b ∪ {[run]} else sb_quarantined b) (sb_next b)
  end.

#[export] Instance standaloneBridge : CancellationBridge standalone_bridge := {
  br_open := standalone_open;
  br_abort := standalone_abort;
  br_release := standalone_release
}.

(** ** The ledger *)

Record RunState := mkRun {
  rs_lifecycle : RunLifecycle;
  rs_domain : option RunCancellationDomain;
  rs_bound : bool;  (** the bound bridge owns the domain, not the standalone one *)
  rs_resources : list RunResourceEntry;
  rs_tombstone : list RunResourceEntry;
  rs_waiters : list nat;
  rs_claimedOwners : list nat;
  rs_released : bool
}.

(** A producer lease: the run it belongs to, its domain, the resource that stands for
    it and whether its discovery is closed. *)
Record lease := mkLease {
  ls_run : jsstring;
  ls_domain : RunCancellationDomain;
  ls_resource : Z;
  ls_closed : bool
}.

Section ledger.
Context {X : Type} `{CancellationBridge X}.

Record ledger := mkLedger {
  l_runs : gmap jsstring RunState;
  l_standalone : standalone_bridge;
  l_bridge : option nat;  (** the identity of the bound bridge *)
  l_ext : X;              (** its state *)
  l_claimKey : option nat;
  l_sequence : Z;
  l_leases : list lease;
  l_owner : gmap Z jsstring;  (** the run a resource's callback was made for *)
  l_done : gset Z;            (** resources whose promise has settled *)
  l_released : list (jsstring * release_disposition);  (** calls of [release] *)
  l_delivered : list (nat * jsstring * RunSettlementProof)  (** resolved waiters *)
}.

Definition createRunResourceLedger (x : X) : ledger :=
  mkLedger ∅ standalone_new None x None 0 [] ∅ ∅ [] [].

Definition set_run (run : jsstring) (s : RunState) (l : ledger) : ledger :=
  mkLedger (<[run := s]> (l_runs l)) (l_standalone l) (l_bridge l) (l_ext l) (l_claimKey l) (l_sequence l)
    (l_leases l) (l_owner l) (l_done l) (l_released l) (l_delivered l).

(** A call on the bridge that owns a run's domain. *)
Definition on_bridge (bound : bool) (f : forall B, CancellationBridge B -> B -> B) (l : ledger) : ledger :=
  mkLedger (l_runs l) (if bound then l_standalone l else f _ _ (l_standalone l)) (l_bridge l)
    (if bound then f _ _ (l_ext l) else l_ext l) (l_claimKey l) (l_sequence l)
    (l_leases l) (l_owner l) (l_done l) (l_released l) (l_delivered l).

Definition abort_domain (run : jsstring) (bound : bool) (l : ledger) : ledger :=
  on_bridge bound (fun B _ => br_abort run) l.

Definition release_domain (run : jsstring) (bound : bool) (d : release_disposition) (l : ledger) : ledger :=
  let l := on_bridge bound (fun B _ => br_release run d) l in
  mkLedger (l_runs l) (l_standalone l) (l_bridge l) (l_ext l) (l_claimKey l) (l_sequence l)
    (l_leases l) (l_owner l) (l_done l) (l_released l ++ [(run, d)]) (l_delivered l).

Definition deliver (out : list (nat * jsstring * RunSettlementProof)) (l : ledger) : ledger :=
  mkLedger (l_runs l) (l_standalone l) (l_bridge l) (l_ext l) (l_claimKey l) (l_sequence l)
    (l_leases l) (l_owner l) (l_done l) (l_released l) (l_delivered l ++ out).

(** ** A run's settlement *)

Definition snapshot (s : RunState) : list RunResourceEntry :=
  if bool_decide (rs_lifecycle s = LQuarantined) then rs_tombstone s else rs_resources s.

Definition settlementProof (s : RunState) : option RunSettlementProof :=
  match rs_lifecycle s with
  | LQuarantined => Some (Unfenced RQuarantined (rs_tombstone s))
  | LSealed => if bool_decide (rs_resources s = []) then Some Settled else None
  | LOpen => None
  end.

Definition with_resources (rs : list RunResourceEntry) (s : RunState) : RunState :=
  mkRun (rs_lifecycle s) (rs_domain s) (rs_bound s) rs (rs_tombstone s) (rs_waiters s)
    (rs_claimedOwners s) (rs_released s).

Definition with_waiters (ws : list nat) (s : RunState) : RunState :=
  mkRun (rs_lifecycle s) (rs_domain s) (rs_bound s) (rs_resources s) (rs_tombstone s) ws
    (rs_claimedOwners s) (rs_released s).

Definition with_tombstone (t : list RunResourceEntry) (s : RunState) : RunState :=
  mkRun (rs_lifecycle s) (rs_domain s) (rs_bound s) (rs_resources s) t (rs_waiters s)
    (rs_claimedOwners s) (rs_released s).

(** [state.released = true; state.domain = undefined] *)
Definition without_domain (s : RunState) : RunState :=
  mkRun (rs_lifecycle s) None (rs_bound s) (rs_resources s) (rs_tombstone s) (rs_waiters s)
    (rs_claimedOwners s) true.

Definition with_lifecycle (lc : RunLifecycle) (s : RunState) : RunState :=
  mkRun lc (rs_domain s) (rs_bound s) (rs_resources s) (rs_tombstone s) (rs_waiters s)
    (rs_claimedOwners s) (rs_released s).

Definition releaseIfSettled (run : jsstring) (s : RunState) (l : ledger) : ledger :=
  if rs_released s || negb (bool_decide (rs_lifecycle s = LSealed))
     || negb (bool_decide (rs_resources s = [])) || negb (bool_decide (is_Some (rs_domain s)))
  then set_run run s l
  else set_run run (without_domain s) (release_domain run (rs_bound s) RelSettled l).

(** Resolve the waiters of a run that has a proof, and give its domain back. *)
Definition notify (run : jsstring) (s : RunState) (l : ledger) : ledger :=
  match settlementProof s with
  | Some proof =>
      releaseIfSettled run (with_waiters [] s) (deliver ((fun w => (w, run, proof)) <$> rs_waiters s) l)
  | None => releaseIfSettled run s l
  end.

Definition appendTombstone (entry : RunResourceEntry) (tombstone : list RunResourceEntry)
    : list RunResourceEntry :=
  let t := tombstone ++ [entry] in
  if (MAX_TOMBSTONE_ENTRIES <? length t)%nat then drop (length t - MAX_TOMBSTONE_ENTRIES) t else t.

Definition quarantineState (run : jsstring) (s : RunState) (l : ledger) : list RunResourceEntry * ledger :=
  if bool_decide (rs_lifecycle s = LQuarantined) then (rs_tombstone s, notify run s l)
  else
    let tombstone := fold_left (fun t entry => appendTombstone entry t) (rs_resources s) [] in
    let s1 := with_resources [] (with_tombstone tombstone (with_lifecycle LQuarantined s)) in
    match rs_domain s with
    | None => (tombstone, notify run s1 l)
    | Some _ =>
        let l := abort_domain run (rs_bound s) l in
        let l := if rs_released s then l else release_domain run (rs_bound s) RelQuarantined l in
        (tombstone, notify run (without_domain s1) l)
    end.

Definition next_id (l : ledger) : ledger :=
  mkLedger (l_runs l) (l_standalone l) (l_bridge l) (l_ext l) (l_claimKey l) (l_sequence l + 1)
    (l_leases l) (l_owner l) (l_done l) (l_released l) (l_delivered l).

Definition set_owner (id : Z) (run : jsstring) (l : ledger) : ledger :=
  mkLedger (l_runs l) (l_standalone l) (l_bridge l) (l_ext l) (l_claimKey l) (l_sequence l)
    (l_leases l) (<[id := run]> (l_owner l)) (l_done l) (l_released l) (l_delivered l).

(** A resource of the run, or its tombstone once the run is quarantined. *)
Definition register (run : jsstring) (s : RunState) (kind : RunResourceKind) (label : jsstring) (now : Z)
    (l : ledger) : option Z * ledger :=
  let l := next_id l in
  let entry := mkEntry (l_sequence l) kind label now in
  if bool_decide (rs_lifecycle s = LQuarantined) then
    (None, set_run run (with_tombstone (appendTombstone entry (rs_tombstone s)) s) l)
  else
    (Some (en_id entry),
     set_owner (en_id entry) run (set_run run (with_resources (rs_resources s ++ [entry]) s) l)).

(** The callback of a resource's promise. *)
Definition onSettled (id : Z) (l : ledger) : ledger :=
  match l_owner l !! id with
  | Some run =>
      match l_runs l !! run with
      | Some s => notify run (with_resources (List.filter (fun en => negb (en_id en =? id)%Z) (rs_resources s)) s) l
      | None => l
      end
  | None => l
  end.

(** ** Leases *)

Definition add_lease (ls : lease) (l : ledger) : ledger :=
  mkLedger (l_runs l) (l_standalone l) (l_bridge l) (l_ext l) (l_claimKey l) (l_sequence l)
    (l_leases l ++ [ls]) (l_owner l) (l_done l) (l_released l) (l_delivered l).

Definition leaseFor (run : jsstring) (s : RunState) (kind : RunResourceKind) (label : jsstring) (now : Z)
    (l : ledger) : option nat * ledger :=
  match rs_domain s with
  | None => (None, l)
  | Some domain =>
      let (id, l) := register run s kind label now l in
      match id with
      | None => (None, l)
      | Some id => (Some (length (l_leases l)), add_lease (mkLease run domain id false) l)
      end
  end.

Definition settle_promise (id : Z) (l : ledger) : ledger :=
  mkLedger (l_runs l) (l_standalone l) (l_bridge l) (l_ext l) (l_claimKey l) (l_sequence l)
    (l_leases l) (l_owner l) (l_done l ∪ {[id]}) (l_released l) (l_delivered l).

Definition closeDiscovery (n : nat) (l : ledger) : ledger :=
  match l_leases l !! n with
  | Some ls =>
      if ls_closed ls then l
      else settle_promise (ls_resource ls)
             (mkLedger (l_runs l) (l_standalone l) (l_bridge l) (l_ext l) (l_claimKey l) (l_sequence l)
                (<[n := mkLease (ls_run ls) (ls_domain ls) (ls_resource ls) true]> (l_leases l))
                (l_owner l) (l_done l) (l_released l) (l_delivered l))
  | None => l
  end.

Definition lease_track (n : nat) (kind : RunResourceKind) (label : jsstring) (now : Z) (l : ledger)
    : bool * ledger :=
  match l_leases l !! n with
  | Some ls =>
      match l_runs l !! ls_run ls with
      | Some s =>
          if ls_closed ls || bool_decide (rs_lifecycle s = LQuarantined)
          then (false, (quarantineState (ls_run ls) s l).2)
          else let (id, l) := register (ls_run ls) s kind label now l in (bool_decide (is_Some id), l)
      | None => (false, l)
      end
  | None => (false, l)
  end.

Inductive producer_refusal :=
| PUnknownRun | PSealed | PQuarantined | PDomainMismatch | PAlreadyClaimed | PHandleMismatch | PClosed | PParentClosed.

Definition lease_or_quarantined (r : option nat * ledger) : result producer_refusal nat * ledger :=
  match r with (Some n, l) => (Ok n, l) | (None, l) => (Err PQuarantined, l) end.

Definition lease_fork (n : nat) (expectedDomain : RunCancellationDomain) (kind : RunResourceKind)
    (label : jsstring) (now : Z) (l : ledger) : result producer_refusal nat * ledger :=
  match l_leases l !! n with
  | Some ls =>
      match l_runs l !! ls_run ls with
      | Some s =>
          if negb (bool_decide (expectedDomain = ls_domain ls))
          then (Err PDomainMismatch, (quarantineState (ls_run ls) s l).2)
          else
            let wasQuarantined := bool_decide (rs_lifecycle s = LQuarantined) in
            if ls_closed ls || wasQuarantined
            then (Err (if wasQuarantined then PQuarantined else PParentClosed), (quarantineState (ls_run ls) s l).2)
            else lease_or_quarantined (leaseFor (ls_run ls) s kind label now l)
      | None => (Err PUnknownRun, l)
      end
  | None => (Err PUnknownRun, l)
  end.

(** ** The interface of the ledger *)

Inductive bind_error := AlreadyBound.

Definition bindCancellationDomainBridge (next : nat) (l : ledger) : result bind_error ledger :=
  if match l_bridge l with Some b => negb (bool_decide (b = next)) | None => false end then Err AlreadyBound
  else Ok (mkLedger (l_runs l) (l_standalone l) (Some next) (l_ext l) (l_claimKey l) (l_sequence l)
             (l_leases l) (l_owner l) (l_done l) (l_released l) (l_delivered l)).

Definition bindAgentSessionClaimKey (key : nat) (l : ledger) : result bind_error ledger :=
  if match l_claimKey l with Some k => negb (bool_decide (k = key)) | None => false end then Err AlreadyBound
  else Ok (mkLedger (l_runs l) (l_standalone l) (l_bridge l) (l_ext l) (Some key) (l_sequence l)
             (l_leases l) (l_owner l) (l_done l) (l_released l) (l_delivered l)).

Definition set_bridges (b : standalone_bridge) (x : X) (l : ledger) : ledger :=
  mkLedger (l_runs l) b (l_bridge l) x (l_claimKey l) (l_sequence l) (l_leases l) (l_owner l) (l_done l)
    (l_released l) (l_delivered l).

Definition open (run : jsstring) (l : ledger) : option RunCancellationDomain * ledger :=
  match l_runs l !! run with
  | Some s => (if bool_decide (rs_lifecycle s = LOpen) then rs_domain s else None, l)
  | None =>
      let bound := bool_decide (is_Some (l_bridge l)) in
      let (opened, l) :=
        if bound then let (d, x) := br_open run (l_ext l) in (d, set_bridges (l_standalone l) x l)
        else let (d, b) := br_open run (l_standalone l) in (d, set_bridges b (l_ext l) l) in
      match opened with
      | None => (None, l)
      | Some d => (Some d, set_run run (mkRun LOpen (Some d) bound [] [] [] [] false) l)
      end
  end.

Definition lookupDomain (run : jsstring) (l : ledger) : option RunCancellationDomain :=
  match l_runs l !! run with Some s => rs_domain s | None => None end.

(** [expectedDomain && expectedDomain !== state.domain] *)
Definition mismatch (expected : option RunCancellationDomain) (s : RunState) : bool :=
  match expected with Some d => negb (bool_decide (rs_domain s = Some d)) | None => false end.

Definition reserveProducer (run : jsstring) (expected : option RunCancellationDomain) (kind : RunResourceKind)
    (label : jsstring) (now : Z) (l : ledger) : result producer_refusal nat * ledger :=
  match l_runs l !! run with
  | None => (Err PUnknownRun, l)
  | Some s =>
      if bool_decide (rs_lifecycle s = LQuarantined) then (Err PQuarantined, l)
      else if negb (bool_decide (rs_lifecycle s = LOpen)) then (Err PSealed, (quarantineState run s l).2)
      else if mismatch expected s then (Err PDomainMismatch, (quarantineState run s l).2)
      else lease_or_quarantined (leaseFor run s kind label now l)
  end.

Definition with_owner (key : nat) (s : RunState) : RunState :=
  mkRun (rs_lifecycle s) (rs_domain s) (rs_bound s) (rs_resources s) (rs_tombstone s) (rs_waiters s)
    (rs_claimedOwners s ++ [key]) (rs_released s).

Definition claimProducer (run : jsstring) (expected : option RunCancellationDomain) (ownerKey : nat) (now : Z)
    (l : ledger) : result producer_refusal nat * ledger :=
  if negb (bool_decide (l_claimKey l = Some ownerKey)) then (Err PClosed, l)
  else match l_runs l !! run with
       | None => (Err PHandleMismatch, l)
       | Some s =>
           if bool_decide (rs_lifecycle s = LQuarantined) then (Err PQuarantined, l)
           else if negb (bool_decide (rs_lifecycle s = LOpen)) then (Err PClosed, (quarantineState run s l).2)
           else if mismatch expected s then (Err PDomainMismatch, (quarantineState run s l).2)
           else if bool_decide (ownerKey ∈ rs_claimedOwners s) then (Err PAlreadyClaimed, (quarantineState run s l).2)
           else lease_or_quarantined (leaseFor run (with_owner ownerKey s) KPostPrompt (js "agent-session") now l)
       end.

Definition track (run : jsstring) (kind : RunResourceKind) (label : jsstring) (now : Z) (l : ledger) : ledger :=
  match l_runs l !! run with
  | None => l
  | Some s => (register run s kind label now l).2
  end.

Definition pending (run : jsstring) (l : ledger) : list RunResourceEntry :=
  match l_runs l !! run with Some s => snapshot s | None => [] end.

Definition seal (run : jsstring) (l : ledger) : ledger :=
  match l_runs l !! run with
  | Some s => if bool_decide (rs_lifecycle s = LOpen) then notify run (with_lifecycle LSealed s) l else l
  | None => l
  end.

(** A waiter is resolved at once or joins the run's waiters. *)
Definition waitForSettlement (run : jsstring) (waiter : nat) (l : ledger) : ledger :=
  match l_runs l !! run with
  | None => deliver [(waiter, run, Unfenced RUnknownRun [])] l
  | Some s =>
      match settlementProof s with
      | Some proof => deliver [(waiter, run, proof)] l
      | None => set_run run (with_waiters (rs_waiters s ++ [waiter]) s) l
      end
  end.

(** The timer of a waiter whose grace period is over; a resolved waiter's timer was
    cleared. *)
Definition wait_timeout (run : jsstring) (waiter : nat) (l : ledger) : ledger :=
  match l_runs l !! run with
  | None => l
  | Some s =>
      if negb (bool_decide (waiter ∈ rs_waiters s)) then l
      else
        let s := with_waiters (List.filter (fun w => negb (w =? waiter)%nat) (rs_waiters s)) s in
        let proof := default (Unfenced (if bool_decide (rs_lifecycle s = LOpen) then RNotSealed else RResourcesPending)
                                (snapshot s)) (settlementProof s) in
        deliver [(waiter, run, proof)] (set_run run s l)
  end.

Definition quarantine (run : jsstring) (l : ledger) : list RunResourceEntry * ledger :=
  match l_runs l !! run with Some s => quarantineState run s l | None => ([], l) end.

End ledger.

Arguments ledger X : clear implicits.
