(* ===== verification/RunLedgerFacts.v ===== *)
(** * What the run resource ledger guarantees

    The invariant of a ledger and its preservation by every step: a run is only
    declared settled when everything registered with it has completed, a quarantined
    run stays so and its domain is aborted, a domain is given back exactly once, and no
    waiter is left behind or answered twice. *)

From S2P Require Import Prelude JsText RunLedger.

Section facts.
Context {X : Type} `{CancellationBridge X}.
Implicit Types (l : ledger X) (run : jsstring) (s : RunState).

(** ** Steps *)

Inductive ledger_op :=
| LBindBridge (bridge : nat)
| LBindKey (key : nat)
| LOpenRun (run : jsstring)
| LReserve (run : jsstring) (expected : option RunCancellationDomain) (kind : RunResourceKind)
    (label : jsstring) (now : Z)
| LClaim (run : jsstring) (expected : option RunCancellationDomain) (key : nat) (now : Z)
| LTrack (run : jsstring) (kind : RunResourceKind) (label : jsstring) (now : Z)
| LSeal (run : jsstring)
| LWait (run : jsstring) (waiter : nat)
| LTimeout (run : jsstring) (waiter : nat)
| LQuarantine (run : jsstring)
| LLeaseTrack (n : nat) (kind : RunResourceKind) (label : jsstring) (now : Z)
| LLeaseFork (n : nat) (expected : RunCancellationDomain) (kind : RunResourceKind) (label : jsstring) (now : Z)
| LClose (n : nat)
| LPromise (id : Z)
| LCallback (id : Z).

(** A throwing call changes nothing. *)
Definition or_same (r : result bind_error (ledger X)) l : ledger X := match r with Ok l => l | Err _ => l end.

Definition exec_ledger (op : ledger_op) l : ledger X :=
  match op with
  | LBindBridge b => or_same (bindCancellationDomainBridge b l) l
  | LBindKey k => or_same (bindAgentSessionClaimKey k l) l
  | LOpenRun run => (open run l).2
  | LReserve run d kind label now => (reserveProducer run d kind label now l).2
  | LClaim run d key now => (claimProducer run d key now l).2
  | LTrack run kind label now => track run kind label now l
  | LSeal run => seal run l
  | LWait run w => waitForSettlement run w l
  | LTimeout run w => wait_timeout run w l
  | LQuarantine run => (quarantine run l).2
  | LLeaseTrack n kind label now => (lease_track n kind label now l).2
  | LLeaseFork n d kind label now => (lease_fork n d kind label now l).2
  | LClose n => closeDiscovery n l
  | LPromise id => settle_promise id l
  | LCallback id => onSettled id l
  end.

(** A callback runs after its promise settled, and every wait is a new one. *)
Definition op_ready l (op : ledger_op) : Prop :=
  match op with
  | LCallback id => id ∈ l_done l
  | LWait _ w => (forall run s, l_runs l !! run = Some s -> w ∉ rs_waiters s)
                 /\ w ∉ ((fun x => x.1.1) <$> l_delivered l)
  | _ => True
  end.

Inductive ledger_reachable : ledger X -> Prop :=
| lr_new x : ledger_reachable (createRunResourceLedger x)
| lr_step l op : ledger_reachable l -> op_ready l op -> ledger_reachable (exec_ledger op l).

(** ** The invariant *)

Definition releases_of run l : list release_disposition :=
  snd <$> List.filter (fun x => bool_decide (x.1 = run)) (l_released l).

(** What holds of a run before its waiters are notified. *)
Record run_pre l run s : Prop := {
  rp_domain : rs_released s = true <-> rs_domain s = None;
  rp_releases : length (releases_of run l) = if rs_released s then 1 else 0;
  rp_quarantined : rs_lifecycle s = LQuarantined -> rs_domain s = None /\ rs_resources s = [];
  rp_tombstone : length (rs_tombstone s) <= MAX_TOMBSTONE_ENTRIES;
  rp_fenced : rs_lifecycle s <> LQuarantined -> forall id, l_owner l !! id = Some run ->
    id ∉ (en_id <$> rs_resources s) -> id ∈ l_done l;
  rp_owned : forall en, en ∈ rs_resources s -> l_owner l !! en_id en = Some run;
  rp_bridge : forall d, rs_domain s = Some d -> rs_bound s = false ->
    sb_domains (l_standalone l) !! run = Some (d_ref d)
}.

(** A run at rest: with a proof it has no waiter, and a settled run has no domain. *)
Record run_ok l run s : Prop := {
  ro_pre : run_pre l run s;
  ro_waiters : is_Some (settlementProof s) -> rs_waiters s = [];
  ro_freed : settlementProof s = Some Settled -> rs_domain s = None
}.

Record ledger_ok l : Prop := {
  lo_runs : forall run s, l_runs l !! run = Some s -> run_ok l run s;
  lo_ids : forall id run, l_owner l !! id = Some run -> (id <= l_sequence l)%Z /\ is_Some (l_runs l !! run);
  lo_fresh : forall run, l_runs l !! run = None -> releases_of run l = []
}.

(** ** What a run sees of the ledger *)

(** Two ledgers that agree on everything [run_pre] reads of [run], up to promises that
    settled. *)
Record same_view run l l' : Prop := {
  sv_owner : forall id, l_owner l' !! id = Some run -> l_owner l !! id = Some run;
  sv_owner' : forall id, l_owner l !! id = Some run -> l_owner l' !! id = Some run;
  sv_done : l_done l ⊆ l_done l';
  sv_releases : releases_of run l' = releases_of run l;
  sv_bridge : sb_domains (l_standalone l') !! run = sb_domains (l_standalone l) !! run
}.

#[global] Instance same_view_preorder run : PreOrder (same_view run).
Proof.
  split; [by intros l|]. intros l1 l2 l3 [? ? ? ? ?] [? ? ? ? ?].
  split; [auto..|set_solver|congruence|congruence].
Qed.

Lemma run_pre_view run l l' s : same_view run l l' -> run_pre l run s -> run_pre l' run s.
Proof.
  intros [Ho Ho' Hd Hr Hb] [? Hrel ? ? Hf Hown Hbr]. split; try done.
  - by rewrite Hr.
  - intros Hq id Hid Hni. apply Hd. auto.
  - auto.
  - intros d Hd0 Hb0. rewrite Hb. auto.
Qed.

Lemma run_ok_view run l l' s : same_view run l l' -> run_ok l run s -> run_ok l' run s.
Proof. intros Hv [Hp ? ?]. split; [by eapply run_pre_view|done..]. Qed.

(** The other runs, when [run] is being changed. *)
Definition others_ok l run : Prop := forall run' s', run' <> run -> l_runs l !! run' = Some s' -> run_ok l run' s'.

Definition others_view run l l' : Prop :=
  (forall run', run' <> run -> l_runs l' !! run' = l_runs l !! run') /\
  (forall run', run' <> run -> same_view run' l l').

Lemma others_ok_view run l l' : others_view run l l' -> others_ok l run -> others_ok l' run.
Proof.
  intros [Hr Hv] Hok run' s' Hne Hs'. eapply run_ok_view; [by apply Hv|]. apply Hok; [done|]. by rewrite <- Hr.
Qed.

Lemma releases_of_other run run' d (log : list (jsstring * release_disposition)) :
  run' <> run ->
  List.filter (fun x => bool_decide (x.1 = run')) (log ++ [(run, d)])
  = List.filter (fun x => bool_decide (x.1 = run')) log.
Proof.
  intros Hne. rewrite List.filter_app. simpl. rewrite bool_decide_false by congruence. by rewrite app_nil_r.
Qed.

(** ** One run under change *)

Record base_ok run l : Prop := {
  bo_others : others_ok l run;
  bo_ids : forall id run', l_owner l !! id = Some run' ->
    (id <= l_sequence l)%Z /\ (run' = run \/ is_Some (l_runs l !! run'));
  bo_fresh : forall run', run' <> run -> l_runs l !! run' = None -> releases_of run' l = []
}.

Lemma ledger_base run l : ledger_ok l -> base_ok run l.
Proof.
  intros [Hr Hi Hf]. split; [by intros run' s' _ Hs'; apply Hr| |auto].
  intros id run' Hid. destruct (Hi id run' Hid). auto.
Qed.

(** A change of the ledger that only [run] notices. *)
Lemma base_ok_view run l l' :
  base_ok run l -> others_view run l l' -> l_owner l' = l_owner l -> (l_sequence l <= l_sequence l')%Z ->
  base_ok run l'.
Proof.
  intros [Ho Hi Hf] Hv Hown Hseq. destruct Hv as [Hr Hv]. split.
  - eapply others_ok_view; [by split|done].
  - rewrite Hown. intros id run' Hid. destruct (Hi id run' Hid) as [? Hrun]. split; [lia|].
    destruct (decide (run' = run)); [by left|right]. rewrite Hr by done. by destruct Hrun.
  - intros run' Hne Hn. rewrite (sv_releases _ _ _ (Hv run' Hne)). apply Hf; [done|]. by rewrite <- Hr.
Qed.

Lemma set_run_ok run s l : base_ok run l -> run_ok l run s -> ledger_ok (set_run run s l).
Proof.
  intros [Ho Hi Hf] Hs. split; simpl.
  - intros run' s'. destruct (decide (run' = run)) as [->|Hne].
    + rewrite lookup_insert_eq. intros [= <-]. by apply (run_ok_view run l).
    + rewrite lookup_insert_ne by done. intros Hs'. apply (run_ok_view run' l); [done|]. by apply Ho.
  - intros id run' Hid. destruct (Hi id run' Hid) as [? Hrun]. split; [done|].
    destruct (decide (run' = run)) as [->|Hne]; [by rewrite lookup_insert_eq|].
    rewrite lookup_insert_ne by done. by destruct Hrun.
  - intros run'. destruct (decide (run' = run)) as [->|Hne]; [by rewrite lookup_insert_eq|].
    rewrite lookup_insert_ne by done. by apply Hf.
Qed.

(** *** Bridge calls and deliveries *)

Lemma abort_view run bound run' l : same_view run' l (abort_domain run bound l).
Proof.
  split; simpl; try done. destruct bound; simpl; [done|]. unfold standalone_abort. by case_match.
Qed.

Lemma abort_base run bound l : base_ok run l -> base_ok run (abort_domain run bound l).
Proof. intros Hb. eapply base_ok_view; [done|split; [done|intros; apply abort_view]|done|done]. Qed.

Lemma release_other_view run bound d run' l : run' <> run -> same_view run' l (release_domain run bound d l).
Proof.
  intros Hne. split; simpl; try done.
  - unfold releases_of. simpl. by rewrite releases_of_other.
  - destruct bound; simpl; [done|]. unfold standalone_release. case_match; simpl; [|done].
    by rewrite lookup_delete_ne.
Qed.

Lemma release_base run bound d l : base_ok run l -> base_ok run (release_domain run bound d l).
Proof.
  intros Hb. eapply base_ok_view; [done|split; [done|intros; by apply release_other_view]|done|done].
Qed.

Lemma release_count run bound d l :
  length (releases_of run (release_domain run bound d l)) = S (length (releases_of run l)).
Proof.
  unfold releases_of. simpl. rewrite List.filter_app, fmap_app, length_app. simpl.
  rewrite bool_decide_true by done. simpl. lia.
Qed.

Lemma deliver_view run out l : same_view run l (deliver out l).
Proof. done. Qed.

Lemma deliver_base run out l : base_ok run l -> base_ok run (deliver out l).
Proof. intros Hb. eapply base_ok_view; [done|split; [done|intros; apply deliver_view]|done|done]. Qed.

Lemma release_pre run l s d :
  run_pre l run s -> rs_released s = false ->
  run_pre (release_domain run (rs_bound s) d l) run (without_domain s).
Proof.
  intros [Hd Hr Hq Ht Hf Ho Hb] Hrel. rewrite Hrel in Hr. split; simpl; try done.
  - by rewrite release_count, Hr.
  - intros Hl. by destruct (Hq Hl).
Qed.

(** ** Notifying *)

Lemma releaseIfSettled_ok run s l :
  base_ok run l -> run_pre l run s -> (is_Some (settlementProof s) -> rs_waiters s = []) ->
  ledger_ok (releaseIfSettled run s l).
Proof.
  intros Hb Hp Hw. unfold releaseIfSettled. destruct (_ || _) eqn:Hc.
  - apply set_run_ok; [done|]. split; [done..|]. unfold settlementProof. intros Hset.
    destruct (rs_lifecycle s) eqn:Hl; try done. case_bool_decide as Hr; [|done].
    rewrite (bool_decide_true (LSealed = LSealed)) in Hc by done. simpl in Hc.
    rewrite !orb_false_r in Hc. apply orb_true_iff in Hc as [Hc|Hc].
    + by apply (rp_domain _ _ _ Hp).
    + simpl_bool. destruct (rs_domain s); [|done]. destruct Hc. by eexists.
  - simpl_bool. apply set_run_ok; [by apply release_base|]. split.
    + by apply release_pre.
    + simpl. apply Hw.
    + done.
Qed.

Lemma run_pre_waiters l run s ws : run_pre l run s -> run_pre l run (with_waiters ws s).
Proof. by intros [? ? ? ? ? ? ?]. Qed.

Lemma notify_ok run s l : base_ok run l -> run_pre l run s -> ledger_ok (notify run s l).
Proof.
  intros Hb Hp. unfold notify. destruct (settlementProof s) as [proof|] eqn:Hs.
  - apply releaseIfSettled_ok; [by apply deliver_base| |done].
    apply (run_pre_view run l); [done|by apply run_pre_waiters].
  - apply releaseIfSettled_ok; [done..|]. rewrite Hs. by intros [? ?].
Qed.

(** ** Quarantine *)

Lemma appendTombstone_bound en t : length (appendTombstone en t) <= MAX_TOMBSTONE_ENTRIES.
Proof.
  unfold appendTombstone. destruct (Nat.ltb_spec MAX_TOMBSTONE_ENTRIES (length (t ++ [en]))); [|done].
  rewrite length_drop. lia.
Qed.

Lemma tombstone_fold_bound ens t :
  length t <= MAX_TOMBSTONE_ENTRIES ->
  length (fold_left (fun t en => appendTombstone en t) ens t) <= MAX_TOMBSTONE_ENTRIES.
Proof.
  revert t. induction ens as [|en ens IH]; intros t Ht; simpl; [done|]. apply IH, appendTombstone_bound.
Qed.

Lemma quarantineState_ok run s l :
  ledger_ok l -> run_pre l run s -> ledger_ok (quarantineState run s l).2.
Proof.
  intros Hl Hp. pose proof (ledger_base run l Hl) as Hb. unfold quarantineState.
  case_bool_decide as Hq; simpl; [by apply notify_ok|].
  set (t := fold_left _ _ _).
  assert (Ht : length t <= MAX_TOMBSTONE_ENTRIES) by (apply tombstone_fold_bound; simpl; unfold MAX_TOMBSTONE_ENTRIES; lia).
  destruct Hp as [Hd Hr _ _ Hf Ho Hbr]. destruct (rs_domain s) as [d|] eqn:Hdom; simpl.
  - assert (rs_released s = false) as Hrel.
    { destruct (rs_released s); [|done]. discriminate (proj1 Hd eq_refl). }
    rewrite Hrel in Hr |- *. apply notify_ok.
    + by apply release_base, abort_base.
    + split; simpl; try done.
      * rewrite release_count. f_equal. exact Hr.
      * intros en Hin. by apply elem_of_nil in Hin.
  - apply notify_ok; [done|]. split; simpl; try done; try by rewrite Hdom.
    intros en Hin. by apply elem_of_nil in Hin.
Qed.

(** ** Registering *)

Lemma register_ok run s kind label now l :
  ledger_ok l -> is_Some (l_runs l !! run) -> run_ok l run s ->
  ledger_ok (register run s kind label now l).2.
Proof.
  intros Hl Hrun [Hp Hw Hfr]. pose proof (ledger_base run l Hl) as Hb.
  assert (Hb1 : base_ok run (next_id l)).
  { eapply base_ok_view; [done|split; [done|by intros run' _]|done|simpl; lia]. }
  unfold register. case_bool_decide as Hq; simpl.
  - apply set_run_ok; [done|]. split.
    + destruct Hp. split; simpl; try done. apply appendTombstone_bound.
    + intros _. apply Hw. unfold settlementProof. by rewrite Hq.
    + unfold settlementProof. simpl. by rewrite Hq.
  - set (id := (l_sequence l + 1)%Z). set (en := mkEntry id kind label now).
    assert (Hnew : l_owner l !! id = None).
    { destruct (l_owner l !! id) as [run'|] eqn:E; [|done]. destruct (lo_ids _ Hl id run' E). unfold id in *. lia. }
    set (s' := with_resources (rs_resources s ++ [en]) s).
    assert (Hs' : run_ok (set_owner id run (next_id l)) run s').
    { split.
      - destruct Hp as [Hd Hr Hqq Ht Hf Ho Hbr]. split; simpl; try done.
        + intros _ id' Hid' Hni. rewrite fmap_app in Hni. apply not_elem_of_app in Hni as [Hni1 Hni2].
          apply Hf; [done| |done]. rewrite lookup_insert_ne in Hid'; [done|]. intros <-. apply Hni2. simpl. set_solver.
        + intros en' [Hin| ->%list_elem_of_singleton]%elem_of_app; [|by rewrite lookup_insert_eq].
          destruct (decide (en_id en' = id)) as [->|]; [by rewrite lookup_insert_eq|].
          rewrite lookup_insert_ne by done. auto.
      - unfold settlementProof, s'. simpl. destruct (rs_lifecycle s) eqn:Hlc; [by intros [? ?]| |done].
        rewrite bool_decide_false by (by destruct (rs_resources s)). by intros [? ?].
      - unfold settlementProof, s'. simpl. destruct (rs_lifecycle s) eqn:Hlc; try done.
        by rewrite bool_decide_false by (by destruct (rs_resources s)). }
    change (set_owner id run (set_run run s' (next_id l))) with (set_run run s' (set_owner id run (next_id l))).
    apply set_run_ok; [|done]. split.
    + intros run' s0 Hne Hs0. apply (run_ok_view run' l); [|by apply (lo_runs _ Hl)].
      split; simpl; try done; intros id' Hid'.
      * destruct (decide (id' = id)) as [->|]; [rewrite lookup_insert_eq in Hid'; congruence|].
        by rewrite lookup_insert_ne in Hid'.
      * rewrite lookup_insert_ne; [done|]. congruence.
    + simpl. intros id' run' Hid'. destruct (decide (id' = id)) as [->|].
      * rewrite lookup_insert_eq in Hid'. injection Hid' as <-. split; [unfold id; lia|by left].
      * rewrite lookup_insert_ne in Hid' by done. destruct (lo_ids _ Hl id' run' Hid'). split; [lia|by right].
    + simpl. intros run' Hne Hn. by apply (lo_fresh _ Hl).
Qed.

(** Ledgers that differ only in their leases, keys and bridge identity. *)
Lemma ledger_ok_ext l l' :
  ledger_ok l -> l_runs l' = l_runs l -> l_standalone l' = l_standalone l -> l_owner l' = l_owner l ->
  l_done l ⊆ l_done l' -> l_released l' = l_released l -> l_sequence l' = l_sequence l -> ledger_ok l'.
Proof.
  intros [Hr Hi Hf] Er Es Eo Ed El Eq. split.
  - rewrite Er. intros run s Hs. apply (run_ok_view run l); [|auto]. split; rewrite ?Eo, ?Es; try done.
    unfold releases_of. by rewrite El.
  - rewrite Eo, Eq, Er. apply Hi.
  - rewrite Er. unfold releases_of. rewrite El. apply Hf.
Qed.

Lemma leaseFor_ok run s kind label now l :
  ledger_ok l -> is_Some (l_runs l !! run) -> run_ok l run s -> ledger_ok (leaseFor run s kind label now l).2.
Proof.
  intros Hl Hrun Hs. unfold leaseFor. destruct (rs_domain s); [|done].
  pose proof (register_ok run s kind label now l Hl Hrun Hs) as Hr.
  destruct (register run s kind label now l) as [[id|] l']; simpl in *; [|done].
  by apply (ledger_ok_ext l').
Qed.

Lemma lease_or_quarantined_snd r : (@lease_or_quarantined X r).2 = r.2.
Proof. by destruct r as [[]]. Qed.

(** ** Callbacks *)

Lemma onSettled_ok id l : ledger_ok l -> id ∈ l_done l -> ledger_ok (onSettled id l).
Proof.
  intros Hl Hdone. unfold onSettled. destruct (l_owner l !! id) as [run|]; [|done].
  destruct (l_runs l !! run) as [s|] eqn:Hs; [|done]. destruct (lo_runs _ Hl run s Hs) as [Hp _ _].
  apply notify_ok; [by apply ledger_base|]. destruct Hp as [Hd Hr Hq Ht Hf Ho Hbr]. split; simpl; try done.
  - intros Hlc. destruct (Hq Hlc) as [? Hres]. by rewrite Hres.
  - intros Hlc id' Hid' Hni. destruct (decide (id' = id)) as [->|Hne]; [done|]. apply Hf; [done..|].
    intros (en & -> & Hin)%list_elem_of_fmap. apply Hni, list_elem_of_fmap. exists en. split; [done|].
    apply list_elem_of_In, List.filter_In. split; [by apply list_elem_of_In|].
    apply negb_true_iff. by apply Z.eqb_neq.
  - intros en Hin. apply list_elem_of_In, List.filter_In in Hin as [Hin _]. apply Ho. by apply list_elem_of_In.
Qed.

(** ** Every step keeps the invariant *)

Lemma standalone_open_other run run' b :
  run' <> run -> sb_domains (standalone_open run b).2 !! run' = sb_domains b !! run'.
Proof.
  intros Hne. unfold standalone_open. repeat case_match; simpl; try done. by rewrite lookup_insert_ne.
Qed.

Lemma standalone_open_domain run b d :
  (standalone_open run b).1 = Some d -> sb_domains (standalone_open run b).2 !! run = Some (d_ref d).
Proof.
  unfold standalone_open. case_bool_decide; [done|]. destruct (sb_domains b !! run) as [ref|] eqn:E; simpl.
  - by intros [= <-].
  - case_bool_decide; simpl; [done|]. intros [= <-]. by rewrite lookup_insert_eq.
Qed.

(** A new run whose bridge call only touched that run. *)
Lemma new_run_ok run d bound b x l :
  ledger_ok l -> l_runs l !! run = None ->
  (forall run', run' <> run -> sb_domains b !! run' = sb_domains (l_standalone l) !! run') ->
  (bound = false -> sb_domains b !! run = Some (d_ref d)) ->
  ledger_ok (set_run run (mkRun LOpen (Some d) bound [] [] [] [] false) (set_bridges b x l)).
Proof.
  intros Hl Hnone Hother Hmine. apply set_run_ok.
  - eapply base_ok_view; [by apply ledger_base| |done|done]. split; [done|]. intros run' Hne.
    split; simpl; try done. by apply Hother.
  - split; [|by intros [? ?]|done]. split; simpl; try done.
    + unfold releases_of. simpl. fold (releases_of run l). by rewrite (lo_fresh _ Hl).
    + unfold MAX_TOMBSTONE_ENTRIES. lia.
    + intros _ id Hid. destruct (lo_ids _ Hl id run Hid) as [_ [? ?]]. congruence.
    + intros en Hin. by apply elem_of_nil in Hin.
    + intros d' [= <-]. done.
Qed.

Lemma refused_open_ok run b x l :
  ledger_ok l -> l_runs l !! run = None ->
  (forall run', run' <> run -> sb_domains b !! run' = sb_domains (l_standalone l) !! run') ->
  ledger_ok (set_bridges b x l).
Proof.
  intros [Hr Hi Hf] Hnone Hother. split; simpl; [|done|done]. intros run' s' Hs'.
  apply (run_ok_view run' l); [|auto]. split; simpl; try done. apply Hother. congruence.
Qed.

Lemma open_ok run l : ledger_ok l -> ledger_ok (open run l).2.
Proof.
  intros Hl. unfold open. destruct (l_runs l !! run) as [s|] eqn:Hnone; [done|].
  case_bool_decide.
  - destruct (br_open run (l_ext l)) as [[d|] x]; simpl; [|by apply (refused_open_ok run)].
    by apply new_run_ok.
  - change (br_open run (l_standalone l)) with (standalone_open run (l_standalone l)).
    pose proof (standalone_open_other run) as Ho. pose proof (standalone_open_domain run (l_standalone l)) as Hd.
    destruct (standalone_open run (l_standalone l)) as [[d|] b] eqn:E; simpl in *.
    + apply new_run_ok; [done..| |auto]. intros run' Hne. specialize (Ho run' (l_standalone l) Hne). by rewrite E in Ho.
    + apply (refused_open_ok run); [done..|]. intros run' Hne. specialize (Ho run' (l_standalone l) Hne). by rewrite E in Ho.
Qed.

Lemma seal_ok run l : ledger_ok l -> ledger_ok (seal run l).
Proof.
  intros Hl. unfold seal. destruct (l_runs l !! run) as [s|] eqn:Hs; [|done]. case_bool_decide as Ho; [|done].
  apply notify_ok; [by apply ledger_base|]. destruct (lo_runs _ Hl run s Hs) as [[? ? ? ? Hf ? ?] _ _].
  split; simpl; try done. intros _. apply Hf. by rewrite Ho.
Qed.

Lemma set_waiters_ok run s ws l :
  ledger_ok l -> l_runs l !! run = Some s -> (is_Some (settlementProof s) -> ws = []) ->
  ledger_ok (set_run run (with_waiters ws s) l).
Proof.
  intros Hl Hs Hws. destruct (lo_runs _ Hl run s Hs) as [Hp _ Hfr].
  apply set_run_ok; [by apply ledger_base|]. split; [by apply run_pre_waiters|done|done].
Qed.

Lemma deliver_ok out l : ledger_ok l -> ledger_ok (deliver out l).
Proof. intros Hl. by apply (ledger_ok_ext l). Qed.

Lemma wait_ok run w l : ledger_ok l -> ledger_ok (waitForSettlement run w l).
Proof.
  intros Hl. unfold waitForSettlement. destruct (l_runs l !! run) as [s|] eqn:Hs; [|by apply deliver_ok].
  destruct (settlementProof s) eqn:Hp; [by apply deliver_ok|].
  apply set_waiters_ok; [done..|]. rewrite Hp. by intros [? ?].
Qed.

Lemma timeout_ok run w l : ledger_ok l -> ledger_ok (wait_timeout run w l).
Proof.
  intros Hl. unfold wait_timeout. destruct (l_runs l !! run) as [s|] eqn:Hs; [|done].
  case_bool_decide; simpl; [|done]. apply deliver_ok, set_waiters_ok; [done..|]. intros Hp.
  by rewrite (ro_waiters _ _ _ (lo_runs _ Hl run s Hs) Hp).
Qed.

Lemma with_owner_ok key run s l : run_ok l run s -> run_ok l run (with_owner key s).
Proof. intros [Hp Hw Hf]. split; [|done..]. by destruct Hp. Qed.

Lemma reserve_ok run d kind label now l : ledger_ok l -> ledger_ok (reserveProducer run d kind label now l).2.
Proof.
  intros Hl. unfold reserveProducer. destruct (l_runs l !! run) as [s|] eqn:Hs; [|done].
  pose proof (lo_runs _ Hl run s Hs) as Hok.
  repeat case_match; try done; try by (apply quarantineState_ok; [done|apply Hok]).
  rewrite lease_or_quarantined_snd. by apply leaseFor_ok.
Qed.

Lemma claim_ok run d key now l : ledger_ok l -> ledger_ok (claimProducer run d key now l).2.
Proof.
  intros Hl. unfold claimProducer. case_match; [done|]. destruct (l_runs l !! run) as [s|] eqn:Hs; [|done].
  pose proof (lo_runs _ Hl run s Hs) as Hok.
  repeat case_match; try done; try by (apply quarantineState_ok; [done|apply Hok]).
  rewrite lease_or_quarantined_snd. apply leaseFor_ok; [done..|by apply with_owner_ok].
Qed.

Lemma lease_track_ok n kind label now l : ledger_ok l -> ledger_ok (lease_track n kind label now l).2.
Proof.
  intros Hl. unfold lease_track. destruct (l_leases l !! n) as [ls|]; [|done].
  destruct (l_runs l !! ls_run ls) as [s|] eqn:Hs; [|done]. pose proof (lo_runs _ Hl _ s Hs) as Hok.
  destruct (_ || _); [apply quarantineState_ok; [done|apply Hok]|].
  pose proof (register_ok (ls_run ls) s kind label now l Hl ltac:(by eexists) Hok).
  by destruct (register (ls_run ls) s kind label now l).
Qed.

Lemma lease_fork_ok n d kind label now l : ledger_ok l -> ledger_ok (lease_fork n d kind label now l).2.
Proof.
  intros Hl. unfold lease_fork. destruct (l_leases l !! n) as [ls|]; [|done].
  destruct (l_runs l !! ls_run ls) as [s|] eqn:Hs; [|done]. pose proof (lo_runs _ Hl _ s Hs) as Hok.
  destruct (negb _); [apply quarantineState_ok; [done|apply Hok]|].
  destruct (_ || _); [apply quarantineState_ok; [done|apply Hok]|].
  rewrite lease_or_quarantined_snd. by apply leaseFor_ok.
Qed.

Lemma exec_ledger_ok op l : ledger_ok l -> op_ready l op -> ledger_ok (exec_ledger op l).
Proof.
  intros Hl Hready. destruct op; cbn [exec_ledger op_ready] in *.
  - unfold bindCancellationDomainBridge. destruct (match l_bridge l with Some _ => _ | None => _ end); [done|].
    by apply (ledger_ok_ext l).
  - unfold bindAgentSessionClaimKey. destruct (match l_claimKey l with Some _ => _ | None => _ end); [done|].
    by apply (ledger_ok_ext l).
  - by apply open_ok.
  - by apply reserve_ok.
  - by apply claim_ok.
  - unfold track. destruct (l_runs l !! run) as [s|] eqn:Hs; [|done].
    apply register_ok; [done|done|by apply (lo_runs _ Hl)].
  - by apply seal_ok.
  - by apply wait_ok.
  - by apply timeout_ok.
  - unfold quarantine. destruct (l_runs l !! run) as [s|] eqn:Hs; [|done].
    apply quarantineState_ok; [done|by apply (lo_runs _ Hl run s Hs)].
  - by apply lease_track_ok.
  - by apply lease_fork_ok.
  - unfold closeDiscovery. destruct (l_leases l !! n) as [ls|]; [|done]. destruct (ls_closed ls); [done|].
    apply (ledger_ok_ext l); simpl; try done. set_solver.
  - apply (ledger_ok_ext l); simpl; try done. set_solver.
  - by apply onSettled_ok.
Qed.

Lemma ledger_reachable_ok l : ledger_reachable l -> ledger_ok l.
Proof. induction 1; [by split|by apply exec_ledger_ok]. Qed.

(** ** What is delivered *)

Definition settled_in run l : Prop :=
  exists s, l_runs l !! run = Some s /\ rs_lifecycle s = LSealed /\ rs_resources s = [].

(** A step's deliveries: what is settled among them is so afterwards, and the waiters
    that are answered leave their run. *)
Record delivers l l' (out : list (nat * jsstring * RunSettlementProof)) : Prop := {
  de_log : l_delivered l' = l_delivered l ++ out;
  de_settled : forall w run, (w, run, Settled) ∈ out -> settled_in run l'
}.

Lemma delivers_none l l' : l_delivered l' = l_delivered l -> delivers l l' [].
Proof. intros E. split; [by rewrite E, app_nil_r|]. intros w run Hin. by apply elem_of_nil in Hin. Qed.

Lemma settlementProof_settled s :
  settlementProof s = Some Settled -> rs_lifecycle s = LSealed /\ rs_resources s = [].
Proof. unfold settlementProof. repeat case_match; try done. simpl_bool. done. Qed.

Lemma releaseIfSettled_delivered run s l : l_delivered (releaseIfSettled run s l) = l_delivered l.
Proof. unfold releaseIfSettled. by case_match. Qed.

Lemma releaseIfSettled_run run s l :
  exists s', l_runs (releaseIfSettled run s l) !! run = Some s'
    /\ rs_lifecycle s' = rs_lifecycle s /\ rs_resources s' = rs_resources s /\ rs_waiters s' = rs_waiters s
    /\ rs_tombstone s' = rs_tombstone s.
Proof.
  unfold releaseIfSettled. case_match; simpl; rewrite lookup_insert_eq; [by exists s|by exists (without_domain s)].
Qed.

Lemma releaseIfSettled_others run s l run' :
  run' <> run -> l_runs (releaseIfSettled run s l) !! run' = l_runs l !! run'.
Proof. intros Hne. unfold releaseIfSettled. case_match; simpl; by rewrite lookup_insert_ne. Qed.

Lemma notify_run run s l :
  exists s', l_runs (notify run s l) !! run = Some s'
    /\ rs_lifecycle s' = rs_lifecycle s /\ rs_resources s' = rs_resources s
    /\ rs_waiters s' = match settlementProof s with Some _ => [] | None => rs_waiters s end
    /\ rs_tombstone s' = rs_tombstone s.
Proof.
  unfold notify. destruct (settlementProof s) as [proof|] eqn:E; [|apply releaseIfSettled_run].
  apply (releaseIfSettled_run run (with_waiters [] s)).
Qed.

Lemma notify_others run s l run' : run' <> run -> l_runs (notify run s l) !! run' = l_runs l !! run'.
Proof. intros Hne. unfold notify. case_match; by rewrite releaseIfSettled_others. Qed.

Lemma notify_delivers run s l :
  delivers l (notify run s l)
    (match settlementProof s with Some proof => (fun w => (w, run, proof)) <$> rs_waiters s | None => [] end).
Proof.
  split.
  - unfold notify. destruct (settlementProof s); rewrite releaseIfSettled_delivered; [done|by rewrite app_nil_r].
  - intros w run' Hin. destruct (settlementProof s) as [proof|] eqn:E; [|by apply elem_of_nil in Hin].
    apply list_elem_of_fmap in Hin as (w' & [= -> -> <-] & _).
    destruct (notify_run run s l) as (s' & Hs' & Hlc & Hres & _).
    destruct (settlementProof_settled s E) as [? ?]. exists s'. split_and!; [done|congruence..].
Qed.

(** ** The kinds of steps *)

Inductive evolves l l' : Prop :=
| ev_same : l_runs l' = l_runs l -> l_delivered l' = l_delivered l -> evolves l l'
| ev_set run s0 s :
    l_runs l !! run = Some s0 -> rs_waiters s = rs_waiters s0 -> rs_lifecycle s = rs_lifecycle s0 ->
    l_runs l' = <[run := s]> (l_runs l) -> l_delivered l' = l_delivered l -> evolves l l'
| ev_new run s :
    l_runs l !! run = None -> rs_waiters s = [] ->
    l_runs l' = <[run := s]> (l_runs l) -> l_delivered l' = l_delivered l -> evolves l l'
| ev_notify run s0 s :
    l_runs l !! run = Some s0 -> rs_waiters s = rs_waiters s0 ->
    (rs_lifecycle s = rs_lifecycle s0 \/ (rs_lifecycle s0 = LOpen /\ rs_lifecycle s = LSealed)) ->
    l' = notify run s l -> evolves l l'
| ev_quarantine run s0 :
    l_runs l !! run = Some s0 -> l' = (quarantineState run s0 l).2 -> evolves l l'
| ev_answer run w proof :
    w ∉ ((fun x => x.1.1) <$> l_delivered l) -> (forall run s, l_runs l !! run = Some s -> w ∉ rs_waiters s) ->
    (proof = Settled -> settled_in run l) ->
    l_runs l' = l_runs l -> l_delivered l' = l_delivered l ++ [(w, run, proof)] -> evolves l l'
| ev_wait run w s :
    w ∉ ((fun x => x.1.1) <$> l_delivered l) -> (forall run s, l_runs l !! run = Some s -> w ∉ rs_waiters s) ->
    l_runs l !! run = Some s ->
    l_runs l' = <[run := with_waiters (rs_waiters s ++ [w]) s]> (l_runs l) ->
    l_delivered l' = l_delivered l -> evolves l l'
| ev_timeout run w s proof :
    l_runs l !! run = Some s -> w ∈ rs_waiters s -> proof <> Settled ->
    l_runs l' = <[run := with_waiters (List.filter (fun w' => negb (w' =? w)%nat) (rs_waiters s)) s]> (l_runs l) ->
    l_delivered l' = l_delivered l ++ [(w, run, proof)] -> evolves l l'.

Lemma register_evolves run s0 s kind label now l :
  l_runs l !! run = Some s0 -> rs_waiters s = rs_waiters s0 -> rs_lifecycle s = rs_lifecycle s0 ->
  evolves l (register run s kind label now l).2.
Proof.
  intros Hs0 Hw Hlc. unfold register. case_bool_decide; simpl; (eapply (ev_set _ _ run s0); [..|reflexivity|reflexivity]); done.
Qed.

Lemma leaseFor_evolves run s0 s kind label now l :
  l_runs l !! run = Some s0 -> rs_waiters s = rs_waiters s0 -> rs_lifecycle s = rs_lifecycle s0 ->
  evolves l (leaseFor run s kind label now l).2.
Proof.
  intros Hs0 Hw Hlc. unfold leaseFor. destruct (rs_domain s); [|by apply ev_same].
  unfold register. case_bool_decide; simpl; (eapply (ev_set _ _ run s0); [..|reflexivity|reflexivity]); done.
Qed.

Lemma open_evolves run l : evolves l (open run l).2.
Proof.
  unfold open. destruct (l_runs l !! run) as [s|] eqn:Hs; [by apply ev_same|].
  case_bool_decide.
  - destruct (br_open run (l_ext l)) as [[d|] x]; simpl; [eapply (ev_new _ _ run); [..|reflexivity|reflexivity]; done|by apply ev_same].
  - destruct (br_open run (l_standalone l)) as [[d|] b]; simpl; [eapply (ev_new _ _ run); [..|reflexivity|reflexivity]; done|by apply ev_same].
Qed.

Lemma wait_evolves run w l : op_ready l (LWait run w) -> evolves l (waitForSettlement run w l).
Proof.
  intros [Hw Hd]. unfold waitForSettlement. destruct (l_runs l !! run) as [s|] eqn:Hs.
  2:{ by apply (ev_answer _ _ run w (Unfenced RUnknownRun [])). }
  destruct (settlementProof s) as [proof|] eqn:Hp; [|by eapply (ev_wait _ _ run w s)].
  eapply (ev_answer _ _ run w proof); try done. intros ->. apply settlementProof_settled in Hp as [? ?]. by exists s.
Qed.

Lemma timeout_evolves run w l : ledger_ok l -> evolves l (wait_timeout run w l).
Proof.
  intros Hl. unfold wait_timeout. destruct (l_runs l !! run) as [s|] eqn:Hs; [|by apply ev_same].
  case_bool_decide as Hin; simpl; [|by apply ev_same].
  eapply (ev_timeout _ _ run w s); try done. unfold settlementProof. simpl.
  destruct (settlementProof s) as [proof|] eqn:Hp.
  { rewrite (ro_waiters _ _ _ (lo_runs _ Hl run s Hs)) in Hin by (by rewrite Hp). by apply elem_of_nil in Hin. }
  unfold settlementProof in Hp. destruct (rs_lifecycle s); simpl; try done. case_bool_decide; done.
Qed.

Ltac quarantine_step Hs := eapply ev_quarantine; [exact Hs|reflexivity].

Lemma exec_evolves op l : ledger_ok l -> op_ready l op -> evolves l (exec_ledger op l).
Proof.
  intros Hl Hready. destruct op; cbn [exec_ledger].
  - unfold bindCancellationDomainBridge. case_match; by apply ev_same.
  - unfold bindAgentSessionClaimKey. case_match; by apply ev_same.
  - apply open_evolves.
  - unfold reserveProducer. destruct (l_runs l !! run) as [s|] eqn:Hs; [|by apply ev_same].
    repeat (case_match; [first [by apply ev_same|quarantine_step Hs]|]).
    rewrite lease_or_quarantined_snd. by eapply leaseFor_evolves.
  - unfold claimProducer. case_match; [by apply ev_same|].
    destruct (l_runs l !! run) as [s|] eqn:Hs; [|by apply ev_same].
    repeat (case_match; [first [by apply ev_same|quarantine_step Hs]|]).
    rewrite lease_or_quarantined_snd. by eapply leaseFor_evolves.
  - unfold track. destruct (l_runs l !! run) as [s|] eqn:Hs; [|by apply ev_same]. by eapply register_evolves.
  - unfold seal. destruct (l_runs l !! run) as [s|] eqn:Hs; [|by apply ev_same].
    case_bool_decide; [|by apply ev_same]. eapply ev_notify; [exact Hs|..|reflexivity]; [done|by right].
  - by apply wait_evolves.
  - by apply timeout_evolves.
  - unfold quarantine. destruct (l_runs l !! run) as [s|] eqn:Hs; [quarantine_step Hs|by apply ev_same].
  - unfold lease_track. destruct (l_leases l !! n) as [ls|]; [|by apply ev_same].
    destruct (l_runs l !! ls_run ls) as [s|] eqn:Hs; [|by apply ev_same].
    destruct (_ || _); [quarantine_step Hs|].
    pose proof (register_evolves (ls_run ls) s s kind label now l Hs eq_refl eq_refl).
    by destruct (register (ls_run ls) s kind label now l).
  - unfold lease_fork. destruct (l_leases l !! n) as [ls|]; [|by apply ev_same].
    destruct (l_runs l !! ls_run ls) as [s|] eqn:Hs; [|by apply ev_same].
    destruct (negb _); [quarantine_step Hs|]. destruct (_ || _); [quarantine_step Hs|].
    rewrite lease_or_quarantined_snd. by eapply leaseFor_evolves.
  - unfold closeDiscovery. repeat case_match; by apply ev_same.
  - by apply ev_same.
  - unfold onSettled. destruct (l_owner l !! id) as [run|]; [|by apply ev_same].
    destruct (l_runs l !! run) as [s|] eqn:Hs; [|by apply ev_same].
    eapply ev_notify; [exact Hs|..|reflexivity]; [done|by left].
Qed.

(** ** Quarantine and its deliveries *)

(** [quarantineState] is a notification of a quarantined state with the same waiters,
    after calls of the bridge. *)
Lemma quarantineState_notify run s l :
  exists s1 l1, (quarantineState run s l).2 = notify run s1 l1
    /\ rs_lifecycle s1 = LQuarantined /\ rs_waiters s1 = rs_waiters s
    /\ l_runs l1 = l_runs l /\ l_delivered l1 = l_delivered l
    /\ forall d, rs_lifecycle s <> LQuarantined -> rs_domain s = Some d -> rs_bound s = false ->
         sb_domains (l_standalone l) !! run = Some (d_ref d) -> d_ref d ∈ sb_aborted (l_standalone l1).
Proof.
  unfold quarantineState. case_bool_decide as Hq; [by exists s, l|]. destruct (rs_domain s) as [d|] eqn:Hd.
  - eexists _, _. split; [reflexivity|]. split_and!; [done|done|by destruct (rs_released s)..|].
    intros d' _ [= <-] Hb Hdom. destruct (rs_released s); simpl; rewrite Hb; simpl.
    + unfold standalone_abort. rewrite Hdom. simpl. set_solver.
    + unfold standalone_release, standalone_abort. rewrite Hdom. simpl. rewrite Hdom. simpl. set_solver.
  - eexists _, _. split; [reflexivity|]. done.
Qed.

Lemma notify_standalone_quarantined run s l :
  rs_lifecycle s = LQuarantined -> l_standalone (notify run s l) = l_standalone l.
Proof.
  intros Hq. unfold notify, settlementProof. rewrite Hq. unfold releaseIfSettled. simpl. rewrite Hq.
  rewrite (bool_decide_false (LQuarantined = LSealed)) by done. simpl. by rewrite orb_true_r.
Qed.

Lemma evolves_settled l l' w run :
  evolves l l' -> (w, run, Settled) ∉ l_delivered l -> (w, run, Settled) ∈ l_delivered l' -> settled_in run l'.
Proof.
  intros Hev Hni Hin. destruct Hev as [_ E|run0 s0 s _ _ _ _ E|run0 s _ _ _ E|run0 s0 s Hs0 Hw _ ->
    |run0 s0 Hs0 ->|run0 w0 proof _ _ Hp Er E|run0 w0 s _ _ _ _ E|run0 w0 s proof _ _ Hp _ E];
    try (rewrite E in Hin; done).
  - destruct (notify_delivers run0 s l) as [E Hset]. rewrite E in Hin. apply elem_of_app in Hin as [?|Hin]; [done|].
    by eapply Hset.
  - destruct (quarantineState_notify run0 s0 l) as (s1 & l1 & Eq & _ & _ & _ & Ed & _). rewrite Eq in Hin |- *.
    destruct (notify_delivers run0 s1 l1) as [E Hset]. rewrite E, Ed in Hin.
    apply elem_of_app in Hin as [?|Hin]; [done|]. by eapply Hset.
  - rewrite E in Hin. apply elem_of_app in Hin as [?|Hin]; [done|].
    apply list_elem_of_singleton in Hin as [= -> -> <-]. destruct (Hp eq_refl) as (s & ? & ?).
    exists s. by rewrite Er.
  - rewrite E in Hin. apply elem_of_app in Hin as [?|Hin]; [done|].
    apply list_elem_of_singleton in Hin as [= -> -> <-]. done.
Qed.

(** ** Waiters *)

Definition answered l : list nat := (fun x => x.1.1) <$> l_delivered l.

Record waiters_ok l : Prop := {
  wk_once : NoDup (answered l);
  wk_run : forall run s, l_runs l !! run = Some s -> NoDup (rs_waiters s);
  wk_apart : forall run s w, l_runs l !! run = Some s -> w ∈ rs_waiters s -> w ∉ answered l;
  wk_one_run : forall run s run' s' w, l_runs l !! run = Some s -> l_runs l !! run' = Some s' ->
    w ∈ rs_waiters s -> w ∈ rs_waiters s' -> run = run'
}.

Lemma filter_out_perm (w : nat) ws :
  NoDup ws -> w ∈ ws -> ws ≡ₚ List.filter (fun w' => negb (w' =? w)%nat) ws ++ [w].
Proof.
  induction 1 as [|x ws Hx Hnd IH]; [by intros ?%elem_of_nil|]. simpl.
  destruct (Nat.eqb_spec x w) as [->|Hne]; simpl.
  - intros _. assert (List.filter (fun w' => negb (w' =? w)%nat) ws = ws) as ->.
    { apply forallb_filter_id, forallb_forall. intros y Hy. apply negb_true_iff, Nat.eqb_neq. intros ->.
      by apply Hx, list_elem_of_In. }
    by rewrite Permutation_app_comm.
  - intros [->|Hin]%elem_of_cons; [done|]. by rewrite <- IH.
Qed.

(** A step that moves some waiters of one run to the answered ones. *)
Lemma waiters_move run ws out l l' :
  waiters_ok l ->
  (forall s, l_runs l !! run = Some s -> rs_waiters s ≡ₚ ws ++ out) ->
  answered l' = answered l ++ out ->
  is_Some (l_runs l !! run) ->
  (forall s', l_runs l' !! run = Some s' -> rs_waiters s' = ws) ->
  (forall run', run' <> run -> l_runs l' !! run' = l_runs l !! run') ->
  waiters_ok l'.
Proof.
  intros [Honce Hrun Hap Hone] Hws Hout [s0 Hs0] Hs' Hothers. pose proof (Hws s0 Hs0) as Hperm.
  pose proof (Hrun run s0 Hs0) as Hnd. rewrite Hperm in Hnd. apply NoDup_app in Hnd as (Hnd1 & Hnd2 & Hnd3).
  assert (Hold : forall run' s' w, l_runs l' !! run' = Some s' -> w ∈ rs_waiters s' ->
            exists s, l_runs l !! run' = Some s /\ w ∈ rs_waiters s /\ w ∉ out).
  { intros run' s' w Hl' Hw. destruct (decide (run' = run)) as [->|Hne].
    - rewrite (Hs' s' Hl') in Hw. exists s0. rewrite Hperm. split_and!; [done|set_solver|by apply Hnd2].
    - rewrite Hothers in Hl' by done. exists s'. split_and!; [done..|]. intros Hwo.
      apply Hne. eapply (Hone run' s' run s0 w); [done..|]. rewrite Hperm. set_solver. }
  split.
  - rewrite Hout. apply NoDup_app. split_and!; [done| |done]. intros w Hw Hwo.
    apply (Hap run s0 w Hs0); [|done]. rewrite Hperm. set_solver.
  - intros run' s' Hl'. destruct (decide (run' = run)) as [->|Hne]; [by rewrite (Hs' s' Hl')|].
    rewrite Hothers in Hl' by done. eauto.
  - intros run' s' w Hl' Hw. destruct (Hold run' s' w Hl' Hw) as (s & Hs & Hw0 & Hwo).
    rewrite Hout. apply not_elem_of_app. split; [by eapply Hap|done].
  - intros run1 s1 run2 s2 w H1 H2 Hw1 Hw2. destruct (Hold run1 s1 w H1 Hw1) as (? & ? & ? & _).
    destruct (Hold run2 s2 w H2 Hw2) as (? & ? & ? & _). eauto.
Qed.

Lemma notify_waiters run s0 s l0 l :
  waiters_ok l -> l_runs l !! run = Some s0 -> rs_waiters s = rs_waiters s0 ->
  l_runs l0 = l_runs l -> l_delivered l0 = l_delivered l -> waiters_ok (notify run s l0).
Proof.
  intros Hok Hs0 Hw Hr Hd. destruct (notify_run run s l0) as (s1 & Hs1 & _ & _ & Hw1 & _).
  pose proof (de_log _ _ _ (notify_delivers run s l0)) as Hlog.
  apply (waiters_move run (match settlementProof s with Some _ => [] | None => rs_waiters s end)
           (match settlementProof s with Some _ => rs_waiters s | None => [] end) l); [done|..].
  - intros s' Hs'. assert (s' = s0) as -> by congruence. rewrite <- Hw.
    destruct (settlementProof s); [done|by rewrite app_nil_r].
  - unfold answered. rewrite Hlog, Hd, fmap_app. f_equal. destruct (settlementProof s); [|done].
    rewrite <- list_fmap_compose. apply list_fmap_id.
  - by eexists.
  - intros s' Hs'. by simplify_eq.
  - intros run' Hne. rewrite notify_others by done. by rewrite Hr.
Qed.

(** Waiters that stay where they are. *)
Lemma waiters_same run s0 s l l' :
  waiters_ok l -> l_runs l !! run = Some s0 -> rs_waiters s = rs_waiters s0 ->
  l_runs l' = <[run := s]> (l_runs l) -> l_delivered l' = l_delivered l -> waiters_ok l'.
Proof.
  intros Hok Hs0 Hw Hr Hd. apply (waiters_move run (rs_waiters s0) [] l); [done|..].
  - intros s' Hs'. assert (s' = s0) as -> by congruence. by rewrite app_nil_r.
  - unfold answered. by rewrite Hd, app_nil_r.
  - by eexists.
  - rewrite Hr, lookup_insert_eq. by intros s' [= <-].
  - intros run' Hne. by rewrite Hr, lookup_insert_ne.
Qed.

Lemma evolves_waiters l l' : evolves l l' -> waiters_ok l -> waiters_ok l'.
Proof.
  intros Hev Hok. destruct Hev as [Er Ed|run s0 s Hs0 Hw _ Er Ed|run s Hn Hw Er Ed|run s0 s Hs0 Hw _ ->
    |run s0 Hs0 ->|run w proof Hd Hw _ Er Ed|run w s Hd Hw Hs Er Ed|run w s proof Hs Hin _ Er Ed].
  - destruct Hok. split; unfold answered in *; by rewrite ?Er, ?Ed.
  - by eapply waiters_same.
  - destruct Hok as [H1 H2 H3 H4].
    assert (Hold : forall run' s' w, l_runs l' !! run' = Some s' -> w ∈ rs_waiters s' -> l_runs l !! run' = Some s').
    { rewrite Er. intros run' s' w. destruct (decide (run' = run)) as [->|]; [|by rewrite lookup_insert_ne].
      rewrite lookup_insert_eq. intros [= <-]. rewrite Hw. by intros ?%elem_of_nil. }
    split; unfold answered in *; rewrite ?Ed; [done| |eauto|eauto 10].
    rewrite Er. intros run' s'. destruct (decide (run' = run)) as [->|]; [|rewrite lookup_insert_ne by done; eauto].
    rewrite lookup_insert_eq. intros [= <-]. rewrite Hw. constructor.
  - by eapply notify_waiters.
  - destruct (quarantineState_notify run s0 l) as (s1 & l1 & -> & _ & Hw & Hr & Hd & _). by eapply notify_waiters.
  - destruct Hok as [H1 H2 H3 H4]. split; unfold answered in *; rewrite ?Er, ?Ed, ?fmap_app; [|done| |done].
    + apply NoDup_app. split_and!; [done| |apply NoDup_singleton]. intros w' Hw' ->%list_elem_of_singleton. done.
    + intros run' s' w' Hs' Hw'. apply not_elem_of_app. split; [eauto|]. intros ->%list_elem_of_singleton.
      by apply (Hw run' s').
  - destruct Hok as [H1 H2 H3 H4].
    assert (Hold : forall run' s' w', l_runs l' !! run' = Some s' -> w' ∈ rs_waiters s' ->
              (w' = w /\ run' = run) \/ (w' <> w /\ exists s0, l_runs l !! run' = Some s0 /\ w' ∈ rs_waiters s0)).
    { rewrite Er. intros run' s' w'. destruct (decide (run' = run)) as [->|].
      - rewrite lookup_insert_eq. intros [= <-]. simpl. intros [Hin| ->%list_elem_of_singleton]%elem_of_app; [|by left].
        right. split; [|by exists s]. intros ->. by apply (Hw run s).
      - rewrite lookup_insert_ne by done. intros Hs' Hin. right. split; [|by exists s']. intros ->.
        by apply (Hw run' s'). }
    split; unfold answered in *; rewrite ?Ed; [done|..].
    + rewrite Er. intros run' s'. destruct (decide (run' = run)) as [->|]; [|rewrite lookup_insert_ne by done; eauto].
      rewrite lookup_insert_eq. intros [= <-]. simpl. apply NoDup_app.
      split_and!; [eauto| |apply NoDup_singleton]. intros w' Hin ->%list_elem_of_singleton. by apply (Hw run s).
    + intros run' s' w' Hs' Hin. destruct (Hold run' s' w' Hs' Hin) as [[-> _]|(_ & s0 & ? & ?)]; eauto.
    + intros run1 s1 run2 s2 w' Hs1 Hs2 Hw1 Hw2.
      destruct (Hold run1 s1 w' Hs1 Hw1) as [[E1 E1']|(? & ? & ? & ?)],
               (Hold run2 s2 w' Hs2 Hw2) as [[E2 E2']|(? & ? & ? & ?)]; [congruence|done|done|eauto].
  - apply (waiters_move run (List.filter (fun w' => negb (w' =? w)%nat) (rs_waiters s)) [w] l); [done|..].
    + intros s' Hs'. assert (s' = s) as -> by congruence. apply filter_out_perm; [by eapply wk_run|done].
    + unfold answered. by rewrite Ed, fmap_app.
    + by eexists.
    + rewrite Er, lookup_insert_eq. by intros s' [= <-].
    + intros run' Hne. by rewrite Er, lookup_insert_ne.
Qed.

Lemma ledger_reachable_waiters l : ledger_reachable l -> waiters_ok l.
Proof.
  induction 1 as [x|l op Hr IH Hready].
  - split; simpl; [constructor|done..].
  - eapply evolves_waiters; [|done]. apply exec_evolves; [by apply ledger_reachable_ok|done].
Qed.

(** ** Quarantine is for good *)

Lemma evolves_lifecycle l l' run s :
  evolves l l' -> l_runs l !! run = Some s ->
  exists s', l_runs l' !! run = Some s'
    /\ (rs_lifecycle s = LQuarantined -> rs_lifecycle s' = LQuarantined)
    /\ (rs_lifecycle s' = LOpen -> rs_lifecycle s = LOpen)
    /\ (rs_lifecycle s <> LQuarantined -> rs_lifecycle s' = LQuarantined -> l' = (quarantineState run s l).2).
Proof.
  intros Hev Hs.
  assert (Hset : forall run0 s0 s1, l_runs l !! run0 = Some s0 -> l_runs l' = <[run0 := s1]> (l_runs l) ->
    rs_lifecycle s1 = rs_lifecycle s0 -> exists s', l_runs l' !! run = Some s' /\ rs_lifecycle s' = rs_lifecycle s).
  { intros run0 s0 s1 Hs0 Er Hlc. rewrite Er. destruct (decide (run = run0)) as [->|Hne].
    - rewrite lookup_insert_eq. exists s1. split; [done|]. congruence.
    - rewrite lookup_insert_ne by done. by exists s. }
  assert (Hfin : (exists s', l_runs l' !! run = Some s' /\ rs_lifecycle s' = rs_lifecycle s) ->
    exists s', l_runs l' !! run = Some s'
    /\ (rs_lifecycle s = LQuarantined -> rs_lifecycle s' = LQuarantined)
    /\ (rs_lifecycle s' = LOpen -> rs_lifecycle s = LOpen)
    /\ (rs_lifecycle s <> LQuarantined -> rs_lifecycle s' = LQuarantined -> l' = (quarantineState run s l).2)).
  { intros (s' & Hs' & Hlc). exists s'. rewrite Hlc. by split_and!. }
  destruct Hev as [Er Ed|run0 s0 s1 Hs0 Hw Hlc Er Ed|run0 s1 Hn Hw Er Ed|run0 s0 s1 Hs0 Hw Hlc ->
    |run0 s0 Hs0 ->|run0 w proof Hd Hw _ Er Ed|run0 w s1 Hd Hw Hs1 Er Ed|run0 w s1 proof Hs1 Hin _ Er Ed].
  - apply Hfin. exists s. by rewrite Er.
  - apply Hfin. by apply (Hset run0 s0 s1).
  - apply Hfin. exists s. rewrite Er, lookup_insert_ne by congruence. done.
  - destruct (decide (run = run0)) as [->|Hne].
    + assert (s0 = s) as -> by congruence. destruct (notify_run run0 s1 l) as (s' & Hs' & Hlc' & _).
      exists s'. split; [done|]. rewrite Hlc'. destruct Hlc as [->|[-> ->]]; by split_and!.
    + apply Hfin. exists s. by rewrite notify_others.
  - destruct (quarantineState_notify run0 s0 l) as (s1 & l1 & E & Hq & _ & Hr & _).
    destruct (decide (run = run0)) as [->|Hne].
    + assert (s0 = s) as -> by congruence. rewrite E. destruct (notify_run run0 s1 l1) as (s' & Hs' & Hlc' & _).
      exists s'. split; [done|]. rewrite Hlc', Hq. by split_and!.
    + apply Hfin. exists s. by rewrite E, notify_others, Hr.
  - apply Hfin. exists s. by rewrite Er.
  - apply Hfin. eapply (Hset run0 s1); [done|exact Er|done].
  - apply Hfin. eapply (Hset run0 s1); [done|exact Er|done].
Qed.

(** ** The contract *)

(** C38: Whoever waits for a run and is told that it is settled can rely on it: at that
    moment the run is sealed and not quarantined, and the promise of every resource
    that was ever registered with it has settled. *)
Theorem settled_means_quiet l op (w : nat) run :
  ledger_reachable l -> op_ready l op ->
  let l' := exec_ledger op l in
  (w, run, Settled) ∉ l_delivered l -> (w, run, Settled) ∈ l_delivered l' ->
  exists s, l_runs l' !! run = Some s /\ rs_lifecycle s = LSealed
    /\ forall id, l_owner l' !! id = Some run -> id ∈ l_done l'.
Proof.
  intros Hr Hready l' Hni Hin. pose proof (ledger_reachable_ok l Hr) as Hl.
  destruct (evolves_settled l l' w run (exec_evolves op l Hl Hready) Hni Hin) as (s & Hs & Hlc & Hres).
  exists s. split_and!; [done..|]. intros id Hid.
  destruct (lo_runs _ (exec_ledger_ok op l Hl Hready) run s Hs) as [Hp _ _].
  apply (rp_fenced _ _ _ Hp); [by rewrite Hlc|done|]. rewrite Hres. by apply not_elem_of_nil.
Qed.

(** Quarantine is terminal: no step of anyone brings a quarantined run back, nor a
    sealed one back to open; a quarantined run has no domain and no resources, its
    tombstone is bounded, and a step that quarantines it aborts the signal of the
    domain it had from the standalone bridge. *)
Theorem quarantine_final l op run s :
  ledger_reachable l -> op_ready l op -> l_runs l !! run = Some s ->
  let l' := exec_ledger op l in
  exists s', l_runs l' !! run = Some s'
    /\ (rs_lifecycle s = LQuarantined -> rs_lifecycle s' = LQuarantined)
    /\ (rs_lifecycle s' = LOpen -> rs_lifecycle s = LOpen)
    /\ (rs_lifecycle s' = LQuarantined ->
         rs_domain s' = None /\ rs_resources s' = [] /\ length (rs_tombstone s') <= MAX_TOMBSTONE_ENTRIES
         /\ forall d, rs_domain s = Some d -> rs_bound s = false -> d_ref d ∈ sb_aborted (l_standalone l')).
Proof.
  intros Hr Hready Hs l'. pose proof (ledger_reachable_ok l Hr) as Hl.
  destruct (evolves_lifecycle l l' run s (exec_evolves op l Hl Hready) Hs) as (s' & Hs' & Hq & Ho & Hnew).
  exists s'. split_and!; [done..|]. intros Hq'.
  destruct (lo_runs _ (exec_ledger_ok op l Hl Hready) run s' Hs') as [Hp' _ _].
  destruct (rp_quarantined _ _ _ Hp' Hq') as [Hd' Hres']. split_and!; [done..|apply Hp'|].
  intros d Hd Hb. destruct (lo_runs _ Hl run s Hs) as [Hp _ _].
  assert (rs_lifecycle s <> LQuarantined) as Hnq.
  { intros E. destruct (rp_quarantined _ _ _ Hp E). congruence. }
  rewrite (Hnew Hnq Hq').
  destruct (quarantineState_notify run s l) as (s1 & l1 & -> & Hq1 & _ & _ & _ & Hab).
  rewrite notify_standalone_quarantined by done. apply Hab; [done..|]. by apply (rp_bridge _ _ _ Hp).
Qed.

(** Waiters are answered, once: in every reachable ledger no waiter is answered
    twice, a waiter that still waits was not answered, and a run that is settled or
    quarantined has no waiter left; and the domain of a run is given back to its bridge
    exactly once, and has been when the run is settled or quarantined. *)
Theorem waiters_and_domains l run s :
  ledger_reachable l -> l_runs l !! run = Some s ->
  NoDup (answered l)
  /\ (forall w, w ∈ rs_waiters s -> w ∉ answered l)
  /\ (is_Some (settlementProof s) -> rs_waiters s = [] /\ rs_domain s = None)
  /\ length (releases_of run l) = match rs_domain s with Some _ => 0 | None => 1 end.
Proof.
  intros Hr Hs. destruct (ledger_reachable_waiters l Hr) as [Honce _ Hap _].
  destruct (lo_runs _ (ledger_reachable_ok l Hr) run s Hs) as [Hp Hw Hfr]. split_and!; [done|eauto| |].
  - intros Hproof. split; [auto|]. unfold settlementProof in *. destruct (rs_lifecycle s) eqn:Hlc.
    + by destruct Hproof.
    + case_bool_decide; [auto|by destruct Hproof].
    + by destruct (rp_quarantined _ _ _ Hp Hlc).
  - rewrite (rp_releases _ _ _ Hp). pose proof (rp_domain _ _ _ Hp) as Hd.
    destruct (rs_released s), (rs_domain s); try done.
    + by discriminate (proj1 Hd eq_refl).
    + by discriminate (proj2 Hd eq_refl).
Qed.

End facts.

(** ** A concrete run

    A run is opened, a producer is reserved and tracks a tool, the run is sealed while
    someone waits; the tool finishes, the producer closes, and the callbacks run. *)

Definition demo_ledger_ops : list ledger_op :=
  [LOpenRun (js "r"); LReserve (js "r") None KProviderIterator (js "stream") 0;
   LLeaseTrack 0 KTool (js "bash") 1; LWait (js "r") 7; LSeal (js "r");
   LPromise 2; LCallback 2; LClose 0].

Definition run_ledger (ops : list ledger_op) : ledger standalone_bridge :=
  fold_left (fun l op => exec_ledger op l) ops (createRunResourceLedger standalone_new).

(** Readiness as a decision, for concrete ledgers. *)
Definition readyb (l : ledger standalone_bridge) (op : ledger_op) : bool :=
  match op with
  | LCallback id => bool_decide (id ∈ l_done l)
  | LWait _ w => bool_decide (map_Forall (fun _ s => w ∉ rs_waiters s) (l_runs l))
                 && bool_decide (w ∉ ((fun x => x.1.1) <$> l_delivered l))
  | _ => true
  end.

Lemma readyb_ready l op : readyb l op = true -> op_ready l op.
Proof.
  destruct op; simpl; intros Hr; try done; simpl_bool; [|done]. split; [|done].
  intros run' s Hs. by apply (H run' s).
Qed.

Fixpoint readyb_all (l : ledger standalone_bridge) (ops : list ledger_op) : bool :=
  match ops with [] => true | op :: ops => readyb l op && readyb_all (exec_ledger op l) ops end.

Lemma run_ledger_reachable ops :
  readyb_all (createRunResourceLedger standalone_new) ops = true -> ledger_reachable (run_ledger ops).
Proof.
  unfold run_ledger. generalize (lr_new (X := standalone_bridge) standalone_new).
  generalize (createRunResourceLedger standalone_new) as l.
  induction ops as [|op ops IH]; intros l Hl Hr; simpl in *; [done|]. simpl_bool.
  apply IH; [|done]. apply lr_step; [done|by apply readyb_ready].
Qed.

Definition demo_ledger : ledger standalone_bridge := run_ledger demo_ledger_ops.

Lemma demo_ledger_reachable : ledger_reachable demo_ledger.
Proof. apply run_ledger_reachable. vm_compute. reflexivity. Qed.

Lemma settled_means_quiet_witness :
  let l' := exec_ledger (LCallback 1) demo_ledger in
  (7, js "r", Settled) ∈ l_delivered l'
  /\ exists s, l_runs l' !! js "r" = Some s /\ rs_lifecycle s = LSealed
     /\ forall id, l_owner l' !! id = Some (js "r") -> id ∈ l_done l'.
Proof.
  intros l'. assert (Hin : (7, js "r", Settled) ∈ l_delivered l').
  { assert (l_delivered l' = [(7, js "r", Settled)]) as -> by (vm_compute; reflexivity). left. }
  split; [exact Hin|]. apply (settled_means_quiet demo_ledger (LCallback 1) 7 (js "r")).
  - exact demo_ledger_reachable.
  - apply readyb_ready. vm_compute. reflexivity.
  - assert (l_delivered demo_ledger = []) as -> by (vm_compute; reflexivity). apply not_elem_of_nil.
  - exact Hin.
Defined.

Definition demo_run : RunState := default (mkRun LOpen None false [] [] [] [] false) (l_runs demo_ledger !! js "r").

Lemma demo_run_lookup : l_runs demo_ledger !! js "r" = Some demo_run.
Proof. vm_compute. reflexivity. Qed.

(** A reservation on the sealed run quarantines it and aborts its signal. *)
Lemma quarantine_final_witness :
  let l' := exec_ledger (LReserve (js "r") None KTool (js "late") 9) demo_ledger in
  (rs_lifecycle <$> l_runs l' !! js "r") = Some LQuarantined
  /\ exists s', l_runs l' !! js "r" = Some s' /\ (rs_lifecycle s' = LQuarantined -> rs_domain s' = None).
Proof.
  intros l'. split; [vm_compute; reflexivity|].
  destruct (quarantine_final demo_ledger (LReserve (js "r") None KTool (js "late") 9) (js "r") demo_run
              demo_ledger_reachable I demo_run_lookup) as (s' & Hs' & _ & _ & Hq).
  exists s'. split; [exact Hs'|]. intros E. exact (proj1 (Hq E)).
Defined.

Lemma waiters_and_domains_witness :
  rs_waiters demo_run = [7] /\ (7 ∈ rs_waiters demo_run -> 7 ∉ answered demo_ledger)
  /\ length (releases_of (js "r") demo_ledger) = 0.
Proof.
  destruct (waiters_and_domains demo_ledger (js "r") demo_run demo_ledger_reachable demo_run_lookup)
    as (_ & Hw & _ & Hrel).
  split; [vm_compute; reflexivity|]. split; [exact (Hw 7)|]. rewrite Hrel. vm_compute. reflexivity.
Defined.

(** A settled run can be given work again: sealing freezes only the admission of
    producers, so a late registration makes a run that was declared settled pending. *)
Example late_registration_after_settled :
  let l := exec_ledger (LTrack (js "r") KPostPrompt (js "hook") 20) (exec_ledger (LCallback 1) demo_ledger) in
  l_delivered l = [(7, js "r", Settled)] /\ length (pending (js "r") l) = 1.
Proof. vm_compute. split; reflexivity. Qed.
