(* ===== verification/ToolChoiceQueue.v ===== *)
(** * Forced tool choices (session/tool-choice-queue.ts)

    A queue of directives, each a generator of tool choices, serves one choice per
    turn.  The choice that was handed out is in flight until the turn is resolved or
    rejected; a rejected one may be queued again.  A directive is an object: the
    in-flight state and the queue share it, so it carries an identity, and the
    generator is the list of the choices it has left.  Callbacks are functions of their
    argument, and their calls are logged. *)

From S2P Require Import Prelude JsText.

Inductive reject_reason := RAborted | RError | RCleared | RRemoved.

Section queue.
(** [ToolChoice] and the handlers of a forced tool are opaque to the queue. *)
Context {ToolChoice Handler : Type}.

Record DirectiveCallbacks := mkCallbacks {
  cb_onResolved : bool;
  cb_onRejected : option (ToolChoice -> reject_reason -> bool);  (** [true] is "requeue" *)
  cb_onInvoked : option Handler
}.

Record ToolChoiceDirective := mkDirective {
  di_ref : nat;
  di_generator : list ToolChoice;
  di_label : jsstring;
  di_callbacks : DirectiveCallbacks
}.

Record PushOptions := mkPush { po_now : bool; po_label : option jsstring; po_callbacks : DirectiveCallbacks }.

Record InFlight := mkInFlight { if_directive : ToolChoiceDirective; if_yielded : ToolChoice }.

Inductive callback_call :=
| CallResolved (label : jsstring) (choice : ToolChoice)
| CallRejected (label : jsstring) (choice : ToolChoice) (reason : reject_reason).

Record ToolChoiceQueue := mkQueue {
  tq_queue : list ToolChoiceDirective;
  tq_inFlight : option InFlight;
  tq_lastResolvedLabel : option jsstring;
  tq_nextRef : nat;
  tq_calls : list callback_call
}.

Definition new_queue : ToolChoiceQueue := mkQueue [] None None 0 [].

Definition onceGen (choice : ToolChoice) : list ToolChoice := [choice].

Definition set_queue (q : list ToolChoiceDirective) (s : ToolChoiceQueue) : ToolChoiceQueue :=
  mkQueue q (tq_inFlight s) (tq_lastResolvedLabel s) (tq_nextRef s) (tq_calls s).

Definition set_inFlight (f : option InFlight) (s : ToolChoiceQueue) : ToolChoiceQueue :=
  mkQueue (tq_queue s) f (tq_lastResolvedLabel s) (tq_nextRef s) (tq_calls s).

Definition call (c : callback_call) (s : ToolChoiceQueue) : ToolChoiceQueue :=
  mkQueue (tq_queue s) (tq_inFlight s) (tq_lastResolvedLabel s) (tq_nextRef s) (tq_calls s ++ [c]).

(** A new directive object, put at the head or at the tail. *)
Definition add_directive (now : bool) (generator : list ToolChoice) (label : jsstring) (cb : DirectiveCallbacks)
    (s : ToolChoiceQueue) : ToolChoiceQueue :=
  let d := mkDirective (tq_nextRef s) generator label cb in
  mkQueue (if now then d :: tq_queue s else tq_queue s ++ [d]) (tq_inFlight s) (tq_lastResolvedLabel s)
    (S (tq_nextRef s)) (tq_calls s).

Definition push (generator : list ToolChoice) (options : PushOptions) (s : ToolChoiceQueue) : ToolChoiceQueue :=
  add_directive (po_now options) generator (default (js "anonymous") (po_label options)) (po_callbacks options) s.

Definition pushOnce (choice : ToolChoice) (options : PushOptions) : ToolChoiceQueue -> ToolChoiceQueue :=
  push (onceGen choice) options.

Definition pushSequence (choices : list ToolChoice) (options : PushOptions) : ToolChoiceQueue -> ToolChoiceQueue :=
  push choices options.

Definition advance (d : ToolChoiceDirective) (rest : list ToolChoice) : ToolChoiceDirective :=
  mkDirective (di_ref d) rest (di_label d) (di_callbacks d).

(** The loop of [nextToolChoice]: exhausted heads are shifted out. *)
Fixpoint next_from (queue : list ToolChoiceDirective) : option InFlight * list ToolChoiceDirective :=
  match queue with
  | [] => (None, [])
  | head :: rest =>
      match di_generator head with
      | [] => next_from rest
      | c :: more => let head := advance head more in (Some (mkInFlight head c), head :: rest)
      end
  end.

Definition nextToolChoice (s : ToolChoiceQueue) : option ToolChoice * ToolChoiceQueue :=
  match next_from (tq_queue s) with
  | (Some f, queue) => (Some (if_yielded f), set_inFlight (Some f) (set_queue queue s))
  | (None, queue) => (None, set_queue queue s)
  end.

Definition resolve (s : ToolChoiceQueue) : ToolChoiceQueue :=
  match tq_inFlight s with
  | None => set_inFlight None s
  | Some f =>
      let d := if_directive f in
      let s := mkQueue (tq_queue s) None (Some (di_label d)) (tq_nextRef s) (tq_calls s) in
      if cb_onResolved (di_callbacks d) then call (CallResolved (di_label d) (if_yielded f)) s else s
  end.

Definition requeued_label (label : jsstring) : jsstring := label ++ js "-requeued".

(** The callbacks a replayed choice carries on. *)
Definition requeued_callbacks (cb : DirectiveCallbacks) : DirectiveCallbacks :=
  mkCallbacks false (cb_onRejected cb) (cb_onInvoked cb).

Definition reject (reason : reject_reason) (s : ToolChoiceQueue) : ToolChoiceQueue :=
  match tq_inFlight s with
  | None => set_inFlight None s
  | Some f =>
      let d := if_directive f in
      let s := set_inFlight None s in
      match cb_onRejected (di_callbacks d) with
      | None => s
      | Some onRejected =>
          let s := call (CallRejected (di_label d) (if_yielded f) reason) s in
          if onRejected (if_yielded f) reason
          then add_directive true (onceGen (if_yielded f)) (requeued_label (di_label d))
                 (requeued_callbacks (di_callbacks d)) s
          else s
      end
  end.

Definition degradeInFlight (s : ToolChoiceQueue) : option jsstring * ToolChoiceQueue :=
  match tq_inFlight s with
  | None => (None, set_inFlight None s)
  | Some f =>
      let s := set_inFlight None s in
      let queue := match tq_queue s with
                   | head :: rest => if (di_ref head =? di_ref (if_directive f))%nat then rest else head :: rest
                   | [] => []
                   end in
      (Some (di_label (if_directive f)), set_queue queue s)
  end.

Definition hasInFlight (s : ToolChoiceQueue) : bool := bool_decide (is_Some (tq_inFlight s)).

Definition peekInFlightInvoker (s : ToolChoiceQueue) : option Handler :=
  match tq_inFlight s with Some f => cb_onInvoked (di_callbacks (if_directive f)) | None => None end.

Definition removeByLabel (label : jsstring) (s : ToolChoiceQueue) : ToolChoiceQueue :=
  let s := match tq_inFlight s with
           | Some f => if bool_decide (di_label (if_directive f) = label) then reject RRemoved s else s
           | None => s
           end in
  set_queue (List.filter (fun d => negb (bool_decide (di_label d = label))) (tq_queue s)) s.

Definition clear (s : ToolChoiceQueue) : ToolChoiceQueue :=
  let s := match tq_inFlight s with Some _ => reject RCleared s | None => s end in
  mkQueue [] (tq_inFlight s) None (tq_nextRef s) (tq_calls s).

Definition consumeLastServedLabel (s : ToolChoiceQueue) : option jsstring * ToolChoiceQueue :=
  (tq_lastResolvedLabel s,
   mkQueue (tq_queue s) (tq_inFlight s) None (tq_nextRef s) (tq_calls s)).

Definition inspect (s : ToolChoiceQueue) : list jsstring := di_label <$> tq_queue s.

(** ** The abstract queue: the choices still to be served, each with its directive's
    label and callbacks *)

Record pending_choice := mkPending { pc_label : jsstring; pc_callbacks : DirectiveCallbacks; pc_choice : ToolChoice }.

Definition choices_of (d : ToolChoiceDirective) : list pending_choice :=
  mkPending (di_label d) (di_callbacks d) <$> di_generator d.

Definition to_serve (s : ToolChoiceQueue) : list pending_choice := tq_queue s ≫= choices_of.

(** What is in flight, as the choice it was. *)
Definition served_now (s : ToolChoiceQueue) : option pending_choice :=
  (fun f => mkPending (di_label (if_directive f)) (di_callbacks (if_directive f)) (if_yielded f)) <$> tq_inFlight s.

Definition requeued (c : pending_choice) : pending_choice :=
  mkPending (requeued_label (pc_label c)) (requeued_callbacks (pc_callbacks c)) (pc_choice c).

Definition wants_requeue (c : pending_choice) (reason : reject_reason) : bool :=
  match cb_onRejected (pc_callbacks c) with Some f => f (pc_choice c) reason | None => false end.

(** What a rejection puts back at the head. *)
Definition put_back (f : option pending_choice) (reason : reject_reason) : list pending_choice :=
  match f with Some c => if wants_requeue c reason then [requeued c] else [] | None => [] end.

Lemma next_from_spec queue :
  match queue ≫= choices_of with
  | [] => next_from queue = (None, [])
  | c :: rest => exists f queue', next_from queue = (Some f, queue')
      /\ mkPending (di_label (if_directive f)) (di_callbacks (if_directive f)) (if_yielded f) = c
      /\ queue' ≫= choices_of = rest
  end.
Proof.
  induction queue as [|d queue IH]; simpl; [done|]. destruct (di_generator d) as [|c more] eqn:Hg.
  - unfold choices_of at 1. rewrite Hg. simpl. exact IH.
  - unfold choices_of at 1. rewrite Hg. simpl. eexists _, _. split; [reflexivity|]. split; [done|].
    rewrite bind_cons. done.
Qed.

Lemma to_serve_add now generator label cb s :
  to_serve (add_directive now generator label cb s)
  = if now then (mkPending label cb <$> generator) ++ to_serve s
    else to_serve s ++ (mkPending label cb <$> generator).
Proof.
  unfold to_serve, add_directive. simpl. destruct now; [by rewrite bind_cons|].
  rewrite bind_app. unfold choices_of at 2. simpl. by rewrite app_nil_r.
Qed.

Lemma reject_spec reason s :
  to_serve (reject reason s) = put_back (served_now s) reason ++ to_serve s /\ tq_inFlight (reject reason s) = None.
Proof.
  unfold reject, served_now, put_back, wants_requeue. destruct (tq_inFlight s) as [f|]; simpl; [|done].
  destruct (cb_onRejected (di_callbacks (if_directive f))) as [h|]; simpl; [|done].
  destruct (h (if_yielded f) reason); [|done]. split; [|done]. by rewrite to_serve_add.
Qed.

Lemma filter_label_bind label (queue : list ToolChoiceDirective) :
  List.filter (fun d => negb (bool_decide (di_label d = label))) queue ≫= choices_of
  = List.filter (fun c => negb (bool_decide (pc_label c = label))) (queue ≫= choices_of).
Proof.
  induction queue as [|d queue IH]; simpl; [done|].
  assert (List.filter (fun c => negb (bool_decide (pc_label c = label))) (choices_of d)
          = if bool_decide (di_label d = label) then [] else choices_of d) as Hd.
  { unfold choices_of. destruct (bool_decide (di_label d = label)) eqn:E;
      (induction (di_generator d) as [|c gen IHg]; [done|]); rewrite fmap_cons; cbn [List.filter pc_label];
      rewrite E; cbn [negb]; by rewrite IHg. }
  rewrite List.filter_app, Hd. case_bool_decide; cbn [negb]; [exact IH|]. rewrite bind_cons. by f_equal.
Qed.

(** The queue is the list of the choices to serve: taking the next choice takes the head
    of the list and puts it in flight; pushing adds a directive's choices at the end
    chosen; resolving consumes what is in flight; rejecting puts exactly it back at the
    head, with its handler, when its directive asks for that; removing a label removes
    that label's choices, but what the rejection of the removed choice put back stays. *)
Theorem queue_is_list (s : ToolChoiceQueue) :
  (match to_serve s with
   | [] => (nextToolChoice s).1 = None /\ to_serve (nextToolChoice s).2 = []
           /\ served_now (nextToolChoice s).2 = served_now s
   | c :: rest => (nextToolChoice s).1 = Some (pc_choice c) /\ to_serve (nextToolChoice s).2 = rest
                  /\ served_now (nextToolChoice s).2 = Some c
   end)
  /\ (forall generator o, to_serve (push generator o s)
        = let added := mkPending (default (js "anonymous") (po_label o)) (po_callbacks o) <$> generator in
          if po_now o then added ++ to_serve s else to_serve s ++ added)
  /\ to_serve (resolve s) = to_serve s /\ served_now (resolve s) = None
  /\ (forall reason, to_serve (reject reason s) = put_back (served_now s) reason ++ to_serve s
        /\ served_now (reject reason s) = None)
  /\ (forall label, to_serve (removeByLabel label s)
        = List.filter (fun c => negb (bool_decide (pc_label c = label)))
            ((match served_now s with
              | Some c => if bool_decide (pc_label c = label) then put_back (served_now s) RRemoved else []
              | None => []
              end) ++ to_serve s))
  /\ to_serve (clear s) = [] /\ served_now (clear s) = None.
Proof.
  split_and!.
  - unfold nextToolChoice. pose proof (next_from_spec (tq_queue s)) as Hn. unfold to_serve.
    destruct (tq_queue s ≫= choices_of) as [|c rest].
    + rewrite Hn. done.
    + destruct Hn as (f & queue' & -> & <- & Hrest). done.
  - intros generator o. apply to_serve_add.
  - unfold resolve. destruct (tq_inFlight s) as [f|]; [|done]. by destruct (cb_onResolved _).
  - unfold resolve. destruct (tq_inFlight s) as [f|]; [|done]. by destruct (cb_onResolved _).
  - intros reason. destruct (reject_spec reason s) as [-> Hf]. split; [done|]. unfold served_now. by rewrite Hf.
  - intros label. unfold removeByLabel.
    unfold to_serve at 1. simpl. rewrite filter_label_bind. f_equal.
    unfold served_now at 1. destruct (tq_inFlight s) as [f|] eqn:Hf; simpl; [|done].
    case_bool_decide; [|done]. fold (to_serve (reject RRemoved s)).
    by rewrite (proj1 (reject_spec RRemoved s)).
  - unfold clear. by destruct (tq_inFlight s).
  - unfold clear. destruct (tq_inFlight s) eqn:Hf; simpl; unfold served_now; simpl; [|by rewrite Hf].
    by rewrite (proj2 (reject_spec RCleared s)).
Qed.

(** Degrading the choice that was just handed out drops the rest of its directive, and
    nothing else. *)
Lemma degrade_after_next s c :
  (nextToolChoice s).1 = Some c ->
  exists d rest, tq_queue (nextToolChoice s).2 = d :: rest
    /\ (degradeInFlight (nextToolChoice s).2).1 = Some (di_label d)
    /\ to_serve (degradeInFlight (nextToolChoice s).2).2 = rest ≫= choices_of
    /\ served_now (degradeInFlight (nextToolChoice s).2).2 = None.
Proof.
  unfold nextToolChoice. induction (tq_queue s) as [|d queue IH]; simpl; [done|].
  destruct (di_generator d) as [|c0 more]; [exact IH|]. intros _. exists (advance d more), queue.
  unfold degradeInFlight. simpl. rewrite Nat.eqb_refl. done.
Qed.

End queue.

Arguments ToolChoiceQueue : clear implicits.

(** Removing a label does not remove a choice in flight whose directive asks for it to be
    queued again: it comes back under the label with the suffix. *)
Example removed_choice_comes_back :
  let o := mkPush false (Some (js "user-force")) (mkCallbacks (ToolChoice:=nat) (Handler:=nat) false (Some (fun _ _ => true)) None) in
  let s := removeByLabel (js "user-force") (nextToolChoice (pushOnce 1 o new_queue)).2 in
  inspect s = [js "user-force-requeued"] /\ (nextToolChoice s).1 = Some 1.
Proof. vm_compute. split; reflexivity. Qed.
