(* ===== verification/JsValue.v ===== *)
(** * Values of the language and their JSON copies (agent/src/append-only-context.ts)

    A value as the append-only context meets it: messages, tools and schemas may hold
    functions, holes, [undefined], objects with a [toJSON] method and inherited
    properties.  [cloneJson] copies a value the way writing it as JSON and reading it
    back would, without the text in between; this file shows that it does, and where it
    does not. *)

From S2P Require Import Prelude JsText Json.

(** [toJSON] is the method found by reading the property of that name, own or inherited,
    when it is a function; it is called with the key the value is found under.
    [inherited] are the properties of the prototype chain above the built-in ones.  A
    number is an integer or not finite; a hole of an array is [None].  Symbol keys,
    accessors, boxed primitives and cyclic structures are not represented. *)
#[local] Set Warnings "-register-all".

Inductive jsnumber := NInt (n : Z) | NInfinite | NNaN.

Inductive jsvalue :=
| VUndefined
| VNull
| VBool (b : bool)
| VNum (n : jsnumber)
| VStr (s : jsstring)
| VBigInt (n : Z)
| VSymbol
| VFunction (toJSON : option (jsstring -> jsvalue))
| VArray (toJSON : option (jsstring -> jsvalue)) (items : list (option jsvalue))
| VObject (toJSON : option (jsstring -> jsvalue)) (inherited props : list (jsstring * jsvalue)).

Definition plain_object (props : list (jsstring * jsvalue)) : jsvalue := VObject None [] props.
Definition plain_array (items : list jsvalue) : jsvalue := VArray None (Some <$> items).

(** Induction that reaches the parts of arrays and objects and the results of [toJSON]. *)
Lemma jsvalue_nested_ind (P : jsvalue -> Prop) :
  P VUndefined -> P VNull -> (forall b, P (VBool b)) -> (forall n, P (VNum n)) ->
  (forall s, P (VStr s)) -> (forall n, P (VBigInt n)) -> P VSymbol ->
  (forall t, P (VFunction t)) ->
  (forall t items, (forall f k, t = Some f -> P (f k)) ->
     Forall (fun o => forall v, o = Some v -> P v) items -> P (VArray t items)) ->
  (forall t inherited props, (forall f k, t = Some f -> P (f k)) ->
     Forall (fun kv => P kv.2) props -> P (VObject t inherited props)) ->
  forall v, P v.
Proof.
  intros Hu Hn Hb Hnum Hs Hbi Hsy Hf Ha Ho. fix IH 1.
  intros [| |b|n|s|n| |t|t items|t inherited props];
    [exact Hu|exact Hn|apply Hb|apply Hnum|apply Hs|apply Hbi|exact Hsy|apply Hf| |].
  - apply Ha.
    + intros f k. destruct t as [g|]; [|discriminate]. intros [= <-]. apply IH.
    + induction items as [|[v|] items IHi]; constructor; [|exact IHi| |exact IHi]; [|discriminate].
      intros ? [= <-]. apply IH.
  - apply Ho.
    + intros f k. destruct t as [g|]; [|discriminate]. intros [= <-]. apply IH.
    + induction props as [|[k v] props IHp]; constructor; [apply IH|exact IHp].
Qed.

(** ** Reading values *)

Fixpoint assoc (k : jsstring) (props : list (jsstring * jsvalue)) : option jsvalue :=
  match props with
  | [] => None
  | (k', v) :: rest => if bool_decide (k' = k) then Some v else assoc k rest
  end.

(** The property [k] of an object, own or inherited. *)
Definition property (v : jsvalue) (k : jsstring) : option jsvalue :=
  match v with
  | VObject _ inherited props => match assoc k props with Some x => Some x | None => assoc k inherited end
  | _ => None
  end.

(** [v[k]] *)
Definition vget (v : jsvalue) (k : jsstring) : jsvalue := default VUndefined (property v k).

(** [k in v] *)
Definition vin (k : jsstring) (v : jsvalue) : bool := bool_decide (is_Some (property v k)).

Definition own_props (v : jsvalue) : list (jsstring * jsvalue) :=
  match v with VObject _ _ props => props | _ => [] end.

Definition vtruthy (v : jsvalue) : bool :=
  match v with
  | VUndefined | VNull => false
  | VBool b => b
  | VNum n => match n with NInt n => negb (n =? 0)%Z | NInfinite => true | NNaN => false end
  | VStr s => negb (bool_decide (s = []))
  | VBigInt n => negb (n =? 0)%Z
  | VSymbol | VFunction _ | VArray _ _ | VObject _ _ _ => true
  end.

(** [typeof v === "object"] *)
Definition typeof_object (v : jsvalue) : bool :=
  match v with VNull | VArray _ _ | VObject _ _ _ => true | _ => false end.

Definition typeof_function (v : jsvalue) : bool :=
  match v with VFunction _ => true | _ => false end.

Definition vis_array (v : jsvalue) : bool :=
  match v with VArray _ _ => true | _ => false end.

(** ** Writing values as JSON: what [JSON.stringify] does *)

Inductive json_error := BigIntNotSerializable.

Definition index_key (i : nat) : jsstring := num_to_string (Z.of_nat i).

(** The data that is written for a value found under [key]; [None] when nothing is
    written for it.  An item of an array for which nothing is written becomes [null], a
    property for which nothing is written is left out. *)
Fixpoint json_data (value : jsvalue) (key : jsstring) (dispatch : bool) : result json_error (option json) :=
  match value with
  | VUndefined | VSymbol => Ok None
  | VNull => Ok (Some JNull)
  | VBool b => Ok (Some (JBool b))
  | VNum n => Ok (Some (match n with NInt n => JNum n | _ => JNull end))
  | VStr s => Ok (Some (JStr s))
  | VBigInt _ => Err BigIntNotSerializable
  | VFunction toJSON =>
      match toJSON, dispatch with
      | Some f, true => json_data (f key) key false
      | _, _ => Ok None
      end
  | VArray toJSON items =>
      match toJSON, dispatch with
      | Some f, true => json_data (f key) key false
      | _, _ =>
          let! data :=
            (fix go i items :=
               match items with
               | [] => Ok []
               | item :: rest =>
                   let! d := match item with
                             | Some v => json_data v (index_key i) true
                             | None => Ok None
                             end in
                   let! ds := go (S i) rest in
                   Ok (default JNull d :: ds)
               end) 0%nat items in
          Ok (Some (JArr data))
      end
  | VObject toJSON _ props =>
      match toJSON, dispatch with
      | Some f, true => json_data (f key) key false
      | _, _ =>
          let! data :=
            (fix go props :=
               match props with
               | [] => Ok []
               | (k, v) :: rest =>
                   let! d := json_data v k true in
                   let! ds := go rest in
                   Ok (match d with Some d => (k, d) :: ds | None => ds end)
               end) props in
          Ok (Some (JObj data))
      end
  end.

(** [JSON.stringify(value)] *)
Definition stringify (value : jsvalue) : result json_error (option jsstring) :=
  let! d := json_data value [] true in Ok (print_json <$> d).

(** [JSON.parse] of the text of a JSON value: plain data. *)
Fixpoint of_json (j : json) : jsvalue :=
  match j with
  | JNull => VNull
  | JBool b => VBool b
  | JNum n => VNum (NInt n)
  | JStr s => VStr s
  | JArr items => plain_array (of_json <$> items)
  | JObj fields =>
      plain_object ((fix go fs := match fs with
                                  | [] => []
                                  | (k, x) :: fs' => (k, of_json x) :: go fs'
                                  end) fields)
  end.

(** ** The copy *)

Definition PROTO : jsstring := js "__proto__".

(** The properties an object inherits once [proto] was assigned to its [__proto__]. *)
Definition inherited_from (proto : jsvalue) : list (jsstring * jsvalue) :=
  match proto with
  | VObject _ inherited props => props ++ inherited
  | VArray _ items => imap (fun i item => (index_key i, default VUndefined item)) items
  | _ => []
  end.

(** [cloned[k] = v] for a key the object under construction does not have: the key
    [__proto__] sets the prototype instead of a property. *)
Definition assign (cloned : list (jsstring * jsvalue) * list (jsstring * jsvalue)) (k : jsstring) (v : jsvalue) :
    list (jsstring * jsvalue) * list (jsstring * jsvalue) :=
  if bool_decide (k = PROTO) then (inherited_from v, cloned.2) else (cloned.1, cloned.2 ++ [(k, v)]).

Definition null_if_undefined (v : jsvalue) : jsvalue :=
  match v with VUndefined => VNull | _ => v end.

Fixpoint cloneJsonValue (value : jsvalue) (key : jsstring) (applyToJson : bool) : jsvalue :=
  match value with
  | VNull => VNull
  | VNum n => match n with NInt _ => value | _ => VNull end
  | VUndefined | VFunction _ | VSymbol => VUndefined
  | VBool _ | VStr _ | VBigInt _ => value
  | VArray toJSON items =>
      match toJSON, applyToJson with
      | Some f, true => cloneJsonValue (f key) key false
      | _, _ =>
          VArray None
            ((fix go i items :=
                match items with
                | [] => []
                | item :: rest =>
                    Some (null_if_undefined
                            (match item with
                             | Some v => cloneJsonValue v (index_key i) true
                             | None => VUndefined
                             end)) :: go (S i) rest
                end) 0%nat items)
      end
  | VObject toJSON _ props =>
      match toJSON, applyToJson with
      | Some f, true => cloneJsonValue (f key) key false
      | _, _ =>
          let cloned :=
            (fix go cloned props :=
               match props with
               | [] => cloned
               | (k, v) :: rest =>
                   match cloneJsonValue v k true with
                   | VUndefined => go cloned rest
                   | clonedValue => go (assign cloned k clonedValue) rest
                   end
               end) ([], []) props in
          VObject None cloned.1 cloned.2
      end
  end.

Definition cloneJson (value : jsvalue) : jsvalue := cloneJsonValue value [] true.

(** ** The copy is the value read back *)

(** Where the copy agrees with JSON: there is no big integer, no function that is asked
    for a replacement, and no property named [__proto__]. *)
Fixpoint cloneable (value : jsvalue) (key : jsstring) (dispatch : bool) : bool :=
  match value with
  | VBigInt _ => false
  | VFunction toJSON => match toJSON, dispatch with Some _, true => false | _, _ => true end
  | VArray toJSON items =>
      match toJSON, dispatch with
      | Some f, true => cloneable (f key) key false
      | _, _ =>
          (fix go i items :=
             match items with
             | [] => true
             | item :: rest =>
                 match item with Some v => cloneable v (index_key i) true | None => true end && go (S i) rest
             end) 0%nat items
      end
  | VObject toJSON _ props =>
      match toJSON, dispatch with
      | Some f, true => cloneable (f key) key false
      | _, _ =>
          (fix go props :=
             match props with
             | [] => true
             | (k, v) :: rest => negb (bool_decide (k = PROTO)) && cloneable v k true && go rest
             end) props
      end
  | _ => true
  end.

(** The value for the data that was written, if any. *)
Definition value_of (d : option json) : jsvalue := from_option of_json VUndefined d.

Lemma of_json_defined j : of_json j <> VUndefined.
Proof. by destruct j. Qed.

Lemma null_if_undefined_value_of d : null_if_undefined (value_of d) = of_json (default JNull d).
Proof. destruct d as [j|]; [|done]. by destruct j. Qed.

Lemma of_json_obj fields : of_json (JObj fields) = plain_object (prod_map id of_json <$> fields).
Proof.
  cbn [of_json]. f_equal. induction fields as [|[k x] fields IH]; [done|]. rewrite fmap_cons. by f_equal.
Qed.

(** Data without a field named [__proto__]. *)
Fixpoint no_proto (j : json) : bool :=
  match j with
  | JArr items => forallb no_proto items
  | JObj fields =>
      (fix go fs := match fs with
                    | [] => true
                    | (k, x) :: fs' => negb (bool_decide (k = PROTO)) && no_proto x && go fs'
                    end) fields
  | _ => true
  end.

Lemma cloneable_of_json j key b : no_proto j = true -> cloneable (of_json j) key b = true.
Proof.
  revert key b. induction j as [|c|n|s|items IH|fields IH] using json_nested_ind; intros key b; try done.
  - cbn [of_json no_proto]. unfold plain_array. cbn [cloneable]. generalize 0%nat as i.
    induction IH as [|x items Hx IH IHi]; intros i; [done|]. intros [Hn Hrest]%andb_prop.
    rewrite !fmap_cons, Hx by done. by apply IHi.
  - rewrite of_json_obj. unfold plain_object. cbn [no_proto cloneable].
    induction IH as [|[k x] fields Hx IH IHf]; [done|]. intros [[Hk Hn]%andb_prop Hrest]%andb_prop.
    rewrite fmap_cons. cbn [prod_map fst snd id] in *. rewrite Hk, Hx, IHf by done. done.
Qed.

Definition data_cloneable (d : option json) : Prop := from_option no_proto true d = true.

Definition clone_ok (v : jsvalue) : Prop := forall key b, cloneable v key b = true ->
  exists d, json_data v key b = Ok d /\ cloneJsonValue v key b = value_of d /\ data_cloneable d.

(** The walk over the slots of an array. *)
Lemma clone_array items :
  Forall (fun o => forall v, o = Some v -> clone_ok v) items -> clone_ok (VArray None items).
Proof.
  intros IH key b. cbn [cloneable json_data cloneJsonValue]. generalize 0%nat as i.
  induction IH as [|item items Hitem IH IHi]; intros i Hc.
  - by eexists.
  - apply andb_prop in Hc as [Hi Hrest]. apply IHi in Hrest as (ds & Hds & Hcl & Hnp). clear IHi.
    assert (exists d, match item with Some v => json_data v (index_key i) true | None => Ok None end = Ok d
      /\ match item with Some v => cloneJsonValue v (index_key i) true | None => VUndefined end = value_of d
      /\ data_cloneable d)
      as (d & -> & -> & Hd).
    { destruct item as [v|]; [exact (Hitem v eq_refl _ _ Hi)|by exists None]. }
    case_match; simplify_eq/=. eexists. split; [reflexivity|].
    rewrite null_if_undefined_value_of. unfold plain_array in *. simplify_eq/=. cbn [of_json value_of from_option].
    unfold plain_array, data_cloneable in *. rewrite !fmap_cons. split; [congruence|].
    cbn [from_option no_proto forallb] in *. rewrite Hnp, andb_true_r. by destruct d.
Qed.

(** The walk over the properties of an object, from any object under construction. *)
Lemma clone_object inherited props :
  Forall (fun kv => clone_ok kv.2) props -> clone_ok (VObject None inherited props).
Proof.
  intros IH key b. cbn [cloneable json_data cloneJsonValue]. intros Hc.
  match goal with |- context [let! _ := ?go props in _] => set (write := go) end.
  match goal with |- context [(?go ([], []) props).1] => set (copy := go) end.
  assert (exists ds, write props = Ok ds /\ (forall cloned,
            copy cloned props = (cloned.1, cloned.2 ++ (prod_map id of_json <$> ds)))
            /\ no_proto (JObj ds) = true) as (ds & -> & Hcopy & Hnp).
  { induction IH as [|[k v] props Hv IH IHp].
    { exists []. split_and!; [done| |done]. intros []. by rewrite app_nil_r. }
    apply andb_prop in Hc as [[Hk Hcv]%andb_prop Hrest].
    destruct (IHp Hrest) as (ds & Hds & Hcopy & Hnp). destruct (Hv _ _ Hcv) as (d & Hd & Hcl & Hdn). clear IHp Hv. cbn [snd] in *.
    subst write copy. cbn [snd] in *. rewrite Hd, Hds. eexists. split; [reflexivity|]. split; cycle 1.
    { destruct d as [j|]; [|done]. unfold data_cloneable in Hdn. cbn [no_proto from_option] in *. by rewrite Hk, Hdn, Hnp. }
    intros cloned. rewrite Hcl. destruct d as [j|]; cbn [value_of from_option]; [|apply Hcopy].
    assert (assign cloned k (of_json j) = (cloned.1, cloned.2 ++ [(k, of_json j)])) as Ha.
    { unfold assign. destruct (bool_decide (k = PROTO)); done. }
    pose proof (of_json_defined j). rewrite fmap_cons, cons_middle, (assoc_L app).
    change (prod_map id of_json (k, j)) with (k, of_json j).
    specialize (Hcopy (assign cloned k (of_json j))). rewrite Ha in Hcopy.
    destruct (of_json j); try done; rewrite Ha; exact Hcopy. }
  eexists. split; [reflexivity|]. rewrite Hcopy. cbn [fst snd app value_of from_option]. by rewrite of_json_obj.
Qed.

Lemma cloneJsonValue_ok v : clone_ok v.
Proof.
  induction v as [| |b|n|s|n| |t|t items Ht IH|t inherited props Ht IH] using jsvalue_nested_ind;
    try (intros key d Hc; first [discriminate Hc|by eexists]).
  - intros key d _. exists (Some (match n with NInt n => JNum n | _ => JNull end)). by destruct n.
  - intros key d. destruct t as [f|], d; try done; by eexists.
  - intros key d. destruct t as [f|], d; [exact (Ht f key eq_refl key false)|..]; exact (clone_array items IH key true).
  - intros key d. destruct t as [f|], d; [exact (Ht f key eq_refl key false)|..];
      exact (clone_object inherited props IH key true).
Qed.

(** Plain data is written as it is. *)
Lemma json_data_of_json j key b : json_data (of_json j) key b = Ok (Some j).
Proof.
  revert key b. induction j as [|c|n|s|items IH|fields IH] using json_nested_ind; intros key b; try done.
  - cbn [of_json json_data plain_array]. unfold plain_array. cbn [json_data]. generalize 0%nat as i.
    assert (forall i, (fix go i items := match items with
               | [] => Ok []
               | item :: rest =>
                   let! d := match item with
                             | Some v => json_data v (index_key i) true
                             | None => Ok None
                             end in
                   let! ds := go (S i) rest in
                   Ok (default JNull d :: ds)
               end) i (Some <$> (of_json <$> items)) = Ok items) as Hgo.
    { induction IH as [|x items Hx IH IHi]; intros i; [done|]. rewrite !fmap_cons. rewrite Hx.
      by rewrite IHi. }
    intros i. by rewrite Hgo.
  - rewrite of_json_obj. unfold plain_object. cbn [json_data].
    assert ((fix go props := match props with
               | [] => Ok []
               | (k, v) :: rest =>
                   let! d := json_data v k true in
                   let! ds := go rest in
                   Ok (match d with Some d => (k, d) :: ds | None => ds end)
               end) (prod_map id of_json <$> fields) = Ok fields) as Hgo.
    { induction IH as [|[k x] fields Hx IH IHf]; [done|]. rewrite fmap_cons. cbn [prod_map fst snd] in *.
      cbn [snd] in Hx. rewrite Hx, IHf. done. }
    by rewrite Hgo.
Qed.

(** A copy is the value written as JSON and read back, and nothing throws: the text of
    the copy is the text of the value, two values are written alike exactly when their
    copies are equal, and copying again changes nothing. *)
Theorem clone_is_json_roundtrip (v w : jsvalue) :
  cloneable v [] true = true -> cloneable w [] true = true ->
  (exists d, stringify v = Ok (print_json <$> d) /\ cloneJson v = value_of d)
  /\ stringify (cloneJson v) = stringify v
  /\ (stringify v = stringify w <-> cloneJson v = cloneJson w)
  /\ cloneJson (cloneJson v) = cloneJson v.
Proof.
  intros Hv Hw.
  assert (Hone : forall u, cloneable u [] true = true -> exists d,
            stringify u = Ok (print_json <$> d) /\ cloneJson u = value_of d
            /\ stringify (cloneJson u) = Ok (print_json <$> d) /\ data_cloneable d).
  { intros u Hu. destruct (cloneJsonValue_ok u [] true Hu) as (d & Hd & Hc & Hn). exists d. unfold stringify, cloneJson.
    rewrite Hd, Hc. split; [done|]. split; [done|]. split; [|done].
    destruct d as [j|]; [|done]. cbn [value_of from_option]. by rewrite json_data_of_json. }
  destruct (Hone v Hv) as (d & Hs & Hc & Hsc & Hn). destruct (Hone w Hw) as (e & Hs' & Hc' & _ & _).
  split_and!; [by exists d|congruence| |].
  - rewrite Hs, Hs', Hc, Hc'. split.
    + destruct d as [j|], e as [j'|]; intros E; try discriminate E; [|done]. injection E as E.
      destruct (print_json_inj j j' [] []) as [-> _]; [done|done| |done]. by rewrite E.
    + destruct d as [j|], e as [j'|]; cbn [value_of from_option]; intros E; try done.
      * f_equal. f_equal. cut (Ok (E:=json_error) (Some j) = Ok (Some j')); [congruence|].
        by rewrite <- (json_data_of_json j [] true), E, json_data_of_json.
      * by apply of_json_defined in E.
      * symmetry in E. by apply of_json_defined in E.
  - rewrite Hc. destruct d as [j|]; [|done]. cbn [value_of from_option] in *. unfold cloneJson.
    destruct (cloneJsonValue_ok _ [] true (cloneable_of_json j [] true Hn)) as (d & Hd & -> & _).
    rewrite json_data_of_json in Hd. by injection Hd as <-.
Qed.

(** A fixture with what JSON leaves out, turns into null or replaces. *)
Definition clone_fixture : jsvalue :=
  plain_object [(js "role", VStr (js "user"));
                (js "skip", VFunction None);
                (js "when", VObject (Some (fun k => plain_object [(js "key", VStr k)])) [] []);
                (js "content", VArray None [Some VUndefined; None; Some (VNum NNaN); Some (VNum (NInt 7))])].

Lemma clone_is_json_roundtrip_witness :
  cloneable clone_fixture [] true = true
  /\ stringify (cloneJson clone_fixture)
     = Ok (Some ((fun c => if (c =? 96)%N then QUOTE else c) <$> js "{`role`:`user`,`when`:{`key`:`when`},`content`:[null,null,null,7]}"
                 ))
  /\ stringify (cloneJson clone_fixture) = stringify clone_fixture.
Proof.
  split; [reflexivity|]. split; [vm_compute; reflexivity|].
  exact (proj1 (proj2 (clone_is_json_roundtrip clone_fixture clone_fixture eq_refl eq_refl))).
Defined.

(** A property named [__proto__], which parsed text may have, is lost in the copy, and a
    big integer, which JSON refuses, is copied. *)
Example proto_property_lost :
  let v := plain_object [(PROTO, VStr (js "x")); (js "a", VNull)] in
  cloneJson v = plain_object [(js "a", VNull)] /\ stringify (cloneJson v) <> stringify v.
Proof. split; [reflexivity|]. vm_compute. discriminate. Qed.
