(* ===== verification/WireSchema.v ===== *)
(** * Tool schemas on the wire (ai/src/utils/schema/wire.ts, agent/src/agent-loop.ts)

    The parameters of a tool are a schema of the validation library or plain JSON Schema.
    What is sent is JSON Schema: a library schema is converted and tidied up, and the
    intent field is injected at the front of its properties.  The conversion itself is the
    library's and a parameter. *)

From S2P Require Import Prelude JsText Json JsValue.

(** [typeof value === "object" && value !== null && "_zod" in value && ...] *)
Definition isZodSchema (value : jsvalue) : bool :=
  typeof_object value && negb (match value with VNull => true | _ => false end)
  && vin (js "_zod") value && typeof_object (vget value (js "_zod"))
  && typeof_function (vget value (js "parse")).

(** ** Tidying a converted schema *)

Definition SAFE_INTEGER_MAX : Z := 9007199254740991.
Definition SAFE_INTEGER_MIN : Z := -9007199254740991.

(** Keys whose values are a single JSON Schema. *)
Definition SCHEMA_VALUE_KEYS : list jsstring :=
  js <$> ["additionalProperties"; "unevaluatedProperties"; "unevaluatedItems"; "items"; "contains";
          "propertyNames"; "if"; "then"; "else"; "not"]%string.

(** Keys whose values are a map of schemas. *)
Definition SCHEMA_MAP_KEYS : list jsstring :=
  js <$> ["properties"; "patternProperties"; "$defs"; "definitions"]%string.

(** Keys whose values are an array of schemas. *)
Definition SCHEMA_ARRAY_KEYS : list jsstring := js <$> ["anyOf"; "oneOf"; "allOf"; "prefixItems"]%string.

Definition isEmptyObject (val : json) : bool := match val with JObj [] => true | _ => false end.

(** [String(v)], as a property name is made of a value. *)
Fixpoint property_key (v : json) : jsstring :=
  match v with
  | JNull => js "null"
  | JBool b => if b then js "true" else js "false"
  | JNum n => num_to_string n
  | JStr s => s
  | JArr items => join (js ",") ((fun x => match x with JNull => [] | _ => property_key x end) <$> items)
  | JObj _ => js "[object Object]"
  end.

(** [properties[name]] for an object or an array. *)
Definition entry_of (properties : json) (name : jsstring) : option json :=
  match properties with
  | JObj fields => lookup_field name fields
  | JArr items => lookup_field name (imap (fun i x => (index_key i, x)) items)
  | _ => None
  end.

(** The callback of [required.filter]: a property with a default is not required. *)
Definition stays_required (properties name : json) : bool :=
  match entry_of properties (property_key name) with
  | Some (JObj fields) => negb (bool_decide (is_Some (lookup_field (js "default") fields)))
  | _ => true
  end.

(** The property maps whose [required] list is filtered. *)
Definition required_filter (fields : list (jsstring * json)) : json -> bool :=
  match lookup_field (js "properties") fields with
  | Some (JObj _ as properties) | Some (JArr _ as properties) => stays_required properties
  | _ => fun _ => true
  end.

(** The keys the visit of an object deletes. *)
Definition deletes (fields : list (jsstring * json)) (k : jsstring) (x : json) : bool :=
  match x with
  | JNum n =>
      is_str (js "integer") (lookup_field (js "type") fields)
      && (bool_decide (k = js "minimum") && (n =? SAFE_INTEGER_MIN)%Z
          || bool_decide (k = js "maximum") && (n =? SAFE_INTEGER_MAX)%Z)
  | JArr required =>
      bool_decide (k = js "required") && negb (bool_decide (required = []))
      && negb (existsb (required_filter fields) required)
  | _ => false
  end.

(** [walk] mutates the schema; what it leaves is returned.  The decisions at an object are
    taken before its children are visited. *)
Fixpoint walk (node : json) : json :=
  match node with
  | JArr items => JArr (walk <$> items)
  | JObj fields =>
      JObj ((fix go fs :=
               match fs with
               | [] => []
               | (k, x) :: rest =>
                   if deletes fields k x then go rest
                   else (k, match x with
                            | JArr required =>
                                if bool_decide (k = js "required")
                                then JArr ((fix keep l :=
                                              match l with
                                              | [] => []
                                              | name :: l' => if required_filter fields name then walk name :: keep l'
                                                              else keep l'
                                              end) required)
                                else walk x
                            | _ => walk x
                            end) :: go rest
               end) fields)
  | _ => node
  end.

Definition true_if_empty (x : json) : json := if isEmptyObject x then JBool true else x.

(** What an object does to the value of one of its keys. *)
Definition fill_empty (k : jsstring) (x : json) : json :=
  if bool_decide (k ∈ SCHEMA_VALUE_KEYS) then true_if_empty x
  else match x with
       | JObj fields =>
           if bool_decide (k ∈ SCHEMA_MAP_KEYS) then JObj (prod_map id true_if_empty <$> fields) else x
       | JArr items => if bool_decide (k ∈ SCHEMA_ARRAY_KEYS) then JArr (true_if_empty <$> items) else x
       | _ => x
       end.

(** The values are visited and then replaced, where the source replaces and then visits:
    the visit of an empty object changes nothing, and makes no object empty. *)
Fixpoint normalizeEmptySchemas (node : json) : json :=
  match node with
  | JArr items => JArr (normalizeEmptySchemas <$> items)
  | JObj fields =>
      JObj ((fix go fs := match fs with
                          | [] => []
                          | (k, x) :: rest => (k, fill_empty k (normalizeEmptySchemas x)) :: go rest
                          end) fields)
  | _ => node
  end.

Definition delete_field (k : jsstring) (v : json) : json :=
  match v with
  | JObj fields => JObj (List.filter (fun f => negb (bool_decide (f.1 = k))) fields)
  | _ => v
  end.

Definition postProcess (schema : json) : json :=
  normalizeEmptySchemas (walk (delete_field (js "$schema") schema)).

Section normalize.
(** [z.toJSONSchema] of the validation library. *)
Context (toJSONSchema : jsvalue -> json).

Definition zodToWireSchema (schema : jsvalue) : jsvalue := of_json (postProcess (toJSONSchema schema)).

(** ** The intent field *)

Definition INTENT_FIELD : jsstring := js "_i".

Inductive intent_mode := IRequire | IOptional | IOmit.

#[global] Instance intent_mode_eq_dec : EqDecision intent_mode.
Proof. solve_decision. Defined.

Definition resolveIntentMode (intent : jsvalue) : intent_mode :=
  match intent with
  | VFunction _ => IOmit
  | VStr s => if bool_decide (s = js "optional") then IOptional
              else if bool_decide (s = js "omit") then IOmit
              else if bool_decide (s = js "require") then IRequire else IOptional
  | _ => IOptional
  end.

(** [{...props, [k]: v}]: a key that is there keeps its place. *)
Fixpoint set_prop (k : jsstring) (v : jsvalue) (props : list (jsstring * jsvalue)) : list (jsstring * jsvalue) :=
  match props with
  | [] => [(k, v)]
  | (k', v') :: rest => if bool_decide (k' = k) then (k', v) :: rest else (k', v') :: set_prop k v rest
  end.

Definition without_prop (k : jsstring) (props : list (jsstring * jsvalue)) : list (jsstring * jsvalue) :=
  List.filter (fun f => negb (bool_decide (f.1 = k))) props.

Definition string_item (o : option jsvalue) : option jsvalue :=
  match o with Some (VStr s) => Some (VStr s) | _ => None end.

(** The [required] names of a schema, without what is not a string. *)
Definition required_names (schema : jsvalue) : list jsvalue :=
  match vget schema (js "required") with
  | VArray _ items => omap string_item items
  | _ => []
  end.

Definition names_intent (v : jsvalue) : bool := match v with VStr s => bool_decide (s = INTENT_FIELD) | _ => false end.

(** The [properties] object of a schema, or an empty one. *)
Definition properties_of (schema : jsvalue) : jsvalue :=
  match vget schema (js "properties") with
  | VObject t i p => VObject t i p
  | _ => plain_object []
  end.

Definition require_intent (required : list jsvalue) (props : list (jsstring * jsvalue)) : list (jsstring * jsvalue) :=
  set_prop (js "required") (plain_array (required ++ [VStr INTENT_FIELD])) props.

(** A key that is an array index: such keys come before all others, in any object. *)
Definition is_index_key (k : jsstring) : bool :=
  forallb is_digit k && bool_decide (dec (dec_value k) = k) && (dec_value k <? 4294967295)%N.

(** The entries of [{ [INTENT_FIELD]: intent, ...rest }]. *)
Definition intent_first (intent : jsvalue) (rest : list (jsstring * jsvalue)) : list (jsstring * jsvalue) :=
  List.filter (fun f => is_index_key f.1) rest
  ++ (INTENT_FIELD, intent) :: List.filter (fun f => negb (is_index_key f.1)) rest.

Definition injectIntentIntoSchema (schema : jsvalue) (mode : intent_mode) : jsvalue :=
  match schema with
  | VObject _ _ schemaRecord =>
      let properties := properties_of schema in
      let required := required_names schema in
      if vin INTENT_FIELD properties then
        let rest := without_prop INTENT_FIELD (own_props properties) in
        let needsReorder := negb (bool_decide (fst <$> head (own_props properties) = Some INTENT_FIELD)) in
        let needsRequired := bool_decide (mode = IRequire) && negb (existsb names_intent required) in
        if negb needsReorder && negb needsRequired then schema
        else
          let props := if needsReorder
                       then set_prop (js "properties")
                              (plain_object (intent_first (vget properties INTENT_FIELD) rest)) schemaRecord
                       else schemaRecord in
          plain_object (if needsRequired then require_intent required props else props)
      else
        let props := set_prop (js "properties")
                       (plain_object (intent_first (plain_object [(js "type", VStr (js "string"))])
                                        (own_props properties))) schemaRecord in
        plain_object (if bool_decide (mode = IRequire) then require_intent required props else props)
  | _ => schema
  end.

(** A tool is an object; [noIntent] is the test of the environment variable. *)
Definition normalizeTool (noIntent injectIntent : bool) (t : jsvalue) : jsvalue :=
  let injectIntent := injectIntent && negb noIntent in
  let intentMode := resolveIntentMode (vget t (js "intent")) in
  let parameters := vget t (js "parameters") in
  let parameters :=
    if injectIntent && negb (bool_decide (intentMode = IOmit)) then
      if isZodSchema parameters then injectIntentIntoSchema (zodToWireSchema parameters) intentMode
      else injectIntentIntoSchema parameters intentMode
    else parameters in
  let description := match vget t (js "description") with
                     | VUndefined | VNull => VStr []
                     | d => d
                     end in
  plain_object (set_prop (js "description") description
                  (set_prop (js "parameters") parameters (own_props t))).

Definition normalizeTools (noIntent : bool) (tools : option (list jsvalue)) (injectIntent : bool) : option (list jsvalue) :=
  option_map (List.map (normalizeTool noIntent injectIntent)) tools.

End normalize.

(** ** Properties of objects *)

Lemma assoc_set_prop_eq k v props : assoc k (set_prop k v props) = Some v.
Proof.
  induction props as [|[k' v'] props IH]; simpl; [by rewrite bool_decide_true|].
  destruct (bool_decide (k' = k)) eqn:E; simpl; rewrite E; done.
Qed.

Lemma assoc_set_prop_ne k k' v props : k <> k' -> assoc k (set_prop k' v props) = assoc k props.
Proof.
  intros Hne. induction props as [|[k0 v0] props IH]; simpl; [by rewrite bool_decide_false by congruence|].
  destruct (bool_decide (k0 = k')) eqn:E; simpl; [|by rewrite IH].
  simpl_bool. subst. by rewrite bool_decide_false by congruence.
Qed.

Lemma set_prop_same k v props : assoc k props = Some v -> set_prop k v props = props.
Proof.
  induction props as [|[k' v'] props IH]; simpl; [done|].
  destruct (bool_decide (k' = k)); [by intros [= ->]|]. intros H. by rewrite IH.
Qed.

Lemma assoc_without_prop k props : assoc k (without_prop k props) = None.
Proof.
  unfold without_prop. induction props as [|[k' v'] props IH]; simpl; [done|].
  destruct (bool_decide (k' = k)) eqn:E; simpl; [done|]. by rewrite E.
Qed.

Lemma without_prop_absent k props : assoc k props = None -> without_prop k props = props.
Proof.
  unfold without_prop. induction props as [|[k' v'] props IH]; simpl; [done|].
  destruct (bool_decide (k' = k)); simpl; [done|]. intros. by rewrite IH.
Qed.

Lemma assoc_app k p1 p2 : assoc k (p1 ++ p2) = match assoc k p1 with Some v => Some v | None => assoc k p2 end.
Proof. induction p1 as [|[k' v'] p1 IH]; simpl; [done|]. by destruct (bool_decide (k' = k)). Qed.

Lemma assoc_filter_None k p props : assoc k props = None -> assoc k (List.filter p props) = None.
Proof.
  induction props as [|[k' v'] props IH]; simpl; [done|]. destruct (bool_decide (k' = k)) eqn:E; [done|].
  intros H. destruct (p (k', v')); simpl; rewrite ?E; auto.
Qed.

Lemma filter_filter_same {A} (p : A -> bool) l : List.filter p (List.filter p l) = List.filter p l.
Proof. induction l as [|x l IH]; simpl; [done|]. destruct (p x) eqn:E; simpl; by rewrite ?E, IH. Qed.

Lemma filter_filter_negb {A} (p : A -> bool) l :
  List.filter p (List.filter (fun x => negb (p x)) l) = [] /\ List.filter (fun x => negb (p x)) (List.filter p l) = [].
Proof. induction l as [|x l [IH1 IH2]]; simpl; [done|]. destruct (p x) eqn:E; simpl; by rewrite ?E. Qed.

(** ** The injected field stays where it is *)

Lemma intent_first_stable x rest : assoc INTENT_FIELD rest = None ->
  assoc INTENT_FIELD (intent_first x rest) = Some x
  /\ intent_first x (without_prop INTENT_FIELD (intent_first x rest)) = intent_first x rest.
Proof.
  intros Hnone. unfold intent_first.
  pose proof (assoc_filter_None _ (fun f => is_index_key f.1) _ Hnone) as H1.
  pose proof (assoc_filter_None _ (fun f => negb (is_index_key f.1)) _ Hnone) as H2.
  split; [by rewrite assoc_app, H1|].
  unfold without_prop. rewrite List.filter_app. cbn [List.filter]. cbn [fst]. rewrite bool_decide_true by done. cbn [negb].
  change (List.filter (fun f : jsstring * jsvalue => negb (bool_decide (f.1 = INTENT_FIELD)))) with (without_prop INTENT_FIELD).
  rewrite !without_prop_absent by done.
  rewrite !List.filter_app, !filter_filter_same.
  destruct (filter_filter_negb (fun f : jsstring * jsvalue => is_index_key f.1) rest) as [-> ->].
  by rewrite app_nil_r.
Qed.

Lemma required_names_array l : Forall (fun v => match v with VStr _ => True | _ => False end) l ->
  omap string_item (Some <$> l) = l.
Proof. induction 1 as [|v l Hv Hl IH]; [done|]. destruct v; try done. rewrite fmap_cons. cbn. by f_equal. Qed.

Lemma required_names_strings schema :
  Forall (fun v => match v with VStr _ => True | _ => False end) (required_names schema).
Proof.
  unfold required_names. destruct (vget schema (js "required")); try constructor.
  induction items as [|[v|] items IH]; cbn; [constructor| |done]. destruct v; cbn; try done. by constructor.
Qed.

Lemma vget_plain props k : vget (plain_object props) k = default VUndefined (assoc k props).
Proof. unfold vget, property, plain_object. by destruct (assoc k props). Qed.

Lemma own_props_plain props : own_props (plain_object props) = props.
Proof. done. Qed.

Lemma required_names_require schema props :
  required_names (plain_object (require_intent (required_names schema) props)) = required_names schema ++ [VStr INTENT_FIELD].
Proof.
  unfold required_names at 1, require_intent. rewrite vget_plain, assoc_set_prop_eq. cbn [default from_option plain_array].
  unfold plain_array. apply required_names_array. apply Forall_app. split; [apply required_names_strings|by repeat constructor].
Qed.

Lemma existsb_names_intent l : existsb names_intent (l ++ [VStr INTENT_FIELD]) = true.
Proof. rewrite existsb_app. cbn. by rewrite bool_decide_true, orb_true_r. Qed.

Lemma properties_of_plain props t i p :
  assoc (js "properties") props = Some (VObject t i p) -> properties_of (plain_object props) = VObject t i p.
Proof. intros H. unfold properties_of. by rewrite vget_plain, H. Qed.

(** A schema with the field in its place, and required when it has to be, is left alone. *)
Lemma inject_fixpoint props x rest mode :
  assoc (js "properties") props = Some (plain_object (intent_first x rest)) ->
  assoc INTENT_FIELD rest = None ->
  (mode = IRequire -> existsb names_intent (required_names (plain_object props)) = true) ->
  injectIntentIntoSchema (plain_object props) mode = plain_object props.
Proof.
  intros Hp Hrest Hreq. destruct (intent_first_stable x rest Hrest) as [Hx Hstable].
  change (injectIntentIntoSchema (plain_object props) mode) with
    (injectIntentIntoSchema (VObject None [] props) mode).
  cbn [injectIntentIntoSchema]. change (VObject None [] props) with (plain_object props).
  rewrite (properties_of_plain _ _ _ _ Hp). change (VObject None [] ?p) with (plain_object p).
  assert (vin INTENT_FIELD (plain_object (intent_first x rest)) = true) as ->.
  { unfold vin, property, plain_object. rewrite Hx. by apply bool_decide_true. }
  assert ((bool_decide (mode = IRequire) && negb (existsb names_intent (required_names (plain_object props))))%bool
          = false) as ->.
  { case_bool_decide as Hm; [|done]. by rewrite Hreq. }
  rewrite vget_plain, Hx, own_props_plain. cbn [default from_option id]. rewrite Hstable, andb_true_r.
  rewrite (set_prop_same _ _ _ Hp). by destruct (bool_decide (fst <$> _ = _)).
Qed.

(** So is a schema whose field comes first. *)
Lemma inject_identity props mode :
  vin INTENT_FIELD (properties_of (plain_object props)) = true ->
  fst <$> head (own_props (properties_of (plain_object props))) = Some INTENT_FIELD ->
  (mode = IRequire -> existsb names_intent (required_names (plain_object props)) = true) ->
  injectIntentIntoSchema (plain_object props) mode = plain_object props.
Proof.
  intros Hin Hhead Hreq. unfold injectIntentIntoSchema, plain_object at 1.
  change (VObject None [] props) with (plain_object props). rewrite Hin, Hhead, bool_decide_true by done.
  case_bool_decide as Hm; [|done]. by rewrite Hreq.
Qed.

(** Injecting the intent field is idempotent. *)
Lemma inject_idempotent props mode :
  injectIntentIntoSchema (injectIntentIntoSchema (plain_object props) mode) mode
  = injectIntentIntoSchema (plain_object props) mode.
Proof.
  assert (js "properties" <> js "required" /\ js "required" <> js "properties") as [Hpr Hrp] by done.
  remember (injectIntentIntoSchema (plain_object props) mode) as result eqn:Hr.
  unfold injectIntentIntoSchema, plain_object at 1 in Hr.
  change (VObject None [] props) with (plain_object props) in Hr.
  set (properties := properties_of (plain_object props)) in *. set (required := required_names (plain_object props)) in *.
  destruct (vin INTENT_FIELD properties) eqn:Hin.
  - set (needsReorder := negb (bool_decide (fst <$> head (own_props properties) = Some INTENT_FIELD))) in *.
    assert (needsReorder = false -> fst <$> head (own_props properties) = Some INTENT_FIELD) as Hhead.
    { unfold needsReorder. intros H. by simpl_bool. }
    destruct (bool_decide (mode = IRequire) && negb (existsb names_intent required))%bool eqn:Hnr.
    + rewrite andb_false_r in Hr. simpl_bool. subst mode. destruct needsReorder; subst result.
      * eapply inject_fixpoint.
        { unfold require_intent. rewrite assoc_set_prop_ne by done. apply assoc_set_prop_eq. }
        { apply assoc_without_prop. }
        { intros _. unfold required. rewrite required_names_require. apply existsb_names_intent. }
      * assert (properties_of (plain_object (require_intent required props)) = properties) as Hsame.
        { unfold properties, properties_of, require_intent. by rewrite !vget_plain, assoc_set_prop_ne. }
        apply inject_identity; rewrite ?Hsame; auto.
        intros _. unfold required. rewrite required_names_require. apply existsb_names_intent.
    + assert (mode = IRequire -> existsb names_intent required = true) as Hreq.
      { intros ->. rewrite bool_decide_true in Hnr by done. cbn in Hnr. by simpl_bool. }
      rewrite andb_true_r in Hr. destruct needsReorder; cbn [negb] in Hr; subst result; [|by apply inject_identity; auto].
      eapply inject_fixpoint; [apply assoc_set_prop_eq|apply assoc_without_prop|]. intros Hm.
      unfold required_names. rewrite vget_plain, assoc_set_prop_ne, <- vget_plain by done. exact (Hreq Hm).
  - assert (assoc INTENT_FIELD (own_props properties) = None) as Hnone.
    { unfold vin in Hin. simpl_bool. apply eq_None_not_Some. intros [v Hv]. apply Hin.
      destruct properties; try done. cbn in *. by rewrite Hv. }
    destruct (bool_decide (mode = IRequire)) eqn:Hm; simpl_bool; subst result.
    + eapply inject_fixpoint; [|exact Hnone|].
      { unfold require_intent. rewrite assoc_set_prop_ne by done. apply assoc_set_prop_eq. }
      { intros _. unfold required. rewrite required_names_require. apply existsb_names_intent. }
    + eapply inject_fixpoint; [apply assoc_set_prop_eq|exact Hnone|by intros ->].
Qed.

(** ** Open schemas are written as [true] *)

(** The value of a key holds no empty object where a schema is expected. *)
Definition position_tidy (k : jsstring) (x : json) : bool :=
  if bool_decide (k ∈ SCHEMA_VALUE_KEYS) then negb (isEmptyObject x)
  else match x with
       | JObj fields =>
           negb (bool_decide (k ∈ SCHEMA_MAP_KEYS)) || forallb (fun f => negb (isEmptyObject f.2)) fields
       | JArr items => negb (bool_decide (k ∈ SCHEMA_ARRAY_KEYS)) || forallb (fun y => negb (isEmptyObject y)) items
       | _ => true
       end.

(** No empty object is left at a schema position, at any depth. *)
Fixpoint tidy (node : json) : bool :=
  match node with
  | JArr items => forallb tidy items
  | JObj fields =>
      (fix go fs := match fs with
                    | [] => true
                    | (k, x) :: rest => position_tidy k x && tidy x && go rest
                    end) fields
  | _ => true
  end.

Lemma tidy_obj fields : tidy (JObj fields) = forallb (fun f => position_tidy f.1 f.2 && tidy f.2) fields.
Proof. cbn [tidy]. induction fields as [|[k x] fields IH]; [done|]. cbn [forallb fst snd]. by rewrite IH. Qed.

Lemma normalize_obj fields :
  normalizeEmptySchemas (JObj fields)
  = JObj ((fun f => (f.1, fill_empty f.1 (normalizeEmptySchemas f.2))) <$> fields).
Proof. cbn [normalizeEmptySchemas]. f_equal. induction fields as [|[k x] fields IH]; [done|]. rewrite fmap_cons. by f_equal. Qed.

Lemma true_if_empty_tidy x : isEmptyObject (true_if_empty x) = false /\ (tidy x = true -> tidy (true_if_empty x) = true).
Proof. unfold true_if_empty. by destruct x as [| | | | |[|]]. Qed.

Lemma position_tidy_true_if_empty k x : position_tidy k x = true -> position_tidy k (true_if_empty x) = true.
Proof.
  unfold true_if_empty. destruct (isEmptyObject x); [|done]. unfold position_tidy.
  by destruct (bool_decide (k ∈ SCHEMA_VALUE_KEYS)).
Qed.

Lemma fill_empty_tidy k x : tidy x = true -> position_tidy k (fill_empty k x) && tidy (fill_empty k x) = true.
Proof.
  intros Hx. unfold fill_empty, position_tidy. destruct (bool_decide (k ∈ SCHEMA_VALUE_KEYS)) eqn:Hv.
  { destruct (true_if_empty_tidy x) as [-> ->]; done. }
  destruct x as [| | | |items|fields]; try done.
  - destruct (bool_decide (k ∈ SCHEMA_ARRAY_KEYS)); [|done]. cbn [negb orb]. apply andb_true_intro.
    cbn [tidy] in *. rewrite !forallb_forall in *. setoid_rewrite in_map_iff.
    split; intros y (x & <- & Hin); destruct (true_if_empty_tidy x) as [He Ht]; [by rewrite He|auto].
  - destruct (bool_decide (k ∈ SCHEMA_MAP_KEYS)); [|done]. cbn [negb orb]. apply andb_true_intro.
    rewrite tidy_obj in *. rewrite !forallb_forall in *. setoid_rewrite in_map_iff.
    split; intros y ([k' x] & <- & Hin); destruct (true_if_empty_tidy x) as [He Ht]; cbn [prod_map fst snd id].
    + by rewrite He.
    + apply Hx in Hin. cbn [fst snd] in Hin. simpl_bool. by rewrite position_tidy_true_if_empty, Ht.
Qed.

Lemma fill_empty_done k x : position_tidy k x = true -> fill_empty k x = x.
Proof.
  unfold fill_empty, position_tidy. destruct (bool_decide (k ∈ SCHEMA_VALUE_KEYS)).
  { unfold true_if_empty. by intros ->%negb_true_iff. }
  destruct x as [| | | |items|fields]; try done.
  - destruct (bool_decide (k ∈ SCHEMA_ARRAY_KEYS)); [|done]. cbn [negb orb]. intros H. f_equal.
    induction items as [|y items IH]; [done|]. cbn in H. simpl_bool. rewrite fmap_cons, IH by done.
    unfold true_if_empty. by rewrite H.
  - destruct (bool_decide (k ∈ SCHEMA_MAP_KEYS)); [|done]. cbn [negb orb]. intros H. f_equal.
    induction fields as [|[k' y] fields IH]; [done|]. cbn in H. simpl_bool. rewrite fmap_cons, IH by done.
    cbn. unfold true_if_empty. by rewrite H.
Qed.

Lemma normalize_tidy j : tidy (normalizeEmptySchemas j) = true.
Proof.
  induction j as [|b|n|s|items IH|fields IH] using json_nested_ind; try done.
  - cbn [normalizeEmptySchemas tidy]. apply forallb_forall. intros y. setoid_rewrite in_map_iff.
    intros (x & <- & Hin%list_elem_of_In). exact (proj1 (Forall_forall _ _) IH x Hin).
  - rewrite normalize_obj, tidy_obj. apply forallb_forall. intros y. setoid_rewrite in_map_iff.
    intros ([k x] & <- & Hin%list_elem_of_In). cbn [fst snd]. apply fill_empty_tidy.
    exact (proj1 (Forall_forall _ _) IH _ Hin).
Qed.

Lemma normalize_of_tidy j : tidy j = true -> normalizeEmptySchemas j = j.
Proof.
  induction j as [|b|n|s|items IH|fields IH] using json_nested_ind; try done.
  - cbn [normalizeEmptySchemas tidy]. intros H. f_equal. induction IH as [|x items Hx IH IHi]; [done|].
    cbn [forallb] in H. simpl_bool. rewrite fmap_cons, Hx, IHi by done. done.
  - rewrite normalize_obj, tidy_obj. intros H. f_equal. induction IH as [|[k x] fields Hx IH IHf]; [done|].
    cbn [forallb fst snd] in *. simpl_bool. rewrite fmap_cons, IHf by done. cbn [fst snd].
    by rewrite Hx, fill_empty_done.
Qed.

(** A schema that is sent has no empty object at a schema position, and tidying it again
    changes nothing. *)
Theorem wire_schema_tidy (toJSONSchema : jsvalue -> json) schema :
  exists j, zodToWireSchema toJSONSchema schema = of_json j /\ tidy j = true /\ normalizeEmptySchemas j = j.
Proof.
  eexists. split; [reflexivity|]. split; [apply normalize_tidy|]. apply normalize_of_tidy, normalize_tidy.
Qed.

(** The positions are recognised by key alone: a value that is data, such as a default, is
    rewritten as well. *)
Example default_value_rewritten :
  normalizeEmptySchemas (JObj [(js "type", JStr (js "object")); (js "default", JObj [(js "items", JObj [])])])
  = JObj [(js "type", JStr (js "object")); (js "default", JObj [(js "items", JBool true)])].
Proof. vm_compute. reflexivity. Qed.
