(* ===== verification/StablePrefix.v ===== *)
(** * The stable prefix of a request (agent/src/append-only-context.ts)

    The system prompt and the tools are snapshotted once and sent again, byte for byte,
    until a fingerprint of the live state changes.  Arrays of the live context carry an
    identity, because the prefix compares them by reference first. *)

From S2P Require Import Prelude JsText Json JsValue WireSchema.

(** ** 32-bit arithmetic and the hash *)

(** [z | 0] *)
Definition to_int32 (z : Z) : Z :=
  let m := (z mod 2 ^ 32)%Z in if (m <? 2 ^ 31)%Z then m else (m - 2 ^ 32)%Z.

(** [z >>> 0] *)
Definition to_uint32 (z : Z) : Z := (z mod 2 ^ 32)%Z.

(** [((hash << 5) - hash + code) | 0] *)
Definition hash_step (hash : Z) (code : N) : Z :=
  to_int32 (to_int32 (Z.shiftl hash 5) - hash + Z.of_N code).

Definition hash_loop (value : jsstring) : Z := fold_left hash_step value 0%Z.

Definition hashString32 (value : jsstring) : Z := to_uint32 (hash_loop value).

(** [n.toString(36)] *)
Definition digit36 (d : N) : N := if (d <? 10)%N then (48 + d)%N else (87 + d)%N.

Fixpoint base36_digits (fuel : nat) (n : N) (acc : jsstring) : jsstring :=
  match fuel with
  | O => acc
  | S f => let acc' := digit36 (n mod 36) :: acc in
           if (n <? 36)%N then acc' else base36_digits f (n / 36) acc'
  end.

Definition to_string36 (n : Z) : jsstring := base36_digits (S (N.size_nat (Z.to_N n))) (Z.to_N n) [].

(** ** Data *)

Record StablePrefixSnapshot := mkSnapshot {
  sn_systemPrompt : list jsstring;
  sn_tools : list jsvalue;
  sn_fingerprint : jsstring
}.

Record BuildOptions := mkBuildOptions { bo_intentTracing : bool }.

(** The parts of the live context that are read; [tools] may be undefined. *)
Record AgentContext := mkContext {
  ac_systemPrompt : nat * list jsstring;
  ac_tools : option (nat * list jsvalue)
}.

(** The source fields are [None] where the code has null. *)
Record StablePrefix := mkPrefix {
  sp_snapshot : option StablePrefixSnapshot;
  sp_version : nat;
  sp_sourceSystemPrompt : option nat;
  sp_sourceTools : option (option nat);
  sp_sourceIntentTracing : option bool
}.

Inductive context_error :=
| EJson (e : json_error)
| EFingerprintMismatch (expected received : jsstring)
| ENotBuilt
| ELogNotEmpty.

Definition new_prefix : StablePrefix := mkPrefix None 0 None None None.

Definition json_result {A} (r : result json_error A) : result context_error A :=
  match r with Ok a => Ok a | Err e => Err (EJson e) end.

Section prefix.
(** The library's schema conversion, and whether the environment turns intents off. *)
Context (toJSONSchema : jsvalue -> json) (noIntent : bool).

Definition tool_payload (t : jsvalue) : jsvalue :=
  plain_object [(js "n", vget t (js "name")); (js "d", vget t (js "description"));
                (js "p", vget t (js "parameters")); (js "s", vget t (js "strict"));
                (js "cf", vget t (js "customFormat")); (js "cw", vget t (js "customWireName"))].

Definition payload (systemPrompt : list jsstring) (tools : list jsvalue) (options : BuildOptions) : jsvalue :=
  plain_object [(js "s", plain_array (VStr <$> systemPrompt)); (js "t", plain_array (tool_payload <$> tools));
                (js "i", VBool (bo_intentTracing options))].

(** The text that is hashed. *)
Definition payload_text (systemPrompt : list jsstring) (tools : list jsvalue) (options : BuildOptions) :
    result context_error jsstring :=
  let! text := json_result (stringify (payload systemPrompt tools options)) in Ok (default [] text).

Definition computeFingerprint (systemPrompt : list jsstring) (tools : list jsvalue) (options : BuildOptions) :
    result context_error jsstring :=
  let! text := payload_text systemPrompt tools options in Ok (to_string36 (to_uint32 (hash_loop text))).

(** ** Operations *)

Definition live_tools (context : AgentContext) (options : BuildOptions) : list jsvalue :=
  default [] (normalizeTools toJSONSchema noIntent (snd <$> ac_tools context) (bo_intentTracing options)).

Definition takeSnapshot (context : AgentContext) (options : BuildOptions) : result context_error StablePrefixSnapshot :=
  let systemPrompt := (ac_systemPrompt context).2 in
  let tools := live_tools context options in
  let! fingerprint := computeFingerprint systemPrompt tools options in
  Ok (mkSnapshot systemPrompt tools fingerprint).

Definition normalizeImportedTools (tools : list jsvalue) (options : BuildOptions) : list jsvalue :=
  let clonedTools := cloneJson <$> tools in
  let normalizedTools := default [] (normalizeTools toJSONSchema noIntent (Some clonedTools) (bo_intentTracing options)) in
  cloneJson <$> normalizedTools.

Definition fingerprint (p : StablePrefix) : jsstring :=
  match sp_snapshot p with Some s => sn_fingerprint s | None => js "<unbuilt>" end.

Definition built (p : StablePrefix) : bool := bool_decide (is_Some (sn_fingerprint <$> sp_snapshot p)).

Definition exportSnapshot (p : StablePrefix) : option StablePrefixSnapshot :=
  (fun s => mkSnapshot (sn_systemPrompt s) (cloneJson <$> sn_tools s) (sn_fingerprint s)) <$> sp_snapshot p.

(** The prefix after the call is returned also when it throws: the sources are forgotten
    before the fingerprints are compared. *)
Definition importSnapshot (snapshot : StablePrefixSnapshot) (options : BuildOptions) (p : StablePrefix) :
    result context_error unit * StablePrefix :=
  let systemPrompt := sn_systemPrompt snapshot in
  let tools := normalizeImportedTools (sn_tools snapshot) options in
  match computeFingerprint systemPrompt tools options with
  | Err e => (Err e, p)
  | Ok f =>
      let p := mkPrefix (sp_snapshot p) (sp_version p) None None None in
      if bool_decide (f = sn_fingerprint snapshot)
      then (Ok (), mkPrefix (Some (mkSnapshot systemPrompt tools f)) (S (sp_version p)) None None None)
      else (Err (EFingerprintMismatch f (sn_fingerprint snapshot)), p)
  end.

Definition same_sources (context : AgentContext) (options : BuildOptions) (p : StablePrefix) : bool :=
  bool_decide (sp_sourceSystemPrompt p = Some (ac_systemPrompt context).1)
  && bool_decide (sp_sourceTools p = Some (fst <$> ac_tools context))
  && bool_decide (sp_sourceIntentTracing p = Some (bo_intentTracing options)).

Definition with_sources (context : AgentContext) (options : BuildOptions) (snapshot : option StablePrefixSnapshot)
    (version : nat) : StablePrefix :=
  mkPrefix snapshot version (Some (ac_systemPrompt context).1) (Some (fst <$> ac_tools context))
    (Some (bo_intentTracing options)).

(** The first comparison of [build]: the sources are the same objects and their
    fingerprint has not changed. *)
Definition unchanged_sources (context : AgentContext) (options : BuildOptions) (p : StablePrefix) :
    result context_error bool :=
  match sp_snapshot p with
  | Some s =>
      if same_sources context options p then
        let! source := takeSnapshot context options in Ok (bool_decide (sn_fingerprint s = sn_fingerprint source))
      else Ok false
  | None => Ok false
  end.

Definition build (context : AgentContext) (options : BuildOptions) (p : StablePrefix) :
    result context_error (bool * StablePrefix) :=
  let! unchanged := unchanged_sources context options p in
  if unchanged : bool then Ok (false, p)
  else
    let! snapshot := takeSnapshot context options in
    let same := match sp_snapshot p with
                | Some s => bool_decide (sn_fingerprint s = sn_fingerprint snapshot)
                | None => false
                end in
    if same : bool then Ok (false, with_sources context options (sp_snapshot p) (sp_version p))
    else Ok (true, with_sources context options (Some snapshot) (S (sp_version p))).

Definition invalidate (p : StablePrefix) : StablePrefix := mkPrefix None (sp_version p) None None None.

Definition toContext (p : StablePrefix) : result context_error (list jsstring * list jsvalue) :=
  match sp_snapshot p with
  | None => Err ENotBuilt
  | Some s => Ok (sn_systemPrompt s, cloneJson <$> sn_tools s)
  end.
End prefix.
