(* ===== verification/StablePrefixFacts.v ===== *)
(** * The stable prefix is current, and a fork can take it over

    The hash is a polynomial modulo 2^32; a build keeps the old snapshot only when the
    hashed texts have the same hash; a snapshot exported from one prefix is accepted by
    another, unless a tool's intent does not survive the copy. *)

From S2P Require Import Prelude JsText Json JsValue WireSchema StablePrefix.

(** ** The hash *)

(** The polynomial whose coefficients are the code units, at 31. *)
Definition polynomial (value : jsstring) : Z := fold_left (fun h c => 31 * h + Z.of_N c)%Z value 0%Z.

Lemma to_int32_mod z : (to_int32 z mod 2 ^ 32 = z mod 2 ^ 32)%Z.
Proof.
  unfold to_int32. case_match; [by rewrite Z.mod_mod|].
  replace (z mod 2 ^ 32 - 2 ^ 32)%Z with (z mod 2 ^ 32 + (-1) * 2 ^ 32)%Z by lia.
  by rewrite Z.mod_add, Z.mod_mod.
Qed.

Lemma hash_step_mod h c : (hash_step h c mod 2 ^ 32 = (31 * h + Z.of_N c) mod 2 ^ 32)%Z.
Proof.
  unfold hash_step. rewrite to_int32_mod, Z.shiftl_mul_pow2 by lia.
  rewrite <- Z.add_mod_idemp_l, <- Zminus_mod_idemp_l, to_int32_mod, Zminus_mod_idemp_l, Z.add_mod_idemp_l by lia.
  f_equal. lia.
Qed.

Lemma hash_loop_mod value : (hash_loop value mod 2 ^ 32 = polynomial value mod 2 ^ 32)%Z.
Proof.
  unfold hash_loop, polynomial. cut (forall a b, (a mod 2 ^ 32 = b mod 2 ^ 32)%Z ->
    (fold_left hash_step value a mod 2 ^ 32 = fold_left (fun h c => 31 * h + Z.of_N c) value b mod 2 ^ 32)%Z).
  { intros H. by apply H. }
  induction value as [|c value IH]; intros a b Hab; cbn [fold_left]; [done|]. apply IH.
  rewrite hash_step_mod, <- Z.add_mod_idemp_l, <- Z.mul_mod_idemp_r, Hab by lia.
  by rewrite Z.mul_mod_idemp_r, Z.add_mod_idemp_l by lia.
Qed.

(** Every intermediate value is a 32-bit integer: nothing is lost between the steps. *)
Lemma hash_step_range h c : (- 2 ^ 31 <= hash_step h c < 2 ^ 31)%Z.
Proof.
  unfold hash_step, to_int32. set (z := (_ - _ + _)%Z). pose proof (Z.mod_pos_bound z (2 ^ 32) ltac:(lia)).
  case_match; simpl_bool; lia.
Qed.

Lemma hashString32_polynomial value : hashString32 value = (polynomial value mod 2 ^ 32)%Z.
Proof. apply hash_loop_mod. Qed.

(** The number written in base 36 can be read off its digits. *)
Definition undigit36 (c : N) : N := if (c <? 97)%N then (c - 48)%N else (c - 87)%N.
Definition value36 (s : jsstring) : N := fold_left (fun v c => 36 * v + undigit36 c)%N s 0%N.

Lemma base36_app fuel n acc : base36_digits fuel n acc = base36_digits fuel n [] ++ acc.
Proof.
  revert n acc. induction fuel as [|f IH]; intros n acc; cbn [base36_digits]; [done|].
  case_match; [done|]. rewrite IH, (IH _ [_]), <- (assoc_L app). done.
Qed.

Lemma undigit_digit d : (d < 36)%N -> undigit36 (digit36 d) = d.
Proof.
  intros Hd. unfold undigit36, digit36. destruct (N.ltb_spec d 10).
  - rewrite (proj2 (N.ltb_lt (48 + d) 97)) by lia. lia.
  - rewrite (proj2 (N.ltb_ge (87 + d) 97)) by lia. lia.
Qed.

Lemma base36_value fuel n : (N.size_nat n < fuel)%nat -> value36 (base36_digits fuel n []) = n.
Proof.
  revert n. induction fuel as [|f IH]; intros n Hf; [lia|]. cbn [base36_digits].
  pose proof (N.mod_lt n 36 ltac:(lia)). destruct (N.ltb_spec n 36) as [E|E].
  - unfold value36. cbn [fold_left]. rewrite undigit_digit, N.mod_small by done. lia.
  - rewrite base36_app. unfold value36. rewrite fold_left_app. fold (value36 (base36_digits f (n / 36) [])).
    cbn [fold_left]. rewrite IH by (pose proof (size_nat_div 36 n ltac:(lia) E); lia).
    rewrite undigit_digit by done. symmetry. by apply N.div_mod.
Qed.

Lemma to_string36_inj a b : (0 <= a)%Z -> (0 <= b)%Z -> to_string36 a = to_string36 b -> a = b.
Proof.
  unfold to_string36. intros Ha Hb E. apply (f_equal value36) in E. rewrite !base36_value in E by lia. lia.
Qed.

(** Two texts whose hashes collide. *)
Definition collide (t t' : jsstring) : Prop := t <> t' /\ hashString32 t = hashString32 t'.

Section facts.
Context (toJSONSchema : jsvalue -> json) (noIntent : bool).
#[local] Abbreviation build := (build toJSONSchema noIntent).
#[local] Abbreviation takeSnapshot := (takeSnapshot toJSONSchema noIntent).
#[local] Abbreviation importSnapshot := (importSnapshot toJSONSchema noIntent).
#[local] Abbreviation live_tools := (live_tools toJSONSchema noIntent).

(** The snapshot's fingerprint is the one of its own content. *)
Definition prefix_ok (p : StablePrefix) : Prop :=
  match sp_snapshot p with
  | Some s => exists i, computeFingerprint (sn_systemPrompt s) (sn_tools s) i = Ok (sn_fingerprint s)
  | None => True
  end.

(** A build in one comparison: the sources only save work. *)
Lemma build_eq context options p :
  build context options p
  = let! snapshot := takeSnapshot context options in
    if match sp_snapshot p with Some s => bool_decide (sn_fingerprint s = sn_fingerprint snapshot) | None => false end
    then Ok (false, with_sources context options (sp_snapshot p) (sp_version p))
    else Ok (true, with_sources context options (Some snapshot) (S (sp_version p))).
Proof.
  unfold StablePrefix.build, unchanged_sources. destruct (sp_snapshot p) as [s|] eqn:Hs; [|done].
  destruct (same_sources context options p) eqn:Hsame; [|done].
  destruct (takeSnapshot context options) as [sn|e]; [|done].
  case_bool_decide; [|done]. unfold same_sources in Hsame. simpl_bool. destruct p; simpl in *. by subst.
Qed.

Lemma computeFingerprint_text sp tools o f :
  computeFingerprint sp tools o = Ok f <->
  exists text, payload_text sp tools o = Ok text /\ f = to_string36 (hashString32 text).
Proof.
  unfold computeFingerprint. destruct (payload_text sp tools o) as [text|e]; split.
  - intros [= <-]. by exists text.
  - intros (? & [= <-] & ->). done.
  - done.
  - by intros (? & ? & ?).
Qed.

Lemma same_fingerprint_hash t t' : to_string36 (hashString32 t) = to_string36 (hashString32 t') ->
  t = t' \/ collide t t'.
Proof.
  intros E. apply to_string36_inj in E; [|by apply Z.mod_pos_bound..].
  destruct (decide (t = t')); [by left|by right].
Qed.

(** Building keeps the prefix current: it throws exactly when the live state cannot be
    written as JSON; it reports a change exactly when the fingerprint is a new one, and
    then the snapshot is the live state and the version goes up; otherwise the snapshot
    and the version stay, and the text of what the snapshot holds is the text of the live
    state, or the two texts collide in the 32-bit hash.  What is sent is a copy of the
    snapshot. *)
Theorem prefix_current context options p :
  prefix_ok p ->
  let live := payload_text (ac_systemPrompt context).2 (live_tools context options) options in
  match build context options p with
  | Err e => live = Err e
  | Ok (changed, p') =>
      prefix_ok p'
      /\ exists text sn, live = Ok text /\ sp_snapshot p' = Some sn
      /\ toContext p' = Ok (sn_systemPrompt sn, cloneJson <$> sn_tools sn)
      /\ sn_fingerprint sn = to_string36 (polynomial text mod 2 ^ 32)
      /\ (changed = negb (bool_decide (sn_fingerprint <$> sp_snapshot p = Some (sn_fingerprint sn))))
      /\ (if changed
          then sn_systemPrompt sn = (ac_systemPrompt context).2 /\ sn_tools sn = live_tools context options
               /\ sp_version p' = S (sp_version p)
          else sp_snapshot p = Some sn /\ sp_version p' = sp_version p
               /\ exists i text', payload_text (sn_systemPrompt sn) (sn_tools sn) i = Ok text'
                    /\ (text' = text \/ collide text' text))
  end.
Proof.
  intros Hok live. rewrite build_eq. unfold StablePrefix.takeSnapshot. cbv zeta. fold (live_tools context options).
  destruct (computeFingerprint _ _ _) as [f|e] eqn:Hf; cycle 1.
  { unfold computeFingerprint in Hf. fold live in Hf. by destruct live; simplify_eq. }
  pose proof Hf as Hf0. apply computeFingerprint_text in Hf as (text & Htext & Hfp). fold live in Htext.
  destruct (sp_snapshot p) as [s|] eqn:Hs; cbn [sn_fingerprint].
  - unfold prefix_ok in Hok. rewrite Hs in Hok. destruct Hok as [i Hi]. pose proof Hi as Hi0.
    apply computeFingerprint_text in Hi as (text' & Htext' & Hfp').
    case_bool_decide as Hsame.
    + split; [by exists i|]. exists text, s. rewrite <- hashString32_polynomial.
      split_and!; [done|done|done|congruence|by rewrite bool_decide_true|done|done|].
      exists i, text'. split; [done|]. apply same_fingerprint_hash. congruence.
    + split; [by exists options|]. eexists text, _. rewrite <- hashString32_polynomial.
      split_and!; [done|reflexivity|done|done| |done..].
      cbn [sn_fingerprint fmap option_fmap option_map]. by rewrite bool_decide_false by congruence.
  - split; [by exists options|]. eexists text, _. rewrite <- hashString32_polynomial.
    split_and!; [done|reflexivity|done|done|done|done..].
Qed.

(** ** Taking a prefix over *)

Definition FIELDS : list jsstring :=
  js <$> ["name"; "description"; "parameters"; "strict"; "customFormat"; "customWireName"]%string.

(** The data of an object, property by property. *)
Lemma object_data props b : cloneable (plain_object props) [] b = true -> NoDup props.*1 ->
  exists fs, json_data (plain_object props) [] b = Ok (Some (JObj fs))
    /\ cloneJsonValue (plain_object props) [] b = of_json (JObj fs) /\ no_proto (JObj fs) = true
    /\ forall k, Ok (lookup_field k fs) = json_data (default VUndefined (assoc k props)) k true.
Proof.
  intros Hc Hnd. destruct (cloneJsonValue_ok _ _ _ Hc) as (d & Hd & Hcl & Hnp). rewrite Hd, Hcl.
  unfold plain_object in Hd. cbn [json_data] in Hd.
  match type of Hd with context [let! _ := ?go props in _] => set (write := go) in * end.
  destruct (write props) as [fs|e] eqn:Hw; [|done]. injection Hd as <-. exists fs.
  split; [done|]. split; [done|]. split; [done|]. clear Hc Hcl Hnp.
  revert fs Hw. induction props as [|[k0 v0] props IH]; intros fs Hw k; cbn [write] in Hw.
  { by injection Hw as <-. }
  rewrite fmap_cons in Hnd. apply NoDup_cons in Hnd as [Hk0 Hnd]. cbn [fst] in Hk0.
  destruct (json_data v0 k0 true) as [d|] eqn:Hd; [|done].
  fold write in Hw. destruct (write props) as [ds|] eqn:Hds; [|done]. injection Hw as <-.
  specialize (IH Hnd ds eq_refl). cbn [assoc].
  assert (assoc k0 props = None) as Hnone.
  { clear -Hk0. induction props as [|[k1 v1] props IH]; [done|]. rewrite fmap_cons in Hk0.
    apply not_elem_of_cons in Hk0 as [Hne Hk0]. cbn [assoc]. rewrite bool_decide_false by (intros <-; done). auto. }
  destruct (decide (k0 = k)) as [->|Hne].
  - rewrite bool_decide_true by done. cbn [default from_option id]. rewrite Hd.
    destruct d as [d|]; cbn [lookup_field]; [by rewrite bool_decide_true|].
    specialize (IH k). rewrite Hnone in IH. exact IH.
  - rewrite bool_decide_false by done. rewrite <- IH. destruct d; cbn [lookup_field]; [|done].
    by rewrite bool_decide_false.
Qed.

Lemma assoc_of_json k fs : assoc k (prod_map id of_json <$> fs) = of_json <$> lookup_field k fs.
Proof.
  induction fs as [|[k' x] fs IH]; [done|]. rewrite fmap_cons. cbn [prod_map fst snd id assoc lookup_field].
  by destruct (bool_decide (k' = k)).
Qed.

Lemma vget_of_json k fs : vget (of_json (JObj fs)) k = value_of (lookup_field k fs).
Proof. rewrite of_json_obj, vget_plain, assoc_of_json. by destruct (lookup_field k fs). Qed.

Lemma of_json_not_zod j : isZodSchema (of_json j) = false.
Proof.
  unfold isZodSchema. destruct j; try done. rewrite !vget_of_json.
  destruct (lookup_field (js "parse") _) as [[]|]; by rewrite andb_false_r.
Qed.

Lemma clone_of_json j : no_proto j = true -> cloneJson (of_json j) = of_json j.
Proof.
  intros Hn. destruct (cloneJsonValue_ok _ [] true (cloneable_of_json j [] true Hn)) as (d & Hd & Hc & _).
  rewrite json_data_of_json in Hd. injection Hd as <-. exact Hc.
Qed.

(** Plain data, and that injecting an intent into it leaves plain data. *)
Definition is_data (v : jsvalue) : Prop := exists j, v = of_json j.

Lemma data_object props : Forall (fun f => is_data f.2) props -> exists fs, plain_object props = of_json (JObj fs).
Proof.
  intros H. cut (exists fs, props = prod_map id of_json <$> fs).
  { intros [fs ->]. exists fs. by rewrite of_json_obj. }
  induction H as [|[k v] props [j Hj] H [fs ->]]; [by exists []|]. exists ((k, j) :: fs). cbn in Hj. by subst v.
Qed.

Lemma data_array items : Forall is_data items -> is_data (plain_array items).
Proof.
  intros H. cut (exists js, items = of_json <$> js); [intros [js ->]; by exists (JArr js)|].
  induction H as [|v items [j ->] H [js ->]]; [by exists []|]. by exists (j :: js).
Qed.

Lemma data_props (fs : list (jsstring * json)) : Forall (fun f => is_data f.2) (prod_map id of_json <$> fs).
Proof. apply Forall_fmap, Forall_true. intros [k j]. by exists j. Qed.

Lemma data_set_prop k v props :
  is_data v -> Forall (fun f => is_data f.2) props -> Forall (fun f => is_data f.2) (set_prop k v props).
Proof.
  intros Hv. induction 1 as [|[k' v'] props H' H IH]; cbn [set_prop]; [by constructor|].
  destruct (bool_decide (k' = k)); by constructor.
Qed.

Lemma data_intent_first v props :
  is_data v -> Forall (fun f => is_data f.2) props -> Forall (fun f => is_data f.2) (intent_first v props).
Proof. intros Hv H. unfold intent_first. apply Forall_app. split; [|constructor; [done|]]; by apply Forall_bfilter. Qed.

Lemma data_require required props : Forall is_data required ->
  Forall (fun f => is_data f.2) props -> Forall (fun f => is_data f.2) (require_intent required props).
Proof.
  intros Hr. apply data_set_prop, data_array, Forall_app. split; [done|]. constructor; [|constructor].
  by exists (JStr INTENT_FIELD).
Qed.

Lemma inject_data v mode : is_data v -> is_data (injectIntentIntoSchema v mode).
Proof.
  intros [j ->]. destruct j as [| | | | |fs]; try (by eexists).
  assert (exists ps, properties_of (of_json (JObj fs)) = of_json (JObj ps)) as [ps Hps].
  { unfold properties_of. rewrite vget_of_json. destruct (lookup_field _ fs) as [[]|]; (by eexists) || by exists []. }
  assert (Forall is_data (required_names (of_json (JObj fs)))) as Hreq.
  { eapply Forall_impl; [apply required_names_strings|]. intros [| | | |s| | | | |]; try done. by exists (JStr s). }
  assert (is_data (plain_object [(js "type", VStr (js "string"))])) as Hstr by by eexists (JObj [(js "type", JStr _)]).
  rewrite of_json_obj in *. unfold plain_object at 1. cbn [injectIntentIntoSchema].
  change (VObject None [] (prod_map id of_json <$> fs)) with (plain_object (prod_map id of_json <$> fs)).
  rewrite Hps. set (required := required_names _) in *. set (props := prod_map id of_json <$> fs).
  assert (Forall (fun f => is_data f.2) props) as Hprops by apply data_props.
  assert (Forall (fun f => is_data f.2) (own_props (of_json (JObj ps)))) as Hown.
  { rewrite of_json_obj. apply data_props. }
  assert (Hobj : forall l, Forall (fun f => is_data f.2) l -> is_data (plain_object l)).
  { intros l [l' Hl]%data_object. by eexists. }
  destruct (vin INTENT_FIELD (of_json (JObj ps))) eqn:Hin.
  - assert (is_data (vget (of_json (JObj ps)) INTENT_FIELD)) as Hi.
    { rewrite vget_of_json. unfold vin in Hin. simpl_bool. unfold is_Some, property in Hin. 
      rewrite of_json_obj in Hin. cbn in Hin. rewrite assoc_of_json in Hin.
      destruct (lookup_field INTENT_FIELD ps); [by eexists|]. by destruct Hin. }
    assert (Forall (fun f => is_data f.2) (without_prop INTENT_FIELD (own_props (of_json (JObj ps))))) as Hw
      by by apply Forall_bfilter.
    repeat case_match; auto 10 using data_set_prop, data_intent_first, data_require.
  - case_match; auto 10 using data_set_prop, data_intent_first, data_require.
Qed.

(** ** Values that are written alike *)

Definition data_eq (v w : jsvalue) : Prop := forall key, json_data v key true = json_data w key true.

Lemma data_eq_array vs ws : Forall2 data_eq vs ws -> data_eq (plain_array vs) (plain_array ws).
Proof.
  intros H key. unfold plain_array. cbn [json_data]. generalize 0%nat as i.
  cut (forall i, (fix go i items := match items with
        | [] => Ok []
        | item :: rest =>
            let! d := match item with Some v => json_data v (index_key i) true | None => Ok None end in
            let! ds := go (S i) rest in
            Ok (default JNull d :: ds)
        end) i (Some <$> vs)
      = (fix go i items := match items with
        | [] => Ok []
        | item :: rest =>
            let! d := match item with Some v => json_data v (index_key i) true | None => Ok None end in
            let! ds := go (S i) rest in
            Ok (default JNull d :: ds)
        end) i (Some <$> ws)).
  { intros Hgo i. by rewrite Hgo. }
  induction H as [|v w vs ws Hv H IH]; intros i; [done|]. rewrite !fmap_cons, Hv. by rewrite IH.
Qed.

Lemma data_eq_object ps qs :
  Forall2 (fun p q => p.1 = q.1 /\ data_eq p.2 q.2) ps qs -> data_eq (plain_object ps) (plain_object qs).
Proof.
  intros H key. unfold plain_object. cbn [json_data].
  match goal with |- (let! _ := ?go ps in _) = _ => set (write := go) end.
  enough (write ps = write qs) as -> by done.
  induction H as [|[k v] [k' w] ps qs [Hk Hv] H IH]; [done|]. cbn in Hk, Hv. subst k'.
  cbn [write]. rewrite Hv. fold write. by rewrite IH.
Qed.

Lemma payload_text_eq sp tools tools' o :
  Forall2 (fun t t' => forall k, k ∈ FIELDS -> data_eq (vget t k) (vget t' k)) tools tools' ->
  payload_text sp tools o = payload_text sp tools' o.
Proof.
  intros H. unfold payload_text, stringify. enough (data_eq (payload sp tools o) (payload sp tools' o)) as E by by rewrite E.
  apply data_eq_object. constructor; [done|]. constructor; [split; [done|]|by repeat constructor].
  apply data_eq_array. apply Forall2_fmap. eapply Forall2_impl; [exact H|]. intros t t' Ht.
  apply data_eq_object. repeat (constructor; [split; [done|]; apply Ht; by apply (bool_decide_unpack _); vm_compute|]). constructor.
Qed.

(** ** What a fork needs of a tool *)

Lemma set_prop_keys k v props :
  (set_prop k v props).*1 = if bool_decide (k ∈ props.*1) then props.*1 else props.*1 ++ [k].
Proof.
  induction props as [|[k1 v1] props IH]; cbn [set_prop]; [by rewrite bool_decide_false by apply not_elem_of_nil|].
  rewrite !fmap_cons. cbn [fst]. destruct (bool_decide (k1 = k)) eqn:E; simpl_bool.
  - subst. rewrite fmap_cons, bool_decide_true by left. done.
  - rewrite fmap_cons, IH. cbn [fst].
    rewrite (bool_decide_ext (k ∈ k1 :: props.*1) (k ∈ props.*1)) by (rewrite elem_of_cons; naive_solver).
    by case_bool_decide.
Qed.

Lemma set_prop_NoDup k v props : NoDup props.*1 -> NoDup (set_prop k v props).*1.
Proof.
  intros H. rewrite set_prop_keys. case_bool_decide; [done|]. apply NoDup_app. split_and!; [done| |apply NoDup_singleton].
  intros k' Hk' ->%list_elem_of_singleton. done.
Qed.

Definition injecting (o : BuildOptions) : bool := bo_intentTracing o && negb noIntent.

Definition normalized (o : BuildOptions) (t : jsvalue) : jsvalue :=
  normalizeTool toJSONSchema noIntent (bo_intentTracing o) t.

(** A tool whose snapshot can be taken over: its properties have distinct names and can be
    copied, the fields that are sent do not depend on where they are written, the
    description is a text and the parameters are something; and where intents are
    injected, the intent is absent or an own property that holds a text, and the parameters
    are a library schema or plain data. *)
Record forkable (o : BuildOptions) (t : jsvalue) : Prop := mkForkable {
  fk_keys : NoDup (own_props t).*1;
  fk_cloneable : cloneable (normalized o t) [] true = true;
  fk_steady : forall k, k ∈ FIELDS -> forall key,
    json_data (vget (normalized o t) k) key true = json_data (vget (normalized o t) k) k true;
  fk_description : match vget t (js "description") with VStr _ | VUndefined | VNull => True | _ => False end;
  fk_parameters : json_data (vget (normalized o t) (js "parameters")) (js "parameters") true <> Ok None;
  fk_intent : injecting o = true ->
    property t (js "intent") = None \/ exists s, assoc (js "intent") (own_props t) = Some (VStr s);
  fk_schema : injecting o = true -> resolveIntentMode (vget t (js "intent")) <> IOmit ->
    isZodSchema (vget t (js "parameters")) = true \/ is_data (vget t (js "parameters"))
}.

(** The parameters of the normalized tool, in the two cases. *)
Lemma normalized_parameters o t :
  (injecting o && negb (bool_decide (resolveIntentMode (vget t (js "intent")) = IOmit)) = false ->
     vget (normalized o t) (js "parameters") = vget t (js "parameters"))
  /\ (injecting o && negb (bool_decide (resolveIntentMode (vget t (js "intent")) = IOmit)) = true ->
     vget (normalized o t) (js "parameters")
     = injectIntentIntoSchema
         (if isZodSchema (vget t (js "parameters")) then zodToWireSchema toJSONSchema (vget t (js "parameters"))
          else vget t (js "parameters")) (resolveIntentMode (vget t (js "intent")))).
Proof.
  assert (js "parameters" <> js "description") as Hne by done.
  unfold normalized, normalizeTool. cbv zeta. fold (injecting o).
  rewrite vget_plain, assoc_set_prop_ne, assoc_set_prop_eq by done. cbn [default from_option id].
  split; intros ->; [done|]. by destruct (isZodSchema _).
Qed.

Lemma normalized_other o t k : k <> js "parameters" -> k <> js "description" ->
  vget (normalized o t) k = default VUndefined (assoc k (own_props t)).
Proof.
  intros H1 H2. unfold normalized, normalizeTool. cbv zeta. by rewrite vget_plain, !assoc_set_prop_ne by done.
Qed.

Lemma normalized_description o t :
  vget (normalized o t) (js "description")
  = match vget t (js "description") with VUndefined | VNull => VStr [] | d => d end.
Proof. unfold normalized, normalizeTool. cbv zeta. by rewrite vget_plain, assoc_set_prop_eq. Qed.

(** The exported tool is plain data with the same fields. *)
Lemma exported_tool o t : forkable o t ->
  exists fs, cloneJson (normalized o t) = of_json (JObj fs) /\ no_proto (JObj fs) = true
    /\ forall k, Ok (lookup_field k fs) = json_data (vget (normalized o t) k) k true.
Proof.
  intros F. pose proof (fk_cloneable o t F) as Hc. unfold normalized, normalizeTool in *. cbv zeta in *.
  destruct (object_data _ _ Hc) as (fs & _ & Hcl & Hnp & Hfs).
  { do 2 apply set_prop_NoDup. apply (fk_keys o t F). }
  exists fs. split; [exact Hcl|]. split; [done|]. intros k. rewrite vget_plain. apply Hfs.
Qed.

Lemma inject_data_idempotent v mode : is_data v ->
  injectIntentIntoSchema (injectIntentIntoSchema v mode) mode = injectIntentIntoSchema v mode.
Proof. intros [[| | | | |fs] ->]; try done. rewrite of_json_obj. apply inject_idempotent. Qed.

(** The exported intent means what the tool's intent means. *)
Lemma exported_intent o t fs : forkable o t -> injecting o = true ->
  (forall k, Ok (lookup_field k fs) = json_data (vget (normalized o t) k) k true) ->
  value_of (lookup_field (js "intent") fs) = vget t (js "intent").
Proof.
  intros F Hinj Hfs. specialize (Hfs (js "intent")). rewrite normalized_other in Hfs by done.
  destruct (fk_intent o t F Hinj) as [Hnone|[s Hs]].
  - assert (assoc (js "intent") (own_props t) = None) as Ha.
    { unfold property in Hnone. destruct t; try done. cbn [own_props]. by destruct (assoc _ props). }
    rewrite Ha in Hfs. injection Hfs as ->. unfold vget. by rewrite Hnone.
  - rewrite Hs in Hfs. injection Hfs as ->. unfold vget, property. destruct t; try done. cbn [own_props] in Hs. by rewrite Hs.
Qed.

(** Normalizing the exported tool and copying it again leaves it as it is. *)
Lemma imported_tool o t : forkable o t ->
  cloneJson (normalized o (cloneJson (normalized o t))) = cloneJson (normalized o t).
Proof.
  intros F. destruct (exported_tool o t F) as (fs & -> & Hnp & Hfs).
  assert (exists jp, lookup_field (js "parameters") fs = Some jp) as [jp Hjp].
  { pose proof (fk_parameters o t F). pose proof (Hfs (js "parameters")).
    destruct (lookup_field (js "parameters") fs) as [jp|]; [by exists jp|congruence]. }
  assert (exists s, lookup_field (js "description") fs = Some (JStr s)) as [s Hs].
  { pose proof (Hfs (js "description")) as H. rewrite normalized_description in H.
    pose proof (fk_description o t F). destruct (vget t (js "description")); try done; cbn in H;
      injection H as H; by eexists. }
  enough (normalized o (of_json (JObj fs)) = of_json (JObj fs)) as -> by by apply clone_of_json.
  assert (Hpar : forall x, x = of_json jp ->
    plain_object (set_prop (js "description") (VStr s) (set_prop (js "parameters") x (prod_map id of_json <$> fs)))
    = of_json (JObj fs)).
  { intros x ->. rewrite of_json_obj. f_equal.
    rewrite (set_prop_same (js "parameters")) by by rewrite assoc_of_json, Hjp.
    apply set_prop_same. by rewrite assoc_of_json, Hs. }
  unfold normalized, normalizeTool. cbv zeta. fold (injecting o).
  rewrite !vget_of_json, Hjp, Hs. cbn [value_of from_option]. rewrite of_json_not_zod.
  rewrite (of_json_obj fs) at 1. rewrite own_props_plain. apply Hpar.
  destruct (injecting o && negb _)%bool eqn:Hinj; [|done]. pose proof Hinj as [Hin Hmode]%andb_prop.
  rewrite (exported_intent o t fs F Hin Hfs) in *. apply negb_true_iff, bool_decide_eq_false_1 in Hmode.
  destruct (normalized_parameters o t) as [_ Hp]. specialize (Hp Hinj). set (params := vget t (js "parameters")) in *.
  set (schema := if isZodSchema params then zodToWireSchema toJSONSchema params else params) in Hp.
  assert (is_data schema) as Hschema.
  { unfold schema. destruct (isZodSchema params) eqn:Hz; [by eexists|].
    destruct (fk_schema o t F Hin Hmode) as [H|H]; [|exact H]. unfold params in Hz. congruence. }
  pose proof (Hfs (js "parameters")) as Hd. rewrite Hp, Hjp in Hd.
  destruct (inject_data schema (resolveIntentMode (vget t (js "intent"))) Hschema) as [j Hj].
  rewrite Hj, json_data_of_json in Hd. injection Hd as ->. rewrite <- Hj. by apply inject_data_idempotent.
Qed.

Definition context_tools (context : AgentContext) : list jsvalue := default [] (snd <$> ac_tools context).

Lemma live_tools_map context o : live_tools context o = normalized o <$> context_tools context.
Proof. unfold StablePrefix.live_tools, context_tools, normalizeTools. by destruct (ac_tools context). Qed.

Lemma imported_tools o tools : Forall (forkable o) tools ->
  normalizeImportedTools toJSONSchema noIntent (cloneJson <$> (normalized o <$> tools)) o
  = cloneJson <$> (normalized o <$> tools).
Proof.
  unfold normalizeImportedTools, normalizeTools. cbn [option_map default from_option id].
  change (List.map (normalizeTool toJSONSchema noIntent (bo_intentTracing o))) with (fmap (M:=list) (normalized o)).
  induction 1 as [|t tools F H IH]; [done|]. rewrite !fmap_cons, IH. f_equal.
  destruct (exported_tool o t F) as (fs & E & Hnp & _). rewrite E, clone_of_json, <- E by done. by apply imported_tool.
Qed.

(** A fork can take over the prefix of its parent: a snapshot taken of tools that survive
    a copy is exported, and importing it under the same options into any prefix succeeds;
    the fork holds what was exported, under the same fingerprint, and sends what the
    parent sends. *)
Theorem fork_takes_over_prefix context o sn p q :
  Forall (forkable o) (context_tools context) ->
  takeSnapshot context o = Ok sn -> sp_snapshot p = Some sn ->
  exists e q', exportSnapshot p = Some e /\ importSnapshot e o q = (Ok (), q')
    /\ sp_snapshot q' = Some e /\ sn_fingerprint e = sn_fingerprint sn
    /\ sp_version q' = S (sp_version q) /\ toContext q' = toContext p.
Proof.
  intros F Hsn Hp. unfold StablePrefix.takeSnapshot in Hsn. cbv zeta in Hsn. fold (live_tools context o) in Hsn.
  rewrite live_tools_map in Hsn. set (sp := (ac_systemPrompt context).2) in *.
  destruct (computeFingerprint sp _ o) as [f|] eqn:Hf; [|done]. injection Hsn as <-.
  unfold exportSnapshot, toContext. rewrite Hp. cbn [sn_systemPrompt sn_tools sn_fingerprint].
  set (tools := normalized o <$> context_tools context) in *.
  assert (computeFingerprint sp (cloneJson <$> tools) o = Ok f) as Hf'.
  { unfold computeFingerprint in *. rewrite (payload_text_eq sp (cloneJson <$> tools) tools); [done|].
    unfold tools. clear -F. induction F as [|t l Ft F IH]; [constructor|]. rewrite !fmap_cons. constructor; [|exact IH].
    intros k Hk key. destruct (exported_tool o t Ft) as (fs & -> & _ & Hfs). rewrite vget_of_json.
    rewrite (fk_steady o t Ft k Hk key), <- Hfs. destruct (lookup_field k fs) as [j|]; [apply json_data_of_json|done]. }
  eexists _, _. split; [reflexivity|]. unfold StablePrefix.importSnapshot. cbn [sn_systemPrompt sn_tools sn_fingerprint].
  unfold tools in *. rewrite imported_tools, Hf', bool_decide_true by done.
  split_and!; try reflexivity. cbn [sp_snapshot sn_systemPrompt sn_tools]. do 2 f_equal.
  clear -F. induction F as [|t l Ft F IH]; [done|]. rewrite !fmap_cons, IH. f_equal.
  destruct (exported_tool o t Ft) as (fs & -> & Hnp & _). by apply clone_of_json.
Qed.
End facts.

(** ** A tool with a schema, and one whose intent is a function *)

Definition read_schema : json :=
  JObj [(js "type", JStr (js "object"));
        (js "properties", JObj [(js "path", JObj [(js "type", JStr (js "string"))])])].

Definition read_tool (intent : list (jsstring * jsvalue)) : jsvalue :=
  VObject None [] ([(js "name", VStr (js "read")); (js "description", VStr (js "Read a file"));
                    (js "parameters", of_json read_schema); (js "execute", VFunction None)] ++ intent).

Definition read_context (t : jsvalue) : AgentContext := mkContext (0, [js "You are a helpful assistant."]) (Some (1, [t])).

Definition no_library (_ : jsvalue) : json := JNull.

Definition tracing : BuildOptions := mkBuildOptions true.

Lemma read_tool_forkable : forkable no_library false tracing (read_tool [(js "intent", VStr (js "require"))]).
Proof.
  constructor.
  - by apply (bool_decide_unpack _); vm_compute.
  - by vm_compute.
  - intros k Hk key. unfold FIELDS in Hk.
    repeat (rewrite fmap_cons in Hk; apply elem_of_cons in Hk as [->|Hk]); [reflexivity..|].
    by apply not_elem_of_nil in Hk.
  - exact I.
  - by vm_compute.
  - intros _. right. by eexists.
  - intros _ _. right. by eexists.
Qed.

Lemma fork_takes_over_prefix_witness :
  exists sn e q', takeSnapshot no_library false (read_context (read_tool [(js "intent", VStr (js "require"))])) tracing = Ok sn
    /\ exportSnapshot (mkPrefix (Some sn) 1 None None None) = Some e
    /\ importSnapshot no_library false e tracing new_prefix = (Ok (), q') /\ sp_snapshot q' = Some e.
Proof.
  destruct (takeSnapshot no_library false (read_context (read_tool [(js "intent", VStr (js "require"))])) tracing)
    as [sn|] eqn:Hsn; [|vm_compute in Hsn; discriminate].
  destruct (fork_takes_over_prefix no_library false
              (read_context (read_tool [(js "intent", VStr (js "require"))])) tracing sn (mkPrefix (Some sn) 1 None None None) new_prefix
              (Forall_cons_2 _ _ _ read_tool_forkable (Forall_nil_2 _)) Hsn eq_refl) as (e & q' & He & Hi & Hq & _).
  by exists sn, e, q'.
Defined.

(** The intent of a tool may be a function, and then no field is injected.  The copy has no
    function, so the import injects the field after all and the fingerprints differ: a
    session with such a tool cannot be forked with its prefix. *)
Example derived_intent_not_imported :
  let p := mkPrefix (match takeSnapshot no_library false (read_context (read_tool [(js "intent", VFunction None)])) tracing with
                     | Ok sn => Some sn | Err _ => None end) 1 None None None in
  match exportSnapshot p with
  | Some e => exists f, (importSnapshot no_library false e tracing new_prefix).1
                        = Err (EFingerprintMismatch f (sn_fingerprint e))
  | None => False
  end.
Proof. vm_compute. eexists. reflexivity. Qed.

(** The hash is weak: exchanging two letters of the system prompt can leave the fingerprint
    as it is, and then the old prompt is sent on. *)
Example changed_prompt_not_seen :
  let before := mkContext (0, [js "Aa"]) None in
  let after := mkContext (1, [js "BB"]) None in
  exists p, build no_library false before tracing new_prefix = Ok (true, p)
    /\ exists p', build no_library false after tracing p = Ok (false, p') /\ toContext p' = Ok ([js "Aa"], []).
Proof. eexists. split; [vm_compute; reflexivity|]. eexists. split; vm_compute; reflexivity. Qed.

Lemma prefix_current_witness :
  exists p, build no_library false (read_context (read_tool [])) tracing new_prefix = Ok (true, p)
    /\ prefix_ok p /\ exists sn, sp_snapshot p = Some sn /\ sn_systemPrompt sn = [js "You are a helpful assistant."].
Proof.
  pose proof (prefix_current no_library false (read_context (read_tool [])) tracing new_prefix I) as H.
  cbv zeta in H.
  destruct (build no_library false (read_context (read_tool [])) tracing new_prefix) as [[changed p]|e] eqn:Hb;
    [|vm_compute in Hb; discriminate].
  destruct changed; [|vm_compute in Hb; discriminate]. destruct H as [Hok (text & sn & _ & Hsn & _ & _ & _ & Hsp & _)].
  exists p. split; [done|]. split; [done|]. exists sn. split; [done|]. exact Hsp.
Defined.
