(* ===== verification/AppendOnlyContext.v ===== *)
(** * The append-only message log (agent/src/append-only-context.ts)

    The manager keeps the messages that were sent and only appends to them, unless the
    messages of the session were rewritten or compacted.  Messages are objects the log
    shares with the session, which may change them in place: they live in a heap, and the
    log holds references.  A rewrite is detected by a hash per message. *)

From S2P Require Import Prelude JsText Json JsValue WireSchema StablePrefix.

Abbreviation loc := nat (only parsing).

(** The message objects; the content of an object is a value. *)
Definition heap : Type := gmap nat jsvalue.

(** What reading a reference gives; [None] is an index out of range. *)
Definition message (h : heap) (l : option loc) : jsvalue :=
  match l with Some l => default VUndefined (h !! l) | None => VUndefined end.

(** ** The log *)

Definition append (m : loc) (entries : list loc) : list loc := entries ++ [m].

Definition extend (messages entries : list loc) : list loc := fold_left (fun e m => append m e) messages entries.

Definition replaceTail (replacement : loc) (entries : list loc) : list loc :=
  match length entries with
  | O => entries
  | S idx => <[idx := replacement]> entries
  end.

(** ** The manager *)

Record PrefixChange := mkChange { pch_from : jsstring; pch_to : jsstring; pch_version : nat }.

Record AppendOnlyContextManager := mkManager {
  am_prefix : StablePrefix;
  am_log : list loc;
  am_lastSyncCount : nat;
  am_syncedHashes : list Z;
  am_seededPrefixCount : nat;
  am_observed : bool;                (** whether there is an [onPrefixChange] callback *)
  am_changes : list PrefixChange     (** its calls *)
}.

Definition new_manager (onPrefixChange : bool) : AppendOnlyContextManager :=
  mkManager new_prefix [] 0 [] 0 onPrefixChange [].

Definition set_prefix (p : StablePrefix) (s : AppendOnlyContextManager) : AppendOnlyContextManager :=
  mkManager p (am_log s) (am_lastSyncCount s) (am_syncedHashes s) (am_seededPrefixCount s) (am_observed s) (am_changes s).

Definition set_log (log : list loc) (s : AppendOnlyContextManager) : AppendOnlyContextManager :=
  mkManager (am_prefix s) log (am_lastSyncCount s) (am_syncedHashes s) (am_seededPrefixCount s) (am_observed s) (am_changes s).

Definition set_cursor (count : nat) (hashes : list Z) (s : AppendOnlyContextManager) : AppendOnlyContextManager :=
  mkManager (am_prefix s) (am_log s) count hashes (am_seededPrefixCount s) (am_observed s) (am_changes s).

Definition set_seeded (seeded : nat) (s : AppendOnlyContextManager) : AppendOnlyContextManager :=
  mkManager (am_prefix s) (am_log s) (am_lastSyncCount s) (am_syncedHashes s) seeded (am_observed s) (am_changes s).

Definition note_change (c : PrefixChange) (s : AppendOnlyContextManager) : AppendOnlyContextManager :=
  mkManager (am_prefix s) (am_log s) (am_lastSyncCount s) (am_syncedHashes s) (am_seededPrefixCount s) (am_observed s)
    (am_changes s ++ [c]).

Section manager.
Context (toJSONSchema : jsvalue -> json) (noIntent : bool).
(** [Bun.hash], where the runtime has it. *)
Context (bunHash : option (jsstring -> Z)).

Definition hashSource (source : jsstring) : Z :=
  match bunHash with Some hash => hash source | None => hashString32 source end.

Definition hashMessage (v : jsvalue) : result json_error Z :=
  let! text := stringify v in Ok (hashSource (default (js "null") text)).

Fixpoint hashRange (h : heap) (messages : list loc) : result json_error (list Z) :=
  match messages with
  | [] => Ok []
  | m :: rest => let! x := hashMessage (message h (Some m)) in let! xs := hashRange h rest in Ok (x :: xs)
  end.

(** The first [count] messages of two lists have the same hashes. *)
Fixpoint rangeHashesEqual (h : heap) (a b : list loc) (count : nat) {struct count} : result json_error bool :=
  match count with
  | O => Ok true
  | S count =>
      let! x := hashMessage (message h (head a)) in
      let! y := hashMessage (message h (head b)) in
      if negb (x =? y)%Z then Ok false else rangeHashesEqual h (tail a) (tail b) count
  end.

(** One of the first [count] messages does not have the hash it was synced with. *)
Fixpoint hashes_changed (h : heap) (messages : list loc) (hashes : list Z) (count : nat) {struct count} :
    result json_error bool :=
  match count, hashes with
  | S count, x :: hashes =>
      let! y := hashMessage (message h (head messages)) in
      if negb (y =? x)%Z then Ok true else hashes_changed h (tail messages) hashes count
  | _, _ => Ok false
  end.

Definition prefixChanged (h : heap) (messages : list loc) (count : nat) (s : AppendOnlyContextManager) :
    result json_error bool :=
  if (length (am_syncedHashes s) <? count)%nat then Ok false
  else hashes_changed h messages (am_syncedHashes s) count.

Definition sync_result : Type := result json_error unit * AppendOnlyContextManager.

(** The last step of a sync: the hashes are taken when everything else is in place. *)
Definition store_hashes (h : heap) (messages : list loc) (s : AppendOnlyContextManager) : sync_result :=
  match hashRange h messages with
  | Ok hashes => (Ok (), set_cursor (am_lastSyncCount s) hashes s)
  | Err e => (Err e, s)
  end.

Definition rebaseToBaseline (h : heap) (messages : list loc) (seededPrefixCount : nat) (s : AppendOnlyContextManager) :
    sync_result :=
  let s := set_log (extend messages []) s in
  let s := set_seeded seededPrefixCount (set_cursor (length messages) (am_syncedHashes s) s) in
  store_hashes h messages s.

Definition forget_log (s : AppendOnlyContextManager) : AppendOnlyContextManager := set_cursor 0 [] (set_log [] s).

(** The messages to sync: the seeded prefix is put in front when it is not there. *)
Definition messages_to_sync (h : heap) (normalized : list loc) (s : AppendOnlyContextManager) :
    result json_error (list loc) :=
  let seeded := am_seededPrefixCount s in
  if (0 <? seeded)%nat then
    let! includesSeedPrefix :=
      if (seeded <=? length normalized)%nat then rangeHashesEqual h normalized (am_log s) seeded else Ok false in
    Ok (if includesSeedPrefix : bool then normalized else take seeded (am_log s) ++ normalized)
  else Ok normalized.

(** What follows the detection of rewrites. *)
Definition append_new (h : heap) (messagesToSync : list loc) (s : AppendOnlyContextManager) : sync_result :=
  let newMsgs := drop (am_lastSyncCount s) messagesToSync in
  let s := set_log (extend newMsgs (am_log s)) s in
  store_hashes h messagesToSync (set_cursor (length messagesToSync) (am_syncedHashes s) s).

Definition sync_shrunk (h : heap) (messagesToSync : list loc) (seededPrefixLength : nat) (s : AppendOnlyContextManager) :
    sync_result :=
  if (length messagesToSync <? am_lastSyncCount s)%nat then
    if (0 <? am_seededPrefixCount s)%nat then rebaseToBaseline h messagesToSync seededPrefixLength s
    else append_new h messagesToSync (forget_log s)
  else append_new h messagesToSync s.

Definition syncMessages (h : heap) (normalizedMessages : list loc) (s : AppendOnlyContextManager) : sync_result :=
  let seededPrefixLength := am_seededPrefixCount s in
  match messages_to_sync h normalizedMessages s with
  | Err e => (Err e, s)
  | Ok messagesToSync =>
      let changed :=
        if (0 <? am_lastSyncCount s)%nat && (am_lastSyncCount s <=? length messagesToSync)%nat
        then prefixChanged h messagesToSync (am_lastSyncCount s) s else Ok false in
      match changed with
      | Err e => (Err e, s)
      | Ok true =>
          if (0 <? am_seededPrefixCount s)%nat then rebaseToBaseline h messagesToSync seededPrefixLength s
          else sync_shrunk h messagesToSync seededPrefixLength (forget_log s)
      | Ok false => sync_shrunk h messagesToSync seededPrefixLength s
      end
  end.

(** New objects for the copies of a list of values. *)
Fixpoint allocate (h : heap) (values : list jsvalue) : heap * list loc :=
  match values with
  | [] => (h, [])
  | v :: rest =>
      let l := fresh (dom h) in
      let (h', ls) := allocate (<[l := v]> h) rest in
      (h', l :: ls)
  end.

Definition seedNormalizedMessages (messages : list loc) (reset : bool) (h : heap) (s : AppendOnlyContextManager) :
    result context_error unit * (heap * AppendOnlyContextManager) :=
  if (0 <? length (am_log s))%nat && negb reset then (Err ELogNotEmpty, (h, s))
  else
    let values := imap (fun i m => null_if_undefined (cloneJsonValue (message h (Some m)) (index_key i) true)) messages in
    let (h, clonedMessages) := allocate h values in
    let s := set_cursor (length clonedMessages) (am_syncedHashes s) (set_log (extend clonedMessages []) s) in
    match store_hashes h clonedMessages s with
    | (Ok _, s) => (Ok (), (h, set_seeded (length clonedMessages) s))
    | (Err e, s) => (Err (EJson e), (h, s))
    end.

Definition reset_log (s : AppendOnlyContextManager) : AppendOnlyContextManager := set_seeded 0 (forget_log s).

Definition invalidateForModelChange (s : AppendOnlyContextManager) : AppendOnlyContextManager :=
  reset_log (set_prefix (invalidate (am_prefix s)) s).

Definition resetSyncCursor (s : AppendOnlyContextManager) : AppendOnlyContextManager := reset_log s.

Definition appendMessage (m : loc) (s : AppendOnlyContextManager) : AppendOnlyContextManager := set_log (append m (am_log s)) s.

Definition replaceTailMessage (m : loc) (s : AppendOnlyContextManager) : AppendOnlyContextManager :=
  set_log (replaceTail m (am_log s)) s.

Definition manager_invalidate (s : AppendOnlyContextManager) : AppendOnlyContextManager :=
  set_prefix (invalidate (am_prefix s)) s.

(** What is sent: the system prompt, the messages by reference, and the tools. *)
Definition Context : Type := list jsstring * list loc * list jsvalue.

Definition manager_build (context : AgentContext) (options : BuildOptions) (s : AppendOnlyContextManager) :
    result context_error Context * AppendOnlyContextManager :=
  let previousFingerprint := fingerprint (am_prefix s) in
  match build toJSONSchema noIntent context options (am_prefix s) with
  | Err e => (Err e, s)
  | Ok (changed, p) =>
      let s := set_prefix p s in
      let s := if changed && am_observed s
               then note_change (mkChange previousFingerprint (fingerprint p) (sp_version p)) s else s in
      (let! c := toContext p in Ok (c.1, am_log s, c.2), s)
  end.

Definition manager_reset (context : AgentContext) (options : BuildOptions) (s : AppendOnlyContextManager) :
    result context_error unit * AppendOnlyContextManager :=
  let s := invalidateForModelChange s in
  match build toJSONSchema noIntent context options (am_prefix s) with
  | Err e => (Err e, s)
  | Ok (_, p) => (Ok (), set_prefix p s)
  end.

Definition forkFromSeed (prefixSnapshot : option StablePrefixSnapshot) (messages : option (list loc)) (options : BuildOptions)
    (h : heap) : result context_error (heap * AppendOnlyContextManager) :=
  let manager := new_manager false in
  let! manager := match prefixSnapshot with
                  | None => Ok manager
                  | Some snapshot =>
                      match importSnapshot toJSONSchema noIntent snapshot options (am_prefix manager) with
                      | (Ok _, p) => Ok (set_prefix p manager)
                      | (Err e, _) => Err e
                      end
                  end in
  match messages with
  | None => Ok (h, manager)
  | Some messages =>
      match seedNormalizedMessages messages false h manager with
      | (Ok _, (h, manager)) => Ok (h, manager)
      | (Err e, _) => Err e
      end
  end.
End manager.
