(* ===== verification/AppendOnlyFacts.v ===== *)
(** * What is sent is what the session holds

    After a sync the log holds the messages to send, and it was only appended to unless
    the session rewrote its messages. *)

From S2P Require Import Prelude JsText Json JsValue WireSchema StablePrefix AppendOnlyContext.

Section facts.
Context (bunHash : option (jsstring -> Z)).
#[local] Abbreviation hashMessage := (hashMessage bunHash).
#[local] Abbreviation hashRange := (hashRange bunHash).
#[local] Abbreviation rangeHashesEqual := (rangeHashesEqual bunHash).
#[local] Abbreviation hashes_changed := (hashes_changed bunHash).
#[local] Abbreviation store_hashes := (store_hashes bunHash).
#[local] Abbreviation messages_to_sync := (messages_to_sync bunHash).
#[local] Abbreviation syncMessages := (syncMessages bunHash).

(** The message at [l] has the hash [x]. *)
Definition has_hash (h : heap) (l : loc) (x : Z) : Prop := hashMessage (message h (Some l)) = Ok x.

Lemma extend_app messages entries : extend messages entries = entries ++ messages.
Proof.
  unfold extend, append. revert entries. induction messages as [|m messages IH]; intros entries; cbn [fold_left].
  - by rewrite app_nil_r.
  - by rewrite IH, <- (assoc_L app).
Qed.

Lemma hashRange_spec h ls xs : hashRange h ls = Ok xs <-> Forall2 (has_hash h) ls xs.
Proof.
  revert xs. induction ls as [|l ls IH]; intros xs; cbn [AppendOnlyContext.hashRange].
  - split; [intros [= <-]; constructor|by inversion 1].
  - destruct (hashMessage (message h (Some l))) as [x|e] eqn:E; cycle 1.
    { split; [done|]. inversion 1 as [|? y ? ? Hy]; subst. unfold has_hash in Hy. congruence. }
    destruct (hashRange h ls) as [ys|e] eqn:Els.
    + split.
      * intros [= <-]. constructor; [done|]. by apply IH.
      * inversion 1 as [|? y ? ys' Hy Hys]; subst. unfold has_hash in Hy. apply IH in Hys. congruence.
    + split; [done|]. inversion 1 as [|? y ? ys' Hy Hys]; subst. by apply IH in Hys.
Qed.



(** The cursor, the hashes and the seed fit the log. *)
Record synced (s : AppendOnlyContextManager) : Prop := mkSynced {
  sy_count : am_lastSyncCount s = length (am_log s);
  sy_hashes : length (am_syncedHashes s) = length (am_log s);
  sy_seeded : am_seededPrefixCount s <= length (am_log s)
}.



(** ** What is synced *)













End facts.

(** ** Seeding a fork *)

Lemma allocate_spec vs h h' ls : allocate h vs = (h', ls) ->
  h ⊆ h' /\ Forall (fun l => h !! l = None) ls /\ Forall2 (fun l v => h' !! l = Some v) ls vs.
Proof.
  revert h h' ls. induction vs as [|v vs IH]; intros h h' ls; cbn [allocate].
  { intros [= <- <-]. done. }
  destruct (allocate (<[fresh (dom h) := v]> h) vs) as [h1 ls1] eqn:E. intros [= <- <-].
  destruct (IH _ _ _ E) as (Hsub & Hnew & Hval).
  assert (h !! fresh (dom h) = None) as Hfresh by apply not_elem_of_dom, is_fresh.
  split; [|split].
  - etrans; [by apply insert_subseteq|exact Hsub].
  - constructor; [done|]. eapply Forall_impl; [exact Hnew|]. intros l Hl. by apply lookup_insert_None in Hl as [].
  - constructor; [|done]. eapply lookup_weaken; [|exact Hsub]. apply lookup_insert_eq.
Qed.

(** Seeding a fork isolates it: it is refused on a log that is not empty unless a reset
    is asked for; otherwise the log holds new objects, the copies of the messages in their
    order, so that no later change of the parent's messages reaches it; the cursor and the
    seed fit the log. *)
Theorem seed_isolated bunHash messages reset h s :
  match seedNormalizedMessages bunHash messages reset h s with
  | (Err ELogNotEmpty, r) => r = (h, s) /\ am_log s <> [] /\ reset = false
  | (Err _, (h', _)) => h ⊆ h'
  | (Ok _, (h', s')) =>
      (am_log s = [] \/ reset = true)
      /\ h ⊆ h' /\ Forall (fun l => h !! l = None) (am_log s')
      /\ Forall2 (fun l v => h' !! l = Some v) (am_log s')
           (imap (fun i m => null_if_undefined (cloneJsonValue (message h (Some m)) (index_key i) true)) messages)
      /\ synced s' /\ Forall2 (has_hash bunHash h') (am_log s') (am_syncedHashes s')
      /\ am_seededPrefixCount s' = length messages
  end.
Proof.
  unfold seedNormalizedMessages.
  destruct ((0 <? length (am_log s))%nat && negb reset) eqn:Hguard.
  { apply andb_prop in Hguard as [H1%Nat.ltb_lt H2%negb_true_iff]. split; [done|]. split; [|done].
    intros El. rewrite El in H1. cbn in H1. lia. }
  set (values := imap _ messages). destruct (allocate h values) as [h' ls] eqn:Ha.
  destruct (allocate_spec _ _ _ _ Ha) as (Hsub & Hnew & Hval).
  unfold store_hashes. destruct (hashRange bunHash h' ls) as [xs|e] eqn:Hh; [|done].
  apply hashRange_spec in Hh. cbn. rewrite extend_app. cbn [app].
  split; [|split; [done|split; [done|split; [done|split; [|split; [done|]]]]]].
  - destruct reset; [by right|]. left. rewrite andb_true_r in Hguard. apply Nat.ltb_ge in Hguard. apply nil_length_inv. lia.
  - constructor; cbn; [done|by rewrite (Forall2_length _ _ _ Hh)|done].
  - rewrite (Forall2_length _ _ _ Hval). unfold values. apply length_imap.
Qed.

(** The operations that keep the cursor, the hashes and the seed fitting the log, besides a sync
    and the seeding of a fork. *)
Lemma synced_operations s m toJSONSchema noIntent context options :
  synced (new_manager (am_observed s)) /\ synced (resetSyncCursor s) /\ synced (invalidateForModelChange s)
  /\ (synced s -> synced (replaceTailMessage m s) /\ synced (manager_invalidate s)
       /\ synced (manager_build toJSONSchema noIntent context options s).2).
Proof.
  split; [by constructor|]. split; [by constructor|]. split; [by constructor|]. intros [Hc Hh Hse]. split; [|split].
  - unfold replaceTailMessage, replaceTail. destruct (length (am_log s)) eqn:El; constructor; cbn; rewrite ?length_insert; lia.
  - by constructor.
  - unfold manager_build. destruct (build _ _ _ _ _) as [[changed p]|]; [|by constructor]. cbn [snd]. destruct (_ && _); by constructor.
Qed.

(** ** Examples *)

Definition user_message (content : jsstring) : jsvalue :=
  plain_object [(js "role", VStr (js "user")); (js "content", VStr content)].

Definition two_messages : heap := {[ 0%nat := user_message (js "hi"); 1%nat := user_message (js "again") ]}.

Definition one_synced : AppendOnlyContextManager := (syncMessages None two_messages [0%nat] (new_manager false)).2.


(** A fork whose session compacts its messages: the seed is put in front of the summary, so
    the compaction does not shorten what is sent. *)
Definition fork_heap : heap :=
  {[ 0%nat := user_message (js "seed"); 1%nat := user_message (js "task"); 2%nat := user_message (js "summary") ]}.

Example compacted_fork_keeps_seed :
  match seedNormalizedMessages None [0%nat] false fork_heap (new_manager false) with
  | (Ok _, (h, s)) =>
      let s := (syncMessages None h [0%nat; 1%nat] s).2 in
      let s := (syncMessages None h [2%nat] s).2 in
      (fun l => message h (Some l)) <$> am_log s = [user_message (js "seed"); user_message (js "summary")]
  | _ => False
  end.
Proof. vm_compute. reflexivity. Qed.

(** A message that was appended directly is not known to the next sync, which appends it a
    second time. *)
Example appended_message_sent_twice :
  am_log (syncMessages None two_messages [0%nat; 1%nat] (appendMessage 1%nat one_synced)).2 = [0%nat; 1%nat; 1%nat].
Proof. vm_compute. reflexivity. Qed.

(** A fork that is synced with messages that start with its seed does not send the seed twice. *)
Example seed_not_repeated :
  match seedNormalizedMessages None [0%nat] false fork_heap (new_manager false) with
  | (Ok _, (h, s)) =>
      (fun l => message h (Some l)) <$> am_log (syncMessages None h [0%nat; 1%nat] s).2 = [user_message (js "seed"); user_message (js "task")]
  | _ => False
  end.
Proof. vm_compute. reflexivity. Qed.
