(* ===== verification/Indentation.v ===== *)
(** * Indentation (coding-agent/src/edit/normalize.ts)

    Leading white space of lines, and how a replacement text is indented like the text it
    replaces: by converting tabs to spaces, or by a uniform shift. *)

From S2P Require Import Prelude JsText.

Local Open Scope nat_scope.

Definition TAB : N := 9.
Definition SPC : N := 32.

(** The characters counted as indentation. *)
Definition is_indent (c : N) : bool := (c =? SPC)%N || (c =? TAB)%N.

Fixpoint countLeadingWhitespace (line : jsstring) : nat :=
  match line with
  | c :: rest => if is_indent c then S (countLeadingWhitespace rest) else 0
  | [] => 0
  end.

Definition getLeadingWhitespace (line : jsstring) : jsstring := take (countLeadingWhitespace line) line.

Definition isNonEmptyLine (line : jsstring) : bool := negb (bool_decide (trim line = [])).

(** [s.includes(c)] for one character. *)
Definition includes_char (c : N) (s : jsstring) : bool := existsb (fun d => (d =? c)%N) s.

(** [c.repeat(n)] for one character. *)
Definition repeat_char (c : N) (n : nat) : jsstring := repeat c n.

(** The least indentation of the lines that are not empty; [None] is [Infinity]. *)
Definition min_indent (lines : list jsstring) : option nat :=
  fold_left (fun m line =>
    if isNonEmptyLine line
    then Some (match m with Some m => Nat.min m (countLeadingWhitespace line) | None => countLeadingWhitespace line end)
    else m) lines None.

Definition minIndent (text : jsstring) : nat := default 0 (min_indent (split_char LF text)).

(** The first indentation character of some lines, a space by default. *)
Fixpoint first_indent_char (lines : list jsstring) : N :=
  match lines with
  | [] => SPC
  | line :: rest => match getLeadingWhitespace line with c :: _ => c | [] => first_indent_char rest end
  end.

Definition detectIndentChar (text : jsstring) : N := first_indent_char (split_char LF text).

(** The loop of [gcd]; it runs at most [y] times. *)
Fixpoint gcd_loop (fuel x y : nat) : nat :=
  match fuel with
  | O => x
  | S f => match y with O => x | _ => gcd_loop f y (x mod y) end
  end.

Definition gcd (a b : nat) : nat := gcd_loop (S b) a b.

Record IndentProfile := mkProfile {
  ip_lines : list jsstring;
  ip_indentCounts : list nat;
  ip_char : option N;
  ip_spaceOnly : bool;
  ip_tabOnly : bool;
  ip_mixed : bool;
  ip_unit : nat;
  ip_nonEmptyCount : nat
}.

(** The loop over the lines. *)
Definition profile_line (p : IndentProfile) (line : jsstring) : IndentProfile :=
  if negb (isNonEmptyLine line) then p
  else
    let indent := getLeadingWhitespace line in
    let hasSpace := includes_char SPC indent in
    let hasTab := includes_char TAB indent in
    let '(char, other) :=
      match indent with
      | [] => (ip_char p, false)
      | currentChar :: _ =>
          match ip_char p with
          | None => (Some currentChar, false)
          | Some char => (Some char, negb (char =? currentChar)%N)
          end
      end in
    mkProfile (ip_lines p) (ip_indentCounts p ++ [length indent]) char
      (ip_spaceOnly p && negb hasTab) (ip_tabOnly p && negb hasSpace)
      (ip_mixed p || (hasSpace && hasTab) || other) (ip_unit p) (S (ip_nonEmptyCount p)).

Definition indent_unit (counts : list nat) : nat :=
  fold_left (fun current count =>
    if (count =? 0)%nat then current else if (current =? 0)%nat then count else gcd current count) counts 0.

Definition buildIndentProfile (text : jsstring) : IndentProfile :=
  let lines := split_char LF text in
  let p := fold_left profile_line lines (mkProfile lines [] None true true false 0 0) in
  let unit := if ip_spaceOnly p && (0 <? ip_nonEmptyCount p)%nat then indent_unit (ip_indentCounts p) else 0 in
  let unit := if ip_tabOnly p && (0 <? ip_nonEmptyCount p)%nat then 1 else unit in
  mkProfile lines (ip_indentCounts p) (ip_char p) (ip_spaceOnly p) (ip_tabOnly p) (ip_mixed p) unit (ip_nonEmptyCount p).

Definition convert_line (spacesPerTab : nat) (line : jsstring) : jsstring :=
  let trimmed := trimStart line in
  if bool_decide (trimmed = []) then line
  else
    let leading := getLeadingWhitespace line in
    if negb (includes_char TAB leading) || includes_char SPC leading then line
    else repeat_char SPC (length leading * spacesPerTab) ++ trimmed.

Definition convertLeadingTabsToSpaces (text : jsstring) (spacesPerTab : nat) : jsstring :=
  if (spacesPerTab =? 0)%nat then text
  else join [LF] (convert_line spacesPerTab <$> split_char LF text).

(** ** Indenting a replacement *)

(** Line by line the same text, up to white space at the ends. *)
Fixpoint same_trimmed (l1 l2 : list jsstring) : bool :=
  match l1, l2 with
  | [], [] => true
  | x :: l1, y :: l2 => bool_decide (trim x = trim y) && same_trimmed l1 l2
  | _, _ => false
  end.

Definition isIndentationOnlyRewrite (oldText newText : jsstring) : bool :=
  same_trimmed (split_char LF oldText) (split_char LF newText).

(** Every indented old line stands for [unit] times as many characters. *)
Fixpoint indents_scaled (unit : nat) (oldLines actualLines : list jsstring) : bool :=
  match oldLines, actualLines with
  | oldLine :: oldLines, actualLine :: actualLines =>
      (negb (isNonEmptyLine oldLine) || negb (isNonEmptyLine actualLine)
       || (length (getLeadingWhitespace oldLine) =? 0)%nat
       || (length (getLeadingWhitespace actualLine) =? length (getLeadingWhitespace oldLine) * unit)%nat)
      && indents_scaled unit oldLines actualLines
  | _, _ => true
  end.

Definition maybeConvertTabIndentation (oldProfile actualProfile newProfile : IndentProfile) (newText : jsstring) :
    option jsstring :=
  if negb (ip_spaceOnly actualProfile) || negb (ip_tabOnly oldProfile) || negb (ip_tabOnly newProfile)
     || (ip_unit actualProfile =? 0)%nat then None
  else if indents_scaled (ip_unit actualProfile) (ip_lines oldProfile) (ip_lines actualProfile)
  then Some (convertLeadingTabsToSpaces newText (ip_unit actualProfile)) else None.

(** How much further the actual lines are indented, line by line. *)
Fixpoint indent_deltas (oldLines actualLines : list jsstring) : list Z :=
  match oldLines, actualLines with
  | oldLine :: oldLines, actualLine :: actualLines =>
      let rest := indent_deltas oldLines actualLines in
      if negb (isNonEmptyLine oldLine) || negb (isNonEmptyLine actualLine) then rest
      else (Z.of_nat (countLeadingWhitespace actualLine) - Z.of_nat (countLeadingWhitespace oldLine))%Z :: rest
  | _, _ => []
  end.

(** The one value of a list, if it is the same everywhere. *)
Definition uniform (deltas : list Z) : option Z :=
  match deltas with
  | [] => None
  | delta :: _ => if forallb (fun d => (d =? delta)%Z) deltas then Some delta else None
  end.

Definition computeUniformIndentDelta (oldProfile actualProfile : IndentProfile) : option Z :=
  uniform (indent_deltas (ip_lines oldProfile) (ip_lines actualProfile)).

Definition shift_line (delta : Z) (indentChar : N) (line : jsstring) : jsstring :=
  if negb (isNonEmptyLine line) then line
  else if (0 <? delta)%Z then repeat_char indentChar (Z.to_nat delta) ++ line
  else drop (Nat.min (Z.to_nat (- delta)) (countLeadingWhitespace line)) line.

Definition applyIndentDelta (text : jsstring) (delta : Z) (indentChar : N) : jsstring :=
  join [LF] (shift_line delta indentChar <$> split_char LF text).

Definition hasNonEmptyIndentProfiles (profiles : list IndentProfile) : bool :=
  forallb (fun p => (0 <? ip_nonEmptyCount p)%nat) profiles.

Definition hasMixedIndentation (profiles : list IndentProfile) : bool := existsb ip_mixed profiles.

(** Both indentation characters are known and differ. *)
Definition chars_differ (a b : option N) : bool :=
  match a, b with Some x, Some y => negb (x =? y)%N | _, _ => false end.

Definition adjustIndentation (oldText actualText newText : jsstring) : jsstring :=
  if bool_decide (oldText = actualText) then newText
  else if isIndentationOnlyRewrite oldText newText then newText
  else
    let oldProfile := buildIndentProfile oldText in
    let actualProfile := buildIndentProfile actualText in
    let newProfile := buildIndentProfile newText in
    if negb (hasNonEmptyIndentProfiles [oldProfile; actualProfile; newProfile]) then newText
    else if hasMixedIndentation [oldProfile; actualProfile; newProfile] then newText
    else if chars_differ (ip_char oldProfile) (ip_char actualProfile) then
      default newText (maybeConvertTabIndentation oldProfile actualProfile newProfile newText)
    else
      match computeUniformIndentDelta oldProfile actualProfile with
      | None => newText
      | Some delta =>
          if (delta =? 0)%Z then newText
          else if chars_differ (ip_char newProfile) (ip_char actualProfile) then newText
          else
            let indentChar := match ip_char actualProfile with
                              | Some c => c
                              | None => default (detectIndentChar actualText) (ip_char oldProfile)
                              end in
            applyIndentDelta newText delta indentChar
      end.

(** ** Adjusting changes indentation only *)

Lemma is_indent_ws c : is_indent c = true -> is_ws c = true /\ c <> LF.
Proof.
  unfold is_indent. intros H. apply orb_prop in H as [->%N.eqb_eq | ->%N.eqb_eq]; by split.
Qed.

Lemma trimStart_app_ws pre s : Forall (fun c => is_ws c = true) pre -> trimStart (pre ++ s) = trimStart s.
Proof. induction 1 as [|c pre Hc H IH]; [done|]. cbn [app]. by rewrite trimStart_ws. Qed.

Lemma trim_app_ws pre s : Forall (fun c => is_ws c = true) pre -> trim (pre ++ s) = trim s.
Proof. intros H. unfold trim. by rewrite trimStart_app_ws. Qed.

Lemma leading_ws n line : n <= countLeadingWhitespace line -> Forall (fun c => is_indent c = true) (take n line).
Proof.
  revert n. induction line as [|c line IH]; intros n Hn; [by rewrite take_nil|].
  cbn in Hn. destruct n as [|n]; [constructor|]. destruct (is_indent c) eqn:E; [|lia]. cbn [take].
  constructor; [done|]. apply IH. lia.
Qed.

Lemma trim_drop_leading n line : n <= countLeadingWhitespace line -> trim (drop n line) = trim line.
Proof.
  intros Hn. rewrite <- (take_drop n line) at 2. rewrite trim_app_ws; [done|].
  eapply Forall_impl; [by apply leading_ws|]. intros c Hc. by apply is_indent_ws.
Qed.

Lemma trimStart_idemp s : trimStart (trimStart s) = trimStart s.
Proof.
  induction s as [|c s IH]; [done|]. destruct (is_ws c) eqn:E; [by rewrite !trimStart_ws|].
  rewrite (trimStart_id (c :: s)) by done. by rewrite trimStart_id.
Qed.

Lemma trim_trimStart s : trim (trimStart s) = trim s.
Proof. unfold trim. by rewrite trimStart_idemp. Qed.

Lemma shift_line_trim delta indentChar line : is_indent indentChar = true -> trim (shift_line delta indentChar line) = trim line.
Proof.
  intros Hc. unfold shift_line. case_match; [done|]. case_match.
  - apply trim_app_ws, Forall_forall. intros c ->%list_elem_of_In%repeat_spec. by apply is_indent_ws.
  - apply trim_drop_leading. lia.
Qed.

Lemma convert_line_trim spacesPerTab line : trim (convert_line spacesPerTab line) = trim line.
Proof.
  unfold convert_line. case_match; [done|]. case_match; [done|]. rewrite trim_app_ws, trim_trimStart; [done|].
  apply Forall_forall. by intros c ->%list_elem_of_In%repeat_spec.
Qed.

(** A line map that keeps the text of a line and makes no new lines. *)
Definition keeps_text (f : jsstring -> jsstring) : Prop :=
  forall line, Forall (fun c => c <> LF) line -> trim (f line) = trim line /\ Forall (fun c => c <> LF) (f line).

Lemma repeat_no_lf c n : c <> LF -> Forall (fun d => d <> LF) (repeat_char c n).
Proof. intros Hc. apply Forall_forall. by intros d ->%list_elem_of_In%repeat_spec. Qed.

Lemma shift_line_keeps delta indentChar : is_indent indentChar = true -> keeps_text (shift_line delta indentChar).
Proof.
  intros Hc line Hl. split; [by apply shift_line_trim|]. unfold shift_line. repeat case_match; [done| |by apply Forall_drop].
  apply Forall_app. split; [|done]. apply repeat_no_lf. by apply is_indent_ws.
Qed.

Lemma trimStart_suffix s : exists pre, s = pre ++ trimStart s.
Proof. exists (span is_ws s).1. unfold trimStart. symmetry. apply span_app. Qed.

Lemma convert_line_keeps spacesPerTab : keeps_text (convert_line spacesPerTab).
Proof.
  intros line Hl. split; [apply convert_line_trim|]. unfold convert_line. repeat case_match; try done.
  apply Forall_app. split; [by apply repeat_no_lf|]. destruct (trimStart_suffix line) as [pre E]. rewrite E in Hl.
  by apply Forall_app in Hl as [_ Hl].
Qed.

Lemma same_trimmed_refl l : same_trimmed l l = true.
Proof. induction l as [|x l IH]; [done|]. cbn. by rewrite bool_decide_true. Qed.

Lemma same_trimmed_iff l1 l2 : same_trimmed l1 l2 = true <-> Forall2 (fun x y => trim x = trim y) l1 l2.
Proof.
  revert l2. induction l1 as [|x l1 IH]; intros [|y l2]; cbn; try (by split; [done|inversion 1]).
  rewrite andb_true_iff, bool_decide_eq_true, IH. split; [by intros []; constructor|]. by inversion 1.
Qed.

(** Mapping the lines of a text by such a map. *)
Lemma map_lines_keeps f text : keeps_text f ->
  same_trimmed (split_char LF text) (split_char LF (join [LF] (f <$> split_char LF text))) = true.
Proof.
  intros Hf. apply same_trimmed_iff. pose proof (split_char_pieces LF text) as Hp.
  rewrite split_join.
  - induction Hp as [|x l Hx Hp IH]; [constructor|]. rewrite fmap_cons. constructor; [|done]. symmetry. by apply Hf.
  - intros E%fmap_nil_inv. by apply split_char_nonempty in E.
  - apply Forall_fmap. eapply Forall_impl; [exact Hp|]. intros x Hx. by apply Hf.
Qed.

Lemma first_char_indent line c rest : getLeadingWhitespace line = c :: rest -> is_indent c = true.
Proof.
  unfold getLeadingWhitespace. intros E. pose proof (leading_ws _ line (le_n _)) as H. rewrite E in H. by inversion H.
Qed.

Lemma first_indent_char_indent lines : is_indent (first_indent_char lines) = true.
Proof.
  induction lines as [|l lines IH]; [done|]. cbn. destruct (getLeadingWhitespace l) eqn:E; [done|]. by eapply first_char_indent.
Qed.

Definition char_indent (c : option N) : Prop := match c with Some c => is_indent c = true | None => True end.

Lemma profile_char text : char_indent (ip_char (buildIndentProfile text)).
Proof.
  unfold buildIndentProfile. cbv zeta. cbn [ip_char].
  assert (Hf : forall lines p, char_indent (ip_char p) -> char_indent (ip_char (fold_left profile_line lines p))).
  { induction lines as [|l lines IH]; intros p Hp; [done|]. cbn [fold_left]. apply IH. unfold profile_line.
    case_match; [done|]. destruct (getLeadingWhitespace l) eqn:E; [done|].
    destruct (ip_char p) eqn:Ec; cbn; [done|]. by eapply first_char_indent. }
  by apply Hf.
Qed.

Lemma convert_keeps text spacesPerTab :
  same_trimmed (split_char LF text) (split_char LF (convertLeadingTabsToSpaces text spacesPerTab)) = true.
Proof.
  unfold convertLeadingTabsToSpaces. destruct (spacesPerTab =? 0)%nat; [apply same_trimmed_refl|].
  apply map_lines_keeps, convert_line_keeps.
Qed.

(** Adjusting the indentation changes nothing but indentation: the adjusted text has the
    lines of the new text, each with its text. *)
Theorem adjust_only_indentation oldText actualText newText :
  Forall2 (fun line adjusted => trim line = trim adjusted)
    (split_char LF newText) (split_char LF (adjustIndentation oldText actualText newText)).
Proof.
  apply same_trimmed_iff. unfold adjustIndentation. pose proof same_trimmed_refl as Hrefl.
  destruct (bool_decide (oldText = actualText)); [done|]. destruct (isIndentationOnlyRewrite _ _); [done|]. cbv zeta.
  pose proof (profile_char oldText) as Ho. pose proof (profile_char actualText) as Ha. revert Ho Ha.
  generalize (buildIndentProfile oldText) (buildIndentProfile actualText) (buildIndentProfile newText).
  intros po pa pn Ho Ha. destruct (negb _); [done|]. destruct (hasMixedIndentation _); [done|].
  destruct (chars_differ (ip_char po) (ip_char pa)).
  { unfold maybeConvertTabIndentation. destruct (_ || _); [done|]. destruct (indents_scaled _ _ _); [apply convert_keeps|done]. }
  destruct (computeUniformIndentDelta po pa) as [delta|]; [|done]. destruct (delta =? 0)%Z; [done|].
  destruct (chars_differ _ _); [done|]. apply map_lines_keeps, shift_line_keeps.
  destruct (ip_char pa); [done|]. destruct (ip_char po); [done|]. apply first_indent_char_indent.
Qed.

Lemma gcd_loop_gcd fuel x y : y < fuel -> gcd_loop fuel x y = Nat.gcd x y.
Proof.
  revert x y. induction fuel as [|f IH]; intros x y Hf; [lia|]. cbn [gcd_loop]. destruct y as [|y].
  - by rewrite Nat.gcd_0_r.
  - rewrite IH by (pose proof (Nat.mod_upper_bound x (S y)); lia). rewrite (Nat.gcd_comm x), (Nat.gcd_comm (S y)).
    apply Nat.Lcm0.gcd_mod.
Qed.

(** The loop terminates within its bound and computes the greatest common divisor. *)
Lemma gcd_spec a b : gcd a b = Nat.gcd a b.
Proof. apply gcd_loop_gcd. lia. Qed.
