(* ===== verification/Levenshtein.v ===== *)
(** * Edit distance (coding-agent/src/edit/modes/replace.ts)

    [levenshteinDistance] fills a table row by row and keeps two rows.  Its result is
    shown to be the least cost of an edit script, the declarative meaning of the distance,
    and [similarity] to be a score between 0 and 1 that is 1 only for equal strings. *)

From Stdlib Require Import QArith Qround.
From S2P Require Import Prelude JsText.

Local Open Scope nat_scope.

(** ** The table *)

(** [aCode === b.charCodeAt(j - 1) ? 0 : 1] *)
Definition cost (x y : N) : nat := if (x =? y)%N then 0 else 1.

(** The cells [curr[1..]] of a row, from [prev] and the cell to the left. *)
Fixpoint row_cells (aCode : N) (b : jsstring) (prev : list nat) (left_ : nat) : list nat :=
  match b, prev with
  | y :: b', diagonal :: ((up :: _) as prev') =>
      let deletion := up + 1 in
      let insertion := left_ + 1 in
      let substitution := diagonal + cost aCode y in
      let cell := Nat.min deletion (Nat.min insertion substitution) in
      cell :: row_cells aCode b' prev' cell
  | _, _ => []
  end.

Definition next_row (aCode : N) (b : jsstring) (prev : list nat) (i : nat) : list nat :=
  i :: row_cells aCode b prev i.

(** The loop over [a], with the row number of the next row. *)
Fixpoint rows (a b : jsstring) (prev : list nat) (i : nat) : list nat :=
  match a with
  | [] => prev
  | x :: a' => rows a' b (next_row x b prev i) (S i)
  end.

Definition levenshteinDistance (a b : jsstring) : nat :=
  if bool_decide (a = b) then 0
  else if (length a =? 0)%nat then length b
  else if (length b =? 0)%nat then length a
  else nth (length b) (rows a b (seq 0 (S (length b))) 1) 0.

(** The score of two strings. *)
Definition similarity (a b : jsstring) : Q :=
  if (length a =? 0)%nat && (length b =? 0)%nat then 1
  else
    let maxLen := Nat.max (length a) (length b) in
    1 - inject_Z (Z.of_nat (levenshteinDistance a b)) / inject_Z (Z.of_nat maxLen).

(** ** Edit scripts *)

(** [script a b n]: the edits that turn [a] into [b] cost [n]. *)
Inductive script : jsstring -> jsstring -> nat -> Prop :=
| script_nil : script [] [] 0
| script_insert y a b n : script a b n -> script a (y :: b) (S n)
| script_delete x a b n : script a b n -> script (x :: a) b (S n)
| script_replace x y a b n : script a b n -> script (x :: a) (y :: b) (cost x y + n).

(** [n] is the least cost. *)
Definition least_cost (a b : jsstring) (n : nat) : Prop :=
  script a b n /\ forall m, script a b m -> n <= m.

Lemma script_app a b n c d m : script a b n -> script c d m -> script (a ++ c) (b ++ d) (n + m).
Proof. intros H Hc. induction H; cbn [app plus]; rewrite <- ?Nat.add_assoc; by try constructor. Qed.

Lemma script_rev a b n : script a b n -> script (rev a) (rev b) n.
Proof.
  induction 1 as [|y a b n H IH|x a b n H IH|x y a b n H IH]; cbn [rev]; [constructor|..].
  - rewrite <- (app_nil_r (rev a)), <- Nat.add_1_r. by apply script_app; repeat constructor.
  - rewrite <- (app_nil_r (rev b)), <- Nat.add_1_r. by apply script_app; repeat constructor.
  - rewrite Nat.add_comm. apply script_app; [done|]. rewrite <- (Nat.add_0_r (cost x y)). repeat constructor.
Qed.

Lemma cost_sym x y : cost x y = cost y x.
Proof. unfold cost. by rewrite N.eqb_sym. Qed.

Lemma script_sym a b n : script a b n -> script b a n.
Proof.
  induction 1 as [|y a b n H IH|x a b n H IH|x y a b n H IH];
    [constructor|by apply script_delete|by apply script_insert|]. rewrite cost_sym. by constructor.
Qed.

Lemma script_to_nil a : script a [] (length a).
Proof. induction a; by constructor. Qed.

Lemma script_of_nil b : script [] b (length b).
Proof. induction b; by constructor. Qed.

Lemma script_refl a : script a a 0.
Proof.
  induction a as [|x a IH]; [constructor|]. replace 0 with (cost x x + 0) by by unfold cost; rewrite N.eqb_refl.
  by constructor.
Qed.

(** A script costs at least the difference of the lengths, and nothing only on equal
    strings. *)
Lemma script_lower a b n : script a b n -> length b <= length a + n /\ length a <= length b + n /\ (n = 0 -> a = b).
Proof.
  induction 1 as [|y a b n H (IH1 & IH2 & IH3)|x a b n H (IH1 & IH2 & IH3)|x y a b n H (IH1 & IH2 & IH3)]; cbn [length].
  - done.
  - split_and!; lia.
  - split_and!; lia.
  - split_and!; [lia..|]. unfold cost. destruct (N.eqb_spec x y) as [->|]; [|lia]. intros. by rewrite IH3.
Qed.

(** ** The recursive distance *)

Fixpoint lev (a : jsstring) : jsstring -> nat :=
  match a with
  | [] => length
  | x :: a' =>
      fix lev_b (b : jsstring) : nat :=
        match b with
        | [] => S (length a')
        | y :: b' => Nat.min (lev a' b + 1) (Nat.min (lev_b b' + 1) (lev a' b' + cost x y))
        end
  end.

Lemma lev_nil_r a : lev a [] = length a.
Proof. by destruct a. Qed.

Lemma lev_cons x a y b :
  lev (x :: a) (y :: b) = Nat.min (lev a (y :: b) + 1) (Nat.min (lev (x :: a) b + 1) (lev a b + cost x y)).
Proof. done. Qed.

Lemma lev_script a b : script a b (lev a b).
Proof.
  revert b. induction a as [|x a IHa]; intros b; [apply script_of_nil|].
  induction b as [|y b IHb]; [rewrite lev_nil_r; apply script_to_nil|]. rewrite lev_cons.
  destruct (Nat.min_dec (lev a (y :: b) + 1) (Nat.min (lev (x :: a) b + 1) (lev a b + cost x y))) as [-> | ->].
  { rewrite Nat.add_1_r. by constructor. }
  destruct (Nat.min_dec (lev (x :: a) b + 1) (lev a b + cost x y)) as [-> | ->].
  - rewrite Nat.add_1_r. by constructor.
  - rewrite Nat.add_comm. by constructor.
Qed.

Lemma lev_insert a y b : lev a (y :: b) <= S (lev a b).
Proof. destruct a as [|x a]; [done|]. rewrite lev_cons. lia. Qed.

Lemma lev_delete x a b : lev (x :: a) b <= S (lev a b).
Proof. destruct b as [|y b]; [by rewrite !lev_nil_r|]. rewrite lev_cons. lia. Qed.

Lemma lev_least a b n : script a b n -> lev a b <= n.
Proof.
  induction 1 as [|y a b n H IH|x a b n H IH|x y a b n H IH].
  - done.
  - pose proof (lev_insert a y b). lia.
  - pose proof (lev_delete x a b). lia.
  - rewrite lev_cons. lia.
Qed.

(** ** The table holds the distances of the prefixes *)

(** The row for the reversed prefix [ra] of [a]: the distances to the reversed prefixes of
    [b], from [rb] on. *)
Fixpoint cells (ra rb rest : jsstring) : list nat :=
  lev ra rb :: match rest with [] => [] | y :: rest' => cells ra (y :: rb) rest' end.

Lemma row_cells_spec x ra rb rest :
  lev (x :: ra) rb :: row_cells x rest (cells ra rb rest) (lev (x :: ra) rb) = cells (x :: ra) rb rest.
Proof.
  revert rb. induction rest as [|y rest IH]; intros rb; [done|]. cbn [cells]. f_equal.
  rewrite <- (IH (y :: rb)). rewrite (lev_cons x ra y rb). cbn [cells]. by destruct rest.
Qed.

Lemma rows_spec a b ra : rows a b (cells ra [] b) (S (length ra)) = cells (rev a ++ ra) [] b.
Proof.
  revert ra. induction a as [|x a IH]; intros ra; [done|]. cbn [rows rev]. rewrite <- (assoc_L app). cbn [app].
  rewrite <- (IH (x :: ra)). f_equal. exact (row_cells_spec x ra [] b).
Qed.

Lemma cells_first rb rest : cells [] rb rest = seq (length rb) (S (length rest)).
Proof.
  revert rb. induction rest as [|y rest IH]; intros rb; [done|]. cbn [cells]. rewrite IH. done.
Qed.

Lemma cells_last ra rb rest : nth (length rest) (cells ra rb rest) 0 = lev ra (rev rest ++ rb).
Proof.
  revert rb. induction rest as [|y rest IH]; intros rb; [done|]. cbn [cells length nth rev].
  rewrite IH, <- (assoc_L app). done.
Qed.

Lemma table_result a b : nth (length b) (rows a b (seq 0 (S (length b))) 1) 0 = lev (rev a) (rev b).
Proof.
  change (seq 0 (S (length b))) with (seq (length (@nil N)) (S (length b))). rewrite <- cells_first.
  change 1 with (S (length (@nil N))). rewrite rows_spec, cells_last, !app_nil_r. done.
Qed.

Lemma distance_least a b : least_cost a b (levenshteinDistance a b).
Proof.
  unfold levenshteinDistance. case_bool_decide as E; [subst; split; [apply script_refl|lia]|].
  destruct a as [|x a]; cbn [length Nat.eqb].
  { split; [apply script_of_nil|]. intros m Hm. apply script_lower in Hm. cbn in Hm. lia. }
  destruct b as [|y b]; cbn [length Nat.eqb].
  { split; [apply (script_to_nil (x :: a))|]. intros m Hm. apply script_lower in Hm. cbn in Hm. lia. }
  change (S (length b)) with (length (y :: b)). rewrite table_result. split.
  - rewrite <- (rev_involutive (x :: a)), <- (rev_involutive (y :: b)) at 1. apply script_rev, lev_script.
  - intros m Hm. by apply lev_least, script_rev.
Qed.

Lemma least_cost_unique a b n m : least_cost a b n -> least_cost a b m -> n = m.
Proof. intros [Hn Ln] [Hm Lm]. apply Nat.le_antisymm; auto. Qed.

Lemma cost_triangle x y z : cost x z <= cost x y + cost y z.
Proof. unfold cost. destruct (N.eqb_spec x y), (N.eqb_spec y z), (N.eqb_spec x z); subst; lia || congruence. Qed.

(** Scripts compose. *)
Lemma script_trans a b n c m : script a b n -> script b c m -> exists k, script a c k /\ k <= n + m.
Proof.
  intros H. revert c m. induction H as [|y a b n H IH|x a b n H IH|x y a b n H IH]; intros c m Hc.
  - by exists m.
  - remember (y :: b) as yb eqn:E. induction Hc as [|z b1 c m Hc IHc|y1 b1 c m Hc IHc|y1 z b1 c m Hc IHc]; simplify_eq.
    + destruct IHc as (k & Hk & Hle); [done|]. exists (S k). split; [by constructor|lia].
    + destruct (IH _ _ Hc) as (k & Hk & Hle). exists k. split; [done|lia].
    + destruct (IH _ _ Hc) as (k & Hk & Hle). exists (S k). split; [by constructor|lia].
  - destruct (IH _ _ Hc) as (k & Hk & Hle). exists (S k). split; [by constructor|lia].
  - remember (y :: b) as yb eqn:E. induction Hc as [|z b1 c m Hc IHc|y1 b1 c m Hc IHc|y1 z b1 c m Hc IHc]; simplify_eq.
    + destruct IHc as (k & Hk & Hle); [done|]. exists (S k). split; [by constructor|lia].
    + destruct (IH _ _ Hc) as (k & Hk & Hle). exists (S k). split; [by constructor|lia].
    + destruct (IH _ _ Hc) as (k & Hk & Hle). exists (cost x z + k). split; [by constructor|].
      pose proof (cost_triangle x y z). lia.
Qed.

(** Replacing position by position costs at most the longer length. *)
Lemma script_upper a b : exists n, script a b n /\ n <= Nat.max (length a) (length b).
Proof.
  revert b. induction a as [|x a IH]; intros b; [exists (length b); split; [apply script_of_nil|cbn; lia]|].
  destruct b as [|y b]; [exists (S (length a)); split; [apply (script_to_nil (x :: a))|cbn; lia]|].
  destruct (IH b) as (n & Hn & Hle). exists (cost x y + n). split; [by constructor|].
  unfold cost. destruct (x =? y)%N; cbn [length]; lia.
Qed.

Lemma distance_zero a b : levenshteinDistance a b = 0 <-> a = b.
Proof.
  destruct (distance_least a b) as [Hab Lab]. split; [by apply script_lower|]. intros ->.
  assert (levenshteinDistance b b <= 0) by apply Lab, script_refl. lia.
Qed.

Lemma distance_le a b : levenshteinDistance a b <= Nat.max (length a) (length b).
Proof.
  destruct (distance_least a b) as [_ Lab]. destruct (script_upper a b) as (n & Hn & Hle). apply Lab in Hn. lia.
Qed.

Lemma score_range (P : Prop) m d : (d = 0 <-> P) -> d <= S m ->
  ((0 <= 1 - inject_Z (Z.of_nat d) / inject_Z (Z.of_nat (S m)) <= 1)
   /\ (1 - inject_Z (Z.of_nat d) / inject_Z (Z.of_nat (S m)) == 1 <-> P))%Q.
Proof.
  intros HP Hd. change (Z.of_nat (S m)) with (Zpos (Pos.of_succ_nat m)). rewrite <- Qmake_Qdiv, <- HP.
  unfold Qle, Qeq. cbn. split; [split; lia|]. split; lia.
Qed.

(** C40: The distance is the least cost of an edit script: there is a sequence of insertions,
    deletions and replacements of that cost, and no cheaper one; so it is a metric's value:
    symmetric, zero exactly on equal strings, and at most the longer length. *)
Theorem levenshtein_least (a b : jsstring) :
  least_cost a b (levenshteinDistance a b)
  /\ levenshteinDistance b a = levenshteinDistance a b
  /\ (levenshteinDistance a b = 0 <-> a = b)
  /\ levenshteinDistance a b <= Nat.max (length a) (length b)
  /\ (forall c, levenshteinDistance a c <= levenshteinDistance a b + levenshteinDistance b c).
Proof.
  destruct (distance_least a b) as [Hab Lab]. split; [done|]. split_and!.
  - apply (least_cost_unique b a); [apply distance_least|]. split; [by apply script_sym|].
    intros m Hm. by apply Lab, script_sym.
  - apply distance_zero.
  - apply distance_le.
  - intros c. destruct (distance_least b c) as [Hbc _]. destruct (distance_least a c) as [_ Lac].
    destruct (script_trans _ _ _ _ _ Hab Hbc) as (k & Hk & Hle). apply Lac in Hk. lia.
Qed.

(** The score is between 0 and 1, and 1 only for equal strings. *)
Lemma similarity_range a b : (0 <= similarity a b <= 1)%Q /\ (similarity a b == 1 <-> a = b)%Q.
Proof.
  pose proof (distance_zero a b) as Hz. pose proof (distance_le a b) as Hle. unfold similarity.
  destruct a as [|x a]; [destruct b as [|y b]; [by split; [split; discriminate|]|]|]; cbn [length Nat.eqb andb] in *.
  - set (m := Nat.max 0 (S (length b))) in *. destruct m as [|m'] eqn:Em; [lia|]. revert Hz Hle.
    generalize (levenshteinDistance [] (y :: b)). apply score_range.
  - set (m := Nat.max (S (length a)) (length b)) in *. destruct m as [|m'] eqn:Em; [lia|]. revert Hz Hle.
    generalize (levenshteinDistance (x :: a) b). apply score_range.
Qed.
