(* ===== verification/FuzzyMatch.v ===== *)
(** * Finding text that is almost there (edit/modes/replace.ts, edit/normalize.ts)

    The searches of the replace and patch editors: a text in a file, a sequence of lines,
    and a context line, each by strategies of decreasing strictness.  Scores are exact
    rationals where the source has floating-point numbers.  The composed form of a string
    and the native implementations of the two scorers are the runtime's. *)

From Stdlib Require Import QArith.
From S2P Require Import Prelude JsText TextNormalize Indentation Levenshtein.

Local Open Scope nat_scope.

Record FuzzyMatch := mkFuzzy {
  fm_actualText : jsstring;
  fm_startIndex : nat;
  fm_startLine : nat;
  fm_confidence : Q
}.

Record BestFuzzyMatchResult := mkBest {
  bf_best : option FuzzyMatch;
  bf_aboveThresholdCount : nat;
  bf_secondBestScore : Q
}.

Record NativeSequenceFuzzyResult := mkNativeSeq {
  ns_index : option nat;
  ns_confidence : Q;
  ns_matchCount : nat;
  ns_matchIndices : list nat;
  ns_secondBestScore : Q
}.

(** [String.prototype.normalize("NFC")], and the native scorers where they are loaded. *)
Class FuzzyEnv := {
  nfc : jsstring -> jsstring;
  findBestFuzzyMatchNative : option (jsstring -> jsstring -> Q -> BestFuzzyMatchResult);
  scoreSequenceFuzzyNative : option (list jsstring -> list jsstring -> nat -> bool -> NativeSequenceFuzzyResult)
}.

(** The outcome of a text search, without the previews for messages. *)
Record MatchOutcome := mkOutcome {
  mo_match : option FuzzyMatch;
  mo_closest : option FuzzyMatch;
  mo_occurrences : option nat;
  mo_fuzzyMatches : option nat;
  mo_dominantFuzzy : bool
}.

Inductive SequenceMatchStrategy :=
| SExact | STrimTrailing | STrim | SCommentPrefix | SUnicode | SPrefix | SSubstring | SFuzzy | SFuzzyDominant | SCharacter.

#[global] Instance strategy_eq_dec : EqDecision SequenceMatchStrategy.
Proof. solve_decision. Defined.

(** The result of a search for lines; the one for a context line has the same fields. *)
Record SequenceSearchResult := mkSearch {
  sr_index : option nat;
  sr_confidence : Q;
  sr_matchCount : option nat;
  sr_matchIndices : option (list nat);
  sr_strategy : option SequenceMatchStrategy
}.

Definition not_found (confidence : Q) : SequenceSearchResult := mkSearch None confidence None None None.

(** ** Constants *)

Definition DEFAULT_FUZZY_THRESHOLD : Q := 95 # 100.
Definition SEQUENCE_FUZZY_THRESHOLD : Q := 92 # 100.
Definition FALLBACK_THRESHOLD : Q := 8 # 10.
Definition CONTEXT_FUZZY_THRESHOLD : Q := 8 # 10.
Definition PARTIAL_MATCH_MIN_LENGTH : nat := 6.
Definition MAX_RECORDED_MATCHES : nat := 5.
Definition DOMINANT_FUZZY_MIN_CONFIDENCE : Q := 97 # 100.
Definition DOMINANT_FUZZY_DELTA : Q := 8 # 100.
Definition CHARACTER_MATCH_THRESHOLD : Q := 92 # 100.

Definition Qlt_bool (a b : Q) : bool := negb (Qle_bool b a).

(** [a / b >= 0.3] for lengths. *)
Definition ratio_at_least_min (a b : nat) : bool := (3 * b <=? 10 * a)%nat.

(** ** Normal forms of a line *)

Definition in_range (lo hi c : N) : bool := (lo <=? c)%N && (c <=? hi)%N.

(** The character classes and what replaces them, in the order of the source. *)
Definition UNICODE_REPLACEMENTS : list ((N -> bool) * jsstring) :=
  [ (fun c => in_range 8208 8213 c || (c =? 8722)%N, js "-");
    (fun c => in_range 8216 8219 c, js "'");
    (fun c => in_range 8220 8223 c, [34%N]);
    (fun c => (c =? 160)%N || in_range 8194 8202 c || (c =? 8239)%N || (c =? 8287)%N || (c =? 12288)%N, js " ");
    (fun c => (c =? 8800)%N, js "!=");
    (fun c => (c =? 189)%N, js "1/2");
    (fun c => in_range 8203 8205 c || (c =? 65279)%N, []) ].

(** [s.replace(/[class]/g, replacement)] *)
Definition replace_class (class : N -> bool) (replacement s : jsstring) : jsstring :=
  s ≫= (fun c => if class c then replacement else [c]).

Definition normalizeUnicode `{FuzzyEnv} (s : jsstring) : jsstring :=
  nfc (fold_left (fun result r => replace_class r.1 r.2 result) UNICODE_REPLACEMENTS (trim s)).

(** [s.replace(/[ \t]+/g, " ")] *)
Fixpoint collapse_blanks (after_blank : bool) (s : jsstring) : jsstring :=
  match s with
  | [] => []
  | c :: rest =>
      if is_indent c then (if after_blank then [] else [SPC]) ++ collapse_blanks true rest
      else c :: collapse_blanks false rest
  end.

Definition one_of (cs : list N) (c : N) : bool := existsb (fun d => (d =? c)%N) cs.

Definition normalizeForFuzzy (line : jsstring) : jsstring :=
  let trimmed := trim line in
  if bool_decide (trimmed = []) then []
  else
    collapse_blanks false
      (replace_class (one_of [8208; 8209; 8210; 8211; 8212; 8722]%N) (js "-")
         (replace_class (one_of [39; 8218; 8219; 96; 180]%N) (js "'")
            (replace_class (one_of [34; 8222; 8223; 171; 187]%N) [34%N] trimmed))).

(** ** Exact occurrences *)

(** [content.split(target).length - 1]: occurrences from the left that do not overlap;
    [skip] is what is left of the last one. *)
Fixpoint count_occurrences (target : jsstring) (skip : nat) (content : jsstring) : nat :=
  match content with
  | [] => 0
  | _ :: rest =>
      match skip with
      | S skip => count_occurrences target skip rest
      | O => if starts_with target content then S (count_occurrences target (pred (length target)) rest)
             else count_occurrences target 0 rest
      end
  end.

(** [text.split("\n").length] *)
Definition line_count (text : jsstring) : nat := length (split_char LF text).

Definition findExactMatchOutcome (content target : jsstring) : option MatchOutcome :=
  match indexOf target content with
  | None => None
  | Some exactIndex =>
      let occurrences := count_occurrences target 0 content in
      if (1 <? occurrences)%nat then Some (mkOutcome None None (Some occurrences) None false)
      else Some (mkOutcome (Some (mkFuzzy target exactIndex (line_count (take exactIndex content)) 1)) None None None false)
  end.

(** ** The best window of lines *)

Definition min_list (l : list nat) : option nat :=
  match l with [] => None | x :: l => Some (fold_left Nat.min l x) end.

(** [Math.round(a / b)] for non-negative integers. *)
Definition round_div (a b : nat) : nat := (2 * a + b) / (2 * b).

Definition computeRelativeIndentDepths (lines : list jsstring) : list nat :=
  let nonEmptyIndents := countLeadingWhitespace <$> List.filter isNonEmptyLine lines in
  let minIndent := default 0 (min_list nonEmptyIndents) in
  let indentSteps := List.filter (fun step => (0 <? step)%nat) ((fun indent => indent - minIndent) <$> nonEmptyIndents) in
  let indentUnit := default 1 (min_list indentSteps) in
  (fun line => if negb (isNonEmptyLine line) then 0
               else round_div (countLeadingWhitespace line - minIndent) indentUnit) <$> lines.

Definition normalized_line (prefix : jsstring) (line : jsstring) : jsstring :=
  let trimmed := trim line in
  if bool_decide (trimmed = []) then prefix else prefix ++ normalizeForFuzzy trimmed.

Definition normalizeLines (includeDepth : bool) (lines : list jsstring) : list jsstring :=
  if includeDepth
  then zip_with (fun depth line => normalized_line (num_to_string (Z.of_nat depth) ++ js "|") line)
         (computeRelativeIndentDepths lines) lines
  else normalized_line (js "|") <$> lines.

(** The offset of every line in the text. *)
Fixpoint line_offsets (offset : nat) (lines : list jsstring) : list nat :=
  match lines with
  | [] => []
  | line :: rest => offset :: line_offsets (offset + length line + (match rest with [] => 0 | _ => 1 end)) rest
  end.

Definition computeLineOffsets (lines : list jsstring) : list nat := line_offsets 0 lines.

Definition sum_scores (scores : list Q) : Q := fold_left (fun total s => Qred (total + s)) scores 0%Q.

Definition average (scores : list Q) : Q := Qred (sum_scores scores / inject_Z (Z.of_nat (length scores))).

Definition window {A} (start len : nat) (l : list A) : list A := take len (drop start l).

(** One window of the loop. *)
Definition try_window (contentLines targetLines targetNormalized : list jsstring) (offsets : list nat) (threshold : Q)
    (includeDepth : bool) (st : option FuzzyMatch * Q * Q * nat) (start : nat) : option FuzzyMatch * Q * Q * nat :=
  let '(best, bestScore, secondBestScore, above) := st in
  let windowLines := window start (length targetLines) contentLines in
  let score := average (zip_with similarity targetNormalized (normalizeLines includeDepth windowLines)) in
  let above := if Qle_bool threshold score then S above else above in
  if Qlt_bool bestScore score
  then (Some (mkFuzzy (join [LF] windowLines) (default 0 (offsets !! start)) (S start) score), score, bestScore, above)
  else if Qlt_bool secondBestScore score then (best, bestScore, score, above)
  else (best, bestScore, secondBestScore, above).

Definition findBestFuzzyMatchCore (contentLines targetLines : list jsstring) (offsets : list nat) (threshold : Q)
    (includeDepth : bool) : BestFuzzyMatchResult :=
  let targetNormalized := normalizeLines includeDepth targetLines in
  let '(best, _, secondBestScore, above) :=
    fold_left (try_window contentLines targetLines targetNormalized offsets threshold includeDepth)
      (seq 0 (S (length contentLines) - length targetLines)) (None, (-1 # 1)%Q, (-1 # 1)%Q, 0) in
  mkBest best above secondBestScore.

Definition findBestFuzzyMatch (content target : jsstring) (threshold : Q) : BestFuzzyMatchResult :=
  let contentLines := split_char LF content in
  let targetLines := split_char LF target in
  if bool_decide (target = []) then mkBest None 0 0
  else if (length contentLines <? length targetLines)%nat then mkBest None 0 0
  else
    let offsets := computeLineOffsets contentLines in
    let result := findBestFuzzyMatchCore contentLines targetLines offsets threshold true in
    match bf_best result with
    | Some b =>
        if Qlt_bool (fm_confidence b) threshold && Qle_bool FALLBACK_THRESHOLD (fm_confidence b) then
          let noDepthResult := findBestFuzzyMatchCore contentLines targetLines offsets threshold false in
          match bf_best noDepthResult with
          | Some n => if Qlt_bool (fm_confidence b) (fm_confidence n) then noDepthResult else result
          | None => result
          end
        else result
    | None => result
    end.

Definition no_outcome : MatchOutcome := mkOutcome None None None None false.

Definition findMatch `{FuzzyEnv} (content target : jsstring) (allowFuzzy : bool) (threshold : Q) : MatchOutcome :=
  if bool_decide (target = []) then no_outcome
  else
    match findExactMatchOutcome content target with
    | Some exactMatch => exactMatch
    | None =>
        let r := match findBestFuzzyMatchNative with
                 | Some native => native content target threshold
                 | None => findBestFuzzyMatch content target threshold
                 end in
        match bf_best r with
        | None => no_outcome
        | Some best =>
            let above := bf_aboveThresholdCount r in
            if allowFuzzy && Qle_bool threshold (fm_confidence best) && (above =? 1)%nat
            then mkOutcome (Some best) (Some best) None None false
            else if allowFuzzy && Qle_bool threshold (fm_confidence best) && (1 <? above)%nat
                    && Qle_bool DOMINANT_FUZZY_MIN_CONFIDENCE (fm_confidence best)
                    && Qle_bool DOMINANT_FUZZY_DELTA (fm_confidence best - bf_secondBestScore r)
            then mkOutcome (Some best) (Some best) None (Some above) true
            else mkOutcome None (Some best) None (Some above) false
        end
    end.

(** ** Sequences of lines *)

Record IndexedMatches := mkMatches {
  im_firstMatch : option nat;
  im_matchCount : nat;
  im_matchIndices : list nat
}.

(** The indices from [start] to [endInclusive]. *)
Definition index_range (start endInclusive : nat) : list nat := seq start (S endInclusive - start).

Definition collectIndexedMatches (indices : list nat) (predicate : nat -> bool) : IndexedMatches :=
  let found := List.filter predicate indices in
  mkMatches (head found) (length found) (take MAX_RECORDED_MATCHES found).

Definition toSingleMatchResult (m : IndexedMatches) (confidence : Q) (strategy : SequenceMatchStrategy) :
    option SequenceSearchResult :=
  match im_firstMatch m with
  | None => None
  | Some i => Some (mkSearch (Some i) confidence None None (Some strategy))
  end.

Definition toAmbiguousMatchResult (m : IndexedMatches) (confidence : Q) (strategy : SequenceMatchStrategy) :
    option SequenceSearchResult :=
  match im_firstMatch m with
  | None => None
  | Some i => Some (mkSearch (Some i) confidence (Some (im_matchCount m)) (Some (im_matchIndices m)) (Some strategy))
  end.

(** The pattern matches the lines from here on. *)
Fixpoint matches_from (compare : jsstring -> jsstring -> bool) (lines pattern : list jsstring) : bool :=
  match pattern, lines with
  | [], _ => true
  | p :: pattern, l :: lines => compare l p && matches_from compare lines pattern
  | _ :: _, [] => false
  end.

Definition matchesAt (lines pattern : list jsstring) (i : nat) (compare : jsstring -> jsstring -> bool) : bool :=
  matches_from compare (drop i lines) pattern.

Definition fuzzyScoreAt (lines pattern : list jsstring) (i : nat) : Q :=
  average (zip_with (fun l p => similarity (normalizeForFuzzy l) (normalizeForFuzzy p))
             (window i (length pattern) lines) pattern).

Definition lineStartsWithPattern (line pattern : jsstring) : bool :=
  let lineNorm := normalizeForFuzzy line in
  let patternNorm := normalizeForFuzzy pattern in
  if bool_decide (patternNorm = []) then bool_decide (lineNorm = []) else starts_with patternNorm lineNorm.

(** [s.includes(pattern)] *)
Definition includes (pattern s : jsstring) : bool := bool_decide (is_Some (indexOf pattern s)).

Definition lineIncludesPattern (line pattern : jsstring) : bool :=
  let lineNorm := normalizeForFuzzy line in
  let patternNorm := normalizeForFuzzy pattern in
  if bool_decide (patternNorm = []) then bool_decide (lineNorm = [])
  else if (length patternNorm <? PARTIAL_MATCH_MIN_LENGTH)%nat then false
  else if negb (includes patternNorm lineNorm) then false
  else ratio_at_least_min (length patternNorm) (Nat.max 1 (length lineNorm)).

Definition stripCommentPrefix (line : jsstring) : jsstring :=
  let trimmed := trimStart line in
  let trimmed :=
    if starts_with (js "/*") trimmed then drop 2 trimmed
    else if starts_with (js "*/") trimmed then drop 2 trimmed
    else if starts_with (js "//") trimmed then drop 2 trimmed
    else if starts_with (js "*") trimmed then drop 1 trimmed
    else if starts_with (js "#") trimmed then drop 1 trimmed
    else if starts_with (js ";") trimmed then drop 1 trimmed
    else if starts_with (js "/") trimmed && bool_decide (trimmed !! 1 = Some SPC) then drop 1 trimmed
    else trimmed in
  trimStart trimmed.

(** The first result of a list of passes. *)
Fixpoint first_some {A} (l : list (option A)) : option A :=
  match l with
  | [] => None
  | Some x :: _ => Some x
  | None :: rest => first_some rest
  end.

Definition text_eqb (a b : jsstring) : bool := bool_decide (a = b).

(** The passes that accept the first match, by decreasing strictness. *)
Definition comparison_passes `{FuzzyEnv} : list ((jsstring -> jsstring -> bool) * Q * SequenceMatchStrategy) :=
  [ (text_eqb, 1%Q, SExact);
    (fun a b => text_eqb (trimEnd a) (trimEnd b), (99 # 100)%Q, STrimTrailing);
    (fun a b => text_eqb (trim a) (trim b), (98 # 100)%Q, STrim);
    (fun a b => text_eqb (stripCommentPrefix a) (stripCommentPrefix b), (975 # 1000)%Q, SCommentPrefix);
    (fun a b => text_eqb (normalizeUnicode a) (normalizeUnicode b), (97 # 100)%Q, SUnicode) ].

(** The passes that report how many matches there are. *)
Definition partial_passes : list ((jsstring -> jsstring -> bool) * Q * SequenceMatchStrategy) :=
  [ (lineStartsWithPattern, (965 # 1000)%Q, SPrefix); (lineIncludesPattern, (94 # 100)%Q, SSubstring) ].

Definition runExactPasses `{FuzzyEnv} (lines pattern : list jsstring) (allowFuzzy : bool) (from to : nat) :
    option SequenceSearchResult :=
  let search pass := collectIndexedMatches (index_range from to) (fun i => matchesAt lines pattern i pass.1.1) in
  match first_some ((fun pass => toSingleMatchResult (search pass) pass.1.2 pass.2) <$> comparison_passes) with
  | Some r => Some r
  | None =>
      if negb allowFuzzy then None
      else first_some ((fun pass => toAmbiguousMatchResult (search pass) pass.1.2 pass.2) <$> partial_passes)
  end.

(** The state of the scoring loop. *)
Record fuzzy_state := mkFuzzyState {
  fs_bestScore : Q;
  fs_secondBestScore : Q;
  fs_bestIndex : option nat;
  fs_matches : list nat
}.

Definition score_step (lines pattern : list jsstring) (st : fuzzy_state) (i : nat) : fuzzy_state :=
  let score := fuzzyScoreAt lines pattern i in
  let matches := if Qle_bool SEQUENCE_FUZZY_THRESHOLD score then fs_matches st ++ [i] else fs_matches st in
  if Qlt_bool (fs_bestScore st) score then mkFuzzyState score (fs_bestScore st) (Some i) matches
  else if Qlt_bool (fs_secondBestScore st) score then mkFuzzyState (fs_bestScore st) score (fs_bestIndex st) matches
  else mkFuzzyState (fs_bestScore st) (fs_secondBestScore st) (fs_bestIndex st) matches.

Definition scoreFuzzyRange (lines pattern : list jsstring) (indices : list nat) (st : fuzzy_state) : fuzzy_state :=
  fold_left (score_step lines pattern) indices st.

(** A match by score: alone when it dominates the second best. *)
Definition scored_result (index : nat) (score second : Q) (matchCount : nat) (matchIndices : list nat) : SequenceSearchResult :=
  if (1 <? matchCount)%nat && Qle_bool DOMINANT_FUZZY_MIN_CONFIDENCE score
     && Qle_bool DOMINANT_FUZZY_DELTA (score - second)
  then mkSearch (Some index) score (Some 1) (Some matchIndices) (Some SFuzzyDominant)
  else mkSearch (Some index) score (Some matchCount) (Some matchIndices) (Some SFuzzy).

(** The last resort: the text of the lines, character by character. *)
Definition character_match `{FuzzyEnv} (lines pattern : list jsstring) (start : nat) (bestScore : Q) : SequenceSearchResult :=
  let contentText := join [LF] (drop start lines) in
  let outcome := findMatch contentText (join [LF] pattern) true CHARACTER_MATCH_THRESHOLD in
  let count := match mo_occurrences outcome with Some n => Some n | None => mo_fuzzyMatches outcome end in
  match mo_match outcome with
  | Some m =>
      let lineIndex := start + line_count (take (fm_startIndex m) contentText) - 1 in
      mkSearch (Some lineIndex) (fm_confidence m) (Some (default 1 count)) None (Some SCharacter)
  | None => mkSearch None bestScore count None None
  end.

(** What follows the exact passes when fuzzy matching is allowed. *)
Definition fuzzy_passes `{FuzzyEnv} (lines pattern : list jsstring) (start searchStart maxStart : nat) (eof : bool) :
    SequenceSearchResult :=
  let native := match scoreSequenceFuzzyNative with
                | Some score =>
                    let r := score lines pattern start eof in
                    match ns_index r with
                    | Some i => if Qle_bool SEQUENCE_FUZZY_THRESHOLD (ns_confidence r)
                                then Some (scored_result i (ns_confidence r) (ns_secondBestScore r) (ns_matchCount r)
                                             (ns_matchIndices r)) else None
                    | None => None
                    end
                | None => None
                end in
  match native with
  | Some r => r
  | None =>
      let st := scoreFuzzyRange lines pattern (index_range searchStart maxStart) (mkFuzzyState 0 0 None []) in
      let st := if eof && (start <? searchStart)%nat
                then scoreFuzzyRange lines pattern (seq start (searchStart - start)) st else st in
      match fs_bestIndex st with
      | Some i =>
          if Qle_bool SEQUENCE_FUZZY_THRESHOLD (fs_bestScore st)
          then scored_result i (fs_bestScore st) (fs_secondBestScore st) (length (fs_matches st))
                 (take MAX_RECORDED_MATCHES (fs_matches st))
          else character_match lines pattern start (fs_bestScore st)
      | None => character_match lines pattern start (fs_bestScore st)
      end
  end.

Definition seekSequence `{FuzzyEnv} (lines pattern : list jsstring) (start : nat) (eof allowFuzzy : bool) :
    SequenceSearchResult :=
  if (length pattern =? 0)%nat then mkSearch (Some start) 1 None None (Some SExact)
  else if (length lines <? length pattern)%nat then not_found 0
  else
    let maxStart := length lines - length pattern in
    let searchStart := if eof then maxStart else start in
    match runExactPasses lines pattern allowFuzzy searchStart maxStart with
    | Some r => r
    | None =>
        let fromStart := if eof && (start <? searchStart)%nat
                         then runExactPasses lines pattern allowFuzzy start maxStart else None in
        match fromStart with
        | Some r => r
        | None => if negb allowFuzzy then not_found 0
                  else fuzzy_passes lines pattern start searchStart maxStart eof
        end
    end.

(** ** Context lines *)

Definition line_at (lines : list jsstring) (i : nat) : jsstring := nth i lines [].

(** Pass 5: substring matches; a ratio disambiguates several. *)
Definition substring_pass (lines : list jsstring) (contextNorm : jsstring) (startFrom : nat) : option SequenceSearchResult :=
  if (length contextNorm <? PARTIAL_MATCH_MIN_LENGTH)%nat then None
  else
    let norm i := normalizeForFuzzy (line_at lines i) in
    let all := List.filter (fun i => includes contextNorm (norm i)) (seq startFrom (length lines - startFrom)) in
    let matchIndices := Some (take 5 all) in
    let kept := List.filter (fun i => ratio_at_least_min (length contextNorm) (Nat.max 1 (length (norm i)))) all in
    let strategy := Some SSubstring in
    match all with
    | [] => None
    | [i] => Some (mkSearch (Some i) (94 # 100) (Some 1) matchIndices strategy)
    | i :: _ =>
        match kept with
        | k :: _ => Some (mkSearch (Some k) (94 # 100) (Some (length kept)) matchIndices strategy)
        | [] => Some (mkSearch (Some i) (94 # 100) (Some (length all)) matchIndices strategy)
        end
    end.

(** Pass 6: the best score. *)
Definition context_score_step (lines : list jsstring) (contextNorm : jsstring) (st : option nat * Q * list nat) (i : nat) :
    option nat * Q * list nat :=
  let '(bestIndex, bestScore, matches) := st in
  let score := similarity (normalizeForFuzzy (line_at lines i)) contextNorm in
  let matches := if Qle_bool CONTEXT_FUZZY_THRESHOLD score then matches ++ [i] else matches in
  if Qlt_bool bestScore score then (Some i, score, matches) else (bestIndex, bestScore, matches).

(** All passes but the one for function names; the second component is the best score
    when nothing was found. *)
Definition context_passes `{FuzzyEnv} (lines : list jsstring) (context : jsstring) (startFrom : nat) (allowFuzzy : bool) :
    SequenceSearchResult + Q :=
  let indices := seq startFrom (length lines - startFrom) in
  let search predicate := collectIndexedMatches indices predicate in
  let exact := toAmbiguousMatchResult (search (fun i => text_eqb (line_at lines i) context)) 1 SExact in
  let trimmed := toAmbiguousMatchResult (search (fun i => text_eqb (trim (line_at lines i)) (trim context))) (99 # 100) STrim in
  let unicode := toAmbiguousMatchResult
                   (search (fun i => text_eqb (normalizeUnicode (line_at lines i)) (normalizeUnicode context))) (98 # 100) SUnicode in
  match first_some [exact; trimmed; unicode] with
  | Some r => inl r
  | None =>
      if negb allowFuzzy then inl (not_found 0)
      else
        let contextNorm := normalizeForFuzzy context in
        let prefix := if bool_decide (contextNorm = []) then None
                      else toAmbiguousMatchResult
                             (search (fun i => starts_with contextNorm (normalizeForFuzzy (line_at lines i)))) (96 # 100) SPrefix in
        match first_some [prefix; substring_pass lines contextNorm startFrom] with
        | Some r => inl r
        | None =>
            let '(bestIndex, bestScore, matches) :=
              fold_left (context_score_step lines contextNorm) indices (None, 0%Q, []) in
            match bestIndex with
            | Some i => if Qle_bool CONTEXT_FUZZY_THRESHOLD bestScore
                        then inl (mkSearch (Some i) bestScore (Some (length matches)) (Some (take MAX_RECORDED_MATCHES matches))
                                    (Some SFuzzy))
                        else inr bestScore
            | None => inr bestScore
            end
        end
  end.

Definition ends_with (suffix s : jsstring) : bool := starts_with (rev suffix) (rev s).

(** The search without the retry for a function name. *)
Definition findContextLine_plain `{FuzzyEnv} (lines : list jsstring) (context : jsstring) (startFrom : nat) (allowFuzzy : bool) :
    SequenceSearchResult :=
  match context_passes lines context startFrom allowFuzzy with inl r => r | inr score => not_found score end.

Definition findContextLine `{FuzzyEnv} (lines : list jsstring) (context : jsstring) (startFrom : nat) (allowFuzzy : bool) :
    SequenceSearchResult :=
  match context_passes lines context startFrom allowFuzzy with
  | inl r => r
  | inr bestScore =>
      let trimmedContext := trim context in
      if ends_with (js "()") trimmedContext then
        let name := take (length trimmedContext - 2) trimmedContext in
        let parenResult := findContextLine_plain lines (name ++ js "(") startFrom allowFuzzy in
        if bool_decide (is_Some (sr_index parenResult)) || (0 <? default 0 (sr_matchCount parenResult))%nat then parenResult
        else findContextLine_plain lines name startFrom allowFuzzy
      else not_found bestScore
  end.
