(* ===== verification/FuzzyFacts.v ===== *)
(** * What a search promises

    A found sequence lies inside the file, whatever strategy found it, and matches the
    pattern in the sense of the strategy; an exact occurrence wins over everything else. *)

From Stdlib Require Import QArith.
From S2P Require Import Prelude JsText TextNormalize Indentation Levenshtein FuzzyMatch.

Local Open Scope nat_scope.

(** ** Characters and lines *)

Definition count_lf (s : jsstring) : nat := length (List.filter (fun c => (c =? LF)%N) s).

Lemma count_lf_app s t : count_lf (s ++ t) = count_lf s + count_lf t.
Proof. unfold count_lf. by rewrite List.filter_app, length_app. Qed.

Lemma line_count_lf s : line_count s = S (count_lf s).
Proof.
  unfold line_count, count_lf. induction s as [|c s IH]; [done|]. cbn [split_char List.filter].
  destruct (c =? LF)%N; cbn [length]; [by rewrite IH|].
  pose proof (split_char_nonempty LF s). destruct (split_char LF s) as [|w ws]; [done|]. exact IH.
Qed.

Lemma count_lf_none s : Forall (fun c => c <> LF) s -> count_lf s = 0.
Proof. unfold count_lf. induction 1 as [|c s Hc H IH]; [done|]. cbn. by rewrite (proj2 (N.eqb_neq c LF) Hc). Qed.

Definition no_lf (lines : list jsstring) : Prop := Forall (Forall (fun c => c <> LF)) lines.

Lemma count_lf_join lines : no_lf lines -> lines <> [] -> S (count_lf (join [LF] lines)) = length lines.
Proof.
  intros H Hne. rewrite <- line_count_lf. unfold line_count. by rewrite split_join.
Qed.

Lemma indexOf_spec pattern s n : indexOf pattern s = Some n ->
  exists pre post, s = pre ++ pattern ++ post /\ length pre = n.
Proof.
  revert n. induction s as [|c s IH]; intros n; cbn [indexOf].
  - destruct (starts_with pattern []) eqn:E; [|done]. intros [= <-]. unfold starts_with in E. simpl_bool.
    exists [], (drop (length pattern) []). split; [|done]. cbn [app]. rewrite <- E at 1. by rewrite take_drop.
  - destruct (starts_with pattern (c :: s)) eqn:E.
    + intros [= <-]. unfold starts_with in E. simpl_bool. exists [], (drop (length pattern) (c :: s)). split; [|done].
      cbn [app]. rewrite <- E at 1. by rewrite take_drop.
    + destruct (indexOf pattern s) as [m|] eqn:Ei; [|done]. intros [= <-].
      destruct (IH m eq_refl) as (pre & post & -> & <-). by exists (c :: pre), post.
Qed.

(** ** Ranges *)

Lemma index_range_spec from to i : i ∈ index_range from to -> from <= i <= to.
Proof. unfold index_range. intros H%list_elem_of_In%in_seq. lia. Qed.

Lemma matches_from_length c lines pattern : matches_from c lines pattern = true -> length pattern <= length lines.
Proof.
  revert lines. induction pattern as [|p pattern IH]; intros [|l lines]; cbn; [lia|lia|done|].
  intros [_ H]%andb_prop. apply IH in H. lia.
Qed.

Lemma matchesAt_range lines pattern i c : pattern <> [] -> matchesAt lines pattern i c = true ->
  i + length pattern <= length lines.
Proof.
  intros Hne H%matches_from_length. rewrite length_drop in H. destruct pattern; [done|]. cbn [length] in *. lia.
Qed.

Lemma first_match_spec indices p i : im_firstMatch (collectIndexedMatches indices p) = Some i -> i ∈ indices /\ p i = true.
Proof.
  cbn. intros H. assert (i ∈ List.filter p indices) as Hi by (by apply head_Some_elem_of).
  apply list_elem_of_In, filter_In in Hi as [Hi Hp]. by rewrite list_elem_of_In.
Qed.

Lemma first_some_spec {A} (l : list (option A)) x : first_some l = Some x -> Some x ∈ l.
Proof. induction l as [|[y|] l IH]; cbn; [done| |]; [intros [= ->]; by left|intros; right; by apply IH]. Qed.

Section facts.
Context `{FuzzyEnv}.

(** The comparison a strategy stands for. *)
Definition strategy_compare (s : SequenceMatchStrategy) : option (jsstring -> jsstring -> bool) :=
  match s with
  | SExact => Some text_eqb
  | STrimTrailing => Some (fun a b => text_eqb (trimEnd a) (trimEnd b))
  | STrim => Some (fun a b => text_eqb (trim a) (trim b))
  | SCommentPrefix => Some (fun a b => text_eqb (stripCommentPrefix a) (stripCommentPrefix b))
  | SUnicode => Some (fun a b => text_eqb (normalizeUnicode a) (normalizeUnicode b))
  | SPrefix => Some lineStartsWithPattern
  | SSubstring => Some lineIncludesPattern
  | SFuzzy | SFuzzyDominant | SCharacter => None
  end.

(** What a result says about the place it found, and about the places it lists. *)
Definition place_ok (lines pattern : list jsstring) (r : SequenceSearchResult) : Prop :=
  forall i, sr_index r = Some i ->
    i + length pattern <= length lines
    /\ forall s c, sr_strategy r = Some s -> strategy_compare s = Some c -> matchesAt lines pattern i c = true.

Definition listed_ok (lines pattern : list jsstring) (r : SequenceSearchResult) : Prop :=
  forall l, sr_matchIndices r = Some l -> Forall (fun i => i + length pattern <= length lines) l.

Definition found_ok (lines pattern : list jsstring) (r : SequenceSearchResult) : Prop :=
  place_ok lines pattern r /\ listed_ok lines pattern r.

Lemma not_found_ok lines pattern score : found_ok lines pattern (not_found score).
Proof. by split; intros ?. Qed.

Lemma collected_ok lines pattern indices c : pattern <> [] ->
  Forall (fun i => i + length pattern <= length lines)
    (im_matchIndices (collectIndexedMatches indices (fun i => matchesAt lines pattern i c))).
Proof.
  intros Hne. cbn. apply Forall_take, Forall_forall. intros i Hi%list_elem_of_In%filter_In. destruct Hi as [_ Hi].
  by eapply matchesAt_range.
Qed.

Lemma passes_ok lines pattern allowFuzzy from to r : pattern <> [] ->
  runExactPasses lines pattern allowFuzzy from to = Some r -> found_ok lines pattern r.
Proof.
  intros Hne Hr. unfold runExactPasses in Hr.
  assert (Hpass : forall pass r', pass ∈ comparison_passes ++ partial_passes ->
    toSingleMatchResult (collectIndexedMatches (index_range from to) (fun i => matchesAt lines pattern i pass.1.1)) pass.1.2 pass.2 = Some r'
    \/ toAmbiguousMatchResult (collectIndexedMatches (index_range from to) (fun i => matchesAt lines pattern i pass.1.1)) pass.1.2 pass.2 = Some r' ->
    found_ok lines pattern r').
  { intros pass r' Hin Hres. split.
    2: { intros l Hl. unfold toSingleMatchResult, toAmbiguousMatchResult in Hres.
      destruct (im_firstMatch _); [|by destruct Hres]. destruct Hres as [[= <-]|[= <-]]; cbn [sr_matchIndices] in Hl; [done|].
      injection Hl as <-. by apply collected_ok. }
    intros i Hi.
    assert (im_firstMatch (collectIndexedMatches (index_range from to) (fun i => matchesAt lines pattern i pass.1.1)) = Some i
            /\ sr_strategy r' = Some pass.2) as [Hf Hs].
    { unfold toSingleMatchResult, toAmbiguousMatchResult in Hres.
      destruct (im_firstMatch _) as [j|]; [|by destruct Hres]. by destruct Hres as [[= <-]|[= <-]]; cbn in *; simplify_eq. }
    apply first_match_spec in Hf as [_ Hm]. split; [by eapply matchesAt_range|]. intros s c Hs' Hc.
    rewrite Hs in Hs'. injection Hs' as <-.
    repeat (apply elem_of_cons in Hin as [->|Hin]; [cbn in Hc; by injection Hc as <-|]). by apply not_elem_of_nil in Hin. }
  destruct (first_some (_ <$> comparison_passes)) as [r'|] eqn:E.
  - injection Hr as ->. apply first_some_spec, list_elem_of_fmap in E as (pass & E & Hin).
    apply (Hpass pass); [|by left]. apply elem_of_app. by left.
  - destruct (negb allowFuzzy); [done|]. apply first_some_spec, list_elem_of_fmap in Hr as (pass & Er & Hin).
    apply (Hpass pass); [|by right]. apply elem_of_app. by right.
Qed.

(** ** Scores *)

(** The best index and the matches of a scoring loop are indices it was given. *)
Definition scored_in (P : nat -> Prop) (st : fuzzy_state) : Prop :=
  (forall i, fs_bestIndex st = Some i -> P i) /\ Forall P (fs_matches st).

Lemma scored_range lines pattern indices st (P : nat -> Prop) :
  (forall i, i ∈ indices -> P i) -> scored_in P st -> scored_in P (scoreFuzzyRange lines pattern indices st).
Proof.
  unfold scoreFuzzyRange. revert st. induction indices as [|j indices IH]; intros st Hin [Hb Hm]; cbn [fold_left]; [done|].
  apply IH; [intros; apply Hin; by right|]. unfold score_step.
  assert (Hj : P j) by (apply Hin; by left).
  set (matches := if Qle_bool _ _ then _ else fs_matches st).
  assert (Forall P matches) by (unfold matches; destruct (Qle_bool _ _); [apply Forall_app; split; [done|by constructor]|done]).
  destruct (Qlt_bool (fs_bestScore st) _); [by split; [intros ? [= <-]|]|].
  by destruct (Qlt_bool (fs_secondBestScore st) _).
Qed.

Lemma offset_lines lines k o base : no_lf lines -> line_offsets base lines !! k = Some o ->
  base <= o /\ count_lf (take (o - base) (join [LF] lines)) = k.
Proof.
  revert k base. induction lines as [|l lines IH]; intros [|k] base Hno; cbn [line_offsets lookup list_lookup]; [done|done| |].
  - intros [= <-]. rewrite Nat.sub_diag, take_0. done.
  - inversion Hno as [|?? Hl Hls]; subst. intros Hk. destruct lines as [|l' lines']; [done|].
    destruct (IH k _ Hls Hk) as [Hle Hc]. split; [lia|].
    change (join [LF] (l :: l' :: lines')) with (l ++ [LF] ++ join [LF] (l' :: lines')).
    rewrite take_app_ge by lia. rewrite count_lf_app, count_lf_none by done.
    destruct (o - base - length l) as [|m] eqn:Em; [lia|]. cbn [take firstn app]. change (LF :: ?x) with ([LF] ++ x).
    rewrite count_lf_app. replace m with (o - (base + length l + 1)) by lia. rewrite Hc. reflexivity.
Qed.

(** A window that was tried starts at the offset of its line. *)
Lemma core_start contentLines targetLines offsets threshold depth m :
  bf_best (findBestFuzzyMatchCore contentLines targetLines offsets threshold depth) = Some m ->
  exists k, k < S (length contentLines) - length targetLines /\ fm_startIndex m = default 0 (offsets !! k).
Proof.
  unfold findBestFuzzyMatchCore. set (n := S (length contentLines) - length targetLines).
  set (P := fun st : option FuzzyMatch * Q * Q * nat => forall m, st.1.1.1 = Some m ->
    exists k, k < n /\ fm_startIndex m = default 0 (offsets !! k)).
  assert (HP : forall l st, (forall k, k ∈ l -> k < n) -> P st ->
    P (fold_left (try_window contentLines targetLines (normalizeLines depth targetLines) offsets threshold depth) l st)).
  { induction l as [|k l IH]; intros st Hl Hst; cbn [fold_left]; [done|]. apply IH; [intros; apply Hl; by right|].
    destruct st as [[[best s1] s2] above]. unfold try_window.
    destruct (Qlt_bool s1 _).
    - intros m' [= <-]. exists k. split; [apply Hl; by left|done].
    - destruct (Qlt_bool s2 _); exact Hst. }
  specialize (HP (seq 0 n) (None, (-1 # 1)%Q, (-1 # 1)%Q, 0)).
  destruct (fold_left _ _ _) as [[[best s1] s2] above]. cbn [bf_best]. intros ->. apply HP; [|done|done].
  intros k Hk%list_elem_of_In%in_seq. lia.
Qed.

Lemma best_start content target threshold m : bf_best (findBestFuzzyMatch content target threshold) = Some m ->
  count_lf (take (fm_startIndex m) content) + S (count_lf target) <= S (count_lf content).
Proof.
  rewrite <- !line_count_lf. unfold line_count, findBestFuzzyMatch. intros Hm.
  destruct (bool_decide (target = [])); [done|]. destruct (Nat.ltb_spec (length (split_char LF content)) (length (split_char LF target))); [done|].
  assert (exists depth, bf_best (findBestFuzzyMatchCore (split_char LF content) (split_char LF target)
            (computeLineOffsets (split_char LF content)) threshold depth) = Some m) as (depth & Hd).
  { destruct (bf_best (findBestFuzzyMatchCore _ _ _ _ true)) as [b|] eqn:Eb; [|exists true; congruence].
    destruct (_ && _); [|exists true; congruence].
    destruct (bf_best (findBestFuzzyMatchCore _ _ _ _ false)) as [n|] eqn:En; [|exists true; congruence].
    destruct (Qlt_bool _ _); [exists false; congruence|exists true; congruence]. }
  apply core_start in Hd as (k & Hk & ->).
  destruct (computeLineOffsets (split_char LF content) !! k) as [o|] eqn:Eo.
  - apply offset_lines in Eo as [_ Hc]; [|apply split_char_pieces].
    rewrite join_split, Nat.sub_0_r in Hc. change (count_lf (take o content) + length (split_char LF target) <= length (split_char LF content)). lia.
  - cbn [default]. rewrite take_0. cbn. lia.
Qed.

(** The native scorers stand in for the ones of the source: the text scorer returns the
    same windows, and the line scorer only places where the pattern fits. *)
Definition native_agrees : Prop :=
  (forall native, findBestFuzzyMatchNative = Some native -> forall content target threshold,
     native content target threshold = findBestFuzzyMatch content target threshold)
  /\ (forall native, scoreSequenceFuzzyNative = Some native -> forall lines pattern start eof,
     let r := native lines pattern start eof in
     (forall i, ns_index r = Some i -> i + length pattern <= length lines)
     /\ Forall (fun i => i + length pattern <= length lines) (ns_matchIndices r)).

Lemma match_start content target allowFuzzy threshold m : native_agrees ->
  mo_match (findMatch content target allowFuzzy threshold) = Some m ->
  count_lf (take (fm_startIndex m) content) + count_lf target <= count_lf content.
Proof.
  intros [Hn _]. unfold findMatch. destruct (bool_decide (target = [])); [done|].
  unfold findExactMatchOutcome. destruct (indexOf target content) as [n|] eqn:Ei.
  - destruct (1 <? _); [done|]. cbn. intros [= <-]. apply indexOf_spec in Ei as (pre & post & -> & <-). cbn [fm_startIndex].
    rewrite take_app_length, !count_lf_app. lia.
  - set (r := match findBestFuzzyMatchNative with Some native => _ | None => _ end).
    assert (r = findBestFuzzyMatch content target threshold) as ->.
    { unfold r. destruct findBestFuzzyMatchNative as [native|] eqn:E; [|done]. by apply Hn. }
    destruct (bf_best _) as [b|] eqn:Eb; [|done]. intros Hm.
    assert (b = m) as <- by (destruct (_ && _) in Hm; [|destruct (_ && _) in Hm]; cbn in Hm; congruence).
    apply best_start in Eb. lia.
Qed.

Lemma no_lf_drop n lines : no_lf lines -> no_lf (drop n lines).
Proof. apply Forall_drop. Qed.

Lemma character_ok lines pattern start score : native_agrees -> pattern <> [] -> start < length lines ->
  no_lf lines -> no_lf pattern -> found_ok lines pattern (character_match lines pattern start score).
Proof.
  intros Hn Hne Hs Hl Hp. unfold character_match. set (text := join [LF] (drop start lines)).
  destruct (mo_match _) as [m|] eqn:Em; [|by split; intros ?]. split; [|by intros ?].
  intros i. cbn [sr_index sr_strategy]. intros [= <-]. split; [|intros s c [= <-]; done].
  apply match_start in Em; [|done]. rewrite line_count_lf.
  pose proof (count_lf_join pattern Hp Hne) as E1.
  pose proof (count_lf_join (drop start lines) (no_lf_drop _ _ Hl)) as E2. rewrite length_drop in E2. fold text in E2.
  assert (drop start lines <> []) as Hd by (intros E%(f_equal length); rewrite length_drop in E; cbn in E; lia).
  specialize (E2 Hd). lia.
Qed.

Lemma scored_ok lines pattern i score second n l : i + length pattern <= length lines ->
  Forall (fun i => i + length pattern <= length lines) l -> found_ok lines pattern (scored_result i score second n l).
Proof.
  intros Hi Hl. unfold scored_result. destruct (_ && _); (split; [|by intros ? [= <-]]); intros j; cbn; intros [= <-];
    (split; [done|]); intros s c [= <-]; done.
Qed.

(** The last resort, when it may look past the end of the file. *)
Definition character_sound (lines pattern : list jsstring) (start : nat) : Prop :=
  forall score, found_ok lines pattern (character_match lines pattern start score).

Lemma fuzzy_ok lines pattern start (eof : bool) : native_agrees -> length pattern <= length lines ->
  character_sound lines pattern start ->
  let maxStart := length lines - length pattern in
  found_ok lines pattern (fuzzy_passes lines pattern start (if eof then maxStart else start) maxStart eof).
Proof.
  intros [_ Hns] Hlen Hc maxStart. unfold fuzzy_passes. set (P := fun i => i + length pattern <= length lines).
  set (native := match scoreSequenceFuzzyNative with Some _ => _ | None => _ end).
  assert (Hnat : forall r, native = Some r -> found_ok lines pattern r).
  { unfold native. destruct scoreSequenceFuzzyNative as [g|] eqn:Eg; [|done].
    destruct (Hns g eq_refl lines pattern start eof) as [Hi Hl].
    destruct (ns_index _) as [i|] eqn:Ei; [|done]. destruct (Qle_bool _ _); [|done]. intros r [= <-].
    apply scored_ok; [by apply Hi|done]. }
  destruct native as [r|]; [by apply Hnat|]. clear Hnat.
  set (searchStart := if eof then maxStart else start).
  set (st1 := scoreFuzzyRange lines pattern (index_range searchStart maxStart) _).
  assert (H1 : scored_in P st1).
  { apply scored_range; [|by split]. intros i Hi%index_range_spec. unfold P. lia. }
  set (st2 := if eof && _ then _ else st1).
  assert (H2 : scored_in P st2).
  { unfold st2. destruct (eof && _); [|done]. apply scored_range; [|done].
    intros i Hi%list_elem_of_In%in_seq. unfold P, searchStart in *. destruct eof; lia. }
  destruct H2 as [Hb Hm]. clearbody st2. destruct (fs_bestIndex st2) as [i|] eqn:Ei; [|apply Hc].
  destruct (Qle_bool _ _); [|apply Hc]. apply scored_ok; [by apply Hb|by apply Forall_take].
Qed.

Lemma seek_sound lines pattern start eof allowFuzzy : native_agrees -> pattern <> [] -> character_sound lines pattern start ->
  found_ok lines pattern (seekSequence lines pattern start eof allowFuzzy).
Proof.
  intros Hn Hne Hc. unfold seekSequence.
  destruct (Nat.eqb_spec (length pattern) 0); [by destruct pattern|].
  destruct (Nat.ltb_spec (length lines) (length pattern)); [apply not_found_ok|].
  destruct (runExactPasses _ _ _ _ _) as [r|] eqn:E1; [by eapply passes_ok|].
  set (second := if eof && _ then _ else None).
  destruct second as [r|] eqn:E2.
  - unfold second in E2. destruct (eof && _); [|done]. by eapply passes_ok.
  - destruct (negb allowFuzzy); [apply not_found_ok|]. by apply fuzzy_ok.
Qed.

(** The first exact occurrence. *)
Lemma filter_head_least p from n k : k ∈ seq from n -> p k = true -> (forall j, from <= j < k -> p j = false) ->
  head (List.filter p (seq from n)) = Some k.
Proof.
  revert from. induction n as [|n IH]; intros from Hk Hp Hmin; [by apply not_elem_of_nil in Hk|].
  cbn [seq List.filter]. apply list_elem_of_In, in_seq in Hk. destruct (decide (k = from)) as [->|Hne]; [by rewrite Hp|].
  rewrite Hmin by lia. apply IH; [|done|intros; apply Hmin; lia]. apply list_elem_of_In, in_seq. lia.
Qed.

Lemma seek_exact lines pattern start allowFuzzy k : pattern <> [] -> start <= k ->
  matchesAt lines pattern k text_eqb = true -> (forall j, start <= j < k -> matchesAt lines pattern j text_eqb = false) ->
  seekSequence lines pattern start false allowFuzzy = mkSearch (Some k) 1 None None (Some SExact).
Proof.
  intros Hne Hs Hm Hmin. pose proof (matchesAt_range _ _ _ _ Hne Hm) as Hr. unfold seekSequence.
  destruct (Nat.eqb_spec (length pattern) 0); [by destruct pattern|].
  destruct (Nat.ltb_spec (length lines) (length pattern)); [lia|].
  unfold runExactPasses, comparison_passes. rewrite fmap_cons. cbn [fst snd first_some].
  unfold toSingleMatchResult at 1. cbn [im_firstMatch collectIndexedMatches].
  unfold index_range. rewrite (filter_head_least _ _ _ k); [done| |done|done]. apply list_elem_of_In, in_seq. lia.
Qed.

(** A search for lines finds a place where they fit.  Whatever strategy answered --
    exact, trimmed, comment prefixes, Unicode forms, prefixes, substrings, scores, or
    characters -- the place found, and every place listed as a candidate, leaves room for
    every line of the pattern inside the file, and for the strategies that compare line by line each line there compares equal
    to the pattern's.  When the lines do occur exactly, the first exact occurrence at or
    after the start is the answer, with full confidence and no ambiguity. *)
Theorem seek_finds_in_range lines pattern start eof allowFuzzy :
  native_agrees -> pattern <> [] -> start < length lines -> no_lf lines -> no_lf pattern ->
  let r := seekSequence lines pattern start eof allowFuzzy in
  (forall i, sr_index r = Some i ->
     i + length pattern <= length lines
     /\ forall s c, sr_strategy r = Some s -> strategy_compare s = Some c -> matchesAt lines pattern i c = true)
  /\ (forall l, sr_matchIndices r = Some l -> Forall (fun i => i + length pattern <= length lines) l)
  /\ (eof = false -> forall k, start <= k -> matchesAt lines pattern k text_eqb = true ->
     (forall j, start <= j < k -> matchesAt lines pattern j text_eqb = false) ->
     r = mkSearch (Some k) 1 None None (Some SExact)).
Proof.
  intros Hn Hne Hs Hl Hp r. destruct (seek_sound lines pattern start eof allowFuzzy Hn Hne) as [H1 H2].
  { intros score. by apply character_ok. }
  split; [exact H1|]. split; [exact H2|]. intros -> k Hk Hm Hmin. by apply seek_exact.
Qed.
End facts.

(** ** Past the end of the file

    The search by characters runs on an empty text once the start is past the end.  It
    finds nothing there, unless the pattern is a line of white space only. *)

Lemma similarity_prefix p x : length p <= 2 -> x <> [] -> (similarity (p ++ x) p <= 2 # 3)%Q.
Proof.
  intros Hp Hx. destruct (distance_least (p ++ x) p) as [Hs _]. apply script_lower in Hs as (_ & Hd & _).
  unfold similarity. rewrite length_app in *. assert (0 < length x) by (destruct x; [done|cbn; lia]).
  destruct (Nat.eqb_spec (length p + length x) 0); [lia|]. cbn [andb].
  replace (Nat.max (length p + length x) (length p)) with (S (pred (length p + length x))) by lia.
  generalize dependent (levenshteinDistance (p ++ x) p). intros d Hd.
  rewrite Nat2Z.inj_succ, <- Zpos_P_of_succ_nat. rewrite <- Qmake_Qdiv. unfold Qle, Qminus, Qplus, Qopp. cbn [Qnum Qden].
  rewrite Zpos_P_of_succ_nat. nia.
Qed.

Lemma collapse_nonempty b c s : is_indent c = false -> collapse_blanks b (c :: s) <> [].
Proof. intros Hc. cbn. by rewrite Hc. Qed.

(** Replacing characters by texts without blanks keeps a text without a leading blank so. *)
Definition starts_dark (s : jsstring) : Prop := match s with c :: _ => is_ws c = false | [] => False end.

Lemma replace_class_dark class r s : starts_dark r -> starts_dark s -> starts_dark (replace_class class r s).
Proof. intros Hr Hs. destruct s as [|c s]; [done|]. unfold replace_class. cbn. destruct (class c); [by destruct r|done]. Qed.

Lemma trim_dark s : trim s <> [] -> starts_dark (trim s).
Proof.
  unfold trim. intros Hne. destruct (trimStart s) as [|c t] eqn:E; [done|].
  assert (Hc : is_ws c = false).
  { unfold trimStart in E. clear Hne. induction s as [|d s IH]; [done|]. cbn in E. destruct (is_ws d) eqn:Ed; [|by simplify_eq/=].
    destruct (span is_ws s); cbn in *. by apply IH. }
  destruct (trimEnd_head c t Hc) as (t' & ->). done.
Qed.

Lemma normalized_dark s : trim s <> [] -> normalizeForFuzzy (trim s) <> [].
Proof.
  intros Hne. pose proof (trim_dark s Hne) as Hd. unfold normalizeForFuzzy.
  assert (Htt : trim (trim s) = trim s).
  { unfold trim in *. pose proof Hd as Hd'. destruct (trimEnd (trimStart s)) as [|c t] eqn:E; [done|].
    rewrite (trimStart_id (c :: t)) by done. rewrite <- E. unfold trimEnd. rewrite rev_involutive. by rewrite trimStart_idemp. }
  rewrite Htt. rewrite bool_decide_eq_false_2 by done.
  assert (Hr : starts_dark (replace_class (one_of [8208; 8209; 8210; 8211; 8212; 8722]%N) (js "-")
         (replace_class (one_of [39; 8218; 8219; 96; 180]%N) (js "'")
            (replace_class (one_of [34; 8222; 8223; 171; 187]%N) [34%N] (trim s))))) by (by repeat apply replace_class_dark).
  destruct (replace_class _ _ _) as [|c t]; [done|]. apply collapse_nonempty. cbn in Hr.
  unfold is_indent. destruct (N.eqb_spec c SPC) as [->|]; [done|]. by destruct (N.eqb_spec c TAB) as [->|].
Qed.

(** The score of one line against an empty text. *)
Lemma empty_score t offsets threshold depth m : trim t <> [] ->
  bf_best (findBestFuzzyMatchCore [[]] [t] offsets threshold depth) = Some m -> (fm_confidence m <= 2 # 3)%Q.
Proof.
  intros Ht. unfold findBestFuzzyMatchCore. change (seq 0 (S (length [[]]) - length [t])) with [0]. cbn [fold_left].
  unfold try_window. change (window 0 (length [t]) [[]]) with [@nil N].
  set (score := average _).
  assert (Hs : (score <= 2 # 3)%Q).
  { unfold score, average, sum_scores.
    assert (exists p, length p <= 2 /\ normalizeLines depth [t] = [p ++ normalizeForFuzzy (trim t)] /\ normalizeLines depth [[]] = [p])
      as (p & Hp & -> & ->).
    { unfold normalizeLines. destruct depth.
      - exists (js "0|"). split; [done|]. split; [|by vm_compute].
        assert (computeRelativeIndentDepths [t] = [0]) as ->.
        { unfold computeRelativeIndentDepths. cbn. unfold isNonEmptyLine. rewrite bool_decide_eq_false_2 by done. cbn.
          rewrite Nat.sub_diag. done. }
        cbn [zip_with]. unfold normalized_line. by rewrite bool_decide_eq_false_2.
      - exists (js "|"). split; [by apply Nat.leb_le|]. split; [|by vm_compute]. cbn. unfold normalized_line. by rewrite bool_decide_eq_false_2. }
    cbn [zip_with fold_left length]. rewrite !Qred_correct. rewrite Qplus_0_l.
    unfold Qdiv. change (/ inject_Z (Z.of_nat 1))%Q with 1%Q. rewrite Qmult_1_r. apply similarity_prefix; [done|]. by apply normalized_dark. }
  destruct (Qlt_bool (-1 # 1) score); cbn [bf_best]; [by intros [= <-]|done].
Qed.

Lemma low_score m threshold : (2 # 3 < threshold)%Q -> (fm_confidence m <= 2 # 3)%Q -> Qle_bool threshold (fm_confidence m) = false.
Proof.
  intros Ht Hm. apply not_true_iff_false. rewrite Qle_bool_iff. intros Hle.
  apply (Qlt_irrefl threshold). eapply Qle_lt_trans; [exact Hle|]. by eapply Qle_lt_trans.
Qed.

Section past_end.
Context `{FuzzyEnv}.

Lemma empty_no_match target : native_agrees -> (forall t, target = t -> t = [] \/ LF ∈ t \/ trim t <> []) ->
  mo_match (findMatch [] target true CHARACTER_MATCH_THRESHOLD) = None.
Proof.
  intros [Hn _] Ht. specialize (Ht target eq_refl). unfold findMatch. destruct (bool_decide (target = [])) eqn:E0; [done|].
  apply bool_decide_eq_false in E0. unfold findExactMatchOutcome. cbn [indexOf].
  assert (starts_with target [] = false) as ->.
  { unfold starts_with. apply bool_decide_eq_false. rewrite take_nil. congruence. }
  set (r := match findBestFuzzyMatchNative with Some native => _ | None => _ end).
  assert (r = findBestFuzzyMatch [] target CHARACTER_MATCH_THRESHOLD) as ->.
  { unfold r. destruct findBestFuzzyMatchNative as [native|] eqn:E; [|done]. by apply Hn. }
  destruct (bf_best _) as [b|] eqn:Eb; [|done].
  assert (Hb : (fm_confidence b <= 2 # 3)%Q).
  { unfold findBestFuzzyMatch in Eb. rewrite bool_decide_eq_false_2 in Eb by done.
    change (split_char LF []) with [@nil N] in Eb. destruct Ht as [->|[Hlf|Hd]]; [done| |].
    - destruct (Nat.ltb_spec (length [@nil N]) (length (split_char LF target))) as [_|Hlen]; [done|]. exfalso.
      fold (line_count target) in Hlen. rewrite line_count_lf in Hlen. unfold count_lf in Hlen.
      assert (LF ∈ List.filter (fun c => (c =? LF)%N) target) as Hin by (apply list_elem_of_In, filter_In; by rewrite <- list_elem_of_In).
      destruct (List.filter _ target); [by apply not_elem_of_nil in Hin|]. cbn in Hlen. lia.
    - destruct (Nat.ltb_spec (length [@nil N]) (length (split_char LF target))) as [_|Hlen]; [done|].
      assert (split_char LF target = [target]) as Esp.
      { pose proof (join_split LF target) as Ej. pose proof (split_char_nonempty LF target).
        destruct (split_char LF target) as [|t [|? ?]]; [done| |cbn in Hlen; lia]. cbn in Ej. by subst. }
      rewrite Esp in Eb. destruct (bf_best (findBestFuzzyMatchCore _ _ _ _ true)) as [b1|] eqn:E1; [|congruence].
      destruct (_ && _); [|by eapply empty_score; [exact Hd|rewrite E1 in Eb; injection Eb as <-; exact E1]].
      destruct (bf_best (findBestFuzzyMatchCore _ _ _ _ false)) as [b2|] eqn:E2; [|by eapply empty_score; [exact Hd|rewrite E1 in Eb; injection Eb as <-; exact E1]].
      destruct (Qlt_bool _ _); [eapply (empty_score target); [done|rewrite E2 in Eb; injection Eb as <-; exact E2]|].
      eapply (empty_score target); [done|rewrite E1 in Eb; injection Eb as <-; exact E1]. }
  rewrite (low_score b CHARACTER_MATCH_THRESHOLD) by done. done.
Qed.

(** No line is white space only, unless it is empty. *)
Definition solid (lines : list jsstring) : Prop := Forall (fun l => l = [] \/ trim l <> []) lines.

Lemma seek_solid lines pattern start eof allowFuzzy : native_agrees -> pattern <> [] -> solid pattern ->
  no_lf lines -> no_lf pattern -> found_ok lines pattern (seekSequence lines pattern start eof allowFuzzy).
Proof.
  intros Hn Hne Hs Hl Hp. apply seek_sound; [done|done|]. intros score.
  destruct (decide (start < length lines)) as [Hlt|Hge]; [by apply character_ok|].
  unfold character_match. rewrite drop_ge by lia. change (join [LF] []) with (@nil N).
  rewrite empty_no_match; [by split; intros ?|done|].
  intros t <-. destruct pattern as [|p [|q rest]]; [done| |].
  - inversion Hs as [|?? [Hp0|Hp0]]; subst; cbn; auto.
  - right; left. rewrite join_cons by done. apply elem_of_app. right. apply elem_of_app. left. by left.
Qed.

End past_end.

(** ** Sample searches *)

#[local] Instance sample_env : FuzzyEnv :=
  {| nfc := fun s => s;
     findBestFuzzyMatchNative := Some findBestFuzzyMatch;
     scoreSequenceFuzzyNative := Some (fun lines pattern start eof => mkNativeSeq None 0 0 [] 0) |}.

Lemma sample_agrees : native_agrees.
Proof. split; [by intros ? [= <-]|]. intros ? [= <-] lines pattern start eof. by split. Qed.

Definition sample_file : list jsstring := [js "int f() {"; js "  return 1;"; js "}"; js "  return 1;"].

Example seek_trimmed : sr_index (seekSequence sample_file [js "return 1;"] 2 false true) = Some 3.
Proof. vm_compute. reflexivity. Qed.

(** Typographic quotes are not among the quotes that are normalised for scoring. *)
Example curly_quotes_kept : normalizeForFuzzy [8220%N; 97%N; 8221%N] = [8220%N; 97%N; 8221%N].
Proof. vm_compute. reflexivity. Qed.

(** A line of white space is found wherever a search past the end starts. *)
Example blank_found_past_end : sr_index (seekSequence [js "a"] [js " "] 7 false true) = Some 7.
Proof. vm_compute. reflexivity. Qed.

Lemma seek_finds_in_range_witness :
  no_lf sample_file
  /\ seekSequence sample_file [js "  return 1;"] 0 false true = mkSearch (Some 1) 1 None None (Some SExact).
Proof.
  assert (H : no_lf sample_file) by (by apply (bool_decide_unpack _); vm_compute). split; [exact H|].
  refine (proj2 (proj2 (seek_finds_in_range sample_file [js "  return 1;"] 0 false true sample_agrees _ _ H _)) eq_refl 1 _ _ _).
  - discriminate.
  - vm_compute. lia.
  - by apply (bool_decide_unpack _); vm_compute.
  - lia.
  - vm_compute. reflexivity.
  - intros [|j] Hj; [vm_compute; reflexivity|lia].
Defined.
