(* ===== verification/DiffHunks.v ===== *)
(** * Reading a diff (edit/diff.ts)

    A diff for one file becomes a list of hunks: wrapper and metadata lines are dropped,
    each hunk's header gives its context and line numbers, and its body the lines it
    expects and the lines it leaves.  Line numbers are exact where the source has doubles. *)

From S2P Require Import Prelude JsText.

Local Open Scope nat_scope.

Record DiffHunk := mkHunk {
  dh_changeContext : option jsstring;
  dh_oldStartLine : option N;
  dh_newStartLine : option N;
  dh_hasContextLines : bool;
  dh_oldLines : list jsstring;
  dh_newLines : list jsstring;
  dh_isEndOfFile : bool
}.

#[global] Instance DiffHunk_eq_dec : EqDecision DiffHunk.
Proof. solve_decision. Defined.

(** [ParseError] with its line, and the [ApplyPatchError] of the multi-file check. *)
Inductive HunkError :=
| NoLines (line : nat)
| HeaderLineBelowOne (line : nat)
| HintBelowOne (line : nat)
| ExpectedHeader (line : nat)
| HunkEmpty (line : nat)
| UnexpectedLine (line : nat)
| MultipleFiles (count : nat).

#[global] Instance HunkError_eq_dec : EqDecision HunkError.
Proof. solve_decision. Defined.

(** ** Markers *)

Definition EOF_MARKER : jsstring := js "*** End of File".
Definition CHANGE_CONTEXT_MARKER : jsstring := js "@@ ".
Definition EMPTY_CHANGE_CONTEXT_MARKER : jsstring := js "@@".

Definition MULTI_FILE_MARKERS : list jsstring :=
  [js "*** Update File:"; js "*** Add File:"; js "*** Delete File:"; js "diff --git "].

Definition DIFF_METADATA_PREFIXES : list jsstring :=
  [ js "*** Update File:"; js "*** Add File:"; js "*** Delete File:"; js "diff --git "; js "index "; js "--- "; js "+++ ";
    js "new file mode "; js "deleted file mode "; js "rename from "; js "rename to "; js "similarity index ";
    js "dissimilarity index "; js "old mode "; js "new mode " ].

Definition PATCH_WRAPPER_PREFIXES : list jsstring := [js "*** Begin Patch"; js "*** End Patch"].

Definition isDiffContentLine (line : jsstring) : bool :=
  match line with
  | [] => false
  | c :: _ =>
      if (c =? 32)%N then true
      else if (c =? 43)%N then negb (starts_with (js "+++ ") line)
      else if (c =? 45)%N then negb (starts_with (js "--- ") line)
      else false
  end.

Definition matchesTrimmedPrefix (line : jsstring) (prefixes : list jsstring) : bool :=
  existsb (fun prefix => starts_with prefix line) prefixes.

Definition isPatchWrapperLine (line : jsstring) : bool :=
  bool_decide (line = js "***") || matchesTrimmedPrefix line PATCH_WRAPPER_PREFIXES.

(** ** Normalising *)

(** The loop that removes blank lines from the end, on the reversed lines. *)
Fixpoint drop_blank_head (lines : list jsstring) : list jsstring :=
  match lines with
  | [] => []
  | line :: rest =>
      if bool_decide (line = []) || (bool_decide (trim line = []) && negb (isDiffContentLine line))
      then drop_blank_head rest else lines
  end.

Definition keep_line (line : jsstring) : bool :=
  isDiffContentLine line || negb (matchesTrimmedPrefix (trim line) DIFF_METADATA_PREFIXES).

Definition normalized_diff_lines (lines : list jsstring) : list jsstring :=
  let lines := rev (drop_blank_head (rev lines)) in
  let lines := match lines with
               | first :: rest => if negb (bool_decide (first = [])) && isPatchWrapperLine (trim first) then rest else lines
               | [] => []
               end in
  let lines := match rev lines with
               | lastLine :: before => if isPatchWrapperLine (trim lastLine) then rev before else lines
               | [] => []
               end in
  List.filter keep_line lines.

Definition normalizeDiff (diff : jsstring) : jsstring := join [LF] (normalized_diff_lines (split_char LF diff)).

Definition strip_plus (line : jsstring) : jsstring :=
  if starts_with (js "+ ") line then drop 2 line else if starts_with (js "+") line then drop 1 line else line.

Definition normalizeCreateContent (content : jsstring) : jsstring :=
  let lines := split_char LF content in
  let nonEmptyLines := List.filter (fun line => (0 <? length line)%nat) lines in
  if (0 <? length nonEmptyLines)%nat && forallb (fun line => starts_with (js "+ ") line || starts_with (js "+") line) nonEmptyLines
  then join [LF] (strip_plus <$> lines)
  else content.

(** ** Headers *)

Record UnifiedHunkHeader := mkUnified {
  uh_oldStartLine : N;
  uh_oldLineCount : N;
  uh_newStartLine : N;
  uh_newLineCount : N;
  uh_changeContext : option jsstring
}.

(** [(\d+)] at the front: the number and the rest. *)
Definition read_number (s : jsstring) : option (N * jsstring) :=
  let '(ds, rest) := span is_digit s in
  match ds with [] => None | _ => Some (dec_value ds, rest) end.

(** [(\d+)(?:,(\d+))?] at the front. *)
Definition read_range (s : jsstring) : option (N * N * jsstring) :=
  '(start, rest) ← read_number s;
  match rest with
  | c :: after =>
      if (c =? 44)%N then match read_number after with Some (count, rest') => Some (start, count, rest') | None => None end
      else Some (start, 1%N, rest)
  | [] => Some (start, 1%N, rest)
  end.

(** A fixed text at the front. *)
Definition read_text (p s : jsstring) : option jsstring := if starts_with p s then Some (drop (length p) s) else None.

Definition nonempty (s : jsstring) : option jsstring := if bool_decide (s = []) then None else Some s.

(** The unified header [@@ -a,b +c,d @@ context]; the context has no line terminator. *)
Definition parseUnifiedHunkHeader (line : jsstring) : option UnifiedHunkHeader :=
  s ← read_text (js "@@") line;
  s ← read_text (js "-") (trimStart s);
  '(oldStart, oldCount, s) ← read_range s;
  if negb (match s with c :: _ => is_ws c | [] => false end) then None
  else
    s ← read_text (js "+") (trimStart s);
    '(newStart, newCount, s) ← read_range s;
    s ← read_text (js "@@") (trimStart s);
    let context := trimStart s in
    if existsb is_line_terminator context then None
    else Some (mkUnified oldStart oldCount newStart newCount (nonempty (trim context))).

Definition isUnifiedDiffMetadataLine (line : jsstring) : bool :=
  matchesTrimmedPrefix line (List.filter (fun prefix => negb (starts_with (js "*** ") prefix)) DIFF_METADATA_PREFIXES).

(** [/^@@\s*@@$/] *)
Definition is_empty_context_marker (line : jsstring) : bool :=
  match read_text (js "@@") line with Some s => bool_decide (trimStart s = js "@@") | None => false end.

(** The comparison of the [i] flag on ASCII letters. *)
Definition lower (c : N) : N := if (65 <=? c)%N && (c <=? 90)%N then (c + 32)%N else c.

Definition read_word (w s : jsstring) : option jsstring :=
  if bool_decide (lower <$> take (length w) s = w) then Some (drop (length w) s) else None.

(** [\s+] at the front. *)
Definition read_spaces (s : jsstring) : option jsstring :=
  match s with c :: _ => if is_ws c then Some (trimStart s) else None | [] => None end.

(** [(?:\s*@@)?$] *)
Definition hint_end (s : jsstring) : bool := bool_decide (s = []) || bool_decide (trimStart s = js "@@").

(** [/^lines?\s+(\d+)(?:\s*-\s*(\d+))?(?:\s*@@)?$/i]: the first number. *)
Definition line_hint (s : jsstring) : option N :=
  s ← read_word (js "line") s;
  let s := match read_word (js "s") s with Some rest => rest | None => s end in
  s ← read_spaces s;
  '(n, s) ← read_number s;
  let to := rest ← read_text (js "-") (trimStart s); '(_, rest) ← read_number (trimStart rest); Some rest in
  if hint_end s || match to with Some rest => hint_end rest | None => false end then Some n else None.

(** [/^(top|start|beginning)\s+of\s+file$/i] *)
Definition is_top_of_file (s : jsstring) : bool :=
  existsb (fun w => bool_decide (
    (s ← read_word w s; s ← read_spaces s; s ← read_word (js "of") s; s ← read_spaces s; read_word (js "file") s) = Some []))
    [js "top"; js "start"; js "beginning"].

(** What the first line of a hunk says: contexts, line numbers, and how many lines it takes. *)
Record HunkHeader := mkHeader {
  hh_contexts : list jsstring;
  hh_oldStart : option N;
  hh_newStart : option N;
  hh_startIndex : nat
}.

Definition hunk_header (headerLine : jsstring) (lineNumber : nat) (allowMissingContext : bool) : HunkError + HunkHeader :=
  let headerTrimmed := trimEnd headerLine in
  let isHeaderLine := starts_with (js "@@") headerLine in
  let unifiedHeader := if isHeaderLine then parseUnifiedHunkHeader headerTrimmed else None in
  if isHeaderLine && (bool_decide (headerTrimmed = EMPTY_CHANGE_CONTEXT_MARKER) || is_empty_context_marker headerTrimmed)
  then inr (mkHeader [] None None 1)
  else
    match unifiedHeader with
    | Some u =>
        if (uh_oldStartLine u <? 1)%N || (uh_newStartLine u <? 1)%N then inl (HeaderLineBelowOne lineNumber)
        else inr (mkHeader (match uh_changeContext u with Some c => [c] | None => [] end)
                    (Some (uh_oldStartLine u)) (Some (uh_newStartLine u)) 1)
    | None =>
        if isHeaderLine && starts_with CHANGE_CONTEXT_MARKER headerTrimmed then
          let contextValue := drop (length CHANGE_CONTEXT_MARKER) headerTrimmed in
          let trimmedContextValue := trim contextValue in
          let normalizedContextValue := match read_text (js "@@") trimmedContextValue with
                                        | Some s => trimStart s | None => trimmedContextValue end in
          match line_hint normalizedContextValue with
          | Some n => if (n <? 1)%N then inl (HintBelowOne lineNumber) else inr (mkHeader [] (Some n) (Some n) 1)
          | None =>
              if is_top_of_file normalizedContextValue then inr (mkHeader [] (Some 1%N) (Some 1%N) 1)
              else inr (mkHeader (if (0 <? length trimmedContextValue)%nat then [contextValue] else []) None None 1)
          end
        else if isHeaderLine then
          let contextValue := trim (drop 2 headerTrimmed) in
          inr (mkHeader (if (0 <? length contextValue)%nat then [contextValue] else []) None None 1)
        else if negb allowMissingContext then inl (ExpectedHeader lineNumber)
        else inr (mkHeader [] None None 0)
    end.

(** The further context lines after the header: their contexts and the lines that follow. *)
Fixpoint nested_contexts (lines : list jsstring) : list jsstring * list jsstring :=
  match lines with
  | [] => ([], [])
  | nextLine :: rest =>
      if negb (starts_with (js "@@") nextLine) then ([], lines)
      else
        let trimmed := trimEnd nextLine in
        if starts_with CHANGE_CONTEXT_MARKER trimmed then
          let nestedContext := drop (length CHANGE_CONTEXT_MARKER) trimmed in
          let '(contexts, rest') := nested_contexts rest in
          (if (0 <? length (trim nestedContext))%nat then nestedContext :: contexts else contexts, rest')
        else if bool_decide (trimmed = EMPTY_CHANGE_CONTEXT_MARKER) then nested_contexts rest
        else ([], lines)
  end.

(** ** Bodies *)

(** What the body loop accumulates. *)
Record HunkBody := mkBody {
  hb_hasContextLines : bool;
  hb_oldLines : list jsstring;
  hb_newLines : list jsstring;
  hb_isEndOfFile : bool;
  hb_parsedLines : nat
}.

Definition empty_body : HunkBody := mkBody false [] [] false 0.

Definition add_context (b : HunkBody) (text : jsstring) : HunkBody :=
  mkBody true (hb_oldLines b ++ [text]) (hb_newLines b ++ [text]) (hb_isEndOfFile b) (S (hb_parsedLines b)).
Definition add_new (b : HunkBody) (text : jsstring) : HunkBody :=
  mkBody (hb_hasContextLines b) (hb_oldLines b) (hb_newLines b ++ [text]) (hb_isEndOfFile b) (S (hb_parsedLines b)).
Definition add_old (b : HunkBody) (text : jsstring) : HunkBody :=
  mkBody (hb_hasContextLines b) (hb_oldLines b ++ [text]) (hb_newLines b) (hb_isEndOfFile b) (S (hb_parsedLines b)).
Definition add_elision (b : HunkBody) : HunkBody :=
  mkBody true (hb_oldLines b) (hb_newLines b) (hb_isEndOfFile b) (S (hb_parsedLines b)).
Definition end_of_file (b : HunkBody) : HunkBody :=
  mkBody (hb_hasContextLines b) (hb_oldLines b) (hb_newLines b) true (S (hb_parsedLines b)).

Definition is_elision (line : jsstring) : bool := bool_decide (trim line = js "...") || bool_decide (trim line = [8230%N]).

Definition is_eof_line (line : jsstring) : bool :=
  negb (isDiffContentLine line) && bool_decide (trimEnd line = EOF_MARKER) && starts_with EOF_MARKER line.

Definition next_is_header (rest : list jsstring) : bool :=
  match rest with next :: _ => starts_with (js "@@") (trimStart next) | [] => false end.

Fixpoint hunk_body (lines : list jsstring) (lineNumber : nat) (b : HunkBody) : HunkError + HunkBody :=
  match lines with
  | [] => inr b
  | line :: rest =>
      if bool_decide (line = []) && (0 <? hb_parsedLines b)%nat && next_is_header rest then inr b
      else if is_eof_line line then
        if (hb_parsedLines b =? 0)%nat then inl (HunkEmpty (lineNumber + 1)) else inr (end_of_file b)
      else if is_elision line then hunk_body rest lineNumber (add_elision b)
      else
        match line with
        | [] => hunk_body rest lineNumber (add_context b [])
        | c :: text =>
            if (c =? 32)%N then hunk_body rest lineNumber (add_context b text)
            else if (c =? 43)%N then hunk_body rest lineNumber (add_new b text)
            else if (c =? 45)%N then hunk_body rest lineNumber (add_old b text)
            else if negb (starts_with (js "@@") line) then hunk_body rest lineNumber (add_context b line)
            else if (hb_parsedLines b =? 0)%nat then inl (UnexpectedLine (lineNumber + 1))
            else inr b
        end
  end.

(** ** Line numbers copied into a hunk *)

(** [/^\s*(\d{1,6})\s+(.+)$/u]: the number and the text after it.  When only white space
    follows the number, all but its last character goes to [\s+]. *)
Definition numbered_line (line : jsstring) : option (N * jsstring) :=
  let '(ds, rest) := span is_digit (trimStart line) in
  let '(spaces, text) := span is_ws rest in
  let text := match text, spaces with
              | [], _ :: _ :: _ => match last spaces with Some c => [c] | None => [] end
              | _, _ => text
              end in
  if (0 <? length ds)%nat && (length ds <=? 6)%nat && (0 <? length spaces)%nat
     && (0 <? length text)%nat && negb (existsb is_line_terminator text)
  then Some (dec_value ds, text) else None.

Fixpoint count_sequential (numbers : list N) : nat :=
  match numbers with
  | a :: ((b :: _) as rest) => (if (b =? a + 1)%N then 1 else 0) + count_sequential rest
  | _ => 0
  end.

Definition strip_number (line : jsstring) : jsstring :=
  match numbered_line line with Some (_, text) => text | None => line end.

(** The condition under which line numbers are removed. *)
Definition looks_numbered (allLines : list jsstring) : bool :=
  let allLines := List.filter (fun line => (0 <? length (trim line))%nat) allLines in
  let numbers := omap (fun line => fst <$> numbered_line line) allLines in
  let n := length allLines in
  negb (n <? 2)%nat
  && negb (length numbers <? Nat.max 2 ((3 * n + 4) / 5))%nat
  && negb ((3 <=? length numbers)%nat && (count_sequential numbers <? Nat.max 1 (length numbers - 2))%nat).

Definition stripLineNumberPrefixes (hunk : DiffHunk) : DiffHunk :=
  if looks_numbered (dh_oldLines hunk ++ dh_newLines hunk)
  then mkHunk (dh_changeContext hunk) (dh_oldStartLine hunk) (dh_newStartLine hunk) (dh_hasContextLines hunk)
         (strip_number <$> dh_oldLines hunk) (strip_number <$> dh_newLines hunk) (dh_isEndOfFile hunk)
  else hunk.

(** ** One hunk *)

Definition parseOneHunk (lines : list jsstring) (lineNumber : nat) (allowMissingContext : bool) : HunkError + (DiffHunk * nat) :=
  match lines with
  | [] => inl (NoLines lineNumber)
  | headerLine :: _ =>
      match hunk_header headerLine lineNumber allowMissingContext with
      | inl e => inl e
      | inr h =>
          let '(nested, body) := nested_contexts (drop (hh_startIndex h) lines) in
          let startIndex := length lines - length body in
          let changeContexts := hh_contexts h ++ nested in
          match body with
          | [] => inl (HunkEmpty (lineNumber + 1))
          | _ =>
              match hunk_body body lineNumber empty_body with
              | inl e => inl e
              | inr b =>
                  if (hb_parsedLines b =? 0)%nat then inl (HunkEmpty (lineNumber + startIndex))
                  else inr (stripLineNumberPrefixes
                              (mkHunk (match changeContexts with [] => None | _ => Some (join [LF] changeContexts) end)
                                 (hh_oldStart h) (hh_newStart h) (hb_hasContextLines b) (hb_oldLines b) (hb_newLines b)
                                 (hb_isEndOfFile b)), hb_parsedLines b + startIndex)
              end
          end
      end
  end.

(** ** Several files in one diff *)

(** [line.split(/\s+/)] *)
Fixpoint split_spaces (in_spaces : bool) (s : jsstring) : list jsstring :=
  match s with
  | [] => [[]]
  | c :: rest =>
      if is_ws c then if in_spaces then split_spaces true rest else [] :: split_spaces true rest
      else match split_spaces false rest with w :: ws => (c :: w) :: ws | [] => [[c]] end
  end.

Definition extractMarkerPath (line : jsstring) : option jsstring :=
  if starts_with (js "diff --git ") line then
    let parts := split_spaces false line in
    match match parts !! 3 with Some p => Some p | None => parts !! 2 end with
    | Some candidate =>
        if bool_decide (candidate = []) then None
        else Some (if starts_with (js "a/") candidate || starts_with (js "b/") candidate then drop 2 candidate else candidate)
    | None => None
    end
  else if starts_with (js "*** Update File:") line then Some (trim (drop 16 line))
  else if starts_with (js "*** Add File:") line then Some (trim (drop 13 line))
  else if starts_with (js "*** Delete File:") line then Some (trim (drop 16 line))
  else None.

Definition countMultiFileMarkers (diff : jsstring) : nat :=
  let marked := omap (fun line =>
    if isDiffContentLine line then None
    else (fun marker => (marker, extractMarkerPath (trim line))) <$>
           List.find (fun marker => starts_with marker (trim line)) MULTI_FILE_MARKERS) (split_char LF diff) in
  let paths := omap (fun m => match m.2 with Some p => nonempty p | None => None end) marked in
  let distinct := remove_dups paths in
  if (0 <? length distinct)%nat then length distinct
  else fold_left Nat.max ((fun marker => length (List.filter (fun m => bool_decide (m.1 = marker)) marked)) <$> MULTI_FILE_MARKERS) 0.

(** ** All hunks *)

(** The loop over the lines; [None] when the fuel is used up. *)
Fixpoint hunk_loop (fuel : nat) (lines : list jsstring) (i : nat) : option (HunkError + list DiffHunk) :=
  match fuel with
  | O => None
  | S fuel =>
      match lines with
      | [] => Some (inr [])
      | line :: rest =>
          let trimmed := trim line in
          let isDiffContent := match line with c :: _ => (c =? 32)%N || (c =? 43)%N || (c =? 45)%N | [] => false end in
          if bool_decide (trimmed = []) then hunk_loop fuel rest (S i)
          else if negb isDiffContent && isUnifiedDiffMetadataLine trimmed then hunk_loop fuel rest (S i)
          else if starts_with (js "@@") trimmed && forallb (fun next => bool_decide (trim next = [])) rest then Some (inr [])
          else
            match parseOneHunk lines (i + 1) true with
            | inl e => Some (inl e)
            | inr (hunk, linesConsumed) =>
                match hunk_loop fuel (drop linesConsumed lines) (i + linesConsumed) with
                | Some (inr hunks) => Some (inr (hunk :: hunks))
                | other => other
                end
            end
      end
  end.

Definition parseDiffHunks (diff : jsstring) : option (HunkError + list DiffHunk) :=
  let multiFileCount := countMultiFileMarkers diff in
  if (1 <? multiFileCount)%nat then Some (inl (MultipleFiles multiFileCount))
  else
    let lines := split_char LF (normalizeDiff diff) in
    hunk_loop (S (length lines)) lines 0.
