(* ===== verification/DiffHunksFacts.v ===== *)
(** * Reading a diff terminates, and every line of it is used once

    Every diff is read to the end: each round of the loop takes at least one line, and the lines
    fall into the headers and bodies of the hunks and lines that are passed over. *)

From S2P Require Import Prelude JsText TextNormalize DiffHunks.

Local Open Scope nat_scope.

(** ** What a body line stands for *)

(** The line a line of a body expects in the file. *)
Definition old_text (line : jsstring) : option jsstring :=
  if is_eof_line line || is_elision line then None
  else match line with
       | [] => Some []
       | c :: text => if (c =? 43)%N then None else if (c =? 32)%N || (c =? 45)%N then Some text else Some line
       end.

(** The line it leaves there. *)
Definition new_text (line : jsstring) : option jsstring :=
  if is_eof_line line || is_elision line then None
  else match line with
       | [] => Some []
       | c :: text => if (c =? 45)%N then None else if (c =? 32)%N || (c =? 43)%N then Some text else Some line
       end.

Definition at_header (line : jsstring) : bool := starts_with (js "@@") line.

(** A hunk with exactly the lines of a body, from all of which numbers may have been removed. *)
Definition hunk_of (body : list jsstring) (hunk : DiffHunk) : Prop :=
  (exists f, (f = id \/ f = strip_number)
     /\ dh_oldLines hunk = f <$> omap old_text body /\ dh_newLines hunk = f <$> omap new_text body)
  /\ dh_isEndOfFile hunk = existsb is_eof_line body.

(** A line between hunks. *)
Definition passed_over (line : jsstring) : Prop := trim line = [] \/ isUnifiedDiffMetadataLine (trim line) = true.

(** The lines of a diff as a sequence of hunks: each hunk has header lines and a body of its own. *)
Inductive read_as : list jsstring -> list DiffHunk -> Prop :=
| read_end : read_as [] []
| read_dangling header rest : starts_with (js "@@") (trim header) = true -> Forall (fun line => trim line = []) rest -> read_as (header :: rest) []
| read_skip line rest hunks : passed_over line -> read_as rest hunks -> read_as (line :: rest) hunks
| read_hunk headers body rest hunk hunks :
    Forall (fun line => at_header line = true) headers -> body <> [] -> Forall (fun line => at_header line = false) body ->
    hunk_of body hunk -> read_as rest hunks -> read_as (headers ++ body ++ rest) (hunk :: hunks).

(** ** One hunk *)

(** What the loop has added when it stops: the lines of a front part. *)
Definition takes (lines : list jsstring) (b b' : HunkBody) : Prop :=
  exists body rest, lines = body ++ rest /\ hb_parsedLines b' = hb_parsedLines b + length body
    /\ Forall (fun line => at_header line = false) body
    /\ hb_oldLines b' = hb_oldLines b ++ omap old_text body /\ hb_newLines b' = hb_newLines b ++ omap new_text body
    /\ hb_isEndOfFile b' = hb_isEndOfFile b || existsb is_eof_line body.

Lemma takes_none lines b : takes lines b b.
Proof. exists [], lines. cbn. rewrite !app_nil_r, orb_false_r, Nat.add_0_r. repeat (split; [done || by constructor|]). done. Qed.

Lemma takes_line line rest b b1 b' :
  takes rest b1 b' -> at_header line = false -> hb_parsedLines b1 = S (hb_parsedLines b) ->
  hb_oldLines b1 = hb_oldLines b ++ option_list (old_text line) -> hb_newLines b1 = hb_newLines b ++ option_list (new_text line) ->
  hb_isEndOfFile b1 = hb_isEndOfFile b || is_eof_line line -> takes (line :: rest) b b'.
Proof.
  intros (body & rest' & -> & Hp' & Hb & Ho' & Hn' & He') Hh Hp Ho Hn He. exists (line :: body), rest'. split; [done|].
  split; [cbn; lia|]. split; [by constructor|]. rewrite Ho', Hn', He', Ho, Hn, He. cbn. rewrite <- !(assoc_L app), <- orb_assoc.
  destruct (old_text line), (new_text line); done.
Qed.

Lemma eof_not_header line : is_eof_line line = true -> at_header line = false.
Proof.
  unfold is_eof_line, at_header, starts_with. rewrite !andb_true_iff, !bool_decide_eq_true. intros [_ E]. apply bool_decide_eq_false. intros E'.
  destruct line as [|c line]; [done|]. apply (f_equal head) in E, E'. vm_compute in E, E'. congruence.
Qed.

Lemma elision_not_header line : is_elision line = true -> at_header line = false.
Proof.
  unfold is_elision, at_header, starts_with. rewrite orb_true_iff, !bool_decide_eq_true. intros E. apply bool_decide_eq_false. intros E'.
  destruct line as [|a [|b line]]; [done|done|]. vm_compute in E'. injection E' as -> ->.
  destruct (trimEnd_head 64%N (64%N :: line) eq_refl) as [t Ht]. unfold trim in E.
  change (trimStart (64%N :: 64%N :: line)) with (64%N :: 64%N :: line) in E. rewrite Ht in E. destruct E; discriminate.
Qed.

Lemma hunk_body_takes lines n b b' : hunk_body lines n b = inr b' -> takes lines b b'.
Proof.
  revert b. induction lines as [|line rest IH]; intros b; cbn [hunk_body]; [intros [= <-]; apply takes_none|].
  destruct (_ && _ && _); [intros [= <-]; apply takes_none|].
  destruct (is_eof_line line) eqn:Ef.
  { destruct (_ =? 0); [done|]. intros [= <-]. apply (takes_line line rest b (end_of_file b)); [apply takes_none|by apply eof_not_header|done|..];
    unfold old_text, new_text; rewrite Ef; cbn; rewrite ?app_nil_r, ?orb_true_r; done. }
  destruct (is_elision line) eqn:El.
  { intros H%IH. apply (takes_line line rest b (add_elision b)); [done|by apply elision_not_header|done|..];
    unfold old_text, new_text; rewrite ?Ef, ?El; cbn; rewrite ?app_nil_r, ?orb_false_r; done. }
  destruct line as [|c text].
  { intros H%IH. apply (takes_line [] rest b (add_context b [])); [done|done|done|..]; rewrite ?Ef; cbn; rewrite ?orb_false_r; done. }
  assert (Hgo : forall b1, takes rest b1 b' -> at_header (c :: text) = false -> hb_parsedLines b1 = S (hb_parsedLines b) ->
    hb_oldLines b1 = hb_oldLines b ++ (if (c =? 43)%N then [] else if (c =? 32)%N || (c =? 45)%N then [text] else [c :: text]) ->
    hb_newLines b1 = hb_newLines b ++ (if (c =? 45)%N then [] else if (c =? 32)%N || (c =? 43)%N then [text] else [c :: text]) ->
    hb_isEndOfFile b1 = hb_isEndOfFile b -> takes ((c :: text) :: rest) b b').
  { intros b1 H Hh Hp Ho Hn He. apply (takes_line _ rest b b1); [done|done|done|rewrite Ho|rewrite Hn|by rewrite Ef, orb_false_r];
    unfold old_text, new_text; rewrite Ef, El; cbn [orb]; by repeat destruct (_ =? _)%N. }
  clear El Ef. assert (Hc : c <> 64%N -> at_header (c :: text) = false) by (intros Hc; apply bool_decide_eq_false; intros E; apply (f_equal head) in E; vm_compute in E; congruence).
  destruct (N.eqb_spec c 32) as [->|]; [intros H%IH; by apply (Hgo _ H); [apply Hc|..]|].
  destruct (N.eqb_spec c 43) as [->|]; [intros H%IH; apply (Hgo _ H); [by apply Hc|..]; cbn; by rewrite ?app_nil_r|].
  destruct (N.eqb_spec c 45) as [->|]; [intros H%IH; apply (Hgo _ H); [by apply Hc|..]; cbn; by rewrite ?app_nil_r|].
  destruct (starts_with (js "@@") (c :: text)) eqn:Es; cbn [negb].
  - destruct (_ =? 0); [done|]. intros [= <-]. apply takes_none.
  - intros H%IH. by apply (Hgo _ H).
Qed.

Lemma nested_contexts_takes lines : exists headers, lines = headers ++ (nested_contexts lines).2
  /\ Forall (fun line => at_header line = true) headers.
Proof.
  induction lines as [|l rest (headers & E & Hh)]; cbn [nested_contexts]; [by exists []|].
  destruct (starts_with (js "@@") l) eqn:Es; cbn [negb]; [|by exists []].
  destruct (starts_with CHANGE_CONTEXT_MARKER (trimEnd l)).
  - destruct (nested_contexts rest) as [cs rest'] eqn:En. exists (l :: headers). cbn in *. split; [by rewrite E|by constructor].
  - destruct (bool_decide _); [|by exists []]. exists (l :: headers). split; [cbn; by rewrite <- E|by constructor].
Qed.

Lemma hunk_header_start line n allow h : hunk_header line n allow = inr h ->
  hh_startIndex h = 0 \/ (hh_startIndex h = 1 /\ at_header line = true).
Proof.
  unfold hunk_header, at_header. destruct (starts_with (js "@@") line) eqn:Es; cbn [andb]; intros H; repeat case_match; simplify_eq; auto.
Qed.

Lemma strip_hunk_of hunk : exists f, (f = id \/ f = strip_number)
  /\ dh_oldLines (stripLineNumberPrefixes hunk) = f <$> dh_oldLines hunk /\ dh_newLines (stripLineNumberPrefixes hunk) = f <$> dh_newLines hunk
  /\ dh_isEndOfFile (stripLineNumberPrefixes hunk) = dh_isEndOfFile hunk.
Proof.
  unfold stripLineNumberPrefixes. destruct (looks_numbered _); [exists strip_number; auto|].
  exists id. rewrite !list_fmap_id. auto.
Qed.

(** A hunk takes its header lines and its body, and nothing more. *)
Lemma one_hunk_takes lines n allow hunk k : parseOneHunk lines n allow = inr (hunk, k) ->
  exists headers body rest, lines = headers ++ body ++ rest /\ k = length headers + length body /\ body <> []
    /\ Forall (fun line => at_header line = true) headers /\ Forall (fun line => at_header line = false) body /\ hunk_of body hunk.
Proof.
  unfold parseOneHunk. destruct lines as [|headerLine rest0]; [done|].
  destruct (hunk_header headerLine n allow) as [e|h] eqn:Eh; [done|]. apply hunk_header_start in Eh.
  set (lines := headerLine :: rest0) in *. destruct (nested_contexts_takes (drop (hh_startIndex h) lines)) as (more & El & Hm).
  destruct (nested_contexts _) as [nested tail] eqn:En. cbn [snd] in El.
  assert (Hheads : exists headers, lines = headers ++ tail /\ Forall (fun line => at_header line = true) headers).
  { exists (take (hh_startIndex h) lines ++ more). rewrite <- (assoc_L app), <- El, take_drop. split; [done|]. apply Forall_app. split; [|done].
    destruct Eh as [->|[-> Hh]]; [done|]. by repeat constructor. }
  destruct Hheads as (headers & Hl & Hh). destruct tail as [|t0 tail]; [done|].
  destruct (hunk_body (t0 :: tail) n empty_body) as [e|b] eqn:Eb; [done|].
  apply hunk_body_takes in Eb as (body & rest & Hbody & Hp & Hb & Ho & Hn & Hf). cbn [empty_body hb_parsedLines hb_oldLines hb_newLines hb_isEndOfFile app orb] in *.
  destruct (Nat.eqb_spec (hb_parsedLines b) 0); [done|]. intros [= <- <-]. exists headers, body, rest.
  split; [by rewrite <- Hbody|]. split; [apply (f_equal length) in Hl; rewrite length_app in Hl; unfold lines in *; cbn [length] in *; lia|]. split; [intros ->; cbn in *; lia|].
  split; [done|]. split; [done|]. set (raw := mkHunk _ _ _ _ _ _ _). destruct (strip_hunk_of raw) as (f & Hfid & H1 & H2 & H3).
  split; [exists f; split; [done|]; rewrite H1, H2|rewrite H3]; unfold raw; cbn; by rewrite ?Ho, ?Hn, ?Hf.
Qed.

(** ** The loop *)

(** With more than [n] units of fuel the loop answers, always the same, and reads the lines as the hunks it returns. *)
Definition settles (lines : list jsstring) (loop : nat -> option (HunkError + list DiffHunk)) : Prop :=
  exists r, (forall fuel, length lines < fuel -> loop fuel = Some r) /\ forall hunks, r = inr hunks -> read_as lines hunks.

Lemma settles_now lines loop r : (forall f, loop (S f) = Some r) -> (forall hunks, r = inr hunks -> read_as lines hunks) -> settles lines loop.
Proof. intros Heq Hb. exists r. split; [|done]. intros [|fuel] Hf; [lia|]. apply Heq. Qed.

Lemma settles_skip line rest loop loop' : passed_over line -> (forall f, loop' (S f) = loop f) -> settles rest loop -> settles (line :: rest) loop'.
Proof.
  intros Hl Heq (r & Hr & Hb). exists r. split; [|intros hunks Hh; apply read_skip; auto].
  intros [|fuel] Hf; [lia|]. rewrite Heq. apply Hr. cbn in Hf. lia.
Qed.

Lemma settles_hunk headers body rest hunk loop loop' :
  Forall (fun line => at_header line = true) headers -> body <> [] -> Forall (fun line => at_header line = false) body -> hunk_of body hunk ->
  (forall f, loop' (S f) = match loop f with Some (inr hunks) => Some (inr (hunk :: hunks)) | other => other end) ->
  settles rest loop -> settles (headers ++ body ++ rest) loop'.
Proof.
  intros H1 H2 H3 H4 Heq (r & Hr & Hb). exists (match r with inr hunks => inr (hunk :: hunks) | inl e => inl e end). split.
  - rewrite !length_app. destruct body; [done|]. intros [|fuel] Hf; [lia|]. cbn in Hf. rewrite Heq, Hr by lia. by destruct r.
  - destruct r as [e|hunks]; [done|]. intros ? [= <-]. apply read_hunk; auto.
Qed.

Lemma loop_settles lines i : settles lines (fun fuel => hunk_loop fuel lines i).
Proof.
  remember (length lines) as n eqn:En. revert lines i En.
  induction (lt_wf n) as [n _ IH]. intros [|line rest] i ->; [apply settles_now with (inr []); [done|]; intros ? [= <-]; constructor|].
  assert (Hskip : settles rest (fun fuel => hunk_loop fuel rest (S i))) by (apply (IH (length rest)); [cbn; lia|done]).
  destruct (bool_decide (trim line = [])) eqn:E1.
  { eapply settles_skip; [left; by apply bool_decide_eq_true in E1|intros f; cbn [hunk_loop]; rewrite E1; reflexivity|exact Hskip]. }
  destruct (negb (match line with c :: _ => (c =? 32)%N || (c =? 43)%N || (c =? 45)%N | [] => false end)
            && isUnifiedDiffMetadataLine (trim line)) eqn:E2.
  { eapply settles_skip; [right; by apply andb_true_iff in E2 as [_ E2]|intros f; cbn [hunk_loop]; rewrite E1, E2; reflexivity|exact Hskip]. }
  destruct (starts_with (js "@@") (trim line) && forallb (fun next => bool_decide (trim next = [])) rest) eqn:E3.
  { eapply settles_now; [intros f; cbn [hunk_loop]; rewrite E1, E2, E3; reflexivity|]. intros ? [= <-]. apply andb_true_iff in E3 as [Ha Hb].
    apply read_dangling; [done|]. rewrite forallb_forall in Hb. apply Forall_forall. intros l Hl%list_elem_of_In. by apply Hb, bool_decide_eq_true in Hl. }
  destruct (parseOneHunk (line :: rest) (i + 1) true) as [e|[hunk k]] eqn:Eh.
  { by eapply settles_now; [intros f; cbn [hunk_loop]; rewrite E1, E2, E3, Eh; reflexivity|]. }
  pose proof (one_hunk_takes _ _ _ _ _ Eh) as (headers & body & rest' & Hl & Hk & Hne & Hh & Hb & Ho). rewrite Hl.
  assert (Hd : drop k (line :: rest) = rest').
  { rewrite Hl, (assoc_L app), Hk, <- length_app. apply drop_app_length. }
  eapply settles_hunk; [done|done|done|exact Ho|intros f; rewrite <- Hl; cbn [hunk_loop]; rewrite E1, E2, E3, Eh; reflexivity|].
  rewrite Hd. apply (IH (length rest')); [|done]. rewrite Hl, !length_app. destruct body; [done|]. cbn. lia.
Qed.

(** C11: Reading a diff always comes to an end, and uses every line once.  Every diff is either refused
    with an error or read into hunks, and any larger bound on the rounds gives the same answer.  The
    lines of a diff that is read, after its wrapper and metadata are removed, are cut into
    pieces, one after the other: lines between hunks, which are blank or metadata, and
    for each hunk its header lines and its body; a hunk expects exactly the lines that its body
    keeps or removes and leaves exactly those it keeps or adds (numbers copied from a listing may be removed
    from all of them), and is at the end of the file exactly when its body says so. *)
Theorem parse_hunks_terminates diff :
  exists r, parseDiffHunks diff = Some r
    /\ (forall fuel, length (split_char LF (normalizeDiff diff)) < fuel -> countMultiFileMarkers diff <= 1 ->
          hunk_loop fuel (split_char LF (normalizeDiff diff)) 0 = Some r)
    /\ (forall hunks, r = inr hunks -> read_as (split_char LF (normalizeDiff diff)) hunks).
Proof.
  unfold parseDiffHunks. destruct (Nat.ltb_spec 1 (countMultiFileMarkers diff)); [eexists; split; [done|]; split; [lia|done]|].
  destruct (loop_settles (split_char LF (normalizeDiff diff)) 0) as (r & Hr & Hb). exists r. split; [apply Hr; lia|].
  split; [intros; by apply Hr|exact Hb].
Qed.
