(* ===== verification/DiffRoundTrip.v ===== *)
(** * Writing hunks and reading them back

    A writer for diffs of one file: a header, the lines that stay, go and come, and the
    end-of-file marker.  Reading what it writes gives the hunks back. *)

From S2P Require Import Prelude JsText TextNormalize DiffHunks.

Local Open Scope nat_scope.

(** ** The writer *)

Inductive BodyLine :=
| Keep (text : jsstring)
| Remove (text : jsstring)
| Insert (text : jsstring).

Record HunkText := mkHunkText {
  ht_range : option (N * N * N * N * option jsstring);
  ht_body : list BodyLine;
  ht_eof : bool
}.

Definition write_line (l : BodyLine) : jsstring :=
  match l with Keep s => 32%N :: s | Remove s => 45%N :: s | Insert s => 43%N :: s end.

Definition write_context (context : option jsstring) : jsstring :=
  match context with Some s => js " " ++ s | None => [] end.

Definition write_header (range : option (N * N * N * N * option jsstring)) : jsstring :=
  match range with
  | None => js "@@"
  | Some (a, b, c, d, context) =>
      js "@@ -" ++ dec a ++ js "," ++ dec b ++ js " +" ++ dec c ++ js "," ++ dec d ++ js " @@" ++ write_context context
  end.

Definition write_hunk (h : HunkText) : list jsstring :=
  write_header (ht_range h) :: (write_line <$> ht_body h) ++ (if ht_eof h then [EOF_MARKER] else []).

Definition write_diff (hunks : list HunkText) : jsstring := join [LF] (concat (write_hunk <$> hunks)).

(** ** What the text stands for *)

Definition old_lines (body : list BodyLine) : list jsstring :=
  omap (fun l => match l with Keep s | Remove s => Some s | Insert _ => None end) body.
Definition new_lines (body : list BodyLine) : list jsstring :=
  omap (fun l => match l with Keep s | Insert s => Some s | Remove _ => None end) body.
Definition is_keep (l : BodyLine) : bool := match l with Keep _ => true | _ => false end.

Definition meaning (h : HunkText) : DiffHunk :=
  mkHunk (match ht_range h with Some (_, _, _, _, context) => context | None => None end)
    (match ht_range h with Some (a, _, _, _, _) => Some a | None => None end)
    (match ht_range h with Some (_, _, c, _, _) => Some c | None => None end)
    (existsb is_keep (ht_body h)) (old_lines (ht_body h)) (new_lines (ht_body h)) (ht_eof h).

(** ** Which hunks a diff can carry *)

Definition no_lf_text (s : jsstring) : bool := forallb (fun c => negb (c =? LF)%N) s.

(** A body line is read as content, neither as an elision nor as a wrapper. *)
Definition carried_line (l : BodyLine) : bool :=
  no_lf_text (write_line l) && isDiffContentLine (write_line l) && negb (is_elision (write_line l))
  && negb (isPatchWrapperLine (trim (write_line l))).

Definition trimmed_text (s : jsstring) : bool :=
  match head s, last s with Some a, Some b => negb (is_ws a) && negb (is_ws b) | _, _ => false end.

Definition carried_range (range : option (N * N * N * N * option jsstring)) : bool :=
  match range with
  | None => true
  | Some (a, _, c, _, context) =>
      (1 <=? a)%N && (1 <=? c)%N
      && match context with Some s => trimmed_text s && negb (existsb is_line_terminator s) | None => true end
  end.

Definition carried_hunk (h : HunkText) : bool :=
  carried_range (ht_range h) && forallb carried_line (ht_body h) && negb (forallb is_keep (ht_body h))
  && negb (looks_numbered (old_lines (ht_body h) ++ new_lines (ht_body h))).

(** ** Prefixes *)

Lemma starts_with_cons_ne c d p s : c <> d -> starts_with (c :: p) (d :: s) = false.
Proof. intros Hne. unfold starts_with. apply bool_decide_eq_false. cbn [length take firstn]. intros [= ->]. done. Qed.

Lemma starts_with_app p s : starts_with p (p ++ s) = true.
Proof. unfold starts_with. apply bool_decide_eq_true. by rewrite take_app_length. Qed.

Lemma read_text_app p s : read_text p (p ++ s) = Some s.
Proof. unfold read_text. by rewrite starts_with_app, drop_app_length. Qed.

Lemma not_prefixed c s prefixes :
  forallb (fun p => match p with d :: _ => negb (d =? c)%N | [] => false end) prefixes = true ->
  matchesTrimmedPrefix (c :: s) prefixes = false.
Proof.
  unfold matchesTrimmedPrefix. induction prefixes as [|[|d p] ps IH]; cbn [forallb existsb]; [done|done|].
  intros [Hd Hps]%andb_prop. rewrite IH by done. rewrite orb_false_r. apply starts_with_cons_ne. intros ->.
  by rewrite N.eqb_refl in Hd.
Qed.

(** ** Normalising keeps the written lines *)

Definition good_line (l : jsstring) : Prop :=
  l <> [] /\ keep_line l = true /\ isPatchWrapperLine (trim l) = false /\ (trim l = [] -> isDiffContentLine l = true).

Lemma normalized_good lines : Forall good_line lines -> normalized_diff_lines lines = lines.
Proof.
  intros H. unfold normalized_diff_lines.
  assert (drop_blank_head (rev lines) = rev lines) as ->.
  { apply Forall_rev in H. destruct H as [|l rest (Hne & _ & _ & Hc)]; [done|]. cbn [drop_blank_head].
    rewrite (bool_decide_eq_false_2 (l = [])) by done. cbn [orb].
    destruct (bool_decide (trim l = [])) eqn:E; cbn [andb]; [|done]. apply bool_decide_eq_true in E. by rewrite Hc. }
  rewrite rev_involutive.
  assert (match lines with
          | first :: rest => if negb (bool_decide (first = [])) && isPatchWrapperLine (trim first) then rest else lines
          | [] => [] end = lines) as ->.
  { destruct H as [|l rest (_ & _ & Hw & _)]; [done|]. by rewrite Hw, andb_false_r. }
  assert (match rev lines with
          | lastLine :: before => if isPatchWrapperLine (trim lastLine) then rev before else lines
          | [] => [] end = lines) as ->.
  { pose proof H as Hr. apply Forall_rev in Hr. destruct (rev lines) as [|l rest] eqn:E.
    - by rewrite <- (rev_involutive lines), E.
    - inversion Hr as [|?? (_ & _ & Hw & _)]; subst. by rewrite Hw. }
  induction H as [|l rest (_ & Hk & _) H IH]; [done|]. cbn [List.filter]. by rewrite Hk, IH.
Qed.

Lemma good_no_marker lines : lines <> [] -> Forall good_line lines -> Forall (Forall (fun c => c <> LF)) lines ->
  countMultiFileMarkers (join [LF] lines) = 0.
Proof.
  intros Hne H Hlf. unfold countMultiFileMarkers. rewrite split_join by done.
  set (f := fun line : jsstring => if isDiffContentLine line then None else _).
  assert (omap f lines = []) as ->; [|done].
  clear Hne Hlf. induction H as [|l rest (_ & Hk & _) H IH]; [done|]. cbn [omap list_omap].
  assert (f l = None) as ->; [|done]. unfold f. destruct (isDiffContentLine l) eqn:Ec; [done|].
  unfold keep_line in Hk. rewrite Ec in Hk. cbn [orb] in Hk. apply negb_true_iff in Hk.
  unfold matchesTrimmedPrefix, DIFF_METADATA_PREFIXES in Hk. cbn [existsb] in Hk.
  repeat (apply orb_false_elim in Hk as [? Hk]). cbn [List.find MULTI_FILE_MARKERS].
  by repeat match goal with E : starts_with _ _ = false |- _ => rewrite E; clear E end.
Qed.

(** ** Written lines *)

Lemma header_start range : exists s, write_header range = 64%N :: 64%N :: s.
Proof. destruct range as [[[[[a b] c] d] context]|]; by eexists. Qed.

Lemma trim_at s : exists s', trim (64%N :: s) = 64%N :: s'.
Proof. unfold trim. rewrite trimStart_id by done. by apply trimEnd_head. Qed.

Lemma at_good s : good_line (64%N :: s).
Proof.
  destruct (trim_at s) as (s' & E). split; [done|]. unfold keep_line, isPatchWrapperLine. rewrite E. split; [|split; [|done]].
  - rewrite not_prefixed; [|done]. apply orb_true_r.
  - by rewrite not_prefixed.
Qed.

Lemma line_good l : carried_line l = true -> good_line (write_line l).
Proof.
  unfold carried_line. intros [[[_ Hc]%andb_prop _]%andb_prop Hw%negb_true_iff]%andb_prop.
  split; [by destruct l|]. split; [unfold keep_line; by rewrite Hc|]. done.
Qed.

Lemma eof_good : good_line EOF_MARKER.
Proof. split; [done|]. split; [by vm_compute|]. split; [by vm_compute|]. intros H. exfalso. revert H. by vm_compute. Qed.

Lemma hunk_good h : carried_hunk h = true -> Forall good_line (write_hunk h).
Proof.
  intros [[[_ Hl]%andb_prop _]%andb_prop _]%andb_prop. unfold write_hunk. constructor.
  - destruct (header_start (ht_range h)) as (s & ->). apply at_good.
  - apply Forall_app. split; [|destruct (ht_eof h); [apply Forall_singleton, eof_good|done]].
    apply Forall_fmap, Forall_forall. intros l Hin%list_elem_of_In. apply line_good. by apply (proj1 (forallb_forall _ _) Hl).
Qed.

Lemma no_lf_Forall s : no_lf_text s = true -> Forall (fun c => c <> LF) s.
Proof.
  intros H. apply Forall_forall. intros c Hc%list_elem_of_In -> .
  by apply (proj1 (forallb_forall _ _) H) in Hc.
Qed.

Lemma digits_no_lf n : Forall (fun c => c <> LF) (dec n).
Proof. eapply Forall_impl; [apply dec_digit|]. by intros c Hc ->. Qed.

Lemma terminator_no_lf s : existsb is_line_terminator s = false -> Forall (fun c => c <> LF) s.
Proof.
  intros H. apply Forall_forall. intros c Hc%list_elem_of_In ->.
  assert (existsb is_line_terminator s = true); [|congruence]. apply existsb_exists. by exists LF.
Qed.

Lemma header_no_lf range : carried_range range = true -> Forall (fun c => c <> LF) (write_header range).
Proof.
  assert (Hjs : forall s, no_lf_text s = true -> Forall (fun c => c <> LF) s) by apply no_lf_Forall.
  destruct range as [[[[[a b] c] d] context]|]; [|intros _; by apply Hjs].
  intros [_ Hctx]%andb_prop. cbn [write_header]. rewrite !Forall_app.
  repeat (split; [first [apply digits_no_lf|by apply Hjs]|]).
  destruct context as [s|]; cbn [write_context]; [|done]. apply andb_prop in Hctx as [_ Hs%negb_true_iff].
  apply Forall_app. split; [by apply Hjs|by apply terminator_no_lf].
Qed.

Lemma hunk_no_lf h : carried_hunk h = true -> Forall (Forall (fun c => c <> LF)) (write_hunk h).
Proof.
  intros [[[Hr Hl]%andb_prop _]%andb_prop _]%andb_prop. unfold write_hunk. constructor; [by apply header_no_lf|].
  apply Forall_app. split; [|destruct (ht_eof h); [apply Forall_singleton; by apply no_lf_Forall|done]].
  apply Forall_fmap, Forall_forall. intros l Hin%list_elem_of_In. apply (proj1 (forallb_forall _ _) Hl) in Hin.
  unfold carried_line in Hin. simpl_bool. by apply no_lf_Forall.
Qed.

(** ** Headers *)

Lemma read_number_dec n s : match s with c :: _ => is_digit c = false | [] => True end -> read_number (dec n ++ s) = Some (n, s).
Proof.
  intros Hs. unfold read_number. rewrite span_prefix; [|apply dec_digit|by destruct s].
  destruct (dec n) as [|c t] eqn:E; [|by rewrite <- E, dec_value_dec].
  exfalso. destruct (N.eq_dec n 0) as [->|]; [done|]. destruct (dec_head n) as (c & t & E' & _); [lia|congruence].
Qed.

Lemma read_range_dec a b s : match s with c :: _ => is_digit c = false | [] => True end ->
  read_range (dec a ++ js "," ++ dec b ++ s) = Some (a, b, s).
Proof.
  intros Hs. unfold read_range. rewrite read_number_dec by done. change (js "," ++ dec b ++ s) with (44%N :: dec b ++ s).
  cbn [mbind option_bind]. change ((44 =? 44)%N) with true. cbn iota. by rewrite read_number_dec.
Qed.

Lemma trimmed_trim s : trimmed_text s = true -> trimStart s = s /\ trimEnd s = s /\ s <> [].
Proof.
  unfold trimmed_text. destruct s as [|a s]; [done|]. cbn [head]. destruct (last (a :: s)) as [b|] eqn:El; [|done].
  intros [Ha%negb_true_iff Hb%negb_true_iff]%andb_prop. split; [by apply trimStart_id|]. split; [|done].
  apply trimEnd_id. by rewrite El.
Qed.

Lemma trimEnd_app s t : t <> [] -> trimEnd t = t -> trimEnd (s ++ t) = s ++ t.
Proof.
  intros Hne Ht. apply trimEnd_id. destruct (last (s ++ t)) as [c|] eqn:E; [|done].
  rewrite last_app in E. destruct (last t) as [d|] eqn:El; [|by apply last_None in El].
  injection E as <-. destruct (is_ws d) eqn:Ed; [|done]. exfalso.
  apply last_Some in El as (t' & ->). unfold trimEnd in Ht. rewrite rev_app_distr in Ht. cbn [rev app] in Ht.
  rewrite trimStart_ws in Ht by done. apply (f_equal length) in Ht. rewrite length_rev, length_app in Ht. cbn [length] in Ht.
  pose proof (span_app is_ws (rev t')) as Hsp. apply (f_equal length) in Hsp. rewrite length_app, length_rev in Hsp.
  unfold trimStart in Ht. lia.
Qed.

Lemma context_end context :
  match context with Some s => trimmed_text s && negb (existsb is_line_terminator s) | None => true end = true ->
  trimEnd (js " @@" ++ write_context context) = js " @@" ++ write_context context
  /\ nonempty (trim (trimStart (write_context context))) = context
  /\ existsb is_line_terminator (trimStart (write_context context)) = false.
Proof.
  destruct context as [s|]; [|done]. intros [(Hs & He & Hne)%trimmed_trim Ht%negb_true_iff]%andb_prop. cbn [write_context].
  split; [by apply trimEnd_app with (s := js " @@ ")|]. change (js " " ++ s) with (32%N :: s). rewrite trimStart_ws by done. rewrite Hs. split; [|done].
  unfold trim, nonempty. rewrite Hs, He. by rewrite bool_decide_eq_false_2.
Qed.

Definition range_header (range : option (N * N * N * N * option jsstring)) : HunkHeader :=
  match range with
  | None => mkHeader [] None None 1
  | Some (a, _, c, _, context) => mkHeader (match context with Some s => [s] | None => [] end) (Some a) (Some c) 1
  end.

Lemma header_read range n allow : carried_range range = true -> hunk_header (write_header range) n allow = inr (range_header range).
Proof.
  destruct range as [[[[[a b] c] d] context]|]; [|by intros _; vm_compute]. intros [[Ha Hc]%andb_prop Hctx]%andb_prop.
  apply context_end in Hctx as (He & Hn & Ht). unfold hunk_header. cbn [write_header].
  set (tail := js " @@" ++ write_context context) in *.
  assert (Htrim : trimEnd (js "@@ -" ++ dec a ++ js "," ++ dec b ++ js " +" ++ dec c ++ js "," ++ dec d ++ tail)
                = js "@@ -" ++ dec a ++ js "," ++ dec b ++ js " +" ++ dec c ++ js "," ++ dec d ++ tail).
  { rewrite !(assoc_L app). by apply trimEnd_app. }
  rewrite Htrim. clear Htrim.
  assert (Hp : parseUnifiedHunkHeader (js "@@ -" ++ dec a ++ js "," ++ dec b ++ js " +" ++ dec c ++ js "," ++ dec d ++ tail)
             = Some (mkUnified a b c d context)).
  { unfold parseUnifiedHunkHeader. change (js "@@ -") with (js "@@" ++ js " -"). rewrite <- (assoc_L app), read_text_app.
    cbn [mbind option_bind]. change (js " -" ++ ?x) with (32%N :: js "-" ++ x).
    rewrite trimStart_ws by done. rewrite (trimStart_id (js "-" ++ _)) by done. rewrite read_text_app. cbn [mbind option_bind].
    rewrite read_range_dec by done. change (js " +" ++ ?x) with (32%N :: js "+" ++ x). cbn [mbind option_bind].
    change (negb (is_ws 32)) with false. cbn iota.
    rewrite trimStart_ws by done. rewrite (trimStart_id (js "+" ++ _)) by done. rewrite read_text_app. cbn [mbind option_bind].
    rewrite read_range_dec by done. cbn [mbind option_bind]. unfold tail. change (js " @@" ++ ?x) with (32%N :: js "@@" ++ x).
    rewrite trimStart_ws by done. rewrite (trimStart_id (js "@@" ++ _)) by done. rewrite read_text_app. cbn [mbind option_bind].
    by rewrite Ht, Hn. }
  rewrite Hp. set (digits := dec a ++ _).
  assert (starts_with (js "@@") (js "@@ -" ++ digits) = true) as -> by (apply (starts_with_app (js "@@") (js " -" ++ digits))).
  rewrite bool_decide_eq_false_2 by done.
  assert (is_empty_context_marker (js "@@ -" ++ digits) = false) as ->.
  { unfold is_empty_context_marker. change (js "@@ -" ++ digits) with (js "@@" ++ 32%N :: 45%N :: digits). rewrite read_text_app.
    rewrite trimStart_ws, trimStart_id by done. by apply bool_decide_eq_false. }
  cbn [andb orb uh_oldStartLine uh_newStartLine uh_changeContext range_header].
  destruct (N.ltb_spec a 1); [apply N.leb_le in Ha; lia|]. destruct (N.ltb_spec c 1); [apply N.leb_le in Hc; lia|]. done.
Qed.

(** ** Bodies *)

Definition absorb (b : HunkBody) (body : list BodyLine) : HunkBody :=
  mkBody (hb_hasContextLines b || existsb is_keep body) (hb_oldLines b ++ old_lines body) (hb_newLines b ++ new_lines body)
    (hb_isEndOfFile b) (hb_parsedLines b + length body).

Lemma absorb_nil b : absorb b [] = b.
Proof. unfold absorb. cbn. rewrite orb_false_r, !app_nil_r, Nat.add_0_r. by destruct b. Qed.

Lemma absorb_cons b l body :
  absorb (match l with Keep s => add_context b s | Remove s => add_old b s | Insert s => add_new b s end) body = absorb b (l :: body).
Proof.
  unfold absorb. destruct l; cbn [add_context add_old add_new hb_hasContextLines hb_oldLines hb_newLines hb_isEndOfFile hb_parsedLines
    existsb is_keep old_lines new_lines omap list_omap length]; rewrite <- ?(assoc_L app); cbn [app]; rewrite ?orb_true_r; f_equal; lia.
Qed.

Lemma body_read body rest n b : forallb carried_line body = true ->
  hunk_body ((write_line <$> body) ++ rest) n b = hunk_body rest n (absorb b body).
Proof.
  revert b. induction body as [|l body IH]; intros b; [by rewrite absorb_nil|]. cbn [forallb]. intros [Hl Hb]%andb_prop.
  rewrite fmap_cons. cbn [app hunk_body]. rewrite <- absorb_cons, <- IH by done.
  unfold carried_line in Hl. apply andb_prop in Hl as [[[_ Hc]%andb_prop He%negb_true_iff]%andb_prop _].
  assert (is_eof_line (write_line l) = false) as -> by (unfold is_eof_line; by rewrite Hc).
  rewrite He. rewrite (bool_decide_eq_false_2 (write_line l = [])) by (by destruct l). by destruct l.
Qed.

(** What follows a hunk: nothing, or the next header. *)
Definition next_hunk (rest : list jsstring) : Prop :=
  rest = [] \/ exists s rest', rest = (64%N :: 64%N :: s) :: rest'.

Lemma body_end rest n b : next_hunk rest -> hb_parsedLines b <> 0 -> hunk_body rest n b = inr b.
Proof.
  intros [->|(s & rest' & ->)] Hb; [done|]. cbn [hunk_body].
  rewrite bool_decide_eq_false_2 by done. cbn [andb].
  assert (is_eof_line (64%N :: 64%N :: s) = false) as ->.
  { unfold is_eof_line. destruct (trimEnd_head 64%N (64%N :: s)) as (t & ->); [done|]. by rewrite bool_decide_eq_false_2. }
  assert (is_elision (64%N :: 64%N :: s) = false) as ->.
  { unfold is_elision. destruct (trim_at (64%N :: s)) as (t & ->). by rewrite !bool_decide_eq_false_2. }
  change ((64 =? 32)%N) with false. change ((64 =? 43)%N) with false. change ((64 =? 45)%N) with false. cbn iota.
  change (64%N :: 64%N :: s) with (js "@@" ++ s). rewrite starts_with_app. cbn [negb].
  by destruct (Nat.eqb_spec (hb_parsedLines b) 0).
Qed.

Lemma eof_read rest n b : hb_parsedLines b <> 0 -> hunk_body (EOF_MARKER :: rest) n b = inr (end_of_file b).
Proof.
  intros Hb. cbn [hunk_body]. rewrite bool_decide_eq_false_2 by done. cbn [andb].
  change (is_eof_line EOF_MARKER) with true. cbn iota. by destruct (Nat.eqb_spec (hb_parsedLines b) 0).
Qed.

(** ** Hunks *)

Lemma not_all_keep body : forallb is_keep body = false -> body <> [] /\ exists l, l ∈ body /\ is_keep l = false.
Proof.
  induction body as [|l body IH]; [done|]. cbn [forallb]. intros H. split; [done|].
  destruct (is_keep l) eqn:E; [|exists l; split; [by left|done]].
  destruct (IH H) as (_ & l' & Hl' & E'). exists l'. split; [by right|done].
Qed.

Lemma body_first body rest : forallb carried_line body = true -> body <> [] ->
  nested_contexts ((write_line <$> body) ++ rest) = ([], (write_line <$> body) ++ rest).
Proof.
  destruct body as [|l body]; [done|]. intros _ _. rewrite fmap_cons. cbn [app nested_contexts].
  by destruct l; cbn [write_line]; change (js "@@") with [64%N; 64%N]; rewrite starts_with_cons_ne.
Qed.

Lemma one_hunk_read h rest n : carried_hunk h = true -> next_hunk rest ->
  parseOneHunk (write_hunk h ++ rest) n true = inr (meaning h, length (write_hunk h)).
Proof.
  intros Hh Hnext. unfold carried_hunk in Hh. apply andb_prop in Hh as [[[Hr Hl]%andb_prop Hk%negb_true_iff]%andb_prop Hs%negb_true_iff].
  apply not_all_keep in Hk as [Hne _]. unfold parseOneHunk, write_hunk. cbn [app].
  rewrite header_read by done. assert (hh_startIndex (range_header (ht_range h)) = 1) as ->.
  { by destruct (ht_range h) as [[[[[??]?]?]?]|]. }
  change (drop 1 (?x :: ?l)) with l. rewrite <- (assoc_L app). rewrite body_first by done.
  set (eof := if ht_eof h then [EOF_MARKER] else []).
  assert (Hb : hunk_body ((write_line <$> ht_body h) ++ eof ++ rest) n empty_body
             = inr (mkBody (existsb is_keep (ht_body h)) (old_lines (ht_body h)) (new_lines (ht_body h)) (ht_eof h)
                      (length (ht_body h) + length eof))).
  { rewrite body_read by done. assert (hb_parsedLines (absorb empty_body (ht_body h)) <> 0) as Hp by (by destruct (ht_body h)).
    unfold eof. destruct (ht_eof h).
    - cbn [app]. rewrite eof_read by done. unfold end_of_file, absorb, empty_body. cbn [hb_parsedLines hb_hasContextLines hb_oldLines
      hb_newLines orb app length]. f_equal. f_equal. lia.
    - cbn [app]. rewrite body_end by done. unfold absorb, empty_body. cbn [hb_parsedLines hb_hasContextLines hb_oldLines
      hb_newLines hb_isEndOfFile orb app length]. f_equal. f_equal. lia. }
  rewrite Hb. destruct ((write_line <$> ht_body h) ++ eof ++ rest) as [|x xs] eqn:Ex.
  { destruct (ht_body h); [done|]. discriminate Ex. }
  rewrite <- Ex. cbn [hb_parsedLines hb_hasContextLines hb_oldLines hb_newLines hb_isEndOfFile]. clear Hb.
  destruct (Nat.eqb_spec (length (ht_body h) + length eof) 0) as [E|_]; [destruct (ht_body h); cbn in E; [done|lia]|].
  unfold stripLineNumberPrefixes. cbn [dh_oldLines dh_newLines]. rewrite Hs. do 2 f_equal.
  - unfold meaning. by destruct (ht_range h) as [[[[[??]?]?] [?|]]|].
  - cbn [length]. rewrite !length_app, !length_fmap. lia.
Qed.

Lemma write_hunk_next hunks : next_hunk (concat (write_hunk <$> hunks)).
Proof.
  destruct hunks as [|h hunks]; [by left|right]. rewrite fmap_cons. cbn [concat]. unfold write_hunk at 1.
  destruct (header_start (ht_range h)) as (s & ->). by eexists _, _.
Qed.

Lemma changed_not_blank l : is_keep l = false -> trim (write_line l) <> [].
Proof.
  intros Hl. unfold trim. destruct l as [s|s|s]; [done| |]; cbn [write_line]; rewrite trimStart_id by done.
  - by destruct (trimEnd_head 45%N s) as (t & ->).
  - by destruct (trimEnd_head 43%N s) as (t & ->).
Qed.

Lemma loop_read hunks fuel i : forallb carried_hunk hunks = true -> length (concat (write_hunk <$> hunks)) < fuel ->
  hunk_loop fuel (concat (write_hunk <$> hunks)) i = Some (inr (meaning <$> hunks)).
Proof.
  revert fuel i. induction hunks as [|h hunks IH]; intros fuel i; (destruct fuel as [|fuel]; [lia|]); [done|].
  cbn [forallb]. intros [Hh Hhs]%andb_prop. rewrite fmap_cons. cbn [concat]. intros Hf.
  pose proof (one_hunk_read h (concat (write_hunk <$> hunks)) (i + 1) Hh (write_hunk_next hunks)) as Hone.
  assert (Hshape : exists s body, write_hunk h = (64%N :: 64%N :: s) :: (write_line <$> ht_body h) ++ body).
  { unfold write_hunk. destruct (header_start (ht_range h)) as (s & ->). by eexists _, _. }
  destruct Hshape as (s & body & Hshape).
  assert (Hrest : drop (length (write_hunk h)) (write_hunk h ++ concat (write_hunk <$> hunks)) = concat (write_hunk <$> hunks))
    by apply drop_app_length.
  rewrite Hshape in Hone, Hrest, Hf |- *. cbn [app] in Hone, Hrest, Hf |- *. cbn [hunk_loop]. rewrite Hone, Hrest.
  destruct (trim_at (64%N :: s)) as (t & Et). rewrite Et. rewrite bool_decide_eq_false_2 by done.
  change ((64 =? 32)%N || (64 =? 43)%N || (64 =? 45)%N) with false. cbn [negb andb].
  unfold isUnifiedDiffMetadataLine. rewrite not_prefixed by (by vm_compute).
  rewrite (proj2 (andb_false_iff _ _)).
  - rewrite IH; [done|done|]. cbn [length] in Hf. rewrite length_app in Hf. lia.
  - right. unfold carried_hunk in Hh. apply andb_prop in Hh as [[_ Hk%negb_true_iff]%andb_prop _].
    apply not_all_keep in Hk as (_ & l & Hl & Hkeep). apply not_true_iff_false. intros Hall.
    apply (changed_not_blank l Hkeep). refine (proj1 (bool_decide_eq_true _) _).
    apply (proj1 (forallb_forall _ _) Hall). apply in_app_iff. left. apply in_app_iff. left.
    apply list_elem_of_In, list_elem_of_fmap. by exists l.
Qed.

Lemma hunks_read_back hunks : hunks <> [] -> forallb carried_hunk hunks = true ->
  parseDiffHunks (write_diff hunks) = Some (inr (meaning <$> hunks)).
Proof.
  intros Hne Hall. unfold parseDiffHunks, write_diff, normalizeDiff. set (lines := concat (write_hunk <$> hunks)).
  assert (Hg : Forall good_line lines /\ Forall (Forall (fun c => c <> LF)) lines /\ lines <> []).
  { unfold lines. split; [|split].
    - apply Forall_concat, Forall_fmap, Forall_forall. intros h Hin%list_elem_of_In. by apply hunk_good, (proj1 (forallb_forall _ _) Hall).
    - apply Forall_concat, Forall_fmap, Forall_forall. intros h Hin%list_elem_of_In. by apply hunk_no_lf, (proj1 (forallb_forall _ _) Hall).
    - by destruct hunks. }
  destruct Hg as (Hg & Hlf & Hl). rewrite good_no_marker by done. change (1 <? 0) with false. cbn iota.
  rewrite (split_join LF lines), normalized_good, split_join by done. apply loop_read; [done|]. fold lines. lia.
Qed.

(** C12: Writing hunks and reading the diff back is the identity.  A diff whose hunks have a
    plain or a numbered header (with or without a context), at least one line that goes or
    comes, lines that are recognised as content -- not elisions such as [...], not patch
    wrappers, not a removed line that begins with two dashes and a space -- and no run of
    line numbers, is read into exactly the hunks that were written: their contexts, line
    numbers, old lines, new lines and end-of-file marks, in order. *)
Theorem hunks_roundtrip hunks : hunks <> [] -> forallb carried_hunk hunks = true ->
  parseDiffHunks (write_diff hunks) = Some (inr (meaning <$> hunks)).
Proof. apply hunks_read_back. Qed.

(** ** Sample diffs *)

Definition sample_hunks : list HunkText :=
  [ mkHunkText (Some (3, 2, 3, 3, Some (js "function f")))%N [Keep (js "  a"); Remove (js "  b"); Insert (js "  c"); Insert []] false;
    mkHunkText None [Insert (js "last")] true ].

Lemma hunks_roundtrip_witness :
  forallb carried_hunk sample_hunks = true /\ parseDiffHunks (write_diff sample_hunks) = Some (inr (meaning <$> sample_hunks)).
Proof.
  assert (H : forallb carried_hunk sample_hunks = true) by (vm_compute; reflexivity).
  split; [exact H|]. apply hunks_roundtrip; [discriminate|exact H].
Defined.

(** A removed line that begins with two dashes and a space is taken for a file header, and
    disappears. *)
Example removed_dashes_lost :
  parseDiffHunks (write_diff [mkHunkText None [Keep (js "a"); Remove (js "-- old note"); Keep (js "b"); Insert (js "c")] false])
  = Some (inr [mkHunk None None None true [js "a"; js "b"] [js "a"; js "b"; js "c"] false]).
Proof. vm_compute. reflexivity. Qed.

(** A context line that is an ellipsis (a Python body) is taken for an elision. *)
Example ellipsis_lost :
  parseDiffHunks (write_diff [mkHunkText None [Keep (js "def f():"); Keep (js "    ..."); Insert (js "x = 1")] false])
  = Some (inr [mkHunk None None None true [js "def f():"] [js "def f():"; js "x = 1"] false]).
Proof. vm_compute. reflexivity. Qed.

(** Lines that begin with numbers lose them. *)
Example numbers_lost :
  parseDiffHunks (write_diff [mkHunkText None [Remove (js "1 apple"); Insert (js "2 apples")] false])
  = Some (inr [mkHunk None None None false [js "apple"] [js "apples"] false]).
Proof. vm_compute. reflexivity. Qed.
