(* ===== verification/PatchIndent.v ===== *)
(** * Indenting the new lines of a hunk (edit/modes/patch.ts)

    The lines a hunk brings are indented like the lines that were found: tabs become
    spaces or spaces tabs when the two sides use different characters consistently, lines
    that are already in the file are taken from it, and the others are shifted. *)

From S2P Require Import Prelude JsText Indentation.

Local Open Scope nat_scope.

Definition isBlankLine (line : jsstring) : bool := negb (isNonEmptyLine line).

Definition areEqualLines (left right : list jsstring) : bool := bool_decide (left = right).

Definition areEqualTrimmedLines (left right : list jsstring) : bool := same_trimmed left right.

Definition getIndentChar (lines : list jsstring) : N := first_indent_char lines.

Definition collectIndentDeltas (oldLines actualLines : list jsstring) : list Z := indent_deltas oldLines actualLines.

Definition applyIndentDelta_lines (lines : list jsstring) (delta : Z) (indentChar : N) : list jsstring :=
  shift_line delta indentChar <$> lines.

Definition canConvertTabsToSpaces (oldLines actualLines : list jsstring) (spacesPerTab : nat) : bool :=
  indents_scaled spacesPerTab oldLines actualLines.

(** ** Which characters indent *)

Definition indents_with (c : N) (lines : list jsstring) : bool :=
  existsb (fun line => isNonEmptyLine line && includes_char c (getLeadingWhitespace line)) lines.

Definition indents_mixed (lines : list jsstring) : bool :=
  existsb (fun line => isNonEmptyLine line && includes_char SPC (getLeadingWhitespace line)
                       && includes_char TAB (getLeadingWhitespace line)) lines.

(** ** Tabs to spaces *)

(** The loop that looks for one ratio; [None] when the lines are inconsistent, and 0 while
    no ratio is known. *)
Fixpoint tab_ratio (patternLines actualLines : list jsstring) (ratio : nat) : option nat :=
  match patternLines, actualLines with
  | patternLine :: patternLines, actualLine :: actualLines =>
      let patternIndent := countLeadingWhitespace patternLine in
      let actualIndent := countLeadingWhitespace actualLine in
      if isBlankLine patternLine || isBlankLine actualLine || (patternIndent =? 0)%nat
      then tab_ratio patternLines actualLines ratio
      else if negb (actualIndent mod patternIndent =? 0)%nat then None
      else
        let nextRatio := actualIndent / patternIndent in
        if (ratio =? 0)%nat then tab_ratio patternLines actualLines nextRatio
        else if negb (ratio =? nextRatio)%nat then None
        else tab_ratio patternLines actualLines ratio
  | _, _ => Some ratio
  end.

Definition tabs_to_spaces (patternLines actualLines newLines : list jsstring) : option (list jsstring) :=
  if negb (indents_mixed patternLines) && negb (indents_mixed actualLines)
     && negb (indents_with SPC patternLines) && negb (indents_with TAB actualLines)
  then
    match tab_ratio patternLines actualLines 0 with
    | Some ratio =>
        if negb (ratio =? 0)%nat && canConvertTabsToSpaces patternLines actualLines ratio
        then Some (split_char LF (convertLeadingTabsToSpaces (join [LF] newLines) ratio)) else None
    | None => None
    end
  else None.

(** ** Spaces to tabs *)

Definition sample_of (samples : list (nat * nat)) (tabs : nat) : option nat :=
  snd <$> List.find (fun s => (s.1 =? tabs)%nat) samples.

(** The spaces seen for each number of tabs, in the order they were first seen. *)
Fixpoint tab_samples (patternLines actualLines : list jsstring) (samples : list (nat * nat)) : option (list (nat * nat)) :=
  match patternLines, actualLines with
  | patternLine :: patternLines, actualLine :: actualLines =>
      let spaces := countLeadingWhitespace patternLine in
      let tabs := countLeadingWhitespace actualLine in
      if isBlankLine patternLine || isBlankLine actualLine || (tabs =? 0)%nat
      then tab_samples patternLines actualLines samples
      else match sample_of samples tabs with
           | Some existing => if negb (existing =? spaces)%nat then None else tab_samples patternLines actualLines samples
           | None => tab_samples patternLines actualLines (samples ++ [(tabs, spaces)])
           end
  | _, _ => Some samples
  end.

(** The width of a tab and the offset: [spaces = tabs * width + offset]. *)
Definition tab_model (samples : list (nat * nat)) : option (Z * Z) :=
  match samples with
  | [] => None
  | [(tabs, spaces)] => if (spaces mod tabs =? 0)%nat then Some (Z.of_nat (spaces / tabs), 0%Z) else None
  | (t1, s1) :: (t2, s2) :: _ =>
      let dt := (Z.of_nat t2 - Z.of_nat t1)%Z in
      let ds := (Z.of_nat s2 - Z.of_nat s1)%Z in
      if (dt =? 0)%Z then None
      else if negb (ds mod dt =? 0)%Z then None
      else
        let w := (ds / dt)%Z in
        let b := (Z.of_nat s1 - Z.of_nat t1 * w)%Z in
        if (0 <? w)%Z && forallb (fun s => (Z.of_nat s.1 * w + b =? Z.of_nat s.2)%Z) samples then Some (w, b) else None
  end.

Definition to_tabs (tabWidth offset : Z) (line : jsstring) : jsstring :=
  if isBlankLine line then line
  else
    let ws := countLeadingWhitespace line in
    if (ws =? 0)%nat then line
    else
      let adjusted := (Z.of_nat ws - offset)%Z in
      let tabCount := (adjusted / tabWidth)%Z in
      let remainder := (adjusted - tabCount * tabWidth)%Z in
      if (0 <=? adjusted)%Z && (adjusted mod tabWidth =? 0)%Z
      then repeat_char TAB (Z.to_nat (adjusted / tabWidth)) ++ drop ws line
      else if (0 <=? tabCount)%Z
      then repeat_char TAB (Z.to_nat tabCount) ++ repeat_char SPC (Z.to_nat remainder) ++ drop ws line
      else line.

Definition spaces_to_tabs (patternLines actualLines newLines : list jsstring) : option (list jsstring) :=
  if negb (indents_mixed patternLines) && negb (indents_mixed actualLines)
     && negb (indents_with TAB patternLines) && negb (indents_with SPC actualLines)
  then
    match tab_samples patternLines actualLines [] with
    | Some samples =>
        match tab_model samples with
        | Some (tabWidth, offset) => if (0 <? tabWidth)%Z then Some (to_tabs tabWidth offset <$> newLines) else None
        | None => None
        end
    | None => None
    end
  else None.

(** ** Lines from the file, and shifted lines *)

(** One new line, with the count of the lines of the file already used for its text. *)
Definition place_line (actualLines : list jsstring) (patternMin : nat) (delta : option Z) (indentChar : N)
    (used : gmap jsstring nat) (newLine : jsstring) : gmap jsstring nat * jsstring :=
  if isBlankLine newLine then (used, newLine)
  else
    let trimmed := trim newLine in
    let matchingActualLines := List.filter (fun line => bool_decide (trim line = trimmed)) actualLines in
    let shifted := match delta with
                   | Some d => if negb (d =? 0)%Z && (countLeadingWhitespace newLine =? patternMin)%nat
                               then default newLine (head (applyIndentDelta_lines [newLine] d indentChar)) else newLine
                   | None => newLine
                   end in
    match matchingActualLines with
    | [] => (used, shifted)
    | [line] => (used, line)
    | _ =>
        if existsb (fun line => bool_decide (line = newLine)) matchingActualLines then (used, newLine)
        else
          let usedCount := default 0 (used !! trimmed) in
          match matchingActualLines !! usedCount with
          | Some line => (<[trimmed := S usedCount]> used, line)
          | None => (used, shifted)
          end
    end.

Fixpoint place_lines (actualLines : list jsstring) (patternMin : nat) (delta : option Z) (indentChar : N)
    (used : gmap jsstring nat) (newLines : list jsstring) : list jsstring :=
  match newLines with
  | [] => []
  | newLine :: rest =>
      let '(used, line) := place_line actualLines patternMin delta indentChar used newLine in
      line :: place_lines actualLines patternMin delta indentChar used rest
  end.

Definition adjustLinesIndentation (patternLines actualLines newLines : list jsstring) : list jsstring :=
  if (length patternLines =? 0)%nat || (length actualLines =? 0)%nat || (length newLines =? 0)%nat then newLines
  else if areEqualLines patternLines actualLines then newLines
  else if areEqualTrimmedLines patternLines newLines then newLines
  else
    match tabs_to_spaces patternLines actualLines newLines with
    | Some converted => converted
    | None =>
        match spaces_to_tabs patternLines actualLines newLines with
        | Some converted => converted
        | None =>
            place_lines actualLines (default 0 (min_indent patternLines)) (uniform (collectIndentDeltas patternLines actualLines))
              (getIndentChar actualLines) ∅ newLines
        end
    end.

(** ** Only indentation changes *)

#[local] Abbreviation same_text := (Forall2 (fun line adjusted : jsstring => trim line = trim adjusted)).

Lemma same_text_refl l : same_text l l.
Proof. by apply Forall2_same_length_lookup_2; [|intros i x y ??; simplify_eq]. Qed.

Lemma to_tabs_trim tabWidth offset line : trim (to_tabs tabWidth offset line) = trim line.
Proof.
  unfold to_tabs. destruct (isBlankLine line); [done|]. destruct (_ =? 0)%nat; [done|].
  assert (Hr : forall n, Forall (fun c => is_ws c = true) (repeat_char TAB n))
    by (intros; apply Forall_forall; by intros c ->%list_elem_of_In%repeat_spec).
  assert (Hs : forall n, Forall (fun c => is_ws c = true) (repeat_char SPC n))
    by (intros; apply Forall_forall; by intros c ->%list_elem_of_In%repeat_spec).
  destruct (_ && _); [rewrite trim_app_ws by done; by apply trim_drop_leading|].
  destruct (0 <=? _)%Z; [|done]. rewrite !trim_app_ws by done. by apply trim_drop_leading.
Qed.

Lemma place_line_trim actualLines patternMin delta indentChar used newLine : is_indent indentChar = true ->
  trim (place_line actualLines patternMin delta indentChar used newLine).2 = trim newLine.
Proof.
  intros Hc. unfold place_line. destruct (isBlankLine newLine); [done|]. cbv zeta.
  set (shifted := match delta with Some d => _ | None => newLine end).
  assert (Hs : trim shifted = trim newLine).
  { unfold shifted. destruct delta as [d|]; [|done]. destruct (_ && _); [|done]. cbn. by apply shift_line_trim. }
  set (matching := List.filter _ actualLines).
  assert (Hm : forall line, line ∈ matching -> trim line = trim newLine).
  { intros line Hin%list_elem_of_In%filter_In. destruct Hin as [_ E]. by apply bool_decide_eq_true in E. }
  destruct matching as [|l [|l' rest]] eqn:E; [done|cbn; apply Hm; by left|].
  destruct (existsb _ _); [done|]. destruct ((l :: l' :: rest) !! _) as [line|] eqn:El; cbn; [|done].
  apply Hm. by eapply list_elem_of_lookup_2.
Qed.

Lemma place_lines_trim actualLines patternMin delta indentChar used newLines : is_indent indentChar = true ->
  same_text newLines (place_lines actualLines patternMin delta indentChar used newLines).
Proof.
  intros Hc. revert used. induction newLines as [|l ls IH]; intros used; [constructor|]. cbn [place_lines].
  pose proof (place_line_trim actualLines patternMin delta indentChar used l Hc) as Hl.
  destruct (place_line _ _ _ _ _ _) as [used' line]. constructor; [by symmetry|apply IH].
Qed.

(** The lines a hunk brings keep their text: each is the line of the hunk up to white
    space at its ends. *)
Lemma lines_keep_text patternLines actualLines newLines : Forall (Forall (fun c => c <> LF)) newLines ->
  same_text newLines (adjustLinesIndentation patternLines actualLines newLines).
Proof.
  intros Hlf. unfold adjustLinesIndentation. pose proof same_text_refl as Hrefl.
  destruct (Nat.eqb_spec (length newLines) 0) as [E|Hne]; [rewrite orb_true_r; done|]. rewrite orb_false_r.
  destruct (_ || _); [done|]. destruct (areEqualLines _ _); [done|]. destruct (areEqualTrimmedLines _ _); [done|].
  destruct (tabs_to_spaces _ _ _) as [converted|] eqn:E1.
  { unfold tabs_to_spaces in E1. destruct (_ && _); [|done]. destruct (tab_ratio _ _ _) as [ratio|]; [|done].
    destruct (_ && _); [|done]. injection E1 as <-.
    rewrite <- (split_join LF newLines) at 1; [|by intros ->|done]. apply same_trimmed_iff, convert_keeps. }
  destruct (spaces_to_tabs _ _ _) as [converted|] eqn:E2.
  { unfold spaces_to_tabs in E2. destruct (_ && _); [|done]. destruct (tab_samples _ _ _) as [samples|]; [|done].
    destruct (tab_model samples) as [[w o]|]; [|done]. destruct (0 <? w)%Z; [|done]. injection E2 as <-.
    clear. induction newLines as [|l ls IH]; [constructor|]. rewrite fmap_cons. constructor; [by rewrite to_tabs_trim|done]. }
  apply place_lines_trim, first_indent_char_indent.
Qed.
