(* ===== verification/PatchVariants.v ===== *)
(** * Smaller forms of a hunk (edit/modes/patch.ts)

    When the lines of a hunk are not found, smaller forms of it are tried: without the
    lines both sides share at the ends, with repeated shared lines or blocks collapsed, or
    reduced to the one line that changes. *)

From S2P Require Import Prelude JsText DiffHunks.

Local Open Scope nat_scope.

Inductive HunkVariantKind := TrimCommon | DedupeShared | CollapseRepeated | SingleLine.

Record HunkVariant := mkVariant {
  hv_oldLines : list jsstring;
  hv_newLines : list jsstring;
  hv_kind : HunkVariantKind
}.

(** How many lines two lists share at the front. *)
Fixpoint common_prefix (l1 l2 : list jsstring) : nat :=
  match l1, l2 with
  | x :: l1, y :: l2 => if bool_decide (x = y) then S (common_prefix l1 l2) else 0
  | _, _ => 0
  end.

Definition trimCommonContext (oldLines newLines : list jsstring) : option HunkVariant :=
  let start := common_prefix oldLines newLines in
  let restOld := drop start oldLines in
  let restNew := drop start newLines in
  let shared_end := common_prefix (rev restOld) (rev restNew) in
  if (start =? 0)%nat && (shared_end =? 0)%nat then None
  else
    let trimmedOld := take (length restOld - shared_end) restOld in
    let trimmedNew := take (length restNew - shared_end) restNew in
    if (length trimmedOld =? 0)%nat && (length trimmedNew =? 0)%nat then None
    else Some (mkVariant trimmedOld trimmedNew TrimCommon).

(** The lines both sides have. *)
Definition is_shared (oldLines newLines : list jsstring) (line : jsstring) : bool :=
  bool_decide (line ∈ oldLines) && bool_decide (line ∈ newLines).

(** Runs of one shared line become one line. *)
Fixpoint collapse_runs (shared : jsstring -> bool) (prev : option jsstring) (lines : list jsstring) : list jsstring :=
  match lines with
  | [] => []
  | line :: rest =>
      if bool_decide (prev = Some line) && shared line then collapse_runs shared prev rest
      else line :: collapse_runs shared (Some line) rest
  end.

(** The variant of two collapsed lists, when one of them became shorter. *)
Definition collapsed_variant (collapse : list jsstring -> list jsstring) (kind : HunkVariantKind)
    (oldLines newLines : list jsstring) : option HunkVariant :=
  let collapsedOld := collapse oldLines in
  let collapsedNew := collapse newLines in
  if (length collapsedOld =? length oldLines)%nat && (length collapsedNew =? length newLines)%nat then None
  else Some (mkVariant collapsedOld collapsedNew kind).

Definition collapseConsecutiveSharedLines (oldLines newLines : list jsstring) : option HunkVariant :=
  collapsed_variant (collapse_runs (is_shared oldLines newLines) None) DedupeShared oldLines newLines.

(** The largest size, from [size] down to 2, at which a block of shared lines is repeated. *)
Fixpoint repeated_block (shared : jsstring -> bool) (lines : list jsstring) (size : nat) : option nat :=
  match size with
  | O => None
  | S smaller =>
      if (size <? 2)%nat then None
      else
        let first := take size lines in
        let second := take size (drop size lines) in
        if (length first =? length second)%nat && negb (length first =? 0)%nat && forallb shared first
           && bool_decide (first = second)
        then Some size else repeated_block shared lines smaller
  end.

(** The loop over the positions, on the lines from the position on. *)
Fixpoint collapse_blocks (fuel : nat) (shared : jsstring -> bool) (lines : list jsstring) : list jsstring :=
  match fuel with
  | O => lines
  | S fuel =>
      match lines with
      | [] => []
      | line :: rest =>
          match repeated_block shared lines (length lines / 2) with
          | Some size => collapse_blocks fuel shared (take size lines ++ drop (size + size) lines)
          | None => line :: collapse_blocks fuel shared rest
          end
      end
  end.

Definition collapseRepeatedBlocks (oldLines newLines : list jsstring) : option HunkVariant :=
  collapsed_variant (fun lines => collapse_blocks (length lines) (is_shared oldLines newLines) lines) CollapseRepeated
    oldLines newLines.

Definition reduceToSingleLineChange (oldLines newLines : list jsstring) : option HunkVariant :=
  if negb (length oldLines =? length newLines)%nat || (length oldLines =? 0)%nat then None
  else
    match List.filter (fun pair => negb (bool_decide (pair.1 = pair.2))) (zip oldLines newLines) with
    | [(oldLine, newLine)] => Some (mkVariant [oldLine] [newLine] SingleLine)
    | _ => None
    end.

Definition variant_key (v : HunkVariant) : jsstring :=
  join [LF] (hv_oldLines v) ++ js "||" ++ join [LF] (hv_newLines v).

(** The filter of the variants: not empty, and not seen before. *)
Fixpoint fresh_variants (seen : list jsstring) (variants : list HunkVariant) : list HunkVariant :=
  match variants with
  | [] => []
  | v :: rest =>
      if (length (hv_oldLines v) =? 0)%nat && (length (hv_newLines v) =? 0)%nat then fresh_variants seen rest
      else if bool_decide (variant_key v ∈ seen) then fresh_variants seen rest
      else v :: fresh_variants (variant_key v :: seen) rest
  end.

Definition from_variant (v : option HunkVariant) (lines : list jsstring * list jsstring) : list jsstring * list jsstring :=
  match v with Some v => (hv_oldLines v, hv_newLines v) | None => lines end.

Definition buildFallbackVariants (hunk : DiffHunk) : list HunkVariant :=
  let base := (dh_oldLines hunk, dh_newLines hunk) in
  let trimmed := trimCommonContext base.1 base.2 in
  let after_trim := from_variant trimmed base in
  let deduped := collapseConsecutiveSharedLines after_trim.1 after_trim.2 in
  let after_dedupe := from_variant deduped after_trim in
  let collapsed := collapseRepeatedBlocks after_dedupe.1 after_dedupe.2 in
  let singleLine := reduceToSingleLineChange after_trim.1 after_trim.2 in
  fresh_variants [] (omap (fun v => v) [trimmed; deduped; collapsed; singleLine]).

Definition is_aggressive (kind : HunkVariantKind) : bool :=
  match kind with CollapseRepeated | SingleLine => true | TrimCommon | DedupeShared => false end.

Definition filterFallbackVariants (variants : list HunkVariant) (allowAggressive : bool) : list HunkVariant :=
  if allowAggressive then variants else List.filter (fun v => negb (is_aggressive (hv_kind v))) variants.

(** ** The loop over blocks ends *)

Lemma repeated_block_size shared lines n size : repeated_block shared lines n = Some size -> 2 <= size <= n.
Proof.
  induction n as [|n IH]; [done|]. cbn [repeated_block]. destruct (Nat.ltb_spec (S n) 2); [done|].
  destruct (_ && _); [intros [= <-]; lia|]. intros Hs%IH. lia.
Qed.

(** More rounds than lines change nothing: every round drops a line or passes one. *)
Lemma collapse_blocks_fuel shared lines fuel : length lines <= fuel ->
  collapse_blocks fuel shared lines = collapse_blocks (length lines) shared lines.
Proof.
  remember (length lines) as n eqn:En. revert lines En fuel. induction (lt_wf n) as [n _ IH]. intros lines -> fuel Hf.
  destruct lines as [|line rest]; [by destruct fuel|]. destruct fuel as [|fuel]; [cbn in Hf; lia|].
  change (length (line :: rest)) with (S (length rest)). cbn [collapse_blocks]. cbn [length] in Hf.
  destruct (repeated_block shared (line :: rest) _) as [size|] eqn:E.
  - apply repeated_block_size in E. pose proof (Nat.div_mod_eq (length (line :: rest)) 2) as Hd.
    set (shorter := take size (line :: rest) ++ drop (size + size) (line :: rest)).
    assert (Hlen : length shorter < length (line :: rest)).
    { unfold shorter. rewrite length_app, length_take, length_drop. lia. }
    cbn [length] in Hlen. rewrite (IH (length shorter)) by (cbn; lia).
    symmetry. apply IH; [cbn; lia|done|lia].
  - f_equal. rewrite (IH (length rest)) by (cbn; lia). done.
Qed.
