(* ===== verification/PatchApply.v ===== *)
(** * Applying hunks to a text (edit/modes/patch.ts)

    Where each hunk goes -- by its context, its line number and its lines -- the
    replacements that follow, and the text they give.  Errors carry no message text;
    a warning keeps its line and its score. *)

From Stdlib Require Import QArith.
From S2P Require Import Prelude JsText TextNormalize Indentation Levenshtein FuzzyMatch DiffHunks PatchIndent PatchVariants.

Local Open Scope nat_scope.

Record Replacement := mkReplacement {
  rp_startIndex : nat;
  rp_oldLen : nat;
  rp_newLines : list jsstring
}.

(** The line and the score of a dominant match. *)
Record PatchWarning := mkWarning { pw_line : nat; pw_confidence : Q }.

Inductive HunkApplyError :=
| LineHintOutOfRange (line : N)
| InsertionHintOutOfRange (line : N)
| ContextAmbiguous (matches : nat)
| ContextNotFound
| TextAmbiguous (matches : nat)
| LinesNotFound
| TwoOccurrences (first second : nat)
| OverlappingHunks (first second : nat)
| OccurrencesFound (count : nat)
| FuzzyMatchesFound (count : nat)
| NoCloseMatch (closest : option nat).

(** ** Places *)

(** More than one match was counted. *)
Definition many (r : SequenceSearchResult) : bool := (1 <? default 0 (sr_matchCount r))%nat.

Definition found (r : SequenceSearchResult) : bool := match sr_index r with Some _ => true | None => false end.

(** [{ ...r, matchCount: 1, matchIndices: [r.index] }] *)
Definition settled (r : SequenceSearchResult) : SequenceSearchResult :=
  mkSearch (sr_index r) (sr_confidence r) (Some 1)
    (match sr_index r with Some i => Some [i] | None => sr_matchIndices r end) (sr_strategy r).

(** The result without its place. *)
Definition unplaced (r : SequenceSearchResult) : SequenceSearchResult :=
  mkSearch None (sr_confidence r) (sr_matchCount r) (sr_matchIndices r) (sr_strategy r).

Definition findContextRelativeMatch (lines : list jsstring) (patternLine : jsstring) (contextIndex : nat)
    (preferSecondForwardMatch : bool) : option nat :=
  let same i := bool_decide (trim (line_at lines i) = trim patternLine) in
  let forwardMatches := List.filter same (seq (S contextIndex) (length lines - S contextIndex)) in
  match forwardMatches with
  | first :: second :: _ => Some (if preferSecondForwardMatch then second else first)
  | [first] => Some first
  | [] => last (List.filter same (seq 0 contextIndex))
  end.

Definition AMBIGUITY_HINT_WINDOW : nat := 200.

Definition chooseHintedMatch (matchIndices : option (list nat)) (hintIndex : option nat) (window : nat) : option nat :=
  match matchIndices, hintIndex with
  | Some indices, Some hint =>
      match List.filter (fun i => (i - hint <=? window)%nat && (hint - i <=? window)%nat) indices with
      | [i] => Some i
      | _ => None
      end
  | _, _ => None
  end.

Definition getHunkHintIndex (hunk : DiffHunk) (currentIndex : nat) : option nat :=
  match dh_oldStartLine hunk with
  | None => None
  | Some n => let hintIndex := N.to_nat n - 1 in if (currentIndex <=? hintIndex)%nat then Some hintIndex else None
  end.

Section search.
Context `{FuzzyEnv}.

(** The result from the line hint on, when there is one. *)
Definition from_hint (lines : list jsstring) (context : jsstring) (lineHint : option N) (atLeast : nat) (allowFuzzy : bool) :
    option SequenceSearchResult :=
  match lineHint with
  | None => None
  | Some n =>
      let hintStart := N.to_nat n - 1 in
      if (atLeast <=? hintStart)%nat then
        let hintedResult := findContextLine lines context hintStart allowFuzzy in
        if found hintedResult then Some (settled hintedResult) else None
      else None
  end.

(** The loop over contexts on lines of their own. *)
Fixpoint nested_context (lines parts : list jsstring) (currentStart : nat) (lineHint : option N) (allowFuzzy : bool) :
    SequenceSearchResult :=
  match parts with
  | [] => not_found 0
  | part :: rest =>
      let isLast := match rest with [] => true | _ => false end in
      let result := findContextLine lines part currentStart allowFuzzy in
      let hinted := if isLast then from_hint lines part lineHint currentStart allowFuzzy else None in
      if many result then default (unplaced result) hinted
      else match sr_index result with
           | None => default (not_found (sr_confidence result)) hinted
           | Some i => if isLast then result else nested_context lines rest (S i) lineHint allowFuzzy
           end
  end.

(** The context inside another one; [None] when it says nothing. *)
Definition inner_context (lines : list jsstring) (inner : jsstring) (outerIndex : nat) (allowFuzzy : bool) :
    option SequenceSearchResult :=
  let innerResult := findContextLine lines inner (S outerIndex) allowFuzzy in
  if found innerResult then Some (if many innerResult then settled innerResult else innerResult)
  else if many innerResult then Some (settled innerResult) else None.

Definition is_signature_char (c : N) : bool := existsb (fun d => (d =? c)%N) (js "(){}[]").

Definition findHierarchicalContext (lines : list jsstring) (context : jsstring) (startFrom : nat) (lineHint : option N)
    (allowFuzzy : bool) : SequenceSearchResult :=
  if includes_char LF context then
    nested_context lines (List.filter (fun p => (0 <? length p)%nat) (trim <$> split_char LF context)) startFrom lineHint allowFuzzy
  else
    let spaceParts := List.filter (fun p => (0 <? length p)%nat) (split_spaces false context) in
    let hasSignatureChars := existsb is_signature_char context in
    let outer := join (js " ") (removelast spaceParts) in
    let inner := default [] (last spaceParts) in
    let outerResult := findContextLine lines outer startFrom allowFuzzy in
    let literal :=
      if negb hasSignatureChars && (2 <? length spaceParts)%nat then
        if many outerResult then Some (unplaced outerResult)
        else match sr_index outerResult with Some i => inner_context lines inner i allowFuzzy | None => None end
      else None in
    match literal with
    | Some r => r
    | None =>
        let result := findContextLine lines context startFrom allowFuzzy in
        let hinted := if negb (found result) || many result then from_hint lines context lineHint 0 allowFuzzy else None in
        match hinted with
        | Some r => r
        | None =>
            if found result && negb (many result) then result
            else if many result then result
            else
              let fromStartResult := findContextLine lines context 0 allowFuzzy in
              if negb (found result) && negb (startFrom =? 0)%nat && found fromStartResult && negb (many fromStartResult)
              then fromStartResult
              else if negb (found result) && negb (startFrom =? 0)%nat && many fromStartResult then fromStartResult
              else if negb hasSignatureChars && (1 <? length spaceParts)%nat then
                if many outerResult then unplaced outerResult
                else match sr_index outerResult with
                     | None => not_found (sr_confidence outerResult)
                     | Some i => default result (inner_context lines inner i allowFuzzy)
                     end
              else result
        end
    end.

Definition findSequenceWithHint (lines pattern : list jsstring) (currentIndex : nat) (hintIndex : option nat) (eof allowFuzzy : bool) :
    SequenceSearchResult :=
  let primaryResult := seekSequence lines pattern currentIndex eof allowFuzzy in
  let hinted := match hintIndex with
                | Some hint => if negb (hint =? currentIndex)%nat then Some (seekSequence lines pattern hint eof allowFuzzy) else None
                | None => None
                end in
  let biased := match hinted with
                | Some hintedResult =>
                    if many primaryResult
                       && ((found hintedResult && (default 1 (sr_matchCount hintedResult) <=? 1)%nat) || many hintedResult)
                    then Some hintedResult else None
                | None => None
                end in
  match biased with
  | Some r => r
  | None =>
      if found primaryResult || many primaryResult then primaryResult
      else
        match match hinted with Some r => if found r || many r then Some r else None | None => None end with
        | Some r => r
        | None =>
            let fromStartResult := seekSequence lines pattern 0 eof allowFuzzy in
            if negb (currentIndex =? 0)%nat && (found fromStartResult || many fromStartResult) then fromStartResult
            else primaryResult
        end
  end.

(** The first variant that is found once. *)
Fixpoint try_variants (lines : list jsstring) (variants : list HunkVariant) (lineIndex : nat) (hint : option nat)
    (eof allowFuzzy : bool) : option (HunkVariant * SequenceSearchResult) :=
  match variants with
  | [] => None
  | v :: rest =>
      let r := findSequenceWithHint lines (hv_oldLines v) lineIndex hint eof allowFuzzy in
      if negb (length (hv_oldLines v) =? 0)%nat && found r && (default 1 (sr_matchCount r) <=? 1)%nat then Some (v, r)
      else try_variants lines rest lineIndex hint eof allowFuzzy
  end.

Definition attemptSequenceFallback (lines : list jsstring) (hunk : DiffHunk) (currentIndex : nat) (lineHint : option N)
    (allowFuzzy allowAggressiveFallbacks : bool) : option nat :=
  if (length (dh_oldLines hunk) =? 0)%nat then None
  else
    let matchHint := match getHunkHintIndex hunk currentIndex with Some h => Some h | None => N.to_nat <$> lineHint end in
    let fallbackResult := findSequenceWithHint lines (dh_oldLines hunk) currentIndex matchHint false allowFuzzy in
    let by_variant := r ← try_variants lines (filterFallbackVariants (buildFallbackVariants hunk) allowAggressiveFallbacks)
                            currentIndex matchHint false allowFuzzy;
                      sr_index r.2 in
    match sr_index fallbackResult with
    | Some i =>
        if (default 1 (sr_matchCount fallbackResult) <=? 1)%nat then
          if (S i + length (dh_oldLines hunk) <=? length lines)%nat
             && found (seekSequence lines (dh_oldLines hunk) (S i) false allowFuzzy)
          then None else Some i
        else by_variant
    | None => by_variant
    end.

(** ** One hunk *)

(** What the loop over the hunks keeps. *)
Record PatchState := mkPatchState {
  ps_lineIndex : nat;
  ps_replacements : list Replacement;
  ps_warnings : list PatchWarning
}.

Definition lines_of_context (context : jsstring) : list jsstring := split_char LF context.

(** Where the context of a hunk puts the search: the line it was found at, and the next
    line index. *)
Definition place_context (lines : list jsstring) (hunk : DiffHunk) (context : jsstring) (lineIndex : nat)
    (allowFuzzy allowAggressiveFallbacks : bool) : HunkApplyError + (option nat * nat) :=
  let result := findHierarchicalContext lines context lineIndex (dh_oldStartLine hunk) allowFuzzy in
  match sr_index result, many result with
  | Some idx, false =>
      let finalContext := trim (default [] (last (lines_of_context context))) in
      let isHierarchicalContext := includes_char LF context || (2 <? length (split_spaces false (trim context)))%nat in
      let at_context := match dh_oldLines hunk with
                        | firstOldLine :: _ => bool_decide (trim firstOldLine = finalContext) || isHierarchicalContext
                        | [] => false
                        end in
      inr (Some idx, if at_context then idx else S idx)
  | idx, ambiguous =>
      match attemptSequenceFallback lines hunk lineIndex (dh_oldStartLine hunk) allowFuzzy allowAggressiveFallbacks with
      | Some i => inr (idx, i)
      | None => inl (if ambiguous then ContextAmbiguous (default 0 (sr_matchCount result)) else ContextNotFound)
      end
  end.

(** Where a pure addition goes. *)
Definition insertion_place (lines : list jsstring) (hunk : DiffHunk) (lineIndex : nat) : HunkApplyError + nat :=
  match dh_changeContext hunk with
  | Some _ => inr lineIndex
  | None =>
      match match dh_oldStartLine hunk with Some n => Some n | None => dh_newStartLine hunk end with
      | Some n =>
          if (n <? 1)%N then inl (InsertionHintOutOfRange n)
          else if (N.of_nat (length lines) + 1 <? n)%N then inl (InsertionHintOutOfRange n)
          else inr (N.to_nat n - 1)
      | None => inr (if bool_decide (last lines = Some []) then length lines - 1 else length lines)
      end
  end.

(** The place of the old lines, with the form of the hunk that was found. *)
Record HunkPlace := mkPlace {
  hp_pattern : list jsstring;
  hp_newSlice : list jsstring;
  hp_result : SequenceSearchResult
}.

(** The old lines as they are, then without a trailing empty line. *)
Definition place_lines_first (lines : list jsstring) (hunk : DiffHunk) (lineIndex : nat) (matchHint : option nat) (allowFuzzy : bool) :
    HunkPlace :=
  let search pattern := findSequenceWithHint lines pattern lineIndex matchHint (dh_isEndOfFile hunk) allowFuzzy in
  let place := mkPlace (dh_oldLines hunk) (dh_newLines hunk) (search (dh_oldLines hunk)) in
  if negb (found (hp_result place)) && bool_decide (last (dh_oldLines hunk) = Some []) then
    let pattern := removelast (dh_oldLines hunk) in
    mkPlace pattern (if bool_decide (last (dh_newLines hunk) = Some []) then removelast (dh_newLines hunk) else dh_newLines hunk)
      (search pattern)
  else place.

(** A variant that is found once replaces a search that failed or was ambiguous. *)
Definition place_variant (lines : list jsstring) (hunk : DiffHunk) (variants : list HunkVariant) (lineIndex : nat)
    (matchHint : option nat) (allowFuzzy : bool) (place : HunkPlace) : HunkPlace :=
  if negb (found (hp_result place)) || many (hp_result place) then
    match try_variants lines variants lineIndex matchHint (dh_isEndOfFile hunk) allowFuzzy with
    | Some (v, r) => mkPlace (hv_oldLines v) (hv_newLines v) r
    | None => place
    end
  else place.

(** The first one-line variant near the context. *)
Fixpoint near_context (lines : list jsstring) (hunk : DiffHunk) (variants : list HunkVariant) (contextIndex : nat) :
    option HunkPlace :=
  match variants with
  | [] => None
  | v :: rest =>
      match hv_oldLines v, hv_newLines v with
      | [removedLine], [_] =>
          let hasSharedDuplicate := existsb (fun line => bool_decide (trim line = trim removedLine)) (dh_newLines hunk) in
          match findContextRelativeMatch lines removedLine contextIndex hasSharedDuplicate with
          | Some i => Some (mkPlace (hv_oldLines v) (hv_newLines v) (mkSearch (Some i) (95 # 100) None None None))
          | None => near_context lines hunk rest contextIndex
          end
      | _, _ => near_context lines hunk rest contextIndex
      end
  end.

Definition place_near (lines : list jsstring) (hunk : DiffHunk) (variants : list HunkVariant) (contextIndex : option nat)
    (place : HunkPlace) : HunkPlace :=
  match contextIndex with
  | Some c => if negb (found (hp_result place)) then default place (near_context lines hunk variants c) else place
  | None => place
  end.

(** A single line that occurs more than once is taken relative to the context. *)
Definition place_single (lines : list jsstring) (hunk : DiffHunk) (contextIndex : option nat) (place : HunkPlace) : HunkPlace :=
  match contextIndex, hp_pattern place with
  | Some c, [line] =>
      let same l := bool_decide (trim l = trim line) in
      if found (hp_result place) && (1 <? length (List.filter same lines))%nat then
        match findContextRelativeMatch lines line c (existsb same (dh_newLines hunk)) with
        | Some i => mkPlace (hp_pattern place) (hp_newSlice place)
                      (mkSearch (Some i) (sr_confidence (hp_result place)) None None None)
        | None => place
        end
      else place
  | _, _ => place
  end.

(** An ambiguous match is settled by the line number. *)
Definition place_hinted (hunk : DiffHunk) (matchHint : option nat) (place : HunkPlace) : HunkPlace :=
  let r := hp_result place in
  if many r then
    let hintIndex := match matchHint with Some h => Some h | None => (fun n => N.to_nat n - 1) <$> dh_oldStartLine hunk end in
    match chooseHintedMatch (sr_matchIndices r) hintIndex AMBIGUITY_HINT_WINDOW with
    | Some i => mkPlace (hp_pattern place) (hp_newSlice place)
                  (mkSearch (Some i) (sr_confidence r) (Some 1) (sr_matchIndices r) (sr_strategy r))
    | None => place
    end
  else place.

Definition place_hunk (lines : list jsstring) (hunk : DiffHunk) (variants : list HunkVariant) (contextIndex : option nat)
    (lineIndex : nat) (allowFuzzy : bool) : HunkPlace :=
  let matchHint := getHunkHintIndex hunk lineIndex in
  place_hinted hunk matchHint
    (place_single lines hunk contextIndex
       (place_near lines hunk variants contextIndex
          (place_variant lines hunk variants lineIndex matchHint allowFuzzy
             (place_lines_first lines hunk lineIndex matchHint allowFuzzy)))).

(** The replacement of a place that was found. *)
Definition commit_place (lines : list jsstring) (hunk : DiffHunk) (allowFuzzy : bool) (st : PatchState) (place : HunkPlace) :
    HunkApplyError + PatchState :=
  let r := hp_result place in
  let pattern := hp_pattern place in
  match sr_index r with
  | None => inl (if many r then TextAmbiguous (default 0 (sr_matchCount r)) else LinesNotFound)
  | Some i =>
      let warnings := if bool_decide (sr_strategy r = Some SFuzzyDominant)
                      then ps_warnings st ++ [mkWarning (S i) (sr_confidence r)] else ps_warnings st in
      if many r then inl (TextAmbiguous (default 0 (sr_matchCount r)))
      else
        let simple := negb (bool_decide (is_Some (dh_changeContext hunk))) && negb (dh_hasContextLines hunk)
                      && negb (dh_isEndOfFile hunk) && negb (bool_decide (is_Some (dh_oldStartLine hunk))) in
        let second := seekSequence lines pattern (S i) false allowFuzzy in
        match (if simple then sr_index second else None) with
        | Some j => inl (TwoOccurrences i j)
        | None =>
            let next := i + length pattern in
            if bool_decide (pattern = hp_newSlice place) then inr (mkPatchState next (ps_replacements st) warnings)
            else
              let actualMatchedLines := take (length pattern) (drop i lines) in
              let adjustedNewLines := adjustLinesIndentation pattern actualMatchedLines (hp_newSlice place) in
              inr (mkPatchState next (ps_replacements st ++ [mkReplacement i (length pattern) adjustedNewLines]) warnings)
        end
  end.

Definition below_one (n : option N) : bool := match n with Some n => (n <? 1)%N | None => false end.

Definition hunk_variants (hunk : DiffHunk) : list HunkVariant :=
  let allowAggressiveFallbacks := bool_decide (is_Some (dh_changeContext hunk)) || bool_decide (is_Some (dh_oldStartLine hunk))
                                  || dh_isEndOfFile hunk in
  filterFallbackVariants (buildFallbackVariants hunk) allowAggressiveFallbacks.

Definition hunk_step (lines : list jsstring) (allowFuzzy : bool) (st : PatchState) (hunk : DiffHunk) : HunkApplyError + PatchState :=
  if below_one (dh_oldStartLine hunk) then inl (LineHintOutOfRange (default 0%N (dh_oldStartLine hunk)))
  else if below_one (dh_newStartLine hunk) then inl (LineHintOutOfRange (default 0%N (dh_newStartLine hunk)))
  else
    let lineHint := dh_oldStartLine hunk in
    let allowAggressiveFallbacks := bool_decide (is_Some (dh_changeContext hunk)) || bool_decide (is_Some lineHint)
                                    || dh_isEndOfFile hunk in
    let lineIndex := match lineHint with
                     | Some n => if negb (bool_decide (is_Some (dh_changeContext hunk))) && negb (dh_hasContextLines hunk)
                                 then Nat.min (N.to_nat n - 1) (length lines - 1) else ps_lineIndex st
                     | None => ps_lineIndex st
                     end in
    let placed := match dh_changeContext hunk with
                  | Some context => place_context lines hunk context lineIndex allowFuzzy allowAggressiveFallbacks
                  | None => inr (None, lineIndex)
                  end in
    match placed with
    | inl e => inl e
    | inr (contextIndex, lineIndex) =>
        if (length (dh_oldLines hunk) =? 0)%nat then
          match insertion_place lines hunk lineIndex with
          | inl e => inl e
          | inr i => inr (mkPatchState lineIndex (ps_replacements st ++ [mkReplacement i 0 (dh_newLines hunk)]) (ps_warnings st))
          end
        else commit_place lines hunk allowFuzzy st
               (place_hunk lines hunk (hunk_variants hunk) contextIndex lineIndex allowFuzzy)
    end.

Fixpoint hunk_steps (lines : list jsstring) (allowFuzzy : bool) (st : PatchState) (hunks : list DiffHunk) : HunkApplyError + PatchState :=
  match hunks with
  | [] => inr st
  | hunk :: rest =>
      match hunk_step lines allowFuzzy st hunk with
      | inl e => inl e
      | inr st => hunk_steps lines allowFuzzy st rest
      end
  end.

(** ** All replacements *)

(** The first pair of neighbours that overlap. *)
Fixpoint overlap (rs : list Replacement) : option (nat * nat) :=
  match rs with
  | prev :: ((next :: _) as rest) =>
      if (rp_startIndex next <? rp_startIndex prev + rp_oldLen prev)%nat then Some (rp_startIndex prev, rp_startIndex next)
      else overlap rest
  | _ => None
  end.

Definition replacement_leb (a b : Replacement) : bool := (rp_startIndex a <=? rp_startIndex b)%nat.

Definition computeReplacements (originalLines : list jsstring) (hunks : list DiffHunk) (allowFuzzy : bool) :
    HunkApplyError + (list Replacement * list PatchWarning) :=
  match hunk_steps originalLines allowFuzzy (mkPatchState 0 [] []) hunks with
  | inl e => inl e
  | inr st =>
      let replacements := sort_by replacement_leb (ps_replacements st) in
      match overlap replacements with
      | Some (a, b) => inl (OverlappingHunks a b)
      | None => inr (replacements, ps_warnings st)
      end
  end.

(** The two splices of one replacement. *)
Definition apply_one (r : Replacement) (lines : list jsstring) : list jsstring :=
  let removed := splice lines (Z.of_nat (rp_startIndex r)) (rp_oldLen r) [] in
  splice removed (Z.of_nat (rp_startIndex r)) 0 (rp_newLines r).

(** From the last replacement to the first. *)
Definition applyReplacements (lines : list jsstring) (replacements : list Replacement) : list jsstring :=
  fold_right apply_one lines replacements.

(** [content.replace(/\n+$/u, "")] *)
Definition strip_final_newlines (content : jsstring) : jsstring := rev (span (fun c => (c =? LF)%N) (rev content)).2.

Definition ends_in_newline (content : jsstring) : bool := bool_decide (last content = Some LF).

Definition applyTrailingNewlinePolicy (content : jsstring) (hadFinalNewline : bool) : jsstring :=
  if hadFinalNewline then if ends_in_newline content then content else content ++ [LF]
  else strip_final_newlines content.

Definition applyCharacterMatch (originalContent : jsstring) (hunk : DiffHunk) (fuzzyThreshold : Q) (allowFuzzy : bool) :
    HunkApplyError + (jsstring * list PatchWarning) :=
  let oldText := join [LF] (dh_oldLines hunk) in
  let newText := join [LF] (dh_newLines hunk) in
  let normalizedContent := normalizeToLF originalContent in
  let normalizedOldText := normalizeToLF oldText in
  let strict := findMatch normalizedContent normalizedOldText allowFuzzy fuzzyThreshold in
  let matchOutcome :=
    if negb (bool_decide (is_Some (mo_match strict))) && allowFuzzy && Qlt_bool (92 # 100) fuzzyThreshold then
      let relaxedOutcome := findMatch normalizedContent normalizedOldText allowFuzzy (92 # 100) in
      if bool_decide (is_Some (mo_match relaxedOutcome)) then relaxedOutcome else strict
    else strict in
  if (1 <? default 0 (mo_occurrences matchOutcome))%nat then inl (OccurrencesFound (default 0 (mo_occurrences matchOutcome)))
  else if (1 <? default 0 (mo_fuzzyMatches matchOutcome))%nat then inl (FuzzyMatchesFound (default 0 (mo_fuzzyMatches matchOutcome)))
  else
    match mo_match matchOutcome with
    | None => inl (NoCloseMatch (fm_startLine <$> mo_closest matchOutcome))
    | Some m =>
        let adjustedNewText := adjustIndentation normalizedOldText (fm_actualText m) newText in
        let warnings := if mo_dominantFuzzy matchOutcome then [mkWarning (fm_startLine m) (fm_confidence m)] else [] in
        let before := take (fm_startIndex m) normalizedContent in
        let after := drop (fm_startIndex m + length (fm_actualText m)) normalizedContent in
        inr (before ++ adjustedNewText ++ after, warnings)
    end.

(** One hunk with old lines and nothing to place it by. *)
Definition is_simple_replace (hunk : DiffHunk) : bool :=
  negb (bool_decide (is_Some (dh_changeContext hunk))) && negb (dh_hasContextLines hunk)
  && (0 <? length (dh_oldLines hunk))%nat && negb (bool_decide (is_Some (dh_oldStartLine hunk))) && negb (dh_isEndOfFile hunk).

(** The hunks by their lines. *)
Definition apply_by_lines (originalContent : jsstring) (hunks : list DiffHunk) (allowFuzzy : bool) :
    HunkApplyError + (jsstring * list PatchWarning) :=
  let hadFinalNewline := ends_in_newline originalContent in
  let all := split_char LF originalContent in
  let strippedTrailingEmpty := hadFinalNewline && bool_decide (last all = Some []) in
  let originalLines := if strippedTrailingEmpty then removelast all else all in
  match computeReplacements originalLines hunks allowFuzzy with
  | inl e => inl e
  | inr (replacements, warnings) =>
      let newLines := applyReplacements originalLines replacements in
      let newLines := if strippedTrailingEmpty then newLines ++ [[]] else newLines in
      inr (applyTrailingNewlinePolicy (join [LF] newLines) hadFinalNewline, warnings)
  end.

Definition applyHunksToContent (originalContent : jsstring) (hunks : list DiffHunk) (fuzzyThreshold : Q) (allowFuzzy : bool) :
    HunkApplyError + (jsstring * list PatchWarning) :=
  match hunks with
  | [hunk] =>
      if is_simple_replace hunk then
        match applyCharacterMatch originalContent hunk fuzzyThreshold allowFuzzy with
        | inl e => inl e
        | inr (content, warnings) => inr (applyTrailingNewlinePolicy content (ends_in_newline originalContent), warnings)
        end
      else apply_by_lines originalContent hunks allowFuzzy
  | _ => apply_by_lines originalContent hunks allowFuzzy
  end.
End search.
