(* ===== verification/PatchFacts.v ===== *)
(** * What applying hunks promises

    Every replacement a patch computes lies inside the file and carries the lines of one of
    its hunks; the replacements do not overlap; and the new text is the old one with just
    these ranges replaced. *)

From Stdlib Require Import QArith.
From S2P Require Import Prelude JsText TextNormalize Indentation Levenshtein FuzzyMatch FuzzyFacts DiffHunks PatchIndent PatchVariants PatchApply.

Local Open Scope nat_scope.

(** ** Variants use the lines of the hunk *)

Lemma take_sub {A} n (l : list A) : take n l ⊆ l.
Proof. intros x Hx. rewrite <- (take_drop n l). apply elem_of_app. by left. Qed.

Lemma drop_sub {A} n (l : list A) : drop n l ⊆ l.
Proof. intros x Hx. rewrite <- (take_drop n l). apply elem_of_app. by right. Qed.

Lemma collapse_runs_sub shared prev lines : collapse_runs shared prev lines ⊆ lines.
Proof.
  revert prev. induction lines as [|l lines IH]; intros prev; [done|]. cbn [collapse_runs]. intros x.
  destruct (_ && _); [intros Hx; right; by eapply IH|]. intros [->|Hx]%elem_of_cons; [by left|right; by eapply IH].
Qed.

Lemma collapse_blocks_sub fuel shared lines : collapse_blocks fuel shared lines ⊆ lines.
Proof.
  revert lines. induction fuel as [|fuel IH]; intros lines; [done|]. cbn [collapse_blocks].
  destruct lines as [|l rest]; [done|]. destruct (repeated_block _ _ _) as [size|].
  - intros x [Hx|Hx]%IH%elem_of_app; [by apply take_sub in Hx|by apply drop_sub in Hx].
  - intros x [->|Hx]%elem_of_cons; [by left|right; by apply IH].
Qed.

(** The lines of a variant, side by side. *)
Definition variant_sub (v : HunkVariant) (oldLines newLines : list jsstring) : Prop :=
  hv_oldLines v ⊆ oldLines /\ hv_newLines v ⊆ newLines.

Lemma trimmed_sub oldLines newLines v : trimCommonContext oldLines newLines = Some v -> variant_sub v oldLines newLines.
Proof.
  unfold trimCommonContext. destruct (_ && _); [done|]. destruct (_ && _); [done|]. intros [= <-].
  split; cbn; intros x Hx; by eapply drop_sub, take_sub.
Qed.

Lemma collapsed_sub collapse kind oldLines newLines v : (forall l, collapse l ⊆ l) ->
  collapsed_variant collapse kind oldLines newLines = Some v -> variant_sub v oldLines newLines.
Proof. intros Hc. unfold collapsed_variant. destruct (_ && _); [done|]. intros [= <-]. split; apply Hc. Qed.

Lemma single_sub oldLines newLines v : reduceToSingleLineChange oldLines newLines = Some v -> variant_sub v oldLines newLines.
Proof.
  unfold reduceToSingleLineChange. destruct (_ || _); [done|].
  destruct (List.filter _ (zip oldLines newLines)) as [|[o n] [|]] eqn:E; [done| |done]. intros [= <-].
  assert ((o, n) ∈ List.filter (fun pair => negb (bool_decide (pair.1 = pair.2))) (zip oldLines newLines)) as Hin by (rewrite E; by left).
  apply list_elem_of_In, filter_In in Hin as [Hin _]. apply list_elem_of_In in Hin.
  split; cbn; intros x ->%list_elem_of_singleton; [by eapply elem_of_zip_l|by eapply elem_of_zip_r].
Qed.

Lemma from_variant_sub v lines oldLines newLines :
  lines.1 ⊆ oldLines -> lines.2 ⊆ newLines -> (forall w, v = Some w -> variant_sub w lines.1 lines.2) ->
  (from_variant v lines).1 ⊆ oldLines /\ (from_variant v lines).2 ⊆ newLines.
Proof.
  intros Ho Hn Hv. destruct v as [w|]; [|done]. destruct (Hv w eq_refl) as [H1 H2]. cbn. split; by etransitivity.
Qed.

Lemma fresh_sub seen variants : fresh_variants seen variants ⊆ variants.
Proof.
  revert seen. induction variants as [|v rest IH]; intros seen; [done|]. cbn [fresh_variants]. intros x.
  destruct (_ && _); [intros Hx; right; by eapply IH|]. destruct (bool_decide _); [intros Hx; right; by eapply IH|].
  intros [->|Hx]%elem_of_cons; [by left|right; by eapply IH].
Qed.

Lemma variants_sub hunk v : v ∈ buildFallbackVariants hunk -> variant_sub v (dh_oldLines hunk) (dh_newLines hunk).
Proof.
  unfold buildFallbackVariants. cbv zeta. intros Hv%fresh_sub. cbn [fst snd] in Hv.
  set (base := (dh_oldLines hunk, dh_newLines hunk)). set (trimmed := trimCommonContext _ _) in Hv.
  assert (Ht : forall w, trimmed = Some w -> variant_sub w base.1 base.2) by (intros w; apply trimmed_sub).
  destruct (from_variant_sub trimmed base base.1 base.2) as [Ho1 Hn1]; [done|done|done|].
  change (dh_oldLines hunk, dh_newLines hunk) with base in Hv. set (after1 := from_variant trimmed base) in *.
  set (deduped := collapseConsecutiveSharedLines after1.1 after1.2) in Hv.
  assert (Hd : forall w, deduped = Some w -> variant_sub w after1.1 after1.2)
    by (intros w; apply collapsed_sub; intros; apply collapse_runs_sub).
  destruct (from_variant_sub deduped after1 base.1 base.2) as [Ho2 Hn2]; [done|done|done|].
  set (after2 := from_variant deduped after1) in *.
  assert (Htrans : forall w o n, variant_sub w o n -> o ⊆ base.1 -> n ⊆ base.2 -> variant_sub w base.1 base.2)
    by (intros w o n [? ?] ??; split; by etransitivity).
  change (variant_sub v base.1 base.2).
  apply list_elem_of_omap in Hv as (ov & Hin & Hov). cbn in Hov. subst ov.
  repeat (apply elem_of_cons in Hin as [Hin|Hin]).
  - by apply Ht.
  - eapply Htrans; [by apply Hd|done|done].
  - eapply Htrans; [|exact Ho2|exact Hn2]. eapply collapsed_sub; [|by symmetry]. intros; apply collapse_blocks_sub.
  - eapply Htrans; [|exact Ho1|exact Hn1]. by apply single_sub.
  - by apply not_elem_of_nil in Hin.
Qed.

(** ** The forms of a hunk *)

(** The old and new lines a hunk can be applied with: its own, its own without a trailing
    empty line, or those of a variant. *)
Definition hunk_form (hunk : DiffHunk) (old new : list jsstring) : Prop :=
  (old = dh_oldLines hunk /\ new = dh_newLines hunk)
  \/ (dh_oldLines hunk = old ++ [[]] /\ (new = dh_newLines hunk \/ dh_newLines hunk = new ++ [[]]))
  \/ (exists v, v ∈ hunk_variants hunk /\ old = hv_oldLines v /\ new = hv_newLines v).

Lemma form_sub hunk old new : hunk_form hunk old new -> old ⊆ dh_oldLines hunk /\ new ⊆ dh_newLines hunk.
Proof.
  intros [[-> ->]|[[Ho Hn]|(v & Hv & -> & ->)]]; [done| |].
  - split; [rewrite Ho; intros x Hx; apply elem_of_app; by left|].
    destruct Hn as [-> | ->]; [done|]. intros x Hx. apply elem_of_app. by left.
  - apply variants_sub. unfold hunk_variants, filterFallbackVariants in Hv. destruct (_ || _); [done|].
    apply list_elem_of_In, filter_In in Hv as [Hv _]. by apply list_elem_of_In.
Qed.

Lemma Forall_sub {A} (P : A -> Prop) l l' : l ⊆ l' -> Forall P l' -> Forall P l.
Proof. intros Hs H. apply Forall_forall. intros x Hx. apply (proj1 (Forall_forall _ _) H). by apply Hs. Qed.

Section places.
Context `{FuzzyEnv}.

(** ** Contexts lie in the file *)

Definition in_file (lines : list jsstring) (r : SequenceSearchResult) : Prop :=
  forall i, sr_index r = Some i -> i < length lines.

Lemma not_found_in lines score : in_file lines (not_found score).
Proof. by intros i. Qed.

Lemma settled_in lines r : in_file lines r -> in_file lines (settled r).
Proof. done. Qed.

Lemma unplaced_in lines r : in_file lines (unplaced r).
Proof. by intros i. Qed.

Lemma indices_in (lines : list jsstring) start i : i ∈ seq start (length lines - start) -> i < length lines.
Proof. intros Hi%list_elem_of_In%in_seq. lia. Qed.

Lemma ambiguous_in lines start p score strategy r :
  toAmbiguousMatchResult (collectIndexedMatches (seq start (length lines - start)) p) score strategy = Some r -> in_file lines r.
Proof.
  unfold toAmbiguousMatchResult. destruct (im_firstMatch _) as [j|] eqn:E; [|done]. intros [= <-] i [= <-].
  apply first_match_spec in E as [Hj _]. by eapply indices_in.
Qed.

Lemma filter_indices_in (lines : list jsstring) start p l i : l = List.filter p (seq start (length lines - start)) -> i ∈ l -> i < length lines.
Proof. intros -> [Hi _]%list_elem_of_In%filter_In. apply (indices_in lines start). by apply list_elem_of_In. Qed.

Lemma substring_in lines norm start r : substring_pass lines norm start = Some r -> in_file lines r.
Proof.
  unfold substring_pass. destruct (_ <? _); [done|]. cbv zeta. set (all := List.filter _ (seq start _)).
  assert (Ha : forall i, i ∈ all -> i < length lines) by (intros i; by eapply filter_indices_in).
  set (kept := List.filter _ all).
  assert (Hk : forall i, i ∈ kept -> i < length lines).
  { intros i Hi%list_elem_of_In%filter_In. apply Ha, list_elem_of_In. by destruct Hi. }
  clearbody kept. destruct all as [|a [|b all]]; [done| |].
  - intros [= <-] i [= <-]. apply Ha. by left.
  - destruct kept as [|k kept]; intros [= <-] i [= <-]; [apply Ha; by left|apply Hk; by left].
Qed.

Lemma context_score_in lines norm indices st :
  (forall i, i ∈ indices -> i < length lines) -> (forall i, st.1.1 = Some i -> i < length lines) ->
  forall i, (fold_left (context_score_step lines norm) indices st).1.1 = Some i -> i < length lines.
Proof.
  revert st. induction indices as [|j indices IH]; intros st Hin Hst; cbn [fold_left]; [done|].
  apply IH; [intros; apply Hin; by right|]. destruct st as [[b q] m]. cbn [context_score_step].
  destruct (Qlt_bool _ _); cbn; [intros i [= <-]; apply Hin; by left|apply Hst].
Qed.

Lemma context_passes_in lines context start allowFuzzy r : context_passes lines context start allowFuzzy = inl r -> in_file lines r.
Proof.
  unfold context_passes. cbv zeta. intros Hr.
  destruct (first_some [_; _; _]) as [r'|] eqn:E1.
  { injection Hr as <-. apply first_some_spec in E1.
    repeat (apply elem_of_cons in E1 as [E1|E1]; [symmetry in E1; by eapply ambiguous_in|]). by apply not_elem_of_nil in E1. }
  destruct (negb allowFuzzy); [injection Hr as <-; apply not_found_in|].
  destruct (first_some [_; _]) as [r'|] eqn:E2.
  { injection Hr as <-. apply first_some_spec in E2. apply elem_of_cons in E2 as [E2|E2]; [|apply elem_of_cons in E2 as [E2|E2]].
    - destruct (bool_decide _); [done|]. symmetry in E2. by eapply ambiguous_in.
    - symmetry in E2. by eapply substring_in.
    - by apply not_elem_of_nil in E2. }
  pose proof (context_score_in lines (normalizeForFuzzy context) (seq start (length lines - start)) (None, 0%Q, [])) as Hs.
  destruct (fold_left _ _ _) as [[bestIndex bestScore] matches]. cbn [fst] in Hs.
  destruct bestIndex as [i|]; [|done]. destruct (Qle_bool _ _); [|done]. injection Hr as <-. intros j [= <-].
  apply Hs; [intros; by eapply indices_in|done|done].
Qed.

Lemma context_plain_in lines context start allowFuzzy : in_file lines (findContextLine_plain lines context start allowFuzzy).
Proof.
  unfold findContextLine_plain. destruct (context_passes _ _ _ _) eqn:E; [by eapply context_passes_in|apply not_found_in].
Qed.

Lemma context_line_in lines context start allowFuzzy : in_file lines (findContextLine lines context start allowFuzzy).
Proof.
  unfold findContextLine. destruct (context_passes _ _ _ _) eqn:E; [by eapply context_passes_in|]. cbv zeta.
  destruct (ends_with _ _); [|apply not_found_in]. destruct (_ || _); apply context_plain_in.
Qed.

Lemma from_hint_in lines context lineHint atLeast allowFuzzy r :
  from_hint lines context lineHint atLeast allowFuzzy = Some r -> in_file lines r.
Proof.
  unfold from_hint. destruct lineHint as [n|]; [|done]. cbv zeta. destruct (_ <=? _); [|done]. destruct (found _); [|done].
  intros [= <-]. apply settled_in, context_line_in.
Qed.

Lemma default_in lines r o : in_file lines r -> (forall r', o = Some r' -> in_file lines r') -> in_file lines (default r o).
Proof. intros Hr Ho. destruct o; [by apply Ho|done]. Qed.

Lemma nested_in lines parts start lineHint allowFuzzy : in_file lines (nested_context lines parts start lineHint allowFuzzy).
Proof.
  revert start. induction parts as [|part rest IH]; intros start; [apply not_found_in|]. cbn [nested_context]. cbv zeta.
  set (hinted := if match rest with [] => true | _ => false end then _ else None).
  assert (Hh : forall r', hinted = Some r' -> in_file lines r').
  { intros r'. unfold hinted. destruct rest; [|done]. apply from_hint_in. }
  destruct (many _); [apply default_in; [apply unplaced_in|done]|].
  destruct (sr_index _) as [i|] eqn:Ei; [|apply default_in; [apply not_found_in|done]].
  destruct rest; [apply context_line_in|apply IH].
Qed.

Lemma inner_in lines inner i allowFuzzy r : inner_context lines inner i allowFuzzy = Some r -> in_file lines r.
Proof.
  unfold inner_context. cbv zeta. pose proof (context_line_in lines inner (S i) allowFuzzy) as Hc.
  destruct (found _); [intros [= <-]; by destruct (many _)|]. destruct (many _); [|done]. by intros [= <-].
Qed.

Lemma hierarchical_in lines context start lineHint allowFuzzy :
  in_file lines (findHierarchicalContext lines context start lineHint allowFuzzy).
Proof.
  unfold findHierarchicalContext. destruct (includes_char LF context); [apply nested_in|]. cbv zeta.
  set (parts := List.filter _ (split_spaces false context)). generalize (existsb is_signature_char context). intros sig.
  set (outer := findContextLine lines (join (js " ") (removelast parts)) start allowFuzzy).
  set (literal := if negb sig && (2 <? length parts) then _ else None).
  assert (Hlit : forall r, literal = Some r -> in_file lines r).
  { intros r. unfold literal. destruct (negb sig && _); [|done]. destruct (many outer); [intros [= <-]; apply unplaced_in|].
    destruct (sr_index outer); [apply inner_in|done]. }
  destruct literal as [r|]; [by apply Hlit|]. clear Hlit.
  pose proof (context_line_in lines context start allowFuzzy) as Hr. pose proof (context_line_in lines context 0 allowFuzzy) as H0.
  set (result := findContextLine lines context start allowFuzzy) in *. set (from0 := findContextLine lines context 0 allowFuzzy) in *.
  set (hinted := if negb (found result) || many result then _ else None).
  assert (Hh : forall r, hinted = Some r -> in_file lines r).
  { intros r. unfold hinted. destruct (_ || _); [|done]. apply from_hint_in. }
  destruct hinted as [r|]; [by apply Hh|]. destruct (_ && _); [done|]. destruct (many result); [done|].
  destruct (_ && _); [done|]. destruct (_ && _); [done|]. destruct (_ && _); [|done].
  destruct (many outer); [apply unplaced_in|]. destruct (sr_index outer); [|apply not_found_in].
  apply default_in; [done|]. intros r'. apply inner_in.
Qed.

(** ** Lines lie in the file

    What a search finds depends on the mode: places where a pattern fits, and in the strict mode places
    whose lines compare equal to the pattern's.  The rules for placing a hunk are the same. *)

Section lines.
Variable lines : list jsstring.
Variable allowFuzzy : bool.

(** The pattern may be put at a line. *)
Variable fits : list jsstring -> nat -> Prop.

(** The lines for which the search is reliable. *)
Variable good_line : jsstring -> Prop.

Definition placed_ok (pattern : list jsstring) (r : SequenceSearchResult) : Prop :=
  (forall i, sr_index r = Some i -> fits pattern i) /\ (forall l, sr_matchIndices r = Some l -> Forall (fits pattern) l).

Hypothesis fits_range : forall p i, fits p i -> i + length p <= length lines.
Hypothesis fits_nil : forall i, i <= length lines -> fits [] i.
Hypothesis fits_trim : forall l i, i < length lines -> trim (line_at lines i) = trim l -> fits [l] i.
Hypothesis Hseek : forall p start eof, p <> [] -> Forall good_line p -> placed_ok p (seekSequence lines p start eof allowFuzzy).

Definition good_pattern (p : list jsstring) : Prop := p <> [] /\ Forall good_line p.

Lemma sequence_ok pattern i hint eof : good_pattern pattern -> placed_ok pattern (findSequenceWithHint lines pattern i hint eof allowFuzzy).
Proof.
  intros (Hne & Hg). unfold findSequenceWithHint. cbv zeta.
  assert (Hs : forall start, placed_ok pattern (seekSequence lines pattern start eof allowFuzzy)) by (intros; by apply Hseek).
  set (hinted := match hint with Some h => _ | None => None end).
  assert (Hh : forall r, hinted = Some r -> placed_ok pattern r).
  { intros r. unfold hinted. destruct hint as [h|]; [|done]. destruct (negb _); [|done]. intros [= <-]. apply Hs. }
  set (biased := match hinted with Some _ => _ | None => None end).
  assert (Hb : forall r, biased = Some r -> placed_ok pattern r).
  { intros r. unfold biased. destruct hinted as [h|]; [|done]. destruct (_ && _); [|done]. intros [= <-]. by apply Hh. }
  pose proof (Hs i) as H1. pose proof (Hs 0) as H2. revert H1 H2. clear Hs. destruct biased as [r|]; [intros; by apply Hb|].
  generalize (seekSequence lines pattern i eof allowFuzzy) (seekSequence lines pattern 0 eof allowFuzzy).
  clearbody hinted. intros primary fromStart H1 H2. destruct (found primary || many primary); [done|].
  destruct hinted as [r|]; [destruct (found r || many r); [by apply Hh|]|]; by destruct (_ && _).
Qed.

(** Without lines to look for, the search stays where it is. *)
Lemma sequence_nil i hint eof :
  findSequenceWithHint lines [] i hint eof allowFuzzy = mkSearch (Some i) 1 None None (Some SExact).
Proof. unfold findSequenceWithHint. cbn. destruct hint as [h|]; [|done]. by destruct (negb _). Qed.

Lemma try_variants_spec variants i hint eof v r :
  try_variants lines variants i hint eof allowFuzzy = Some (v, r) ->
  v ∈ variants /\ hv_oldLines v <> [] /\ r = findSequenceWithHint lines (hv_oldLines v) i hint eof allowFuzzy.
Proof.
  induction variants as [|w rest IH]; [done|]. cbn [try_variants].
  destruct (negb (length (hv_oldLines w) =? 0) && _ && _) eqn:E.
  - intros [= -> <-]. simpl_bool. split; [by left|]. split; [|done]. intros Hnil. by rewrite Hnil in *.
  - intros Hv. destruct (IH Hv) as (? & ? & ?). split; [by right|done].
Qed.

Lemma fallback_range hunk i lineHint aggressive j : Forall good_line (dh_oldLines hunk) ->
  attemptSequenceFallback lines hunk i lineHint allowFuzzy aggressive = Some j -> j <= length lines.
Proof.
  intros Ho. unfold attemptSequenceFallback. destruct (Nat.eqb_spec (length (dh_oldLines hunk)) 0) as [|Hne]; [done|]. cbv zeta.
  set (matchHint := match getHunkHintIndex hunk i with Some h => _ | None => _ end).
  assert (Hg : good_pattern (dh_oldLines hunk)) by (split; [by intros E; rewrite E in Hne|done]).
  assert (Hv : forall j, (r ← try_variants lines (filterFallbackVariants (buildFallbackVariants hunk) aggressive) i matchHint false allowFuzzy;
                          sr_index r.2) = Some j -> j <= length lines).
  { intros k. destruct (try_variants _ _ _ _ _ _) as [[v r]|] eqn:E; [|done]. apply try_variants_spec in E as (Hin & Hne' & ->). cbn.
    intros Hk. assert (Hsub : hv_oldLines v ⊆ dh_oldLines hunk).
    { apply variants_sub. unfold filterFallbackVariants in Hin. destruct aggressive; [done|].
      apply list_elem_of_In, filter_In in Hin as [Hin _]. by apply list_elem_of_In. }
    destruct (sequence_ok (hv_oldLines v) i matchHint false) as [Hp _].
    { split; [done|]. by eapply Forall_sub. }
    specialize (fits_range _ _ (Hp k Hk)). lia. }
  destruct (sr_index _) as [k|] eqn:Ek; [|apply Hv]. destruct (_ <=? 1); [|apply Hv].
  destruct (_ && _); [done|]. intros [= <-]. destruct (sequence_ok _ i matchHint false Hg) as [Hp _]. specialize (fits_range _ _ (Hp k Ek)). lia.
Qed.

(** A place: the form of the hunk and where it was found. *)
Definition place_good (hunk : DiffHunk) (p : HunkPlace) : Prop :=
  hunk_form hunk (hp_pattern p) (hp_newSlice p) /\ placed_ok (hp_pattern p) (hp_result p).

Lemma first_good hunk i hint : Forall good_line (dh_oldLines hunk) -> dh_oldLines hunk <> [] -> i <= length lines ->
  place_good hunk (place_lines_first lines hunk i hint allowFuzzy).
Proof.
  intros Hh Hne Hi. unfold place_lines_first. cbv zeta. cbn [hp_result].
  destruct (negb _ && _) eqn:E; [|split; [by left|by apply sequence_ok]].
  apply andb_prop in E as [_ E%bool_decide_eq_true]. apply last_Some in E as (pattern & Ep).
  rewrite Ep, removelast_last.
  assert (Hform : hunk_form hunk pattern (if bool_decide (last (dh_newLines hunk) = Some []) then removelast (dh_newLines hunk) else dh_newLines hunk)).
  { right; left. split; [done|]. destruct (bool_decide _) eqn:E'; [|by left]. right. apply bool_decide_eq_true in E'.
    apply last_Some in E' as (new & ->). by rewrite removelast_last. }
  destruct (form_sub hunk _ _ Hform) as [Hsub _].
  destruct (decide (pattern = [])) as [->|Hpne]; [|split; [done|apply sequence_ok; split; [done|by eapply Forall_sub]]].
  rewrite sequence_nil. split; [done|]. split; [|by intros ?]. cbn. intros j [= <-]. by apply fits_nil.
Qed.

Lemma variant_good hunk i hint p : Forall good_line (dh_oldLines hunk) -> place_good hunk p ->
  place_good hunk (place_variant lines hunk (hunk_variants hunk) i hint allowFuzzy p).
Proof.
  intros Hh Hp. unfold place_variant. destruct (_ || _); [|done].
  destruct (try_variants _ _ _ _ _ _) as [[v r]|] eqn:E; [|done]. apply try_variants_spec in E as (Hin & Hne & ->).
  assert (Hform : hunk_form hunk (hv_oldLines v) (hv_newLines v)) by (right; right; by exists v).
  destruct (form_sub hunk _ _ Hform) as [Hsub _]. split; [done|]. apply sequence_ok. split; [done|by eapply Forall_sub].
Qed.

Lemma relative_in line c second i : c < length lines -> findContextRelativeMatch lines line c second = Some i -> fits [line] i.
Proof.
  intros Hc. unfold findContextRelativeMatch. cbv zeta.
  set (same := fun j => bool_decide (trim (line_at lines j) = trim line)).
  assert (Hs : forall j l, j ∈ List.filter same l -> (forall k, k ∈ l -> k < length lines) -> fits [line] j).
  { intros j l [Hj Hs]%list_elem_of_In%filter_In Hl. apply bool_decide_eq_true in Hs. apply fits_trim; [apply Hl; by apply list_elem_of_In|done]. }
  assert (Hf : forall j, j ∈ List.filter same (seq (S c) (length lines - S c)) -> fits [line] j).
  { intros j Hj. apply (Hs j _ Hj). intros k Hk%list_elem_of_In%in_seq. lia. }
  destruct (List.filter same (seq (S c) (length lines - S c))) as [|a [|b rest]].
  - intros Hl. apply last_Some in Hl as (l & El). apply (Hs i (seq 0 c)).
    + rewrite El. apply elem_of_app. right. by left.
    + intros k Hk%list_elem_of_In%in_seq. lia.
  - intros [= <-]. apply Hf. by left.
  - intros [= <-]. apply Hf. destruct second; [right; by left|by left].
Qed.

Lemma near_good hunk variants c p : c < length lines -> variants ⊆ hunk_variants hunk ->
  near_context lines hunk variants c = Some p -> place_good hunk p.
Proof.
  intros Hc. induction variants as [|v rest IH]; intros Hsub; [done|]. cbn [near_context].
  assert (Hrest : near_context lines hunk rest c = Some p -> place_good hunk p) by (apply IH; intros x Hx; apply Hsub; by right).
  destruct (hv_oldLines v) as [|removed [|]] eqn:Eo; [done| |done]. destruct (hv_newLines v) as [|? [|]] eqn:En; [done| |done]. cbv zeta.
  destruct (findContextRelativeMatch _ _ _ _) as [i|] eqn:Ei; [|done]. intros [= <-]. apply relative_in in Ei; [|done].
  split; [right; right; exists v; split; [apply Hsub; by left|done]|]. split; [|by intros ?]. cbn. by intros j [= <-].
Qed.

Lemma place_near_good hunk context p : (forall c, context = Some c -> c < length lines) -> place_good hunk p ->
  place_good hunk (place_near lines hunk (hunk_variants hunk) context p).
Proof.
  intros Hc Hp. unfold place_near. destruct context as [c|]; [|done]. destruct (negb _); [|done].
  destruct (near_context _ _ _ _) as [q|] eqn:E; [|done]. cbn. by eapply near_good; [apply Hc| |exact E].
Qed.

Lemma single_good hunk context p : (forall c, context = Some c -> c < length lines) -> place_good hunk p ->
  place_good hunk (place_single lines hunk context p).
Proof.
  intros Hc Hp. unfold place_single. destruct context as [c|]; [|done]. destruct (hp_pattern p) as [|line [|]] eqn:Ep; [done| |done].
  cbv zeta. destruct (_ && _); [|done]. destruct (findContextRelativeMatch _ _ _ _) as [i|] eqn:Ei; [|done].
  apply relative_in in Ei; [|by apply Hc]. destruct Hp as (Hf & _). rewrite Ep in Hf.
  split; [done|]. split; [|by intros ?]. cbn. by intros j [= <-].
Qed.

Lemma hinted_good hunk hint p : place_good hunk p -> place_good hunk (place_hinted hunk hint p).
Proof.
  intros Hp. unfold place_hinted. cbv zeta. destruct (many _); [|done]. destruct (chooseHintedMatch _ _ _) as [i|] eqn:E; [|done].
  destruct Hp as (Hf & Hi & Hl). split; [done|]. split; [|done]. cbn. intros j [= <-].
  unfold chooseHintedMatch in E. destruct (sr_matchIndices (hp_result p)) as [indices|] eqn:Em; [|done].
  match goal with Hx : context [match ?o with Some _ => _ | None => _ end] |- _ => destruct o as [h|]; [|done] end.
  destruct (List.filter _ indices) as [|k [|]] eqn:Ek; [done| |done]. injection E as <-.
  assert (k ∈ indices) as Hk.
  { assert (k ∈ List.filter (fun i => (i - h <=? AMBIGUITY_HINT_WINDOW) && (h - i <=? AMBIGUITY_HINT_WINDOW)) indices) as Hin by (rewrite Ek; by left).
    apply list_elem_of_In, filter_In in Hin as [Hin _]. by apply list_elem_of_In. }
  exact (proj1 (Forall_forall _ _) (Hl indices eq_refl) k Hk).
Qed.

Lemma place_hunk_good hunk context i : Forall good_line (dh_oldLines hunk) -> dh_oldLines hunk <> [] -> i <= length lines ->
  (forall c, context = Some c -> c < length lines) ->
  place_good hunk (place_hunk lines hunk (hunk_variants hunk) context i allowFuzzy).
Proof.
  intros. unfold place_hunk. by apply hinted_good, single_good, place_near_good, variant_good, first_good.
Qed.
End lines.
End places.
