(* ===== verification/ReplaceText.v ===== *)
(** * Replacing text (edit/diff.ts)

    [replaceText]: one occurrence, which must be unique, or all of them; where the text
    does not occur as it stands, the closest lines stand in for it.  The loop for all
    fuzzy occurrences takes fuel: it need not end. *)

From Stdlib Require Import QArith.
From S2P Require Import Prelude JsText TextNormalize Indentation Levenshtein FuzzyMatch FuzzyFacts LineDiff.

Local Open Scope nat_scope.

Record ReplaceOptions := mkOptions { ro_fuzzy : bool; ro_all : bool; ro_threshold : option Q }.

Record ReplaceResult := mkReplaced { rr_content : jsstring; rr_count : nat }.

Inductive ReplaceError :=
| EmptyOldText
| TextNotUnique (occurrences : nat).

(** [content.split(target)] for a target that is not empty; [skip] is what is left of the
    last occurrence. *)
Fixpoint split_text (target : jsstring) (skip : nat) (content : jsstring) : list jsstring :=
  match content with
  | [] => [[]]
  | c :: rest =>
      match skip with
      | S skip => split_text target skip rest
      | O => if starts_with target content then [] :: split_text target (pred (length target)) rest
             else match split_text target 0 rest with w :: ws => (c :: w) :: ws | [] => [[c]] end
      end
  end.

(** [content] with the text of a match replaced. *)
Definition replace_match (content : jsstring) (m : FuzzyMatch) (newText : jsstring) : jsstring :=
  take (fm_startIndex m) content ++ newText ++ drop (fm_startIndex m + length (fm_actualText m)) content.

Section replace.
Context `{FuzzyEnv}.

(** The match a round of the loop takes. *)
Definition loop_match (outcome : MatchOutcome) (fuzzy : bool) (threshold : Q) : option FuzzyMatch :=
  let shouldUseClosest :=
    fuzzy && match mo_closest outcome with Some c => Qle_bool threshold (fm_confidence c) | None => false end
    && match mo_fuzzyMatches outcome with Some n => (n <=? 1)%nat | None => true end in
  match mo_match outcome with
  | Some m => Some m
  | None => if shouldUseClosest then mo_closest outcome else None
  end.

(** The loop over fuzzy occurrences; [None] when the fuel is used up. *)
Fixpoint replace_loop (fuel : nat) (fuzzy : bool) (threshold : Q) (oldText newText content : jsstring) (count : nat) :
    option ReplaceResult :=
  match fuel with
  | O => None
  | S fuel =>
      match loop_match (findMatch content oldText fuzzy threshold) fuzzy threshold with
      | None => Some (mkReplaced content count)
      | Some m =>
          let adjustedNewText := adjustIndentation oldText (fm_actualText m) newText in
          if bool_decide (adjustedNewText = fm_actualText m) then Some (mkReplaced content count)
          else replace_loop fuel fuzzy threshold oldText newText (replace_match content m adjustedNewText) (S count)
      end
  end.

Definition replaceText (fuel : nat) (content oldText newText : jsstring) (options : ReplaceOptions) :
    option (ReplaceError + ReplaceResult) :=
  if (length oldText =? 0)%nat then Some (inl EmptyOldText)
  else
    let threshold := default DEFAULT_FUZZY_THRESHOLD (ro_threshold options) in
    let normalizedContent := normalizeToLF content in
    let normalizedOldText := normalizeToLF oldText in
    let normalizedNewText := normalizeToLF newText in
    if ro_all options then
      let pieces := split_text normalizedOldText 0 normalizedContent in
      let exactCount := length pieces - 1 in
      if (0 <? exactCount)%nat then Some (inr (mkReplaced (join normalizedNewText pieces) exactCount))
      else inr <$> replace_loop fuel (ro_fuzzy options) threshold normalizedOldText normalizedNewText normalizedContent 0
    else
      let matchOutcome := findMatch normalizedContent normalizedOldText (ro_fuzzy options) threshold in
      if (1 <? default 0 (mo_occurrences matchOutcome))%nat
      then Some (inl (TextNotUnique (default 0 (mo_occurrences matchOutcome))))
      else
        match mo_match matchOutcome with
        | None => Some (inr (mkReplaced normalizedContent 0))
        | Some m =>
            let adjustedNewText := adjustIndentation normalizedOldText (fm_actualText m) normalizedNewText in
            Some (inr (mkReplaced (replace_match normalizedContent m adjustedNewText) 1))
        end.

(** ** The replace tool *)

Inductive ReplaceFailure :=
| ReplaceRefused (e : ReplaceError)
| AmbiguousText (occurrences : nat)
| NoMatchFound (fuzzyMatches : option nat)
| NoChangeMade.

(** What both the tool and its preview do with the text of the file. *)
Definition replaced_content (fuel : nat) (normalizedContent oldText newText : jsstring) (fuzzy all : bool) (threshold : Q) :
    option (ReplaceFailure + ReplaceResult) :=
  r ← replaceText fuel normalizedContent oldText newText (mkOptions fuzzy all (Some threshold));
  match r with
  | inl e => Some (inl (ReplaceRefused e))
  | inr result =>
      if (rr_count result =? 0)%nat then
        let matchOutcome := findMatch normalizedContent oldText fuzzy threshold in
        Some (inl (if (1 <? default 0 (mo_occurrences matchOutcome))%nat then AmbiguousText (default 0 (mo_occurrences matchOutcome))
                   else NoMatchFound (mo_fuzzyMatches matchOutcome)))
      else if bool_decide (normalizedContent = rr_content result) then Some (inl NoChangeMade)
      else Some (inr result)
  end.

(** The text the tool writes, with its count. *)
Definition executeReplaceSingleUnderLock (fuel : nat) (rawContent old_text new_text : jsstring) (all allowFuzzy : bool) (fuzzyThreshold : Q) :
    option (ReplaceFailure + (jsstring * nat)) :=
  if (length old_text =? 0)%nat then Some (inl (ReplaceRefused EmptyOldText))
  else
    let '(bom, content) := stripBom rawContent in
    let originalEnding := detectLineEnding content in
    r ← replaced_content fuel (normalizeToLF content) (normalizeToLF old_text) (normalizeToLF new_text) allowFuzzy all fuzzyThreshold;
    Some (match r with
          | inl e => inl e
          | inr result => inr (bom ++ restoreLineEndings (rr_content result) originalEnding, rr_count result)
          end).

(** The diff the preview shows, with the context lines of [generateDiffString]. *)
Definition computeEditDiff `{LineDiffer} (fuel : nat) (rawContent oldText newText : jsstring) (fuzzy all : bool) (threshold : option Q)
    (contextLines : Z) : option (ReplaceFailure + DiffResult) :=
  if (length oldText =? 0)%nat then Some (inl (ReplaceRefused EmptyOldText))
  else
    let content := (stripBom rawContent).2 in
    let normalizedContent := normalizeToLF content in
    r ← replaced_content fuel normalizedContent (normalizeToLF oldText) (normalizeToLF newText) fuzzy all
          (default DEFAULT_FUZZY_THRESHOLD threshold);
    Some (match r with
          | inl e => inl e
          | inr result => inr (generateDiffString normalizedContent (rr_content result) contextLines)
          end).

(** ** Where a match is *)

Definition located (content : jsstring) (m : FuzzyMatch) : Prop :=
  exists pre post, content = pre ++ fm_actualText m ++ post /\ length pre = fm_startIndex m.

Lemma window_located lines k n o base : line_offsets base lines !! k = Some o -> k + n <= length lines -> n <> 0 ->
  exists pre post, join [LF] lines = pre ++ join [LF] (window k n lines) ++ post /\ base + length pre = o.
Proof.
  revert k base. induction lines as [|l lines IH]; intros [|k] base; cbn [line_offsets lookup list_lookup]; [done|done| |].
  - intros [= <-] Hn Hn0. unfold window. rewrite drop_0. exists []. cbn [app length]. rewrite Nat.add_0_r.
    destruct (decide (drop n (l :: lines) = [])) as [E|Hne].
    + exists []. rewrite <- (take_drop n (l :: lines)) at 1. by rewrite E, !app_nil_r.
    + exists ([LF] ++ join [LF] (drop n (l :: lines))). rewrite <- join_app; [by rewrite take_drop| |done].
      destruct n; [done|]. done.
  - cbn [length]. intros Hk Hn Hn0. destruct lines as [|l' lines']; [done|].
    destruct (IH k _ Hk ltac:(lia) Hn0) as (pre & post & Hj & Hl).
    exists (l ++ [LF] ++ pre), post. rewrite join_cons by done. rewrite Hj. split; [by rewrite <- !(assoc_L app)|].
    rewrite !length_app. cbn [length]. lia.
Qed.

Lemma offsets_length base lines : length (line_offsets base lines) = length lines.
Proof. revert base. induction lines as [|l lines IH]; intros base; [done|]. cbn. by rewrite IH. Qed.

Lemma core_located content targetLines threshold depth m : targetLines <> [] ->
  bf_best (findBestFuzzyMatchCore (split_char LF content) targetLines (computeLineOffsets (split_char LF content)) threshold depth) = Some m ->
  located content m.
Proof.
  intros Hne. unfold findBestFuzzyMatchCore. set (lines := split_char LF content). set (n := S (length lines) - length targetLines).
  set (P := fun st : option FuzzyMatch * Q * Q * nat => forall m, st.1.1.1 = Some m -> located content m).
  assert (HP : forall l st, (forall k, k ∈ l -> k < n) -> P st ->
    P (fold_left (try_window lines targetLines (normalizeLines depth targetLines) (computeLineOffsets lines) threshold depth) l st)).
  { induction l as [|k l IH]; intros st Hl Hst; cbn [fold_left]; [done|]. apply IH; [intros; apply Hl; by right|].
    destruct st as [[[best s1] s2] above]. unfold try_window. destruct (Qlt_bool s1 _); [|by destruct (Qlt_bool s2 _)].
    intros m' [= <-]. assert (Hk : k < n) by (apply Hl; by left).
    assert (length targetLines <> 0) by (by destruct targetLines).
    destruct (computeLineOffsets lines !! k) as [o|] eqn:Eo.
    - destruct (window_located lines k (length targetLines) o 0 Eo) as (pre & post & Hj & Ho); [lia|done|].
      exists pre, post. cbn [fm_actualText fm_startIndex default]. split; [|done]. rewrite <- Hj. symmetry. apply join_split.
    - apply lookup_ge_None in Eo. unfold computeLineOffsets in Eo. rewrite offsets_length in Eo. lia. }
  specialize (HP (seq 0 n) (None, (-1 # 1)%Q, (-1 # 1)%Q, 0)).
  destruct (fold_left _ _ _) as [[[best s1] s2] above]. cbn [bf_best]. intros ->. apply HP; [|done|done].
  intros k Hk%list_elem_of_In%in_seq. lia.
Qed.

Lemma best_located content target threshold m : bf_best (findBestFuzzyMatch content target threshold) = Some m -> located content m.
Proof.
  unfold findBestFuzzyMatch. destruct (bool_decide (target = [])); [done|]. destruct (_ <? _); [done|].
  pose proof (core_located content (split_char LF target) threshold) as Hc.
  destruct (bf_best (findBestFuzzyMatchCore _ _ _ _ true)) as [b|] eqn:Eb; [|congruence].
  assert (H1 : forall m, bf_best (findBestFuzzyMatchCore (split_char LF content) (split_char LF target)
      (computeLineOffsets (split_char LF content)) threshold true) = Some m -> located content m).
  { intros m'. apply Hc, split_char_nonempty. }
  destruct (_ && _); [|apply H1].
  destruct (bf_best (findBestFuzzyMatchCore _ _ _ _ false)) as [n|] eqn:En; [|apply H1].
  destruct (Qlt_bool _ _); [|apply H1]. apply Hc, split_char_nonempty.
Qed.

(** What a search by text finds: the text itself, if it occurs; then it occurs once. *)
Lemma match_located content target allowFuzzy threshold m : native_agrees ->
  mo_match (findMatch content target allowFuzzy threshold) = Some m ->
  located content m /\ (forall i, indexOf target content = Some i -> fm_actualText m = target /\ count_occurrences target 0 content <= 1).
Proof.
  intros [Hn _]. unfold findMatch. destruct (bool_decide (target = [])); [done|].
  unfold findExactMatchOutcome. destruct (indexOf target content) as [n|] eqn:Ei.
  - destruct (Nat.ltb_spec 1 (count_occurrences target 0 content)); [done|]. cbn. intros [= <-]. split; [|by intros].
    apply indexOf_spec in Ei as (pre & post & -> & <-). by exists pre, post.
  - set (r := match findBestFuzzyMatchNative with Some native => _ | None => _ end).
    assert (r = findBestFuzzyMatch content target threshold) as ->.
    { unfold r. destruct findBestFuzzyMatchNative as [native|] eqn:E; [|done]. by apply Hn. }
    destruct (bf_best _) as [b|] eqn:Eb; [|done]. intros Hm.
    assert (b = m) as <- by (destruct (_ && _) in Hm; [|destruct (_ && _) in Hm]; cbn in Hm; congruence).
    split; [by eapply best_located|done].
Qed.

Lemma located_replaced content m newText : located content m ->
  exists pre post, content = pre ++ fm_actualText m ++ post /\ replace_match content m newText = pre ++ newText ++ post.
Proof.
  intros (pre & post & -> & Hl). exists pre, post. split; [done|]. unfold replace_match. rewrite <- Hl.
  rewrite take_app_length. do 2 f_equal. rewrite drop_app_ge by lia. rewrite drop_app_ge by lia.
  replace (length pre + length (fm_actualText m) - length pre - length (fm_actualText m)) with 0 by lia. by rewrite drop_0.
Qed.

(** Replacing one text changes one place.  Without the option for all occurrences, a
    replacement is refused when the text is empty or occurs more than once; otherwise
    either nothing was found and the text is unchanged (but for its line endings), or
    there is exactly one place whose text is replaced by the new text, indented like the
    text found there, and everything before and after it is kept.  If the old text occurs
    as it stands, that place is its only occurrence and the new text is put in as given. *)
Theorem replace_one_place fuel content oldText newText options r :
  native_agrees -> ro_all options = false -> replaceText fuel content oldText newText options = Some r ->
  let text := normalizeToLF content in
  let old := normalizeToLF oldText in
  let new := normalizeToLF newText in
  match r with
  | inl EmptyOldText => oldText = []
  | inl (TextNotUnique n) => 1 < n
  | inr result =>
      (rr_count result = 0 /\ rr_content result = text)
      \/ (rr_count result = 1 /\ exists pre found post,
            text = pre ++ found ++ post /\ rr_content result = pre ++ adjustIndentation old found new ++ post
            /\ (forall i, indexOf old text = Some i ->
                  found = old /\ count_occurrences old 0 text <= 1 /\ rr_content result = pre ++ new ++ post))
  end.
Proof.
  intros Hn Hall. unfold replaceText. destruct (Nat.eqb_spec (length oldText) 0); [intros [= <-]; by destruct oldText|]. rewrite Hall. cbv zeta.
  set (text := normalizeToLF content). set (old := normalizeToLF oldText). set (new := normalizeToLF newText).
  set (outcome := findMatch text old _ _).
  destruct (Nat.ltb_spec 1 (default 0 (mo_occurrences outcome))); [by intros [= <-]|].
  destruct (mo_match outcome) as [m|] eqn:Em; intros [= <-]; [|by left]. right. split; [done|].
  destruct (match_located _ _ _ _ _ Hn Em) as [Hl Hx].
  destruct (located_replaced text m (adjustIndentation old (fm_actualText m) new) Hl) as (pre & post & Ht & Hr).
  exists pre, (fm_actualText m), post. split; [done|]. split; [done|]. intros i Hi. destruct (Hx i Hi) as [He Hc].
  split; [done|]. split; [done|]. cbn [rr_content]. rewrite Hr, He. unfold adjustIndentation. by rewrite bool_decide_eq_true_2.
Qed.

(** ** All occurrences *)

Lemma starts_with_spec target content : starts_with target content = true -> content = target ++ drop (length target) content.
Proof. intros E%bool_decide_eq_true. rewrite <- E at 1. by rewrite take_drop. Qed.

Lemma split_text_ne target skip content : split_text target skip content <> [].
Proof.
  revert skip. induction content as [|c rest IH]; intros skip; [done|]. cbn [split_text]. destruct skip; [|apply IH].
  destruct (starts_with _ _); [done|]. by destruct (split_text target 0 rest).
Qed.

Lemma split_text_join target skip content : target <> [] -> join target (split_text target skip content) = drop skip content.
Proof.
  intros Hne. revert skip. induction content as [|c rest IH]; intros skip; [by destruct skip|]. cbn [split_text].
  destruct skip as [|skip]; [|apply IH]. rewrite drop_0. destruct (starts_with target (c :: rest)) eqn:E.
  - apply starts_with_spec in E. rewrite join_cons by apply split_text_ne. rewrite IH. cbn [app]. etransitivity; [|symmetry; exact E]. by destruct target.
  - pose proof (split_text_ne target 0 rest) as Hs. specialize (IH 0). rewrite drop_0 in IH.
    destruct (split_text target 0 rest) as [|w ws]; [done|]. destruct ws; [cbn in *; by subst|].
    rewrite join_cons in * by done. cbn [app]. by rewrite IH.
Qed.

Lemma starts_with_prefix target s t : starts_with target s = true -> starts_with target (s ++ t) = true.
Proof.
  intros E. apply starts_with_spec in E. rewrite E, <- (assoc_L app). unfold starts_with. apply bool_decide_eq_true. by rewrite take_app_length.
Qed.

Lemma split_text_pieces target skip content : target <> [] -> Forall (fun p => indexOf target p = None) (split_text target skip content).
Proof.
  intros Hne. assert (Hnil : indexOf target [] = None).
  { cbn. unfold starts_with. rewrite bool_decide_eq_false_2; [done|]. rewrite take_nil. congruence. }
  revert skip. induction content as [|c rest IH]; intros skip; [by constructor|]. cbn [split_text].
  destruct skip as [|skip]; [|apply IH]. destruct (starts_with target (c :: rest)) eqn:E; [by constructor|].
  pose proof (split_text_join target 0 rest Hne) as Hj. rewrite drop_0 in Hj. specialize (IH 0). pose proof (split_text_ne target 0 rest) as Hs.
  destruct (split_text target 0 rest) as [|w ws]; [done|]. inversion IH as [|?? Hw Hws]; subst. constructor; [|done].
  cbn [indexOf]. destruct (starts_with target (c :: w)) eqn:E'; [|by rewrite Hw]. exfalso.
  assert (exists t, join target (w :: ws) = w ++ t) as (t & Ht).
  { destruct ws; [exists []; by rewrite app_nil_r|]. rewrite join_cons by done. by eexists. }
  rewrite Ht in E. change (c :: w ++ t) with ((c :: w) ++ t) in E. by rewrite starts_with_prefix in E.
Qed.

Lemma normalize_nonempty s : s <> [] -> normalizeToLF s <> [].
Proof.
  unfold normalizeToLF. destruct s as [|c s]; [done|]. intros _. cbn [normalize_from]. rewrite andb_false_r.
  by destruct (c =? CR)%N.
Qed.

(** Replacing all occurrences of a text that occurs replaces exactly those: the text is
    cut at the occurrences, from the left and without overlap, into pieces that do not
    contain it, and the result is the pieces with the new text between them; the count is
    the number of occurrences.  No search by score takes place. *)
Theorem replace_all_occurrences fuel content oldText newText options i :
  let text := normalizeToLF content in
  let old := normalizeToLF oldText in
  oldText <> [] -> ro_all options = true -> indexOf old text = Some i ->
  exists pieces result, replaceText fuel content oldText newText options = Some (inr result)
    /\ text = join old pieces /\ Forall (fun p => indexOf old p = None) pieces
    /\ rr_content result = join (normalizeToLF newText) pieces
    /\ 0 < rr_count result /\ length pieces = S (rr_count result).
Proof.
  intros text old Hne Hall Hi. pose proof (normalize_nonempty oldText Hne) as Hold. fold old in Hold.
  pose proof (split_text_join old 0 text Hold) as Hj. rewrite drop_0 in Hj.
  pose proof (split_text_pieces old 0 text Hold) as Hp. pose proof (split_text_ne old 0 text) as Hs.
  unfold replaceText. destruct (Nat.eqb_spec (length oldText) 0); [by destruct oldText|]. rewrite Hall. cbv zeta. fold text old.
  set (pieces := split_text old 0 text) in *. clearbody pieces.
  assert (1 < length pieces).
  { destruct pieces as [|p [|]]; [done| |cbn; lia]. cbn in Hj. subst p. inversion Hp; subst. congruence. }
  exists pieces. destruct (Nat.ltb_spec 0 (length pieces - 1)); [|lia]. eexists. split; [done|]. cbn [rr_content rr_count].
  repeat split; [done|done|lia|lia].
Qed.
End replace.

(** ** Samples *)

#[local] Existing Instance sample_env.

Definition sample_text : jsstring := js "  let total = 0;" ++ [LF] ++ js "  count(total);" ++ [LF].

Lemma replace_one_place_witness :
  let r := mkReplaced (js "  let total = 1;" ++ [LF] ++ js "  count(total);" ++ [LF]) 1 in
  replaceText 0 sample_text (js "total = 0") (js "total = 1") (mkOptions true false None) = Some (inr r)
  /\ ((rr_count r = 0 /\ rr_content r = normalizeToLF sample_text)
      \/ (rr_count r = 1 /\ exists pre found post,
            normalizeToLF sample_text = pre ++ found ++ post
            /\ rr_content r = pre ++ adjustIndentation (normalizeToLF (js "total = 0")) found (normalizeToLF (js "total = 1")) ++ post
            /\ (forall i, indexOf (normalizeToLF (js "total = 0")) (normalizeToLF sample_text) = Some i ->
                  found = normalizeToLF (js "total = 0")
                  /\ count_occurrences (normalizeToLF (js "total = 0")) 0 (normalizeToLF sample_text) <= 1
                  /\ rr_content r = pre ++ normalizeToLF (js "total = 1") ++ post))).
Proof.
  intros r. assert (H : replaceText 0 sample_text (js "total = 0") (js "total = 1") (mkOptions true false None) = Some (inr r))
    by (vm_compute; reflexivity).
  split; [exact H|].
  exact (replace_one_place 0 sample_text (js "total = 0") (js "total = 1") (mkOptions true false None) (inr r) sample_agrees eq_refl H).
Defined.

Lemma replace_all_occurrences_witness :
  exists pieces result, replaceText 0 sample_text (js "total") (js "sum") (mkOptions true true None) = Some (inr result)
    /\ normalizeToLF sample_text = join (normalizeToLF (js "total")) pieces
    /\ Forall (fun p => indexOf (normalizeToLF (js "total")) p = None) pieces
    /\ rr_content result = join (normalizeToLF (js "sum")) pieces
    /\ 0 < rr_count result /\ length pieces = S (rr_count result).
Proof.
  apply (replace_all_occurrences 0 sample_text (js "total") (js "sum") (mkOptions true true None) 6).
  - discriminate.
  - reflexivity.
  - vm_compute. reflexivity.
Defined.

(** ** A loop that does not end *)

Definition endless_old : jsstring := js "alpha beta gamma delta".
Definition endless_new : jsstring := endless_old ++ js "!".
Definition endless_text : jsstring := js "alpha beta gamma delts".

Lemma count_skip target t s : count_occurrences target (length t) (t ++ s) = count_occurrences target 0 s.
Proof. induction t as [|c t IH]; [done|]. exact IH. Qed.

Lemma count_bangs n : count_occurrences endless_old 0 (repeat 33%N n) = 0.
Proof.
  induction n as [|n IH]; [done|]. cbn [repeat count_occurrences].
  assert (starts_with endless_old (33%N :: repeat 33%N n) = false) as ->; [|exact IH].
  unfold starts_with. apply bool_decide_eq_false. by vm_compute.
Qed.

Lemma endless_step fuel n count :
  replace_loop fuel true DEFAULT_FUZZY_THRESHOLD endless_old endless_new (endless_old ++ repeat 33%N n) count = None.
Proof.
  revert n count. induction fuel as [|fuel IH]; intros n count; [done|]. cbn [replace_loop].
  assert (findMatch (endless_old ++ repeat 33%N n) endless_old true DEFAULT_FUZZY_THRESHOLD
          = mkOutcome (Some (mkFuzzy endless_old 0 1 1)) None None None false) as ->.
  { unfold findMatch. change (bool_decide (endless_old = [])) with false. cbn iota. unfold findExactMatchOutcome.
    assert (Hs : starts_with endless_old (endless_old ++ repeat 33%N n) = true).
    { unfold starts_with. apply bool_decide_eq_true. by rewrite take_app_length. }
    assert (indexOf endless_old (endless_old ++ repeat 33%N n) = Some 0) as ->.
    { change (endless_old ++ repeat 33%N n) with (97%N :: (drop 1 endless_old ++ repeat 33%N n)) in *. cbn [indexOf]. by rewrite Hs. }
    assert (count_occurrences endless_old 0 (endless_old ++ repeat 33%N n) = 1) as ->.
    { change (endless_old ++ repeat 33%N n) with (97%N :: (drop 1 endless_old ++ repeat 33%N n)) in *. cbn [count_occurrences].
      rewrite Hs. f_equal. change (pred (length endless_old)) with (length (drop 1 endless_old)). rewrite count_skip. apply count_bangs. }
    done. }
  cbn [loop_match mo_match fm_actualText]. change (adjustIndentation endless_old endless_old endless_new) with endless_new.
  change (bool_decide (endless_new = endless_old)) with false. cbn iota.
  replace (replace_match (endless_old ++ repeat 33%N n) (mkFuzzy endless_old 0 1 1) endless_new) with (endless_old ++ repeat 33%N (S n)).
  - apply IH.
  - unfold replace_match. cbn [fm_startIndex fm_actualText]. rewrite take_0, Nat.add_0_l, drop_app_length. done.
Qed.

(** When the new text contains the old one and the old one only occurs approximately,
    replacing all occurrences never comes to an end: each round finds the text it has just
    put in. *)
Lemma replace_all_endless fuel : replaceText fuel endless_text endless_old endless_new (mkOptions true true None) = None.
Proof.
  destruct fuel as [|fuel]; [by vm_compute|].
  assert (H : replaceText (S fuel) endless_text endless_old endless_new (mkOptions true true None)
    = inr <$> replace_loop fuel true DEFAULT_FUZZY_THRESHOLD endless_old endless_new (endless_old ++ repeat 33%N 1) 1).
  { unfold replaceText. cbn [ro_all ro_fuzzy ro_threshold default]. cbn [replace_loop].
    assert (loop_match (findMatch (normalizeToLF endless_text) (normalizeToLF endless_old) true DEFAULT_FUZZY_THRESHOLD) true DEFAULT_FUZZY_THRESHOLD
            = Some (mkFuzzy endless_text 0 1 (23 # 24))) as E by (vm_compute; reflexivity).
    change (default DEFAULT_FUZZY_THRESHOLD None) with DEFAULT_FUZZY_THRESHOLD. rewrite E.
    change (length endless_old =? 0) with false. cbn iota.
    assert ((0 <? length (split_text (normalizeToLF endless_old) 0 (normalizeToLF endless_text)) - 1) = false) as -> by (vm_compute; reflexivity).
    done. }
  rewrite H. by rewrite endless_step.
Qed.
