(* ===== verification/PatchSplice.v ===== *)
(** * The text after a patch

    The replacements of a patch are inside the file, apart from each other, and carry the
    lines of its hunks; the new text is the old one with these ranges replaced.  Hunks
    whose lines occur as they stand do exactly what they say. *)

From Stdlib Require Import QArith.
From S2P Require Import Prelude JsText TextNormalize Indentation Levenshtein FuzzyMatch FuzzyFacts LineDiff ReplaceText DiffHunks PatchIndent PatchVariants PatchApply PatchFacts.

Local Open Scope nat_scope.

#[local] Abbreviation same_text := (Forall2 (fun line adjusted : jsstring => trim line = trim adjusted)).

(** ** Replacing ranges *)

(** The lines from [at_] on, with the ranges of [rs] replaced. *)
Fixpoint patched (at_ : nat) (lines : list jsstring) (rs : list Replacement) : list jsstring :=
  match rs with
  | [] => drop at_ lines
  | r :: rs =>
      take (rp_startIndex r - at_) (drop at_ lines) ++ rp_newLines r
      ++ patched (rp_startIndex r + rp_oldLen r) lines rs
  end.

(** The ranges come one after the other, from [at_] to [n]. *)
Fixpoint in_order (at_ : nat) (rs : list Replacement) (n : nat) : Prop :=
  match rs with
  | [] => at_ <= n
  | r :: rs => at_ <= rp_startIndex r /\ in_order (rp_startIndex r + rp_oldLen r) rs n
  end.

Lemma in_order_end at_ rs n : in_order at_ rs n -> at_ <= n.
Proof. revert at_. induction rs as [|r rs IH]; intros at_; [done|]. intros [? ?%IH]. lia. Qed.

Lemma splice_nat {A} (l : list A) s k items : s <= length l -> splice l (Z.of_nat s) k items = take s l ++ items ++ drop (s + k) l.
Proof.
  intros Hs. unfold splice, clamp_index, arr_len. destruct (Z.ltb_spec (Z.of_nat s) 0); [lia|].
  by rewrite Z.min_l, Nat2Z.id by lia.
Qed.

Lemma apply_one_spec r lines : rp_startIndex r <= length lines ->
  apply_one r lines = take (rp_startIndex r) lines ++ rp_newLines r ++ drop (rp_startIndex r + rp_oldLen r) lines.
Proof.
  intros Hs. unfold apply_one. rewrite (splice_nat lines) by done. cbn [app].
  assert (length (take (rp_startIndex r) lines) = rp_startIndex r) as Ht by (rewrite length_take; lia).
  rewrite splice_nat by (rewrite length_app; lia). rewrite Nat.add_0_r.
  rewrite take_app_le, take_take, Nat.min_id by lia. rewrite drop_app_ge by lia. by rewrite Ht, Nat.sub_diag, drop_0.
Qed.

Lemma apply_patched at_ lines rs : in_order at_ rs (length lines) ->
  applyReplacements lines rs = take at_ lines ++ patched at_ lines rs.
Proof.
  revert at_. induction rs as [|r rs IH]; intros at_; cbn [patched]; [by rewrite take_drop|].
  intros [Hle Hrs]. pose proof (in_order_end _ _ _ Hrs) as Hend. cbn [applyReplacements fold_right].
  change (fold_right apply_one lines rs) with (applyReplacements lines rs). rewrite (IH _ Hrs).
  set (X := patched (rp_startIndex r + rp_oldLen r) lines rs).
  assert (length (take (rp_startIndex r + rp_oldLen r) lines) = rp_startIndex r + rp_oldLen r) as Ht by (rewrite length_take; lia).
  rewrite apply_one_spec by (rewrite length_app; lia). rewrite take_app_le, take_take, Nat.min_l by lia.
  rewrite drop_app_ge by lia. rewrite Ht, Nat.sub_diag, drop_0.
  replace (take (rp_startIndex r) lines) with (take at_ lines ++ take (rp_startIndex r - at_) (drop at_ lines)).
  - by rewrite <- (assoc_L app).
  - rewrite take_take_drop. f_equal. lia.
Qed.

Lemma overlap_in_order at_ rs n : overlap rs = None -> at_ <= n ->
  (forall r, head rs = Some r -> at_ <= rp_startIndex r) -> Forall (fun r => rp_startIndex r + rp_oldLen r <= n) rs ->
  in_order at_ rs n.
Proof.
  intros Ho Hn Hhead Hr. revert at_ Ho Hn Hhead. induction Hr as [|r rs Hr Hrs IH]; intros at_ Ho Hn Hhead; [done|].
  split; [by apply Hhead|]. destruct rs as [|next rs]; [cbn; lia|]. cbn [overlap] in Ho.
  destruct (Nat.ltb_spec (rp_startIndex next) (rp_startIndex r + rp_oldLen r)); [done|].
  apply IH; [done|done|]. intros ? [= <-]. done.
Qed.

(** ** The replacements of the hunks *)

(** Where a pure addition without context goes: before the line of its number, or at the end. *)
Definition addition_at (lines : list jsstring) (hunk : DiffHunk) (i : nat) : Prop :=
  dh_changeContext hunk = None ->
  match match dh_oldStartLine hunk with Some n => Some n | None => dh_newStartLine hunk end with
  | Some n => S i = N.to_nat n
  | None => i = length lines \/ (last lines = Some [] /\ S i = length lines)
  end.

Section steps.
Context `{FuzzyEnv}.
Variable lines : list jsstring.
Variable allowFuzzy : bool.
Variable fits : list jsstring -> nat -> Prop.
Variable good_line : jsstring -> Prop.
Hypothesis fits_range : forall p i, fits p i -> i + length p <= length lines.
Hypothesis fits_nil : forall i, i <= length lines -> fits [] i.
Hypothesis fits_trim : forall l i, i < length lines -> trim (line_at lines i) = trim l -> fits [l] i.
Hypothesis Hseek : forall p start eof, p <> [] -> Forall good_line p -> placed_ok fits p (seekSequence lines p start eof allowFuzzy).

(** What becomes of a hunk: a form of it that fits is replaced by its new lines, up to indentation; or
    that form changes nothing. *)
Definition hunk_outcome (hunk : DiffHunk) (o : option Replacement) : Prop :=
  exists old new i, hunk_form hunk old new /\ fits old i
    /\ match o with
       | Some r => rp_startIndex r = i /\ rp_oldLen r = length old /\ same_text new (rp_newLines r)
                   /\ (dh_oldLines hunk = [] -> addition_at lines hunk i)
       | None => new = old
       end.

Definition hunk_ok (hunk : DiffHunk) : Prop := Forall good_line (dh_oldLines hunk) /\ no_lf (dh_newLines hunk).

(** One hunk adds its outcome to the state. *)
Definition step_good_from (st st' : PatchState) (hunk : DiffHunk) : Prop :=
  ps_lineIndex st' <= length lines
  /\ exists o, hunk_outcome hunk o /\ ps_replacements st' = ps_replacements st ++ option_list o.

Lemma commit_good hunk st place st' : hunk_ok hunk -> dh_oldLines hunk <> [] -> place_good fits hunk place ->
  commit_place lines hunk allowFuzzy st place = inr st' -> step_good_from st st' hunk.
Proof.
  intros [_ Hnew] Hne (Hform & Hplace & _). unfold commit_place. cbv zeta.
  destruct (sr_index (hp_result place)) as [i|]; [|done]. destruct (many _); [done|].
  match goal with |- context [match ?o with Some _ => _ | None => _ end] => destruct o as [|] end; [done|].
  specialize (Hplace i eq_refl). pose proof (fits_range _ _ Hplace) as Hr. destruct (bool_decide _) eqn:E; intros [= <-]; (split; [cbn; lia|]).
  - apply bool_decide_eq_true in E. exists None. cbn. rewrite app_nil_r. split; [|done]. by exists (hp_pattern place), (hp_newSlice place), i.
  - eexists (Some _). split; [|reflexivity]. exists (hp_pattern place), (hp_newSlice place), i. split; [done|]. split; [done|].
    cbn [rp_startIndex rp_oldLen rp_newLines]. split; [done|]. split; [done|]. split; [|done].
    apply lines_keep_text. destruct (form_sub hunk _ _ Hform) as [_ Hsub]. by eapply Forall_sub.
Qed.

Lemma context_good hunk context i aggressive c j : hunk_ok hunk -> i <= length lines ->
  place_context lines hunk context i allowFuzzy aggressive = inr (c, j) ->
  (forall k, c = Some k -> k < length lines) /\ j <= length lines.
Proof.
  intros [Hok _] Hi. unfold place_context. cbv zeta.
  pose proof (hierarchical_in lines context i (dh_oldStartLine hunk) allowFuzzy) as Hin.
  set (r := findHierarchicalContext _ _ _ _ _) in *. clearbody r. unfold in_file in Hin.
  assert (Hfb : forall c', (forall k, c' = Some k -> k < length lines) ->
    match attemptSequenceFallback lines hunk i (dh_oldStartLine hunk) allowFuzzy aggressive with
    | Some i => inr (c', i)
    | None => inl (if many r then ContextAmbiguous (default 0 (sr_matchCount r)) else ContextNotFound)
    end = inr (c, j) -> (forall k, c = Some k -> k < length lines) /\ j <= length lines).
  { intros c' Hc'. destruct (attemptSequenceFallback _ _ _ _ _ _) as [k|] eqn:E; [|done]. intros [= <- <-].
    split; [done|]. by apply (fallback_range lines allowFuzzy fits good_line fits_range Hseek hunk i (dh_oldStartLine hunk) aggressive). }
  destruct (sr_index r) as [idx|]; [|by apply Hfb]. destruct (many r); [by apply Hfb|].
  intros [= <- <-]. specialize (Hin idx eq_refl). split; [by intros k [= <-]|].
  destruct (match dh_oldLines hunk with _ :: _ => _ | [] => _ end); lia.
Qed.

Lemma insertion_good hunk i j : i <= length lines -> insertion_place lines hunk i = inr j -> j <= length lines /\ addition_at lines hunk j.
Proof.
  intros Hi. unfold insertion_place, addition_at. destruct (dh_changeContext hunk); [intros [= <-]; by split|].
  match goal with |- context [match ?o with Some _ => _ | None => _ end] => destruct o as [n|] end.
  - destruct (N.ltb_spec n 1); [done|]. destruct (N.ltb_spec (N.of_nat (length lines) + 1) n); [done|]. intros [= <-]. split; [lia|]. intros _. lia.
  - intros [= <-]. destruct (bool_decide _) eqn:E; [|split; [done|intros _; by left]]. apply bool_decide_eq_true in E.
    split; [lia|]. intros _. right. split; [done|]. destruct lines; [done|]. cbn. lia.
Qed.

Lemma step_good hunk st st' : hunk_ok hunk -> ps_lineIndex st <= length lines ->
  hunk_step lines allowFuzzy st hunk = inr st' -> step_good_from st st' hunk.
Proof.
  intros Hok Hi. unfold hunk_step. destruct (below_one _); [done|]. destruct (below_one _); [done|]. cbv zeta.
  set (aggressive := _ || dh_isEndOfFile hunk).
  set (i := match dh_oldStartLine hunk with Some n => _ | None => ps_lineIndex st end).
  assert (Hi' : i <= length lines).
  { unfold i. destruct (dh_oldStartLine hunk); [|done]. destruct (_ && _); [lia|done]. }
  clearbody i. set (placed := match dh_changeContext hunk with Some context => _ | None => _ end).
  assert (Hp : forall c j, placed = inr (c, j) -> (forall k, c = Some k -> k < length lines) /\ j <= length lines).
  { intros c j. unfold placed. destruct (dh_changeContext hunk); [by apply context_good|]. by intros [= <- <-]. }
  destruct placed as [e|[c j]]; [done|]. destruct (Hp c j eq_refl) as [Hc Hj]. clear Hp.
  destruct (Nat.eqb_spec (length (dh_oldLines hunk)) 0) as [E|Hne].
  - destruct (insertion_place lines hunk j) as [e|k] eqn:Ek; [done|]. apply insertion_good in Ek as [Hk Hadd]; [|done]. intros [= <-].
    split; [done|]. eexists (Some _). split; [|reflexivity]. destruct (dh_oldLines hunk) as [|] eqn:Eo; [|done].
    exists [], (dh_newLines hunk), k. split; [left; by rewrite Eo|]. split; [by apply fits_nil|]. cbn. repeat split; [apply same_text_refl|done].
  - apply commit_good; [done|by intros E; rewrite E in Hne|].
    apply (place_hunk_good lines allowFuzzy fits good_line); try done; [by destruct Hok|by intros E; rewrite E in Hne].
Qed.

Lemma steps_good todo st st' : Forall hunk_ok todo -> ps_lineIndex st <= length lines -> hunk_steps lines allowFuzzy st todo = inr st' ->
  exists per, Forall2 hunk_outcome todo per /\ ps_replacements st' = ps_replacements st ++ omap id per.
Proof.
  intros Hok. revert st. induction Hok as [|hunk todo Hh Hok IH]; intros st Hst; cbn [hunk_steps].
  { intros [= <-]. exists []. cbn. by rewrite app_nil_r. }
  destruct (hunk_step lines allowFuzzy st hunk) as [e|st1] eqn:E; [done|]. apply step_good in E as (Hi & o & Ho & Hr); [|done|done].
  intros (per & Hper & Hr')%IH; [|done]. exists (o :: per). split; [by constructor|]. rewrite Hr', Hr, <- (assoc_L app). by destruct o.
Qed.

Lemma outcome_range hunk r : hunk_outcome hunk (Some r) -> rp_startIndex r + rp_oldLen r <= length lines.
Proof. intros (old & new & i & _ & Hf & -> & -> & _). by apply fits_range. Qed.

Lemma replacements_good hunks rs warnings : Forall hunk_ok hunks ->
  computeReplacements lines hunks allowFuzzy = inr (rs, warnings) ->
  in_order 0 rs (length lines) /\ exists per, Forall2 hunk_outcome hunks per /\ rs ≡ₚ omap id per.
Proof.
  intros Hok. unfold computeReplacements. destruct (hunk_steps _ _ _ _) as [e|st] eqn:E; [done|]. cbv zeta.
  apply steps_good in E as (per & Hper & Hrs); [|done|cbn; lia]. cbn [ps_replacements app] in Hrs. rewrite Hrs.
  destruct (overlap _) as [[a b]|] eqn:Eo; [done|]. intros [= <- <-]. pose proof (sort_by_perm replacement_leb (omap id per)) as Hs.
  split; [|by exists per]. apply overlap_in_order; [done|lia|intros; lia|]. rewrite Hs. apply Forall_forall.
  intros r (o & Hin & Eo')%list_elem_of_omap. unfold id in Eo'. subst o. apply list_elem_of_lookup in Hin as [k Hk].
  destruct (Forall2_lookup_r _ _ _ _ _ Hper Hk) as (hunk & _ & Ho). by apply outcome_range in Ho.
Qed.
End steps.

(** ** The two modes *)

(** The lines from [i] on are those of the pattern, up to white space at their ends, comment marks or the Unicode form. *)
Definition reads_like `{FuzzyEnv} (lines p : list jsstring) (i : nat) : Prop :=
  exists f, f ∈ [fun l => l; trimEnd; trim; stripCommentPrefix; normalizeUnicode] /\ f <$> take (length p) (drop i lines) = f <$> p.

(** Where a pattern may be put: inside the file, and in the strict mode only where the lines read like it. *)
Definition fits_in `{FuzzyEnv} (lines : list jsstring) (allowFuzzy : bool) (p : list jsstring) (i : nat) : Prop :=
  i + length p <= length lines /\ (allowFuzzy = false -> reads_like lines p i).

(** The lines a fuzzy search can be relied on for: no line breaks, and not white space only. *)
Definition line_ok (allowFuzzy : bool) (l : jsstring) : Prop :=
  allowFuzzy = true -> Forall (fun c => c <> LF) l /\ (l = [] \/ trim l <> []).

Section modes.
Context `{FuzzyEnv}.

Lemma matches_map (f : jsstring -> jsstring) lines p i : matchesAt lines p i (fun a b => text_eqb (f a) (f b)) = true ->
  f <$> take (length p) (drop i lines) = f <$> p.
Proof.
  unfold matchesAt. generalize (drop i lines). induction p as [|x p IH]; intros [|l ls]; [done|done|done|].
  cbn [matches_from length]. intros [E%bool_decide_eq_true Hm]%andb_prop. cbn [take firstn]. rewrite !fmap_cons, E. f_equal. by apply IH.
Qed.

Lemma strict_passes lines p from to r : runExactPasses lines p false from to = Some r ->
  (forall i, sr_index r = Some i -> reads_like lines p i) /\ sr_matchIndices r = None.
Proof.
  unfold runExactPasses. destruct (first_some _) as [r'|] eqn:E; [|done]. intros [= ->].
  apply first_some_spec, list_elem_of_fmap in E as (pass & E & Hin). unfold toSingleMatchResult in E.
  destruct (im_firstMatch _) as [k|] eqn:Ek; [|done]. injection E as ->. split; [|done]. cbn [sr_index]. intros i [= <-].
  apply first_match_spec in Ek as [_ Hm]. unfold comparison_passes in Hin.
  repeat (apply elem_of_cons in Hin as [->|Hin]; [eexists; split; [|apply matches_map; exact Hm]; set_solver|]). by apply not_elem_of_nil in Hin.
Qed.

Lemma seek_fits lines allowFuzzy p start eof : (allowFuzzy = true -> native_agrees) -> no_lf lines -> p <> [] -> Forall (line_ok allowFuzzy) p ->
  placed_ok (fits_in lines allowFuzzy) p (seekSequence lines p start eof allowFuzzy).
Proof.
  intros Hn Hl Hne Hp. destruct allowFuzzy.
  - assert (Hs : found_ok lines p (seekSequence lines p start eof true)).
    { apply seek_solid; [by apply Hn|done| |done|]; (eapply Forall_impl; [exact Hp|]); intros l Hok; by apply Hok. }
    destruct Hs as [H1 H2]. split; [intros i Hi; split; [by apply (H1 i Hi)|done]|].
    intros l Hl'. eapply Forall_impl; [exact (H2 l Hl')|]. intros i Hi. by split.
  - unfold seekSequence. destruct (Nat.eqb_spec (length p) 0); [by destruct p|].
    assert (Hnone : placed_ok (fits_in lines false) p (not_found 0)) by (by split).
    destruct (Nat.ltb_spec (length lines) (length p)); [done|].
    assert (Hpass : forall from to r, runExactPasses lines p false from to = Some r -> placed_ok (fits_in lines false) p r).
    { intros from to r Hr. destruct (strict_passes _ _ _ _ _ Hr) as [H1 H2]. destruct (passes_ok _ _ _ _ _ _ Hne Hr) as [H3 _].
      split; [|by rewrite H2]. intros i Hi. split; [by apply (H3 i Hi)|]. intros _. by apply H1. }
    destruct (runExactPasses _ _ _ _ _) as [r|] eqn:E1; [by eapply Hpass|].
    set (second := if eof && _ then _ else None). destruct second as [r|] eqn:E2; [|done].
    unfold second in E2. destruct (eof && _); [|done]. by eapply Hpass.
Qed.

Lemma fits_in_nil lines allowFuzzy i : i <= length lines -> fits_in lines allowFuzzy [] i.
Proof. intros Hi. split; [cbn; lia|]. intros _. exists (fun l => l). split; [set_solver|done]. Qed.

Lemma fits_in_trim lines allowFuzzy l i : i < length lines -> trim (line_at lines i) = trim l -> fits_in lines allowFuzzy [l] i.
Proof.
  intros Hi E. split; [cbn; lia|]. intros _. exists trim. split; [set_solver|]. cbn [length].
  destruct (lookup_lt_is_Some_2 lines i Hi) as [x Hx]. rewrite (drop_S lines x i Hx). cbn. rewrite take_0. cbn. f_equal.
  rewrite <- E. unfold line_at. by rewrite (nth_lookup_Some lines i [] x Hx).
Qed.
End modes.

(** ** The whole text *)

(** The lines of a text without the empty one after a final newline. *)
Definition file_lines (content : jsstring) : list jsstring :=
  if ends_in_newline content then removelast (split_char LF content) else split_char LF content.

Lemma split_snoc s : split_char LF (s ++ [LF]) = split_char LF s ++ [[]].
Proof.
  induction s as [|c s IH]; [done|]. cbn [app split_char]. rewrite IH. destruct (c =? LF)%N; [done|].
  pose proof (split_char_nonempty LF s). by destruct (split_char LF s).
Qed.


(** The text of new lines, with the final newline the file had. *)
Definition file_text (final_newline : bool) (lines : list jsstring) : jsstring :=
  if final_newline then join [LF] lines ++ [LF] else strip_final_newlines (join [LF] lines).

Lemma lines_text content lines :
  let strippedTrailingEmpty := ends_in_newline content && bool_decide (last (split_char LF content) = Some []) in
  (if strippedTrailingEmpty then removelast (split_char LF content) else split_char LF content) = file_lines content
  /\ applyTrailingNewlinePolicy (join [LF] (if strippedTrailingEmpty then lines ++ [[]] else lines)) (ends_in_newline content)
     = file_text (ends_in_newline content) lines.
Proof.
  unfold file_lines, file_text, applyTrailingNewlinePolicy. destruct (ends_in_newline content) eqn:E; [|done].
  assert (bool_decide (last (split_char LF content) = Some []) = true) as ->.
  { apply bool_decide_eq_true in E. apply last_Some in E as (s & ->). apply bool_decide_eq_true. by rewrite split_snoc, last_snoc. }
  cbn [andb]. split; [done|]. destruct lines as [|l lines]; [done|].
  rewrite join_app by done. change (join [LF] [[]]) with (@nil N). rewrite app_nil_r.
  assert (ends_in_newline (join [LF] (l :: lines) ++ [LF]) = true) as ->; [|done].
  unfold ends_in_newline. apply bool_decide_eq_true. by rewrite last_snoc.
Qed.

Lemma file_lines_no_lf content : no_lf (file_lines content).
Proof.
  unfold file_lines. pose proof (split_char_pieces LF content) as Hp. destruct (ends_in_newline content); [|done].
  destruct (split_char LF content) as [|l ls] using rev_ind; [done|]. rewrite removelast_last. by apply Forall_app in Hp as [? _].
Qed.

Section whole.
Context `{FuzzyEnv}.

Lemma by_lines_spec content hunks allowFuzzy :
  apply_by_lines content hunks allowFuzzy
  = match computeReplacements (file_lines content) hunks allowFuzzy with
    | inl e => inl e
    | inr (rs, warnings) => inr (file_text (ends_in_newline content) (applyReplacements (file_lines content) rs), warnings)
    end.
Proof.
  unfold apply_by_lines. cbv zeta. rewrite (proj1 (lines_text content [])).
  destruct (computeReplacements _ _ _) as [e|[rs warnings]]; [done|]. by rewrite (proj2 (lines_text content _)).
Qed.

(** One hunk with nothing to place it by is a replacement of text. *)
Lemma character_replaces content hunk threshold allowFuzzy out warnings : (allowFuzzy = true -> native_agrees) ->
  applyCharacterMatch content hunk threshold allowFuzzy = inr (out, warnings) ->
  let text := normalizeToLF content in
  let old := normalizeToLF (join [LF] (dh_oldLines hunk)) in
  let new := join [LF] (dh_newLines hunk) in
  exists pre found post, text = pre ++ found ++ post /\ out = pre ++ adjustIndentation old found new ++ post
    /\ (allowFuzzy = false \/ is_Some (indexOf old text) ->
          found = old /\ count_occurrences old 0 text <= 1 /\ out = pre ++ new ++ post).
Proof.
  intros Hn. unfold applyCharacterMatch. cbv zeta. set (text := normalizeToLF content). set (old := normalizeToLF (join [LF] (dh_oldLines hunk))).
  set (chosen := if _ && _ && _ then _ else _).
  assert (Hc : exists th, chosen = findMatch text old allowFuzzy th).
  { unfold chosen. destruct (_ && _ && _); [destruct (bool_decide _)|]; by eexists. }
  clearbody chosen. destruct Hc as [th Hc]. destruct (1 <? _); [done|]. destruct (1 <? _); [done|].
  destruct (mo_match chosen) as [m|] eqn:Em; [|done]. intros [= <- _]. rewrite Hc in Em.
  assert (Hl : located text m /\ (allowFuzzy = false \/ is_Some (indexOf old text) -> fm_actualText m = old /\ count_occurrences old 0 text <= 1)).
  { destruct allowFuzzy.
    - destruct (match_located _ _ _ _ _ (Hn eq_refl) Em) as [Hl Hx]. split; [done|]. intros [?|[i Hi]]; [done|]. by apply (Hx i).
    - unfold findMatch in Em. destruct (bool_decide (old = [])); [done|]. unfold findExactMatchOutcome in Em.
      destruct (indexOf old text) as [n|] eqn:Ei.
      + destruct (Nat.ltb_spec 1 (count_occurrences old 0 text)); [done|]. injection Em as <-. split; [|done].
        apply indexOf_spec in Ei as (pre & post & Et & Hp). exists pre, post. done.
      + destruct (bf_best _); done. }
  destruct Hl as [Hl Hx]. destruct (located_replaced text m (adjustIndentation old (fm_actualText m) (join [LF] (dh_newLines hunk))) Hl) as (pre & post & Ht & Hr).
  unfold replace_match in Hr. exists pre, (fm_actualText m), post. split; [done|]. split; [done|].
  intros Ho. destruct (Hx Ho) as [He Hcount]. split; [done|]. split; [done|]. rewrite Hr, He. unfold adjustIndentation. by rewrite bool_decide_eq_true_2.
Qed.

(** The hunks by their lines. *)
Lemma lines_replaced content hunks allowFuzzy out warnings :
  (allowFuzzy = true -> native_agrees) -> Forall (hunk_ok (line_ok allowFuzzy)) hunks ->
  apply_by_lines content hunks allowFuzzy = inr (out, warnings) ->
  exists rs per, in_order 0 rs (length (file_lines content)) /\ rs ≡ₚ omap id per
    /\ Forall2 (hunk_outcome (file_lines content) (fits_in (file_lines content) allowFuzzy)) hunks per
    /\ out = file_text (ends_in_newline content) (patched 0 (file_lines content) rs).
Proof.
  intros Hn Hok. rewrite by_lines_spec. destruct (computeReplacements _ _ _) as [e|[rs w]] eqn:E; [done|]. intros [= <- <-].
  apply (replacements_good _ allowFuzzy (fits_in (file_lines content) allowFuzzy) (line_ok allowFuzzy)) in E as (Ho & per & Hper & Hrs).
  - exists rs, per. split; [done|]. split; [done|]. split; [done|]. by rewrite (apply_patched 0).
  - by intros p i [? _].
  - intros i. apply fits_in_nil.
  - intros l i. apply fits_in_trim.
  - intros p start eof. apply seek_fits; [done|apply file_lines_no_lf].
  - done.
Qed.

(** C9: A patch that is applied to a text changes nothing but the places it finds, and every hunk has
    its place.  A single hunk with nothing to place it by replaces one piece of the text by its new
    lines, indented like the text found there; if the old lines occur as they stand, or
    fuzzy matching is off, that piece is their only occurrence and the new lines are put in as written.
    Otherwise the hunks are applied by lines: each hunk, in one of its forms (itself,
    without a trailing empty line, or a reduced variant), goes to a range of the length of
    its old lines inside the file, and the range gets its new lines up to white space at
    their ends, unless they are the old ones; with fuzzy matching off the lines of the range read like
    the old lines, up to white space at their ends, comment marks or the Unicode form; a pure
    addition without context goes before the line of its number, or to the end.  The ranges do not overlap,
    the new text is the old one with exactly them replaced, and ends in a newline if the
    old one did.  Lines have no line breaks; with fuzzy matching on the native scorers agree with
    the ones of the source and no old line is of white space only: such a line may be found past
    the end of the file. *)
Theorem patch_replaces_ranges content hunks threshold allowFuzzy out warnings :
  Forall (hunk_ok (line_ok allowFuzzy)) hunks -> (allowFuzzy = true -> native_agrees) ->
  applyHunksToContent content hunks threshold allowFuzzy = inr (out, warnings) ->
  (exists hunk pre found post, hunks = [hunk] /\ is_simple_replace hunk = true /\
     let text := normalizeToLF content in
     let old := normalizeToLF (join [LF] (dh_oldLines hunk)) in
     let new := join [LF] (dh_newLines hunk) in
     text = pre ++ found ++ post
     /\ out = applyTrailingNewlinePolicy (pre ++ adjustIndentation old found new ++ post) (ends_in_newline content)
     /\ (allowFuzzy = false \/ is_Some (indexOf old text) ->
           found = old /\ count_occurrences old 0 text <= 1
           /\ out = applyTrailingNewlinePolicy (pre ++ new ++ post) (ends_in_newline content)))
  \/ (exists rs per, in_order 0 rs (length (file_lines content)) /\ rs ≡ₚ omap id per
       /\ Forall2 (hunk_outcome (file_lines content) (fits_in (file_lines content) allowFuzzy)) hunks per
       /\ out = file_text (ends_in_newline content) (patched 0 (file_lines content) rs)).
Proof.
  intros Hok Hn. unfold applyHunksToContent. destruct hunks as [|hunk [|]]; [right; by eapply lines_replaced| |right; by eapply lines_replaced].
  destruct (is_simple_replace hunk) eqn:Es; [|right; by eapply lines_replaced].
  destruct (applyCharacterMatch _ _ _ _) as [e|[c w]] eqn:Ec; [done|]. intros [= <- _]. left.
  apply character_replaces in Ec as (pre & found & post & Ht & Ho & Hx); [|done]. exists hunk, pre, found, post. cbv zeta.
  split; [done|]. split; [done|]. split; [done|]. split; [by rewrite Ho|]. intros H'. destruct (Hx H') as (? & ? & ->). done.
Qed.

(** ** Hunks that occur as they stand *)

(** A hunk placed by its lines alone, context lines among them. *)
Definition plain_hunk (hunk : DiffHunk) : Prop :=
  dh_changeContext hunk = None /\ dh_hasContextLines hunk = true /\ dh_isEndOfFile hunk = false /\ dh_oldLines hunk <> []
  /\ below_one (dh_oldStartLine hunk) = false /\ below_one (dh_newStartLine hunk) = false.

(** [exact_plan lines i hunks out]: each hunk's old lines occur exactly, first at or after
    the end of the one before; [out] is what is left from line [i] on. *)
Inductive exact_plan (lines : list jsstring) : nat -> list DiffHunk -> list jsstring -> Prop :=
| exact_done i : i <= length lines -> exact_plan lines i [] (drop i lines)
| exact_next i k hunk rest out :
    plain_hunk hunk -> i <= k -> matchesAt lines (dh_oldLines hunk) k text_eqb = true ->
    (forall j, i <= j < k -> matchesAt lines (dh_oldLines hunk) j text_eqb = false) ->
    exact_plan lines (k + length (dh_oldLines hunk)) rest out ->
    exact_plan lines i (hunk :: rest) (take (k - i) (drop i lines) ++ dh_newLines hunk ++ out).

Lemma matches_take lines pattern k : matchesAt lines pattern k text_eqb = true -> take (length pattern) (drop k lines) = pattern.
Proof.
  unfold matchesAt. generalize (drop k lines). clear lines k. induction pattern as [|p pattern IH]; intros [|l ls]; [done|done|done|].
  cbn [matches_from length]. intros [->%bool_decide_eq_true Hm]%andb_prop. cbn [take firstn]. f_equal. by apply IH.
Qed.

Lemma exact_sequence lines pattern i k hint allowFuzzy : pattern <> [] -> i <= k -> matchesAt lines pattern k text_eqb = true ->
  (forall j, i <= j < k -> matchesAt lines pattern j text_eqb = false) ->
  findSequenceWithHint lines pattern i hint false allowFuzzy = mkSearch (Some k) 1 None None (Some SExact).
Proof.
  intros Hne Hi Hm Hmin. unfold findSequenceWithHint. cbv zeta. rewrite (seek_exact lines pattern i allowFuzzy k) by done.
  change (many (mkSearch (Some k) 1 None None (Some SExact))) with false. cbn [andb found sr_index orb].
  destruct hint as [h|]; [|done]. by destruct (negb _).
Qed.

Lemma exact_step lines allowFuzzy st hunk k : plain_hunk hunk -> ps_lineIndex st <= k ->
  matchesAt lines (dh_oldLines hunk) k text_eqb = true ->
  (forall j, ps_lineIndex st <= j < k -> matchesAt lines (dh_oldLines hunk) j text_eqb = false) ->
  hunk_step lines allowFuzzy st hunk
  = inr (mkPatchState (k + length (dh_oldLines hunk))
           (ps_replacements st ++ (if bool_decide (dh_oldLines hunk = dh_newLines hunk) then []
                                   else [mkReplacement k (length (dh_oldLines hunk)) (dh_newLines hunk)])) (ps_warnings st)).
Proof.
  intros (Hc & Hh & He & Hne & Hb1 & Hb2) Hi Hm Hmin. unfold hunk_step. rewrite Hb1, Hb2, Hc, Hh. cbv zeta.
  assert (match dh_oldStartLine hunk with
          | Some n => if negb (bool_decide (is_Some (@None jsstring))) && negb true then Nat.min (N.to_nat n - 1) (length lines - 1)
                      else ps_lineIndex st
          | None => ps_lineIndex st end = ps_lineIndex st) as ->.
  { rewrite andb_false_r. by destruct (dh_oldStartLine hunk). }
  destruct (Nat.eqb_spec (length (dh_oldLines hunk)) 0) as [E|_]; [by destruct (dh_oldLines hunk)|].
  assert (place_hunk lines hunk (hunk_variants hunk) None (ps_lineIndex st) allowFuzzy
          = mkPlace (dh_oldLines hunk) (dh_newLines hunk) (mkSearch (Some k) 1 None None (Some SExact))) as ->.
  { unfold place_hunk, place_lines_first. cbv zeta. rewrite He.
    rewrite (exact_sequence lines (dh_oldLines hunk) (ps_lineIndex st) k) by done. done. }
  unfold commit_place. cbn [hp_result hp_pattern hp_newSlice sr_index sr_strategy]. rewrite Hh.
  change (many (mkSearch (Some k) 1 None None (Some SExact))) with false. rewrite (bool_decide_eq_false_2 (Some SExact = _)) by done.
  rewrite andb_false_r. cbn [andb]. cbv zeta. cbn iota.
  destruct (bool_decide (dh_oldLines hunk = dh_newLines hunk)); [by rewrite app_nil_r|].
  do 4 f_equal. rewrite (matches_take lines (dh_oldLines hunk) k Hm). f_equal.
  unfold adjustLinesIndentation, areEqualLines. destruct (_ || _); [done|]. by rewrite bool_decide_eq_true_2.
Qed.

Lemma patched_skip a b lines rs n : in_order b rs n -> a <= b -> patched a lines rs = take (b - a) (drop a lines) ++ patched b lines rs.
Proof.
  intros Ho Hab. destruct rs as [|r rs]; cbn [patched in_order] in *.
  - replace (drop b lines) with (drop (b - a) (drop a lines)) by (rewrite drop_drop; f_equal; lia). by rewrite take_drop.
  - destruct Ho as [Hb _]. rewrite (assoc_L app (take (b - a) (drop a lines))). f_equal.
    replace (drop b lines) with (drop (b - a) (drop a lines)) by (rewrite drop_drop; f_equal; lia).
    rewrite take_take_drop. f_equal. lia.
Qed.

Lemma exact_steps lines allowFuzzy i hunks out st : exact_plan lines i hunks out -> ps_lineIndex st = i ->
  exists rs, hunk_steps lines allowFuzzy st hunks
             = inr (mkPatchState (ps_lineIndex (match hunk_steps lines allowFuzzy st hunks with inr s => s | inl _ => st end))
                      (ps_replacements st ++ rs) (ps_warnings st))
    /\ in_order i rs (length lines) /\ patched i lines rs = out.
Proof.
  intros Hp. revert st. induction Hp as [i Hi|i k hunk rest out Hh Hk Hm Hmin Hp IH]; intros st Hst.
  { exists []. cbn. rewrite app_nil_r. by destruct st. }
  cbn [hunk_steps]. rewrite (exact_step lines allowFuzzy st hunk k) by (rewrite ?Hst; done).
  set (st1 := mkPatchState _ _ _). destruct (IH st1 eq_refl) as (rs & Hs & Ho & Hpt).
  set (mine := if bool_decide _ then [] else [_]) in st1. exists (mine ++ rs).
  rewrite Hs. unfold st1. cbn [ps_replacements ps_warnings ps_lineIndex]. rewrite <- (assoc_L app). split; [done|].
  pose proof (matchesAt_range lines (dh_oldLines hunk) k text_eqb (proj1 (proj2 (proj2 (proj2 Hh)))) Hm) as Hr.
  unfold mine. destruct (bool_decide _) eqn:E; cbn [app].
  - apply bool_decide_eq_true in E. split.
    + destruct rs as [|r rs]; cbn [in_order] in *; [lia|]. split; [lia|]. by destruct Ho.
    + rewrite (patched_skip i (k + length (dh_oldLines hunk)) lines rs (length lines)) by (done || lia). rewrite Hpt, <- E.
      rewrite (assoc_L app). f_equal. rewrite <- (matches_take lines (dh_oldLines hunk) k Hm) at 2.
      replace (drop k lines) with (drop (k - i) (drop i lines)) by (rewrite drop_drop; f_equal; lia).
      rewrite take_take_drop. f_equal. lia.
  - cbn [in_order patched rp_startIndex rp_oldLen rp_newLines]. split; [done|]. by rewrite Hpt.
Qed.

Lemma in_order_sorted at_ rs n : in_order at_ rs n ->
  Forall (fun r => at_ <= rp_startIndex r) rs /\ StronglySorted (fun a b => replacement_leb a b = true) rs /\ overlap rs = None.
Proof.
  revert at_. induction rs as [|r rs IH]; intros at_; [by repeat constructor|]. intros [Hr Ho].
  destruct (IH _ Ho) as (Hall & Hsort & Hov). split; [|split].
  - constructor; [done|]. eapply Forall_impl; [exact Hall|]. intros b Hb. cbn beta in *. lia.
  - constructor; [done|]. eapply Forall_impl; [exact Hall|]. intros b Hb. apply Nat.leb_le. cbn beta in *. lia.
  - destruct rs as [|next rs]; [done|]. cbn [overlap]. inversion Hall; subst.
    destruct (Nat.ltb_spec (rp_startIndex next) (rp_startIndex r + rp_oldLen r)); [lia|done].
Qed.

Lemma exact_hunks_exact content hunks out fuzzyThreshold allowFuzzy :
  exact_plan (file_lines content) 0 hunks out ->
  applyHunksToContent content hunks fuzzyThreshold allowFuzzy = inr (file_text (ends_in_newline content) out, []).
Proof.
  intros Hp. assert (applyHunksToContent content hunks fuzzyThreshold allowFuzzy = apply_by_lines content hunks allowFuzzy) as ->.
  { unfold applyHunksToContent. inversion Hp as [|? ? hunk rest ? (_ & Hh & _)]; subst; [done|]. destruct rest; [|done].
    unfold is_simple_replace. rewrite Hh. by rewrite andb_false_r. }
  rewrite by_lines_spec. unfold computeReplacements.
  destruct (exact_steps (file_lines content) allowFuzzy 0 hunks out (mkPatchState 0 [] []) Hp eq_refl) as (rs & -> & Ho & Hpt).
  cbn [ps_replacements ps_warnings app]. destruct (in_order_sorted _ _ _ Ho) as (_ & Hsort & Hov).
  rewrite sort_by_sorted_id by done. rewrite Hov. rewrite (apply_patched 0) by done. rewrite Hpt. done.
Qed.

(** A patch whose lines occur in the file as they stand does exactly what it says.  When
    every hunk has context lines and no other placement, and its old lines occur exactly
    -- first where the plan says, at or after the end of the hunk before -- the new text
    is the old one with each hunk's old lines replaced by its new lines as written, in
    order, without warnings, whatever scores and thresholds are in force. *)
Theorem exact_hunks_apply content hunks out fuzzyThreshold allowFuzzy :
  exact_plan (file_lines content) 0 hunks out ->
  applyHunksToContent content hunks fuzzyThreshold allowFuzzy = inr (file_text (ends_in_newline content) out, []).
Proof. apply exact_hunks_exact. Qed.
End whole.

(** ** Sample patches *)

#[local] Existing Instance sample_env.

Definition sample_content : jsstring := join [LF] [js "def f():"; js "    a = 1"; js "    b = 2"; js "end"; []].

(** Written without the indentation of the file. *)
Definition sample_shifted : DiffHunk :=
  mkHunk None None None true [js "a = 1"; js "b = 2"] [js "a = 1"; js "b = 3"; js "c = 4"] false.

Definition sample_exact : DiffHunk :=
  mkHunk None None None true [js "def f():"; js "    a = 1"] [js "def f():"; js "    a = 7"] false.

Definition sample_result : jsstring := join [LF] [js "def f():"; js "    a = 1"; js "    b = 3"; js "    c = 4"; js "end"; []].

Lemma patch_replaces_ranges_witness :
  applyHunksToContent sample_content [sample_shifted] DEFAULT_FUZZY_THRESHOLD true = inr (sample_result, [])
  /\ exists rs per, in_order 0 rs (length (file_lines sample_content)) /\ rs ≡ₚ omap id per
       /\ Forall2 (hunk_outcome (file_lines sample_content) (fits_in (file_lines sample_content) true)) [sample_shifted] per
       /\ sample_result = file_text (ends_in_newline sample_content) (patched 0 (file_lines sample_content) rs).
Proof.
  assert (H : applyHunksToContent sample_content [sample_shifted] DEFAULT_FUZZY_THRESHOLD true = inr (sample_result, [])) by (vm_compute; reflexivity).
  split; [exact H|].
  destruct (patch_replaces_ranges sample_content [sample_shifted] DEFAULT_FUZZY_THRESHOLD true sample_result []) as [(hunk & pre & found & post & [= <-] & Hs & _)|Hr].
  - apply Forall_singleton. split; [|by apply (bool_decide_unpack _); vm_compute].
    apply (Forall_impl (fun l => Forall (fun c => c <> LF) l /\ (l = [] \/ trim l <> []))); [by apply (bool_decide_unpack _); vm_compute|by intros l Hl _].
  - intros _. exact sample_agrees.
  - exact H.
  - discriminate Hs.
  - exact Hr.
Defined.

Lemma exact_hunks_apply_witness :
  applyHunksToContent sample_content [sample_exact] DEFAULT_FUZZY_THRESHOLD true
  = inr (file_text (ends_in_newline sample_content) [js "def f():"; js "    a = 7"; js "    b = 2"; js "end"], []).
Proof.
  apply (exact_hunks_apply sample_content [sample_exact] [js "def f():"; js "    a = 7"; js "    b = 2"; js "end"]).
  refine (exact_next _ 0 0 sample_exact [] [js "    b = 2"; js "end"] _ _ _ _ _).
  - repeat split; discriminate.
  - lia.
  - vm_compute. reflexivity.
  - lia.
  - change [js "    b = 2"; js "end"] with (drop (0 + length (dh_oldLines sample_exact)) (file_lines sample_content)).
    apply exact_done. apply Nat.leb_le. vm_compute. reflexivity.
Defined.

(** A context line that the file continues is cut: the match by prefixes takes the whole
    line, and the line of the hunk replaces it. *)
Example context_line_cut :
  apply_by_lines (join [LF] [js "import os  # needed below"; js "x = 1"; []])
    [mkHunk None None None true [js "import os"; js "x = 1"] [js "import os"; js "x = 2"] false] true
  = inr (join [LF] [js "import os"; js "x = 2"; []], []).
Proof. vm_compute. reflexivity. Qed.

(** The warning about a dominant match is never given when one hunk is applied by
    characters: such a match is counted, and refused, before. *)
Lemma character_match_no_warning `{FuzzyEnv} content hunk threshold allowFuzzy out warnings :
  applyCharacterMatch content hunk threshold allowFuzzy = inr (out, warnings) -> warnings = [].
Proof.
  unfold applyCharacterMatch. cbv zeta.
  assert (Hd : forall c t th o, findMatch c t allowFuzzy th = o -> mo_dominantFuzzy o = true -> 1 < default 0 (mo_fuzzyMatches o)).
  { intros c t th o <-. unfold findMatch. destruct (bool_decide _); [done|].
    destruct (findExactMatchOutcome c t) as [o|] eqn:E.
    { unfold findExactMatchOutcome in E. destruct (indexOf t c); [|done]. destruct (1 <? _); by injection E as <-. }
    destruct (bf_best _) as [b|]; [|done]. destruct (_ && _); [done|]. destruct (_ && _) eqn:E2; [|done].
    intros _. cbn. apply andb_prop in E2 as [[[_ E2]%andb_prop _]%andb_prop _]. by apply Nat.ltb_lt in E2. }
  set (chosen := if _ && _ && _ then _ else _).
  assert (Hc : mo_dominantFuzzy chosen = true -> 1 < default 0 (mo_fuzzyMatches chosen)).
  { unfold chosen. destruct (_ && _ && _); [destruct (bool_decide _)|]; by eapply Hd. }
  clearbody chosen. destruct (1 <? _); [done|]. destruct (Nat.ltb_spec 1 (default 0 (mo_fuzzyMatches chosen))); [done|].
  destruct (mo_match chosen); [|done]. destruct (mo_dominantFuzzy chosen); [specialize (Hc eq_refl); lia|]. by intros [= _ <-].
Qed.
