(* ===== verification/PatchFiles.v ===== *)
(** * Patches on files (edit/modes/patch.ts, edit/apply-patch/, edit/modes/apply-patch.ts)

    One patch operation on a disk -- create, delete, or update with an optional move --
    and the envelope that carries several.  A disk maps resolved paths to files; what the
    runtime makes of a file (its text, its first bytes), what a write leaves, also when it
    fails half way, and which system calls fail are the runtime's.  Every [await] of the
    code is a point where other writers may act: between two system calls of an operation
    the disk goes through an arbitrary function. *)

From Stdlib Require Import QArith.
From S2P Require Import Prelude JsText TextNormalize Indentation Levenshtein FuzzyMatch DiffHunks PatchIndent PatchVariants PatchApply.

Local Open Scope nat_scope.

Inductive Operation := OpCreate | OpDelete | OpUpdate.

#[global] Instance Operation_eq_dec : EqDecision Operation.
Proof. solve_decision. Defined.

Record PatchInput := mkInput {
  pi_path : jsstring;
  pi_op : Operation;
  pi_rename : option jsstring;
  pi_diff : option jsstring
}.

#[global] Instance PatchInput_eq_dec : EqDecision PatchInput.
Proof. solve_decision. Defined.

Record FileChange := mkChange {
  fc_type : Operation;
  fc_path : jsstring;
  fc_newPath : option jsstring;
  fc_oldContent : option jsstring;
  fc_newContent : option jsstring
}.

Record ApplyPatchResult := mkApplied { ar_change : FileChange; ar_warnings : list PatchWarning }.

Inductive PatchFileError :=
| SamePath
| CreateNeedsDiff
| UpdateNeedsDiff
| FileNotFound
| ReadFailed
| BadDiff (e : HunkError)
| NoHunks
| BadHunk (e : HunkApplyError)
| ConcurrentEdit
| MkdirFailed
| WriteFailed
| DeleteFailed.

(** The runtime: path resolution, parent directories, reading and writing of files.
    [written path content] is the file a write leaves, when it succeeds; [torn] what a write
    that fails leaves of the file that was there. *)
Class PatchEnv (File : Type) := {
  resolveToCwd : jsstring -> jsstring;
  dirname : jsstring -> jsstring;
  read_file_text : jsstring -> File -> option jsstring;
  has_bom_bytes : option (File -> bool);
  written : jsstring -> jsstring -> option File;
  torn : jsstring -> jsstring -> option File -> option File;
  mkdir_fails : jsstring -> bool;
  delete_fails : jsstring -> bool
}.

(** [input.rename] and [input.diff] where an empty string counts as missing. *)
Definition truthy (s : option jsstring) : option jsstring := match s with Some t => nonempty t | None => None end.

(** ** One operation *)

Section files.
Context `{FuzzyEnv} {File : Type} `{!PatchEnv File}.

#[local] Abbreviation Disk := (gmap jsstring File).

Definition readExistingPatchFile (disk : Disk) (absolutePath : jsstring) : PatchFileError + jsstring :=
  match disk !! absolutePath with
  | None => inl FileNotFound
  | Some file => match read_file_text absolutePath file with Some text => inr text | None => inl ReadFailed end
  end.

(** The parent directory, then the file. *)
Definition mkdir_parent (path : jsstring) : option PatchFileError :=
  let parentDir := dirname path in
  if negb (bool_decide (parentDir = [])) && negb (bool_decide (parentDir = js ".")) && mkdir_fails parentDir
  then Some MkdirFailed else None.

Definition write_file (disk : Disk) (path content : jsstring) : option PatchFileError * Disk :=
  match written path content with
  | Some file => (None, <[path := file]> disk)
  | None => (Some WriteFailed, partial_alter (torn path content) path disk)
  end.

Definition delete_file (disk : Disk) (path : jsstring) : option PatchFileError * Disk :=
  if delete_fails path then (Some DeleteFailed, disk) else (None, delete path disk).

(** [others] acts while the directory is made, before the write begins. *)
Definition write_with_parent (others : Disk -> Disk) (disk : Disk) (path content : jsstring) : option PatchFileError * Disk :=
  match mkdir_parent path with Some e => (Some e, disk) | None => write_file (others disk) path content end.

Definition with_newline (content : jsstring) : jsstring := if ends_in_newline content then content else content ++ [LF].

(** The end of an operation: the error of its last call, or its result. *)
Definition finish (result : ApplyPatchResult) (r : option PatchFileError * Disk) : (PatchFileError + ApplyPatchResult) * Disk :=
  match r with (Some e, disk) => (inl e, disk) | (None, disk) => (inr result, disk) end.

Definition apply_create (input : PatchInput) (absolutePath : jsstring) (dryRun : bool) (others : nat -> Disk -> Disk) (disk : Disk) :
    (PatchFileError + ApplyPatchResult) * Disk :=
  match truthy (pi_diff input) with
  | None => (inl CreateNeedsDiff, disk)
  | Some diff =>
      let content := with_newline (normalizeCreateContent diff) in
      let result := mkApplied (mkChange OpCreate absolutePath None None (Some content)) [] in
      if dryRun then (inr result, disk)
      else finish result (write_with_parent (others 0) disk absolutePath content)
  end.

Definition apply_delete (absolutePath : jsstring) (dryRun : bool) (others : nat -> Disk -> Disk) (disk : Disk) :
    (PatchFileError + ApplyPatchResult) * Disk :=
  match readExistingPatchFile disk absolutePath with
  | inl e => (inl e, disk)
  | inr oldContent =>
      let result := mkApplied (mkChange OpDelete absolutePath None (Some oldContent) None) [] in
      if dryRun then (inr result, disk)
      else finish result (delete_file (others 0 disk) absolutePath)
  end.

(** The bytes of the file start with the UTF-8 mark; a file that is gone cannot be read. *)
Definition bom_from_bytes (disk : Disk) (path : jsstring) : PatchFileError + jsstring :=
  match has_bom_bytes with
  | None => inr []
  | Some has_bom => match disk !! path with Some file => inr (if has_bom file then [65279%N] else []) | None => inl ReadFailed end
  end.

(** The new text of an update; the first bytes are read from the disk as it then is. *)
Definition updated_content (disk : Disk) (absolutePath originalContent diff : jsstring) (fuzzyThreshold : Q) (allowFuzzy : bool) :
    PatchFileError + (jsstring * list PatchWarning) :=
  let '(bomFromText, strippedContent) := stripBom originalContent in
  match (if bool_decide (bomFromText = []) then bom_from_bytes disk absolutePath else inr bomFromText) with
  | inl e => inl e
  | inr bom =>
      let lineEnding := detectLineEnding strippedContent in
      let normalizedContent := normalizeToLF strippedContent in
      match parseDiffHunks diff with
      | Some (inr []) => inl NoHunks
      | Some (inr hunks) =>
          match applyHunksToContent normalizedContent hunks fuzzyThreshold allowFuzzy with
          | inl e => inl (BadHunk e)
          | inr (newContent, warnings) => inr (bom ++ restoreLineEndings newContent lineEnding, warnings)
          end
      | Some (inl e) => inl (BadDiff e)
      | None => inl NoHunks (* never: every diff is read to its end *)
      end
  end.

(** The commit of an update: the file is read again and must still have the text that was
    read first; the write is a further call, and so is the removal of the source of a move. *)
Definition commit_update (others : nat -> Disk -> Disk) (disk : Disk) (absolutePath : jsstring) (destPath : option jsstring)
    (originalContent finalContent : jsstring) : option PatchFileError * Disk :=
  match readExistingPatchFile disk absolutePath with
  | inl e => (Some e, disk)
  | inr commitContent =>
      if negb (bool_decide (commitContent = originalContent)) then (Some ConcurrentEdit, disk)
      else
        match destPath with
        | Some dest =>
            match write_with_parent (others 2) disk dest finalContent with
            | (Some e, disk1) => (Some e, disk1)
            | (None, disk1) => delete_file (others 3 disk1) absolutePath
            end
        | None => write_file (others 2 disk) absolutePath finalContent
        end
  end.

(** [others] is what other writers do while the operation waits: after its read, after it
    has read the first bytes, after its second read, and after the write of a move. *)
Definition apply_update (input : PatchInput) (absolutePath : jsstring) (dryRun : bool) (fuzzyThreshold : Q) (allowFuzzy : bool)
    (others : nat -> Disk -> Disk) (disk : Disk) : (PatchFileError + ApplyPatchResult) * Disk :=
  match truthy (pi_diff input) with
  | None => (inl UpdateNeedsDiff, disk)
  | Some diff =>
      match readExistingPatchFile disk absolutePath with
      | inl e => (inl e, disk)
      | inr originalContent =>
          let disk1 := others 0 disk in
          match updated_content disk1 absolutePath originalContent diff fuzzyThreshold allowFuzzy with
          | inl e => (inl e, disk1)
          | inr (finalContent, warnings) =>
              let destPath := match truthy (pi_rename input) with
                              | Some rename => let dest := resolveToCwd rename in
                                               if bool_decide (dest = absolutePath) then None else Some dest
                              | None => None
                              end in
              let result := mkApplied (mkChange OpUpdate absolutePath destPath (Some originalContent) (Some finalContent)) warnings in
              if dryRun then (inr result, disk1)
              else finish result (commit_update others (others 1 disk1) absolutePath destPath originalContent finalContent)
          end
      end
  end.

Definition applyNormalizedPatch (input : PatchInput) (dryRun : bool) (fuzzyThreshold : Q) (allowFuzzy : bool)
    (others : nat -> Disk -> Disk) (disk : Disk) : (PatchFileError + ApplyPatchResult) * Disk :=
  let absolutePath := resolveToCwd (pi_path input) in
  let renames_to_itself := match truthy (pi_rename input) with
                           | Some rename => bool_decide (resolveToCwd rename = absolutePath)
                           | None => false
                           end in
  if renames_to_itself then (inl SamePath, disk)
  else
    match pi_op input with
    | OpCreate => apply_create input absolutePath dryRun others disk
    | OpDelete => apply_delete absolutePath dryRun others disk
    | OpUpdate => apply_update input absolutePath dryRun fuzzyThreshold allowFuzzy others disk
    end.

(** The paths an operation locks; the work under the locks is [applyNormalizedPatch]. *)
Definition mutation_paths (input : PatchInput) : list jsstring :=
  let absolutePath := resolveToCwd (pi_path input) in
  absolutePath :: match truthy (pi_rename input) with
                  | Some rename => if bool_decide (resolveToCwd rename = absolutePath) then [] else [resolveToCwd rename]
                  | None => []
                  end.

Definition previewPatch (input : PatchInput) (fuzzyThreshold : Q) (allowFuzzy : bool) (others : nat -> Disk -> Disk) (disk : Disk) :
    (PatchFileError + ApplyPatchResult) * Disk :=
  applyNormalizedPatch input true fuzzyThreshold allowFuzzy others disk.

(** ** Safety *)

(** The disk after the first [k] turns of the other writers, when the operation itself has
    written nothing. *)
Fixpoint seen (others : nat -> Disk -> Disk) (disk : Disk) (k : nat) : Disk :=
  match k with O => disk | S k => others k (seen others disk k) end.

(** A write that succeeded, and one that failed: no other path is touched. *)
Definition wrote (disk disk' : Disk) (path content : jsstring) : Prop :=
  exists file, written path content = Some file /\ disk' = <[path := file]> disk.

Definition half_wrote (disk disk' : Disk) (path : jsstring) : Prop := forall p, p <> path -> disk' !! p = disk !! p.

Lemma write_file_spec disk path content r disk' : write_file disk path content = (r, disk') ->
  match r with None => wrote disk disk' path content | Some e => e = WriteFailed /\ half_wrote disk disk' path end.
Proof.
  unfold write_file. destruct (written path content) as [f|] eqn:E; intros [= <- <-]; [by exists f|].
  split; [done|]. intros p Hp. by apply lookup_partial_alter_ne.
Qed.

Lemma write_parent_spec others disk path content r disk' : write_with_parent others disk path content = (r, disk') ->
  match r with
  | None => wrote (others disk) disk' path content
  | Some e => disk' = disk \/ (e = WriteFailed /\ half_wrote (others disk) disk' path)
  end.
Proof.
  unfold write_with_parent. destruct (mkdir_parent path); [intros [= <- <-]; by left|]. intros Hw%write_file_spec. destruct r; auto.
Qed.

(** How an operation that fails can leave the disk. *)
Definition left_by_failure (others : nat -> Disk -> Disk) (disk : Disk) (paths : list jsstring) (source : jsstring)
    (e : PatchFileError) (disk' : Disk) : Prop :=
  (exists k, disk' = seen others disk k)
  \/ (e = WriteFailed /\ exists k path, path ∈ paths /\ half_wrote (seen others disk k) disk' path)
  \/ (e = DeleteFailed /\ exists dest content disk1, dest ∈ paths /\ dest <> source
        /\ wrote (seen others disk 3) disk1 dest content /\ disk' = others 3 disk1).

(** What a commit leaves: nothing of its own unless the second read gave the text of the first. *)
Lemma commit_spec others disk path dest original final r disk' :
  (forall d, dest = Some d -> d <> path) ->
  commit_update others (seen others disk 2) path dest original final = (r, disk') ->
  match r with
  | Some e => left_by_failure others disk (path :: match dest with Some d => [d] | None => [] end) path e disk'
  | None =>
      readExistingPatchFile (seen others disk 2) path = inr original
      /\ match dest with
         | Some d => exists disk1, wrote (seen others disk 3) disk1 d final /\ disk' = delete path (others 3 disk1)
         | None => wrote (seen others disk 3) disk' path final
         end
  end.
Proof.
  intros Hdest. unfold commit_update. destruct (readExistingPatchFile _ path) as [e|text]; [intros [= <- <-]; left; by exists 2|].
  destruct (bool_decide (text = original)) eqn:Et; cbn [negb]; [|intros [= <- <-]; left; by exists 2].
  apply bool_decide_eq_true in Et as ->. destruct dest as [d|].
  - destruct (write_with_parent _ _ _ _) as [[e|] disk1] eqn:Ew; apply write_parent_spec in Ew.
    + intros [= <- <-]. destruct Ew as [->|[-> Ew]]; [left; by exists 2|]. right. left. split; [done|].
      exists 3, d. split; [set_solver|exact Ew].
    + unfold delete_file. destruct (delete_fails path); intros [= <- <-]; [|split; [done|by exists disk1]].
      right. right. split; [done|]. exists d, final, disk1. split; [set_solver|]. split; [by apply Hdest|]. done.
  - intros Hw%write_file_spec. destruct r as [e|]; [|done]. destruct Hw as [-> Hw]. right. left. split; [done|].
    exists 3, path. split; [set_solver|exact Hw].
Qed.

(** What an operation may do, by its result. *)
Definition operation_safe (input : PatchInput) (dryRun : bool) (others : nat -> Disk -> Disk) (disk : Disk)
    (r : PatchFileError + ApplyPatchResult) (disk' : Disk) : Prop :=
  let path := resolveToCwd (pi_path input) in
  match r with
  | inl e => left_by_failure others disk (mutation_paths input) path e disk' /\ (dryRun = true -> exists k, disk' = seen others disk k)
  | inr res =>
      if dryRun then exists k, disk' = seen others disk k
      else
        match pi_op input with
        | OpCreate => exists content, fc_newContent (ar_change res) = Some content /\ wrote (seen others disk 1) disk' path content
        | OpDelete => disk' = delete path (seen others disk 1)
        | OpUpdate =>
            exists original final,
              fc_oldContent (ar_change res) = Some original /\ fc_newContent (ar_change res) = Some final
              /\ readExistingPatchFile disk path = inr original /\ readExistingPatchFile (seen others disk 2) path = inr original
              /\ (seen others disk 3 !! path = seen others disk 2 !! path -> readExistingPatchFile (seen others disk 3) path = inr original)
              /\ match fc_newPath (ar_change res) with
                 | Some dest => dest <> path /\ dest ∈ mutation_paths input
                     /\ exists disk1, wrote (seen others disk 3) disk1 dest final /\ disk' = delete path (others 3 disk1)
                 | None => wrote (seen others disk 3) disk' path final
                 end
        end
  end.

(** An operation that has written nothing when it ends. *)
Ltac nothing_written k := intros [= <- <-]; (split; [left|]; by exists k) || (by exists k).

Lemma create_safe input dryRun others disk r disk' : pi_op input = OpCreate ->
  apply_create input (resolveToCwd (pi_path input)) dryRun others disk = (r, disk') -> operation_safe input dryRun others disk r disk'.
Proof.
  intros Hop. unfold apply_create, operation_safe. cbv zeta. rewrite Hop. destruct (truthy (pi_diff input)) as [diff|]; [|nothing_written 0].
  destruct dryRun; [nothing_written 0|]. destruct (write_with_parent _ _ _ _) as [[e|] d] eqn:E; apply write_parent_spec in E.
  - intros [= <- <-]. split; [|done]. destruct E as [->|[-> Hw]]; [left; by exists 0|]. right. left. split; [done|].
    exists 1, (resolveToCwd (pi_path input)). split; [unfold mutation_paths; set_solver|exact Hw].
  - intros [= <- <-]. by eexists.
Qed.

Lemma delete_safe input dryRun others disk r disk' : pi_op input = OpDelete ->
  apply_delete (resolveToCwd (pi_path input)) dryRun others disk = (r, disk') -> operation_safe input dryRun others disk r disk'.
Proof.
  intros Hop. unfold apply_delete, operation_safe. cbv zeta. rewrite Hop. destruct (readExistingPatchFile _ _) as [e|old]; [nothing_written 0|].
  destruct dryRun; [nothing_written 0|]. unfold delete_file. destruct (delete_fails _); [nothing_written 1|]. by intros [= <- <-].
Qed.

Lemma update_safe input dryRun fuzzyThreshold allowFuzzy others disk r disk' : pi_op input = OpUpdate ->
  apply_update input (resolveToCwd (pi_path input)) dryRun fuzzyThreshold allowFuzzy others disk = (r, disk') ->
  operation_safe input dryRun others disk r disk'.
Proof.
  intros Hop. unfold apply_update, operation_safe, mutation_paths. cbv zeta. rewrite Hop. set (path := resolveToCwd (pi_path input)).
  destruct (truthy (pi_diff input)) as [diff|]; [|nothing_written 0].
  destruct (readExistingPatchFile disk path) as [e|original] eqn:Er; [nothing_written 0|].
  destruct (updated_content _ _ _ _ _ _) as [e|[final warnings]]; [nothing_written 1|].
  set (dest := match truthy (pi_rename input) with Some _ => _ | None => None end).
  set (more := match truthy (pi_rename input) with Some _ => _ | None => [] end).
  assert (Hdest : forall d, dest = Some d -> d <> path).
  { unfold dest. intros d. destruct (truthy (pi_rename input)); [|done]. case_bool_decide; [done|]. by intros [= <-]. }
  assert (more = match dest with Some d => [d] | None => [] end) as ->.
  { unfold more, dest. destruct (truthy (pi_rename input)); [|done]. by case_bool_decide. }
  destruct dryRun; [nothing_written 1|].
  destruct (commit_update _ _ _ _ _ _) as [r' d'] eqn:Ec. apply (commit_spec _ disk) in Ec; [|done].
  destruct r' as [e|]; intros [= <- <-]; [by split|]. destruct Ec as [Hr Hd]. exists original, final. do 4 (split; [done|]).
  split; [intros Hsame; revert Hr; unfold readExistingPatchFile; by rewrite <- Hsame|].
  cbn [ar_change fc_newPath]. destruct dest as [d|]; [|exact Hd]. split; [by apply Hdest|]. split; [set_solver|exact Hd].
Qed.

(** C10: A patch operation writes only what it reports, whatever other writers do to the
    disk at each point where the operation waits ([seen k] is the disk after their first
    [k] turns).  A preview writes nothing.  An operation that fails writes nothing either,
    except that a write which fails half way may have spoilt the one path it was writing,
    and that a move whose last step, removing the source, fails has written its
    destination.  An operation that succeeds wrote the reported text to the reported place
    and nothing else.  An update that succeeds had read the same text twice, at its start
    and just before its write; the second read and the write are two calls, so the text it
    replaces is the one it read provided no other writer changed that file in between. *)
Theorem patch_writes_safely input dryRun fuzzyThreshold allowFuzzy others disk r disk' :
  applyNormalizedPatch input dryRun fuzzyThreshold allowFuzzy others disk = (r, disk') ->
  operation_safe input dryRun others disk r disk'.
Proof.
  unfold applyNormalizedPatch. cbv zeta. destruct (match truthy (pi_rename input) with Some _ => _ | None => _ end).
  { nothing_written 0. }
  destruct (pi_op input) eqn:Hop; [by apply create_safe|by apply delete_safe|by apply update_safe].
Qed.
End files.

(** ** A sample disk *)

#[local] Instance plain_env : FuzzyEnv := {| nfc := fun s => s; findBestFuzzyMatchNative := None; scoreSequenceFuzzyNative := None |}.

(** Files are their texts; every call succeeds. *)
#[local] Instance sample_files : PatchEnv jsstring :=
  {| resolveToCwd := fun path => js "/work/" ++ path;
     dirname := fun _ => js "/work";
     read_file_text := fun _ file => Some file;
     has_bom_bytes := None;
     written := fun _ content => Some content;
     torn := fun _ _ old => old;
     mkdir_fails := fun _ => false;
     delete_fails := fun _ => false |}.

Definition sample_patch : PatchInput :=
  mkInput (js "f.py") OpUpdate None (Some (join [LF] [js "@@"; js " a = 1"; js "-b = 2"; js "+b = 4"])).

Definition sample_files_disk : gmap jsstring jsstring := {[ js "/work/f.py" := join [LF] [js "a = 1"; js "b = 2"; []] ]}.

(** Another writer replaces the file in the [k]-th wait of the operation. *)
Definition sample_other (k n : nat) (disk : gmap jsstring jsstring) : gmap jsstring jsstring :=
  if n =? k then <[js "/work/f.py" := js "changed"]> disk else disk.

Definition sample_run (k : nat) : (PatchFileError + ApplyPatchResult) * gmap jsstring jsstring :=
  applyNormalizedPatch sample_patch false DEFAULT_FUZZY_THRESHOLD true (sample_other k) sample_files_disk.

Lemma patch_writes_safely_witness :
  (sample_run 1).1 = inl ConcurrentEdit
  /\ operation_safe sample_patch false (sample_other 1) sample_files_disk (sample_run 1).1 (sample_run 1).2
  /\ operation_safe sample_patch false (sample_other 3) sample_files_disk (sample_run 3).1 (sample_run 3).2.
Proof.
  split; [vm_compute; reflexivity|].
  split; apply (patch_writes_safely sample_patch false DEFAULT_FUZZY_THRESHOLD true); apply surjective_pairing.
Defined.

(** The second read is not one step with the write: a change made between the two is
    overwritten without a conflict being reported. *)
Example change_in_window_lost :
  (exists res, (sample_run 2).1 = inr res)
  /\ (sample_run 2).2 = {[ js "/work/f.py" := join [LF] [js "a = 1"; js "b = 4"; []] ]}.
Proof. vm_compute. split; [by eexists|reflexivity]. Qed.
