(* ===== verification/ApplyPatchEnvelope.v ===== *)
(** * The envelope of several patches (edit/apply-patch/, edit/modes/apply-patch.ts)

    A text between [*** Begin Patch] and [*** End Patch] that adds, deletes and updates
    files.  The parser splits it into single patches; the preview variant forgives what is
    not there yet.  The patches are applied in order, each on what the ones before left. *)

From Stdlib Require Import QArith.
From S2P Require Import Prelude JsText TextNormalize FuzzyMatch DiffHunks DiffRoundTrip PatchApply PatchFiles.

Local Open Scope nat_scope.

Definition BEGIN_PATCH_MARKER : jsstring := js "*** Begin Patch".
Definition END_PATCH_MARKER : jsstring := js "*** End Patch".
Definition ADD_FILE_MARKER : jsstring := js "*** Add File: ".
Definition DELETE_FILE_MARKER : jsstring := js "*** Delete File: ".
Definition UPDATE_FILE_MARKER : jsstring := js "*** Update File: ".
Definition MOVE_TO_MARKER : jsstring := js "*** Move to: ".

Inductive EnvelopeError :=
| NoBeginMarker
| NoEndMarker
| EmptyUpdate (path : jsstring) (line : nat)
| InvalidHeader (header : jsstring) (line : nat)
| NoFilesModified.

#[global] Instance EnvelopeError_eq_dec : EqDecision EnvelopeError.
Proof. solve_decision. Defined.

Definition HEREDOC_OPENERS : list jsstring := [js "<<EOF"; js "<<'EOF'"; js "<<" ++ [34%N] ++ js "EOF" ++ [34%N]].

(** The lines without a here-document around them. *)
Definition strip_heredoc (lines : list jsstring) : list jsstring :=
  match lines, last lines with
  | first :: (_ :: _ as rest), Some lastLine =>
      if bool_decide (first ∈ HEREDOC_OPENERS) && bool_decide (trim lastLine = js "EOF") then removelast rest else lines
  | _, _ => lines
  end.

(** The lines an update stops at. *)
Definition is_file_marker (line : jsstring) : bool :=
  starts_with (js "*** Add File:") line || starts_with (js "*** Delete File:") line || starts_with (js "*** Update File:") line.

Definition added_text (lines : list jsstring) : jsstring := lines ≫= (fun line => drop 1 line ++ [LF]).

(** One more patch in front of those that follow. *)
Definition push_input (input : PatchInput) (rest : option (EnvelopeError + list PatchInput)) : option (EnvelopeError + list PatchInput) :=
  match rest with Some (inr inputs) => Some (inr (input :: inputs)) | other => other end.

(** The loop over the lines that remain; [None] when the fuel is used up. *)
Fixpoint envelope_loop (fuel : nat) (streaming : bool) (remaining : list jsstring) (lineNumber : nat) :
    option (EnvelopeError + list PatchInput) :=
  match fuel with
  | O => None
  | S fuel =>
      match remaining with
      | [] => Some (inr [])
      | line :: rest =>
          let firstLine := trim line in
          if bool_decide (firstLine = []) then envelope_loop fuel streaming rest (S lineNumber)
          else if starts_with ADD_FILE_MARKER firstLine then
            let path := drop (length ADD_FILE_MARKER) firstLine in
            let '(added, rest') := span (starts_with (js "+")) rest in
            push_input (mkInput path OpCreate None (Some (added_text added)))
              (envelope_loop fuel streaming rest' (lineNumber + S (length added)))
          else if starts_with DELETE_FILE_MARKER firstLine then
            let path := drop (length DELETE_FILE_MARKER) firstLine in
            push_input (mkInput path OpDelete None None) (envelope_loop fuel streaming rest (S lineNumber))
          else if starts_with UPDATE_FILE_MARKER firstLine then
            let path := drop (length UPDATE_FILE_MARKER) firstLine in
            let '(movePath, body) :=
              match rest with
              | next :: rest' => if starts_with MOVE_TO_MARKER next then (Some (drop (length MOVE_TO_MARKER) next), rest') else (None, rest)
              | [] => (None, [])
              end in
            let '(diffLines, rest') := span (fun l => negb (is_file_marker l)) body in
            let nextLine := lineNumber + (S (length rest) - length rest') in
            match diffLines with
            | [] => if streaming then push_input (mkInput path OpUpdate movePath (Some [])) (envelope_loop fuel streaming rest' nextLine)
                    else Some (inl (EmptyUpdate path nextLine))
            | _ => push_input (mkInput path OpUpdate movePath (Some (join [LF] diffLines))) (envelope_loop fuel streaming rest' nextLine)
            end
          else if streaming then Some (inr [])
          else Some (inl (InvalidHeader firstLine lineNumber))
      end
  end.

Definition parseApplyPatchWithOptions (patchText : jsstring) (streaming : bool) : option (EnvelopeError + list PatchInput) :=
  let lines := strip_heredoc (split_char LF (trim patchText)) in
  match lines with
  | [] => Some (if streaming then inr [] else inl NoBeginMarker)
  | first :: rest =>
      if negb (bool_decide (trim first = BEGIN_PATCH_MARKER)) then Some (if streaming then inr [] else inl NoBeginMarker)
      else
        let hasEndMarker := bool_decide (trim (default [] (last lines)) = END_PATCH_MARKER) in
        if negb hasEndMarker && negb streaming then Some (inl NoEndMarker)
        else
          let remaining := if hasEndMarker then removelast rest else rest in
          envelope_loop (S (length remaining)) streaming remaining 2
  end.

Definition parseApplyPatch (patchText : jsstring) : option (EnvelopeError + list PatchInput) :=
  parseApplyPatchWithOptions patchText false.

Definition parseApplyPatchStreaming (patchText : jsstring) : option (EnvelopeError + list PatchInput) :=
  parseApplyPatchWithOptions patchText true.

Definition expandApplyPatchToEntries (input : jsstring) : option (EnvelopeError + list PatchInput) :=
  match parseApplyPatch input with
  | Some (inr []) => Some (inl NoFilesModified)
  | other => other
  end.

Definition expandApplyPatchToPreviewEntries (input : jsstring) : option (EnvelopeError + list PatchInput) :=
  parseApplyPatchStreaming input.

(** ** Applying an envelope *)

Record Affected := mkAffected { af_added : list jsstring; af_modified : list jsstring; af_deleted : list jsstring }.

Definition recordAffected (a : Affected) (hunk : PatchInput) : Affected :=
  match pi_op hunk with
  | OpCreate => mkAffected (af_added a ++ [pi_path hunk]) (af_modified a) (af_deleted a)
  | OpDelete => mkAffected (af_added a) (af_modified a) (af_deleted a ++ [pi_path hunk])
  | OpUpdate => mkAffected (af_added a) (af_modified a ++ [pi_path hunk]) (af_deleted a)
  end.

Definition formatApplyCodexPatchSummary (a : Affected) : jsstring :=
  join [LF] (js "Success. Updated the following files:" :: ((fun p => js "A " ++ p) <$> af_added a)
             ++ ((fun p => js "M " ++ p) <$> af_modified a) ++ ((fun p => js "D " ++ p) <$> af_deleted a)).

Section apply.
Context `{FuzzyEnv} {File : Type} `{!PatchEnv File}.

(** [others i] are the turns of the other writers around and in the [i]-th operation. *)
Fixpoint apply_inputs (inputs : list PatchInput) (dryRun : bool) (threshold : Q) (allowFuzzy : bool)
    (others : nat -> nat -> gmap jsstring File -> gmap jsstring File) (acc : list ApplyPatchResult * Affected) (disk : gmap jsstring File) :
    (PatchFileError + (list ApplyPatchResult * Affected)) * gmap jsstring File :=
  match inputs with
  | [] => (inr acc, disk)
  | hunk :: rest =>
      let turns := others (length acc.1) in
      match applyNormalizedPatch hunk dryRun threshold allowFuzzy (fun n => turns (S n)) (turns 0 disk) with
      | (inl e, disk') => (inl e, disk')
      | (inr result, disk') =>
          apply_inputs rest dryRun threshold allowFuzzy others (acc.1 ++ [result], recordAffected acc.2 hunk) disk'
      end
  end.

Definition applyCodexPatch (patchText : jsstring) (dryRun : bool) (threshold : Q) (allowFuzzy : bool)
    (others : nat -> nat -> gmap jsstring File -> gmap jsstring File) (disk : gmap jsstring File) :
    ((EnvelopeError + PatchFileError) + (list ApplyPatchResult * Affected)) * gmap jsstring File :=
  match parseApplyPatch patchText with
  | None => (inl (inl NoFilesModified), disk) (* never: every envelope is read to its end *)
  | Some (inl e) => (inl (inl e), disk)
  | Some (inr []) => (inl (inl NoFilesModified), disk)
  | Some (inr hunks) =>
      match apply_inputs hunks dryRun threshold allowFuzzy others ([], mkAffected [] [] []) disk with
      | (inl e, disk') => (inl (inr e), disk')
      | (inr acc, disk') => (inr acc, disk')
      end
  end.
End apply.

(** ** Parsing ends *)

Lemma envelope_total fuel streaming remaining n : length remaining < fuel ->
  exists r, envelope_loop fuel streaming remaining n = Some r.
Proof.
  revert remaining n. induction fuel as [|fuel IH]; intros remaining n Hf; [lia|]. cbn [envelope_loop].
  destruct remaining as [|line rest]; [by eexists|]. cbn [length] in Hf.
  assert (Hpush : forall input rest' n', length rest' <= length rest ->
    exists r, push_input input (envelope_loop fuel streaming rest' n') = Some r).
  { intros input rest' n' Hle. destruct (IH rest' n') as ([e|inputs] & ->); [lia|by eexists|by eexists]. }
  destruct (bool_decide _); [apply IH; lia|]. destruct (starts_with ADD_FILE_MARKER _).
  { pose proof (span_length (starts_with (js "+")) rest). destruct (span _ rest) as [added rest']. by apply Hpush. }
  destruct (starts_with DELETE_FILE_MARKER _); [by apply Hpush|].
  destruct (starts_with UPDATE_FILE_MARKER _); [|destruct streaming; by eexists].
  set (split := match rest with next :: rest' => _ | [] => _ end).
  assert (Hs : length split.2 <= length rest).
  { unfold split. destruct rest as [|next rest']; [done|]. destruct (starts_with MOVE_TO_MARKER next); cbn; lia. }
  destruct split as [movePath body]. cbn [snd] in Hs. pose proof (span_length (fun l => negb (is_file_marker l)) body) as Hb.
  destruct (span _ body) as [diffLines rest']. cbn [snd] in Hb.
  destruct diffLines; [destruct streaming; [|by eexists]|]; apply Hpush; lia.
Qed.

Lemma envelope_parsed patchText streaming : exists r, parseApplyPatchWithOptions patchText streaming = Some r.
Proof.
  unfold parseApplyPatchWithOptions. destruct (strip_heredoc _) as [|first rest]; [by eexists|].
  destruct (negb _); [by eexists|]. destruct (_ && _); [by eexists|]. apply envelope_total. lia.
Qed.

(** ** Writing an envelope and reading it back

    A writer for envelopes of added, deleted and updated files; what the parser reads is
    what was written. *)

Inductive Entry :=
| AddFile (path : jsstring) (lines : list jsstring)
| DeleteFile (path : jsstring)
| UpdateFile (path : jsstring) (move : option jsstring) (lines : list jsstring).

Definition write_entry (e : Entry) : list jsstring :=
  match e with
  | AddFile path lines => (ADD_FILE_MARKER ++ path) :: (cons 43%N <$> lines)
  | DeleteFile path => [DELETE_FILE_MARKER ++ path]
  | UpdateFile path move lines =>
      (UPDATE_FILE_MARKER ++ path) :: match move with Some m => [MOVE_TO_MARKER ++ m] | None => [] end ++ lines
  end.

Definition write_envelope (entries : list Entry) : jsstring :=
  join [LF] (BEGIN_PATCH_MARKER :: concat (write_entry <$> entries) ++ [END_PATCH_MARKER]).

Definition entry_input (e : Entry) : PatchInput :=
  match e with
  | AddFile path lines => mkInput path OpCreate None (Some (lines ≫= (fun line => line ++ [LF])))
  | DeleteFile path => mkInput path OpDelete None None
  | UpdateFile path move lines => mkInput path OpUpdate move (Some (join [LF] lines))
  end.

(** ** Which entries an envelope can carry *)

(** A path on one line that does not end in white space. *)
Definition path_ok (path : jsstring) : bool :=
  no_lf_text path && match last path with Some c => negb (is_ws c) | None => false end.

Definition entry_ok (e : Entry) : bool :=
  match e with
  | AddFile path lines => path_ok path && forallb no_lf_text lines
  | DeleteFile path => path_ok path
  | UpdateFile path move lines =>
      path_ok path && forallb no_lf_text lines && forallb (fun l => negb (is_file_marker l)) lines
      && negb (length lines =? 0)%nat
      && match move with
         | Some m => no_lf_text m
         | None => negb (match lines with l :: _ => starts_with MOVE_TO_MARKER l | [] => false end)
         end
  end.

(** ** Headers *)

Lemma starts_with_long p q s : length p <= length q -> starts_with p (q ++ s) = bool_decide (take (length p) q = p).
Proof. intros Hl. unfold starts_with. by rewrite take_app_le. Qed.

(** A marker followed by a path is left alone by trimming. *)
Lemma header_trim marker path : match marker with c :: _ => is_ws c = false | [] => False end -> path_ok path = true ->
  trim (marker ++ path) = marker ++ path.
Proof.
  intros Hm [_ Hp]%andb_prop. unfold trim. rewrite trimStart_id by (by destruct marker).
  apply trimEnd_id. rewrite last_app. destruct (last path); [by apply negb_true_iff in Hp|done].
Qed.

(** What follows an entry: nothing, or another entry. *)
Definition next_entry (rest : list jsstring) : Prop :=
  match rest with [] => True | l :: _ => is_file_marker l = true /\ starts_with (js "+") l = false end.

Lemma marker_head marker path : In marker [ADD_FILE_MARKER; DELETE_FILE_MARKER; UPDATE_FILE_MARKER] ->
  is_file_marker (marker ++ path) = true /\ starts_with (js "+") (marker ++ path) = false.
Proof.
  intros [<-|[<-|[<-|[]]]]; unfold is_file_marker; rewrite !starts_with_long by (by apply Nat.leb_le; vm_compute); by vm_compute.
Qed.

Lemma entries_next entries : next_entry (concat (write_entry <$> entries)).
Proof.
  destruct entries as [|e entries]; [done|]. rewrite fmap_cons. cbn [concat].
  destruct e; cbn [write_entry app next_entry]; apply marker_head; cbn; auto.
Qed.

Lemma forallb_Forall {A} (p : A -> bool) l : forallb p l = true -> Forall (fun x => p x = true) l.
Proof. intros Hp. apply Forall_forall. intros x Hx%list_elem_of_In. by apply (proj1 (forallb_forall _ _) Hp). Qed.

(** ** The loop *)

Lemma added_read lines : added_text (cons 43%N <$> lines) = lines ≫= (fun line => line ++ [LF]).
Proof. unfold added_text. induction lines as [|l ls IH]; [done|]. rewrite fmap_cons, !bind_cons, IH. done. Qed.

Lemma entry_read e rest fuel n : entry_ok e = true -> next_entry rest ->
  exists n', envelope_loop (S fuel) false (write_entry e ++ rest) n = push_input (entry_input e) (envelope_loop fuel false rest n').
Proof.
  intros Hok Hnext. destruct e as [path lines|path|path move lines]; cbn [entry_ok] in Hok; cbn [write_entry app envelope_loop].
  - apply andb_prop in Hok as [Hp _]. rewrite header_trim by done. rewrite bool_decide_eq_false_2 by done.
    rewrite starts_with_app, drop_app_length. rewrite span_prefix.
    + rewrite added_read. by eexists.
    + apply Forall_fmap, Forall_forall. intros x _. by vm_compute.
    + destruct rest; [done|]. by destruct Hnext.
  - rewrite header_trim by done. rewrite bool_decide_eq_false_2 by done.
    rewrite (starts_with_long ADD_FILE_MARKER DELETE_FILE_MARKER) by (by apply Nat.leb_le; vm_compute).
    change (bool_decide (take _ DELETE_FILE_MARKER = ADD_FILE_MARKER)) with false. cbn iota.
    rewrite starts_with_app, drop_app_length. by eexists.
  - apply andb_prop in Hok as [[[[Hp _]%andb_prop Hm]%andb_prop Hne%negb_true_iff]%andb_prop Hmove].
    rewrite header_trim by done. rewrite bool_decide_eq_false_2 by done.
    rewrite (starts_with_long ADD_FILE_MARKER UPDATE_FILE_MARKER), (starts_with_long DELETE_FILE_MARKER UPDATE_FILE_MARKER)
      by (by apply Nat.leb_le; vm_compute).
    change (bool_decide (take _ UPDATE_FILE_MARKER = ADD_FILE_MARKER)) with false.
    change (bool_decide (take _ UPDATE_FILE_MARKER = DELETE_FILE_MARKER)) with false. cbn iota.
    rewrite starts_with_app, drop_app_length.
    set (split := match (match move with Some m => [MOVE_TO_MARKER ++ m] | None => [] end ++ lines) ++ rest with _ :: _ => _ | [] => _ end).
    assert (split = (move, lines ++ rest)) as ->.
    { unfold split. destruct move as [m|]; cbn [app].
      - by rewrite starts_with_app, drop_app_length.
      - destruct lines as [|l ls]; [done|]. cbn [app]. apply negb_true_iff in Hmove. by rewrite Hmove. }
    rewrite span_prefix.
    + destruct lines as [|l ls]; [done|]. by eexists.
    + by apply forallb_Forall.
    + destruct rest as [|l rest]; [done|]. destruct Hnext as [-> _]. done.
Qed.

Lemma entries_read entries fuel n : forallb entry_ok entries = true -> length entries < fuel ->
  envelope_loop fuel false (concat (write_entry <$> entries)) n = Some (inr (entry_input <$> entries)).
Proof.
  revert fuel n. induction entries as [|e entries IH]; intros fuel n; (destruct fuel as [|fuel]; [lia|]); [done|].
  cbn [forallb length]. intros [He Hes]%andb_prop Hf. rewrite fmap_cons. cbn [concat].
  destruct (entry_read e (concat (write_entry <$> entries)) fuel n He (entries_next entries)) as (n' & ->).
  rewrite IH by (done || lia). done.
Qed.

(** ** The envelope *)

Lemma no_lf_app s t : no_lf_text s = true -> no_lf_text t = true -> no_lf_text (s ++ t) = true.
Proof. intros Hs Ht. unfold no_lf_text in *. by rewrite forallb_app, Hs, Ht. Qed.

Lemma entry_no_lf e : entry_ok e = true -> Forall (fun l => no_lf_text l = true) (write_entry e).
Proof.
  intros Hok. destruct e as [path lines|path|path move lines]; cbn [entry_ok] in Hok; cbn [write_entry].
  - apply andb_prop in Hok as [[Hp _]%andb_prop Hl]. constructor; [by apply no_lf_app|].
    apply Forall_fmap. eapply Forall_impl; [by apply forallb_Forall|]. by intros l Hl'.
  - apply andb_prop in Hok as [Hp _]. constructor; [by apply no_lf_app|done].
  - apply andb_prop in Hok as [[[[[Hp _]%andb_prop Hl]%andb_prop _]%andb_prop _]%andb_prop Hm].
    constructor; [by apply no_lf_app|]. apply Forall_app. split; [|by apply forallb_Forall].
    destruct move; [constructor; [by apply no_lf_app|done]|done].
Qed.

Lemma entries_length entries : length entries <= length (concat (write_entry <$> entries)).
Proof.
  induction entries as [|e entries IH]; [done|]. rewrite fmap_cons. cbn [concat length]. rewrite length_app.
  destruct e; cbn [write_entry length]; lia.
Qed.

(** Writing an envelope and reading it back is the identity: an envelope of files to add
    with any lines, to delete, and to update with a diff (and a move), with paths that do
    not end in white space and diffs that do not contain a file marker at the start of a
    line, is read as exactly these single patches, in order. *)
Theorem envelope_roundtrip entries : forallb entry_ok entries = true ->
  parseApplyPatch (write_envelope entries) = Some (inr (entry_input <$> entries)).
Proof.
  intros Hok. unfold parseApplyPatch, parseApplyPatchWithOptions, write_envelope. set (body := concat (write_entry <$> entries)).
  assert (Hlf : Forall (Forall (fun c => c <> LF)) (BEGIN_PATCH_MARKER :: body ++ [END_PATCH_MARKER])).
  { constructor; [by apply no_lf_Forall|]. apply Forall_app. split; [|apply Forall_singleton; by apply no_lf_Forall].
    apply Forall_concat, Forall_fmap, Forall_forall. intros e He%list_elem_of_In. cbn.
    eapply Forall_impl; [apply entry_no_lf; by apply (proj1 (forallb_forall _ _) Hok)|]. intros l. apply no_lf_Forall. }
  assert (Htrim : trim (join [LF] (BEGIN_PATCH_MARKER :: body ++ [END_PATCH_MARKER])) = join [LF] (BEGIN_PATCH_MARKER :: body ++ [END_PATCH_MARKER])).
  { rewrite app_comm_cons, join_app by done. unfold trim. rewrite trimStart_id; [|by destruct body].
    apply trimEnd_app; [done|]. by vm_compute. }
  rewrite Htrim, split_join by done.
  assert (strip_heredoc (BEGIN_PATCH_MARKER :: body ++ [END_PATCH_MARKER]) = BEGIN_PATCH_MARKER :: body ++ [END_PATCH_MARKER]) as ->.
  { unfold strip_heredoc. destruct (body ++ [END_PATCH_MARKER]); [done|]. destruct (last _); [|done].
    change (bool_decide (BEGIN_PATCH_MARKER ∈ HEREDOC_OPENERS)) with false. done. }
  change (bool_decide (trim BEGIN_PATCH_MARKER = BEGIN_PATCH_MARKER)) with true. cbn [negb].
  rewrite app_comm_cons, last_snoc. change (default [] (Some END_PATCH_MARKER)) with END_PATCH_MARKER.
  assert (bool_decide (trim END_PATCH_MARKER = END_PATCH_MARKER) = true) as -> by (by vm_compute). cbn [negb andb].
  rewrite removelast_last. apply entries_read; [done|]. pose proof (entries_length entries) as Hl. change (concat (write_entry <$> entries)) with body in Hl. lia.
Qed.

(** ** Sample envelopes *)

Definition sample_entries : list Entry :=
  [ AddFile (js "a.txt") [js "one"; []; js "+two"]; DeleteFile (js "old name.txt");
    UpdateFile (js "b.txt") (Some (js "c.txt")) [js "@@"; js "-x"; js "+y"] ].

Lemma envelope_roundtrip_witness :
  forallb entry_ok sample_entries = true /\ parseApplyPatch (write_envelope sample_entries) = Some (inr (entry_input <$> sample_entries)).
Proof.
  assert (H : forallb entry_ok sample_entries = true) by (vm_compute; reflexivity).
  split; [exact H|]. apply envelope_roundtrip. exact H.
Defined.

(** A file to add whose lines all begin with a plus sign loses it: the envelope takes one
    sign off, and the create operation another. *)
Example added_signs_lost :
  let content := js "+ first" ++ [LF] ++ js "+ second" ++ [LF] in
  pi_diff (entry_input (AddFile (js "list.md") [js "+ first"; js "+ second"])) = Some content
  /\ normalizeCreateContent content = js "first" ++ [LF] ++ js "second" ++ [LF].
Proof. vm_compute. split; reflexivity. Qed.

(** An empty file cannot be added: its content is the empty string, which is refused. *)
Example empty_file_refused : truthy (pi_diff (entry_input (AddFile (js "empty.txt") []))) = None.
Proof. reflexivity. Qed.
