(* ===== verification/PatchEndToEnd.v ===== *)
(** * From a written diff to the file on disk

    The parts together: a diff is read, its hunks are placed by their lines, the new text is
    built and the file written, with the byte-order mark and the line endings it had. *)

From Stdlib Require Import QArith.
From S2P Require Import Prelude JsText TextNormalize Indentation Levenshtein FuzzyMatch FuzzyFacts DiffHunks DiffRoundTrip PatchIndent PatchVariants PatchApply PatchFacts PatchSplice PatchFiles.

Local Open Scope nat_scope.

Section end_to_end.
Context `{FuzzyEnv} {File : Type} `{!PatchEnv File}.

(** The mark in front of the new text: the one read, or the one in the bytes. *)
Definition kept_bom (disk : gmap jsstring File) (path original : jsstring) : jsstring :=
  let bom := (stripBom original).1 in if bool_decide (bom = []) then match bom_from_bytes disk path with inr b => b | inl _ => [] end else bom.

Lemma write_diff_head hunks : hunks <> [] -> exists s, write_diff hunks = 64%N :: s.
Proof.
  intros Hne. destruct hunks as [|h hunks]; [done|]. unfold write_diff. rewrite fmap_cons. cbn [concat].
  assert (exists s rest, write_hunk h ++ concat (write_hunk <$> hunks) = (64%N :: s) :: rest) as (s & rest & ->).
  { unfold write_hunk. destruct (header_start (ht_range h)) as (s & ->). by eexists _, _. }
  destruct rest; cbn; by eexists.
Qed.

Lemma updated_exact disk path original hunks out fuzzyThreshold allowFuzzy :
  is_Some (disk !! path) -> hunks <> [] -> forallb carried_hunk hunks = true ->
  exact_plan (file_lines (normalizeToLF (stripBom original).2)) 0 (meaning <$> hunks) out ->
  updated_content disk path original (write_diff hunks) fuzzyThreshold allowFuzzy
  = inr (kept_bom disk path original
         ++ restoreLineEndings (file_text (ends_in_newline (normalizeToLF (stripBom original).2)) out)
              (detectLineEnding (stripBom original).2), []).
Proof.
  intros [file Hf] Hne Hc Hp. unfold updated_content, kept_bom. destruct (stripBom original) as [bom text]. cbn [fst snd] in *.
  assert (Hb : exists b, (if bool_decide (bom = []) then bom_from_bytes disk path else inr bom) = inr b
    /\ (if bool_decide (bom = []) then match bom_from_bytes disk path with inr b => b | inl _ => [] end else bom) = b).
  { case_bool_decide; [|by eexists]. unfold bom_from_bytes. rewrite Hf. destruct has_bom_bytes; by eexists. }
  destruct Hb as (b & -> & ->).
  assert (parseDiffHunks (write_diff hunks) = Some (inr (meaning <$> hunks))) as -> by (by apply hunks_read_back).
  destruct hunks as [|h hunks]; [done|]. rewrite fmap_cons in Hp |- *. by rewrite (exact_hunks_exact _ _ out).
Qed.

(** C8: A diff does to the file on disk what it says.  When an update's diff is written from
    hunks a diff can carry, each with context lines, and the old lines of each occur in the
    file as they stand, in order, the operation succeeds and leaves the disk as it was but
    for that file, whose text is the old one with each hunk's old lines replaced by its new
    lines: with the byte-order mark, the line endings and the final newline it had, and
    whatever the scores and thresholds of the fuzzy searches. *)
Theorem diff_applies_to_disk (path : jsstring) (hunks : list HunkText) (fuzzyThreshold : Q) (allowFuzzy : bool)
    (disk : gmap jsstring File) (file file' : File) (original : jsstring) (out : list jsstring) :
  let target := resolveToCwd path in
  let text := (stripBom original).2 in
  let final := kept_bom disk target original
               ++ restoreLineEndings (file_text (ends_in_newline (normalizeToLF text)) out) (detectLineEnding text) in
  hunks <> [] -> forallb carried_hunk hunks = true ->
  disk !! target = Some file -> read_file_text target file = Some original ->
  exact_plan (file_lines (normalizeToLF text)) 0 (meaning <$> hunks) out ->
  written target final = Some file' ->
  applyNormalizedPatch (mkInput path OpUpdate None (Some (write_diff hunks))) false fuzzyThreshold allowFuzzy (fun _ d => d) disk
  = (inr (mkApplied (mkChange OpUpdate target None (Some original) (Some final)) []), <[target := file']> disk).
Proof.
  intros target text final Hne Hc Hd Hr Hp Hw. unfold applyNormalizedPatch. cbn [pi_op pi_path pi_rename truthy]. cbv zeta.
  unfold apply_update. cbn [pi_diff truthy pi_rename].
  assert (nonempty (write_diff hunks) = Some (write_diff hunks)) as ->.
  { unfold nonempty. destruct (write_diff_head hunks Hne) as (s & ->). by rewrite bool_decide_eq_false_2. }
  assert (Hread : readExistingPatchFile disk target = inr original) by (unfold readExistingPatchFile; by rewrite Hd, Hr).
  fold target. rewrite Hread. rewrite (updated_exact disk target original hunks out) by (done || by eexists). fold text. fold final.
  unfold commit_update. rewrite Hread. rewrite bool_decide_eq_true_2 by done. cbn [negb].
  unfold write_file. rewrite Hw. done.
Qed.
End end_to_end.

(** ** A sample file *)

#[local] Existing Instance sample_env.

#[local] Existing Instance sample_files.

Definition CRLF_PAIR : jsstring := [13%N; 10%N].

Definition sample_crlf (middle : jsstring) : jsstring :=
  [65279%N] ++ js "a = 1" ++ CRLF_PAIR ++ middle ++ CRLF_PAIR ++ js "c = 3" ++ CRLF_PAIR.

Definition sample_disk : gmap jsstring jsstring := {[ js "/work/f.py" := sample_crlf (js "b = 2"); js "/work/g.py" := js "g" ]}.

Definition sample_update : list HunkText :=
  [mkHunkText (Some (1, 3, 1, 3, None))%N [Keep (js "a = 1"); Remove (js "b = 2"); Insert (js "b = 4")] false].

Lemma diff_applies_to_disk_witness :
  applyNormalizedPatch (mkInput (js "f.py") OpUpdate None (Some (write_diff sample_update))) false DEFAULT_FUZZY_THRESHOLD true
    (fun _ d => d) sample_disk
  = (inr (mkApplied (mkChange OpUpdate (js "/work/f.py") None (Some (sample_crlf (js "b = 2"))) (Some (sample_crlf (js "b = 4")))) []),
     <[js "/work/f.py" := sample_crlf (js "b = 4")]> sample_disk).
Proof.
  etransitivity; [apply (diff_applies_to_disk (js "f.py") sample_update DEFAULT_FUZZY_THRESHOLD true sample_disk (sample_crlf (js "b = 2"))
           (sample_crlf (js "b = 4")) (sample_crlf (js "b = 2")) [js "a = 1"; js "b = 4"; js "c = 3"])|vm_compute; reflexivity].
  - discriminate.
  - vm_compute. reflexivity.
  - vm_compute. reflexivity.
  - reflexivity.
  - refine (exact_next _ 0 0 _ [] [js "c = 3"] _ _ _ _ _).
    + repeat split; discriminate.
    + lia.
    + vm_compute. reflexivity.
    + lia.
    + refine (exact_done (file_lines (normalizeToLF (stripBom (sample_crlf (js "b = 2"))).2)) 2 _). apply Nat.leb_le. vm_compute. reflexivity.
  - vm_compute. reflexivity.
Defined.
