(* ===== verification/RingBuffer.v ===== *)
(** * The ring buffer (utils/src/ring.ts)

    A circular buffer of fixed capacity.  The theorem says that it is a bounded double-ended
    queue: whatever sequence of operations is run on a new buffer, each returns what the same
    operation returns on a plain list, where adding to a full queue drops the element at the
    other end. *)

From S2P Require Import Prelude.

Section ring.
Context {T : Type}.

(** ** The buffer

    A slot is [None] where the source has [undefined].  Positions are natural numbers; the
    capacity is positive, so the decrement modulo the capacity does not leave them. *)
Record RingBuffer := Ring { rb_capacity : nat; rb_buf : list (option T); rb_head : nat; rb_size : nat }.

Definition new (capacity : nat) : RingBuffer := Ring capacity (replicate capacity None) 0 0.

Definition slot (buf : list (option T)) (i : nat) : option T := mjoin (buf !! i).

Definition isFull (r : RingBuffer) : bool := rb_size r =? rb_capacity r.
Definition isEmpty (r : RingBuffer) : bool := rb_size r =? 0.

Definition push (r : RingBuffer) (item : T) : RingBuffer * option T :=
  let '(Ring capacity buf head size) := r in
  let idx := (head + size) mod capacity in
  let overwritten := if size =? capacity then slot buf idx else None in
  let buf' := <[idx := Some item]> buf in
  (if size =? capacity then Ring capacity buf' ((head + 1) mod capacity) size
   else Ring capacity buf' head (size + 1), overwritten).

Definition shift (r : RingBuffer) : RingBuffer * option T :=
  let '(Ring capacity buf head size) := r in
  if size =? 0 then (r, None)
  else (Ring capacity (<[head := None]> buf) ((head + 1) mod capacity) (size - 1), slot buf head).

Definition pop (r : RingBuffer) : RingBuffer * option T :=
  let '(Ring capacity buf head size) := r in
  if size =? 0 then (r, None)
  else let idx := (head + size - 1) mod capacity in
       (Ring capacity (<[idx := None]> buf) head (size - 1), slot buf idx).

Definition unshift (r : RingBuffer) (item : T) : RingBuffer * option T :=
  let '(Ring capacity buf head size) := r in
  let head' := (head + capacity - 1) mod capacity in
  let overwritten := if size =? capacity then slot buf head' else None in
  (Ring capacity (<[head' := Some item]> buf) head' (if size <? capacity then size + 1 else size), overwritten).

Definition at_index (r : RingBuffer) (index : Z) : option T :=
  let '(Ring capacity buf head size) := r in
  let index := if (index <? 0)%Z then (index + Z.of_nat size)%Z else index in
  if (index <? 0)%Z || (Z.of_nat size <=? index)%Z then None
  else slot buf ((head + Z.to_nat index) mod capacity).

Definition peek (r : RingBuffer) : option T := at_index r 0.
Definition peekBack (r : RingBuffer) : option T := at_index r (Z.of_nat (rb_size r) - 1).

Definition clear (r : RingBuffer) : RingBuffer :=
  Ring (rb_capacity r) (replicate (length (rb_buf r)) None) 0 0.

(** The elements the iterator yields. *)
Definition iterator (r : RingBuffer) : list (option T) :=
  (fun i => slot (rb_buf r) ((rb_head r + i) mod rb_capacity r)) <$> seq 0 (rb_size r).

Definition toArray (r : RingBuffer) : list (option T) :=
  let '(Ring capacity buf head size) := r in
  if head + size <=? capacity then slice buf head (head + size)
  else slice buf head capacity ++ slice buf 0 ((head + size) mod capacity).

(** ** What it represents *)

(** The slots, from the head on, hold the elements and then nothing. *)
Record represents (r : RingBuffer) (l : list T) : Prop := {
  rp_pos : 0 < rb_capacity r;
  rp_len : length (rb_buf r) = rb_capacity r;
  rp_head : rb_head r < rb_capacity r;
  rp_size : rb_size r = length l;
  rp_bound : length l <= rb_capacity r;
  rp_slots : forall i, i < rb_capacity r ->
    rb_buf r !! ((rb_head r + i) mod rb_capacity r) = Some (l !! i);
}.

Lemma mod_inj c h i j : i < c -> j < c -> (h + i) mod c = (h + j) mod c -> i = j.
Proof.
  intros Hi Hj E. assert (c <> 0) by lia.
  pose proof (Nat.div_mod (h + i) c ltac:(lia)) as Ei. pose proof (Nat.div_mod (h + j) c ltac:(lia)) as Ej.
  rewrite E in Ei. assert (Hd : (h + i) / c = (h + j) / c \/ (h + i) / c < (h + j) / c \/ (h + j) / c < (h + i) / c) by lia.
  destruct Hd as [Hd|[Hd|Hd]]; nia.
Qed.

Lemma mod_shift c h i : 0 < c -> ((h + 1) mod c + i) mod c = (h + S i) mod c.
Proof. intros. rewrite Nat.Div0.add_mod_idemp_l. f_equal. lia. Qed.

Lemma mod_self c h : h < c -> (h + c) mod c = h.
Proof. intros. rewrite <- (Nat.mod_small h c) at 2 by done. rewrite Nat.Div0.add_mod, Nat.Div0.mod_same, Nat.add_0_r. by rewrite Nat.Div0.mod_mod. Qed.

Lemma mod_back c h i : h < c -> ((h + c - 1) mod c + S i) mod c = (h + i) mod c.
Proof.
  intros. rewrite Nat.Div0.add_mod_idemp_l. replace (h + c - 1 + S i) with (h + i + 1 * c) by lia.
  apply Nat.Div0.mod_add.
Qed.

Lemma slot_of r l i : represents r l -> i < rb_capacity r ->
  slot (rb_buf r) ((rb_head r + i) mod rb_capacity r) = l !! i.
Proof. intros H Hi. unfold slot. rewrite (rp_slots r l H i Hi). done. Qed.

(** Writing the slot at distance [k] from the head. *)
Lemma write_slot r l k v i :
  represents r l -> k < rb_capacity r -> i < rb_capacity r ->
  <[(rb_head r + k) mod rb_capacity r := v]> (rb_buf r) !! ((rb_head r + i) mod rb_capacity r) =
    Some (if decide (i = k) then v else l !! i).
Proof.
  intros H Hk Hi. assert (Hc := rp_pos r l H). destruct (decide (i = k)) as [->|Hne].
  - apply list_lookup_insert_eq. rewrite (rp_len r l H). apply Nat.mod_upper_bound. lia.
  - rewrite list_lookup_insert_ne; [by apply rp_slots|]. intros E. apply Hne. symmetry.
    by eapply mod_inj.
Qed.

Lemma new_represents capacity : 0 < capacity -> represents (new capacity) [].
Proof.
  intros Hc. constructor; simpl; try done; try lia; [by rewrite length_replicate|].
  intros i Hi. apply lookup_replicate. split; [done|]. by apply Nat.mod_upper_bound; lia.
Qed.

(** ** The operations *)

Lemma lookup_snoc_le (l : list T) x i : i <= length l ->
  (l ++ [x]) !! i = if decide (i = length l) then Some x else l !! i.
Proof.
  intros Hi. destruct (decide (i = length l)) as [->|].
  - by rewrite lookup_app_r, Nat.sub_diag by lia.
  - by rewrite lookup_app_l by lia.
Qed.

(** Adding at the back. *)
Lemma push_represents r l x :
  represents r l ->
  let full := bool_decide (length l = rb_capacity r) in
  represents (push r x).1 ((if full then tail l else l) ++ [x]) /\
  rb_capacity (push r x).1 = rb_capacity r /\
  (push r x).2 = if full then head l else None.
Proof.
  intros H. assert (Hw := write_slot r l). assert (Hs := slot_of r l). destruct H as [Hc Hl Hh Hsz Hb Hsl].
  assert (H' : represents r l) by done. destruct r as [c buf h sz]. simpl in *. subst sz.
  destruct (decide (length l = c)) as [Hfull|Hfull].
  - rewrite bool_decide_eq_true_2 by done. rewrite Hfull, Nat.eqb_refl. simpl.
    assert (Hidx : (h + c) mod c = (h + 0) mod c)
      by (rewrite mod_self, Nat.add_0_r, Nat.mod_small by done; done).
    rewrite Hidx. split; [|split; [done|]].
    2: { rewrite (Hs 0 H' Hc). by destruct l. }
    destruct l as [|y l]; [simpl in Hfull; lia|]. simpl in Hfull |- *. constructor; simpl; try lia.
    + by rewrite length_insert.
    + apply Nat.mod_upper_bound. lia.
    + rewrite length_app. simpl. lia.
    + rewrite length_app. simpl. lia.
    + intros i Hi. rewrite mod_shift by done. destruct (decide (S i = c)) as [Hic|Hic].
      * replace ((h + S i) mod c) with ((h + 0) mod c) by (rewrite Hic; done).
        rewrite (Hw 0 (Some x) 0 H' Hc Hc). simpl. f_equal.
        rewrite lookup_snoc_le by lia. by rewrite decide_True by lia.
      * rewrite (Hw 0 (Some x) (S i) H' Hc ltac:(lia)). simpl. f_equal.
        rewrite lookup_snoc_le by lia. by rewrite decide_False by lia.
  - rewrite bool_decide_eq_false_2 by done. rewrite (proj2 (Nat.eqb_neq _ _)) by done. simpl.
    split; [|done]. constructor; simpl; try lia.
    + by rewrite length_insert.
    + rewrite length_app. simpl. lia.
    + rewrite length_app. simpl. lia.
    + intros i Hi. rewrite (Hw (length l) (Some x) i H' ltac:(lia) Hi). f_equal.
      destruct (decide (i = length l)) as [->|]; [by rewrite lookup_snoc_le, decide_True by lia|].
      destruct (decide (i < length l)); [by rewrite lookup_app_l|].
      rewrite !lookup_ge_None_2; [done|rewrite length_app; simpl; lia|lia].
Qed.

Lemma shift_represents r l :
  represents r l ->
  represents (shift r).1 (tail l) /\ rb_capacity (shift r).1 = rb_capacity r /\ (shift r).2 = head l.
Proof.
  intros H. assert (Hw := write_slot r l). assert (Hs := slot_of r l). assert (H' := H).
  destruct H as [Hc Hl Hh Hsz Hb Hsl]. destruct r as [c buf h sz]. simpl in *. subst sz.
  destruct l as [|x l]; [done|]. simpl in *.
  specialize (Hs 0 H' Hc). rewrite Nat.add_0_r, Nat.mod_small in Hs by done.
  split; [|split; [done|by rewrite Hs]]. constructor; simpl; try lia.
  - by rewrite length_insert.
  - apply Nat.mod_upper_bound. lia.
  - intros i Hi. rewrite mod_shift by done.
    assert (Hh0 : (h + 0) mod c = h) by (by rewrite Nat.add_0_r, Nat.mod_small).
    assert (Hins : <[h := None]> buf = <[(h + 0) mod c := None]> buf) by (by rewrite Hh0).
    rewrite Hins. destruct (decide (S i = c)) as [Hic|Hic].
    + replace ((h + S i) mod c) with ((h + 0) mod c) by (rewrite Hic, mod_self; done).
      rewrite (Hw 0 None 0 H' Hc Hc). simpl. f_equal. rewrite lookup_ge_None_2; [done|lia].
    + by rewrite (Hw 0 None (S i) H' Hc ltac:(lia)).
Qed.

Lemma lookup_init (l : list T) x i : i < length l -> (l ++ [x]) !! i = l !! i.
Proof. intros. by rewrite lookup_app_l. Qed.

Lemma pop_represents r l x :
  represents r (l ++ [x]) ->
  represents (pop r).1 l /\ rb_capacity (pop r).1 = rb_capacity r /\ (pop r).2 = Some x.
Proof.
  intros H. assert (Hw := write_slot r (l ++ [x])). assert (Hs := slot_of r (l ++ [x])). assert (H' := H).
  destruct H as [Hc Hl Hh Hsz Hb Hsl]. destruct r as [c buf h sz]. simpl in *.
  rewrite length_app in Hsz, Hb. simpl in Hsz, Hb.
  rewrite (proj2 (Nat.eqb_neq sz 0)) by lia. simpl.
  replace (h + sz - 1) with (h + length l) by lia.
  rewrite (Hs (length l) H' ltac:(lia)), lookup_snoc_le, decide_True by lia.
  split; [|done]. constructor; simpl; try lia.
  - by rewrite length_insert.
  - intros i Hi. rewrite (Hw (length l) None i H' ltac:(lia) Hi). f_equal.
    destruct (decide (i = length l)) as [->|]; [by rewrite lookup_ge_None_2|].
    destruct (decide (i < length l)); [by apply lookup_init|].
    rewrite !lookup_ge_None_2; [done|lia|rewrite length_app; simpl; lia].
Qed.

Lemma pop_empty r : represents r [] -> pop r = (r, None).
Proof. intros [_ _ _ Hsz _ _]. destruct r. simpl in *. by subst. Qed.

(** Adding at the front; in a full buffer the newest element goes. *)
Lemma unshift_represents r l x :
  represents r l ->
  let full := bool_decide (length l = rb_capacity r) in
  represents (unshift r x).1 (x :: if full then take (length l - 1) l else l) /\
  rb_capacity (unshift r x).1 = rb_capacity r /\
  (unshift r x).2 = if full then last l else None.
Proof.
  intros H. assert (Hw := write_slot r l). assert (Hs := slot_of r l). assert (H' := H).
  destruct H as [Hc Hl Hh Hsz Hb Hsl]. destruct r as [c buf h sz]. simpl in *. subst sz.
  assert (Hidx : (h + c - 1) mod c = (h + (c - 1)) mod c) by (f_equal; lia).
  assert (Hslots : forall i, i < c -> <[(h + c - 1) mod c := Some x]> buf
            !! (((h + c - 1) mod c + i) mod c) =
            Some (match i with 0 => Some x | S i => l !! i end)).
  { intros [|i] Hi.
    - rewrite Nat.add_0_r, Nat.Div0.mod_mod, Hidx, (Hw (c - 1) (Some x) (c - 1) H' ltac:(lia) ltac:(lia)).
      by rewrite decide_True.
    - rewrite mod_back by done. rewrite Hidx, (Hw (c - 1) (Some x) i H' ltac:(lia) ltac:(lia)).
      by rewrite decide_False by lia. }
  destruct (decide (length l = c)) as [Hfull|Hfull].
  - rewrite bool_decide_eq_true_2 by done. rewrite Hfull, Nat.eqb_refl, Nat.ltb_irrefl. simpl.
    split; [|split; [done|]].
    2: { rewrite Hidx, (Hs (c - 1) H' ltac:(lia)). rewrite last_lookup, Hfull. f_equal. lia. }
    constructor; simpl; rewrite ?length_take; try lia.
    + by rewrite length_insert.
    + apply Nat.mod_upper_bound. lia.
    + intros i Hi. rewrite Hslots by done. f_equal. destruct i as [|i]; [done|]. simpl.
      by rewrite lookup_take_lt by lia.
  - rewrite bool_decide_eq_false_2 by done. rewrite (proj2 (Nat.eqb_neq _ _)) by done.
    rewrite (proj2 (Nat.ltb_lt _ _)) by lia. simpl. split; [|done]. constructor; simpl; try lia.
    + by rewrite length_insert.
    + apply Nat.mod_upper_bound. lia.
    + intros i Hi. rewrite Hslots by done. by destruct i.
Qed.

Lemma at_represents r l index :
  represents r l ->
  at_index r index = if (index <? 0)%Z then arr_get l (index + arr_len l) else arr_get l index.
Proof.
  intros H. assert (Hs := slot_of r l). assert (H' := H).
  destruct H as [Hc Hl Hh Hsz Hb Hsl]. destruct r as [c buf h sz]. simpl in *. subst sz.
  assert (Hget : forall i : Z,
    (if (i <? 0)%Z || (Z.of_nat (length l) <=? i)%Z then None else slot buf ((h + Z.to_nat i) mod c))
    = arr_get l i).
  { intros i. unfold arr_get. destruct (i <? 0)%Z eqn:E1; [done|]. simpl_bool.
    destruct (Z.of_nat (length l) <=? i)%Z eqn:E2; simpl_bool.
    - rewrite lookup_ge_None_2; [done|lia].
    - apply Hs; [done|lia]. }
  unfold arr_len. destruct (index <? 0)%Z; apply Hget.
Qed.

Lemma iterator_represents r l : represents r l -> iterator r = Some <$> l.
Proof.
  intros H. unfold iterator. rewrite (rp_size r l H). apply list_eq. intros i.
  rewrite !list_lookup_fmap. destruct (decide (i < length l)) as [Hi|Hi].
  - rewrite lookup_seq_lt by done. simpl. rewrite (slot_of r l _ H) by (pose proof (rp_bound r l H); lia).
    destruct (lookup_lt_is_Some_2 l i Hi) as [x ->]. done.
  - rewrite lookup_seq_ge by lia. by rewrite (lookup_ge_None_2 l i) by lia.
Qed.

Lemma slice_lookup {A} (l : list A) a b i :
  slice l a b !! i = if decide (i < b - a) then l !! (a + i) else None.
Proof.
  unfold slice. destruct (decide (i < b - a)).
  - rewrite lookup_take_lt by done. apply lookup_drop.
  - apply lookup_take_ge. lia.
Qed.

Lemma slice_length {A} (l : list A) a b : b <= length l -> length (slice l a b) = b - a.
Proof. intros. unfold slice. rewrite length_take, length_drop. lia. Qed.

Lemma toArray_represents r l : represents r l -> toArray r = Some <$> l.
Proof.
  intros H. destruct H as [Hc Hl Hh Hsz Hb Hsl]. destruct r as [c buf h sz]. simpl in *. subst sz.
  assert (Hslot : forall i, i < length l -> buf !! ((h + i) mod c) = (Some <$> l) !! i).
  { intros i Hi. rewrite Hsl by lia. rewrite list_lookup_fmap.
    destruct (lookup_lt_is_Some_2 l i Hi) as [x ->]. done. }
  assert (Hover : forall i, length l <= i -> (Some <$> l) !! i = None).
  { intros i Hi. apply lookup_ge_None_2. by rewrite length_fmap. }
  apply list_eq. intros i. destruct (h + length l <=? c) eqn:E.
  - apply Nat.leb_le in E. rewrite slice_lookup. case_decide; [|rewrite Hover; [done|lia]].
    rewrite <- (Nat.mod_small (h + i) c) by lia. apply Hslot. lia.
  - apply Nat.leb_gt in E.
    assert (Hm : (h + length l) mod c = h + length l - c).
    { replace (h + length l) with (h + length l - c + 1 * c) at 1 by lia.
      rewrite Nat.Div0.mod_add. apply Nat.mod_small. lia. }
    rewrite Hm. destruct (decide (i < c - h)) as [Hi|Hi].
    + rewrite lookup_app_l by (rewrite slice_length; lia). rewrite slice_lookup, decide_True by done.
      rewrite <- (Nat.mod_small (h + i) c) by lia. apply Hslot. lia.
    + rewrite lookup_app_r by (rewrite slice_length; lia). rewrite slice_length, slice_lookup by lia.
      case_decide; [|rewrite Hover; [done|lia]].
      rewrite <- Hslot by lia. f_equal. replace (h + i) with (0 + (i - (c - h)) + 1 * c) by lia.
      rewrite Nat.Div0.mod_add. rewrite Nat.mod_small; [done|lia].
Qed.

Lemma clear_represents r l : represents r l -> represents (clear r) [].
Proof.
  intros [Hc Hl Hh Hsz Hb Hsl]. unfold clear. rewrite Hl. by apply new_represents.
Qed.

(** ** Runs *)

Inductive op := OPush (x : T) | OShift | OPop | OUnshift (x : T) | OClear
              | OAt (i : Z) | OPeek | OPeekBack | OLength | OIsFull | OIsEmpty | OToArray | OIterate.

(** What an operation returns. *)
Inductive obs := Item (o : option T) | Count (n : nat) | Flag (b : bool) | Items (l : list (option T)) | Nothing.

Definition ring_op (r : RingBuffer) (o : op) : RingBuffer * obs :=
  match o with
  | OPush x => prod_map id Item (push r x)
  | OShift => prod_map id Item (shift r)
  | OPop => prod_map id Item (pop r)
  | OUnshift x => prod_map id Item (unshift r x)
  | OClear => (clear r, Nothing)
  | OAt i => (r, Item (at_index r i))
  | OPeek => (r, Item (peek r))
  | OPeekBack => (r, Item (peekBack r))
  | OLength => (r, Count (rb_size r))
  | OIsFull => (r, Flag (isFull r))
  | OIsEmpty => (r, Flag (isEmpty r))
  | OToArray => (r, Items (toArray r))
  | OIterate => (r, Items (iterator r))
  end.

(** The bounded queue: a list of at most [c] elements. *)
Definition queue_op (c : nat) (l : list T) (o : op) : list T * obs :=
  let full := bool_decide (length l = c) in
  match o with
  | OPush x => ((if full then tail l else l) ++ [x], Item (if full then head l else None))
  | OShift => (tail l, Item (head l))
  | OPop => (take (length l - 1) l, Item (last l))
  | OUnshift x => (x :: (if full then take (length l - 1) l else l), Item (if full then last l else None))
  | OClear => ([], Nothing)
  | OAt i => (l, Item (if (i <? 0)%Z then arr_get l (i + arr_len l) else arr_get l i))
  | OPeek => (l, Item (head l))
  | OPeekBack => (l, Item (last l))
  | OLength => (l, Count (length l))
  | OIsFull => (l, Flag full)
  | OIsEmpty => (l, Flag (bool_decide (l = [])))
  | OToArray | OIterate => (l, Items (Some <$> l))
  end.

Fixpoint run {S} (step : S -> op -> S * obs) (s : S) (ops : list op) : list obs :=
  match ops with
  | [] => []
  | o :: ops' => let '(s', x) := step s o in x :: run step s' ops'
  end.

Lemma pop_queue r l :
  represents r l ->
  represents (pop r).1 (take (length l - 1) l) /\ rb_capacity (pop r).1 = rb_capacity r /\ (pop r).2 = last l.
Proof.
  intros H. destruct (decide (l = [])) as [->|Hne].
  - rewrite (pop_empty r H). done.
  - destruct (exists_last Hne) as (l' & x & ->). rewrite last_snoc, length_app. simpl.
    rewrite Nat.add_sub, take_app_length. by apply pop_represents.
Qed.

Lemma peekBack_represents r l : represents r l -> peekBack r = last l.
Proof.
  intros H. unfold peekBack. rewrite (at_represents r l _ H), (rp_size r l H). unfold arr_len.
  destruct (decide (l = [])) as [->|Hne]; [done|].
  assert (0 < length l) by (destruct l; simpl; [done|lia]).
  destruct (Z.of_nat (length l) - 1 <? 0)%Z eqn:E; simpl_bool; [lia|].
  unfold arr_get. destruct (Z.of_nat (length l) - 1 <? 0)%Z eqn:E2; simpl_bool; [lia|].
  rewrite last_lookup. f_equal. lia.
Qed.

Lemma ring_step r l o :
  represents r l ->
  represents (ring_op r o).1 (queue_op (rb_capacity r) l o).1 /\
  rb_capacity (ring_op r o).1 = rb_capacity r /\
  (ring_op r o).2 = (queue_op (rb_capacity r) l o).2.
Proof.
  intros H. destruct o; cbn [ring_op queue_op fst snd prod_map];
    try (split; [done|]; split; [done|]; f_equal).
  - destruct (push_represents r l x H) as (? & ? & ?), (push r x); simpl in *; by subst.
  - destruct (shift_represents r l H) as (? & ? & ?), (shift r); simpl in *; by subst.
  - destruct (pop_queue r l H) as (? & ? & ?), (pop r); simpl in *; by subst.
  - destruct (unshift_represents r l x H) as (? & ? & ?), (unshift r x); simpl in *; by subst.
  - split; [by eapply clear_represents|]. done.
  - by apply at_represents.
  - unfold peek. rewrite (at_represents r l _ H). by destruct l.
  - by apply peekBack_represents.
  - by apply rp_size.
  - unfold isFull. rewrite (rp_size r l H). case_bool_decide; [by apply Nat.eqb_eq|by apply Nat.eqb_neq].
  - unfold isEmpty. rewrite (rp_size r l H). by destruct l.
  - by apply toArray_represents.
  - by apply iterator_represents.
Qed.

Lemma ring_run r l ops :
  represents r l -> run ring_op r ops = run (queue_op (rb_capacity r)) l ops.
Proof.
  revert r l. induction ops as [|o ops IH]; intros r l H; [done|]. cbn [run].
  destruct (ring_step r l o H) as (H1 & H2 & H3).
  destruct (ring_op r o) as [r' x], (queue_op (rb_capacity r) l o) as [l' y]. simpl in *. subst y.
  rewrite (IH r' l' H1). by rewrite H2.
Qed.
End ring.

(** The ring buffer is a bounded double-ended queue: every sequence of operations on a new
    buffer of positive capacity returns what it returns on a list, where pushing onto a full
    queue drops and returns the oldest element, and unshifting the newest. *)
Theorem ring_refines_queue {T} (capacity : nat) (ops : list (@op T)) :
  0 < capacity -> run ring_op (new capacity) ops = run (queue_op capacity) [] ops.
Proof. intros Hc. exact (ring_run (new capacity) [] ops (new_represents capacity Hc)). Qed.

Lemma ring_refines_queue_witness :
  run ring_op (new 2) [OPush 1; OPush 2; OPush 3; OUnshift 4; OToArray; OAt (-1)] =
    [Item None; Item None; Item (Some 1); Item (Some 3); Items [Some 4; Some 2]; Item (Some 2)].
Proof. rewrite (ring_refines_queue 2) by lia. reflexivity. Defined.
