(* ===== verification/Calculator.v ===== *)
(** * The calculator tool (tools/calculator.ts)

    An expression is split into tokens and evaluated by recursive descent.  The arithmetic of
    the language (doubles, with [Number] of a literal) is an interface, so the theorems hold
    for it whatever its rounding.  Evaluating over syntax trees instead of numbers shows what
    is computed: the parser accepts exactly a grammar with the documented precedence and
    associativity, its value is the value of the tree, and a tree that is written with the
    parentheses it needs is read back. *)

From S2P Require Import Prelude JsText.

(** ** Tokens *)

Inductive Operator := OAdd | OSub | OMul | ODiv | ORem | OPow.

#[export] Instance Operator_eq_dec : EqDecision Operator.
Proof. solve_decision. Defined.

Inductive Token (Num : Type) :=
| TokNumber (value : Num) (raw : jsstring)
| TokOperator (value : Operator)
| TokParen (opening : bool).
Arguments TokNumber {Num} _ _.
Arguments TokOperator {Num} _.
Arguments TokParen {Num} _.

(** The operators on numbers. *)
Class Arithmetic (Num : Type) := {
  num_add : Num -> Num -> Num;
  num_sub : Num -> Num -> Num;
  num_mul : Num -> Num -> Num;
  num_div : Num -> Num -> Num;
  num_rem : Num -> Num -> Num;
  num_pow : Num -> Num -> Num;
  num_neg : Num -> Num;
}.

(** [Number(s)], [Number.isFinite], and [Object.is(v, -0) ? 0 : v]. *)
Class Numerals (Num : Type) := {
  number_of : jsstring -> Num;
  is_finite : Num -> bool;
  drop_negative_zero : Num -> Num;
}.

Inductive calc_error :=
| InvalidCharacter (c : N)
| InvalidLiteral (text : jsstring)
| InvalidNumber (raw : jsstring)
| InvalidExponent (text : jsstring)
| UnexpectedToken
| UnexpectedEnd
| MissingParenthesis
| EmptyExpression
| NotFinite
| CalcOutOfFuel.

(** ** Tokenizer *)

Definition isDigit (c : N) : bool := is_digit c.
Definition isHexDigit (c : N) : bool :=
  is_digit c || ((97 <=? c) && (c <=? 102))%N || ((65 <=? c) && (c <=? 70))%N.
Definition isBinaryDigit (c : N) : bool := ((c =? 48) || (c =? 49))%N.
Definition isOctalDigit (c : N) : bool := ((48 <=? c) && (c <=? 55))%N.

(** The digits of a literal with the prefix [0x], [0b] or [0o]. *)
Definition literal_digit (next : N) : option (N -> bool) :=
  if ((next =? 120) || (next =? 88))%N then Some isHexDigit
  else if ((next =? 98) || (next =? 66))%N then Some isBinaryDigit
  else if ((next =? 111) || (next =? 79))%N then Some isOctalDigit
  else None.

Definition fraction (s : jsstring) : jsstring * jsstring :=
  match s with
  | c :: rest => if (c =? 46)%N then let (d, r) := span isDigit rest in (c :: d, r) else ([], s)
  | [] => ([], s)
  end.

(** The exponent after the digits [before] of a number. *)
Definition exponent (before s : jsstring) : result calc_error (jsstring * jsstring) :=
  match s with
  | c :: rest =>
      if ((c =? 101) || (c =? 69))%N then
        let '(sign, rest') := match rest with
                              | d :: r => if ((d =? 43) || (d =? 45))%N then ([d], r) else ([], rest)
                              | [] => ([], rest)
                              end in
        match span isDigit rest' with
        | ([], _) => Err (InvalidExponent (before ++ c :: sign))
        | (digits, r) => Ok (before ++ c :: sign ++ digits, r)
        end
      else Ok (before, s)
  | [] => Ok (before, s)
  end.

(** The text of the number at the start of [s], which starts with a digit, or with a point and
    a digit. *)
Definition scan_number (s : jsstring) : result calc_error (jsstring * jsstring) :=
  let decimal :=
    let (int, s1) := span isDigit s in
    let (frac, s2) := fraction s1 in exponent (int ++ frac) s2 in
  match s with
  | c :: next :: rest =>
      if (c =? 48)%N then
        match literal_digit next with
        | Some valid =>
            match span valid rest with
            | ([], _) => Err (InvalidLiteral [c; next])
            | (digits, r) => Ok (c :: next :: digits, r)
            end
        | None => decimal
        end
      else decimal
  | _ => decimal
  end.

Definition starts_number (s : jsstring) : bool :=
  match s with
  | c :: rest => isDigit c || ((c =? 46)%N && match rest with d :: _ => isDigit d | [] => false end)
  | [] => false
  end.

Definition operator_of (c : N) : option Operator :=
  if (c =? 43)%N then Some OAdd else if (c =? 45)%N then Some OSub else if (c =? 42)%N then Some OMul
  else if (c =? 47)%N then Some ODiv else if (c =? 37)%N then Some ORem else None.

Section evaluate.
Context {Num : Type} `{Arithmetic Num} `{Numerals Num}.

Fixpoint tokenize (fuel : nat) (s : jsstring) : result calc_error (list (Token Num)) :=
  match fuel with
  | O => Err CalcOutOfFuel
  | S fuel' =>
      match s with
      | [] => Ok []
      | ch :: rest =>
          let continue_with tok r := let! toks := tokenize fuel' r in Ok (tok :: toks) in
          if is_ws ch then tokenize fuel' rest
          else if ((ch =? 40) || (ch =? 41))%N then continue_with (TokParen (ch =? 40)%N) rest
          else if (ch =? 42)%N && bool_decide (head rest = Some 42%N) then
            continue_with (TokOperator OPow) (drop 1 rest)
          else match operator_of ch with
               | Some o => continue_with (TokOperator o) rest
               | None =>
                   if negb (starts_number s) then Err (InvalidCharacter ch)
                   else
                     let! (raw, r) := scan_number s in
                     let value := number_of raw in
                     if is_finite value then continue_with (TokNumber value raw) r
                     else Err (InvalidNumber raw)
               end
      end
  end.

Definition tokenizeExpression (expression : jsstring) : result calc_error (list (Token Num)) :=
  tokenize (S (length expression)) expression.
End evaluate.

(** ** Parser *)

Section parser.
Context {Num : Type} `{Arithmetic Num}.
Implicit Types (toks : list (Token Num)) (v : Num).

(** What a method of the parser returns: a value and the tokens that are left. *)
Abbreviation answer := (result calc_error (Num * list (Token Num))).

(** The methods call each other; the loops of [parseExpression] and [parseTerm] carry the value
    so far. *)
Fixpoint parseExpression (fuel : nat) toks : answer :=
  match fuel with
  | O => Err CalcOutOfFuel
  | S f => let! (v, r) := parseTerm f toks in expression_loop f v r
  end
with expression_loop (fuel : nat) v toks : answer :=
  match fuel with
  | O => Err CalcOutOfFuel
  | S f =>
      match toks with
      | TokOperator OAdd :: rest => let! (w, r) := parseTerm f rest in expression_loop f (num_add v w) r
      | TokOperator OSub :: rest => let! (w, r) := parseTerm f rest in expression_loop f (num_sub v w) r
      | _ => Ok (v, toks)
      end
  end
with parseTerm (fuel : nat) toks : answer :=
  match fuel with
  | O => Err CalcOutOfFuel
  | S f => let! (v, r) := parseUnary f toks in term_loop f v r
  end
with term_loop (fuel : nat) v toks : answer :=
  match fuel with
  | O => Err CalcOutOfFuel
  | S f =>
      match toks with
      | TokOperator OMul :: rest => let! (w, r) := parseUnary f rest in term_loop f (num_mul v w) r
      | TokOperator ODiv :: rest => let! (w, r) := parseUnary f rest in term_loop f (num_div v w) r
      | TokOperator ORem :: rest => let! (w, r) := parseUnary f rest in term_loop f (num_rem v w) r
      | _ => Ok (v, toks)
      end
  end
with parseUnary (fuel : nat) toks : answer :=
  match fuel with
  | O => Err CalcOutOfFuel
  | S f =>
      match toks with
      | TokOperator OAdd :: rest => parseUnary f rest
      | TokOperator OSub :: rest => let! (v, r) := parseUnary f rest in Ok (num_neg v, r)
      | _ => parsePower f toks
      end
  end
with parsePower (fuel : nat) toks : answer :=
  match fuel with
  | O => Err CalcOutOfFuel
  | S f =>
      let! (v, r) := parsePrimary f toks in
      match r with
      | TokOperator OPow :: rest => let! (w, r') := parsePower f rest in Ok (num_pow v w, r')
      | _ => Ok (v, r)
      end
  end
with parsePrimary (fuel : nat) toks : answer :=
  match fuel with
  | O => Err CalcOutOfFuel
  | S f =>
      match toks with
      | [] => Err UnexpectedEnd
      | TokNumber v _ :: rest => Ok (v, rest)
      | TokParen true :: rest =>
          let! (v, r) := parseExpression f rest in
          match r with
          | TokParen false :: r' => Ok (v, r')
          | _ => Err MissingParenthesis
          end
      | _ => Err UnexpectedToken
      end
  end.

Lemma parseExpression_S f toks :
  parseExpression (S f) toks =
      let! (v, r) := parseTerm f toks in expression_loop f v r.
Proof. reflexivity. Qed.

Lemma expression_loop_S f v toks :
  expression_loop (S f) v toks =
      match toks with
      | TokOperator OAdd :: rest => let! (w, r) := parseTerm f rest in expression_loop f (num_add v w) r
      | TokOperator OSub :: rest => let! (w, r) := parseTerm f rest in expression_loop f (num_sub v w) r
      | _ => Ok (v, toks)
      end.
Proof. reflexivity. Qed.

Lemma parseTerm_S f toks :
  parseTerm (S f) toks =
      let! (v, r) := parseUnary f toks in term_loop f v r.
Proof. reflexivity. Qed.

Lemma term_loop_S f v toks :
  term_loop (S f) v toks =
      match toks with
      | TokOperator OMul :: rest => let! (w, r) := parseUnary f rest in term_loop f (num_mul v w) r
      | TokOperator ODiv :: rest => let! (w, r) := parseUnary f rest in term_loop f (num_div v w) r
      | TokOperator ORem :: rest => let! (w, r) := parseUnary f rest in term_loop f (num_rem v w) r
      | _ => Ok (v, toks)
      end.
Proof. reflexivity. Qed.

Lemma parseUnary_S f toks :
  parseUnary (S f) toks =
      match toks with
      | TokOperator OAdd :: rest => parseUnary f rest
      | TokOperator OSub :: rest => let! (v, r) := parseUnary f rest in Ok (num_neg v, r)
      | _ => parsePower f toks
      end.
Proof. reflexivity. Qed.

Lemma parsePower_S f toks :
  parsePower (S f) toks =
      let! (v, r) := parsePrimary f toks in
      match r with
      | TokOperator OPow :: rest => let! (w, r') := parsePower f rest in Ok (num_pow v w, r')
      | _ => Ok (v, r)
      end.
Proof. reflexivity. Qed.

Lemma parsePrimary_S f toks :
  parsePrimary (S f) toks =
      match toks with
      | [] => Err UnexpectedEnd
      | TokNumber v _ :: rest => Ok (v, rest)
      | TokParen true :: rest =>
          let! (v, r) := parseExpression f rest in
          match r with
          | TokParen false :: r' => Ok (v, r')
          | _ => Err MissingParenthesis
          end
      | _ => Err UnexpectedToken
      end.
Proof. reflexivity. Qed.

Definition parse toks : result calc_error Num :=
  let! (v, r) := parseExpression (6 * length toks + 5) toks in
  match r with [] => Ok v | _ => Err UnexpectedToken end.
End parser.

Definition evaluateExpression {Num} `{Arithmetic Num} `{Numerals Num} (expression : jsstring) :
    result calc_error Num :=
  let! tokens := tokenizeExpression (Num := Num) expression in
  match tokens with
  | [] => Err EmptyExpression
  | _ =>
      let! value := parse tokens in
      if is_finite value then Ok (drop_negative_zero value) else Err NotFinite
  end.

(** The results of the calculations of one call; the first failing one fails the call. *)
Fixpoint execute {Num} `{Arithmetic Num} `{Numerals Num} (print : Num -> jsstring)
    (calculations : list (jsstring * jsstring * jsstring)) : result calc_error (list jsstring) :=
  match calculations with
  | [] => Ok []
  | (expression, prefix, suffix) :: rest =>
      let! value := evaluateExpression expression in
      let! outputs := execute print rest in Ok ((prefix ++ print value ++ suffix) :: outputs)
  end.

(** ** Grammar

    Trees, and which lists of tokens stand for them: sums of terms and products of unary
    expressions group to the left, powers to the right, and a sign binds less than a power. *)

Inductive ast (Num : Type) :=
| ENum (value : Num)
| ENeg (e : ast Num)
| EBin (o : Operator) (a b : ast Num).
Arguments ENum {Num} _.
Arguments ENeg {Num} _.
Arguments EBin {Num} _ _ _.

Definition apply_operator {Num} `{Arithmetic Num} (o : Operator) : Num -> Num -> Num :=
  match o with
  | OAdd => num_add | OSub => num_sub | OMul => num_mul
  | ODiv => num_div | ORem => num_rem | OPow => num_pow
  end.

Fixpoint eval {Num} `{Arithmetic Num} (e : ast Num) : Num :=
  match e with
  | ENum v => v
  | ENeg a => num_neg (eval a)
  | EBin o a b => apply_operator o (eval a) (eval b)
  end.

Definition is_sum (o : Operator) : bool := match o with OAdd | OSub => true | _ => false end.
Definition is_product (o : Operator) : bool := match o with OMul | ODiv | ORem => true | _ => false end.

Section grammar.
Context {Num : Type}.

Inductive gexpr : ast Num -> list (Token Num) -> Prop :=
| g_term e ts : gterm e ts -> gexpr e ts
| g_sum o a b ts us : is_sum o = true -> gexpr a ts -> gterm b us -> gexpr (EBin o a b) (ts ++ TokOperator o :: us)
with gterm : ast Num -> list (Token Num) -> Prop :=
| g_unary e ts : gunary e ts -> gterm e ts
| g_product o a b ts us :
    is_product o = true -> gterm a ts -> gunary b us -> gterm (EBin o a b) (ts ++ TokOperator o :: us)
with gunary : ast Num -> list (Token Num) -> Prop :=
| g_plus e ts : gunary e ts -> gunary e (TokOperator OAdd :: ts)
| g_minus e ts : gunary e ts -> gunary (ENeg e) (TokOperator OSub :: ts)
| g_power e ts : gpower e ts -> gunary e ts
with gpower : ast Num -> list (Token Num) -> Prop :=
| g_primary e ts : gprimary e ts -> gpower e ts
| g_pow a b ts us : gprimary a ts -> gpower b us -> gpower (EBin OPow a b) (ts ++ TokOperator OPow :: us)
with gprimary : ast Num -> list (Token Num) -> Prop :=
| g_number v raw : gprimary (ENum v) [TokNumber v raw]
| g_paren e ts : gexpr e ts -> gprimary e (TokParen true :: ts ++ [TokParen false]).

Scheme gexpr_mut := Minimality for gexpr Sort Prop
with gterm_mut := Minimality for gterm Sort Prop
with gunary_mut := Minimality for gunary Sort Prop
with gpower_mut := Minimality for gpower Sort Prop
with gprimary_mut := Minimality for gprimary Sort Prop.
Combined Scheme grammar_mut from gexpr_mut, gterm_mut, gunary_mut, gpower_mut, gprimary_mut.

Lemma grammar_nonempty :
  (forall e ts, gexpr e ts -> (1 <= length ts)%nat) /\ (forall e ts, gterm e ts -> (1 <= length ts)%nat) /\
  (forall e ts, gunary e ts -> (1 <= length ts)%nat) /\ (forall e ts, gpower e ts -> (1 <= length ts)%nat) /\
  (forall e ts, gprimary e ts -> (1 <= length ts)%nat).
Proof. apply grammar_mut; intros; rewrite ?length_app; cbn [length]; rewrite ?length_app; lia. Qed.
End grammar.

(** ** What the parser accepts stands for the tree it evaluates *)

Section soundness.
Context {Num : Type} `{Arithmetic Num}.
Implicit Types (toks : list (Token Num)) (v : Num).

(** [ts] was read from [toks], [r] is left, and the tree of [ts] has the value [v]. *)
Definition reads (G : ast Num -> list (Token Num) -> Prop) toks v r : Prop :=
  exists e ts, toks = ts ++ r /\ G e ts /\ eval e = v.

(** A loop extends what was read before. *)
Definition extends (G : ast Num -> list (Token Num) -> Prop) v0 toks v r : Prop :=
  forall e0 ts0, G e0 ts0 -> eval e0 = v0 ->
  exists e ts, toks = ts ++ r /\ G e (ts0 ++ ts) /\ eval e = v.

Lemma extends_nil G v toks : extends G v toks v toks.
Proof. intros e0 ts0 HG He. exists e0, []. by rewrite app_nil_r. Qed.

Lemma extends_step (G G' : ast Num -> list (Token Num) -> Prop) o v w toks r v' r' :
  (forall a b ts us, G a ts -> G' b us -> G (EBin o a b) (ts ++ TokOperator o :: us)) ->
  reads G' toks w r -> extends G (apply_operator o v w) r v' r' ->
  extends G v (TokOperator o :: toks) v' r'.
Proof.
  intros Hrule (b & us & -> & Hb & <-) Hext e0 ts0 HG He.
  destruct (Hext (EBin o e0 b) (ts0 ++ TokOperator o :: us)) as (e & ts & -> & HG' & Hv);
    [by apply Hrule | by cbn [eval]; rewrite He |].
  exists e, (TokOperator o :: us ++ ts). repeat split; [by cbn; rewrite <- app_assoc | | done].
  by rewrite <- app_assoc in HG'.
Qed.

Lemma extends_reads (G G' : ast Num -> list (Token Num) -> Prop) v toks r v' r' :
  (forall e ts, G' e ts -> G e ts) ->
  reads G' toks v r -> extends G v r v' r' -> reads G toks v' r'.
Proof.
  intros Hincl (b & us & -> & Hb & Hv) Hext.
  destruct (Hext b us) as (e & ts & -> & HG & Hv'); [auto | done |].
  exists e, (us ++ ts). by rewrite <- app_assoc.
Qed.

Lemma parser_sound f :
  (forall toks v r, parseExpression f toks = Ok (v, r) -> reads gexpr toks v r) /\
  (forall v0 toks v r, expression_loop f v0 toks = Ok (v, r) -> extends gexpr v0 toks v r) /\
  (forall toks v r, parseTerm f toks = Ok (v, r) -> reads gterm toks v r) /\
  (forall v0 toks v r, term_loop f v0 toks = Ok (v, r) -> extends gterm v0 toks v r) /\
  (forall toks v r, parseUnary f toks = Ok (v, r) -> reads gunary toks v r) /\
  (forall toks v r, parsePower f toks = Ok (v, r) -> reads gpower toks v r) /\
  (forall toks v r, parsePrimary f toks = Ok (v, r) -> reads gprimary toks v r).
Proof.
  induction f as [|f (IHe & IHel & IHt & IHtl & IHu & IHp & IHq)]; [repeat split; by intros |].
  repeat split.
  - intros toks v r E. rewrite parseExpression_S in E. destruct (parseTerm f toks) as [[w r1] |] eqn:E1; [|done].
    cbn in E. eapply extends_reads; [by apply g_term | eauto ..].
  - intros v0 toks v r E. rewrite expression_loop_S in E.
    destruct toks as [| [| o |] rest]; [| | destruct o |]; try by simplify_eq/=; apply extends_nil.
    all: destruct (parseTerm f rest) as [[w r1] |] eqn:E1; [|done]; cbn in E.
    all: eapply extends_step; [| by eapply IHt | by eapply IHel]; intros; by apply g_sum.
  - intros toks v r E. rewrite parseTerm_S in E. destruct (parseUnary f toks) as [[w r1] |] eqn:E1; [|done].
    cbn in E. eapply extends_reads; [by apply g_unary | eauto ..].
  - intros v0 toks v r E. rewrite term_loop_S in E.
    destruct toks as [| [| o |] rest]; [| | destruct o |]; try by simplify_eq/=; apply extends_nil.
    all: destruct (parseUnary f rest) as [[w r1] |] eqn:E1; [|done]; cbn in E.
    all: eapply extends_step; [| by eapply IHu | by eapply IHtl]; intros; by apply g_product.
  - intros toks v r E. rewrite parseUnary_S in E.
    assert (parsePower f toks = Ok (v, r) -> reads gunary toks v r) as Hpow.
    { intros E'. destruct (IHp _ _ _ E') as (e & ts & ? & ? & ?). exists e, ts. eauto using g_power. }
    destruct toks as [| [| o |] rest]; [| | destruct o |]; auto.
    + destruct (IHu _ _ _ E) as (e & ts & -> & ? & ?). exists e, (TokOperator OAdd :: ts). eauto using g_plus.
    + destruct (parseUnary f rest) as [[w r1] |] eqn:E1; [|done]. cbn in E. simplify_eq.
      destruct (IHu _ _ _ E1) as (e & ts & -> & ? & <-).
      exists (ENeg e), (TokOperator OSub :: ts). eauto using g_minus.
  - intros toks v r E. rewrite parsePower_S in E.
    destruct (parsePrimary f toks) as [[w r1] |] eqn:E1; [|done]. cbn in E.
    destruct (IHq _ _ _ E1) as (a & ts & -> & Ha & <-).
    assert (Ok (E := calc_error) (eval a, r1) = Ok (v, r) -> reads gpower (ts ++ r1) v r) as Hstop.
    { intros ?; simplify_eq. exists a, ts. eauto using g_primary. }
    destruct r1 as [| [| o |] rest]; [| | destruct o |]; auto.
    destruct (parsePower f rest) as [[w' r2] |] eqn:E2; [|done]. cbn in E. simplify_eq.
    destruct (IHp _ _ _ E2) as (b & us & -> & Hb & <-).
    exists (EBin OPow a b), (ts ++ TokOperator OPow :: us). rewrite <- app_assoc. eauto using g_pow.
  - intros toks v r E. rewrite parsePrimary_S in E.
    destruct toks as [| [w raw | o | []] rest]; simplify_eq.
    + exists (ENum v), [TokNumber v raw]. eauto using g_number.
    + destruct (parseExpression f rest) as [[w r1] |] eqn:E1; [|done]. cbn in E.
      destruct r1 as [| [| | []] r1]; simplify_eq.
      destruct (IHe _ _ _ E1) as (e & ts & -> & He & <-).
      exists e, (TokParen true :: ts ++ [TokParen false]). cbn. rewrite <- app_assoc. eauto using g_paren.
Qed.

Lemma reads_shorter (G : ast Num -> list (Token Num) -> Prop) toks v r :
  (forall e ts, G e ts -> (1 <= length ts)%nat) -> reads G toks v r -> (length r < length toks)%nat.
Proof. intros Hne (e & ts & -> & HG & _). apply Hne in HG. rewrite length_app. lia. Qed.
End soundness.

(** ** The parser always answers, and accepts every list the grammar does *)

Section completeness.
Context {Num : Type} `{Arithmetic Num}.
Implicit Types (toks : list (Token Num)) (v : Num).

Lemma rest_shorter f toks v r :
  (parseTerm f toks = Ok (v, r) \/ parseUnary f toks = Ok (v, r) \/ parsePrimary f toks = Ok (v, r)) ->
  (length r < length toks)%nat.
Proof.
  destruct (parser_sound f) as (_ & _ & Ht & _ & Hu & _ & Hq).
  destruct (grammar_nonempty (Num := Num)) as (_ & Nt & Nu & _ & Nq).
  intros [E | [E | E]]; eapply reads_shorter; [exact Nt | eauto | exact Nu | eauto | exact Nq | eauto].
Qed.

Lemma parser_fuel f :
  (forall toks, (6 * length toks + 5 <= f)%nat -> parseExpression f toks <> Err CalcOutOfFuel) /\
  (forall v toks, (6 * length toks + 1 <= f)%nat -> expression_loop f v toks <> Err CalcOutOfFuel) /\
  (forall toks, (6 * length toks + 4 <= f)%nat -> parseTerm f toks <> Err CalcOutOfFuel) /\
  (forall v toks, (6 * length toks + 1 <= f)%nat -> term_loop f v toks <> Err CalcOutOfFuel) /\
  (forall toks, (6 * length toks + 3 <= f)%nat -> parseUnary f toks <> Err CalcOutOfFuel) /\
  (forall toks, (6 * length toks + 2 <= f)%nat -> parsePower f toks <> Err CalcOutOfFuel) /\
  (forall toks, (6 * length toks + 1 <= f)%nat -> parsePrimary f toks <> Err CalcOutOfFuel).
Proof.
  induction f as [|f (IHe & IHel & IHt & IHtl & IHu & IHp & IHq)]; [repeat split; intros; lia |].
  repeat split.
  - intros toks Hf. rewrite parseExpression_S. specialize (IHt toks ltac:(lia)).
    destruct (parseTerm f toks) as [[v r] |] eqn:E; [|congruence].
    pose proof (rest_shorter f toks v r ltac:(auto)). apply IHel. lia.
  - intros v toks Hf. rewrite expression_loop_S.
    destruct toks as [| [| o |] rest]; [| | destruct o |]; try done; cbn [length] in Hf.
    all: specialize (IHt rest ltac:(lia)); destruct (parseTerm f rest) as [[w r] |] eqn:E; [|congruence].
    all: pose proof (rest_shorter f rest w r ltac:(auto)); apply IHel; lia.
  - intros toks Hf. rewrite parseTerm_S. specialize (IHu toks ltac:(lia)).
    destruct (parseUnary f toks) as [[v r] |] eqn:E; [|congruence].
    pose proof (rest_shorter f toks v r ltac:(auto)). apply IHtl. lia.
  - intros v toks Hf. rewrite term_loop_S.
    destruct toks as [| [| o |] rest]; [| | destruct o |]; try done; cbn [length] in Hf.
    all: specialize (IHu rest ltac:(lia)); destruct (parseUnary f rest) as [[w r] |] eqn:E; [|congruence].
    all: pose proof (rest_shorter f rest w r ltac:(auto)); apply IHtl; lia.
  - intros toks Hf. rewrite parseUnary_S.
    destruct toks as [| [| o |] rest]; [| | destruct o |]; try (apply IHp; lia); cbn [length] in Hf.
    + apply IHu. lia.
    + specialize (IHu rest ltac:(lia)). destruct (parseUnary f rest) as [[w r] |]; congruence.
  - intros toks Hf. rewrite parsePower_S. specialize (IHq toks ltac:(lia)).
    destruct (parsePrimary f toks) as [[v r] |] eqn:E; [|congruence].
    pose proof (rest_shorter f toks v r ltac:(auto)) as Hlen.
    destruct r as [| [| o |] rest]; [| | destruct o |]; try done; cbn [length] in Hlen.
    specialize (IHp rest ltac:(lia)). destruct (parsePower f rest) as [[w r] |]; congruence.
  - intros toks Hf. rewrite parsePrimary_S.
    destruct toks as [| [w raw | o | []] rest]; try done; cbn [length] in Hf.
    specialize (IHe rest ltac:(lia)). destruct (parseExpression f rest) as [[w r] |]; [|congruence].
    by destruct r as [| [| | []] r].
Qed.

(** The operator a list of tokens starts with is one of [p]. *)
Definition starts (p : Operator -> bool) toks : bool :=
  match toks with TokOperator o :: _ => p o | _ => false end.
Definition is_power (o : Operator) : bool := match o with OPow => true | _ => false end.

Lemma term_loop_stop f v toks :
  (1 <= f)%nat -> starts is_product toks = false -> term_loop f v toks = Ok (v, toks).
Proof.
  intros Hf Hs. destruct f as [|f]; [lia|]. rewrite term_loop_S.
  by destruct toks as [| [| [] |] rest].
Qed.

Lemma expression_loop_stop f v toks :
  (1 <= f)%nat -> starts is_sum toks = false -> expression_loop f v toks = Ok (v, toks).
Proof.
  intros Hf Hs. destruct f as [|f]; [lia|]. rewrite expression_loop_S.
  by destruct toks as [| [| [] |] rest].
Qed.

Definition expr_reads (e : ast Num) (ts : list (Token Num)) : Prop :=
  forall rest f, (6 * length (ts ++ rest) + 5 <= f)%nat ->
  starts is_power rest = false -> starts is_product rest = false ->
  exists f', (6 * length rest + 1 <= f')%nat /\
    parseExpression f (ts ++ rest) = expression_loop f' (eval e) rest.
Definition term_reads (e : ast Num) (ts : list (Token Num)) : Prop :=
  forall rest f, (6 * length (ts ++ rest) + 4 <= f)%nat -> starts is_power rest = false ->
  exists f', (6 * length rest + 1 <= f')%nat /\ parseTerm f (ts ++ rest) = term_loop f' (eval e) rest.
Definition unary_reads (e : ast Num) (ts : list (Token Num)) : Prop :=
  forall rest f, (6 * length (ts ++ rest) + 3 <= f)%nat -> starts is_power rest = false ->
  parseUnary f (ts ++ rest) = Ok (eval e, rest).
Definition power_reads (e : ast Num) (ts : list (Token Num)) : Prop :=
  (starts is_sum ts = false) /\
  forall rest f, (6 * length (ts ++ rest) + 2 <= f)%nat -> starts is_power rest = false ->
  parsePower f (ts ++ rest) = Ok (eval e, rest).
Definition primary_reads (e : ast Num) (ts : list (Token Num)) : Prop :=
  (starts (fun _ => true) ts = false /\ ts <> []) /\
  forall rest f, (6 * length (ts ++ rest) + 1 <= f)%nat -> parsePrimary f (ts ++ rest) = Ok (eval e, rest).

Lemma starts_sum_app (p : Operator -> bool) toks rest :
  toks <> [] -> starts p (toks ++ rest) = starts p toks.
Proof. by destruct toks. Qed.

Lemma term_reads_all e ts rest f :
  term_reads e ts -> (6 * length (ts ++ rest) + 4 <= f)%nat ->
  starts is_power rest = false -> starts is_product rest = false ->
  parseTerm f (ts ++ rest) = Ok (eval e, rest).
Proof.
  intros Ht Hf H1 H2. destruct (Ht rest f Hf H1) as (f' & Hf' & ->). apply term_loop_stop; [lia | done].
Qed.

Lemma expr_reads_all e ts rest f :
  expr_reads e ts -> (6 * length (ts ++ rest) + 5 <= f)%nat -> starts (fun _ => true) rest = false ->
  parseExpression f (ts ++ rest) = Ok (eval e, rest).
Proof.
  intros He Hf Hr. destruct (He rest f Hf) as (f' & Hf' & ->); [by destruct rest as [| [] ?] ..|].
  apply expression_loop_stop; [lia | by destruct rest as [| [] ?]].
Qed.

Lemma primary_case e ts : primary_reads e ts -> power_reads e ts.
Proof.
  intros [[Hs Hne] Hq]. split; [by destruct ts as [| [] ?] |].
  intros rest f Hf Hr. destruct f as [|f]; [lia|]. rewrite parsePower_S, Hq by lia.
  by destruct rest as [| [| [] |] rest].
Qed.

Lemma pow_case a b ts us :
  primary_reads a ts -> power_reads b us -> power_reads (EBin OPow a b) (ts ++ TokOperator OPow :: us).
Proof.
  intros [[Hs Hne] Hq] [_ Hp]. split; [rewrite starts_sum_app by done; by destruct ts as [| [] ?] |].
  intros rest f Hf Hr. rewrite <- app_assoc in *. cbn [app] in *. rewrite length_app in Hf. cbn [length] in Hf.
  destruct f as [|f]; [lia|]. rewrite parsePower_S, Hq by (rewrite length_app; cbn [length]; lia).
  by rewrite Hp by (try done; lia).
Qed.

Lemma power_case e ts : (1 <= length ts)%nat -> power_reads e ts -> unary_reads e ts.
Proof.
  intros Hlen [Hs Hp] rest f Hf Hr. destruct f as [|f]; [lia|]. rewrite parseUnary_S.
  destruct ts as [| [| [] |] ts]; try done; cbn [length] in Hlen.
  all: first [lia | by apply Hp; [lia |]].
Qed.

Lemma grammar_complete :
  (forall e ts, gexpr e ts -> expr_reads e ts) /\ (forall e ts, gterm e ts -> term_reads e ts) /\
  (forall e ts, gunary e ts -> unary_reads e ts) /\ (forall e ts, gpower e ts -> power_reads e ts) /\
  (forall e ts, gprimary e ts -> primary_reads e ts).
Proof.
  apply grammar_mut.
  - intros e ts _ Ht rest f Hf H1 H2. destruct f as [|f]; [lia|]. exists f.
    rewrite length_app in Hf. split; [lia|].
    by rewrite parseExpression_S, (term_reads_all e) by (try done; rewrite length_app; lia).
  - intros o a b ts us Ho _ Ha _ Hb rest f Hf H1 H2. rewrite <- app_assoc in *. cbn [app] in *.
    destruct (Ha (TokOperator o :: us ++ rest) f) as (f1 & Hf1 & ->); [done | by destruct o ..|].
    cbn [length] in Hf1. destruct f1 as [|f1]; [lia|]. exists f1. rewrite length_app in Hf1. split; [lia|].
    rewrite expression_loop_S.
    destruct o; try done; by rewrite (term_reads_all b) by (try done; rewrite length_app; lia).
  - intros e ts _ Hu rest f Hf H1. destruct f as [|f]; [lia|]. exists f.
    rewrite length_app in Hf. split; [lia|].
    by rewrite parseTerm_S, Hu by (try done; rewrite length_app; lia).
  - intros o a b ts us Ho _ Ha _ Hb rest f Hf H1. rewrite <- app_assoc in *. cbn [app] in *.
    destruct (Ha (TokOperator o :: us ++ rest) f) as (f1 & Hf1 & ->); [done | by destruct o |].
    cbn [length] in Hf1. destruct f1 as [|f1]; [lia|]. exists f1. rewrite length_app in Hf1. split; [lia|].
    rewrite term_loop_S.
    destruct o; try done; by rewrite Hb by (try done; rewrite length_app; lia).
  - intros e ts _ Hu rest f Hf H1. cbn [app length] in *. destruct f as [|f]; [lia|].
    rewrite parseUnary_S. apply Hu; [lia | done].
  - intros e ts _ Hu rest f Hf H1. cbn [app length] in *. destruct f as [|f]; [lia|].
    by rewrite parseUnary_S, Hu by (try done; lia).
  - intros e ts Hg. apply power_case. destruct (grammar_nonempty (Num := Num)) as (_ & _ & _ & Np & _). by eapply Np.
  - intros e ts _. apply primary_case.
  - intros a b ts us _ Ha _ Hb. by apply pow_case.
  - intros v raw. split; [done|]. intros rest f Hf. destruct f as [|f]; [lia|]. done.
  - intros e ts _ He. split; [done|]. intros rest f Hf. cbn [app length] in *. rewrite <- app_assoc in *.
    destruct f as [|f]; [lia|]. by rewrite parsePrimary_S, (expr_reads_all e) by (try done; lia).
Qed.

Lemma parse_exact toks v : parse toks = Ok v <-> exists e, gexpr e toks /\ eval e = v.
Proof.
  unfold parse. split.
  - destruct (parseExpression _ toks) as [[w r] |] eqn:E; [|done]. intros Hr.
    destruct r; simplify_eq/=. destruct (parser_sound (6 * length toks + 5)) as (He & _).
    destruct (He _ _ _ E) as (e & ts & -> & Hg & <-). exists e. by rewrite app_nil_r.
  - intros (e & Hg & <-). pose proof (proj1 grammar_complete e toks Hg) as He.
    rewrite <- (app_nil_r toks). by rewrite (expr_reads_all e) by (rewrite ?app_nil_r; done || lia).
Qed.

Lemma parse_fuel toks : parse toks <> Err CalcOutOfFuel.
Proof.
  unfold parse. pose proof (proj1 (parser_fuel (6 * length toks + 5)) toks ltac:(lia)) as Hf.
  destruct (parseExpression _ toks) as [[w r] |]; [by destruct r | congruence].
Qed.
End completeness.

(** ** The tokens are the text without its white space *)

Section tokens.
Context {Num : Type} `{Numerals Num}.

Definition operator_text (o : Operator) : jsstring :=
  match o with
  | OAdd => js "+" | OSub => js "-" | OMul => js "*" | ODiv => js "/" | ORem => js "%" | OPow => js "**"
  end.

Definition token_text (t : Token Num) : jsstring :=
  match t with
  | TokNumber _ raw => raw
  | TokOperator o => operator_text o
  | TokParen opening => if opening then js "(" else js ")"
  end.

(** A number's token has the value of its text. *)
Definition token_value_of_text (t : Token Num) : Prop :=
  match t with TokNumber v raw => v = number_of raw /\ is_finite v = true | _ => True end.

Definition without_ws (s : jsstring) : jsstring := filter (fun c => is_ws c = false) s.

Lemma hex_not_ws c : isHexDigit c = true -> is_ws c = false.
Proof.
  unfold isHexDigit, is_ws, is_digit. rewrite !orb_true_iff, !andb_true_iff, !N.leb_le. intros Hc.
  rewrite !orb_false_iff, !andb_false_iff, !N.leb_gt, !N.eqb_neq. lia.
Qed.

Lemma digits_not_ws (p : N -> bool) s :
  (forall c, p c = true -> isHexDigit c = true) -> Forall (fun c => is_ws c = false) (span p s).1.
Proof. intros Hp. eapply Forall_impl; [apply span_Forall |]. cbn. eauto using hex_not_ws. Qed.

Lemma digit_hex c : isDigit c = true -> isHexDigit c = true.
Proof. unfold isHexDigit, isDigit. by intros ->. Qed.

Lemma literal_digit_hex next valid c : literal_digit next = Some valid -> valid c = true -> isHexDigit c = true.
Proof.
  unfold literal_digit. intros E. destruct (_ || _)%N; [by simplify_eq |].
  destruct (_ || _)%N; [| destruct (_ || _)%N]; simplify_eq; intros Hc; apply digit_hex.
  all: unfold isBinaryDigit, isOctalDigit, isDigit, is_digit in *; revert Hc.
  all: rewrite ?orb_true_iff, ?andb_true_iff, ?N.eqb_eq, ?N.leb_le; lia.
Qed.

Lemma literal_prefix_not_ws next valid : literal_digit next = Some valid -> is_ws next = false.
Proof.
  unfold literal_digit. intros E.
  destruct ((_ =? 120) || _)%N eqn:E1; [| destruct ((_ =? 98) || _)%N eqn:E2; [| destruct ((_ =? 111) || _)%N eqn:E3]].
  4: done.
  all: match goal with Hc : (_ || _) = true |- _ => revert Hc end.
  all: rewrite orb_true_iff, !N.eqb_eq; by intros [-> | ->].
Qed.

(** A piece of text at the start of [s], without white space. *)
Definition piece (s raw r : jsstring) : Prop := s = raw ++ r /\ Forall (fun c => is_ws c = false) raw.

Lemma span_piece (p : N -> bool) s :
  (forall c, p c = true -> isHexDigit c = true) -> piece s (span p s).1 (span p s).2.
Proof. intros Hp. split; [by rewrite span_app | by apply digits_not_ws]. Qed.

Lemma fraction_piece s : piece s (fraction s).1 (fraction s).2.
Proof.
  destruct s as [|c rest]; [split; constructor|]. unfold fraction.
  destruct (N.eqb_spec c 46) as [-> |]; [| split; constructor].
  destruct (span_piece isDigit rest digit_hex) as [E F]. destruct (span isDigit rest) as [d r]. cbn in *.
  split; [by rewrite E | by constructor].
Qed.

Lemma exponent_piece before s raw r : 
  Forall (fun c => is_ws c = false) before -> exponent before s = Ok (raw, r) -> piece (before ++ s) raw r /\ (length before <= length raw)%nat.
Proof.
  intros Hb E. assert (Ok (E := calc_error) (before, s) = Ok (raw, r) -> piece (before ++ s) raw r /\ (length before <= length raw)%nat) as Hnone.
  { intros E'. by simplify_eq. }
  destruct s as [|c rest]; [auto|]. unfold exponent in E.
  destruct ((c =? 101) || (c =? 69))%N eqn:Ec; [| auto].
  assert (is_ws c = false) as Hc by (revert Ec; rewrite orb_true_iff, !N.eqb_eq; by intros [-> | ->]).
  destruct (match rest with d :: r => _ | [] => _ end) as [sign rest'] eqn:Es in E.
  assert (piece rest sign rest') as [-> Hs].
  { destruct rest as [|d rest]; [simplify_eq; split; constructor|].
    destruct ((d =? 43) || (d =? 45))%N eqn:Ed; simplify_eq; (split; [done|]); [| constructor].
    repeat constructor. revert Ed; rewrite orb_true_iff, !N.eqb_eq; by intros [-> | ->]. }
  destruct (span_piece isDigit rest' digit_hex) as [E2 F]. destruct (span isDigit rest') as [digits r2]. cbn in E2, F.
  subst rest'. destruct digits as [|d digits]; [done|]. simplify_eq. split.
  - split; [by rewrite <- !app_assoc; cbn; rewrite <- app_assoc |].
    apply Forall_app; split; [done|]. constructor; [done|]. by apply Forall_app.
  - rewrite length_app. lia.
Qed.

Lemma scan_number_piece s raw r :
  starts_number s = true -> scan_number s = Ok (raw, r) -> piece s raw r /\ raw <> [].
Proof.
  intros Hs E.
  assert ((let (int, s1) := span isDigit s in let (frac, s2) := fraction s1 in exponent (int ++ frac) s2) = Ok (raw, r)
    -> piece s raw r /\ raw <> []) as Hdec.
  { destruct (span_piece isDigit s digit_hex) as [E1 F1].
    assert ((span isDigit s).1 ++ (fraction (span isDigit s).2).1 <> []) as Hne.
    { destruct s as [|c rest]; [done|]. cbn in *. destruct (isDigit c) eqn:Ec; [by destruct (span isDigit rest)|].
      cbn in *. by destruct (N.eqb_spec c 46); [destruct (span isDigit rest)|]. }
    destruct (span isDigit s) as [int s1]. cbn [fst snd] in *. destruct (fraction_piece s1) as [E2 F2].
    destruct (fraction s1) as [frac s2]. cbn [fst snd] in *. intros E'.
    apply exponent_piece in E' as [[E3 F3] Hlen]; [| by apply Forall_app].
    split; [split; [by rewrite E1, E2, app_assoc | done] |].
    intros ->. by destruct (int ++ frac); cbn in Hlen; [| lia]. }
  unfold scan_number in E. destruct s as [|c [|next rest]]; [auto ..|].
  destruct (N.eqb_spec c 48) as [-> |]; [| auto].
  destruct (literal_digit next) as [valid|] eqn:Ev; [| auto].
  destruct (span_piece valid rest) as [E2 F]; [intros ?; by eapply literal_digit_hex |].
  destruct (span valid rest) as [digits r2]. cbn in E2, F. subst rest.
  destruct digits as [|d digits]; [done|]. simplify_eq. split; [| done].
  split; [done|]. constructor; [done|]. constructor; [by eapply literal_prefix_not_ws | done].
Qed.

Lemma without_ws_piece raw r : Forall (fun c => is_ws c = false) raw -> without_ws (raw ++ r) = raw ++ without_ws r.
Proof.
  intros F. unfold without_ws. rewrite filter_app. f_equal.
  induction F as [|c l Hc F IH]; [done|]. rewrite filter_cons_True by done. by rewrite IH.
Qed.

Lemma scan_number_error s e : scan_number s = Err e -> e <> CalcOutOfFuel.
Proof.
  assert (forall b t, exponent b t = Err e -> e <> CalcOutOfFuel) as Hexp.
  { intros b [|c rest]; [done|]. unfold exponent. destruct (_ || _)%N; [| done].
    destruct (match rest with d :: r => _ | [] => _ end) as [sign rest'].
    destruct (span isDigit rest') as [[|d digits] r2]; intros ?; by simplify_eq. }
  unfold scan_number. destruct (span isDigit s) as [int s1]. destruct (fraction s1) as [frac s2].
  destruct s as [|c [|next rest]]; [by apply Hexp ..|].
  destruct (c =? 48)%N; [| by apply Hexp]. destruct (literal_digit next); [| by apply Hexp].
  destruct (span _ rest) as [[|d digits] r2]; intros ?; by simplify_eq.
Qed.

Definition tokens_of (s : jsstring) (answer : result calc_error (list (Token Num))) : Prop :=
  match answer with
  | Ok toks => concat (map token_text toks) = without_ws s /\ Forall token_value_of_text toks
  | Err e => e <> CalcOutOfFuel
  end.

Lemma tokens_of_cons s tok r (answer : result calc_error (list (Token Num))) :
  piece s (token_text tok) r -> token_value_of_text tok -> tokens_of r answer ->
  tokens_of s (let! toks := answer in Ok (tok :: toks)).
Proof.
  intros [-> F] Hv. destruct answer as [toks|e]; [| done]. intros [E Hall]. split; [| by constructor].
  cbn [map concat]. by rewrite E, without_ws_piece.
Qed.

Lemma operator_piece c o rest : operator_of c = Some o -> piece (c :: rest) (operator_text o) rest.
Proof.
  unfold operator_of. intros E.
  repeat match type of E with context [(c =? ?k)%N] => destruct (N.eqb_spec c k) as [-> |] in E end.
  all: simplify_eq; (split; [done|]); repeat constructor.
Qed.

Lemma tokenize_lossless f s : (length s < f)%nat -> tokens_of s (tokenize (Num := Num) f s).
Proof.
  revert s. induction f as [|f IH]; intros s Hf; [lia|]. destruct s as [|ch rest]; [done|]. cbn [length] in Hf.
  cbn [tokenize]. destruct (is_ws ch) eqn:Ews.
  { specialize (IH rest ltac:(lia)). destruct (tokenize f rest); [| done].
    unfold tokens_of, without_ws. rewrite filter_cons_False; [done | congruence]. }
  destruct ((ch =? 40) || (ch =? 41))%N eqn:Ep.
  { apply tokens_of_cons with (r := rest); [| done | apply IH; lia].
    revert Ep. rewrite orb_true_iff, !N.eqb_eq. intros [-> | ->]; (split; [done|]); repeat constructor. }
  destruct ((ch =? 42)%N && bool_decide (head rest = Some 42%N)) eqn:Epow.
  { apply andb_true_iff in Epow as [->%N.eqb_eq Hh%bool_decide_eq_true]. destruct rest; simplify_eq/=.
    apply tokens_of_cons with (r := rest); [split; [done|]; repeat constructor | done |].
    apply IH. rewrite drop_0. lia. }
  destruct (operator_of ch) as [o|] eqn:Eo.
  { apply tokens_of_cons with (r := rest); [by apply operator_piece | done | apply IH; lia]. }
  destruct (starts_number (ch :: rest)) eqn:En; [| done]. cbn [negb].
  destruct (scan_number (ch :: rest)) as [[raw r] | e] eqn:Es; [| by eapply scan_number_error].
  apply scan_number_piece in Es as [Hpiece Hne]; [| done].
  destruct (is_finite (number_of raw)) eqn:Efin; [| done].
  apply tokens_of_cons with (r := r); [done | done |]. apply IH.
  destruct Hpiece as [Heq _]. apply (f_equal length) in Heq. rewrite length_app in Heq.
  destruct raw; [done|]. cbn in Heq. lia.
Qed.
End tokens.

(** ** Trees are read back *)

(** The tree algebra: evaluating in it gives the tree that was read. *)
#[export] Instance ast_arithmetic {Num} : Arithmetic (ast Num) := {|
  num_add := EBin OAdd; num_sub := EBin OSub; num_mul := EBin OMul; num_div := EBin ODiv;
  num_rem := EBin ORem; num_pow := EBin OPow; num_neg := ENeg |}.

Fixpoint leaves {Num} (e : ast Num) : ast (ast Num) :=
  match e with
  | ENum v => ENum (ENum v)
  | ENeg a => ENeg (leaves a)
  | EBin o a b => EBin o (leaves a) (leaves b)
  end.

Definition leaf_token {Num} (t : Token Num) : Token (ast Num) :=
  match t with
  | TokNumber v raw => TokNumber (ENum v) raw
  | TokOperator o => TokOperator o
  | TokParen b => TokParen b
  end.

Lemma eval_leaves {Num} (e : ast Num) : eval (leaves e) = e.
Proof. induction e as [| a IH | o a IHa b IHb]; cbn; [done | by rewrite IH | rewrite IHa, IHb; by destruct o]. Qed.

Lemma grammar_leaves {Num} :
  (forall (e : ast Num) ts, gexpr e ts -> gexpr (leaves e) (map leaf_token ts)) /\
  (forall (e : ast Num) ts, gterm e ts -> gterm (leaves e) (map leaf_token ts)) /\
  (forall (e : ast Num) ts, gunary e ts -> gunary (leaves e) (map leaf_token ts)) /\
  (forall (e : ast Num) ts, gpower e ts -> gpower (leaves e) (map leaf_token ts)) /\
  (forall (e : ast Num) ts, gprimary e ts -> gprimary (leaves e) (map leaf_token ts)).
Proof. apply grammar_mut; intros; rewrite ?map_app; cbn; rewrite ?map_app; cbn; by constructor. Qed.

Lemma grammar_unambiguous {Num} (e e' : ast Num) ts : gexpr e ts -> gexpr e' ts -> e = e'.
Proof.
  intros He He'. pose proof (proj1 (grammar_leaves (Num := Num))) as Hl.
  assert (parse (map leaf_token ts) = Ok e) as E by (apply parse_exact; eauto using eval_leaves).
  assert (parse (map leaf_token ts) = Ok e') as E' by (apply parse_exact; eauto using eval_leaves).
  congruence.
Qed.

(** The tokens of a tree, with the parentheses it needs. *)
Definition level {Num} (e : ast Num) : nat :=
  match e with
  | ENum _ => 4
  | ENeg _ => 2
  | EBin o _ _ => match o with OAdd | OSub => 0 | OMul | ODiv | ORem => 1 | OPow => 3 end
  end.

Definition wrap {Num} (l : nat) (e : ast Num) (ts : list (Token Num)) : list (Token Num) :=
  if (l <=? level e)%nat then ts else TokParen true :: ts ++ [TokParen false].

Definition operand_levels (o : Operator) : nat * nat :=
  match o with OAdd | OSub => (0, 1) | OMul | ODiv | ORem => (1, 2) | OPow => (4, 3) end%nat.

Fixpoint show {Num} (spell : Num -> jsstring) (e : ast Num) : list (Token Num) :=
  match e with
  | ENum v => [TokNumber v (spell v)]
  | ENeg a => TokOperator OSub :: wrap 2 a (show spell a)
  | EBin o a b =>
      wrap (operand_levels o).1 a (show spell a) ++ TokOperator o :: wrap (operand_levels o).2 b (show spell b)
  end.

Definition derives {Num} (l : nat) : ast Num -> list (Token Num) -> Prop :=
  match l with 0%nat => gexpr | 1%nat => gterm | 2%nat => gunary | 3%nat => gpower | _ => gprimary end.

Lemma derives_down {Num} l l' (e : ast Num) ts : (l <= l')%nat -> (l' <= 4)%nat -> derives l' e ts -> derives l e ts.
Proof.
  intros Hl Hl'. induction Hl as [| l' Hl IH]; [done|]. intros Hd. apply IH; [lia|].
  destruct l' as [| [| [| [| l']]]]; [by constructor .. | lia].
Qed.

Lemma wrap_derives {Num} l (e : ast Num) ts : (l <= 4)%nat -> derives (level e) e ts -> derives l e (wrap l e ts).
Proof.
  intros Hl Hd. unfold wrap. destruct (Nat.leb_spec l (level e)).
  - eapply derives_down; [done | | done]. destruct e as [| | []]; cbn; lia.
  - apply (derives_down l 4); [lia | lia |]. apply (g_paren e ts).
    apply (derives_down 0 (level e)); [lia | | done]. destruct e as [| | []]; cbn; lia.
Qed.

Lemma show_derives {Num} spell (e : ast Num) : derives (level e) e (show spell e).
Proof.
  induction e as [v | a IH | o a IHa b IHb]; cbn [show level].
  - apply (g_number v).
  - apply g_minus. by apply (wrap_derives 2); [lia|].
  - pose proof (wrap_derives (operand_levels o).1 a _ ltac:(destruct o; cbn; lia) IHa) as Ha.
    pose proof (wrap_derives (operand_levels o).2 b _ ltac:(destruct o; cbn; lia) IHb) as Hb.
    destruct o; by constructor.
Qed.

(** C15: The calculator computes what the usual reading of the expression says.  Its tokens are the
    text without white space, with every number's value that of its text; an expression has a value
    exactly when its tokens stand for a tree of the grammar (powers before signs before products
    before sums; powers group to the right, the others to the left) with a finite value, and
    that tree is the only one; a tree written with no more parentheses than it needs evaluates to its own
    value; and every text is answered. *)
Theorem calculator_exact {Num} `{Arithmetic Num} `{Numerals Num} (expression : jsstring) :
  evaluateExpression (Num := Num) expression <> Err CalcOutOfFuel /\
  (forall v, evaluateExpression (Num := Num) expression = Ok v <->
     exists toks e, tokenizeExpression expression = Ok toks /\ gexpr e toks /\
       is_finite (eval e) = true /\ v = drop_negative_zero (eval e)) /\
  (forall toks, tokenizeExpression (Num := Num) expression = Ok toks ->
     concat (map token_text toks) = without_ws expression /\ Forall token_value_of_text toks) /\
  (forall (e e' : ast Num) toks, gexpr e toks -> gexpr e' toks -> e = e') /\
  (forall spell (e : ast Num), parse (show spell e) = Ok (eval e)).
Proof.
  pose proof (tokenize_lossless (Num := Num) (S (length expression)) expression ltac:(lia)) as Htok.
  fold (tokenizeExpression (Num := Num) expression) in Htok.
  repeat apply conj.
  - unfold evaluateExpression. destruct (tokenizeExpression expression) as [[|t toks]|e]; [done | | naive_solver].
    pose proof (parse_fuel (t :: toks)). destruct (parse (t :: toks)); [by destruct (is_finite _) | congruence].
  - intros v. unfold evaluateExpression. destruct (tokenizeExpression expression) as [toks|e]; [| naive_solver].
    split.
    + destruct toks as [|t toks]; [done|]. destruct (parse (t :: toks)) as [w|] eqn:E; [| done].
      apply parse_exact in E as (e & Hg & <-). destruct (is_finite (eval e)) eqn:Ef; [| done]. naive_solver.
    + intros (toks' & e & ? & Hg & Hf & ->). simplify_eq.
      assert (parse toks' = Ok (eval e)) as E by (apply parse_exact; eauto).
      destruct toks' as [|t toks']; [apply (proj1 grammar_nonempty) in Hg; cbn in Hg; lia |].
      by rewrite E, Hf.
  - intros toks E. by rewrite E in Htok.
  - intros e e' toks. apply grammar_unambiguous.
  - intros spell e. apply parse_exact. exists e. split; [| done].
    apply (derives_down 0 (level e)); [lia | destruct e as [| | []]; cbn; lia | apply show_derives].
Qed.

(** Whole numbers, for examples. *)
Module IntegerArithmetic.
#[export] Instance int_arithmetic : Arithmetic Z :=
  {| num_add := Z.add; num_sub := Z.sub; num_mul := Z.mul; num_div := Z.quot; num_rem := Z.rem;
     num_pow := Z.pow; num_neg := Z.opp |}.
#[export] Instance int_numerals : Numerals Z :=
  {| number_of s := Z.of_N (dec_value s); is_finite _ := true; drop_negative_zero v := v |}.
End IntegerArithmetic.

Section examples.
Import IntegerArithmetic.
Example calc_ex1 : evaluateExpression (Num := Z) (js "2 ** 3 ** 2 - 10 - 2") = Ok 500%Z.
Proof. vm_compute. reflexivity. Qed.
Example calc_ex2 : evaluateExpression (Num := Z) (js "-2 ** 2") = Ok (-4)%Z.
Proof. vm_compute. reflexivity. Qed.
Example calc_ex3 : evaluateExpression (Num := Z) (js "2 ** -1") = Err UnexpectedToken.
Proof. vm_compute. reflexivity. Qed.
Example calc_ex4 : evaluateExpression (Num := Z) (js "(1+2)*3 % 5 x") = Err (InvalidCharacter 120).
Proof. vm_compute. reflexivity. Qed.
End examples.
