(* ===== verification/ShellWords.v ===== *)
(** * The words of a restricted shell command (tools/bash-allowed-prefixes.ts)

    A role agent may run only commands that start with one of a few prefixes.  The check
    splits the command into words itself, [parseShellWords], and refuses everything a
    shell would expand, redirect or run as a second command.  [literal_line] is the
    grammar of what is left: words of literal characters and quoted strings.  The shell
    that runs the command is not part of the repository: it is the class [Shell], with the
    one thing its standard (POSIX, XCU 2.2, 2.3, 2.6 and 2.9) says of lines made only of
    literal words, [sh_line], whose special characters are those the standard lists.  The
    shell differs from the scanner in two points: only spaces and tabs separate words, and a
    word that starts with [#] opens a comment.  The theorems say that the scanner accepts
    exactly its grammar, when the shell runs the same words, and that [shellQuote] makes any
    words safe. *)

From S2P Require Import Prelude JsText.

Local Open Scope N_scope.

(** ** Characters *)

Definition SQUOTE : N := 39.
Definition DQUOTE : N := 34.
Definition BACKTICK : N := 96.
Definition DOLLAR : N := 36.
Definition BSLASH : N := 92.
Definition TILDE : N := 126.
Definition EQUALS : N := 61.
Definition COLON : N := 58.
Definition PLUS : N := 43.
Definition HASH : N := 35.
Definition LPAREN : N := 40.

Definition mem (c : N) (l : list N) : bool := existsb (N.eqb c) l.
Arguments mem : simpl never.

Definition SHELL_CONTROL_CHARS : list N := js ";|&<>()".
Definition UNSAFE_UNQUOTED_EXPANSION_CHARS : list N := js "$*?[]{}".

Definition is_name_start (c : N) : bool :=
  ((65 <=? c) && (c <=? 90)) || is_lower c || (c =? 95).
Definition is_name_char (c : N) : bool := is_name_start c || is_digit c.

(** The pattern [[A-Za-z_][A-Za-z0-9_]*\+?], anchored at both ends. *)
Definition name_chars (s : jsstring) : bool :=
  match span is_name_char s with
  | (_, []) => true
  | (_, [c]) => c =? PLUS
  | _ => false
  end.

Definition ASSIGNMENT_NAME_PATTERN (s : jsstring) : bool :=
  match s with
  | [] => false
  | c :: s' => is_name_start c && name_chars s'
  end.

(** ** parseShellWords *)

Inductive quote := SingleQ | DoubleQ.

Inductive word_reason :=
| CommandSubstitution
| ExpansionCharacter (c : N)
| BackslashEscape
| MultipleCommands
| ControlOperator (c : N)
| UnterminatedQuote.

(** The variables of the loop. *)
Record scan := Scan {
  sc_words : list jsstring;
  sc_current : jsstring;
  sc_quote : option quote;
  sc_wordStarted : bool;
  sc_assignmentNameCandidate : bool;
  sc_sawAssignmentEquals : bool;
  sc_tildeExpandable : bool;
}.

Definition scan_init : scan := Scan [] [] None false true false false.

(** One round of the loop, with the next character of the command. *)
Definition scan_char (st : scan) (char : N) (next : option N) : result word_reason scan :=
  let '(Scan words current quote wordStarted candidate sawEquals tilde) := st in
  let substitution := (char =? BACKTICK) || ((char =? DOLLAR) && bool_decide (next = Some LPAREN)) in
  match quote with
  | Some SingleQ =>
      if char =? SQUOTE then Ok (Scan words current None wordStarted candidate sawEquals tilde)
      else Ok (Scan words (current ++ [char]) quote wordStarted candidate sawEquals tilde)
  | Some DoubleQ =>
      if char =? DQUOTE then Ok (Scan words current None wordStarted candidate sawEquals tilde)
      else if substitution then Err CommandSubstitution
      else if char =? DOLLAR then Err (ExpansionCharacter DOLLAR)
      else if char =? BSLASH then Err BackslashEscape
      else Ok (Scan words (current ++ [char]) quote wordStarted candidate sawEquals tilde)
  | None =>
      if char =? SQUOTE then
        Ok (Scan words current (Some SingleQ) true (candidate && sawEquals) sawEquals false)
      else if char =? DQUOTE then
        Ok (Scan words current (Some DoubleQ) true (candidate && sawEquals) sawEquals false)
      else if substitution then Err CommandSubstitution
      else if (char =? LF) || (char =? CR) then Err MultipleCommands
      else if mem char SHELL_CONTROL_CHARS then Err (ControlOperator char)
      else if mem char UNSAFE_UNQUOTED_EXPANSION_CHARS then Err (ExpansionCharacter char)
      else if (char =? TILDE) && (negb wordStarted || tilde) then Err (ExpansionCharacter TILDE)
      else if is_ws char then
        Ok (Scan (if wordStarted then words ++ [current] else words)
                 (if wordStarted then [] else current) None false true false false)
      else if char =? BSLASH then Err BackslashEscape
      else
        let '(candidate', sawEquals', tilde') :=
          if (char =? EQUALS) && negb sawEquals then
            if candidate && ASSIGNMENT_NAME_PATTERN current then (candidate, true, true)
            else (false, sawEquals, false)
          else if (char =? COLON) && sawEquals then (candidate, sawEquals, true)
          else (candidate, sawEquals, false) in
        Ok (Scan words (current ++ [char]) None true candidate' sawEquals' tilde')
  end.

Fixpoint scan_chars (st : scan) (command : jsstring) : scan * option word_reason :=
  match command with
  | [] => (st, None)
  | char :: rest =>
      match scan_char st char (head rest) with
      | Err reason => (st, Some reason)
      | Ok st' => scan_chars st' rest
      end
  end.

Definition parseShellWords (command : jsstring) : list jsstring * option word_reason :=
  let '(st, reason) := scan_chars scan_init command in
  match reason with
  | Some r => (sc_words st, Some r)
  | None =>
      match sc_quote st with
      | Some _ => (sc_words st, Some UnterminatedQuote)
      | None => (if sc_wordStarted st then sc_words st ++ [sc_current st] else sc_words st, None)
      end
  end.

(** ** shellQuote *)

(** [value.replace(/'/g, X)] between two single quotes. *)
Fixpoint quote_body (value : jsstring) : jsstring :=
  match value with
  | [] => []
  | c :: rest =>
      (if c =? SQUOTE then [SQUOTE; DQUOTE; SQUOTE; DQUOTE; SQUOTE] else [c]) ++ quote_body rest
  end.

Definition shellQuote (value : jsstring) : jsstring := SQUOTE :: quote_body value ++ [SQUOTE].

Example words_ex1 :
  parseShellWords (js "gjc state read --mode 'ralplan' HEAD~1 a=b") =
    ([js "gjc"; js "state"; js "read"; js "--mode"; js "ralplan"; js "HEAD~1"; js "a=b"], None).
Proof. vm_compute. reflexivity. Qed.
Example words_ex2 : parseShellWords (js "x a=~root") = ([js "x"], Some (ExpansionCharacter TILDE)).
Proof. vm_compute. reflexivity. Qed.

(** ** The grammar of literal commands *)

(** A word is made of literal characters and quoted strings. *)
Inductive piece :=
| Plain (c : N)
| Single (s : jsstring)
| Double (s : jsstring).

#[export] Instance piece_eq_dec : EqDecision piece.
Proof. solve_decision. Defined.

Definition piece_text (p : piece) : jsstring :=
  match p with
  | Plain c => [c]
  | Single s => SQUOTE :: s ++ [SQUOTE]
  | Double s => DQUOTE :: s ++ [DQUOTE]
  end.

Definition piece_value (p : piece) : jsstring :=
  match p with Plain c => [c] | Single s | Double s => s end.

Definition word_text (w : list piece) : jsstring := w ≫= piece_text.
Definition word_value (w : list piece) : jsstring := w ≫= piece_value.

(** The characters that are special to a shell outside quotes, and inside double quotes. *)
Definition special (c : N) : bool :=
  mem c [SQUOTE; DQUOTE; BACKTICK; BSLASH; LF; CR] || mem c SHELL_CONTROL_CHARS
  || mem c UNSAFE_UNQUOTED_EXPANSION_CHARS.
Definition special_dq (c : N) : bool := mem c [DQUOTE; BACKTICK; DOLLAR; BSLASH].

(** [blank] are the characters that separate words. *)
Definition piece_ok (blank : N -> bool) (p : piece) : bool :=
  match p with
  | Plain c => negb (special c) && negb (blank c)
  | Single s => forallb (fun c => negb (c =? SQUOTE)) s
  | Double s => forallb (fun c => negb (special_dq c)) s
  end.

(** [w] starts with an assignment [name=], and [rest] is the value so far. *)
Definition assigns (w rest : list piece) : Prop :=
  exists name, ASSIGNMENT_NAME_PATTERN name = true /\ w = (Plain <$> name ++ [EQUALS]) ++ rest.

(** A tilde after [pre] would be expanded by the shell. *)
Definition tilde_expands (pre : list piece) : Prop :=
  pre = [] \/ exists rest, assigns pre rest /\ (rest = [] \/ last rest = Some (Plain COLON)).

Definition word_ok (blank : N -> bool) (w : list piece) : Prop :=
  w <> [] /\ Forall (fun p => piece_ok blank p = true) w /\
  (forall pre post, w = pre ++ Plain TILDE :: post -> ~ tilde_expands pre).

(** Lines of literal words separated by [blank] characters. *)
Inductive literal_line (blank : N -> bool) : jsstring -> list (list piece) -> Prop :=
| line_blank s : Forall (fun c => blank c = true) s -> literal_line blank s []
| line_word sep w rest ws :
    Forall (fun c => blank c = true) sep -> word_ok blank w ->
    literal_line blank rest ws -> from_option (fun c => blank c = true) True (head rest) ->
    literal_line blank (sep ++ word_text w ++ rest) (w :: ws).

(** The white space of the source that separates words. *)
Definition js_blank (c : N) : bool := is_ws c && negb (mem c [LF; CR]).

(** ** The shell *)

(** What separates words for a shell: spaces and tabs. *)
Definition sh_blank (c : N) : bool := mem c [32; 9].

(** The characters a shell does not take as themselves outside quotes (XCU 2.2): the
    operators, the expansions, the backquote, the backslash, the quotes, the blanks and the
    newline, with the pattern and brace characters; and inside double quotes (XCU 2.2.3). *)
Definition sh_special (c : N) : bool := mem c (js "|&;<>()$*?[]{}" ++ [96; 92; 34; 39; 32; 9; 10]).
Definition sh_special_dq (c : N) : bool := mem c [36; 96; 92; 34].

Definition sh_piece (p : piece) : bool :=
  match p with
  | Plain c => negb (sh_special c)
  | Single s => forallb (fun c => negb (c =? 39)) s
  | Double s => forallb (fun c => negb (sh_special_dq c)) s
  end.

(** A name is letters, digits and underscores, not starting with a digit (XCU 3.216); an
    assignment is a name, perhaps a plus sign, and an equals sign. *)
Definition sh_letter (c : N) : Prop := 65 <= c <= 90 \/ 97 <= c <= 122 \/ c = 95.

Definition sh_name (name : jsstring) : Prop :=
  exists c rest, name = c :: rest /\ sh_letter c /\ Forall (fun c => sh_letter c \/ 48 <= c <= 57) rest.

Definition sh_assigns (w rest : list piece) : Prop :=
  exists name plus, sh_name name /\ (plus = [] \/ plus = [43]) /\ w = (Plain <$> name ++ plus ++ [61]) ++ rest.

(** A tilde is expanded at the start of a word, and in the value of an assignment after the
    equals sign and after a colon (XCU 2.6.1). *)
Definition sh_tilde (pre : list piece) : Prop :=
  pre = [] \/ exists rest, sh_assigns pre rest /\ (rest = [] \/ last rest = Some (Plain 58)).

(** A literal word: it is not empty, opens no comment, and nothing in it is expanded. *)
Definition sh_word (w : list piece) : Prop :=
  w <> [] /\ Forall (fun p => sh_piece p = true) w /\ head w <> Some (Plain 35)
  /\ (forall pre post, w = pre ++ Plain 126 :: post -> ~ sh_tilde pre).

(** A line of literal words. *)
Inductive sh_line : jsstring -> list (list piece) -> Prop :=
| sh_end s : Forall (fun c => sh_blank c = true) s -> sh_line s []
| sh_next sep w rest ws :
    Forall (fun c => sh_blank c = true) sep -> sh_word w ->
    sh_line rest ws -> from_option (fun c => sh_blank c = true) True (head rest) ->
    sh_line (sep ++ word_text w ++ rest) (w :: ws).

(** The words that are reserved when they come first and unquoted (XCU 2.4, and those of bash). *)
Definition RESERVED_WORDS : list jsstring :=
  [js "!"; js "{"; js "}"; js "case"; js "do"; js "done"; js "elif"; js "else"; js "esac"; js "fi"; js "for";
   js "if"; js "in"; js "then"; js "until"; js "while"; js "[["; js "]]"; js "function"; js "select"; js "time"; js "coproc"].

(** The first word names a command: it is no reserved word and no assignment (XCU 2.9.1). *)
Definition names_command (w : list piece) : Prop :=
  (forall r, r ∈ RESERVED_WORDS -> w <> Plain <$> r) /\ ~ exists rest, sh_assigns w rest.

(** [runs line commands]: the shell, given [line], runs these commands in this order, each
    with its words; no alias is defined.  [runs_literal] is what the standard says of a line
    of literal words whose first word names a command: it is one simple command, whose words
    are those words with their quotes removed. *)
Class Shell := {
  runs : jsstring -> list (list jsstring) -> Prop;
  runs_literal : forall line w ws, sh_line line (w :: ws) -> names_command w ->
    forall commands, runs line commands <-> commands = [word_value <$> w :: ws]
}.

(** ** Facts on the flags of a word *)

Definition after (st : scan) (p : piece) : scan :=
  let '(Scan words current _ wordStarted candidate sawEquals tilde) := st in
  match p with
  | Plain char =>
      let '(candidate', sawEquals', tilde') :=
        if (char =? EQUALS) && negb sawEquals then
          if candidate && ASSIGNMENT_NAME_PATTERN current then (candidate, true, true)
          else (false, sawEquals, false)
        else if (char =? COLON) && sawEquals then (candidate, sawEquals, true)
        else (candidate, sawEquals, false) in
      Scan words (current ++ [char]) None true candidate' sawEquals' tilde'
  | Single s | Double s =>
      Scan words (current ++ s) None true (candidate && sawEquals) sawEquals false
  end.

(** The scanner between two pieces of a word. *)
Definition at_word (words : list jsstring) (w : list piece) : scan :=
  foldl after (Scan words [] None false true false false) w.

Lemma at_word_snoc words w p : at_word words (w ++ [p]) = after (at_word words w) p.
Proof. apply foldl_snoc. Qed.

Lemma name_no_equals name : ASSIGNMENT_NAME_PATTERN name = true -> EQUALS ∉ name.
Proof.
  assert (Hns : is_name_start EQUALS = false) by reflexivity.
  assert (Hnc : is_name_char EQUALS = false) by reflexivity.
  destruct name as [|c s]; [done|]. simpl. intros [Hc Hs]%andb_prop.
  unfold name_chars in Hs. pose proof (span_app is_name_char s) as Happ.
  pose proof (span_Forall is_name_char s) as Hall. destruct (span is_name_char s) as [a b].
  simpl in *. subst s. rewrite Forall_forall in Hall.
  intros [<-|Hin]%elem_of_cons; [congruence|]. apply elem_of_app in Hin as [Hin|Hin].
  - apply Hall in Hin. congruence.
  - destruct b as [|d [|]]; [by inversion Hin| |done]. apply N.eqb_eq in Hs as ->.
    by apply list_elem_of_singleton in Hin.
Qed.

Lemma assigns_snoc w rest p : assigns w rest -> assigns (w ++ [p]) (rest ++ [p]).
Proof. intros (name & ? & ->). exists name. by rewrite app_assoc. Qed.

Lemma assigns_snoc_inv w rest p :
  assigns (w ++ [p]) rest ->
  (rest = [] /\ p = Plain EQUALS /\
    exists name, ASSIGNMENT_NAME_PATTERN name = true /\ w = Plain <$> name) \/
  exists rest', rest = rest' ++ [p] /\ assigns w rest'.
Proof.
  intros (name & Hn & E). destruct (decide (rest = [])) as [->|Hne].
  - left. rewrite app_nil_r, fmap_app in E. simpl in E. apply app_inj_tail in E as [-> ->].
    eauto.
  - right. destruct (exists_last Hne) as (rest' & q & ->). rewrite app_assoc in E.
    apply app_inj_tail in E as [-> ->]. exists rest'. split; [done|]. by exists name.
Qed.

Lemma plain_not_assigns name rest w :
  EQUALS ∉ name -> w = Plain <$> name -> ~ assigns w rest.
Proof.
  intros Hn -> (name' & _ & E). apply Hn.
  assert (Hin : Plain EQUALS ∈ Plain <$> name).
  { rewrite E, fmap_app. set_solver. }
  apply list_elem_of_fmap in Hin as (c & [= <-] & ?). done.
Qed.

Lemma word_value_snoc w p : word_value (w ++ [p]) = word_value w ++ piece_value p.
Proof. unfold word_value. rewrite bind_app. simpl. by rewrite app_nil_r. Qed.

Lemma word_text_snoc w p : word_text (w ++ [p]) = word_text w ++ piece_text p.
Proof. unfold word_text. rewrite bind_app. simpl. by rewrite app_nil_r. Qed.

Lemma word_value_plain s : word_value (Plain <$> s) = s.
Proof. induction s; [done|]. unfold word_value in *. cbn. by rewrite IHs. Qed.

(** The flags of the loop mean what their comments say. *)
Record flags_of (st : scan) (words : list jsstring) (w : list piece) : Prop := {
  fl_words : sc_words st = words;
  fl_current : sc_current st = word_value w;
  fl_quote : sc_quote st = None;
  fl_started : sc_wordStarted st = bool_decide (w <> []);
  fl_saw : sc_sawAssignmentEquals st = true <-> exists rest, assigns w rest;
  fl_candidate : sc_sawAssignmentEquals st = false ->
    sc_assignmentNameCandidate st = true <-> exists name, w = Plain <$> name /\ EQUALS ∉ name;
  fl_tilde : sc_tildeExpandable st = true <->
    exists rest, assigns w rest /\ (rest = [] \/ last rest = Some (Plain COLON));
}.

Lemma snoc_ne {A} (l : list A) x : l ++ [x] <> [].
Proof. by destruct l. Qed.
#[local] Hint Resolve snoc_ne : core.

Lemma not_assigned_snoc w p :
  ~ (exists rest, assigns w rest) ->
  (p = Plain EQUALS -> forall name, w = Plain <$> name -> ASSIGNMENT_NAME_PATTERN name = false) ->
  ~ (exists rest, assigns (w ++ [p]) rest).
Proof.
  intros Hno Hp [rest [(-> & -> & name & Hn & ->) | (rest' & -> & H)]%assigns_snoc_inv]; [|eauto].
  rewrite (Hp eq_refl name eq_refl) in Hn. done.
Qed.

(** After a first [=]. *)
Lemma assigned_tilde_snoc w p rest0 :
  assigns w rest0 ->
  (exists rest, assigns (w ++ [p]) rest /\ (rest = [] \/ last rest = Some (Plain COLON))) <->
  p = Plain COLON.
Proof.
  intros Ha. split.
  - intros (rest & H & Hr). apply assigns_snoc_inv in H as [(-> & -> & name & Hn & ->) | (rest' & -> & H)].
    + destruct (plain_not_assigns name rest0 _ (name_no_equals _ Hn) eq_refl Ha).
    + destruct Hr as [Hr|Hr]; [by destruct (snoc_ne _ _ Hr)|]. rewrite last_snoc in Hr. congruence.
  - intros ->. exists (rest0 ++ [Plain COLON]). split; [by apply assigns_snoc|]. right. by rewrite last_snoc.
Qed.

Lemma no_plain_snoc w p :
  (forall c, p <> Plain c) -> ~ (exists name, w ++ [p] = Plain <$> name /\ EQUALS ∉ name).
Proof.
  intros Hp (name & E & _). assert (Hin : p ∈ Plain <$> name) by (rewrite <- E; set_solver).
  apply list_elem_of_fmap in Hin as (c & -> & _). by apply (Hp c).
Qed.

Lemma plain_snoc w c :
  (exists name, w ++ [Plain c] = Plain <$> name /\ EQUALS ∉ name) <->
  (exists name, w = Plain <$> name /\ EQUALS ∉ name) /\ c <> EQUALS.
Proof.
  split.
  - intros (name & E & Hn). destruct (decide (name = [])) as [->|Hne]; [by destruct (snoc_ne _ _ E)|].
    destruct (exists_last Hne) as (name' & d & ->). rewrite fmap_app in E. simpl in E.
    apply app_inj_tail in E as [-> [= ->]]. split; [|set_solver]. exists name'. set_solver.
  - intros ((name & -> & Hn) & Hc). exists (name ++ [c]). rewrite fmap_app. set_solver.
Qed.

(** The flags after a quoted string. *)
Lemma flags_quoted st words w p s :
  flags_of st words w -> p = Single s \/ p = Double s -> flags_of (after st p) words (w ++ [p]).
Proof.
  intros [Hw Hc Hq Hst Hsaw Hcand Htil] Hp. destruct st as [ws cur q sta cand saw til].
  simpl in Hw, Hc, Hq, Hst, Hsaw, Hcand, Htil.
  assert (Hplain : forall c, p <> Plain c) by (intros c ->; by destruct Hp).
  assert (Hval : after (Scan ws cur q sta cand saw til) p
            = Scan ws (cur ++ piece_value p) None true (cand && saw) saw false)
    by (destruct Hp as [-> | ->]; reflexivity).
  rewrite Hval. clear Hval. subst ws cur. destruct saw.
  - destruct (proj1 Hsaw eq_refl) as [rest Ha].
    constructor; simpl; rewrite ?word_value_snoc, ?bool_decide_eq_true_2 by auto; try done.
    + split; [|done]. eauto using assigns_snoc.
    + rewrite (assigned_tilde_snoc _ _ _ Ha). split; [done|]. intros E. by destruct (Hplain _ E).
  - assert (Hno : ~ exists rest, assigns w rest) by (intros H; by apply Hsaw in H).
    assert (Hno' : ~ exists rest, assigns (w ++ [p]) rest)
      by (apply not_assigned_snoc; [done|intros ->; by destruct (Hplain EQUALS)]).
    constructor; simpl; rewrite ?word_value_snoc, ?bool_decide_eq_true_2 by auto; try done.
    + rewrite andb_false_r. intros _. split; [done|]. by intros ?%no_plain_snoc.
    + split; [done|]. intros (rest & Ha & _). destruct Hno'. eauto.
Qed.

Lemma flags_plain st words w c :
  flags_of st words w -> flags_of (after st (Plain c)) words (w ++ [Plain c]).
Proof.
  intros [Hw Hc Hq Hst Hsaw Hcand Htil]. destruct st as [ws cur q sta cand saw til]. simpl in *.
  subst ws cur. destruct saw.
  - destruct (proj1 Hsaw eq_refl) as [rest Ha]. rewrite andb_false_r, andb_true_r.
    assert (Htil' : (exists rest, assigns (w ++ [Plain c]) rest
              /\ (rest = [] \/ last rest = Some (Plain COLON))) <-> c = COLON).
    { rewrite (assigned_tilde_snoc _ _ _ Ha). split; congruence. }
    destruct (c =? COLON) eqn:E; [apply N.eqb_eq in E as ->|apply N.eqb_neq in E];
      constructor; simpl; rewrite ?word_value_snoc, ?bool_decide_eq_true_2 by auto; try done;
      try (split; [eauto using assigns_snoc|done]); rewrite Htil'; done.
  - assert (Hno : ~ exists rest, assigns w rest) by (intros H; by apply Hsaw in H).
    specialize (Hcand eq_refl). rewrite andb_true_r, andb_false_r.
    destruct (decide (c = EQUALS)) as [->|Hne].
    + rewrite N.eqb_refl. destruct (cand && _) eqn:Eok.
      * apply andb_prop in Eok as [-> Hpat]. destruct (proj1 Hcand eq_refl) as (name & -> & Hn).
        rewrite word_value_plain in *.
        assert (Ha : assigns ((Plain <$> name) ++ [Plain EQUALS]) [])
          by (exists name; rewrite app_nil_r, fmap_app; done).
        constructor; simpl; rewrite ?word_value_snoc, ?word_value_plain, ?bool_decide_eq_true_2 by auto;
          try done; split; eauto.
      * assert (Hno' : ~ exists rest, assigns (w ++ [Plain EQUALS]) rest).
        { apply not_assigned_snoc; [done|]. intros _ name ->. rewrite word_value_plain in Eok.
          destruct (ASSIGNMENT_NAME_PATTERN name) eqn:Ep; [|done]. rewrite andb_true_r in Eok.
          rewrite Eok in Hcand. exfalso. assert (false = true); [|done]. apply Hcand.
          exists name. split; [done|]. by apply name_no_equals. }
        constructor; simpl; rewrite ?word_value_snoc, ?bool_decide_eq_true_2 by auto; try done.
        -- intros _. rewrite plain_snoc. split; [done|]. by intros [_ ?].
        -- split; [done|]. intros (rest & Ha & _). destruct Hno'. eauto.
    + apply N.eqb_neq in Hne as Hne'. rewrite Hne'.
      assert (Hno' : ~ exists rest, assigns (w ++ [Plain c]) rest)
        by (apply not_assigned_snoc; [done|]; intros [= ?]; done).
      constructor; simpl; rewrite ?word_value_snoc, ?bool_decide_eq_true_2 by auto; try done.
      * intros _. rewrite plain_snoc, Hcand. tauto.
      * split; [done|]. intros (rest & Ha & _). destruct Hno'. eauto.
Qed.

Lemma at_word_flags words w : flags_of (at_word words w) words w.
Proof.
  induction w as [|p w IH] using rev_ind.
  - assert (Hno : ~ exists rest, assigns [] rest) by (intros (rest & [|c name] & ? & ?); done).
    constructor; simpl; try done; try (split; [done|intros ?; by destruct Hno]).
    + intros _. split; [|done]. intros _. exists []. set_solver.
    + split; [done|]. intros (rest & Ha & _). destruct Hno. eauto.
  - rewrite at_word_snoc. destruct p; eauto using flags_plain, flags_quoted.
Qed.

(** ** The scanner reads pieces *)

Definition open_quote (st : scan) (q : quote) : scan :=
  let '(Scan words current _ _ candidate sawEquals _) := st in
  Scan words current (Some q) true (candidate && sawEquals) sawEquals false.

Definition close_quote (st : scan) (s : jsstring) : scan :=
  let '(Scan words current _ started candidate sawEquals tilde) := st in
  Scan words (current ++ s) None started candidate sawEquals tilde.

Definition end_word (st : scan) : scan :=
  let '(Scan words current _ started _ _ _) := st in
  Scan (if started then words ++ [current] else words) (if started then [] else current)
       None false true false false.

Definition tilde_stops (st : scan) (c : N) : bool :=
  (c =? TILDE) && (negb (sc_wordStarted st) || sc_tildeExpandable st).

(** What one character does outside quotes. *)
Inductive outside (st : scan) (c : N) : result word_reason scan -> Prop :=
| out_single : c = SQUOTE -> outside st c (Ok (open_quote st SingleQ))
| out_double : c = DQUOTE -> outside st c (Ok (open_quote st DoubleQ))
| out_blank : js_blank c = true -> special c = false -> outside st c (Ok (end_word st))
| out_plain :
    piece_ok js_blank (Plain c) = true -> tilde_stops st c = false ->
    outside st c (Ok (after st (Plain c)))
| out_err r :
    c <> SQUOTE -> c <> DQUOTE -> special c = true \/ tilde_stops st c = true -> outside st c (Err r).

Lemma special_spec c :
  special c = (c =? SQUOTE) || (c =? DQUOTE) || (c =? BACKTICK) || (c =? BSLASH)
    || ((c =? LF) || (c =? CR)) || mem c SHELL_CONTROL_CHARS || mem c UNSAFE_UNQUOTED_EXPANSION_CHARS.
Proof.
  unfold special. unfold mem at 1. cbn [existsb]. rewrite orb_false_r. by rewrite !orb_assoc.
Qed.

Lemma dollar_special c : c = DOLLAR -> mem c UNSAFE_UNQUOTED_EXPANSION_CHARS = true.
Proof. by intros ->. Qed.

Lemma ws_js_blank c : (c =? LF) || (c =? CR) = false -> js_blank c = is_ws c.
Proof. unfold js_blank, mem. cbn [existsb]. intros H. rewrite orb_false_r, H. by rewrite andb_true_r. Qed.

Lemma scan_char_outside st c next :
  sc_quote st = None -> outside st c (scan_char st c next).
Proof.
  destruct st as [ws cur q sta cand saw til]. simpl. intros ->.
  destruct (c =? SQUOTE) eqn:E1; [apply N.eqb_eq in E1; by apply out_single|].
  destruct (c =? DQUOTE) eqn:E2; [apply N.eqb_eq in E2; by apply out_double|].
  apply N.eqb_neq in E1 as N1. apply N.eqb_neq in E2 as N2.
  destruct ((c =? BACKTICK) || _) eqn:E3.
  { apply out_err; [done..|]. left. rewrite special_spec. apply orb_true_iff in E3 as [->|E3].
    - by rewrite !orb_true_r.
    - apply andb_prop in E3 as [->%N.eqb_eq%dollar_special _]. by rewrite !orb_true_r. }
  apply orb_false_iff in E3 as [E3 _].
  destruct ((c =? LF) || (c =? CR)) eqn:E4.
  { apply out_err; [done..|]. left. rewrite special_spec, E4. by rewrite !orb_true_r. }
  destruct (mem c SHELL_CONTROL_CHARS) eqn:E5.
  { apply out_err; [done..|]. left. rewrite special_spec, E5. by rewrite !orb_true_r. }
  destruct (mem c UNSAFE_UNQUOTED_EXPANSION_CHARS) eqn:E6.
  { apply out_err; [done..|]. left. rewrite special_spec, E6. by rewrite !orb_true_r. }
  destruct ((c =? TILDE) && _) eqn:E7.
  { apply out_err; [done..|]. by right. }
  assert (Hsp : special c = (c =? BSLASH)).
  { rewrite special_spec, E1, E2, E3, E4, E5, E6. by rewrite !orb_false_r. }
  assert (Hb := ws_js_blank c E4). destruct (is_ws c) eqn:E8.
  { apply out_blank; [done|]. rewrite Hsp. apply N.eqb_neq. intros ->. done. }
  destruct (c =? BSLASH) eqn:E9.
  { apply out_err; [done..|]. by left. }
  match goal with |- outside ?st _ ?r =>
    replace r with (Ok (E := word_reason) (after st (Plain c)))
      by (simpl; by repeat case_match; simplify_eq)
  end.
  apply out_plain; [|done]. simpl. by rewrite Hsp, Hb.
Qed.

(** Inside quotes nothing but the end of the string matters. *)
Definition inside (q : quote) (c : N) : bool :=
  match q with SingleQ => negb (c =? SQUOTE) | DoubleQ => negb (special_dq c) end.
Definition quote_char (q : quote) : N := match q with SingleQ => SQUOTE | DoubleQ => DQUOTE end.

Lemma inside_keeps st q c next :
  sc_quote st = Some q -> inside q c = true ->
  scan_char st c next =
    Ok (Scan (sc_words st) (sc_current st ++ [c]) (Some q) (sc_wordStarted st)
          (sc_assignmentNameCandidate st) (sc_sawAssignmentEquals st) (sc_tildeExpandable st)).
Proof.
  destruct st as [ws cur q' sta cand saw til]. simpl. intros -> Hin. destruct q; simpl in *.
  - apply negb_true_iff in Hin. by rewrite Hin.
  - unfold special_dq, mem in Hin. simpl in Hin. simpl_bool. repeat match goal with
      | H : (_ =? _) = false |- _ => rewrite H; clear H end. done.
Qed.

Lemma inside_inv st q c next st' :
  sc_quote st = Some q -> scan_char st c next = Ok st' -> c = quote_char q \/ inside q c = true.
Proof.
  destruct st as [ws cur q' sta cand saw til]. simpl. intros ->. destruct q; simpl.
  - intros _. destruct (c =? SQUOTE) eqn:E; [left; by apply N.eqb_eq|by right].
  - destruct (c =? DQUOTE) eqn:E; [left; by apply N.eqb_eq|].
    unfold special_dq, mem. simpl. rewrite E. destruct (c =? BACKTICK) eqn:E1; [done|].
    destruct (c =? DOLLAR) eqn:E2; [by destruct (bool_decide _)|]. simpl.
    destruct (c =? BSLASH) eqn:E3; [done|]. by right.
Qed.

Lemma scan_quoted_body st q body rest :
  sc_quote st = Some q -> forallb (inside q) body = true ->
  scan_chars st (body ++ quote_char q :: rest) = scan_chars (close_quote st body) rest.
Proof.
  revert st. induction body as [|c body IH]; intros st Hq Hb; simpl in Hb |- *.
  - destruct st as [ws cur q' sta cand saw til]. simpl in *. subst q'. rewrite app_nil_r.
    by destruct q.
  - apply andb_prop in Hb as [Hc Hb]. rewrite (inside_keeps st q) by done.
    rewrite IH by done. destruct st; simpl. by rewrite <- app_assoc.
Qed.

Lemma scan_quoted_inv st q s st' :
  sc_quote st = Some q -> scan_chars st s = (st', None) -> sc_quote st' = None ->
  exists body rest, s = body ++ quote_char q :: rest /\ forallb (inside q) body = true /\
    scan_chars (close_quote st body) rest = (st', None).
Proof.
  revert st. induction s as [|c s IH]; intros st Hq Hs Hn; simpl in Hs.
  { injection Hs as <-. congruence. }
  destruct (scan_char st c (head s)) as [st1|] eqn:E; [|done].
  destruct (inside_inv _ _ _ _ _ Hq E) as [->|Hin].
  - exists [], s. split; [done|]. split; [done|]. rewrite <- Hs. f_equal.
    destruct st as [ws cur q' sta cand saw til]. simpl in *. subst q'. rewrite app_nil_r.
    destruct q; simpl in E; by injection E as <-.
  - rewrite (inside_keeps st q) in E by done. injection E as <-.
    apply IH in Hs as (body & rest & -> & Hb & Hr); [|done..].
    exists (c :: body), rest. split; [done|]. simpl. rewrite Hin, Hb. split; [done|].
    rewrite <- Hr. destruct st; simpl. by rewrite <- app_assoc.
Qed.

Lemma quoted_after st q s :
  close_quote (open_quote st q) s = after st (match q with SingleQ => Single s | DoubleQ => Double s end).
Proof. by destruct st, q. Qed.

Lemma tilde_stops_spec words w c :
  tilde_stops (at_word words w) c = true <-> c = TILDE /\ tilde_expands w.
Proof.
  destruct (at_word_flags words w) as [_ _ _ Hst _ _ Htil]. unfold tilde_stops.
  rewrite andb_true_iff, orb_true_iff, N.eqb_eq, negb_true_iff, Hst, Htil, bool_decide_eq_false.
  unfold tilde_expands. destruct w; naive_solver.
Qed.

Definition word_so_far (w : list piece) : Prop := w = [] \/ word_ok js_blank w.

Lemma word_ok_snoc blank w p :
  w = [] \/ word_ok blank w -> piece_ok blank p = true -> (p = Plain TILDE -> ~ tilde_expands w) ->
  word_ok blank (w ++ [p]).
Proof.
  intros Hw Hp Ht. split; [auto|]. split.
  - apply Forall_app. split; [|by repeat constructor]. by destruct Hw as [-> | (_ & ? & _)].
  - intros pre post E. destruct (decide (post = [])) as [->|Hne].
    + apply app_inj_tail in E as [-> ->]. auto.
    + destruct (exists_last Hne) as (post' & x & ->). rewrite app_comm_cons, app_assoc in E.
      apply app_inj_tail in E as [-> ->]. destruct Hw as [Hw|(_ & _ & Hw)]; [|eauto].
      by destruct pre.
Qed.

Lemma word_ok_init blank w p :
  word_ok blank (w ++ [p]) ->
  (w = [] \/ word_ok blank w) /\ piece_ok blank p = true /\ (p = Plain TILDE -> ~ tilde_expands w).
Proof.
  intros (_ & Hall & Ht). apply Forall_app in Hall as [Hall Hp]. apply Forall_inv in Hp.
  split; [|split; [done|]].
  - destruct (decide (w = [])) as [->|Hne]; [by left|right]. split; [done|]. split; [done|].
    intros pre post E. apply (Ht pre (post ++ [p])). by rewrite E, <- app_assoc.
  - intros ->. by apply (Ht w []).
Qed.

(** The scanner passes over a piece of a well-formed word. *)
Lemma scan_piece words w p rest :
  word_ok js_blank (w ++ [p]) ->
  scan_chars (at_word words w) (piece_text p ++ rest) = scan_chars (at_word words (w ++ [p])) rest.
Proof.
  intros (_ & Hp & Ht)%word_ok_init. rewrite at_word_snoc.
  pose proof (fl_quote _ _ _ (at_word_flags words w)) as Hq.
  set (st := at_word words w) in *. destruct p as [c|s|s].
  - simpl. destruct (scan_char_outside st c (head rest) Hq) as [-> | -> | Hb _ | _ _ | r _ _ He].
    + done.
    + done.
    + simpl in Hp. apply andb_prop in Hp as [_ Hb']. by rewrite Hb in Hb'.
    + done.
    + simpl in Hp. apply andb_prop in Hp as [Hs _]. destruct He as [He|He]; [by rewrite He in Hs|].
      apply tilde_stops_spec in He as [-> He]. by destruct Ht.
  - cbn [piece_text]. rewrite <- app_comm_cons, <- app_assoc. cbn [scan_chars].
    assert (scan_char st SQUOTE (head (s ++ [SQUOTE] ++ rest)) = Ok (open_quote st SingleQ)) as ->
      by (destruct st; simpl in Hq |- *; by rewrite Hq).
    change ([SQUOTE] ++ rest) with (quote_char SingleQ :: rest).
    rewrite scan_quoted_body; [by rewrite quoted_after|by destruct st|done].
  - cbn [piece_text]. rewrite <- app_comm_cons, <- app_assoc. cbn [scan_chars].
    assert (scan_char st DQUOTE (head (s ++ [DQUOTE] ++ rest)) = Ok (open_quote st DoubleQ)) as ->
      by (destruct st; simpl in Hq |- *; by rewrite Hq).
    change ([DQUOTE] ++ rest) with (quote_char DoubleQ :: rest).
    rewrite scan_quoted_body; [by rewrite quoted_after|by destruct st|done].
Qed.

Lemma scan_word words w rest :
  w = [] \/ word_ok js_blank w ->
  scan_chars (at_word words []) (word_text w ++ rest) = scan_chars (at_word words w) rest.
Proof.
  revert rest. induction w as [|p w IH] using rev_ind; intros rest Hw; [done|].
  destruct Hw as [Hw|Hw]; [by destruct (snoc_ne _ _ Hw)|].
  rewrite word_text_snoc, <- app_assoc, IH by (by apply word_ok_init in Hw as [? _]).
  by apply scan_piece.
Qed.

Definition words_of (w : list piece) : list jsstring :=
  if decide (w = []) then [] else [word_value w].

Definition final_words (st : scan) : list jsstring :=
  if sc_wordStarted st then sc_words st ++ [sc_current st] else sc_words st.

Lemma final_at_word words w : final_words (at_word words w) = words ++ words_of w.
Proof.
  destruct (at_word_flags words w) as [Hw Hc _ Hs _ _ _]. unfold final_words, words_of.
  rewrite Hw, Hc, Hs. destruct (decide (w = [])) as [->|].
  - by rewrite app_nil_r.
  - by rewrite bool_decide_eq_true_2.
Qed.

Lemma end_at_word words w : end_word (at_word words w) = at_word (words ++ words_of w) [].
Proof.
  destruct (at_word_flags words w) as [Hw Hc _ Hs _ _ _]. unfold words_of.
  destruct (at_word words w); simpl in *. rewrite Hs, Hw, Hc. destruct (decide (w = [])) as [->|].
  - by rewrite app_nil_r.
  - by rewrite bool_decide_eq_true_2.
Qed.

Lemma js_blank_not_special c : js_blank c = true -> special c = false /\ c <> TILDE.
Proof.
  intros H. destruct (special c) eqn:E.
  - exfalso. unfold special, mem in E. simpl in E.
    repeat match goal with
    | H : (_ || _)%bool = true |- _ => apply orb_true_iff in H as [H|H]
    | H : (_ =? _) = true |- _ => apply N.eqb_eq in H; subst c; by vm_compute in *
    | H : false = true |- _ => done
    end.
  - split; [done|]. intros ->. by vm_compute in H.
Qed.

Lemma scan_blank words w c next :
  js_blank c = true -> scan_char (at_word words w) c next = Ok (at_word (words ++ words_of w) []).
Proof.
  intros Hb. pose proof (fl_quote _ _ _ (at_word_flags words w)) as Hq.
  destruct (js_blank_not_special c Hb) as [Hs Ht].
  destruct (scan_char_outside _ c next Hq) as [-> | -> | _ _ | Hp _ | r _ _ He].
  - by vm_compute in Hb.
  - by vm_compute in Hb.
  - by rewrite end_at_word.
  - simpl in Hp. rewrite Hb, andb_false_r in Hp. done.
  - destruct He as [He|He]; [congruence|]. by apply tilde_stops_spec in He as [? _].
Qed.

Lemma word_text_ne blank w : word_ok blank w -> word_text w <> [].
Proof. intros [Hne _]. destruct w as [|[]]; [done|done..]. Qed.

(** Every line of the grammar is accepted, with its words. *)
Lemma line_scanned s pws :
  literal_line js_blank s pws -> forall words, exists st,
    scan_chars (at_word words []) s = (st, None) /\ sc_quote st = None /\
    final_words st = words ++ (word_value <$> pws).
Proof.
  assert (Hblank : forall s words rest, Forall (fun c => js_blank c = true) s ->
            scan_chars (at_word words []) (s ++ rest) = scan_chars (at_word words []) rest).
  { intros sep words rest Hs. induction Hs as [|c sep Hc Hs IH]; [done|].
    cbn [app scan_chars]. rewrite scan_blank by done. change (words_of []) with (@nil jsstring).
    by rewrite app_nil_r. }
  induction 1 as [s Hs|sep w rest ws Hsep Hw Hl IH Hr]; intros words.
  - exists (at_word words []). rewrite <- (app_nil_r s), Hblank by done. split; [done|].
    split; [done|]. rewrite final_at_word. done.
  - rewrite Hblank, scan_word by auto. destruct (IH (words ++ [word_value w])) as (st & Hst & Hq & Hf).
    assert (Hwo : words_of w = [word_value w])
      by (unfold words_of; rewrite decide_False by apply Hw; done).
    destruct rest as [|b rest].
    + simpl in Hst. injection Hst as <-. exists (at_word words w). split; [done|].
      split; [apply (fl_quote _ _ _ (at_word_flags words w))|].
      rewrite final_at_word, Hwo. rewrite final_at_word, app_nil_r in Hf. rewrite Hf.
      by rewrite <- app_assoc.
    + exists st. split; [|split; [done|by rewrite Hf, <- app_assoc]]. rewrite <- Hst. simpl in Hr.
      cbn [scan_chars]. rewrite !scan_blank by done. rewrite Hwo.
      change (words_of []) with (@nil jsstring). by rewrite app_nil_r.
Qed.

Lemma line_cons_blank blank c s ws :
  blank c = true -> literal_line blank s ws -> literal_line blank (c :: s) ws.
Proof.
  intros Hc Hl. destruct Hl as [s Hs|sep w rest ws Hsep Hw Hl Hr].
  - by repeat constructor.
  - change (c :: sep ++ word_text w ++ rest) with ((c :: sep) ++ word_text w ++ rest).
    apply line_word; [by constructor|done..].
Qed.

(** What an accepted rest of a command looks like, from inside a word. *)
Definition accepted_rest (words : list jsstring) (w : list piece) (s : jsstring) (st : scan) : Prop :=
  exists w' rest pws, s = word_text w' ++ rest /\ (w ++ w' = [] \/ word_ok js_blank (w ++ w')) /\
    literal_line js_blank rest pws /\ from_option (fun c => js_blank c = true) True (head rest) /\
    final_words st = words ++ words_of (w ++ w') ++ (word_value <$> pws).

Lemma accepted_piece words w p s st :
  accepted_rest words (w ++ [p]) s st -> accepted_rest words w (piece_text p ++ s) st.
Proof.
  intros (w' & rest & pws & -> & Hw & Hl & Hr & Hf). exists (p :: w'), rest, pws.
  rewrite <- app_assoc in Hw, Hf. split; [|done].
  change (word_text (p :: w')) with (piece_text p ++ word_text w'). by rewrite app_assoc.
Qed.

Lemma accepted_line words s st :
  accepted_rest words [] s st ->
  exists pws, literal_line js_blank s pws /\ final_words st = words ++ (word_value <$> pws).
Proof.
  intros (w & rest & pws & -> & Hw & Hl & Hr & Hf). simpl in Hf, Hw. unfold words_of in Hf.
  destruct (decide (w = [])) as [->|Hne].
  - exists pws. done.
  - exists (w :: pws). split; [|done]. destruct Hw as [|Hw]; [done|].
    apply (line_word js_blank []); done.
Qed.

Lemma accepted_end words w :
  w = [] \/ word_ok js_blank w -> accepted_rest words w [] (at_word words w).
Proof.
  intros Hw. exists [], [], []. rewrite final_at_word, !app_nil_r.
  split; [done|]. split; [done|]. split; [by apply line_blank|]. done.
Qed.

Lemma accepted_blank words w c s st :
  js_blank c = true -> w = [] \/ word_ok js_blank w ->
  accepted_rest (words ++ words_of w) [] s st -> accepted_rest words w (c :: s) st.
Proof.
  intros Hc Hw (pws & Hl & Hf)%accepted_line. exists [], (c :: s), pws. rewrite app_nil_r.
  split; [done|]. split; [done|]. split; [by apply line_cons_blank|]. split; [done|].
  by rewrite Hf, <- app_assoc.
Qed.

(** An accepted command is a line of the grammar. *)
Lemma scan_accepted n s words w st :
  (length s <= n)%nat -> w = [] \/ word_ok js_blank w ->
  scan_chars (at_word words w) s = (st, None) -> sc_quote st = None -> accepted_rest words w s st.
Proof.
  revert s words w. induction n as [|n IH]; intros s words w Hlen Hw Hs Hq;
    (destruct s as [|c s]; [injection Hs as <-; by apply accepted_end|]); simpl in Hlen; [lia|].
  cbn [scan_chars] in Hs. pose proof (fl_quote _ _ _ (at_word_flags words w)) as Hq0.
  assert (Hquoted : forall q p, sc_quote (open_quote (at_word words w) q) = Some q ->
    scan_chars (open_quote (at_word words w) q) s = (st, None) ->
    (forall body, p body = match q with SingleQ => Single body | DoubleQ => Double body end) ->
    accepted_rest words w (quote_char q :: s) st).
  { intros q p Ho Hrun Hp. destruct (scan_quoted_inv _ _ _ _ Ho Hrun Hq) as (body & rest & -> & Hb & Hr).
    rewrite quoted_after, <- Hp, <- at_word_snoc in Hr.
    assert (Hok : word_ok js_blank (w ++ [p body])).
    { apply word_ok_snoc; [done| |]; rewrite Hp; by destruct q. }
    apply IH in Hr; [|rewrite length_app in Hlen; simpl in Hlen; lia|by right|done].
    apply accepted_piece in Hr. rewrite Hp in Hr.
    replace (quote_char q :: body ++ quote_char q :: rest)
      with (piece_text (match q with SingleQ => Single body | DoubleQ => Double body end) ++ rest);
      [done|]. destruct q; simpl; by rewrite <- app_assoc. }
  destruct (scan_char_outside _ c (head s) Hq0) as [-> | -> | Hb _ | Hp Ht | r _ _ _].
  - apply (Hquoted SingleQ Single); [by destruct (at_word words w)|done..].
  - apply (Hquoted DoubleQ Double); [by destruct (at_word words w)|done..].
  - apply accepted_blank; [done..|]. rewrite end_at_word in Hs. apply IH; [lia|by left|done..].
  - rewrite <- at_word_snoc in Hs. apply (accepted_piece words w (Plain c)).
    apply IH; [lia| |done..]. right. apply word_ok_snoc; [done..|]. intros [= ->] He.
    assert (tilde_stops (at_word words w) TILDE = true) by (by apply tilde_stops_spec). congruence.
  - done.
Qed.

Lemma parse_ok_iff s ws :
  parseShellWords s = (ws, None) <->
  exists st, scan_chars scan_init s = (st, None) /\ sc_quote st = None /\ final_words st = ws.
Proof.
  unfold parseShellWords. destruct (scan_chars scan_init s) as [st [r|]]; split.
  - done.
  - by intros (? & [=] & _).
  - destruct (sc_quote st) eqn:E; [done|]. intros [= <-]. by exists st.
  - intros (st' & [= <-] & -> & <-). done.
Qed.

Lemma words_exact s ws :
  parseShellWords s = (ws, None) <->
  exists pws, literal_line js_blank s pws /\ ws = word_value <$> pws.
Proof.
  rewrite parse_ok_iff. change scan_init with (at_word [] []). split.
  - intros (st & Hs & Hq & <-). apply (scan_accepted (length s)) in Hs; [|done|by left|done].
    apply accepted_line in Hs as (pws & Hl & Hf). eauto.
  - intros (pws & Hl & ->). destruct (line_scanned s pws Hl []) as (st & ? & ? & ?). eauto.
Qed.

(** ** What the shell reads *)

Lemma sh_js_blank c : sh_blank c = true -> js_blank c = true.
Proof.
  unfold sh_blank, mem. cbn [existsb]. rewrite orb_false_r.
  intros [H|H]%orb_true_iff; apply N.eqb_eq in H; by subst c.
Qed.

Lemma mem_spec c l : mem c l = true <-> c ∈ l.
Proof.
  unfold mem. rewrite existsb_exists. split.
  - intros (x & Hx%list_elem_of_In & ->%N.eqb_eq). done.
  - intros Hc%list_elem_of_In. exists c. split; [done|]. apply N.eqb_refl.
Qed.

(** What is special to the shell is special to the scanner, or white space. *)
Lemma sh_special_covered c : sh_special c = true -> special c = true \/ js_blank c = true.
Proof.
  unfold sh_special. rewrite mem_spec. intros Hc.
  assert (H : Forall (fun c => special c || js_blank c = true) (js "|&;<>()$*?[]{}" ++ [96; 92; 34; 39; 32; 9; 10])).
  { repeat (constructor; [vm_compute; reflexivity|]). constructor. }
  rewrite Forall_forall in H. by apply H, orb_true_iff in Hc.
Qed.

Lemma sh_special_dq_covered c : sh_special_dq c = true -> special_dq c = true.
Proof.
  unfold sh_special_dq. rewrite mem_spec. intros Hc. assert (H : Forall (fun c => special_dq c = true) [36; 96; 92; 34]).
  { repeat (constructor; [vm_compute; reflexivity|]). constructor. }
  rewrite Forall_forall in H. by apply H in Hc.
Qed.

Lemma forallb_weaken {A} (p q : A -> bool) l : (forall x, p x = true -> q x = true) -> forallb p l = true -> forallb q l = true.
Proof. intros Hpq. rewrite !forallb_forall. auto. Qed.

Lemma piece_sh p : piece_ok js_blank p = true -> sh_piece p = true.
Proof.
  destruct p as [c|s|s]; simpl.
  - intros [Hs Hb]%andb_prop. destruct (sh_special c) eqn:E; [|done]. destruct (sh_special_covered c E) as [E'|E']; by rewrite E' in *.
  - done.
  - apply forallb_weaken. intros c Hc. destruct (sh_special_dq c) eqn:E; [|done]. apply sh_special_dq_covered in E. by rewrite E in Hc.
Qed.

Lemma letter_start c : sh_letter c -> is_name_start c = true.
Proof. intros Hc. unfold is_name_start, is_lower. rewrite !orb_true_iff, !andb_true_iff, !N.leb_le, N.eqb_eq. unfold sh_letter in Hc. lia. Qed.

Lemma name_pattern name plus : sh_name name -> plus = [] \/ plus = [43] -> ASSIGNMENT_NAME_PATTERN (name ++ plus) = true.
Proof.
  intros (c & rest & -> & Hc & Hrest) Hplus. cbn [app ASSIGNMENT_NAME_PATTERN]. rewrite letter_start by done. cbn [andb].
  unfold name_chars. rewrite span_prefix; [by destruct Hplus as [-> | ->]| |by destruct Hplus as [-> | ->]].
  eapply Forall_impl; [exact Hrest|]. intros x [Hx|Hx]; unfold is_name_char; [by rewrite letter_start|].
  apply orb_true_iff. right. unfold is_digit. rewrite andb_true_iff, !N.leb_le. lia.
Qed.

Lemma assigns_sh w rest : sh_assigns w rest -> assigns w rest.
Proof. intros (name & plus & Hn & Hp & ->). exists (name ++ plus). split; [by apply name_pattern|]. by rewrite <- app_assoc. Qed.

Lemma word_ok_sh w : word_ok js_blank w -> head w <> Some (Plain HASH) -> sh_word w.
Proof.
  intros (Hne & Hall & Ht) Hh. split; [done|]. split; [eapply Forall_impl; [exact Hall|]; apply piece_sh|]. split; [done|].
  intros pre post E Hsh. apply (Ht pre post E). destruct Hsh as [->|(rest & Ha & Hr)]; [by left|]. right. exists rest. by split; [apply assigns_sh|].
Qed.

Lemma word_value_head w : head w = Some (Plain HASH) -> head (word_value w) = Some HASH.
Proof. destruct w as [|[]]; simpl; congruence. Qed.

Lemma shell_reads_line s pws :
  literal_line js_blank s pws ->
  Forall (fun c => js_blank c = true -> sh_blank c = true) s ->
  Forall (fun w => head w <> Some HASH) (word_value <$> pws) ->
  sh_line s pws.
Proof.
  induction 1 as [s Hs|sep w rest ws Hsep Hw Hl IH Hr]; intros Hb Hh.
  - apply sh_end. rewrite Forall_forall in *. auto.
  - apply Forall_app in Hb as [Hb1 Hb]. apply Forall_app in Hb as [_ Hb2].
    simpl in Hh. apply Forall_cons in Hh as [Hh1 Hh2]. apply sh_next; auto.
    + rewrite Forall_forall in *. auto.
    + apply word_ok_sh; [done|]. by intros ?%word_value_head.
    + destruct rest; [done|]. simpl in *. apply Forall_cons in Hb2 as [? _]. auto.
Qed.

(** A quoted value is a word of quoted strings. *)
Definition quote_pieces (value : jsstring) : list piece :=
  match split_char SQUOTE value with
  | [] => []
  | s :: ss => Single s :: (ss ≫= fun s' => [Double [SQUOTE]; Single s'])
  end.

Lemma quote_body_pieces value s ss :
  split_char SQUOTE value = s :: ss ->
  quote_body value ++ [SQUOTE] =
    s ++ [SQUOTE] ++ word_text (ss ≫= fun s' => [Double [SQUOTE]; Single s']).
Proof.
  revert s ss. induction value as [|c value IH]; intros s ss; cbn [split_char quote_body].
  - by intros [= <- <-].
  - destruct (split_char SQUOTE value) as [|s0 ss0] eqn:E; [by destruct (split_char_nonempty SQUOTE value)|].
    rewrite <- app_assoc, (IH _ _ eq_refl). destruct (c =? SQUOTE) eqn:Ec; intros [= <- <-]; simpl.
    + unfold word_text. simpl. by rewrite <- app_assoc.
    + done.
Qed.

Lemma shellQuote_text value : shellQuote value = word_text (quote_pieces value).
Proof.
  unfold shellQuote, quote_pieces. destruct (split_char SQUOTE value) as [|s ss] eqn:E.
  - by destruct (split_char_nonempty SQUOTE value).
  - rewrite (quote_body_pieces _ _ _ E). unfold word_text. simpl. by rewrite <- app_assoc.
Qed.

Lemma quote_pieces_value value : word_value (quote_pieces value) = value.
Proof.
  rewrite <- (join_split SQUOTE value) at 2. unfold quote_pieces.
  destruct (split_char SQUOTE value) as [|s ss]; [done|]. revert s.
  induction ss as [|s' ss IH]; intros s; unfold word_value in *; cbn -[join].
  - by rewrite app_nil_r.
  - rewrite join_cons by done. rewrite <- IH. done.
Qed.

Lemma quote_pieces_ok value : sh_word (quote_pieces value) /\ names_command (quote_pieces value).
Proof.
  unfold quote_pieces. pose proof (split_char_pieces SQUOTE value) as Hp.
  destruct (split_char SQUOTE value) as [|s ss] eqn:E; [by destruct (split_char_nonempty SQUOTE value)|].
  assert (Hs : Forall (fun s => forallb (fun c => negb (c =? 39)) s = true) (s :: ss)).
  { eapply Forall_impl; [exact Hp|]. intros x Hx. apply forallb_forall. intros c Hc.
    apply negb_true_iff, N.eqb_neq. rewrite Forall_forall in Hx. by apply Hx, list_elem_of_In. }
  apply Forall_cons in Hs as [Hs Hss].
  assert (Hall : Forall (fun p => sh_piece p = true /\ forall c, p <> Plain c)
            (Single s :: (ss ≫= fun s' => [Double [SQUOTE]; Single s']))).
  { constructor; [done|]. clear -Hss. induction Hss as [|x ss Hx Hss IH]; [constructor|].
    simpl. by repeat (constructor; [done|]). }
  split; [split; [done|]; split; [|split; [done|]]|split].
  - eapply Forall_impl; [exact Hall|]. by intros ? [? _].
  - intros pre post Ew. rewrite Ew in Hall. apply Forall_app in Hall as [_ [[_ Hno] _]%Forall_cons].
    by destruct (Hno 126).
  - intros r _. by destruct r.
  - intros (rest & name & plus & (c & name' & -> & _) & _ & Ew). done.
Qed.

Lemma quoted_words_read ws : sh_line (join [32] (shellQuote <$> ws)) (quote_pieces <$> ws).
Proof.
  assert (H : forall sep, sep = [] \/ sep = [32] ->
            sh_line (match ws with [] => [] | _ => sep ++ join [32] (shellQuote <$> ws) end) (quote_pieces <$> ws)).
  { induction ws as [|v ws IH]; intros sep Hsep; [by apply sh_end|].
    assert (Hs : Forall (fun c => sh_blank c = true) sep)
      by (destruct Hsep as [-> | ->]; repeat constructor).
    pose proof (proj1 (quote_pieces_ok v)) as Hv. destruct ws as [|v' ws].
    - simpl. rewrite shellQuote_text, <- (app_nil_r (word_text _)). apply sh_next; auto; [by apply sh_end|done].
    - rewrite fmap_cons, join_cons by done. rewrite shellQuote_text. rewrite (fmap_cons quote_pieces). by apply sh_next; auto. }
  specialize (H [] (or_introl eq_refl)). by destruct ws.
Qed.

Lemma quoted_values (ws : list jsstring) : word_value <$> (quote_pieces <$> ws) = ws.
Proof. induction ws as [|v ws IH]; [done|]. rewrite !fmap_cons, IH. by rewrite quote_pieces_value. Qed.

(** *** The reading is unique *)

Definition stops (s : jsstring) : Prop := from_option (fun c => sh_blank c = true) True (head s).

Lemma quote_not_blank c : c = SQUOTE \/ c = DQUOTE -> sh_blank c = false.
Proof. by intros [-> | ->]. Qed.

Lemma split_at_quote q a b (r1 r2 : jsstring) :
  q ∉ a -> q ∉ b -> a ++ q :: r1 = b ++ q :: r2 -> a = b /\ r1 = r2.
Proof.
  revert b. induction a as [|x a IH]; intros [|y b] Ha Hb; simpl; intros E; simplify_eq/=.
  - done.
  - set_solver.
  - set_solver.
  - destruct (IH b) as [-> ->]; [set_solver..|]. done.
Qed.

Lemma no_char_in (p : N -> bool) q (s : jsstring) : p q = false -> forallb p s = true -> q ∉ s.
Proof. intros Hq H Hin%list_elem_of_In. rewrite forallb_forall in H. apply H in Hin. congruence. Qed.

Lemma plain_not_quote c : sh_piece (Plain c) = true -> c <> SQUOTE /\ c <> DQUOTE /\ sh_blank c = false.
Proof.
  simpl. intros Hs%negb_true_iff. assert (Hc : c ∉ js "|&;<>()$*?[]{}" ++ [96; 92; 34; 39; 32; 9; 10]).
  { intros Hc%mem_spec. unfold sh_special in Hs. congruence. }
  split; [intros ->; set_solver|]. split; [intros ->; set_solver|]. destruct (sh_blank c) eqn:E; [|done].
  apply mem_spec in E. set_solver.
Qed.

(** The first piece of a word is determined by the text. *)
Lemma piece_unique p1 p2 r1 r2 :
  sh_piece p1 = true -> sh_piece p2 = true ->
  piece_text p1 ++ r1 = piece_text p2 ++ r2 -> p1 = p2 /\ r1 = r2.
Proof.
  intros H1 H2. destruct p1 as [c1|s1|s1], p2 as [c2|s2|s2]; simpl; rewrite <- ?app_assoc; simpl;
    try apply plain_not_quote in H1 as (? & ? & ?); try apply plain_not_quote in H2 as (? & ? & ?);
    intros E; simplify_eq; try done.
  - apply split_at_quote in E as [-> ->]; [done|eapply no_char_in; [|done]; done..].
  - apply split_at_quote in E as [-> ->]; [done|eapply no_char_in; [|done]; done..].
Qed.

Lemma piece_not_blank p s : sh_piece p = true -> ~ stops (piece_text p ++ s).
Proof.
  unfold stops. destruct p as [c|q|q]; simpl; [|by intros _..].
  intros (_ & _ & Hb)%plain_not_quote. rewrite Hb. done.
Qed.

Lemma word_unique w1 w2 r1 r2 :
  Forall (fun p => sh_piece p = true) w1 -> Forall (fun p => sh_piece p = true) w2 ->
  stops r1 -> stops r2 -> word_text w1 ++ r1 = word_text w2 ++ r2 -> w1 = w2 /\ r1 = r2.
Proof.
  intros H1. revert w2. induction H1 as [|p1 w1 Hp1 H1 IH]; intros w2 H2 Hr1 Hr2 E; destruct H2 as [|p2 w2 Hp2 H2].
  - done.
  - simpl in E. subst r1. change (word_text (p2 :: w2)) with (piece_text p2 ++ word_text w2) in Hr1.
    rewrite <- app_assoc in Hr1. by apply piece_not_blank in Hr1.
  - simpl in E. subst r2. change (word_text (p1 :: w1)) with (piece_text p1 ++ word_text w1) in Hr2.
    rewrite <- app_assoc in Hr2. by apply piece_not_blank in Hr2.
  - change (word_text (p1 :: w1)) with (piece_text p1 ++ word_text w1) in E.
    change (word_text (p2 :: w2)) with (piece_text p2 ++ word_text w2) in E.
    rewrite <- !app_assoc in E. apply piece_unique in E as [-> E]; [|done..].
    apply IH in E as [-> ->]; done.
Qed.

Lemma blanks_unique a b (s t : jsstring) :
  Forall (fun c => sh_blank c = true) a -> Forall (fun c => sh_blank c = true) b ->
  s <> [] -> ~ stops s -> (t = [] \/ ~ stops t) -> a ++ s = b ++ t -> a = b /\ s = t.
Proof.
  intros Ha. revert b. induction Ha as [|x a Hx Ha IH]; intros b Hb Hne Hs Ht E; destruct Hb as [|y b Hy Hb];
    simpl in E; simplify_eq.
  - done.
  - exfalso. destruct Ht as [Ht|Ht]; [done|]. apply Ht. exact Hx.
  - destruct (IH b) as [-> ->]; done.
Qed.

Lemma word_starts w s : sh_word w -> word_text w ++ s <> [] /\ ~ stops (word_text w ++ s).
Proof.
  intros (Hne & Hall & _). destruct Hall as [|p w Hp Hall]; [done|].
  change (word_text (p :: w)) with (piece_text p ++ word_text w). rewrite <- app_assoc. split; [by destruct p|by apply piece_not_blank].
Qed.

(** A line is a line of literal words in one way. *)
Lemma sh_line_functional s ws1 ws2 : sh_line s ws1 -> sh_line s ws2 -> ws1 = ws2.
Proof.
  intros H1. revert ws2. induction H1 as [s Hs|sep w rest ws Hsep Hw Hl IH Hr]; intros ws2 H2.
  - inversion H2 as [|sep' w' rest' ws' Hsep' Hw' Hl' Hr' E]; subst; try done.
    exfalso. destruct (word_starts w' rest' Hw') as [Hn Hs'].
    destruct (blanks_unique sep' (sep' ++ word_text w' ++ rest') (word_text w' ++ rest') []) as [_ E]; auto. by rewrite app_nil_r.
  - destruct (word_starts w rest Hw) as [Hn Hs].
    inversion H2 as [s' Hs' E|sep' w' rest' ws' Hsep' Hw' Hl' Hr' E]; subst.
    + exfalso. destruct (blanks_unique sep (sep ++ word_text w ++ rest) (word_text w ++ rest) []) as [_ E]; auto.
      by rewrite app_nil_r.
    + destruct (word_starts w' rest' Hw') as [Hn' Hs'].
      destruct (blanks_unique sep sep' (word_text w ++ rest) (word_text w' ++ rest')) as [_ E2]; auto.
      destruct Hw as (_ & Hw & _), Hw' as (_ & Hw' & _).
      apply word_unique in E2 as [-> ->]; auto. f_equal. by apply IH.
Qed.

(** A shell that runs only lines of literal words. *)
Definition literal_shell : Shell.
Proof.
  refine {| runs := fun line commands => exists w ws, sh_line line (w :: ws) /\ names_command w /\ commands = [word_value <$> w :: ws] |}.
  intros line w ws Hl Hn commands. split.
  - intros (w' & ws' & Hl' & _ & ->). by rewrite (sh_line_functional line (w :: ws) (w' :: ws')).
  - intros ->. by exists w, ws.
Defined.

(** No white space but spaces and tabs, and no word that starts with [#]. *)
Definition plain_blanks (s : jsstring) : bool := forallb (fun c => implb (js_blank c) (sh_blank c)) s.
Definition no_comment (ws : list jsstring) : bool :=
  forallb (fun w => negb (bool_decide (head w = Some HASH))) ws.

(** A first word, without its quotes, that is no reserved word and has no equals sign. *)
Definition command_name (ws : list jsstring) : bool :=
  match ws with [] => false | w :: _ => negb (bool_decide (w ∈ RESERVED_WORDS)) && negb (mem EQUALS w) end.

Lemma command_name_names w ws : command_name (word_value w :: ws) = true -> names_command w.
Proof.
  cbn [command_name]. intros [Hr%negb_true_iff He%negb_true_iff]%andb_prop. apply bool_decide_eq_false in Hr. split.
  - intros r Hin ->. apply Hr. by rewrite word_value_plain.
  - intros (rest & name & plus & _ & _ & ->). enough (mem EQUALS (word_value ((Plain <$> name ++ plus ++ [61]) ++ rest)) = true) by congruence.
    apply mem_spec. unfold word_value. rewrite bind_app. change (EQUALS ∈ word_value (Plain <$> name ++ plus ++ [61]) ++ (rest ≫= piece_value)).
    rewrite word_value_plain. change EQUALS with 61. set_solver.
Qed.

(** The words the scanner accepts are the words any shell runs. *)
Lemma shell_runs_checked (shell : Shell) s ws :
  parseShellWords s = (ws, None) -> plain_blanks s = true -> no_comment ws = true -> command_name ws = true ->
  forall commands, runs s commands <-> commands = [ws].
Proof.
  intros (pws & Hl & ->)%words_exact Hb Hh Hn. assert (Hsh : sh_line s pws).
  { apply shell_reads_line; [done|..].
    - apply Forall_forall. intros c Hc%list_elem_of_In Hj. unfold plain_blanks in Hb.
      rewrite forallb_forall in Hb. apply Hb in Hc. by rewrite Hj in Hc.
    - apply Forall_forall. intros w Hw%list_elem_of_In. unfold no_comment in Hh.
      rewrite forallb_forall in Hh. apply Hh in Hw. by simpl_bool. }
  destruct pws as [|w pws]; [done|]. rewrite fmap_cons in Hn. apply command_name_names in Hn. by apply runs_literal.
Qed.

(** [parseShellWords] accepts exactly the lines of literal words: words of characters that
    mean nothing to a shell and of quoted strings, without a tilde where the shell would expand
    one (at the start of a word, or in the value of an assignment after its [=] or a [:]).  The
    words it returns are the values of those words. *)
Theorem literal_words_exact s ws :
  parseShellWords s = (ws, None) <->
  exists pws, literal_line js_blank s pws /\ ws = word_value <$> pws.
Proof. apply words_exact. Qed.
