(* ===== verification/WorkflowManifest.v ===== *)
(** * The manifests of the workflow skills (gjc-runtime/workflow-manifest.ts)

    For each skill (deep-interview, ralplan, ultragoal, team) the manifest lists its states,
    the transitions between them with the verb that makes each, the verbs, and the typed
    arguments with the verbs they apply to.  The state commands consult it: [isValidTransition]
    guards writes of a phase, [typedArgsFor] says which flags a command takes.  The theorems
    are about the data: every transition is between known states by a declared verb, every
    state of use is reached from the initial one, and from everywhere the skill can end. *)

From S2P Require Import Prelude JsText.



Definition jsl (l : list string) : list jsstring := js <$> l.

(** ** Skills (skill-state/canonical-skills.ts, skill-state/initial-phase.ts) *)

Inductive skill := DeepInterview | Ralplan | Ultragoal | Team.

#[export] Instance skill_eq_dec : EqDecision skill.
Proof. solve_decision. Defined.

Definition skill_name (s : skill) : jsstring :=
  match s with
  | DeepInterview => js "deep-interview"
  | Ralplan => js "ralplan"
  | Ultragoal => js "ultragoal"
  | Team => js "team"
  end.

Definition CANONICAL_GJC_WORKFLOW_SKILLS : list skill := [DeepInterview; Ralplan; Ultragoal; Team].

Definition initialPhaseForSkill (name : jsstring) : jsstring :=
  if bool_decide (name = js "deep-interview") then js "interviewing"
  else if bool_decide (name = js "ultragoal") then js "goal-planning"
  else if bool_decide (name = js "ralplan") then js "planner"
  else if bool_decide (name = js "team") then js "starting"
  else js "planning".

(** ** Manifests *)

Record WorkflowState := State { st_id : jsstring; st_initial : bool; st_terminal : bool }.
Record WorkflowTransition := Transition { tr_from : jsstring; tr_to : jsstring; tr_verb : jsstring }.

Inductive verb_surface := StateAction | CommandPositional | CommandFlag.
Record WorkflowVerb := Verb { vb_name : jsstring; vb_planned : bool; vb_surface : verb_surface }.

Inductive arg_type := AString | ANumber | ABoolean | AEnum | AObject.

#[export] Instance arg_type_eq_dec : EqDecision arg_type.
Proof. solve_decision. Defined.

Record TypedArgSpec := TypedArg {
  ta_name : jsstring;
  ta_type : arg_type;
  ta_enumValues : option (list jsstring);
  ta_required : bool;
  ta_appliesToVerbs : option (list jsstring);
  ta_planned : bool;
}.

Record RetentionPolicy := Retention {
  rt_category : jsstring; rt_keep : option Z; rt_maxAgeDays : option Z;
}.

Record SkillManifest := Manifest {
  mf_skill : skill;
  mf_states : list WorkflowState;
  mf_initialState : jsstring;
  mf_terminalStates : list jsstring;
  mf_transitions : list WorkflowTransition;
  mf_verbs : list WorkflowVerb;
  mf_typedArgs : list TypedArgSpec;
  mf_retention : list RetentionPolicy;
  mf_hudFields : list jsstring;
  mf_graphLabel : jsstring;
  mf_stopReleasingPhases : list jsstring;
  mf_phaseLock : list jsstring;
  mf_canonicalOverrides : list jsstring;
}.

Definition STATE_RETENTION := Retention (js "state") (Some 1%Z) None.
Definition ARTIFACT_RETENTION := Retention (js "artifact") None None.
Definition LEDGER_RETENTION := Retention (js "ledger") None None.
Definition LOG_RETENTION := Retention (js "log") None (Some 30%Z).
Definition REPORT_RETENTION := Retention (js "report") None (Some 30%Z).
Definition AGENTS_RETENTION := Retention (js "agents") None None.
Definition PRUNE_RETENTION := Retention (js "prune/delete") None (Some 30%Z).
Definition FORCE_RETENTION := Retention (js "force") None (Some 90%Z).

Definition STATE_VERBS : list jsstring :=
  jsl ["read"; "write"; "clear"; "contract"; "handoff"; "doctor"].
Definition PLANNED_ADMIN_VERBS : list jsstring := jsl ["graph"; "prune"; "migrate"; "force-overwrite"].

Definition skill_names : list jsstring := skill_name <$> CANONICAL_GJC_WORKFLOW_SKILLS.

Definition COMMON_TYPED_ARGS : list TypedArgSpec :=
  [TypedArg (js "input") AString None false (Some (jsl ["write"; "api"])) false;
   TypedArg (js "mode") AEnum (Some skill_names) false (Some STATE_VERBS) false;
   TypedArg (js "session-id") AString None false
     (Some (STATE_VERBS ++ jsl ["kickoff"; "write-spec"; "write-artifact"; "stage"; "check"; "apply";
       "discard"; "read"; "write"])) false;
   TypedArg (js "thread-id") AString None false (Some (jsl ["write"; "clear"; "handoff"])) false;
   TypedArg (js "turn-id") AString None false (Some (jsl ["write"; "clear"; "handoff"])) false;
   TypedArg (js "to") AString None true (Some (jsl ["handoff"])) false;
   TypedArg (js "replace") ABoolean None false (Some (jsl ["write"])) false;
   TypedArg (js "force") ABoolean None false (Some (jsl ["write"; "clear"; "handoff"])) false;
   TypedArg (js "skill") AEnum (Some skill_names) false (Some (jsl ["doctor"])) false;
   TypedArg (js "json") ABoolean None false (Some (jsl ["doctor"])) false].

Definition verb (name : jsstring) (surface : verb_surface) : WorkflowVerb := Verb name false surface.
Definition stateVerbs : list WorkflowVerb := (fun name => verb name StateAction) <$> STATE_VERBS.
Definition positionalVerbs (names : list jsstring) : list WorkflowVerb :=
  (fun name => verb name CommandPositional) <$> names.
Definition flagVerbs (names : list jsstring) : list WorkflowVerb :=
  (fun name => verb name CommandFlag) <$> names.
Definition plannedVerbs (names : list jsstring) : list WorkflowVerb :=
  (fun name => Verb name true StateAction) <$> names.

Definition includes (l : list jsstring) (x : jsstring) : bool := bool_decide (x ∈ l).

Definition state (initialState : jsstring) (terminalStates : list jsstring) (id : jsstring) : WorkflowState :=
  State id (bool_decide (id = initialState)) (includes terminalStates id).

(** [manifest], for the inputs that are given; no skill overrides its initial state. *)
Definition manifest (sk : skill) (states terminalStates : list jsstring)
    (transitions : list WorkflowTransition) (verbs : list WorkflowVerb) (typedArgs : list TypedArgSpec)
    (retention : list RetentionPolicy) (hudFields : list jsstring) (graphLabel : jsstring)
    (stopReleasingPhases phaseLock canonicalOverrides : option (list jsstring)) : SkillManifest :=
  let initialState := initialPhaseForSkill (skill_name sk) in
  Manifest sk (state initialState terminalStates <$> states) initialState terminalStates transitions
    verbs (COMMON_TYPED_ARGS ++ typedArgs) retention hudFields graphLabel
    (default (jsl ["complete"; "completed"; "failed"; "cancelled"; "canceled"; "inactive"]) stopReleasingPhases)
    (default [] phaseLock) (default [] canonicalOverrides).

Definition deepInterview_transitions : list WorkflowTransition :=
  [Transition (js "interviewing") (js "handoff") (js "write-spec");
   Transition (js "handoff") (js "complete") (js "clear");
   Transition (js "interviewing") (js "complete") (js "clear")].

Definition deepInterview_typedArgs : list TypedArgSpec :=
  [TypedArg (js "quick") ABoolean None false (Some (jsl ["kickoff"])) false;
   TypedArg (js "standard") ABoolean None false (Some (jsl ["kickoff"])) false;
   TypedArg (js "deep") ABoolean None false (Some (jsl ["kickoff"])) false;
   TypedArg (js "threshold") ANumber None false (Some (jsl ["kickoff"])) false;
   TypedArg (js "threshold-source") AString None false (Some (jsl ["kickoff"])) false;
   TypedArg (js "stage") AEnum (Some (jsl ["final"])) false (Some (jsl ["write-spec"])) false;
   TypedArg (js "slug") AString None false (Some (jsl ["write-spec"])) false;
   TypedArg (js "spec") AString None true (Some (jsl ["write-spec"])) false;
   TypedArg (js "handoff") AEnum (Some (jsl ["ralplan"])) false (Some (jsl ["write-spec"])) false;
   TypedArg (js "deliberate") ABoolean None false (Some (jsl ["write-spec"])) false;
   TypedArg (js "json") ABoolean None false (Some (jsl ["write-spec"; "stage"; "check"; "apply";
     "discard"; "read"; "write"; "clear"; "handoff"])) false;
   TypedArg (js "input") AString None true (Some (jsl ["stage"; "write"])) false;
   TypedArg (js "reset") ABoolean None false (Some (jsl ["write"])) false;
   TypedArg (js "for") AEnum (Some (jsl ["initialize-context"; "record-round"; "update-facts";
     "merge-state"])) true (Some (jsl ["stage"])) false;
   TypedArg (js "args") AString None false None true;
   TypedArg (js "metadata-json") AString None false None true].

Definition ralplan_transitions : list WorkflowTransition :=
  [Transition (js "planner") (js "architect") (js "write-artifact");
   Transition (js "architect") (js "critic") (js "write-artifact");
   Transition (js "critic") (js "disposition") (js "write-artifact");
   Transition (js "architect") (js "disposition") (js "write-artifact");
   Transition (js "disposition") (js "revision") (js "write-artifact");
   Transition (js "critic") (js "revision") (js "write-artifact");
   Transition (js "revision") (js "post-interview") (js "write-artifact");
   Transition (js "critic") (js "post-interview") (js "write-artifact");
   Transition (js "disposition") (js "post-interview") (js "write-artifact");
   Transition (js "post-interview") (js "revision") (js "write-artifact");
   Transition (js "post-interview") (js "adr") (js "write-artifact");
   Transition (js "revision") (js "adr") (js "write-artifact");
   Transition (js "adr") (js "final") (js "write-artifact");
   Transition (js "planner") (js "handoff") (js "handoff");
   Transition (js "architect") (js "handoff") (js "handoff");
   Transition (js "critic") (js "handoff") (js "handoff");
   Transition (js "disposition") (js "handoff") (js "handoff");
   Transition (js "revision") (js "handoff") (js "handoff");
   Transition (js "adr") (js "handoff") (js "handoff");
   Transition (js "post-interview") (js "handoff") (js "handoff")].

Definition ralplan_typedArgs : list TypedArgSpec :=
  [TypedArg (js "interactive") ABoolean None false (Some (jsl ["kickoff"])) false;
   TypedArg (js "deliberate") ABoolean None false (Some (jsl ["kickoff"])) false;
   TypedArg (js "architect") AString None false (Some (jsl ["kickoff"])) false;
   TypedArg (js "critic") AString None false (Some (jsl ["kickoff"])) false;
   TypedArg (js "json") ABoolean None false (Some (jsl ["kickoff"; "write-artifact"])) false;
   TypedArg (js "stage") AEnum (Some (jsl ["planner"; "architect"; "critic"; "disposition"; "revision";
     "post-interview"; "adr"; "final"])) false (Some (jsl ["write-artifact"])) false;
   TypedArg (js "stage_n") ANumber None false (Some (jsl ["write-artifact"])) false;
   TypedArg (js "artifact") AString None true (Some (jsl ["write-artifact"])) false;
   TypedArg (js "run-id") AString None false (Some (jsl ["write-artifact"])) false;
   TypedArg (js "args") AString None false None true;
   TypedArg (js "metadata-json") AString None false None true].

Definition ultragoal_transitions : list WorkflowTransition :=
  [Transition (js "goal-planning") (js "pending") (js "create-goals");
   Transition (js "pending") (js "active") (js "complete-goals");
   Transition (js "active") (js "blocked") (js "checkpoint");
   Transition (js "active") (js "failed") (js "checkpoint");
   Transition (js "active") (js "complete") (js "checkpoint");
   Transition (js "blocked") (js "active") (js "checkpoint");
   Transition (js "failed") (js "active") (js "complete-goals");
   Transition (js "goal-planning") (js "handoff") (js "handoff");
   Transition (js "pending") (js "handoff") (js "handoff");
   Transition (js "active") (js "handoff") (js "handoff");
   Transition (js "blocked") (js "handoff") (js "handoff")].

Definition ultragoal_typedArgs : list TypedArgSpec :=
  [TypedArg (js "brief") AString None false (Some (jsl ["create-goals"])) false;
   TypedArg (js "brief-file") AString None false (Some (jsl ["create-goals"])) false;
   TypedArg (js "from-stdin") ABoolean None false (Some (jsl ["create-goals"])) false;
   TypedArg (js "gjc-goal-mode") AEnum (Some (jsl ["aggregate"; "per-story"])) false (Some (jsl
     ["create-goals"])) false;
   TypedArg (js "validation-batch-json") AString None false (Some (jsl ["create-goals"])) false;
   TypedArg (js "retry-failed") ABoolean None false (Some (jsl ["complete-goals"])) false;
   TypedArg (js "goal-id") AString None true (Some (jsl ["checkpoint"; "record-review-blockers"]))
     false;
   TypedArg (js "status") AEnum (Some (jsl ["pending"; "active"; "complete"; "failed"; "blocked";
     "review_blocked"; "superseded"])) true (Some (jsl ["checkpoint"])) false;
   TypedArg (js "evidence") AString None true (Some (jsl ["checkpoint"; "record-review-blockers";
     "steer"; "classify-blocker"; "record-critic-verdict"; "record-critic-gate-override";
     "quality-gate"])) false;
   TypedArg (js "terminus") AEnum (Some (jsl ["completion"; "pause"])) true (Some (jsl
     ["record-critic-verdict"])) false;
   TypedArg (js "verdict") AEnum (Some (jsl ["OKAY"; "ITERATE"; "REJECT"])) true (Some (jsl
     ["record-critic-verdict"])) false;
   TypedArg (js "blockers-json") AString None false (Some (jsl ["record-critic-verdict"])) false;
   TypedArg (js "goal-id") AString None false (Some (jsl ["record-critic-verdict"])) false;
   TypedArg (js "classification-event-id") AString None false (Some (jsl ["record-critic-verdict"]))
     false;
   TypedArg (js "quality-gate-json") AString None false (Some (jsl ["checkpoint"; "quality-gate"]))
     false;
   TypedArg (js "goal-id") AString None false (Some (jsl ["quality-gate"])) false;
   TypedArg (js "goal-id") AString None false (Some (jsl ["steer"])) false;
   TypedArg (js "goal-id") AString None false (Some (jsl ["classify-blocker"])) false;
   TypedArg (js "classification") AEnum (Some (jsl ["human_blocked"; "resolvable"])) true (Some (jsl
     ["classify-blocker"])) false;
   TypedArg (js "kind") AEnum (Some (jsl ["add_subgoal"; "split_subgoal"; "reorder_pending";
     "revise_pending_wording"; "annotate_ledger"; "mark_blocked_superseded"])) false (Some (jsl
     ["steer"])) false;
   TypedArg (js "title") AString None false (Some (jsl ["record-review-blockers"; "steer"])) false;
   TypedArg (js "objective") AString None false (Some (jsl ["record-review-blockers"; "steer"])) false;
   TypedArg (js "rationale") AString None false (Some (jsl ["steer"])) false;
   TypedArg (js "replacements-json") AString None false (Some (jsl ["steer"])) false;
   TypedArg (js "order-json") AString None false (Some (jsl ["steer"])) false;
   TypedArg (js "pr") AString None false (Some (jsl ["review"])) false;
   TypedArg (js "branch") AString None false (Some (jsl ["review"])) false;
   TypedArg (js "spec") AString None false (Some (jsl ["review"])) false;
   TypedArg (js "executor-qa-json") AString None false (Some (jsl ["review"])) false;
   TypedArg (js "mode") AEnum (Some (jsl ["review-only"; "review-start"])) false (Some (jsl
     ["review"])) false;
   TypedArg (js "json") ABoolean None false (Some (jsl ["status"; "create-goals"; "complete-goals";
     "review"; "checkpoint"; "record-review-blockers"; "steer"; "classify-blocker";
     "record-critic-verdict"; "record-critic-gate-override"])) false;
   TypedArg (js "directive-json") AString None false (Some (jsl ["steer"])) true;
   TypedArg (js "args") AString None false None true;
   TypedArg (js "metadata-json") AString None false None true].

Definition team_transitions : list WorkflowTransition :=
  [Transition (js "starting") (js "running") (js "start");
   Transition (js "starting") (js "failed") (js "start");
   Transition (js "running") (js "awaiting_integration") (js "api");
   Transition (js "running") (js "complete") (js "shutdown");
   Transition (js "running") (js "failed") (js "shutdown");
   Transition (js "running") (js "cancelled") (js "shutdown");
   Transition (js "awaiting_integration") (js "running") (js "resume");
   Transition (js "awaiting_integration") (js "complete") (js "shutdown");
   Transition (js "starting") (js "handoff") (js "handoff");
   Transition (js "running") (js "handoff") (js "handoff");
   Transition (js "awaiting_integration") (js "handoff") (js "handoff")].

Definition team_typedArgs : list TypedArgSpec :=
  [TypedArg (js "dry-run") ABoolean None false (Some (jsl ["start"])) false;
   TypedArg (js "worktree") AString None false (Some (jsl ["start"])) false;
   TypedArg (js "w") AString None false (Some (jsl ["start"])) false;
   TypedArg (js "input") AString None true (Some (jsl ["api"])) false;
   TypedArg (js "operation") AEnum (Some (jsl ["send-message"; "broadcast"; "mailbox-list";
     "mailbox-mark-delivered"; "mailbox-mark-notified"; "notification-list"; "notification-read";
     "notification-replay"; "notification-mark-pane-attempt"; "worker-startup-ack"; "create-task";
     "read-task"; "list-tasks"; "update-task"; "claim-task"; "transition-task-status";
     "transition-task"; "release-task-claim"; "read-config"; "read-manifest"; "read-worker-status";
     "read-worker-heartbeat"; "update-worker-heartbeat"; "read-worker-memory-guard";
     "update-worker-memory-guard"; "apply-worker-memory-guard"; "write-worker-inbox";
     "write-worker-identity"; "append-event"; "read-events"; "await-event";
     "write-shutdown-request"; "read-shutdown-ack"; "read-monitor-snapshot";
     "write-monitor-snapshot"; "read-task-approval"; "write-task-approval"])) true (Some (jsl
     ["api"])) false;
   TypedArg (js "worker-id") AString None false (Some (jsl ["api"])) false;
   TypedArg (js "task-id") AString None false (Some (jsl ["api"])) false;
   TypedArg (js "claim-token") AString None false (Some (jsl ["api"])) false;
   TypedArg (js "status") AEnum (Some (jsl ["pending"; "blocked"; "in_progress"; "completed";
     "failed"])) false (Some (jsl ["api"])) false;
   TypedArg (js "completion_evidence") AObject None false (Some (jsl ["api"])) false;
   TypedArg (js "completionEvidence") AObject None false (Some (jsl ["api"])) false;
   TypedArg (js "platform") AString None false (Some (jsl ["api"])) false;
   TypedArg (js "automatic-action-allowed") ABoolean None false (Some (jsl ["api"])) false;
   TypedArg (js "incident-id") AString None false (Some (jsl ["api"])) false;
   TypedArg (js "pid-probe") AObject None false (Some (jsl ["api"])) false;
   TypedArg (js "candidates") AObject None false (Some (jsl ["api"])) false;
   TypedArg (js "args") AString None false None true;
   TypedArg (js "metadata-json") AString None false None true].


Definition LOCKED : list jsstring :=
  jsl ["final"; "handoff"; "complete"; "completed"; "failed"; "cancelled"; "canceled"; "inactive"].

Definition WORKFLOW_MANIFEST (sk : skill) : SkillManifest :=
  match sk with
  | DeepInterview =>
      manifest DeepInterview (jsl ["interviewing"; "handoff"; "complete"]) (jsl ["handoff"; "complete"])
        deepInterview_transitions
        (stateVerbs ++ flagVerbs (jsl ["kickoff"; "write-spec"])
         ++ positionalVerbs (jsl ["stage"; "check"; "apply"; "discard"; "read"; "write"; "clear"; "handoff"])
         ++ plannedVerbs PLANNED_ADMIN_VERBS)
        deepInterview_typedArgs
        [STATE_RETENTION; ARTIFACT_RETENTION; PRUNE_RETENTION; FORCE_RETENTION]
        (jsl ["current_phase"; "ambiguity_score"; "threshold"; "spec_slug"; "spec_path"; "topology"])
        (js "Deep Interview") None None None
  | Ralplan =>
      manifest Ralplan
        (jsl ["planner"; "architect"; "critic"; "disposition"; "revision"; "post-interview"; "adr";
              "final"; "handoff"])
        (jsl ["final"; "handoff"]) ralplan_transitions
        (stateVerbs ++ flagVerbs (jsl ["kickoff"; "write-artifact"]) ++ plannedVerbs PLANNED_ADMIN_VERBS)
        ralplan_typedArgs
        [STATE_RETENTION; ARTIFACT_RETENTION; LEDGER_RETENTION; PRUNE_RETENTION; FORCE_RETENTION]
        (jsl ["current_phase"; "mode"; "run_id"; "stage"; "stage_n"; "plan_path"])
        (js "Ralplan") None (Some LOCKED) (Some LOCKED)
  | Ultragoal =>
      manifest Ultragoal
        (jsl ["missing"; "goal-planning"; "pending"; "active"; "blocked"; "failed"; "complete"; "handoff"])
        (jsl ["missing"; "failed"; "complete"; "handoff"]) ultragoal_transitions
        (stateVerbs
         ++ positionalVerbs (jsl ["status"; "create"; "create-goals"; "complete-goals"; "checkpoint"; "review";
              "record-review-blockers"; "steer"; "classify-blocker"; "record-critic-verdict";
              "record-critic-gate-override"; "quality-gate"])
         ++ plannedVerbs PLANNED_ADMIN_VERBS)
        ultragoal_typedArgs
        [STATE_RETENTION; ARTIFACT_RETENTION; LEDGER_RETENTION; PRUNE_RETENTION; FORCE_RETENTION]
        (jsl ["current_phase"; "active_goal_id"; "status"; "counts"; "ledger_path"; "brief_path"])
        (js "Ultragoal") None None None
  | Team =>
      manifest Team
        (jsl ["starting"; "running"; "awaiting_integration"; "complete"; "failed"; "cancelled"; "handoff"])
        (jsl ["complete"; "failed"; "cancelled"; "handoff"]) team_transitions
        (stateVerbs
         ++ positionalVerbs (jsl ["start"; "list"; "status"; "monitor"; "resume"; "shutdown"; "api"])
         ++ plannedVerbs PLANNED_ADMIN_VERBS)
        team_typedArgs
        [STATE_RETENTION; ARTIFACT_RETENTION; LEDGER_RETENTION; LOG_RETENTION; REPORT_RETENTION;
         AGENTS_RETENTION; PRUNE_RETENTION; FORCE_RETENTION]
        (jsl ["current_phase"; "team_name"; "workers"; "task_counts"; "phase"; "integration"])
        (js "Team") None None None
  end.

(** ** Queries *)

Definition isKnownWorkflowState (sk : skill) (id : jsstring) : bool :=
  existsb (fun entry => bool_decide (st_id entry = id)) (mf_states (WORKFLOW_MANIFEST sk)).

Definition isValidTransition (sk : skill) (from to : jsstring) : bool :=
  if bool_decide (from = to) then true
  else existsb (fun t => bool_decide (tr_from t = from) && bool_decide (tr_to t = to))
         (mf_transitions (WORKFLOW_MANIFEST sk)).

Definition listVerbs (sk : skill) : list jsstring := vb_name <$> mf_verbs (WORKFLOW_MANIFEST sk).

Definition applies_to (v : jsstring) (arg : TypedArgSpec) : bool :=
  match ta_appliesToVerbs arg with None => true | Some vs => includes vs v end.

Definition typedArgsFor (sk : skill) (v : jsstring) : list TypedArgSpec :=
  List.filter (applies_to v) (mf_typedArgs (WORKFLOW_MANIFEST sk)).

(** ** The graph of a workflow *)

Definition edge (sk : skill) (a b : jsstring) : Prop := isValidTransition sk a b = true.

(** The states reached from [a] by at most [n] transitions. *)
Fixpoint reach (n : nat) (sk : skill) (a : jsstring) : list jsstring :=
  match n with
  | O => [a]
  | S n' =>
      let l := reach n' sk a in
      l ++ (tr_to <$> List.filter (fun t => includes l (tr_from t)) (mf_transitions (WORKFLOW_MANIFEST sk)))
  end.

Lemma edge_transition sk t : t ∈ mf_transitions (WORKFLOW_MANIFEST sk) -> edge sk (tr_from t) (tr_to t).
Proof.
  intros Ht. unfold edge, isValidTransition. case_bool_decide; [done|].
  apply existsb_exists. exists t. split; [by apply list_elem_of_In|].
  by rewrite !bool_decide_eq_true_2.
Qed.

Lemma edge_inv sk a b :
  edge sk a b -> a = b \/ exists t, t ∈ mf_transitions (WORKFLOW_MANIFEST sk) /\ tr_from t = a /\ tr_to t = b.
Proof.
  unfold edge, isValidTransition. case_bool_decide as Hab; [by left|]. intros H. right.
  apply existsb_exists in H as (t & Hin & H). simpl_bool. apply list_elem_of_In in Hin. eauto.
Qed.

Lemma reach_sound n sk a b : b ∈ reach n sk a -> rtc (edge sk) a b.
Proof.
  revert b. induction n as [|n IH]; intros b; simpl.
  - intros ->%list_elem_of_singleton. done.
  - intros [H|H]%elem_of_app; [auto|]. apply list_elem_of_fmap in H as (t & -> & Ht).
    apply list_elem_of_In, filter_In in Ht as [Ht Hf]. unfold includes in Hf. simpl_bool.
    eapply rtc_r; [by apply IH|]. by apply edge_transition, list_elem_of_In.
Qed.

(** A set of states that no transition leaves is never left. *)
Definition closed (sk : skill) (l : list jsstring) : bool :=
  forallb (fun t => implb (includes l (tr_from t)) (includes l (tr_to t)))
    (mf_transitions (WORKFLOW_MANIFEST sk)).

Lemma closed_sound sk l a b : closed sk l = true -> rtc (edge sk) a b -> a ∈ l -> b ∈ l.
Proof.
  intros Hc. induction 1 as [|a b c [->|(t & Ht & <- & <-)]%edge_inv _ IH]; [done|done|].
  intros Ha. apply IH. unfold closed in Hc. rewrite forallb_forall in Hc.
  apply list_elem_of_In, Hc in Ht. unfold includes in Ht. rewrite bool_decide_eq_true_2 in Ht by done.
  simpl in Ht. by simpl_bool.
Qed.

Definition known_ids (sk : skill) : list jsstring := st_id <$> mf_states (WORKFLOW_MANIFEST sk).

Lemma known_in sk id : isKnownWorkflowState sk id = true <-> id ∈ known_ids sk.
Proof.
  unfold isKnownWorkflowState, known_ids. rewrite existsb_exists, list_elem_of_fmap. split.
  - intros (e & He & H). simpl_bool. exists e. split; [done|]. by apply list_elem_of_In.
  - intros (e & -> & He). exists e. split; [by apply list_elem_of_In|]. by apply bool_decide_eq_true_2.
Qed.

Definition initial_of (sk : skill) : jsstring := mf_initialState (WORKFLOW_MANIFEST sk).
Definition terminal_of (sk : skill) : list jsstring := mf_terminalStates (WORKFLOW_MANIFEST sk).

(** The checks on the data, by computation. *)
Definition manifest_ok (sk : skill) : bool :=
  bool_decide (NoDup (known_ids sk))
  && bool_decide (st_id <$> List.filter st_initial (mf_states (WORKFLOW_MANIFEST sk)) = [initial_of sk])
  && forallb (includes (known_ids sk)) (terminal_of sk)
  && forallb (fun t => includes (known_ids sk) (tr_from t) && includes (known_ids sk) (tr_to t)
                       && includes (listVerbs sk) (tr_verb t))
       (mf_transitions (WORKFLOW_MANIFEST sk)).

Lemma manifests_ok sk : manifest_ok sk = true.
Proof. destruct sk; vm_compute; reflexivity. Qed.

Definition reach_ok (sk : skill) (id : jsstring) : bool :=
  (bool_decide (id = js "missing") || includes (reach 8 sk (initial_of sk)) id)
  && existsb (includes (reach 8 sk id)) (terminal_of sk).

Lemma reaches_ok sk : forallb (reach_ok sk) (known_ids sk) = true.
Proof. destruct sk; vm_compute; reflexivity. Qed.

(** The transitions out of terminal states. *)
Definition reopened (sk : skill) (a b : jsstring) : Prop :=
  (sk = DeepInterview /\ a = js "handoff" /\ b = js "complete")
  \/ (sk = Ultragoal /\ a = js "failed" /\ b = js "active").

Lemma terminal_exits sk t :
  t ∈ mf_transitions (WORKFLOW_MANIFEST sk) -> tr_from t ∈ terminal_of sk -> reopened sk (tr_from t) (tr_to t).
Proof.
  intros Ht. apply (bool_decide_unpack (tr_from t ∈ terminal_of sk -> reopened sk (tr_from t) (tr_to t))).
  revert t Ht. unfold reopened. destruct sk; apply Forall_forall; repeat (constructor; [by vm_compute|]); constructor.
Qed.

Lemma manifest_data sk :
  NoDup (known_ids sk) /\
  st_id <$> List.filter st_initial (mf_states (WORKFLOW_MANIFEST sk)) = [initial_of sk] /\
  (forall e, e ∈ terminal_of sk -> e ∈ known_ids sk) /\
  (forall t, t ∈ mf_transitions (WORKFLOW_MANIFEST sk) ->
    tr_from t ∈ known_ids sk /\ tr_to t ∈ known_ids sk /\ tr_verb t ∈ listVerbs sk).
Proof.
  pose proof (manifests_ok sk) as H. unfold manifest_ok in H.
  apply andb_prop in H as [H Htr]. apply andb_prop in H as [H Hte]. apply andb_prop in H as [Hnd Hin].
  simpl_bool. rewrite forallb_forall in Htr, Hte. split; [done|]. split; [done|]. split.
  - intros e He%list_elem_of_In%Hte. unfold includes in He. by simpl_bool.
  - intros t Ht%list_elem_of_In%Htr. unfold includes in Ht. by simpl_bool.
Qed.

Lemma manifest_paths sk id :
  id ∈ known_ids sk ->
  (id = js "missing" \/ rtc (edge sk) (initial_of sk) id) /\
  exists e, e ∈ terminal_of sk /\ rtc (edge sk) id e.
Proof.
  intros Hid. pose proof (reaches_ok sk) as H. rewrite forallb_forall in H.
  apply list_elem_of_In, H in Hid. unfold reach_ok in Hid. apply andb_prop in Hid as [Hi He]. split.
  - apply orb_true_iff in Hi as [Hi|Hi]; unfold includes in Hi; simpl_bool; [by left|right].
    by eapply reach_sound.
  - apply existsb_exists in He as (e & He%list_elem_of_In & Hr). unfold includes in Hr. simpl_bool.
    exists e. split; [done|]. by eapply reach_sound.
Qed.

Lemma missing_unreachable : ~ rtc (edge Ultragoal) (initial_of Ultragoal) (js "missing").
Proof.
  intros H. eapply (closed_sound _ (jsl ["goal-planning"; "pending"; "active"; "blocked"; "failed"; "complete"; "handoff"])) in H.
  - revert H. apply (bool_decide_unpack _). by vm_compute.
  - by vm_compute.
  - apply (bool_decide_unpack _). by vm_compute.
Qed.

(** The graph of every workflow is sound.  State names are distinct, one state is initial,
    and terminal states are states; every transition is between two of them, by a verb the skill
    declares.  Every known state but [missing] of ultragoal is reached from the initial one (that
    one is not), and from every known state a terminal one is reached.  A valid transition stays
    within the known states, and leaves a terminal state only to complete a handed-off interview
    or to retry a failed goal. *)
Theorem workflow_graph_sound sk :
  (NoDup (known_ids sk) /\
   st_id <$> List.filter st_initial (mf_states (WORKFLOW_MANIFEST sk)) = [initial_of sk] /\
   (forall e, e ∈ terminal_of sk -> isKnownWorkflowState sk e = true) /\
   (forall t, t ∈ mf_transitions (WORKFLOW_MANIFEST sk) -> tr_verb t ∈ listVerbs sk)) /\
  (forall id, isKnownWorkflowState sk id = true ->
     (id = js "missing" \/ rtc (edge sk) (initial_of sk) id) /\
     exists e, e ∈ terminal_of sk /\ rtc (edge sk) id e) /\
  ~ rtc (edge Ultragoal) (initial_of Ultragoal) (js "missing") /\
  (forall a b, isValidTransition sk a b = true -> a <> b ->
     isKnownWorkflowState sk a = true /\ isKnownWorkflowState sk b = true /\
     (a ∈ terminal_of sk -> reopened sk a b)).
Proof.
  destruct (manifest_data sk) as (Hnd & Hin & Hte & Htr). split; [|split; [|split]].
  - split; [done|]. split; [done|]. split.
    + intros e He. by apply known_in, Hte.
    + intros t Ht. by apply Htr.
  - intros id Hid%known_in. by apply manifest_paths.
  - exact missing_unreachable.
  - intros a b [->|(t & Ht & <- & <-)]%edge_inv Hab; [done|]. destruct (Htr t Ht) as (Hf & Hto & _).
    split; [by apply known_in|]. split; [by apply known_in|]. by apply terminal_exits.
Qed.
