(* ===== verification/JsonText.v ===== *)
(** * JSON.parse

    The grammar of JSON texts as the language reads them: white space, literals, numbers,
    strings with their escapes, arrays and objects.  A number is kept as the characters of
    its literal, because no caller computes with it.  The reader takes fuel; it is shown that
    the fuel [JSON_parse] gives is always enough, and that it reads back what
    [JSON.stringify] writes. *)

From S2P Require Import Prelude JsText Json.

Local Open Scope N_scope.
#[local] Set Warnings "-register-all".

(** A value read from a text.  The fields of an object are in the order of the text, with
    duplicates. *)
Inductive jtext :=
| TNull
| TBool (b : bool)
| TNumber (raw : jsstring)
| TStr (s : jsstring)
| TArr (items : list jtext)
| TObj (fields : list (jsstring * jtext)).

(** [record[k]]: of duplicate names the last one counts. *)
Definition tget (k : jsstring) (fields : list (jsstring * jtext)) : option jtext :=
  snd <$> last (List.filter (fun f => bool_decide (f.1 = k)) fields).

Inductive json_fail := SyntaxError | OutOfFuel.

Definition is_json_ws (c : N) : bool := (c =? 32) || (c =? 9) || (c =? 10) || (c =? 13).
Definition skip_ws (s : jsstring) : jsstring := (span is_json_ws s).2.

Definition hex_value (c : N) : option N :=
  if is_digit c then Some (c - 48)
  else if (97 <=? c) && (c <=? 102) then Some (c - 87)
  else if (65 <=? c) && (c <=? 70) then Some (c - 55)
  else None.

Definition hex4 (a b c d : N) : option N :=
  match hex_value a, hex_value b, hex_value c, hex_value d with
  | Some a, Some b, Some c, Some d => Some (((a * 16 + b) * 16 + c) * 16 + d)
  | _, _, _, _ => None
  end.

Definition simple_escape (c : N) : option N :=
  if (c =? QUOTE) || (c =? BACKSLASH) || (c =? 47) then Some c
  else if c =? 98 then Some 8 else if c =? 102 then Some 12 else if c =? 110 then Some 10
  else if c =? 114 then Some 13 else if c =? 116 then Some 9 else None.

(** The rest of a string literal after its opening quote. *)
Fixpoint json_string (t : jsstring) : option (jsstring * jsstring) :=
  match t with
  | [] => None
  | c :: t' =>
      if c =? QUOTE then Some ([], t')
      else if c =? BACKSLASH then
        match t' with
        | e :: ((h1 :: h2 :: h3 :: h4 :: t'') as t1) =>
            if e =? 117 then
              match hex4 h1 h2 h3 h4 with
              | Some u => cons_fst u (json_string t'')
              | None => None
              end
            else match simple_escape e with Some u => cons_fst u (json_string t1) | None => None end
        | e :: t1 =>
            match simple_escape e with Some u => cons_fst u (json_string t1) | None => None end
        | [] => None
        end
      else if c <? 32 then None
      else cons_fst c (json_string t')
  end.

(** The digits of a number: none is an error. *)
Definition digits1 (s : jsstring) : option (jsstring * jsstring) :=
  match span is_digit s with ([], _) => None | r => Some r end.

Definition json_int (s : jsstring) : option (jsstring * jsstring) :=
  match s with
  | c :: s' => if c =? 48 then Some ([c], s') else digits1 s
  | [] => None
  end.

Definition json_frac (s : jsstring) : option (jsstring * jsstring) :=
  match s with
  | c :: s' =>
      if c =? 46 then match digits1 s' with Some (d, r) => Some (c :: d, r) | None => None end
      else Some ([], s)
  | [] => Some ([], s)
  end.

Definition json_exp (s : jsstring) : option (jsstring * jsstring) :=
  match s with
  | c :: s' =>
      if (c =? 101) || (c =? 69) then
        let '(sign, s'') := match s' with
                            | d :: r => if (d =? 43) || (d =? 45) then ([d], r) else ([], s')
                            | [] => ([], s')
                            end in
        match digits1 s'' with Some (d, r) => Some (c :: sign ++ d, r) | None => None end
      else Some ([], s)
  | [] => Some ([], s)
  end.

Definition json_number (s : jsstring) : option (jsstring * jsstring) :=
  let '(sign, s0) := match s with
                     | c :: s' => if c =? 45 then ([c], s') else ([], s)
                     | [] => ([], s)
                     end in
  match json_int s0 with
  | None => None
  | Some (i, s1) =>
      match json_frac s1 with
      | None => None
      | Some (f, s2) =>
          match json_exp s2 with
          | None => None
          | Some (e, s3) => Some (sign ++ i ++ f ++ e, s3)
          end
      end
  end.

Definition or_syntax {A} (r : option A) : result json_fail A :=
  match r with Some a => Ok a | None => Err SyntaxError end.

Definition expect (c : N) (s : jsstring) : result json_fail jsstring :=
  match skip_ws s with
  | d :: r => if d =? c then Ok r else Err SyntaxError
  | [] => Err SyntaxError
  end.

(** A value; the elements of an array after its bracket or a comma; the members of an object. *)
Fixpoint parse_value (fuel : nat) (s : jsstring) : result json_fail (jtext * jsstring) :=
  match fuel with
  | O => Err OutOfFuel
  | S fuel' =>
      match skip_ws s with
      | [] => Err SyntaxError
      | c :: r =>
          if c =? QUOTE then
            let! (x, r') := or_syntax (json_string r) in Ok (TStr x, r')
          else if c =? 91 then
            match skip_ws r with
            | d :: r' =>
                if d =? 93 then Ok (TArr [], r')
                else let! (xs, r'') := parse_items fuel' r in Ok (TArr xs, r'')
            | [] => Err SyntaxError
            end
          else if c =? 123 then
            match skip_ws r with
            | d :: r' =>
                if d =? 125 then Ok (TObj [], r')
                else let! (fs, r'') := parse_members fuel' r in Ok (TObj fs, r'')
            | [] => Err SyntaxError
            end
          else if starts_with (js "null") (c :: r) then Ok (TNull, drop 4 (c :: r))
          else if starts_with (js "true") (c :: r) then Ok (TBool true, drop 4 (c :: r))
          else if starts_with (js "false") (c :: r) then Ok (TBool false, drop 5 (c :: r))
          else let! (n, r') := or_syntax (json_number (c :: r)) in Ok (TNumber n, r')
      end
  end
with parse_items (fuel : nat) (s : jsstring) : result json_fail (list jtext * jsstring) :=
  match fuel with
  | O => Err OutOfFuel
  | S fuel' =>
      let! (x, r) := parse_value fuel' s in
      match skip_ws r with
      | [] => Err SyntaxError
      | d :: r' =>
          if d =? 93 then Ok ([x], r')
          else if d =? 44 then let! (xs, r'') := parse_items fuel' r' in Ok (x :: xs, r'')
          else Err SyntaxError
      end
  end
with parse_members (fuel : nat) (s : jsstring) : result json_fail (list (jsstring * jtext) * jsstring) :=
  match fuel with
  | O => Err OutOfFuel
  | S fuel' =>
      let! r0 := expect QUOTE s in
      let! (k, r1) := or_syntax (json_string r0) in
      let! r2 := expect 58 r1 in
      let! (x, r) := parse_value fuel' r2 in
      match skip_ws r with
      | [] => Err SyntaxError
      | d :: r' =>
          if d =? 125 then Ok ([(k, x)], r')
          else if d =? 44 then let! (fs, r'') := parse_members fuel' r' in Ok ((k, x) :: fs, r'')
          else Err SyntaxError
      end
  end.

Definition JSON_parse_fuel (fuel : nat) (s : jsstring) : result json_fail jtext :=
  let! (v, r) := parse_value fuel s in
  match skip_ws r with [] => Ok v | _ => Err SyntaxError end.

Definition JSON_parse (s : jsstring) : result json_fail jtext :=
  JSON_parse_fuel (2 * length s + 2) s.

Example parse_ex1 : JSON_parse (js " {'a' : [1, -2.5e3 ,null] }") = Err SyntaxError.
Proof. vm_compute. reflexivity. Qed.

(** ** Progress and fuel *)

Lemma skip_ws_length s : (length (skip_ws s) <= length s)%nat.
Proof. apply span_length. Qed.

Lemma cons_fst_Some c r x t :
  cons_fst c r = Some (x, t) -> exists x', r = Some (x', t) /\ x = c :: x'.
Proof. destruct r as [[]|]; simpl; intros [=]; subst; eauto. Qed.

Lemma json_string_length t x r : json_string t = Some (x, r) -> (length r < length t)%nat.
Proof.
  remember (length t) as n eqn:Hn. revert t x r Hn. induction n as [n IH] using lt_wf_ind.
  intros t x r ->. destruct t as [|c t]; [done|]. cbn [json_string].
  assert (Hrec : forall u k t' x, (length t' <= length t)%nat -> u = Some k ->
    match u with Some u => cons_fst u (json_string t') | None => None end = Some (x, r) ->
    (length r < length (c :: t))%nat).
  { intros u k t' x' Hl -> (x'' & E & _)%cons_fst_Some. simpl.
    eapply (IH (length t')) in E; simpl; lia. }
  destruct (c =? QUOTE); [intros [= _ <-]; simpl; lia|].
  destruct (c =? BACKSLASH).
  - destruct t as [|e t1]; [done|].
    assert (Hsimple : match simple_escape e with
        | Some u => cons_fst u (json_string t1) | None => None end = Some (x, r) ->
        (length r < length (c :: e :: t1))%nat).
    { destruct (simple_escape e) as [u|] eqn:E; [|done]. apply (Hrec (Some u) u); [simpl; lia|done]. }
    destruct t1 as [|h1 [|h2 [|h3 [|h4 t1]]]]; try done.
    destruct (e =? 117); [|done]. destruct (hex4 h1 h2 h3 h4) as [u|]; [|done].
    apply (Hrec (Some u) u); [simpl; lia|done].
  - destruct (c <? 32); [done|]. by apply (Hrec (Some c) c).
Qed.

Lemma digits1_length s d r : digits1 s = Some (d, r) -> (length r < length s)%nat.
Proof.
  unfold digits1. pose proof (span_app is_digit s) as E. destruct (span is_digit s) as [[|x a] b]; [done|].
  simpl in E. intros [= <- <-]. rewrite <- E. simpl. rewrite length_app. lia.
Qed.

Lemma json_int_length s d r : json_int s = Some (d, r) -> (length r < length s)%nat.
Proof.
  unfold json_int. destruct s as [|c s]; [done|]. destruct (c =? 48).
  - intros [= <- <-]. simpl. lia.
  - apply digits1_length.
Qed.

Lemma json_frac_length s d r : json_frac s = Some (d, r) -> (length r <= length s)%nat.
Proof.
  unfold json_frac. destruct s as [|c s]; [by intros [= <- <-]|].
  destruct (c =? 46); [|by intros [= <- <-]].
  destruct (digits1 s) as [[d' r']|] eqn:E; [|done]. intros [= <- <-].
  apply digits1_length in E. simpl. lia.
Qed.

Lemma json_exp_length s d r : json_exp s = Some (d, r) -> (length r <= length s)%nat.
Proof.
  unfold json_exp. destruct s as [|c s]; [by intros [= <- <-]|].
  destruct (_ || _); [|by intros [= <- <-]].
  set (m := match s with [] => _ | _ => _ end).
  assert (Hm : (length m.2 <= length s)%nat).
  { subst m. destruct s as [|x s]; [done|]. destruct (_ || _); simpl; lia. }
  destruct m as [sign s']. simpl in Hm.
  destruct (digits1 s') as [[d' r']|] eqn:E; [|done]. intros [= <- <-].
  apply digits1_length in E. simpl. lia.
Qed.

Lemma json_number_length s d r : json_number s = Some (d, r) -> (length r < length s)%nat.
Proof.
  unfold json_number. set (m := match s with [] => _ | _ => _ end).
  assert (Hm : (length m.2 <= length s)%nat).
  { subst m. destruct s as [|x s]; [done|]. destruct (_ =? _); simpl; lia. }
  destruct m as [sign s0]. simpl in Hm.
  destruct (json_int s0) as [[i s1]|] eqn:E1; [|done]. apply json_int_length in E1.
  destruct (json_frac s1) as [[f s2]|] eqn:E2; [|done]. apply json_frac_length in E2.
  destruct (json_exp s2) as [[e s3]|] eqn:E3; [|done]. apply json_exp_length in E3.
  intros [= _ <-]. lia.
Qed.

Lemma expect_length c s r : expect c s = Ok r -> (length r < length s)%nat.
Proof.
  unfold expect. pose proof (skip_ws_length s). destruct (skip_ws s) as [|d r'] eqn:E; [done|].
  destruct (d =? c); [|done]. intros [= <-]. simpl in *. lia.
Qed.

(** Fuel twice the length is enough, and a successful reader has consumed something. *)
Definition steps_within {A} (bound : nat) (s : jsstring) (fuel : nat) (r : result json_fail (A * jsstring)) : Prop :=
  match r with
  | Ok (_, t) => (length t < length s)%nat
  | Err e => (2 * length s + bound <= fuel)%nat -> e <> OutOfFuel
  end.

Lemma within_syntax {A} b s f : @steps_within A b s f (Err SyntaxError).
Proof. by intros _. Qed.
#[local] Hint Resolve within_syntax : core.

(** A step that reads the inner part and wraps its value. *)
Lemma within_bind {A B} b b' (s s' : jsstring) f f' (r : result json_fail (A * jsstring)) (k : A -> B) :
  steps_within b' s' f' r -> (length s' <= length s)%nat ->
  (2 * length s + b <= f -> 2 * length s' + b' <= f')%nat ->
  steps_within b s f (let! (x, t) := r in Ok (k x, t)).
Proof.
  destruct r as [[x t]|e]; simpl; [lia|]. intros He Hl Hf Hb. auto.
Qed.

Lemma within_option {A B} b (s s' : jsstring) f (o : option (A * jsstring)) (k : A -> B) :
  (forall x t, o = Some (x, t) -> (length t < length s')%nat) -> (length s' <= length s)%nat ->
  steps_within b s f (let! (x, t) := or_syntax o in Ok (k x, t)).
Proof.
  intros Ho Hl. destruct o as [[x t]|]; simpl; [|done]. specialize (Ho x t eq_refl). lia.
Qed.

Lemma starts_with_length (p s : jsstring) : starts_with p s = true -> (length p <= length s)%nat.
Proof.
  unfold starts_with. intros H. simpl_bool. rewrite <- H. rewrite length_take. lia.
Qed.

Lemma within_literal b (s s' : jsstring) f (p : jsstring) (v : jtext) :
  starts_with p s' = true -> (0 < length p)%nat -> (length s' <= length s)%nat ->
  steps_within b s f (Ok (v, drop (length p) s')).
Proof. intros H%starts_with_length. simpl. rewrite length_drop. lia. Qed.

Lemma parse_within f :
  (forall s, steps_within 1 s f (parse_value f s)) /\
  (forall s, steps_within 2 s f (parse_items f s)) /\
  (forall s, steps_within 2 s f (parse_members f s)).
Proof.
  induction f as [|f (IHv & IHi & IHm)].
  { split; [|split]; intros s; simpl; intros; exfalso; lia. }
  split; [|split]; intros s.
  - cbn [parse_value]. pose proof (skip_ws_length s) as Hs. destruct (skip_ws s) as [|c r]; [done|].
    simpl in Hs. pose proof (skip_ws_length r) as Hr.
    destruct (c =? QUOTE); [apply (within_option _ _ r); [apply json_string_length|lia]|].
    destruct (c =? 91).
    { destruct (skip_ws r) as [|d r']; [done|]. simpl in Hr. destruct (d =? 93); [simpl; lia|].
      eapply within_bind; [apply IHi|lia|lia]. }
    destruct (c =? 123).
    { destruct (skip_ws r) as [|d r']; [done|]. simpl in Hr. destruct (d =? 125); [simpl; lia|].
      eapply within_bind; [apply IHm|lia|lia]. }
    destruct (starts_with (js "null") (c :: r)) eqn:E1;
      [apply (within_literal _ _ _ _ (js "null")); simpl; [done|lia..]|].
    destruct (starts_with (js "true") (c :: r)) eqn:E2;
      [apply (within_literal _ _ _ _ (js "true")); simpl; [done|lia..]|].
    destruct (starts_with (js "false") (c :: r)) eqn:E3;
      [apply (within_literal _ _ _ _ (js "false")); simpl; [done|lia..]|].
    apply (within_option _ _ (c :: r)); [apply json_number_length|simpl; lia].
  - cbn [parse_items]. specialize (IHv s). destruct (parse_value f s) as [[x r]|e]; simpl in IHv |- *.
    + pose proof (skip_ws_length r) as Hr. destruct (skip_ws r) as [|d r']; [done|]. simpl in Hr.
      destruct (d =? 93); [simpl; lia|]. destruct (d =? 44); [|done].
      eapply within_bind; [apply IHi|lia|lia].
    + intros. apply IHv. lia.
  - cbn [parse_members]. destruct (expect QUOTE s) as [r0|e] eqn:E0.
    2: { unfold expect in E0. repeat case_match; simplify_eq; done. }
    apply expect_length in E0. destruct (json_string r0) as [[k r1]|] eqn:E1; simpl; [|done].
    apply json_string_length in E1. destruct (expect 58 r1) as [r2|e] eqn:E2.
    2: { unfold expect in E2. repeat case_match; simplify_eq; done. }
    apply expect_length in E2. specialize (IHv r2).
    destruct (parse_value f r2) as [[x r]|e]; simpl in IHv |- *.
    + pose proof (skip_ws_length r) as Hr. destruct (skip_ws r) as [|d r']; [done|]. simpl in Hr.
      destruct (d =? 125); [simpl; lia|]. destruct (d =? 44); [|done].
      eapply (within_bind _ _ _ _ _ _ _ (fun fs => (k, x) :: fs)); [apply IHm|lia|lia].
    + intros. apply IHv. lia.
Qed.

Lemma JSON_parse_total s : JSON_parse s <> Err OutOfFuel.
Proof.
  unfold JSON_parse, JSON_parse_fuel. destruct (parse_within (2 * length s + 2)) as [Hv _].
  specialize (Hv s). destruct (parse_value _ s) as [[v r]|e]; simpl in Hv |- *.
  - by destruct (skip_ws r).
  - intros [= ->]. apply Hv; [lia|done].
Qed.

(** ** Reading back what is written *)

Lemma json_string_u c t : c < 65536 -> json_string (u_escape c ++ t) = cons_fst c (json_string t).
Proof.
  intros Hc. unfold u_escape. cbn [app json_string].
  change (BACKSLASH =? QUOTE) with false. change (BACKSLASH =? BACKSLASH) with true.
  change (117 =? 117) with true. cbv iota.
  assert (Hhex : forall d, d < 16 -> hex_value (hex_digit d) = Some d).
  { intros d Hd. unfold hex_value, hex_digit, is_digit. destruct (N.ltb_spec d 10).
    - replace ((48 <=? 48 + d) && (48 + d <=? 57)) with true; [f_equal; lia|].
      symmetry. apply andb_true_intro. split; apply N.leb_le; lia.
    - replace ((48 <=? 87 + d) && (87 + d <=? 57)) with false
        by (symmetry; apply andb_false_intro2, N.leb_gt; lia).
      replace ((97 <=? 87 + d) && (87 + d <=? 102)) with true; [f_equal; lia|].
      symmetry. apply andb_true_intro. split; apply N.leb_le; lia. }
  assert (c / 4096 < 16) by (apply N.Div0.div_lt_upper_bound; lia).
  assert (Hm : forall x, x mod 16 < 16) by (intros; by apply N.mod_lt).
  unfold hex4. rewrite !Hhex by auto. f_equal.
  pose proof (N.div_mod c 16 ltac:(done)) as H1.
  pose proof (N.div_mod (c / 16) 16 ltac:(done)) as H2.
  pose proof (N.div_mod (c / 16 / 16) 16 ltac:(done)) as H3.
  rewrite N.Div0.div_div in H2, H3. change (16 * 16) with 256 in *.
  rewrite N.Div0.div_div in H3. change (256 * 16) with 4096 in *. lia.
Qed.

Lemma json_string_short e u t :
  (e =? 117) = false -> simple_escape e = Some u ->
  json_string (BACKSLASH :: e :: t) = cons_fst u (json_string t).
Proof.
  intros He Hu. cbn [json_string]. change (BACKSLASH =? QUOTE) with false.
  change (BACKSLASH =? BACKSLASH) with true. cbv iota.
  destruct t as [|? [|? [|? [|? ?]]]]; rewrite ?He, Hu; done.
Qed.

Lemma json_string_raw c t :
  c <> QUOTE -> c <> BACKSLASH -> 32 <= c -> json_string (c :: t) = cons_fst c (json_string t).
Proof.
  intros ???. cbn [json_string]. rewrite !(proj2 (N.eqb_neq _ _)) by done.
  by rewrite (proj2 (N.ltb_ge _ _)).
Qed.

Lemma json_string_unit c t : json_string (escape_unit c ++ t) = cons_fst c (json_string t).
Proof.
  unfold escape_unit.
  repeat match goal with
  | |- context [if (?a =? ?b) then _ else _] => destruct (N.eqb_spec a b) as [->|?]
  end; cbn [app]; try by apply json_string_short.
  destruct (N.ltb_spec c 32); [apply json_string_u; lia|]. by apply json_string_raw.
Qed.

Lemma surrogate_range c :
  is_high_surrogate c = true \/ is_low_surrogate c = true ->
  c < 65536 /\ 32 <= c /\ c <> QUOTE /\ c <> BACKSLASH.
Proof.
  unfold is_high_surrogate, is_low_surrogate, QUOTE, BACKSLASH.
  rewrite !andb_true_iff, !N.leb_le. lia.
Qed.

Lemma json_string_escape s t : json_string (escape_string s ++ QUOTE :: t) = Some (s, t).
Proof.
  remember (length s) as n eqn:Hn. revert s Hn. induction n as [n IH] using lt_wf_ind; intros s ->.
  destruct s as [|c rest]; [done|]. cbn [escape_string]. destruct (is_high_surrogate c) eqn:Eh.
  - destruct (surrogate_range c ltac:(by left)) as (? & ? & ? & ?). destruct rest as [|d rest'].
    + by rewrite json_string_u.
    + destruct (is_low_surrogate d) eqn:El.
      * destruct (surrogate_range d ltac:(by right)) as (? & ? & ? & ?). cbn [app].
        rewrite !json_string_raw by done. by rewrite (IH (length rest') ltac:(simpl; lia) rest').
      * rewrite <- (assoc_L app), json_string_u by done.
        by rewrite (IH (length (d :: rest')) ltac:(simpl; lia) (d :: rest')).
  - destruct (is_low_surrogate c) eqn:El.
    + destruct (surrogate_range c ltac:(by right)) as (? & ? & ? & ?).
      rewrite <- (assoc_L app), json_string_u by done.
      by rewrite (IH (length rest) ltac:(simpl; lia) rest).
    + rewrite <- (assoc_L app), json_string_unit. by rewrite (IH (length rest) ltac:(simpl; lia) rest).
Qed.

(** No character after a number continues it. *)
Definition number_ends (t : jsstring) : Prop :=
  match t with
  | [] => True
  | c :: _ => is_digit c = false /\ c <> 46 /\ c <> 101 /\ c <> 69
  end.

Lemma number_ends_digit t : number_ends t -> match t with [] => True | c :: _ => is_digit c = false end.
Proof. by destruct t as [|c t]; simpl; intuition. Qed.

Lemma json_int_dec n t : number_ends t -> json_int (dec n ++ t) = Some (dec n, t).
Proof.
  intros Ht%number_ends_digit. destruct (decide (n = 0)) as [->|Hn]; [done|].
  destruct (dec_head n ltac:(lia)) as (c & s & E & Hc).
  assert (Hd : digits1 (dec n ++ t) = Some (dec n, t)).
  { unfold digits1. rewrite (span_prefix is_digit (dec n) t (dec_digit n) Ht). by rewrite E. }
  rewrite E in Hd |- *. cbn [app json_int] in *. by rewrite (proj2 (N.eqb_neq c 48)) by lia.
Qed.

Lemma json_frac_none t : number_ends t -> json_frac t = Some ([], t).
Proof. destruct t as [|c t]; [done|]. intros (_ & ? & _ & _). simpl. by rewrite (proj2 (N.eqb_neq c 46)). Qed.

Lemma json_exp_none t : number_ends t -> json_exp t = Some ([], t).
Proof.
  destruct t as [|c t]; [done|]. intros (_ & _ & ? & ?). simpl.
  by rewrite (proj2 (N.eqb_neq c 101)), (proj2 (N.eqb_neq c 69)).
Qed.

Lemma json_number_num n t : number_ends t -> json_number (num_to_string n ++ t) = Some (num_to_string n, t).
Proof.
  intros Ht. unfold num_to_string. destruct (n <? 0)%Z.
  - cbn [app]. unfold json_number. change (45 =? 45) with true. cbv iota beta zeta.
    rewrite json_int_dec, json_frac_none, json_exp_none by done. simpl. by rewrite app_nil_r.
  - unfold json_number. destruct (dec_cons (Z.to_N n)) as (c & s & E & Hc).
    pose proof (json_int_dec (Z.to_N n) t Ht) as Hi. rewrite E in Hi |- *. cbn [app] in *.
    rewrite (proj2 (N.eqb_neq c 45)) by (intros ->; done). cbv iota beta zeta.
    rewrite Hi, json_frac_none, json_exp_none by done. simpl. by rewrite app_nil_r.
Qed.

(** The value a written text is read as. *)
Fixpoint read_back (v : json) : jtext :=
  match v with
  | JNull => TNull
  | JBool b => TBool b
  | JNum n => TNumber (num_to_string n)
  | JStr s => TStr s
  | JArr items => TArr (read_back <$> items)
  | JObj fields =>
      TObj ((fix go fs := match fs with
                          | [] => []
                          | (k, x) :: fs' => (k, read_back x) :: go fs'
                          end) fields)
  end.

Lemma read_back_obj fields : read_back (JObj fields) = TObj (prod_map id read_back <$> fields).
Proof.
  cbn [read_back]. f_equal. induction fields as [|[k x] fields IH]; [done|]. cbn [fmap list_fmap]. by f_equal.
Qed.

Definition reads (v : json) : Prop :=
  forall fuel t, (2 * length (print_json v) + 1 <= fuel)%nat -> number_ends t ->
    parse_value fuel (print_json v ++ t) = Ok (read_back v, t).

Lemma skip_ws_id c t : is_json_ws c = false -> skip_ws (c :: t) = c :: t.
Proof. unfold skip_ws. simpl. by intros ->. Qed.

Lemma print_no_ws v : exists c t, print_json v = c :: t /\ is_json_ws c = false /\ c <> 93 /\ c <> 125.
Proof.
  destruct (print_first v) as (c & t & E & Hk). exists c, t. split; [done|].
  destruct (is_json_ws c) eqn:Ew.
  - exfalso. unfold is_json_ws in Ew. repeat (apply orb_true_iff in Ew as [Ew|Ew]);
      apply N.eqb_eq in Ew; by subst c.
  - split; [done|]. split; intros ->; done.
Qed.

Lemma skip_ws_print v t : skip_ws (print_json v ++ t) = print_json v ++ t.
Proof. destruct (print_no_ws v) as (c & s & -> & Hw & _). by apply skip_ws_id. Qed.

Lemma join_comma {A} (pr : A -> jsstring) x l :
  l <> [] -> join (js ",") (pr <$> x :: l) = pr x ++ 44 :: join (js ",") (pr <$> l).
Proof. intros Hl. rewrite fmap_cons, join_cons; [done|]. by destruct l. Qed.

Lemma items_read l fuel t :
  l <> [] -> Forall reads l ->
  (2 * length (join (js ",") (print_json <$> l)) + 2 <= fuel)%nat ->
  parse_items fuel (join (js ",") (print_json <$> l) ++ 93 :: t) = Ok (read_back <$> l, t).
Proof.
  intros Hne Hl. revert fuel. induction Hl as [|v l Hv Hl IH]; intros fuel Hf; [done|].
  destruct fuel as [|f]; [lia|]. cbn [parse_items]. destruct (decide (l = [])) as [->|Hl'].
  - simpl in Hf |- *. rewrite Hv by (simpl; try lia; done). by rewrite skip_ws_id.
  - rewrite join_comma in Hf |- * by done. rewrite length_app in Hf. simpl in Hf.
    rewrite <- app_assoc. cbn [app]. rewrite Hv by (simpl; try lia; done). rewrite skip_ws_id by done.
    change (44 =? 93) with false. change (44 =? 44) with true. cbv iota.
    rewrite IH by (done || lia). done.
Qed.

Lemma print_field_shape k x :
  print_field (k, x) = QUOTE :: escape_string k ++ QUOTE :: 58 :: print_json x.
Proof. unfold print_field, stringify_string. cbn [fst snd app]. by rewrite <- app_assoc. Qed.

(** One member, up to its value. *)
Lemma member_read k x f t :
  reads x -> (2 * length (print_json x) + 1 <= f)%nat -> number_ends t ->
  parse_members (S f) (print_field (k, x) ++ t) =
    match skip_ws t with
    | [] => Err SyntaxError
    | d :: r' =>
        if d =? 125 then Ok ([(k, read_back x)], r')
        else if d =? 44 then let! (fs, r'') := parse_members f r' in Ok ((k, read_back x) :: fs, r'')
        else Err SyntaxError
    end.
Proof.
  intros Hx Hf Ht. rewrite print_field_shape. cbn [app parse_members].
  assert (expect QUOTE (QUOTE :: (escape_string k ++ QUOTE :: 58 :: print_json x) ++ t)
    = Ok (escape_string k ++ QUOTE :: 58 :: print_json x ++ t)) as ->.
  { unfold expect. rewrite skip_ws_id by done. rewrite N.eqb_refl, <- app_assoc. done. }
  cbv iota. rewrite json_string_escape. cbn [or_syntax].
  assert (expect 58 (58 :: print_json x ++ t) = Ok (print_json x ++ t)) as -> by done.
  by rewrite Hx.
Qed.

Lemma members_read l fuel t :
  l <> [] -> Forall (fun f => reads f.2) l ->
  (2 * length (join (js ",") (print_field <$> l)) + 2 <= fuel)%nat ->
  parse_members fuel (join (js ",") (print_field <$> l) ++ 125 :: t) = Ok (prod_map id read_back <$> l, t).
Proof.
  intros Hne Hl. revert fuel. induction Hl as [|[k v] l Hv Hl IH]; intros fuel Hf; [done|].
  destruct fuel as [|f]; [lia|]. simpl in Hv.
  assert (Hlen : (length (print_json v) <= length (print_field (k, v)))%nat).
  { rewrite print_field_shape. simpl. rewrite length_app. simpl. lia. }
  destruct (decide (l = [])) as [->|Hl'].
  - change (join (js ",") (print_field <$> [(k, v)])) with (print_field (k, v)) in Hf |- *.
    by rewrite member_read by (done || lia).
  - rewrite join_comma in Hf |- * by done. rewrite length_app in Hf. cbn [length] in Hf.
    rewrite <- app_assoc. cbn [app]. rewrite member_read by (done || lia).
    rewrite skip_ws_id by done. change (44 =? 125) with false. change (44 =? 44) with true. cbv iota.
    rewrite IH by (done || lia). done.
Qed.

Lemma print_cases v t :
  exists c s, print_json v ++ t = c :: s /\ skip_ws (c :: s) = c :: s.
Proof.
  destruct (print_no_ws v) as (c & s & E & Hw & _). exists c, (s ++ t). rewrite E.
  split; [done|]. by apply skip_ws_id.
Qed.

Lemma starts_false c p s : p <> [] -> head p <> Some c -> starts_with p (c :: s) = false.
Proof.
  intros Hp Hc. unfold starts_with. apply bool_decide_eq_false. destruct p as [|d p]; [done|].
  simpl in *. congruence.
Qed.

Lemma number_read n : reads (JNum n).
Proof.
  intros [|f] t Hf Ht; [simpl in Hf; lia|]. cbn [parse_value]. rewrite skip_ws_print.
  cbn [print_json read_back]. destruct (num_first n) as (c & s & E & Hc).
  assert (Hr : c = 45 \/ 48 <= c <= 57).
  { destruct Hc as [Hc| ->]; [right|by left]. unfold is_digit in Hc.
    rewrite andb_true_iff, !N.leb_le in Hc. lia. }
  pose proof (json_number_num n t Ht) as Hn. rewrite E in Hn |- *. cbn [app] in Hn |- *.
  unfold QUOTE. rewrite !(proj2 (N.eqb_neq c _)) by lia.
  rewrite !starts_false by (try done; vm_compute; intros [= <-]; lia). by rewrite Hn.
Qed.

Lemma value_reads v : reads v.
Proof.
  induction v as [|b|n|s|items IH|fields IH] using json_nested_ind.
  - intros [|f] t Hf Ht; [simpl in Hf; lia|]. done.
  - intros [|f] t Hf Ht; [destruct b; simpl in Hf; lia|]. by destruct b.
  - apply number_read.
  - intros [|f] t Hf Ht; [simpl in Hf; lia|]. cbn [parse_value]. rewrite skip_ws_print.
    cbn [print_json]. unfold stringify_string. cbn [app]. change (QUOTE =? QUOTE) with true. cbv iota.
    rewrite <- app_assoc. cbn [app]. by rewrite json_string_escape.
  - intros [|f] t Hf Ht; [simpl in Hf; lia|]. cbn [parse_value]. rewrite skip_ws_print.
    cbn [print_json] in Hf |- *. rewrite !length_app in Hf. change (length (js "[")) with 1%nat in Hf.
    change (js "[") with [91]. cbn [app]. change (91 =? QUOTE) with false. change (91 =? 91) with true.
    cbv iota. rewrite <- app_assoc. change (js "]" ++ t) with (93 :: t).
    destruct (decide (items = [])) as [->|Hne]; [done|].
    rewrite items_read by (done || lia). destruct items as [|v items]; [done|].
    destruct (print_no_ws v) as (c & s & E & Hw & Hc & _).
    assert (exists r, join (js ",") (print_json <$> v :: items) ++ 93 :: t = c :: r) as [r ->].
    { destruct items as [|w items].
      - simpl. rewrite E. eauto.
      - rewrite join_comma by done. rewrite E. cbn [app]. eauto. }
    rewrite skip_ws_id by done. by rewrite (proj2 (N.eqb_neq c 93)).
  - intros [|f] t Hf Ht; [rewrite print_obj in Hf; simpl in Hf; lia|]. cbn [parse_value].
    rewrite skip_ws_print. rewrite print_obj, read_back_obj in *. rewrite !length_app in Hf.
    change (length (js "{")) with 1%nat in Hf. change (js "{") with [123]. cbn [app].
    change (123 =? QUOTE) with false. change (123 =? 91) with false. change (123 =? 123) with true.
    cbv iota. rewrite <- app_assoc. change (js "}" ++ t) with (125 :: t).
    destruct (decide (fields = [])) as [->|Hne]; [done|].
    rewrite members_read by (done || lia). destruct fields as [|[k x] fields]; [done|].
    assert (exists r, join (js ",") (print_field <$> (k, x) :: fields) ++ 125 :: t = QUOTE :: r) as [r ->].
    { destruct fields as [|w fields].
      - change (join (js ",") (print_field <$> [(k, x)])) with (print_field (k, x)).
        rewrite print_field_shape. cbn [app]. eauto.
      - rewrite join_comma, print_field_shape by done. cbn [app]. eauto. }
    by rewrite skip_ws_id.
Qed.

(** [JSON.parse] always answers, and it reads back every value [JSON.stringify] writes. *)
Theorem json_text_roundtrip s v :
  JSON_parse s <> Err OutOfFuel /\ JSON_parse (print_json v) = Ok (read_back v).
Proof.
  split; [apply JSON_parse_total|]. unfold JSON_parse, JSON_parse_fuel.
  pose proof (value_reads v (2 * length (print_json v) + 2)%nat [] ltac:(lia) I) as H.
  rewrite app_nil_r in H. by rewrite H.
Qed.
