(* ===== verification/StateArgv.v ===== *)
(** * The arguments of the state command (gjc-runtime/state-argv.ts)

    [gjc state] takes an action, a skill, flags with and without values, and a JSON payload.
    [classifyStateArgv] sorts the arguments out once, for two callers: the runtime
    (state-runtime.ts), which takes from it the action and the skill to act on, and the check
    of restricted shell commands, which decides on it whether the command may run.  Which
    flags exist depends on the action and the skill, by the workflow manifest. *)

From S2P Require Import Prelude JsText JsonText WorkflowManifest.

(** ** Data *)

Inductive StateAction :=
| ARead | AWrite | AClear | AContract | AHandoff | AGraph | APrune | AGc | AMigrate | AStatus | ADoctor.

#[export] Instance StateAction_eq_dec : EqDecision StateAction.
Proof. solve_decision. Defined.

Definition action_name (a : StateAction) : jsstring :=
  match a with
  | ARead => js "read" | AWrite => js "write" | AClear => js "clear" | AContract => js "contract"
  | AHandoff => js "handoff" | AGraph => js "graph" | APrune => js "prune" | AGc => js "gc"
  | AMigrate => js "migrate" | AStatus => js "status" | ADoctor => js "doctor"
  end.

Definition STATE_ACTIONS : list StateAction :=
  [ARead; AWrite; AClear; AContract; AHandoff; AGraph; APrune; AGc; AMigrate; AStatus; ADoctor].

(** [STATE_ACTION_NAMES.has(s)], with the action it names. *)
Definition STATE_ACTION_NAMES (s : jsstring) : option StateAction :=
  List.find (fun a => bool_decide (action_name a = s)) STATE_ACTIONS.

Definition STATE_FLAGS_WITH_VALUES : list jsstring :=
  jsl ["--input"; "--mode"; "--session-id"; "--thread-id"; "--turn-id"; "--to"; "--skill"; "--format";
       "--older-than"; "--status"; "--fields"; "--since"; "--limit"].

Definition STATE_BOOLEAN_FLAGS : list jsstring :=
  jsl ["--json"; "--replace"; "--hard"; "--dry-run"; "--migrate"; "--compact"; "--history"; "--force"].

Inductive flag_arity := BooleanFlag | ValueFlag.
Inductive flag_form := Separate | Attached.

#[export] Instance flag_arity_eq_dec : EqDecision flag_arity.
Proof. solve_decision. Defined.
#[export] Instance flag_form_eq_dec : EqDecision flag_form.
Proof. solve_decision. Defined.

Record StateFlagOccurrence := FlagOcc {
  fo_name : jsstring;
  fo_index : nat;
  fo_value : option jsstring;
  fo_arity : flag_arity;
  fo_form : flag_form;
  fo_malformed : bool;
}.

Inductive selector_source := SMode | SPositional | SInputMode | SInputSkill.

Record StateSelectorCandidate := Candidate {
  cd_source : selector_source;
  cd_value : option jsstring;
  cd_index : Z;
}.

Inductive StateInputKind := InEmpty | InInline | InFile | InInvalid.

#[export] Instance StateInputKind_eq_dec : EqDecision StateInputKind.
Proof. solve_decision. Defined.

Record StateInputClassification := InputClass {
  ic_index : nat;
  ic_raw : jsstring;
  ic_kind : StateInputKind;
  ic_selectors : list StateSelectorCandidate;
}.

Record StateArgvClassification := ArgvClass {
  ac_argv : list jsstring;
  ac_action : StateAction;
  ac_effectiveAction : StateAction;
  ac_positionalSkill : option jsstring;
  ac_positionals : list jsstring;
  ac_flags : list StateFlagOccurrence;
  ac_unknownFlags : list jsstring;
  ac_inputs : list StateInputClassification;
  ac_runtimeSelectorCandidates : list StateSelectorCandidate;
  ac_selectorCandidates : list StateSelectorCandidate;
}.

(** ** Helpers *)

Definition index_of (x : jsstring) (l : list jsstring) : option nat :=
  fst <$> list_find (fun y => y = x) l.

Definition normalizedFlagName (arg : jsstring) : option jsstring :=
  if negb (starts_with (js "--") arg) then None
  else Some (span (fun c => negb (c =? 61)%N) arg).1.

Definition nonempty (s : jsstring) : option jsstring := if bool_decide (s = []) then None else Some s.

(** [normalizedSelector] of a value that is a string or [undefined]. *)
Definition normalizedSelector (value : option jsstring) : option jsstring :=
  match value with Some s => nonempty (trim s) | None => None end.

Definition string_field (k : jsstring) (record : list (jsstring * jtext)) : option jsstring :=
  match tget k record with Some (TStr s) => Some s | _ => None end.

Record StatePositional := Positional { ps_value : jsstring; ps_index : nat }.

Fixpoint runtime_positionals (skipNext : bool) (index : nat) (argv : list jsstring) : list StatePositional :=
  match argv with
  | [] => []
  | arg :: rest =>
      if skipNext then runtime_positionals false (S index) rest
      else if includes STATE_FLAGS_WITH_VALUES arg then runtime_positionals true (S index) rest
      else if negb (starts_with (js "-") arg)
           then Positional arg index :: runtime_positionals false (S index) rest
           else runtime_positionals false (S index) rest
  end.

Definition parseRuntimePositionals (argv : list jsstring) : list StatePositional :=
  runtime_positionals false 0 argv.

(** The action, the skill and its index; a missing or empty positional is falsy. *)
Definition parseAction (positionals : list StatePositional) : StateAction * option jsstring * Z :=
  let value (p : option StatePositional) := p ≫= fun p => nonempty (ps_value p) in
  let index (p : option StatePositional) : Z := from_option (fun p => Z.of_nat (ps_index p)) (-1)%Z p in
  let first := positionals !! 0 in
  let second := positionals !! 1 in
  match value first ≫= STATE_ACTION_NAMES with
  | Some action =>
      (action, value second, match value second with Some _ => index second | None => (-1)%Z end)
  | None =>
      match value first, value second ≫= STATE_ACTION_NAMES with
      | Some sk, Some action => (action, Some sk, index first)
      | _, _ =>
          match value first, value second with
          | Some sk, None => (ARead, Some sk, index first)
          | _, _ => (ARead, None, (-1)%Z)
          end
      end
  end.

Definition skill_of (name : jsstring) : option skill :=
  List.find (fun sk => bool_decide (skill_name sk = name)) CANONICAL_GJC_WORKFLOW_SKILLS.

Definition arity_map := list (jsstring * flag_arity).

Definition arity_get (m : arity_map) (name : jsstring) : option flag_arity :=
  snd <$> List.find (fun e => bool_decide (e.1 = name)) m.

Definition arity_add (m : arity_map) (arg : TypedArgSpec) : arity_map :=
  let name := js "--" ++ ta_name arg in
  match arity_get m name with
  | Some _ => m
  | None => m ++ [(name, if bool_decide (ta_type arg = ABoolean) then BooleanFlag else ValueFlag)]
  end.

Definition stateFlagArities (action : StateAction) (positionalSkill : option jsstring) : arity_map :=
  let base := ((fun f => (f, ValueFlag)) <$> STATE_FLAGS_WITH_VALUES)
              ++ ((fun f => (f, BooleanFlag)) <$> STATE_BOOLEAN_FLAGS) in
  let skills := match positionalSkill ≫= skill_of with
                | Some sk => [sk]
                | None => CANONICAL_GJC_WORKFLOW_SKILLS
                end in
  foldl (fun m sk => foldl arity_add m (typedArgsFor sk (action_name action))) base skills.

Definition classifyInput (index : nat) (value : option jsstring) : StateInputClassification :=
  let raw := default [] value in
  let trimmed := trim raw in
  if bool_decide (trimmed = []) then InputClass index raw InEmpty []
  else if starts_with (js "@") trimmed then InputClass index raw InFile []
  else match JSON_parse trimmed with
       | Ok (TObj record) =>
           InputClass index raw InInline
             [Candidate SInputMode (normalizedSelector (string_field (js "mode") record)) (Z.of_nat index);
              Candidate SInputSkill (normalizedSelector (string_field (js "skill") record)) (Z.of_nat index)]
       | _ => InputClass index raw InInvalid []
       end.

Definition firstStateFlagValue (argv : list jsstring) (name : jsstring) : option jsstring :=
  index_of name argv ≫= fun index => argv !! S index.

(** ** classifyStateArgv *)

(** The loop over the flags: known occurrences and unknown names. *)
Fixpoint scan_flags (arities : arity_map) (index : nat) (argv : list jsstring) :
    list StateFlagOccurrence * list jsstring :=
  match argv with
  | [] => ([], [])
  | arg :: rest =>
      let '(flags, unknown) := scan_flags arities (S index) rest in
      match normalizedFlagName arg with
      | None => (flags, unknown)
      | Some name =>
          match arity_get arities name with
          | None => (flags, name :: unknown)
          | Some arity =>
              let occurrence :=
                if negb (bool_decide (arg = name)) then
                  FlagOcc name index (Some (drop (length name + 1) arg)) arity Attached true
                else if bool_decide (arity = BooleanFlag) then
                  FlagOcc name index None arity Separate false
                else
                  let value := head rest in
                  FlagOcc name index value arity Separate
                    (match value with None => true | Some v => starts_with (js "--") v end) in
              (occurrence :: flags, unknown)
          end
      end
  end.

Definition is_separate (name : jsstring) (flag : StateFlagOccurrence) : bool :=
  bool_decide (fo_name flag = name) && bool_decide (fo_form flag = Separate).

Definition classifyStateArgv (argv : list jsstring) : StateArgvClassification :=
  let entries := parseRuntimePositionals argv in
  let positionals := ps_value <$> entries in
  let '(action, positionalSkill, positionalSkillIndex) := parseAction entries in
  let '(flags, unknownFlags) := scan_flags (stateFlagArities action positionalSkill) 0 argv in
  let effectiveAction :=
    if bool_decide (action = ARead) && includes argv (js "--migrate") then AMigrate else action in
  let modeFlags := List.filter (is_separate (js "--mode")) flags in
  let inputFlags := List.filter (is_separate (js "--input")) flags in
  let inputs := (fun f => classifyInput (fo_index f) (fo_value f)) <$> inputFlags in
  let positionalCandidate := Candidate SPositional (normalizedSelector positionalSkill) positionalSkillIndex in
  let modeCandidates :=
    (fun f => Candidate SMode (normalizedSelector (fo_value f)) (Z.of_nat (fo_index f))) <$> modeFlags in
  let selectorCandidates := positionalCandidate :: modeCandidates ++ (inputs ≫= ic_selectors) in
  let firstModeIndex := index_of (js "--mode") argv in
  let firstModeCandidate :=
    Candidate SMode (normalizedSelector (firstModeIndex ≫= fun i => argv !! S i))
      (from_option Z.of_nat (-1)%Z firstModeIndex) in
  let firstInput :=
    (fun i => classifyInput i (argv !! S i)) <$> index_of (js "--input") argv in
  let runtimeSelectorCandidates :=
    firstModeCandidate :: positionalCandidate :: from_option ic_selectors [] firstInput in
  ArgvClass argv action effectiveAction positionalSkill positionals flags unknownFlags inputs
    runtimeSelectorCandidates selectorCandidates.

Example classify_ex :
  let c := classifyStateArgv (jsl ["read"; "ralplan"; "--json"; "--mode"; "team"]) in
  ac_effectiveAction c = ARead /\ (cd_value <$> ac_runtimeSelectorCandidates c) = [Some (js "team"); Some (js "ralplan")] /\
  ac_unknownFlags c = [].
Proof. vm_compute. done. Qed.

(** ** The runtime: which action, on which skill (gjc-runtime/state-runtime.ts) *)

Inductive state_error :=
| UnknownFlag (name : jsstring)
| InputUnreadable
| InputNotJson
| InputNotObject
| UnknownMode (mode : jsstring).

Section runtime.
(** The content of a file named relative to the working directory. *)
Context (readFile : jsstring -> option jsstring).

Definition readInputJson (value : option jsstring) : result state_error (option (list (jsstring * jtext))) :=
  match value with
  | None => Ok None
  | Some v =>
      let trimmed := trim v in
      if bool_decide (trimmed = []) then Ok None
      else
        let! raw :=
          if starts_with (js "@") trimmed then
            match readFile (drop 1 trimmed) with Some raw => Ok raw | None => Err InputUnreadable end
          else Ok trimmed in
        match JSON_parse raw with
        | Err _ => Err InputNotJson
        | Ok (TObj record) => Ok (Some record)
        | Ok _ => Err InputNotObject
        end
  end.

(** The skill [resolveSelectors] settles on, [None] when no selector names one. *)
Definition resolve_mode (args : list jsstring) : result state_error (option jsstring) :=
  let classification := classifyStateArgv args in
  let! payload := readInputJson (firstStateFlagValue args (js "--input")) in
  let field k := payload ≫= fun record => normalizedSelector (string_field k record) in
  let candidate n := ac_runtimeSelectorCandidates classification !! n ≫= cd_value in
  let candidates := [candidate 0; candidate 1; field (js "mode"); field (js "skill")] in
  match omap id candidates with
  | [] => Ok None
  | mode :: _ => if includes skill_names mode then Ok (Some mode) else Err (UnknownMode mode)
  end.

(** The handler [runNativeStateCommand] calls. *)
Definition dispatch (args : list jsstring) : result state_error StateAction :=
  let parsed := classifyStateArgv args in
  match ac_unknownFlags parsed with
  | unknownFlag :: _ => Err (UnknownFlag unknownFlag)
  | [] => Ok (ac_effectiveAction parsed)
  end.
End runtime.

(** ** Facts for the callers *)

(** The selectors of a classified payload are those of the payload the runtime reads. *)
Lemma payload_selectors readFile i value :
  ic_kind (classifyInput i value) <> InFile -> ic_kind (classifyInput i value) <> InInvalid ->
  exists payload, readInputJson readFile value = Ok payload /\
    cd_value <$> ic_selectors (classifyInput i value) =
      match payload with
      | None => []
      | Some record => [normalizedSelector (string_field (js "mode") record);
                        normalizedSelector (string_field (js "skill") record)]
      end.
Proof.
  unfold classifyInput, readInputJson. destruct value as [v|]; simpl; [|intros _ _; by exists None].
  case_bool_decide; [intros _ _; by exists None|].
  destruct (starts_with (js "@") (trim v)) eqn:Ea; [done|].
  destruct (JSON_parse (trim v)) as [[]|]; simpl; try done. intros _ _. eauto.
Qed.

Lemma normalizedSelector_ne v s : normalizedSelector v = Some s -> s <> [].
Proof.
  destruct v as [v|]; simpl; [|done]. unfold nonempty. case_bool_decide; [done|]. by intros [= <-].
Qed.
