(* ===== verification/BashPrefixes.v ===== *)
(** * Restricted shell commands (tools/bash-allowed-prefixes.ts)

    What a role agent may run: [checkBashAllowedPrefixes] splits the command into words,
    compares them with the allowed prefixes, and looks closer at [gjc] commands; in the
    read-only profile only a few inspection commands pass, and what runs is the command
    [normalizeReadOnlyBashCommand] rebuilds from the checked words.  The theorems relate the
    decision to what happens: to the command a shell runs ([Shell], a parameter with what its
    standard says of literal words), and to the action and the skill the state command takes
    from its words. *)

From S2P Require Import Prelude JsText JsonText WorkflowManifest StateArgv ShellWords.

(** ** Words and prefixes *)

(** [s.split(/\s+/u).filter(Boolean)] *)
Fixpoint ws_fields (s : jsstring) : list jsstring :=
  match s with
  | [] => []
  | c :: s' =>
      if is_ws c then ws_fields s'
      else match s' with
           | [] => [[c]]
           | d :: _ =>
               if is_ws d then [c] :: ws_fields s'
               else match ws_fields s' with w :: ws => (c :: w) :: ws | [] => [[c]] end
           end
  end.

Definition prefixWords (prefix : jsstring) : list jsstring := ws_fields (trim prefix).

Definition wordsStartWith (words prefix : list jsstring) : bool :=
  negb (bool_decide (prefix = [])) && bool_decide (take (length prefix) words = prefix).

(** ** State commands *)

Inductive refusal :=
| WordRefused (reason : word_reason)
| EmptyCommand
| NoPrefixMatches
| NotAnInspectionCommand
| RipgrepPreprocessor
| RipgrepCompressed
| TreeOutputFile
| RalplanWithoutWrite
| StateShape
| StateRepeatedSelectors
| StateFileInput
| StateConflictingSelectors
| StateNotCanonical
| StateActionRefused (action : StateAction).

Definition hasDocumentedStatePositionals (c : StateArgvClassification) : bool :=
  let truthy n := ac_positionals c !! n ≫= nonempty in
  let names_action n := bool_decide (is_Some (ac_positionals c !! n ≫= STATE_ACTION_NAMES)) in
  match truthy 2 with
  | Some _ => false
  | None => match truthy 1 with None => true | Some _ => names_action 0 || names_action 1 end
  end.

Record ParsedStateAction := ParsedState { pa_action : StateAction; pa_target : jsstring }.

Definition classifyStateAction (words : list jsstring) : result refusal ParsedStateAction :=
  let c := classifyStateArgv (drop 2 words) in
  if negb (bool_decide (ac_unknownFlags c = [])) || existsb fo_malformed (ac_flags c)
     || negb (hasDocumentedStatePositionals c)
  then Err StateShape
  else
    let named n := List.filter (fun f => bool_decide (fo_name f = n)) (ac_flags c) in
    if (1 <? length (named (js "--mode")))%nat || (1 <? length (named (js "--input")))%nat
    then Err StateRepeatedSelectors
    else if existsb (fun i => bool_decide (ic_kind i = InFile)) (ac_inputs c) then Err StateFileInput
    else if existsb (fun i => bool_decide (ic_kind i = InInvalid)) (ac_inputs c) then Err StateShape
    else
      let runtimeTarget := head (omap cd_value (ac_runtimeSelectorCandidates c)) in
      let suppliedTargets := omap cd_value (ac_selectorCandidates c) in
      let conflict :=
        (1 <? length (remove_dups suppliedTargets))%nat
        || match runtimeTarget with
           | Some target => existsb (fun t => negb (bool_decide (t = target))) suppliedTargets
           | None => false
           end in
      if conflict then Err StateConflictingSelectors
      else match runtimeTarget with
           | Some target =>
               if includes skill_names target then Ok (ParsedState (ac_effectiveAction c) target)
               else Err StateNotCanonical
           | None => Err StateNotCanonical
           end.

Definition ALLOWED_STATE_ACTIONS (a : StateAction) : bool :=
  match a with ARead | AWrite | AContract => true | _ => false end.

Definition validateMatchedGjcCommand (words : list jsstring) : result refusal () :=
  if negb (bool_decide (words !! 0 = Some (js "gjc"))) then Ok ()
  else if bool_decide (words !! 1 = Some (js "ralplan")) then
    if includes words (js "--write") then Ok () else Err RalplanWithoutWrite
  else if bool_decide (words !! 1 = Some (js "state")) then
    let! parsed := classifyStateAction words in
    if ALLOWED_STATE_ACTIONS (pa_action parsed) then Ok () else Err (StateActionRefused (pa_action parsed))
  else Ok ().

(** ** Read-only commands *)

Definition READ_ONLY_COMMANDS : list jsstring :=
  jsl ["grep"; "rg"; "tree"; "ls"; "pwd"; "wc"; "du"; "file"; "stat"].

Definition optionWords (words : list jsstring) : list jsstring :=
  (span (fun w => negb (bool_decide (w = js "--"))) (drop 1 words)).1.

Definition isLongOption (word option : jsstring) : bool :=
  bool_decide (word = option) || starts_with (option ++ js "=") word.

Definition hasShortOption (word : jsstring) (option : N) : bool :=
  starts_with (js "-") word && negb (starts_with (js "--") word) && mem option (drop 1 word).

Definition option_refused (command option : jsstring) : result refusal () :=
  if bool_decide (command = js "rg") then
    if isLongOption option (js "--pre") || isLongOption option (js "--pre-glob") then Err RipgrepPreprocessor
    else if isLongOption option (js "--search-zip") || hasShortOption option 122%N then Err RipgrepCompressed
    else Ok ()
  else if bool_decide (command = js "tree") then
    if isLongOption option (js "--output") || hasShortOption option 111%N then Err TreeOutputFile else Ok ()
  else Ok ().

Fixpoint options_refused (command : jsstring) (options : list jsstring) : result refusal () :=
  match options with
  | [] => Ok ()
  | option :: rest => let! _ := option_refused command option in options_refused command rest
  end.

Definition validateReadOnlyCommand (words : list jsstring) : result refusal () :=
  match words with
  | [] => Err NotAnInspectionCommand
  | command :: _ =>
      if includes READ_ONLY_COMMANDS command then options_refused command (optionWords words)
      else Err NotAnInspectionCommand
  end.

(** [which] finds an executable; it is the runtime's. *)
Definition normalizeReadOnlyBashCommand (which : jsstring -> option jsstring) (command : jsstring) :
    option jsstring :=
  match parseShellWords (trim command) with
  | (head :: rest, None) =>
      match validateReadOnlyCommand (head :: rest) with
      | Err _ => None
      | Ok _ =>
          match which head with
          | None => None
          | Some resolvedHead =>
              if bool_decide (resolvedHead = []) then None
              else Some (join [32%N] (shellQuote resolvedHead :: (shellQuote <$> rest)))
          end
      end
  | _ => None
  end.

(** ** The check *)

Inductive BashRestrictionProfile := WorkflowProfile | ReadOnlyProfile.

Definition checkBashAllowedPrefixes (command : jsstring) (allowedPrefixes : option (list jsstring))
    (profile : option BashRestrictionProfile) : result refusal () :=
  let normalizedPrefixes := omap nonempty (trim <$> default [] allowedPrefixes) in
  match normalizedPrefixes with
  | [] => Ok ()
  | _ =>
      match parseShellWords (trim command) with
      | (_, Some reason) => Err (WordRefused reason)
      | ([], None) => Err EmptyCommand
      | (words, None) =>
          if existsb (fun prefix => wordsStartWith words (prefixWords prefix)) normalizedPrefixes then
            match profile with
            | Some ReadOnlyProfile => validateReadOnlyCommand words
            | _ => validateMatchedGjcCommand words
            end
          else Err NoPrefixMatches
      end
  end.

Definition ROLE_PREFIXES : list jsstring := jsl ["gjc ralplan --write"; "gjc state"; "git diff"].

Example check_ex1 : checkBashAllowedPrefixes (js "gjc state read --mode ralplan --json") (Some ROLE_PREFIXES) None = Ok ().
Proof. vm_compute. reflexivity. Qed.
Example check_ex2 :
  checkBashAllowedPrefixes (js "gjc state clear --mode ralplan") (Some ROLE_PREFIXES) None = Err (StateActionRefused AClear).
Proof. vm_compute. reflexivity. Qed.
Example check_ex3 :
  checkBashAllowedPrefixes (js "gjc state ralplan read --migrate --force") (Some ROLE_PREFIXES) None
    = Err (StateActionRefused AMigrate).
Proof. vm_compute. reflexivity. Qed.
Example check_ex4 :
  checkBashAllowedPrefixes (js "rg --pre=x pat") (Some (jsl ["rg"])) (Some ReadOnlyProfile) = Err RipgrepPreprocessor.
Proof. vm_compute. reflexivity. Qed.

(** ** The state command does what was checked *)

Lemma arity_get_app m m' name a : arity_get m name = Some a -> arity_get (m ++ m') name = Some a.
Proof.
  unfold arity_get. induction m as [|e m IH]; [done|]. cbn [List.find app].
  destruct (bool_decide (e.1 = name)); done.
Qed.

Lemma arity_add_keeps m arg name a : arity_get m name = Some a -> arity_get (arity_add m arg) name = Some a.
Proof.
  intros H. unfold arity_add. destruct (arity_get m (_ ++ ta_name arg)); [done|].
  by apply arity_get_app.
Qed.

Lemma foldl_keeps {A} (P : arity_map -> Prop) (f : arity_map -> A -> arity_map) l m :
  (forall m x, P m -> P (f m x)) -> P m -> P (foldl f m l).
Proof. intros Hf. revert m. induction l as [|x l IH]; simpl; auto. Qed.

(** The payload flag takes a value whatever the action. *)
Lemma input_arity action sk : arity_get (stateFlagArities action sk) (js "--input") = Some ValueFlag.
Proof.
  unfold stateFlagArities.
  apply (foldl_keeps (fun m => arity_get m (js "--input") = Some ValueFlag)); [|by vm_compute].
  intros m x Hm. apply (foldl_keeps (fun m => arity_get m (js "--input") = Some ValueFlag)); [|done].
  intros. by apply arity_add_keeps.
Qed.

Lemma index_of_cons x y l :
  index_of x (y :: l) = if decide (y = x) then Some 0 else S <$> index_of x l.
Proof.
  unfold index_of. simpl. destruct (decide (y = x)); [done|].
  destruct (list_find (fun z => z = x) l) as [[]|]; done.
Qed.

(** The first payload flag of the arguments is among the occurrences that are checked. *)
Lemma input_occurrence arities k argv i :
  arity_get arities (js "--input") = Some ValueFlag -> index_of (js "--input") argv = Some i ->
  exists malformed, FlagOcc (js "--input") (k + i) (argv !! S i) ValueFlag Separate malformed
    ∈ (scan_flags arities k argv).1.
Proof.
  intros Ha. revert k i. induction argv as [|arg argv IH]; intros k i; [done|].
  rewrite index_of_cons. cbn [scan_flags]. destruct (decide (arg = js "--input")) as [->|Hne].
  - intros [= <-]. destruct (scan_flags arities (S k) argv) as [flags unknown].
    change (normalizedFlagName (js "--input")) with (Some (js "--input")). cbv iota. rewrite Ha.
    rewrite bool_decide_eq_true_2 by done. cbn [negb].
    rewrite bool_decide_eq_false_2 by done. simpl. rewrite Nat.add_0_r.
    replace (argv !! 0) with (head argv) by (by destruct argv). eexists. by left.
  - intros (j & Hj & ->)%fmap_Some. destruct (IH (S k) j Hj) as [malformed Hin]. exists malformed.
    replace (k + S j)%nat with (S k + j)%nat by lia. simpl lookup.
    destruct (scan_flags arities (S k) argv) as [flags unknown]. simpl in Hin.
    repeat case_match; simpl; try done; by right.
Qed.

(** The parts of the classification that the checks look at. *)
Lemma classify_inputs argv i :
  index_of (js "--input") argv = Some i ->
  classifyInput i (argv !! S i) ∈ ac_inputs (classifyStateArgv argv).
Proof.
  intros Hi. unfold classifyStateArgv.
  destruct (parseAction (parseRuntimePositionals argv)) as [[action sk] ix].
  destruct (input_occurrence (stateFlagArities action sk) 0 argv i (input_arity _ _) Hi) as [mal Hin].
  destruct (scan_flags (stateFlagArities action sk) 0 argv) as [flags unknown]. simpl in Hin |- *.
  apply list_elem_of_fmap. eexists. split; [|apply list_elem_of_In, filter_In; split].
  2: by apply list_elem_of_In. 1: done. by vm_compute.
Qed.

Lemma runtime_candidates argv :
  exists mode pos, cd_value <$> ac_runtimeSelectorCandidates (classifyStateArgv argv) =
    mode :: pos :: from_option (fun i => cd_value <$> ic_selectors (classifyInput i (argv !! S i))) []
      (index_of (js "--input") argv).
Proof.
  unfold classifyStateArgv. destruct (parseAction _) as [[action sk] ix].
  destruct (scan_flags _ 0 argv) as [flags unknown]. simpl. eexists _, _. do 2 f_equal.
  by destruct (index_of (js "--input") argv).
Qed.

Lemma omap_fmap_id {A B} (f : A -> option B) (l : list A) : omap f l = omap id (f <$> l).
Proof. induction l as [|x l IH]; [done|]. cbn. by rewrite <- IH. Qed.

(** Without payloads from files or bad payloads, the runtime takes the first selector. *)
Lemma resolve_first readFile argv :
  Forall (fun i => ic_kind i <> InFile /\ ic_kind i <> InInvalid) (ac_inputs (classifyStateArgv argv)) ->
  resolve_mode readFile argv =
    match head (omap cd_value (ac_runtimeSelectorCandidates (classifyStateArgv argv))) with
    | None => Ok None
    | Some mode => if includes skill_names mode then Ok (Some mode) else Err (UnknownMode mode)
    end.
Proof.
  intros Hok. destruct (runtime_candidates argv) as (mode & pos & Hc).
  rewrite (omap_fmap_id cd_value). unfold resolve_mode.
  assert (Hn : forall n, (ac_runtimeSelectorCandidates (classifyStateArgv argv) !! n ≫= cd_value)
    = ((cd_value <$> ac_runtimeSelectorCandidates (classifyStateArgv argv)) !! n ≫= id)).
  { intros n. rewrite list_lookup_fmap. by destruct (_ !! n). }
  rewrite !Hn, Hc. clear Hn. unfold firstStateFlagValue.
  destruct (index_of (js "--input") argv) as [i|] eqn:Ei; simpl.
  - rewrite Forall_forall in Hok. destruct (Hok _ (classify_inputs argv i Ei)) as [Hf Hi].
    destruct (payload_selectors readFile i (argv !! S i) Hf Hi) as (payload & -> & ->).
    destruct mode, pos, payload as [record|]; simpl; try done.
    destruct (normalizedSelector (string_field (js "mode") record)),
      (normalizedSelector (string_field (js "skill") record)); done.
  - by destruct mode, pos.
Qed.

(** The next early return is not taken. *)
Ltac guard_false E :=
  match goal with |- (if ?b then _ else _) = _ -> _ => destruct b eqn:E; [done|] end.

Lemma state_action_sound readFile words action target :
  classifyStateAction words = Ok (ParsedState action target) ->
  dispatch (drop 2 words) = Ok action /\ resolve_mode readFile (drop 2 words) = Ok (Some target) /\
  target ∈ skill_names.
Proof.
  unfold classifyStateAction. set (c := classifyStateArgv (drop 2 words)). cbv zeta.
  guard_false E1. guard_false E2. guard_false E3. guard_false E4. guard_false E5.
  destruct (head (omap cd_value (ac_runtimeSelectorCandidates c))) as [target'|] eqn:E6; [|done].
  destruct (includes skill_names target') eqn:E7; [|done]. intros [= <- <-].
  apply orb_false_elim in E1 as [E1 _]. apply orb_false_elim in E1 as [E1 _]. simpl_bool.
  split; [|split].
  - unfold dispatch. fold c. by rewrite E1.
  - rewrite resolve_first; fold c; [by rewrite E6, E7|]. apply Forall_forall. intros i Hi%list_elem_of_In. split; intros Hk.
    + assert (true = false); [|done]. rewrite <- E3. symmetry. apply existsb_exists. exists i.
      split; [done|]. by apply bool_decide_eq_true_2.
    + assert (true = false); [|done]. rewrite <- E4. symmetry. apply existsb_exists. exists i.
      split; [done|]. by apply bool_decide_eq_true_2.
  - unfold includes in E7. by simpl_bool.
Qed.

(** ** What an allowed command is *)

(** What the check says of the words. *)
Definition words_allowed (profile : option BashRestrictionProfile) (words : list jsstring) : Prop :=
  match profile with
  | Some ReadOnlyProfile =>
      exists command args, words = command :: args /\ command ∈ READ_ONLY_COMMANDS /\
        Forall (fun o => option_refused command o = Ok ()) (optionWords words)
  | _ =>
      forall args,
        (words = js "gjc" :: js "ralplan" :: args -> js "--write" ∈ words) /\
        (words = js "gjc" :: js "state" :: args -> exists action target,
           action ∈ [ARead; AWrite; AContract] /\ target ∈ skill_names /\
           dispatch args = Ok action /\ forall readFile, resolve_mode readFile args = Ok (Some target))
  end.

Lemma options_refused_ok command options :
  options_refused command options = Ok () -> Forall (fun o => option_refused command o = Ok ()) options.
Proof.
  induction options as [|o options IH]; simpl; [constructor|].
  destruct (option_refused command o) as [[]|] eqn:E; [|done]. intros. by constructor; [|apply IH].
Qed.

Lemma read_only_ok words : validateReadOnlyCommand words = Ok () -> words_allowed (Some ReadOnlyProfile) words.
Proof.
  destruct words as [|command args]; [done|]. unfold validateReadOnlyCommand.
  destruct (includes READ_ONLY_COMMANDS command) eqn:E; [|done]. unfold includes in E. simpl_bool.
  intros H%options_refused_ok. exists command, args. done.
Qed.

Lemma validate_ralplan args :
  validateMatchedGjcCommand (js "gjc" :: js "ralplan" :: args) =
    if includes (js "gjc" :: js "ralplan" :: args) (js "--write") then Ok () else Err RalplanWithoutWrite.
Proof. reflexivity. Qed.

Lemma validate_state args :
  validateMatchedGjcCommand (js "gjc" :: js "state" :: args) =
    let! parsed := classifyStateAction (js "gjc" :: js "state" :: args) in
    if ALLOWED_STATE_ACTIONS (pa_action parsed) then Ok () else Err (StateActionRefused (pa_action parsed)).
Proof. reflexivity. Qed.

Lemma gjc_ok profile words :
  profile <> Some ReadOnlyProfile -> validateMatchedGjcCommand words = Ok () -> words_allowed profile words.
Proof.
  intros Hp H.
  assert (Hw : words_allowed None words).
  { intros args. split; intros ->.
    - rewrite validate_ralplan in H. destruct (includes _ _) eqn:E; [|done]. unfold includes in E. by simpl_bool.
    - rewrite validate_state in H. destruct (classifyStateAction _) as [[action target]|] eqn:E; [|done].
      exists action, target. destruct (state_action_sound (fun _ => None) _ _ _ E) as (Hd & _ & Ht).
      split; [|split; [done|]; split; [done|]; intros readFile; exact (proj1 (proj2 (state_action_sound readFile _ _ _ E)))].
      cbn [pa_action] in H. destruct action; try done; set_solver. }
  destruct profile as [[]|]; [exact Hw|done|exact Hw].
Qed.

Lemma starts_with_words words prefix :
  wordsStartWith words prefix = true -> prefix <> [] /\ exists args, words = prefix ++ args.
Proof.
  unfold wordsStartWith. intros [H1 H2]%andb_prop. simpl_bool. split; [done|].
  exists (drop (length prefix) words). rewrite <- H2 at 1. by rewrite take_drop.
Qed.

Lemma check_ok command prefixes profile :
  checkBashAllowedPrefixes command (Some prefixes) profile = Ok () ->
  omap nonempty (trim <$> prefixes) <> [] ->
  exists words prefix args, parseShellWords (trim command) = (words, None) /\ prefix ∈ prefixes /\
    prefixWords (trim prefix) <> [] /\ words = prefixWords (trim prefix) ++ args /\
    words_allowed profile words.
Proof.
  unfold checkBashAllowedPrefixes. change (default [] (Some prefixes)) with prefixes.
  set (normalized := omap nonempty (trim <$> prefixes)).
  intros H Hne. destruct normalized as [|p ps] eqn:En; [done|].
  destruct (parseShellWords (trim command)) as [words [r|]]; [by destruct words|].
  destruct words as [|w words]; [done|].
  destruct (existsb _ (p :: ps)) eqn:Ex; [|done]. rewrite <- En in Ex.
  apply existsb_exists in Ex as (q & Hq%list_elem_of_In & Hs).
  apply starts_with_words in Hs as (Hpne & args & Hw).
  subst normalized. apply list_elem_of_omap in Hq as (t & Ht & Hqt).
  apply list_elem_of_fmap in Ht as (prefix & -> & Hp).
  unfold nonempty in Hqt. case_bool_decide; simplify_eq.
  exists (w :: words), prefix, args. split; [done|]. split; [done|]. split; [done|]. split; [done|].
  destruct profile as [[]|]; [by apply gjc_ok|by apply read_only_ok|by apply gjc_ok].
Qed.

(** C13: A command the check lets through is what it was taken for.  Given what the standard
    says of lines of literal words (the class [Shell]), and if the command has no white space
    but spaces and tabs, no word that starts with [#], and a first word that is neither a
    reserved word of the shell nor contains an equals sign, then every shell runs it as one
    command and no other, whose words are the checked words: they start with the words of an
    allowed prefix; a [gjc ralplan] command writes; a [gjc state] command is a read, a write or
    a contract, of the workflow skill that was checked, in whatever files it finds; and a
    read-only command is one of the inspection commands, without the options that run programs
    or write files. *)
Theorem allowed_command_runs_as_checked (shell : Shell) command prefixes profile words :
  checkBashAllowedPrefixes command (Some prefixes) profile = Ok () ->
  omap nonempty (trim <$> prefixes) <> [] ->
  parseShellWords (trim command) = (words, None) ->
  plain_blanks (trim command) = true -> no_comment words = true -> command_name words = true ->
  (forall commands, runs (trim command) commands <-> commands = [words]) /\
  (exists prefix args, prefix ∈ prefixes /\ prefixWords (trim prefix) <> [] /\
     words = prefixWords (trim prefix) ++ args) /\
  words_allowed profile words.
Proof.
  intros Hc Hne Hp Hb Hh Hn.
  destruct (check_ok _ _ _ Hc Hne) as (words' & prefix & args & Hp' & Hin & Hpn & Hw & Ha).
  rewrite Hp in Hp'. simplify_eq. split; [by apply shell_runs_checked|]. split; [by exists prefix, args|done].
Qed.

Lemma allowed_command_runs_as_checked_witness :
  (forall commands, @runs literal_shell (js "gjc state read --mode 'ral'plan") commands
     <-> commands = [jsl ["gjc"; "state"; "read"; "--mode"; "ralplan"]])
  /\ words_allowed None (jsl ["gjc"; "state"; "read"; "--mode"; "ralplan"]).
Proof.
  destruct (allowed_command_runs_as_checked literal_shell (js "gjc state read --mode 'ral'plan") ROLE_PREFIXES None
              (jsl ["gjc"; "state"; "read"; "--mode"; "ralplan"])) as (Hr & _ & Hw);
    [vm_compute; reflexivity|by vm_compute|vm_compute; reflexivity..|]. split; [exact Hr|exact Hw].
Defined.

(** In the read-only profile nothing depends on how the shell splits words: the command that
    runs is rebuilt from the checked words, and every shell runs it as exactly the executable found
    for an inspection command, followed by the checked arguments. *)
Theorem normalized_command_runs_as_checked (shell : Shell) which command text :
  normalizeReadOnlyBashCommand which command = Some text ->
  exists name args path, parseShellWords (trim command) = (name :: args, None) /\
    which name = Some path /\ words_allowed (Some ReadOnlyProfile) (name :: args) /\
    forall commands, runs text commands <-> commands = [path :: args].
Proof.
  unfold normalizeReadOnlyBashCommand.
  destruct (parseShellWords (trim command)) as [[|name args] [r|]]; try done.
  destruct (validateReadOnlyCommand (name :: args)) as [[]|] eqn:Ev; [|done].
  destruct (which name) as [path|] eqn:Ew; [|done]. case_bool_decide; [done|]. intros [= <-].
  exists name, args, path. split; [done|]. split; [done|]. split; [by apply read_only_ok|].
  pose proof (quoted_words_read (path :: args)) as Hr. rewrite <- (quoted_values (path :: args)). rewrite (fmap_cons quote_pieces) in *.
  apply runs_literal; [exact Hr|]. apply quote_pieces_ok.
Qed.

Lemma normalized_command_runs_as_checked_witness :
  exists name args path, parseShellWords (trim (js "rg -n 'a b' src")) = (name :: args, None) /\
    path = js "/bin/rg".
Proof.
  destruct (normalized_command_runs_as_checked literal_shell (fun _ => Some (js "/bin/rg")) (js "rg -n 'a b' src")
    (js "'/bin/rg' '-n' 'a b' 'src'")) as (name & args & path & Hp & Hw & _).
  - vm_compute. reflexivity.
  - exists name, args, path. split; [exact Hp|]. by injection Hw as <-.
Defined.

(** ** Where the check and the shell part *)

Definition FORM_FEED : N := 12.

(** A state command that is allowed as a read and runs as a clear: a form feed separates words
    for the check, not for the shell, so the shell's second argument is no flag. *)
Definition hidden_clear : jsstring :=
  js "gjc state " ++ FORM_FEED :: js "--session-id clear --mode ralplan".

Definition hidden_clear_args : list jsstring :=
  (FORM_FEED :: js "--session-id") :: jsl ["clear"; "--mode"; "ralplan"].

Definition plain_word (s : jsstring) : list piece := Plain <$> s.

Lemma plain_word_text s : word_text (plain_word s) = s.
Proof.
  induction s as [|c s IH]; [done|].
  change (word_text (plain_word (c :: s))) with (c :: word_text (plain_word s)). by rewrite IH.
Qed.

(** A word of characters that mean nothing to the shell. *)
Definition plain_sh (s : jsstring) : bool :=
  negb (bool_decide (s = [])) && forallb (fun c => sh_piece (Plain c) && negb (c =? TILDE)%N) s
  && negb (bool_decide (head s = Some HASH)).

Lemma plain_word_ok s : plain_sh s = true -> sh_word (plain_word s).
Proof.
  unfold plain_sh. intros [[H1 H2]%andb_prop H3]%andb_prop. simpl_bool. rewrite forallb_forall in H2.
  split; [by destruct s|]. split; [|split].
  - apply Forall_forall. intros p Hp. apply list_elem_of_fmap in Hp as (c & -> & Hc%list_elem_of_In%H2).
    by apply andb_prop in Hc as [? _].
  - destruct s; [done|]. cbn. intros [= ->]. by apply H3.
  - intros pre post E. exfalso. assert (Hin : Plain TILDE ∈ plain_word s) by (rewrite E; set_solver).
    apply list_elem_of_fmap in Hin as (c & [= <-] & Hc%list_elem_of_In%H2).
    by apply andb_prop in Hc as [_ ?].
Qed.

Lemma sh_line_plain ws sep :
  forallb plain_sh ws = true -> Forall (fun c => sh_blank c = true) sep ->
  sh_line (match ws with [] => [] | _ => sep ++ join [32%N] ws end) (plain_word <$> ws).
Proof.
  revert sep. induction ws as [|w ws IH]; intros sep Hws Hsep; [by apply sh_end|].
  cbn [forallb] in Hws. apply andb_prop in Hws as [Hw%plain_word_ok Hws]. destruct ws as [|w' ws].
  - simpl. rewrite <- (plain_word_text w) at 1. rewrite <- (app_nil_r (word_text _)).
    apply sh_next; auto; [by apply sh_end|done].
  - rewrite join_cons by done. rewrite <- (plain_word_text w) at 1. rewrite (fmap_cons plain_word). by apply sh_next; auto.
Qed.

Lemma plain_values (ws : list jsstring) : word_value <$> (plain_word <$> ws) = ws.
Proof. induction ws as [|w ws IH]; [done|]. rewrite !fmap_cons, IH. unfold plain_word. by rewrite word_value_plain. Qed.

(** The check allows it; a shell passes other words; the runtime clears the plan's state. *)
Lemma restricted_clear_passes (shell : Shell) :
  checkBashAllowedPrefixes hidden_clear (Some ROLE_PREFIXES) None = Ok () /\
  (forall commands, runs hidden_clear commands <-> commands = [js "gjc" :: js "state" :: hidden_clear_args]) /\
  dispatch hidden_clear_args = Ok AClear /\
  forall readFile, resolve_mode readFile hidden_clear_args = Ok (Some (js "ralplan")).
Proof.
  split; [by vm_compute|]. split; [|split; [by vm_compute|by vm_compute]].
  rewrite <- (plain_values (js "gjc" :: _)). rewrite (fmap_cons plain_word). apply runs_literal.
  - apply (sh_line_plain (js "gjc" :: js "state" :: hidden_clear_args) []); [by vm_compute|constructor].
  - apply (command_name_names _ []). unfold plain_word. rewrite word_value_plain. by vm_compute.
Qed.

(** A git command is not looked at beyond its prefix: a diff that writes a file passes. *)
Lemma git_output_passes :
  checkBashAllowedPrefixes (js "git diff --output=src/main.ts") (Some ROLE_PREFIXES) None = Ok ().
Proof. vm_compute. reflexivity. Qed.

(** Prefixes that are all blank restrict nothing. *)
Lemma blank_prefixes_allow_all command profile :
  checkBashAllowedPrefixes command (Some [js " "; []]) profile = Ok ().
Proof. reflexivity. Qed.
