(* ===== verification/ReverseLeases.v ===== *)
(** * Reverse calls and their leases (sdk/host/reverse-leases.ts)

    A connected client may offer a capability (the user interface, the file system) to the
    session; the session then sends it requests.  A lease says which connection provides a
    capability; it is renewed by heartbeats, handed over by its holder, and reclaimed after a
    disconnect.  The state is that of [ReverseLeaseRuntime]; an operation returns the new
    state, its result and the events it caused, in order: calls of the host's callbacks, frames
    sent, and requests settled.  An operation reads the clock once.  The callbacks return
    normally, except that installing definitions may throw, and a frame may fail to be sent. *)

From S2P Require Import Prelude JsText Json.

Definition REVERSE_LEASE_TTL_MS : Z := 15000.
Definition REVERSE_RECLAIM_GRACE_MS : Z := 15000.
Definition MAX_REVERSE_OUTSTANDING : nat := 64.
Definition MAX_REVERSE_PAYLOAD_BYTES : N := 262144.

Inductive ReverseLeaseError :=
| LeaseUnavailable | LeaseExpired | ProviderLeaseConflict | ProviderRequired | NotLeaseOwner
| PayloadTooLarge | TooManyOutstanding | UnknownRequest | IdempotencyConflict
| RuntimeDisposing | InstallThrew.

(** ** Maps in insertion order *)

Section ordered.
Context {V : Type}.
Implicit Types (m : list (jsstring * V)).

Fixpoint map_get (k : jsstring) m : option V :=
  match m with [] => None | (k', v) :: m' => if bool_decide (k' = k) then Some v else map_get k m' end.

(** A new key goes to the end, an old one keeps its place. *)
Fixpoint map_set (k : jsstring) (v : V) m : list (jsstring * V) :=
  match m with
  | [] => [(k, v)]
  | (k', v') :: m' => if bool_decide (k' = k) then (k, v) :: m' else (k', v') :: map_set k v m'
  end.

Definition map_delete (k : jsstring) m : list (jsstring * V) :=
  List.filter (fun e => negb (bool_decide (e.1 = k))) m.
End ordered.

(** ** Leases and requests *)

(** The object has an identity, which [===] compares. *)
Record ProviderLease := PLease {
  pl_obj : nat;
  pl_leaseId : jsstring;
  pl_connectionId : jsstring;
  pl_capability : jsstring;
  pl_definitions : json;
  pl_expiresAt : Z;
  pl_graceUntil : option Z;
  pl_active : bool;
}.

Record Outstanding := Outst {
  ou_connectionId : jsstring;
  ou_capability : jsstring;
  ou_leaseId : jsstring;
  ou_signal : bool;
}.

Record runtime := Runtime {
  rt_leases : list (jsstring * ProviderLease);
  rt_idempotency : list (jsstring * (jsstring * nat));
  rt_outstanding : list (jsstring * Outstanding);
  rt_installed : list jsstring;
  rt_disposing : bool;
  rt_fresh : nat;
}.

Definition rt_new : runtime := Runtime [] [] [] [] false 0.

Inductive cancel_reason := ProviderDisconnected | LeaseReleased.

Inductive frame :=
| ReverseRequest (id capability connectionId leaseId method : jsstring) (payload : option json)
| ReverseCancel (id connectionId leaseId : jsstring).

Inductive outcome :=
| Resolved (result : option json)
| RejectedByProvider (code message : jsstring)
| RequestCancelled
| DeliveryFailed.

Inductive event :=
| Installed (capability : jsstring) (definitions : json)
| DefinitionsRemoved (capability : jsstring)
| OnCancel (id : jsstring) (reason : cancel_reason)
| Sent (connectionId : jsstring) (f : frame)
| Settled (id : jsstring) (o : outcome).

Definition answer (A : Type) : Type := runtime * result ReverseLeaseError A * list event.

(** ** Fingerprints and sizes *)

Section env.
(** Comparison of names in the host's locale, the digest, the unique identifiers, whether the
    host's installer accepts definitions, and the lifetime of a lease. *)
Context (locale_leb : jsstring -> jsstring -> bool) (sha256 : jsstring -> jsstring).
Context (uuid : nat -> jsstring) (install_ok : jsstring -> json -> bool) (leaseTtlMs : Z).

Fixpoint canonicalJson (value : json) : jsstring :=
  match value with
  | JArr items => js "[" ++ join (js ",") (canonicalJson <$> items) ++ js "]"
  | JObj fields =>
      js "{" ++ join (js ",") (snd <$> sort_by (fun a b => locale_leb a.1 b.1)
        ((fix go fs := match fs with
                       | [] => []
                       | (k, x) :: fs' => (k, stringify_string k ++ js ":" ++ canonicalJson x) :: go fs'
                       end) fields)) ++ js "}"
  | _ => print_json value
  end.

Definition registrationFingerprint (capability : jsstring) (definitions : json) (expectedLeaseId : option jsstring) : jsstring :=
  sha256 (canonicalJson (JObj [(js "capability", JStr capability); (js "definitions", definitions);
    (js "expectedLeaseId", from_option JStr JNull expectedLeaseId)])).

(** [Buffer.byteLength] of a string: its length in UTF-8, a lone surrogate as three bytes. *)
Fixpoint byteLength (s : jsstring) : N :=
  match s with
  | [] => 0
  | c :: rest =>
      if (c <? 128)%N then 1 + byteLength rest
      else if (c <? 2048)%N then 2 + byteLength rest
      else if is_high_surrogate c then
        match rest with
        | d :: rest' => if is_low_surrogate d then 4 + byteLength rest' else 3 + byteLength rest
        | [] => 3
        end
      else 3 + byteLength rest
  end%N.

Definition payload_fits (payload : option json) : bool :=
  match payload with
  | None => true
  | Some p => (byteLength (print_json p) <=? MAX_REVERSE_PAYLOAD_BYTES)%N
  end.

(** ** Private methods *)

Definition removeDefinitions (st : runtime) (capability : jsstring) : runtime * list event :=
  if bool_decide (capability ∈ rt_installed st) then
    (Runtime (rt_leases st) (rt_idempotency st) (rt_outstanding st)
       (List.filter (fun c => negb (bool_decide (c = capability))) (rt_installed st))
       (rt_disposing st) (rt_fresh st), [DefinitionsRemoved capability])
  else (st, []).

Definition add_installed (st : runtime) (capability : jsstring) : runtime :=
  Runtime (rt_leases st) (rt_idempotency st) (rt_outstanding st)
    (if bool_decide (capability ∈ rt_installed st) then rt_installed st else rt_installed st ++ [capability])
    (rt_disposing st) (rt_fresh st).

Definition set_leases (st : runtime) (leases : list (jsstring * ProviderLease)) : runtime :=
  Runtime leases (rt_idempotency st) (rt_outstanding st) (rt_installed st) (rt_disposing st) (rt_fresh st).

Definition set_outstanding (st : runtime) (out : list (jsstring * Outstanding)) : runtime :=
  Runtime (rt_leases st) (rt_idempotency st) out (rt_installed st) (rt_disposing st) (rt_fresh st).

Definition find_lease (st : runtime) (leaseId : jsstring) : option ProviderLease :=
  List.find (fun l => bool_decide (pl_leaseId l = leaseId)) (snd <$> rt_leases st).

Definition owner (st : runtime) (connectionId leaseId : jsstring) : result ReverseLeaseError ProviderLease :=
  match find_lease st leaseId with
  | Some lease =>
      if pl_active lease && bool_decide (pl_connectionId lease = connectionId) then Ok lease
      else Err NotLeaseOwner
  | None => Err NotLeaseOwner
  end.

Definition liveLease (st : runtime) (now : Z) (capability : jsstring) : runtime * option ProviderLease * list event :=
  match map_get capability (rt_leases st) with
  | None => (st, None, [])
  | Some lease =>
      if negb (pl_active lease) || (pl_expiresAt lease <=? now)%Z then
        if (pl_expiresAt lease <=? now)%Z
        then let '(st', ev) := removeDefinitions st capability in (st', None, ev)
        else (st, None, [])
      else (st, Some lease, [])
  end.

Fixpoint remove_all (st : runtime) (capabilities : list jsstring) : runtime * list event :=
  match capabilities with
  | [] => (st, [])
  | c :: rest =>
      let '(st1, ev1) := removeDefinitions st c in
      let '(st2, ev2) := remove_all st1 rest in (st2, ev1 ++ ev2)
  end.

Definition expireStaleLeases (st : runtime) (now : Z) : runtime * list event :=
  remove_all st (omap (fun l => if (pl_expiresAt l <=? now)%Z then Some (pl_capability l) else None)
                   (snd <$> rt_leases st)).

Definition cancelForConnection (st : runtime) (connectionId : jsstring) (reason : cancel_reason) : runtime * list event :=
  let mine := fun e : jsstring * Outstanding => bool_decide (ou_connectionId e.2 = connectionId) in
  (set_outstanding st (List.filter (fun e => negb (mine e)) (rt_outstanding st)),
   List.filter mine (rt_outstanding st) ≫= fun e => [Settled e.1 RequestCancelled; OnCancel e.1 reason]).

(** ** Public methods *)

(** The replay of a registration under an idempotency key. *)
Definition replayed (st : runtime) (now : Z) (capability fingerprint : jsstring) (key : option jsstring) :
    result ReverseLeaseError (option ProviderLease) :=
  match key ≫= fun k => map_get k (rt_idempotency st) with
  | None => Ok None
  | Some (fp, obj) =>
      if negb (bool_decide (fp = fingerprint)) then Err IdempotencyConflict
      else match map_get capability (rt_leases st) with
           | Some current =>
               if bool_decide (pl_obj current = obj) && pl_active current && (now <? pl_expiresAt current)%Z
               then Ok (Some current) else Ok None
           | None => Ok None
           end
  end.

(** Installing the definitions and storing the lease under its identifier. *)
Definition grant (st : runtime) (ev : list event) (now : Z) (connectionId capability : jsstring) (definitions : json)
    (leaseId : jsstring) (fresh : nat) (key : option jsstring) (fingerprint : jsstring) : answer ProviderLease :=
  if install_ok capability definitions then
    let lease := PLease fresh leaseId connectionId capability definitions (now + leaseTtlMs) None true in
    let st1 := add_installed st capability in
    (Runtime (map_set capability lease (rt_leases st1))
       (match key with
        | Some k => map_set k (fingerprint, fresh) (rt_idempotency st1)
        | None => rt_idempotency st1
        end)
       (rt_outstanding st1) (rt_installed st1) (rt_disposing st1) (S fresh),
     Ok lease, ev ++ [Installed capability definitions])
  else (st, Err InstallThrew, ev).

(** A registration that is no replay. *)
Definition admit_provider (st : runtime) (now : Z) (connectionId capability : jsstring) (definitions : json)
    (expectedLeaseId key : option jsstring) (fingerprint : jsstring) : answer ProviderLease :=
  let existing := map_get capability (rt_leases st) in
  let '(st1, ev1) :=
    match existing with
    | Some e => if (pl_expiresAt e <=? now)%Z then removeDefinitions st (pl_capability e) else (st, [])
    | None => (st, [])
    end in
  let fresh := rt_fresh st1 in
  let give leaseId := grant st1 ev1 now connectionId capability definitions leaseId fresh key fingerprint in
  match existing with
  | None => give (uuid fresh)
  | Some e =>
      if negb (pl_active e) && (now <? pl_expiresAt e)%Z then
        if negb (bool_decide (pl_connectionId e = connectionId))
           || negb (bool_decide (Some (pl_leaseId e) = expectedLeaseId))
        then (st1, Err ProviderLeaseConflict, ev1)
        else give (pl_leaseId e)
      else
        let reclaiming :=
          bool_decide (Some (pl_leaseId e) = expectedLeaseId)
          && match pl_graceUntil e with Some g => (now <=? g)%Z | None => false end in
        let refreshing :=
          pl_active e && bool_decide (pl_connectionId e = connectionId) && (now <? pl_expiresAt e)%Z in
        if negb reclaiming && negb refreshing && negb (bool_decide (pl_connectionId e = connectionId))
           && (now <? pl_expiresAt e)%Z
        then (st1, Err ProviderLeaseConflict, ev1)
        else give (if reclaiming || refreshing then pl_leaseId e else uuid fresh)
  end.

(** The key under which a registration is remembered: an empty one is none. *)
Definition idempotency_entry (connectionId : jsstring) (idempotencyKey : option jsstring) : option jsstring :=
  match idempotencyKey with
  | Some k => if bool_decide (k = []) then None else Some (connectionId ++ 0%N :: k)
  | None => None
  end.

Definition registerProvider (st : runtime) (now : Z) (connectionId capability : jsstring) (definitions : json)
    (expectedLeaseId idempotencyKey : option jsstring) : answer ProviderLease :=
  if rt_disposing st then (st, Err RuntimeDisposing, [])
  else
    let key := idempotency_entry connectionId idempotencyKey in
    let fingerprint := registrationFingerprint capability definitions expectedLeaseId in
    match replayed st now capability fingerprint key with
    | Err e => (st, Err e, [])
    | Ok (Some lease) => (st, Ok lease, [])
    | Ok None => admit_provider st now connectionId capability definitions expectedLeaseId key fingerprint
    end.

Definition heartbeat (st : runtime) (now : Z) (connectionId leaseId : jsstring) : answer ProviderLease :=
  match owner st connectionId leaseId with
  | Err e => (st, Err e, [])
  | Ok lease =>
      if (pl_expiresAt lease <=? now)%Z then
        let '(st', ev) := removeDefinitions st (pl_capability lease) in (st', Err LeaseExpired, ev)
      else
        let lease' := PLease (pl_obj lease) (pl_leaseId lease) (pl_connectionId lease) (pl_capability lease)
                        (pl_definitions lease) (now + leaseTtlMs) None (pl_active lease) in
        (set_leases st (map_set (pl_capability lease) lease' (rt_leases st)), Ok lease', [])
  end.

Definition release (st : runtime) (now : Z) (connectionId leaseId : jsstring) (handoffTo : option jsstring) :
    answer ProviderLease :=
  match owner st connectionId leaseId with
  | Err e => (st, Err e, [])
  | Ok lease =>
      let '(st1, ev1) := cancelForConnection st connectionId LeaseReleased in
      let '(st2, ev2) := removeDefinitions st1 (pl_capability lease) in
      match handoffTo ≫= fun c => if bool_decide (c = []) then None else Some c with
      | Some next =>
          let lease' := PLease (pl_obj lease) (pl_leaseId lease) next (pl_capability lease) (pl_definitions lease)
                          (now + REVERSE_RECLAIM_GRACE_MS) None false in
          (set_leases st2 (map_set (pl_capability lease) lease' (rt_leases st2)), Ok lease', ev1 ++ ev2)
      | None => (set_leases st2 (map_delete (pl_capability lease) (rt_leases st2)), Ok lease, ev1 ++ ev2)
      end
  end.

Definition disconnected (now : Z) (connectionId : jsstring) (lease : ProviderLease) : ProviderLease :=
  if bool_decide (pl_connectionId lease = connectionId) then
    PLease (pl_obj lease) (pl_leaseId lease) (pl_connectionId lease) (pl_capability lease) (pl_definitions lease)
      now (Some (now + REVERSE_RECLAIM_GRACE_MS)%Z) (pl_active lease)
  else lease.

Definition disconnect (st : runtime) (now : Z) (connectionId : jsstring) : runtime * list event :=
  let mine := omap (fun l => if bool_decide (pl_connectionId l = connectionId) then Some (pl_capability l) else None)
                (snd <$> rt_leases st) in
  let st1 := set_leases st (prod_map id (disconnected now connectionId) <$> rt_leases st) in
  let '(st2, ev2) := remove_all st1 mine in
  let '(st3, ev3) := cancelForConnection st2 connectionId ProviderDisconnected in
  (st3, ev2 ++ ev3).

(** [signal] is whether the caller can abort; [aborted], that it has.  [sent] is whether the
    frame goes out.  The answer is the request's identifier, [None] for a request that is
    rejected at once. *)
Definition request (st : runtime) (now : Z) (capability method : jsstring) (payload : option json)
    (signal aborted sent : bool) : answer (option jsstring) :=
  if rt_disposing st then (st, Err RuntimeDisposing, [])
  else if negb (payload_fits payload) then (st, Err PayloadTooLarge, [])
  else
    let '(st1, lease, ev1) := liveLease st now capability in
    match lease with
    | None =>
        match map_get capability (rt_leases st1) with
        | Some r => if negb (pl_active r) && (now <? pl_expiresAt r)%Z then (st1, Err LeaseUnavailable, ev1)
                    else (st1, Err ProviderRequired, ev1)
        | None => (st1, Err ProviderRequired, ev1)
        end
    | Some l =>
        if signal && aborted then (st1, Ok None, ev1)
        else if (MAX_REVERSE_OUTSTANDING <=? length (rt_outstanding st1))%nat then (st1, Err TooManyOutstanding, ev1)
        else
          let id := uuid (rt_fresh st1) in
          let out := Outst (pl_connectionId l) capability (pl_leaseId l) signal in
          let st2 := Runtime (rt_leases st1) (rt_idempotency st1)
                       (if sent then map_set id out (rt_outstanding st1) else rt_outstanding st1)
                       (rt_installed st1) (rt_disposing st1) (S (rt_fresh st1)) in
          if sent then
            (st2, Ok (Some id), ev1 ++ [Sent (pl_connectionId l)
               (ReverseRequest id capability (pl_connectionId l) (pl_leaseId l) method payload)])
          else (st2, Ok (Some id), ev1 ++ [Settled id DeliveryFailed])
    end.

(** The caller aborts a request that is under way. *)
Definition onAbort (st : runtime) (id : jsstring) : runtime * list event :=
  match map_get id (rt_outstanding st) with
  | Some out =>
      if ou_signal out then
        (set_outstanding st (map_delete id (rt_outstanding st)),
         [Sent (ou_connectionId out) (ReverseCancel id (ou_connectionId out) (ou_leaseId out));
          Settled id RequestCancelled])
      else (st, [])
  | None => (st, [])
  end.

(** The frame of a request turns out not to be delivered. *)
Definition delivery_failed (st : runtime) (id : jsstring) : runtime * list event :=
  match map_get id (rt_outstanding st) with
  | Some _ => (set_outstanding st (map_delete id (rt_outstanding st)), [Settled id DeliveryFailed])
  | None => (st, [])
  end.

Definition respond (st : runtime) (connectionId id leaseId : jsstring) (result : option json)
    (error : option (jsstring * jsstring)) : answer () :=
  if negb (payload_fits result) then (st, Err PayloadTooLarge, [])
  else match map_get id (rt_outstanding st) with
       | None => (st, Err UnknownRequest, [])
       | Some req =>
           if negb (bool_decide (ou_connectionId req = connectionId))
              || negb (bool_decide (ou_leaseId req = leaseId))
           then (st, Err NotLeaseOwner, [])
           else (set_outstanding st (map_delete id (rt_outstanding st)), Ok (),
                 [Settled id (match error with
                              | Some (code, message) => RejectedByProvider code message
                              | None => Resolved result
                              end)])
       end.

Definition getLease (st : runtime) (now : Z) (capability : jsstring) : runtime * option ProviderLease * list event :=
  liveLease st now capability.

Definition getInstalledDefinitions (st : runtime) (now : Z) (capability : jsstring) :
    runtime * option json * list event :=
  let '(st', lease, ev) := liveLease st now capability in (st', pl_definitions <$> lease, ev).

Definition dispose (st : runtime) : runtime * list event :=
  if rt_disposing st then (st, [])
  else (Runtime [] [] [] [] false (rt_fresh st),
        (rt_outstanding st ≫= fun e => [Settled e.1 RequestCancelled; OnCancel e.1 LeaseReleased])
        ++ (DefinitionsRemoved <$> rt_installed st)).
End env.
