(* ===== verification/ReverseLeaseFacts.v ===== *)
(** * What leases of reverse calls guarantee

    The runtime of [ReverseLeases] under any sequence of calls at times that do not decrease,
    with unique identifiers.  A live lease is its holder's until the holder gives it up; a
    request goes to the holder of a live lease, and only that connection, under that lease,
    can answer it; every request that was sent is settled at most once and is under way until
    then, and at most 64 are; the definitions of a live provider are installed. *)

From S2P Require Import Prelude JsText Json ReverseLeases.

Local Open Scope Z_scope.

(** ** Maps *)

Section maps.
Context {V : Type}.
Implicit Types (m : list (jsstring * V)).

Lemma map_get_In k v m : map_get k m = Some v -> (k, v) ∈ m.
Proof.
  induction m as [|[k' v'] m IH]; [done|]. simpl. case_bool_decide; [intros [= ->]; subst; by left|].
  intros. right. auto.
Qed.

Lemma map_get_None k m : map_get k m = None -> k ∉ m.*1.
Proof.
  induction m as [|[k' v'] m IH]; simpl; [intros _; by apply not_elem_of_nil|].
  case_bool_decide; [done|]. intros Hm. apply not_elem_of_cons. split; [congruence|auto].
Qed.

Lemma map_get_NoDup k v m : NoDup m.*1 -> (k, v) ∈ m -> map_get k m = Some v.
Proof.
  induction m as [|[k' v'] m IH]; simpl; [by intros _ ?%elem_of_nil|].
  intros [Hn Hd]%NoDup_cons [E|Hin]%elem_of_cons.
  - injection E as <- <-. by rewrite bool_decide_eq_true_2.
  - rewrite bool_decide_eq_false_2; [auto|]. intros ->. apply Hn. by apply (list_elem_of_fmap_2 fst) in Hin.
Qed.

Lemma map_get_set k k' v m : map_get k' (map_set k v m) = if decide (k' = k) then Some v else map_get k' m.
Proof.
  induction m as [|[k0 v0] m IH]; simpl.
  - destruct (decide (k' = k)) as [->|]; [by rewrite bool_decide_eq_true_2|].
    by rewrite bool_decide_eq_false_2 by congruence.
  - case_bool_decide as E; simpl.
    + subst k0. destruct (decide (k' = k)) as [->|]; [by rewrite bool_decide_eq_true_2|].
      by rewrite bool_decide_eq_false_2 by congruence.
    + rewrite IH. case_bool_decide; [|done]. by rewrite decide_False by congruence.
Qed.

Lemma map_set_keys k v m : (map_set k v m).*1 = if decide (k ∈ m.*1) then m.*1 else m.*1 ++ [k].
Proof.
  induction m as [|[k0 v0] m IH]; csimpl; [done|]. case_bool_decide as E; csimpl.
  - subst k0. by rewrite decide_True by set_solver.
  - rewrite IH. destruct (decide (k ∈ m.*1)); [by rewrite decide_True by set_solver|].
    rewrite decide_False; [done|]. set_solver.
Qed.

Lemma map_set_NoDup k v m : NoDup m.*1 -> NoDup (map_set k v m).*1.
Proof.
  intros. rewrite map_set_keys. case_decide; [done|]. apply NoDup_app.
  split; [done|]. split; [set_solver|]. apply NoDup_singleton.
Qed.

Lemma map_set_In k v m e : e ∈ map_set k v m -> e = (k, v) \/ e ∈ m.
Proof.
  induction m as [|[k0 v0] m IH]; simpl.
  - intros ->%list_elem_of_singleton. by left.
  - case_bool_decide; intros [->|Hin]%elem_of_cons; [by left|right; by right|right; by left|].
    destruct (IH Hin); [by left|right; by right].
Qed.

Lemma map_set_In_NoDup k v m e :
  NoDup m.*1 -> e ∈ map_set k v m -> e = (k, v) \/ (e ∈ m /\ e.1 <> k).
Proof.
  intros Hd Hin. destruct e as [k' v']. pose proof (map_set_NoDup k v m Hd) as Hd'.
  pose proof (map_get_NoDup k' v' _ Hd' Hin) as Hg. rewrite map_get_set in Hg.
  destruct (decide (k' = k)) as [->|Hne]; [left; congruence|]. right. split; [by apply map_get_In|done].
Qed.

Lemma filter_sublist p m : List.filter p m `sublist_of` m.
Proof.
  induction m as [|x m IH]; simpl; [done|]. destruct (p x); by constructor.
Qed.

Lemma filter_keys_NoDup p m : NoDup m.*1 -> NoDup (List.filter p m).*1.
Proof.
  intros Hd. eapply sublist_NoDup; [exact Hd|]. apply fmap_sublist, filter_sublist.
Qed.

Lemma no_key k m : k ∉ m.*1 -> List.filter (fun e => bool_decide (e.1 = k)) m = [].
Proof.
  induction m as [|[k' v] m IH]; [done|]. rewrite fmap_cons, not_elem_of_cons. intros [Hn Hm]. simpl in *.
  rewrite bool_decide_eq_false_2 by congruence. auto.
Qed.

Lemma only_key k v m :
  NoDup m.*1 -> map_get k m = Some v -> (List.filter (fun e => bool_decide (e.1 = k)) m).*1 = [k].
Proof.
  induction m as [|[k' v'] m IH]; [done|]. rewrite fmap_cons, NoDup_cons. intros [Hn Hd]. simpl.
  case_bool_decide as E; [|auto]. subst k'. intros _. csimpl. f_equal. by rewrite no_key.
Qed.

Lemma map_get_delete k k' m : map_get k' (map_delete k m) = if decide (k' = k) then None else map_get k' m.
Proof.
  unfold map_delete. induction m as [|[k0 v0] m IH]; simpl; [by case_decide|].
  case_bool_decide as E; simpl; rewrite IH; repeat case_decide; subst; try done.
Qed.
End maps.

(** ** The invariant *)

Section facts.
Context (locale_leb : jsstring -> jsstring -> bool) (sha256 : jsstring -> jsstring).
Context (uuid : nat -> jsstring) (install_ok : jsstring -> json -> bool) (leaseTtlMs : Z).
Context (uuid_unique : forall n m, uuid n = uuid m -> n = m).

Definition issued (fresh : nat) (id : jsstring) : Prop := exists n, (n < fresh)%nat /\ id = uuid n.

Definition live (now : Z) (l : ProviderLease) : Prop := pl_active l = true /\ now < pl_expiresAt l.

Definition settled_ids (h : list event) : list jsstring :=
  omap (fun e => match e with Settled id _ => Some id | _ => None end) h.

(** The frame of a request under way was sent to the connection that may answer it. *)
Definition sent_to (h : list event) (id : jsstring) (out : Outstanding) : Prop :=
  exists method payload, Sent (ou_connectionId out)
    (ReverseRequest id (ou_capability out) (ou_connectionId out) (ou_leaseId out) method payload) ∈ h.

(** [h] is everything that happened so far. *)
Record inv (st : runtime) (now : Z) (h : list event) : Prop := {
  inv_keys : NoDup (rt_leases st).*1;
  inv_caps : forall c l, (c, l) ∈ rt_leases st -> pl_capability l = c;
  inv_ids : forall c l, (c, l) ∈ rt_leases st -> issued (rt_fresh st) (pl_leaseId l);
  inv_distinct : forall c1 l1 c2 l2, (c1, l1) ∈ rt_leases st -> (c2, l2) ∈ rt_leases st ->
    pl_leaseId l1 = pl_leaseId l2 -> c1 = c2;
  inv_grace : forall c l g, (c, l) ∈ rt_leases st -> pl_graceUntil l = Some g -> pl_expiresAt l <= now;
  inv_live : forall c l, (c, l) ∈ rt_leases st -> live now l -> c ∈ rt_installed st;
  inv_installed : forall c, c ∈ rt_installed st -> c ∈ (rt_leases st).*1;
  inv_requests : NoDup ((rt_outstanding st).*1 ++ settled_ids h);
  inv_request_ids : Forall (issued (rt_fresh st)) ((rt_outstanding st).*1 ++ settled_ids h);
  inv_bound : (length (rt_outstanding st) <= MAX_REVERSE_OUTSTANDING)%nat;
  inv_sent : forall id out, (id, out) ∈ rt_outstanding st -> sent_to h id out;
  inv_disposing : rt_disposing st = false;
}.

Lemma inv_empty now h fresh :
  NoDup (settled_ids h) -> Forall (issued fresh) (settled_ids h) ->
  inv (Runtime [] [] [] [] false fresh) now h.
Proof.
  intros Hn Hf. constructor; simpl; try done; try (constructor; fail).
  - by intros ? ? ?%elem_of_nil.
  - by intros ? ? ?%elem_of_nil.
  - by intros ? ? ? ? ?%elem_of_nil.
  - by intros ? ? ? ?%elem_of_nil.
  - by intros ? ? ?%elem_of_nil.
  - unfold MAX_REVERSE_OUTSTANDING. lia.
  - by intros ? ? ?%elem_of_nil.
Qed.

Lemma inv_init now : inv rt_new now [].
Proof. apply inv_empty; constructor. Qed.

Lemma inv_later st now now' h : inv st now h -> now <= now' -> inv st now' h.
Proof.
  intros [] Hle. constructor; auto.
  - intros c l g Hin Hg. specialize (inv_grace0 c l g Hin Hg). lia.
  - intros c l Hin [Ha Hl]. apply (inv_live0 c l Hin). split; [done|]. lia.
Qed.

(** Events that settle nothing. *)
Definition quiet (ev : list event) : Prop := settled_ids ev = [].

Lemma settled_app h1 h2 : settled_ids (h1 ++ h2) = settled_ids h1 ++ settled_ids h2.
Proof. apply omap_app. Qed.

Lemma inv_quiet st now h ev : inv st now h -> quiet ev -> inv st now (h ++ ev).
Proof.
  intros [] Hq. constructor; auto; rewrite ?settled_app, ?Hq, ?app_nil_r; auto.
  intros id out Hin. destruct (inv_sent0 id out Hin) as (m & p & ?). exists m, p. set_solver.
Qed.

(** Removing the definitions of a capability without a live lease. *)
Lemma removed_inv st now h c :
  inv st now h -> (forall l, (c, l) ∈ rt_leases st -> ~ live now l) ->
  inv (removeDefinitions st c).1 now (h ++ (removeDefinitions st c).2).
Proof.
  intros Hi Hc. unfold removeDefinitions. case_bool_decide as Hin; simpl.
  - apply inv_quiet; [|done]. destruct Hi. constructor; simpl; auto.
    + intros c' l Hl Hlive. apply list_elem_of_In, filter_In. split; [apply list_elem_of_In; eauto|].
      apply negb_true_iff, bool_decide_eq_false. intros ->. by apply (Hc l).
    + intros c' Hf. apply list_elem_of_In, filter_In in Hf as [Hf _]. apply inv_installed0. by apply list_elem_of_In.
  - rewrite app_nil_r. done.
Qed.

Lemma removed_fields st c :
  rt_leases (removeDefinitions st c).1 = rt_leases st /\
  rt_outstanding (removeDefinitions st c).1 = rt_outstanding st /\
  rt_idempotency (removeDefinitions st c).1 = rt_idempotency st /\
  rt_disposing (removeDefinitions st c).1 = rt_disposing st /\
  rt_fresh (removeDefinitions st c).1 = rt_fresh st /\
  settled_ids (removeDefinitions st c).2 = [].
Proof. unfold removeDefinitions. by case_bool_decide. Qed.

(** Dropping requests and settling them. *)
Lemma cancelled_inv st now h p ev :
  inv st now h ->
  settled_ids ev = (List.filter p (rt_outstanding st)).*1 ->
  inv (set_outstanding st (List.filter (fun e => negb (p e)) (rt_outstanding st))) now (h ++ ev).
Proof.
  intros Hi Hev. destruct Hi.
  assert (Hperm : (List.filter (fun e => negb (p e)) (rt_outstanding st)).*1 ++ settled_ids (h ++ ev)
                  ≡ₚ (rt_outstanding st).*1 ++ settled_ids h).
  { rewrite settled_app, Hev. clear. induction (rt_outstanding st) as [|e m IH]; simpl.
    - by rewrite app_nil_r.
    - destruct (p e); simpl; csimpl.
      + rewrite !app_assoc, <- Permutation_middle, <- app_assoc, IH. done.
      + by rewrite IH. }
  constructor; simpl; auto.
  - by rewrite Hperm.
  - by rewrite Hperm.
  - etrans; [|exact inv_bound0]. clear. induction (rt_outstanding st) as [|e m IH]; simpl; [lia|].
    destruct (p e); simpl; lia.
  - intros id out Hin. apply list_elem_of_In, filter_In in Hin as [Hin _].
    destruct (inv_sent0 id out) as (m & q & ?); [by apply list_elem_of_In|]. exists m, q. set_solver.
Qed.

Lemma issued_mono n m id : (n <= m)%nat -> issued n id -> issued m id.
Proof. intros Hle (k & Hk & ->). exists k. split; [lia|done]. Qed.

(** Storing a lease. *)
Lemma set_lease_inv st now h c l installed idem fresh :
  inv st now h -> pl_capability l = c -> (rt_fresh st <= fresh)%nat -> issued fresh (pl_leaseId l) ->
  (forall c2 l2, (c2, l2) ∈ rt_leases st -> pl_leaseId l2 = pl_leaseId l -> c2 = c) ->
  (forall g, pl_graceUntil l = Some g -> pl_expiresAt l <= now) ->
  (live now l -> c ∈ installed) ->
  (forall c', c' ∈ rt_installed st -> c' ∈ installed) ->
  (forall c', c' ∈ installed -> c' = c \/ c' ∈ rt_installed st) ->
  inv (Runtime (map_set c l (rt_leases st)) idem (rt_outstanding st) installed (rt_disposing st) fresh) now h.
Proof.
  intros Hi Hc Hf Hid Hdist Hg Hl Hmono Hnew. destruct Hi.
  assert (Hin : forall c' l', (c', l') ∈ map_set c l (rt_leases st) ->
            (c' = c /\ l' = l) \/ ((c', l') ∈ rt_leases st /\ c' <> c)).
  { intros c' l' [E|[? ?]]%map_set_In_NoDup; [|by right|done]. injection E as -> ->. by left. }
  constructor; simpl; auto.
  - by apply map_set_NoDup.
  - intros c' l' [[-> ->]|[H _]]%Hin; [done|eauto].
  - intros c' l' [[-> ->]|[H _]]%Hin; [done|]. eapply issued_mono; eauto.
  - intros c1 l1 c2 l2 [[-> ->]|[H1 N1]]%Hin [[-> ->]|[H2 N2]]%Hin E; [done| | |eauto].
    + symmetry. by apply (Hdist c2 l2).
    + by apply (Hdist c1 l1).
  - intros c' l' g [[-> ->]|[H _]]%Hin; eauto.
  - intros c' l' [[-> ->]|[H _]]%Hin; eauto.
  - intros c' H. rewrite map_set_keys. destruct (Hnew c' H) as [->|H'].
    + case_decide; [done|]. set_solver.
    + apply inv_installed0 in H'. case_decide; [done|]. set_solver.
  - eapply Forall_impl; [exact inv_request_ids0|]. intros id. by apply issued_mono.
Qed.

Lemma delete_lease_inv st now h c :
  inv st now h -> c ∉ rt_installed st -> inv (set_leases st (map_delete c (rt_leases st))) now h.
Proof.
  intros Hi Hc. destruct Hi.
  assert (Hin : forall c' l', (c', l') ∈ map_delete c (rt_leases st) -> (c', l') ∈ rt_leases st).
  { intros c' l' H. apply list_elem_of_In, filter_In in H as [H _]. by apply list_elem_of_In. }
  constructor; simpl; eauto.
  - by apply filter_keys_NoDup.
  - intros c' H. assert (Hne : c' <> c) by (by intros ->). apply inv_installed0 in H.
    apply list_elem_of_fmap in H as ([k l] & -> & H). apply (list_elem_of_fmap_2' fst _ (k, l)); [|done].
    apply list_elem_of_In, filter_In. split; [by apply list_elem_of_In|]. simpl.
    by rewrite bool_decide_eq_false_2.
Qed.

Lemma removed_not_installed st c : c ∉ rt_installed (removeDefinitions st c).1.
Proof.
  unfold removeDefinitions. case_bool_decide; simpl; [|done].
  intros Hf. apply list_elem_of_In, filter_In in Hf as [_ Hf]. by rewrite bool_decide_eq_true_2 in Hf.
Qed.

Lemma owner_ok st now h conn id l :
  inv st now h -> owner st conn id = Ok l ->
  (pl_capability l, l) ∈ rt_leases st /\ pl_leaseId l = id /\ pl_active l = true /\ pl_connectionId l = conn.
Proof.
  intros Hi. unfold owner, find_lease. destruct (List.find _ _) as [l'|] eqn:E; [|done].
  destruct (pl_active l') eqn:Ea; [|done]. simpl. case_bool_decide; [|done]. intros [= ->].
  apply List.find_some in E as [Hin Hid]. simpl_bool. apply list_elem_of_In, list_elem_of_fmap in Hin as ([c l0] & -> & Hin).
  simpl in *. by rewrite (inv_caps _ _ _ Hi c l0 Hin).
Qed.

Lemma lease_of st now h c l : inv st now h -> (c, l) ∈ rt_leases st -> map_get c (rt_leases st) = Some l.
Proof. intros Hi. apply map_get_NoDup, (inv_keys _ _ _ Hi). Qed.

Lemma unique_lease st now h c l l' :
  inv st now h -> (c, l) ∈ rt_leases st -> (c, l') ∈ rt_leases st -> l = l'.
Proof. intros Hi H1 H2. apply (lease_of st now h) in H1, H2; [|done..]. congruence. Qed.

(** ** Every call keeps the invariant *)

Definition fits {A} (r : answer A) : runtime * list event := (r.1.1, r.2).

Definition keeps (st : runtime) (now : Z) (h : list event) (r : runtime * list event) : Prop :=
  inv r.1 now (h ++ r.2).

Lemma keeps_same st now h : inv st now h -> keeps st now h (st, []).
Proof. unfold keeps. simpl. by rewrite app_nil_r. Qed.

Lemma grant_keeps st now h ev conn cap defs id key fp :
  inv st now (h ++ ev) ->
  issued (S (rt_fresh st)) id ->
  (forall c2 l2, (c2, l2) ∈ rt_leases st -> pl_leaseId l2 = id -> c2 = cap) ->
  keeps st now h (fits (grant install_ok leaseTtlMs st ev now conn cap defs id (rt_fresh st) key fp)).
Proof.
  intros Hi Hid Hd. unfold grant, keeps, fits. destruct (install_ok cap defs); simpl; [|done].
  rewrite app_assoc. apply inv_quiet; [|done].
  apply (set_lease_inv st now (h ++ ev)); simpl; auto.
  - done.
  - intros _. case_bool_decide; set_solver.
  - intros c'. case_bool_decide; set_solver.
  - intros c'. case_bool_decide; set_solver.
Qed.

Lemma issued_fresh st : issued (S (rt_fresh st)) (uuid (rt_fresh st)).
Proof. exists (rt_fresh st). split; [lia|done]. Qed.

Lemma fresh_distinct st now h cap :
  inv st now h -> forall c2 l2, (c2, l2) ∈ rt_leases st -> pl_leaseId l2 = uuid (rt_fresh st) -> c2 = cap.
Proof.
  intros Hi c2 l2 Hin E. destruct (inv_ids _ _ _ Hi c2 l2 Hin) as (n & Hn & E'). rewrite E in E'.
  apply uuid_unique in E'. lia.
Qed.

Lemma not_live_expired now l : pl_expiresAt l <= now -> ~ live now l.
Proof. intros ? [_ ?]. lia. Qed.

(** The definitions of an expired lease are removed. *)
Lemma expired_keeps st now h c l :
  inv st now h -> (c, l) ∈ rt_leases st -> pl_expiresAt l <= now ->
  inv (removeDefinitions st c).1 now (h ++ (removeDefinitions st c).2).
Proof.
  intros Hi Hin He. apply removed_inv; [done|]. intros l' Hin'.
  rewrite <- (unique_lease st now h c l l' Hi Hin Hin'). by apply not_live_expired.
Qed.

Lemma register_keeps st now h conn cap defs expected key :
  inv st now h ->
  keeps st now h (fits (registerProvider locale_leb sha256 uuid install_ok leaseTtlMs st now conn cap defs expected key)).
Proof.
  intros Hi. unfold registerProvider. rewrite (inv_disposing _ _ _ Hi).
  destruct (replayed st now cap _ _) as [[lease|]|e]; [by apply keeps_same| |by apply keeps_same].
  unfold admit_provider. destruct (map_get cap (rt_leases st)) as [e|] eqn:Ee.
  - assert (Hin : (cap, e) ∈ rt_leases st) by (by apply map_get_In).
    assert (Hcap : pl_capability e = cap) by (by apply (inv_caps _ _ _ Hi)).
    set (r := if (pl_expiresAt e <=? now) then removeDefinitions st (pl_capability e) else (st, [])).
    assert (Hr : inv r.1 now (h ++ r.2) /\ rt_leases r.1 = rt_leases st /\ rt_fresh r.1 = rt_fresh st).
    { subst r. destruct (pl_expiresAt e <=? now) eqn:Ex; simpl; [|by rewrite app_nil_r].
      simpl_bool. rewrite Hcap. destruct (removed_fields st cap) as (-> & _ & _ & _ & -> & _).
      split; [|done]. by apply (expired_keeps st now h cap e). }
    clearbody r. destruct r as [st1 ev1]. simpl in Hr. destruct Hr as (Hi1 & Hl1 & Hf1).
    assert (Hsame : forall c2 l2, (c2, l2) ∈ rt_leases st1 -> pl_leaseId l2 = pl_leaseId e -> c2 = cap).
    { intros c2 l2 H2 E. rewrite Hl1 in H2. by apply (inv_distinct _ _ _ Hi c2 l2 cap e). }
    assert (Hold : issued (S (rt_fresh st1)) (pl_leaseId e)).
    { rewrite Hf1. eapply issued_mono; [|by apply (inv_ids _ _ _ Hi cap)]. lia. }
    destruct (negb (pl_active e) && _).
    + destruct (_ || _); [exact Hi1|]. by apply grant_keeps.
    + destruct (_ && (now <? pl_expiresAt e)); [exact Hi1|].
      apply grant_keeps; [done|..].
      * destruct (_ || _); [done|]. apply issued_fresh.
      * destruct (_ || _); [done|]. by apply (fresh_distinct st1 now (h ++ ev1)).
  - apply grant_keeps; [by rewrite app_nil_r|apply issued_fresh|]. by apply (fresh_distinct st now h).
Qed.

Lemma heartbeat_keeps st now h conn id :
  inv st now h -> keeps st now h (fits (heartbeat leaseTtlMs st now conn id)).
Proof.
  intros Hi. unfold heartbeat. destruct (owner st conn id) as [l|e] eqn:Eo; [|by apply keeps_same].
  apply (owner_ok st now h) in Eo as (Hin & Hid & Ha & Hc); [|done].
  destruct (pl_expiresAt l <=? now) eqn:Ex; simpl_bool.
  - pose proof (expired_keeps st now h _ l Hi Hin Ex) as Hk. unfold keeps, fits.
    by destruct (removeDefinitions st (pl_capability l)).
  - unfold keeps, fits. simpl. rewrite app_nil_r.
    apply (set_lease_inv st now h); simpl; auto.
    + by eapply inv_ids.
    + intros c2 l2 H2 E. by apply (inv_distinct _ _ _ Hi c2 l2 _ l).
    + done.
    + intros _. by apply (inv_live _ _ _ Hi _ l).
Qed.

Lemma cancel_events (m : list (jsstring * Outstanding)) reason :
  settled_ids (m ≫= fun e => [Settled e.1 RequestCancelled; OnCancel e.1 reason]) = m.*1.
Proof. induction m as [|e m IH]; [done|]. unfold settled_ids in *. cbn. by rewrite IH. Qed.

Lemma cancel_keeps st now h conn reason :
  inv st now h -> keeps st now h (cancelForConnection st conn reason).
Proof.
  intros Hi. unfold keeps, cancelForConnection. simpl.
  apply (cancelled_inv st now h (fun e => bool_decide (ou_connectionId e.2 = conn))); [done|].
  apply cancel_events.
Qed.

Lemma removed_set_leases st c leases :
  removeDefinitions (set_leases st leases) c =
    (set_leases (removeDefinitions st c).1 leases, (removeDefinitions st c).2).
Proof. unfold removeDefinitions. simpl. by case_bool_decide. Qed.

Lemma delete_set {V} k (v : V) m : map_delete k (map_set k v m) = map_delete k m.
Proof.
  unfold map_delete. induction m as [|[k' v'] m IH]; simpl.
  - by rewrite bool_decide_eq_true_2.
  - case_bool_decide as E; simpl.
    + by rewrite bool_decide_eq_true_2.
    + rewrite bool_decide_eq_false_2 by done. simpl. by rewrite IH.
Qed.

(** A lease is made inactive, then its definitions are removed. *)
Lemma retired_inv st now h c l l' :
  inv st now h -> (c, l) ∈ rt_leases st -> pl_capability l' = c -> pl_leaseId l' = pl_leaseId l ->
  pl_graceUntil l' = None -> pl_active l' = false ->
  inv (set_leases (removeDefinitions st c).1 (map_set c l' (rt_leases st))) now (h ++ (removeDefinitions st c).2).
Proof.
  intros Hi Hin Hc Hid Hg Ha.
  assert (Hl' : ~ live now l') by (intros [? _]; congruence).
  assert (H1 : inv (set_leases st (map_set c l' (rt_leases st))) now h).
  { apply (set_lease_inv st now h); auto.
    - rewrite Hid. by eapply inv_ids.
    - intros c2 l2 H2 E. apply (inv_distinct _ _ _ Hi c2 l2 c l); [done..|]. congruence.
    - congruence.
    - done. }
  apply (removed_inv _ now h c) in H1.
  - by rewrite removed_set_leases in H1.
  - intros l0 H0. apply map_set_In_NoDup in H0 as [E|[_ Hne]]; [|done|exact (inv_keys _ _ _ Hi)].
    by injection E as ->.
Qed.

Lemma release_keeps st now h conn id next :
  inv st now h -> keeps st now h (fits (release st now conn id next)).
Proof.
  intros Hi. unfold release. destruct (owner st conn id) as [l|e] eqn:Eo; [|by apply keeps_same].
  apply (owner_ok st now h) in Eo as (Hin & Hid & Ha & Hc); [|done].
  pose proof (cancel_keeps st now h conn LeaseReleased Hi) as H1. unfold keeps in H1.
  assert (Hl1 : rt_leases (cancelForConnection st conn LeaseReleased).1 = rt_leases st) by done.
  destruct (cancelForConnection st conn LeaseReleased) as [st1 ev1]. simpl in H1, Hl1.
  rewrite <- Hl1 in Hin.
  assert (Hgo : forall l', pl_capability l' = pl_capability l -> pl_leaseId l' = pl_leaseId l ->
    pl_graceUntil l' = None -> pl_active l' = false ->
    inv (set_leases (removeDefinitions st1 (pl_capability l)).1
           (map_set (pl_capability l) l' (rt_leases (removeDefinitions st1 (pl_capability l)).1)))
        now (h ++ ev1 ++ (removeDefinitions st1 (pl_capability l)).2)).
  { intros l' E1 E2 E3 E4. destruct (removed_fields st1 (pl_capability l)) as (-> & _). rewrite app_assoc.
    by apply (retired_inv st1 now (h ++ ev1) _ l). }
  pose proof (removed_not_installed st1 (pl_capability l)) as Hni.
  destruct (removeDefinitions st1 (pl_capability l)) as [st2 ev2]. simpl in *.
  destruct (next ≫= _) as [nx|]; unfold keeps, fits; simpl; [by apply Hgo|].
  specialize (Hgo (PLease (pl_obj l) (pl_leaseId l) (pl_connectionId l) (pl_capability l) (pl_definitions l)
                     0 None false) eq_refl eq_refl eq_refl eq_refl).
  apply (delete_lease_inv _ now _ (pl_capability l)) in Hgo; [|done].
  simpl in Hgo. by rewrite delete_set in Hgo.
Qed.

Lemma remove_all_keeps caps st now h :
  inv st now h -> (forall c l, c ∈ caps -> (c, l) ∈ rt_leases st -> ~ live now l) ->
  keeps st now h (remove_all st caps) /\ rt_leases (remove_all st caps).1 = rt_leases st.
Proof.
  revert st h. induction caps as [|c caps IH]; intros st h Hi Hc; [split; [by apply keeps_same|done]|].
  cbn [remove_all]. pose proof (removed_inv st now h c Hi) as H1.
  destruct (removed_fields st c) as (Hl & _).
  destruct (removeDefinitions st c) as [st1 ev1]. simpl in H1, Hl.
  assert (Hi1 : inv st1 now (h ++ ev1)) by (apply H1; intros l; apply Hc; set_solver).
  destruct (IH st1 (h ++ ev1) Hi1) as [H2 Hl2].
  { intros c' l Hc' Hin. rewrite Hl in Hin. apply (Hc c'); set_solver. }
  destruct (remove_all st1 caps) as [st2 ev2]. unfold keeps in *. simpl in *.
  split; [by rewrite app_assoc|congruence].
Qed.

Lemma sweep_keeps st now h : inv st now h -> keeps st now h (expireStaleLeases st now).
Proof.
  intros Hi. apply remove_all_keeps; [done|]. intros c l Hc Hin.
  apply list_elem_of_omap in Hc as (l' & Hl' & E). destruct (pl_expiresAt l' <=? now) eqn:Ex; [|done].
  simpl_bool. injection E as <-. apply list_elem_of_fmap in Hl' as ([c' l0] & -> & Hin'). simpl in *.
  rewrite (inv_caps _ _ _ Hi c' l0 Hin') in Hin.
  rewrite <- (unique_lease st now h c' l0 l Hi Hin' Hin). by apply not_live_expired.
Qed.

Lemma disconnected_fields now conn l :
  pl_capability (disconnected now conn l) = pl_capability l /\ pl_leaseId (disconnected now conn l) = pl_leaseId l /\
  pl_active (disconnected now conn l) = pl_active l /\
  (pl_connectionId l = conn -> pl_expiresAt (disconnected now conn l) = now) /\
  (pl_connectionId l <> conn -> disconnected now conn l = l).
Proof. unfold disconnected. by case_bool_decide. Qed.

Lemma disconnect_leases_inv st now h conn :
  inv st now h -> inv (set_leases st (prod_map id (disconnected now conn) <$> rt_leases st)) now h.
Proof.
  intros Hi.
  assert (Hk : (prod_map id (disconnected now conn) <$> rt_leases st).*1 = (rt_leases st).*1).
  { rewrite <- list_fmap_compose. apply list_fmap_ext. by intros ? [c l] _. }
  assert (Hin : forall c l, (c, l) ∈ prod_map id (disconnected now conn) <$> rt_leases st ->
            exists l0, (c, l0) ∈ rt_leases st /\ l = disconnected now conn l0).
  { intros c l H. apply list_elem_of_fmap in H as ([c0 l0] & [= -> ->] & H). eauto. }
  destruct Hi. constructor; simpl; rewrite ?Hk; auto.
  - intros c l (l0 & H & ->)%Hin. destruct (disconnected_fields now conn l0) as (-> & _). eauto.
  - intros c l (l0 & H & ->)%Hin. destruct (disconnected_fields now conn l0) as (_ & -> & _). eauto.
  - intros c1 l1 c2 l2 (k1 & H1 & ->)%Hin (k2 & H2 & ->)%Hin.
    destruct (disconnected_fields now conn k1) as (_ & -> & _), (disconnected_fields now conn k2) as (_ & -> & _). eauto.
  - intros c l g (l0 & H & ->)%Hin. destruct (disconnected_fields now conn l0) as (_ & _ & _ & He & Hs).
    destruct (decide (pl_connectionId l0 = conn)) as [E|E]; [rewrite (He E); lia|rewrite (Hs E); eauto].
  - intros c l (l0 & H & ->)%Hin [Ha Hl]. destruct (disconnected_fields now conn l0) as (_ & _ & _ & He & Hs).
    destruct (decide (pl_connectionId l0 = conn)) as [E|E]; [rewrite (He E) in Hl; lia|].
    rewrite (Hs E) in Ha, Hl. apply (inv_live0 c l0); [done|]. done.
Qed.

Lemma disconnect_keeps st now h conn : inv st now h -> keeps st now h (disconnect st now conn).
Proof.
  intros Hi. unfold disconnect. pose proof (disconnect_leases_inv st now h conn Hi) as H1.
  set (st1 := set_leases st _) in *. set (mine := omap _ _).
  destruct (remove_all_keeps mine st1 now h H1) as [H2 _].
  { intros c l Hc Hin [_ Hl]. subst mine. apply list_elem_of_omap in Hc as (l' & Hl' & E).
    case_bool_decide as Econn; [|done]. injection E as E.
    apply list_elem_of_fmap in Hl' as ([c' l0] & -> & Hin'). simpl in *.
    rewrite (inv_caps _ _ _ Hi c' l0 Hin') in E. subst c'.
    assert (Hd : (c, disconnected now conn l0) ∈ rt_leases st1)
      by (subst st1; simpl; apply list_elem_of_fmap; by exists (c, l0)).
    rewrite (unique_lease st1 now h c _ _ H1 Hin Hd) in Hl.
    destruct (disconnected_fields now conn l0) as (_ & _ & _ & He & _). rewrite (He Econn) in Hl. lia. }
  unfold keeps in H2. destruct (remove_all st1 mine) as [st2 ev2]. simpl in H2.
  pose proof (cancel_keeps st2 now (h ++ ev2) conn ProviderDisconnected H2) as H3. unfold keeps in H3 |- *.
  destruct (cancelForConnection st2 conn ProviderDisconnected) as [st3 ev3]. simpl in *. by rewrite app_assoc.
Qed.

(** Looking a lease up. *)
Lemma live_lease_keeps st now h c :
  inv st now h ->
  inv (liveLease st now c).1.1 now (h ++ (liveLease st now c).2) /\
  rt_leases (liveLease st now c).1.1 = rt_leases st /\
  (forall l, (liveLease st now c).1.2 = Some l -> (c, l) ∈ rt_leases st /\ live now l).
Proof.
  intros Hi. unfold liveLease. destruct (map_get c (rt_leases st)) as [l|] eqn:E; simpl;
    [|rewrite app_nil_r; done].
  apply map_get_In in E. destruct (negb (pl_active l) || (pl_expiresAt l <=? now)) eqn:Ed.
  - destruct (pl_expiresAt l <=? now) eqn:Ex; simpl; [|by rewrite app_nil_r].
    simpl_bool. pose proof (expired_keeps st now h c l Hi E Ex) as Hk. destruct (removed_fields st c) as (Hl & _).
    by destruct (removeDefinitions st c).
  - simpl. rewrite app_nil_r. simpl_bool. split; [done|]. split; [done|]. intros l' [= <-].
    done.
Qed.

Lemma forget_keeps st now h id out o ev :
  inv st now h -> map_get id (rt_outstanding st) = Some out ->
  settled_ids ev = [id] -> o = set_outstanding st (map_delete id (rt_outstanding st)) ->
  inv o now (h ++ ev).
Proof.
  intros Hi Hg Hev ->.
  apply (cancelled_inv st now h (fun e => bool_decide (e.1 = id)) ev Hi). rewrite Hev. symmetry.
  apply (only_key id out); [|done]. pose proof (inv_requests _ _ _ Hi) as Hr. by apply NoDup_app in Hr as [? _].
Qed.

Lemma request_keeps st now h cap method payload signal aborted sent :
  inv st now h -> keeps st now h (fits (request uuid st now cap method payload signal aborted sent)).
Proof.
  intros Hi. unfold request. rewrite (inv_disposing _ _ _ Hi).
  destruct (payload_fits payload); [|by apply keeps_same]. cbn [negb].
  destruct (live_lease_keeps st now h cap Hi) as (H1 & Hl1 & Hlive).
  destruct (liveLease st now cap) as [[st1 lease] ev1]. cbn [fst snd] in *. destruct lease as [l|].
  2: { destruct (map_get cap (rt_leases st1)) as [r|]; [|exact H1]. by destruct (_ && _). }
  destruct (signal && aborted); [exact H1|].
  destruct (MAX_REVERSE_OUTSTANDING <=? length (rt_outstanding st1))%nat eqn:Eb; [exact H1|].
  apply Nat.leb_gt in Eb. unfold keeps, fits. set (id := uuid (rt_fresh st1)).
  assert (Hnew : id ∉ (rt_outstanding st1).*1 ++ settled_ids (h ++ ev1)).
  { intros Hin. pose proof (inv_request_ids _ _ _ H1) as Hall. rewrite Forall_forall in Hall.
    apply Hall in Hin as (n & Hn & E). apply uuid_unique in E. lia. }
  assert (Hmono : forall x, issued (rt_fresh st1) x -> issued (S (rt_fresh st1)) x)
    by (intros; eapply issued_mono; [|done]; lia).
  assert (Hnewid : issued (S (rt_fresh st1)) id) by apply issued_fresh.
  destruct sent; simpl; rewrite app_assoc.
  - apply inv_quiet with (ev := []) in H1; [|done]. rewrite app_nil_r in H1.
    assert (Hkeys : (map_set id (Outst (pl_connectionId l) cap (pl_leaseId l) signal) (rt_outstanding st1)).*1
              = (rt_outstanding st1).*1 ++ [id]).
    { rewrite map_set_keys. apply decide_False. set_solver. }
    assert (Hset : settled_ids ((h ++ ev1) ++ [Sent (pl_connectionId l)
        (ReverseRequest id cap (pl_connectionId l) (pl_leaseId l) method payload)]) = settled_ids (h ++ ev1))
      by (rewrite settled_app; apply app_nil_r).
    destruct H1. constructor; simpl; rewrite ?Hset, ?Hkeys; auto.
    + eauto.
    + rewrite <- app_assoc. simpl. rewrite <- Permutation_middle. by apply NoDup_cons.
    + rewrite <- app_assoc. simpl. rewrite <- Permutation_middle. constructor; [done|].
      eapply Forall_impl; [exact inv_request_ids0|]. done.
    + apply (f_equal length) in Hkeys. rewrite length_app, !length_fmap in Hkeys. simpl in Hkeys. lia.
    + intros id' out Hin. apply map_set_In_NoDup in Hin as [E|[Hin _]].
      * injection E as -> ->. exists method, payload. set_solver.
      * destruct (inv_sent0 id' out Hin) as (m & q & ?). exists m, q. set_solver.
      * by apply NoDup_app in inv_requests0 as [? _].
  - assert (Hset : settled_ids ((h ++ ev1) ++ [Settled id DeliveryFailed]) = settled_ids (h ++ ev1) ++ [id])
      by (by rewrite settled_app).
    destruct H1. constructor; simpl; rewrite ?Hset; auto.
    + eauto.
    + rewrite app_assoc. apply NoDup_app. split; [done|]. split; [set_solver|]. apply NoDup_singleton.
    + rewrite app_assoc. apply Forall_app. split; [|by constructor].
      eapply Forall_impl; [exact inv_request_ids0|]. done.
    + intros id' out Hin. destruct (inv_sent0 id' out Hin) as (m & q & ?). exists m, q. set_solver.
Qed.

Lemma abort_keeps st now h id : inv st now h -> keeps st now h (onAbort st id).
Proof.
  intros Hi. unfold onAbort. destruct (map_get id (rt_outstanding st)) as [out|] eqn:E; [|by apply keeps_same].
  destruct (ou_signal out); [|by apply keeps_same]. by eapply (forget_keeps st now h id out).
Qed.

Lemma delivery_keeps st now h id : inv st now h -> keeps st now h (delivery_failed st id).
Proof.
  intros Hi. unfold delivery_failed. destruct (map_get id (rt_outstanding st)) as [out|] eqn:E; [|by apply keeps_same].
  by eapply (forget_keeps st now h id out).
Qed.

Lemma respond_keeps st now h conn id lease res err :
  inv st now h -> keeps st now h (fits (respond st conn id lease res err)).
Proof.
  intros Hi. unfold respond. destruct (payload_fits res); [|by apply keeps_same]. simpl.
  destruct (map_get id (rt_outstanding st)) as [out|] eqn:E; [|by apply keeps_same].
  destruct (_ || _); [by apply keeps_same|]. by eapply (forget_keeps st now h id out).
Qed.

Lemma removed_events_quiet caps : settled_ids (DefinitionsRemoved <$> caps) = [].
Proof. by induction caps. Qed.

Lemma dispose_keeps st now h : inv st now h -> keeps st now h (dispose st).
Proof.
  intros Hi. unfold dispose. rewrite (inv_disposing _ _ _ Hi). unfold keeps. cbn [fst snd].
  set (ev := (rt_outstanding st ≫= fun e => [Settled e.1 RequestCancelled; OnCancel e.1 LeaseReleased])
               ++ (DefinitionsRemoved <$> rt_installed st)).
  assert (Hev : settled_ids ev = (rt_outstanding st).*1)
    by (unfold ev; rewrite settled_app, cancel_events, removed_events_quiet; apply app_nil_r).
  assert (Hp : settled_ids (h ++ ev) ≡ₚ (rt_outstanding st).*1 ++ settled_ids h)
    by (rewrite settled_app, Hev; apply Permutation_app_comm).
  apply inv_empty; rewrite Hp; [apply (inv_requests _ _ _ Hi)|apply (inv_request_ids _ _ _ Hi)].
Qed.

(** ** Runs *)

Inductive call :=
| Register (connectionId capability : jsstring) (definitions : json) (expected key : option jsstring)
| Heartbeat (connectionId leaseId : jsstring)
| Release (connectionId leaseId : jsstring) (handoffTo : option jsstring)
| Disconnect (connectionId : jsstring)
| Request (capability method : jsstring) (payload : option json) (signal aborted sent : bool)
| Abort (id : jsstring)
| Undelivered (id : jsstring)
| Respond (connectionId id leaseId : jsstring) (result : option json) (error : option (jsstring * jsstring))
| Sweep
| Lookup (capability : jsstring)
| DisposeAll.

Definition exec (st : runtime) (now : Z) (c : call) : runtime * list event :=
  match c with
  | Register conn cap defs expected key =>
      fits (registerProvider locale_leb sha256 uuid install_ok leaseTtlMs st now conn cap defs expected key)
  | Heartbeat conn id => fits (heartbeat leaseTtlMs st now conn id)
  | Release conn id next => fits (release st now conn id next)
  | Disconnect conn => disconnect st now conn
  | Request cap method payload signal aborted sent =>
      fits (request uuid st now cap method payload signal aborted sent)
  | Abort id => onAbort st id
  | Undelivered id => delivery_failed st id
  | Respond conn id lease res err => fits (respond st conn id lease res err)
  | Sweep => expireStaleLeases st now
  | Lookup cap => let '(st', _, ev) := getLease st now cap in (st', ev)
  | DisposeAll => dispose st
  end.

(** [reach st now h]: the runtime is in [st] at [now], after the events [h]. *)
Inductive reach : runtime -> Z -> list event -> Prop :=
| reach_new now : reach rt_new now []
| reach_call st now h now' c :
    reach st now h -> now <= now' -> reach (exec st now' c).1 now' (h ++ (exec st now' c).2).

Lemma exec_keeps st now h c : inv st now h -> inv (exec st now c).1 now (h ++ (exec st now c).2).
Proof.
  intros Hi. destruct c; cbn [exec].
  - by apply register_keeps.
  - by apply heartbeat_keeps.
  - by apply release_keeps.
  - by apply disconnect_keeps.
  - by apply request_keeps.
  - by apply abort_keeps.
  - by apply delivery_keeps.
  - by apply respond_keeps.
  - by apply sweep_keeps.
  - destruct (live_lease_keeps st now h capability Hi) as (H & _). unfold getLease.
    by destruct (liveLease st now capability) as [[]].
  - by apply dispose_keeps.
Qed.

Lemma reach_inv st now h : reach st now h -> inv st now h.
Proof.
  induction 1 as [now|st now h now' c Hr IH Hle]; [apply inv_init|].
  apply exec_keeps. by eapply inv_later.
Qed.

(** ** A live lease is its holder's *)

Lemma map_get_fmap {V} (f : V -> V) k (m : list (jsstring * V)) :
  map_get k (prod_map id f <$> m) = f <$> map_get k m.
Proof. induction m as [|[k' v] m IH]; [done|]. simpl. by case_bool_decide. Qed.

Definition same_books (st st' : runtime) : Prop :=
  rt_leases st' = rt_leases st /\ rt_idempotency st' = rt_idempotency st /\ rt_fresh st' = rt_fresh st.

Lemma removed_books st c : same_books st (removeDefinitions st c).1.
Proof. by destruct (removed_fields st c) as (? & _ & ? & _ & ? & _). Qed.

Lemma remove_all_books caps st : same_books st (remove_all st caps).1.
Proof.
  revert st. induction caps as [|c caps IH]; intros st; [done|]. cbn [remove_all].
  pose proof (removed_books st c) as H1. destruct (removeDefinitions st c) as [st1 ev1].
  specialize (IH st1). destruct (remove_all st1 caps) as [st2 ev2]. simpl in *.
  unfold same_books in *. intuition congruence.
Qed.

Lemma liveLease_books st now c : same_books st (liveLease st now c).1.1.
Proof.
  unfold liveLease. destruct (map_get c (rt_leases st)); [|done]. pose proof (removed_books st c) as H.
  destruct (removeDefinitions st c). by repeat case_match.
Qed.

(** The calls that do not touch leases. *)
Lemma exec_leases st now c :
  match c with
  | Register _ _ _ _ _ | Heartbeat _ _ | Release _ _ _ | Disconnect _ | DisposeAll => True
  | _ => rt_leases (exec st now c).1 = rt_leases st
  end.
Proof.
  destruct c; try done; cbn [exec].
  - unfold fits, request. repeat case_match; simplify_eq/=; try done;
      match goal with H : liveLease st now ?c = _ |- _ =>
        pose proof (proj1 (liveLease_books st now c)) as Hl; rewrite H in Hl; exact Hl end.
  - unfold onAbort. by repeat case_match.
  - unfold delivery_failed. by repeat case_match.
  - unfold fits, respond. by repeat case_match.
  - apply remove_all_books.
  - unfold getLease. pose proof (proj1 (liveLease_books st now capability)) as Hl.
    by destruct (liveLease st now capability) as [[]].
Qed.

Definition same_holder (now : Z) (l l' : ProviderLease) : Prop :=
  pl_leaseId l' = pl_leaseId l /\ pl_connectionId l' = pl_connectionId l /\ live now l'.

Lemma grant_leases st ev now conn cap defs id fresh key fp :
  rt_leases (grant install_ok leaseTtlMs st ev now conn cap defs id fresh key fp).1.1 = rt_leases st \/
  rt_leases (grant install_ok leaseTtlMs st ev now conn cap defs id fresh key fp).1.1 =
    map_set cap (PLease fresh id conn cap defs (now + leaseTtlMs) None true) (rt_leases st).
Proof. unfold grant. destruct (install_ok cap defs); [by right|by left]. Qed.

(** *** Replays *)

(** An entry of the idempotency map belongs to the connection of the lease it names. *)
Record idem_inv (st : runtime) : Prop := {
  ii_obj : forall c l, (c, l) ∈ rt_leases st -> (pl_obj l < rt_fresh st)%nat;
  ii_entry : forall k fp obj, (k, (fp, obj)) ∈ rt_idempotency st -> (obj < rt_fresh st)%nat /\
    forall c l, (c, l) ∈ rt_leases st -> pl_obj l = obj -> pl_active l = true ->
      exists key, k = pl_connectionId l ++ 0%N :: key;
}.

(** Leases that keep their object and, while active, their connection. *)
Lemma idem_leases st st' :
  idem_inv st -> rt_idempotency st' = rt_idempotency st -> (rt_fresh st <= rt_fresh st')%nat ->
  (forall c l, (c, l) ∈ rt_leases st' -> exists c0 l0, (c0, l0) ∈ rt_leases st /\ pl_obj l = pl_obj l0 /\
     (pl_active l = true -> pl_active l0 = true /\ pl_connectionId l = pl_connectionId l0)) ->
  idem_inv st'.
Proof.
  intros [Ho He] Hid Hf Hl. constructor.
  - intros c l (c0 & l0 & H0 & -> & _)%Hl. apply Ho in H0. lia.
  - intros k fp obj. rewrite Hid. intros Hk. destruct (He k fp obj Hk) as [Hlt Hown]. split; [lia|].
    intros c l (c0 & l0 & H0 & -> & Ha)%Hl <- Hact. destruct (Ha Hact) as [Ha0 ->]. eauto.
Qed.

Lemma idem_same st st' :
  idem_inv st -> rt_idempotency st' = rt_idempotency st -> (rt_fresh st <= rt_fresh st')%nat ->
  rt_leases st' = rt_leases st -> idem_inv st'.
Proof.
  intros Hi Hid Hf Hl. eapply idem_leases; [done..|]. intros c l. rewrite Hl. intros H. exists c, l. done.
Qed.

Lemma grant_idem st now h ev conn cap defs id key kopt fp :
  inv st now h -> idem_inv st -> key = idempotency_entry conn kopt ->
  idem_inv (grant install_ok leaseTtlMs st ev now conn cap defs id (rt_fresh st) key fp).1.1.
Proof.
  intros Hi [Ho He] Hk. unfold grant. destruct (install_ok cap defs); [|by constructor].
  assert (Hnew : forall c l, (c, l) ∈ map_set cap (PLease (rt_fresh st) id conn cap defs (now + leaseTtlMs) None true)
            (rt_leases st) -> pl_obj l = rt_fresh st /\ pl_connectionId l = conn \/ (c, l) ∈ rt_leases st).
  { intros c l [E|[? _]]%map_set_In_NoDup; [|by right|apply (inv_keys _ _ _ Hi)]. injection E as -> ->. by left. }
  constructor; simpl.
  - intros c l [[-> _]|H]%Hnew; [lia|]. apply Ho in H. lia.
  - intros k fp' obj Hin.
    assert (Hold : (k, (fp', obj)) ∈ rt_idempotency st -> (obj < S (rt_fresh st))%nat /\
      forall c l, (c, l) ∈ map_set cap (PLease (rt_fresh st) id conn cap defs (now + leaseTtlMs) None true)
        (rt_leases st) -> pl_obj l = obj -> pl_active l = true -> exists key, k = pl_connectionId l ++ 0%N :: key).
    { intros H. destruct (He k fp' obj H) as [Hlt Hown]. split; [lia|].
      intros c l [[E _]|Hl]%Hnew Eo Ha; [lia|]. eauto. }
    destruct key as [k0|]; simpl in Hin; [|auto].
    apply map_set_In in Hin as [E|H]; [|auto].
    injection E as -> -> ->. split; [lia|]. intros c l [[_ Ec]|Hl]%Hnew Eo Ha; [|apply Ho in Hl; lia].
    unfold idempotency_entry in Hk. destruct kopt as [kk|]; [|done]. case_bool_decide; [done|].
    injection Hk as ->. exists kk. by rewrite Ec.
Qed.

Lemma removed_idem st c : idem_inv st -> idem_inv (removeDefinitions st c).1.
Proof.
  intros Hi. destruct (removed_fields st c) as (Hl & _ & Hid & _ & Hf & _). apply (idem_same st); [done|done|lia|done].
Qed.

(** The steps of a registration that is no replay, whichever way it goes. *)
Lemma admit_idem st now h conn cap defs expected kopt fp :
  inv st now h -> idem_inv st ->
  idem_inv (admit_provider uuid install_ok leaseTtlMs st now conn cap defs expected (idempotency_entry conn kopt) fp).1.1.
Proof.
  intros Hi Hd. unfold admit_provider. destruct (map_get cap (rt_leases st)) as [e|] eqn:Ee.
  - apply map_get_In in Ee.
    set (r := if (pl_expiresAt e <=? now) then removeDefinitions st (pl_capability e) else (st, [])).
    assert (Hr : inv r.1 now (h ++ r.2) /\ idem_inv r.1).
    { subst r. destruct (pl_expiresAt e <=? now) eqn:Ex; simpl; [|by rewrite app_nil_r].
      simpl_bool. rewrite (inv_caps _ _ _ Hi _ _ Ee). split; [by apply (expired_keeps st now h cap e)|].
      by apply removed_idem. }
    clearbody r. destruct r as [st1 ev1]. simpl in Hr. destruct Hr as [Hi1 Hd1].
    repeat case_match; try done; by eapply grant_idem.
  - by eapply grant_idem.
Qed.

Lemma books_idem st st' : idem_inv st -> same_books st st' -> idem_inv st'.
Proof. intros Hi (Hl & Hid & Hf). apply (idem_same st); [done|done|lia|done]. Qed.

Lemma release_idem st now h conn id next :
  inv st now h -> idem_inv st -> idem_inv (release st now conn id next).1.1.
Proof.
  intros Hi Hd. unfold release. destruct (owner st conn id) as [l|] eqn:Eo; [|done].
  apply (owner_ok st now h) in Eo as (Hin & _ & Ha & _); [|done].
  assert (H1 : same_books st (cancelForConnection st conn LeaseReleased).1) by done.
  destruct (cancelForConnection st conn LeaseReleased) as [st1 ev1]. simpl in H1.
  pose proof (removed_books st1 (pl_capability l)) as H2.
  destruct (removeDefinitions st1 (pl_capability l)) as [st2 ev2]. simpl in H2.
  assert (Hb : same_books st st2) by (unfold same_books in *; intuition congruence).
  destruct Hb as (Hl & Hid & Hf).
  destruct (next ≫= _) as [nx|]; simpl; (apply (idem_leases st); simpl; [done|done|lia|]); rewrite Hl.
  - intros c0 l0 [E|H]%map_set_In; [|by exists c0, l0]. injection E as -> ->. by exists (pl_capability l), l.
  - intros c0 l0 H. apply list_elem_of_In, filter_In in H as [H _]. exists c0, l0.
    split; [by apply list_elem_of_In|done].
Qed.

Lemma disconnect_idem st now conn : idem_inv st -> idem_inv (disconnect st now conn).1.
Proof.
  intros Hd. unfold disconnect.
  assert (H1 : idem_inv (set_leases st (prod_map id (disconnected now conn) <$> rt_leases st))).
  { apply (idem_leases st); simpl; [done|done|lia|]. intros c l H.
    apply list_elem_of_fmap in H as ([c0 l0] & [= -> ->] & H). exists c0, l0. split; [done|].
    unfold disconnected. by case_bool_decide. }
  set (st1 := set_leases _ _) in *. set (mine := omap _ _).
  pose proof (books_idem _ _ H1 (remove_all_books mine st1)) as H2.
  destruct (remove_all st1 mine) as [st2 ev2]. by apply (books_idem st2).
Qed.

Lemma request_idem st now cap method payload signal aborted sent :
  idem_inv st -> idem_inv (request uuid st now cap method payload signal aborted sent).1.1.
Proof.
  intros Hd. unfold request. pose proof (books_idem _ _ Hd (liveLease_books st now cap)) as H1.
  destruct (liveLease st now cap) as [[st1 lease] ev1]. cbn [fst snd] in H1.
  repeat case_match; try done; (apply (idem_same st1); simpl; [done|done|lia|done]).
Qed.

Lemma empty_idem fresh : idem_inv (Runtime [] [] [] [] false fresh).
Proof. constructor; simpl; [by intros ? ? ?%elem_of_nil|by intros ? ? ? ?%elem_of_nil]. Qed.

Lemma exec_idem st now h c : inv st now h -> idem_inv st -> idem_inv (exec st now c).1.
Proof.
  intros Hi Hd. destruct c; cbn [exec].
  - unfold fits, registerProvider. rewrite (inv_disposing _ _ _ Hi).
    destruct (replayed st now _ _ _) as [[lease|]|e]; [done| |done]. by eapply admit_idem.
  - unfold fits, heartbeat. destruct (owner st _ _) as [l|] eqn:Eo; [|done].
    apply (owner_ok st now h) in Eo as (Hin & _); [|done]. destruct (pl_expiresAt l <=? now).
    + pose proof (removed_idem st (pl_capability l) Hd). by destruct (removeDefinitions st (pl_capability l)).
    + eapply idem_leases; [done..|]. simpl. intros c0 l0 [E|Hl]%map_set_In; [|by exists c0, l0].
      injection E as -> ->. by exists (pl_capability l), l.
  - by eapply release_idem.
  - by apply disconnect_idem.
  - by apply request_idem.
  - unfold onAbort. repeat case_match; try done; by eapply idem_same.
  - unfold delivery_failed. repeat case_match; try done; by eapply idem_same.
  - unfold fits, respond. repeat case_match; try done; by eapply idem_same.
  - by eapply books_idem, remove_all_books.
  - unfold getLease. pose proof (books_idem _ _ Hd (liveLease_books st now capability)) as H.
    by destruct (liveLease st now capability) as [[]].
  - unfold dispose. rewrite (inv_disposing _ _ _ Hi). apply empty_idem.
Qed.

Lemma reach_idem st now h : reach st now h -> idem_inv st.
Proof.
  induction 1 as [now|st now h now' c Hr IH Hle]; [apply empty_idem|].
  apply (exec_idem st now' h); [|done]. eapply inv_later; [by apply reach_inv|done].
Qed.

(** *** Registering over a live lease *)

Lemma live_no_grace st now h c l : inv st now h -> (c, l) ∈ rt_leases st -> live now l -> pl_graceUntil l = None.
Proof.
  intros Hi Hin [_ Hl]. destruct (pl_graceUntil l) as [g|] eqn:E; [|done].
  pose proof (inv_grace _ _ _ Hi _ _ _ Hin E). lia.
Qed.

Lemma admit_live st now h conn cap defs expected key fp l :
  0 < leaseTtlMs -> inv st now h -> map_get cap (rt_leases st) = Some l -> live now l ->
  let r := admit_provider uuid install_ok leaseTtlMs st now conn cap defs expected key fp in
  (pl_connectionId l <> conn -> r = (st, Err ProviderLeaseConflict, [])) /\
  (pl_connectionId l = conn -> exists l', map_get cap (rt_leases r.1.1) = Some l' /\ same_holder now l l').
Proof.
  intros Ht Hi Hg Hlive. pose proof (live_no_grace st now h cap l Hi (map_get_In _ _ _ Hg) Hlive) as Hgr.
  destruct Hlive as [Ha Hl]. unfold admit_provider. rewrite Hg.
  rewrite (proj2 (Z.leb_gt _ _)) by done. rewrite Ha. cbn [negb andb].
  rewrite Hgr, andb_false_r. cbn [negb andb orb]. rewrite (proj2 (Z.ltb_lt _ _)) by done. rewrite !andb_true_r.
  split; intros Ec.
  - by rewrite bool_decide_eq_false_2.
  - rewrite bool_decide_eq_true_2 by done. cbn [negb andb].
    destruct (grant_leases st [] now conn cap defs (pl_leaseId l) (rt_fresh st) key fp) as [-> | ->].
    + exists l. by repeat split.
    + rewrite map_get_set, decide_True by done. eexists. split; [done|].
      split; [done|]. split; [done|]. split; [done|]. simpl. lia.
Qed.

(** Connection identifiers have no null character, which separates them from keys. *)
Definition plain_id (conn : jsstring) : Prop := 0%N ∉ conn.

Lemma register_live st now h conn cap defs expected key l :
  0 < leaseTtlMs -> inv st now h -> idem_inv st -> map_get cap (rt_leases st) = Some l -> live now l ->
  let r := registerProvider locale_leb sha256 uuid install_ok leaseTtlMs st now conn cap defs expected key in
  (pl_connectionId l <> conn -> r.1.1 = st /\ r.2 = [] /\
     (plain_id conn -> plain_id (pl_connectionId l) ->
        r.1.2 = Err ProviderLeaseConflict \/ r.1.2 = Err IdempotencyConflict)) /\
  (pl_connectionId l = conn -> exists l', map_get cap (rt_leases r.1.1) = Some l' /\ same_holder now l l').
Proof.
  intros Ht Hi Hd Hg Hlive. unfold registerProvider. rewrite (inv_disposing _ _ _ Hi). cbv zeta.
  set (fp := registrationFingerprint _ _ _ _ _). pose proof (admit_live st now h conn cap defs expected
    (idempotency_entry conn key) fp l Ht Hi Hg Hlive) as [H1 H2].
  unfold replayed. destruct (idempotency_entry conn key ≫= _) as [[fp' obj]|] eqn:Ek;
    [|split; [intros Hne; rewrite (H1 Hne); simpl; auto|done]].
  destruct (negb (bool_decide (fp' = fp))); [split; [simpl; auto|intros _; by exists l]|].
  rewrite Hg. destruct (bool_decide (pl_obj l = obj) && _ && _) eqn:Er;
    [|split; [intros Hne; rewrite (H1 Hne); simpl; auto|done]].
  split; [|intros _; by exists l]. intros Hne. split; [done|]. split; [done|]. intros Hp1 Hp2. exfalso.
  apply andb_prop in Er as [Er _]. apply andb_prop in Er as [Er Ha]. simpl_bool. subst obj.
  destruct (idempotency_entry conn key) as [k|] eqn:Eke; simpl in Ek; [|done].
  destruct (ii_entry st Hd k fp' (pl_obj l)) as [_ Hown]; [by apply map_get_In|].
  destruct (Hown cap l (map_get_In _ _ _ Hg) eq_refl Ha) as [key' ->].
  unfold idempotency_entry in Eke. destruct key as [kk|]; [|done]. case_bool_decide; [done|].
  injection Eke as Eke. symmetry in Eke. apply Hne.
  assert (Hcut : forall a b (x y : jsstring), 0%N ∉ a -> 0%N ∉ b -> a ++ 0%N :: x = b ++ 0%N :: y -> a = b).
  { clear. intros a. induction a as [|c a IH]; intros [|d b] x y Ha Hb; simpl; intros E; simplify_eq; try done.
    - set_solver.
    - set_solver.
    - f_equal. eapply IH; [set_solver..|done]. }
  by eapply Hcut.
Qed.

Lemma register_other st now h conn cap' defs expected key cap :
  inv st now h -> cap <> cap' ->
  map_get cap (rt_leases (registerProvider locale_leb sha256 uuid install_ok leaseTtlMs st now conn cap' defs
    expected key).1.1) = map_get cap (rt_leases st).
Proof.
  intros Hi Hne. unfold registerProvider. rewrite (inv_disposing _ _ _ Hi).
  destruct (replayed st now _ _ _) as [[lease|]|e]; [done| |done]. unfold admit_provider.
  assert (Hgr : forall st1 ev1 id key fp, rt_leases st1 = rt_leases st ->
    map_get cap (rt_leases (grant install_ok leaseTtlMs st1 ev1 now conn cap' defs id (rt_fresh st1) key fp).1.1)
      = map_get cap (rt_leases st)).
  { intros st1 ev1 id k fp Hl. destruct (grant_leases st1 ev1 now conn cap' defs id (rt_fresh st1) k fp) as [-> | ->];
      rewrite Hl; [done|]. by rewrite map_get_set, decide_False. }
  destruct (map_get cap' (rt_leases st)) as [e|]; [|by apply Hgr].
  set (r := if (pl_expiresAt e <=? now) then removeDefinitions st (pl_capability e) else (st, [])).
  assert (Hr : rt_leases r.1 = rt_leases st)
    by (subst r; destruct (pl_expiresAt e <=? now); [apply removed_books|done]).
  clearbody r. destruct r as [st1 ev1]. simpl in Hr.
  repeat case_match; simpl; try (by rewrite Hr); by apply Hgr.
Qed.

Lemma release_lease st now h conn id next cap l :
  inv st now h -> map_get cap (rt_leases st) = Some l ->
  map_get cap (rt_leases (release st now conn id next).1.1) = Some l \/
  (pl_connectionId l = conn /\ pl_leaseId l = id).
Proof.
  intros Hi Hg. unfold release. destruct (owner st conn id) as [l0|] eqn:Eo; [|by left].
  apply (owner_ok st now h) in Eo as (Hin & Hid & Ha & Hc); [|done].
  destruct (decide (cap = pl_capability l0)) as [->|Hne].
  { right. by rewrite (unique_lease st now h _ _ _ Hi (map_get_In _ _ _ Hg) Hin). }
  left. assert (H1 : rt_leases (cancelForConnection st conn LeaseReleased).1 = rt_leases st) by done.
  destruct (cancelForConnection st conn LeaseReleased) as [st1 ev1]. simpl in H1.
  pose proof (proj1 (removed_books st1 (pl_capability l0))) as H2.
  destruct (removeDefinitions st1 (pl_capability l0)) as [st2 ev2]. simpl in H2.
  destruct (next ≫= _); simpl; rewrite H2, H1.
  - by rewrite map_get_set, decide_False.
  - by rewrite map_get_delete, decide_False.
Qed.

Lemma live_lease_kept st now h cap l c :
  0 < leaseTtlMs -> inv st now h -> idem_inv st -> map_get cap (rt_leases st) = Some l -> live now l ->
  (exists l', map_get cap (rt_leases (exec st now c).1) = Some l' /\ same_holder now l l') \/
  (exists next, c = Release (pl_connectionId l) (pl_leaseId l) next) \/
  c = Disconnect (pl_connectionId l) \/ c = DisposeAll.
Proof.
  intros Ht Hi Hd Hg Hl. assert (Hsame : same_holder now l l) by (by repeat split; destruct Hl).
  pose proof (exec_leases st now c) as Hrest. destruct c; try (left; exists l; by rewrite Hrest).
  - left. cbn [exec fits fst]. destruct (decide (cap = capability)) as [<-|Hne].
    + destruct (register_live st now h connectionId cap definitions expected key l Ht Hi Hd Hg Hl) as [H1 H2].
      destruct (decide (pl_connectionId l = connectionId)) as [E|E]; [by apply H2|].
      destruct (H1 E) as (-> & _). by exists l.
    + exists l. by rewrite (register_other st now h).
  - left. cbn [exec]. unfold fits, heartbeat. destruct (owner st _ _) as [l0|] eqn:Eo; [|by exists l].
    apply (owner_ok st now h) in Eo as (Hin & Hid & Ha & Hc); [|done].
    destruct (pl_expiresAt l0 <=? now) eqn:Ex.
    + exists l. pose proof (proj1 (removed_books st (pl_capability l0))) as Hb.
      destruct (removeDefinitions st (pl_capability l0)). simpl in *. by rewrite Hb.
    + simpl. rewrite map_get_set. destruct (decide (cap = pl_capability l0)) as [->|]; [|by exists l].
      rewrite (unique_lease st now h _ _ _ Hi (map_get_In _ _ _ Hg) Hin) in *.
      eexists. split; [done|]. split; [done|]. split; [done|]. split; [done|]. simpl. lia.
  - cbn [exec fits fst]. destruct (release_lease st now h connectionId leaseId handoffTo cap l Hi Hg) as [H|[<- <-]].
    + left. by exists l.
    + right. left. eauto.
  - destruct (decide (connectionId = pl_connectionId l)) as [->|Hne]; [auto|]. left. cbn [exec]. unfold disconnect.
    set (st1 := set_leases _ _). set (mine := omap _ _). pose proof (proj1 (remove_all_books mine st1)) as Hb.
    destruct (remove_all st1 mine) as [st2 ev2]. simpl in *. rewrite Hb. subst st1. simpl. rewrite map_get_fmap, Hg.
    simpl. destruct (disconnected_fields now connectionId l) as (_ & _ & _ & _ & ->); [|congruence]. by exists l.
  - auto.
Qed.

(** ** Requests *)

Definition requested (ev : list event) (id : jsstring) : Prop :=
  exists conn cap conn' lease method payload, Sent conn (ReverseRequest id cap conn' lease method payload) ∈ ev.

(** A request under way stays so or is settled; a request that is sent is under way. *)
Definition tracks (st : runtime) (r : runtime * list event) : Prop :=
  (forall id, id ∈ (rt_outstanding st).*1 -> id ∈ (rt_outstanding r.1).*1 \/ id ∈ settled_ids r.2) /\
  (forall id, requested r.2 id -> id ∈ (rt_outstanding r.1).*1).

Definition silent (ev : list event) : Prop := forall e, e ∈ ev -> match e with Sent _ _ => False | _ => True end.

Lemma tracks_quiet st st' ev :
  rt_outstanding st' = rt_outstanding st -> silent ev -> tracks st (st', ev).
Proof.
  intros Ho Hev. split; simpl; rewrite Ho; [by left|].
  intros id (conn & cap & conn' & lease & m & p & Hin). by apply Hev in Hin.
Qed.

Lemma silent_nil : silent [].
Proof. by intros e ?%elem_of_nil. Qed.
Lemma silent_app e1 e2 : silent e1 -> silent e2 -> silent (e1 ++ e2).
Proof. intros H1 H2 e [H|H]%elem_of_app; [by apply H1|by apply H2]. Qed.
#[local] Hint Resolve silent_nil silent_app : core.

Lemma removed_silent st c : silent (removeDefinitions st c).2 /\ rt_outstanding (removeDefinitions st c).1 = rt_outstanding st.
Proof.
  unfold removeDefinitions. case_bool_decide; [|done]. split; [|done]. by intros e ->%list_elem_of_singleton.
Qed.

Lemma remove_all_silent caps st :
  silent (remove_all st caps).2 /\ rt_outstanding (remove_all st caps).1 = rt_outstanding st.
Proof.
  revert st. induction caps as [|c caps IH]; intros st; [done|]. cbn [remove_all].
  destruct (removed_silent st c) as [H1 H2]. destruct (removeDefinitions st c) as [st1 ev1].
  destruct (IH st1) as [H3 H4]. destruct (remove_all st1 caps) as [st2 ev2]. simpl in *.
  split; [auto|congruence].
Qed.

Lemma liveLease_silent st now c :
  silent (liveLease st now c).2 /\ rt_outstanding (liveLease st now c).1.1 = rt_outstanding st.
Proof.
  unfold liveLease. destruct (map_get c (rt_leases st)); [|done]. destruct (removed_silent st c).
  destruct (removeDefinitions st c). by repeat case_match.
Qed.

Lemma cancelled_tracks st conn reason :
  (forall id, id ∈ (rt_outstanding st).*1 ->
     id ∈ (rt_outstanding (cancelForConnection st conn reason).1).*1 \/
     id ∈ settled_ids (cancelForConnection st conn reason).2) /\
  silent (cancelForConnection st conn reason).2.
Proof.
  split.
  - intros id Hid. unfold cancelForConnection. cbn [fst snd set_outstanding rt_outstanding]. rewrite cancel_events.
    apply list_elem_of_fmap in Hid as (e & -> & He).
    destruct (bool_decide (ou_connectionId e.2 = conn)) eqn:E; [right|left];
      (apply (list_elem_of_fmap_2' fst _ e); [|done]); apply list_elem_of_In, filter_In;
      rewrite E; split; [by apply list_elem_of_In|done|by apply list_elem_of_In|done].
  - intros e He. simpl in He. apply list_elem_of_bind in He as (x & He & _).
    apply elem_of_cons in He as [->|He]; [done|]. by apply list_elem_of_singleton in He as ->.
Qed.

Lemma forget_tracks st id ev :
  settled_ids ev = [id] -> (forall i, ~ requested ev i) ->
  tracks st (set_outstanding st (map_delete id (rt_outstanding st)), ev).
Proof.
  intros Hev Hreq. split; [|intros i Hi; by destruct (Hreq i)]. simpl. rewrite Hev. intros i Hi.
  destruct (decide (i = id)) as [->|Hne]; [right; set_solver|]. left.
  apply list_elem_of_fmap in Hi as (e & -> & He). apply (list_elem_of_fmap_2' fst _ e); [|done].
  apply list_elem_of_In, filter_In. split; [by apply list_elem_of_In|]. by rewrite bool_decide_eq_false_2.
Qed.

Lemma silent_not_requested ev id : silent ev -> ~ requested ev id.
Proof. intros Hs (c & cap & c' & l & m & p & Hin). by apply Hs in Hin. Qed.

Lemma grant_tracks st0 st ev now conn cap defs id fresh key fp :
  rt_outstanding st = rt_outstanding st0 -> silent ev ->
  tracks st0 (fits (grant install_ok leaseTtlMs st ev now conn cap defs id fresh key fp)).
Proof.
  intros Ho Hs. unfold grant. destruct (install_ok cap defs); apply tracks_quiet; simpl; auto.
  apply silent_app; [done|]. by intros e ->%list_elem_of_singleton.
Qed.

Lemma register_tracks st now h conn cap defs expected key :
  inv st now h ->
  tracks st (fits (registerProvider locale_leb sha256 uuid install_ok leaseTtlMs st now conn cap defs expected key)).
Proof.
  intros Hi. unfold registerProvider. rewrite (inv_disposing _ _ _ Hi).
  destruct (replayed st now _ _ _) as [[lease|]|e]; [by apply tracks_quiet; auto| |by apply tracks_quiet; auto].
  unfold admit_provider. destruct (map_get cap (rt_leases st)) as [e|]; [|by apply grant_tracks].
  set (r := if (pl_expiresAt e <=? now) then removeDefinitions st (pl_capability e) else (st, [])).
  assert (Hr : silent r.2 /\ rt_outstanding r.1 = rt_outstanding st)
    by (subst r; destruct (pl_expiresAt e <=? now); [apply removed_silent|done]).
  clearbody r. destruct r as [st1 ev1]. simpl in Hr. destruct Hr as [Hs Ho].
  repeat case_match; try (by apply tracks_quiet; auto); by apply grant_tracks.
Qed.

Lemma release_tracks st now conn id next : tracks st (fits (release st now conn id next)).
Proof.
  unfold release. destruct (owner st conn id) as [l|]; [|by apply tracks_quiet; auto].
  destruct (cancelled_tracks st conn LeaseReleased) as [H1 H2].
  destruct (cancelForConnection st conn LeaseReleased) as [st1 ev1]. simpl in H1, H2.
  destruct (removed_silent st1 (pl_capability l)) as [H3 H4].
  destruct (removeDefinitions st1 (pl_capability l)) as [st2 ev2]. simpl in H3, H4.
  assert (Hout : tracks st (st2, ev1 ++ ev2)).
  { split; simpl.
    - intros i [Hi|Hi]%H1; [left; by rewrite H4|right; rewrite settled_app; set_solver].
    - intros i Hi. destruct (silent_not_requested (ev1 ++ ev2) i); auto. }
  by destruct (next ≫= _).
Qed.

Lemma disconnect_tracks st now conn : tracks st (disconnect st now conn).
Proof.
  unfold disconnect. set (st1 := set_leases _ _). set (mine := omap _ _).
  destruct (remove_all_silent mine st1) as [H1 H2]. destruct (remove_all st1 mine) as [st2 ev2]. simpl in H1, H2.
  destruct (cancelled_tracks st2 conn ProviderDisconnected) as [H3 H4].
  destruct (cancelForConnection st2 conn ProviderDisconnected) as [st3 ev3]. simpl in H3, H4. split; simpl.
  - intros i Hi. rewrite <- H2 in Hi.
    apply H3 in Hi as [?|?]; [by left|right; rewrite settled_app; set_solver].
  - intros i Hi. destruct (silent_not_requested (ev2 ++ ev3) i); auto.
Qed.

Lemma request_tracks st now cap method payload signal aborted sent :
  tracks st (fits (request uuid st now cap method payload signal aborted sent)).
Proof.
  unfold request. destruct (liveLease_silent st now cap) as [H1 H2].
  destruct (liveLease st now cap) as [[st1 lease] ev1]. cbn [fst snd] in H1, H2.
  destruct (rt_disposing st); [by apply tracks_quiet; auto|].
  destruct (negb (payload_fits payload)); [by apply tracks_quiet; auto|].
  destruct lease as [l|]; [|repeat case_match; by apply tracks_quiet; auto].
  destruct (signal && aborted); [by apply tracks_quiet; auto|].
  destruct (MAX_REVERSE_OUTSTANDING <=? _)%nat; [by apply tracks_quiet; auto|]. destruct sent.
  - split; cbn [fits fst snd rt_outstanding]; rewrite map_set_keys, H2.
    + intros i Hi. left. case_decide; set_solver.
    + intros i (c & cp & c' & ls & m & p & Hin). apply elem_of_app in Hin as [Hin|Hin]; [by apply H1 in Hin|].
      apply list_elem_of_singleton in Hin. injection Hin as <- -> _ _ _ _ _. case_decide; set_solver.
  - apply tracks_quiet; [done|]. apply silent_app; [done|]. by intros e ->%list_elem_of_singleton.
Qed.

Lemma exec_tracks st now h c : inv st now h -> tracks st (exec st now c).
Proof.
  intros Hi. destruct c; cbn [exec].
  - by apply (register_tracks st now h).
  - unfold heartbeat. destruct (owner st _ _) as [l|]; [|by apply tracks_quiet; auto]. destruct (_ <=? _).
    + destruct (removed_silent st (pl_capability l)). destruct (removeDefinitions st (pl_capability l)).
      by apply tracks_quiet; auto.
    + by apply tracks_quiet; auto.
  - apply release_tracks.
  - apply disconnect_tracks.
  - apply request_tracks.
  - unfold onAbort. destruct (map_get id _) as [out|]; [|by apply tracks_quiet; auto].
    destruct (ou_signal out); [|by apply tracks_quiet; auto]. apply forget_tracks; [done|].
    intros i (c & cp & c' & ls & m & p & Hin). set_solver.
  - unfold delivery_failed. destruct (map_get id _) as [out|]; [|by apply tracks_quiet; auto].
    apply forget_tracks; [done|]. intros i (c & cp & c' & ls & m & p & Hin). set_solver.
  - unfold respond. destruct (negb _); [by apply tracks_quiet; auto|].
    destruct (map_get id _) as [out|]; [|by apply tracks_quiet; auto]. destruct (_ || _); [by apply tracks_quiet; auto|].
    apply forget_tracks; [done|]. intros i (c & cp & c' & ls & m & p & Hin). set_solver.
  - destruct (remove_all_silent (omap (fun l => if (pl_expiresAt l <=? now) then Some (pl_capability l) else None)
       (snd <$> rt_leases st)) st). unfold expireStaleLeases. destruct (remove_all _ _). by apply tracks_quiet; auto.
  - unfold getLease. destruct (liveLease_silent st now capability).
    destruct (liveLease st now capability) as [[] ?]. by apply tracks_quiet; auto.
  - unfold dispose. rewrite (inv_disposing _ _ _ Hi). split; simpl.
    + intros i Hid. right. rewrite settled_app, cancel_events. set_solver.
    + intros i (c & cp & c' & ls & m & p & Hin). exfalso. apply elem_of_app in Hin as [Hin|Hin].
      * apply list_elem_of_bind in Hin as (x & Hin & _). set_solver.
      * apply list_elem_of_fmap in Hin as (x & Hx & _). done.
Qed.

Lemma reach_requested st now h id :
  reach st now h -> requested h id -> id ∈ (rt_outstanding st).*1 \/ id ∈ settled_ids h.
Proof.
  induction 1 as [now|st now h now' c Hr IH Hle].
  - intros (c & cp & c' & ls & m & p & Hin). by apply elem_of_nil in Hin.
  - assert (Hi : inv st now' h) by (eapply inv_later; [by apply reach_inv|done]).
    destruct (exec_tracks st now' h c Hi) as [H1 H2]. rewrite settled_app.
    intros (cn & cp & c' & ls & m & p & Hin). apply elem_of_app in Hin as [Hin|Hin].
    + destruct IH as [H|H]; [by exists cn, cp, c', ls, m, p| |right; set_solver].
      destruct (H1 id H); [by left|right; set_solver].
    + left. apply H2. by exists cn, cp, c', ls, m, p.
Qed.

Lemma register_silent st now h conn cap defs expected key :
  inv st now h ->
  silent (registerProvider locale_leb sha256 uuid install_ok leaseTtlMs st now conn cap defs expected key).2.
Proof.
  intros Hi. unfold registerProvider. rewrite (inv_disposing _ _ _ Hi).
  destruct (replayed st now _ _ _) as [[lease'|]|e]; [done| |done]. unfold admit_provider.
  assert (Hg : forall st1 ev1 i f k fp, silent ev1 ->
            silent (grant install_ok leaseTtlMs st1 ev1 now conn cap defs i f k fp).2).
  { intros st1 ev1 i f k fp Hs. unfold grant. destruct (install_ok _ _); [|done]. simpl.
    apply silent_app; [done|]. by intros e ->%list_elem_of_singleton. }
  destruct (map_get cap (rt_leases st)) as [e|]; [|by apply Hg].
  set (r := if (pl_expiresAt e <=? now) then removeDefinitions st (pl_capability e) else (st, [])).
  assert (Hr : silent r.2) by (subst r; destruct (pl_expiresAt e <=? now); [apply removed_silent|done]).
  clearbody r. destruct r as [st1 ev1]. simpl in Hr. repeat case_match; simpl; auto.
Qed.

(** Only requests and aborts send frames. *)
Lemma exec_silent st now h c :
  inv st now h ->
  match c with Request _ _ _ _ _ _ | Abort _ => True | _ => silent (exec st now c).2 end.
Proof.
  intros Hi. destruct c; cbn [exec]; try done.
  - by apply (register_silent st now h).
  - unfold fits, heartbeat. destruct (owner st _ _) as [l|]; [|done]. destruct (_ <=? _); [|done].
    pose proof (proj1 (removed_silent st (pl_capability l))). by destruct (removeDefinitions st (pl_capability l)).
  - unfold fits, release. destruct (owner st _ _) as [l|]; [|done].
    pose proof (proj2 (cancelled_tracks st connectionId LeaseReleased)) as H1.
    destruct (cancelForConnection st connectionId LeaseReleased) as [st1 ev1].
    pose proof (proj1 (removed_silent st1 (pl_capability l))) as H2.
    destruct (removeDefinitions st1 (pl_capability l)) as [st2 ev2]. simpl in H1, H2.
    destruct (handoffTo ≫= _); simpl; auto.
  - unfold disconnect. set (st1 := set_leases _ _). set (mine := omap _ _).
    pose proof (proj1 (remove_all_silent mine st1)) as H1. destruct (remove_all st1 mine) as [st2 ev2].
    pose proof (proj2 (cancelled_tracks st2 connectionId ProviderDisconnected)) as H2.
    destruct (cancelForConnection st2 connectionId ProviderDisconnected). simpl in *. auto.
  - unfold delivery_failed. case_match; [|done]. by intros e ->%list_elem_of_singleton.
  - unfold fits, respond. repeat case_match; try done; by intros e' ->%list_elem_of_singleton.
  - apply remove_all_silent.
  - unfold getLease. pose proof (proj1 (liveLease_silent st now capability)).
    by destruct (liveLease st now capability) as [[]].
  - unfold dispose. rewrite (inv_disposing _ _ _ Hi). simpl. apply silent_app.
    + intros e He. apply list_elem_of_bind in He as (x & He & _). apply elem_of_cons in He as [->|He]; [done|].
      by apply list_elem_of_singleton in He as ->.
    + intros e He. by apply list_elem_of_fmap in He as (x & -> & _).
Qed.

(** A request is sent to the holder of a live lease. *)
Lemma request_routed st now h c id cap conn conn' lease method payload :
  inv st now h ->
  Sent conn (ReverseRequest id cap conn' lease method payload) ∈ (exec st now c).2 ->
  conn' = conn /\ exists l, map_get cap (rt_leases st) = Some l /\ live now l /\ pl_connectionId l = conn /\
    pl_leaseId l = lease.
Proof.
  intros Hi Hin. pose proof (exec_silent st now h c Hi) as Hno.
  destruct c; try (by apply Hno in Hin); cbn [exec] in Hin.
  - unfold fits, request in Hin. destruct (live_lease_keeps st now h capability Hi) as (_ & _ & Hl).
    pose proof (proj1 (liveLease_silent st now capability)) as Hs.
    destruct (liveLease st now capability) as [[st1 lease'] ev1]. cbn [fst snd] in Hl, Hs.
    rewrite (inv_disposing _ _ _ Hi) in Hin. destruct (negb _); [by apply elem_of_nil in Hin|].
    destruct lease' as [l|]; [|repeat case_match; simpl in Hin; by apply Hs in Hin].
    destruct (signal && aborted); [by apply Hs in Hin|].
    destruct (MAX_REVERSE_OUTSTANDING <=? _)%nat; [by apply Hs in Hin|].
    destruct (Hl l eq_refl) as [Hlin Hlive].
    destruct sent; simpl in Hin; apply elem_of_app in Hin as [Hin|Hin]; try (by apply Hs in Hin);
      apply list_elem_of_singleton in Hin; [|done].
    injection Hin as -> -> -> -> -> _ _. split; [done|]. exists l. split; [by apply (lease_of st now h)|]. done.
  - unfold onAbort in Hin. repeat case_match; simpl in Hin; set_solver.
Qed.

(** No request to a connection is under way once it released a lease or disconnected. *)
Lemma cancelled_gone st conn reason id out :
  (id, out) ∈ rt_outstanding (cancelForConnection st conn reason).1 -> ou_connectionId out <> conn.
Proof.
  intros H. simpl in H. apply list_elem_of_In, filter_In in H as [_ H]. simpl in H. by simpl_bool.
Qed.

Lemma respond_checked st now h conn id lease res err :
  inv st now h ->
  match (respond st conn id lease res err).1.2 with
  | Ok _ => (exists cap method payload, Sent conn (ReverseRequest id cap conn lease method payload) ∈ h) /\
            id ∉ settled_ids h
  | Err _ => (respond st conn id lease res err).1.1 = st /\ (respond st conn id lease res err).2 = []
  end.
Proof.
  intros Hi. unfold respond. destruct (payload_fits res); [|done]. simpl.
  destruct (map_get id (rt_outstanding st)) as [out|] eqn:E; [|done].
  destruct (negb (bool_decide (ou_connectionId out = conn)) || _) eqn:Ec; [done|]. simpl_bool. subst.
  apply map_get_In in E. split.
  - destruct (inv_sent _ _ _ Hi id out E) as (m & p & H). eauto.
  - pose proof (inv_requests _ _ _ Hi) as Hn. apply NoDup_app in Hn as (_ & Hn & _). apply Hn.
    by apply (list_elem_of_fmap_2 fst) in E.
Qed.
End facts.

(** A live lease belongs to its holder.  In every run at non-decreasing times, while the lease
    of a capability is live, each call leaves it live with the same connection and the same
    identifier, unless it is the holder's release of it, the holder's disconnect or the disposal
    of the runtime; its definitions are installed; and a registration of the capability by another
    connection changes nothing and is refused (connection identifiers having no null character). *)
Theorem live_lease_exclusive locale_leb sha256 uuid install_ok ttl st now h now' cap l :
  (forall n m, uuid n = uuid m -> n = m) -> 0 < ttl ->
  reach locale_leb sha256 uuid install_ok ttl st now h -> now <= now' ->
  map_get cap (rt_leases st) = Some l -> live now' l ->
  cap ∈ rt_installed st /\
  (forall c,
    (exists l', map_get cap (rt_leases (exec locale_leb sha256 uuid install_ok ttl st now' c).1) = Some l' /\
       same_holder now' l l') \/
    (exists next, c = Release (pl_connectionId l) (pl_leaseId l) next) \/
    c = Disconnect (pl_connectionId l) \/ c = DisposeAll) /\
  (forall conn defs expected key, pl_connectionId l <> conn -> plain_id conn -> plain_id (pl_connectionId l) ->
    let r := registerProvider locale_leb sha256 uuid install_ok ttl st now' conn cap defs expected key in
    r.1.1 = st /\ (r.1.2 = Err ProviderLeaseConflict \/ r.1.2 = Err IdempotencyConflict)).
Proof.
  intros Hu Ht Hr Hle Hg Hl. pose proof (reach_idem _ _ _ _ _ Hu st now h Hr) as Hd.
  apply (reach_inv _ _ _ _ _ Hu) in Hr. apply (inv_later _ st now now' h) in Hr; [|done]. split; [|split].
  - apply (inv_live _ _ _ _ Hr cap l); [by apply map_get_In|done].
  - intros c. by eapply live_lease_kept.
  - intros conn defs expected key Hne Hp1 Hp2.
    destruct (register_live locale_leb sha256 uuid install_ok ttl st now' h conn cap defs expected key l Ht Hr Hd Hg Hl) as [H _].
    destruct (H Hne) as (? & _ & H2). auto.
Qed.

(** C14: Reverse calls are routed and settled soundly.  In every run, no request is settled twice,
    every request whose frame was sent is either under way or settled (never both, never lost),
    and at most 64 are under way.  A frame goes to the connection that holds a live lease of the
    capability, with the identifier of that lease.  An answer is accepted only from the connection
    and under the lease the request was sent to, and only once; a refused answer changes nothing.
    After a disconnect no request to that connection is under way. *)
Theorem reverse_calls_sound locale_leb sha256 uuid install_ok ttl st now h now' :
  (forall n m, uuid n = uuid m -> n = m) ->
  reach locale_leb sha256 uuid install_ok ttl st now h -> now <= now' ->
  (NoDup (settled_ids h) /\ (length (rt_outstanding st) <= MAX_REVERSE_OUTSTANDING)%nat /\
   (forall id, requested h id ->
      (id ∈ (rt_outstanding st).*1 /\ id ∉ settled_ids h) \/ ((id ∉ (rt_outstanding st).*1) /\ id ∈ settled_ids h))) /\
  (forall c id cap conn conn' lease method payload,
     Sent conn (ReverseRequest id cap conn' lease method payload) ∈
       (exec locale_leb sha256 uuid install_ok ttl st now' c).2 ->
     conn' = conn /\ exists l, map_get cap (rt_leases st) = Some l /\ live now' l /\
       pl_connectionId l = conn /\ pl_leaseId l = lease) /\
  (forall conn id lease res err,
     match (respond st conn id lease res err).1.2 with
     | Ok _ => (exists cap method payload, Sent conn (ReverseRequest id cap conn lease method payload) ∈ h) /\
               id ∉ settled_ids h
     | Err _ => (respond st conn id lease res err).1.1 = st /\ (respond st conn id lease res err).2 = []
     end) /\
  (forall conn id out, (id, out) ∈ rt_outstanding (disconnect st now' conn).1 -> ou_connectionId out <> conn).
Proof.
  intros Hu Hr Hle. pose proof (reach_requested locale_leb sha256 uuid install_ok ttl Hu st now h) as Hreq.
  pose proof (reach_inv _ _ _ _ _ Hu st now h Hr) as Hi. apply (inv_later _ st now now' h) in Hi; [|done].
  pose proof (inv_requests _ _ _ _ Hi) as Hn. apply NoDup_app in Hn as (_ & Hdis & Hnd). split; [|split; [|split]].
  - split; [done|]. split; [apply (inv_bound _ _ _ _ Hi)|]. intros id Hid.
    destruct (Hreq id Hr Hid) as [H|H]; [left; split; [done|by apply Hdis]|right]. split; [|done].
    intros H'. by apply (Hdis id).
  - intros c id cap conn conn' lease method payload Hin. by eapply request_routed.
  - intros conn id lease res err. by eapply respond_checked.
  - intros conn id out. unfold disconnect. destruct (remove_all _ _) as [st2 ev2].
    pose proof (cancelled_gone st2 conn ProviderDisconnected id out) as Hc.
    by destruct (cancelForConnection st2 conn ProviderDisconnected).
Qed.

(** A run: one client offers the file system, gets a request and answers it. *)
Definition test_uuid (n : nat) : jsstring := dec (N.of_nat n).

Lemma test_uuid_unique n m : test_uuid n = test_uuid m -> n = m.
Proof.
  unfold test_uuid. intros E. apply (f_equal dec_value) in E. rewrite !dec_value_dec in E. lia.
Qed.

Definition test_exec := exec str_leb id test_uuid (fun _ _ => true) 15000.
Definition test_registered : runtime * list event :=
  test_exec rt_new 0 (Register (js "a") (js "fs") JNull None None).
Definition test_requested : runtime * list event :=
  test_exec test_registered.1 10 (Request (js "fs") (js "read") None false false true).

Lemma test_reach :
  reach str_leb id test_uuid (fun _ _ => true) 15000 test_requested.1 10
    (([] ++ test_registered.2) ++ test_requested.2).
Proof. apply (reach_call _ _ _ _ _ _ 0); [|lia]. apply (reach_call _ _ _ _ _ _ 0); [|lia]. constructor. Qed.

Lemma live_lease_exclusive_witness :
  js "fs" ∈ rt_installed test_requested.1.
Proof.
  destruct (live_lease_exclusive str_leb id test_uuid (fun _ _ => true) 15000 test_requested.1 10
    (([] ++ test_registered.2) ++ test_requested.2) 20 (js "fs")
    (PLease 0 (js "0") (js "a") (js "fs") JNull 15000 None true)) as [H _].
  - exact test_uuid_unique.
  - lia.
  - exact test_reach.
  - lia.
  - vm_compute. reflexivity.
  - split; [reflexivity|]. simpl. lia.
  - exact H.
Defined.

Lemma reverse_calls_sound_witness :
  (length (rt_outstanding test_requested.1) <= MAX_REVERSE_OUTSTANDING)%nat /\
  (respond test_requested.1 (js "a") (js "1") (js "0") None None).1.2 = Ok ().
Proof.
  destruct (reverse_calls_sound str_leb id test_uuid (fun _ _ => true) 15000 test_requested.1 10
    (([] ++ test_registered.2) ++ test_requested.2) 20) as ((_ & H & _) & _).
  - exact test_uuid_unique.
  - exact test_reach.
  - lia.
  - split; [exact H|]. vm_compute. reflexivity.
Defined.

(** A provider of two capabilities that releases one loses the requests of both. *)
Example release_cancels_other_capability :
  let st1 := (test_exec test_requested.1 11 (Register (js "a") (js "ui") JNull None None)).1 in
  (release st1 12 (js "a") (js "2") None).2 =
    [Settled (js "1") RequestCancelled; OnCancel (js "1") LeaseReleased; DefinitionsRemoved (js "ui")].
Proof. vm_compute. reflexivity. Qed.

(** An answer that is expected stays accepted after the provider's lease has expired and another
    connection has taken the capability over. *)
Example expired_provider_still_answers :
  let st1 := (test_exec test_requested.1 20000 (Register (js "b") (js "fs") JNull None None)).1 in
  (respond st1 (js "a") (js "1") (js "0") None None).1.2 = Ok ().
Proof. vm_compute. reflexivity. Qed.
