(* ===== verification/SessionEntries.v ===== *)
(** * Session entries and messages (agent/src/compaction/entries.ts, messages.ts)

    A session is a list of entries, each with an identifier and the identifier of its parent;
    some entries hold a message of the conversation, the others record changes of settings.
    Message and entry types are those the compaction and the session manager share.  A message
    whose role belongs to an application is [MOther].  Arguments of tool calls are JSON
    objects, details and preserved data JSON values. *)

From S2P Require Import Prelude JsText Json.

Record Usage := mkUsage {
  us_input : Z; us_output : Z; us_cacheRead : Z; us_cacheWrite : Z; us_totalTokens : Z
}.

Inductive content_block :=
| TextBlock (text : jsstring)
| ThinkingBlock (thinking : jsstring)
| ToolCallBlock (id name : jsstring) (arguments : list (jsstring * json)) (customWireName : option jsstring)
| ImageBlock (data mimeType : jsstring)
| OtherBlock (type : jsstring).

(** [string | block[]]. *)
Inductive message_content :=
| ContentString (s : jsstring)
| ContentBlocks (blocks : list content_block).

Inductive stop_reason := StopEnd | StopLength | StopToolUse | StopError | StopAborted.

#[export] Instance stop_reason_eq_dec : EqDecision stop_reason.
Proof. solve_decision. Defined.

Record AssistantMessage := mkAssistant {
  am_content : list content_block;
  am_provider : jsstring;
  am_model : jsstring;
  am_stopReason : stop_reason;
  am_usage : option Usage
}.

Inductive AgentMessage :=
| MUser (content : message_content)
| MDeveloper (content : message_content)
| MAssistant (m : AssistantMessage)
| MToolResult (toolCallId toolName : jsstring) (content : message_content) (prunedAt : option Z)
              (isError : bool) (details : option json)
| MCustom (customType : jsstring) (content : message_content) (display : bool) (details : option json)
          (attribution : option jsstring) (timestamp : Z)
| MHook (customType : jsstring) (content : message_content)
| MBranchSummary (summary fromId : jsstring) (timestamp : Z)
| MCompactionSummary (summary : jsstring) (shortSummary : option jsstring) (tokensBefore : Z)
                     (providerItems : option (jsstring * list json)) (timestamp : Z)
| MBashExecution (command output : option jsstring)
| MOther (role : jsstring).

Definition message_role (m : AgentMessage) : jsstring :=
  match m with
  | MUser _ => js "user"
  | MDeveloper _ => js "developer"
  | MAssistant _ => js "assistant"
  | MToolResult _ _ _ _ _ _ => js "toolResult"
  | MCustom _ _ _ _ _ _ => js "custom"
  | MHook _ _ => js "hookMessage"
  | MBranchSummary _ _ _ => js "branchSummary"
  | MCompactionSummary _ _ _ _ _ => js "compactionSummary"
  | MBashExecution _ _ => js "bashExecution"
  | MOther role => role
  end.

Record CompactionData := mkCompaction {
  ce_summary : jsstring;
  ce_shortSummary : option jsstring;
  ce_firstKeptEntryId : jsstring;
  ce_tokensBefore : Z;
  ce_details : option json;
  ce_preserveData : option (list (jsstring * json));
  ce_fromExtension : bool
}.

Record TtsrInjectionRecord := mkTtsr { tr_name : jsstring; tr_lastInjectedAt : Z }.

(** A persisted fallback chain; fields may be absent in a file written by hand or by an older
    version. *)
Record ConfiguredModelChainEntry := mkChainEntry {
  mc_role : option jsstring;
  mc_entries : option (list jsstring);
  mc_origin : option jsstring;
  mc_identity : option jsstring;
  mc_explicitHead : bool;
  mc_cleared : bool
}.

Inductive entry_body :=
| EMessage (message : AgentMessage)
| EThinkingLevelChange (thinkingLevel : option jsstring)
| EModelChange (model : jsstring) (role : option jsstring)
| EServiceTierChange (serviceTier : option jsstring)
| ECompaction (c : CompactionData)
| EBranchSummary (fromId summary : jsstring)
| ECustom (customType : jsstring) (data : option json)
| ECustomMessage (customType : jsstring) (content : message_content) (display : bool)
                 (details : option json) (attribution : option jsstring)
| ELabel (targetId : jsstring) (label : option jsstring)
| ETtsrInjection (injectedRules : list jsstring) (injectedRuleRecords : list TtsrInjectionRecord)
                 (ttsrMessageCount : option Z)
| EMCPToolSelection (selectedToolNames : list jsstring) (builtin : option (list jsstring))
| EDiscoveredBuiltinToolSelection (selectedToolNames : list jsstring)
| ESessionInit (systemPrompt task : jsstring) (tools : list jsstring)
| EModeChange (mode : jsstring) (data : option (list (jsstring * json)))
| EConfiguredModelChain (chain : ConfiguredModelChainEntry)
| EOtherEntry (type : jsstring).

Record SessionEntry := mkEntry {
  se_id : jsstring;
  se_parentId : option jsstring;
  se_timestamp : jsstring;
  se_body : entry_body
}.

Definition entry_type (e : SessionEntry) : jsstring :=
  match se_body e with
  | EMessage _ => js "message"
  | EThinkingLevelChange _ => js "thinking_level_change"
  | EModelChange _ _ => js "model_change"
  | EServiceTierChange _ => js "service_tier_change"
  | ECompaction _ => js "compaction"
  | EBranchSummary _ _ => js "branch_summary"
  | ECustom _ _ => js "custom"
  | ECustomMessage _ _ _ _ _ => js "custom_message"
  | ELabel _ _ => js "label"
  | ETtsrInjection _ _ _ => js "ttsr_injection"
  | EMCPToolSelection _ _ => js "mcp_tool_selection"
  | EDiscoveredBuiltinToolSelection _ => js "discovered_builtin_tool_selection"
  | ESessionInit _ _ _ => js "session_init"
  | EModeChange _ _ => js "mode_change"
  | EConfiguredModelChain _ => js "configured_model_chain"
  | EOtherEntry type => type
  end.

Definition as_compaction (e : SessionEntry) : option CompactionData :=
  match se_body e with ECompaction c => Some c | _ => None end.
Definition is_compaction (e : SessionEntry) : bool :=
  match se_body e with ECompaction _ => true | _ => false end.

(** [new Date(timestamp).getTime()]. *)
Class Clock := getTime : jsstring -> Z.

Section messages.
Context `{Clock}.

Definition createBranchSummaryMessage (summary fromId timestamp : jsstring) : AgentMessage :=
  MBranchSummary summary fromId (getTime timestamp).

Definition createCompactionSummaryMessage (summary : jsstring) (tokensBefore : Z) (timestamp : jsstring)
    (shortSummary : option jsstring) (providerItems : option (jsstring * list json)) : AgentMessage :=
  MCompactionSummary summary shortSummary tokensBefore providerItems (getTime timestamp).

Definition createCustomMessage (customType : jsstring) (content : message_content) (display : bool)
    (details : option json) (timestamp : jsstring) (attribution : option jsstring) : AgentMessage :=
  MCustom customType content display details attribution (getTime timestamp).

Definition getMessageFromEntry (e : SessionEntry) : option AgentMessage :=
  match se_body e with
  | EMessage m => Some m
  | ECustomMessage customType content display details attribution =>
      Some (createCustomMessage customType content display details (se_timestamp e) attribution)
  | EBranchSummary fromId summary => Some (createBranchSummaryMessage summary fromId (se_timestamp e))
  | _ => None
  end.
End messages.

(** ** File operations (agent/src/compaction/utils.ts)

    A [Set] keeps its elements in the order of insertion. *)

Record FileOperations := mkFileOps {
  fo_read : list jsstring; fo_written : list jsstring; fo_edited : list jsstring
}.

Definition createFileOps : FileOperations := mkFileOps [] [] [].

Definition set_add (x : jsstring) (s : list jsstring) : list jsstring :=
  if bool_decide (x ∈ s) then s else s ++ [x].

Definition add_read p f := mkFileOps (set_add p (fo_read f)) (fo_written f) (fo_edited f).
Definition add_written p f := mkFileOps (fo_read f) (set_add p (fo_written f)) (fo_edited f).
Definition add_edited p f := mkFileOps (fo_read f) (fo_written f) (set_add p (fo_edited f)).

Definition extract_block (fileOps : FileOperations) (block : content_block) : FileOperations :=
  match block with
  | ToolCallBlock _ name args _ =>
      match lookup_field (js "path") args with
      | Some (JStr path) =>
          if bool_decide (path = []) then fileOps
          else if bool_decide (name = js "read") then add_read path fileOps
          else if bool_decide (name = js "write") then add_written path fileOps
          else if bool_decide (name = js "edit") then add_edited path fileOps
          else fileOps
      | _ => fileOps
      end
  | _ => fileOps
  end.

Definition extractFileOpsFromMessage (fileOps : FileOperations) (m : AgentMessage) : FileOperations :=
  match m with MAssistant a => foldl extract_block fileOps (am_content a) | _ => fileOps end.

Definition computeFileLists (fileOps : FileOperations) : list jsstring * list jsstring :=
  let modified := foldl (fun s x => set_add x s) [] (fo_edited fileOps ++ fo_written fileOps) in
  (sort_by str_leb (List.filter (fun f => negb (bool_decide (f ∈ modified))) (fo_read fileOps)),
   sort_by str_leb modified).

Definition FILE_OPERATION_SUMMARY_LIMIT : nat := 20.

Definition truncateFileList (files : list jsstring) : list jsstring :=
  if (length files <=? FILE_OPERATION_SUMMARY_LIMIT)%nat then files
  else
    let omitted := (length files - FILE_OPERATION_SUMMARY_LIMIT)%nat in
    take FILE_OPERATION_SUMMARY_LIMIT files
      ++ [8230%N :: js " (" ++ num_to_string (Z.of_nat omitted) ++ js " more files omitted)"].

Definition TOOL_RESULT_MAX_CHARS : nat := 2000.

Definition truncateForSummary (text : jsstring) (maxChars : nat) : jsstring :=
  if (length text <=? maxChars)%nat then text
  else
    take maxChars text ++ [LF; LF] ++ js "[... "
      ++ num_to_string (Z.of_nat (length text - maxChars)) ++ js " more characters truncated]".

(** The text of a conversation, for the summarising model. *)
Definition block_text (b : content_block) : option jsstring :=
  match b with TextBlock t => Some t | _ => None end.
Definition block_thinking (b : content_block) : option jsstring :=
  match b with ThinkingBlock t => Some t | _ => None end.
Definition block_call (b : content_block) : option jsstring :=
  match b with
  | ToolCallBlock _ name args _ =>
      Some (name ++ js "("
            ++ join (js ", ") ((fun kv => kv.1 ++ js "=" ++ print_json kv.2) <$> args) ++ js ")")
  | _ => None
  end.

Definition content_text (c : message_content) : jsstring :=
  match c with
  | ContentString s => s
  | ContentBlocks blocks => mjoin (omap block_text blocks)
  end.

Definition labelled (label : jsstring) (sep : jsstring) (parts : list jsstring) : list jsstring :=
  match parts with [] => [] | _ => [label ++ join sep parts] end.

Definition serialize_message (m : AgentMessage) : list jsstring :=
  match m with
  | MUser content =>
      let text := content_text content in
      if bool_decide (text = []) then [] else [js "[User]: " ++ text]
  | MAssistant a =>
      labelled (js "[Assistant thinking]: ") [LF] (omap block_thinking (am_content a))
        ++ labelled (js "[Assistant]: ") [LF] (omap block_text (am_content a))
        ++ labelled (js "[Assistant tool calls]: ") (js "; ") (omap block_call (am_content a))
  | MToolResult _ _ content _ _ _ =>
      let text := content_text content in
      if bool_decide (text = []) then []
      else [js "[Tool result]: " ++ truncateForSummary text TOOL_RESULT_MAX_CHARS]
  | _ => []
  end.

Definition serializeConversation (messages : list AgentMessage) : jsstring :=
  join [LF; LF] (messages ≫= serialize_message).
