(* ===== verification/Compaction.v ===== *)
(** * Context compaction (agent/src/compaction/compaction.ts)

    When the context nears the model's window, older messages are summarised and dropped and the
    recent ones kept.  This file has the decision (thresholds and emergency limits), the
    estimate of tokens with its cache, the choice of the cut, the preparation of a compaction,
    and the bound on the text a summary is made of.  Token counts are integers; the factors 0.15,
    0.3, 0.6 and the like are taken exactly. *)

From Stdlib Require Import QArith Qround Qminmax.
From S2P Require Import Prelude JsText Json SessionEntries.
Local Open Scope Z_scope.

(** A number that may be infinite or not a number. *)
Inductive numeric (A : Type) := Finite (a : A) | NonFinite.
Arguments Finite {A} _.
Arguments NonFinite {A}.

Inductive Strategy := ContextFull | Handoff | StrategyOff.

#[export] Instance Strategy_eq_dec : EqDecision Strategy.
Proof. solve_decision. Defined.

Record CompactionSettings := mkSettings {
  cs_enabled : bool;
  cs_strategy : option Strategy;
  cs_thresholdPercent : option (numeric Q);
  cs_thresholdTokens : option (numeric Z);
  cs_reserveTokens : Z;
  cs_keepRecentTokens : Z;
  cs_autoContinue : option bool;
  cs_remoteEnabled : option bool;
  cs_remoteEndpoint : option jsstring
}.

Definition DEFAULT_COMPACTION_SETTINGS : CompactionSettings :=
  mkSettings true (Some ContextFull) (Some (Finite (-1 # 1)%Q)) (Some (Finite (-1))) 16384 20000
    (Some true) (Some true) None.

(** ** Usage the provider reported *)

Definition calculateContextTokens (u : Usage) : Z :=
  if us_totalTokens u =? 0 then us_input u + us_output u + us_cacheRead u + us_cacheWrite u
  else us_totalTokens u.

Definition calculatePromptTokens (u : Usage) : Z :=
  let promptTokens := us_input u + us_cacheRead u + us_cacheWrite u in
  if 0 <? promptTokens then promptTokens else calculateContextTokens u.

Definition getAssistantUsage (m : AgentMessage) : option Usage :=
  match m with
  | MAssistant a =>
      if bool_decide (am_stopReason a = StopAborted) || bool_decide (am_stopReason a = StopError)
      then None else am_usage a
  | _ => None
  end.

Definition entry_usage (e : SessionEntry) : option Usage :=
  match se_body e with EMessage m => getAssistantUsage m | _ => None end.

Definition getLastAssistantUsage (entries : list SessionEntry) : option Usage :=
  head (omap entry_usage (rev entries)).

(** ** Thresholds *)

Definition effectiveReserveTokens (contextWindow : Z) (settings : CompactionSettings) (maxOutputTokens : Z) : Z :=
  Z.max (Z.max (contextWindow * 15 / 100) (cs_reserveTokens settings)) (Z.max 0 maxOutputTokens).

(** The threshold by percentage, or the window less the reserve. *)
Definition percentThreshold (contextWindow : Z) (settings : CompactionSettings) (maxOutputTokens : Z) : Z :=
  let default := contextWindow - effectiveReserveTokens contextWindow settings maxOutputTokens in
  match cs_thresholdPercent settings with
  | Some (Finite p) =>
      if Qle_bool p 0 then default else Qfloor (inject_Z contextWindow * (Qmin 99 (Qmax 1 p) / 100))
  | _ => default
  end.

Definition resolveThresholdTokens (contextWindow : Z) (settings : CompactionSettings) (maxOutputTokens : Z) : Z :=
  match cs_thresholdTokens settings with
  | Some (Finite t) =>
      if 0 <? t then Z.min (contextWindow - 1) (Z.max 1 t)
      else percentThreshold contextWindow settings maxOutputTokens
  | _ => percentThreshold contextWindow settings maxOutputTokens
  end.

Definition shouldCompact (contextTokens contextWindow : Z) (settings : CompactionSettings) (maxOutputTokens : Z) : bool :=
  if negb (cs_enabled settings) || bool_decide (cs_strategy settings = Some StrategyOff) || (contextWindow <=? 0)
  then false
  else resolveThresholdTokens contextWindow settings maxOutputTokens <? contextTokens.

(** ** Emergency limits *)

Inductive CompactionTriggerReason :=
| TriggerToken | TriggerHeap | TriggerRetainedMemory | TriggerProviderBytes | TriggerMessageCount | TriggerImageBytes.

Record EmergencyCompactionSample := mkSample {
  sa_heapUsedBytes : Z;
  sa_providerBytes : Z;
  sa_messageCount : Z;
  sa_imageBytes : Z;
  sa_sessionResidentImageBytes : option Z;
  sa_materializedResidentBytes : option Z;
  sa_tuiChatChildren : option Z;
  sa_tuiCachedRenderBytes : option Z
}.

Record EmergencyCompactionLimits := mkLimits {
  li_heapUsedBytes : Z;
  li_providerBytes : Z;
  li_messageCount : Z;
  li_imageBytes : Z;
  li_retainedMemoryBytes : option Z;
  li_retainedMemoryDiagnosticBytes : option Z;
  li_tuiChatChildren : option Z;
  li_tuiChatChildrenDiagnostic : option Z
}.

Definition MAX_EMERGENCY_HEAP_FLOOR_BYTES : Z := 1536 * 1024 * 1024.
Definition EMERGENCY_RETAINED_MEMORY_BYTES : Z := 128 * 1024 * 1024.
Definition DIAGNOSTIC_RETAINED_MEMORY_BYTES : Z := 64 * 1024 * 1024.
Definition EMERGENCY_TUI_CHAT_CHILDREN : Z := 1000.
Definition DIAGNOSTIC_TUI_CHAT_CHILDREN : Z := 700.

Definition resolveEmergencyCompactionLimits (totalMemoryBytes : numeric Z) : EmergencyCompactionLimits :=
  let heap :=
    match totalMemoryBytes with
    | Finite t => if 0 <? t then Z.min MAX_EMERGENCY_HEAP_FLOOR_BYTES (t / 2) else MAX_EMERGENCY_HEAP_FLOOR_BYTES
    | NonFinite => MAX_EMERGENCY_HEAP_FLOOR_BYTES
    end in
  mkLimits heap (24 * 1024 * 1024) 4000 (64 * 1024 * 1024)
    (Some EMERGENCY_RETAINED_MEMORY_BYTES) (Some DIAGNOSTIC_RETAINED_MEMORY_BYTES)
    (Some EMERGENCY_TUI_CHAT_CHILDREN) (Some DIAGNOSTIC_TUI_CHAT_CHILDREN).

(** The two flags of the module, and which warnings a call logs. *)
Record diagnostics := mkDiagnostics { dg_retainedMemory : bool; dg_tuiChatChildren : bool }.
Definition resetEmergencyRetainedMemoryDiagnosticsForTests : diagnostics := mkDiagnostics false false.

Inductive warning := WarnRetainedMemory (bytes limit : Z) | WarnChatChildren (children limit : Z).

Definition emergencyCompactionReason (dg : diagnostics) (sample : EmergencyCompactionSample)
    (limits : EmergencyCompactionLimits) : diagnostics * list warning * option CompactionTriggerReason :=
  let retained := default 0 (sa_materializedResidentBytes sample) + default 0 (sa_tuiCachedRenderBytes sample) in
  let children := default 0 (sa_tuiChatChildren sample) in
  let retainedLimit := default DIAGNOSTIC_RETAINED_MEMORY_BYTES (li_retainedMemoryDiagnosticBytes limits) in
  let childLimit := default DIAGNOSTIC_TUI_CHAT_CHILDREN (li_tuiChatChildrenDiagnostic limits) in
  let retainedDiagnostic := retainedLimit <=? retained in
  let childDiagnostic := childLimit <=? children in
  let warnings :=
    (if retainedDiagnostic && negb (dg_retainedMemory dg) then [WarnRetainedMemory retained retainedLimit] else [])
    ++ (if childDiagnostic && negb (dg_tuiChatChildren dg) then [WarnChatChildren children childLimit] else []) in
  let reason :=
    if li_heapUsedBytes limits <? sa_heapUsedBytes sample then Some TriggerHeap
    else if (default EMERGENCY_RETAINED_MEMORY_BYTES (li_retainedMemoryBytes limits) <=? retained)
            || (default EMERGENCY_TUI_CHAT_CHILDREN (li_tuiChatChildren limits) <=? children)
    then Some TriggerRetainedMemory
    else if li_providerBytes limits <? sa_providerBytes sample then Some TriggerProviderBytes
    else if li_imageBytes limits <? sa_imageBytes sample then Some TriggerImageBytes
    else if li_messageCount limits <? sa_messageCount sample then Some TriggerMessageCount
    else None in
  (mkDiagnostics retainedDiagnostic childDiagnostic, warnings, reason).

(** ** Estimates of tokens *)

Definition IMAGE_TOKEN_ESTIMATE : Z := 1200.
Definition HEURISTIC_BYTES_PER_TOKEN : Z := 4.

Definition in_range (lo hi c : N) : bool := ((lo <=? c) && (c <=? hi))%N.

Definition is_dense (c : N) : bool :=
  in_range 0x1100 0x11ff c || in_range 0x3000 0x303f c || in_range 0x3040 0x30ff c
  || in_range 0x3130 0x318f c || in_range 0x3400 0x4dbf c || in_range 0x4e00 0x9fff c
  || in_range 0xac00 0xd7af c || in_range 0xf900 0xfaff c || in_range 0xff00 0xffef c.
Definition is_surrogate (c : N) : bool := in_range 0xd800 0xdfff c.

(** Twice the weight, and the number of units that have one. *)
Fixpoint tokenDenseCharWeight (text : jsstring) : Z * Z :=
  match text with
  | [] => (0, 0)
  | c :: rest =>
      let '(weight2, units) := tokenDenseCharWeight rest in
      if is_dense c then (weight2 + 2, units + 1)
      else if is_surrogate c then (weight2 + 1, units + 1)
      else (weight2, units)
  end.

(** Twice the dense weight, and the other characters. *)
Definition estimateFragmentTokensHeuristic (fragment : jsstring) : Z * Z :=
  let '(weight2, units) := tokenDenseCharWeight fragment in (weight2, Z.of_nat (length fragment) - units).

Definition ceil_div (a b : Z) : Z := - (- a / b).

Definition estimateTextTokensHeuristic (fragments : list jsstring) : Z :=
  let '(dense2, otherChars) :=
    foldl (fun acc f => let '(d, o) := estimateFragmentTokensHeuristic f in (acc.1 + d, acc.2 + o)) (0, 0) fragments in
  ceil_div (2 * dense2 + Z.max 0 otherChars) HEURISTIC_BYTES_PER_TOKEN.

(** What a message has to be counted: texts, and a charge for images. *)
Record collected := mkCollected { co_fragments : list jsstring; co_extra : Z }.

Definition nonempty_text (b : content_block) : option jsstring :=
  match b with TextBlock t => if bool_decide (t = []) then None else Some t | _ => None end.

Definition assistant_fragments (b : content_block) : list jsstring :=
  match b with
  | TextBlock t => [t]
  | ThinkingBlock t => [t]
  | ToolCallBlock _ name args _ => [name; print_json (JObj args)]
  | _ => []
  end.

Definition image_count (blocks : list content_block) : Z :=
  Z.of_nat (length (List.filter (fun b => match b with ImageBlock _ _ => true | _ => false end) blocks)).

Definition collectMessageFragments (m : AgentMessage) : collected :=
  match m with
  | MBashExecution command output => mkCollected (option_list command ++ option_list output) 0
  | MUser c | MCustom _ c _ _ _ _ =>
      mkCollected (match c with ContentString s => [s] | ContentBlocks bs => omap nonempty_text bs end) 0
  | MAssistant a => mkCollected (am_content a ≫= assistant_fragments) 0
  | MHook _ c | MToolResult _ _ c _ _ _ =>
      match c with
      | ContentString s => mkCollected [s] 0
      | ContentBlocks bs => mkCollected (omap nonempty_text bs) (IMAGE_TOKEN_ESTIMATE * image_count bs)
      end
  | MBranchSummary summary _ _ | MCompactionSummary summary _ _ _ _ => mkCollected [summary] 0
  | MDeveloper _ | MOther _ => mkCollected [] 0
  end.

Definition countCollectedMessageFragments (c : collected) : Z :=
  estimateTextTokensHeuristic (co_fragments c) + co_extra c.

Definition estimateMessageTokensHeuristic (m : AgentMessage) : Z :=
  let c := collectMessageFragments m in co_extra c + estimateTextTokensHeuristic (co_fragments c).

(** *** The cache of estimates

    A weak map from entry objects: [loc] is the identity of an entry, whose content may change
    between two calls. *)

Definition sized (s : jsstring) : jsstring := num_to_string (Z.of_nat (length s)) ++ js ":" ++ s.

Definition message_prunedAt (m : AgentMessage) : option Z :=
  match m with MToolResult _ _ _ p _ _ => p | _ => None end.

Definition entryTokenFingerprint (e : SessionEntry) (m : AgentMessage) (c : collected) : jsstring :=
  sized (entry_type e) ++ sized (se_id e) ++ sized (message_role m) ++ sized (num_to_string (co_extra c))
    ++ num_to_string (Z.of_nat (length (co_fragments c))) ++ js ":" ++ (co_fragments c ≫= sized)
    ++ match message_prunedAt m with Some t => js "prunedAt" ++ sized (num_to_string t) | None => [] end.

Abbreviation token_cache := (gmap nat (jsstring * Z)).

Section entries.
Context `{Clock}.

Definition estimateEntryTokens_cached (cache : token_cache) (loc : nat) (e : SessionEntry) : token_cache * Z :=
  match getMessageFromEntry e with
  | None => (cache, 0)
  | Some m =>
      let c := collectMessageFragments m in
      let fingerprint := entryTokenFingerprint e m c in
      let miss := let tokens := countCollectedMessageFragments c in (<[loc := (fingerprint, tokens)]> cache, tokens) in
      match cache !! loc with
      | Some (f, tokens) => if bool_decide (f = fingerprint) then (cache, tokens) else miss
      | None => miss
      end
  end.

(** The estimate of an entry, which the cache gives too (see the theorem on the cache). *)
Definition estimateEntryTokens (e : SessionEntry) : Z :=
  match getMessageFromEntry e with
  | None => 0
  | Some m => countCollectedMessageFragments (collectMessageFragments m)
  end.

Definition sum_tokens (entries : list SessionEntry) : Z := foldr (fun e n => estimateEntryTokens e + n) 0 entries.

Definition estimateEntriesTokens (entries : list SessionEntry) (startIndex endIndex : nat) : Z :=
  sum_tokens (drop startIndex (take endIndex entries)).

(** ** The cut *)

Definition is_message (e : SessionEntry) : bool := match se_body e with EMessage _ => true | _ => false end.
Definition is_injected (e : SessionEntry) : bool :=
  match se_body e with EBranchSummary _ _ | ECustomMessage _ _ _ _ _ => true | _ => false end.

Definition is_cut_point (e : SessionEntry) : bool :=
  match se_body e with
  | EMessage (MBashExecution _ _ | MHook _ _ | MBranchSummary _ _ _ | MCompactionSummary _ _ _ _ _
             | MUser _ | MAssistant _) => true
  | _ => is_injected e
  end.

Definition at_entry (p : SessionEntry -> bool) (entries : list SessionEntry) (i : nat) : bool :=
  from_option p false (entries !! i).

Definition findValidCutPoints (entries : list SessionEntry) (startIndex endIndex : nat) : list nat :=
  List.filter (at_entry is_cut_point entries) (seq startIndex (endIndex - startIndex)).

Definition starts_turn (e : SessionEntry) : bool :=
  match se_body e with
  | EMessage (MUser _ | MBashExecution _ _) => true
  | _ => is_injected e
  end.

Fixpoint findTurnStartIndex (entries : list SessionEntry) (entryIndex startIndex : nat) : option nat :=
  if (entryIndex <? startIndex)%nat then None
  else if at_entry starts_turn entries entryIndex then Some entryIndex
  else match entryIndex with O => None | S i => findTurnStartIndex entries i startIndex end.

Record CutPointResult := mkCut {
  cp_firstKeptEntryIndex : nat; cp_turnStartIndex : option nat; cp_isSplitTurn : bool
}.

(** The newest entry, from [n - 1] down, at which the tokens from there on reach the budget. *)
Fixpoint crossing (entries : list SessionEntry) (startIndex : nat) (keepRecentTokens accumulated : Z) (n : nat) :
    option nat :=
  match n with
  | O => None
  | S i =>
      if (i <? startIndex)%nat then None
      else
        let accumulated' := accumulated + from_option estimateEntryTokens 0 (entries !! i) in
        if keepRecentTokens <=? accumulated' then Some i
        else crossing entries startIndex keepRecentTokens accumulated' i
  end.

(** Back over the entries that are no messages and no compaction. *)
Fixpoint scan_back (entries : list SessionEntry) (startIndex cutIndex : nat) : nat :=
  match cutIndex with
  | O => O
  | S prev =>
      if (startIndex <? S prev)%nat && negb (at_entry is_compaction entries prev || at_entry is_message entries prev)
      then scan_back entries startIndex prev
      else S prev
  end.

Definition is_user (e : SessionEntry) : bool :=
  match se_body e with EMessage (MUser _) => true | _ => false end.

Definition chosen_cut (cutPoints : list nat) (first : nat) (crossed : option nat) : nat :=
  match crossed with
  | None => first
  | Some i => match find (fun c => i <=? c)%nat cutPoints with Some c => c | None => default first (last cutPoints) end
  end.

Definition findCutPoint (entries : list SessionEntry) (startIndex endIndex : nat) (keepRecentTokens : Z) : CutPointResult :=
  let cutPoints := findValidCutPoints entries startIndex endIndex in
  match cutPoints with
  | [] => mkCut startIndex None false
  | first :: _ =>
      let cutIndex0 := chosen_cut cutPoints first (crossing entries startIndex keepRecentTokens 0 endIndex) in
      let cutIndex := scan_back entries startIndex cutIndex0 in
      let isUserMessage := at_entry is_user entries cutIndex in
      let turnStartIndex := if isUserMessage then None else findTurnStartIndex entries cutIndex startIndex in
      mkCut cutIndex turnStartIndex (negb isUserMessage && bool_decide (is_Some turnStartIndex))
  end.

(** ** Preparation *)

Record CompactionPreparation := mkPreparation {
  pr_firstKeptEntryId : jsstring;
  pr_messagesToSummarize : list AgentMessage;
  pr_turnPrefixMessages : list AgentMessage;
  pr_recentMessages : list AgentMessage;
  pr_isSplitTurn : bool;
  pr_tokensBefore : Z;
  pr_previousSummary : option jsstring;
  pr_previousPreserveData : option (list (jsstring * json));
  pr_fileOps : FileOperations;
  pr_settings : CompactionSettings;
  pr_ratio : Q;
  pr_keepRecentTokensCorrected : Z
}.

Definition TOKEN_CORRECTION_MIN_RATIO : Q := 1 # 2.
Definition TOKEN_CORRECTION_MAX_RATIO : Q := 2 # 1.

Record PrepareCompactionOptions := mkOptions {
  po_tokenCorrectionRatio : option (numeric Q); po_contextWindow : option (numeric Z)
}.

(** The strings of an array, as the details of a compaction hold them. *)
Definition string_items (v : option json) : list jsstring :=
  match v with
  | Some (JArr items) => omap (fun x => match x with JStr s => Some s | _ => None end) items
  | _ => []
  end.

Definition extractFileOperations (messages : list AgentMessage) (prevCompaction : option CompactionData) : FileOperations :=
  let fileOps :=
    match prevCompaction with
    | Some c =>
        if ce_fromExtension c then createFileOps
        else foldl (fun f p => add_edited p f)
               (foldl (fun f p => add_read p f) createFileOps (string_items (jget (js "readFiles") (ce_details c))))
               (string_items (jget (js "modifiedFiles") (ce_details c)))
    | None => createFileOps
    end in
  foldl extractFileOpsFromMessage fileOps messages.

Definition window_above (least : Z) (contextWindow : option (numeric Z)) : option Z :=
  match contextWindow with Some (Finite w) => if least <? w then Some w else None | _ => None end.

(** The budget for the kept messages, before the correction. *)
Definition thresholdSafeKeepRecentTokens (settings : CompactionSettings) (contextWindow : option (numeric Z)) : Z :=
  match window_above 1 contextWindow with
  | Some w => Z.max 1 (resolveThresholdTokens w settings 0 - effectiveReserveTokens w settings 0)
  | None => cs_keepRecentTokens settings
  end.

Definition effectiveKeepRecentTokens (settings : CompactionSettings) (contextWindow : option (numeric Z))
    (historyTokens : Z) : Z :=
  let configured := cs_keepRecentTokens settings in
  let safe := thresholdSafeKeepRecentTokens settings contextWindow in
  let keepRecentTokens := Z.min configured safe in
  let scaled :=
    match window_above 65999 contextWindow with
    | Some w => Z.min safe (Z.max keepRecentTokens (w * 3 / 10))
    | None => keepRecentTokens
    end in
  if historyTokens <? configured then configured
  else if (keepRecentTokens <? scaled) && (historyTokens <? scaled) then keepRecentTokens
  else scaled.

Definition appliedRatio (ratio : option (numeric Q)) : Q :=
  match ratio with
  | Some (Finite r) =>
      if Qle_bool r 0 then 1 else Qmin TOKEN_CORRECTION_MAX_RATIO (Qmax TOKEN_CORRECTION_MIN_RATIO r)
  | _ => 1
  end.

(** [Math.round]. *)
Definition round (q : Q) : Z := Qfloor (q + (1 # 2)).

Definition last_compaction (entries : list SessionEntry) : option (nat * CompactionData) :=
  last (omap (fun '(i, e) => (i,.) <$> as_compaction e) (imap (fun i e => (i, e)) entries)).

Definition messages_between (entries : list SessionEntry) (a b : nat) : list AgentMessage :=
  omap getMessageFromEntry (slice entries a b).

Definition prepareCompaction (pathEntries : list SessionEntry) (settings : CompactionSettings)
    (options : PrepareCompactionOptions) : option CompactionPreparation :=
  if from_option is_compaction false (last pathEntries) then None
  else
    let prev := last_compaction pathEntries in
    let boundaryStart := from_option (fun p => S p.1) 0%nat prev in
    let boundaryEnd := length pathEntries in
    let tokensBefore := from_option calculateContextTokens 0 (getLastAssistantUsage pathEntries) in
    let ratio := appliedRatio (po_tokenCorrectionRatio options) in
    let historyTokens := sum_tokens (slice pathEntries boundaryStart boundaryEnd) in
    let keep := effectiveKeepRecentTokens settings (po_contextWindow options) historyTokens in
    let keepCorrected := Z.max 1 (round (inject_Z keep / ratio)) in
    let cut := findCutPoint pathEntries boundaryStart boundaryEnd keepCorrected in
    match pathEntries !! cp_firstKeptEntryIndex cut with
    | None => None
    | Some firstKept =>
        if bool_decide (se_id firstKept = []) then None
        else
          let historyEnd :=
            if cp_isSplitTurn cut then default 0%nat (cp_turnStartIndex cut) else cp_firstKeptEntryIndex cut in
          let messagesToSummarize := messages_between pathEntries boundaryStart historyEnd in
          let turnPrefixMessages :=
            if cp_isSplitTurn cut
            then messages_between pathEntries (default 0%nat (cp_turnStartIndex cut)) (cp_firstKeptEntryIndex cut)
            else [] in
          let recentMessages := messages_between pathEntries (cp_firstKeptEntryIndex cut) boundaryEnd in
          match messagesToSummarize, turnPrefixMessages with
          | [], [] => None
          | _, _ =>
              let fileOps := foldl extractFileOpsFromMessage
                               (extractFileOperations messagesToSummarize (snd <$> prev)) turnPrefixMessages in
              Some (mkPreparation (se_id firstKept) messagesToSummarize turnPrefixMessages recentMessages
                      (cp_isSplitTurn cut) tokensBefore (ce_summary ∘ snd <$> prev)
                      (prev ≫= ce_preserveData ∘ snd) fileOps settings ratio keepCorrected)
          end
    end.
End entries.

(** ** The text that is summarised *)

Definition OVERHEAD_TOKENS : Z := 4096.

Definition inputBudgetTokens (contextWindow outputMaxTokens : Z) : Z :=
  (contextWindow - Z.max 0 outputMaxTokens - OVERHEAD_TOKENS) * 3 / 5.

Definition assemble (conversationText head tail : jsstring) : jsstring :=
  let elided := Z.of_nat (length conversationText) - Z.of_nat (length head) - Z.of_nat (length tail) in
  head ++ [LF; LF] ++ js "[... " ++ num_to_string elided
    ++ js " characters of older conversation elided so this summarization request fits within the model context window ...]"
    ++ [LF; LF] ++ tail.

Definition fits_budget (budget : Z) (candidate : jsstring) : bool := estimateTextTokensHeuristic [candidate] <=? budget.

(** A cut with [budgetChars] characters: the head and the tail. *)
Definition excerpt (conversationText : jsstring) (budgetChars : Z) : jsstring :=
  let headChars := budgetChars * 35 / 100 in
  let tailChars := Z.max 0 (budgetChars - headChars) in
  let len := Z.of_nat (length conversationText) in
  let head := take (Z.to_nat headChars) conversationText in
  let tail := if 0 <? tailChars then drop (clamp_index len (len - tailChars)) conversationText else [] in
  assemble conversationText head tail.

Fixpoint shrink (attempts : nat) (conversationText : jsstring) (budget budgetChars : Z) : option jsstring :=
  match attempts with
  | O => None
  | S attempts' =>
      if 0 <? budgetChars then
        let assembled := excerpt conversationText budgetChars in
        if fits_budget budget assembled then Some assembled
        else shrink attempts' conversationText budget (budgetChars * 4 / 5)
      else None
  end.

Definition boundConversationTextForSummary (conversationText : jsstring) (contextWindow : numeric Z)
    (outputMaxTokens : Z) : jsstring :=
  match contextWindow with
  | NonFinite => conversationText
  | Finite w =>
      if w <=? 0 then conversationText
      else
        let budget := inputBudgetTokens w outputMaxTokens in
        let total := estimateTextTokensHeuristic [conversationText] in
        let bareMarker := assemble conversationText [] [] in
        if budget <=? 0 then []
        else if total <=? budget then conversationText
        else
          let budgetChars := budget * Z.of_nat (length conversationText) / total in
          match shrink 12 conversationText budget budgetChars with
          | Some assembled => assembled
          | None => if fits_budget budget bareMarker then bareMarker else []
          end
  end.
