(* ===== verification/SessionContext.v ===== *)
(** * The context of a session (coding-agent/src/session/session-manager.ts)

    [buildSessionContext] turns the entries of a session, a tree with parent links, into what is
    sent to the model: it walks from a leaf to the root, collects the settings along the way, and
    emits the messages, where the latest compaction replaces what came before the first entry it
    kept.  The side tables from message objects to entry identifiers are not modelled.  Roles and
    modes are keys of plain objects; none is the name of a property every object inherits. *)

From S2P Require Import Prelude JsText Json SessionEntries.

Record ConfiguredModelChain := mkChain {
  ch_role : jsstring; ch_entries : list jsstring; ch_origin : jsstring; ch_identity : option jsstring;
  ch_explicitHead : bool; ch_cleared : bool
}.

Definition normalizeConfiguredModelChainEntry (entry : ConfiguredModelChainEntry) : option ConfiguredModelChain :=
  match mc_role entry with
  | None | Some [] => None
  | Some role =>
      let origin := default (js "session") (mc_origin entry) in
      if mc_cleared entry then Some (mkChain role [] origin None (mc_explicitHead entry) true)
      else
        match List.filter (fun m => negb (bool_decide (m = []))) (default [] (mc_entries entry)) with
        | [] => None
        | entries => Some (mkChain role entries origin (mc_identity entry) (mc_explicitHead entry) false)
        end
  end.

Definition getLatestCompactionEntry (entries : list SessionEntry) : option SessionEntry :=
  find is_compaction (rev entries).

(** ** Settings along a path *)

Record path_settings := mkPathSettings {
  ps_thinkingLevel : jsstring;
  ps_serviceTier : option jsstring;
  ps_models : gmap jsstring jsstring;
  ps_chains : gmap jsstring ConfiguredModelChain;
  ps_compaction : option SessionEntry;
  ps_rules : list jsstring;
  ps_records : list TtsrInjectionRecord;
  ps_ttsrCount : Z;
  ps_mcp : list jsstring;
  ps_hasMcp : bool;
  ps_builtin : option (list jsstring);
  ps_hasBuiltin : bool;
  ps_mode : jsstring;
  ps_modeData : option (list (jsstring * json));
  ps_explicitDefault : bool
}.

Definition no_settings : path_settings :=
  mkPathSettings (js "off") None ∅ ∅ None [] [] 0 [] false None false (js "none") None false.

(** A [Map] by name keeps the place of a key that is set again. *)
Fixpoint set_record (r : TtsrInjectionRecord) (l : list TtsrInjectionRecord) : list TtsrInjectionRecord :=
  match l with
  | [] => [r]
  | x :: l' => if bool_decide (tr_name x = tr_name r) then r :: l' else x :: set_record r l'
  end.
Definition has_record (name : jsstring) (l : list TtsrInjectionRecord) : bool :=
  existsb (fun x => bool_decide (tr_name x = name)) l.

Definition add_rule (acc : list jsstring * list TtsrInjectionRecord) (name : jsstring) :=
  (set_add name acc.1, if has_record name acc.2 then acc.2 else set_record (mkTtsr name 0) acc.2).
Definition add_record (acc : list jsstring * list TtsrInjectionRecord) (r : TtsrInjectionRecord) :=
  (set_add (tr_name r) acc.1, set_record r acc.2).

Definition collect_setting (s : path_settings) (e : SessionEntry) : path_settings :=
  let '(mkPathSettings thinking tier models chains comp rules records count mcp hasMcp builtin hasBuiltin mode modeData explicit) := s in
  match se_body e with
  | EThinkingLevelChange l =>
      mkPathSettings (default (js "off") l) tier models chains comp rules records count mcp hasMcp builtin hasBuiltin mode modeData explicit
  | EModelChange model role =>
      if bool_decide (model = []) then s
      else
        let role := default (js "default") role in
        mkPathSettings thinking tier (<[role := model]> models) chains comp rules records count mcp hasMcp builtin hasBuiltin
          mode modeData (explicit || bool_decide (role = js "default"))
  | EConfiguredModelChain raw =>
      let chains' :=
        match normalizeConfiguredModelChainEntry raw with
        | Some c => if ch_cleared c then delete (ch_role c) chains else <[ch_role c := c]> chains
        | None => chains
        end in
      mkPathSettings thinking tier models chains' comp rules records count mcp hasMcp builtin hasBuiltin mode modeData explicit
  | EServiceTierChange t =>
      mkPathSettings thinking t models chains comp rules records count mcp hasMcp builtin hasBuiltin mode modeData explicit
  | EMessage (MAssistant a) =>
      let models' := if explicit then models else <[js "default" := am_provider a ++ js "/" ++ am_model a]> models in
      mkPathSettings thinking tier models' chains comp rules records count mcp hasMcp builtin hasBuiltin mode modeData explicit
  | ECompaction _ =>
      mkPathSettings thinking tier models chains (Some e) rules records count mcp hasMcp builtin hasBuiltin mode modeData explicit
  | ETtsrInjection names recs n =>
      let '(rules', records') := foldl add_record (foldl add_rule (rules, records) names) recs in
      mkPathSettings thinking tier models chains comp rules' records' (default count n) mcp hasMcp builtin hasBuiltin mode modeData explicit
  | EMCPToolSelection names b =>
      mkPathSettings thinking tier models chains comp rules records count names true
        (match b with Some l => Some l | None => builtin end) (hasBuiltin || bool_decide (is_Some b)) mode modeData explicit
  | EDiscoveredBuiltinToolSelection names =>
      mkPathSettings thinking tier models chains comp rules records count mcp hasMcp (Some names) true mode modeData explicit
  | EModeChange m d =>
      mkPathSettings thinking tier models chains comp rules records count mcp hasMcp builtin hasBuiltin m d explicit
  | _ => s
  end.

Definition path_settings_of (path : list SessionEntry) : path_settings := foldl collect_setting no_settings path.

(** A role with a model and no chain gets a chain of that one model. *)
Definition legacy_chains (models : gmap jsstring jsstring) (chains : gmap jsstring ConfiguredModelChain) :
    gmap jsstring ConfiguredModelChain :=
  chains ∪ map_imap (fun role model => Some (mkChain role [model] (js "legacy_session") None true false)) models.

(** ** The path *)

Definition index_by_id (entries : list SessionEntry) : gmap jsstring SessionEntry :=
  foldl (fun m e => <[se_id e := e]> m) ∅ entries.

(** From an entry to the root, newest first; an entry seen before ends the walk.  A walk visits
    distinct entries of the index, so its size bounds the steps. *)
Fixpoint walk (fuel : nat) (byId : gmap jsstring SessionEntry) (visited : list jsstring) (current : option SessionEntry) :
    list SessionEntry :=
  match fuel, current with
  | S fuel', Some e =>
      if bool_decide (se_id e ∈ visited) then []
      else
        let parent := match se_parentId e with
                      | Some p => if bool_decide (p = []) then None else byId !! p
                      | None => None
                      end in
        e :: walk fuel' byId (se_id e :: visited) parent
  | _, _ => []
  end.

Definition session_path (byId : gmap jsstring SessionEntry) (leaf : SessionEntry) : list SessionEntry :=
  rev (walk (S (S (size byId))) byId [] (Some leaf)).

(** ** Messages *)

Section context.
Context `{Clock}.

Definition appendMessage (e : SessionEntry) : option AgentMessage :=
  match se_body e with
  | EBranchSummary fromId summary =>
      if bool_decide (summary = []) then None else Some (createBranchSummaryMessage summary fromId (se_timestamp e))
  | _ => getMessageFromEntry e
  end.

Definition provider_payload (c : CompactionData) : option (jsstring * list json) :=
  let candidate := ce_preserveData c ≫= lookup_field (js "openaiRemoteCompaction") in
  match jget (js "provider") candidate, jget (js "replacementHistory") candidate with
  | Some (JStr provider), Some (JArr items) => if bool_decide (provider = []) then None else Some (provider, items)
  | _, _ => None
  end.

Definition find_index (p : SessionEntry -> bool) (l : list SessionEntry) : option nat := fst <$> list_find p l.

(** The entries from the first one with the identifier. *)
Fixpoint from_id (id : jsstring) (l : list SessionEntry) : list SessionEntry :=
  match l with
  | [] => []
  | e :: l' => if bool_decide (se_id e = id) then l else from_id id l'
  end.

Definition compacted_messages (path : list SessionEntry) (e : SessionEntry) (c : CompactionData) : list AgentMessage :=
  let payload := provider_payload c in
  let summary := createCompactionSummaryMessage (ce_summary c) (ce_tokensBefore c) (se_timestamp e) (ce_shortSummary c) payload in
  let idx := find_index (fun x => is_compaction x && bool_decide (se_id x = se_id e)) path in
  (* [findIndex] gives -1 when there is none: nothing is before it and everything after *)
  let before := from_option (fun i => take i path) [] idx in
  let after := from_option (fun i => drop (S i) path) path idx in
  summary :: (match payload with
              | Some _ => []
              | None => omap appendMessage (from_id (ce_firstKeptEntryId c) before)
              end) ++ omap appendMessage after.

Definition context_messages (path : list SessionEntry) (compaction : option SessionEntry) : list AgentMessage :=
  match compaction with
  | Some e => from_option (compacted_messages path e) [] (as_compaction e)
  | None => omap appendMessage path
  end.

Record SessionContext := mkContext {
  sc_messages : list AgentMessage;
  sc_thinkingLevel : jsstring;
  sc_serviceTier : option jsstring;
  sc_models : gmap jsstring jsstring;
  sc_configuredModelChains : gmap jsstring ConfiguredModelChain;
  sc_injectedTtsrRules : list jsstring;
  sc_injectedTtsrRuleRecords : list TtsrInjectionRecord;
  sc_ttsrMessageCount : Z;
  sc_selectedMCPToolNames : list jsstring;
  sc_selectedDiscoveredBuiltinToolNames : option (list jsstring);
  sc_hasPersistedMCPToolSelection : bool;
  sc_hasPersistedDiscoveredBuiltinToolSelection : bool;
  sc_mode : jsstring;
  sc_modeData : option (list (jsstring * json))
}.

Definition empty_context : SessionContext :=
  mkContext [] (js "off") None ∅ ∅ [] [] 0 [] None false false (js "none") None.

Definition context_of_path (path : list SessionEntry) : SessionContext :=
  let s := path_settings_of path in
  mkContext (context_messages path (ps_compaction s)) (ps_thinkingLevel s) (ps_serviceTier s) (ps_models s)
    (legacy_chains (ps_models s) (ps_chains s)) (ps_rules s) (ps_records s) (ps_ttsrCount s) (ps_mcp s)
    (ps_builtin s) (ps_hasMcp s) (ps_hasBuiltin s) (ps_mode s) (ps_modeData s).

(** [leafId] is absent, null, or an identifier. *)
Inductive leaf_choice := LeafDefault | LeafNull | LeafId (id : jsstring).

Definition buildSessionContext (entries : list SessionEntry) (leafId : leaf_choice)
    (byId : option (gmap jsstring SessionEntry)) : SessionContext :=
  let byId := default (index_by_id entries) byId in
  let named := match leafId with LeafId id => if bool_decide (id = []) then None else byId !! id | _ => None end in
  match leafId with
  | LeafNull => empty_context
  | _ =>
      match (match named with Some e => Some e | None => last entries end) with
      | None => empty_context
      | Some leaf => context_of_path (session_path byId leaf)
      end
  end.

(** [appendCompaction], on the entries of the current path: the new entry is a child of the leaf. *)
Definition appendCompaction (entries : list SessionEntry) (id timestamp summary : jsstring)
    (shortSummary : option jsstring) (firstKeptEntryId : jsstring) (tokensBefore : Z) (details : option json)
    (fromExtension : bool) (preserveData : option (list (jsstring * json))) : list SessionEntry :=
  entries ++ [mkEntry id (se_id <$> last entries) timestamp
                (ECompaction (mkCompaction summary shortSummary firstKeptEntryId tokensBefore details preserveData fromExtension))].
End context.
