(* ===== verification/CompactionFacts.v ===== *)
(** * What a compaction keeps

    The cut falls on a message, never between a tool call and its results, and is the earliest
    one the budget allows; the preparation divides the messages since the last compaction into
    summarised and kept ones without losing any; and the context that is built after the
    compaction is recorded is the summary followed by exactly the kept messages, with every
    setting unchanged. *)

From S2P Require Import Prelude JsText Json SessionEntries Compaction SessionContext.
Local Open Scope nat_scope.

(** ** Searching for the cut *)

Section cut.
Context `{Clock}.
Implicit Types (es : list SessionEntry) (c i j k : nat).

Lemma valid_cut_points es a b c :
  c ∈ findValidCutPoints es a b <-> a <= c < b /\ at_entry is_cut_point es c = true.
Proof.
  unfold findValidCutPoints. rewrite list_elem_of_In, filter_In, in_seq. split; intros [? ?]; (split; [lia | done]).
Qed.

Lemma find_first (p : nat -> bool) (l : list nat) x :
  StronglySorted lt l -> find p l = Some x -> x ∈ l /\ p x = true /\ (forall a, a ∈ l -> a < x -> p a = false).
Proof.
  induction 1 as [|y l Hs IH Hall]; [done|]. cbn. destruct (p y) eqn:E.
  - intros [= <-]. split; [left | split; [done|]]. intros a [-> | Ha]%elem_of_cons Hlt; [lia|].
    rewrite Forall_forall in Hall. specialize (Hall a Ha). lia.
  - intros Hf. destruct (IH Hf) as (Hin & Hp & Hmin). split; [by right | split; [done|]].
    intros a [-> | Ha]%elem_of_cons Hlt; [done | by apply Hmin].
Qed.

Lemma seq_sorted a n : StronglySorted lt (seq a n).
Proof.
  revert a. induction n as [|n IH]; intros a; cbn; [constructor|].
  constructor; [apply IH |]. apply Forall_forall. intros x Hx%list_elem_of_In%in_seq. lia.
Qed.

Lemma cut_points_sorted es a b : StronglySorted lt (findValidCutPoints es a b).
Proof. apply StronglySorted_bfilter, seq_sorted. Qed.

(** *** Tokens *)

Lemma weight_nonneg s : (0 <= (tokenDenseCharWeight s).1 /\ 0 <= (tokenDenseCharWeight s).2 <= Z.of_nat (length s))%Z.
Proof.
  induction s as [|c s IH]; cbn [tokenDenseCharWeight length]; [cbn; lia|].
  destruct (tokenDenseCharWeight s) as [w u]. cbn [fst snd] in *.
  destruct (is_dense c); cbn [fst snd]; [lia|]. destruct (is_surrogate c); cbn [fst snd]; lia.
Qed.

Lemma ceil_div_nonneg a b : (0 <= a -> 0 < b -> 0 <= ceil_div a b)%Z.
Proof. intros. unfold ceil_div. pose proof (Z.div_le_upper_bound (- a) b 0). lia. Qed.

Lemma text_tokens_nonneg l : (0 <= estimateTextTokensHeuristic l)%Z.
Proof.
  unfold estimateTextTokensHeuristic.
  assert (forall l acc, (0 <= acc.1)%Z ->
    (0 <= (foldl (fun acc f => let '(d, o) := estimateFragmentTokensHeuristic f in (acc.1 + d, acc.2 + o)) acc l).1)%Z) as Hacc.
  { clear l. intros l. induction l as [|f l IH]; intros acc Hacc; cbn [foldl]; [done|]. apply IH.
    unfold estimateFragmentTokensHeuristic. pose proof (weight_nonneg f).
    destruct (tokenDenseCharWeight f); cbn in *; lia. }
  specialize (Hacc l (0, 0)%Z ltac:(cbn; lia)). destruct (foldl _ _ l) as [d o]. cbn in Hacc.
  apply ceil_div_nonneg; unfold HEURISTIC_BYTES_PER_TOKEN; lia.
Qed.

Lemma entry_tokens_nonneg e : (0 <= estimateEntryTokens e)%Z.
Proof.
  unfold estimateEntryTokens, countCollectedMessageFragments. destruct (getMessageFromEntry e) as [m|]; [| lia].
  pose proof (text_tokens_nonneg (co_fragments (collectMessageFragments m))) as Ht.
  assert (0 <= co_extra (collectMessageFragments m))%Z; [| lia].
  destruct m; cbn; try lia; destruct content; cbn; unfold IMAGE_TOKEN_ESTIMATE, image_count; lia.
Qed.

(** The tokens from an index on. *)
Definition tokens_from es c : Z := sum_tokens (drop c es).

Lemma tokens_from_step es i :
  tokens_from es i = (from_option estimateEntryTokens 0 (es !! i) + tokens_from es (S i))%Z.
Proof.
  unfold tokens_from. revert i. induction es as [|e es IH]; intros i; [by rewrite !drop_nil|].
  destruct i as [|i]; cbn; [by rewrite drop_0 | apply IH].
Qed.

Lemma tokens_from_mono es i j : i <= j -> (tokens_from es j <= tokens_from es i)%Z.
Proof.
  induction 1 as [|j Hij IH]; [lia|]. rewrite (tokens_from_step es j) in IH.
  destruct (es !! j) as [e|]; cbn in IH; [pose proof (entry_tokens_nonneg e) | idtac]; lia.
Qed.

Lemma crossing_spec es a (k : Z) n : (tokens_from es n < k)%Z ->
  match crossing es a k (tokens_from es n) n with
  | Some i => a <= i < n /\ (tokens_from es (S i) < k <= tokens_from es i)%Z
  | None => (tokens_from es (min a n) < k)%Z
  end.
Proof.
  induction n as [|n IH]; intros Hn; cbn [crossing]; [by rewrite Nat.min_0_r|].
  destruct (Nat.ltb_spec n a); [by replace (a `min` S n) with (S n) by lia|].
  assert ((tokens_from es (S n) + from_option estimateEntryTokens 0 (es !! n))%Z = tokens_from es n) as ->
    by (rewrite (tokens_from_step es n); lia).
  destruct (Z.leb_spec k (tokens_from es n)); [repeat split; lia|].
  specialize (IH ltac:(lia)). replace (a `min` S n) with (a `min` n) by lia.
  destruct (crossing es a k (tokens_from es n) n); [| done]. destruct IH. repeat split; lia.
Qed.

(** *** The cut itself *)

(** The place the budget dictates.  If the entries from [a] on reach the budget, [i] is the
    newest entry from which they do, and the cut is the first place to cut at or after [i],
    or the last one of all when there is none; if they stay below it, the first of all. *)
Definition budget_cut es (a : nat) (keep : Z) c0 : Prop :=
  (exists i, a <= i < length es /\ (tokens_from es (S i) < keep <= tokens_from es i)%Z /\
     ((i <= c0 /\ forall c', i <= c' < c0 -> at_entry is_cut_point es c' = false) \/
      (c0 < i /\ forall c', c0 < c' < length es -> at_entry is_cut_point es c' = false))) \/
  ((tokens_from es a < keep)%Z /\ forall c', a <= c' < c0 -> at_entry is_cut_point es c' = false).

(** [c0] is the cut point chosen, [c] where the cut is moved to: back over the entries that
    are neither messages nor compactions, as far as they go. *)
Record cut_ok es (a : nat) (keep : Z) c0 c : Prop := {
  cut_range : a <= c <= c0;
  cut_in : c0 < length es;
  cut_valid : at_entry is_cut_point es c0 = true;
  cut_between : forall i, c <= i < c0 -> at_entry is_message es i = false /\ at_entry is_compaction es i = false;
  cut_moved : c = a \/ exists i, c = S i /\ (at_entry is_message es i = true \/ at_entry is_compaction es i = true);
  cut_budget : budget_cut es a keep c0
}.

Lemma scan_back_spec es a c0 : a <= c0 ->
  let c := scan_back es a c0 in
  a <= c <= c0 /\
  (forall i, c <= i < c0 -> at_entry is_message es i = false /\ at_entry is_compaction es i = false) /\
  (c = a \/ exists i, c = S i /\ (at_entry is_message es i = true \/ at_entry is_compaction es i = true)).
Proof.
  induction c0 as [|c0 IH]; intros Ha; cbn [scan_back]; [repeat split; try lia|].
  destruct (Nat.ltb_spec a (S c0)); cbn [andb]; [| repeat split; lia].
  destruct (at_entry is_compaction es c0) eqn:E1; cbn [orb negb]; [repeat split; try lia; right; exists c0; auto|].
  destruct (at_entry is_message es c0) eqn:E2; cbn [negb]; [repeat split; try lia; right; exists c0; auto|].
  destruct (IH ltac:(lia)) as (Hr & Hb & Hm). split; [lia|]. split; [|done]. intros i Hi.
  destruct (decide (i = c0)) as [-> |]; [done|]. apply Hb. lia.
Qed.

Lemma last_elem_max (l : list nat) x : StronglySorted lt l -> last l = Some x -> x ∈ l /\ forall y, y ∈ l -> y <= x.
Proof.
  induction 1 as [|y l Hs IH Hall]; [done|]. destruct l as [|z l].
  - intros [= <-]. split; [left|]. intros y0 ->%list_elem_of_singleton. done.
  - rewrite last_cons_cons. intros Hl. destruct (IH Hl) as [Hin Hmax]. split; [by right|].
    intros w [-> | Hw]%elem_of_cons; [| auto]. rewrite Forall_forall in Hall. specialize (Hall x Hin). lia.
Qed.

Lemma chosen_cut_spec es a keep first rest :
  let cps := findValidCutPoints es a (length es) in
  (0 < keep)%Z -> cps = first :: rest ->
  let c0 := chosen_cut cps first (crossing es a keep 0 (length es)) in
  c0 ∈ cps /\ budget_cut es a keep c0.
Proof.
  intros cps Hk Hcps c0. pose proof (cut_points_sorted es a (length es)) as Hs. fold cps in Hs.
  assert (Hmem : forall c, a <= c < length es -> c ∉ cps -> at_entry is_cut_point es c = false).
  { intros c Hc Hn. destruct (at_entry is_cut_point es c) eqn:E; [|done]. destruct Hn. by apply valid_cut_points. }
  assert (tokens_from es (length es) = 0)%Z as H0 by (unfold tokens_from; by rewrite drop_all).
  pose proof (crossing_spec es a keep (length es)) as Hc. rewrite H0 in Hc. specialize (Hc ltac:(lia)).
  subst c0. unfold chosen_cut. destruct (crossing es a keep 0 (length es)) as [i|].
  - destruct Hc as [Hi Hkeep]. destruct (find (fun c => i <=? c) cps) as [c|] eqn:Ef.
    + destruct (find_first _ _ _ Hs Ef) as (Hin & Hle%Nat.leb_le & Hmin). split; [done|]. left. exists i. split; [done|].
      split; [done|]. left. split; [done|]. apply valid_cut_points in Hin as [Hin _]. intros c' Hc'. apply Hmem; [lia|].
      intros Hin'. specialize (Hmin c' Hin' ltac:(lia)). apply Nat.leb_gt in Hmin. lia.
    + assert (exists x, last cps = Some x) as [x Hx].
      { rewrite Hcps. clear. revert first. induction rest as [|y l IH]; intros f; [by eexists|].
        rewrite last_cons_cons. apply IH. }
      rewrite Hx. change (default first (Some x)) with x. destruct (last_elem_max cps x Hs Hx) as [Hin Hmax]. split; [done|]. left. exists i. split; [done|].
      split; [done|]. right. split.
      * pose proof (find_none _ _ Ef x (proj1 (list_elem_of_In _ _) Hin)) as E. by apply Nat.leb_gt in E.
      * intros c' Hc'. pose proof (proj1 (valid_cut_points _ _ _ _) Hin) as [Hr _]. apply Hmem; [lia|]. intros Hin'%Hmax. lia.
  - assert (first ∈ cps) as Hf by (rewrite Hcps; left). split; [done|]. apply valid_cut_points in Hf as [Hr _]. right.
    split; [by replace (a `min` length es) with a in Hc by lia|]. intros c' Hc'. apply Hmem; [lia|]. rewrite Hcps. rewrite Hcps in Hs.
    apply StronglySorted_inv in Hs as [_ Hall]. rewrite Forall_forall in Hall. intros [->|Hin]%elem_of_cons; [lia|]. specialize (Hall c' Hin). lia.
Qed.

Lemma findCutPoint_ok es a keep :
  (0 < keep)%Z -> findValidCutPoints es a (length es) <> [] ->
  exists c0, cut_ok es a keep c0 (cp_firstKeptEntryIndex (findCutPoint es a (length es) keep)).
Proof.
  intros Hk Hne. unfold findCutPoint.
  destruct (findValidCutPoints es a (length es)) as [|first rest] eqn:Ecp; [done|].
  destruct (chosen_cut_spec es a keep first rest Hk Ecp) as (Hin & Hbudget). rewrite Ecp in Hbudget, Hin at 1.
  set (c0 := chosen_cut (first :: rest) first (crossing es a keep 0 (length es))) in *.
  cbn [cp_firstKeptEntryIndex]. exists c0.
  assert (c0 ∈ findValidCutPoints es a (length es)) as [Hr Hv]%valid_cut_points by (rewrite Ecp; subst c0; by rewrite <- Ecp at 2).
  destruct (scan_back_spec es a c0 ltac:(lia)) as (Hrange & Hbetween & Hmoved).
  by constructor; [| lia | | | |].
Qed.

(** The kept messages after the first are within the budget, when a later cut is possible. *)
Lemma budget_within es a keep c0 : a <= c0 -> budget_cut es a keep c0 ->
  (tokens_from es (S c0) < keep)%Z \/ forall c', c0 < c' < length es -> at_entry is_cut_point es c' = false.
Proof.
  intros Ha [(i & Hi & [Hlt Hge] & [[Hle _]|[_ Hno]])|[Hlt _]]; [left|by right|left].
  - pose proof (tokens_from_mono es (S i) (S c0)). lia.
  - pose proof (tokens_from_mono es a (S c0)). lia.
Qed.
End cut.

(** ** Preparation *)

(** Where the entries after the last compaction begin. *)
Definition boundary (es : list SessionEntry) : nat := from_option (fun p => S p.1) 0 (last_compaction es).

Section prepare.
Context `{Clock}.
Implicit Types (es : list SessionEntry) (a b c : nat).

Lemma turn_start_range es c a t : findTurnStartIndex es c a = Some t -> a <= t <= c.
Proof.
  revert t. induction c as [|c IH]; intros t; cbn [findTurnStartIndex].
  - destruct (Nat.ltb_spec 0 a); [done|]. destruct (at_entry _ _ _); [| done]. intros [= <-]. lia.
  - destruct (Nat.ltb_spec (S c) a); [done|]. destruct (at_entry _ _ _); [intros [= <-]; lia|].
    intros Ht%IH. lia.
Qed.

Lemma messages_between_app es a b c :
  a <= b <= c -> messages_between es a b ++ messages_between es b c = messages_between es a c.
Proof.
  intros Hr. unfold messages_between, slice. rewrite <- omap_app. f_equal.
  replace (c - a) with ((b - a) + (c - b)) by lia. rewrite <- take_take_drop, drop_drop. by replace (a + (b - a)) with b by lia.
Qed.

Lemma messages_between_end es a : messages_between es a (length es) = omap getMessageFromEntry (drop a es).
Proof. unfold messages_between, slice. rewrite take_ge; [done | rewrite length_drop; lia]. Qed.

(** What a preparation is. *)
Record prepared es (p : CompactionPreparation) (c0 c : nat) : Prop := {
  prep_cut : cut_ok es (boundary es) (pr_keepRecentTokensCorrected p) c0 c;
  prep_all : pr_messagesToSummarize p ++ pr_turnPrefixMessages p ++ pr_recentMessages p
             = omap getMessageFromEntry (drop (boundary es) es);
  prep_recent : pr_recentMessages p = omap getMessageFromEntry (drop c es);
  prep_first : exists e, es !! c = Some e /\ se_id e = pr_firstKeptEntryId p /\ se_id e <> [];
  prep_some : pr_messagesToSummarize p ++ pr_turnPrefixMessages p <> [];
  prep_files : pr_fileOps p = extractFileOperations (pr_messagesToSummarize p ++ pr_turnPrefixMessages p)
                                (snd <$> last_compaction es)
}.

Lemma prepare_spec es settings options p :
  prepareCompaction es settings options = Some p -> exists c0 c, prepared es p c0 c.
Proof.
  unfold prepareCompaction. destruct (from_option is_compaction false (last es)); [done|].
  fold (boundary es). set (keep := Z.max 1 _). assert (0 < keep)%Z as Hk by lia. clearbody keep.
  set (cut := findCutPoint es (boundary es) (length es) keep).
  destruct (es !! cp_firstKeptEntryIndex cut) as [e|] eqn:Ee; [| done].
  destruct (decide (se_id e = [])) as [| Hid]; [by rewrite bool_decide_true|].
  rewrite (bool_decide_false (se_id e = [])) by done.
  set (c := cp_firstKeptEntryIndex cut) in *.
  set (hend := if cp_isSplitTurn cut then default 0 (cp_turnStartIndex cut) else c).
  set (pre := if cp_isSplitTurn cut then _ else []).
  assert (messages_between es (boundary es) hend = [] /\ pre = [] \/
    (boundary es <= hend <= c /\ messages_between es hend c = pre /\ exists c0, cut_ok es (boundary es) keep c0 c)) as Hcase.
  { destruct (decide (findValidCutPoints es (boundary es) (length es) = [])) as [E | E].
    - left. subst hend pre c cut. unfold findCutPoint. rewrite E. cbn. split; [| done].
      unfold messages_between, slice. by rewrite Nat.sub_diag.
    - right. destruct (findCutPoint_ok es (boundary es) keep Hk E) as [c0 Hok]. fold cut c in Hok.
      pose proof (cut_range _ _ _ _ _ Hok) as Hr. split; [| split; [| by exists c0]].
      + subst hend. destruct (cp_isSplitTurn cut) eqn:Es; [| lia].
        subst cut c. unfold findCutPoint in *. destruct (findValidCutPoints _ _ _); [done|]. cbn in *.
        destruct (at_entry is_user es _); [done|]. cbn in Es. apply bool_decide_eq_true in Es as [t Et].
        rewrite Et. cbn. by apply turn_start_range in Et.
      + subst pre hend. destruct (cp_isSplitTurn cut); [done|]. unfold messages_between, slice. by rewrite Nat.sub_diag. }
  destruct Hcase as [[-> ->] | (Hh & Hpre & c0 & Hok)]; [done|]. intros Hp.
  assert (messages_between es (boundary es) hend ++ pre <> []) as Hsome.
  { intros [E1 E2]%app_nil. by rewrite E1, E2 in Hp. }
  exists c0, c. pose proof (cut_in _ _ _ _ _ Hok). pose proof (cut_range _ _ _ _ _ Hok).
  assert (p = mkPreparation (se_id e) (messages_between es (boundary es) hend) pre (messages_between es c (length es))
    (pr_isSplitTurn p) (pr_tokensBefore p) (pr_previousSummary p) (pr_previousPreserveData p)
    (foldl extractFileOpsFromMessage (extractFileOperations (messages_between es (boundary es) hend) (snd <$> last_compaction es)) pre)
    (pr_settings p) (pr_ratio p) keep) as ->.
  { destruct (messages_between es (boundary es) hend), pre; simplify_eq/=; done. }
  constructor; cbn; [done | | apply messages_between_end | by exists e | done | unfold extractFileOperations; by rewrite foldl_app].
  rewrite <- Hpre, app_assoc, messages_between_app, messages_between_app by lia. apply messages_between_end.
Qed.
End prepare.

(** ** Files *)

(** A call of the tool [name] on the file [f]. *)
Definition touches (name f : jsstring) (m : AgentMessage) : Prop :=
  exists a id args wire, m = MAssistant a /\ ToolCallBlock id name args wire ∈ am_content a /\
    lookup_field (js "path") args = Some (JStr f) /\ f <> [].

Definition block_touches (name f : jsstring) (b : content_block) : Prop :=
  exists id args wire, b = ToolCallBlock id name args wire /\ lookup_field (js "path") args = Some (JStr f) /\ f <> [].

Lemma elem_of_set_add x y s : x ∈ set_add y s <-> x = y \/ x ∈ s.
Proof. unfold set_add. case_bool_decide; [set_solver|]. rewrite elem_of_app, list_elem_of_singleton. tauto. Qed.

(** The members of the three sets. *)
Definition ops_spec (fo : FileOperations) (R W E : jsstring -> Prop) : Prop :=
  forall f, (f ∈ fo_read fo <-> R f) /\ (f ∈ fo_written fo <-> W f) /\ (f ∈ fo_edited fo <-> E f).

Lemma extract_block_spec fo b R W E :
  ops_spec fo R W E ->
  ops_spec (extract_block fo b) (fun f => R f \/ block_touches (js "read") f b)
    (fun f => W f \/ block_touches (js "write") f b) (fun f => E f \/ block_touches (js "edit") f b).
Proof.
  intros Hs f. destruct (Hs f) as (H1 & H2 & H3).
  assert (forall n, (forall g, ~ block_touches n g b) -> forall P : Prop, P <-> P \/ block_touches n f b) as Hno
    by (intros n Hn P; specialize (Hn f); tauto).
  destruct b as [| | id name args wire | |]; cbn [extract_block];
    try (rewrite H1, H2, H3; split_and!; apply Hno; by intros g (? & ? & ? & ? & _)).
  destruct (lookup_field (js "path") args) as [[| | | path | |]|] eqn:El;
    try (rewrite H1, H2, H3; split_and!; apply Hno; intros g (? & ? & ? & ? & Hl & _); simplify_eq).
  assert (forall n, block_touches n f (ToolCallBlock id name args wire) <-> n = name /\ f = path /\ path <> []) as Hb.
  { intros n. split; [intros (? & ? & ? & ? & Hl & ?); by simplify_eq | intros (-> & -> & ?); by exists id, args, wire]. }
  rewrite !Hb. case_bool_decide as Hp; [rewrite H1, H2, H3; naive_solver|].
  case_bool_decide as Hr; [subst name; cbn; rewrite elem_of_set_add, H1, H2, H3; naive_solver|].
  case_bool_decide as Hw; [subst name; cbn; rewrite elem_of_set_add, H1, H2, H3; naive_solver|].
  case_bool_decide as He; [subst name; cbn; rewrite elem_of_set_add, H1, H2, H3; naive_solver|].
  rewrite H1, H2, H3. naive_solver.
Qed.

Lemma ops_spec_ext fo (R W E R' W' E' : jsstring -> Prop) :
  (forall f, R f <-> R' f) -> (forall f, W f <-> W' f) -> (forall f, E f <-> E' f) ->
  ops_spec fo R W E -> ops_spec fo R' W' E'.
Proof. intros HR HW HE Hs f. rewrite <- HR, <- HW, <- HE. apply Hs. Qed.

Lemma extract_blocks_spec bs fo R W E :
  ops_spec fo R W E ->
  ops_spec (foldl extract_block fo bs) (fun f => R f \/ exists b, b ∈ bs /\ block_touches (js "read") f b)
    (fun f => W f \/ exists b, b ∈ bs /\ block_touches (js "write") f b)
    (fun f => E f \/ exists b, b ∈ bs /\ block_touches (js "edit") f b).
Proof.
  revert fo R W E. induction bs as [|b bs IH]; intros fo R W E Hs; cbn [foldl].
  - eapply ops_spec_ext, Hs; intros f; set_solver.
  - eapply ops_spec_ext, IH, extract_block_spec, Hs; intros f; set_solver.
Qed.

Lemma extract_message_spec m fo R W E :
  ops_spec fo R W E ->
  ops_spec (extractFileOpsFromMessage fo m) (fun f => R f \/ touches (js "read") f m)
    (fun f => W f \/ touches (js "write") f m) (fun f => E f \/ touches (js "edit") f m).
Proof.
  intros Hs.
  assert (forall n f, touches n f m <-> exists a, m = MAssistant a /\ exists b, b ∈ am_content a /\ block_touches n f b) as Ht.
  { intros n f. split; [intros (a & id & args & wire & -> & ? & ? & ?) | intros (a & -> & b & ? & id & args & wire & -> & ? & ?)].
    - exists a. split; [done|]. eexists. split; [done|]. by exists id, args, wire.
    - by exists a, id, args, wire. }
  unfold extractFileOpsFromMessage. destruct m; try (eapply ops_spec_ext, Hs; intros f; rewrite Ht; naive_solver).
  eapply ops_spec_ext, extract_blocks_spec, Hs; intros f; rewrite Ht; naive_solver.
Qed.

Lemma extract_messages_spec ms fo R W E :
  ops_spec fo R W E ->
  ops_spec (foldl extractFileOpsFromMessage fo ms) (fun f => R f \/ exists m, m ∈ ms /\ touches (js "read") f m)
    (fun f => W f \/ exists m, m ∈ ms /\ touches (js "write") f m)
    (fun f => E f \/ exists m, m ∈ ms /\ touches (js "edit") f m).
Proof.
  revert fo R W E. induction ms as [|m ms IH]; intros fo R W E Hs; cbn [foldl].
  - eapply ops_spec_ext, Hs; intros f; set_solver.
  - eapply ops_spec_ext, IH, extract_message_spec, Hs; intros f; set_solver.
Qed.

(** The files a previous compaction lists, unless an extension made it. *)
Definition carried (key : jsstring) (prev : option CompactionData) (f : jsstring) : Prop :=
  exists c, prev = Some c /\ ce_fromExtension c = false /\ f ∈ string_items (jget key (ce_details c)).

Lemma add_all_spec (add : jsstring -> FileOperations -> FileOperations) (get : FileOperations -> list jsstring) l fo f :
  (forall p fo f, f ∈ get (add p fo) <-> f = p \/ f ∈ get fo) ->
  f ∈ get (foldl (fun fo p => add p fo) fo l) <-> f ∈ l \/ f ∈ get fo.
Proof.
  intros Hadd. revert fo. induction l as [|x l IH]; intros fo; cbn [foldl]; [set_solver|].
  rewrite IH, Hadd, elem_of_cons. tauto.
Qed.

Lemma add_all_same (add : jsstring -> FileOperations -> FileOperations) (get : FileOperations -> list jsstring) l fo :
  (forall p fo, get (add p fo) = get fo) -> get (foldl (fun fo p => add p fo) fo l) = get fo.
Proof. intros Hadd. revert fo. induction l as [|x l IH]; intros fo; cbn [foldl]; [done|]. by rewrite IH. Qed.

Lemma carried_spec prev :
  ops_spec (extractFileOperations [] prev) (carried (js "readFiles") prev) (fun _ => False) (carried (js "modifiedFiles") prev).
Proof.
  intros f. unfold extractFileOperations, carried. cbn [foldl]. destruct prev as [c|]; [| set_solver].
  destruct (ce_fromExtension c) eqn:Ex; [cbn; set_solver by congruence|].
  rewrite (add_all_same add_edited fo_read), (add_all_same add_edited fo_written), (add_all_same add_read fo_written) by done.
  rewrite (add_all_spec add_read fo_read), (add_all_spec add_edited fo_edited), (add_all_same add_read fo_edited)
    by (done || intros; apply elem_of_set_add).
  cbn. rewrite !elem_of_nil. naive_solver.
Qed.

Lemma set_of_list l f : f ∈ foldl (fun s x => set_add x s) [] l <-> f ∈ l.
Proof.
  assert (forall l s, f ∈ foldl (fun s x => set_add x s) s l <-> f ∈ l \/ f ∈ s) as Hl; [| rewrite Hl; set_solver].
  clear l. intros l. induction l as [|x l IH]; intros s; cbn [foldl]; [set_solver|]. rewrite IH, elem_of_set_add. set_solver.
Qed.

(** The file lists of a compaction are exact.  A file is listed as modified exactly when a
    summarised message wrote or edited it or the previous compaction listed it so, and as read exactly when
    one read it, or the previous compaction lists it so, and it is not modified.  Both lists are
    in order. *)
Theorem file_lists_exact `{Clock} es settings options p :
  prepareCompaction es settings options = Some p ->
  let prev := snd <$> last_compaction es in
  let summarised := pr_messagesToSummarize p ++ pr_turnPrefixMessages p in
  let '(readFiles, modifiedFiles) := computeFileLists (pr_fileOps p) in
  (forall f, f ∈ modifiedFiles <->
     carried (js "modifiedFiles") prev f \/
     exists m, m ∈ summarised /\ (touches (js "write") f m \/ touches (js "edit") f m)) /\
  (forall f, f ∈ readFiles <->
     (f ∉ modifiedFiles) /\
     (carried (js "readFiles") prev f \/ exists m, m ∈ summarised /\ touches (js "read") f m)) /\
  StronglySorted (fun x y => str_leb x y = true) readFiles /\
  StronglySorted (fun x y => str_leb x y = true) modifiedFiles.
Proof.
  intros Hp prev summarised. destruct (prepare_spec es settings options p Hp) as (c0 & c & Hprep).
  pose proof (extract_messages_spec summarised _ _ _ _ (carried_spec prev)) as Hs.
  change (foldl extractFileOpsFromMessage (extractFileOperations [] prev) summarised)
    with (extractFileOperations summarised prev) in Hs.
  pose proof (prep_files _ _ _ _ Hprep) as Hf. fold prev summarised in Hf. rewrite <- Hf in Hs. unfold computeFileLists.
  set (modified := foldl _ [] _). assert (forall f, f ∈ modified <->
    carried (js "modifiedFiles") prev f \/
    exists m, m ∈ summarised /\ (touches (js "write") f m \/ touches (js "edit") f m)) as Hm.
  { intros f. unfold modified. rewrite set_of_list, elem_of_app. destruct (Hs f) as (_ & -> & ->). naive_solver. }
  assert (forall f l, f ∈ sort_by str_leb l <-> f ∈ l) as Hsort by (intros f l; by rewrite sort_by_perm).
  split; [intros f; rewrite Hsort; apply Hm|]. split.
  - intros f. rewrite !Hsort, list_elem_of_In, filter_In, <- list_elem_of_In, negb_true_iff, bool_decide_eq_false.
    destruct (Hs f) as (-> & _). tauto.
  - split; apply sort_by_sorted; [| apply str_leb_trans | | apply str_leb_trans].
    all: intros x y Hxy; destruct (str_leb_total x y); congruence.
Qed.

(** ** Tool calls and their results *)

Definition calls (id : jsstring) (e : SessionEntry) : Prop :=
  exists a name args wire, se_body e = EMessage (MAssistant a) /\ ToolCallBlock id name args wire ∈ am_content a.
Definition answers (id : jsstring) (e : SessionEntry) : Prop :=
  exists name content pruned isError details, se_body e = EMessage (MToolResult id name content pruned isError details).

(** The result at [j] answers the call at [i], with nothing but other results and settings in
    between. *)
Definition answered (es : list SessionEntry) (id : jsstring) (i j : nat) : Prop :=
  i < j /\
  (exists e, es !! i = Some e /\ calls id e) /\ (exists e, es !! j = Some e /\ answers id e) /\
  forall k, i < k < j -> at_entry is_cut_point es k = false.

Lemma cut_keeps_pairs `{Clock} es a keep c0 c id i j :
  cut_ok es a keep c0 c -> answered es id i j -> c <= j -> c <= i.
Proof.
  intros Hok (Hij & _ & (e & Ej & name & content & pruned & isError & details & Hbody) & Hbetween) Hc.
  destruct (Nat.le_gt_cases c i) as [|Hlt]; [done|]. exfalso.
  pose proof (cut_range _ _ _ _ _ Hok) as Hr. pose proof (cut_valid _ _ _ _ _ Hok) as Hv.
  destruct (Nat.lt_trichotomy c0 j) as [Hl | [-> | Hg]].
  - rewrite Hbetween in Hv by lia. done.
  - unfold at_entry in Hv. rewrite Ej in Hv. cbn in Hv. unfold is_cut_point, is_injected in Hv. by rewrite Hbody in Hv.
  - destruct (cut_between _ _ _ _ _ Hok j ltac:(lia)) as [Hm _]. unfold at_entry in Hm. rewrite Ej in Hm.
    cbn in Hm. unfold is_message in Hm. by rewrite Hbody in Hm.
Qed.

(** C17: A compaction cuts where the token budget dictates and does not part a tool call from
    results that follow it.  The place to cut [c0] is the first one at or after the newest entry
    from which the messages reach the budget (the last of all if none is left, the first if the
    budget is never reached); the first kept entry [c] is then moved back over the entries before
    it that are neither messages nor compactions.  If the results of a call follow it with
    nothing but results of other calls and changes of settings in between, a result that is kept
    has its call among the kept entries too; a call whose results come after another message is
    not covered. *)
Theorem cut_keeps_tool_pairs `{Clock} es settings options p :
  prepareCompaction es settings options = Some p ->
  exists c0 c, pr_recentMessages p = omap getMessageFromEntry (drop c es) /\
    (exists e, es !! c = Some e /\ se_id e = pr_firstKeptEntryId p) /\
    (forall id i j, answered es id i j -> c <= j -> c <= i) /\
    boundary es <= c <= c0 /\ at_entry is_cut_point es c0 = true /\
    budget_cut es (boundary es) (pr_keepRecentTokensCorrected p) c0 /\
    (forall i, c <= i < c0 -> at_entry is_message es i = false /\ at_entry is_compaction es i = false) /\
    (c = boundary es \/ exists i, c = S i /\ (at_entry is_message es i = true \/ at_entry is_compaction es i = true)).
Proof.
  intros Hp. destruct (prepare_spec es settings options p Hp) as (c0 & c & Hprep).
  pose proof (prep_cut _ _ _ _ Hprep) as Hok. destruct (prep_first _ _ _ _ Hprep) as (e & Ee & Hid & _).
  exists c0, c. split; [by eapply prep_recent|]. split; [by exists e|].
  split; [intros id i j; by eapply cut_keeps_pairs|]. split; [by eapply cut_range|].
  split; [by eapply cut_valid|]. split; [by eapply cut_budget|]. split; [by eapply cut_between|by eapply cut_moved].
Qed.

(** ** The context after a compaction *)

Fixpoint linked (parent : option jsstring) (es : list SessionEntry) : Prop :=
  match es with
  | [] => True
  | e :: es' => se_parentId e = parent /\ linked (Some (se_id e)) es'
  end.

(** A session that never branched: each entry is the child of the one before. *)
Record linear_session (es : list SessionEntry) : Prop := {
  lin_linked : linked None es;
  lin_nodup : NoDup (se_id <$> es);
  lin_ids : Forall (fun e => se_id e <> []) es
}.

Definition no_empty_branch_summary (e : SessionEntry) : bool :=
  match se_body e with EBranchSummary _ summary => negb (bool_decide (summary = [])) | _ => true end.

Lemma linked_parent parent es n e :
  linked parent es -> es !! n = Some e ->
  se_parentId e = match n with 0 => parent | S m => se_id <$> es !! m end.
Proof.
  revert parent n. induction es as [|x es IH]; intros parent n; [done|]. intros [Hp Hl].
  destruct n as [|n]; cbn; [by intros [= ->]|]. intros He. specialize (IH _ _ Hl He). by destruct n.
Qed.

Lemma linked_app parent es e :
  linked parent es -> se_parentId e = match last es with Some x => Some (se_id x) | None => parent end ->
  linked parent (es ++ [e]).
Proof.
  revert parent. induction es as [|x es IH]; intros parent; [done|]. intros [Hp Hl] He. split; [done|].
  apply IH; [done|]. destruct es as [|y es]; [done|]. rewrite last_cons_cons in He.
  destruct (last (y :: es)) eqn:E; [done|]. by apply last_None in E.
Qed.

Lemma index_lookup es e : NoDup (se_id <$> es) -> e ∈ es -> index_by_id es !! se_id e = Some e.
Proof.
  induction es as [|x es IH] using rev_ind; [intros _ Hx; by apply not_elem_of_nil in Hx|].
  unfold index_by_id. rewrite foldl_app, fmap_app. cbn [foldl fmap list_fmap]. fold (index_by_id es).
  rewrite NoDup_app. intros (Hnd & Hdisj & _) [He | ->%list_elem_of_singleton]%elem_of_app.
  - rewrite lookup_insert_ne; [by apply IH|]. intros E. apply (Hdisj (se_id e)); [by apply list_elem_of_fmap_2|].
    rewrite E. left.
  - by rewrite lookup_insert_eq.
Qed.

Lemma index_size es : NoDup (se_id <$> es) -> size (index_by_id es) = length es.
Proof.
  induction es as [|x es IH] using rev_ind; [done|].
  unfold index_by_id. rewrite foldl_app, fmap_app, length_app. cbn [foldl fmap list_fmap]. fold (index_by_id es).
  rewrite NoDup_app. intros (Hnd & Hdisj & _). rewrite map_size_insert_None; [rewrite IH by done; cbn; lia|].
  destruct (index_by_id es !! se_id x) as [y|] eqn:E; [| done]. exfalso.
  assert (forall l k y, index_by_id l !! k = Some y -> k ∈ se_id <$> l) as Hin.
  { clear. intros l. induction l as [|z l IH] using rev_ind; intros k y; [done|].
    unfold index_by_id. rewrite foldl_app, fmap_app. cbn [foldl fmap list_fmap]. fold (index_by_id l).
    destruct (decide (se_id z = k)) as [<- | Hne]; [intros _; apply elem_of_app; right; left|].
    rewrite lookup_insert_ne by done. intros Hk%IH. apply elem_of_app. by left. }
  apply (Hdisj (se_id x)); [by eapply Hin | left].
Qed.

Lemma elem_take {A} (l : list A) n x : l !! n = Some x -> x ∈ take (S n) l.
Proof. intros Hx. apply list_elem_of_lookup. exists n. rewrite lookup_take_lt by lia. done. Qed.

Lemma walk_linear es fuel visited n e :
  linear_session es -> es !! n = Some e -> n < fuel ->
  (forall x, x ∈ take (S n) es -> se_id x ∉ visited) ->
  walk fuel (index_by_id es) visited (Some e) = rev (take (S n) es).
Proof.
  intros Hlin. revert fuel visited e. induction n as [|n IH]; intros fuel visited e He Hf Hv.
  all: destruct fuel as [|fuel]; [lia|]; cbn [walk].
  all: rewrite bool_decide_false by (apply Hv; by apply elem_take).
  all: rewrite (linked_parent None es _ e) by (done || by apply lin_linked).
  - rewrite (take_S_r es 0 e) by done. by destruct fuel.
  - destruct (es !! n) as [x|] eqn:Ex; [| apply lookup_ge_None in Ex; apply lookup_lt_Some in He; lia].
    cbn [fmap option_fmap option_map]. rewrite Ex. cbn [fmap option_fmap option_map]. pose proof (lin_ids es Hlin) as Hids. rewrite Forall_forall in Hids.
    assert (x ∈ es) as Hxin by (by eapply list_elem_of_lookup_2).
    rewrite bool_decide_false by (by apply Hids).
    rewrite index_lookup by (done || by apply lin_nodup).
    rewrite (IH fuel (se_id e :: visited) x); [| done | lia |].
    + rewrite (take_S_r es (S n) e) by done. by rewrite rev_app_distr.
    + intros y Hy. apply not_elem_of_cons. split.
      * intros E. apply list_elem_of_lookup in Hy as [m Hm]. apply lookup_take_Some in Hm as [Hm Hlt].
        pose proof (NoDup_lookup _ m (S n) (se_id e) (lin_nodup es Hlin)) as Heq.
        rewrite !list_lookup_fmap, Hm, He in Heq. cbn in Heq. specialize (Heq ltac:(by f_equal) eq_refl). lia.
      * apply Hv. rewrite (take_S_r es (S n) e) by done. apply elem_of_app. by left.
Qed.

Lemma session_path_linear es leaf :
  linear_session es -> last es = Some leaf -> session_path (index_by_id es) leaf = es.
Proof.
  intros Hlin Hl. unfold session_path. rewrite last_lookup in Hl.
  assert (pred (length es) < length es) as Hlt by (by eapply lookup_lt_Some).
  rewrite (walk_linear es _ [] (pred (length es)) leaf); [| done | done | | by intros; apply not_elem_of_nil].
  - rewrite rev_involutive. apply take_ge. lia.
  - rewrite index_size by (by apply lin_nodup). lia.
Qed.

Lemma linear_append es e :
  linear_session es -> se_id e <> [] -> se_id e ∉ se_id <$> es -> se_parentId e = se_id <$> last es ->
  linear_session (es ++ [e]).
Proof.
  intros Hlin Hne Hfresh Hp. constructor.
  - apply linked_app; [by apply lin_linked|]. rewrite Hp. by destruct (last es).
  - rewrite fmap_app. apply NoDup_app. split_and!; [by apply lin_nodup | | by apply NoDup_singleton].
    intros x Hx ->%list_elem_of_singleton. done.
  - apply Forall_app. split; [by apply lin_ids | by repeat constructor].
Qed.

Lemma collect_compaction s e c :
  se_body e = ECompaction c ->
  collect_setting s e =
    mkPathSettings (ps_thinkingLevel s) (ps_serviceTier s) (ps_models s) (ps_chains s) (Some e) (ps_rules s) (ps_records s)
      (ps_ttsrCount s) (ps_mcp s) (ps_hasMcp s) (ps_builtin s) (ps_hasBuiltin s) (ps_mode s) (ps_modeData s) (ps_explicitDefault s).
Proof. intros Hb. destruct s. unfold collect_setting. by rewrite Hb. Qed.

Lemma from_id_lookup es n e :
  NoDup (se_id <$> es) -> es !! n = Some e -> from_id (se_id e) es = drop n es.
Proof.
  revert n. induction es as [|x es IH]; intros n; [done|]. rewrite fmap_cons, NoDup_cons. intros [Hx Hnd].
  destruct n as [|n]; cbn; [by intros [= ->]; rewrite bool_decide_true|]. intros He.
  rewrite bool_decide_false; [by apply IH|]. intros E. apply Hx. rewrite E.
  apply list_elem_of_fmap_2. by eapply list_elem_of_lookup_2.
Qed.

Lemma find_index_fresh es e :
  is_compaction e = true -> se_id e ∉ se_id <$> es ->
  find_index (fun x => is_compaction x && bool_decide (se_id x = se_id e)) (es ++ [e]) = Some (length es).
Proof.
  intros Hc Hfresh. unfold find_index. rewrite list_find_app_r.
  - cbn [list_find]. rewrite decide_True; [done|]. by rewrite Hc, bool_decide_true.
  - apply list_find_None, Forall_forall. intros x Hx Hb. apply Is_true_true, andb_true_iff in Hb as [_ Hid%bool_decide_eq_true].
    apply Hfresh. rewrite <- Hid. by apply list_elem_of_fmap_2.
Qed.

Lemma append_messages `{Clock} es :
  Forall (fun e => no_empty_branch_summary e = true) es -> omap appendMessage es = omap getMessageFromEntry es.
Proof.
  intros Hall. apply list_omap_ext. induction Hall as [|e es He _ IH]; constructor; [| done].
  unfold appendMessage, getMessageFromEntry, no_empty_branch_summary in *. destruct (se_body e); try done.
  by destruct (bool_decide (summary = [])).
Qed.

Definition with_messages (messages : list AgentMessage) (c : SessionContext) : SessionContext :=
  mkContext messages (sc_thinkingLevel c) (sc_serviceTier c) (sc_models c) (sc_configuredModelChains c)
    (sc_injectedTtsrRules c) (sc_injectedTtsrRuleRecords c) (sc_ttsrMessageCount c) (sc_selectedMCPToolNames c)
    (sc_selectedDiscoveredBuiltinToolNames c) (sc_hasPersistedMCPToolSelection c)
    (sc_hasPersistedDiscoveredBuiltinToolSelection c) (sc_mode c) (sc_modeData c).

Lemma build_linear `{Clock} es :
  linear_session es -> es <> [] -> buildSessionContext es LeafDefault None = context_of_path es.
Proof.
  intros Hlin Hne. unfold buildSessionContext. destruct (last es) as [leaf|] eqn:E; [| by apply last_None in E].
  cbn [default from_option]. by rewrite session_path_linear.
Qed.

Lemma compacted_context `{Clock} es e c n x :
  linear_session es -> es !! n = Some x -> se_id x = ce_firstKeptEntryId c ->
  se_body e = ECompaction c -> se_id e <> [] -> se_id e ∉ se_id <$> es -> se_parentId e = se_id <$> last es ->
  Forall (fun e => no_empty_branch_summary e = true) es ->
  buildSessionContext (es ++ [e]) LeafDefault None =
    with_messages (createCompactionSummaryMessage (ce_summary c) (ce_tokensBefore c) (se_timestamp e) (ce_shortSummary c) (provider_payload c)
                     :: match provider_payload c with Some _ => [] | None => omap getMessageFromEntry (drop n es) end)
      (buildSessionContext es LeafDefault None).
Proof.
  intros Hlin Hx Hid Hb Hne Hfresh Hpar Hbr.
  assert (es <> []) as Hnil by (by intros ->).
  rewrite !build_linear; [| done | done | by apply linear_append | by destruct es].
  unfold context_of_path, path_settings_of. rewrite foldl_app. cbn [foldl]. rewrite (collect_compaction _ _ c Hb).
  cbn [ps_thinkingLevel ps_serviceTier ps_models ps_chains ps_compaction ps_rules ps_records ps_ttsrCount ps_mcp ps_hasMcp
       ps_builtin ps_hasBuiltin ps_mode ps_modeData].
  unfold with_messages. f_equal. unfold context_messages, as_compaction. rewrite Hb. cbn [from_option].
  unfold compacted_messages.
  rewrite find_index_fresh by (done || by unfold is_compaction; rewrite Hb). cbn [from_option].
  rewrite take_app_length, <- Hid, (from_id_lookup es n x) by (done || by apply lin_nodup).
  rewrite (drop_ge (es ++ [e]) (S (length es))) by (rewrite length_app; cbn; lia). cbn [omap list_omap]. rewrite app_nil_r, append_messages; [done|].
  by apply Forall_drop.
Qed.

(** C16: Of the messages since the previous compaction, a compaction drops what it summarised and
    nothing else.  These messages are, in order, those given to the summary of the history, those given to the summary
    of the turn's beginning, and those that are kept, and something is summarised.  Suppose the
    entries form one branch, each the child of the one before with an identifier of its own, and
    none is an empty branch summary, which the context leaves out.  Once the compaction is
    recorded under a fresh identifier as a child of the last entry, the context that is built
    for the model is the summary followed by exactly the kept messages, and models, thinking level, tools,
    rules and mode are what they were; only when the compaction was made by the provider and its
    own replacement history is preserved, that history rides on the summary and the kept messages
    are not repeated after it. *)
Theorem compaction_conserves_messages `{Clock} es settings options p id timestamp summary short details ext preserve :
  prepareCompaction es settings options = Some p ->
  linear_session es -> Forall (fun e => no_empty_branch_summary e = true) es ->
  id <> [] -> id ∉ se_id <$> es ->
  let payload := provider_payload (mkCompaction summary short (pr_firstKeptEntryId p) (pr_tokensBefore p) details preserve ext) in
  pr_messagesToSummarize p ++ pr_turnPrefixMessages p ++ pr_recentMessages p
    = omap getMessageFromEntry (drop (boundary es) es) /\
  pr_messagesToSummarize p ++ pr_turnPrefixMessages p <> [] /\
  buildSessionContext (appendCompaction es id timestamp summary short (pr_firstKeptEntryId p) (pr_tokensBefore p)
                         details ext preserve) LeafDefault None
    = with_messages (createCompactionSummaryMessage summary (pr_tokensBefore p) timestamp short payload
                       :: match payload with None => pr_recentMessages p | Some _ => [] end)
        (buildSessionContext es LeafDefault None) /\
  (preserve ≫= lookup_field (js "openaiRemoteCompaction") = None -> payload = None).
Proof.
  intros Hp Hlin Hbr Hid Hfresh payload. destruct (prepare_spec es settings options p Hp) as (c0 & c & Hprep).
  destruct (prep_first _ _ _ _ Hprep) as (e & Ee & Hfirst & _).
  split; [by eapply prep_all|]. split; [by eapply prep_some|]. split.
  - rewrite (prep_recent _ _ _ _ Hprep). unfold appendCompaction.
    rewrite (compacted_context es _ (mkCompaction summary short (pr_firstKeptEntryId p) (pr_tokensBefore p) details preserve ext)
               c e); try done.
  - intros Hremote. subst payload. unfold provider_payload. cbn [ce_preserveData]. by rewrite Hremote.
Qed.

(** ** Examples *)

Module CompactionFixture.
#[export] Instance clock : Clock := fun _ => 0%Z.

Definition text (s : jsstring) : jsstring := s ++ replicate 40 97%N.
Definition user (s : string) : AgentMessage := MUser (ContentString (text (js s))).
Definition assistant (blocks : list content_block) : AgentMessage :=
  MAssistant (mkAssistant blocks (js "p") (js "m") StopEnd (Some (mkUsage 10 10 0 0 20))).
Definition says (s : string) : AgentMessage := assistant [TextBlock (text (js s))].
Definition call (id : string) : AgentMessage := assistant [ToolCallBlock (js id) (js "read") [(js "path", JStr (js "f"))] None].
Definition result (id : string) : AgentMessage :=
  MToolResult (js id) (js "read") (ContentBlocks [TextBlock (text (js id))]) None false None.
Definition note (s : string) : entry_body := ECustomMessage (js "note") (ContentString (text (js s))) true None None.

(** Entries in a row, with identifiers [prefix0], [prefix1], ... *)
Fixpoint chain (prefix : jsstring) (n : nat) (parent : option jsstring) (bodies : list entry_body) : list SessionEntry :=
  match bodies with
  | [] => []
  | b :: rest =>
      let id := prefix ++ num_to_string (Z.of_nat n) in mkEntry id parent [] b :: chain prefix (S n) (Some id) rest
  end.

Definition settings (keep : Z) : CompactionSettings := mkSettings true None None None 100 keep None None None.
Definition options : PrepareCompactionOptions := mkOptions None None.

Definition session : list SessionEntry :=
  chain (js "e") 0 None (EMessage <$> [user "one"; call "c"; result "c"; says "two"; user "three"]).

Definition prepared_session : option CompactionPreparation := prepareCompaction session (settings 25) options.
End CompactionFixture.
Import CompactionFixture.

Lemma cut_keeps_tool_pairs_witness :
  exists p c, prepareCompaction CompactionFixture.session (CompactionFixture.settings 25) CompactionFixture.options = Some p /\
    answered CompactionFixture.session (js "c") 1 2 /\ pr_recentMessages p = omap getMessageFromEntry (drop c CompactionFixture.session) /\
    (c <= 2 -> c <= 1).
Proof.
  destruct (prepareCompaction CompactionFixture.session (CompactionFixture.settings 25) CompactionFixture.options) as [p|] eqn:E;
    [| exfalso; revert E; vm_compute; discriminate].
  destruct (cut_keeps_tool_pairs _ _ _ _ E) as (c0 & c & Hrecent & _ & Hpairs & _).
  assert (answered CompactionFixture.session (js "c") 1 2) as Ha.
  { split; [lia|]. split; [| split; [| intros k Hk; lia]].
    - eexists. split; [reflexivity|]. eexists _, _, _, _. split; [reflexivity | left].
    - eexists. split; [reflexivity|]. by eexists _, _, _, _, _. }
  exists p, c. split; [done|]. split; [done|]. split; [done|]. exact (Hpairs _ _ _ Ha).
Defined.

Lemma file_lists_exact_witness :
  exists p, prepareCompaction session (settings 25) options = Some p /\
    (js "f" ∈ (computeFileLists (pr_fileOps p)).1 <->
     (js "f" ∉ (computeFileLists (pr_fileOps p)).2) /\
     (carried (js "readFiles") None (js "f") \/
      exists m, m ∈ pr_messagesToSummarize p ++ pr_turnPrefixMessages p /\ touches (js "read") (js "f") m)).
Proof.
  destruct (prepareCompaction session (settings 25) options) as [p|] eqn:E; [| exfalso; revert E; vm_compute; discriminate].
  exists p. split; [done|]. pose proof (file_lists_exact _ _ _ _ E) as Hf.
  destruct (computeFileLists (pr_fileOps p)) as [r m]. destruct Hf as (_ & Hr & _). exact (Hr (js "f")).
Defined.

Lemma session_linear : linear_session session.
Proof.
  constructor.
  - repeat split.
  - apply (bool_decide_eq_true_1 _). vm_compute. reflexivity.
  - repeat constructor; discriminate.
Qed.

Lemma compaction_conserves_messages_witness :
  exists p, prepareCompaction CompactionFixture.session (CompactionFixture.settings 25) CompactionFixture.options = Some p /\
    pr_messagesToSummarize p ++ pr_turnPrefixMessages p <> [] /\
    sc_messages (buildSessionContext
      (appendCompaction CompactionFixture.session (js "x") [] (js "sum") None (pr_firstKeptEntryId p) (pr_tokensBefore p) None false None)
      LeafDefault None)
    = MCompactionSummary (js "sum") None (pr_tokensBefore p) None 0 :: pr_recentMessages p.
Proof.
  destruct (prepareCompaction CompactionFixture.session (CompactionFixture.settings 25) CompactionFixture.options) as [p|] eqn:E;
    [| exfalso; revert E; vm_compute; discriminate].
  exists p. destruct (compaction_conserves_messages _ _ _ _ (js "x") [] (js "sum") None None false None E) as (_ & Hs & Hc & _).
  - exact session_linear.
  - repeat constructor.
  - done.
  - apply (bool_decide_eq_true_1 _). vm_compute. reflexivity.
  - split; [done|]. split; [done|]. by rewrite Hc.
Defined.

Section examples.

(** The messages a first compaction kept are in no later summary and in no later context: the
    second compaction begins after the entry of the first. *)
Definition after_first : list SessionEntry :=
  appendCompaction session (js "x") [] (js "first") None (js "e4") 20 None false None.
Definition continued : list SessionEntry :=
  after_first ++ chain (js "f") 0 (Some (js "x")) (EMessage <$> [says "four"; user "five"; says "six"; user "seven"]).
Definition after_second (p : CompactionPreparation) : list SessionEntry :=
  appendCompaction continued (js "y") [] (js "second") None (pr_firstKeptEntryId p) (pr_tokensBefore p) None false None.

Definition mentions (m : jsstring) (l : list AgentMessage) : bool :=
  existsb (fun x => existsb (fun f => starts_with m f) (co_fragments (collectMessageFragments x))) l.

Example first_keeps_three :
  pr_firstKeptEntryId <$> prepareCompaction session (settings 10) options = Some (js "e4").
Proof. vm_compute. reflexivity. Qed.

Example kept_messages_lost :
  mentions (js "three") (sc_messages (buildSessionContext continued LeafDefault None)) = true /\
  exists p, prepareCompaction continued (settings 25) options = Some p /\
    mentions (js "three") (pr_messagesToSummarize p ++ pr_turnPrefixMessages p ++ pr_recentMessages p) = false /\
    mentions (js "three") (sc_messages (buildSessionContext (after_second p) LeafDefault None)) = false.
Proof. split; [by vm_compute|]. eexists. split; [by vm_compute|]. split; by vm_compute. Qed.

(** A change of settings before the kept user message makes the cut count as one inside the turn
    before, which then is summarised as the beginning of a turn. *)
Example settings_split_turn :
  let es := chain (js "e") 0 None
              ((EMessage <$> [user "one"; says "two"]) ++ [EModelChange (js "p/m") None] ++ (EMessage <$> [user "three"; says "four"])) in
  (fun p => (pr_isSplitTurn p, length (pr_messagesToSummarize p), length (pr_turnPrefixMessages p), pr_firstKeptEntryId p))
    <$> prepareCompaction es (settings 20) options = Some (true, 0, 2, js "e2").
Proof. vm_compute. reflexivity. Qed.

(** Notes of extensions in a row before the cut are kept however long they are. *)
Example notes_kept_over_budget :
  let es := chain (js "e") 0 None
              ([EMessage (user "one")] ++ (note <$> ["a"; "b"; "c"; "d"; "e"]) ++ [EMessage (user "two")]) in
  (fun p => (pr_keepRecentTokensCorrected p, length (pr_recentMessages p))) <$> prepareCompaction es (settings 10) options
    = Some (10%Z, 6).
Proof. vm_compute. reflexivity. Qed.
End examples.
