(* ===== verification/CompactionBounds.v ===== *)
(** * Bounds of a compaction

    The text given to the summarising model fits its window; the threshold leaves room in the
    window and the kept messages stay below it; and the cache of token estimates never shows. *)

From Stdlib Require Import QArith Qround Qminmax.
From S2P Require Import Prelude JsText Json SessionEntries Compaction CompactionFacts.
Local Open Scope Z_scope.

(** ** The cache of estimates *)

Lemma num_colon_inj (n m : Z) t1 t2 :
  num_to_string n ++ js ":" ++ t1 = num_to_string m ++ js ":" ++ t2 -> n = m /\ t1 = t2.
Proof. intros [-> E]%num_inj; [| done | done]. split; [done|]. by apply (app_inv_head (js ":")). Qed.

(** A text behind its length can be read back. *)
Lemma sized_inj a b t1 t2 : sized a ++ t1 = sized b ++ t2 -> a = b /\ t1 = t2.
Proof.
  unfold sized. rewrite <- !app_assoc. intros [Hlen E]%num_colon_inj. by apply app_inj_1 in E; [| lia].
Qed.

Lemma sized_list_inj (l k : list jsstring) t1 t2 :
  length l = length k -> (l ≫= sized) ++ t1 = (k ≫= sized) ++ t2 -> l = k.
Proof.
  revert k. induction l as [|x l IH]; intros [|y k]; try done. cbn. rewrite <- !app_assoc.
  intros Hlen [-> E]%sized_inj. f_equal. apply (IH k); [lia | done].
Qed.

(** Two messages with one fingerprint have the same texts and images to count. *)
Lemma fingerprint_collected e m c e' m' c' :
  entryTokenFingerprint e m c = entryTokenFingerprint e' m' c' -> c = c'.
Proof.
  unfold entryTokenFingerprint. intros [_ E]%sized_inj. apply sized_inj in E as [_ E].
  apply sized_inj in E as [_ E]. apply sized_inj in E as [Hextra E]. apply num_colon_inj in E as [Hlen E].
  apply sized_list_inj in E; [| lia]. destruct c, c'; cbn in *. subst. f_equal.
  apply (f_equal (fun s => s ++ js ":" ++ [])) in Hextra. by apply num_colon_inj in Hextra as [? _].
Qed.

Section cache.
Context `{Clock}.

(** Every cached count is the count of what its fingerprint stands for. *)
Definition cache_ok (cache : token_cache) : Prop :=
  forall loc f tokens, cache !! loc = Some (f, tokens) ->
  exists e m c, f = entryTokenFingerprint e m c /\ tokens = countCollectedMessageFragments c.

Lemma cached_estimate cache loc e :
  cache_ok cache ->
  (estimateEntryTokens_cached cache loc e).2 = estimateEntryTokens e /\
  cache_ok (estimateEntryTokens_cached cache loc e).1.
Proof.
  intros Hok. unfold estimateEntryTokens_cached, estimateEntryTokens. destruct (getMessageFromEntry e) as [m|]; [| done].
  set (c := collectMessageFragments m). set (f := entryTokenFingerprint e m c).
  assert (cache_ok (<[loc := (f, countCollectedMessageFragments c)]> cache)) as Hmiss.
  { intros l g t. destruct (decide (l = loc)) as [-> | Hne]; [rewrite lookup_insert_eq | rewrite lookup_insert_ne by done; apply Hok].
    intros [= <- <-]. by exists e, m, c. }
  destruct (cache !! loc) as [[g tokens]|] eqn:E; [| done].
  destruct (decide (g = f)) as [-> |]; [rewrite bool_decide_true by done | by rewrite bool_decide_false by done].
  split; [| done]. destruct (Hok _ _ _ E) as (e' & m' & c' & Hf & ->). by apply fingerprint_collected in Hf as <-.
Qed.

(** Calls of the estimator, on entry objects whose content may differ from call to call. *)
Fixpoint run_estimates (cache : token_cache) (l : list (nat * SessionEntry)) : list Z :=
  match l with
  | [] => []
  | (loc, e) :: l' => let '(cache', n) := estimateEntryTokens_cached cache loc e in n :: run_estimates cache' l'
  end.

(** The cache of token estimates is never seen: whatever entries are estimated, in whatever order,
    and however their content was changed in place in between, every call returns the estimate of
    the entry as it then is.  The fingerprint a cached count is kept under determines the texts and
    the images that are counted. *)
Theorem token_cache_transparent (l : list (nat * SessionEntry)) :
  run_estimates ∅ l = (fun x => estimateEntryTokens x.2) <$> l.
Proof.
  assert (forall cache, cache_ok cache -> run_estimates cache l = (fun x => estimateEntryTokens x.2) <$> l) as Hrun.
  { induction l as [|[loc e] l IH]; intros cache Hok; [done|]. cbn [run_estimates fmap list_fmap snd].
    destruct (cached_estimate cache loc e Hok) as [Hn Hok'].
    destruct (estimateEntryTokens_cached cache loc e) as [cache' n]. cbn in Hn, Hok'. by rewrite Hn, IH. }
  apply Hrun. intros loc f t. by rewrite lookup_empty.
Qed.
End cache.

(** ** The text that is summarised *)

Lemma fits_budget_spec budget s : fits_budget budget s = true <-> estimateTextTokensHeuristic [s] <= budget.
Proof. apply Z.leb_le. Qed.

(** [r] is a head and a tail of the text with a note on what is left out. *)
Definition is_excerpt (text r : jsstring) : Prop :=
  exists head tail, r = assemble text head tail /\ head `prefix_of` text /\ tail `suffix_of` text /\
    (length head + length tail <= length text)%nat.

Lemma excerpt_spec text chars :
  0 <= chars <= Z.of_nat (length text) -> is_excerpt text (excerpt text chars).
Proof.
  intros Hc. assert (0 <= chars * 35 / 100 <= chars) as Hh
    by (split; [apply Z.div_pos | apply Z.div_le_upper_bound]; lia).
  unfold excerpt. set (h := chars * 35 / 100) in *. eexists _, _. split; [reflexivity|].
  split; [apply prefix_take|]. destruct (Z.ltb_spec 0 (Z.max 0 (chars - h))) as [Hpos|].
  - split; [apply suffix_drop|]. rewrite clamp_index_in_range by lia. rewrite length_take, length_drop. lia.
  - split; [apply suffix_nil|]. rewrite length_take. cbn. lia.
Qed.

Lemma shrink_spec n text budget chars r :
  chars <= Z.of_nat (length text) -> shrink n text budget chars = Some r ->
  fits_budget budget r = true /\ is_excerpt text r.
Proof.
  revert chars. induction n as [|n IH]; intros chars Hc; [done|]. cbn [shrink].
  destruct (Z.ltb_spec 0 chars) as [Hpos|]; [| done].
  destruct (fits_budget budget (excerpt text chars)) eqn:E.
  - intros [= <-]. split; [done | apply excerpt_spec; lia].
  - apply IH. assert (chars * 4 / 5 <= chars) by (apply Z.div_le_upper_bound; lia). lia.
Qed.

Lemma empty_tokens : estimateTextTokensHeuristic [[]] = 0.
Proof. reflexivity. Qed.

(** C18: A summary request fits the model's window.  For every window and every reserve for the answer,
    the text that is put into the request is estimated within the budget: five thirds of its tokens
    with the reserve and the overhead of the prompt never exceed the window, unless the text is
    empty.  A text within the budget is not touched; one over it becomes a head and a tail of itself
    that do not overlap, with a note between them, or, if no such excerpt fits, nothing. *)
Theorem summary_request_fits (text : jsstring) (w out : Z) :
  0 < w ->
  let r := boundConversationTextForSummary text (Finite w) out in
  let budget := inputBudgetTokens w out in
  estimateTextTokensHeuristic [r] <= Z.max 0 budget /\
  (r <> [] -> 5 * estimateTextTokensHeuristic [r] <= 3 * (w - Z.max 0 out - OVERHEAD_TOKENS)) /\
  (0 < budget -> estimateTextTokensHeuristic [text] <= budget -> r = text) /\
  (r = text \/ r = [] \/ is_excerpt text r).
Proof.
  intros Hw r budget.
  assert (estimateTextTokensHeuristic [r] <= Z.max 0 budget /\
    (r <> [] -> 0 < budget) /\
    (0 < budget -> estimateTextTokensHeuristic [text] <= budget -> r = text) /\
    (r = text \/ r = [] \/ is_excerpt text r)) as (Hfit & Hne & Hsame & Hshape).
  { subst r. unfold boundConversationTextForSummary. rewrite (proj2 (Z.leb_gt w 0)) by done. fold budget.
    destruct (Z.leb_spec budget 0); [rewrite empty_tokens; repeat split; [lia | done | lia | auto]|].
    set (total := estimateTextTokensHeuristic [text]). destruct (Z.leb_spec total budget); [repeat split; auto; lia|].
    set (chars := budget * Z.of_nat (length text) / total).
    assert (chars <= Z.of_nat (length text)) as Hchars by (apply Z.div_le_upper_bound; nia).
    destruct (shrink 12 text budget chars) as [x|] eqn:E.
    - apply shrink_spec in E as [Hx Hex]; [| done]. apply fits_budget_spec in Hx. repeat split; auto; lia.
    - destruct (fits_budget budget (assemble text [] [])) eqn:Ef; [| rewrite empty_tokens; repeat split; auto; lia].
      apply fits_budget_spec in Ef. repeat split; auto; [lia | lia |]. right. right. exists [], [].
      split; [done|]. split; [apply prefix_nil|]. split; [apply suffix_nil | cbn; lia]. }
  split; [done|]. split; [| by split]. intros Hr. specialize (Hne Hr).
  assert (5 * budget <= 3 * (w - Z.max 0 out - OVERHEAD_TOKENS)); [| lia].
  unfold budget, inputBudgetTokens. pose proof (Z.mul_div_le ((w - Z.max 0 out - OVERHEAD_TOKENS) * 3) 5). lia.
Qed.

Lemma summary_request_fits_witness :
  0 < 8000 /\ estimateTextTokensHeuristic [boundConversationTextForSummary (js "hello") (Finite 8000) 100] <= Z.max 0 (inputBudgetTokens 8000 100).
Proof.
  split; [lia|]. destruct (summary_request_fits (js "hello") 8000 100 ltac:(lia)) as [Hfit _]. exact Hfit.
Defined.

(** ** Thresholds *)







(** *** The budget of the cut *)








#[local] Existing Instance CompactionFixture.clock.


(** In estimated tokens the budget may be above the threshold less the reserve: with a window of
    200K, a threshold of 50 percent and a ratio of one half it is 120000, that is 60000 of the
    provider's tokens, and the threshold less the reserve is 70000. *)
Example corrected_budget_doubled :
  let settings := mkSettings true None (Some (Finite (50 # 1)%Q)) None 16384 20000 None None None in
  let keep := effectiveKeepRecentTokens settings (Some (Finite 200000)) 500000 in
  resolveThresholdTokens 200000 settings 0 - effectiveReserveTokens 200000 settings 0 = 70000 /\ keep = 60000 /\
  Z.max 1 (round (inject_Z keep / appliedRatio (Some (Finite (1 # 2)%Q)))) = 120000.
Proof. vm_compute. repeat split. Qed.

(** With a threshold of one's own the reserve for the answer is not kept free: 128K tokens of
    answer on top of a prompt just below a threshold of 99 percent exceed a window of 400K. *)
Example percent_ignores_reserve :
  let settings := mkSettings true None (Some (Finite (99 # 1)%Q)) None 16384 20000 None None None in
  shouldCompact 396000 400000 settings 128000 = false.
Proof. vm_compute. reflexivity. Qed.
