(* ===== verification/SecretObfuscator.v ===== *)
(** * Hiding secrets (secrets/obfuscator.ts, secrets/regex.ts)

    Text on its way to a model has secret values replaced by placeholders
    ([#GJC1_...#], a keyed tag of the secret) or by other texts; placeholders that
    come back are turned into the secrets again.  Secrets are configured, or found by
    regular expressions while text is hidden; the obfuscator remembers the ones it
    found.

    Regular expressions, the keyed digest and the runtime's hash are parameters
    ([SecretLib]).  [exec] of a compiled global expression is given the text and
    [lastIndex], and gives the index and the text of the match. *)

From stdpp Require Import gmap.
From S2P Require Import Prelude JsText FuzzyMatch ReplaceText Json SessionEntries.

Local Open Scope nat_scope.

Class SecretLib := {
  regexp : Type;
  new_RegExp : jsstring -> jsstring -> option regexp;
  regexp_exec : regexp -> jsstring -> nat -> option (nat * jsstring);
  (* HMAC of the domain and the secret, cut to 16 bytes, as base64url *)
  hmac_tag : jsstring -> jsstring -> jsstring;
  Bun_hash : jsstring -> Z
}.

Inductive secret_type := PlainSecret | RegexSecret.
Inductive secret_mode := ModeObfuscate | ModeReplace.

#[export] Instance secret_type_eq_dec : EqDecision secret_type.
Proof. solve_decision. Defined.
#[export] Instance secret_mode_eq_dec : EqDecision secret_mode.
Proof. solve_decision. Defined.

Record SecretEntry := mkSecret {
  sx_type : secret_type;
  sx_content : jsstring;
  sx_mode : option secret_mode;
  sx_replacement : option jsstring;
  sx_flags : option jsstring
}.

(** ** secrets/regex.ts *)

Definition enforceGlobalFlag (flags : jsstring) : jsstring :=
  if includes (js "g") flags then flags else flags ++ js "g".

Definition SLASH : N := 47%N.
Definition BACKSLASH : N := 92%N.

(** A pattern written as a literal, [/pattern/flags]: after the first slash, what stands before
    the first slash that no backslash escapes, and what follows it. *)
Fixpoint literal_body (s acc : jsstring) : option (jsstring * jsstring) :=
  match s with
  | [] => None
  | c :: rest =>
      if (c =? SLASH)%N then Some (acc, rest)
      else if (c =? BACKSLASH)%N then
        match rest with
        | d :: rest' => if is_line_terminator d then None else literal_body rest' (acc ++ [c; d])
        | [] => None
        end
      else literal_body rest (acc ++ [c])
  end.

Definition literalMatch (pattern : jsstring) : option (jsstring * jsstring) :=
  match pattern with
  | c :: rest =>
      if (c =? SLASH)%N then
        match literal_body rest [] with
        | Some (body, flags) => if forallb (fun f => bool_decide (f ∈ js " gimsuy")) flags then Some (body, flags) else None
        | None => None
        end
      else None
  | [] => None
  end.

(** [[...new Set([...a, ...b])].join("")] *)
Definition merge_flags (a b : jsstring) : jsstring :=
  fold_left (fun seen f => if bool_decide (f ∈ seen) then seen else seen ++ [f]) (a ++ b) [].

(** ** Helpers *)

(** [text.replace(re, f)] for a global expression: [m] gives, for the rest of the text, the length
    of the match at its start and the text put in its place. *)
Fixpoint replace_scan (m : jsstring -> option (nat * jsstring)) (skip : nat) (s : jsstring) : jsstring :=
  match s with
  | [] => match skip, m [] with O, Some (O, r) => r | _, _ => [] end
  | c :: rest =>
      match skip with
      | S skip => replace_scan m skip rest
      | O =>
          match m s with
          | Some (S n, r) => r ++ replace_scan m n rest
          | Some (O, r) => r ++ c :: replace_scan m 0 rest
          | None => c :: replace_scan m 0 rest
          end
      end
  end.

Definition replaceAll (text search replacement : jsstring) : jsstring :=
  if bool_decide (search = []) || negb (includes search text) then text
  else join replacement (split_text search 0 text).

(** A [Map] in the order of insertion. *)
Fixpoint map_set {A} (k : jsstring) (v : A) (l : list (jsstring * A)) : list (jsstring * A) :=
  match l with
  | [] => [(k, v)]
  | (k', v') :: rest => if bool_decide (k' = k) then (k, v) :: rest else (k', v') :: map_set k v rest
  end.

Definition REPLACEMENT_CHARS : jsstring :=
  js "ABCDEFGHIJKLMNOPQRSTUVWXYZabcdefghijklmnopqrstuvwxyz0123456789".

Definition PLACEHOLDER_HEAD : jsstring := js "#GJC1_".
Definition HASH : N := 35%N.

(** [[A-Za-z0-9_-]] *)
Definition is_tag_char (c : N) : bool :=
  (((65 <=? c) && (c <=? 90)) || ((97 <=? c) && (c <=? 122)) || ((48 <=? c) && (c <=? 57)) || (c =? 95) || (c =? 45))%N.

(** A match of [/#GJC1_[A-Za-z0-9_-]{22}#/] at the start of a text. *)
Definition placeholder_at (s : jsstring) : option jsstring :=
  if starts_with PLACEHOLDER_HEAD s
     && (length (take 22 (drop 6 s)) =? 22) && forallb is_tag_char (take 22 (drop 6 s))
     && bool_decide (s !! 28 = Some HASH)
  then Some (take 29 s) else None.

(** ** The obfuscator *)

Section obfuscator.
Context `{SecretLib}.

Definition compileSecretRegex (pattern : jsstring) (flags : option jsstring) : option regexp :=
  let '(resolvedPattern, resolvedFlags) :=
    match literalMatch pattern with
    | Some (body, literalFlags) => (body, merge_flags (default [] flags) literalFlags)
    | None => (pattern, default [] flags)
    end in
  if includes (js "y") resolvedFlags then None
  else new_RegExp resolvedPattern (enforceGlobalFlag resolvedFlags).

Fixpoint replacement_chars (n : nat) (i : Z) (h : Z) : jsstring :=
  match n with
  | O => []
  | S n =>
      let h := Z.lxor h ((i + 1) * 0x9e3779b97f4a7c15) in
      let idx := (Z.abs h `mod` 62)%Z in
      match REPLACEMENT_CHARS !! Z.to_nat idx with Some c => [c] | None => [] end ++ replacement_chars n (i + 1) h
  end.

Definition generateDeterministicReplacement (secret : jsstring) : jsstring :=
  replacement_chars (length secret) 0 (Bun_hash secret).

Definition buildPlaceholder (secret key : jsstring) : jsstring :=
  PLACEHOLDER_HEAD ++ hmac_tag key secret ++ [HASH].

Record RegexEntry := mkRegexEntry {
  re_regex : regexp; re_mode : secret_mode; re_replacement : option jsstring
}.

Record ObfuscateMapping := mkMapping { om_secret : jsstring; om_index : nat; om_placeholder : jsstring }.

Record SecretObfuscator := mkObfuscator {
  ob_placeholderKey : jsstring;
  ob_plainMappings : list (jsstring * nat);
  ob_regexEntries : list RegexEntry;
  ob_obfuscateMappings : gmap nat (jsstring * jsstring);
  ob_replaceMappings : list (jsstring * jsstring);
  ob_sortedReplaceMappings : list (jsstring * jsstring);
  ob_sortedObfuscateMappings : list ObfuscateMapping;
  ob_obfuscateIndexBySecret : gmap jsstring nat;
  ob_deobfuscateMap : gmap jsstring jsstring;
  ob_combinedPlainRegex : option (list jsstring);
  ob_combinedPlainReplacementBySecret : gmap jsstring jsstring;
  ob_combinedPlainRegexDirty : bool;
  ob_useSequentialPlainReplacement : bool;
  ob_nextIndex : nat;
  ob_hasAny : bool
}.

Definition new_obfuscator (key : jsstring) : SecretObfuscator :=
  mkObfuscator key [] [] ∅ [] [] [] ∅ ∅ None ∅ true false 0 false.

(** One round of the constructor's loop over the entries. *)
Definition add_entry (o : SecretObfuscator) (entry : SecretEntry) : SecretObfuscator :=
  let '(mkObfuscator key plain regexes maps repl sr so byS deob c cr d sq index any) := o in
  let mode := default ModeObfuscate (sx_mode entry) in
  match sx_type entry, mode with
  | PlainSecret, ModeObfuscate =>
      let placeholder := buildPlaceholder (sx_content entry) key in
      mkObfuscator key (map_set (sx_content entry) index plain) regexes
        (<[index := (sx_content entry, placeholder)]> maps) repl sr so
        (<[sx_content entry := index]> byS) (<[placeholder := sx_content entry]> deob) c cr d sq (S index) any
  | PlainSecret, ModeReplace =>
      let replacement := default (generateDeterministicReplacement (sx_content entry)) (sx_replacement entry) in
      mkObfuscator key plain regexes maps (map_set (sx_content entry) replacement repl) sr so byS deob c cr d sq index any
  | RegexSecret, _ =>
      match compileSecretRegex (sx_content entry) (sx_flags entry) with
      | Some regex =>
          mkObfuscator key plain (regexes ++ [mkRegexEntry regex mode (sx_replacement entry)])
            maps repl sr so byS deob c cr d sq index any
      | None => o
      end
  end.

Definition longer_first {A} (a b : jsstring * A) : bool := length b.1 <=? length a.1.

(** What the constructor does after the loop. *)
Definition finish_construction (any : bool) (o : SecretObfuscator) : SecretObfuscator :=
  let '(mkObfuscator key plain regexes maps repl _ _ byS deob c cr d sq index _) := o in
  let sr := sort_by longer_first repl in
  let so := (fun '(secret, i) => mkMapping secret i (default [] (snd <$> maps !! i))) <$> sort_by longer_first plain in
  mkObfuscator key plain regexes maps repl sr so byS deob c cr d sq index any.

(** [None] is the error of a key that does not have 32 bytes. *)
Definition constructor (entries : list SecretEntry) (key : jsstring) : option SecretObfuscator :=
  if length key =? 32 then
    Some (finish_construction (negb (bool_decide (entries = []))) (fold_left add_entry entries (new_obfuscator key)))
  else None.

(** ** Known secrets *)

(** The pairs of a secret and what stands for it, in the order they are tried. *)
Definition mappings (o : SecretObfuscator) : list (jsstring * jsstring) :=
  ob_sortedReplaceMappings o
  ++ ((fun m => (om_secret m, om_placeholder m)) <$> ob_sortedObfuscateMappings o).

Definition some_indexed {A} (p : nat -> A -> bool) (l : list A) : bool := existsb id (imap p l).

(** Some replacement holds a secret, or some secret another one. *)
Definition needs_sequential (l : list (jsstring * jsstring)) : bool :=
  some_indexed (fun index mapping =>
    some_indexed (fun otherIndex other =>
      (0 <? length other.1)
      && (includes other.1 mapping.2
          || (negb (index =? otherIndex) && (includes other.1 mapping.1 || includes mapping.1 other.1)))) l) l.

Definition add_combined (m : gmap jsstring jsstring) (mapping : jsstring * jsstring) : gmap jsstring jsstring :=
  match m !! mapping.1 with Some _ => m | None => <[mapping.1 := mapping.2]> m end.

Definition ensureCombinedPlainRegex (o : SecretObfuscator) : SecretObfuscator :=
  if negb (ob_combinedPlainRegexDirty o) then o else
  let '(mkObfuscator key plain regexes maps repl sr so byS deob _ _ _ _ index any) := o in
  let l := mappings o in
  mkObfuscator key plain regexes maps repl sr so byS deob
    (if 0 <? length l then Some l.*1 else None)
    (fold_left add_combined l ∅) false (needs_sequential l) index any.

Definition replace_step (result : jsstring) (mapping : jsstring * jsstring) : jsstring :=
  replaceAll result mapping.1 mapping.2.

Definition obfuscatePlainMappingsSequential (o : SecretObfuscator) (text : jsstring) : jsstring :=
  let result := fold_left replace_step (ob_sortedReplaceMappings o) text in
  fold_left (fun result m => replace_step result (om_secret m, om_placeholder m)) (ob_sortedObfuscateMappings o) result.

(** The escaped secrets as alternatives, the first that stands at the start of the text. *)
Definition alternative_at (secrets : list jsstring) (replacements : gmap jsstring jsstring) (s : jsstring) :
    option (nat * jsstring) :=
  match find (fun secret => starts_with secret s) secrets with
  | Some matched => Some (length matched, default matched (replacements !! matched))
  | None => None
  end.

Definition obfuscatePlainMappings (o : SecretObfuscator) (text : jsstring) : SecretObfuscator * jsstring :=
  let o := ensureCombinedPlainRegex o in
  (o, if ob_useSequentialPlainReplacement o then obfuscatePlainMappingsSequential o text
      else match ob_combinedPlainRegex o with
           | None => text
           | Some secrets => replace_scan (alternative_at secrets (ob_combinedPlainReplacementBySecret o)) 0 text
           end).

(** ** Regular expressions *)

(** The loop of [exec]: the texts of the matches, each once; [None] when the fuel is used up. *)
Fixpoint collect_matches (fuel : nat) (regex : regexp) (text : jsstring) (lastIndex : nat) (matches : list jsstring) :
    option (list jsstring) :=
  match fuel with
  | O => None
  | S fuel =>
      match regexp_exec regex text lastIndex with
      | None => Some matches
      | Some (index, matched) =>
          if bool_decide (matched = []) then collect_matches fuel regex text (S index) matches
          else collect_matches fuel regex text (index + length matched) (set_add matched matches)
      end
  end.

Definition matches_of (regex : regexp) (text : jsstring) : list jsstring :=
  default [] (collect_matches (length text + 2) regex text 0 []).

(** The binary search; the interval shrinks in every round. *)
Fixpoint insertion_point (fuel : nat) (l : list ObfuscateMapping) (len lo hi : nat) : nat :=
  match fuel with
  | O => lo
  | S fuel =>
      if lo <? hi then
        let mid := Nat.div2 (lo + hi) in
        match l !! mid with
        | Some m => if length (om_secret m) <? len then insertion_point fuel l len lo mid
                    else insertion_point fuel l len (S mid) hi
        | None => lo
        end
      else lo
  end.

Definition insertSortedObfuscateMapping (mapping : ObfuscateMapping) (l : list ObfuscateMapping) : list ObfuscateMapping :=
  let lo := insertion_point (length l) l (length (om_secret mapping)) 0 (length l) in
  take lo l ++ mapping :: drop lo l.

(** A secret a regular expression found for the first time. *)
Definition discover (o : SecretObfuscator) (matchValue : jsstring) : SecretObfuscator :=
  let '(mkObfuscator key plain regexes maps repl sr so byS deob c cr _ sq index any) := o in
  let placeholder := buildPlaceholder matchValue key in
  mkObfuscator key plain regexes (<[index := (matchValue, placeholder)]> maps) repl sr
    (insertSortedObfuscateMapping (mkMapping matchValue index placeholder) so)
    (<[matchValue := index]> byS) (<[placeholder := matchValue]> deob) c cr true sq (S index) any.

Definition hide_match (entry : RegexEntry) (st : SecretObfuscator * jsstring) (matchValue : jsstring) :
    SecretObfuscator * jsstring :=
  let '(o, result) := st in
  match re_mode entry with
  | ModeReplace =>
      let replacement := default (generateDeterministicReplacement matchValue) (re_replacement entry) in
      (o, replaceAll result matchValue replacement)
  | ModeObfuscate =>
      let '(o, index) := match ob_obfuscateIndexBySecret o !! matchValue with
                         | Some index => (o, index)
                         | None => (discover o matchValue, ob_nextIndex o)
                         end in
      (o, replaceAll result matchValue (default [] (snd <$> ob_obfuscateMappings o !! index)))
  end.

Definition hide_regex (st : SecretObfuscator * jsstring) (entry : RegexEntry) : SecretObfuscator * jsstring :=
  fold_left (hide_match entry) (matches_of (re_regex entry) st.2) st.

Definition obfuscate (o : SecretObfuscator) (text : jsstring) : SecretObfuscator * jsstring :=
  if negb (ob_hasAny o) then (o, text)
  else fold_left hide_regex (ob_regexEntries o) (obfuscatePlainMappings o text).

Definition deobfuscate (o : SecretObfuscator) (text : jsstring) : jsstring :=
  if negb (ob_hasAny o) || negb (includes [HASH] text) then text
  else replace_scan (fun s => match placeholder_at s with
                              | Some matched => Some (length matched, default matched (ob_deobfuscateMap o !! matched))
                              | None => None
                              end) 0 text.

(** ** Values and messages *)

(** The value and whether the source returns a new object for it. *)
Fixpoint deepWalkStrings (transform : jsstring -> jsstring) (v : json) : json * bool :=
  match v with
  | JStr s => (JStr (transform s), negb (bool_decide (transform s = s)))
  | JArr items =>
      let result := map (deepWalkStrings transform) items in
      if existsb snd result then (JArr (map fst result), true) else (v, false)
  | JObj fields =>
      let result := map (fun kv => (kv.1, deepWalkStrings transform kv.2)) fields in
      if existsb (fun kv => kv.2.2) result then (JObj (map (fun kv => (kv.1, kv.2.1)) result), true) else (v, false)
  | _ => (v, false)
  end.

Definition deobfuscateObject (o : SecretObfuscator) (v : json) : json :=
  if negb (ob_hasAny o) then v else (deepWalkStrings (deobfuscate o) v).1.

Definition obfuscate_block (st : SecretObfuscator * list content_block) (block : content_block) :
    SecretObfuscator * list content_block :=
  let '(o, done) := st in
  match block with
  | TextBlock text => let '(o, obfuscated) := obfuscate o text in (o, done ++ [TextBlock obfuscated])
  | _ => (o, done ++ [block])
  end.

Definition obfuscate_blocks (o : SecretObfuscator) (blocks : list content_block) : SecretObfuscator * list content_block :=
  fold_left obfuscate_block blocks (o, []).

(** Only content that is an array is looked at. *)
Definition obfuscate_content (o : SecretObfuscator) (content : message_content) : SecretObfuscator * message_content :=
  match content with
  | ContentString _ => (o, content)
  | ContentBlocks blocks => let '(o, blocks) := obfuscate_blocks o blocks in (o, ContentBlocks blocks)
  end.

Definition obfuscate_message (o : SecretObfuscator) (msg : AgentMessage) : SecretObfuscator * AgentMessage :=
  match msg with
  | MUser content => let '(o, content) := obfuscate_content o content in (o, MUser content)
  | MDeveloper content => let '(o, content) := obfuscate_content o content in (o, MDeveloper content)
  | MAssistant m =>
      let '(o, blocks) := obfuscate_blocks o (am_content m) in
      (o, MAssistant (mkAssistant blocks (am_provider m) (am_model m) (am_stopReason m) (am_usage m)))
  | MToolResult id name content prunedAt isError details =>
      let '(o, content) := obfuscate_content o content in (o, MToolResult id name content prunedAt isError details)
  | MCustom ty content display details attribution timestamp =>
      let '(o, content) := obfuscate_content o content in (o, MCustom ty content display details attribution timestamp)
  | MHook ty content => let '(o, content) := obfuscate_content o content in (o, MHook ty content)
  | _ => (o, msg)
  end.

Fixpoint obfuscateMessages (o : SecretObfuscator) (messages : list AgentMessage) : SecretObfuscator * list AgentMessage :=
  match messages with
  | [] => (o, [])
  | msg :: rest =>
      let '(o, msg) := obfuscate_message o msg in
      let '(o, rest) := obfuscateMessages o rest in
      (o, msg :: rest)
  end.

End obfuscator.
