(* ===== verification/SecretFacts.v ===== *)
(** * What hiding secrets promises

    A hidden text is described by a template: characters of the original text, and
    tokens that stand for a secret.  A replacement refines the template as long as no
    secret can be confused with a part of a token ([apart]); from the template follow that no
    secret is left, and that the original comes back.  The files secrets/obfuscator.ts and
    secrets/regex.ts are in [SecretObfuscator]. *)

From stdpp Require Import gmap relations sorting.
From S2P Require Import Prelude JsText TextNormalize FuzzyMatch FuzzyFacts ReplaceText Json SessionEntries SecretObfuscator.

Local Open Scope nat_scope.

(** ** Occurrences *)

Definition occurs (x s : jsstring) : Prop := exists pre post, s = pre ++ x ++ post.

Lemma starts_with_iff x s : starts_with x s = true <-> exists post, s = x ++ post.
Proof.
  split; [intros E; eexists; by apply starts_with_spec|]. intros [post ->].
  unfold starts_with. apply bool_decide_eq_true. by rewrite take_app_length.
Qed.

Lemma occurs_cons x c s : occurs x (c :: s) <-> starts_with x (c :: s) = true \/ occurs x s.
Proof.
  rewrite starts_with_iff. split.
  - intros ([|d pre] & post & E); [left; by exists post|]. injection E as -> ->. right. by exists pre, post.
  - intros [[post E]|(pre & post & ->)]; [by exists [], post|by exists (c :: pre), post].
Qed.

Lemma includes_iff x s : includes x s = true <-> occurs x s.
Proof.
  unfold includes. rewrite bool_decide_eq_true. induction s as [|c s IH].
  - cbn [indexOf]. destruct (starts_with x []) eqn:E.
    + split; [|by eauto]. intros _. apply starts_with_iff in E as [post E]. by exists [], post.
    + split; [by intros []|]. intros (pre & post & Ep). symmetry in Ep. apply app_nil in Ep as [-> Ep].
      rewrite <- not_true_iff_false in E. destruct E. apply starts_with_iff. by exists post.
  - rewrite occurs_cons, <- IH. cbn [indexOf]. destruct (starts_with x (c :: s)); [split; eauto|].
    rewrite fmap_is_Some. naive_solver.
Qed.

Lemma occurs_elem x s c : occurs x s -> c ∈ x -> c ∈ s.
Proof. intros (pre & post & ->). set_solver. Qed.

(** [x] is not a part of [r], and no occurrence of [x] can overlap an end of [r]. *)
Definition apart (x r : jsstring) : Prop :=
  (exists c, head r = Some c /\ c ∉ x) /\ (exists c, last r = Some c /\ c ∉ x) /\ ~ occurs x r.

Lemma apart_suffix x r r1 r2 rest post :
  apart x r -> r = r1 ++ r2 -> r2 <> [] -> r2 ++ rest = x ++ post -> False.
Proof.
  intros (_ & (c & Hl & Hc) & Ho) -> Hne E. apply app_eq_inv in E as [(k & -> & ->)|(k & -> & ->)].
  - apply Ho. by exists r1, k.
  - apply Hc. rewrite last_app in Hl.
    destruct (last r2) as [d|] eqn:Ed; [|by apply last_None in Ed]. injection Hl as ->.
    apply elem_of_app. left. apply last_Some in Ed as [? ->]. set_solver.
Qed.

(** ** Templates *)

Inductive item := Raw (c : N) | Tok (secret shown : jsstring).

Definition item_shown (i : item) : jsstring := match i with Raw c => [c] | Tok _ r => r end.
Definition item_original (i : item) : jsstring := match i with Raw c => [c] | Tok x _ => x end.

Definition shown (T : list item) : jsstring := T ≫= item_shown.
Definition original (T : list item) : jsstring := T ≫= item_original.
Definition raw (s : jsstring) : list item := Raw <$> s.

Definition raw_in (y : jsstring) (T : list item) : Prop := exists A B, T = A ++ raw y ++ B.

(** The tokens of [T] are among [l]. *)
Definition tokens_in (l : list (jsstring * jsstring)) (T : list item) : Prop :=
  forall x r, Tok x r ∈ T -> (x, r) ∈ l.

(** [T'] is [T] with some characters gathered into tokens. *)
Inductive refines : list item -> list item -> Prop :=
| refines_nil : refines [] []
| refines_keep i T T' : refines T T' -> refines (i :: T) (i :: T')
| refines_mark x r T T' : refines T T' -> refines (raw x ++ T) (Tok x r :: T').

Lemma shown_raw s : shown (raw s) = s.
Proof. induction s as [|c s IH]; [done|]. change (c :: shown (raw s) = c :: s). by rewrite IH. Qed.

Lemma original_raw s : original (raw s) = s.
Proof. induction s as [|c s IH]; [done|]. change (c :: original (raw s) = c :: s). by rewrite IH. Qed.

Lemma shown_app A B : shown (A ++ B) = shown A ++ shown B.
Proof. apply bind_app. Qed.

Lemma original_app A B : original (A ++ B) = original A ++ original B.
Proof. apply bind_app. Qed.

Lemma raw_cons c s : raw (c :: s) = Raw c :: raw s.
Proof. done. Qed.

Lemma refines_refl T : refines T T.
Proof. induction T; by constructor. Qed.

Lemma refines_original T T' : refines T T' -> original T' = original T.
Proof.
  induction 1 as [|i T T' _ IH|x r T T' _ IH]; [done| |].
  - change (item_original i ++ original T' = item_original i ++ original T). by rewrite IH.
  - rewrite original_app, original_raw. change (x ++ original T' = x ++ original T). by rewrite IH.
Qed.

Lemma refines_raw_prefix y T B : refines T (raw y ++ B) -> exists B', T = raw y ++ B'.
Proof.
  revert T. induction y as [|c y IH]; intros T Hr; [by exists T|].
  inversion Hr as [|i S S' HS|]; subst. destruct (IH _ HS) as [B' ->]. by exists B'.
Qed.

Lemma raw_in_cons y i T : raw_in y (i :: T) <-> (exists B, i :: T = raw y ++ B) \/ raw_in y T.
Proof.
  split.
  - intros ([|j A] & B & E); [left; by exists B|]. injection E as -> ->. right. by exists A, B.
  - intros [[B E]|(A & B & ->)]; [by exists [], B|by exists (i :: A), B].
Qed.

Lemma refines_raw_in y T T' : refines T T' -> raw_in y T' -> raw_in y T.
Proof.
  induction 1 as [|i T T' HT IH|x r T T' HT IH]; [done| |]; rewrite raw_in_cons.
  - intros [[B E]|Hr]; apply raw_in_cons; [|by right; apply IH]. left.
    apply (refines_raw_prefix y _ B). rewrite <- E. by constructor.
  - intros [[B E]|Hr].
    + destruct y as [|c y]; [|done]. by exists [], (raw x ++ T).
    + destruct (IH Hr) as (A & B & ->). exists (raw x ++ A), B. by rewrite <- !(assoc_L app).
Qed.

Lemma refines_trans T1 T2 T3 : refines T1 T2 -> refines T2 T3 -> refines T1 T3.
Proof.
  intros H12 H23. revert T1 H12. induction H23 as [|i T T' _ IH|x r T T' _ IH]; intros T1 H12; [done| |].
  - inversion H12; subst; constructor; by apply IH.
  - assert (exists B, T1 = raw x ++ B /\ refines B T) as (B & -> & HB).
    { clear IH. revert T1 H12. induction x as [|c x IHx]; intros T1 H12; [by exists T1|].
      inversion H12 as [|? S S' HS|]; subst. destruct (IHx _ HS) as (B & -> & HB). by exists B. }
    constructor. by apply IH.
Qed.

(** ** Reading a template back *)

Definition tokens_apart (x : jsstring) (T : list item) : Prop := forall y r, Tok y r ∈ T -> apart x r.

Lemma tokens_apart_cons x i T : tokens_apart x (i :: T) -> tokens_apart x T.
Proof. intros H y r Hin. apply (H y r). set_solver. Qed.

Lemma shown_prefix x T post :
  (forall y r, Tok y r ∈ T -> exists c, head r = Some c /\ c ∉ x) -> shown T = x ++ post ->
  exists T2, T = raw x ++ T2 /\ post = shown T2.
Proof.
  revert T. induction x as [|c x IH]; intros T Ht E; [by exists T|].
  destruct T as [|[d|y r] T]; [done| |].
  - change (d :: shown T = c :: x ++ post) in E. injection E as -> E.
    destruct (IH T) as (T2 & -> & ->); [|done|by exists T2].
    intros y r Hin. destruct (Ht y r) as (d & Hd & Hx); [set_solver|]. exists d. set_solver.
  - exfalso. destruct (Ht y r) as (d & Hd & Hx); [set_solver|].
    change (r ++ shown T = c :: x ++ post) in E. destruct r as [|d' r]; [done|]. cbn in Hd. injection Hd as ->.
    injection E as -> _. set_solver.
Qed.

Lemma apart_prefix x T post :
  tokens_apart x T -> shown T = x ++ post -> exists T2, T = raw x ++ T2 /\ post = shown T2.
Proof. intros Ht. apply shown_prefix. intros y r Hin. by destruct (Ht y r Hin). Qed.

Lemma occurs_app_token x r rest : x <> [] -> apart x r -> occurs x (r ++ rest) -> occurs x rest.
Proof.
  intros Hne Ha (pre & post & E). apply app_eq_inv in E as [(k & -> & E)|(k & -> & ->)]; [|by exists k, post].
  destruct k as [|d k]; [exists [], post; by rewrite E|].
  exfalso. by eapply (apart_suffix x (pre ++ d :: k) pre (d :: k)).
Qed.

Lemma occurs_shown x T : x <> [] -> tokens_apart x T -> occurs x (shown T) -> raw_in x T.
Proof.
  intros Hne. induction T as [|[c|y r] T IH]; intros Ht Ho.
  - destruct Ho as (pre & post & E). symmetry in E. apply app_nil in E as [-> E]. by apply app_nil in E as [-> _].
  - change (occurs x (c :: shown T)) in Ho. apply raw_in_cons. apply occurs_cons in Ho as [Ho|Ho].
    + left. apply starts_with_iff in Ho as [post E]. destruct (apart_prefix x (Raw c :: T) post Ht E) as (T2 & -> & _). by exists T2.
    + right. apply IH; [by eapply tokens_apart_cons|done].
  - apply raw_in_cons. right. apply IH; [by eapply tokens_apart_cons|].
    apply (occurs_app_token x r); [done| |done]. apply (Ht y r). set_solver.
Qed.

(** ** One pass *)

Section scan.
Context `{SecretLib}.

Lemma replace_scan_skip m n s : n <= length s -> replace_scan m n s = replace_scan m 0 (drop n s).
Proof.
  revert n. induction s as [|c s IH]; intros [|n] Hn; try done; cbn in Hn; [lia|]. cbn. apply IH. lia.
Qed.

Lemma alternative_nil L reps : Forall (fun x => x <> []) L -> alternative_at L reps [] = None.
Proof.
  intros HL. unfold alternative_at. destruct (find _ L) as [x|] eqn:E; [|done].
  apply find_some in E as [Hin E]. rewrite Forall_forall in HL. exfalso. apply (HL x); [by apply list_elem_of_In|].
  apply starts_with_iff in E as [post E]. symmetry in E. by apply app_nil in E as [-> _].
Qed.

Lemma alternative_none L reps s x : alternative_at L reps s = None -> x ∈ L -> starts_with x s = false.
Proof.
  unfold alternative_at. destruct (find _ L) eqn:E; [done|]. intros _ Hin.
  apply (find_none _ _ E). by apply list_elem_of_In.
Qed.

Lemma alternative_some L reps s n r : alternative_at L reps s = Some (n, r) ->
  exists x post, x ∈ L /\ s = x ++ post /\ n = length x /\ r = default x (reps !! x).
Proof.
  unfold alternative_at. destruct (find _ L) as [x|] eqn:E; [|done]. intros [= <- <-].
  apply find_some in E as [Hin E]. apply starts_with_iff in E as [post E]. exists x, post. by rewrite list_elem_of_In.
Qed.

Lemma scan_token L reps r1 r2 rest :
  (forall x, x ∈ L -> apart x (r1 ++ r2)) ->
  replace_scan (alternative_at L reps) 0 (r2 ++ rest) = r2 ++ replace_scan (alternative_at L reps) 0 rest.
Proof.
  revert r1. induction r2 as [|c r2 IH]; intros r1 Ha; [done|].
  cbn [app replace_scan]. destruct (alternative_at L reps (c :: r2 ++ rest)) as [[n r]|] eqn:E.
  - exfalso. apply alternative_some in E as (x & post & Hin & E & _).
    by eapply (apart_suffix x (r1 ++ c :: r2) r1 (c :: r2) rest post); [apply Ha| | |].
  - f_equal. apply (IH (r1 ++ [c])). intros x Hx. rewrite <- (assoc_L app). by apply Ha.
Qed.

Definition replacement_in (reps : gmap jsstring jsstring) (x : jsstring) : jsstring * jsstring :=
  (x, default x (reps !! x)).

Lemma raw_in_raw_head y c T T' :
  refines (Raw c :: T) (Raw c :: T') -> starts_with y (c :: shown T) = false -> ~ raw_in y T' -> ~ raw_in y (Raw c :: T').
Proof.
  intros Hr Hs Hn. rewrite raw_in_cons. intros [[B E]|]; [|done].
  rewrite E in Hr. apply refines_raw_prefix in Hr as [B' E']. rewrite <- not_true_iff_false in Hs. apply Hs, starts_with_iff.
  exists (shown B'). change (shown (Raw c :: T) = y ++ shown B'). by rewrite E', shown_app, shown_raw.
Qed.

Lemma raw_in_token y x r T : y <> [] -> raw_in y (Tok x r :: T) -> raw_in y T.
Proof. rewrite raw_in_cons. intros Hy [[B E]|]; [|done]. by destruct y. Qed.

Lemma scan_template L reps T :
  Forall (fun x => x <> []) L -> (forall x, x ∈ L -> tokens_apart x T) ->
  exists T', replace_scan (alternative_at L reps) 0 (shown T) = shown T' /\ refines T T'
    /\ (forall l, tokens_in l T -> tokens_in (l ++ (replacement_in reps <$> L)) T')
    /\ (forall x, x ∈ L -> ~ raw_in x T').
Proof.
  intros HL. induction T as [T IH] using (induction_ltof1 _ (@length item)). unfold ltof in IH. intros Ha.
  assert (Hne : forall x, x ∈ L -> x <> []) by (by apply Forall_forall).
  destruct T as [|[c|y r] T].
  - exists []. split; [cbn; by rewrite alternative_nil|]. split; [constructor|]. split.
    + intros l _ x r Hin. by apply elem_of_nil in Hin.
    + intros x Hx (A & B & E). symmetry in E. apply app_nil in E as [_ E]. apply app_nil in E as [E _].
      apply fmap_nil_inv in E. by apply (Hne x Hx).
  - change (shown (Raw c :: T)) with (c :: shown T). cbn [replace_scan].
    destruct (alternative_at L reps (c :: shown T)) as [[n r]|] eqn:E.
    + apply alternative_some in E as (x & post & Hx & E & -> & ->).
      destruct (apart_prefix x (Raw c :: T) post (Ha x Hx) E) as (T2 & ET & ->). destruct x as [|c' x]; [by destruct (Hne [] Hx)|].
      injection ET as <- ->. destruct (IH T2) as (T2' & E2 & R2 & Tk2 & N2).
      { cbn. rewrite length_app. lia. }
      { intros y Hy z q Hin. apply (Ha y Hy z q). set_solver. }
      exists (Tok (c :: x) (default (c :: x) (reps !! (c :: x))) :: T2'). cbn [length].
      split; [|split; [|split]].
      * rewrite shown_app, shown_raw, replace_scan_skip, drop_app_length, E2 by (rewrite length_app; lia). done.
      * change (Raw c :: raw x ++ T2) with (raw (c :: x) ++ T2). by constructor.
      * intros l Hl z q Hin. apply elem_of_cons in Hin as [[= -> ->]|Hin].
        -- apply elem_of_app. right. apply (list_elem_of_fmap_2 (replacement_in reps) _ _ Hx).
        -- apply (Tk2 l); [|done]. intros z' q' Hin'. apply Hl. set_solver.
      * intros y Hy Hr. apply raw_in_token in Hr; [by apply (N2 y)|by apply Hne].
    + destruct (IH T) as (T' & E' & R' & Tk' & N'); [cbn; lia|intros y Hy; by eapply tokens_apart_cons, Ha|].
      exists (Raw c :: T'). assert (refines (Raw c :: T) (Raw c :: T')) by (by constructor).
      split; [by rewrite E'|]. split; [done|]. split.
      * intros l Hl z q Hin. apply elem_of_cons in Hin as [[=]|Hin]. apply (Tk' l); [|done].
        intros z' q' Hin'. apply Hl. set_solver.
      * intros y Hy. eapply raw_in_raw_head; [done|by eapply alternative_none|by apply N'].
  - destruct (IH T) as (T' & E' & R' & Tk' & N'); [cbn; lia|intros z Hz; by eapply tokens_apart_cons, Ha|].
    exists (Tok y r :: T'). change (shown (Tok y r :: T)) with (r ++ shown T). split; [|split; [by constructor|split]].
    + rewrite (scan_token L reps [] r), E'; [done|]. intros x Hx. apply (Ha x Hx y r). set_solver.
    + intros l Hl z q Hin. apply elem_of_cons in Hin as [[= -> ->]|Hin]; [apply elem_of_app; left; apply Hl; set_solver|].
      apply (Tk' l); [|done]. intros z' q' Hin'. apply Hl. set_solver.
    + intros x Hx Hr. apply raw_in_token in Hr; [by apply (N' x)|by apply Hne].
Qed.

(** [replaceAll] is a pass with one alternative. *)
Lemma join_split_scan x r skip s : x <> [] ->
  join r (split_text x skip s) = replace_scan (alternative_at [x] {[x := r]}) skip s.
Proof.
  intros Hx. revert skip. induction s as [|c s IH]; intros skip.
  - cbn. rewrite alternative_nil by by repeat constructor. by destruct skip.
  - cbn [split_text replace_scan]. destruct skip as [|skip]; [|apply IH].
    unfold alternative_at at 1. cbn [find]. destruct (starts_with x (c :: s)) eqn:E.
    + rewrite lookup_singleton_eq. cbn [default from_option id]. destruct x as [|d x]; [done|]. cbn [length pred].
      rewrite <- IH. assert (Hn := split_text_ne (d :: x) (length x) s). by destruct (split_text (d :: x) (length x) s).
    + rewrite <- IH. assert (Hn := split_text_ne x 0 s). destruct (split_text x 0 s) as [|w [|w' ws]]; done.
Qed.

Lemma scan_absent x r s : x <> [] -> ~ occurs x s -> replace_scan (alternative_at [x] {[x := r]}) 0 s = s.
Proof.
  intros Hx. induction s as [|c s IH]; intros Ho; [cbn; by rewrite alternative_nil by by repeat constructor|].
  rewrite occurs_cons in Ho. cbn [replace_scan]. unfold alternative_at at 1. cbn [find].
  destruct (starts_with x (c :: s)); [by destruct Ho; left|]. f_equal. apply IH. tauto.
Qed.

Lemma replaceAll_scan text x r : x <> [] -> replaceAll text x r = replace_scan (alternative_at [x] {[x := r]}) 0 text.
Proof.
  intros Hx. unfold replaceAll. rewrite bool_decide_eq_false_2 by done. destruct (includes x text) eqn:E; cbn [negb orb].
  - by apply join_split_scan.
  - symmetry. apply scan_absent; [done|]. rewrite <- includes_iff. by destruct (includes x text).
Qed.

End scan.

(** ** Many replacements *)

(** No secret can be confused with what stands for it or for another one. *)
Definition clean (l : list (jsstring * jsstring)) : Prop :=
  forall x r y q, (x, r) ∈ l -> (y, q) ∈ l -> x <> [] /\ apart x q.

Lemma clean_subset l l' : clean l' -> l ⊆ l' -> clean l.
Proof. intros Hc Hs x r y q Hx Hy. apply (Hc x r y q); by apply Hs. Qed.

Lemma clean_tokens l T x r : clean l -> tokens_in l T -> (x, r) ∈ l -> tokens_apart x T.
Proof. intros Hc Ht Hx y q Hin. by apply (Hc x r y q Hx), Ht. Qed.

(** [s] is the text [t] with secrets of [l] hidden, and with none of [gone] in the open. *)
Definition hides (l : list (jsstring * jsstring)) (gone : list jsstring) (t s : jsstring) : Prop :=
  exists T, s = shown T /\ refines (raw t) T /\ tokens_in l T /\ (forall x, x ∈ gone -> ~ raw_in x T).

Lemma hides_start l t : hides l [] t t.
Proof.
  exists (raw t). rewrite shown_raw. split; [done|]. split; [apply refines_refl|]. split.
  - intros x r (c & ? & _)%list_elem_of_fmap. done.
  - intros x Hx. by apply elem_of_nil in Hx.
Qed.

Lemma hides_weaken l l' gone t s : l ⊆ l' -> hides l gone t s -> hides l' gone t s.
Proof. intros Hs (T & ? & ? & Ht & ?). exists T. repeat split; try done. intros x r Hin. by apply Hs, Ht. Qed.

Section many.
Context `{SecretLib}.

Lemma hides_scan l gone t s L reps :
  clean l -> hides l gone t s -> (replacement_in reps <$> L) ⊆ l ->
  hides l (gone ++ L) t (replace_scan (alternative_at L reps) 0 s).
Proof.
  intros Hc (T & -> & Hr & Ht & Hg) HL.
  assert (Hin : forall x, x ∈ L -> replacement_in reps x ∈ l).
  { intros x Hx. apply HL. by apply (list_elem_of_fmap_2 (replacement_in reps)). }
  destruct (scan_template L reps T) as (T' & E & R & Tk & N).
  { apply Forall_forall. intros x Hx%Hin. by apply (Hc _ _ _ _ Hx Hx). }
  { intros x Hx. eapply clean_tokens; [done|done|]. apply (Hin x Hx). }
  exists T'. split; [done|]. split; [by eapply refines_trans|]. split.
  - intros x r Hx. apply (Tk l Ht) in Hx. apply elem_of_app in Hx as [?|?]; [done|by apply HL].
  - intros x Hx. apply elem_of_app in Hx as [Hx|Hx]; [|by apply N]. intros Hraw. by apply (Hg x Hx), (refines_raw_in x T T').
Qed.

Lemma hides_replace l gone t s x r :
  clean l -> hides l gone t s -> (x, r) ∈ l -> hides l (gone ++ [x]) t (replaceAll s x r).
Proof.
  intros Hc Hh Hx. rewrite replaceAll_scan by (by apply (Hc _ _ _ _ Hx Hx)). apply hides_scan; [done|done|].
  intros p Hp. apply list_elem_of_fmap in Hp as (y & -> & ->%list_elem_of_singleton).
  unfold replacement_in. by rewrite lookup_singleton_eq.
Qed.

Lemma hides_fold l gone t s (k : list (jsstring * jsstring)) :
  clean l -> hides l gone t s -> k ⊆ l -> hides l (gone ++ k.*1) t (fold_left replace_step k s).
Proof.
  intros Hc. revert gone s. induction k as [|[x r] k IH]; intros gone s Hh Hk; [by rewrite app_nil_r|].
  cbn [fold_left fmap list_fmap fst]. replace (gone ++ x :: k.*1) with ((gone ++ [x]) ++ k.*1) by (by rewrite <- (assoc_L app)).
  apply IH; [|set_solver]. apply hides_replace; [done|done|set_solver].
Qed.

(** The map of the combined expression has, for every secret, something that stands for it. *)
Lemma combined_lookup l x : x ∈ l.*1 -> replacement_in (fold_left add_combined l ∅) x ∈ l.
Proof.
  assert (Hg : forall k m, (forall y r, m !! y = Some r -> (y, r) ∈ k) -> forall l, 
            (forall y r, fold_left add_combined l m !! y = Some r -> (y, r) ∈ k ++ l)
            /\ (forall y, y ∈ l.*1 \/ is_Some (m !! y) -> is_Some (fold_left add_combined l m !! y))).
  { clear. intros k m Hm l. revert k m Hm. induction l as [|[y r] l IH]; intros k m Hm.
    - rewrite app_nil_r. split; [done|]. intros z [Hz|]; [by apply elem_of_nil in Hz|done].
    - destruct (IH (k ++ [(y, r)]) (add_combined m (y, r))) as [IH1 IH2].
      { intros z q. unfold add_combined. cbn. destruct (m !! y) eqn:E.
        - intros Hz. apply elem_of_app. left. by apply Hm.
        - rewrite lookup_insert_Some. set_solver. }
      cbn [fold_left]. split.
      + intros z q Hz. apply IH1 in Hz. by rewrite <- (assoc_L app) in Hz.
      + intros z Hz. apply IH2. unfold add_combined. cbn in *. destruct (m !! y) eqn:E.
        * destruct Hz as [[->|?]%elem_of_cons|?]; [right; by eauto|by left|by right].
        * destruct (decide (y = z)) as [->|Hn]; [right; by rewrite lookup_insert_eq|]. rewrite lookup_insert_ne by done.
          destruct Hz as [[?|?]%elem_of_cons|?]; [congruence|by left|by right]. }
  intros Hx. destruct (Hg [] ∅) with (l := l) as [H1 H2]; [done|]. destruct (H2 x) as [r Er]; [by left|].
  unfold replacement_in. rewrite Er. by apply (H1 x r).
Qed.

End many.

(** ** The state of an obfuscator *)

Lemma secret_map_keys {A} k (v : A) l x : x ∈ (map_set k v l).*1 <-> x = k \/ x ∈ l.*1.
Proof.
  induction l as [|[k' v'] l IH]; cbn; [set_solver|]. case_bool_decide; cbn; set_solver.
Qed.

Lemma secret_map_NoDup {A} k (v : A) l : NoDup l.*1 -> NoDup (map_set k v l).*1.
Proof.
  induction l as [|[k' v'] l IH]; cbn; [intros _; apply NoDup_singleton|]. intros [Hn Hd]%NoDup_cons.
  case_bool_decide as E; cbn; [by subst; apply NoDup_cons|]. apply NoDup_cons. split; [|by apply IH].
  rewrite secret_map_keys. naive_solver.
Qed.

Lemma map_set_elem {A} k (v : A) l s i :
  NoDup l.*1 -> (s, i) ∈ map_set k v l <-> (s = k /\ i = v) \/ (s <> k /\ (s, i) ∈ l).
Proof.
  induction l as [|[k' v'] l IH]; cbn; [set_solver|]. intros [Hn Hd]%NoDup_cons.
  case_bool_decide as E; rewrite !elem_of_cons.
  - subst k'. assert (forall j, (k, j) ∈ l -> False) as Hf.
    { intros j Hj. apply Hn. by apply (list_elem_of_fmap_2 fst _ _ Hj). }
    naive_solver.
  - rewrite IH by done. naive_solver.
Qed.

Section state.
Context `{SecretLib}.

Record index_ok (o : SecretObfuscator) : Prop := {
  io_maps s i : ob_obfuscateIndexBySecret o !! s = Some i ->
    ob_obfuscateMappings o !! i = Some (s, buildPlaceholder s (ob_placeholderKey o)) /\ i < ob_nextIndex o;
  io_deob P s : ob_deobfuscateMap o !! P = Some s ->
    P = buildPlaceholder s (ob_placeholderKey o) /\ is_Some (ob_obfuscateIndexBySecret o !! s);
  io_known s : is_Some (ob_obfuscateIndexBySecret o !! s) ->
    is_Some (ob_deobfuscateMap o !! buildPlaceholder s (ob_placeholderKey o))
}.

Definition combined_ok (o : SecretObfuscator) : Prop :=
  ob_combinedPlainRegexDirty o = false ->
  ob_combinedPlainRegex o = (if 0 <? length (mappings o) then Some (mappings o).*1 else None)
  /\ ob_combinedPlainReplacementBySecret o = fold_left add_combined (mappings o) ∅.

Record obfuscator_ok (o : SecretObfuscator) : Prop := {
  oo_index : index_ok o;
  oo_placeholder m : m ∈ ob_sortedObfuscateMappings o ->
    om_placeholder m = buildPlaceholder (om_secret m) (ob_placeholderKey o);
  oo_sorted s : is_Some (ob_obfuscateIndexBySecret o !! s) <-> s ∈ om_secret <$> ob_sortedObfuscateMappings o;
  oo_combined : combined_ok o
}.

(** *** Construction *)

Record building (o : SecretObfuscator) : Prop := {
  bu_index : index_ok o;
  bu_NoDup : NoDup (ob_plainMappings o).*1;
  bu_plain s i : (s, i) ∈ ob_plainMappings o <-> ob_obfuscateIndexBySecret o !! s = Some i;
  bu_dirty : ob_combinedPlainRegexDirty o = true
}.

Lemma index_ok_insert key plain plain' regexes regexes' maps repl repl' sr sr' so so' byS deob c c' cr cr' d d' sq sq' n any any' s :
  index_ok (mkObfuscator key plain regexes maps repl sr so byS deob c cr d sq n any) ->
  index_ok (mkObfuscator key plain' regexes' (<[n := (s, buildPlaceholder s key)]> maps) repl' sr' so'
              (<[s := n]> byS) (<[buildPlaceholder s key := s]> deob) c' cr' d' sq' (S n) any').
Proof.
  intros [Hm Hd Hk]. cbn in *. split; cbn.
  - intros z i [[<- <-]|[Hne Hz]]%lookup_insert_Some; [rewrite lookup_insert_eq; split; [done|lia]|].
    destruct (Hm z i Hz) as [Hz' Hi]. rewrite lookup_insert_ne by lia. split; [done|lia].
  - intros P z [[<- <-]|[Hne Hz]]%lookup_insert_Some; [by rewrite lookup_insert_eq|].
    destruct (Hd P z Hz) as [-> Hi]. split; [done|]. destruct (decide (s = z)) as [->|]; [by rewrite lookup_insert_eq|].
    by rewrite lookup_insert_ne.
  - intros z Hz. destruct (decide (s = z)) as [->|Hne]; [by rewrite lookup_insert_eq|].
    rewrite lookup_insert_ne in Hz by done. apply Hk in Hz. apply lookup_insert_is_Some'. by right.
Qed.

Lemma add_entry_building o e : building o -> building (add_entry o e).
Proof.
  destruct o as [key plain regexes maps repl sr so byS deob c cr d sq n any]. intros [Hi Hn Hp Hd]. cbn in *.
  destruct (sx_type e); [destruct (default ModeObfuscate (sx_mode e))|].
  - split; cbn; [by eapply index_ok_insert|by apply secret_map_NoDup| |done]. intros s i. rewrite map_set_elem by done.
    rewrite lookup_insert_Some. rewrite Hp. naive_solver.
  - split; cbn; [|done|done|done]. destruct Hi. by split.
  - destruct (compileSecretRegex _ _); split; cbn; try done; destruct Hi; by split.
Qed.

Lemma new_building key : building (new_obfuscator key).
Proof. split; cbn; [split; cbn; [done|done|by intros s []]|constructor|set_solver|done]. Qed.

Lemma fold_entries entries key : building (fold_left add_entry entries (new_obfuscator key)).
Proof.
  assert (Hg : forall l o, building o -> building (fold_left add_entry l o)).
  { induction l as [|e l IH]; intros o Ho; [done|]. by apply IH, add_entry_building. }
  apply Hg, new_building.
Qed.

Lemma constructor_ok entries key o : constructor entries key = Some o -> obfuscator_ok o.
Proof.
  unfold constructor. destruct (length key =? 32); [|done]. intros [= <-]. pose proof (fold_entries entries key) as Hb.
  destruct (fold_left add_entry entries (new_obfuscator key)) as [key' plain regexes maps repl sr so byS deob c cr d sq n any].
  destruct Hb as [Hi Hn Hp Hd]. cbn in *. assert (Hx : forall s i, (s, i) ∈ sort_by longer_first plain <-> byS !! s = Some i).
  { intros s i. by rewrite sort_by_perm, Hp. }
  split; cbn.
  - destruct Hi. by split.
  - intros m ([s i] & -> & Hm)%list_elem_of_fmap. apply Hx in Hm. cbn. apply Hi in Hm as [Hm _]. cbn in Hm. by rewrite Hm.
  - intros s. rewrite <- list_fmap_compose. split.
    + intros [i Hs]. apply list_elem_of_fmap. exists (s, i). by rewrite Hx.
    + intros ([s' i] & -> & Hs)%list_elem_of_fmap. apply Hx in Hs. by exists i.
  - unfold combined_ok. cbn. by rewrite Hd.
Qed.

(** *** Hiding text *)

Definition known (o : SecretObfuscator) : list jsstring := (mappings o).*1.

(** What one operation changes: more secrets are known. *)
Record grows (o o' : SecretObfuscator) : Prop := {
  gr_mappings : mappings o ⊆ mappings o';
  gr_regex : ob_regexEntries o' = ob_regexEntries o;
  gr_replace : ob_sortedReplaceMappings o' = ob_sortedReplaceMappings o;
  gr_any : ob_hasAny o' = ob_hasAny o;
  gr_key : ob_placeholderKey o' = ob_placeholderKey o
}.

#[export] Instance grows_preorder : PreOrder grows.
Proof.
  split; [by split|]. intros a b c [] []. split; [by etrans|congruence|congruence|congruence|congruence].
Qed.

Lemma ensure_ok o : obfuscator_ok o ->
  let o' := ensureCombinedPlainRegex o in
  obfuscator_ok o' /\ grows o o' /\ ob_combinedPlainRegexDirty o' = false /\ mappings o' = mappings o.
Proof.
  intros Ho. unfold ensureCombinedPlainRegex. destruct (negb (ob_combinedPlainRegexDirty o)) eqn:E.
  - split; [done|]. split; [done|]. by apply negb_true_iff in E.
  - destruct o as [key plain regexes maps repl sr so byS deob c cr d sq n any]. destruct Ho as [[] Hp Hs Hc].
    split; [by split|]. by split.
Qed.

Lemma mappings_hides o t s : clean (mappings o) -> hides (mappings o) [] t s ->
  hides (mappings o) (known o) t (obfuscatePlainMappingsSequential o s).
Proof.
  intros Hc Hh. unfold obfuscatePlainMappingsSequential.
  replace (fold_left (fun r m => replace_step r (om_secret m, om_placeholder m)) (ob_sortedObfuscateMappings o) (fold_left replace_step (ob_sortedReplaceMappings o) s))
    with (fold_left replace_step (mappings o) s); [by apply (hides_fold (mappings o) [])|].
  unfold mappings. rewrite fold_left_app. generalize (fold_left replace_step (ob_sortedReplaceMappings o) s).
  induction (ob_sortedObfuscateMappings o) as [|m l IH]; intros a; [done|]. apply IH.
Qed.

Lemma plain_hides o o' t r : obfuscator_ok o -> clean (mappings o) -> obfuscatePlainMappings o t = (o', r) ->
  hides (mappings o') (known o) t r /\ grows o o' /\ obfuscator_ok o'.
Proof.
  intros Ho Hc. unfold obfuscatePlainMappings. destruct (ensure_ok o Ho) as (Ho' & Hg & Hd & Hm).
  set (e := ensureCombinedPlainRegex o) in *. intros [= <- <-]. split; [|done]. unfold known. rewrite <- Hm in *.
  destruct (ob_useSequentialPlainReplacement e); [by apply mappings_hides, hides_start|].
  destruct (oo_combined e Ho' Hd) as [-> ->]. destruct (mappings e) as [|p l] eqn:El; [apply hides_start|]. rewrite <- El in *.
  rewrite (proj2 (Nat.ltb_lt 0 _)) by (rewrite El; cbn; lia).
  apply (hides_scan _ []); [done|apply hides_start|]. intros q (x & -> & Hx)%list_elem_of_fmap. by apply combined_lookup.
Qed.

Lemma insert_sorted_perm m l : insertSortedObfuscateMapping m l ≡ₚ m :: l.
Proof. unfold insertSortedObfuscateMapping. rewrite <- Permutation_middle. by rewrite take_drop. Qed.

Lemma discover_ok o v : obfuscator_ok o -> ob_obfuscateIndexBySecret o !! v = None ->
  obfuscator_ok (discover o v) /\ grows o (discover o v)
  /\ ob_obfuscateIndexBySecret (discover o v) !! v = Some (ob_nextIndex o).
Proof.
  destruct o as [key plain regexes maps repl sr so byS deob c cr d sq n any]. intros [Hi Hp Hs Hc] Hv. cbn in *.
  split; [split; cbn|split].
  - by eapply index_ok_insert.
  - intros m Hm. rewrite insert_sorted_perm in Hm. apply elem_of_cons in Hm as [->|Hm]; [done|by apply Hp].
  - intros s. rewrite insert_sorted_perm. cbn. rewrite lookup_insert_is_Some', elem_of_cons, Hs. naive_solver.
  - by intros [=].
  - split; try done. unfold mappings. cbn. intros p [Hin|(m & -> & Hm)%list_elem_of_fmap]%elem_of_app; apply elem_of_app; [by left|].
    right. apply (list_elem_of_fmap_2 (fun m => (om_secret m, om_placeholder m))). rewrite insert_sorted_perm. by right.
  - cbn. by rewrite lookup_insert_eq.
Qed.

Lemma known_mapping o v i : obfuscator_ok o -> ob_obfuscateIndexBySecret o !! v = Some i ->
  (v, default [] (snd <$> ob_obfuscateMappings o !! i)) ∈ mappings o.
Proof.
  intros [Hi Hp Hs _] Hv. destruct (io_maps o Hi v i Hv) as [-> _]. cbn.
  assert (v ∈ om_secret <$> ob_sortedObfuscateMappings o) as (m & -> & Hm)%list_elem_of_fmap by (apply Hs; by eauto).
  apply elem_of_app. right. rewrite <- (Hp m Hm). by apply (list_elem_of_fmap_2 (fun m => (om_secret m, om_placeholder m))).
Qed.

Lemma hide_match_ok entry o r v o' r' : obfuscator_ok o -> re_mode entry = ModeObfuscate ->
  hide_match entry (o, r) v = (o', r') ->
  obfuscator_ok o' /\ grows o o'
  /\ forall l gone t, clean l -> mappings o' ⊆ l -> hides l gone t r -> hides l gone t r'.
Proof.
  intros Ho Hm. unfold hide_match. rewrite Hm.
  assert (Hfin : forall o' i, obfuscator_ok o' -> ob_obfuscateIndexBySecret o' !! v = Some i ->
    forall l gone t, clean l -> mappings o' ⊆ l -> hides l gone t r ->
      hides l gone t (replaceAll r v (default [] (snd <$> ob_obfuscateMappings o' !! i)))).
  { intros o1 i Ho1 Hi l gone t Hc Hl Hh. apply (known_mapping o1 v i Ho1) in Hi. apply Hl in Hi.
    destruct (hides_replace l gone t r _ _ Hc Hh Hi) as (T & -> & ? & ? & Hg). exists T. repeat split; try done.
    intros x Hx. apply Hg, elem_of_app. by left. }
  destruct (ob_obfuscateIndexBySecret o !! v) as [i|] eqn:E; intros [= <- <-].
  - split; [done|]. split; [done|]. by apply Hfin.
  - destruct (discover_ok o v Ho E) as (Ho' & Hg & Hi). split; [done|]. split; [done|]. by apply Hfin.
Qed.

Lemma hide_matches_ok entry vs : re_mode entry = ModeObfuscate -> forall o r o' r', obfuscator_ok o ->
  fold_left (hide_match entry) vs (o, r) = (o', r') ->
  obfuscator_ok o' /\ grows o o'
  /\ forall l gone t, clean l -> mappings o' ⊆ l -> hides l gone t r -> hides l gone t r'.
Proof.
  intros Hm. induction vs as [|v vs IH]; intros o r o' r' Ho E; [by injection E as <- <-|]. cbn [fold_left] in E.
  destruct (hide_match entry (o, r) v) as [o1 r1] eqn:E1.
  destruct (hide_match_ok entry o r v o1 r1 Ho Hm E1) as (Ho1 & Hg1 & Hh1). destruct (IH o1 r1 o' r' Ho1 E) as (Ho2 & Hg2 & Hh2).
  split; [done|]. split; [by etrans|]. intros l gone t Hc Hl Hh. apply Hh2; [done|done|]. apply Hh1; [done| |done].
  etrans; [apply Hg2|done].
Qed.

Lemma hide_regexes_ok entries : Forall (fun e => re_mode e = ModeObfuscate) entries -> forall o r o' r', obfuscator_ok o ->
  fold_left hide_regex entries (o, r) = (o', r') ->
  obfuscator_ok o' /\ grows o o'
  /\ forall l gone t, clean l -> mappings o' ⊆ l -> hides l gone t r -> hides l gone t r'.
Proof.
  induction 1 as [|e entries He _ IH]; intros o r o' r' Ho E; [by injection E as <- <-|]. cbn [fold_left] in E.
  destruct (hide_regex (o, r) e) as [o1 r1] eqn:E1.
  destruct (hide_matches_ok e _ He o r o1 r1 Ho E1) as (Ho1 & Hg1 & Hh1). destruct (IH o1 r1 o' r' Ho1 E) as (Ho2 & Hg2 & Hh2).
  split; [done|]. split; [by etrans|]. intros l gone t Hc Hl Hh. apply Hh2; [done|done|]. apply Hh1; [done| |done].
  etrans; [apply Hg2|done].
Qed.

(** No regular expression replaces for good. *)
Definition reversible_regexes (o : SecretObfuscator) : Prop :=
  Forall (fun e => re_mode e = ModeObfuscate) (ob_regexEntries o).

Lemma obfuscate_ok o t o' r : obfuscator_ok o -> reversible_regexes o -> obfuscate o t = (o', r) ->
  obfuscator_ok o' /\ grows o o'.
Proof.
  intros Ho Hre. unfold obfuscate. destruct (negb (ob_hasAny o)); [by intros [= <- <-]|].
  destruct (obfuscatePlainMappings o t) as [o1 r1] eqn:E1. intros E.
  assert (obfuscator_ok o1 /\ grows o o1) as [Ho1 Hg1].
  { unfold obfuscatePlainMappings in E1. injection E1 as <- _. destruct (ensure_ok o Ho) as (? & ? & _). done. }
  destruct (hide_regexes_ok _ Hre o1 r1 o' r Ho1 E) as (? & ? & _). split; [done|]. by etrans.
Qed.

Lemma obfuscate_hides o t o' r : obfuscator_ok o -> reversible_regexes o -> obfuscate o t = (o', r) -> ob_hasAny o = true ->
  clean (mappings o') -> hides (mappings o') (known o) t r.
Proof.
  intros Ho Hre E Ha Hc. destruct (obfuscate_ok o t o' r Ho Hre E) as [_ Hg].
  unfold obfuscate in E. rewrite Ha in E. cbn [negb] in E. destruct (obfuscatePlainMappings o t) as [o1 r1] eqn:E1.
  destruct (plain_hides o o1 t r1 Ho) as (Hh & Hg1 & Ho1); [by eapply clean_subset, Hg|done|].
  destruct (hide_regexes_ok _ Hre o1 r1 o' r Ho1 E) as (_ & Hg2 & Hx).
  apply Hx; [done|done|]. eapply hides_weaken; [apply Hg2|done].
Qed.

(** *** Runs *)

Definition hide_step (o o' : SecretObfuscator) : Prop := exists t, o' = (obfuscate o t).1.

Lemma runs_ok o o' : rtc hide_step o o' -> obfuscator_ok o -> reversible_regexes o -> obfuscator_ok o' /\ grows o o'.
Proof.
  induction 1 as [o|o o1 o' [t ->] _ IH]; intros Ho Hre; [done|].
  destruct (obfuscate o t) as [o1 r] eqn:E. destruct (obfuscate_ok o t o1 r Ho Hre E) as [Ho1 Hg]. cbn in IH.
  destruct IH as [Ho' Hg']; [done|by unfold reversible_regexes; rewrite (gr_regex _ _ Hg)|]. split; [done|]. by etrans.
Qed.

End state.

(** ** What the constructor was given *)

Definition replaces (e : SecretEntry) : bool := bool_decide (sx_mode e = Some ModeReplace).

Section entries.
Context `{SecretLib}.

Record built_from (entries : list SecretEntry) (o : SecretObfuscator) : Prop := {
  bf_plain e : e ∈ entries -> sx_type e = PlainSecret ->
    sx_content e ∈ (ob_plainMappings o).*1 \/ sx_content e ∈ (ob_replaceMappings o).*1;
  bf_regex r : r ∈ ob_regexEntries o -> re_mode r = ModeReplace ->
    exists e, e ∈ entries /\ sx_type e = RegexSecret /\ replaces e = true;
  bf_replace s : s ∈ (ob_replaceMappings o).*1 -> exists e, e ∈ entries /\ sx_type e = PlainSecret /\ replaces e = true
}.

Lemma mode_replaces e : default ModeObfuscate (sx_mode e) = ModeReplace -> replaces e = true.
Proof. unfold replaces. destruct (sx_mode e) as [[]|]; [done| |done]. intros _. by apply bool_decide_eq_true. Qed.

Lemma add_entry_built entries o e : built_from entries o -> built_from (entries ++ [e]) (add_entry o e).
Proof.
  destruct o as [key plain regexes maps repl sr so byS deob c cr d sq n any]. intros [Hp Hr Hs]. cbn in *.
  destruct (sx_type e) eqn:Et; [destruct (default ModeObfuscate (sx_mode e)) eqn:Em|].
  - split; cbn; [|set_solver|set_solver]. intros e' [He| ->%list_elem_of_singleton]%elem_of_app Ht.
    + destruct (Hp e' He Ht); [left; apply secret_map_keys; by right|by right].
    + left. apply secret_map_keys. by left.
  - split; cbn; [|set_solver|].
    + intros e' [He| ->%list_elem_of_singleton]%elem_of_app Ht; [|right; apply secret_map_keys; by left].
      destruct (Hp e' He Ht); [by left|right; apply secret_map_keys; by right].
    + intros s [->|Hin]%secret_map_keys; [exists e; split; [set_solver|split; [done|by apply mode_replaces]]|].
      destruct (Hs s Hin) as (e' & ? & ?). exists e'. set_solver.
  - assert (Hcase : forall rs, rs = regexes \/ (exists x, rs = regexes ++ [mkRegexEntry x (default ModeObfuscate (sx_mode e)) (sx_replacement e)]) ->
      built_from (entries ++ [e]) (mkObfuscator key plain rs maps repl sr so byS deob c cr d sq n any)).
    { intros rs Hrs. split; cbn; [|intros r Hin Hm|set_solver].
      - intros e' [He| ->%list_elem_of_singleton]%elem_of_app Ht; [by apply Hp|congruence].
      - assert (r ∈ regexes \/ re_mode r = default ModeObfuscate (sx_mode e)) as [Hin'|Hm'].
        { destruct Hrs as [->|[x ->]]; [by left|]. apply elem_of_app in Hin as [Hin| ->%list_elem_of_singleton]; [by left|by right]. }
        + destruct (Hr r Hin' Hm) as (e' & ? & ?). exists e'. set_solver.
        + exists e. split; [set_solver|]. split; [done|]. apply mode_replaces. congruence. }
    destruct (compileSecretRegex _ _); apply Hcase; [right; by eexists|by left].
Qed.

Lemma constructor_built entries key o : constructor entries key = Some o ->
  (forall e, e ∈ entries -> sx_type e = PlainSecret -> sx_content e ∈ known o)
  /\ ((forall e, e ∈ entries -> sx_type e = RegexSecret -> replaces e = false) -> reversible_regexes o)
  /\ ((forall e, e ∈ entries -> replaces e = false) -> ob_sortedReplaceMappings o = [])
  /\ ob_hasAny o = negb (bool_decide (entries = [])).
Proof.
  unfold constructor. destruct (length key =? 32); [|done]. intros [= <-].
  assert (Hb : built_from entries (fold_left add_entry entries (new_obfuscator key))).
  { assert (Hg : forall l done o, built_from done o -> built_from (done ++ l) (fold_left add_entry l o)).
    { induction l as [|e l IH]; intros done0 o Ho; [by rewrite app_nil_r|].
      replace (done0 ++ e :: l) with ((done0 ++ [e]) ++ l) by (by rewrite <- (assoc_L app)). apply IH. by apply add_entry_built. }
    apply (Hg entries []). split; cbn; set_solver. }
  destruct (fold_left add_entry entries (new_obfuscator key)) as [key' plain regexes maps repl sr so byS deob c cr d sq n any].
  destruct Hb as [Hp Hr Hs]. cbn in *. split; [|split; [|split; [|done]]].
  - intros e He Ht. unfold known, mappings. cbn. rewrite fmap_app. apply elem_of_app.
    destruct (Hp e He Ht) as [Hin|Hin]; [right|left; by rewrite sort_by_perm].
    rewrite <- !list_fmap_compose. apply list_elem_of_fmap in Hin as ([s i] & -> & Hin). apply list_elem_of_fmap.
    exists (s, i). split; [done|]. by rewrite sort_by_perm.
  - intros Hall. apply Forall_forall. intros r Hin. destruct (re_mode r) eqn:Em; [done|].
    destruct (Hr r Hin Em) as (e & He & Ht & Hre). by rewrite (Hall e He Ht) in Hre.
  - intros Hall. assert (repl = []) as ->; [|done]. destruct repl as [|[s v] repl]; [done|].
    destruct (Hs s) as (e & He & _ & Hre); [set_solver|]. by rewrite (Hall e He) in Hre.
Qed.

(** ** Runs from the constructor *)

Lemma idle_run a o : ob_hasAny a = false -> rtc hide_step a o -> o = a.
Proof.
  intros Ha Hr. induction Hr as [|a b c [u ->] _ IH]; [done|]. unfold obfuscate in IH. rewrite Ha in IH. by apply IH.
Qed.

Lemma secret_run_facts entries key o0 o : constructor entries key = Some o0 ->
  (forall e, e ∈ entries -> sx_type e = RegexSecret -> replaces e = false) -> rtc hide_step o0 o ->
  obfuscator_ok o /\ reversible_regexes o /\ grows o0 o /\ (ob_hasAny o = false -> known o = []).
Proof.
  intros Hc Hre Hrun. destruct (constructor_built entries key o0 Hc) as (_ & Hrev & _ & Hany). specialize (Hrev Hre).
  destruct (runs_ok o0 o Hrun (constructor_ok _ _ _ Hc) Hrev) as [Ho Hg]. split; [done|]. split.
  { unfold reversible_regexes. by rewrite (gr_regex _ _ Hg). }
  split; [done|]. intros Ha. rewrite (gr_any _ _ Hg) in Ha. rewrite (idle_run o0 o Ha Hrun). rewrite Hany in Ha.
  apply negb_false_iff, bool_decide_eq_true in Ha. subst entries. unfold constructor in Hc.
  destruct (length key =? 32); [|done]. by injection Hc as <-.
Qed.

Lemma known_grows o o' x : grows o o' -> x ∈ known o -> x ∈ known o'.
Proof. intros Hg (p & -> & Hin)%list_elem_of_fmap. apply list_elem_of_fmap_2. by apply (gr_mappings _ _ Hg). Qed.

(** ** The promises *)

(** C20: secrets are hidden.  An obfuscator is constructed and hides any number of texts; then it
    hides [t].  As long as no secret it knows is a part of, or can overlap, what stands for a secret
    ([clean]), and no regular expression replaces for good, no configured value and no value that a
    regular expression found in an earlier text occurs in the result. *)
Theorem secrets_hidden entries key o0 o t o' r x :
  constructor entries key = Some o0 ->
  (forall e, e ∈ entries -> sx_type e = RegexSecret -> replaces e = false) ->
  rtc hide_step o0 o -> obfuscate o t = (o', r) -> clean (mappings o') ->
  (exists e, e ∈ entries /\ sx_type e = PlainSecret /\ sx_content e = x) \/ x ∈ known o ->
  ~ occurs x r.
Proof.
  intros Hc Hre Hrun E Hclean Hx. destruct (secret_run_facts entries key o0 o Hc Hre Hrun) as (Ho & Hrev & Hg & Hany).
  assert (Hxk : x ∈ known o).
  { destruct Hx as [(e & He & Ht & <-)|Hx]; [|done]. apply (known_grows _ _ _ Hg). by apply (constructor_built entries key o0 Hc). }
  clear Hx. destruct (ob_hasAny o) eqn:Ha; [|rewrite Hany in Hxk by done; by apply elem_of_nil in Hxk].
  destruct (obfuscate_ok o t o' r Ho Hrev E) as [_ Hg']. destruct (obfuscate_hides o t o' r Ho Hrev E Ha Hclean) as (T & -> & _ & Ht & Hgone).
  pose proof (known_grows _ _ _ Hg' Hxk) as ([y q] & -> & Hin)%list_elem_of_fmap. cbn in *. intros Hocc.
  apply (Hgone y Hxk). apply occurs_shown; [|by eapply clean_tokens|done]. by apply (Hclean _ _ _ _ Hin Hin).
Qed.

(** ** Reading hidden text back *)

(** Tags as the digest gives them. *)
Class SecretLaws := {
  tag_length k s : length (hmac_tag k s) = 22;
  tag_chars k s : Forall (fun c => is_tag_char c = true) (hmac_tag k s)
}.

Context {HL : SecretLaws}.

Lemma head_no_hash c s : starts_with PLACEHOLDER_HEAD (c :: s) = true -> c = HASH /\ starts_with (js "GJC1_") s = true.
Proof.
  rewrite !starts_with_iff. intros [post E]. injection E as -> ->. split; [done|]. by eexists.
Qed.

Lemma placeholder_at_build x key rest :
  placeholder_at (buildPlaceholder x key ++ rest) = Some (buildPlaceholder x key).
Proof.
  pose proof (tag_length key x) as Hl. pose proof (tag_chars key x) as Hc. unfold placeholder_at.
  assert (E : buildPlaceholder x key ++ rest = PLACEHOLDER_HEAD ++ hmac_tag key x ++ HASH :: rest)
    by (unfold buildPlaceholder; by rewrite <- !(assoc_L app)).
  assert (Ht : take 22 (drop 6 (buildPlaceholder x key ++ rest)) = hmac_tag key x).
  { rewrite E. change 6 with (length PLACEHOLDER_HEAD). rewrite drop_app_length. by apply take_app_length'. }
  assert (H28 : (buildPlaceholder x key ++ rest) !! 28 = Some HASH).
  { assert (Hh : length PLACEHOLDER_HEAD = 6) by reflexivity. rewrite E, !lookup_app_r, Hh, Hl by (rewrite ?Hh, ?Hl; lia). done. }
  rewrite Ht, Hl, H28, bool_decide_eq_true_2, take_app_length' by (done || (unfold buildPlaceholder; rewrite !length_app, Hl; done)).
  rewrite (proj2 (starts_with_iff _ _)) by (rewrite E; by eexists).
  rewrite (proj2 (forallb_forall _ _)); [done|]. intros c Hin. rewrite Forall_forall in Hc. by apply Hc, list_elem_of_In.
Qed.

Definition restore (o : SecretObfuscator) (s : jsstring) : option (nat * jsstring) :=
  match placeholder_at s with
  | Some matched => Some (length matched, default matched (ob_deobfuscateMap o !! matched))
  | None => None
  end.

Lemma restore_start o c s : is_Some (restore o (c :: s)) -> c = HASH /\ starts_with (js "GJC1_") s = true.
Proof.
  unfold restore, placeholder_at. destruct (starts_with PLACEHOLDER_HEAD (c :: s)) eqn:E; [|cbn; by intros []].
  intros _. by apply head_no_hash.
Qed.

Lemma restore_plain o s : HASH ∉ s -> replace_scan (restore o) 0 s = s.
Proof.
  induction s as [|c s IH]; intros Hn; [done|]. cbn [replace_scan]. destruct (restore o (c :: s)) eqn:E.
  - destruct (restore_start o c s) as [-> _]; [by rewrite E|]. set_solver.
  - f_equal. apply IH. set_solver.
Qed.

Lemma deobfuscate_scan o t : ob_hasAny o = true -> deobfuscate o t = replace_scan (restore o) 0 t.
Proof.
  intros Ha. unfold deobfuscate. rewrite Ha. cbn [negb orb]. destruct (includes [HASH] t) eqn:E; cbn [negb]; [done|]. symmetry.
  apply restore_plain. intros Hin. rewrite <- not_true_iff_false in E. apply E, includes_iff.
  apply list_elem_of_split in Hin as (pre & post & ->). by exists pre, post.
Qed.

Lemma build_head x key : head (buildPlaceholder x key) = Some HASH.
Proof. done. Qed.

Lemma restore_shown o T :
  (forall x r, Tok x r ∈ T -> r = buildPlaceholder x (ob_placeholderKey o) /\ ob_deobfuscateMap o !! r = Some x) ->
  ~ occurs PLACEHOLDER_HEAD (original T) -> replace_scan (restore o) 0 (shown T) = original T.
Proof.
  induction T as [|[c|x r] T IH]; intros Ht Ho; [done| |].
  - change (shown (Raw c :: T)) with (c :: shown T). change (original (Raw c :: T)) with (c :: original T) in *.
    assert (Ht' : forall x r, Tok x r ∈ T -> r = buildPlaceholder x (ob_placeholderKey o) /\ ob_deobfuscateMap o !! r = Some x)
      by (intros x r Hin; apply Ht; set_solver).
    cbn [replace_scan]. destruct (restore o (c :: shown T)) eqn:E.
    + exfalso. destruct (restore_start o c (shown T)) as [-> Hs]; [by rewrite E|]. apply starts_with_iff in Hs as [post Hs].
      destruct (shown_prefix (js "GJC1_") T post) as (T2 & -> & _); [|done|].
      * intros x r Hin. destruct (Ht' x r Hin) as [-> _]. exists HASH. split; [done|]. by apply (bool_decide_eq_false_1 _).
      * apply Ho. exists [], (original T2). by rewrite original_app, original_raw.
    + f_equal. apply IH; [done|]. rewrite occurs_cons in Ho. tauto.
  - change (shown (Tok x r :: T)) with (r ++ shown T). change (original (Tok x r :: T)) with (x ++ original T) in *.
    destruct (Ht x r) as [-> Hd]; [set_solver|]. rewrite <- IH; [| |].
    + set (key := ob_placeholderKey o) in *. destruct (buildPlaceholder x key) as [|c p] eqn:Ep; [done|]. rewrite <- Ep in Hd.
      cbn [app replace_scan]. unfold restore at 1. change (c :: p ++ shown T) with ((c :: p) ++ shown T).
      rewrite <- Ep, placeholder_at_build, Ep. cbn [length]. rewrite <- Ep, Hd. cbn [default from_option id]. f_equal.
      by rewrite replace_scan_skip, drop_app_length by (rewrite length_app; lia).
    + intros y q Hin. apply Ht. set_solver.
    + intros (pre & post & E). apply Ho. exists (x ++ pre), post. by rewrite E, <- (assoc_L app).
Qed.

(** The placeholders of the known secrets tell them apart. *)
Definition no_collision (o : SecretObfuscator) : Prop :=
  forall x y, x ∈ known o -> y ∈ known o ->
    buildPlaceholder x (ob_placeholderKey o) = buildPlaceholder y (ob_placeholderKey o) -> x = y.

Lemma known_restored o x r : obfuscator_ok o -> ob_sortedReplaceMappings o = [] -> no_collision o -> (x, r) ∈ mappings o ->
  r = buildPlaceholder x (ob_placeholderKey o) /\ ob_deobfuscateMap o !! r = Some x.
Proof.
  intros Ho Hr Hn Hin. assert (Hk : forall y, is_Some (ob_obfuscateIndexBySecret o !! y) -> y ∈ known o).
  { intros y Hy%(oo_sorted o Ho). unfold known, mappings. rewrite Hr. cbn. by rewrite <- list_fmap_compose. }
  unfold mappings in Hin. rewrite Hr in Hin. cbn in Hin. apply list_elem_of_fmap in Hin as (m & [= -> ->] & Hm).
  rewrite (oo_placeholder o Ho m Hm). split; [done|].
  assert (Hi : is_Some (ob_obfuscateIndexBySecret o !! om_secret m)) by (apply (oo_sorted o Ho); by apply list_elem_of_fmap_2).
  destruct (io_known o (oo_index o Ho) _ Hi) as [y Hy]. rewrite Hy. f_equal.
  destruct (io_deob o (oo_index o Ho) _ _ Hy) as [E Hy']. symmetry. apply Hn; [by apply Hk|by apply Hk|done].
Qed.

(** C21: hidden text can be read back.  An obfuscator without replacing entries is constructed and
    hides any number of texts; it hides [t], and any number of texts later, with more secrets
    found, the result is turned back into [t]: provided [t] has no text that looks like the start
    of a placeholder, the secrets known at the end cannot be confused with parts of
    placeholders, and their placeholders differ. *)
Theorem secrets_roundtrip entries key o0 o t o' r o2 :
  constructor entries key = Some o0 ->
  (forall e, e ∈ entries -> replaces e = false) ->
  rtc hide_step o0 o -> obfuscate o t = (o', r) -> rtc hide_step o' o2 ->
  clean (mappings o2) -> no_collision o2 -> ~ occurs PLACEHOLDER_HEAD t ->
  deobfuscate o2 r = t.
Proof.
  intros Hc Hre Hrun E Hrun2 Hclean Hn Ht.
  assert (Hre' : forall e, e ∈ entries -> sx_type e = RegexSecret -> replaces e = false) by (intros e He _; by apply Hre).
  destruct (secret_run_facts entries key o0 o Hc Hre' Hrun) as (Ho & Hrev & Hg & _).
  assert (Hrun' : rtc hide_step o0 o2).
  { etrans; [exact Hrun|]. eapply rtc_l; [|exact Hrun2]. exists t. by rewrite E. }
  destruct (secret_run_facts entries key o0 o2 Hc Hre' Hrun') as (Ho2 & _ & Hg2 & _).
  destruct (obfuscate_ok o t o' r Ho Hrev E) as [Ho' Hg'].
  assert (Hrev2 : reversible_regexes o') by (unfold reversible_regexes; by rewrite (gr_regex _ _ Hg')).
  destruct (runs_ok o' o2 Hrun2 Ho' Hrev2) as [_ Hg3].
  assert (Hsr : ob_sortedReplaceMappings o2 = []).
  { rewrite (gr_replace _ _ Hg2). by apply (constructor_built entries key o0 Hc). }
  destruct (ob_hasAny o) eqn:Ha.
  - assert (Ha2 : ob_hasAny o2 = true) by (by rewrite (gr_any _ _ Hg3), (gr_any _ _ Hg')).
    destruct (obfuscate_hides o t o' r Ho Hrev E Ha) as (T & -> & HR & HT & _); [by eapply clean_subset, Hg3|].
    apply refines_original in HR. rewrite original_raw in HR. rewrite deobfuscate_scan by done.
    rewrite restore_shown; [done| |by rewrite HR].
    intros x q Hin. apply known_restored; [done|done|done|]. by apply (gr_mappings _ _ Hg3), HT.
  - unfold obfuscate in E. rewrite Ha in E. cbn in E. injection E as <- <-.
    unfold deobfuscate. by rewrite (gr_any _ _ Hg3), Ha.
Qed.

End entries.

(** ** The loop over matches ends *)

Class RegexLaws `{SecretLib} := {
  exec_in_range re s i j m : regexp_exec re s i = Some (j, m) -> i <= j /\ j + length m <= length s
}.

Lemma collect_matches_enough `{SecretLib, !RegexLaws} fuel re s i acc :
  i <= S (length s) -> length s + 2 <= fuel + i -> is_Some (collect_matches fuel re s i acc).
Proof.
  revert i acc. induction fuel as [|fuel IH]; intros i acc Hi Hf; [lia|]. cbn [collect_matches].
  destruct (regexp_exec re s i) as [[j m]|] eqn:E; [|by eexists]. apply exec_in_range in E as [Hij Hjm].
  case_bool_decide; [apply IH; lia|]. destruct m as [|c m]; [done|]. cbn in *. apply IH; lia.
Qed.

(** The loop over the matches of a text ends within the fuel it is given. *)
Theorem regex_scan_ends `{SecretLib, !RegexLaws} re s : is_Some (collect_matches (length s + 2) re s 0 []).
Proof. apply collect_matches_enough; lia. Qed.

(** ** The order of the mappings *)

Definition at_least_as_long (a b : ObfuscateMapping) : Prop := length (om_secret b) <= length (om_secret a).

Lemma StronglySorted_lookup {A} (R : A -> A -> Prop) l i j x y :
  StronglySorted R l -> l !! i = Some x -> l !! j = Some y -> i < j -> R x y.
Proof.
  intros Hs. revert i j. induction Hs as [|z l Hs IH Hz]; intros i j Hi Hj Hij; [done|].
  destruct j as [|j]; [lia|]. cbn in Hj. destruct i as [|i]; [|eapply IH; [exact Hi|exact Hj|lia]].
  cbn in Hi. injection Hi as <-. rewrite Forall_forall in Hz. by apply Hz, (list_elem_of_lookup_2 _ j).
Qed.

Lemma insertion_point_splits fuel l n lo hi :
  StronglySorted at_least_as_long l -> lo <= hi -> hi <= length l -> hi <= fuel + lo ->
  (forall i m, l !! i = Some m -> i < lo -> n <= length (om_secret m)) ->
  (forall i m, l !! i = Some m -> hi <= i -> length (om_secret m) < n) ->
  let p := insertion_point fuel l n lo hi in
  (forall i m, l !! i = Some m -> i < p -> n <= length (om_secret m))
  /\ (forall i m, l !! i = Some m -> p <= i -> length (om_secret m) < n).
Proof.
  intros Hs. revert lo hi. induction fuel as [|fuel IH]; intros lo hi Hle Hhi Hf Hlo Hup.
  - cbn. split; [done|]. intros i m Hi Hp. apply (Hup i m Hi). lia.
  - cbn [insertion_point]. destruct (Nat.ltb_spec lo hi) as [Hlt|Hge].
    2:{ cbn. split; [done|]. intros i m Hi Hp. apply (Hup i m Hi). lia. }
    assert (Hd : lo <= Nat.div2 (lo + hi) < hi) by (rewrite Nat.div2_div; split; [apply Nat.div_le_lower_bound; lia|apply Nat.Div0.div_lt_upper_bound; lia]).
    destruct (lookup_lt_is_Some_2 l (Nat.div2 (lo + hi))) as [m Hm]; [lia|]. rewrite Hm.
    destruct (Nat.ltb_spec (length (om_secret m)) n) as [Hn|Hn].
    + apply IH; try lia; [done|]. intros i m' Hi Hp. destruct (decide (i = Nat.div2 (lo + hi))) as [->|]; [congruence|].
      assert (at_least_as_long m m') by (eapply (StronglySorted_lookup at_least_as_long l); [done|exact Hm|exact Hi|lia]).
      unfold at_least_as_long in *. lia.
    + apply IH; try lia; [|done]. intros i m' Hi Hp. destruct (decide (i = Nat.div2 (lo + hi))) as [->|]; [congruence|].
      assert (at_least_as_long m' m) by (eapply (StronglySorted_lookup at_least_as_long l); [done|exact Hi|exact Hm|lia]).
      unfold at_least_as_long in *. lia.
Qed.

(** A secret found later takes its place among the longer and the shorter ones. *)
Theorem insert_keeps_longest_first m l :
  StronglySorted at_least_as_long l -> StronglySorted at_least_as_long (insertSortedObfuscateMapping m l).
Proof.
  intros Hs. unfold insertSortedObfuscateMapping.
  destruct (insertion_point_splits (length l) l (length (om_secret m)) 0 (length l)) as [H1 H2]; try lia; [done| |].
  { intros i x Hi%lookup_lt_Some. lia. }
  set (p := insertion_point _ _ _ _ _) in *. rewrite <- (take_drop p l) in Hs.
  apply StronglySorted_app in Hs as (Hx & Ht & Hd).
  assert (H1' : forall x, x ∈ take p l -> at_least_as_long x m).
  { intros x (i & Hi)%list_elem_of_lookup. apply lookup_take_Some in Hi as [Hi Hp]. by apply (H1 i x Hi). }
  assert (H2' : forall x, x ∈ drop p l -> at_least_as_long m x).
  { intros x (i & Hi)%list_elem_of_lookup. rewrite lookup_drop in Hi. unfold at_least_as_long.
    specialize (H2 _ x Hi). lia. }
  apply StronglySorted_app. split; [|split; [done|]].
  - intros a b Ha [->|Hb]%elem_of_cons; [by apply H1'|by apply Hx].
  - constructor; [done|]. apply Forall_forall. intros x Hin. by apply H2'.
Qed.

(** ** A concrete library

    Expressions are a literal text or [[A-Za-z0-9_-]{20,}]; a tag is the secret shifted by one
    letter and filled up. *)

Inductive toy_regexp := ToyLiteral (s : jsstring) | ToyRun.

Definition toy_match (re : toy_regexp) (s : jsstring) : option jsstring :=
  match re with
  | ToyLiteral p => if starts_with p s then Some p else None
  | ToyRun => let run := (span is_tag_char s).1 in if 20 <=? length run then Some run else None
  end.

Fixpoint toy_search (re : toy_regexp) (s : jsstring) (pos : nat) : option (nat * jsstring) :=
  match toy_match re s with
  | Some m => Some (pos, m)
  | None => match s with [] => None | _ :: rest => toy_search re rest (S pos) end
  end.

Definition toy_char (c : N) : N := if is_tag_char (c + 1) then (c + 1)%N else 95%N.

#[local] Instance toy_lib : SecretLib := {
  regexp := toy_regexp;
  new_RegExp p _ := if bool_decide (p = js "[A-Za-z0-9_-]{20,}") then Some ToyRun else Some (ToyLiteral p);
  regexp_exec re s i := if i <=? length s then toy_search re (drop i s) i else None;
  hmac_tag _ s := take 22 ((toy_char <$> s) ++ replicate 22 65%N);
  Bun_hash _ := 0%Z
}.

#[local] Instance toy_laws : SecretLaws.
Proof.
  split.
  - intros k s. cbn [hmac_tag toy_lib]. rewrite length_take, length_app, length_replicate. lia.
  - intros k s. cbn [hmac_tag toy_lib]. apply Forall_take, Forall_app_2.
    + apply Forall_fmap, Forall_forall. intros c _. cbn. unfold toy_char. by destruct (is_tag_char (c + 1)) eqn:E.
    + by apply Forall_replicate.
Qed.

Definition apartb (x r : jsstring) : bool :=
  match head r, last r with
  | Some c, Some d => bool_decide (c ∉ x) && bool_decide (d ∉ x) && negb (includes x r)
  | _, _ => false
  end.

Definition cleanb (l : list (jsstring * jsstring)) : bool :=
  forallb (fun p => negb (bool_decide (p.1 = [])) && forallb (fun q => apartb p.1 q.2) l) l.

Lemma apartb_sound x r : apartb x r = true -> apart x r.
Proof.
  unfold apartb. destruct (head r) as [c|] eqn:Eh; [|done]. destruct (last r) as [d|] eqn:El; [|done].
  rewrite !andb_true_iff, !bool_decide_eq_true, negb_true_iff, <- not_true_iff_false, includes_iff. intros [[? ?] ?].
  split; [by exists c|]. split; [by exists d|done].
Qed.

Lemma cleanb_sound l : cleanb l = true -> clean l.
Proof.
  unfold cleanb. rewrite forallb_forall. intros Hl x r y q Hx%list_elem_of_In Hy%list_elem_of_In.
  specialize (Hl _ Hx). apply andb_true_iff in Hl as [H1 H2]. split; [by apply negb_true_iff, bool_decide_eq_false in H1|].
  rewrite forallb_forall in H2. by apply apartb_sound, (H2 _ Hy).
Qed.

Definition toy_key : jsstring := replicate 32 0%N.
Definition plain_secret (s : string) : SecretEntry := mkSecret PlainSecret (js s) None None None.
Definition regex_secret (s : string) : SecretEntry := mkSecret RegexSecret (js s) None None None.

Definition toy_entries : list SecretEntry := [plain_secret "hunter2"; plain_secret "hunter"; regex_secret "AKIA42"].
Definition toy_start : SecretObfuscator :=
  finish_construction true (fold_left add_entry toy_entries (new_obfuscator toy_key)).
Definition toy_later : SecretObfuscator := (obfuscate toy_start (js "key AKIA42")).1.
Definition toy_text : jsstring := js "log in as hunter with hunter2 # and AKIA42".

Lemma secrets_hidden_witness :
  starts_with (js "log in as #GJC1_ivoufsAAAAAAAAAAAAAAAA# with #GJC1_") (obfuscate toy_later toy_text).2 = true
  /\ ~ occurs (js "AKIA42") (obfuscate toy_later toy_text).2.
Proof.
  split; [vm_compute; reflexivity|].
  apply (secrets_hidden toy_entries toy_key toy_start toy_later toy_text (obfuscate toy_later toy_text).1
           (obfuscate toy_later toy_text).2 (js "AKIA42")).
  - reflexivity.
  - intros e He _. repeat (apply elem_of_cons in He as [->|He]; [reflexivity|]). by apply elem_of_nil in He.
  - apply rtc_once. by exists (js "key AKIA42").
  - apply surjective_pairing.
  - apply cleanb_sound. vm_compute. reflexivity.
  - right. apply (bool_decide_eq_true_1 _). vm_compute. reflexivity.
Defined.

Lemma secrets_roundtrip_witness :
  (obfuscate toy_start toy_text).2 <> toy_text
  /\ deobfuscate (obfuscate (obfuscate toy_start toy_text).1 (js "key AKIA42")).1 (obfuscate toy_start toy_text).2 = toy_text.
Proof.
  split; [by apply (bool_decide_eq_false_1 _); vm_compute|].
  apply (secrets_roundtrip toy_entries toy_key toy_start toy_start toy_text (obfuscate toy_start toy_text).1).
  - reflexivity.
  - intros e He. repeat (apply elem_of_cons in He as [->|He]; [reflexivity|]). by apply elem_of_nil in He.
  - apply rtc_refl.
  - apply surjective_pairing.
  - apply rtc_once. by exists (js "key AKIA42").
  - apply cleanb_sound. vm_compute. reflexivity.
  - set (o := (obfuscate _ _).1). assert (Hall : Forall (fun x => Forall (fun y =>
      buildPlaceholder x (ob_placeholderKey o) = buildPlaceholder y (ob_placeholderKey o) -> x = y) (known o)) (known o)).
    { apply (bool_decide_eq_true_1 _). vm_compute. reflexivity. }
    intros x y Hx Hy. rewrite Forall_forall in Hall. specialize (Hall x Hx). rewrite Forall_forall in Hall. by apply Hall.
  - rewrite <- includes_iff. vm_compute. done.
Defined.

(** ** Where the promises end *)

Definition obfuscator_of (entries : list SecretEntry) : SecretObfuscator :=
  finish_construction true (fold_left add_entry entries (new_obfuscator toy_key)).

(** An expression for long tokens matches the inside of a placeholder: the placeholder of a
    configured secret is hidden a second time, and one reading does not bring the secret back. *)
Example regex_hides_placeholders :
  let o := obfuscator_of [plain_secret "hunter2"; regex_secret "[A-Za-z0-9_-]{20,}"] in
  let '(o', r) := obfuscate o (js "hunter2") in
  r = js "##GJC1_HKD2_jwpvgt4BBBBBBBBBB##" /\ deobfuscate o' r = js "#GJC1_ivoufs3AAAAAAAAAAAAAAA#".
Proof. vm_compute. split; reflexivity. Qed.

(** The same value in an entry that obfuscates and a later one that replaces: the later one
    decides, and the value cannot be read back. *)
Example replacing_entry_wins :
  let o := obfuscator_of [plain_secret "hunter2"; mkSecret PlainSecret (js "hunter2") (Some ModeReplace) (Some (js "********")) None] in
  (obfuscate o (js "password hunter2")).2 = js "password ********".
Proof. vm_compute. reflexivity. Qed.

(** Secrets that overlap without one holding the other: the single pass takes the leftmost, the
    pass it stands for the first in the list. *)
Example single_pass_differs :
  let o := ensureCombinedPlainRegex (obfuscator_of [plain_secret "ab4"; plain_secret "2ab"]) in
  ob_useSequentialPlainReplacement o = false
  /\ (obfuscatePlainMappings o (js "2ab4")).2 = js "#GJC1_3bcAAAAAAAAAAAAAAAAAAA#4"
  /\ obfuscatePlainMappingsSequential o (js "2ab4") = js "2#GJC1_bc5AAAAAAAAAAAAAAAAAAA#".
Proof. vm_compute. repeat split. Qed.

(** Content that is a string and the arguments of tool calls leave as they are. *)
Example arguments_not_hidden :
  let o := obfuscator_of [plain_secret "hunter2"] in
  let messages := [MUser (ContentString (js "hunter2"));
                   MAssistant (mkAssistant [ToolCallBlock (js "c1") (js "bash") [(js "command", JStr (js "login hunter2"))] None]
                                 (js "p") (js "m") StopToolUse None)] in
  (obfuscateMessages o messages).2 = messages.
Proof. vm_compute. reflexivity. Qed.

(** Text in blocks is hidden, and arguments with placeholders come back with the secrets. *)
Example blocks_hidden_arguments_restored :
  let o := obfuscator_of [plain_secret "hunter2"] in
  (obfuscateMessages o [MUser (ContentBlocks [TextBlock (js "use hunter2")])]).2
    = [MUser (ContentBlocks [TextBlock (js "use #GJC1_ivoufs3AAAAAAAAAAAAAAA#")])]
  /\ deobfuscateObject o (JObj [(js "argv", JArr [JStr (js "-p"); JStr (js "#GJC1_ivoufs3AAAAAAAAAAAAAAA#"); JNum 3])])
     = JObj [(js "argv", JArr [JStr (js "-p"); JStr (js "hunter2"); JNum 3])].
Proof. vm_compute. split; reflexivity. Qed.

Example literals_compile :
  literalMatch (js "/bearer\s+[a-z\/]+/i") = Some (js "bearer\s+[a-z\/]+", js "i")
  /\ literalMatch (js "/a/b/") = None
  /\ merge_flags (js "gi") (js "im") = js "gim"
  /\ compileSecretRegex (js "/a/y") None = None.
Proof. vm_compute. repeat split. Qed.
