(* ===== verification/SecretSources.v ===== *)
(** * Where secrets come from (secrets/index.ts, utils/src/dirs.ts)

    The values of environment variables with telling names, and the entries of two
    [secrets.yml] files.  A file inside the workspace is not trusted with regular
    expressions.  Reading and parsing a file, the functions of the module path and the
    canonical form of a path are parameters; [PathLaws] is what their documentation says of
    absolute paths of a system with [/]. *)

From S2P Require Import Prelude JsText FuzzyMatch HashlineInput Json SecretObfuscator SecretFacts.

Local Open Scope nat_scope.

Inductive SecretsFileScope := GlobalScope | ProjectScope.

#[export] Instance SecretsFileScope_eq_dec : EqDecision SecretsFileScope.
Proof. solve_decision. Defined.

(** ** Environment variables *)

Definition MIN_ENV_VALUE_LENGTH : nat := 8.

Definition SECRET_ENV_WORDS : list jsstring :=
  [js "KEY"; js "SECRET"; js "TOKEN"; js "PASSWORD"; js "PASS"; js "AUTH"; js "CREDENTIAL"; js "PRIVATE"; js "OAUTH"].

(** Upper case as a case-insensitive match compares ASCII letters. *)
Definition fold_case (c : N) : N := if ((97 <=? c) && (c <=? 122))%N then (c - 32)%N else c.

(** [/(?:KEY|...)(?:_|$)/i] at the start of a text. *)
Definition env_word_at (s : jsstring) : bool :=
  existsb (fun word => starts_with word s
                       && match drop (length word) s with [] => true | c :: _ => (c =? 95)%N end) SECRET_ENV_WORDS.

Fixpoint env_word_in (s : jsstring) : bool :=
  env_word_at s || match s with [] => false | _ :: rest => env_word_in rest end.

Definition SECRET_ENV_PATTERNS_test (name : jsstring) : bool := env_word_in (fold_case <$> name).

Definition collect_env (st : list SecretEntry * list jsstring) (var : jsstring * option jsstring) :
    list SecretEntry * list jsstring :=
  let '(entries, seen) := st in
  match var.2 with
  | None => st
  | Some value =>
      if length value <? MIN_ENV_VALUE_LENGTH then st
      else if negb (SECRET_ENV_PATTERNS_test var.1) then st
      else if bool_decide (value ∈ seen) then st
      else (entries ++ [mkSecret PlainSecret value (Some ModeObfuscate) None None], seen ++ [value])
  end.

Definition collectEnvSecrets (env : list (jsstring * option jsstring)) : list SecretEntry :=
  (fold_left collect_env env ([], [])).1.

(** ** Paths *)

Section paths.
Context `{PathLib}.
Variable realpath : jsstring -> option jsstring.

Definition resolveEquivalentPath (p : jsstring) : jsstring :=
  let resolved := path_resolve p in default resolved (realpath resolved).

Definition normalizePathForComparison (p : jsstring) : jsstring := resolveEquivalentPath p.

Definition relativePathEscapesRoot (relative : jsstring) : bool :=
  bool_decide (relative = js "..") || starts_with (js "../") relative || path_isAbsolute relative.

Definition pathIsWithin (root candidate : jsstring) : bool :=
  negb (relativePathEscapesRoot (path_relative (normalizePathForComparison root) (normalizePathForComparison candidate))).

Definition pathIsLexicallyWithin (root candidate : jsstring) : bool :=
  let relative := path_relative (path_resolve root) (path_resolve candidate) in
  bool_decide (relative = [])
  || (negb (starts_with (js "../") relative) && negb (bool_decide (relative = js "..")) && negb (path_isAbsolute relative)).

Definition classifySecretsFileScope (cwd agentDir : jsstring) : SecretsFileScope :=
  if pathIsLexicallyWithin cwd agentDir then ProjectScope
  else match realpath cwd, realpath agentDir with
       | Some canonicalCwd, Some canonicalAgentDir =>
           if pathIsWithin canonicalCwd canonicalAgentDir then ProjectScope else GlobalScope
       | _, _ => ProjectScope
       end.

(** ** Files *)

Context `{SecretLib}.

(** What reading and parsing gives; [None] is an error of either. *)
Variable read_yaml : jsstring -> option json.
Variable path_join : jsstring -> list jsstring -> jsstring.

Definition isRegexEntry (entry : json) : bool := is_str (js "regex") (jget (js "type") (Some entry)).

Definition optional_string (v : option json) : bool := match v with None => true | Some _ => is_string v end.

Definition string_of (v : option json) : option jsstring := match v with Some (JStr s) => Some s | _ => None end.

(** The entry, when it is valid; an array is an object without the fields. *)
Definition validateEntry (entry : json) : option SecretEntry :=
  let e := Some entry in
  let type := jget (js "type") e in
  let content := jget (js "content") e in
  let mode := jget (js "mode") e in
  let replacement := jget (js "replacement") e in
  let flags := jget (js "flags") e in
  if negb (is_str (js "plain") type) && negb (is_str (js "regex") type) then None
  else match content with
  | Some (JStr (c :: s)) =>
      if match mode with None => false | Some _ => negb (is_str (js "obfuscate") mode) && negb (is_str (js "replace") mode) end then None
      else if negb (optional_string replacement) then None
      else if negb (optional_string flags) then None
      else if is_str (js "regex") type && bool_decide (compileSecretRegex (c :: s) (string_of flags) = None) then None
      else Some (mkSecret (if is_str (js "regex") type then RegexSecret else PlainSecret) (c :: s)
                   (Some (if is_str (js "replace") mode then ModeReplace else ModeObfuscate))
                   (string_of replacement) (string_of flags))
  | _ => None
  end.

(** [type: "regex"] of an entry of a project file is skipped before it is looked at. *)
Definition load_entry (scope : SecretsFileScope) (entries : list SecretEntry) (entry : json) : list SecretEntry :=
  if bool_decide (scope = ProjectScope) && isRegexEntry entry then entries
  else match validateEntry entry with Some e => entries ++ [e] | None => entries end.

Definition loadSecretsFile (filePath : jsstring) (scope : SecretsFileScope) : list SecretEntry :=
  match read_yaml filePath with
  | Some (JArr raw) => fold_left (load_entry scope) raw []
  | _ => []
  end.

Definition is_plain (e : SecretEntry) : bool := bool_decide (sx_type e = PlainSecret).

Definition merge_entries (globalEntries projectEntries : list SecretEntry) : list SecretEntry :=
  if bool_decide (globalEntries = []) then projectEntries
  else if bool_decide (projectEntries = []) then globalEntries
  else
    let projectPlainContents := sx_content <$> List.filter is_plain projectEntries in
    List.filter (fun e => negb (is_plain e) || negb (bool_decide (sx_content e ∈ projectPlainContents))) globalEntries
    ++ projectEntries.

Definition loadSecrets (cwd agentDir : jsstring) : list SecretEntry :=
  let projectPath := path_join cwd [js ".gjc"; js "secrets.yml"] in
  let globalPath := path_join agentDir [js "secrets.yml"] in
  let agentScope := classifySecretsFileScope cwd agentDir in
  merge_entries (loadSecretsFile globalPath agentScope) (loadSecretsFile projectPath ProjectScope).

(** ** What a file gives *)

(** The value of an optional field that must be a string. *)
Definition string_field_is (key : jsstring) (entry : json) (value : option jsstring) : Prop :=
  jget key (Some entry) = JStr <$> value.

(** An item of a file that is an entry: a type, a content, and the optional fields. *)
Record secret_of (entry : json) (e : SecretEntry) : Prop := {
  so_type : jget (js "type") (Some entry) = Some (JStr (match sx_type e with PlainSecret => js "plain" | RegexSecret => js "regex" end));
  so_content : jget (js "content") (Some entry) = Some (JStr (sx_content e)) /\ sx_content e <> [];
  so_mode : (jget (js "mode") (Some entry) = None /\ sx_mode e = Some ModeObfuscate)
            \/ (jget (js "mode") (Some entry) = Some (JStr (js "obfuscate")) /\ sx_mode e = Some ModeObfuscate)
            \/ (jget (js "mode") (Some entry) = Some (JStr (js "replace")) /\ sx_mode e = Some ModeReplace);
  so_replacement : string_field_is (js "replacement") entry (sx_replacement e);
  so_flags : string_field_is (js "flags") entry (sx_flags e);
  so_compiles : sx_type e = RegexSecret -> is_Some (compileSecretRegex (sx_content e) (sx_flags e))
}.

(** The entries of the items of a file, in order: a project file gives no regular expressions. *)
Inductive loads (scope : SecretsFileScope) : list json -> list SecretEntry -> Prop :=
| loads_nil : loads scope [] []
| loads_take entry e raw es :
    secret_of entry e -> (scope = ProjectScope -> sx_type e = PlainSecret) -> loads scope raw es -> loads scope (entry :: raw) (e :: es)
| loads_skip entry raw es :
    (forall e, secret_of entry e -> scope = ProjectScope /\ sx_type e = RegexSecret) -> loads scope raw es -> loads scope (entry :: raw) es.

(** The entries of a file; a file that cannot be read, or holds no list, has none. *)
Definition file_gives (path : jsstring) (scope : SecretsFileScope) (es : list SecretEntry) : Prop :=
  match read_yaml path with Some (JArr raw) => loads scope raw es | _ => es = [] end.

Lemma is_str_spec k v : is_str k v = true <-> v = Some (JStr k).
Proof. destruct v as [[]|]; cbn; try done. rewrite bool_decide_eq_true. split; [by intros ->|by intros [= ->]]. Qed.

Lemma is_str_false k v : is_str k v = false <-> v <> Some (JStr k).
Proof. rewrite <- is_str_spec. by destruct (is_str k v). Qed.

Lemma optional_string_spec v : optional_string v = true <-> v = JStr <$> string_of v.
Proof. by destruct v as [[]|]. Qed.

Lemma string_of_fmap s : string_of (JStr <$> s) = s.
Proof. by destruct s. Qed.

Lemma validateEntry_sound entry e : validateEntry entry = Some e -> secret_of entry e.
Proof.
  unfold validateEntry. cbv zeta. set (e0 := Some entry).
  destruct (is_str (js "plain") (jget (js "type") e0)) eqn:Ep; destruct (is_str (js "regex") (jget (js "type") e0)) eqn:Er; cbn [negb andb]; try done.
  1: apply is_str_spec in Ep, Er; rewrite Ep in Er; discriminate Er.
  all: destruct (jget (js "content") e0) as [[| | |[|c s]| |]|] eqn:Ec; try done.
  all: match goal with |- (if ?b then _ else _) = _ -> _ => destruct b eqn:Em; [done|] end.
  all: destruct (optional_string (jget (js "replacement") e0)) eqn:Erp; [cbn [negb]|done].
  all: destruct (optional_string (jget (js "flags") e0)) eqn:Efl; [cbn [negb]|done]. all: apply optional_string_spec in Erp, Efl.
  2: case_bool_decide as Hc; [done|]. all: intros E%(inj Some); subst e. all: (split; cbn [sx_type sx_content sx_mode sx_replacement sx_flags]; fold e0; [by apply is_str_spec|done| |done|done|try done]).
  3: intros _; by apply not_eq_None_Some.
  all: destruct (jget (js "mode") e0) as [m|] eqn:Em0; [|by left]; right; apply andb_false_iff in Em as [Em%negb_false_iff|Em%negb_false_iff].
  all: apply is_str_spec in Em; injection Em as ->; (by left) || (by right).
Qed.

Lemma validateEntry_complete entry e : secret_of entry e -> validateEntry entry = Some e.
Proof.
  destruct e as [t content mode replacement flags]. intros [Ht [Hc Hne] Hm Hr Hf Hre]. unfold string_field_is in Hr, Hf.
  cbn [sx_type sx_content sx_mode sx_replacement sx_flags] in *. unfold validateEntry.
  cbv zeta. rewrite Ht, Hc, Hr, Hf, !string_of_fmap. destruct content as [|c s]; [done|].
  assert (Ho : forall v : option jsstring, optional_string (JStr <$> v) = true) by (by intros []). rewrite !Ho.
  assert (Hreg : t = RegexSecret -> bool_decide (compileSecretRegex (c :: s) flags = None) = false).
  { intros Hx. destruct (Hre Hx) as [r Hr0]. apply bool_decide_eq_false. by rewrite Hr0. }
  destruct Hm as [[-> ->]|[[-> ->]|[-> ->]]]; (destruct t; cbn; [done|by rewrite Hreg]).
Qed.

Lemma regex_entry entry e : secret_of entry e -> isRegexEntry entry = bool_decide (sx_type e = RegexSecret).
Proof. intros Hs. unfold isRegexEntry. rewrite (so_type _ _ Hs). by destruct (sx_type e). Qed.

Lemma load_file_spec path scope : file_gives path scope (loadSecretsFile path scope).
Proof.
  unfold file_gives, loadSecretsFile. destruct (read_yaml path) as [[| | | |raw|]|]; try done.
  assert (Hg : forall raw acc, exists es, fold_left (load_entry scope) raw acc = acc ++ es /\ loads scope raw es).
  { clear raw. induction raw as [|x raw IH]; intros acc; [exists []; split; [by rewrite app_nil_r|constructor]|].
    cbn [fold_left]. unfold load_entry at 2. destruct (bool_decide (scope = ProjectScope) && isRegexEntry x) eqn:Es.
    - destruct (IH acc) as (es & -> & Hl). exists es. split; [done|]. apply loads_skip; [|done]. intros e Hs.
      rewrite (regex_entry x e Hs) in Es. apply andb_prop in Es as [E1%bool_decide_eq_true E2%bool_decide_eq_true]. done.
    - destruct (validateEntry x) as [e|] eqn:Ev.
      + destruct (IH (acc ++ [e])) as (es & -> & Hl). exists (e :: es). split; [by rewrite <- app_assoc|].
        apply validateEntry_sound in Ev. apply loads_take; [done| |done]. intros ->. rewrite (regex_entry x e Ev) in Es. cbn in Es.
        apply bool_decide_eq_false in Es. by destruct (sx_type e).
      + destruct (IH acc) as (es & -> & Hl). exists es. split; [done|]. apply loads_skip; [|done].
        intros e Hs%validateEntry_complete. congruence. }
  by destruct (Hg raw []) as (es & -> & Hl).
Qed.

(** The file has the value itself. *)
Definition has_plain (es : list SecretEntry) (content : jsstring) : bool :=
  existsb (fun e => is_plain e && bool_decide (sx_content e = content)) es.

Lemma merge_exact g p : merge_entries g p = List.filter (fun e => negb (is_plain e && has_plain p (sx_content e))) g ++ p.
Proof.
  assert (Hd : forall e, bool_decide (sx_content e ∈ sx_content <$> List.filter is_plain p) = has_plain p (sx_content e)).
  { intros e. apply eq_true_iff_eq. unfold has_plain. rewrite bool_decide_eq_true, list_elem_of_fmap, existsb_exists. split.
    - intros (e' & Ec & Hin). apply list_elem_of_In, filter_In in Hin as [Hin Hp]. exists e'. split; [done|]. rewrite Hp. by apply bool_decide_eq_true.
    - intros (e' & Hin & [Hp Ec%bool_decide_eq_true]%andb_prop). exists e'. split; [done|]. apply list_elem_of_In, filter_In. done. }
  unfold merge_entries. case_bool_decide as Eg; [by subst|]. case_bool_decide as Ep.
  - subst p. rewrite app_nil_r. symmetry. clear Hd Eg. induction g as [|e g IH]; [done|]. cbn [List.filter].
    unfold has_plain at 1. cbn [existsb]. rewrite andb_false_r. cbn [negb]. by rewrite IH.
  - f_equal. apply filter_ext. intros e. rewrite <- Hd. by rewrite negb_andb.
Qed.

(** ** Inside the workspace *)

(** The path of its parts; normal parts are names. *)
Definition path_of (comps : list jsstring) : jsstring := js "/" ++ join (js "/") comps.
Definition normal (comps : list jsstring) : Prop :=
  Forall (fun c => c <> [] /\ Forall (fun x => x <> 47%N) c /\ c <> js "." /\ c <> js "..") comps.

(** One path is inside another if its parts start with the parts of the other. *)
Definition inside (root candidate : jsstring) : Prop :=
  exists a b, normal a /\ normal b /\ root = path_of a /\ candidate = path_of b /\ a `prefix_of` b.

(** The way from one directory to another: up to the common part, then down. *)
Fixpoint relative_parts (a b : list jsstring) : list jsstring :=
  match a, b with
  | x :: a', y :: b' => if bool_decide (x = y) then relative_parts a' b' else replicate (length a) (js "..") ++ b
  | _, _ => replicate (length a) (js "..") ++ b
  end.

(** What the documentation says of [path.resolve], [path.relative], [path.isAbsolute] and
    [fs.realpath]: absolute paths without empty parts, dots and double dots. *)
Class PathLaws : Prop := {
  resolve_normal p : exists comps, normal comps /\ path_resolve p = path_of comps;
  resolve_id comps : normal comps -> path_resolve (path_of comps) = path_of comps;
  relative_eq a b : normal a -> normal b -> path_relative (path_of a) (path_of b) = join (js "/") (relative_parts a b);
  isAbsolute_eq p : path_isAbsolute p = starts_with (js "/") p;
  realpath_normal p q : realpath p = Some q -> exists comps, normal comps /\ q = path_of comps;
  realpath_canonical p q : realpath p = Some q -> realpath q = Some q
}.

Lemma relative_parts_spec a b :
  (exists t, b = a ++ t /\ relative_parts a b = t) \/ (~ a `prefix_of` b /\ exists t, relative_parts a b = js ".." :: t).
Proof.
  revert b. induction a as [|x a IH]; intros b; [left; by exists b|]. destruct b as [|y b]; cbn [relative_parts].
  { right. split; [by intros ?%prefix_nil_inv|]. cbn. by eexists. }
  case_bool_decide as E; [subst y|right; split; [by intros ?%prefix_cons_inv_1|]; cbn; by eexists].
  destruct (IH b) as [(t & -> & Ht)|(Hn & Ht)]; [left; by exists t|right]. split; [by intros ?%prefix_cons_inv_2|done].
Qed.

Lemma parts_read t : t <> [] -> normal t -> split_char 47 (join (js "/") t) = t.
Proof. intros Hne Hn. apply split_join; [done|]. eapply Forall_impl; [exact Hn|]. by intros c (_ & ? & _). Qed.

Lemma escapes_normal t : normal t -> starts_with (js "/") (join (js "/") t) = false
  /\ starts_with (js "../") (join (js "/") t) = false /\ join (js "/") t <> js "..".
Proof.
  intros Hn. destruct t as [|c t]; [done|]. pose proof (parts_read (c :: t) ltac:(done) Hn) as Hr.
  apply Forall_cons in Hn as [(Hc & _ & _ & Hdd) _]. repeat split.
  - destruct (starts_with (js "/") _) eqn:E; [|done]. apply starts_with_iff in E as [s E]. rewrite E in Hr.
    change (split_char 47 (js "/" ++ s)) with ([] :: split_char 47 s) in Hr. by injection Hr as <- _.
  - destruct (starts_with (js "../") _) eqn:E; [|done]. apply starts_with_iff in E as [s E]. rewrite E in Hr.
    change (split_char 47 (js "../" ++ s)) with (js ".." :: split_char 47 s) in Hr. by injection Hr as <- _.
  - intros E. rewrite E in Hr. change (split_char 47 (js "..")) with [js ".."] in Hr. by injection Hr as <- _.
Qed.

Lemma escapes_up t : starts_with (js "../") (join (js "/") (js ".." :: t)) = true \/ join (js "/") (js ".." :: t) = js "..".
Proof. destruct t as [|c t]; [by right|]. left. rewrite join_cons by done. apply starts_with_iff. by eexists. Qed.

(** The three tests on the relative path are the test on the parts. *)
Lemma escapes_spec (HL : PathLaws) a b : normal a -> normal b ->
  let relative := path_relative (path_of a) (path_of b) in
  relativePathEscapesRoot relative = bool_decide (~ a `prefix_of` b) /\ (relative = [] -> relativePathEscapesRoot relative = false).
Proof.
  intros Ha Hb relative. subst relative. rewrite relative_eq by done. unfold relativePathEscapesRoot. rewrite isAbsolute_eq.
  split; [|by intros ->]. destruct (relative_parts_spec a b) as [(t & -> & ->)|(Hn & t & ->)].
  - destruct (escapes_normal t) as (-> & -> & Hd); [by apply Forall_app in Hb as [_ ?]|]. rewrite (bool_decide_eq_false_2 (_ = _)) by done.
    rewrite bool_decide_eq_false_2; [done|]. intros Hno. apply Hno. by exists t.
  - rewrite (bool_decide_eq_true_2 (~ _)) by done. destruct (escapes_up t) as [-> | ->]; [by rewrite orb_true_r|]. done.
Qed.

Lemma path_of_inj a b : normal a -> normal b -> path_of a = path_of b -> a = b.
Proof.
  intros Ha Hb E. unfold path_of in E. apply app_inv_head in E. destruct a as [|x a], b as [|y b]; [done| | |].
  - apply (f_equal (split_char 47)) in E. rewrite (parts_read (y :: b)) in E by done. injection E as <- _.
    apply Forall_cons in Hb as [(? & _) _]. done.
  - apply (f_equal (split_char 47)) in E. rewrite (parts_read (x :: a)) in E by done. injection E as -> _.
    apply Forall_cons in Ha as [(? & _) _]. done.
  - apply (f_equal (split_char 47)) in E. by rewrite !parts_read in E.
Qed.

Lemma inside_parts a b : normal a -> normal b -> inside (path_of a) (path_of b) <-> a `prefix_of` b.
Proof.
  intros Ha Hb. split; [|intros; by exists a, b]. intros (a' & b' & Ha' & Hb' & Ea & Eb & Hp).
  apply path_of_inj in Ea as ->; [|done..]. by apply path_of_inj in Eb as ->.
Qed.

Lemma lexically_within_spec (HL : PathLaws) root candidate :
  pathIsLexicallyWithin root candidate = true <-> inside (path_resolve root) (path_resolve candidate).
Proof.
  destruct (resolve_normal root) as (a & Ha & Ea), (resolve_normal candidate) as (b & Hb & Eb).
  unfold pathIsLexicallyWithin. rewrite Ea, Eb, inside_parts by done. destruct (escapes_spec HL a b Ha Hb) as [He Hnil]. cbv zeta in *.
  unfold relativePathEscapesRoot in He, Hnil. set (r := path_relative (path_of a) (path_of b)) in *.
  destruct (decide (a `prefix_of` b)) as [Hp|Hp].
  - rewrite (bool_decide_eq_false_2 (~ _)) in He by tauto. apply orb_false_iff in He as [[H1 H2]%orb_false_iff H3].
    rewrite H1, H2, H3. by rewrite orb_true_r.
  - rewrite (bool_decide_eq_true_2 (~ _)) in He by done. split; [|done]. intros [E|E]%orb_true_iff; exfalso.
    + apply bool_decide_eq_true in E. rewrite Hnil in He by done. done.
    + apply andb_prop in E as [[E1%negb_true_iff E2%negb_true_iff]%andb_prop E3%negb_true_iff]. by rewrite E1, E2, E3 in He.
Qed.

Lemma within_spec (HL : PathLaws) p q a b : realpath p = Some a -> realpath q = Some b -> pathIsWithin a b = true <-> inside a b.
Proof.
  intros Hp Hq. destruct (realpath_normal p a Hp) as (ca & Ha & ->), (realpath_normal q b Hq) as (cb & Hb & ->).
  unfold pathIsWithin, normalizePathForComparison, resolveEquivalentPath. rewrite !resolve_id by done.
  rewrite (realpath_canonical _ _ Hp), (realpath_canonical _ _ Hq). cbn [default from_option id].
  destruct (escapes_spec HL ca cb Ha Hb) as [-> _]. rewrite inside_parts by done.
  rewrite negb_true_iff, bool_decide_eq_false. destruct (decide (ca `prefix_of` cb)); tauto.
Qed.

(** The agent's directory is outside the workspace, by its name and by its canonical path. *)
Definition outside (cwd agentDir : jsstring) : Prop :=
  ~ inside (path_resolve cwd) (path_resolve agentDir)
  /\ exists a b, realpath cwd = Some a /\ realpath agentDir = Some b /\ ~ inside a b.

Lemma scope_spec (HL : PathLaws) cwd agentDir : classifySecretsFileScope cwd agentDir = GlobalScope <-> outside cwd agentDir.
Proof.
  unfold classifySecretsFileScope, outside. rewrite <- lexically_within_spec by done. destruct (pathIsLexicallyWithin cwd agentDir).
  { split; [done|]. by intros [[] _]. }
  destruct (realpath cwd) as [a|] eqn:Ea; [|split; [done|]; by intros (_ & ? & ? & ? & _)].
  destruct (realpath agentDir) as [b|] eqn:Eb; [|split; [done|]; by intros (_ & ? & ? & _ & ? & _)].
  pose proof (within_spec HL _ _ a b Ea Eb) as Hw. destruct (pathIsWithin a b).
  - split; [done|]. intros (_ & ? & ? & [= <-] & [= <-] & Hn). by destruct Hn; apply Hw.
  - split; [|done]. intros _. split; [done|]. exists a, b. split; [done|]. split; [done|]. intros Hi. by apply Hw in Hi.
Qed.

(** C22: What is loaded is exactly the valid entries of the two files, with regular expressions only
    from an agent directory outside the workspace.  An item of a file is an entry if it has a
    type and a content, a mode if it is one of the two, and text for the other fields, and a regular
    expression compiles; the mode is [obfuscate] unless the item says otherwise.  The agent's
    file is trusted with regular expressions exactly when its directory is not inside the
    workspace, part by part, neither by the names given nor by their canonical forms, both of
    which exist.  What is loaded are the entries of the agent's file in order, less the plain
    values that the project's file has itself, and then those of the project's file. *)
Theorem loaded_secrets_trusted (HL : PathLaws) cwd agentDir :
  exists scope agentEntries projectEntries,
    (scope = GlobalScope <-> outside cwd agentDir)
    /\ file_gives (path_join agentDir [js "secrets.yml"]) scope agentEntries
    /\ file_gives (path_join cwd [js ".gjc"; js "secrets.yml"]) ProjectScope projectEntries
    /\ loadSecrets cwd agentDir
       = List.filter (fun e => negb (is_plain e && has_plain projectEntries (sx_content e))) agentEntries ++ projectEntries.
Proof.
  exists (classifySecretsFileScope cwd agentDir), (loadSecretsFile (path_join agentDir [js "secrets.yml"]) (classifySecretsFileScope cwd agentDir)),
    (loadSecretsFile (path_join cwd [js ".gjc"; js "secrets.yml"]) ProjectScope).
  split; [by apply scope_spec|]. split; [apply load_file_spec|]. split; [apply load_file_spec|apply merge_exact].
Qed.

End paths.

(** ** What the environment gives *)

Definition env_secret (env : list (jsstring * option jsstring)) (v : jsstring) : Prop :=
  exists name, (name, Some v) ∈ env /\ SECRET_ENV_PATTERNS_test name = true /\ MIN_ENV_VALUE_LENGTH <= length v.

(** The state of the loop after the variables [done]. *)
Record env_collected (done : list (jsstring * option jsstring)) (st : list SecretEntry * list jsstring) : Prop := {
  co_entries : sx_content <$> st.1 = st.2;
  co_NoDup : NoDup st.2;
  co_exact v : v ∈ st.2 <-> env_secret done v
}.

Lemma env_secret_app done var v :
  env_secret (done ++ [var]) v <-> env_secret done v \/ env_secret [var] v.
Proof. unfold env_secret. split; [intros (n & Hin & ?)|intros [(n & Hin & ?)|(n & Hin & ?)]]; set_solver. Qed.

Lemma collect_env_step done st var : env_collected done st -> env_collected (done ++ [var]) (collect_env st var).
Proof.
  destruct st as [es seen], var as [name value]. intros [Hs Hn Hv]. cbn in Hs, Hn, Hv.
  assert (Hold : (forall v, env_secret [(name, value)] v -> v ∈ seen) -> env_collected (done ++ [(name, value)]) (es, seen)).
  { intros Hcov. split; cbn; [done|done|]. intros v. rewrite env_secret_app, <- Hv. naive_solver. }
  assert (Hone : forall v, env_secret [(name, value)] v ->
    value = Some v /\ SECRET_ENV_PATTERNS_test name = true /\ MIN_ENV_VALUE_LENGTH <= length v).
  { intros v (n & Hin%list_elem_of_singleton & ? & ?). by injection Hin as -> <-. }
  unfold collect_env. cbn [snd fst]. destruct value as [value|]; [|apply Hold; intros v Hx; by apply Hone in Hx as [? _]].
  destruct (Nat.ltb_spec (length value) MIN_ENV_VALUE_LENGTH) as [Hl|Hl].
  { apply Hold. intros v Hx. apply Hone in Hx as ([= ->] & _ & Hx). lia. }
  destruct (SECRET_ENV_PATTERNS_test name) eqn:Et; cbn [negb].
  2:{ apply Hold. intros v Hx. by apply Hone in Hx as (_ & Hx & _). }
  case_bool_decide as Ein; [apply Hold; intros v Hx; by apply Hone in Hx as ([= ->] & _)|].
  split; cbn.
  - by rewrite fmap_app, Hs.
  - apply NoDup_app. split; [done|]. split; [set_solver|apply NoDup_singleton].
  - intros v. rewrite elem_of_app, list_elem_of_singleton, env_secret_app, Hv. split.
    + intros [?| ->]; [by left|]. right. exists name. split; [by apply list_elem_of_singleton|done].
    + intros [?|Hx]; [by left|]. apply Hone in Hx as ([= ->] & _). by right.
Qed.

(** Every telling variable with a long enough value is covered, once, and nothing else is env_collected. *)
Theorem env_secrets_exact env :
  NoDup (sx_content <$> collectEnvSecrets env)
  /\ forall v, v ∈ sx_content <$> collectEnvSecrets env <-> env_secret env v.
Proof.
  assert (Hg : forall l done st, env_collected done st -> env_collected (done ++ l) (fold_left collect_env l st)).
  { induction l as [|x l IH]; intros done0 st Hst; [by rewrite app_nil_r|].
    replace (done0 ++ x :: l) with ((done0 ++ [x]) ++ l) by (by rewrite <- (assoc_L app)).
    by apply IH, collect_env_step. }
  destruct (Hg env [] ([], [])) as [H1 H2 H3].
  { split; cbn; [done|constructor|]. intros v. split; [intros Hin; by apply elem_of_nil in Hin|].
    intros (n & Hin & _). by apply elem_of_nil in Hin. }
  unfold collectEnvSecrets. rewrite H1. by split.
Qed.

(** ** A sample system

    Paths are resolved against [/work]; [/home/link] is a link into the workspace. *)

Definition posix_step (acc : list jsstring) (c : jsstring) : list jsstring :=
  if bool_decide (c = []) || bool_decide (c = js ".") then acc
  else if bool_decide (c = js "..") then removelast acc else acc ++ [c].

Definition posix_parts (start : list jsstring) (p : jsstring) : list jsstring := fold_left posix_step (split_char 47 p) start.

Definition posix_resolve (p : jsstring) : jsstring := path_of (posix_parts (if starts_with (js "/") p then [] else [js "work"]) p).

#[local] Instance posix_paths : PathLib :=
  {| path_isAbsolute := starts_with (js "/");
     path_resolve := posix_resolve;
     path_relative := fun a b => join (js "/") (relative_parts (posix_parts [] (posix_resolve a)) (posix_parts [] (posix_resolve b))) |}.

Definition sample_realpath (p : jsstring) : option jsstring :=
  let r := posix_resolve p in Some (if bool_decide (r = js "/home/link") then js "/work/agent" else r).

Lemma posix_step_normal acc c : normal acc -> Forall (fun x => x <> 47%N) c -> normal (posix_step acc c).
Proof.
  intros Hacc Hc. unfold posix_step. case_bool_decide; [done|]. case_bool_decide; [done|]. cbn [orb]. case_bool_decide.
  - apply Forall_forall. intros x Hx. unfold normal in Hacc. rewrite Forall_forall in Hacc. apply Hacc.
    destruct acc as [|y acc]; [done|]. rewrite (app_removelast_last [] (l := y :: acc)) by done. apply elem_of_app. by left.
  - apply Forall_app. split; [done|]. by apply Forall_singleton.
Qed.

Lemma posix_parts_normal start p : normal start -> normal (posix_parts start p).
Proof.
  unfold posix_parts. pose proof (split_char_pieces 47 p) as Hp. revert start. induction Hp as [|c cs Hc Hp IH]; intros start Hs; [done|].
  cbn [fold_left]. by apply IH, posix_step_normal.
Qed.

Lemma posix_resolve_normal p : exists comps, normal comps /\ posix_resolve p = path_of comps.
Proof. eexists. split; [|done]. apply posix_parts_normal. destruct (starts_with _ _); repeat constructor; discriminate. Qed.

Lemma posix_parts_id comps : normal comps -> posix_parts [] (path_of comps) = comps.
Proof.
  intros Hn. unfold posix_parts, path_of. change (js "/" ++ join (js "/") comps) with (47%N :: join (js "/") comps).
  change (split_char 47 (47%N :: join (js "/") comps)) with ([] :: split_char 47 (join (js "/") comps)). cbn [fold_left].
  change (posix_step [] []) with (@nil jsstring). destruct (decide (comps = [])) as [->|Hne]; [done|]. rewrite parts_read by done.
  assert (Hg : forall l acc, normal l -> fold_left posix_step l acc = acc ++ l).
  { clear. induction l as [|c l IH]; intros acc Hl; [by rewrite app_nil_r|]. apply Forall_cons in Hl as [(H1 & _ & H2 & H3) Hl]. cbn [fold_left].
    rewrite IH by done. unfold posix_step. rewrite !bool_decide_eq_false_2 by done. cbn [orb]. by rewrite <- app_assoc. }
  by apply Hg.
Qed.

Lemma posix_resolve_id comps : normal comps -> posix_resolve (path_of comps) = path_of comps.
Proof. intros Hn. unfold posix_resolve. change (starts_with (js "/") (path_of comps)) with true. by rewrite posix_parts_id. Qed.

#[local] Instance posix_laws : PathLaws sample_realpath.
Proof.
  split.
  - apply posix_resolve_normal.
  - apply posix_resolve_id.
  - intros a b Ha Hb. cbn [path_relative posix_paths]. by rewrite !posix_resolve_id, !posix_parts_id.
  - done.
  - intros p q. unfold sample_realpath. cbv zeta. case_bool_decide; intros [= <-].
    + exists [js "work"; js "agent"]. split; [repeat constructor; discriminate|done].
    + apply posix_resolve_normal.
  - intros p q. unfold sample_realpath. cbv zeta. case_bool_decide as E; intros [= <-]; [done|].
    destruct (posix_resolve_normal p) as (comps & Hn & Ep). rewrite Ep, posix_resolve_id, bool_decide_eq_false_2 by congruence. done.
Qed.

(** Two regular expressions, one in each file. *)
Definition sample_item (type content : string) : json := JObj [(js "type", JStr (js type)); (js "content", JStr (js content))].

Definition sample_yaml (path : jsstring) : option json :=
  if bool_decide (path = js "/home/agent/secrets.yml") then Some (JArr [sample_item "regex" "sk-"; sample_item "plain" "hunter2"])
  else if bool_decide (path = js "/work/.gjc/secrets.yml") then Some (JArr [sample_item "regex" "."; sample_item "plain" "hunter2"])
  else None.

Definition sample_join (dir : jsstring) (parts : list jsstring) : jsstring := join (js "/") (dir :: parts).

#[local] Existing Instance toy_lib.

Lemma loaded_secrets_trusted_witness :
  loadSecrets sample_realpath sample_yaml sample_join (js "/work") (js "/home/agent")
    = [mkSecret RegexSecret (js "sk-") (Some ModeObfuscate) None None; mkSecret PlainSecret (js "hunter2") (Some ModeObfuscate) None None]
  /\ exists scope agentEntries projectEntries,
       (scope = GlobalScope <-> outside sample_realpath (js "/work") (js "/home/agent"))
       /\ file_gives sample_yaml (js "/home/agent/secrets.yml") scope agentEntries
       /\ file_gives sample_yaml (js "/work/.gjc/secrets.yml") ProjectScope projectEntries.
Proof.
  split; [vm_compute; reflexivity|].
  destruct (loaded_secrets_trusted sample_realpath sample_yaml sample_join posix_laws (js "/work") (js "/home/agent"))
    as (scope & ae & pe & Hs & Ha & Hp & _).
  exists scope, ae, pe. split; [exact Hs|]. split; [exact Ha|exact Hp].
Defined.

Example env_names :
  SECRET_ENV_PATTERNS_test (js "GITHUB_TOKEN") = true
  /\ SECRET_ENV_PATTERNS_test (js "api_key_2") = true
  /\ SECRET_ENV_PATTERNS_test (js "KEYBOARD") = false.
Proof. vm_compute. repeat split. Qed.
