(* ===== verification/FallbackChain.v ===== *)
(** * Falling back to another model (session/fallback-chain-controller.ts)

    A chain of model selectors; each is tried a number of times, an entry may be tried
    once more with another credential, and the chain is exhausted when its last entry is.
    The controller is the policy; the requests and their outcome are the caller's. *)

From stdpp Require Import gmap.
From Stdlib Require Import QArith Qround.
From S2P Require Import Prelude JsText.

Local Open Scope nat_scope.

Record ConfiguredFallbackChain := mkChain {
  fc_role : jsstring;
  fc_entries : list jsstring;
  fc_origin : jsstring;
  fc_identity : option jsstring;
  fc_explicitHead : bool
}.

Record FallbackFailure := mkFailure { ff_selector : jsstring; ff_triggerClass : jsstring; ff_reason : jsstring }.

Inductive FallbackFailureResult := Retry | Advance | Exhausted.

#[export] Instance FallbackFailureResult_eq_dec : EqDecision FallbackFailureResult.
Proof. solve_decision. Defined.

Record Controller := mkController {
  ct_chain : ConfiguredFallbackChain;
  ct_maxAttempts : nat;
  ct_activeIndex : nat;
  ct_attemptsUsed : nat;
  ct_tried : list FallbackFailure;
  ct_attemptStarted : bool;
  ct_totalAttemptsUsed : nat;
  ct_restoredEntryIndices : gset nat;
  ct_skips : list (jsstring * jsstring);
  ct_exhaustedForTurn : bool
}.

Definition entry_count (c : Controller) : nat := length (fc_entries (ct_chain c)).

(** [None] is the error of a number of attempts that is not a positive integer. *)
Definition new_controller (chain : ConfiguredFallbackChain) (maxAttempts : Z) : option Controller :=
  if (maxAttempts <? 1)%Z then None
  else Some (mkController chain (Z.to_nat maxAttempts) 0 0 [] false 0 ∅ [] (length (fc_entries chain) =? 0)).

Definition maxTotalAttempts (c : Controller) : nat :=
  ct_maxAttempts c * entry_count c + size (ct_restoredEntryIndices c).

Definition currentSelector (c : Controller) : option jsstring := fc_entries (ct_chain c) !! ct_activeIndex c.

(** The selector where the source tests it: an empty one counts as none. *)
Definition usable_selector (c : Controller) : option jsstring :=
  match currentSelector c with Some (x :: s) => Some (x :: s) | _ => None end.

Definition advance (c : Controller) : Controller * bool :=
  if ct_exhaustedForTurn c then (c, false) else
  let '(mkController chain mx i _ tried _ total restored skips _) := c in
  let gone := length (fc_entries chain) <=? S i in
  (mkController chain mx (S i) 0 tried false total restored skips gone, negb gone).

Definition onResolutionSkip (c : Controller) (reason : jsstring) : Controller * bool :=
  let '(mkController chain mx i used tried started total restored skips gone) := c in
  let skips := match usable_selector c with Some s => skips ++ [(s, reason)] | None => skips end in
  advance (mkController chain mx i used tried started total restored skips gone).

(** The whole chain is given up. *)
Definition exhaust_chain (c : Controller) : Controller :=
  let '(mkController chain mx _ used tried started total restored skips _) := c in
  mkController chain mx (length (fc_entries chain)) used tried started total restored skips true.

Definition onAttemptStarted (c : Controller) : Controller :=
  match usable_selector c with
  | None => c
  | Some _ =>
      if ct_exhaustedForTurn c then c
      else if maxTotalAttempts c <=? ct_totalAttemptsUsed c then exhaust_chain c
      else let '(mkController chain mx i used tried _ total restored skips gone) := c in
           mkController chain mx i (S used) tried true (S total) restored skips gone
  end.

Definition discardStartedAttempt (c : Controller) : Controller :=
  let '(mkController chain mx i used tried started total restored skips gone) := c in
  if negb started then c
  else mkController chain mx i (pred used) tried false (pred total) restored skips gone.

Definition resetAttemptBudget (c : Controller) : Controller :=
  let '(mkController chain mx i _ _ _ _ _ skips gone) := c in
  mkController chain mx i 0 [] false 0 ∅ skips gone.

Definition seedResolution (c : Controller) (activeIndex : Z) (skips : list (jsstring * jsstring)) : Controller :=
  let '(mkController chain mx _ _ tried _ _ _ _ _) := c in
  let i := Nat.min (Z.to_nat activeIndex) (length (fc_entries chain)) in
  mkController chain mx i 0 tried false 0 ∅ skips (length (fc_entries chain) <=? i).

Definition onAttemptFailure (c : Controller) (triggerClass reason : jsstring) : Controller * FallbackFailureResult :=
  match usable_selector c with
  | None => (c, Exhausted)
  | Some selector =>
      if ct_exhaustedForTurn c then (c, Exhausted) else
      let '(mkController chain mx i used tried started total restored skips gone) := c in
      let used := if started then used else S used in
      let total := if started then total else S total in
      let c := mkController chain mx i used (tried ++ [mkFailure selector triggerClass reason]) false total restored skips gone in
      if maxTotalAttempts c <=? total then (exhaust_chain c, Exhausted)
      else if used <? mx then (c, Retry)
      else let '(c, more) := advance c in (c, if more then Advance else Exhausted)
  end.

Definition restorePreviousEntryForRetry (c : Controller) : Controller * bool :=
  match ct_activeIndex c with
  | O => (c, false)
  | S previousIndex =>
      if ct_exhaustedForTurn c || bool_decide (previousIndex ∈ ct_restoredEntryIndices c)
         || (maxTotalAttempts c <=? ct_totalAttemptsUsed c)
      then (c, false)
      else let '(mkController chain mx _ _ tried _ total restored skips _) := c in
           (mkController chain mx previousIndex (mx - 1) tried false total ({[previousIndex]} ∪ restored) skips false, true)
  end.

Definition isExhausted (c : Controller) : bool := ct_exhaustedForTurn c.

Definition resetSticky (c : Controller) : Controller :=
  let '(mkController chain mx _ _ _ _ _ _ _ _) := c in
  mkController chain mx 0 0 [] false 0 ∅ [] (length (fc_entries chain) =? 0).

Definition resetForNewTurn (c : Controller) : Controller := resetSticky c.

(** ** Delays

    Delays are whole milliseconds, a random number is an exact fraction. *)

Definition pow2 (k : Z) : Z := (2 ^ Z.max 0 k)%Z.

Definition cappedExponentialWithFullJitter (baseDelayMs maxDelayMs attemptK : Z) (random : Q) : Z :=
  let exponential := (baseDelayMs * pow2 (attemptK - 1))%Z in
  let cap := if (0 <? maxDelayMs)%Z then Z.min exponential maxDelayMs else exponential in
  let share := if Qle_bool 1 random then 1%Q else if Qle_bool random 0 then 0%Q else random in
  Qfloor (inject_Z (Z.max 0 cap) * share).

(** A hint that is missing, infinite or not a number is [None]. *)
Definition compactionRetryDelay (baseDelayMs maxDelayMs attempt : Z) (retryAfterMs : option Z) : Z :=
  let exponential := (baseDelayMs * pow2 attempt)%Z in
  let hint := match retryAfterMs with Some ms => Z.max 0 ms | None => 0%Z end in
  let hinted := Z.max exponential hint in
  let bounded := if (0 <? maxDelayMs)%Z then Z.min hinted maxDelayMs else hinted in
  Z.max 0 bounded.

Definition effectiveFallbackDelay (baseDelayMs maxDelayMs attemptK : Z) (retryAfterMs : option Z) (random : Q) : Z :=
  Z.max (cappedExponentialWithFullJitter baseDelayMs maxDelayMs attemptK random) (default 0%Z retryAfterMs).

(** ** The operations as steps *)

Inductive op :=
| OpStart | OpFail (triggerClass reason : jsstring) | OpDiscard | OpSkip (reason : jsstring) | OpAdvance | OpRestore
| OpResetBudget | OpSeed (activeIndex : Z) (skips : list (jsstring * jsstring)) | OpResetSticky.

Definition run_op (c : Controller) (o : op) : Controller :=
  match o with
  | OpStart => onAttemptStarted c
  | OpFail t r => (onAttemptFailure c t r).1
  | OpDiscard => discardStartedAttempt c
  | OpSkip r => (onResolutionSkip c r).1
  | OpAdvance => (advance c).1
  | OpRestore => (restorePreviousEntryForRetry c).1
  | OpResetBudget => resetAttemptBudget c
  | OpSeed i skips => seedResolution c i skips
  | OpResetSticky => resetSticky c
  end.

Record controller_ok (c : Controller) : Prop := {
  ck_max : 0 < ct_maxAttempts c;
  ck_index : ct_activeIndex c <= entry_count c;
  ck_exhausted : ct_exhaustedForTurn c = (entry_count c <=? ct_activeIndex c);
  ck_restored i : i ∈ ct_restoredEntryIndices c -> i < entry_count c;
  ck_budget : ct_totalAttemptsUsed c <= maxTotalAttempts c + (if ct_exhaustedForTurn c then 1 else 0)
}.

Lemma new_controller_ok chain mx c : new_controller chain mx = Some c -> controller_ok c.
Proof.
  unfold new_controller. destruct (Z.ltb_spec mx 1) as [|Hm]; [done|]. intros [= <-].
  split; cbn; [lia|lia| |set_solver|lia]. unfold entry_count. cbn. by destruct (fc_entries chain).
Qed.

Lemma advance_ok c : controller_ok c -> controller_ok (advance c).1.
Proof.
  unfold advance. destruct (ct_exhaustedForTurn c) eqn:Ee; [done|].
  destruct c as [chain mx i used tried started total restored skips gone]. cbn in Ee. subst gone.
  intros [Hm Hi He Hr Hb]. unfold maxTotalAttempts, entry_count in *. cbn in *. symmetry in He. apply Nat.leb_gt in He.
  split; unfold maxTotalAttempts, entry_count; cbn; [done|lia|done|done|]. case_match; lia.
Qed.

Lemma exhaust_chain_ok c : controller_ok c -> ct_exhaustedForTurn c = false -> controller_ok (exhaust_chain c).
Proof.
  destruct c as [chain mx i used tried started total restored skips gone]. cbn. intros [Hm Hi He Hr Hb] ->.
  unfold maxTotalAttempts, entry_count in *. cbn in *.
  split; unfold maxTotalAttempts, entry_count; cbn; [done|done| |done|lia]. symmetry. by apply Nat.leb_le.
Qed.

Lemma started_ok c : controller_ok c -> controller_ok (onAttemptStarted c).
Proof.
  intros Hc. unfold onAttemptStarted. destruct (usable_selector c); [|done]. destruct (ct_exhaustedForTurn c) eqn:Ee; [done|].
  destruct (Nat.leb_spec (maxTotalAttempts c) (ct_totalAttemptsUsed c)) as [|Hlt]; [by apply exhaust_chain_ok|].
  destruct c as [chain mx i used tried started total restored skips gone]. destruct Hc as [Hm Hi He Hr Hb]. cbn in Ee. subst gone.
  unfold maxTotalAttempts, entry_count in *. cbn in *. split; unfold maxTotalAttempts, entry_count; cbn; try done. lia.
Qed.

Lemma failure_ok c t r : controller_ok c -> controller_ok (onAttemptFailure c t r).1.
Proof.
  intros Hc. unfold onAttemptFailure. destruct (usable_selector c) as [s|]; [|done]. destruct (ct_exhaustedForTurn c) eqn:Ee; [done|].
  destruct c as [chain mx i used tried started total restored skips gone]. destruct Hc as [Hm Hi He Hr Hb]. cbn in Ee. subst gone.
  unfold maxTotalAttempts, entry_count in *. cbn in *.
  assert (Hb' : (if started then total else S total) <= S (mx * length (fc_entries chain) + size restored)) by (destruct started; lia).
  set (total' := if started then total else S total) in *. set (used' := if started then used else S used) in *.
  destruct (Nat.leb_spec (mx * length (fc_entries chain) + size restored) total') as [Hge|Hlt].
  - cbn. split; unfold maxTotalAttempts, entry_count; cbn; [done|done| |done|lia]. symmetry. by apply Nat.leb_le.
  - assert (Hk : controller_ok (mkController chain mx i used' (tried ++ [mkFailure s t r]) false total' restored skips false)).
    { split; unfold maxTotalAttempts, entry_count; cbn; try done. lia. }
    case_match; [done|]. by apply advance_ok in Hk.
Qed.

Lemma restore_ok c : controller_ok c -> controller_ok (restorePreviousEntryForRetry c).1.
Proof.
  intros Hc. unfold restorePreviousEntryForRetry. destruct (ct_activeIndex c) as [|p] eqn:Ei; [done|].
  destruct (_ || _ || _) eqn:E; [done|]. apply orb_false_iff in E as [[Ee Er]%orb_false_iff Eb].
  apply bool_decide_eq_false in Er. apply Nat.leb_gt in Eb.
  destruct c as [chain mx i used tried started total restored skips gone]. destruct Hc as [Hm Hi He Hr Hb].
  unfold maxTotalAttempts, entry_count in *. cbn in *. subst. split; unfold maxTotalAttempts, entry_count; cbn; [done|lia| | |].
  - symmetry. apply Nat.leb_gt. lia.
  - intros j [->%elem_of_singleton|Hj]%elem_of_union; [lia|by apply Hr].
  - rewrite size_union, size_singleton by set_solver. lia.
Qed.

Lemma run_op_ok c o : controller_ok c -> controller_ok (run_op c o).
Proof.
  intros Hc. destruct o; cbn [run_op]; [by apply started_ok|by apply failure_ok| | |by apply advance_ok|by apply restore_ok| | |];
    destruct c as [chain mx i used tried started total restored sk gone]; destruct Hc as [Hm Hi He Hr Hb];
    unfold maxTotalAttempts, entry_count in *; cbn in *.
  - destruct started; cbn; split; unfold maxTotalAttempts, entry_count; cbn; try done. lia.
  - unfold onResolutionSkip. apply advance_ok. by split.
  - split; unfold maxTotalAttempts, entry_count; cbn; try done; first [lia|set_solver].
  - split; unfold maxTotalAttempts, entry_count; cbn; try done; first [lia|set_solver].
  - split; unfold maxTotalAttempts, entry_count; cbn; try done; first [lia|by destruct (fc_entries chain)|set_solver].
Qed.

Lemma run_ops_ok ops c : controller_ok c -> controller_ok (fold_left run_op ops c).
Proof. revert c. induction ops as [|o ops IH]; intros c Hc; [done|]. by apply IH, run_op_ok. Qed.

Lemma restored_size c : controller_ok c -> size (ct_restoredEntryIndices c) <= entry_count c.
Proof.
  intros Hc. rewrite <- (size_set_seq (C := gset nat) 0 (entry_count c)). apply subseteq_size.
  intros i Hi%(ck_restored c Hc). apply elem_of_set_seq. lia.
Qed.

(** Whatever the caller does, in whatever order: the active entry is in the chain or the chain is
    exhausted, and since the last reset at most [(maxAttempts + 1) * entries + 1] attempts were charged. *)
Theorem fallback_attempts_bounded chain mx c0 ops : new_controller chain mx = Some c0 ->
  let c := fold_left run_op ops c0 in
  (isExhausted c = false <-> is_Some (currentSelector c))
  /\ ct_totalAttemptsUsed c <= (ct_maxAttempts c + 1) * entry_count c + 1.
Proof.
  intros H0 c. assert (Hc : controller_ok c) by by eapply run_ops_ok, new_controller_ok. split.
  - unfold isExhausted, currentSelector. rewrite (ck_exhausted c Hc), Nat.leb_gt, lookup_lt_is_Some. done.
  - pose proof (ck_budget c Hc) as Hb. pose proof (restored_size c Hc). unfold maxTotalAttempts in Hb.
    destruct (ct_exhaustedForTurn c); lia.
Qed.

Lemma fallback_attempts_bounded_witness :
  let chain := mkChain [] [js "a"; js "b"] [] None false in
  let c := fold_left run_op [OpStart; OpAdvance; OpFail [] []; OpRestore] (mkController chain 1 0 0 [] false 0 ∅ [] false) in
  (isExhausted c = false <-> is_Some (currentSelector c))
  /\ ct_totalAttemptsUsed c <= (ct_maxAttempts c + 1) * entry_count c + 1.
Proof.
  apply (fallback_attempts_bounded (mkChain [] [js "a"; js "b"] [] None false) 1
           (mkController (mkChain [] [js "a"; js "b"] [] None false) 1 0 0 [] false 0 ∅ [] false)
           [OpStart; OpAdvance; OpFail [] []; OpRestore]).
  reflexivity.
Defined.

(** ** A request that keeps failing

    What a caller does with the controller: charge the attempt, report its failure, and after an
    advance go back to the entry left behind when it has another credential ([rotates]). *)

#[local] Arguments Nat.ltb : simpl never.
#[local] Arguments Nat.leb : simpl never.

Section driving.
Variable rotates : nat -> bool.
Variables triggerClass reason : jsstring.

Definition failing_attempt (c : Controller) : Controller :=
  let before := ct_activeIndex c in
  let '(c, result) := onAttemptFailure (onAttemptStarted c) triggerClass reason in
  match result with
  | Advance => if rotates before then (restorePreviousEntryForRetry c).1 else c
  | _ => c
  end.

Fixpoint failing_attempts (n : nat) (c : Controller) : Controller :=
  match n with O => c | S n => failing_attempts n (failing_attempt c) end.

(** The attempts entry [i] of [len] gets. *)
Definition share (mx len i : nat) : nat := mx + (if (S i <? len) && rotates i then 1 else 0).

Fixpoint shares (mx len i : nat) (entries : list jsstring) : list jsstring :=
  match entries with
  | [] => []
  | e :: rest => replicate (share mx len i) e ++ shares mx len (S i) rest
  end.

(** The controller on entry [i], with [used] attempts of it charged and [restored] set. *)
Definition at_entry (chain : ConfiguredFallbackChain) (mx i used total : nat) (restored : gset nat)
    (tried : list FallbackFailure) (skips : list (jsstring * jsstring)) (gone : bool) : Controller :=
  mkController chain mx i used tried false total restored skips gone.

Lemma attempt_eq chain mx i used total restored tried skips e :
  fc_entries chain !! i = Some e -> e <> [] -> total < mx * length (fc_entries chain) + size restored ->
  failing_attempt (at_entry chain mx i used total restored tried skips false)
  = let c := at_entry chain mx i (S used) (S total) restored (tried ++ [mkFailure e triggerClass reason]) skips false in
    if mx * length (fc_entries chain) + size restored <=? S total then exhaust_chain c
    else if S used <? mx then c
    else let '(c, more) := advance c in
         if more && rotates i then (restorePreviousEntryForRetry c).1 else c.
Proof.
  intros He Hne Ht. destruct e as [|x e]; [done|].
  unfold failing_attempt, at_entry, onAttemptStarted, usable_selector, currentSelector. cbn. rewrite He. cbn.
  unfold maxTotalAttempts, entry_count. cbn. rewrite (proj2 (Nat.leb_gt _ _)) by lia.
  unfold onAttemptFailure, usable_selector, currentSelector. cbn. rewrite He. cbn. unfold maxTotalAttempts, entry_count. cbn.
  destruct (_ <=? S total) eqn:Eb; [done|]. destruct (S used <? mx); [done|].
  unfold advance. cbn. destruct (length (fc_entries chain) <=? S i); cbn; [done|].
  destruct (rotates i); [|done]. unfold entry_count. cbn [ct_chain]. by rewrite Eb.
Qed.

Lemma attempts_add a b c : failing_attempts (a + b) c = failing_attempts b (failing_attempts a c).
Proof. revert c. induction a as [|a IH]; intros c; [done|]. apply IH. Qed.

(** All but the last attempt of an entry. *)
Lemma attempts_retry k chain mx i used total restored tried skips e :
  fc_entries chain !! i = Some e -> e <> [] -> used + k < mx ->
  total + k < mx * length (fc_entries chain) + size restored ->
  failing_attempts k (at_entry chain mx i used total restored tried skips false)
  = at_entry chain mx i (used + k) (total + k) restored (tried ++ replicate k (mkFailure e triggerClass reason)) skips false.
Proof.
  revert used total tried. induction k as [|k IH]; intros used total tried He Hne Hu Ht.
  - cbn. by rewrite !Nat.add_0_r, app_nil_r.
  - cbn [failing_attempts]. rewrite (attempt_eq _ _ _ _ _ _ _ _ e) by (done || lia). cbn zeta.
    rewrite (proj2 (Nat.leb_gt _ _)), (proj2 (Nat.ltb_lt _ _)) by lia. rewrite IH by (done || lia).
    unfold at_entry. rewrite <- (assoc_L app). cbn [replicate app]. f_equal; lia.
Qed.

(** The last attempt of an entry: on to the next one, or once more the same. *)
Lemma attempt_advance chain mx i total restored tried skips e :
  fc_entries chain !! i = Some e -> e <> [] -> S i < length (fc_entries chain) ->
  S total < mx * length (fc_entries chain) + size restored ->
  failing_attempt (at_entry chain mx i (mx - 1) total restored tried skips false)
  = let tried := tried ++ [mkFailure e triggerClass reason] in
    if rotates i && bool_decide (i ∉ restored)
    then at_entry chain mx i (mx - 1) (S total) ({[i]} ∪ restored) tried skips false
    else at_entry chain mx (S i) 0 (S total) restored tried skips false.
Proof.
  intros He Hne Hi Ht. rewrite (attempt_eq _ _ _ _ _ _ _ _ e) by (done || lia). cbn zeta.
  rewrite (proj2 (Nat.leb_gt _ _)), (proj2 (Nat.ltb_ge _ _)) by lia.
  unfold advance, at_entry. cbn. rewrite (proj2 (Nat.leb_gt _ _)) by lia. cbn. destruct (rotates i); [|done]. cbn.
  unfold restorePreviousEntryForRetry. cbn. unfold maxTotalAttempts, entry_count. cbn. rewrite (proj2 (Nat.leb_gt _ (S total))) by lia.
  rewrite orb_false_r. case_bool_decide as E1; case_bool_decide as E2; done.
Qed.

Lemma shares_cons mx len i e rest : shares mx len i (e :: rest) = replicate (share mx len i) e ++ shares mx len (S i) rest.
Proof. done. Qed.

Lemma drive_entries rest : forall chain mx i restored tried skips,
  0 < mx -> rest <> [] -> drop i (fc_entries chain) = rest -> Forall (fun e => e <> []) rest ->
  (forall j, j ∈ restored -> j < i) ->
  let c := failing_attempts (length (shares mx (length (fc_entries chain)) i rest))
             (at_entry chain mx i 0 (mx * i + size restored) restored tried skips false) in
  isExhausted c = true
  /\ ff_selector <$> ct_tried c = (ff_selector <$> tried) ++ shares mx (length (fc_entries chain)) i rest.
Proof.
  induction rest as [|e rest IH]; intros chain mx i restored tried skips Hm Hne Hd Hall Hr; [done|].
  apply Forall_cons in Hall as [He Hall].
  assert (Hl : fc_entries chain !! i = Some e) by (by rewrite <- (Nat.add_0_r i), <- lookup_drop, Hd).
  assert (Hlen : i + S (length rest) = length (fc_entries chain)).
  { assert (length (drop i (fc_entries chain)) = S (length rest)) by (by rewrite Hd). rewrite length_drop in *. lia. }
  assert (Hmul : mx * i + mx * S (length rest) = mx * length (fc_entries chain)) by (rewrite <- Hlen; lia).
  assert (Hnot : i ∉ restored) by (intros Hin; apply Hr in Hin; lia).
  rewrite shares_cons, length_app, length_replicate. set (len := length (fc_entries chain)) in *. cbn zeta.
  rewrite attempts_add. unfold share. destruct rest as [|e' rest].
  - rewrite (proj2 (Nat.ltb_ge _ _)) by (cbn in Hlen; lia). cbn [andb shares length failing_attempts].
    replace (mx + 0) with ((mx - 1) + 1) by lia. rewrite attempts_add, (attempts_retry _ _ _ _ _ _ _ _ _ e) by (done || (cbn in Hmul; lia)).
    cbn [failing_attempts]. rewrite (attempt_eq _ _ _ _ _ _ _ _ e) by (done || (fold len; cbn in Hmul; lia)). cbn zeta. fold len.
    rewrite (proj2 (Nat.leb_le _ _)) by (cbn in Hmul; lia). cbn. split; [done|].
    rewrite !fmap_app, fmap_replicate. cbn. rewrite app_nil_r, <- (assoc_L app). f_equal.
    change [e] with (replicate 1 e). by rewrite <- replicate_add.
  - rewrite (proj2 (Nat.ltb_lt _ _)) by (cbn in Hlen; lia). cbn [andb].
    assert (Hd' : drop (S i) (fc_entries chain) = e' :: rest).
    { replace (S i) with (i + 1) by lia. by rewrite <- drop_drop, Hd. }
    replace (mx + (if rotates i then 1 else 0)) with ((mx - 1) + (1 + (if rotates i then 1 else 0))) by (destruct (rotates i); lia).
    rewrite attempts_add, (attempts_retry _ _ _ _ _ _ _ _ _ e) by (done || (fold len; cbn in Hmul; lia)).
    cbn [Nat.add failing_attempts]. rewrite (attempt_advance _ _ _ _ _ _ _ e) by (done || (fold len; cbn in Hmul, Hlen; lia)).
    cbn zeta. destruct (rotates i) eqn:Erot; cbn [andb failing_attempts].
    + rewrite bool_decide_eq_true_2 by done. assert (Hsz : size ({[i]} ∪ restored) = S (size restored)) by (rewrite size_union, size_singleton by set_solver; lia).
      rewrite (attempt_advance _ _ _ _ _ _ _ e) by (done || (rewrite ?Hsz; fold len; cbn in Hmul, Hlen; lia)). cbn zeta.
      rewrite Erot, bool_decide_eq_false_2 by set_solver. cbn [andb].
      replace (S (S (mx * i + size restored + (mx - 1)))) with (mx * S i + size ({[i]} ∪ restored)) by (rewrite Hsz; lia).
      destruct (IH chain mx (S i) ({[i]} ∪ restored) ((tried ++ replicate (mx - 1) (mkFailure e triggerClass reason)) ++ [mkFailure e triggerClass reason] ++ [mkFailure e triggerClass reason]) skips)
        as [IH1 IH2]; try done.
      { intros j [->%elem_of_singleton|Hj%Hr]%elem_of_union; lia. }
      rewrite <- (assoc_L app). fold len in IH1, IH2. split; [exact IH1|]. rewrite IH2. rewrite !fmap_app, fmap_replicate. cbn.
      rewrite <- !(assoc_L app). f_equal. rewrite (assoc_L app). f_equal. change [e; e] with (replicate 2 e). rewrite <- replicate_add. repeat f_equal; lia.
    + replace (S (mx * i + size restored + (mx - 1))) with (mx * S i + size restored) by lia.
      destruct (IH chain mx (S i) restored ((tried ++ replicate (mx - 1) (mkFailure e triggerClass reason)) ++ [mkFailure e triggerClass reason]) skips)
        as [IH1 IH2]; try done.
      { intros j Hj%Hr. lia. }
      fold len in IH1, IH2. split; [exact IH1|]. rewrite IH2. rewrite !fmap_app, fmap_replicate. cbn.
      rewrite <- !(assoc_L app). f_equal. rewrite (assoc_L app). f_equal. change [e] with (replicate 1 e). rewrite <- replicate_add. repeat f_equal; lia.
Qed.

Lemma exhausted_idle c : isExhausted c = true -> failing_attempt c = c.
Proof.
  unfold isExhausted. intros He. unfold failing_attempt, onAttemptStarted, onAttemptFailure.
  destruct (usable_selector c) as [x|] eqn:E; rewrite ?He, ?E, ?He; done.
Qed.

Lemma exhausted_idle_all n c : isExhausted c = true -> failing_attempts n c = c.
Proof. intros He. induction n as [|n IH]; [done|]. cbn. by rewrite exhausted_idle. Qed.

Lemma started_tried c : ct_tried (onAttemptStarted c) = ct_tried c.
Proof. unfold onAttemptStarted, exhaust_chain. destruct c. repeat case_match; done. Qed.

Lemma restore_tried c : ct_tried (restorePreviousEntryForRetry c).1 = ct_tried c.
Proof. unfold restorePreviousEntryForRetry. destruct c. repeat case_match; done. Qed.

Lemma failure_tried c : length (ct_tried (onAttemptFailure c triggerClass reason).1) <= S (length (ct_tried c)).
Proof.
  unfold onAttemptFailure, advance, exhaust_chain. destruct c. repeat (case_match || simplify_eq/=); rewrite ?length_app; cbn; lia.
Qed.

Lemma attempt_tried c : length (ct_tried (failing_attempt c)) <= S (length (ct_tried c)).
Proof.
  unfold failing_attempt. pose proof (failure_tried (onAttemptStarted c)) as Hf. rewrite started_tried in Hf.
  destruct (onAttemptFailure (onAttemptStarted c) triggerClass reason) as [c' res]. cbn in Hf.
  destruct res; [done| |done]. destruct (rotates _); [|done]. by rewrite restore_tried.
Qed.

Lemma attempts_tried n c : length (ct_tried (failing_attempts n c)) <= n + length (ct_tried c).
Proof.
  revert c. induction n as [|n IH]; intros c; [done|]. cbn. pose proof (IH (failing_attempt c)). pose proof (attempt_tried c). lia.
Qed.

(** C23: every entry of the chain gets its attempts.  When every request fails, each selector in
    turn is tried [maxAttempts] times, and once more if it has another credential and is not the
    last; then the chain is exhausted and stays so, and not a request earlier. *)
Theorem fallback_serves_all chain mx c0 :
  new_controller chain mx = Some c0 -> Forall (fun e => e <> []) (fc_entries chain) ->
  let expected := shares (Z.to_nat mx) (length (fc_entries chain)) 0 (fc_entries chain) in
  (forall n, length expected <= n ->
     isExhausted (failing_attempts n c0) = true /\ ff_selector <$> ct_tried (failing_attempts n c0) = expected)
  /\ (forall n, n < length expected -> isExhausted (failing_attempts n c0) = false).
Proof.
  intros H0 Hall expected. unfold new_controller in H0. destruct (Z.ltb_spec mx 1) as [|Hm]; [done|]. injection H0 as <-.
  match goal with |- context [failing_attempts _ ?x] => set (c0 := x) in * end.
  assert (Hend : isExhausted (failing_attempts (length expected) c0) = true
                 /\ ff_selector <$> ct_tried (failing_attempts (length expected) c0) = expected).
  { destruct (decide (fc_entries chain = [])) as [E|Hne].
    - unfold expected, c0. rewrite E. done.
    - destruct (drive_entries (fc_entries chain) chain (Z.to_nat mx) 0 ∅ [] []) as [H1 H2]; try done; [lia|].
      rewrite Nat.mul_0_r, size_empty in H1, H2. unfold c0. rewrite (proj2 (Nat.eqb_neq _ _)); [done|].
      by destruct (fc_entries chain). }
  split.
  - intros n Hn. replace n with (length expected + (n - length expected)) by lia. rewrite attempts_add.
    destruct Hend as [Hx Ht]. by rewrite (exhausted_idle_all _ _ Hx).
  - intros n Hn. apply not_true_iff_false. intros He. destruct Hend as [_ Hend].
    replace (length expected) with (n + (length expected - n)) in Hend by lia. rewrite attempts_add, exhausted_idle_all in Hend by done.
    apply (f_equal length) in Hend. rewrite length_fmap in Hend. pose proof (attempts_tried n c0). cbn in *. lia.
Qed.

End driving.

Lemma fallback_serves_all_witness :
  let chain := mkChain (js "default") [js "a"; js "b"] (js "settings") None true in
  let c0 := mkController chain 2 0 0 [] false 0 ∅ [] false in
  isExhausted (failing_attempts (fun i => i =? 0) [] [] 5 c0) = true
  /\ ff_selector <$> ct_tried (failing_attempts (fun i => i =? 0) [] [] 5 c0) = [js "a"; js "a"; js "a"; js "b"; js "b"].
Proof.
  cbn zeta. apply (fallback_serves_all (fun i => i =? 0) [] [] (mkChain (js "default") [js "a"; js "b"] (js "settings") None true) 2
           (mkController (mkChain (js "default") [js "a"; js "b"] (js "settings") None true) 2 0 0 [] false 0 ∅ [] false)).
  - reflexivity.
  - by repeat constructor.
  - reflexivity.
Defined.

(** ** Delays *)

Lemma jitter_bounds base mx k random : (0 <= base)%Z ->
  let d := cappedExponentialWithFullJitter base mx k random in
  (0 <= d <= base * pow2 (k - 1))%Z /\ ((0 < mx)%Z -> (d <= mx)%Z).
Proof.
  intros Hb. unfold cappedExponentialWithFullJitter.
  set (e := (base * pow2 (k - 1))%Z). assert (He : (0 <= e)%Z) by (unfold e, pow2; apply Z.mul_nonneg_nonneg; [done|apply Z.pow_nonneg; lia]).
  set (cap := if (0 <? mx)%Z then Z.min e mx else e).
  set (s := if Qle_bool 1 random then 1%Q else if Qle_bool random 0 then 0%Q else random).
  assert (Hs : (0 <= s <= 1)%Q).
  { unfold s. destruct (Qle_bool 1 random) eqn:E1; [split; discriminate|]. destruct (Qle_bool random 0) eqn:E2; [split; discriminate|].
    rewrite <- not_true_iff_false, Qle_bool_iff in E1, E2. apply Qnot_le_lt in E1, E2. split; by apply Qlt_le_weak. }
  assert (Hq : (0 <= inject_Z (Z.max 0 cap) * s <= inject_Z (Z.max 0 cap))%Q).
  { assert (0 <= inject_Z (Z.max 0 cap))%Q by (change 0%Q with (inject_Z 0); rewrite <- Zle_Qle; lia). split.
    - apply Qmult_le_0_compat; [done|apply Hs].
    - rewrite <- (Qmult_1_r (inject_Z (Z.max 0 cap))) at 2. rewrite !(Qmult_comm (inject_Z _)). apply Qmult_le_compat_r; [apply Hs|done]. }
  assert (Hd : (0 <= Qfloor (inject_Z (Z.max 0 cap) * s) <= Z.max 0 cap)%Z).
  { split; [rewrite <- (Qfloor_Z 0)|rewrite <- (Qfloor_Z (Z.max 0 cap)) at 2]; apply Qfloor_resp_le; apply Hq. }
  assert (Hc : (Z.max 0 cap <= e)%Z /\ ((0 < mx)%Z -> (Z.max 0 cap <= mx)%Z)).
  { unfold cap. destruct (Z.ltb_spec 0 mx); lia. }
  cbn zeta. split; [lia|]. intros Hm. destruct Hc as [_ Hc]. specialize (Hc Hm). lia.
Qed.

(** A delay is never negative; a cap on the legacy delay holds for hints too, and a hint is
    honoured in full by a managed fallback. *)
Theorem retry_delays base mx k hint random : (0 <= base)%Z ->
  (0 <= compactionRetryDelay base mx k hint)%Z
  /\ ((0 < mx)%Z -> (compactionRetryDelay base mx k hint <= mx)%Z)
  /\ (0 <= effectiveFallbackDelay base mx k hint random)%Z
  /\ (forall ms, hint = Some ms -> (ms <= effectiveFallbackDelay base mx k hint random)%Z)
  /\ ((0 < mx)%Z -> hint = None -> (effectiveFallbackDelay base mx k hint random <= mx)%Z).
Proof.
  intros Hb. destruct (jitter_bounds base mx k random Hb) as [H1 H2]. unfold compactionRetryDelay, effectiveFallbackDelay.
  revert H1 H2. generalize (cappedExponentialWithFullJitter base mx k random). intros d H1 H2.
  split; [lia|]. split; [intros Hm; rewrite (proj2 (Z.ltb_lt 0 mx)) by done; lia|].
  split; [lia|]. split; [intros ms ->; cbn; lia|]. intros Hm ->. cbn. specialize (H2 Hm). lia.
Qed.
