(* ===== verification/AttemptScope.v ===== *)
(** * Whose events count (agent/src/attempt-scope.ts)

    Every attempt of the agent carries a scope: an identifier, a generation and a lineage,
    the main one or that of a side attempt.  The authority says whether a scope is
    current.  Authorities of side lineages are objects with an identity, kept in a heap;
    identifiers the source draws at random are arguments of the operations. *)

From stdpp Require Import gmap.
From S2P Require Import Prelude JsText.

Local Open Scope nat_scope.

Inductive AttemptLineage := LMain | LSide (id : jsstring).

#[export] Instance AttemptLineage_eq_dec : EqDecision AttemptLineage.
Proof. solve_decision. Defined.
#[export] Instance AttemptLineage_countable : Countable AttemptLineage.
Proof.
  refine (inj_countable' (fun l => match l with LMain => None | LSide s => Some s end)
            (fun o => match o with None => LMain | Some s => LSide s end) _).
  by intros [].
Defined.

Record AttemptScope := mkScope { as_attemptId : jsstring; as_generation : nat; as_lineage : AttemptLineage }.

#[export] Instance AttemptScope_eq_dec : EqDecision AttemptScope.
Proof. solve_decision. Defined.

Definition attemptScopesEqual (a b : AttemptScope) : bool :=
  bool_decide (as_attemptId a = as_attemptId b) && (as_generation a =? as_generation b)
  && bool_decide (as_lineage a = as_lineage b).

(** ** One lineage *)

Record LineageCurrentness := mkCurrentness {
  lc_lineage : AttemptLineage;
  lc_current : nat;
  lc_currentAttemptId : option jsstring
}.

Definition createLineageCurrentness (lineage : AttemptLineage) : LineageCurrentness := mkCurrentness lineage 0 None.

Definition lineage_isCurrent (auth : LineageCurrentness) (scope : AttemptScope) : bool :=
  bool_decide (as_lineage scope = lc_lineage auth) && (as_generation scope =? lc_current auth)
  && bool_decide (Some (as_attemptId scope) = lc_currentAttemptId auth).

Definition lineage_advance (auth : LineageCurrentness) (attemptId : jsstring) : LineageCurrentness * nat :=
  (mkCurrentness (lc_lineage auth) (S (lc_current auth)) (Some attemptId), S (lc_current auth)).

(** ** A minter of its own *)

Definition mint (generations : gmap AttemptLineage nat) (lineage : AttemptLineage) (uuid : jsstring) :
    gmap AttemptLineage nat * AttemptScope :=
  let gen := default 0 (generations !! lineage) + 1 in
  (<[lineage := gen]> generations, mkScope uuid gen lineage).

(** ** The authority *)

Definition SIDE_LRU_CAP : nat := 1024.

Record Authority := mkAuthority {
  au_objects : gmap nat LineageCurrentness;
  au_next : nat;
  au_main : LineageCurrentness;
  au_sideAuths : gmap AttemptLineage nat;
  au_sideOrder : list AttemptLineage;
  au_retiredSet : gset AttemptLineage
}.

Definition createAttemptScopeAuthority : Authority :=
  mkAuthority ∅ 0 (createLineageCurrentness LMain) ∅ [] ∅.

(** A round removes an element of the order: its length is fuel enough. *)
Fixpoint evict_loop (fuel : nat) (a : Authority) : Authority :=
  match fuel with
  | O => a
  | S fuel =>
      if SIDE_LRU_CAP <? length (au_sideOrder a) then
        match list_find (fun l => l ∈ au_retiredSet a) (au_sideOrder a) with
        | None => a
        | Some (retiredIdx, removed) =>
            evict_loop fuel
              (mkAuthority (au_objects a) (au_next a) (au_main a) (delete removed (au_sideAuths a))
                 (delete retiredIdx (au_sideOrder a)) (au_retiredSet a ∖ {[removed]}))
        end
      else a
  end.

Definition evictRetiredIfNeeded (a : Authority) : Authority := evict_loop (length (au_sideOrder a)) a.

(** [sideOrder.splice(sideOrder.indexOf(lineage), 1)] *)
Fixpoint remove_first (x : AttemptLineage) (l : list AttemptLineage) : list AttemptLineage :=
  match l with
  | [] => []
  | y :: rest => if bool_decide (y = x) then rest else y :: remove_first x rest
  end.

Definition registerSide (a : Authority) (lineage : AttemptLineage) (auth : nat) : Authority :=
  let order := match au_sideAuths a !! lineage with
               | Some _ => remove_first lineage (au_sideOrder a)
               | None => au_sideOrder a
               end in
  evictRetiredIfNeeded
    (mkAuthority (au_objects a) (au_next a) (au_main a) (<[lineage := auth]> (au_sideAuths a))
       (order ++ [lineage]) (au_retiredSet a)).

(** The function that [registerSide] returns. *)
Definition unregister (a : Authority) (lineage : AttemptLineage) (auth : nat) : Authority :=
  if bool_decide (au_sideAuths a !! lineage = Some auth) then
    evictRetiredIfNeeded
      (mkAuthority (au_objects a) (au_next a) (au_main a) (au_sideAuths a) (au_sideOrder a)
         ({[lineage]} ∪ au_retiredSet a))
  else a.

Definition isCurrent (a : Authority) (scope : AttemptScope) : bool :=
  match as_lineage scope with
  | LMain => lineage_isCurrent (au_main a) scope
  | LSide _ =>
      if bool_decide (as_lineage scope ∈ au_retiredSet a) then false
      else match au_sideAuths a !! as_lineage scope with
           | Some auth => match au_objects a !! auth with Some o => lineage_isCurrent o scope | None => false end
           | None => false
           end
  end.

Definition advanceMain (a : Authority) (uuid : jsstring) : Authority * nat :=
  let '(main, gen) := lineage_advance (au_main a) uuid in
  (mkAuthority (au_objects a) (au_next a) main (au_sideAuths a) (au_sideOrder a) (au_retiredSet a), gen).

Definition mintMain (a : Authority) (uuid : jsstring) : Authority * AttemptScope :=
  let '(main, gen) := lineage_advance (au_main a) uuid in
  (mkAuthority (au_objects a) (au_next a) main (au_sideAuths a) (au_sideOrder a) (au_retiredSet a), mkScope uuid gen LMain).

(** The scope and the object its [dispose] was made for. *)
Definition mintSide (a : Authority) (sideUuid uuid : jsstring) : Authority * (AttemptScope * nat) :=
  let lineage := LSide sideUuid in
  let auth := au_next a in
  let a := mkAuthority (<[auth := createLineageCurrentness lineage]> (au_objects a)) (S (au_next a)) (au_main a)
             (au_sideAuths a) (au_sideOrder a) (au_retiredSet a) in
  let a := registerSide a lineage auth in
  let '(o, gen) := lineage_advance (default (createLineageCurrentness lineage) (au_objects a !! auth)) uuid in
  (mkAuthority (<[auth := o]> (au_objects a)) (au_next a) (au_main a) (au_sideAuths a) (au_sideOrder a) (au_retiredSet a),
   (mkScope uuid gen lineage, auth)).

(** ** What is promised

    The scope that is current in the main lineage, and the side scopes that were not disposed. *)

Record scope_spec := mkSpec { sp_generation : nat; sp_main : option AttemptScope; sp_live : list AttemptScope }.

Inductive scope_op :=
| MintMain (uuid : jsstring)
| AdvanceMain (uuid : jsstring)
| MintSide (sideUuid uuid : jsstring)
| Dispose (sideUuid : jsstring).

Definition no_scopes : scope_spec := mkSpec 0 None [].

Definition spec_op (s : scope_spec) (o : scope_op) : scope_spec :=
  match o with
  | MintMain uuid | AdvanceMain uuid =>
      mkSpec (S (sp_generation s)) (Some (mkScope uuid (S (sp_generation s)) LMain)) (sp_live s)
  | MintSide side uuid => mkSpec (sp_generation s) (sp_main s) (mkScope uuid 1 (LSide side) :: sp_live s)
  | Dispose side =>
      mkSpec (sp_generation s) (sp_main s) (List.filter (fun x => negb (bool_decide (as_lineage x = LSide side))) (sp_live s))
  end.

Definition spec_current (s : scope_spec) (x : AttemptScope) : Prop := sp_main s = Some x \/ x ∈ sp_live s.

(** The authority, and for every side lineage that was minted the object its [dispose] holds. *)
Record world := mkWorld { wo_authority : Authority; wo_disposers : gmap jsstring nat }.

Definition initial_world : world := mkWorld createAttemptScopeAuthority ∅.

Definition world_op (w : world) (o : scope_op) : world :=
  match o with
  | MintMain uuid => mkWorld (mintMain (wo_authority w) uuid).1 (wo_disposers w)
  | AdvanceMain uuid => mkWorld (advanceMain (wo_authority w) uuid).1 (wo_disposers w)
  | MintSide side uuid =>
      let '(a, (_, auth)) := mintSide (wo_authority w) side uuid in mkWorld a (<[side := auth]> (wo_disposers w))
  | Dispose side =>
      match wo_disposers w !! side with
      | Some auth => mkWorld (unregister (wo_authority w) (LSide side) auth) (wo_disposers w)
      | None => w
      end
  end.

(** Identifiers of side lineages are not drawn twice. *)
Definition fresh_op (w : world) (o : scope_op) : Prop :=
  match o with MintSide side _ => wo_disposers w !! side = None | _ => True end.

(** ** The invariant *)

Record authority_ok (a : Authority) (d : gmap jsstring nat) (live : list AttemptScope) : Prop := {
  ao_disposers l loc : au_sideAuths a !! l = Some loc -> exists s, l = LSide s /\ d !! s = Some loc;
  ao_objects s loc : d !! s = Some loc -> loc < au_next a /\
    exists uuid, au_objects a !! loc = Some (mkCurrentness (LSide s) 1 (Some uuid));
  ao_NoDup : NoDup (au_sideOrder a);
  ao_order l : l ∈ au_sideOrder a <-> is_Some (au_sideAuths a !! l);
  ao_retired l : l ∈ au_retiredSet a -> l ∈ au_sideOrder a;
  ao_live x : x ∈ live <-> exists s loc, as_lineage x = LSide s /\ (as_lineage x ∉ au_retiredSet a)
    /\ au_sideAuths a !! as_lineage x = Some loc
    /\ au_objects a !! loc = Some (mkCurrentness (as_lineage x) (as_generation x) (Some (as_attemptId x)))
}.

Definition main_ok (m : LineageCurrentness) (s : scope_spec) : Prop :=
  lc_lineage m = LMain /\ lc_current m = sp_generation s
  /\ sp_main s = (fun id => mkScope id (sp_generation s) LMain) <$> lc_currentAttemptId m.

(** Nothing retired is kept beyond the cap. *)
Definition within_cap (a : Authority) : Prop := length (au_sideOrder a) <= SIDE_LRU_CAP \/ au_retiredSet a = ∅.

Lemma delete_mem {A} (l : list A) i x : NoDup l -> l !! i = Some x ->
  NoDup (delete i l) /\ forall y, y ∈ delete i l <-> y ∈ l /\ y <> x.
Proof.
  intros Hn Hi. apply delete_Permutation in Hi. rewrite Hi in Hn. apply NoDup_cons in Hn as [Hx Hn].
  split; [done|]. intros y. assert (Hy : y ∈ l <-> y ∈ x :: delete i l) by (by rewrite <- Hi).
  rewrite Hy, elem_of_cons. naive_solver.
Qed.

Definition evict_one (a : Authority) (i : nat) (removed : AttemptLineage) : Authority :=
  mkAuthority (au_objects a) (au_next a) (au_main a) (delete removed (au_sideAuths a))
    (delete i (au_sideOrder a)) (au_retiredSet a ∖ {[removed]}).

Lemma evict_one_ok a d live i removed : authority_ok a d live ->
  au_sideOrder a !! i = Some removed -> removed ∈ au_retiredSet a -> authority_ok (evict_one a i removed) d live.
Proof.
  intros [Hd Ho Hn Hor Hr Hl] Hi Hret. destruct (delete_mem _ _ _ Hn Hi) as [Hn' Hmem]. split; cbn.
  - intros l loc [_ Hloc]%lookup_delete_Some. by apply Hd.
  - done.
  - done.
  - intros l. rewrite Hmem, Hor. destruct (decide (l = removed)) as [->|Hne].
    + rewrite lookup_delete_eq. split; [by intros []|by intros []].
    + rewrite lookup_delete_ne by done. naive_solver.
  - intros l [Hl1 Hl2]%elem_of_difference. apply Hmem. split; [by apply Hr|set_solver].
  - intros x. rewrite Hl. split.
    + intros (s & loc & Hx & Hnr & Hloc & Hobj). exists s, loc. split; [done|]. split; [set_solver|]. split; [|done].
      rewrite lookup_delete_ne; [done|]. by intros ->.
    + intros (s & loc & Hx & Hnr & [Hne Hloc]%lookup_delete_Some & Hobj). exists s, loc. split; [done|]. split; [set_solver|done].
Qed.

Lemma evict_loop_ok fuel a d live : authority_ok a d live -> length (au_sideOrder a) <= fuel ->
  let a' := evict_loop fuel a in
  authority_ok a' d live /\ within_cap a' /\ au_main a' = au_main a.
Proof.
  revert a. induction fuel as [|fuel IH]; intros a Ha Hf; cbn [evict_loop].
  { split; [done|]. split; [left; unfold SIDE_LRU_CAP; lia|done]. }
  destruct (Nat.ltb_spec SIDE_LRU_CAP (length (au_sideOrder a))) as [Hlt|Hge].
  2:{ split; [done|]. split; [by left|done]. }
  destruct (list_find _ (au_sideOrder a)) as [[i removed]|] eqn:E.
  - apply list_find_Some in E as (Hi & Hret & _). change (mkAuthority _ _ _ _ _ _) with (evict_one a i removed).
    destruct (IH (evict_one a i removed)) as (H1 & H2 & H3); [by apply evict_one_ok| |done].
    cbn. rewrite length_delete by by rewrite Hi. lia.
  - split; [done|]. split; [|done]. right. apply list_find_None in E. rewrite Forall_forall in E.
    apply set_eq. intros l. split; [|set_solver]. intros Hl. exfalso. by apply (E l); [apply (ao_retired a d live Ha)|].
Qed.

Lemma evict_ok a d live : authority_ok a d live ->
  let a' := evictRetiredIfNeeded a in authority_ok a' d live /\ within_cap a' /\ au_main a' = au_main a.
Proof. intros Ha. by apply evict_loop_ok. Qed.

(** Eviction does not look at the objects. *)
Definition with_objects (objects : gmap nat LineageCurrentness) (a : Authority) : Authority :=
  mkAuthority objects (au_next a) (au_main a) (au_sideAuths a) (au_sideOrder a) (au_retiredSet a).

Lemma evict_with_objects fuel o a : evict_loop fuel (with_objects o a) = with_objects o (evict_loop fuel a).
Proof.
  revert a. induction fuel as [|fuel IH]; intros a; [done|]. cbn [evict_loop]. cbn [au_sideOrder au_retiredSet with_objects].
  destruct (_ <? _); [|done]. destruct (list_find _ _) as [[i removed]|]; [|done]. apply (IH (evict_one a i removed)).
Qed.

Lemma evict_objects fuel a : au_objects (evict_loop fuel a) = au_objects a.
Proof.
  revert a. induction fuel as [|fuel IH]; intros a; [done|]. cbn [evict_loop].
  destruct (_ <? _); [|done]. destruct (list_find _ _) as [[i removed]|]; [|done]. by rewrite IH.
Qed.

(** *** Minting and disposing *)

Lemma mintSide_eq a side uuid :
  let lineage := LSide side in
  mintSide a side uuid =
  (registerSide (mkAuthority (<[au_next a := mkCurrentness lineage 1 (Some uuid)]> (au_objects a)) (S (au_next a)) (au_main a)
                   (au_sideAuths a) (au_sideOrder a) (au_retiredSet a)) lineage (au_next a),
   (mkScope uuid 1 lineage, au_next a)).
Proof.
  cbn zeta. unfold mintSide, registerSide, evictRetiredIfNeeded. cbn [au_objects au_next au_main au_sideAuths au_sideOrder au_retiredSet].
  rewrite evict_objects. cbn [au_objects]. rewrite lookup_insert_eq. cbn [default from_option id lineage_advance createLineageCurrentness lc_lineage lc_current].
  f_equal. rewrite insert_insert_eq.
  match goal with |- mkAuthority ?O (au_next ?E) _ _ _ _ = _ => transitivity (with_objects O E); [reflexivity|] end.
  by rewrite <- evict_with_objects.
Qed.

Lemma mintSide_ok a d live side uuid : authority_ok a d live -> d !! side = None ->
  let '(a', (x, loc)) := mintSide a side uuid in
  authority_ok a' (<[side := loc]> d) (x :: live) /\ within_cap a' /\ au_main a' = au_main a /\ x = mkScope uuid 1 (LSide side).
Proof.
  intros [Hd Ho Hn Hor Hr Hl] Hfresh. rewrite mintSide_eq. cbn zeta.
  assert (Hnew : au_sideAuths a !! LSide side = None).
  { destruct (au_sideAuths a !! LSide side) as [loc|] eqn:E; [|done]. apply Hd in E as (s & [= <-] & E). congruence. }
  unfold registerSide. cbn [au_objects au_next au_main au_sideAuths au_sideOrder au_retiredSet]. rewrite Hnew.
  match goal with |- context [evictRetiredIfNeeded ?b] => set (b0 := b) end.
  assert (Hnin : LSide side ∉ au_sideOrder a) by (rewrite Hor, Hnew; by intros []).
  assert (Hok : authority_ok b0 (<[side := au_next a]> d) (mkScope uuid 1 (LSide side) :: live)).
  { split; cbn.
    - intros l loc [[<- <-]|[Hne Hloc]]%lookup_insert_Some; [exists side; by rewrite lookup_insert_eq|].
      destruct (Hd l loc Hloc) as (s & -> & Hs). exists s. split; [done|]. rewrite lookup_insert_ne; [done|congruence].
    - intros s loc [[<- <-]|[Hne Hs]]%lookup_insert_Some; [split; [lia|]; exists uuid; by rewrite lookup_insert_eq|].
      destruct (Ho s loc Hs) as [Hlt Hob]. split; [lia|]. rewrite lookup_insert_ne by lia. done.
    - apply NoDup_app. split; [done|]. split; [|apply NoDup_singleton]. intros l Hl1 ->%list_elem_of_singleton. done.
    - intros l. rewrite elem_of_app, list_elem_of_singleton, Hor, lookup_insert_is_Some'. naive_solver.
    - intros l Hl1. apply elem_of_app. left. by apply Hr.
    - intros x. rewrite elem_of_cons, Hl. split.
      + intros [->|(s & loc & Hx & Hnr & Hloc & Hobj)].
        * exists side, (au_next a). cbn. split; [done|]. split; [by intros ?%Hr|]. by rewrite !lookup_insert_eq.
        * exists s, loc. split; [done|]. split; [done|]. rewrite lookup_insert_ne by (intros E; rewrite <- E in Hloc; congruence).
          split; [done|]. rewrite lookup_insert_ne; [done|]. destruct (Hd _ _ Hloc) as (s' & _ & Hs'). destruct (Ho s' loc Hs'). lia.
      + intros (s & loc & Hx & Hnr & [[E <-]|[Hne Hloc]]%lookup_insert_Some & Hobj).
        * left. rewrite lookup_insert_eq in Hobj. injection Hobj as E1 E2 E3. destruct x. cbn in *. by f_equal.
        * right. exists s, loc. split; [done|]. split; [done|]. split; [done|].
          rewrite lookup_insert_ne in Hobj; [done|]. destruct (Hd _ _ Hloc) as (s' & _ & Hs'). destruct (Ho s' loc Hs'). lia. }
  destruct (evict_ok b0 _ _ Hok) as (? & ? & ?). done.
Qed.

Lemma dispose_ok a d live side loc : authority_ok a d live -> d !! side = Some loc -> within_cap a ->
  let live' := List.filter (fun x => negb (bool_decide (as_lineage x = LSide side))) live in
  let a' := unregister a (LSide side) loc in
  authority_ok a' d live' /\ within_cap a' /\ au_main a' = au_main a.
Proof.
  intros Ha Hside Hcap live' a'.
  assert (Hf : forall x, x ∈ live' <-> x ∈ live /\ as_lineage x <> LSide side).
  { intros x. unfold live'. rewrite list_elem_of_In, filter_In, <- list_elem_of_In, negb_true_iff, bool_decide_eq_false. done. }
  destruct Ha as [Hd Ho Hn Hor Hr Hl] eqn:EHa. clear EHa. unfold a', unregister. case_bool_decide as E.
  - set (b := mkAuthority _ _ _ _ _ _). assert (Hok : authority_ok b d live').
    { split; cbn; [done|done|done|done| |].
      - intros l [->%elem_of_singleton|Hin]%elem_of_union; [apply Hor; by rewrite E|by apply Hr].
      - intros x. rewrite Hf, Hl. split.
        + intros [(s & lc & Hx & Hnr & Hloc & Hobj) Hne]. exists s, lc. split; [done|]. split; [set_solver|done].
        + intros (s & lc & Hx & Hnr & Hloc & Hobj). split; [exists s, lc; split; [done|]; split; [set_solver|done]|set_solver]. }
    destruct (evict_ok b _ _ Hok) as (? & ? & ?). done.
  - assert (Hgone : au_sideAuths a !! LSide side = None).
    { destruct (au_sideAuths a !! LSide side) as [lc|] eqn:E'; [|done]. destruct (Hd _ _ E') as (s & [= <-] & Hs). congruence. }
    split; [|done]. split; try done. intros x. rewrite Hf, Hl. split; [by intros [? _]|].
    intros (s & lc & Hx & Hnr & Hloc & Hobj). split; [by exists s, lc|]. intros Ex. rewrite Ex in Hloc. congruence.
Qed.

(** ** Runs *)

Inductive scope_run : world -> scope_spec -> Prop :=
| scope_run_start : scope_run initial_world no_scopes
| scope_run_step w s o : scope_run w s -> fresh_op w o -> scope_run (world_op w o) (spec_op s o).

Record world_ok (w : world) (s : scope_spec) : Prop := {
  wk_authority : authority_ok (wo_authority w) (wo_disposers w) (sp_live s);
  wk_main : main_ok (au_main (wo_authority w)) s;
  wk_cap : within_cap (wo_authority w)
}.

Lemma initial_ok : world_ok initial_world no_scopes.
Proof.
  split; [|done|by right]. split; cbn; [done|done|by apply NoDup_nil| |set_solver|]; [intros l; rewrite lookup_empty; split; [set_solver|by intros []]|].
  intros x. split; [set_solver|]. by intros (? & ? & _ & _ & [=] & _).
Qed.

Lemma world_op_ok w s o : world_ok w s -> fresh_op w o -> world_ok (world_op w o) (spec_op s o).
Proof.
  destruct w as [a d]. intros [Ha Hm Hc] Hf. cbn in Ha, Hm, Hc.
  destruct o as [uuid|uuid|side uuid|side]; cbn [world_op spec_op fresh_op wo_authority wo_disposers] in *.
  1,2: destruct Hm as (Hm1 & Hm2 & _); split; cbn; [by destruct Ha; split| |done]; unfold main_ok; cbn; by rewrite Hm1, Hm2.
  - pose proof (mintSide_ok a d (sp_live s) side uuid Ha Hf) as Hmint. destruct (mintSide a side uuid) as [a' [x loc]].
    destruct Hmint as (H1 & H2 & H3 & ->). split; [exact H1| |exact H2]. unfold main_ok. cbn. by rewrite H3.
  - destruct (d !! side) as [loc|] eqn:E.
    + destruct (dispose_ok a d (sp_live s) side loc Ha E Hc) as (H1 & H2 & H3). split; [exact H1| |exact H2]. unfold main_ok. cbn. by rewrite H3.
    + split; cbn; [|done|done]. destruct Ha as [Hd Ho Hn Hor Hr Hl]. split; try done. intros x.
      rewrite list_elem_of_In, filter_In, <- list_elem_of_In, negb_true_iff, bool_decide_eq_false, Hl. split; [by intros [? _]|].
      intros (sd & loc & Hx & Hnr & Hloc & Hobj). split; [by exists sd, loc|]. intros Ex. rewrite Ex in Hloc.
      destruct (Hd _ _ Hloc) as (s' & [= <-] & Hs'). congruence.
Qed.

Lemma scope_run_ok w s : scope_run w s -> world_ok w s.
Proof. induction 1; [apply initial_ok|by apply world_op_ok]. Qed.

Lemma isCurrent_iff w s x : world_ok w s -> isCurrent (wo_authority w) x = true <-> spec_current s x.
Proof.
  intros [Ha (Hm1 & Hm2 & Hm3) _]. unfold isCurrent, spec_current. destruct (as_lineage x) as [|side] eqn:El.
  - unfold lineage_isCurrent. rewrite Hm1, El, Hm2, Hm3, !andb_true_iff, Nat.eqb_eq, !bool_decide_eq_true. split.
    + intros [[_ Hg] <-]. left. cbn. f_equal. destruct x. cbn in *. by subst.
    + intros [E|Hin].
      * destruct (lc_currentAttemptId _); [|done]. injection E as <-. done.
      * apply (ao_live _ _ _ Ha) in Hin as (? & ? & ? & _). congruence.
  - rewrite (ao_live _ _ _ Ha), El. case_bool_decide as Er.
    + split; [done|]. intros [E|(? & ? & _ & Hn & _)]; [|done]. rewrite Hm3 in E.
      destruct (lc_currentAttemptId _); [injection E as <-; done|done].
    + assert (Hnm : sp_main s <> Some x).
      { rewrite Hm3. destruct (lc_currentAttemptId _); [intros [= <-]; done|done]. }
      destruct (au_sideAuths _ !! LSide side) as [loc|] eqn:Ea.
      2:{ split; [done|]. intros [?|(? & ? & _ & _ & ? & _)]; [by destruct Hnm|congruence]. }
      destruct (ao_disposers _ _ _ Ha _ _ Ea) as (s' & [= <-] & Hs'). destruct (ao_objects _ _ _ Ha _ _ Hs') as [_ [uuid Hob]].
      rewrite Hob. unfold lineage_isCurrent. cbn. rewrite El, !andb_true_iff, Nat.eqb_eq, !bool_decide_eq_true. split.
      * intros [[_ Hg] [= Hi]]. right. exists side, loc. by rewrite Hob, Hg, Hi.
      * intros [?|(? & loc' & _ & _ & [= <-] & Hobj)]; [by destruct Hnm|]. rewrite Hob in Hobj. by injection Hobj as <- <-.
Qed.

Lemma cap_live w s : world_ok w s -> length (au_sideOrder (wo_authority w)) <= Nat.max SIDE_LRU_CAP (length (sp_live s)).
Proof.
  intros [Ha _ [Hc|Hr]]; [unfold SIDE_LRU_CAP in *; lia|].
  assert (Hle : length (au_sideOrder (wo_authority w)) <= length (as_lineage <$> sp_live s)).
  { apply NoDup_incl_length; [apply NoDup_ListNoDup, (ao_NoDup _ _ _ Ha)|]. intros l Hl%list_elem_of_In. apply list_elem_of_In.
    apply (ao_order _ _ _ Ha) in Hl as [loc Hl]. destruct (ao_disposers _ _ _ Ha _ _ Hl) as (sd & -> & Hsd).
    destruct (ao_objects _ _ _ Ha _ _ Hsd) as [_ [uuid Hob]]. apply list_elem_of_fmap. exists (mkScope uuid 1 (LSide sd)).
    split; [done|]. apply (ao_live _ _ _ Ha). exists sd, loc. cbn. rewrite Hr. set_solver. }
  rewrite length_fmap in Hle. lia.
Qed.

(** C24: the authority implements its specification.  Whatever scopes are minted, superseded and
    disposed, however often and in whatever order: a scope is current exactly when it is the
    newest of the main lineage or a side scope that was not disposed; and no more side lineages
    are remembered than the cap, or than are live. *)
Theorem attempt_scopes_refine w s : scope_run w s ->
  (forall x, isCurrent (wo_authority w) x = true <-> spec_current s x)
  /\ length (au_sideOrder (wo_authority w)) <= Nat.max SIDE_LRU_CAP (length (sp_live s)).
Proof. intros Hw%scope_run_ok. split; [intros x; by apply isCurrent_iff|by apply cap_live]. Qed.

Lemma attempt_scopes_refine_witness :
  let w := world_op (world_op (world_op initial_world (MintMain (js "u1"))) (MintSide (js "s1") (js "u2"))) (MintMain (js "u3")) in
  isCurrent (wo_authority w) (mkScope (js "u2") 1 (LSide (js "s1"))) = true
  /\ isCurrent (wo_authority w) (mkScope (js "u1") 1 LMain) = false.
Proof.
  cbn zeta. split; [|reflexivity].
  apply (attempt_scopes_refine _ (spec_op (spec_op (spec_op no_scopes (MintMain (js "u1"))) (MintSide (js "s1") (js "u2"))) (MintMain (js "u3")))).
  - apply scope_run_step; [|done]. apply scope_run_step; [|done]. apply scope_run_step; [|done]. apply scope_run_start.
  - right. by left.
Defined.

(** ** Scopes that are over *)

(** A scope that was given out and is not current. *)
Definition over (w : world) (s : scope_spec) (x : AttemptScope) : Prop :=
  ~ spec_current s x /\
  match as_lineage x with LMain => as_generation x <= sp_generation s | LSide side => is_Some (wo_disposers w !! side) end.

Lemma current_issued w s x : world_ok w s -> spec_current s x ->
  match as_lineage x with LMain => as_generation x <= sp_generation s | LSide side => is_Some (wo_disposers w !! side) end.
Proof.
  intros [Ha (_ & Hm2 & Hm3) _] [E|Hin].
  - rewrite Hm3 in E. destruct (lc_currentAttemptId _); [|done]. injection E as <-. cbn. lia.
  - apply (ao_live _ _ _ Ha) in Hin as (sd & loc & -> & _ & Hloc & _). destruct (ao_disposers _ _ _ Ha _ _ Hloc) as (? & [= <-] & ?). by eexists.
Qed.

Lemma issued_step w s o x :
  match as_lineage x with LMain => as_generation x <= sp_generation s | LSide side => is_Some (wo_disposers w !! side) end ->
  match as_lineage x with
  | LMain => as_generation x <= sp_generation (spec_op s o)
  | LSide side => is_Some (wo_disposers (world_op w o) !! side)
  end.
Proof.
  destruct (as_lineage x) as [|side].
  - destruct o; cbn; lia.
  - destruct o as [| |sd uuid|sd]; cbn [world_op wo_disposers]; try done.
    + destruct (mintSide (wo_authority w) sd uuid) as [a [y loc]]. cbn. intros Hs. apply lookup_insert_is_Some'. by right.
    + by destruct (wo_disposers w !! sd).
Qed.

Lemma over_step w s o x : world_ok w s -> fresh_op w o -> over w s x -> over (world_op w o) (spec_op s o) x.
Proof.
  intros Hw Hf [Hn Hi]. split; [|by apply issued_step]. intros Hc. apply Hn. unfold spec_current in *.
  destruct o as [uuid|uuid|sd uuid|sd]; cbn in Hc.
  1,2: destruct Hc as [[= <-]|?]; [cbn in Hi; lia|by right].
  - destruct Hc as [?|[->|?]%elem_of_cons]; [by left| |by right]. cbn in Hi, Hf. rewrite Hf in Hi. by destruct Hi.
  - destruct Hc as [?|Hin]; [by left|]. right. apply list_elem_of_In, filter_In in Hin as [Hin _]. by apply list_elem_of_In.
Qed.

Lemma current_or_over w s o x : world_ok w s -> fresh_op w o -> spec_current s x ->
  spec_current (spec_op s o) x \/ over (world_op w o) (spec_op s o) x.
Proof.
  intros Hw Hf Hc. pose proof (world_op_ok w s o Hw Hf) as Hw'. destruct (isCurrent (wo_authority (world_op w o)) x) eqn:E.
  - left. by apply (isCurrent_iff _ _ _ Hw').
  - right. split; [intros Hc'%(isCurrent_iff _ _ _ Hw'); congruence|]. apply issued_step. by apply current_issued.
Qed.

(** A lineage that was disposed and is registered again stays retired: none of its scopes is current,
    and the next eviction may forget it. *)
Example registered_again_not_current :
  let a := createAttemptScopeAuthority in
  let '(a, (_, auth)) := mintSide a (js "s") (js "u1") in
  let a := unregister a (LSide (js "s")) auth in
  let a := registerSide a (LSide (js "s")) auth in
  isCurrent a (mkScope (js "u1") 1 (LSide (js "s"))) = false.
Proof. reflexivity. Qed.
