(* ===== verification/AttemptRecords.v ===== *)
(** * Which attempts may be repeated (session/attempt-record-store.ts)

    For every attempt a record says whether a handler of an extension was run in it; an
    attempt may only be repeated while it is clean.  The store asks the authority of
    [AttemptScope] whether a scope is current.  Records are kept in the order of the
    source's map.  The method [unregisterSide] of an authority is optional, and no authority
    has it. *)

From stdpp Require Import gmap.
From S2P Require Import Prelude JsText Json AttemptScope.

Local Open Scope nat_scope.

Inductive AttemptExecutionState := StateUnknown | StateClean | StateExecuted.

#[export] Instance AttemptExecutionState_eq_dec : EqDecision AttemptExecutionState.
Proof. solve_decision. Defined.

Record AttemptRecord := mkRecord { ar_scope : AttemptScope; ar_state : AttemptExecutionState }.

Definition RECORD_LRU_CAP : nat := 1024.

Definition COLON : N := 58%N.

Definition lineage_text (l : AttemptLineage) : jsstring :=
  match l with LMain => js "main" | LSide s => js "side:" ++ s end.

Definition scopeKey (x : AttemptScope) : jsstring :=
  (lineage_text (as_lineage x) ++ COLON :: as_attemptId x) ++ COLON :: dec (N.of_nat (as_generation x)).

Definition records := list (jsstring * AttemptRecord).

Fixpoint rec_get (k : jsstring) (l : records) : option AttemptRecord :=
  match l with
  | [] => None
  | (k', r) :: rest => if bool_decide (k' = k) then Some r else rec_get k rest
  end.

Definition rec_delete (k : jsstring) (l : records) : records :=
  List.filter (fun p => negb (bool_decide (p.1 = k))) l.

(** The record is an object: changing it leaves its place. *)
Definition rec_update (k : jsstring) (r : AttemptRecord) (l : records) : records :=
  map (fun p => if bool_decide (p.1 = k) then (k, r) else p) l.

Definition touch (k : jsstring) (r : AttemptRecord) (l : records) : records := rec_delete k l ++ [(k, r)].

Section store.
(** [authority.isCurrent] at the time of the call. *)
Variable current : AttemptScope -> bool.

(** A round removes the oldest record: their number is fuel enough. *)
Fixpoint evict_records (fuel : nat) (l : records) : records :=
  match fuel with
  | O => l
  | S fuel =>
      if RECORD_LRU_CAP <? length l then
        match l with
        | [] => l
        | (oldest, record) :: rest => if current (ar_scope record) then l else evict_records fuel rest
        end
      else l
  end.

Definition evictIfNeeded (l : records) : records := evict_records (length l) l.

Definition register (l : records) (scope : AttemptScope) : records * bool :=
  if negb (current scope) then (l, false)
  else let key := scopeKey scope in
       match rec_get key l with
       | Some existing => (touch key existing l, true)
       | None => (evictIfNeeded (l ++ [(key, mkRecord scope StateUnknown)]), true)
       end.

Definition establishClean (l : records) (scope : AttemptScope) : records * bool :=
  if negb (current scope) then (l, false)
  else let key := scopeKey scope in
       match rec_get key l with
       | None => (l, false)
       | Some record =>
           match ar_state record with
           | StateUnknown => let record := mkRecord (ar_scope record) StateClean in (touch key record (rec_update key record l), true)
           | StateClean => (touch key record l, true)
           | StateExecuted => (l, false)
           end
       end.

Definition markExecuted (l : records) (scope : AttemptScope) : records * bool :=
  if negb (current scope) then (l, false)
  else let key := scopeKey scope in
       match rec_get key l with
       | None => (l, false)
       | Some record =>
           match ar_state record with
           | StateExecuted => (touch key record l, true)
           | StateUnknown => (l, false)
           | StateClean => let record := mkRecord (ar_scope record) StateExecuted in (touch key record (rec_update key record l), true)
           end
       end.

Definition isClean (l : records) (scope : AttemptScope) : bool :=
  if negb (current scope) then false
  else match rec_get (scopeKey scope) l with
       | Some record => bool_decide (ar_state record = StateClean)
       | None => false
       end.

Definition retire (l : records) (scope : AttemptScope) : records * bool :=
  let key := scopeKey scope in (rec_delete key l, bool_decide (is_Some (rec_get key l))).

(** ** Lookups *)

Lemma get_app k l l' : rec_get k (l ++ l') = match rec_get k l with Some r => Some r | None => rec_get k l' end.
Proof. induction l as [|[k' r'] l IH]; [done|]. cbn. by case_bool_decide. Qed.

Lemma get_delete_ne k k' l : k <> k' -> rec_get k (rec_delete k' l) = rec_get k l.
Proof.
  intros Hne. unfold rec_delete. induction l as [|[j r] l IH]; [done|]. cbn. destruct (bool_decide (j = k')) eqn:E; cbn.
  - apply bool_decide_eq_true in E as ->. rewrite bool_decide_eq_false_2 by done. apply IH.
  - by rewrite IH.
Qed.

Lemma get_delete_eq k l : rec_get k (rec_delete k l) = None.
Proof.
  unfold rec_delete. induction l as [|[j r] l IH]; [done|]. cbn. destruct (bool_decide (j = k)) eqn:E; cbn; [done|]. by rewrite E.
Qed.

Lemma get_touch k k' r l : rec_get k (touch k' r l) = if bool_decide (k = k') then Some r else rec_get k l.
Proof.
  unfold touch. rewrite get_app. case_bool_decide as E.
  - subst. rewrite get_delete_eq. cbn. by rewrite bool_decide_eq_true_2.
  - rewrite get_delete_ne by done. cbn. rewrite bool_decide_eq_false_2 by done. by destruct (rec_get k l).
Qed.

Lemma get_update_ne k k' r l : k <> k' -> rec_get k (rec_update k' r l) = rec_get k l.
Proof.
  intros Hne. unfold rec_update. induction l as [|[j q] l IH]; [done|]. cbn. destruct (bool_decide (j = k')) eqn:E; cbn; rewrite IH; [|done].
  apply bool_decide_eq_true in E as ->. by rewrite !bool_decide_eq_false_2.
Qed.

(** ** Keys *)

Lemma colon_inj (a1 b1 a2 b2 : jsstring) : COLON ∉ b1 -> COLON ∉ b2 -> a1 ++ COLON :: b1 = a2 ++ COLON :: b2 -> a1 = a2 /\ b1 = b2.
Proof.
  intros H1 H2 E. apply app_eq_inv in E as [(k & -> & E)|(k & -> & E)]; destruct k as [|c k].
  1,3: injection E as ->; by rewrite app_nil_r.
  - injection E as <- ->. set_solver.
  - injection E as <- ->. set_solver.
Qed.

Lemma dec_no_colon n : COLON ∉ dec n.
Proof.
  intros Hin. pose proof (dec_digit n) as Hd. rewrite Forall_forall in Hd. by specialize (Hd _ Hin).
Qed.

Lemma scopeKey_inj x y : COLON ∉ as_attemptId x -> COLON ∉ as_attemptId y -> scopeKey x = scopeKey y -> x = y.
Proof.
  intros Hx Hy E. unfold scopeKey in E. apply colon_inj in E as [E Eg]; [|apply dec_no_colon|apply dec_no_colon].
  apply colon_inj in E as [El Ei]; [|done|done].
  rewrite <- (app_nil_r (dec (N.of_nat (as_generation x)))), <- (app_nil_r (dec (N.of_nat (as_generation y)))) in Eg.
  apply dec_inj in Eg as [Eg _]; [|done|done].
  assert (as_lineage x = as_lineage y).
  { destruct (as_lineage x), (as_lineage y); unfold lineage_text in El; [done| | |by apply app_inv_head in El as ->].
    all: apply (f_equal head) in El; discriminate El. }
  destruct x, y. cbn in *. f_equal; [done|lia|done].
Qed.

(** ** Records of a scope *)

Definition keyed (l : records) : Prop :=
  forall k r, (k, r) ∈ l -> scopeKey (ar_scope r) = k /\ COLON ∉ as_attemptId (ar_scope r).

Lemma get_elem k r l : rec_get k l = Some r -> (k, r) ∈ l.
Proof.
  induction l as [|[j q] l IH]; [done|]. cbn. case_bool_decide as E; [intros [= ->]; subst; by left|]. intros Hg. right. by apply IH.
Qed.

Lemma keyed_touch k r l : keyed l -> rec_get k l = Some r \/ (scopeKey (ar_scope r) = k /\ COLON ∉ as_attemptId (ar_scope r)) ->
  keyed (touch k r l).
Proof.
  intros Hk Hr j q [Hin| Hin%list_elem_of_singleton]%elem_of_app.
  - unfold rec_delete in Hin. apply list_elem_of_In, filter_In in Hin as [Hin _]. apply Hk. by apply list_elem_of_In.
  - injection Hin as -> ->. destruct Hr as [Hr%get_elem|Hr]; [by apply Hk|done].
Qed.

Lemma keyed_update k r l : keyed l -> scopeKey (ar_scope r) = k -> COLON ∉ as_attemptId (ar_scope r) -> keyed (rec_update k r l).
Proof.
  intros Hk Hs Hc j q Hin. apply list_elem_of_In, in_map_iff in Hin as ([j' q'] & E & Hin). cbn in E.
  case_bool_decide; injection E as <- <-; [done|]. apply Hk. by apply list_elem_of_In.
Qed.

Lemma evict_keyed fuel l : keyed l -> keyed (evict_records fuel l).
Proof.
  revert l. induction fuel as [|fuel IH]; intros l Hk; [done|]. cbn [evict_records]. destruct (_ <? _); [|done]. destruct l as [|[k r] l]; [done|].
  destruct (current (ar_scope r)); [done|]. apply IH. intros j q Hin. apply Hk. by right.
Qed.

(** The record of a current scope is not evicted. *)
Lemma evict_get fuel l x r : keyed l -> COLON ∉ as_attemptId x -> current x = true ->
  rec_get (scopeKey x) l = Some r -> rec_get (scopeKey x) (evict_records fuel l) = Some r.
Proof.
  revert l. induction fuel as [|fuel IH]; intros l Hk Hx Hc Hg; [done|]. cbn [evict_records]. destruct (_ <? _); [|done].
  destruct l as [|[k q] l]; [done|]. destruct (current (ar_scope q)) eqn:Eq; [done|].
  destruct (Hk k q) as [Hs Hq]; [by left|]. cbn in Hg. case_bool_decide as E.
  - subst k. apply scopeKey_inj in E; [|done|done]. congruence.
  - apply IH; [|done|done|done]. intros j q' Hin. apply Hk. by right.
Qed.

(** *** What an operation does to the record of a scope *)

Definition executed (l : records) (x : AttemptScope) : Prop :=
  exists r, rec_get (scopeKey x) l = Some r /\ ar_state r = StateExecuted.

Lemma record_register_ok l x y : keyed l -> COLON ∉ as_attemptId x -> COLON ∉ as_attemptId y ->
  keyed (register l y).1 /\ (current x = true -> executed l x -> executed (register l y).1 x).
Proof.
  intros Hk Hx Hy. unfold register. destruct (negb (current y)) eqn:Ey; [done|].
  destruct (rec_get (scopeKey y) l) as [r|] eqn:Er; cbn.
  - split; [by apply keyed_touch; [|left]|]. intros _ (q & Hq & Hs). exists q. rewrite get_touch.
    case_bool_decide as E; [|done]. rewrite E in Hq. split; [congruence|done].
  - assert (Hk' : keyed (l ++ [(scopeKey y, mkRecord y StateUnknown)])).
    { intros j q [Hin|Hin%list_elem_of_singleton]%elem_of_app; [by apply Hk|]. by injection Hin as -> ->. }
    split; [by apply evict_keyed|]. intros Hc (q & Hq & Hs). exists q. split; [|done].
    apply evict_get; [done|done|done|]. by rewrite get_app, Hq.
Qed.

Lemma establish_ok l x y : keyed l ->
  keyed (establishClean l y).1 /\ (executed l x -> executed (establishClean l y).1 x).
Proof.
  intros Hk. unfold establishClean. destruct (negb (current y)) eqn:Ey; [done|].
  destruct (rec_get (scopeKey y) l) as [r|] eqn:Er; [|done].
  assert (scopeKey (ar_scope r) = scopeKey y /\ COLON ∉ as_attemptId (ar_scope r)) as [Hr1 Hr2] by (apply Hk; by apply get_elem).
  destruct (ar_state r) eqn:Es; cbn; [| |done].
  - split; [apply keyed_touch; [by apply keyed_update|by right]|].
    intros (q & Hq & Hs). exists q. rewrite get_touch. case_bool_decide as E; [rewrite E in Hq; congruence|]. by rewrite get_update_ne.
  - split; [apply keyed_touch; [done|by left]|]. intros (q & Hq & Hs). exists q. rewrite get_touch.
    case_bool_decide as E; [rewrite E in Hq; congruence|done].
Qed.

Lemma mark_ok l x y : keyed l ->
  keyed (markExecuted l y).1 /\ (executed l x -> executed (markExecuted l y).1 x).
Proof.
  intros Hk. unfold markExecuted. destruct (negb (current y)) eqn:Ey; [done|].
  destruct (rec_get (scopeKey y) l) as [r|] eqn:Er; [|done].
  assert (scopeKey (ar_scope r) = scopeKey y /\ COLON ∉ as_attemptId (ar_scope r)) as [Hr1 Hr2] by (apply Hk; by apply get_elem).
  destruct (ar_state r) eqn:Es; cbn; [done| |].
  - split; [apply keyed_touch; [by apply keyed_update|by right]|].
    intros (q & Hq & Hs). unfold executed. rewrite get_touch. case_bool_decide as E; [by eexists|]. exists q. by rewrite get_update_ne.
  - split; [apply keyed_touch; [done|by left]|]. intros (q & Hq & Hs). exists q. rewrite get_touch.
    case_bool_decide as E; [rewrite E in Hq; split; congruence|done].
Qed.

Lemma retire_ok l x y : keyed l -> scopeKey y <> scopeKey x ->
  keyed (retire l y).1 /\ (executed l x -> executed (retire l y).1 x).
Proof.
  intros Hk Hne. unfold retire. cbn. split.
  - intros j q Hin. unfold rec_delete in Hin. apply list_elem_of_In, filter_In in Hin as [Hin _]. apply Hk. by apply list_elem_of_In.
  - intros (q & Hq & Hs). exists q. by rewrite get_delete_ne.
Qed.

Lemma retire_keyed l y : keyed l -> keyed (retire l y).1.
Proof.
  intros Hk j q Hin. cbn in Hin. unfold rec_delete in Hin. apply list_elem_of_In, filter_In in Hin as [Hin _].
  apply Hk. by apply list_elem_of_In.
Qed.

Lemma mark_executes l x : (markExecuted l x).2 = true -> current x = true /\ executed (markExecuted l x).1 x.
Proof.
  unfold markExecuted. destruct (current x); cbn; [|done]. destruct (rec_get (scopeKey x) l) as [r|] eqn:Er; [|done].
  intros Hb. split; [done|]. unfold executed. destruct (ar_state r) eqn:Es; cbn in *; [done| |]; rewrite get_touch, bool_decide_eq_true_2 by done; by eexists.
Qed.

Lemma executed_not_clean l x : executed l x -> isClean l x = false.
Proof.
  intros (r & Hg & Hs). unfold isClean. destruct (negb (current x)); [done|]. by rewrite Hg, Hs.
Qed.

End store.

(** ** The store with its authority *)

Record system := mkSystem { sy_world : world; sy_records : records }.

Inductive system_op :=
| OnAuthority (o : scope_op)
| Register (x : AttemptScope)
| EstablishClean (x : AttemptScope)
| MarkExecuted (x : AttemptScope)
| Retire (x : AttemptScope).

Definition currently (y : system) : AttemptScope -> bool := isCurrent (wo_authority (sy_world y)).

Definition run_one (y : system) (o : system_op) : system :=
  match o with
  | OnAuthority o => mkSystem (world_op (sy_world y) o) (sy_records y)
  | Register x => mkSystem (sy_world y) (register (currently y) (sy_records y) x).1
  | EstablishClean x => mkSystem (sy_world y) (establishClean (currently y) (sy_records y) x).1
  | MarkExecuted x => mkSystem (sy_world y) (markExecuted (currently y) (sy_records y) x).1
  | Retire x => mkSystem (sy_world y) (retire (sy_records y) x).1
  end.

Definition run_all (y : system) (ops : list system_op) : system := fold_left run_one ops y.

(** Identifiers are drawn once, and have no colon. *)
Definition valid_op (y : system) (o : system_op) : Prop :=
  match o with
  | OnAuthority o => fresh_op (sy_world y) o
  | Register x => COLON ∉ as_attemptId x
  | _ => True
  end.

Fixpoint valid_ops (y : system) (ops : list system_op) : Prop :=
  match ops with
  | [] => True
  | o :: rest => valid_op y o /\ valid_ops (run_one y o) rest
  end.

Definition initial_system : system := mkSystem initial_world [].

(** Scopes are asked for by the specification the authority implements. *)
Definition system_ok (y : system) (s : scope_spec) : Prop := world_ok (sy_world y) s /\ keyed (sy_records y).

Definition spec_after (s : scope_spec) (o : system_op) : scope_spec :=
  match o with OnAuthority o => spec_op s o | _ => s end.

Lemma system_step_ok y s o : system_ok y s -> valid_op y o -> system_ok (run_one y o) (spec_after s o).
Proof.
  intros [Hw Hk] Hv. destruct o as [o|z|z|z|z]; cbn in *.
  - split; [by apply world_op_ok|done].
  - split; [done|]. by apply (record_register_ok _ _ z z).
  - split; [done|]. by apply (establish_ok _ _ z z).
  - split; [done|]. by apply (mark_ok _ _ z z).
  - split; [done|]. by apply retire_keyed.
Qed.

Lemma system_run_ok ops : forall y s, system_ok y s -> valid_ops y ops -> exists s', system_ok (run_all y ops) s'.
Proof.
  induction ops as [|o ops IH]; intros y s Hy Hv; [by exists s|]. destruct Hv as [Hv Hvs].
  by apply (IH (run_one y o) (spec_after s o)); [apply system_step_ok|].
Qed.

(** Over, or current with a record of a handler that was run. *)
Definition spent (y : system) (s : scope_spec) (x : AttemptScope) : Prop :=
  over (sy_world y) s x \/ (spec_current s x /\ executed (sy_records y) x).

Lemma spent_step y s o x : system_ok y s -> valid_op y o -> COLON ∉ as_attemptId x ->
  (forall z, o = Retire z -> scopeKey z <> scopeKey x) -> spent y s x -> spent (run_one y o) (spec_after s o) x.
Proof.
  intros [Hw Hk] Hv Hx Hr [Hover|[Hc He]].
  - left. destruct o as [o|z|z|z|z]; cbn; [by apply over_step|done|done|done|done].
  - assert (Hcur : currently y x = true) by by apply (isCurrent_iff _ _ _ Hw).
    destruct o as [o|z|z|z|z]; cbn.
    + destruct (current_or_over (sy_world y) s o x Hw Hv Hc); [by right|by left].
    + right. split; [done|]. by apply (record_register_ok _ _ x z).
    + right. split; [done|]. by apply (establish_ok _ _ x z).
    + right. split; [done|]. by apply (mark_ok _ _ x z).
    + right. split; [done|]. apply (retire_ok _ x z); [done|by apply Hr|done].
Qed.

Lemma spent_run ops x : COLON ∉ as_attemptId x -> (forall z, Retire z ∈ ops -> scopeKey z <> scopeKey x) ->
  forall y s, system_ok y s -> valid_ops y ops -> spent y s x ->
  exists s', system_ok (run_all y ops) s' /\ spent (run_all y ops) s' x.
Proof.
  intros Hx. induction ops as [|o ops IH]; intros Hr y s Hy Hv Hs; [by exists s|]. destruct Hv as [Hv Hvs].
  apply (IH (fun z Hz => Hr z (list_elem_of_further _ _ _ Hz)) (run_one y o) (spec_after s o)); [by apply system_step_ok|done|].
  apply spent_step; try done. intros z ->. apply Hr. by left.
Qed.

Lemma spent_not_clean y s x : system_ok y s -> spent y s x -> isClean (currently y) (sy_records y) x = false.
Proof.
  intros [Hw _] [[Hn _]|[_ He]]; [|by apply executed_not_clean]. unfold isClean. destruct (currently y x) eqn:E; [|done].
  destruct Hn. by apply (isCurrent_iff _ _ _ Hw).
Qed.

(** C25: an attempt in which a handler was run is never repeated.  Once [markExecuted] accepted a
    scope, or a scope that was current is superseded or disposed, the scope is never clean again,
    whatever scopes are minted, superseded and disposed and whatever records are made, changed and
    evicted afterwards, as long as its own record is not retired. *)
Theorem executed_never_clean ops1 ops2 x :
  let y := run_all initial_system ops1 in
  valid_ops initial_system ops1 -> COLON ∉ as_attemptId x ->
  forall o, valid_op y o -> (o = MarkExecuted x /\ (markExecuted (currently y) (sy_records y) x).2 = true)
    \/ (currently y x = true /\ currently (run_one y o) x = false) ->
  valid_ops (run_one y o) ops2 -> (forall z, Retire z ∈ ops2 -> scopeKey z <> scopeKey x) ->
  let y2 := run_all (run_one y o) ops2 in isClean (currently y2) (sy_records y2) x = false.
Proof.
  intros y Hv1 Hx o Ho Hcase Hv2 Hr y2.
  assert (Hinit : system_ok initial_system no_scopes).
  { split; [apply initial_ok|]. intros k r Hin. by apply elem_of_nil in Hin. }
  destruct (system_run_ok ops1 _ _ Hinit Hv1) as [s Hy]. pose proof (system_step_ok y s o Hy Ho) as Hy1.
  assert (Hs : spent (run_one y o) (spec_after s o) x).
  { destruct Hcase as [[-> Hm]|[Hc Hn]].
    - apply mark_executes in Hm as [Hc He]. right. split; [|done]. by apply (isCurrent_iff _ _ _ (proj1 Hy)).
    - left. pose proof (proj1 (isCurrent_iff _ _ x (proj1 Hy)) Hc) as Hcur. destruct o as [o|z|z|z|z]; cbn in Hn.
      2-5: unfold currently in *; cbn in Hn; congruence.
      destruct (current_or_over (sy_world y) s o x (proj1 Hy) Ho Hcur) as [Hc'|]; [|done].
      apply (isCurrent_iff _ _ _ (proj1 Hy1)) in Hc'. unfold currently in Hn. cbn in *. congruence. }
  destruct (spent_run ops2 x Hx Hr _ _ Hy1 Hv2 Hs) as (s2 & Hy2 & Hs2). by eapply spent_not_clean.
Qed.

Lemma executed_never_clean_witness :
  let x := mkScope (js "u1") 1 LMain in
  let y2 := run_all initial_system ([OnAuthority (MintMain (js "u1")); Register x; EstablishClean x] ++ MarkExecuted x
              :: [Register x; EstablishClean x; OnAuthority (MintSide (js "s") (js "u2"))]) in
  currently y2 x = true /\ isClean (currently y2) (sy_records y2) x = false.
Proof.
  cbn zeta. split; [reflexivity|].
  apply (executed_never_clean [OnAuthority (MintMain (js "u1")); Register (mkScope (js "u1") 1 LMain); EstablishClean (mkScope (js "u1") 1 LMain)]
           [Register (mkScope (js "u1") 1 LMain); EstablishClean (mkScope (js "u1") 1 LMain); OnAuthority (MintSide (js "s") (js "u2"))]
           (mkScope (js "u1") 1 LMain)) with (o := MarkExecuted (mkScope (js "u1") 1 LMain)).
  - split; [done|]. split; [|done]. apply (bool_decide_eq_true_1 _). reflexivity.
  - apply (bool_decide_eq_true_1 _). reflexivity.
  - done.
  - left. split; reflexivity.
  - split; [|done]. apply (bool_decide_eq_true_1 _). reflexivity.
  - intros z Hz. exfalso. repeat (apply elem_of_cons in Hz as [Hz|Hz]; [discriminate Hz|]). by apply elem_of_nil in Hz.
Defined.

(** A record that was retired can be made again, and is clean, while its scope is current. *)
Example retired_clean_again :
  let x := mkScope (js "u1") 1 LMain in
  let y := run_all initial_system [OnAuthority (MintMain (js "u1")); Register x; EstablishClean x; MarkExecuted x; Retire x;
                                   Register x; EstablishClean x] in
  isClean (currently y) (sy_records y) x = true.
Proof. reflexivity. Qed.

(** While the oldest record belongs to a current scope, nothing is evicted: every new registration
    adds a record, whatever the cap, also when the scopes of all other records are over. *)
Lemma current_head_blocks_eviction current k r l x :
  current (ar_scope r) = true -> current x = true -> rec_get (scopeKey x) ((k, r) :: l) = None ->
  length (register current ((k, r) :: l) x).1 = S (length ((k, r) :: l)).
Proof.
  intros Hr Hx Hg. unfold register. rewrite Hx, Hg. cbn [negb fst]. unfold evictIfNeeded.
  assert (He : forall fuel q, evict_records current fuel ((k, r) :: q) = (k, r) :: q).
  { intros [|fuel] q; [done|]. cbn [evict_records]. by destruct (_ <? _); [rewrite Hr|]. }
  cbn [app]. rewrite He. cbn. rewrite length_app. cbn. lia.
Qed.
