(* ===== verification/Pruning.v ===== *)
(** * Pruning the output of tools (agent/src/compaction/pruning.ts, utils/src/sanitize-text.ts)

    When the context grows, the output of old tool calls is replaced by a short notice.
    Output that a later call made obsolete (the same lookup again, an edit of the file that was read,
    a read of a larger range) goes first; the newest turns and some tools are
    protected.  The part of a notice that digests the output is an argument,
    because nothing depends on it: it is [resultDigest], and the theorems hold for
    any function of the message and the call.  The pruning of the
    arguments of calls is in [ArgumentPruning].  The clock is an argument. *)

From stdpp Require Import gmap.
From S2P Require Import Prelude JsText TextNormalize Json FuzzyMatch SessionEntries Compaction.

Local Open Scope Z_scope.

Record PruneConfig := mkPruneConfig {
  pc_protectTokens : Z;
  pc_minimumSavings : Z;
  pc_protectedTools : list jsstring;
  pc_protectRecentTurns : option Z;
  pc_staleOverridableTools : option (list jsstring)
}.

Definition DEFAULT_PRUNE_CONFIG : PruneConfig :=
  mkPruneConfig 40000 20000 [js "skill"; js "read"] (Some 2) (Some [js "read"]).

Record PrunedOriginal := mkOriginal {
  po_entryId : jsstring; po_toolName : jsstring; po_originalText : jsstring; po_tokens : Z; po_complete : bool
}.

(** ** Calls and results *)

Record ToolCall := mkCall { tc_id : jsstring; tc_name : jsstring; tc_arguments : list (jsstring * json); tc_customWireName : option jsstring }.

Record ToolResult := mkResult {
  to_toolCallId : jsstring;
  to_toolName : jsstring;
  to_content : message_content;
  to_prunedAt : option Z;
  to_isError : bool;
  to_details : option json
}.

Definition getToolResultMessage (e : SessionEntry) : option ToolResult :=
  match se_body e with
  | EMessage (MToolResult id name content prunedAt isError details) =>
      Some (mkResult id name content prunedAt isError details)
  | _ => None
  end.

Definition calls_of (e : SessionEntry) : list ToolCall :=
  match se_body e with
  | EMessage (MAssistant m) =>
      omap (fun b => match b with ToolCallBlock id name args wire => Some (mkCall id name args wire) | _ => None end) (am_content m)
  | _ => []
  end.

Definition callsById (entries : list SessionEntry) : gmap jsstring ToolCall :=
  fold_left (fun m c => <[tc_id c := c]> m) (entries ≫= calls_of) ∅.

Definition EDIT_TOOL_NAMES : list jsstring := [js "edit"; js "write"; js "apply_patch"; js "ast_edit"].

(** [a ?? b] *)
Definition nullish (v : option json) : bool := match v with None | Some JNull => true | _ => false end.
Definition coalesce (a b : option json) : option json := if nullish a then b else a.

Definition call_argument (c : ToolCall) (k : string) : option json := lookup_field (js k) (tc_arguments c).

Definition nonempty_string (v : option json) : option jsstring :=
  match v with Some (JStr (c :: s)) => Some (c :: s) | _ => None end.

Definition toolCallPath (c : ToolCall) : option jsstring :=
  nonempty_string (coalesce (coalesce (call_argument c "path") (call_argument c "file_path")) (call_argument c "filePath")).

(** *** Envelopes *)

(** The lines that [^] and [$] of a multi-line expression delimit. *)
Fixpoint text_lines (s : jsstring) : list jsstring :=
  match s with
  | [] => [[]]
  | c :: rest =>
      if is_line_terminator c then [] :: text_lines rest
      else match text_lines rest with w :: ws => (c :: w) :: ws | [] => [[c]] end
  end.

(** A line that [APPLY_PATCH_HEADER] matches: whether it is a move, and the path. *)
Definition header_line (line : jsstring) : option (bool * jsstring) :=
  let after h := match drop (length h) line with [] => None | p => Some p end in
  if starts_with (js "*** Add File: ") line then (fun p => (false, p)) <$> after (js "*** Add File: ")
  else if starts_with (js "*** Update File: ") line then (fun p => (false, p)) <$> after (js "*** Update File: ")
  else if starts_with (js "*** Delete File: ") line then (fun p => (false, p)) <$> after (js "*** Delete File: ")
  else if starts_with (js "*** Move to: ") line then (fun p => (true, p)) <$> after (js "*** Move to: ")
  else None.

Definition add_header (groups : list (list jsstring)) (m : bool * jsstring) : list (list jsstring) :=
  let headerPath := trim m.2 in
  if bool_decide (headerPath = []) then groups
  else match m.1, rev groups with
       | true, g :: rest => rev rest ++ [g ++ [headerPath]]
       | _, _ => groups ++ [[headerPath]]
       end.

Definition editToolPathGroups (c : ToolCall) : list (list jsstring) :=
  match toolCallPath c with
  | Some path => [[path]]
  | None =>
      match call_argument c "input" with
      | Some (JStr input) => fold_left add_header (omap header_line (text_lines input)) []
      | _ => []
      end
  end.

(** *** Targets of reads *)

Definition strip_L (s : jsstring) : jsstring :=
  match s with c :: rest => if ((c =? 76) || (c =? 108))%N then rest else s | [] => [] end.

Definition all_digits (s : jsstring) : bool := negb (bool_decide (s = [])) && forallb is_digit s.

(** [L?\d+(?:[-+]L?\d+|-)?]: the number, and the sign with the second number. *)
Definition range_part (s : jsstring) : option (jsstring * option (N * jsstring)) :=
  let '(n, rest) := span is_digit (strip_L s) in
  if bool_decide (n = []) then None
  else match rest with
       | [] => Some (n, None)
       | c :: rest =>
           if ((c =? 45) || (c =? 43))%N && all_digits (strip_L rest) then Some (n, Some (c, strip_L rest))
           else if (c =? 45)%N && bool_decide (rest = []) then Some (n, None)
           else None
       end.

Definition READ_RANGE_SELECTOR_test (s : jsstring) : bool :=
  forallb (fun p => match range_part p with Some _ => true | None => false end) (split_char 44%N s).

Definition lower_case (c : N) : N := if ((65 <=? c) && (c <=? 90))%N then (c + 32)%N else c.
Definition same_word (w : string) (s : jsstring) : bool := bool_decide (lower_case <$> s = js w).

Definition READ_RAW_SELECTOR_test (s : jsstring) : bool := same_word "raw" s.
Definition READ_SELECTOR_test (s : jsstring) : bool :=
  READ_RANGE_SELECTOR_test s || READ_RAW_SELECTOR_test s || same_word "conflicts" s.

(** [path.lastIndexOf(":")] where it is positive: what stands before and after. *)
Definition last_colon (path : jsstring) : option (jsstring * jsstring) :=
  let '(after, rest) := span (fun c => negb (c =? 58)%N) (rev path) in
  match rest with
  | _ :: before => if bool_decide (before = []) then None else Some (rev before, rev after)
  | [] => None
  end.

Definition splitReadTarget (path : jsstring) : jsstring * option jsstring :=
  match last_colon path with
  | None => (path, None)
  | Some (basePath, outer) =>
      if negb (READ_SELECTOR_test outer) then (path, None)
      else match last_colon basePath with
           | Some (base, inner) =>
               if (READ_RAW_SELECTOR_test inner && READ_RANGE_SELECTOR_test outer)
                  || (READ_RANGE_SELECTOR_test inner && READ_RAW_SELECTOR_test outer)
               then (base, Some (inner ++ [58%N] ++ outer))
               else (basePath, Some outer)
           | None => (basePath, Some outer)
           end
  end.

Definition readBasePath (path : jsstring) : jsstring := (splitReadTarget path).1.

Definition digits_value (s : jsstring) : Z :=
  fold_left (fun n c => 10 * n + Z.of_N (c - 48)) s 0.

(** One bounded range of a selector. *)
Definition part_range (part : jsstring) : option (Z * Z) :=
  match range_part part with
  | Some (n, Some (sign, m)) =>
      let start := digits_value n in
      let stop := if (sign =? 43)%N then start + digits_value m - 1 else digits_value m in
      if (0 <? start) && (start <=? stop) then Some (start, stop) else None
  | _ => None
  end.

(** [/(?:^|:)raw(?:$|:)/i] *)
Definition mentions_raw (selector : jsstring) : bool := existsb (same_word "raw") (split_char 58%N selector).

Definition readLineRanges (path : jsstring) : list (Z * Z) :=
  match (splitReadTarget path).2 with
  | None | Some [] => []
  | Some selector =>
      if mentions_raw selector || same_word "conflicts" selector then []
      else omap part_range (split_char 44%N selector)
  end.

Definition strictlyContainsReadRange (container contained : Z * Z) : bool :=
  (container.1 <=? contained.1) && (contained.2 <=? container.2)
  && ((container.1 <? contained.1) || (contained.2 <? container.2)).

Definition call_ranges (c : ToolCall) : list (Z * Z) :=
  match toolCallPath c with Some path => readLineRanges path | None => [] end.

Definition readSupersedesRead (later earlier : ToolCall) : bool :=
  match call_ranges later, call_ranges earlier with
  | [l], [e] => strictlyContainsReadRange l e
  | _, _ => false
  end.

(** *** What a call looks up *)

(** [s.replace(/\s+/g, " ")] *)
Fixpoint collapse_spaces (in_spaces : bool) (s : jsstring) : jsstring :=
  match s with
  | [] => []
  | c :: rest =>
      if is_ws c then (if in_spaces then [] else [32%N]) ++ collapse_spaces true rest
      else c :: collapse_spaces false rest
  end.

Definition word_char (c : N) : bool :=
  (((65 <=? c) && (c <=? 90)) || ((97 <=? c) && (c <=? 122)) || ((48 <=? c) && (c <=? 57)) || (c =? 95))%N.

(** The beginnings that [IDEMPOTENT_BASH_COMMAND] accepts in a command with single spaces. *)
Definition IDEMPOTENT_BASH_COMMANDS : list jsstring :=
  (pm ← [js "bun"; js "npm"; js "pnpm"; js "yarn"];
   run ← [js ""; js "run "];
   task ← [js "test"; js "build"];
   [pm ++ js " " ++ run ++ task])
  ++ [js "git status"; js "cargo build"; js "make build"; js "just build"].

Definition idempotent_command (s : jsstring) : bool :=
  existsb (fun p => starts_with p s && match drop (length p) s with [] => true | c :: _ => negb (word_char c) end)
    IDEMPOTENT_BASH_COMMANDS.

Definition normalizedIdempotentBashCommand (c : ToolCall) : option jsstring :=
  if negb (bool_decide (tc_name c = js "bash")) then None
  else match call_argument c "command" with
       | Some (JStr command) =>
           let normalized := collapse_spaces false (trim command) in
           if existsb (fun x => (x =? 59) || (x =? 38) || (x =? 124))%N normalized || negb (idempotent_command normalized) then None
           else Some (print_json (JArr [JStr normalized;
                                        match call_argument c "cwd" with Some (JStr cwd) => JStr cwd | _ => JNull end]))
       | _ => None
       end.

Definition toolTargetKey (c : ToolCall) : option jsstring :=
  match toolCallPath c with
  | Some path => Some (print_json (JArr [JStr (tc_name c); JStr (js "path"); JStr path]))
  | None =>
      match normalizedIdempotentBashCommand c with
      | Some command => Some (print_json (JArr [JStr (tc_name c); JStr (js "command"); JStr command]))
      | None =>
          match nonempty_string (call_argument c "pattern") with
          | Some pattern =>
              let pathList := match call_argument c "paths" with
                              | Some (JArr paths) => List.filter (fun p => is_string (Some p)) paths
                              | _ => []
                              end in
              let skip := match call_argument c "skip" with Some (JNum n) => n | _ => 0 end in
              let caseInsensitive := match call_argument c "i" with Some (JBool true) => true | _ => false end in
              let gitignore := match call_argument c "gitignore" with Some (JBool false) => false | _ => true end in
              Some (print_json (JArr [JStr (tc_name c); JStr (js "pattern"); JStr pattern; JArr pathList; JNum skip;
                                      JBool caseInsensitive; JBool gitignore]))
          | None => None
          end
      end
  end.

(** *** What a result reports *)

Definition strings_of (items : list json) : list jsstring :=
  omap (fun v => match v with JStr (c :: s) => Some (c :: s) | _ => None end) items.

Definition applied_files (details : option json) : option (list jsstring) :=
  match jget (js "applied") details, jget (js "files") details with
  | Some (JBool true), Some (JArr files) => Some (strings_of files)
  | _, _ => None
  end.

Definition resultDetailFiles (m : ToolResult) : list jsstring :=
  match applied_files (to_details m) with
  | Some files => files
  | None => default [] (applied_files (jget (js "sourceResultDetails") (to_details m)))
  end.

(** A row that proves a change. *)
Definition proved_path (item : json) : option jsstring :=
  match jget (js "path") (Some item) with
  | Some (JStr path) =>
      match jget (js "isError") (Some item) with
      | Some (JBool false) => Some path
      | None => if is_string (jget (js "diff") (Some item)) then Some path else None
      | _ => None
      end
  | _ => None
  end.

Definition successfulEditPaths (m : ToolResult) : option (list jsstring) :=
  match jget (js "perFileResults") (to_details m) with
  | Some (JArr perFile) => Some (omap proved_path perFile)
  | _ => None
  end.

Definition readResolvedPath (m : ToolResult) : option jsstring := nonempty_string (jget (js "resolvedPath") (to_details m)).

(** ** What is stale *)

Record ResultMeta := mkMeta { rm_index : nat; rm_key : option jsstring; rm_call : ToolCall; rm_message : ToolResult }.

Record scan_state := mkScan {
  ss_lastResultIndexByKey : gmap jsstring nat;
  ss_resultMeta : list ResultMeta;
  ss_lastEditIndexByPath : gmap jsstring nat
}.

Definition set_all (i : nat) (paths : list jsstring) (m : gmap jsstring nat) : gmap jsstring nat :=
  fold_left (fun m p => <[p := i]> m) paths m.

(** The paths an edit is known to have changed. *)
Definition edited_paths (c : ToolCall) (m : ToolResult) : list jsstring :=
  let successfulPaths := successfulEditPaths m in
  editToolPathGroups c ≫= fun group =>
    match successfulPaths with
    | Some ps => if existsb (fun p => bool_decide (p ∈ ps)) group then group else []
    | None => group
    end.

(** The paths that are recorded for the result of a call. *)
Definition applied_paths (c : ToolCall) (m : ToolResult) : list jsstring :=
  if bool_decide (tc_name c = js "resolve") || bool_decide (tc_name c = js "ast_edit") then resultDetailFiles m else [].

Definition scan_entry (calls : gmap jsstring ToolCall) (st : scan_state) (ie : nat * SessionEntry) : scan_state :=
  let '(i, e) := ie in
  match getToolResultMessage e with
  | None => st
  | Some m =>
      match calls !! to_toolCallId m with
      | None => st
      | Some c =>
          let edits := set_all i (applied_paths c m) (ss_lastEditIndexByPath st) in
          if to_isError m then mkScan (ss_lastResultIndexByKey st) (ss_resultMeta st) edits
          else
            let key := toolTargetKey c in
            mkScan
              (match key with Some k => <[k := i]> (ss_lastResultIndexByKey st) | None => ss_lastResultIndexByKey st end)
              (ss_resultMeta st ++ [mkMeta i key c m])
              (if bool_decide (tc_name c ∈ EDIT_TOOL_NAMES) then set_all i (edited_paths c m) edits else edits)
      end
  end.

Definition indexed (entries : list SessionEntry) : list (nat * SessionEntry) := imap pair entries.

Definition scan_entries (entries : list SessionEntry) : scan_state :=
  fold_left (scan_entry (callsById entries)) (indexed entries) (mkScan ∅ [] ∅).

(** The paths an edit may name for the file that was read. *)
Definition lookupPaths (meta : ResultMeta) : list jsstring :=
  match toolCallPath (rm_call meta) with Some p => [readBasePath p] | None => [] end
  ++ match readResolvedPath (rm_message meta) with Some p => [p] | None => [] end.

Definition later_in (m : gmap jsstring nat) (k : jsstring) (i : nat) : bool :=
  match m !! k with Some j => (i <? j)%nat | None => false end.

Definition is_read (meta : ResultMeta) : bool := bool_decide (tc_name (rm_call meta) = js "read").

Definition superseded (st : scan_state) (meta : ResultMeta) : bool :=
  match rm_key meta with Some k => later_in (ss_lastResultIndexByKey st) k (rm_index meta) | None => false end
  || (is_read meta && existsb (fun p => later_in (ss_lastEditIndexByPath st) p (rm_index meta)) (lookupPaths meta)).

(** A map from keys to arrays that are pushed to, in the order of the first insertions. *)
Fixpoint group_add {K A} `{EqDecision K} (k : K) (m : A) (groups : list (K * list A)) : list (K * list A) :=
  match groups with
  | [] => [(k, [m])]
  | (k', ms) :: rest => if bool_decide (k' = k) then (k', ms ++ [m]) :: rest else (k', ms) :: group_add k m rest
  end.

Definition readsByBasePath (metas : list ResultMeta) : list (jsstring * list ResultMeta) :=
  fold_left (fun groups m =>
    if is_read m then match toolCallPath (rm_call m) with Some p => group_add (readBasePath p) m groups | None => groups end
    else groups) metas [].

(** The reads of a group that a later one of it contains. *)
Fixpoint contained_reads (reads : list ResultMeta) : list nat :=
  match reads with
  | [] => []
  | m :: rest =>
      (if existsb (fun l => readSupersedesRead (rm_call l) (rm_call m)) rest then [rm_index m] else []) ++ contained_reads rest
  end.

Definition buildStalenessIndex (entries : list SessionEntry) : gset nat :=
  let st := scan_entries entries in
  list_to_set (rm_index <$> List.filter (superseded st) (ss_resultMeta st))
  ∪ list_to_set (readsByBasePath (ss_resultMeta st) ≫= fun g => contained_reads g.2).

(** ** Notices *)

Definition ELLIPSIS : N := 8230%N.
Definition DIGEST_TOTAL_MAX_CHARS : nat := 256.

Definition truncateField (value : jsstring) (maxLength : nat) : jsstring :=
  if (length value <=? maxLength)%nat then value
  else if (maxLength <=? 1)%nat then [ELLIPSIS]
  else take (maxLength - 1) value ++ [ELLIPSIS].

Definition createGenericPrunedNotice (tokens : Z) : jsstring :=
  js "[Output truncated - " ++ num_to_string tokens ++ js " tokens]".

Definition text_blocks (blocks : list content_block) : list jsstring :=
  omap (fun b => match b with TextBlock t => Some t | _ => None end) blocks.

Definition capturedTextContent (m : ToolResult) : jsstring * bool :=
  match to_content m with
  | ContentString s => (s, true)
  | ContentBlocks blocks =>
      (join [10%N] (text_blocks blocks), forallb (fun b => match b with TextBlock _ => true | _ => false end) blocks)
  end.

(** The notice with a digest and a reference; an empty text counts as none. *)
Definition notice_text (tokens : Z) (digest artifact : jsstring) : jsstring :=
  match artifact, digest with
  | [], [] => createGenericPrunedNotice tokens
  | [], _ => js "[Output truncated - " ++ num_to_string tokens ++ js " tokens; " ++ digest ++ js "]"
  | _, _ =>
      js "[Output truncated - " ++ num_to_string tokens ++ js " tokens; full output: " ++ artifact ++ js "]"
      ++ match digest with [] => [] | _ => js " " ++ digest end
  end.

(** ** The digest in a notice

    The output that is pruned leaves a short digest: the exit code and the last line of a command,
    the counts of a search, the first line of an error.  [Bun.stripANSI] is an argument. *)

(** *** Cleaning a text *)

Definition REPLACEMENT_CHAR : N := 65533%N.
Definition ESC_CHAR : N := 27%N.

(** [s.toWellFormed()]: a surrogate that is not in a pair is replaced. *)
Fixpoint toWellFormed (s : jsstring) : jsstring :=
  match s with
  | [] => []
  | c :: rest =>
      if is_high_surrogate c then
        match rest with
        | d :: rest' => if is_low_surrogate d then c :: d :: toWellFormed rest' else REPLACEMENT_CHAR :: toWellFormed rest
        | [] => [REPLACEMENT_CHAR]
        end
      else if is_low_surrogate c then REPLACEMENT_CHAR :: toWellFormed rest
      else c :: toWellFormed rest
  end.

(** [[\x00-\x08\x0B-\x1F\x7F-\x9F]] *)
Definition CONTROL_RE (c : N) : bool :=
  ((c <=? 8) || ((11 <=? c) && (c <=? 31)) || ((127 <=? c) && (c <=? 159)))%N.

Section digest.
Variable stripANSI : jsstring -> jsstring.

Definition sanitizeWellFormedText (text : jsstring) : jsstring :=
  if negb (existsb CONTROL_RE text) then text
  else
    let stripped := if bool_decide (ESC_CHAR ∈ text) then stripANSI text else text in
    List.filter (fun c => negb (CONTROL_RE c)) stripped.

Definition sanitizeText (text : jsstring) : jsstring :=
  let wellFormed := toWellFormed text in
  if negb (bool_decide (wellFormed = text)) then
    sanitizeWellFormedText (List.filter (fun c => negb (c =? REPLACEMENT_CHAR)%N) wellFormed)
  else sanitizeWellFormedText text.

(** *** Lines of a text *)

(** Whether a word occurs, in any case. *)
Definition mentions (w : string) (s : jsstring) : bool := includes (js w) (lower_case <$> s).

Definition error_line (line : jsstring) : bool :=
  mentions "error" line || mentions "failed" line || mentions "exception" line || mentions "panic" line.

Definition firstErrorLine (text : jsstring) : option jsstring := trim <$> find error_line (split_lines text).

Definition firstNonEmptyLine (text : jsstring) : option jsstring :=
  trim <$> find (fun line => negb (bool_decide (trim line = []))) (split_lines text).

Definition nonempty_lines (text : jsstring) : list jsstring := List.filter (fun l => negb (bool_decide (l = []))) (split_lines (trim text)).

Definition lastNonEmptyLine (text : jsstring) : option jsstring := trim <$> last (nonempty_lines text).

(** *** Counts in a text *)

(** The first place at which an expression matches, and what it captured there. *)
Fixpoint first_match (m : jsstring -> option jsstring) (s : jsstring) : option jsstring :=
  match m s with
  | Some x => Some x
  | None => match s with [] => None | _ :: rest => first_match m rest end
  end.

(** [(\d+)\s+w] in any case, captured at the start of a text. *)
Definition count_before (w : string) (s : jsstring) : option jsstring :=
  let '(digits, rest) := span is_digit s in
  let '(spaces, rest) := span is_ws rest in
  match digits, spaces with
  | _ :: _, _ :: _ => if starts_with (js w) (lower_case <$> rest) then Some digits else None
  | _, _ => None
  end.

(** [w quote?:\s*(\d+)] in any case, captured at the start of a text. *)
Definition count_after (w : string) (s : jsstring) : option jsstring :=
  if starts_with (js w) (lower_case <$> s) then
    let rest := drop (length (js w)) s in
    let rest := match rest with c :: r => if ((c =? 34) || (c =? 39))%N then r else rest | [] => rest end in
    match rest with
    | 58%N :: r => match (span is_digit (span is_ws r).2).1 with [] => None | digits => Some digits end
    | _ => None
    end
  else None.

Definition or_else {A} (a b : option A) : option A := match a with Some x => Some x | None => b end.

(** [/(\d+)\s+matches?/i], which asks for the [e]. *)
Definition match_count (text : jsstring) : option jsstring :=
  or_else (first_match (count_before "matche") text) (first_match (count_after "totalmatches") text).

Definition file_count (text : jsstring) : option jsstring :=
  or_else (first_match (count_before "file") text) (first_match (count_after "fileswithmatches") text).

(** *** The digest *)

Definition ERROR_DIGEST_MAX_CHARS : nat := 240.
Definition TAIL_DIGEST_MAX_CHARS : nat := 160.
Definition PATH_DIGEST_MAX_CHARS : nat := 120.

Definition resultPathHint (m : ToolResult) (c : option ToolCall) : option jsstring :=
  or_else (c ≫= toolCallPath) (readResolvedPath m).

(** A part with its field, left out when the text is missing or empty. *)
Definition field (name : string) (maxLength : nat) (value : option jsstring) : list jsstring :=
  match value with
  | Some (ch :: s) => [js name ++ truncateField (ch :: s) maxLength]
  | _ => []
  end.

Definition exit_code (m : ToolResult) : Z :=
  match jget (js "exitCode") (to_details m) with Some (JNum n) => n | _ => if to_isError m then 1 else 0 end.

Definition resultDigest (m : ToolResult) (c : option ToolCall) : option jsstring :=
  let toolName := lower_case <$> to_toolName m in
  let text := sanitizeText (capturedTextContent m).1 in
  let error := firstErrorLine text in
  let errorPart := field "error=" ERROR_DIGEST_MAX_CHARS error in
  let pathPart := field "path=" PATH_DIGEST_MAX_CHARS (resultPathHint m c) in
  if bool_decide (toolName = js "bash") then
    Some (join (js "; ") ([js "exit=" ++ num_to_string (exit_code m)] ++ errorPart ++ pathPart
                          ++ field "tail=" TAIL_DIGEST_MAX_CHARS (last (nonempty_lines text))))
  else if bool_decide (toolName = js "search") || bool_decide (toolName = js "grep") then
    let count name n := match n with Some d => [js name ++ d] | None => [] end in
    match join (js "; ") (errorPart ++ pathPart ++ count "matches=" (match_count text) ++ count "files=" (file_count text)) with
    | [] => Some (js "search digest unavailable")
    | digest => Some digest
    end
  else if negb (to_isError m) then None
  else if bool_decide (trim text = []) then Some (js "error=tool result failed without text")
  else match error with
       | Some (_ :: _) => Some (join (js "; ") (errorPart ++ pathPart))
       | _ =>
           match or_else (firstNonEmptyLine text) (lastNonEmptyLine text) with
           | Some (ch :: s) => Some (js "summary=" ++ truncateField (ch :: s) ERROR_DIGEST_MAX_CHARS)
           | _ => None
           end
       end.

End digest.

Section pruning.
Variable digestOf : ToolResult -> option ToolCall -> option jsstring.
Context `{Clock}.

Definition createPrunedNotice (tokens : Z) (m : ToolResult) (c : option ToolCall) (artifact : option jsstring) : jsstring :=
  notice_text tokens (truncateField (default [] (digestOf m c)) DIGEST_TOTAL_MAX_CHARS) (default [] artifact).

Definition estimatePrunedSavings (tokens : Z) (notice : jsstring) : Z := tokens - estimateTextTokensHeuristic [notice].

Definition errorNoticeGrows (m : ToolResult) (notice text : jsstring) : bool :=
  to_isError m && (length text <? length notice)%nat.

(** ** Candidates *)

Record Candidate := mkCandidate {
  ca_index : nat;
  ca_entry : SessionEntry;
  ca_message : ToolResult;
  ca_call : option ToolCall;
  ca_tokens : Z;
  ca_originalText : jsstring;
  ca_complete : bool;
  ca_notice : jsstring;
  ca_savings : Z
}.

Definition turn_start (e : SessionEntry) : bool :=
  match se_body e with EMessage (MUser _ | MBashExecution _ _) => true | _ => false end.

Definition recentTurnFenceStart (entries : list SessionEntry) (protectRecentTurns : Z) : option nat :=
  if protectRecentTurns <=? 0 then None
  else let starts := fst <$> List.filter (fun ie => turn_start ie.2) (indexed entries) in
       match starts with
       | [] => None
       | _ => starts !! Z.to_nat (Z.max 0 (arr_len starts - protectRecentTurns))
       end.

Definition is_protected (config : PruneConfig) (m : ToolResult) (isStale : bool) : bool :=
  bool_decide (to_toolName m ∈ pc_protectedTools config)
  && negb (isStale && bool_decide (to_toolName m ∈ default [] (pc_staleOverridableTools config))).

Definition behind_fence (fence : option nat) (i : nat) : bool := match fence with Some f => (f <=? i)%nat | None => false end.

(** One round of the loop, with the tokens counted so far. *)
Definition collect_one (config : PruneConfig) (stale : gset nat) (calls : gmap jsstring ToolCall) (fence : option nat)
    (st : Z * list Candidate) (ie : nat * SessionEntry) : Z * list Candidate :=
  let '(accumulatedTokens, candidates) := st in
  let '(i, e) := ie in
  match getToolResultMessage e with
  | None => st
  | Some m =>
      let tokens := estimateEntryTokens e in
      let isStale := bool_decide (i ∈ stale) in
      let skip := (accumulatedTokens + tokens, candidates) in
      if bool_decide (is_Some (to_prunedAt m)) || behind_fence fence i then skip
      else if ((accumulatedTokens <? pc_protectTokens config) && negb isStale) || is_protected config m isStale then skip
      else
        let call := calls !! to_toolCallId m in
        let '(text, complete) := capturedTextContent m in
        let notice := createPrunedNotice tokens m call None in
        let savings := estimatePrunedSavings tokens notice in
        if (savings <=? 0) || errorNoticeGrows m notice text then skip
        else (accumulatedTokens + tokens, candidates ++ [mkCandidate i e m call tokens text complete notice savings])
  end.

Definition sum_savings (l : list Candidate) : Z := foldr (fun c n => ca_savings c + n) 0 l.

Definition collectToolOutputPruneCandidates (entries : list SessionEntry) (config : PruneConfig) : list Candidate :=
  (fold_left (collect_one config (buildStalenessIndex entries) (callsById entries)
                (recentTurnFenceStart entries (default 2 (pc_protectRecentTurns config))))
     (rev (indexed entries)) (0, [])).2.

(** ** Planning and pruning *)

(** [artifactRef] gives a reference for the [n]-th planned candidate. *)
Record PruneToolOutputsOptions := mkPruneOptions {
  po_relaxedMinimum : option Z;
  po_artifactRefMaxChars : option Z;
  po_artifactRef : option (nat -> PrunedOriginal -> option jsstring)
}.

Inductive prune_error :=
| ArtifactRefMaxCharsRequired
| ArtifactRefMaxCharsRange
| ArtifactRefInvalid (entryId : jsstring)
| ArtifactRefTooLong (entryId : jsstring)
| SavingsBelowEstimate.

Definition MAX_ARTIFACT_REF_CHARS : Z := 16384.

Definition minimumSavings (config : PruneConfig) (options : PruneToolOutputsOptions) : Z :=
  match po_relaxedMinimum options with
  | Some relaxed => Z.min (pc_minimumSavings config) (Z.max 0 relaxed)
  | None => pc_minimumSavings config
  end.

Definition artifactRefMaxChars (options : PruneToolOutputsOptions) : result prune_error Z :=
  match po_artifactRefMaxChars options with
  | None => match po_artifactRef options with Some _ => Err ArtifactRefMaxCharsRequired | None => Ok 0 end
  | Some n => if (n <=? 0) || (MAX_ARTIFACT_REF_CHARS <? n) then Err ArtifactRefMaxCharsRange else Ok n
  end.

(** [artifact://] and digits, and nothing else. *)
Definition isValidArtifactRef (value : jsstring) : bool :=
  starts_with (js "artifact://") value && all_digits (drop (length (js "artifact://")) value).

Definition original_of (c : Candidate) : PrunedOriginal :=
  mkOriginal (se_id (ca_entry c)) (to_toolName (ca_message c)) (ca_originalText c) (ca_tokens c) (ca_complete c).

Definition with_notice (c : Candidate) (artifact : option jsstring) : Candidate :=
  let notice := createPrunedNotice (ca_tokens c) (ca_message c) (ca_call c) artifact in
  mkCandidate (ca_index c) (ca_entry c) (ca_message c) (ca_call c) (ca_tokens c) (ca_originalText c) (ca_complete c)
    notice (estimatePrunedSavings (ca_tokens c) notice).

Definition artifact_budget (maxArtifactChars : Z) : option jsstring :=
  if 0 <? maxArtifactChars then Some (replicate (Z.to_nat maxArtifactChars) 120%N) else None.

Definition plan_one (maxArtifactChars : Z) (c : Candidate) : list Candidate :=
  let planned := with_notice c (if ca_complete c then artifact_budget maxArtifactChars else None) in
  if (0 <? ca_savings planned) && negb (errorNoticeGrows (ca_message c) (ca_notice planned) (ca_originalText c))
  then [planned] else [].

Definition planToolOutputPruneCandidates (candidates : list Candidate) (options : PruneToolOutputsOptions) :
    result prune_error (list Candidate) :=
  match artifactRefMaxChars options with
  | Err e => Err e
  | Ok maxArtifactChars => Ok (candidates ≫= plan_one maxArtifactChars)
  end.

Definition estimateToolOutputPruneSavings (entries : list SessionEntry) (config : PruneConfig)
    (options : PruneToolOutputsOptions) : result prune_error (nat * Z) :=
  let candidates := collectToolOutputPruneCandidates entries config in
  let minimum := minimumSavings config options in
  if (sum_savings candidates <? minimum) || bool_decide (candidates = []) then Ok (0%nat, 0)
  else let! planned := planToolOutputPruneCandidates candidates options in
       if (sum_savings planned <? minimum) || bool_decide (planned = []) then Ok (0%nat, 0)
       else Ok (length planned, sum_savings planned).

Definition shouldRunMaintenancePrune (enabled : bool) (estimatedSavings minSavings cacheEpochResetCost : Z) : bool :=
  if negb enabled then false
  else if estimatedSavings <? minSavings then false
  else cacheEpochResetCost <? estimatedSavings.

Fixpoint with_artifacts (options : PruneToolOutputsOptions) (maxArtifactChars : Z) (n : nat) (planned : list Candidate) :
    result prune_error (list Candidate) :=
  match planned with
  | [] => Ok []
  | c :: rest =>
      let artifact := if ca_complete c then match po_artifactRef options with Some f => f n (original_of c) | None => None end
                      else None in
      if match artifact with Some a => negb (isValidArtifactRef a) | None => false end
      then Err (ArtifactRefInvalid (se_id (ca_entry c)))
      else if match artifact with Some a => (maxArtifactChars <? arr_len a) | None => false end
      then Err (ArtifactRefTooLong (se_id (ca_entry c)))
      else let! rest := with_artifacts options maxArtifactChars (S n) rest in
           Ok (with_notice c artifact :: rest)
  end.

(** The message of an entry with the notice for its content. *)
Definition pruned_entry (now : Z) (notice : jsstring) (e : SessionEntry) : SessionEntry :=
  match se_body e with
  | EMessage (MToolResult id name _ _ isError details) =>
      mkEntry (se_id e) (se_parentId e) (se_timestamp e)
        (EMessage (MToolResult id name (ContentBlocks [TextBlock notice]) (Some now) isError details))
  | _ => e
  end.

Definition prune_candidate (now : Z) (entries : list SessionEntry) (c : Candidate) : list SessionEntry :=
  <[ca_index c := pruned_entry now (ca_notice c) (ca_entry c)]> entries.

Record PruneResult := mkPruned {
  pr_prunedCount : nat;
  pr_tokensSaved : Z;
  pr_originals : list PrunedOriginal;
  pr_prunedIndices : list nat
}.

Definition nothing_pruned : PruneResult := mkPruned 0 0 [] [].

(** The entries afterwards, and what is returned. *)
Definition pruneToolOutputs (now : Z) (entries : list SessionEntry) (config : PruneConfig) (options : PruneToolOutputsOptions) :
    result prune_error (list SessionEntry * PruneResult) :=
  let candidates := collectToolOutputPruneCandidates entries config in
  let minimum := minimumSavings config options in
  if (sum_savings candidates <? minimum) || bool_decide (candidates = []) then Ok (entries, nothing_pruned)
  else
    let! planned := planToolOutputPruneCandidates candidates options in
    if (sum_savings planned <? minimum) || bool_decide (planned = []) then Ok (entries, nothing_pruned)
    else
      let! maxArtifactChars := artifactRefMaxChars options in
      let! final := with_artifacts options maxArtifactChars 0 planned in
      if sum_savings final <? minimum then Err SavingsBelowEstimate
      else Ok (fold_left (prune_candidate now) final entries,
               mkPruned (length final) (sum_savings final) (original_of <$> planned) (ca_index <$> final)).

End pruning.

(** ** What a digest holds *)

(** Whatever [Bun.stripANSI] leaves, the cleaned text has no control character but tabs and line feeds. *)
Lemma sanitized_clean stripANSI text c : c ∈ sanitizeText stripANSI text -> CONTROL_RE c = false.
Proof.
  assert (H : forall s, c ∈ sanitizeWellFormedText stripANSI s -> CONTROL_RE c = false).
  { intros s. unfold sanitizeWellFormedText. destruct (existsb CONTROL_RE s) eqn:E; cbn [negb].
    - rewrite list_elem_of_In, filter_In. intros [_ H]. by apply negb_true_iff.
    - intros Hc. destruct (CONTROL_RE c) eqn:Ec; [|done]. rewrite <- E. symmetry. apply existsb_exists. exists c.
      split; [by apply list_elem_of_In|done]. }
  unfold sanitizeText. case_bool_decide; apply H.
Qed.

Lemma truncateField_length value n : (0 < n)%nat -> (length (truncateField value n) <= n)%nat.
Proof.
  intros Hn. unfold truncateField. destruct (length value <=? n)%nat eqn:E1; [by apply Nat.leb_le|].
  destruct (n <=? 1)%nat eqn:E2; [cbn; lia|]. apply Nat.leb_gt in E2. rewrite length_app, length_take. cbn. lia.
Qed.

(** One match is not counted: the expression asks for [matche]. *)
Example one_match_not_counted :
  match_count (js "1 match in 2 files") = None /\ match_count (js "2 matches in 1 file") = Some (js "2")
  /\ file_count (js "2 matches in 1 file") = Some (js "1").
Proof. by vm_compute. Qed.
