(* ===== verification/PruningFacts.v ===== *)
(** * What pruning promises

    The savings that are reported are real, the plan is never better than the result, nothing
    protected is touched, and the index of stale results says what it means. *)

From stdpp Require Import gmap sorting.
From S2P Require Import Prelude JsText TextNormalize Json FuzzyMatch ReplaceText SessionEntries Compaction Pruning.

Local Open Scope Z_scope.

(** ** The cost of a notice *)

Lemma weight_app s t : tokenDenseCharWeight (s ++ t) =
  ((tokenDenseCharWeight s).1 + (tokenDenseCharWeight t).1, (tokenDenseCharWeight s).2 + (tokenDenseCharWeight t).2).
Proof.
  induction s as [|c s IH]; [cbn [app]; by destruct (tokenDenseCharWeight t)|].
  cbn [app tokenDenseCharWeight]. rewrite IH. destruct (tokenDenseCharWeight s) as [w u], (tokenDenseCharWeight t) as [w' u']. cbn.
  destruct (is_dense c); cbn; [f_equal; lia|]. destruct (is_surrogate c); cbn; f_equal; lia.
Qed.

Lemma weight_bounds s : 0 <= (tokenDenseCharWeight s).1 /\ 0 <= (tokenDenseCharWeight s).2 <= Z.of_nat (length s).
Proof.
  induction s as [|c s IH]; [cbn; lia|]. cbn [tokenDenseCharWeight length]. destruct (tokenDenseCharWeight s) as [w u]. cbn in *.
  destruct (is_dense c); [cbn; lia|]. destruct (is_surrogate c); cbn; lia.
Qed.

Definition dense_of (s : jsstring) : Z := (estimateFragmentTokensHeuristic s).1.
Definition other_of (s : jsstring) : Z := (estimateFragmentTokensHeuristic s).2.

Lemma dense_app s t : dense_of (s ++ t) = dense_of s + dense_of t.
Proof. unfold dense_of, estimateFragmentTokensHeuristic. rewrite weight_app. by destruct (tokenDenseCharWeight s), (tokenDenseCharWeight t). Qed.

Lemma other_app s t : other_of (s ++ t) = other_of s + other_of t.
Proof.
  unfold other_of, estimateFragmentTokensHeuristic. rewrite weight_app, length_app.
  destruct (tokenDenseCharWeight s), (tokenDenseCharWeight t). cbn. lia.
Qed.

Lemma other_nonneg s : 0 <= other_of s.
Proof.
  unfold other_of, estimateFragmentTokensHeuristic. pose proof (weight_bounds s). destruct (tokenDenseCharWeight s). cbn in *. lia.
Qed.

Lemma estimate_single s : estimateTextTokensHeuristic [s] = ceil_div (2 * dense_of s + other_of s) HEURISTIC_BYTES_PER_TOKEN.
Proof.
  pose proof (other_nonneg s) as Ho. unfold estimateTextTokensHeuristic, dense_of, other_of in *. cbn [foldl].
  destruct (estimateFragmentTokensHeuristic s) as [d o]. cbn in *. do 2 f_equal. lia.
Qed.

Lemma estimate_mono s t : dense_of s <= dense_of t -> other_of s <= other_of t ->
  estimateTextTokensHeuristic [s] <= estimateTextTokensHeuristic [t].
Proof.
  intros Hd Ho. rewrite !estimate_single. unfold ceil_div.
  assert (- (2 * dense_of t + other_of t) / HEURISTIC_BYTES_PER_TOKEN <= - (2 * dense_of s + other_of s) / HEURISTIC_BYTES_PER_TOKEN).
  { apply Z.div_le_mono; [done|lia]. }
  lia.
Qed.

Definition plain_char (c : N) : bool := negb (is_dense c) && negb (is_surrogate c).

Lemma plain_cost s : forallb plain_char s = true -> dense_of s = 0 /\ other_of s = Z.of_nat (length s).
Proof.
  intros Hs. unfold dense_of, other_of, estimateFragmentTokensHeuristic.
  assert (tokenDenseCharWeight s = (0, 0)) as ->; [|cbn; lia].
  induction s as [|c s IH]; [done|]. cbn in Hs. apply andb_true_iff in Hs as [Hc Hs]. cbn [tokenDenseCharWeight]. rewrite (IH Hs).
  unfold plain_char in Hc. apply andb_true_iff in Hc as [Hd Hu]. apply negb_true_iff in Hd, Hu. by rewrite Hd, Hu.
Qed.

Lemma digit_plain c : is_digit c = true -> plain_char c = true.
Proof.
  unfold is_digit. rewrite andb_true_iff, !N.leb_le. intros Hc.
  assert (Hall : forall k : nat, (k < 10)%nat -> plain_char (48 + N.of_nat k) = true).
  { intros k Hk. do 10 (destruct k as [|k]; [reflexivity|]). lia. }
  rewrite <- (Hall (N.to_nat (c - 48))) by lia. f_equal. lia.
Qed.

Lemma reference_plain a : isValidArtifactRef a = true -> forallb plain_char a = true.
Proof.
  unfold isValidArtifactRef. rewrite andb_true_iff. intros [Hs Hd]. apply starts_with_spec in Hs. rewrite Hs, forallb_app.
  apply andb_true_iff. split; [reflexivity|]. unfold all_digits in Hd. apply andb_true_iff in Hd as [_ Hd].
  rewrite forallb_forall in *. intros c Hc. by apply digit_plain, Hd.
Qed.

Lemma forallb_replicate {A} (p : A -> bool) x n : p x = true -> forallb p (replicate n x) = true.
Proof. intros Hp. induction n as [|n IH]; [done|]. cbn. by rewrite Hp. Qed.

Lemma dense_nonneg s : 0 <= dense_of s.
Proof.
  unfold dense_of, estimateFragmentTokensHeuristic. pose proof (weight_bounds s). destruct (tokenDenseCharWeight s). cbn in *. lia.
Qed.

Lemma literal_cost (s : string) : forallb plain_char (js s) = true -> dense_of (js s) = 0 /\ other_of (js s) = Z.of_nat (length (js s)).
Proof. apply plain_cost. Qed.

Lemma notice_text_cost tokens digest a n :
  forallb plain_char a = true -> (length a <= n)%nat -> (0 < n)%nat ->
  estimateTextTokensHeuristic [notice_text tokens digest a]
  <= estimateTextTokensHeuristic [notice_text tokens digest (replicate n 120%N)].
Proof.
  intros Ha Hn Hpos. destruct (plain_cost a Ha) as [Had Hao].
  destruct (plain_cost (replicate n 120%N)) as [Hxd Hxo]; [by apply forallb_replicate|]. rewrite length_replicate in Hxo.
  destruct n as [|n]; [lia|]. change (replicate (S n) 120%N) with (120%N :: replicate n 120%N) in *.
  set (x := replicate n 120%N) in *.
  destruct (literal_cost "]" eq_refl) as [L1 L1']. destruct (literal_cost " tokens]" eq_refl) as [L2 L2'].
  destruct (literal_cost " tokens; " eq_refl) as [L3 L3']. destruct (literal_cost " tokens; full output: " eq_refl) as [L4 L4'].
  destruct (literal_cost " " eq_refl) as [L5 L5'].
  change (Z.of_nat (length (js "]"))) with 1 in L1'. change (Z.of_nat (length (js " tokens]"))) with 8 in L2'.
  change (Z.of_nat (length (js " tokens; "))) with 9 in L3'. change (Z.of_nat (length (js " tokens; full output: "))) with 22 in L4'.
  change (Z.of_nat (length (js " "))) with 1 in L5'. pose proof (other_nonneg digest). pose proof (dense_nonneg digest).
  unfold notice_text, createGenericPrunedNotice. destruct a as [|c a].
  - destruct digest as [|d digest]; apply estimate_mono; rewrite ?app_nil_r, ?dense_app, ?other_app; lia.
  - apply estimate_mono; rewrite ?dense_app, ?other_app; cbn [length] in *; lia.
Qed.

(** ** Loops over entries *)

(** A loop from the first entry to the last keeps what every round keeps. *)
Lemma loop_forward {St} (entries : list SessionEntry) (f : St -> nat * SessionEntry -> St) (P : nat -> St -> Prop) st :
  P 0%nat st -> (forall n st e, P n st -> entries !! n = Some e -> P (S n) (f st (n, e))) ->
  P (length entries) (fold_left f (indexed entries) st).
Proof.
  intros H0 Hs. enough (Hg : forall es n st, drop n entries = es -> P n st ->
    P (n + length es)%nat (fold_left f (imap (fun k e => ((n + k)%nat, e)) es) st)) by exact (Hg entries 0%nat st eq_refl H0).
  clear st H0. induction es as [|e es IH]; intros n st Hd Hn; [by rewrite Nat.add_0_r|].
  assert (He : entries !! n = Some e) by (rewrite <- (Nat.add_0_r n), <- lookup_drop, Hd; done).
  assert (Hd' : drop (S n) entries = es) by (replace (S n) with (n + 1)%nat by lia; by rewrite <- drop_drop, Hd).
  cbn [length fold_left imap]. rewrite Nat.add_0_r, (imap_ext _ (fun k e => ((S n + k)%nat, e))) by (intros k x _; cbn; f_equal; lia).
  replace (n + S (length es))%nat with (S n + length es)%nat by lia. by apply IH, Hs.
Qed.

(** So does a loop from the last entry to the first. *)
Lemma loop_backward {St} (entries : list SessionEntry) (f : St -> nat * SessionEntry -> St) (P : nat -> St -> Prop) st :
  P (length entries) st -> (forall n st e, P (S n) st -> entries !! n = Some e -> P n (f st (n, e))) ->
  P 0%nat (fold_left f (rev (indexed entries)) st).
Proof.
  intros H0 Hs. rewrite <- fold_left_rev_right, rev_involutive.
  enough (Hg : forall es n, drop n entries = es -> (n + length es = length entries)%nat ->
    P n (foldr (fun ie st => f st ie) st (imap (fun k e => ((n + k)%nat, e)) es))) by by apply (Hg entries 0%nat).
  induction es as [|e es IH]; intros n Hd Hn; [cbn in Hn; rewrite Nat.add_0_r in Hn; by subst|].
  assert (He : entries !! n = Some e) by (rewrite <- (Nat.add_0_r n), <- lookup_drop, Hd; done).
  assert (Hd' : drop (S n) entries = es) by (replace (S n) with (n + 1)%nat by lia; by rewrite <- drop_drop, Hd).
  cbn [foldr imap]. rewrite Nat.add_0_r, (imap_ext _ (fun k e => ((S n + k)%nat, e))) by (intros k x _; cbn; f_equal; lia).
  apply Hs, He. apply IH; [done|]. cbn in Hn. lia.
Qed.

Section pruning.
Variable digestOf : ToolResult -> option ToolCall -> option jsstring.
Context `{Clock}.

Abbreviation with_note := (with_notice digestOf).

(** A valid reference within the budget saves no less than was planned. *)
Lemma with_notice_savings c artifact n :
  (forall a, artifact = Some a -> isValidArtifactRef a = true /\ (length a <= n)%nat) -> (0 < n)%nat ->
  ca_savings (with_note c (Some (replicate n 120%N))) <= ca_savings (with_note c artifact).
Proof.
  intros Ha Hn. unfold with_notice, estimatePrunedSavings, createPrunedNotice. cbn [ca_savings].
  pose proof (notice_text_cost (ca_tokens c) (truncateField (default [] (digestOf (ca_message c) (ca_call c))) DIGEST_TOTAL_MAX_CHARS)
                (default [] artifact) n) as Hc.
  change (default [] (Some (replicate n 120%N))) with (replicate n 120%N).
  assert (Hp : forallb plain_char (default [] artifact) = true /\ (length (default [] artifact) <= n)%nat).
  { destruct artifact as [a|]; [|split; [done|cbn; lia]]. destruct (Ha a eq_refl). split; [by apply reference_plain|done]. }
  specialize (Hc (proj1 Hp) (proj2 Hp) Hn). lia.
Qed.

Lemma with_notice_twice c a b : with_note (with_note c a) b = with_note c b.
Proof. done. Qed.

(** What planning made of a candidate. *)
Definition planned_from (n : Z) (p : Candidate) : Prop :=
  p = with_note p (if ca_complete p then artifact_budget n else None).

Lemma plan_planned n l p : p ∈ l ≫= plan_one digestOf n -> planned_from n p.
Proof.
  intros (c & Hin & _)%list_elem_of_bind. unfold plan_one in Hin.
  destruct (_ && _); [|by apply elem_of_nil in Hin]. apply list_elem_of_singleton in Hin as ->. unfold planned_from. done.
Qed.

Lemma with_artifacts_savings options n k planned final :
  artifactRefMaxChars options = Ok n -> Forall (planned_from n) planned ->
  with_artifacts digestOf options n k planned = Ok final ->
  sum_savings planned <= sum_savings final /\ Forall2 (fun p f => exists a, f = with_note p a) planned final.
Proof.
  intros Hn. revert k final. induction planned as [|p planned IH]; intros k final Hp E.
  - injection E as <-. split; [done|constructor].
  - apply Forall_cons in Hp as [Hp Hps]. cbn [with_artifacts] in E. cbn zeta in E.
    set (art := if ca_complete p then _ else None) in E.
    destruct (match art with Some a => negb (isValidArtifactRef a) | None => false end) eqn:E1; [done|].
    destruct (match art with Some a => n <? arr_len a | None => false end) eqn:E2; [done|].
    destruct (with_artifacts digestOf options n (S k) planned) as [rest|] eqn:Er; [|done]. injection E as <-.
    destruct (IH (S k) rest Hps Er) as [IH1 IH2]. split; [|constructor; [by eexists|done]].
    cbn [sum_savings foldr]. fold (sum_savings planned) (sum_savings rest).
    enough (ca_savings p <= ca_savings (with_note p art)) by (unfold sum_savings in *; lia).
    assert (Hart : forall a, art = Some a -> isValidArtifactRef a = true /\ arr_len a <= n).
    { intros a ->. apply negb_false_iff in E1. apply Z.ltb_ge in E2. done. }
    rewrite Hp at 1. destruct (ca_complete p) eqn:Ec.
    + unfold artifact_budget. destruct (Z.ltb_spec 0 n) as [Hpos|Hneg].
      * apply with_notice_savings; [|lia]. intros a Ea. destruct (Hart a Ea) as [? Hlen]. unfold arr_len in Hlen. split; [done|lia].
      * assert (art = None) as ->; [|lia]. destruct art as [a|]; [|done]. destruct (Hart a eq_refl) as [Hv Hlen].
        unfold isValidArtifactRef in Hv. unfold arr_len in Hlen. destruct a as [|x a]; [done|]. cbn in Hlen. lia.
    + unfold art. lia.
Qed.

(** ** Candidates *)

Definition result_tokens (entries : list SessionEntry) : Z :=
  foldr (fun e n => (match getToolResultMessage e with Some _ => estimateEntryTokens e | None => 0 end) + n) 0 entries.

(** What makes the output at [i] prunable. *)
Definition prunable (entries : list SessionEntry) (config : PruneConfig) (i : nat) (m : ToolResult) : Prop :=
  let stale := i ∈ buildStalenessIndex entries in
  to_prunedAt m = None
  /\ behind_fence (recentTurnFenceStart entries (default 2 (pc_protectRecentTurns config))) i = false
  /\ (stale \/ pc_protectTokens config <= result_tokens (drop (S i) entries))
  /\ (to_toolName m ∈ pc_protectedTools config -> stale /\ to_toolName m ∈ default [] (pc_staleOverridableTools config)).

Record candidate_ok (entries : list SessionEntry) (config : PruneConfig) (c : Candidate) : Prop := {
  cd_entry : entries !! ca_index c = Some (ca_entry c);
  cd_message : getToolResultMessage (ca_entry c) = Some (ca_message c);
  cd_tokens : ca_tokens c = estimateEntryTokens (ca_entry c);
  cd_text : (ca_originalText c, ca_complete c) = capturedTextContent (ca_message c);
  cd_prunable : prunable entries config (ca_index c) (ca_message c)
}.

Abbreviation collect config entries :=
  (collect_one digestOf config (buildStalenessIndex entries) (callsById entries)
     (recentTurnFenceStart entries (default 2 (pc_protectRecentTurns config)))).

Definition bounded_below (k : nat) (l : list Candidate) : Prop := forall c, c ∈ l -> (k <= ca_index c)%nat.

Lemma collect_one_ok entries config k e rest st :
  drop k entries = e :: rest -> st.1 = result_tokens rest ->
  Forall (candidate_ok entries config) st.2 -> NoDup (ca_index <$> st.2) -> bounded_below (S k) st.2 ->
  let st' := collect config entries st (k, e) in
  st'.1 = result_tokens (e :: rest) /\ Forall (candidate_ok entries config) st'.2 /\ NoDup (ca_index <$> st'.2) /\ bounded_below k st'.2.
Proof.
  destruct st as [acc l]. cbn [fst snd]. intros Hd -> Hok Hnd Hb.
  assert (Hb' : bounded_below k l) by (intros c Hc; specialize (Hb c Hc); lia).
  unfold collect_one. cbn [result_tokens foldr]. fold (result_tokens rest).
  destruct (getToolResultMessage e) as [m|] eqn:Em; [|cbn; split; [done|done]].
  assert (Hskip : let st' := (result_tokens rest + estimateEntryTokens e, l) in
     st'.1 = estimateEntryTokens e + result_tokens rest /\ Forall (candidate_ok entries config) st'.2
     /\ NoDup (ca_index <$> st'.2) /\ bounded_below k st'.2) by (cbn; split; [lia|done]).
  destruct (bool_decide (is_Some (to_prunedAt m)) || behind_fence _ k) eqn:E1; [exact Hskip|].
  destruct (((result_tokens rest <? _) && _) || _) eqn:E2; [exact Hskip|].
  destruct (capturedTextContent m) as [text complete] eqn:Et.
  destruct (_ || errorNoticeGrows _ _ _) eqn:E3; [exact Hskip|].
  apply orb_false_iff in E1 as [E1 Ef]. apply bool_decide_eq_false in E1. apply orb_false_iff in E2 as [E2 Ep].
  assert (Hk : entries !! k = Some e) by (by rewrite <- (Nat.add_0_r k), <- lookup_drop, Hd).
  cbn [fst snd]. split; [lia|]. split; [|split].
  - apply Forall_app_2; [done|]. apply Forall_singleton. split; cbn; [done|done|done|done|].
    split; [by apply eq_None_not_Some|]. split; [done|]. split.
    + apply andb_false_iff in E2 as [E2|E2].
      * right. apply Z.ltb_ge in E2. replace (S k) with (k + 1)%nat by lia. by rewrite <- drop_drop, Hd.
      * left. apply negb_false_iff, bool_decide_eq_true in E2. done.
    + intros Hprot. unfold is_protected in Ep. rewrite bool_decide_eq_true_2 in Ep by done. cbn in Ep.
      apply negb_false_iff, andb_true_iff in Ep as [H1 H2]. by apply bool_decide_eq_true in H1, H2.
  - rewrite fmap_app. apply NoDup_app. split; [done|]. split; [|apply NoDup_singleton].
    intros i (c & -> & Hc)%list_elem_of_fmap Hi%list_elem_of_singleton. specialize (Hb c Hc). cbn in Hi. lia.
  - intros c [Hc|Hc%list_elem_of_singleton]%elem_of_app; [by apply Hb'|]. by subst.
Qed.

Lemma collect_ok entries config :
  Forall (candidate_ok entries config) (collectToolOutputPruneCandidates digestOf entries config)
  /\ NoDup (ca_index <$> collectToolOutputPruneCandidates digestOf entries config).
Proof.
  destruct (loop_backward entries (collect config entries) (fun k st => st.1 = result_tokens (drop k entries)
    /\ Forall (candidate_ok entries config) st.2 /\ NoDup (ca_index <$> st.2) /\ bounded_below k st.2) (0, [])) as (_ & H2 & H3 & _).
  - rewrite drop_all. split; [done|]. split; [constructor|]. split; [by apply NoDup_nil|]. intros c Hc. by apply elem_of_nil in Hc.
  - intros k st e (H1 & H2 & H3 & H4) He. rewrite (drop_S entries e k He).
    by apply (collect_one_ok entries config k e (drop (S k) entries)); [apply drop_S| | | |].
  - done.
Qed.

(** ** The entries afterwards *)

Lemma sum_cons e entries : sum_tokens (e :: entries) = estimateEntryTokens e + sum_tokens entries.
Proof. done. Qed.

Lemma sum_insert entries i e e' : entries !! i = Some e ->
  sum_tokens (<[i := e']> entries) = sum_tokens entries - estimateEntryTokens e + estimateEntryTokens e'.
Proof.
  revert i. induction entries as [|x entries IH]; intros [|i] Hi; try done.
  - injection Hi as ->. change (<[0%nat := e']> (e :: entries)) with (e' :: entries). rewrite !sum_cons. lia.
  - cbn in Hi. change (<[S i := e']> (x :: entries)) with (x :: <[i := e']> entries). rewrite !sum_cons, (IH i Hi). lia.
Qed.

Lemma notice_nonempty tokens m c a : createPrunedNotice digestOf tokens m c a <> [].
Proof. unfold createPrunedNotice, notice_text, createGenericPrunedNotice. by repeat case_match. Qed.

Lemma pruned_tokens now n e m : getToolResultMessage e = Some m -> n <> [] ->
  estimateEntryTokens (pruned_entry now n e) = estimateTextTokensHeuristic [n].
Proof.
  unfold getToolResultMessage, pruned_entry. destruct (se_body e) as [msg| | | | | | | | | | | | | | |] eqn:E; try done. destruct msg; try done. intros _ Hn.
  unfold estimateEntryTokens, getMessageFromEntry. cbn [se_body]. unfold countCollectedMessageFragments, collectMessageFragments.
  cbn [co_fragments co_extra]. replace (omap nonempty_text [TextBlock n]) with [n].
  - change (image_count [TextBlock n]) with 0. lia.
  - cbn [omap list_omap nonempty_text]. by rewrite bool_decide_eq_false_2.
Qed.

(** A candidate with the notice that is put in its place. *)
Definition final_ok (entries : list SessionEntry) (config : PruneConfig) (c : Candidate) : Prop :=
  candidate_ok entries config c /\ ca_notice c <> [] /\ ca_savings c = estimatePrunedSavings (ca_tokens c) (ca_notice c).

Lemma with_notice_ok entries config c a : candidate_ok entries config c -> final_ok entries config (with_note c a).
Proof. intros []. split; [by split|]. split; [apply notice_nonempty|done]. Qed.

Lemma plan_ok entries config n l : Forall (candidate_ok entries config) l -> NoDup (ca_index <$> l) ->
  Forall (candidate_ok entries config) (l ≫= plan_one digestOf n) /\ NoDup (ca_index <$> (l ≫= plan_one digestOf n))
  /\ (forall i, i ∈ ca_index <$> (l ≫= plan_one digestOf n) -> i ∈ ca_index <$> l).
Proof.
  induction l as [|c l IH]; intros Hok Hnd; [done|]. apply Forall_cons in Hok as [Hc Hok].
  cbn in Hnd. apply NoDup_cons in Hnd as [Hni Hnd]. destruct (IH Hok Hnd) as (H1 & H2 & H3).
  cbn [mbind list_bind]. assert (Hp : plan_one digestOf n c = [] \/ exists a, plan_one digestOf n c = [with_note c a]).
  { unfold plan_one. destruct (_ && _); [right; by eexists|by left]. }
  destruct Hp as [->|[a ->]]; cbn [app]; [split; [done|]; split; [done|]; intros i Hi; right; by apply H3|].
  split; [|split].
  - constructor; [|done]. by apply (with_notice_ok entries config c a).
  - cbn. apply NoDup_cons. split; [|done]. intros Hin. apply Hni. by apply H3.
  - cbn. intros i [->|Hi]%elem_of_cons; [by left|]. right. by apply H3.
Qed.

Lemma final_list_ok entries config planned final :
  Forall (candidate_ok entries config) planned -> Forall2 (fun p f => exists a, f = with_note p a) planned final ->
  Forall (final_ok entries config) final /\ ca_index <$> final = ca_index <$> planned.
Proof.
  intros Hp Hf. induction Hf as [|p f planned final [a ->] _ IH]; [split; [constructor|done]|].
  apply Forall_cons in Hp as [Hp Hps]. destruct (IH Hps) as [IH1 IH2]. split; [constructor; [by apply with_notice_ok|done]|].
  cbn. by f_equal.
Qed.

Lemma prune_all_ok entries config now final : Forall (final_ok entries config) final -> NoDup (ca_index <$> final) ->
  forall cur, (forall c, c ∈ final -> cur !! ca_index c = Some (ca_entry c)) ->
  let after := fold_left (prune_candidate now) final cur in
  length after = length cur /\ sum_tokens after + sum_savings final = sum_tokens cur
  /\ (forall i, i ∉ ca_index <$> final -> after !! i = cur !! i)
  /\ (forall c, c ∈ final -> after !! ca_index c = Some (pruned_entry now (ca_notice c) (ca_entry c))).
Proof.
  induction final as [|c final IH]; intros Hf Hnd cur Hcur.
  - cbn [fold_left]. change (sum_savings []) with 0. split; [done|]. split; [lia|]. split; [done|].
    intros c Hc. by apply elem_of_nil in Hc.
  - apply Forall_cons in Hf as [(Hc & Hne & Hs) Hf]. cbn in Hnd. apply NoDup_cons in Hnd as [Hni Hnd].
    assert (Hcc : cur !! ca_index c = Some (ca_entry c)) by (apply Hcur; by left).
    assert (Hother : forall c', c' ∈ final -> ca_index c' <> ca_index c).
    { intros c' Hin E. apply Hni. rewrite <- E. by apply list_elem_of_fmap_2. }
    destruct (IH Hf Hnd (prune_candidate now cur c)) as (H1 & H2 & H3 & H4).
    { intros c' Hin. unfold prune_candidate. rewrite list_lookup_insert_ne by (by apply not_eq_sym, Hother). apply Hcur. by right. }
    cbn [fold_left]. cbn zeta. set (next := prune_candidate now cur c) in *.
    assert (Hnext : next = <[ca_index c := pruned_entry now (ca_notice c) (ca_entry c)]> cur) by done.
    assert (length next = length cur) as Hlen by (by rewrite Hnext, length_insert). rewrite Hlen in H1.
    split; [done|]. split; [|split].
    + rewrite Hnext, (sum_insert cur _ (ca_entry c)) in H2 by done. rewrite <- Hnext in H2.
      rewrite (pruned_tokens now _ _ (ca_message c)) in H2 by (done || apply Hc). cbn [sum_savings foldr].
      rewrite <- (cd_tokens _ _ _ Hc) in H2. unfold estimatePrunedSavings in Hs. unfold sum_savings in *. lia.
    + intros i Hi. cbn in Hi. apply not_elem_of_cons in Hi as [Hi1 Hi2]. rewrite H3, Hnext by done. by rewrite list_lookup_insert_ne.
    + intros c' [->|Hin]%elem_of_cons; [|by apply H4]. rewrite H3, Hnext by done.
      apply list_lookup_insert_eq. by apply lookup_lt_Some in Hcc.
Qed.

(** What a successful call did, when it pruned anything. *)
Lemma prune_outcome now entries config options after r :
  pruneToolOutputs digestOf now entries config options = Ok (after, r) ->
  (after = entries /\ r = nothing_pruned)
  \/ exists planned final n,
      planToolOutputPruneCandidates digestOf (collectToolOutputPruneCandidates digestOf entries config) options = Ok planned
      /\ artifactRefMaxChars options = Ok n /\ with_artifacts digestOf options n 0 planned = Ok final
      /\ Forall (final_ok entries config) final /\ NoDup (ca_index <$> final)
      /\ planned <> [] /\ minimumSavings config options <= sum_savings planned <= sum_savings final
      /\ after = fold_left (prune_candidate now) final entries
      /\ r = mkPruned (length final) (sum_savings final) (original_of <$> planned) (ca_index <$> final).
Proof.
  unfold pruneToolOutputs. destruct (_ || bool_decide (collectToolOutputPruneCandidates _ _ _ = [])); [intros [= <- <-]; by left|].
  unfold planToolOutputPruneCandidates. destruct (artifactRefMaxChars options) as [n|] eqn:En; [|done].
  set (cands := collectToolOutputPruneCandidates digestOf entries config). set (planned := cands ≫= plan_one digestOf n).
  destruct ((sum_savings planned <? _) || bool_decide (planned = [])) eqn:E2; [intros [= <- <-]; by left|].
  destruct (with_artifacts digestOf options n 0 planned) as [final|] eqn:Ew; [|done].
  destruct (sum_savings final <? _) eqn:E3; [done|]. intros [= <- <-]. right.
  destruct (collect_ok entries config) as [Hc Hnd]. destruct (plan_ok entries config n cands Hc Hnd) as (Hp & Hpnd & _).
  destruct (with_artifacts_savings options n 0 planned final En) as [Hs Hf]; [|done|].
  { apply Forall_forall. intros p Hin. by apply (plan_planned n cands). }
  destruct (final_list_ok entries config planned final Hp Hf) as [Hfin Hidx]. apply orb_false_iff in E2 as [E2 E2'].
  exists planned, final, n. split; [done|]. split; [done|]. split; [done|]. split; [done|]. split; [by rewrite Hidx|].
  split; [by apply bool_decide_eq_false in E2'|]. split; [apply Z.ltb_ge in E2; lia|done].
Qed.

(** C26: pruning does what it reports.  When a call succeeds, the entries keep their number and places;
    the tokens reported as saved are exactly what the estimate of the entries lost; an entry that is
    not listed is unchanged; a listed one is a tool result with the notice for its content, its
    original text is among the originals, and it was prunable: not pruned before, not in a
    recent turn, stale or behind enough newer output, and not of a protected tool unless stale. *)
Theorem prune_exact now entries config options after r :
  pruneToolOutputs digestOf now entries config options = Ok (after, r) ->
  length after = length entries /\ sum_tokens after + pr_tokensSaved r = sum_tokens entries
  /\ NoDup (pr_prunedIndices r) /\ pr_prunedCount r = length (pr_prunedIndices r)
  /\ (forall i, i ∉ pr_prunedIndices r -> after !! i = entries !! i)
  /\ (forall i, i ∈ pr_prunedIndices r -> exists e m note,
        entries !! i = Some e /\ getToolResultMessage e = Some m /\ after !! i = Some (pruned_entry now note e)
        /\ prunable entries config i m
        /\ mkOriginal (se_id e) (to_toolName m) (capturedTextContent m).1 (estimateEntryTokens e) (capturedTextContent m).2
           ∈ pr_originals r).
Proof.
  intros [[-> ->]|(planned & final & n & Hplan & Hn & Hw & Hfin & Hnd & _ & _ & -> & ->)]%prune_outcome.
  - cbn. split; [done|]. split; [lia|]. split; [by apply NoDup_nil|]. split; [done|]. split; [done|]. intros i Hi. by apply elem_of_nil in Hi.
  - destruct (prune_all_ok entries config now final Hfin Hnd entries) as (H1 & H2 & H3 & H4).
    { intros c Hc. rewrite Forall_forall in Hfin. by apply (Hfin c Hc). }
    cbn [pr_tokensSaved pr_prunedIndices pr_prunedCount pr_originals]. split; [done|]. split; [done|]. split; [done|].
    split; [by rewrite length_fmap|]. split; [done|]. intros i (c & -> & Hc)%list_elem_of_fmap.
    rewrite Forall_forall in Hfin. destruct (Hfin c Hc) as ([Hce Hcm Hct Hcx Hcp] & _ & _).
    exists (ca_entry c), (ca_message c), (ca_notice c). split; [done|]. split; [done|]. split; [by apply H4|]. split; [done|].
    rewrite <- Hcx, <- Hct. cbn [fst snd].
    assert (Hf2 : Forall2 (fun p f => exists a, f = with_note p a) planned final).
    { unfold planToolOutputPruneCandidates in Hplan. rewrite Hn in Hplan. injection Hplan as <-.
      eapply with_artifacts_savings; [done| |done]. apply Forall_forall. intros p Hin. by eapply plan_planned. }
    apply list_elem_of_lookup in Hc as [k Hk]. destruct (Forall2_lookup_r _ _ _ _ _ Hf2 Hk) as (p & Hp & [a ->]).
    apply list_elem_of_lookup_2 in Hp. exact (list_elem_of_fmap_2 original_of planned p Hp).
Qed.

(** C27: a plan is never better than its execution.  Whatever references the caller hands out, an execution
    does not fail because the savings fall below the estimate; and where both succeed, as many outputs
    are pruned as estimated and at least as many tokens saved. *)
Theorem prune_estimate_conservative now entries config options :
  pruneToolOutputs digestOf now entries config options <> Err SavingsBelowEstimate
  /\ forall after r count saved,
      pruneToolOutputs digestOf now entries config options = Ok (after, r) ->
      estimateToolOutputPruneSavings digestOf entries config options = Ok (count, saved) ->
      pr_prunedCount r = count /\ saved <= pr_tokensSaved r.
Proof.
  unfold pruneToolOutputs, estimateToolOutputPruneSavings, planToolOutputPruneCandidates.
  set (cands := collectToolOutputPruneCandidates digestOf entries config).
  destruct (_ || bool_decide (cands = [])); [split; [done|]; by intros ???? [= <- <-] [= <- <-]|].
  destruct (artifactRefMaxChars options) as [n|err] eqn:En.
  2:{ split; [|done]. intros [= ->]. unfold artifactRefMaxChars in En. repeat case_match; done. }
  set (planned := cands ≫= plan_one digestOf n).
  destruct ((sum_savings planned <? _) || bool_decide (planned = [])) eqn:E2; [split; [done|]; by intros ???? [= <- <-] [= <- <-]|].
  destruct (with_artifacts digestOf options n 0 planned) as [final|err] eqn:Ew.
  - destruct (with_artifacts_savings options n 0 planned final En) as [Hs Hf]; [|done|].
    { apply Forall_forall. intros p Hin. by apply (plan_planned n cands). }
    apply orb_false_iff in E2 as [E2 _]. apply Z.ltb_ge in E2. rewrite (proj2 (Z.ltb_ge _ _)) by lia.
    split; [done|]. intros ???? [= <- <-] [= <- <-]. cbn. split; [|done]. symmetry. by eapply Forall2_length.
  - split; [|done]. intros [= ->]. clear -Ew. revert Ew. generalize 0%nat.
    induction planned as [|p l IH]; intros k E; [done|]. cbn [with_artifacts] in E. cbn zeta in E. repeat case_match; simplify_eq; by eapply IH.
Qed.

End pruning.

(** ** Groups *)

Section grouping.
Context {K A : Type} `{EqDecision K} (key : A -> option K).

Definition of_key (k : K) (l : list A) : list A := List.filter (fun x => bool_decide (key x = Some k)) l.

(** The groups are the non-empty classes of a list, each in its order. *)
Definition groups_ok (l : list A) (groups : list (K * list A)) : Prop :=
  NoDup groups.*1 /\ forall k ms, (k, ms) ∈ groups <-> ms = of_key k l /\ ms <> [].

Lemma group_add_keys (k : K) (x : A) groups : (group_add k x groups).*1 = if bool_decide (k ∈ groups.*1) then groups.*1 else groups.*1 ++ [k].
Proof.
  induction groups as [|[k' ms] groups IH]; [done|]. cbn [group_add]. destruct (bool_decide_reflect (k' = k)) as [->|E].
  - cbn. by rewrite bool_decide_true by set_solver.
  - cbn. rewrite IH. case_bool_decide as E1; case_bool_decide as E2; try done; set_solver.
Qed.

Lemma group_add_other (k : K) (x : A) groups k' ms : k' <> k -> (k', ms) ∈ group_add k x groups <-> (k', ms) ∈ groups.
Proof.
  intros Hne. induction groups as [|[k0 ms0] groups IH]; cbn [group_add]; [set_solver|].
  case_bool_decide as E; [subst k0|]; rewrite !elem_of_cons; [|by rewrite IH]. split; (intros [[=]|]; [done|by right]).
Qed.

Lemma group_add_same (k : K) (x : A) groups ms : NoDup groups.*1 ->
  (k, ms) ∈ group_add k x groups <-> exists ms0, ms = ms0 ++ [x] /\ ((k, ms0) ∈ groups \/ (ms0 = [] /\ k ∉ groups.*1)).
Proof.
  induction groups as [|[k0 ms0] groups IH]; intros Hnd; cbn [group_add].
  - rewrite list_elem_of_singleton. split; [intros [= ->]; exists []; split; [done|right; split; [done|set_solver]]|].
    intros (ms0 & -> & [Hin|[-> _]]); [by apply elem_of_nil in Hin|done].
  - cbn in Hnd. apply NoDup_cons in Hnd as [Hk Hnd]. case_bool_decide as E.
    + subst k0. rewrite elem_of_cons. split.
      * intros [[= ->]|Hin]; [exists ms0; split; [done|left; set_solver]|]. destruct Hk. by apply (list_elem_of_fmap_2 fst _ (k, ms)).
      * intros (m0 & -> & [[[= ->]|Hin]%elem_of_cons|[_ Hno]]); [by left| |set_solver].
        destruct Hk. by apply (list_elem_of_fmap_2 fst _ (k, m0)).
    + rewrite elem_of_cons, IH by done. split.
      * intros [[= ->]|(m0 & -> & [?|[-> ?]])]; [done| |]; [exists m0|exists []]; (split; [done|]); set_solver.
      * intros (m0 & -> & [[[= ->]|Hin]%elem_of_cons|[-> Hno]]); [done| |]; right; [exists m0|exists []]; (split; [done|]); set_solver.
Qed.

Lemma of_key_snoc k l x : of_key k (l ++ [x]) = of_key k l ++ (if bool_decide (key x = Some k) then [x] else []).
Proof. unfold of_key. by rewrite List.filter_app. Qed.

Lemma elem_of_of_key k l x : x ∈ of_key k l <-> x ∈ l /\ key x = Some k.
Proof. unfold of_key. by rewrite list_elem_of_In, filter_In, <- list_elem_of_In, bool_decide_eq_true. Qed.

Lemma group_of_key l groups k : groups_ok l groups -> k ∈ groups.*1 <-> of_key k l <> [].
Proof.
  intros [_ Hg]. rewrite list_elem_of_fmap. split.
  - intros ([k' ms] & -> & Hin). apply Hg in Hin as [E ?]; cbn; congruence.
  - intros Hne. exists (k, of_key k l). split; [done|]. by apply Hg.
Qed.

Lemma groups_step l groups x k : groups_ok l groups -> key x = Some k -> groups_ok (l ++ [x]) (group_add k x groups).
Proof.
  intros Hok Hx. pose proof (group_of_key l groups k Hok) as Hkey. destruct Hok as [Hnd Hg]. split.
  - rewrite group_add_keys. case_bool_decide as E; [done|]. apply NoDup_app. split; [done|]. split; [set_solver|apply NoDup_singleton].
  - intros k' ms. rewrite of_key_snoc, Hx. destruct (decide (k' = k)) as [->|Hne].
    + rewrite group_add_same, bool_decide_true by done. split.
      * intros (ms0 & -> & [Hin|[-> Hno]]); (split; [|by destruct ms0 || done]); f_equal; [by apply Hg in Hin as [-> _]|].
        destruct (of_key k l) eqn:E; [done|]. destruct Hno. by apply Hkey.
      * intros [-> _]. exists (of_key k l). split; [done|]. destruct (decide (of_key k l = [])) as [E|E]; [|left; by apply Hg].
        right. split; [done|]. intros Hin%Hkey. done.
    + rewrite group_add_other by done. rewrite bool_decide_false by congruence. by rewrite app_nil_r, Hg.
Qed.

Definition fold_groups (l : list A) : list (K * list A) :=
  fold_left (fun g x => match key x with Some k => group_add k x g | None => g end) l [].

Lemma groups_fold l : groups_ok l (fold_groups l).
Proof.
  unfold fold_groups. induction l as [|x l IH] using rev_ind.
  - split; [constructor|]. intros k ms. cbn. rewrite elem_of_nil. split; [done|]. intros [-> Hne]. done.
  - rewrite fold_left_app. cbn [fold_left]. destruct (key x) as [k|] eqn:E; [by apply groups_step|].
    destruct IH as [Hnd Hg]. split; [done|]. intros k ms. by rewrite of_key_snoc, E, bool_decide_false, app_nil_r, Hg by done.
Qed.

Lemma groups_fold_ext (f : list (K * list A) -> A -> list (K * list A)) l :
  (forall g x, match key x with Some k => group_add k x g | None => g end = f g x) -> fold_groups l = fold_left f l [].
Proof. intros Hf. unfold fold_groups. generalize (@nil (K * list A)). induction l as [|x l IH]; intros g; [done|]. cbn. by rewrite Hf, IH. Qed.

End grouping.

(** ** Stale results *)

Section staleness.
Variable entries : list SessionEntry.

(** The entry at [i] is the result [m] of the call [c]. *)
Definition result_at (i : nat) (c : ToolCall) (m : ToolResult) : Prop :=
  exists e, entries !! i = Some e /\ getToolResultMessage e = Some m /\ callsById entries !! to_toolCallId m = Some c.

(** The files that the result of a call shows to be changed. *)
Definition touched (c : ToolCall) (m : ToolResult) : list jsstring :=
  applied_paths c m
  ++ (if to_isError m then [] else if bool_decide (tc_name c ∈ EDIT_TOOL_NAMES) then edited_paths c m else []).

Lemma result_at_fun i c m c' m' : result_at i c m -> result_at i c' m' -> c = c' /\ m = m'.
Proof. intros (e & E1 & E2 & E3) (e' & E1' & E2' & E3'). simplify_eq. done. Qed.

Lemma set_paths_lookup i ps m p : set_all i ps m !! p = if bool_decide (p ∈ ps) then Some i else m !! p.
Proof.
  unfold set_all. revert m. induction ps as [|q ps IH]; intros m; [done|]. cbn [fold_left]. rewrite IH.
  case_bool_decide as E1; case_bool_decide as E2; try done; [set_solver| |].
  - apply elem_of_cons in E2 as [->|]; [by rewrite lookup_insert_eq|done].
  - rewrite lookup_insert_ne; [done|set_solver].
Qed.

Lemma sorted_snoc (l : list ResultMeta) y : StronglySorted (fun x y => rm_index x < rm_index y)%nat l ->
  (forall x, x ∈ l -> (rm_index x < rm_index y)%nat) -> StronglySorted (fun x y => rm_index x < rm_index y)%nat (l ++ [y]).
Proof.
  intros Hs Hy. apply StronglySorted_app. split; [intros x z Hx ->%list_elem_of_singleton; by apply Hy|]. split; [done|repeat constructor].
Qed.

Record scan_ok (n : nat) (st : scan_state) : Prop := {
  sk_meta x : x ∈ ss_resultMeta st <-> (rm_index x < n)%nat /\ result_at (rm_index x) (rm_call x) (rm_message x)
                /\ to_isError (rm_message x) = false /\ rm_key x = toolTargetKey (rm_call x);
  sk_sorted : StronglySorted (fun x y => rm_index x < rm_index y)%nat (ss_resultMeta st);
  sk_key1 k j : ss_lastResultIndexByKey st !! k = Some j ->
    exists x, x ∈ ss_resultMeta st /\ rm_index x = j /\ rm_key x = Some k;
  sk_key2 x k : x ∈ ss_resultMeta st -> rm_key x = Some k ->
    exists j, ss_lastResultIndexByKey st !! k = Some j /\ (rm_index x <= j)%nat;
  sk_edit1 p j : ss_lastEditIndexByPath st !! p = Some j ->
    (j < n)%nat /\ exists (c : ToolCall) (m : ToolResult), result_at j c m /\ p ∈ touched c m;
  sk_edit2 j c m p : (j < n)%nat -> result_at j c m -> p ∈ touched c m ->
    exists j', ss_lastEditIndexByPath st !! p = Some j' /\ (j <= j')%nat
}.

(** An entry that is no result of a known call changes nothing. *)
Lemma scan_skip n st : scan_ok n st -> (forall c m, ~ result_at n c m) -> scan_ok (S n) st.
Proof.
  intros [H1 H2 H3 H4 H5 H6] Hno. split; try done.
  - intros x. rewrite H1. split; [intros (? & ? & ?); split; [lia|done]|]. intros (Hlt & Hr & ?).
    destruct (decide (rm_index x = n)) as [E|]; [rewrite E in Hr; by destruct (Hno _ _ Hr)|]. split; [lia|done].
  - intros p j Hj. destruct (H5 p j Hj) as [? ?]. split; [lia|done].
  - intros j c m p Hlt Hr Hp. destruct (decide (j = n)) as [->|]; [by destruct (Hno _ _ Hr)|]. apply (H6 j c m p); [lia|done|done].
Qed.

(** The edits after a result. *)
Lemma edits_step (n : nat) (st : scan_state) (c : ToolCall) (m : ToolResult) (edits : gmap jsstring nat) : scan_ok n st -> result_at n c m ->
  (forall p, edits !! p = if bool_decide (p ∈ touched c m) then Some n else ss_lastEditIndexByPath st !! p) ->
  (forall p j, edits !! p = Some j -> (j < S n)%nat /\ exists (c0 : ToolCall) (m0 : ToolResult), result_at j c0 m0 /\ p ∈ touched c0 m0)
  /\ (forall j c' m' p, (j < S n)%nat -> result_at j c' m' -> p ∈ touched c' m' -> exists j', edits !! p = Some j' /\ (j <= j')%nat).
Proof.
  intros Hok Hr He. split.
  - intros p j. rewrite He. case_bool_decide as E; [intros [= <-]; split; [lia|by exists c, m]|].
    intros Hj. destruct (sk_edit1 n st Hok p j Hj) as [? ?]. split; [lia|done].
  - intros j c' m' p Hlt Hr' Hp. rewrite He. case_bool_decide as E; [exists n; split; [done|lia]|].
    destruct (decide (j = n)) as [->|Hne].
    + destruct (result_at_fun _ _ _ _ _ Hr Hr') as [-> ->]. done.
    + apply (sk_edit2 n st Hok j c' m' p); [lia|done|done].
Qed.

Lemma scan_step n st e : scan_ok n st -> entries !! n = Some e -> scan_ok (S n) (scan_entry (callsById entries) st (n, e)).
Proof.
  intros Hok Hn. unfold scan_entry. destruct (getToolResultMessage e) as [m|] eqn:Em.
  2:{ apply scan_skip; [done|]. intros c m (e' & E1 & E2 & _). congruence. }
  destruct (callsById entries !! to_toolCallId m) as [c|] eqn:Ec.
  2:{ apply scan_skip; [done|]. intros c m' (e' & E1 & E2 & E3). congruence. }
  assert (Hr : result_at n c m) by by exists e. cbn zeta.
  assert (Hold : forall x, x ∈ ss_resultMeta st -> (rm_index x < n)%nat) by (intros x Hx; by apply (sk_meta n st Hok)).
  destruct (to_isError m) eqn:Eerr.
  - destruct (edits_step n st c m (set_all n (applied_paths c m) (ss_lastEditIndexByPath st)) Hok Hr) as [He1 He2].
    { intros p. rewrite set_paths_lookup. unfold touched. rewrite Eerr, app_nil_r. done. }
    destruct Hok as [H1 H2 H3 H4 H5 H6]. split; cbn; try done. intros x. rewrite H1.
    split; [intros (? & ? & ?); split; [lia|done]|]. intros (Hlt & Hx & Hne & ?). split; [|done].
    destruct (decide (rm_index x = n)) as [E|]; [|lia]. rewrite E in Hx. destruct (result_at_fun _ _ _ _ _ Hr Hx) as [_ ->]. congruence.
  - match goal with |- scan_ok _ (mkScan _ _ ?ed) => destruct (edits_step n st c m ed Hok Hr) as [He1 He2] end.
    { intros p. unfold touched. rewrite Eerr. case_bool_decide as Ei.
      - rewrite !set_paths_lookup. repeat case_bool_decide; set_solver.
      - rewrite set_paths_lookup, app_nil_r. done. }
    set (x0 := mkMeta n (toolTargetKey c) c m). destruct Hok as [H1 H2 H3 H4 H5 H6].
    split; cbn [ss_resultMeta ss_lastResultIndexByKey ss_lastEditIndexByPath]; [| | | |done|done].
    + intros x. rewrite elem_of_app, list_elem_of_singleton, H1. split.
      * intros [(? & ? & ?)| ->]; [split; [lia|done]|]. cbn. split; [lia|done].
      * intros (Hlt & Hx & Hne & Hk). destruct (decide (rm_index x = n)) as [E|]; [|left; split; [lia|done]]. right.
        rewrite E in Hx. destruct (result_at_fun _ _ _ _ _ Hr Hx) as [Ec' Em']. destruct x. cbn in *. unfold x0. by subst.
    + apply sorted_snoc; [done|]. intros x Hx. by apply Hold.
    + intros k j Hj. destruct (toolTargetKey c) as [k0|] eqn:Ek.
      * apply lookup_insert_Some in Hj as [[<- <-]|[Hne Hj]]; [exists x0; split; [set_solver|]; unfold x0; cbn; done|].
        destruct (H3 k j Hj) as (x & Hx & ?). exists x. set_solver.
      * destruct (H3 k j Hj) as (x & Hx & ?). exists x. set_solver.
    + intros x k [Hx|Hx%list_elem_of_singleton]%elem_of_app Hk.
      * destruct (H4 x k Hx Hk) as (j & Hj & Hle). destruct (toolTargetKey c) as [k0|]; [|by exists j].
        destruct (decide (k0 = k)) as [->|]; [exists n; rewrite lookup_insert_eq; split; [done|specialize (Hold x Hx); lia]|].
        exists j. by rewrite lookup_insert_ne.
      * subst x. unfold x0 in Hk. cbn in Hk. rewrite Hk. exists n. by rewrite lookup_insert_eq.
Qed.

Lemma scan_entries_ok : scan_ok (length entries) (scan_entries entries).
Proof.
  apply (loop_forward entries _ scan_ok); [|intros; by apply scan_step]. split; cbn; try done; try lia.
  - intros x. rewrite elem_of_nil. split; [done|lia].
  - constructor.
  - intros x k Hx. by apply elem_of_nil in Hx.
Qed.

(** *** Grouping *)

Definition base_of (x : ResultMeta) : option jsstring := if is_read x then readBasePath <$> toolCallPath (rm_call x) else None.

Lemma readsByBasePath_ok l : groups_ok base_of l (readsByBasePath l).
Proof.
  unfold readsByBasePath. rewrite <- (groups_fold_ext base_of); [apply groups_fold|].
  intros g x. unfold base_of. destruct (is_read x); [|done]. by destruct (toolCallPath (rm_call x)).
Qed.

(** *** Containment *)

Lemma contained_reads_spec l i : StronglySorted (fun x y => rm_index x < rm_index y)%nat l ->
  i ∈ contained_reads l <-> exists x y, x ∈ l /\ y ∈ l /\ rm_index x = i /\ (i < rm_index y)%nat /\ readSupersedesRead (rm_call y) (rm_call x) = true.
Proof.
  induction 1 as [|x l Hs IH Hx]; cbn [contained_reads].
  { rewrite elem_of_nil. split; [done|]. intros (x & y & Hin & _). by apply elem_of_nil in Hin. }
  rewrite Forall_forall in Hx. rewrite elem_of_app, IH. split.
  - intros [Hin|(a & b & Ha & Hb & ?)]; [|exists a, b; set_solver].
    destruct (existsb _ l) eqn:E; [|by apply elem_of_nil in Hin]. apply list_elem_of_singleton in Hin as ->.
    apply existsb_exists in E as (y & Hy%list_elem_of_In & Hc). exists x, y. split; [set_solver|]. split; [set_solver|]. auto.
  - intros (a & b & [->|Ha]%elem_of_cons & [->|Hb]%elem_of_cons & <- & Hlt & Hc); [lia| |specialize (Hx a Ha); lia|right; by exists a, b].
    left. rewrite (proj2 (existsb_exists _ l)); [set_solver|]. exists b. split; [by apply list_elem_of_In|done].
Qed.

Lemma sorted_filter (f : ResultMeta -> bool) l : StronglySorted (fun x y => rm_index x < rm_index y)%nat l ->
  StronglySorted (fun x y => rm_index x < rm_index y)%nat (List.filter f l).
Proof.
  induction 1 as [|x l Hs IH Hx]; cbn; [constructor|]. destruct (f x); [|done]. constructor; [done|].
  rewrite Forall_forall in *. intros y Hy%list_elem_of_In%filter_In. apply Hx, list_elem_of_In, Hy.
Qed.

(** *** The reference *)

(** A later result answers the same question. *)
Definition answered_again (i : nat) (c : ToolCall) : Prop :=
  exists j c' m' k, (i < j)%nat /\ result_at j c' m' /\ to_isError m' = false /\ toolTargetKey c = Some k /\ toolTargetKey c' = Some k.

(** A file that was read is changed later; edits may name it as the call did or as the result resolved it. *)
Definition changed_later (i : nat) (c : ToolCall) (m : ToolResult) : Prop :=
  tc_name c = js "read" /\
  exists j c' m' p, (i < j)%nat /\ result_at j c' m' /\ p ∈ touched c' m'
    /\ ((exists arg, toolCallPath c = Some arg /\ p = readBasePath arg) \/ readResolvedPath m = Some p).

(** The one range that was read lies in the one range of a later read of the same file. *)
Definition read_in_larger (i : nat) (c : ToolCall) : Prop :=
  exists j c' m' arg arg' r r', (i < j)%nat /\ result_at j c' m' /\ to_isError m' = false
    /\ tc_name c = js "read" /\ tc_name c' = js "read"
    /\ toolCallPath c = Some arg /\ toolCallPath c' = Some arg' /\ readBasePath arg' = readBasePath arg
    /\ readLineRanges arg = [r] /\ readLineRanges arg' = [r'] /\ strictlyContainsReadRange r' r = true.

Lemma later_in_spec m k i : later_in m k i = true <-> exists j, m !! k = Some j /\ (i < j)%nat.
Proof. unfold later_in. destruct (m !! k) as [j|]; [rewrite Nat.ltb_lt|]; split; [eauto|by intros (? & [= ->] & ?)|done|by intros (? & ? & ?)]. Qed.

Lemma lookupPaths_spec x p : p ∈ lookupPaths x <->
  (exists arg, toolCallPath (rm_call x) = Some arg /\ p = readBasePath arg) \/ readResolvedPath (rm_message x) = Some p.
Proof.
  unfold lookupPaths. rewrite elem_of_app. destruct (toolCallPath (rm_call x)), (readResolvedPath (rm_message x));
    rewrite ?list_elem_of_singleton, ?elem_of_nil; naive_solver.
Qed.

Lemma supersedes_spec c' c : readSupersedesRead c' c = true <->
  exists arg arg' r r', toolCallPath c = Some arg /\ toolCallPath c' = Some arg' /\ readLineRanges arg = [r] /\ readLineRanges arg' = [r']
    /\ strictlyContainsReadRange r' r = true.
Proof.
  unfold readSupersedesRead, call_ranges. split; [|by intros (? & ? & ? & ? & -> & -> & -> & -> & ?)].
  destruct (toolCallPath c') as [arg'|]; [|done]. destruct (readLineRanges arg') as [|r' [|? ?]] eqn:E'; try done.
  destruct (toolCallPath c) as [arg|]; [|done]. destruct (readLineRanges arg) as [|r [|? ?]] eqn:E; try done.
  intros Hc. by exists arg, arg', r, r'.
Qed.

Lemma base_of_spec x k : base_of x = Some k <-> tc_name (rm_call x) = js "read" /\ exists arg, toolCallPath (rm_call x) = Some arg /\ k = readBasePath arg.
Proof.
  unfold base_of, is_read. case_bool_decide as E; [|by split; [|intros [? _]]].
  destruct (toolCallPath (rm_call x)); cbn; split; [intros [= <-]; eauto|by intros (_ & ? & [= ->] & ->)|done|by intros (_ & ? & ? & _)].
Qed.

(** What the scan kept of the results. *)
Lemma meta_of i c m : result_at i c m -> to_isError m = false -> mkMeta i (toolTargetKey c) c m ∈ ss_resultMeta (scan_entries entries).
Proof.
  intros Hr He. apply (sk_meta _ _ scan_entries_ok). cbn. split; [|done]. destruct Hr as (e & Hi & _). by apply lookup_lt_Some in Hi.
Qed.

Lemma result_at_lt i c m : result_at i c m -> (i < length entries)%nat.
Proof. intros (e & Hi & _). by apply lookup_lt_Some in Hi. Qed.

Lemma answered_again_spec x : x ∈ ss_resultMeta (scan_entries entries) ->
  match rm_key x with Some k => later_in (ss_lastResultIndexByKey (scan_entries entries)) k (rm_index x) | None => false end = true
  <-> answered_again (rm_index x) (rm_call x).
Proof.
  pose proof scan_entries_ok as Hok. intros Hx. pose proof (proj1 (sk_meta _ _ Hok x) Hx) as (_ & _ & _ & Hk). split.
  - destruct (rm_key x) as [k|]; [|done]. intros (j & Hj & Hlt)%later_in_spec.
    destruct (sk_key1 _ _ Hok k j Hj) as (y & Hy & <- & Hyk). apply (sk_meta _ _ Hok) in Hy as (_ & Hr & He & Hyk').
    exists (rm_index y), (rm_call y), (rm_message y), k. by rewrite <- Hyk', <- Hk.
  - intros (j & c' & m' & k & Hlt & Hr & He & Hc & Hc'). rewrite Hk, Hc. apply later_in_spec.
    destruct (sk_key2 _ _ Hok _ k (meta_of j c' m' Hr He)) as (j' & Hj' & Hle); [done|]. exists j'. cbn in Hle. split; [done|lia].
Qed.

Lemma changed_later_spec x : x ∈ ss_resultMeta (scan_entries entries) ->
  is_read x && existsb (fun p => later_in (ss_lastEditIndexByPath (scan_entries entries)) p (rm_index x)) (lookupPaths x) = true
  <-> changed_later (rm_index x) (rm_call x) (rm_message x).
Proof.
  pose proof scan_entries_ok as Hok. intros Hx. unfold is_read, changed_later. rewrite andb_true_iff, bool_decide_eq_true, existsb_exists.
  apply and_iff_compat_l. split.
  - intros (p & Hp%list_elem_of_In%lookupPaths_spec & (j & Hj & Hlt)%later_in_spec).
    destruct (sk_edit1 _ _ Hok p j Hj) as (_ & c' & m' & Hr & Ht). by exists j, c', m', p.
  - intros (j & c' & m' & p & Hlt & Hr & Ht & Hp). exists p. split; [by apply list_elem_of_In, lookupPaths_spec|]. apply later_in_spec.
    destruct (sk_edit2 _ _ Hok j c' m' p (result_at_lt _ _ _ Hr) Hr Ht) as (j' & Hj' & Hle). exists j'. split; [done|lia].
Qed.

Lemma contained_spec i :
  (exists g, g ∈ readsByBasePath (ss_resultMeta (scan_entries entries)) /\ i ∈ contained_reads g.2)
  <-> exists x y k, x ∈ ss_resultMeta (scan_entries entries) /\ y ∈ ss_resultMeta (scan_entries entries) /\ base_of x = Some k /\ base_of y = Some k
      /\ rm_index x = i /\ (i < rm_index y)%nat /\ readSupersedesRead (rm_call y) (rm_call x) = true.
Proof.
  set (l := ss_resultMeta (scan_entries entries)). destruct (readsByBasePath_ok l) as [_ Hg].
  assert (Hs : forall k, StronglySorted (fun x y => rm_index x < rm_index y)%nat (of_key base_of k l))
    by (intros k; apply sorted_filter, (sk_sorted _ _ scan_entries_ok)).
  pose proof (fun k x => elem_of_of_key base_of k l x) as Hin.
  split.
  - intros ([k ms] & [-> _]%Hg & Hi). cbn in Hi. apply contained_reads_spec in Hi as (x & y & [? ?]%Hin & [? ?]%Hin & ? & ? & ?); [|done].
    by exists x, y, k.
  - intros (x & y & k & Hx & Hy & Hkx & Hky & Hrest). exists (k, of_key base_of k l). assert (Hxk : x ∈ of_key base_of k l) by by apply Hin. split.
    + apply Hg. split; [done|]. intros E. rewrite E in Hxk. by apply elem_of_nil in Hxk.
    + apply (proj2 (contained_reads_spec _ i (Hs k))). exists x, y. split; [done|]. split; [by apply Hin|done].
Qed.

Lemma read_in_larger_spec i :
  (exists g, g ∈ readsByBasePath (ss_resultMeta (scan_entries entries)) /\ i ∈ contained_reads g.2)
  <-> exists c m, result_at i c m /\ to_isError m = false /\ read_in_larger i c.
Proof.
  rewrite contained_spec. pose proof (sk_meta _ _ scan_entries_ok) as Hm. split.
  - intros (x & y & k & Hx & Hy & (N & arg & A & ->)%base_of_spec & (N' & arg' & A' & Hb)%base_of_spec & <- & Hlt & Hc).
    apply supersedes_spec in Hc as (a & a' & r & r' & B & B' & R & R' & Hc). apply Hm in Hx as (_ & Hx & He & _), Hy as (_ & Hy & He' & _).
    simplify_eq. exists (rm_call x), (rm_message x). split; [done|]. split; [done|].
    by exists (rm_index y), (rm_call y), (rm_message y), arg, arg', r, r'.
  - intros (c & m & Hr & He & j & c' & m' & arg & arg' & r & r' & Hlt & Hr' & He' & N & N' & A & A' & Hb & R & R' & Hc).
    exists (mkMeta i (toolTargetKey c) c m), (mkMeta j (toolTargetKey c') c' m'), (readBasePath arg).
    repeat (split; [by apply meta_of|]). rewrite !base_of_spec, supersedes_spec. cbn. repeat split; eauto 10.
Qed.

(** C28: an output is called stale exactly when it is the successful result of a known call and a later
    successful result answers the same question, or it is a read of a file that a later result shows to be
    changed, by the name in the call or the name it resolved to, or the one range it shows lies strictly inside
    the one range of a later read of the same file; the passes over maps and groups compute this. *)
Theorem stale_exact i :
  i ∈ buildStalenessIndex entries <->
  exists c m, result_at i c m /\ to_isError m = false /\ (answered_again i c \/ changed_later i c m \/ read_in_larger i c).
Proof.
  unfold buildStalenessIndex. rewrite elem_of_union, !elem_of_list_to_set, list_elem_of_bind, list_elem_of_fmap.
  transitivity ((exists x, i = rm_index x /\ x ∈ ss_resultMeta (scan_entries entries) /\ (answered_again (rm_index x) (rm_call x) \/ changed_later (rm_index x) (rm_call x) (rm_message x)))
                \/ exists c m, result_at i c m /\ to_isError m = false /\ read_in_larger i c).
  - rewrite <- read_in_larger_spec. apply Morphisms_Prop.or_iff_morphism.
    + apply Morphisms_Prop.ex_iff_morphism. intros x. apply and_iff_compat_l. rewrite list_elem_of_In, filter_In, <- list_elem_of_In.
      unfold superseded. rewrite orb_true_iff. split; intros [Hx H]; (split; [done|]); by rewrite answered_again_spec, changed_later_spec in * by done.
    + apply Morphisms_Prop.ex_iff_morphism. intros g. apply and_comm.
  - pose proof (sk_meta _ _ scan_entries_ok) as Hm. split.
    + intros [(x & -> & (_ & Hr & He & _)%Hm & H)|(c & m & ? & ? & ?)]; [|by exists c, m; auto].
      exists (rm_call x), (rm_message x). tauto.
    + intros (c & m & Hr & He & H). apply Logic.or_assoc in H as [H|H]; [left|right; by exists c, m]. exists (mkMeta i (toolTargetKey c) c m). cbn. split; [done|]. split; [by apply meta_of|done].
Qed.

End staleness.

(** ** Examples *)

Module PruningFixture.
#[export] Instance clock : Clock := fun _ => 0.

Definition called (id name path : string) : AgentMessage :=
  MAssistant (mkAssistant [ToolCallBlock (js id) (js name) [(js "path", JStr (js path))] None] (js "p") (js "m") StopEnd None).
Definition returned (id name : string) : AgentMessage :=
  MToolResult (js id) (js name) (ContentBlocks [TextBlock (replicate 120 97%N)]) None false None.
Definition entry (id : string) (m : AgentMessage) : SessionEntry := mkEntry (js id) None [] (EMessage m).

Definition digest : ToolResult -> option ToolCall -> option jsstring := resultDigest (fun s => s).
Definition config : PruneConfig := mkPruneConfig 1000 1 [js "read"] (Some 0) (Some [js "read"]).
Definition options : PruneToolOutputsOptions := mkPruneOptions None None None.

(** A file is read, then edited. *)
Definition read_edit : list SessionEntry :=
  [entry "a" (called "1" "read" "f:1-20"); entry "b" (returned "1" "read"); entry "c" (called "2" "edit" "f"); entry "d" (returned "2" "edit")].

(** A range is read, then a larger one. *)
Definition read_larger : list SessionEntry :=
  [entry "a" (called "1" "read" "f:5-10"); entry "b" (returned "1" "read"); entry "c" (called "2" "read" "f:1-20"); entry "d" (returned "2" "read")].

Definition pruned : result prune_error (list SessionEntry * PruneResult) := pruneToolOutputs digest 7 read_edit config options.
Definition pruned_value : list SessionEntry * PruneResult := match pruned with Ok v => v | Err _ => ([], nothing_pruned) end.
End PruningFixture.
Import PruningFixture.

(** The last read of a file is stale once the file is edited, though no later result has its target, and a protected
    tool does not keep it. *)
Example last_read_stale :
  elements (buildStalenessIndex read_edit) = [1%nat] /\ elements (buildStalenessIndex read_larger) = [1%nat]
  /\ pr_prunedIndices pruned_value.2 = [1%nat].
Proof. by vm_compute. Qed.

Lemma prune_exact_witness :
  pruneToolOutputs digest 7 read_edit config options = Ok (pruned_value.1, pruned_value.2)
  /\ sum_tokens pruned_value.1 + pr_tokensSaved pruned_value.2 = sum_tokens read_edit.
Proof.
  assert (E : pruneToolOutputs digest 7 read_edit config options = Ok (pruned_value.1, pruned_value.2)) by (vm_compute; reflexivity).
  split; [exact E|]. exact (proj1 (proj2 (prune_exact digest 7 read_edit config options pruned_value.1 pruned_value.2 E))).
Defined.
