(* ===== verification/ArgumentPruning.v ===== *)
(** * Pruning the arguments of edits (agent/src/compaction/pruning.ts)

    The arguments of a call that changed files are replaced by a marker once every file it changed was
    changed again by a later call.  The files of a patch form groups, a rename with its
    destination, and a group is known by its paths.  The clock is an argument.  The arguments are only dropped when all
    files were changed again, and the savings that are reported are real. *)

From stdpp Require Import gmap.
From S2P Require Import Prelude JsText TextNormalize Json FuzzyMatch SessionEntries Compaction Pruning PruningFacts.

Local Open Scope Z_scope.

Definition pathGroupKey (group : list jsstring) : jsstring := print_json (JArr (JStr <$> sort_by str_leb group)).

Definition pathHintsForGroups (groups : list (list jsstring)) : list jsstring :=
  sort_by str_leb (fold_left (fun s p => set_add p s) (concat groups) []).

Definition isPrunedToolArgumentsSentinel (arguments : list (jsstring * json)) : bool :=
  match lookup_field (js "pruned") arguments, lookup_field (js "reason") arguments with
  | Some (JBool true), Some (JStr reason) => bool_decide (reason = js "stale_tool_arguments")
  | _, _ => false
  end.

Definition isEditToolCall (c : ToolCall) : bool :=
  bool_decide (tc_name c ∈ EDIT_TOOL_NAMES) || bool_decide (tc_customWireName c = Some (js "apply_patch")).

(** ** Which groups were changed last *)

Record AssistantArgumentStalenessIndex := mkArgIndex {
  ai_latestSuccessfulMutationByPathGroup : gmap jsstring (nat * jsstring);
  ai_failedCallIds : gset jsstring
}.

(** The groups a result is about. *)
Definition result_groups (c : ToolCall) (m : ToolResult) : list (list jsstring) :=
  let detailFiles := if bool_decide (tc_name c = js "ast_edit") then resultDetailFiles m else [] in
  match detailFiles with
  | [] => editToolPathGroups c
  | _ => (fun file => [file]) <$> detailFiles
  end.

(** Those of them that the result does not show to have failed. *)
Definition mutated_groups (c : ToolCall) (m : ToolResult) : list (list jsstring) :=
  let successfulPaths := successfulEditPaths m in
  List.filter (fun group => match successfulPaths with
                            | Some ps => existsb (fun p => bool_decide (p ∈ ps)) group
                            | None => true
                            end) (result_groups c m).

Definition argument_scan (calls : gmap jsstring ToolCall) (st : AssistantArgumentStalenessIndex) (ie : nat * SessionEntry) :
    AssistantArgumentStalenessIndex :=
  let '(i, e) := ie in
  let 'mkArgIndex latest failed := st in
  match getToolResultMessage e with
  | None => st
  | Some m =>
      match calls !! to_toolCallId m with
      | None => st
      | Some c =>
          if negb (isEditToolCall c) then st
          else if bool_decide (result_groups c m = []) then st
          else if to_isError m then mkArgIndex latest ({[tc_id c]} ∪ failed)
          else
            let mutated := mutated_groups c m in
            mkArgIndex (fold_left (fun l group => <[pathGroupKey group := (i, tc_id c)]> l) mutated latest)
              (if bool_decide (mutated = []) then {[tc_id c]} ∪ failed else failed)
      end
  end.

Definition buildAssistantArgumentStalenessIndex (entries : list SessionEntry) : AssistantArgumentStalenessIndex :=
  fold_left (argument_scan (callsById entries)) (indexed entries) (mkArgIndex ∅ ∅).

(** ** Candidates *)

(** A call is the block [gc_block] of the entry [gc_index]. *)
Record ArgumentCandidate := mkArgCandidate {
  gc_index : nat;
  gc_block : nat;
  gc_callId : jsstring;
  gc_pathHints : list jsstring;
  gc_originalChars : Z
}.

(** Every group of the call was changed later, by another call. *)
Definition groups_stale (index : AssistantArgumentStalenessIndex) (i : nat) (c : ToolCall) : bool :=
  forallb (fun group => match ai_latestSuccessfulMutationByPathGroup index !! pathGroupKey group with
                        | Some (j, callId) => (i <? j)%nat && negb (bool_decide (callId = tc_id c))
                        | None => false
                        end) (editToolPathGroups c).

Definition argument_candidate (index : AssistantArgumentStalenessIndex) (i : nat) (insideProtectWindow : bool)
    (kb : nat * content_block) : list ArgumentCandidate :=
  match kb.2 with
  | ToolCallBlock id name args wire =>
      let c := mkCall id name args wire in
      if negb (isEditToolCall c) then []
      else if isPrunedToolArgumentsSentinel args then []
      else if insideProtectWindow || bool_decide (id ∈ ai_failedCallIds index) then []
      else if bool_decide (editToolPathGroups c = []) then []
      else if groups_stale index i c
      then [mkArgCandidate i kb.1 id (pathHintsForGroups (editToolPathGroups c)) (arr_len (print_json (JObj args)))]
      else []
  | _ => []
  end.

Section arguments.
Context `{Clock}.

Definition collect_arguments (config : PruneConfig) (index : AssistantArgumentStalenessIndex) (fence : option nat)
    (st : Z * list ArgumentCandidate) (ie : nat * SessionEntry) : Z * list ArgumentCandidate :=
  let '(accumulatedTokens, candidates) := st in
  let '(i, e) := ie in
  match se_body e with
  | EMessage message =>
      if behind_fence fence i then st
      else match message with
           | MAssistant m =>
               (accumulatedTokens + estimateEntryTokens e,
                candidates ++ (imap pair (am_content m) ≫= argument_candidate index i (accumulatedTokens <? pc_protectTokens config)))
           | _ => st
           end
  | _ => st
  end.

Definition argument_candidates (entries : list SessionEntry) (config : PruneConfig) : list ArgumentCandidate :=
  (fold_left (collect_arguments config (buildAssistantArgumentStalenessIndex entries)
                (recentTurnFenceStart entries (default 2 (pc_protectRecentTurns config))))
     (rev (indexed entries)) (0, [])).2.

(** ** Staging and pruning *)

Definition PrunedToolArgumentsSentinel (prunedAt : Z) (c : ArgumentCandidate) : list (jsstring * json) :=
  [(js "pruned", JBool true); (js "reason", JStr (js "stale_tool_arguments")); (js "pathHints", JArr (JStr <$> gc_pathHints c));
   (js "originalChars", JNum (gc_originalChars c)); (js "prunedAt", JNum prunedAt)].

Definition prune_block (prunedAt : Z) (c : ArgumentCandidate) (b : content_block) : content_block :=
  match b with
  | ToolCallBlock id name _ wire => ToolCallBlock id name (PrunedToolArgumentsSentinel prunedAt c) wire
  | _ => b
  end.

(** The content with the arguments of the candidates replaced, found by the identifiers of the calls. *)
Definition staged_block (prunedAt : Z) (candidates : list ArgumentCandidate) (b : content_block) : content_block :=
  match b with
  | ToolCallBlock id _ _ _ =>
      match last (List.filter (fun c => bool_decide (gc_callId c = id)) candidates) with
      | Some c => prune_block prunedAt c b
      | None => b
      end
  | _ => b
  end.

Definition map_content (f : list content_block -> list content_block) (e : SessionEntry) : SessionEntry :=
  match se_body e with
  | EMessage (MAssistant (mkAssistant content provider model stop usage)) =>
      mkEntry (se_id e) (se_parentId e) (se_timestamp e) (EMessage (MAssistant (mkAssistant (f content) provider model stop usage)))
  | _ => e
  end.

Definition stagedEntry (prunedAt : Z) (candidates : list ArgumentCandidate) (e : SessionEntry) : SessionEntry :=
  map_content (fmap (staged_block prunedAt candidates)) e.

Definition candidatesByEntry (candidates : list ArgumentCandidate) : list (nat * list ArgumentCandidate) :=
  fold_left (fun groups c => group_add (gc_index c) c groups) candidates [].

Definition argument_savings (prunedAt : Z) (entries : list SessionEntry) (group : nat * list ArgumentCandidate) : Z :=
  match entries !! group.1 with
  | Some e => Z.max 0 (estimateEntryTokens e - estimateEntryTokens (stagedEntry prunedAt group.2 e))
  | None => 0
  end.

Definition admittedGroups (prunedAt : Z) (entries : list SessionEntry) (groups : list (nat * list ArgumentCandidate)) :
    list (nat * list ArgumentCandidate) :=
  List.filter (fun g => negb (argument_savings prunedAt entries g =? 0)) groups.

(** [candidate.call.arguments = ...] *)
Definition prune_call (prunedAt : Z) (entries : list SessionEntry) (c : ArgumentCandidate) : list SessionEntry :=
  alter (map_content (alter (prune_block prunedAt c) (gc_block c))) (gc_index c) entries.

Record AssistantArgumentPruneResult := mkArgPruned {
  gr_argumentPrunedCount : nat;
  gr_argumentTokensSaved : Z;
  gr_prunedIndices : list nat
}.

Definition no_arguments_pruned : AssistantArgumentPruneResult := mkArgPruned 0 0 [].

Definition sum_argument_savings (prunedAt : Z) (entries : list SessionEntry) (groups : list (nat * list ArgumentCandidate)) : Z :=
  foldr (fun g n => argument_savings prunedAt entries g + n) 0 groups.

(** The entries afterwards, and what is returned. *)
Definition pruneAssistantToolArguments (now : Z) (entries : list SessionEntry) (config : PruneConfig) :
    list SessionEntry * AssistantArgumentPruneResult :=
  let candidates := argument_candidates entries config in
  if bool_decide (candidates = []) then (entries, no_arguments_pruned)
  else
    let admitted := admittedGroups now entries (candidatesByEntry candidates) in
    let argumentTokensSaved := sum_argument_savings now entries admitted in
    if (argumentTokensSaved <? pc_minimumSavings config) || bool_decide (admitted = []) then (entries, no_arguments_pruned)
    else
      let pruned := admitted ≫= snd in
      (fold_left (prune_call now) pruned entries, mkArgPruned (length pruned) argumentTokensSaved admitted.*1).

End arguments.

(** ** Keys of groups *)

Lemma pathGroupKey_inj g h : pathGroupKey g = pathGroupKey h -> g ≡ₚ h.
Proof.
  unfold pathGroupKey. intros E. destruct (print_json_inj (JArr (JStr <$> sort_by str_leb g)) (JArr (JStr <$> sort_by str_leb h)) [] [] I I) as [E' _].
  { by rewrite E. }
  injection E' as E'. apply list_fmap_eq_inj in E'; [|by intros ?? [=]]. by rewrite <- (sort_by_perm str_leb g), E', sort_by_perm.
Qed.

(** ** The index *)

Section index.
Variable entries : list SessionEntry.

(** The result at [j] shows that the call [c] changed the group. *)
Definition changed_at (j : nat) (c : ToolCall) (group : list jsstring) : Prop :=
  exists m, result_at entries j c m /\ isEditToolCall c = true /\ to_isError m = false /\ group ∈ mutated_groups c m.

(** The result at [j] is a failure of an edit. *)
Definition failed_at (j : nat) (c : ToolCall) : Prop :=
  exists m, result_at entries j c m /\ isEditToolCall c = true /\ result_groups c m <> []
    /\ (to_isError m = true \/ mutated_groups c m = []).

Record index_ok (n : nat) (st : AssistantArgumentStalenessIndex) : Prop := {
  ix_latest k j id : ai_latestSuccessfulMutationByPathGroup st !! k = Some (j, id) ->
    exists c group, changed_at j c group /\ tc_id c = id /\ pathGroupKey group = k;
  ix_failed j c : (j < n)%nat -> failed_at j c -> tc_id c ∈ ai_failedCallIds st
}.

Lemma set_groups_lookup (v : nat * jsstring) (gs : list (list jsstring)) (m : gmap jsstring (nat * jsstring)) (k : jsstring) (x : nat * jsstring) :
  fold_left (fun l group => <[pathGroupKey group := v]> l) gs m !! k = Some x ->
  (x = v /\ exists g, g ∈ gs /\ pathGroupKey g = k) \/ m !! k = Some x.
Proof.
  revert m. induction gs as [|g gs IH]; intros m Hk; [by right|]. cbn in Hk. destruct (IH _ Hk) as [(-> & g' & ? & ?)|Hm].
  - left. split; [done|]. exists g'. set_solver.
  - apply lookup_insert_Some in Hm as [[<- <-]|[_ ?]]; [|by right]. left. split; [done|]. exists g. set_solver.
Qed.

(** A result that adds a failure or nothing. *)
Lemma index_same n st failed : index_ok n st -> ai_failedCallIds st ⊆ failed -> (forall c, failed_at n c -> tc_id c ∈ failed) ->
  index_ok (S n) (mkArgIndex (ai_latestSuccessfulMutationByPathGroup st) failed).
Proof.
  intros [H1 H2] Hsub Hn. split; [done|]. intros j c Hj Hf. destruct (decide (j = n)) as [->|]; [by apply Hn|].
  apply Hsub, (H2 j c); [lia|done].
Qed.

Lemma index_step n st e : index_ok n st -> entries !! n = Some e -> index_ok (S n) (argument_scan (callsById entries) st (n, e)).
Proof.
  intros Hok He. destruct st as [latest failed]. unfold argument_scan.
  assert (Hskip : (forall c, ~ failed_at n c) -> index_ok (S n) (mkArgIndex latest failed)).
  { intros Hno. apply (index_same n _ failed Hok); [done|]. intros c Hf. by destruct (Hno c). }
  destruct (getToolResultMessage e) as [m|] eqn:Em; [|apply Hskip; intros c (m & (e' & ? & ? & _) & _); congruence].
  destruct (callsById entries !! to_toolCallId m) as [c|] eqn:Ec; [|apply Hskip; intros c (m' & (e' & ? & ? & ?) & _); congruence].
  assert (Hr : result_at entries n c m) by by exists e.
  assert (Hf : forall c', failed_at n c' -> c' = c /\ isEditToolCall c = true /\ result_groups c m <> [] /\ (to_isError m = true \/ mutated_groups c m = [])).
  { intros c' (m' & Hr' & H). by destruct (result_at_fun entries n _ _ _ _ Hr Hr') as [<- <-]. }
  destruct (isEditToolCall c) eqn:Ed; cbn [negb]; [|apply Hskip; intros c' Hf'%Hf; naive_solver].
  case_bool_decide as Eg; [apply Hskip; intros c' Hf'%Hf; naive_solver|].
  destruct (to_isError m) eqn:Ee.
  { apply (index_same n _ _ Hok); [set_solver|]. intros c' [-> _]%Hf. set_solver. }
  split; cbn [ai_latestSuccessfulMutationByPathGroup ai_failedCallIds].
  - intros k j id [([= -> ->] & g & Hg & Hk)|Hk]%set_groups_lookup; [exists c, g; split; [by exists m|done]|]. by apply (ix_latest n _ Hok).
  - intros j c' Hj Hf'. destruct (decide (j = n)) as [->|].
    + destruct (Hf c' Hf') as (-> & _ & _ & [?|Hm]); [done|]. rewrite bool_decide_true by done. set_solver.
    + assert (tc_id c' ∈ failed) by (apply (ix_failed n _ Hok j c'); [lia|done]). case_bool_decide; set_solver.
Qed.

Lemma index_built : index_ok (length entries) (buildAssistantArgumentStalenessIndex entries).
Proof.
  apply (loop_forward entries _ index_ok); [|intros; by apply index_step]. split; [|lia]. intros k j id Hk. cbn [ai_latestSuccessfulMutationByPathGroup] in Hk. by apply lookup_empty_Some in Hk.
Qed.

(** All files of a call were changed again later, by others, and no result of the call is a failure. *)
Definition arguments_stale (i : nat) (c : ToolCall) : Prop :=
  isEditToolCall c = true /\ editToolPathGroups c <> []
  /\ (forall g, g ∈ editToolPathGroups c -> exists j c' g', (i < j)%nat /\ changed_at j c' g' /\ tc_id c' <> tc_id c /\ g' ≡ₚ g)
  /\ (forall j c', failed_at j c' -> tc_id c' <> tc_id c).

Lemma failed_at_lt j c : failed_at j c -> (j < length entries)%nat.
Proof. intros (m & Hr & _). by apply result_at_lt in Hr. Qed.

Lemma candidate_stale i window kb c : c ∈ argument_candidate (buildAssistantArgumentStalenessIndex entries) i window kb ->
  exists id name args wire, kb.2 = ToolCallBlock id name args wire /\ window = false /\ isPrunedToolArgumentsSentinel args = false
    /\ arguments_stale i (mkCall id name args wire)
    /\ c = mkArgCandidate i kb.1 id (pathHintsForGroups (editToolPathGroups (mkCall id name args wire))) (arr_len (print_json (JObj args))).
Proof.
  unfold argument_candidate. pose proof index_built as Hix. destruct kb as [k [| |id name args wire| |]]; cbn [fst snd]; try by intros Hc%elem_of_nil.
  destruct (isEditToolCall _) eqn:Ed; cbn [negb]; [|by intros Hc%elem_of_nil].
  destruct (isPrunedToolArgumentsSentinel args) eqn:Es; [by intros Hc%elem_of_nil|].
  destruct (window || _) eqn:Ew; [by intros Hc%elem_of_nil|]. apply orb_false_iff in Ew as [-> Ef]. apply bool_decide_eq_false in Ef.
  case_bool_decide as Eg; [by intros Hc%elem_of_nil|]. destruct (groups_stale _ i _) eqn:Est; [|by intros Hc%elem_of_nil].
  intros ->%list_elem_of_singleton. exists id, name, args, wire. repeat (split; [done|]). split; [|done].
  split; [done|]. split; [done|]. split.
  - intros g Hg. unfold groups_stale in Est. rewrite forallb_forall in Est. specialize (Est g (proj1 (list_elem_of_In _ _) Hg)).
    destruct (_ !! pathGroupKey g) as [[j id']|] eqn:El; [|done]. apply andb_true_iff in Est as [Hj%Nat.ltb_lt Hid].
    apply negb_true_iff, bool_decide_eq_false in Hid. destruct (ix_latest _ _ Hix _ _ _ El) as (c' & g' & Hch & <- & Hk).
    exists j, c', g'. split; [done|]. split; [done|]. split; [done|]. by apply pathGroupKey_inj.
  - intros j c' Hf E. destruct Ef. cbn in E. rewrite <- E. apply (ix_failed _ _ Hix j c'); [by apply failed_at_lt in Hf|done].
Qed.

End index.

(** ** Candidates *)

Section arguments.
Context `{Clock}.

(** The tokens of the assistant's messages from [n] on that the fence does not cover. *)
Definition window_tokens (fence : option nat) (entries : list SessionEntry) (n : nat) : Z :=
  foldr (fun ie t => (if behind_fence fence ie.1 then 0
                      else match se_body ie.2 with EMessage (MAssistant _) => estimateEntryTokens ie.2 | _ => 0 end) + t)
    0 (drop n (indexed entries)).

Definition content_of (e : SessionEntry) : list content_block :=
  match se_body e with EMessage (MAssistant m) => am_content m | _ => [] end.

Definition fence_of (entries : list SessionEntry) (config : PruneConfig) : option nat :=
  recentTurnFenceStart entries (default 2 (pc_protectRecentTurns config)).

(** What makes a call's arguments prunable. *)
Definition arguments_prunable (entries : list SessionEntry) (config : PruneConfig) (i : nat) (c : ToolCall) : Prop :=
  arguments_stale entries i c /\ isPrunedToolArgumentsSentinel (tc_arguments c) = false
  /\ behind_fence (fence_of entries config) i = false
  /\ pc_protectTokens config <= window_tokens (fence_of entries config) entries (S i).

(** A candidate names a call of an entry. *)
Definition argument_ok (entries : list SessionEntry) (config : PruneConfig) (c : ArgumentCandidate) : Prop :=
  exists e name args wire, entries !! gc_index c = Some e
    /\ content_of e !! gc_block c = Some (ToolCallBlock (gc_callId c) name args wire)
    /\ arguments_prunable entries config (gc_index c) (mkCall (gc_callId c) name args wire)
    /\ gc_originalChars c = arr_len (print_json (JObj args)).

Lemma indexed_lookup (entries : list SessionEntry) n e : entries !! n = Some e -> indexed entries !! n = Some (n, e).
Proof. intros He. unfold indexed. by rewrite list_lookup_imap, He. Qed.

Lemma imap_pair_elem {A} (l : list A) k x : (k, x) ∈ imap pair l -> l !! k = Some x.
Proof.
  intros (i & Hi)%list_elem_of_lookup. rewrite list_lookup_imap in Hi. destruct (l !! i) as [y|] eqn:E; [|done]. cbn in Hi. by simplify_eq.
Qed.

Lemma arguments_collected entries config : Forall (argument_ok entries config) (argument_candidates entries config).
Proof.
  unfold argument_candidates. fold (fence_of entries config).
  apply (loop_backward entries _ (fun n st => st.1 = window_tokens (fence_of entries config) entries n /\ Forall (argument_ok entries config) st.2) (0, [])).
  - split; [|constructor]. unfold window_tokens. rewrite drop_ge; [done|]. unfold indexed. by rewrite length_imap.
  - intros n [acc l] e [Hacc Hl] He. cbn [fst snd] in *. unfold collect_arguments.
    assert (Hw : window_tokens (fence_of entries config) entries n = (if behind_fence (fence_of entries config) n then 0
                 else match se_body e with EMessage (MAssistant _) => estimateEntryTokens e | _ => 0 end) + acc).
    { unfold window_tokens in *. rewrite (drop_S _ _ _ (indexed_lookup entries n e He)). cbn [foldr fst snd]. by rewrite Hacc. }
    destruct (behind_fence (fence_of entries config) n) eqn:Ef; [destruct (se_body e); by split; [cbn [fst]; lia|]|].
    destruct (se_body e) as [msg|x0|x0 x1|x0|x0|x0 x1|x0 x1|x0 x1 x2 x3 x4|x0 x1|x0 x1 x2|x0 x1|x0| | | |] eqn:Eb; try (split; cbn [fst]; [lia|done]).
    destruct msg as [x0|x0|m|x0 x1 x2 x3 x4 x5|x0 x1 x2 x3 x4 x5|x0 x1|x0 x1 x2|x0 x1 x2 x3 x4|x0 x1|]; try (split; cbn [fst]; [lia|done]).
    split; cbn [fst snd]; [lia|]. apply Forall_app. split; [done|]. apply Forall_forall.
    intros c ([k b] & Hc & Hb%imap_pair_elem)%list_elem_of_bind.
    apply candidate_stale in Hc as (id & name & args & wire & Eb' & Ew & Es & Hst & ->). cbn [fst snd] in *. subst b.
    apply Z.ltb_ge in Ew. exists e, name, args, wire. cbn [gc_index gc_block gc_callId gc_originalChars]. split; [done|].
    split; [unfold content_of; by rewrite Eb|]. split; [|done]. split; [done|]. split; [done|]. split; [done|]. by rewrite <- Hacc.
Qed.

(** ** The entries afterwards *)

(** No two calls of a message have the same identifier. *)
Definition call_id (b : content_block) : option jsstring := match b with ToolCallBlock id _ _ _ => Some id | _ => None end.

Definition distinct_call_ids (e : SessionEntry) : Prop :=
  forall k k' id, content_of e !! k ≫= call_id = Some id -> content_of e !! k' ≫= call_id = Some id -> k = k'.

(** Several candidates for one block: the last one stays. *)
Lemma prune_block_last now (p : ArgumentCandidate -> bool) cs b :
  fold_left (fun b c => if p c then prune_block now c b else b) cs b
  = match last (List.filter p cs) with Some c => prune_block now c b | None => b end.
Proof.
  induction cs as [|c cs IH] using rev_ind; [done|]. rewrite fold_left_app, List.filter_app. cbn [fold_left List.filter].
  rewrite IH. destruct (p c); [rewrite last_snoc|by rewrite app_nil_r].
  destruct (last (List.filter p cs)); [|done]. by destruct b.
Qed.

Definition prune_blocks (now : Z) (cs : list ArgumentCandidate) (bs : list content_block) : list content_block :=
  fold_left (fun bs c => alter (prune_block now c) (gc_block c) bs) cs bs.

Lemma prune_blocks_lookup now cs bs k : prune_blocks now cs bs !! k
  = (fun b => fold_left (fun b c => if bool_decide (gc_block c = k) then prune_block now c b else b) cs b) <$> bs !! k.
Proof.
  unfold prune_blocks. revert bs. induction cs as [|c cs IH]; intros bs; cbn [fold_left]; [by destruct (bs !! k)|]. rewrite IH.
  case_bool_decide as E; [subst k; rewrite list_lookup_alter_eq; by destruct (bs !! gc_block c)|].
  by rewrite list_lookup_alter_ne.
Qed.

Lemma map_content_twice f g e : map_content f (map_content g e) = map_content (fun bs => f (g bs)) e.
Proof. unfold map_content. destruct e as [? ? ? [[]| | | | | | | | | | | | | | |]]; try done. by destruct m. Qed.

Lemma map_content_ext f g e : f (content_of e) = g (content_of e) -> map_content f e = map_content g e.
Proof. unfold map_content, content_of. destruct (se_body e) as [[]| | | | | | | | | | | | | | |]; try done. destruct m. cbn. by intros ->. Qed.

Lemma map_content_id f e : f (content_of e) = content_of e -> map_content f e = e.
Proof. unfold map_content, content_of. destruct e as [? ? ? [[]| | | | | | | | | | | | | | |]]; try done. destruct m. cbn. by intros ->. Qed.

Lemma prune_calls_lookup now cs es i : fold_left (prune_call now) cs es !! i
  = map_content (prune_blocks now (List.filter (fun c => bool_decide (gc_index c = i)) cs)) <$> es !! i.
Proof.
  revert es. induction cs as [|c cs IH]; intros es; cbn [fold_left List.filter].
  - destruct (es !! i) as [e|]; [|done]. cbn. f_equal. symmetry. by apply map_content_id.
  - rewrite IH. unfold prune_call. case_bool_decide as E; [subst i; rewrite list_lookup_alter_eq|by rewrite list_lookup_alter_ne].
    destruct (es !! gc_index c) as [e|]; [|done]. cbn. by rewrite map_content_twice.
Qed.

(** Where identifiers are distinct, the entry becomes what was staged. *)
Lemma staged_is_pruned now entries config i e cs :
  entries !! i = Some e -> distinct_call_ids e -> Forall (argument_ok entries config) cs -> Forall (fun c => gc_index c = i) cs ->
  map_content (prune_blocks now cs) e = stagedEntry now cs e.
Proof.
  intros He Hd Hok Hi. apply map_content_ext, list_eq. intros k. rewrite prune_blocks_lookup, list_lookup_fmap.
  destruct (content_of e !! k) as [b|] eqn:Eb; [|done]. cbn. f_equal. rewrite prune_block_last.
  destruct b as [| |id name args wire| |]; cbn [staged_block]; try (by destruct (last _)).
  rewrite (List.filter_ext_in _ (fun c => bool_decide (gc_callId c = id))); [done|]. intros c Hc%list_elem_of_In.
  rewrite Forall_forall in Hok, Hi. destruct (Hok c Hc) as (e' & name' & args' & wire' & He' & Hb & _). rewrite (Hi c Hc), He in He'.
  injection He' as <-. apply bool_decide_ext. split.
  - intros E. rewrite E, Eb in Hb. congruence.
  - intros E. apply (Hd _ _ id); [rewrite Hb|rewrite Eb]; cbn; congruence.
Qed.

(** ** The groups that are admitted *)

Definition at_index (c : ArgumentCandidate) : option nat := Some (gc_index c).

Lemma candidatesByEntry_ok cs : groups_ok at_index cs (candidatesByEntry cs).
Proof. unfold candidatesByEntry. rewrite <- (groups_fold_ext at_index); [apply groups_fold|done]. Qed.

Record admitted_ok (entries : list SessionEntry) (config : PruneConfig) (gs : list (nat * list ArgumentCandidate)) : Prop := {
  ad_nodup : NoDup gs.*1;
  ad_index g : g ∈ gs -> Forall (fun c => gc_index c = g.1) g.2;
  ad_ok g : g ∈ gs -> Forall (argument_ok entries config) g.2
}.

Lemma NoDup_filter_keys {K A} (p : K * A -> bool) (l : list (K * A)) : NoDup l.*1 -> NoDup (List.filter p l).*1.
Proof.
  induction l as [|x l IH]; cbn; [done|]. intros [Hx Hl]%NoDup_cons. destruct (p x); [|by apply IH]. cbn. apply NoDup_cons. split; [|by apply IH].
  intros (y & Ey & Hy%list_elem_of_In%filter_In)%list_elem_of_fmap. destruct Hx. rewrite Ey. apply list_elem_of_fmap_2, list_elem_of_In, Hy.
Qed.

Lemma admitted_groups_ok now entries config :
  admitted_ok entries config (admittedGroups now entries (candidatesByEntry (argument_candidates entries config))).
Proof.
  set (cs := argument_candidates entries config). destruct (candidatesByEntry_ok cs) as [Hnd Hg].
  assert (Hin : forall g, g ∈ admittedGroups now entries (candidatesByEntry cs) -> g.2 = of_key at_index g.1 cs).
  { intros [i l] [H' _]%list_elem_of_In%filter_In. by apply list_elem_of_In, Hg in H' as [-> _]. }
  split; [by apply NoDup_filter_keys| |].
  - intros g ->%Hin. apply Forall_forall. intros c [_ E]%elem_of_of_key. by injection E.
  - intros g ->%Hin. apply Forall_forall. intros c [Hc _]%elem_of_of_key. pose proof (arguments_collected entries config) as Hok.
    rewrite Forall_forall in Hok. by apply Hok.
Qed.

(** The candidates of an entry are those of its group. *)
Lemma pruned_of_index entries config gs i : admitted_ok entries config gs ->
  let mine := List.filter (fun c => bool_decide (gc_index c = i)) (gs ≫= snd) in
  (forall cs, (i, cs) ∈ gs -> mine = cs) /\ (i ∉ gs.*1 -> mine = []).
Proof.
  cbn zeta. intros [Hnd Hix _]. induction gs as [|[j cs0] gs IH]; cbn; [split; [by intros cs Hin%elem_of_nil|done]|].
  cbn in Hnd. apply NoDup_cons in Hnd as [Hj Hnd]. destruct IH as [IH1 IH2]; [done|intros g Hg; apply Hix; set_solver|].
  assert (H0 : List.filter (fun c => bool_decide (gc_index c = i)) cs0 = if bool_decide (j = i) then cs0 else []).
  { assert (Hc : Forall (fun c => gc_index c = j) cs0) by (apply (Hix (j, cs0)); set_solver).
    clear -Hc. induction Hc as [|c cs Hc _ IH]; cbn; [by case_bool_decide|]. rewrite Hc, IH. by case_bool_decide. }
  rewrite List.filter_app, H0. split.
  - intros cs [[= -> ->]|Hin]%elem_of_cons; [rewrite bool_decide_true, IH2 by done; apply app_nil_r|].
    rewrite bool_decide_false; [by apply IH1|]. intros ->. destruct Hj. by apply (list_elem_of_fmap_2 fst _ (i, cs)).
  - intros Hi. rewrite bool_decide_false by set_solver. apply IH2. set_solver.
Qed.

(** The tokens of entries that are changed at some places. *)
Lemma sum_changed {X} (saved : nat * X -> Z) gs (l l' : list SessionEntry) : NoDup gs.*1 -> length l' = length l ->
  (forall i, i ∉ gs.*1 -> l' !! i = l !! i) ->
  (forall g, g ∈ gs -> exists e e', l !! g.1 = Some e /\ l' !! g.1 = Some e' /\ saved g = estimateEntryTokens e - estimateEntryTokens e') ->
  sum_tokens l' + foldr (fun g n => saved g + n) 0 gs = sum_tokens l.
Proof.
  revert l. induction gs as [|[i x] gs IH]; intros l Hnd Hlen Hsame Hch; cbn [foldr].
  { rewrite (list_eq l' l); [lia|]. intros i. apply Hsame. set_solver. }
  cbn in Hnd. apply NoDup_cons in Hnd as [Hi Hnd]. destruct (Hch (i, x)) as (e & e' & He & He' & Hd); [set_solver|]. cbn [fst] in *.
  specialize (IH (<[i := e']> l) Hnd). rewrite length_insert, (sum_insert l i e e' He) in IH. rewrite Hd.
  assert (sum_tokens l' + foldr (fun g n => saved g + n) 0 gs = sum_tokens l - estimateEntryTokens e + estimateEntryTokens e'); [|lia].
  apply IH; [done| |].
  - intros j Hj. destruct (decide (j = i)) as [->|Hne]; [rewrite list_lookup_insert_eq; [done|by apply lookup_lt_Some in He]|].
    rewrite list_lookup_insert_ne by done. apply Hsame. set_solver.
  - intros g Hg. destruct (Hch g) as (a & a' & ? & ? & ?); [set_solver|]. exists a, a'. rewrite list_lookup_insert_ne; [done|].
    intros ->. destruct Hi. by apply list_elem_of_fmap_2.
Qed.

Lemma prune_calls_length now cs es : length (fold_left (prune_call now) cs es) = length es.
Proof. revert es. induction cs as [|c cs IH]; intros es; cbn; [done|]. rewrite IH. unfold prune_call. apply length_alter. Qed.

(** ** Exactness *)

(** A block of the entry [i] is kept, or it is a call with the marker for its arguments. *)
Definition block_outcome (now : Z) (entries : list SessionEntry) (config : PruneConfig) (i : nat) (b b' : content_block) : Prop :=
  b' = b \/ exists id name args wire c, b = ToolCallBlock id name args wire
    /\ b' = ToolCallBlock id name (PrunedToolArgumentsSentinel now c) wire
    /\ arguments_prunable entries config i (mkCall id name args wire) /\ gc_originalChars c = arr_len (print_json (JObj args)).

Lemma prune_blocks_outcome now entries config i e cs :
  entries !! i = Some e -> Forall (argument_ok entries config) cs -> Forall (fun c => gc_index c = i) cs ->
  Forall2 (block_outcome now entries config i) (content_of e) (prune_blocks now cs (content_of e)).
Proof.
  intros He Hok Hi. apply Forall2_same_length_lookup. split.
  { unfold prune_blocks. generalize (content_of e). clear. induction cs as [|c cs IH]; intros bs; cbn; [done|]. by rewrite <- IH, length_alter. }
  intros k b b' Hb Hb'. rewrite prune_blocks_lookup, Hb in Hb'. cbn in Hb'. rewrite prune_block_last in Hb'. injection Hb' as <-.
  destruct (last _) as [c|] eqn:El; [|by left]. apply last_Some_elem_of, list_elem_of_In, filter_In in El as [Hc%list_elem_of_In Hk%bool_decide_eq_true].
  rewrite Forall_forall in Hok, Hi. destruct (Hok c Hc) as (e' & name & args & wire & He' & Hb' & Hp & Hch). rewrite (Hi c Hc) in He', Hp.
  assert (e' = e) as -> by congruence. rewrite Hk, Hb in Hb'. injection Hb' as ->. right. by exists (gc_callId c), name, args, wire, c.
Qed.

(** C29: pruning arguments does what it reports.  The entries keep their number and places, and one that is not
    listed is unchanged; a listed one keeps its blocks, except that calls may have a marker for
    their arguments: edits of which every group of files was changed again by a later call with another
    identifier, none of which results is a failure, before the recent turns and behind enough newer
    messages.  The tokens reported as saved are exactly what the estimate of the entries
    lost, if no message has two calls with one identifier. *)
Theorem argument_prune_exact now entries config after r :
  pruneAssistantToolArguments now entries config = (after, r) ->
  length after = length entries /\ NoDup (gr_prunedIndices r)
  /\ (forall i, i ∉ gr_prunedIndices r -> after !! i = entries !! i)
  /\ (forall i, i ∈ gr_prunedIndices r -> exists e bs, entries !! i = Some e /\ after !! i = Some (map_content (fun _ => bs) e)
        /\ Forall2 (block_outcome now entries config i) (content_of e) bs)
  /\ (Forall distinct_call_ids entries -> sum_tokens after + gr_argumentTokensSaved r = sum_tokens entries).
Proof.
  unfold pruneAssistantToolArguments. pose proof (admitted_groups_ok now entries config) as Hok.
  set (gs := admittedGroups now entries _) in *.
  match goal with |- (if ?b then _ else if ?c then _ else _) = _ -> _ => destruct b; [|destruct c] end.
  1-2: by intros [= <- <-]; cbn; repeat (split; [done || by apply NoDup_nil || by intros i Hi%elem_of_nil|]); lia.
  intros [= <- <-]. cbn [gr_prunedIndices gr_argumentTokensSaved].
  assert (Hg : forall g, g ∈ gs -> exists e, entries !! g.1 = Some e /\ argument_savings now entries g <> 0).
  { intros g [_ Hs%negb_true_iff%Z.eqb_neq]%list_elem_of_In%filter_In. unfold argument_savings in *. destruct (entries !! g.1) as [e|]; [by exists e|done]. }
  assert (Hat : forall g e, g ∈ gs -> entries !! g.1 = Some e ->
    fold_left (prune_call now) (gs ≫= snd) entries !! g.1 = Some (map_content (prune_blocks now g.2) e)).
  { intros [i cs] e Hin He. cbn [fst snd] in *. destruct (pruned_of_index entries config gs i Hok) as [H1 _]. by rewrite prune_calls_lookup, (H1 cs Hin), He. }
  split; [apply prune_calls_length|]. split; [apply (ad_nodup _ _ _ Hok)|].
  assert (Hout : forall i, i ∉ gs.*1 -> fold_left (prune_call now) (gs ≫= snd) entries !! i = entries !! i).
  { intros i Hi. destruct (pruned_of_index entries config gs i Hok) as [_ H2]. rewrite prune_calls_lookup, (H2 Hi).
    destruct (entries !! i) as [e|]; [|done]. cbn. f_equal. by apply map_content_id. }
  split; [exact Hout|]. split.
  - intros i (g & -> & Hin)%list_elem_of_fmap. destruct (Hg g Hin) as (e & He & _). exists e, (prune_blocks now g.2 (content_of e)).
    split; [done|]. split; [rewrite (Hat g e Hin He); f_equal; by apply map_content_ext|].
    apply prune_blocks_outcome; [done|by apply (ad_ok _ _ _ Hok)|by apply (ad_index _ _ _ Hok)].
  - intros Hd. apply sum_changed; [apply (ad_nodup _ _ _ Hok)|apply prune_calls_length|exact Hout|]. intros g Hin.
    destruct (Hg g Hin) as (e & He & Hs). exists e, (map_content (prune_blocks now g.2) e). split; [done|]. split; [by apply Hat|].
    unfold argument_savings in *. rewrite He in *. rewrite (staged_is_pruned now entries config g.1 e g.2); [lia|done| |by apply (ad_ok _ _ _ Hok)|by apply (ad_index _ _ _ Hok)].
    rewrite Forall_forall in Hd. apply Hd. by eapply list_elem_of_lookup_2.
Qed.

End arguments.

(** ** Examples *)

Module ArgumentFixture.
#[export] Instance clock : Clock := fun _ => 0.

Definition edit (id : string) : AgentMessage :=
  MAssistant (mkAssistant [ToolCallBlock (js id) (js "edit") [(js "path", JStr (js "f")); (js "text", JStr (replicate 400 97%N))] None]
                (js "p") (js "m") StopEnd None).
Definition done_with (id : string) (failed : bool) : AgentMessage :=
  MToolResult (js id) (js "edit") (ContentBlocks [TextBlock (js "ok")]) None failed None.
Definition entry (id : string) (m : AgentMessage) : SessionEntry := mkEntry (js id) None [] (EMessage m).

Definition config : PruneConfig := mkPruneConfig 0 1 [] (Some 0) None.

(** A file is edited twice; the second edit may fail. *)
Definition edited_twice (failed : bool) : list SessionEntry :=
  [entry "a" (edit "1"); entry "b" (done_with "1" false); entry "c" (edit "2"); entry "d" (done_with "2" failed)].

Definition pruned : list SessionEntry * AssistantArgumentPruneResult := pruneAssistantToolArguments 7 (edited_twice false) config.
End ArgumentFixture.
Import ArgumentFixture.

(** The arguments of the first edit go, unless the second failed. *)
Example first_edit_pruned :
  gr_prunedIndices pruned.2 = [0%nat]
  /\ gr_prunedIndices (pruneAssistantToolArguments 7 (edited_twice true) config).2 = [].
Proof. by vm_compute. Qed.

Lemma argument_prune_exact_witness :
  sum_tokens pruned.1 + gr_argumentTokensSaved pruned.2 = sum_tokens (edited_twice false).
Proof.
  assert (E : pruneAssistantToolArguments 7 (edited_twice false) config = (pruned.1, pruned.2)) by apply surjective_pairing.
  apply (argument_prune_exact 7 (edited_twice false) config pruned.1 pruned.2 E).
  repeat (apply Forall_cons; split); [| | | |constructor]; intros [|k] [|k'] id; cbn; try done.
Defined.
